(* ===== verification/_CoqProject ===== *)
-Q . S2P
Prelude.v
Containers.v
PnorEcc.v
Futex.v
Sync.v
SyncMutex.v
SyncRec.v
SyncBarrier.v
PageMgr.v
PageMgrSpec.v
HeapMgr.v
HeapMgrSpec.v
HeapCoalesce.v
HeapBig.v
HeapBigSpec.v
HeapPages.v
HeapHuge.v
HeapSamples.v
Bitfield.v
PtMgr.v
PtMgrInv.v
PtMgrOps.v
PtMgrAdd.v
PtMgrThm.v
PtMgrClaims.v
Sched.v
SchedSpec.v
SchedSteps.v
SchedClaims.v
TaskMgr.v
TaskMgrSpec.v
TaskMgrInv.v
TaskMgrSteps.v
TaskMgrClaims.v
MsgQ.v
MsgQInv.v
MsgQOps.v
MsgQRecv.v
MsgQClaims.v
MsgQReply.v
Spte.v
Vmm.v
VmmSeg.v
VmmSpec.v
VmmOps.v
VmmFault.v
VmmRange.v
VmmStack.v
VmmDev.v
VmmPt.v
VmmSteps.v
VmmClaims.v
VmmSamples.v
SplayTree.v
SplayRot.v
SplayOps.v
SplayIns.v
SplayDel.v
StlMap.v
StlMapThm.v
StlClaims.v
StlSamples.v
LibMem.v
Crc32.v
LibStr.v
Sprintf.v
SprintfNum.v
Stdio.v
Console.v
Deferred.v
DeferredInv.v
DeferredSafe.v
DeferredQueue.v
DeferredClaims.v
Bignum.v
BnInv.v
Sha512.v
EcVerify.v
RomVerify.v
Algorithm.v
