(* ===== verification/Prelude.v ===== *)
(** * Hostboot: a verification library for the core of the firmware

    Hostboot is the firmware that starts a POWER processor: a small kernel
    ([src/src/kernel], [src/src/include/kernel]), a C library
    ([src/src/lib]), the code of a secure ROM that checks what is loaded
    ([src/src/securerom]) and many services that run as tasks ([src/src/usr]).
    This library models the kernel's managers, the C library, the secure ROM and
    the flash's error correction, and proves them correct.  Every definition has the name
    of the function, type or field it translates.

    ** Parts, files and what is proved

    - [Prelude]: outcomes, machine words ([u64], [wrap]), tactics and the
      lemmas on lists and integers every file shares.  [Containers]: the
      intrusive containers of [include/util] (stack, priority queue, keyed
      list).  [Bitfield]: bit fields of 64-bit words.

    - [PnorEcc] ([usr/pnor/ecc.C]): the SEC-DED code of the flash.  Injecting
      and removing is the identity under one flipped bit per word; two flipped
      bits are always reported.

    - [Futex] ([kernel/futexmgr.C]) and [Sync], [SyncMutex], [SyncRec],
      [SyncBarrier] ([lib/sync.C]): mutex, recursive mutex, condition variable
      and barrier as small-step programs, one atomic access or system call per
      step, any number of threads and any schedule: exclusion, no lost wake-up,
      progress.  The protocol of a mutex is proved once, against the class
      [MutexClient], and used by each machine.

    - [PageMgr] ([kernel/pagemgr.C]) and [PageMgrSpec]: the buddy allocator of
      pages; memory is never handed out twice and never lost.

    - [HeapMgr] ([kernel/heapmgr.C]) with [HeapMgrSpec] (small chunks),
      [HeapCoalesce], [HeapBig] and [HeapBigSpec] (page allocations and entry
      points), [HeapHuge] (slots of a reserved block).  The heap uses the class
      [PageAllocator]; [HeapPages] shows that the page manager is an instance,
      and [HeapSamples] runs the heap on it.

    - [PtMgr] ([kernel/ptmgr.C]) with [PtMgrInv] (the abstract view and the
      invariant), [PtMgrOps], [PtMgrAdd], [PtMgrThm], [PtMgrClaims]: the hashed page table
      with the translations the processor keeps; no stale translation is ever
      used, and each operation does to the abstract map what it promises.

    - [Sched] ([kernel/scheduler.C], [timemgr.C]) with [SchedSpec] (where every
      task is), [SchedSteps], [SchedClaims]: no task is lost, a sleeper wakes
      exactly when its time has come.

    - [TaskMgr] ([kernel/taskmgr.C] and the system calls of [syscall.C]) with
      [TaskMgrSpec] (tree of trackers), [TaskMgrInv], [TaskMgrSteps],
      [TaskMgrClaims]: creation, end and join of tasks.

    - [MsgQ] (message calls of [syscall.C], [msghandler.C], [intmsghandler.C],
      [ipc.C]) with [MsgQInv], [MsgQOps], [MsgQRecv] (the invariant), [MsgQClaims] (no task is lost in the whole kernel, a
      queue refines a first-in first-out channel) and [MsgQReply] (a synchronous
      send and its response).

    - [Spte] ([include/kernel/spte.H]): the shadow page table entry.  [Vmm]
      ([kernel/block.C], [blockmsghdlr.C], [basesegment.C]) and [VmmSeg]
      ([devicesegment.C], [stacksegment.C], [segmentmgr.C], [vmmmgr.C]): blocks
      of lazily filled pages, the windows of devices, the stacks of tasks, and
      the page fault that finds the segment of an address.  [VmmSpec] holds the
      invariant [vmm_ok] and the laws of the interfaces, [VmmOps] (blocks),
      [VmmFault], [VmmRange] (loops over pages), [VmmStack] and
      [VmmDev] its preservation and the effect of each operation, [VmmPt] the
      page table as an instance of its interface, [VmmSteps] the step relation
      over the system calls and the responses of the block handlers,
      [VmmClaims] the theorems and [VmmSamples] concrete states.  Shown: each
      translation is backed by a present page with the entry's permissions, or
      by an open window of a device; a fault is handled exactly when the
      permissions and memory allow it; changing permissions and removing pages
      leave no stale translation; a dirty page that is removed is handed once to
      its owner, in order; a window translates to its device and can be
      closed; a stack is guarded at both ends.

    - [SplayTree] ([lib/splaytree.C], [include/util/impl/splaytree.H]): the
      tree under [std::map], with its nodes linked in memory.  [SplayRot] says
      when a tree, or the rest of a tree around a subtree, is in memory, and has
      rotations and the splay; [SplayOps] (walks, searches, the invariant),
      [SplayIns] and [SplayDel] prove the operations.  [StlMap] ([include/util/impl/stlmap.H]) has the
      operations of the map and the promise of each on the sorted list of
      entries, [StlMapThm] that each keeps it, [StlClaims] the theorems and
      [StlSamples] samples.  Shown: any sequence of operations gives the results
      of the sorted list; a splay keeps the order; a copy has the entries of its
      source.  Where the code does other than the comments of [include/map]
      ([at], [upper_bound], ranges with keys the map has, assignment to itself),
      the promise is what the code does and a lemma or example shows it.

    - [LibMem] ([lib/string_utils.C] and the memory functions of
      [lib/string.C]), [LibStr] (strings), [Crc32] ([lib/crc32.C]), [Sprintf] and
      [SprintfNum] ([lib/sprintf.C]), [Stdio] ([lib/stdio.C], [strtoul] of
      [lib/stdlib.C]), [Console] ([kernel/console.C]): the C library.  Shown: the
      effect of each memory and string function on the bytes, with overlap where
      it is allowed; the checksum is a remainder of polynomials; formatted output
      writes only inside its buffer; a printed number is read back.

    - [Deferred] ([kernel/deferred.C]) with [DeferredInv], [DeferredSafe],
      [DeferredQueue], [DeferredClaims]: work that all processors of a core meet
      for, as small steps of every processor: the work before, the main work and
      the work after run in this order with a meeting of all active processors
      between them, a released item is never used, and the processors never all
      wait.

    - [Algorithm] ([include/algorithm], [include/util/impl/qsort.H]): sorting,
      searching, removing and partitioning of the C++ library on a range of a
      container.  Shown: [sort] never leaves its range, permutes it and orders it
      by any strict weak ordering; the searches enclose the elements equivalent to
      a value; what the removals, [partition] and [deduplicate] keep.

    - [Bignum], [BnInv], [EcVerify] ([securerom/ecverify.C]), [Sha512]
      ([securerom/contrib/sha512.C]), [RomVerify] ([securerom/ROM.C]): the secure
      ROM.  [Bignum] has words, products and the two reductions, [BnInv] the
      inverse, [EcVerify] points and ECDSA on P-521.  Shown: each routine computes
      what it should modulo the prime or the order, with the bounds that lazy
      reduction needs; sums of points follow the chord and the tangent; a message
      given in any pieces hashes to its SHA-512; [ROM_verify] accepts a container
      exactly when there is a chain of trust from the machine's keys to the
      payload.

    ** How the parts interact

    The heap calls the page manager through [PageAllocator].  The segments call
    the page table and the page manager through the classes [PageTable] and
    [Frames], with the laws [PageTableLaws] and [FrameLaws]: [PtMgr_table] and
    [PtMgr_laws] show that the page table manager is such a table (its
    [invalidatePT] and the like report the use of a page by calling back
    [SegmentManager::updateRefCount], which is a list of reports here), and
    [PageMgr_frames] that the page manager gives such frames.  Blocks send their
    read and write messages with the message system's [sendMessage].  The mutex and the
    barrier call the futex manager.  The scheduler's tasks are [held] by the
    part of the kernel that blocks them: the task manager's invariant is the
    scheduler's with the joining tasks held, the message system's is the task
    manager's with the tasks in queues and handlers held ([kern_ok]), so a step
    of a lower layer is a step of every higher one ([kstep_task],
    [step_sched]).

    ** Conventions

    State is passed explicitly; an operation is a total function to its
    outcome: a value, an assertion ([KAssert]), the end of the running task
    ([TaskCrash]) or a bad access ([BadAccess]); in the task manager and the
    message system ([res]) a value, an assertion ([Kassert]), an access through a
    pointer of the wrong kind ([Wild]) or [NoFuel].  Recursion that is not structural has fuel, and a lemma or theorem
    shows that the fuel given is enough: the passes of the coalescing loops, two
    nested removals of a tracker, the length of a pending list plus one, sixteen
    buckets of pages, the pages of a range or block, the nodes of a splay tree
    (beyond which its recursion is a bad access, as it overflows the stack), the
    bits of both numbers of Euclid's algorithm, the length of a format or a
    string, the length of a range to sort or search.  For the digits of a double the 400 rounds are an assumption.  In the virtual memory a
    block's size is at most 2^63, a task's number below 2^16 and a device's end
    at most 2^56: above them the fields of an entry or the sums of addresses
    overflow.  Pointers of deferred work have 32 bits, as its packed word has.
    The target is big-endian, [char] is unsigned and [__builtin_clzl(0)] is 64.
    The numbers of the secure ROM are lists of words; that the prime and the order
    are prime is not used: theorems ask that a number has an inverse.
    Counters and addresses are integers with the code's width
    where it can wrap.  Objects are named by their addresses.

    ** Not modelled

    Spinlocks and atomic updates of one word are single steps.  The doorbell,
    the decrementer, saving of registers and traces are left out; so are memory
    ordering, and the deactivation of processors with their deferred work.  In the
    virtual memory the contents of pages, the writing of segment registers, the
    debugging pointers and the destructors of blocks are left out, and a handler's
    response is a step of its own: it is not yet run inside [recvMessage].  The
    associativity of the sum of points is not proved: [zmultiple] is
    double-and-add with the chord and the tangent.  The ROM's emulation of the
    hardware and its assembler entry, the processor manager, the hardware
    procedures and drivers, targeting, error logging, diagnostics and the boot
    steps are not modelled: they are sequences of register accesses or work over
    generated data.  The locks of
    the splay tree are held for a whole operation, which is one step. *)

From Stdlib Require Export ZArith Lia.
From stdpp Require Export base list numbers option gmap.

#[global] Open Scope Z_scope.

(** ** Hint databases and tactics of the development *)

Create HintDb hb.
Create HintDb hbrw.

(** Case analysis on the innermost scrutinee of a [match]/[if] in the goal. *)
Ltac case_scrut :=
  match goal with
  | |- context [match ?x with _ => _ end] =>
      lazymatch x with
      | context [match _ with _ => _ end] => fail
      | _ => destruct x eqn:?
      end
  end.

(** The same in a hypothesis. *)
Ltac case_scrut_in H :=
  match type of H with
  | context [match ?x with _ => _ end] =>
      lazymatch x with
      | context [match _ with _ => _ end] => fail
      | _ => destruct x eqn:?
      end
  end.

(** Turn boolean comparisons in the context into propositions. *)
Ltac b2p :=
  repeat match goal with
  | H : (_ <? _)%Z = true |- _ => apply Z.ltb_lt in H
  | H : (_ <? _)%Z = false |- _ => apply Z.ltb_ge in H
  | H : (_ <=? _)%Z = true |- _ => apply Z.leb_le in H
  | H : (_ <=? _)%Z = false |- _ => apply Z.leb_gt in H
  | H : (_ =? _)%Z = true |- _ => apply Z.eqb_eq in H
  | H : (_ =? _)%Z = false |- _ => apply Z.eqb_neq in H
  | H : (_ <? _)%nat = true |- _ => apply Nat.ltb_lt in H
  | H : (_ <? _)%nat = false |- _ => apply Nat.ltb_ge in H
  | H : (_ <=? _)%nat = true |- _ => apply Nat.leb_le in H
  | H : (_ <=? _)%nat = false |- _ => apply Nat.leb_gt in H
  | H : (_ =? _)%nat = true |- _ => apply Nat.eqb_eq in H
  | H : (_ =? _)%nat = false |- _ => apply Nat.eqb_neq in H
  | H : _ && _ = true |- _ => apply andb_prop in H; destruct H
  | H : _ || _ = false |- _ => apply orb_false_elim in H; destruct H
  | H : negb _ = true |- _ => apply negb_true_iff in H
  | H : negb _ = false |- _ => apply negb_false_iff in H
  end.

(** ** Outcomes: a value, or the abnormal ends the firmware has *)

(** [kassert]/[crit_assert]/[assert] stop the machine, [task_crash] and a bad
    access kill the running task; an access outside every modelled object is
    undefined in the source and is a separate outcome. *)
Inductive fault : Type :=
| KAssert
| TaskCrash
| BadAccess.

Inductive outcome (A : Type) : Type :=
| Done (a : A)
| Crash (f : fault).
Arguments Done {A} a.
Arguments Crash {A} f.

#[global] Instance fault_eq_dec : EqDecision fault.
Proof. solve_decision. Defined.

Definition obind {A B} (m : outcome A) (k : A -> outcome B) : outcome B :=
  match m with
  | Done a => k a
  | Crash f => Crash f
  end.

Declare Scope outcome_scope.
Delimit Scope outcome_scope with outcome.
Notation "'do' x <- m ; k" := (obind m (fun x => k))
  (at level 10, x pattern, m at level 100, k at level 200) : outcome_scope.
Notation "'assert!' b ; k" := (if b then k else Crash KAssert)
  (at level 10, b at level 100, k at level 200) : outcome_scope.
#[global] Open Scope outcome_scope.

Lemma obind_Done {A B} (m : outcome A) (k : A -> outcome B) b :
  obind m k = Done b <-> exists a, m = Done a /\ k a = Done b.
Proof. destruct m; naive_solver. Qed.

(** ** Machine integers *)

(** The value a [w]-bit unsigned variable holds after [x] is stored in it. *)
Definition wrap (w : Z) (x : Z) : Z := x mod 2 ^ w.
Abbreviation u8 := (wrap 8).
Abbreviation u16 := (wrap 16).
Abbreviation u32 := (wrap 32).
Abbreviation u64 := (wrap 64).

Definition is_word (w : Z) (x : Z) : Prop := 0 <= x < 2 ^ w.

Lemma wrap_word w x : 0 <= w -> is_word w (wrap w x).
Proof. intros. apply Z.mod_pos_bound. lia. Qed.

Lemma wrap_small w x : is_word w x -> wrap w x = x.
Proof. apply Z.mod_small. Qed.

#[export] Hint Resolve wrap_word : hb.

(** Bits of a word above its width are clear. *)
Lemma word_bits_high w x i : is_word w x -> 0 <= w <= i -> Z.testbit x i = false.
Proof.
  intros [H0 H1] Hi. destruct (decide (x = 0)) as [->|]; [apply Z.bits_0|].
  apply Z.bits_above_log2; [lia|].
  apply Z.log2_lt_pow2; [lia|]. eapply Z.lt_le_trans; [done|].
  apply Z.pow_le_mono_r; lia.
Qed.

Lemma word_of_bits w x :
  0 <= w -> 0 <= x -> (forall i, w <= i -> Z.testbit x i = false) -> is_word w x.
Proof.
  intros Hw Hx Hb. split; [done|].
  destruct (decide (x = 0)) as [->|]; [lia|].
  apply Z.log2_lt_pow2; [lia|]. apply Z.nle_gt. intros Hle.
  specialize (Hb _ Hle). rewrite Z.bit_log2 in Hb; [done|lia].
Qed.

Lemma lxor_word w x y : 0 <= w -> is_word w x -> is_word w y -> is_word w (Z.lxor x y).
Proof.
  intros Hw Hx Hy. apply word_of_bits; [done| |].
  - apply Z.lxor_nonneg. destruct Hx, Hy. lia.
  - intros i Hi. rewrite Z.lxor_spec, !(word_bits_high w); [done|..]; auto with lia.
Qed.
#[export] Hint Resolve lxor_word : hb.

(** ** Big-endian byte strings *)

Definition is_byte (b : Z) : Prop := is_word 8 b.
Definition is_bytes (l : list Z) : Prop := Forall is_byte l.

(** [be64toh] of the bytes at an address, on the big-endian target: the value
    of a byte string, most significant byte first. *)
Fixpoint be_combine (l : list Z) : Z :=
  match l with
  | [] => 0
  | b :: l => Z.lor (Z.shiftl b (8 * Z.of_nat (length l))) (be_combine l)
  end.

(** The [n] bytes of [x], most significant first ([htobe64] and a store). *)
Fixpoint be_split (n : nat) (x : Z) : list Z :=
  match n with
  | O => []
  | S n => u8 (Z.shiftr x (8 * Z.of_nat n)) :: be_split n x
  end.

Lemma length_be_split n x : length (be_split n x) = n.
Proof. induction n; simpl; congruence. Qed.

Lemma be_split_bytes n x : is_bytes (be_split n x).
Proof. induction n; constructor; auto. apply wrap_word; lia. Qed.

Lemma be_combine_word l :
  is_bytes l -> is_word (8 * Z.of_nat (length l)) (be_combine l).
Proof.
  induction 1 as [|b l Hb Hl IH]; simpl length.
  - simpl. split; lia.
  - simpl be_combine. destruct Hb as [Hb0 Hb1], IH as [IH0 IH1].
    apply word_of_bits; [lia| |].
    + apply Z.lor_nonneg. split; [apply Z.shiftl_nonneg|]; lia.
    + intros i Hi. rewrite Z.lor_spec, Z.shiftl_spec by lia.
      rewrite (word_bits_high 8 b) by (unfold is_word; lia).
      rewrite (word_bits_high (8 * Z.of_nat (length l)) (be_combine l))
        by (unfold is_word; lia). done.
Qed.

(** Bytewise exclusive or of two buffers. *)
Definition xor_bytes (a b : list Z) : list Z := zip_with Z.lxor a b.

Lemma xor_bytes_bytes a b : is_bytes a -> is_bytes b -> is_bytes (xor_bytes a b).
Proof.
  intros Ha. revert b. induction Ha; intros b Hb; destruct Hb; simpl; constructor.
  - apply lxor_word; auto; lia.
  - apply IHHa; auto.
Qed.

Lemma length_xor_bytes a b :
  length a = length b -> length (xor_bytes a b) = length a.
Proof. intros. unfold xor_bytes. rewrite length_zip_with. lia. Qed.

Lemma be_combine_xor a b :
  length a = length b -> is_bytes a -> is_bytes b ->
  be_combine (xor_bytes a b) = Z.lxor (be_combine a) (be_combine b).
Proof.
  intros Hl Ha. revert b Hl.
  induction Ha as [|x a Hx Ha IH]; intros [|y b] Hl Hb; try discriminate; [done|].
  inv Hb. simpl in *.
  change (zip_with Z.lxor a b) with (xor_bytes a b).
  rewrite length_xor_bytes, IH, <- Hl by auto.
  pose proof (be_combine_word a Ha) as Wa.
  pose proof (be_combine_word b ltac:(done)) as Wb. rewrite <- Hl in Wb.
  set (k := 8 * Z.of_nat (length a)) in *. assert (0 <= k) by lia.
  apply Z.bits_inj'. intros i Hi.
  rewrite !Z.lor_spec, !Z.lxor_spec, !Z.lor_spec, !Z.shiftl_spec, !Z.lxor_spec by lia.
  destruct (decide (i < k)).
  - rewrite !(Z.testbit_neg_r _ (i - k)) by lia. done.
  - rewrite !(word_bits_high k _ i) by (auto with lia). by rewrite !orb_false_r.
Qed.

Lemma be_split_combine l : is_bytes l -> be_split (length l) (be_combine l) = l.
Proof.
  intros H. assert (forall c, be_split (length l)
      (Z.lor (Z.shiftl c (8 * Z.of_nat (length l))) (be_combine l)) = l) as G.
  { induction H as [|b l Hb Hl IH]; intros c; [done|].
    simpl length. simpl be_split. f_equal.
    - pose proof (be_combine_word l Hl) as W. simpl be_combine.
      apply Z.bits_inj'. intros i Hi. unfold wrap.
      destruct (decide (i < 8)).
      + rewrite Z.mod_pow2_bits_low, Z.shiftr_spec, !Z.lor_spec, !Z.shiftl_spec by lia.
        rewrite (Z.testbit_neg_r c) by lia.
        rewrite (word_bits_high (8 * Z.of_nat (length l)) (be_combine l)) by auto with lia.
        rewrite orb_false_r. simpl. f_equal. lia.
      + rewrite Z.mod_pow2_bits_high by lia.
        symmetry. apply (word_bits_high 8); auto with lia.
    - simpl be_combine.
      replace (Z.lor (Z.shiftl c _) _) with
        (Z.lor (Z.shiftl (Z.lor (Z.shiftl c 8) b) (8 * Z.of_nat (length l))) (be_combine l)).
      + apply IH.
      + rewrite Z.shiftl_lor, Z.shiftl_shiftl, Z.lor_assoc by lia.
        do 3 f_equal. lia. }
  specialize (G 0). rewrite Z.shiftl_0_l, Z.lor_0_l in G. done.
Qed.

Lemma be_combine_cons b l : is_bytes l -> be_combine (b :: l) = b * 2 ^ (8 * Z.of_nat (length l)) + be_combine l.
Proof.
  intros Hl. pose proof (be_combine_word l Hl) as W. cbn [be_combine]. set (k := 8 * Z.of_nat (length l)) in *. assert (0 <= k) by lia.
  rewrite <-Z.shiftl_mul_pow2 by lia. symmetry. rewrite <-Z.lxor_lor, <-Z.add_nocarry_lxor; [done| |]; apply Z.bits_inj'; intros i Hi; rewrite Z.land_spec, Z.shiftl_spec, Z.bits_0 by done.
  all: destruct (decide (i < k)); [by rewrite (Z.testbit_neg_r _ (i - k)) by lia|]; rewrite (word_bits_high k (be_combine l)) by (done || lia); apply andb_false_r.
Qed.

Lemma be_combine_join l l' : is_bytes l -> is_bytes l' -> be_combine (l ++ l') = be_combine l * 2 ^ (8 * Z.of_nat (length l')) + be_combine l'.
Proof.
  intros Hl Hl'. induction Hl as [|b l Hb Hl IH]; [done|]. rewrite <-app_comm_cons, !be_combine_cons, IH by (by try apply Forall_app). rewrite length_app, Nat2Z.inj_add.
  rewrite Z.mul_add_distr_l, Z.pow_add_r by lia. ring.
Qed.

(** The words in memory at an array of [n] of 64 bits, on the big-endian target. *)
Fixpoint be_words (n : nat) (bytes : list Z) : list Z :=
  match n with O => [] | S n => be_combine (take 8 bytes) :: be_words n (drop 8 bytes) end.

Lemma length_be_words n bytes : length (be_words n bytes) = n.
Proof. revert bytes. induction n as [|n IH]; intros bytes; cbn; [done|by rewrite IH]. Qed.

Lemma be_words_word n : forall bytes, is_bytes bytes -> Forall (is_word 64) (be_words n bytes).
Proof.
  induction n as [|n IH]; intros bytes Hb; cbn [be_words]; constructor; [|apply IH; by apply Forall_drop].
  pose proof (be_combine_word (take 8 bytes) (Forall_take _ 8 _ Hb)) as [W0 W1]. split; [done|]. eapply Z.lt_le_trans; [exact W1|].
  apply Z.pow_le_mono_r; [lia|]. rewrite length_take. lia.
Qed.

(** ** Buffers: reads and in-place writes at an offset *)

Definition read_at (n i : nat) (buf : list Z) : list Z := take n (drop i buf).
Definition write_at (i : nat) (bs buf : list Z) : list Z := list_inserts i bs buf.

Lemma read_at_app n l k r :
  length k = n -> read_at n (length l) (l ++ k ++ r) = k.
Proof.
  intros. unfold read_at. rewrite drop_app_length. rewrite take_app_le by lia.
  rewrite take_ge; [done|lia].
Qed.

Lemma write_at_app l k bs r :
  length bs = length k -> write_at (length l) bs (l ++ k ++ r) = l ++ bs ++ r.
Proof.
  intros H. unfold write_at.
  replace (length l) with (length l + 0)%nat by lia.
  rewrite list_inserts_app_r. f_equal. by apply list_inserts_0_r.
Qed.

(** The [m]-th block of a concatenation of equally long blocks. *)
Lemma concat_block {A} (ls : list (list A)) : forall n m l,
  Forall (fun x => length x = n) ls -> ls !! m = Some l ->
  take n (drop (n * m) (concat ls)) = l.
Proof.
  induction ls as [|x ls IH]; intros n [|m] l Hls Hm; try discriminate;
    apply Forall_cons in Hls as [Hx Hls]; simpl in *.
  - injection Hm as <-. rewrite Nat.mul_0_r, drop_0, take_app_le, take_ge by lia. done.
  - rewrite drop_app_ge by lia.
    replace (n * S m - length x)%nat with (n * m)%nat by lia. by apply IH.
Qed.

(** ** Counting the elements of a list that pass a test *)

Fixpoint tally {A} (f : A -> bool) (l : list A) : Z :=
  match l with
  | [] => 0
  | x :: l => (if f x then 1 else 0) + tally f l
  end.

Lemma tally_bounds {A} (f : A -> bool) l : 0 <= tally f l <= Z.of_nat (length l).
Proof. induction l; simpl; [lia|]. destruct (f a); lia. Qed.

Lemma tally_ext {A} (f g : A -> bool) l :
  (forall x, x ∈ l -> f x = g x) -> tally f l = tally g l.
Proof.
  induction l as [|x l IH]; intros H; [done|]. simpl.
  rewrite H, IH; [done| |by left]. intros y Hy. apply H. by right.
Qed.

(** One more element passes. *)
Lemma tally_add {A} (f g : A -> bool) l t :
  NoDup l -> t ∈ l -> f t = false -> g t = true ->
  (forall x, x <> t -> f x = g x) -> tally g l = tally f l + 1.
Proof.
  induction l as [|x l IH]; intros Hnd Ht Hf Hg He; [by apply elem_of_nil in Ht|].
  apply NoDup_cons in Hnd as [Hx Hnd]. simpl. apply elem_of_cons in Ht as [->|Ht].
  - rewrite Hf, Hg, (tally_ext g f l); [lia|]. intros y Hy. symmetry. apply He. by intros ->.
  - rewrite (He x) by (by intros ->). rewrite IH by done. lia.
Qed.

Lemma tally_full {A} (f : A -> bool) l :
  tally f l = Z.of_nat (length l) -> forall x, x ∈ l -> f x = true.
Proof.
  induction l as [|y l IH]; simpl; intros H x Hx; [by apply elem_of_nil in Hx|].
  pose proof (tally_bounds f l). destruct (f y) eqn:E; [|lia].
  apply elem_of_cons in Hx as [->|Hx]; [done|]. apply IH; [lia|done].
Qed.

Lemma tally_none {A} (f : A -> bool) l : (forall x, x ∈ l -> f x = false) -> tally f l = 0.
Proof.
  induction l as [|x l IH]; intros H; [done|]. simpl.
  rewrite H, IH; [done| |by left]. intros y Hy. apply H. by right.
Qed.

(** ** Tables: functions on addresses or thread numbers *)

Definition upd {P} (f : Z -> P) (t : Z) (x : P) : Z -> P := fun t' => if t' =? t then x else f t'.

Lemma upd_eq {P} (f : Z -> P) t x : upd f t x t = x.
Proof. unfold upd. by rewrite Z.eqb_refl. Qed.

Lemma upd_comm {P} (f : Z -> P) t1 t2 x y :
  t1 <> t2 -> pointwise_relation Z (=) (upd (upd f t1 x) t2 y) (upd (upd f t2 y) t1 x).
Proof.
  intros H t. unfold upd. destruct (t =? t1) eqn:E1, (t =? t2) eqn:E2; b2p; congruence.
Qed.

Lemma upd_ne {P} (f : Z -> P) t t' x : t' <> t -> upd f t x t' = f t'.
Proof. unfold upd. intros H. by rewrite (proj2 (Z.eqb_neq _ _) H). Qed.

(** Split on whether a table entry that is read was just written. *)
Ltac upd_cases :=
  unfold upd in *;
  repeat match goal with
  | H : context [?a =? ?b] |- _ => destruct (a =? b) eqn:?; b2p; subst
  | |- context [?a =? ?b] => destruct (a =? b) eqn:?; b2p; subst
  end.
