(* ===== verification/Containers.v ===== *)
(** * The kernel's intrusive containers ([src/include/util/])

    [Util::Lockfree::Stack] and [Util::Locked::PQueue] as the kernel managers
    use them, one operation at a time: a stack is the list of its elements from
    the top, a priority queue the list from [head] to [tail]. *)

From stdpp Require Import sorting.
From S2P Require Import Prelude.

(** ** [Util::Lockfree::Stack] *)

Module Stack.
Section stack.
Context {A : Type}.

(** [pop]: the head element, or null. *)
Definition pop (s : list A) : option A * list A :=
  match s with
  | [] => (None, [])
  | x :: s => (Some x, s)
  end.

Definition push (x : A) (s : list A) : list A := x :: s.

End stack.
End Stack.

(** ** [Util::Locked::PQueue] *)

Module PQueue.
Section pqueue.
Context {A : Type} (key : A -> Z).

(** [bubbleUp] moves the item at the front towards the tail while its successor
    has a greater key. *)
Fixpoint bubbleUp (item : A) (rest : list A) : list A :=
  match rest with
  | [] => [item]
  | next :: rest' =>
      if key next <=? key item then item :: rest
      else next :: bubbleUp item rest'
  end.

Definition insert (item : A) (q : list A) : list A :=
  match q with
  | [] => [item]
  | _ => bubbleUp item q
  end.

(** [Queue::remove]: takes the tail. *)
Definition remove (q : list A) : option A * list A :=
  match last q with
  | None => (None, q)
  | Some item => (Some item, removelast q)
  end.

Definition remove_if (k : Z) (q : list A) : option A * list A :=
  match last q with
  | None => (None, q)
  | Some item => if key item <=? k then (Some item, removelast q) else (None, q)
  end.

(** The keys descend from head to tail, so [remove] takes a least element. *)
Definition ordered (q : list A) : Prop := StronglySorted (fun x y => key y <= key x) q.

Lemma bubbleUp_perm x q : bubbleUp x q ≡ₚ x :: q.
Proof.
  induction q as [|y q IH]; simpl; [done|].
  destruct (_ <=? _); [done|]. rewrite IH. constructor.
Qed.

Lemma insert_perm x q : insert x q ≡ₚ x :: q.
Proof. destruct q; [done|]. apply bubbleUp_perm. Qed.

Lemma bubbleUp_ordered x q : ordered q -> ordered (bubbleUp x q).
Proof.
  induction 1 as [|y q Hq IH Hy]; simpl; [repeat constructor|].
  destruct (key y <=? key x) eqn:E; b2p.
  - constructor; [by constructor|]. constructor; [done|].
    eapply Forall_impl; [exact Hy|]. simpl. lia.
  - constructor; [done|]. rewrite bubbleUp_perm. constructor; [lia|done].
Qed.

Lemma insert_ordered x q : ordered q -> ordered (insert x q).
Proof. destruct q; [repeat constructor|]. apply bubbleUp_ordered. Qed.

Lemma last_removelast (q : list A) x : last q = Some x -> q = removelast q ++ [x].
Proof.
  induction q as [|y q IH]; [done|]. destruct q as [|z q]; [by intros [= ->]|].
  intros H. change (last (y :: z :: q)) with (last (z :: q)) in H.
  simpl. f_equal. by apply IH.
Qed.

Lemma remove_spec q :
  match remove q with
  | (Some x, q') => q = q' ++ [x]
  | (None, q') => q = [] /\ q' = []
  end.
Proof.
  unfold remove. destruct (last q) as [x|] eqn:E; [by apply last_removelast|].
  apply last_None in E. by subst.
Qed.

Lemma ordered_app_last q x :
  ordered (q ++ [x]) <-> ordered q /\ Forall (fun y => key x <= key y) q.
Proof.
  induction q as [|y q IH]; simpl.
  - split; intros _; repeat constructor.
  - split.
    + intros H. inversion H as [|? ? Hs Hf]; subst. apply IH in Hs as [Hs Hl].
      apply Forall_app in Hf as [Hf1 Hf2]. inversion Hf2; subst.
      split; constructor; auto.
    + intros [H1 H2]. inversion H1 as [|? ? Hs Hf]; subst. inversion H2; subst.
      constructor; [apply IH; done|]. apply Forall_app. split; [done|]. by repeat constructor.
Qed.

End pqueue.
End PQueue.

(** ** [Util::Locked::List] *)

(** The list from [head] to [tail]; [insert] adds at the head, [find] searches
    from the head, [erase] unlinks one node. *)
Module LList.
Section llist.
Context {A : Type} (key : A -> Z).

Definition insert (item : A) (l : list A) : list A := item :: l.

Fixpoint find (k : Z) (l : list A) : option A :=
  match l with
  | [] => None
  | x :: l => if negb (key x =? k) then find k l else Some x
  end.

(** [erase(find(k))]: unlink the first node with key [k]. *)
Fixpoint erase (k : Z) (l : list A) : list A :=
  match l with
  | [] => []
  | x :: l => if negb (key x =? k) then x :: erase k l else l
  end.

Lemma find_erase k l :
  match find k l with
  | Some x => exists l1 l2, l = l1 ++ x :: l2 /\ erase k l = l1 ++ l2 /\
                key x = k /\ Forall (fun y => key y <> k) l1
  | None => erase k l = l /\ Forall (fun y => key y <> k) l
  end.
Proof.
  induction l as [|y l IH]; simpl; [done|].
  destruct (key y =? k) eqn:E; b2p; simpl.
  - by exists [], l.
  - destruct (find k l) as [x|].
    + destruct IH as (l1 & l2 & -> & -> & Hk & Hf). exists (y :: l1), l2.
      repeat split; auto.
    + destruct IH as [-> Hf]. auto.
Qed.

End llist.
End LList.
