(* ===== verification/PnorEcc.v ===== *)
(** * The PNOR error-correcting code ([src/usr/pnor/ecc.C])

    Every 8 data bytes stored in the PNOR flash carry one ECC byte.  The file
    models the code matrix and the syndrome table, the word operations
    ([generateECC], [verifyECC], [correctECC]) and the two stream operations
    ([injectECC], [removeECC]) with their buffers, in-place repair and error
    list.  The boot loader includes the same source file
    ([src/bootloader/bl_pnor_ecc.C]). *)

From S2P Require Import Prelude.

(** ** Status values ([eccStatus], [eccBitfields]) *)

Inductive eccStatus : Type :=
| CLEAN
| CORRECTED
| UNCORRECTABLE.

#[global] Instance eccStatus_eq_dec : EqDecision eccStatus.
Proof. solve_decision. Defined.

Definition GD : Z := 0xff.
Definition UE : Z := 0xfe.
Definition E0 : Z := 71.
Definition E1 : Z := 70.
Definition E2 : Z := 69.
Definition E3 : Z := 68.
Definition E4 : Z := 67.
Definition E5 : Z := 66.
Definition E6 : Z := 65.
Definition E7 : Z := 64.

(** One accumulated error: where in the stream with ECC, and how it ended. *)
Record eccErrorLocation_t : Type := mkEccError {
  ecc_offset : nat;
  ecc_status : eccStatus
}.

(** ** The tables *)

Definition eccMatrix : list Z :=
  [ 0x0000e8423c0f99ff;
    0x00e8423c0f99ff00;
    0xe8423c0f99ff0000;
    0x423c0f99ff0000e8;
    0x3c0f99ff0000e842;
    0x0f99ff0000e8423c;
    0x99ff0000e8423c0f;
    0xff0000e8423c0f99 ].

Definition syndromeMatrix : list Z :=
  [ GD; E7; E6; UE; E5; UE; UE; 47; E4; UE; UE; 37; UE; 35; 39; UE;
    E3; UE; UE; 48; UE; 30; 29; UE; UE; 57; 27; UE; 31; UE; UE; UE;
    E2; UE; UE; 17; UE; 18; 40; UE; UE; 58; 22; UE; 21; UE; UE; UE;
    UE; 16; 49; UE; 19; UE; UE; UE; 23; UE; UE; UE; UE; 20; UE; UE;
    E1; UE; UE; 51; UE; 46; 9; UE; UE; 34; 10; UE; 32; UE; UE; 36;
    UE; 62; 50; UE; 14; UE; UE; UE; 13; UE; UE; UE; UE; UE; UE; UE;
    UE; 61; 8; UE; 41; UE; UE; UE; 11; UE; UE; UE; UE; UE; UE; UE;
    15; UE; UE; UE; UE; UE; UE; UE; UE; UE; 12; UE; UE; UE; UE; UE;
    E0; UE; UE; 55; UE; 45; 43; UE; UE; 56; 38; UE; 1; UE; UE; UE;
    UE; 25; 26; UE; 2; UE; UE; UE; 24; UE; UE; UE; UE; UE; 28; UE;
    UE; 59; 54; UE; 42; UE; UE; 44; 6; UE; UE; UE; UE; UE; UE; UE;
    5; UE; UE; UE; UE; UE; UE; UE; UE; UE; UE; UE; UE; UE; UE; UE;
    UE; 63; 53; UE; 0; UE; UE; UE; 33; UE; UE; UE; UE; UE; UE; UE;
    3; UE; UE; 52; UE; UE; UE; UE; UE; UE; UE; UE; UE; UE; UE; UE;
    7; UE; UE; UE; UE; UE; UE; UE; UE; 60; UE; UE; UE; UE; UE; UE;
    UE; UE; UE; UE; 4; UE; UE; UE; UE; UE; UE; UE; UE; UE; UE; UE ].

(** ** Word operations *)

(** [__builtin_parityl]: the parity of the set bits. *)
Fixpoint pos_parity (p : positive) : bool :=
  match p with
  | xH => true
  | xO p => pos_parity p
  | xI p => negb (pos_parity p)
  end.

Definition builtin_parityl (z : Z) : bool :=
  match z with
  | Zpos p => pos_parity p
  | _ => false
  end.

Definition generateECC (i_data : Z) : Z :=
  foldl (fun result i =>
           u8 (Z.lor result
                 (Z.shiftl (Z.b2z (builtin_parityl
                                     (Z.land (nth i eccMatrix 0) i_data)))
                    (Z.of_nat i))))
        0 (seq 0 8).

Definition verifyECC (i_data i_ecc : Z) : Z :=
  nth (Z.to_nat (Z.lxor (generateECC i_data) i_ecc)) syndromeMatrix UE.

(** Returns the bad bit and the repaired data and ECC. *)
Definition correctECC (io_data io_ecc : Z) : Z * Z * Z :=
  let badBit := verifyECC io_data io_ecc in
  if negb (badBit =? GD) && negb (badBit =? UE) then
    if E7 <=? badBit then
      (badBit, io_data, u8 (Z.lxor io_ecc (Z.shiftl 1 (badBit - E7))))
    else
      (badBit, u64 (Z.lxor io_data (Z.shiftl 1 (63 - badBit))), io_ecc)
  else (badBit, io_data, io_ecc).

(** ** Stream operations *)

Definition sizeof_u64 : nat := 8.

(** The [for] loop of [injectECC]; [fuel] bounds the iterations, [i_srcSz]
    suffices because [i] grows by 8. *)
Fixpoint injectECC_loop (fuel : nat) (i_src : list Z) (i_srcSz i o : nat)
    (o_dst : list Z) : list Z :=
  match fuel with
  | O => o_dst
  | S fuel =>
      if (i <? i_srcSz)%nat then
        let bytes := read_at sizeof_u64 i i_src in
        let o_dst := write_at o bytes o_dst in
        let data := be_combine bytes in
        let ecc := generateECC data in
        let o_dst := write_at (o + sizeof_u64) [ecc] o_dst in
        injectECC_loop fuel i_src i_srcSz (i + sizeof_u64) (o + sizeof_u64 + 1) o_dst
      else o_dst
  end.

Definition injectECC (i_src : list Z) (i_srcSz : nat) (o_dst : list Z)
    : outcome (list Z) :=
  assert! (i_srcSz mod sizeof_u64 =? 0)%nat;
  Done (injectECC_loop i_srcSz i_src i_srcSz 0 0 o_dst).

(** What one run of [removeECC] has produced so far. *)
Record remove_state : Type := mkRemove {
  rm_rc : eccStatus;
  rm_src : list Z;
  rm_dst : list Z;
  rm_errors : option (list eccErrorLocation_t)
}.

(** One iteration of the loop of [removeECC]. *)
Definition removeECC_body (i o : nat) (st : remove_state) : remove_state :=
  let data := be_combine (read_at sizeof_u64 i (rm_src st)) in
  let ecc := nth (i + sizeof_u64) (rm_src st) 0 in
  let '(badBit, data, ecc) := correctECC data ecc in
  let bytes := be_split sizeof_u64 data in
  let '(rc, src) :=
    if badBit =? UE then (UNCORRECTABLE, rm_src st)
    else if negb (badBit =? GD) then
      (if decide (rm_rc st = UNCORRECTABLE) then rm_rc st else CORRECTED,
       write_at (i + sizeof_u64) [ecc] (write_at i bytes (rm_src st)))
    else (rm_rc st, rm_src st) in
  let errors :=
    match rm_errors st with
    | Some l =>
        if negb (badBit =? GD) then
          Some (l ++ [mkEccError i (if badBit =? UE then UNCORRECTABLE else CORRECTED)])
        else Some l
    | None => None
    end in
  mkRemove rc src (write_at o bytes (rm_dst st)) errors.

Fixpoint removeECC_loop (fuel i_dstSz i o : nat) (st : remove_state) : remove_state :=
  match fuel with
  | O => st
  | S fuel =>
      if (o <? i_dstSz)%nat then
        removeECC_loop fuel i_dstSz (i + sizeof_u64 + 1) (o + sizeof_u64)
          (removeECC_body i o st)
      else st
  end.

(** [o_accumulatedErrors] is [None] when the caller passes a null pointer; a
    list that is passed is cleared first. *)
Definition removeECC (io_src o_dst : list Z) (i_dstSz : nat)
    (o_accumulatedErrors : option (list eccErrorLocation_t)) : outcome remove_state :=
  let errors := (fun _ => []) <$> o_accumulatedErrors in
  assert! (i_dstSz mod sizeof_u64 =? 0)%nat;
  Done (removeECC_loop i_dstSz i_dstSz 0 0 (mkRemove CLEAN io_src o_dst errors)).

(** ** The code is linear *)

Definition N_parity (n : N) : bool :=
  match n with N0 => false | Npos p => pos_parity p end.

Lemma N_parity_double n : N_parity (N.double n) = N_parity n.
Proof. by destruct n. Qed.

Lemma N_parity_succ_double n : N_parity (N.succ_double n) = negb (N_parity n).
Proof. by destruct n. Qed.

Lemma pos_parity_lxor p q :
  N_parity (Pos.lxor p q) = xorb (pos_parity p) (pos_parity q).
Proof.
  revert q. induction p as [p IH|p IH|]; intros [q|q|];
    unfold Pos.lxor; fold Pos.lxor; cbn [pos_parity];
    rewrite ?N_parity_double, ?N_parity_succ_double, ?IH; cbn [N_parity pos_parity];
    repeat match goal with |- context [pos_parity ?x] => destruct (pos_parity x) end; done.
Qed.

Lemma parity_lxor a b :
  0 <= a -> 0 <= b ->
  builtin_parityl (Z.lxor a b) = xorb (builtin_parityl a) (builtin_parityl b).
Proof.
  intros Ha Hb. destruct a as [|p|p], b as [|q|q]; try lia; simpl; try done.
  - by destruct (pos_parity p).
  - rewrite <- pos_parity_lxor. unfold Z.lxor. by destruct (Pos.lxor p q).
Qed.

(** Little-endian value of a list of bits. *)
Fixpoint bits_value (l : list bool) : Z :=
  match l with
  | [] => 0
  | b :: l => Z.b2z b + 2 * bits_value l
  end.

Lemma bits_value_nonneg l : 0 <= bits_value l.
Proof. induction l as [|[] l IH]; simpl; lia. Qed.

Lemma lxor_b2z_double a b x y :
  Z.lxor (Z.b2z a + 2 * x) (Z.b2z b + 2 * y) = Z.b2z (xorb a b) + 2 * Z.lxor x y.
Proof.
  apply Z.bits_inj'. intros i Hi. rewrite Z.lxor_spec, !(Z.add_comm (Z.b2z _)).
  destruct (decide (i = 0)) as [->|].
  - by rewrite !Z.testbit_0_r.
  - replace i with (Z.succ (i - 1)) by lia.
    rewrite !Z.testbit_succ_r by lia. by rewrite Z.lxor_spec.
Qed.

Lemma bits_value_xor l1 l2 :
  length l1 = length l2 ->
  bits_value (zip_with xorb l1 l2) = Z.lxor (bits_value l1) (bits_value l2).
Proof.
  revert l2. induction l1 as [|a l1 IH]; intros [|b l2] H; try discriminate; [done|].
  simpl in *. rewrite IH by lia. by rewrite lxor_b2z_double.
Qed.

Definition ecc_bits (d : Z) : list bool :=
  (fun row => builtin_parityl (Z.land row d)) <$> eccMatrix.

Lemma generateECC_bits d : generateECC d = bits_value (ecc_bits d).
Proof.
  unfold generateECC, ecc_bits, eccMatrix. simpl.
  repeat match goal with
  | |- context [builtin_parityl ?x] => destruct (builtin_parityl x)
  end; reflexivity.
Qed.

Lemma land_lxor_r m a b : Z.land m (Z.lxor a b) = Z.lxor (Z.land m a) (Z.land m b).
Proof.
  apply Z.bits_inj'. intros i _. rewrite !Z.land_spec, !Z.lxor_spec, !Z.land_spec.
  by destruct (Z.testbit m i).
Qed.

Lemma ecc_bits_xor a b :
  0 <= a -> 0 <= b -> ecc_bits (Z.lxor a b) = zip_with xorb (ecc_bits a) (ecc_bits b).
Proof.
  intros Ha Hb. unfold ecc_bits, eccMatrix. simpl.
  rewrite !land_lxor_r, !parity_lxor by (apply Z.land_nonneg; lia). done.
Qed.

Lemma generateECC_lxor a b :
  0 <= a -> 0 <= b ->
  generateECC (Z.lxor a b) = Z.lxor (generateECC a) (generateECC b).
Proof.
  intros. rewrite !generateECC_bits, ecc_bits_xor by done. by apply bits_value_xor.
Qed.

Lemma generateECC_byte d : is_byte (generateECC d).
Proof.
  rewrite generateECC_bits. unfold ecc_bits, eccMatrix. simpl.
  repeat match goal with
  | |- context [builtin_parityl ?x] => destruct (builtin_parityl x)
  end; split; simpl; lia.
Qed.
#[export] Hint Resolve generateECC_byte : hb.

(** The syndrome depends on the error pattern only. *)
Definition syndrome (ed ee : Z) : Z :=
  nth (Z.to_nat (Z.lxor (generateECC ed) ee)) syndromeMatrix UE.

Lemma verifyECC_error d ed ee :
  0 <= d -> 0 <= ed ->
  verifyECC (Z.lxor d ed) (Z.lxor (generateECC d) ee) = syndrome ed ee.
Proof.
  intros. unfold verifyECC, syndrome. rewrite generateECC_lxor by done.
  f_equal. f_equal. apply Z.bits_inj'. intros i _. rewrite !Z.lxor_spec.
  by destruct (Z.testbit (generateECC d) i), (Z.testbit (generateECC ed) i), (Z.testbit ee i).
Qed.

(** ** Error patterns on a 9-byte code word *)

(** The pattern that flips bit [k] of the code word, counted from the most
    significant bit of the first byte. *)
Definition unit_error (k : nat) : list Z :=
  <[ (k / 8)%nat := 2 ^ (7 - Z.of_nat (k mod 8)) ]> (replicate 9 0).

(** The pattern that flips every bit listed. *)
Definition error_pattern (e : list nat) : list Z :=
  foldr (fun k acc => xor_bytes (unit_error k) acc) (replicate 9 0) e.

(** At most two different bits of the code word are hit. *)
Definition error_ok (e : list nat) : Prop :=
  Forall (fun k => (k < 72)%nat) e /\ NoDup e /\ (length e <= 2)%nat.

Definition err_data (e : list nat) : Z := be_combine (take 8 (error_pattern e)).
Definition err_ecc (e : list nat) : Z := nth 8 (error_pattern e) 0.

(** The bad bit that the table reports for an error pattern. *)
Definition err_bit (e : list nat) : Z := syndrome (err_data e) (err_ecc e).

(** What the table must answer for a single flip: the position of the bit. *)
Definition describes (s ed ee : Z) : bool :=
  if E7 <=? s then (ed =? 0) && (ee =? Z.shiftl 1 (s - E7))
  else (ed =? Z.shiftl 1 (63 - s)) && (ee =? 0).

Definition single_okb (s ed ee : Z) : bool :=
  negb (s =? GD) && negb (s =? UE) && describes s ed ee.

Definition double_okb (j k : nat) (s : Z) : bool := (j =? k)%nat || (s =? UE).

(** The two finite checks over the 72 bit positions. *)
Lemma all_single_ok : 
  forallb (fun k => single_okb (err_bit [k]) (err_data [k]) (err_ecc [k])) (seq 0 72) = true.
Proof. vm_compute. reflexivity. Qed.

Lemma all_double_ok : 
  forallb (fun j => forallb (fun k => double_okb j k (err_bit [j; k])) (seq 0 72)) (seq 0 72) = true.
Proof. vm_compute. reflexivity. Qed.

Lemma forallb_seq (P : nat -> bool) n k :
  forallb P (seq 0 n) = true -> (k < n)%nat -> P k = true.
Proof.
  intros H Hk. apply (proj1 (forallb_forall _ _) H), in_seq. lia.
Qed.

Lemma single_okb_spec s ed ee :
  single_okb s ed ee = true -> s <> GD /\ s <> UE /\ describes s ed ee = true.
Proof. unfold single_okb. intros H. b2p. done. Qed.

Lemma double_okb_spec j k s : double_okb j k s = true -> j <> k -> s = UE.
Proof. unfold double_okb. intros [H|H]%orb_prop ?; b2p; [lia|done]. Qed.

Lemma err_bit_single k :
  (k < 72)%nat ->
  err_bit [k] <> GD /\ err_bit [k] <> UE /\
  describes (err_bit [k]) (err_data [k]) (err_ecc [k]) = true.
Proof. intros Hk. apply single_okb_spec, (forallb_seq _ _ _ all_single_ok Hk). Qed.

Lemma err_bit_double j k :
  (j < 72)%nat -> (k < 72)%nat -> j <> k -> err_bit [j; k] = UE.
Proof.
  intros Hj Hk. apply double_okb_spec.
  apply (forallb_seq _ _ _ (forallb_seq _ _ _ all_double_ok Hj) Hk).
Qed.

Lemma length_unit_error k : length (unit_error k) = 9%nat.
Proof. unfold unit_error. by rewrite length_insert, length_replicate. Qed.

Lemma length_error_pattern e : length (error_pattern e) = 9%nat.
Proof.
  induction e as [|k e IH]; simpl; [done|].
  rewrite length_xor_bytes; rewrite length_unit_error; [done|]. by rewrite IH.
Qed.

Lemma unit_error_bytes k : is_bytes (unit_error k).
Proof.
  unfold unit_error, is_bytes. apply Forall_insert.
  - apply Forall_replicate. split; lia.
  - pose proof (Nat.mod_upper_bound k 8 ltac:(lia)). split; [lia|].
    apply Z.pow_lt_mono_r; lia.
Qed.

Lemma error_pattern_bytes e : is_bytes (error_pattern e).
Proof.
  induction e as [|k e IH].
  - apply (Forall_replicate is_byte 9 0). split; lia.
  - apply xor_bytes_bytes; [apply unit_error_bytes|done].
Qed.
#[export] Hint Resolve error_pattern_bytes unit_error_bytes : hb.

Lemma err_data_word e : is_word 64 (err_data e).
Proof.
  unfold err_data.
  replace 64 with (8 * Z.of_nat (length (take 8 (error_pattern e)))).
  - apply be_combine_word, Forall_take, error_pattern_bytes.
  - rewrite length_take, length_error_pattern. done.
Qed.

Lemma err_ecc_byte e : is_byte (err_ecc e).
Proof.
  unfold err_ecc. apply (proj1 (List.Forall_forall _ _) (error_pattern_bytes e)).
  apply nth_In. rewrite length_error_pattern. lia.
Qed.
#[export] Hint Resolve err_data_word err_ecc_byte : hb.

(** ** The word operations on a corrupted code word *)

Lemma verifyECC_err_bit d e :
  0 <= d ->
  verifyECC (Z.lxor d (err_data e)) (Z.lxor (generateECC d) (err_ecc e)) = err_bit e.
Proof. intros. apply verifyECC_error; [done|]. apply err_data_word. Qed.

Lemma lxor_cancel a b : Z.lxor (Z.lxor a b) b = a.
Proof. by rewrite Z.lxor_assoc, Z.lxor_nilpotent, Z.lxor_0_r. Qed.

Lemma correctECC_clean d :
  0 <= d -> correctECC d (generateECC d) = (GD, d, generateECC d).
Proof.
  intros. unfold correctECC.
  assert (verifyECC d (generateECC d) = GD) as ->.
  { unfold verifyECC. by rewrite Z.lxor_nilpotent. }
  done.
Qed.

(** The repair undoes a pattern that the reported bit describes. *)
Lemma correctECC_repairs d ed ee bit :
  is_word 64 d -> bit <> GD -> bit <> UE ->
  verifyECC (Z.lxor d ed) (Z.lxor (generateECC d) ee) = bit ->
  describes bit ed ee = true ->
  correctECC (Z.lxor d ed) (Z.lxor (generateECC d) ee) = (bit, d, generateECC d).
Proof.
  intros Hd HG HU Hv Hb. unfold correctECC. rewrite Hv. unfold describes in Hb.
  rewrite (proj2 (Z.eqb_neq _ _) HG), (proj2 (Z.eqb_neq _ _) HU). cbn [negb andb].
  destruct (E7 <=? bit) eqn:?; apply andb_prop in Hb as [H1 H2];
    apply Z.eqb_eq in H1, H2; subst ed ee; rewrite lxor_cancel, Z.lxor_0_r, wrap_small.
  all: auto with hb. apply generateECC_byte.
Qed.

Lemma correctECC_single d k :
  is_word 64 d -> (k < 72)%nat ->
  correctECC (Z.lxor d (err_data [k])) (Z.lxor (generateECC d) (err_ecc [k]))
  = (err_bit [k], d, generateECC d).
Proof.
  intros Hd Hk. destruct (err_bit_single k Hk) as (HG & HU & Hb).
  apply correctECC_repairs; auto. apply verifyECC_err_bit, Hd.
Qed.

Lemma correctECC_double d j k :
  is_word 64 d -> (j < 72)%nat -> (k < 72)%nat -> j <> k ->
  correctECC (Z.lxor d (err_data [j; k])) (Z.lxor (generateECC d) (err_ecc [j; k]))
  = (UE, Z.lxor d (err_data [j; k]), Z.lxor (generateECC d) (err_ecc [j; k])).
Proof.
  intros Hd Hj Hk Hne. unfold correctECC.
  rewrite verifyECC_err_bit by apply Hd. by rewrite err_bit_double.
Qed.

(** ** Streams of code words *)

(** A data word as the stream operations see it. *)
Definition data_word (w : list Z) : Prop := length w = 8%nat /\ is_bytes w.

(** The 9 bytes stored for a data word. *)
Definition code_word (w : list Z) : list Z := w ++ [generateECC (be_combine w)].

(** The stored bytes after the bits of [e] flipped. *)
Definition hit (w : list Z) (e : list nat) : list Z :=
  xor_bytes (code_word w) (error_pattern e).

(** What [removeECC] leaves in the source for such a word. *)
Definition repaired (w : list Z) (e : list nat) : list Z :=
  if (length e <=? 1)%nat then code_word w else hit w e.

Definition error_status (e : list nat) : option eccStatus :=
  match e with
  | [] => None
  | [_] => Some CORRECTED
  | _ => Some UNCORRECTABLE
  end.

(** The more severe of a status and a new event. *)
Definition worse (rc : eccStatus) (ev : option eccStatus) : eccStatus :=
  match rc, ev with
  | UNCORRECTABLE, _ => UNCORRECTABLE
  | _, Some s => s
  | rc, None => rc
  end.

Definition log_error (i : nat) (e : list nat) (l : list eccErrorLocation_t) :=
  l ++ match error_status e with Some s => [mkEccError i s] | None => [] end.

Lemma length_code_word w : data_word w -> length (code_word w) = 9%nat.
Proof. intros [H _]. unfold code_word. rewrite length_app, H. done. Qed.

Lemma code_word_bytes w : data_word w -> is_bytes (code_word w).
Proof.
  intros [_ H]. apply Forall_app. split; [done|]. constructor; [|done].
  apply generateECC_byte.
Qed.

Lemma data_word_value w : data_word w -> is_word 64 (be_combine w).
Proof. intros [Hl Hb]. pose proof (be_combine_word w Hb) as H. by rewrite Hl in H. Qed.

Lemma hit_split w e :
  data_word w ->
  hit w e = xor_bytes w (take 8 (error_pattern e))
            ++ [Z.lxor (generateECC (be_combine w)) (err_ecc e)].
Proof.
  intros [Hl _]. unfold hit, code_word, xor_bytes, err_ecc.
  pose proof (length_error_pattern e) as He.
  rewrite <- (take_drop 8 (error_pattern e)) at 1.
  rewrite zip_with_app by (rewrite length_take; lia). f_equal.
  assert (length (drop 8 (error_pattern e)) = 1%nat) as Hd by (rewrite length_drop; lia).
  rewrite <- (take_drop 8 (error_pattern e)) at 2.
  rewrite app_nth2 by (rewrite length_take; lia). rewrite length_take, He. simpl.
  destruct (drop 8 (error_pattern e)) as [|x [|]]; done.
Qed.

Lemma length_hit w e : data_word w -> length (hit w e) = 9%nat.
Proof.
  intros. unfold hit. rewrite length_xor_bytes; rewrite length_code_word by done; [done|].
  by rewrite length_error_pattern.
Qed.

Lemma hit_data w e :
  data_word w ->
  be_combine (take 8 (hit w e)) = Z.lxor (be_combine w) (err_data e).
Proof.
  intros Hw. rewrite hit_split by done. destruct Hw as [Hl Hb].
  assert (length w = length (take 8 (error_pattern e))) as Hl2
    by (rewrite length_take, length_error_pattern; lia).
  rewrite take_app_le, take_ge by (rewrite length_xor_bytes; lia).
  apply be_combine_xor; [done|done|]. apply Forall_take, error_pattern_bytes.
Qed.

Lemma hit_ecc w e :
  data_word w ->
  nth 8 (hit w e) 0 = Z.lxor (generateECC (be_combine w)) (err_ecc e).
Proof.
  intros Hw. rewrite hit_split by done. destruct Hw as [Hl Hb].
  assert (length (xor_bytes w (take 8 (error_pattern e))) = 8%nat) as H8.
  { rewrite length_xor_bytes; [done|]. rewrite length_take, length_error_pattern. lia. }
  rewrite app_nth2, H8 by lia. done.
Qed.

Lemma hit_bytes w e : data_word w -> is_bytes (hit w e).
Proof.
  intros. apply xor_bytes_bytes; [by apply code_word_bytes|apply error_pattern_bytes].
Qed.

Lemma xor_zero_bytes n l : length l = n -> xor_bytes l (replicate n 0) = l.
Proof.
  revert n. induction l as [|x l IH]; intros [|n] H; try discriminate; [done|].
  simpl in *. unfold xor_bytes in *. rewrite Z.lxor_0_r, IH; [done|lia].
Qed.

Lemma hit_nil w : data_word w -> hit w [] = code_word w.
Proof. intros. apply (xor_zero_bytes 9). by apply length_code_word. Qed.

(** What the loop body computes from a hit word: bad bit, data, ECC. *)
Lemma correctECC_hit w e :
  data_word w -> error_ok e ->
  exists bit,
    correctECC (be_combine (take 8 (hit w e))) (nth 8 (hit w e) 0)
    = (bit, be_combine (take 8 (repaired w e)), nth 8 (repaired w e) 0) /\
    (bit = GD <-> error_status e = None) /\
    (bit = UE <-> error_status e = Some UNCORRECTABLE).
Proof.
  intros Hw (Hlt & Hnd & Hlen). pose proof (data_word_value w Hw) as Hv.
  assert (be_combine (take 8 (code_word w)) = be_combine w) as Ht.
  { destruct Hw as [Hl _]. unfold code_word.
    rewrite take_app_le, take_ge by lia. done. }
  assert (nth 8 (code_word w) 0 = generateECC (be_combine w)) as Hn.
  { destruct Hw as [Hl _]. unfold code_word. rewrite app_nth2, Hl by lia. done. }
  destruct e as [|j [|k [|]]]; unfold repaired, error_status; simpl in Hlen |- *; try lia.
  - exists GD. rewrite hit_nil, Ht, Hn by done. rewrite correctECC_clean by apply Hv. done.
  - inv Hlt. exists (err_bit [j]). rewrite Ht, Hn, hit_data, hit_ecc by done.
    rewrite correctECC_single by done.
    destruct (err_bit_single j) as (? & ? & _); [done|]. naive_solver.
  - inv Hlt. match goal with H : Forall _ [k] |- _ => inv H end.
    assert (j <> k) by (inv Hnd; set_solver).
    exists UE. rewrite hit_data, hit_ecc by done. rewrite correctECC_double by done.
    naive_solver.
Qed.

Lemma repaired_cases w e :
  data_word w ->
  length (repaired w e) = 9%nat /\ is_bytes (repaired w e).
Proof.
  intros. unfold repaired. destruct (_ <=? _)%nat;
    eauto using length_code_word, code_word_bytes, length_hit, hit_bytes.
Qed.

Lemma repaired_uncorrectable w e :
  error_ok e -> error_status e = Some UNCORRECTABLE -> repaired w e = hit w e.
Proof. intros _ H. unfold repaired. by destruct e as [|? [|? ?]]. Qed.

(** A 9-byte word is its 8 data bytes and its ECC byte. *)
Lemma nine_split (l : list Z) :
  length l = 9%nat -> l = take 8 l ++ [nth 8 l 0].
Proof.
  intros H. rewrite <- (take_drop 8 l) at 1. f_equal.
  rewrite <- (take_drop 8 l) at 2. rewrite app_nth2 by (rewrite length_take; lia).
  rewrite length_take, H. simpl.
  assert (length (drop 8 l) = 1%nat) by (rewrite length_drop; lia).
  destruct (drop 8 l) as [|x [|]]; done.
Qed.

Lemma write_code_word s1 (old new : list Z) s2 :
  length old = 9%nat -> length new = 9%nat ->
  write_at (length s1 + 8) [nth 8 new 0]
    (write_at (length s1) (take 8 new) (s1 ++ old ++ s2)) = s1 ++ new ++ s2.
Proof.
  intros Ho Hn. rewrite (nine_split old) by done.
  rewrite <- app_assoc, write_at_app by (rewrite !length_take; lia).
  replace (length s1 + 8)%nat with (length (s1 ++ take 8 new))
    by (rewrite length_app, length_take; lia).
  rewrite app_assoc, write_at_app by done.
  rewrite (nine_split new) at 3 by done. by rewrite <- !app_assoc.
Qed.

(** One loop iteration on a hit word. *)
Lemma removeECC_body_hit w e s1 s2 d1 k d2 rc errs :
  data_word w -> error_ok e -> length k = 8%nat ->
  removeECC_body (length s1) (length d1)
    (mkRemove rc (s1 ++ hit w e ++ s2) (d1 ++ k ++ d2) errs)
  = mkRemove (worse rc (error_status e)) (s1 ++ repaired w e ++ s2)
      (d1 ++ take 8 (repaired w e) ++ d2) (log_error (length s1) e <$> errs).
Proof.
  intros Hw He Hk. unfold removeECC_body. cbn [rm_src rm_dst rm_rc rm_errors].
  pose proof (length_hit w e Hw) as Hlh. destruct (repaired_cases w e Hw) as [Hlr Hbr].
  assert (read_at sizeof_u64 (length s1) (s1 ++ hit w e ++ s2) = take 8 (hit w e)) as ->.
  { rewrite (nine_split (hit w e)) at 1 by done. rewrite <- app_assoc.
    rewrite read_at_app; [done|rewrite length_take; unfold sizeof_u64; lia]. }
  assert (nth (length s1 + sizeof_u64) (s1 ++ hit w e ++ s2) 0 = nth 8 (hit w e) 0) as ->.
  { rewrite app_nth2_plus, app_nth1; [done|unfold sizeof_u64; lia]. }
  destruct (correctECC_hit w e Hw He) as (bit & -> & HG & HU).
  assert (be_split sizeof_u64 (be_combine (take 8 (repaired w e))) = take 8 (repaired w e)) as ->.
  { replace sizeof_u64 with (length (take 8 (repaired w e)))
      by (rewrite length_take; unfold sizeof_u64; lia).
    apply be_split_combine, Forall_take, Hbr. }
  rewrite (write_at_app d1 k) by (rewrite length_take; lia).
  change sizeof_u64 with 8%nat. rewrite write_code_word by done.
  unfold log_error. destruct (error_status e) as [s|] eqn:Es.
  - assert (bit <> GD) as HnG by (intros ->; by apply HG in Es || naive_solver).
    rewrite (proj2 (Z.eqb_neq _ _) HnG).
    destruct s; [destruct e as [|? [|]]; discriminate| |].
    + assert (bit <> UE) as HnU by naive_solver.
      rewrite (proj2 (Z.eqb_neq _ _) HnU). simpl. by destruct rc, errs.
    + rewrite (proj2 HU), Z.eqb_refl, repaired_uncorrectable by done. simpl.
      by destruct rc, errs.
  - rewrite (proj2 HG) by done. simpl.
    destruct e as [|? [|]]; try discriminate. rewrite hit_nil by done.
    destruct rc, errs; simpl; by rewrite ?app_nil_r.
Qed.

(** Streams as lists of words and of error lists. *)
Fixpoint log_errors (i : nat) (es : list (list nat)) (l : list eccErrorLocation_t) :=
  match es with
  | [] => l
  | e :: es => log_errors (i + 9) es (log_error i e l)
  end.

Definition hit_stream (ws : list (list Z)) (es : list (list nat)) : list Z :=
  concat (zip_with hit ws es).
Definition repaired_stream (ws : list (list Z)) (es : list (list nat)) : list Z :=
  concat (zip_with repaired ws es).
Definition repaired_data (ws : list (list Z)) (es : list (list nat)) : list Z :=
  concat (zip_with (fun w e => take 8 (repaired w e)) ws es).

Lemma split_length (l : list Z) n m :
  length l = (n + m)%nat -> exists a b, l = a ++ b /\ length a = n /\ length b = m.
Proof.
  intros H. exists (take n l), (drop n l).
  rewrite take_drop, length_take, length_drop. split; [done|]. lia.
Qed.

Lemma removeECC_loop_hit ws : forall es fuel sz s1 d1 k rc errs,
  Forall data_word ws -> Forall error_ok es -> length es = length ws ->
  length k = (8 * length ws)%nat -> sz = (length d1 + 8 * length ws)%nat ->
  (length ws <= fuel)%nat ->
  removeECC_loop fuel sz (length s1) (length d1)
    (mkRemove rc (s1 ++ hit_stream ws es) (d1 ++ k) errs)
  = mkRemove (foldl worse rc (error_status <$> es)) (s1 ++ repaired_stream ws es)
      (d1 ++ repaired_data ws es) (log_errors (length s1) es <$> errs).
Proof.
  induction ws as [|w ws IH];
    intros [|e es] fuel sz s1 d1 k rc errs Hws Hes Hl Hk -> Hf; try discriminate.
  - destruct k; [|discriminate]. unfold hit_stream, repaired_stream, repaired_data. simpl.
    destruct fuel; simpl; rewrite ?(proj2 (Nat.ltb_ge _ _)) by lia; by destruct errs.
  - apply Forall_cons in Hws as [Hw Hws]. apply Forall_cons in Hes as [He Hes].
    simpl in Hl, Hk, Hf.
    destruct fuel as [|fuel]; [lia|]. cbn [removeECC_loop].
    rewrite (proj2 (Nat.ltb_lt _ _)) by (simpl; lia).
    destruct (split_length k 8 (8 * length ws)) as (k1 & k2 & -> & Hk1 & Hk2); [lia|].
    change (hit_stream (w :: ws) (e :: es)) with (hit w e ++ hit_stream ws es).
    change (repaired_stream (w :: ws) (e :: es))
      with (repaired w e ++ repaired_stream ws es).
    change (repaired_data (w :: ws) (e :: es))
      with (take 8 (repaired w e) ++ repaired_data ws es).
    rewrite removeECC_body_hit by done.
    destruct (repaired_cases w e Hw) as [Hlr _].
    assert (length (take 8 (repaired w e)) = 8%nat) as H8 by (rewrite length_take; lia).
    rewrite !(app_assoc s1), !(app_assoc d1).
    replace (length s1 + sizeof_u64 + 1)%nat with (length (s1 ++ repaired w e))
      by (rewrite length_app, Hlr; unfold sizeof_u64; lia).
    replace (length d1 + sizeof_u64)%nat with (length (d1 ++ take 8 (repaired w e)))
      by (rewrite length_app, H8; unfold sizeof_u64; lia).
    rewrite IH; auto; try lia; [|rewrite length_app; simpl length; lia].
    cbn [fmap list_fmap foldl log_errors]. rewrite <- !app_assoc. f_equal.
    destruct errs; [|done]. simpl. by rewrite length_app, Hlr.
Qed.

Lemma injectECC_loop_words ws : forall fuel sz s1 d1 k,
  Forall data_word ws -> length k = (9 * length ws)%nat ->
  sz = (length s1 + 8 * length ws)%nat -> (length ws <= fuel)%nat ->
  injectECC_loop fuel (s1 ++ concat ws) sz (length s1) (length d1) (d1 ++ k)
  = d1 ++ concat (code_word <$> ws).
Proof.
  induction ws as [|w ws IH]; intros fuel sz s1 d1 k Hws Hk -> Hf.
  - destruct k; [|discriminate]. simpl.
    destruct fuel; simpl; rewrite ?(proj2 (Nat.ltb_ge _ _)) by lia; done.
  - apply Forall_cons in Hws as [Hw Hws]. simpl in Hk, Hf.
    destruct fuel as [|fuel]; [lia|]. cbn [injectECC_loop].
    rewrite (proj2 (Nat.ltb_lt _ _)) by (simpl; lia). simpl concat.
    pose proof (length_code_word w Hw) as Hlc. destruct Hw as [Hlw Hb].
    rewrite read_at_app by done.
    destruct (split_length k 9 (9 * length ws)) as (k1 & k2 & -> & Hk1 & Hk2); [lia|].
    assert (take 8 (code_word w) = w) as Ht
      by (unfold code_word; rewrite take_app_le, take_ge; lia || done).
    assert (nth 8 (code_word w) 0 = generateECC (be_combine w)) as Hn
      by (unfold code_word; rewrite app_nth2, Hlw; lia || done).
    pose proof (write_code_word d1 k1 (code_word w) k2 Hk1 Hlc) as W.
    rewrite Hn, Ht in W. change sizeof_u64 with 8%nat.
    rewrite W, (app_assoc s1), (app_assoc d1).
    replace (length s1 + 8)%nat with (length (s1 ++ w)) by (rewrite length_app; lia).
    replace (length d1 + 8 + 1)%nat with (length (d1 ++ code_word w))
      by (rewrite length_app; lia).
    rewrite IH; auto; try lia; [|rewrite length_app; simpl length; lia].
    simpl. by rewrite <- app_assoc.
Qed.

(** Every byte string of a multiple of 8 bytes is a list of data words. *)
Lemma data_words src : forall n,
  length src = (8 * n)%nat -> is_bytes src ->
  exists ws, src = concat ws /\ Forall data_word ws /\ length ws = n.
Proof.
  intros n. revert src. induction n as [|n IH]; intros src Hl Hb.
  - exists []. destruct src; done.
  - destruct (split_length src 8 (8 * n)) as (a & b & -> & Ha & Hlb); [lia|].
    apply Forall_app in Hb as [Hba Hbb].
    destruct (IH b Hlb Hbb) as (ws & -> & Hws & Hn).
    exists (a :: ws). simpl. repeat split; auto. constructor; [by split|done].
Qed.

Lemma hit_stream_xor ws : forall es,
  Forall data_word ws -> length es = length ws ->
  hit_stream ws es
  = xor_bytes (concat (code_word <$> ws)) (concat (error_pattern <$> es)).
Proof.
  induction ws as [|w ws IH]; intros [|e es] Hws Hl; try discriminate; [done|].
  apply Forall_cons in Hws as [Hw Hws]. simpl in *.
  change (hit_stream (w :: ws) (e :: es)) with (hit w e ++ hit_stream ws es).
  rewrite IH by (done || lia). unfold xor_bytes.
  rewrite zip_with_app; [done|]. by rewrite length_code_word, length_error_pattern.
Qed.

(** The repaired data of a stream with at most one flip per word. *)
Lemma repaired_single ws : forall es,
  Forall data_word ws -> length es = length ws ->
  Forall (fun e => (length e <= 1)%nat) es ->
  repaired_stream ws es = concat (code_word <$> ws) /\ repaired_data ws es = concat ws.
Proof.
  induction ws as [|w ws IH]; intros [|e es] Hws Hl Hes; try discriminate; [done|].
  apply Forall_cons in Hws as [Hw Hws]. apply Forall_cons in Hes as [He Hes].
  simpl in *. destruct (IH es Hws ltac:(lia) Hes) as [IH1 IH2].
  unfold repaired_stream, repaired_data in *. simpl. rewrite IH1, IH2.
  unfold repaired. rewrite (proj2 (Nat.leb_le _ _)) by done. split; [done|]. f_equal.
  destruct Hw. unfold code_word. rewrite take_app_le, take_ge by lia. done.
Qed.

Lemma injectECC_words ws o_dst :
  Forall data_word ws -> length o_dst = (9 * length ws)%nat ->
  injectECC (concat ws) (8 * length ws) o_dst = Done (concat (code_word <$> ws)).
Proof.
  intros Hws Hl. unfold injectECC, sizeof_u64.
  rewrite Nat.mul_comm, Nat.Div0.mod_mul, Nat.eqb_refl. rewrite Nat.mul_comm. f_equal.
  apply (injectECC_loop_words ws (8 * length ws) (8 * length ws) [] []); auto; simpl; lia.
Qed.

Lemma removeECC_words ws es o_dst errs :
  Forall data_word ws -> Forall error_ok es -> length es = length ws ->
  length o_dst = (8 * length ws)%nat ->
  removeECC (hit_stream ws es) o_dst (8 * length ws) errs
  = Done (mkRemove (foldl worse CLEAN (error_status <$> es)) (repaired_stream ws es)
           (repaired_data ws es) ((fun _ => log_errors 0 es []) <$> errs)).
Proof.
  intros Hws Hes Hl Hd. unfold removeECC, sizeof_u64.
  rewrite Nat.mul_comm, Nat.Div0.mod_mul, Nat.eqb_refl. rewrite Nat.mul_comm. f_equal.
  rewrite (removeECC_loop_hit ws es (8 * length ws) (8 * length ws) [] [] o_dst);
    auto; try (simpl; lia).
  simpl. by destruct errs.
Qed.

Lemma worse_clean es :
  Forall (fun e => (length e <= 1)%nat) es ->
  forall rc, rc <> UNCORRECTABLE ->
  foldl worse rc (error_status <$> es)
  = if forallb (fun e => bool_decide (e = [])) es then rc else CORRECTED.
Proof.
  induction 1 as [|e es He Hes IH]; intros rc Hrc; [done|].
  destruct e as [|x [|]]; simpl in He; try lia; simpl.
  - rewrite IH by (destruct rc; done). destruct rc; done.
  - rewrite IH by (destruct rc; done). destruct rc; try done; by destruct (forallb _ _).
Qed.

Lemma worse_uncorrectable es : foldl worse UNCORRECTABLE es = UNCORRECTABLE.
Proof. induction es; simpl; auto. Qed.

Lemma worse_detects es e : forall rc,
  e ∈ es -> error_status e = Some UNCORRECTABLE ->
  foldl worse rc (error_status <$> es) = UNCORRECTABLE.
Proof.
  induction es as [|x es IH]; intros rc Hin He; [set_solver|]. simpl.
  apply elem_of_cons in Hin as [<-|Hin]; [|by apply IH].
  rewrite He. replace (worse rc _) with UNCORRECTABLE by (by destruct rc).
  apply worse_uncorrectable.
Qed.

Lemma zip_lookup {A B C} (f : A -> B -> C) la lb m a b :
  la !! m = Some a -> lb !! m = Some b -> zip_with f la lb !! m = Some (f a b).
Proof. intros. by rewrite lookup_zip_with, H, H0. Qed.

(** A word hit at most once comes out right whatever happened to the others. *)
Lemma repaired_data_block ws es m e :
  Forall data_word ws -> length es = length ws -> es !! m = Some e -> (length e <= 1)%nat ->
  take 8 (drop (8 * m) (repaired_data ws es)) = take 8 (drop (8 * m) (concat ws)).
Proof.
  intros Hws Hl Hm He.
  destruct (lookup_lt_is_Some_2 ws m) as [w Hw]; [apply lookup_lt_Some in Hm; lia|].
  assert (Forall (fun x => length x = 8%nat) ws) as H8
    by (eapply Forall_impl; [exact Hws|intros ? [? _]; done]).
  assert (data_word w) as [Hlw _] by (rewrite Forall_lookup in Hws; eauto).
  rewrite (concat_block ws 8 m w H8 Hw).
  unfold repaired_data. rewrite (concat_block _ 8 m (take 8 (repaired w e))).
  - unfold repaired. rewrite (proj2 (Nat.leb_le _ _)) by done.
    unfold code_word. rewrite take_app_le, take_ge by lia. done.
  - clear -Hws. revert es. induction Hws as [|x ws Hx Hws IH]; intros [|e es];
      constructor; auto. destruct (repaired_cases x e Hx). rewrite length_take. lia.
  - by apply (zip_lookup (fun w e => take 8 (repaired w e))).
Qed.

(** ** The properties *)

Definition at_most_one_flip (e : list nat) : Prop :=
  Forall (fun k => (k < 72)%nat) e /\ (length e <= 1)%nat.

Lemma at_most_one_flip_ok e : at_most_one_flip e -> error_ok e.
Proof.
  intros [H1 H2]. split; [done|]. split; [|lia].
  destruct e as [|? [|]]; simpl in H2; try lia; repeat constructor; set_solver.
Qed.

(** C1: single-error correction of a whole stream.  Inject ECC into any data,
    let at most one of the 72 bits of each stored code word flip, and remove
    the ECC: the destination holds the original data, the source buffer is
    repaired in place to what [injectECC] wrote, the status is [CLEAN] when no
    bit flipped and [CORRECTED] otherwise, and the error list names the offset
    of exactly the words that were hit. *)
Theorem removeECC_corrects_single (src dst9 dst8 : list Z) (n : nat)
    (es : list (list nat)) (errs : option (list eccErrorLocation_t)) :
  is_bytes src -> length src = (8 * n)%nat ->
  length dst9 = (9 * n)%nat -> length dst8 = (8 * n)%nat ->
  length es = n -> Forall at_most_one_flip es ->
  exists stream,
    injectECC src (8 * n) dst9 = Done stream /\
    removeECC (xor_bytes stream (concat (error_pattern <$> es))) dst8 (8 * n) errs
    = Done (mkRemove (if forallb (fun e => bool_decide (e = [])) es
                      then CLEAN else CORRECTED)
             stream src ((fun _ => log_errors 0 es []) <$> errs)).
Proof.
  intros Hb Hl H9 H8 He Hes. destruct (data_words src n Hl Hb) as (ws & -> & Hws & <-).
  exists (concat (code_word <$> ws)). split; [by apply injectECC_words|].
  assert (Forall (fun e => (length e <= 1)%nat) es) as Hle
    by (eapply Forall_impl; [exact Hes|by intros e []]).
  rewrite <- hit_stream_xor by done.
  assert (Forall error_ok es) by eauto using Forall_impl, at_most_one_flip_ok.
  rewrite removeECC_words by done.
  destruct (repaired_single ws es) as [-> ->]; [done..|].
  by rewrite worse_clean.
Qed.

(** C32: double-error detection.  When some code word of the stream has two
    flipped bits (and no word more than two), [removeECC] reports
    [UNCORRECTABLE], and every word that was hit at most once is still
    delivered correctly. *)
Theorem removeECC_detects_double (src dst9 dst8 : list Z) (n : nat)
    (es : list (list nat)) (errs : option (list eccErrorLocation_t)) :
  is_bytes src -> length src = (8 * n)%nat ->
  length dst9 = (9 * n)%nat -> length dst8 = (8 * n)%nat ->
  length es = n -> Forall error_ok es -> Exists (fun e => length e = 2%nat) es ->
  exists stream st,
    injectECC src (8 * n) dst9 = Done stream /\
    removeECC (xor_bytes stream (concat (error_pattern <$> es))) dst8 (8 * n) errs = Done st /\
    rm_rc st = UNCORRECTABLE /\
    (forall m e, es !! m = Some e -> (length e <= 1)%nat ->
       take 8 (drop (8 * m) (rm_dst st)) = take 8 (drop (8 * m) src)).
Proof.
  intros Hb Hl H9 H8 He Hes Hex. destruct (data_words src n Hl Hb) as (ws & -> & Hws & <-).
  exists (concat (code_word <$> ws)). rewrite <- hit_stream_xor by done.
  eexists. split; [by apply injectECC_words|].
  split; [by apply removeECC_words|]. split; cbn [rm_rc rm_dst].
  - apply Exists_exists in Hex as (e & Hin & H2).
    apply (worse_detects es e); [done|]. destruct e as [|? [|? [|]]]; done.
  - intros m e Hm Hle. by apply (repaired_data_block ws es m e).
Qed.

(** The hypotheses of the two properties hold on a two-word stream. *)
Example removeECC_corrects_single_witness :
  exists stream,
    injectECC (be_split 16 0x0123456789abcdeffedcba9876543210) 16 (replicate 18 0) = Done stream /\
    removeECC (xor_bytes stream (concat (error_pattern <$> [[5%nat]; [70%nat]])))
      (replicate 16 0) 16 (Some [])
    = Done (mkRemove CORRECTED stream (be_split 16 0x0123456789abcdeffedcba9876543210)
              (Some [mkEccError 0 CORRECTED; mkEccError 9 CORRECTED])).
Proof.
  apply (removeECC_corrects_single _ _ _ 2 [[5%nat]; [70%nat]] (Some [])).
  - apply be_split_bytes.
  - reflexivity.
  - reflexivity.
  - reflexivity.
  - reflexivity.
  - repeat constructor; simpl; lia.
Defined.

Example removeECC_detects_double_witness :
  exists stream st,
    injectECC (be_split 16 0x0123456789abcdeffedcba9876543210) 16 (replicate 18 0) = Done stream /\
    removeECC (xor_bytes stream (concat (error_pattern <$> [[5%nat]; [70%nat; 3%nat]])))
      (replicate 16 0) 16 None = Done st /\
    rm_rc st = UNCORRECTABLE /\
    (forall m e, [[5%nat]; [70%nat; 3%nat]] !! m = Some e -> (length e <= 1)%nat ->
       take 8 (drop (8 * m) (rm_dst st))
       = take 8 (drop (8 * m) (be_split 16 0x0123456789abcdeffedcba9876543210))).
Proof.
  apply (removeECC_detects_double _ _ _ 2 [[5%nat]; [70%nat; 3%nat]] None).
  - apply be_split_bytes.
  - reflexivity.
  - reflexivity.
  - reflexivity.
  - reflexivity.
  - repeat constructor; simpl; try lia; set_solver.
  - right. left. reflexivity.
Defined.
