(* ===== verification/Futex.v ===== *)
(** * The futex manager ([src/kernel/futexmgr.C], system call in [syscall.C])

    One list holds the waiting tasks of every futex.  [wait] blocks a task when
    the futex still has the expected value; [wake] releases tasks and can move
    the remaining ones to a second futex.  Tasks and addresses are integers,
    the value at an address is an argument. *)

From S2P Require Import Prelude Containers.

Definition EWOULDBLOCK : Z := 11.
Definition EINVAL : Z := 22.
Definition NULL : Z := 0.

(** [_FutexWait_t] *)
Record FutexWait_t : Type := mkWait {
  w_key : Z;
  w_task : Z
}.

#[global] Instance FutexWait_eq_dec : EqDecision FutexWait_t.
Proof. solve_decision. Defined.

(** The manager's list, the futex each blocked task waits on
    ([state] = [TASK_STATE_BLOCK_FUTEX] and [state_info]), and the tasks handed
    to a scheduler, latest last. *)
Record FutexManager : Type := mkFutex {
  iv_list : list FutexWait_t;
  state_info : gmap Z Z;
  ready : list Z;
  doorbells : nat
}.

(** [_wait]; [cur] is the value at [i_addr] when the lock is taken. *)
Definition futex_wait (i_task i_addr i_val cur : Z) (m : FutexManager) : Z * FutexManager :=
  if negb (cur =? i_val) then (EWOULDBLOCK, m)
  else
    (0, mkFutex (LList.insert (mkWait i_addr i_task) (iv_list m))
          (<[i_task := i_addr]> (state_info m)) (ready m) (doorbells m)).

(** The first loop of [_wake]: [left] tasks may still be started, which the
    counter of the loop tells; the list shrinks each round. *)
Fixpoint wake_loop (fuel : nat) (i_futex1 : Z) (left : Z) (m : FutexManager)
    : outcome (Z * FutexManager) :=
  match fuel with
  | O => Done (0, m)
  | S fuel =>
      if 0 <? left then
        match LList.find w_key i_futex1 (iv_list m) with
        | None => Done (0, m)
        | Some waiter =>
            assert! negb (w_task waiter =? NULL);
            let m := mkFutex (LList.erase w_key i_futex1 (iv_list m))
                       (delete (w_task waiter) (state_info m))
                       (ready m ++ [w_task waiter]) (doorbells m) in
            do (started, m) <- wake_loop fuel i_futex1 (left - 1) m;
            Done (1 + started, m)
        end
      else Done (0, m)
  end.

(** The second loop of [_wake]: move waiters to [i_futex2]. *)
Fixpoint move_loop (fuel : nat) (i_futex1 i_futex2 : Z) (left : Z) (m : FutexManager)
    : outcome FutexManager :=
  match fuel with
  | O => Done m
  | S fuel =>
      if 0 <? left then
        match LList.find w_key i_futex1 (iv_list m) with
        | None => Done m
        | Some waiter =>
            assert! negb (w_task waiter =? NULL);
            move_loop fuel i_futex1 i_futex2 (left - 1)
              (mkFutex (LList.insert (mkWait i_futex2 (w_task waiter))
                          (LList.erase w_key i_futex1 (iv_list m)))
                 (<[w_task waiter := i_futex2]> (state_info m)) (ready m) (doorbells m))
        end
      else Done m
  end.

(** [_wake].  The first loop ends after at most one round per listed task, and
    so does the second one when the futexes differ, which is the fuel.  With
    [i_futex1 = i_futex2] the source repeats the same move: every round after
    the first leaves the list as it is (lemma [move_loop_same]). *)
Definition futex_wake (i_futex1 i_count1 i_futex2 i_count2 : Z) (m : FutexManager)
    : outcome (Z * FutexManager) :=
  do (started, m) <- wake_loop (S (length (iv_list m))) i_futex1 i_count1 m;
  do m <- (if negb (i_futex2 =? NULL) && negb (i_count2 =? 0)
           then move_loop (S (length (iv_list m))) i_futex1 i_futex2 i_count2 m
           else Done m);
  Done (started,
        if negb (started =? 0)
        then mkFutex (iv_list m) (state_info m) (ready m) (S (doorbells m)) else m).

(** ** The system call *)

Inductive futex_op : Type := FUTEX_WAIT | FUTEX_WAKE | FUTEX_REQUEUE | FUTEX_OTHER.

(** [Futex] of [syscall.C] after the addresses were translated: [futex] and
    [futex2] are kernel addresses or [None] when the translation failed, which
    ends the task.  The result is the value the task gets in its return
    register and the manager.  [FUTEX_REQUEUE] leaves the return value at its
    initial 0. *)
Definition sys_futex (t : Z) (op : futex_op) (futex : option Z) (val val2 : Z)
    (futex2 : option Z) (mem : Z -> Z) (m : FutexManager) : outcome (Z * FutexManager) :=
  match futex with
  | None => Crash TaskCrash
  | Some a =>
      match op with
      | FUTEX_WAIT =>
          let '(rc, m) := futex_wait t a val (mem a) m in
          if negb (rc =? 0) then Done (rc, m) else Done (0, m)
      | FUTEX_WAKE => futex_wake a val NULL 0 m
      | FUTEX_REQUEUE =>
          match futex2 with
          | None => Crash TaskCrash
          | Some a2 => do (_, m) <- futex_wake a val a2 val2 m; Done (0, m)
          end
      | FUTEX_OTHER => Done (u64 (-EINVAL), m)
      end
  end.

(** ** Waiters of a futex *)

(** The tasks waiting at an address, in the order [find] meets them: the task
    that came last is first. *)
Definition waiters (a : Z) (l : list FutexWait_t) : list Z :=
  w_task <$> filter (fun w => w_key w = a) l.

Lemma waiters_app a l1 l2 : waiters a (l1 ++ l2) = waiters a l1 ++ waiters a l2.
Proof. unfold waiters. by rewrite filter_app, fmap_app. Qed.

Lemma waiters_cons a w l :
  waiters a (w :: l) =
  if decide (w_key w = a) then w_task w :: waiters a l else waiters a l.
Proof. unfold waiters. rewrite filter_cons. by case_decide. Qed.

Lemma waiters_none a l : Forall (fun w => w_key w <> a) l -> waiters a l = [].
Proof.
  induction 1 as [|w l Hw _ IH]; [done|]. rewrite waiters_cons, decide_False; auto.
Qed.

Lemma waiters_length a l : (length (waiters a l) <= length l)%nat.
Proof. unfold waiters. rewrite length_fmap. apply length_filter. Qed.

Lemma elem_of_waiters a t l : t ∈ waiters a l <-> mkWait a t ∈ l.
Proof.
  unfold waiters. rewrite list_elem_of_fmap. split.
  - intros ([k t'] & -> & [? ?]%list_elem_of_filter). simpl in *. by subst.
  - intros H. exists (mkWait a t). rewrite list_elem_of_filter. done.
Qed.

(** What one round of either loop sees and does. *)
Lemma find_waiters a l :
  match LList.find w_key a l with
  | None => waiters a l = []
  | Some w =>
      waiters a l = w_task w :: waiters a (LList.erase w_key a l) /\
      (forall b, b <> a -> waiters b (LList.erase w_key a l) = waiters b l) /\
      l ≡ₚ mkWait a (w_task w) :: LList.erase w_key a l
  end.
Proof.
  pose proof (LList.find_erase w_key a l) as H.
  destruct (LList.find w_key a l) as [w|].
  - destruct H as (l1 & l2 & -> & -> & Hk & Hf). split_and!.
    + rewrite !waiters_app, waiters_cons, decide_True by done.
      by rewrite (waiters_none a l1).
    + intros b Hb. rewrite !waiters_app, waiters_cons, decide_False by congruence. done.
    + destruct w as [k t]. simpl in *. subst. by rewrite Permutation_middle.
  - destruct H as [_ H]. by apply waiters_none.
Qed.

(** ** The invariant *)

(** A task is on the list once at most, with the address its [state_info]
    records; no entry has a null task. *)
Record futex_inv (m : FutexManager) : Prop := {
  inv_nodup : NoDup (w_task <$> iv_list m);
  inv_state : forall t a, state_info m !! t = Some a <-> mkWait a t ∈ iv_list m;
  inv_task : Forall (fun w => w_task w <> NULL) (iv_list m)
}.

Lemma waiters_nodup a m : futex_inv m -> NoDup (waiters a (iv_list m)).
Proof.
  intros Hi. eapply sublist_NoDup; [apply (inv_nodup _ Hi)|].
  apply fmap_sublist, sublist_filter.
Qed.

(** No task waits at two addresses. *)
Lemma waiters_disjoint a b t m :
  futex_inv m -> t ∈ waiters a (iv_list m) -> t ∈ waiters b (iv_list m) -> a = b.
Proof.
  intros Hi Ha%elem_of_waiters Hb%elem_of_waiters.
  apply (inv_state _ Hi) in Ha, Hb. congruence.
Qed.

Definition fm_new : FutexManager := mkFutex [] ∅ [] 0.

Lemma fm_new_inv : futex_inv fm_new.
Proof.
  split; simpl; [constructor| |constructor].
  intros t a. rewrite lookup_empty, elem_of_nil. done.
Qed.

(** The invariant sees the list up to order. *)
Lemma futex_inv_perm l1 l2 si r d r' d' :
  l1 ≡ₚ l2 -> futex_inv (mkFutex l1 si r d) -> futex_inv (mkFutex l2 si r' d').
Proof.
  intros Hp [H1 H2 H3]; simpl in *. split; simpl.
  - by rewrite <-Hp.
  - intros t a. by rewrite <-Hp.
  - by rewrite <-Hp.
Qed.

Lemma futex_inv_delete a t l si r d r' d' :
  futex_inv (mkFutex (mkWait a t :: l) si r d) ->
  futex_inv (mkFutex l (delete t si) r' d').
Proof.
  intros [H1 H2 H3]; simpl in *.
  apply NoDup_cons in H1 as [Hni Hnd]. apply Forall_cons in H3 as [_ H3].
  split; simpl; [done| |done]. intros t' b. destruct (decide (t' = t)) as [->|Ht].
  - rewrite lookup_delete_eq. split; [done|]. intros Hin. exfalso. apply Hni.
    apply list_elem_of_fmap. by exists (mkWait b t).
  - rewrite lookup_delete_ne by done. rewrite H2, elem_of_cons. naive_solver.
Qed.

Lemma futex_inv_insert a t l si r d r' d' :
  t <> NULL -> si !! t = None ->
  futex_inv (mkFutex l si r d) ->
  futex_inv (mkFutex (mkWait a t :: l) (<[t := a]> si) r' d').
Proof.
  intros Ht Hn [H1 H2 H3]; simpl in *.
  assert (Hni : t ∉ w_task <$> l).
  { intros ([k t'] & Heq & Hin)%list_elem_of_fmap. simpl in *. subst t'.
    apply H2 in Hin. congruence. }
  split; simpl; [by constructor| |by constructor].
  intros t' b. destruct (decide (t' = t)) as [->|Hne].
  - rewrite lookup_insert_eq, elem_of_cons. split.
    + intros [= ->]. by left.
    + intros [[= ->]|Hin]; [done|]. exfalso. apply Hni.
      apply list_elem_of_fmap. by exists (mkWait b t).
  - rewrite lookup_insert_ne by done. rewrite H2, elem_of_cons. naive_solver.
Qed.

(** One waiter at the head of a futex' queue leaves it. *)
Lemma futex_inv_erase f w m r d :
  LList.find w_key f (iv_list m) = Some w -> futex_inv m ->
  w_task w <> NULL /\
  futex_inv (mkFutex (LList.erase w_key f (iv_list m)) (delete (w_task w) (state_info m)) r d).
Proof.
  intros Hf Hi. pose proof (find_waiters f (iv_list m)) as Hw. rewrite Hf in Hw.
  destruct Hw as (_ & _ & Hp). destruct m as [l si r0 d0]; simpl in *.
  assert (Hi' : futex_inv (mkFutex (mkWait f (w_task w) :: LList.erase w_key f l) si r0 d0))
    by (eapply futex_inv_perm; eauto).
  split; [|by eapply futex_inv_delete].
  destruct Hi' as [_ _ H3]. by apply Forall_cons in H3 as [H3 _].
Qed.

(** How many of [ws] a limit [c] lets through. *)
Definition capped (c : Z) (ws : list Z) : nat := Z.to_nat (Z.min c (Z.of_nat (length ws))).

Lemma capped_nonpos c ws : c <= 0 -> capped c ws = 0%nat.
Proof. unfold capped. lia. Qed.

Lemma capped_cons c t ws : 0 < c -> capped c (t :: ws) = S (capped (c - 1) ws).
Proof. unfold capped. cbn [length]. lia. Qed.

(** The first loop starts the most recent waiters, as many as the limit lets
    through, and touches no other futex. *)
Lemma wake_loop_spec fuel f c m :
  (length (waiters f (iv_list m)) < fuel)%nat -> futex_inv m ->
  let ws := waiters f (iv_list m) in
  let n := capped c ws in
  exists m', wake_loop fuel f c m = Done (Z.of_nat n, m') /\
    waiters f (iv_list m') = drop n ws /\
    (forall b, b <> f -> waiters b (iv_list m') = waiters b (iv_list m)) /\
    ready m' = ready m ++ take n ws /\
    doorbells m' = doorbells m /\ futex_inv m'.
Proof.
  revert c m. induction fuel as [|fuel IH]; intros c m Hlen Hi; [lia|].
  cbn [wake_loop]. cbv zeta. destruct (0 <? c) eqn:Hc; b2p.
  2:{ exists m. rewrite capped_nonpos by lia. rewrite take_0, drop_0, app_nil_r. done. }
  pose proof (find_waiters f (iv_list m)) as Hw.
  destruct (LList.find w_key f (iv_list m)) as [w|] eqn:Hf.
  2:{ rewrite Hw, take_nil, drop_nil, app_nil_r. exists m.
      split_and!; auto. unfold capped. cbn [length].
      by replace (Z.min c (Z.of_nat 0)) with 0 by lia. }
  destruct Hw as (Hws & Hoth & Hp). rewrite Hws in *. cbn [length] in Hlen.
  destruct (futex_inv_erase f w m (ready m ++ [w_task w]) (doorbells m) Hf Hi) as [Ht Hi'].
  rewrite (proj2 (Z.eqb_neq _ _) Ht). cbn [negb].
  match type of Hi' with futex_inv ?m1 =>
    destruct (IH (c - 1) m1) as (m' & E & H1 & H2 & H3 & H4 & H5); [simpl; lia|done|] end.
  rewrite E. cbn [obind]. exists m'. rewrite capped_cons by lia. cbn [iv_list ready doorbells] in *.
  split_and!; auto.
  - f_equal. f_equal. lia.
  - intros b Hb. by rewrite H2, Hoth.
  - rewrite H3, <-app_assoc. done.
Qed.

(** The second loop moves waiters over, most recent first, so that they end in
    reverse order in front of the second futex' own. *)
Lemma move_loop_spec fuel f1 f2 c m :
  f1 <> f2 -> (length (waiters f1 (iv_list m)) < fuel)%nat -> futex_inv m ->
  let ws := waiters f1 (iv_list m) in
  let k := capped c ws in
  exists m', move_loop fuel f1 f2 c m = Done m' /\
    waiters f1 (iv_list m') = drop k ws /\
    waiters f2 (iv_list m') = reverse (take k ws) ++ waiters f2 (iv_list m) /\
    (forall b, b <> f1 -> b <> f2 -> waiters b (iv_list m') = waiters b (iv_list m)) /\
    ready m' = ready m /\ doorbells m' = doorbells m /\ futex_inv m'.
Proof.
  intros Hne. revert c m. induction fuel as [|fuel IH]; intros c m Hlen Hi; [lia|].
  cbn [move_loop]. cbv zeta. destruct (0 <? c) eqn:Hc; b2p.
  2:{ exists m. rewrite capped_nonpos by lia. rewrite take_0, drop_0. done. }
  pose proof (find_waiters f1 (iv_list m)) as Hw.
  destruct (LList.find w_key f1 (iv_list m)) as [w|] eqn:Hf.
  2:{ rewrite Hw, take_nil, drop_nil. by exists m. }
  destruct Hw as (Hws & Hoth & Hp). rewrite Hws in *. cbn [length] in Hlen.
  destruct (futex_inv_erase f1 w m (ready m) (doorbells m) Hf Hi) as [Ht Hi'].
  rewrite (proj2 (Z.eqb_neq _ _) Ht). cbn [negb].
  apply (futex_inv_insert f2 _ _ _ _ _ (ready m) (doorbells m) Ht) in Hi';
    [|apply lookup_delete_eq].
  rewrite insert_delete_eq in Hi'. unfold LList.insert.
  match type of Hi' with futex_inv ?m1 =>
    destruct (IH (c - 1) m1) as (m' & E & H1 & H2 & H3 & H4 & H5 & H6);
    [cbn [iv_list]; rewrite waiters_cons, decide_False by (simpl; congruence); lia|done|] end.
  cbn [iv_list ready doorbells w_key] in *.
  exists m'. rewrite capped_cons by lia.
  rewrite (waiters_cons f1), decide_False in H1, H2 by (simpl; congruence).
  rewrite (waiters_cons f2), decide_True in H2 by done.
  split_and!; auto.
  - rewrite H2. cbn [take]. rewrite reverse_cons, <-app_assoc. simpl. by rewrite (Hoth f2) by congruence.
  - intros b Hb1 Hb2. rewrite H3, waiters_cons, decide_False by (simpl; congruence). auto.
Qed.

(** Moving a futex' waiters onto itself: after the first round, a further one
    leaves the list as it is. *)
Lemma move_loop_same f c m m1 :
  0 < c -> move_loop 1 f f c m = Done m1 ->
  forall fuel, move_loop (S fuel) f f c m = Done m1.
Proof.
  intros Hc H1 fuel. revert c Hc H1.
  enough (Hgen : forall fuel c m, LList.find w_key f (iv_list m) = None \/
            (exists t l, iv_list m = mkWait f t :: l /\ t <> NULL /\ state_info m !! t = Some f) ->
            move_loop fuel f f c m = Done m).
  { intros c Hc H1. cbn [move_loop] in *. rewrite (proj2 (Z.ltb_lt _ _) Hc) in *.
    destruct (LList.find w_key f (iv_list m)) as [w|] eqn:Hf; [|done].
    destruct (w_task w =? NULL) eqn:Ht; [done|]. b2p. cbn [negb] in *.
    injection H1 as <-. apply Hgen. right. eexists _, _. simpl.
    split_and!; [done|done|]. apply lookup_insert_eq. }
  clear. induction fuel as [|fuel IH]; intros c m Hm; [done|]. cbn [move_loop].
  destruct (0 <? c); [|done]. destruct Hm as [-> | (t & l & Hl & Ht & Hs)]; [done|].
  destruct m as [l0 si r d]. cbn [iv_list state_info ready doorbells] in *. subst l0.
  simpl. rewrite Z.eqb_refl. cbn [negb w_task]. rewrite (proj2 (Z.eqb_neq _ _) Ht). cbn [negb].
  unfold LList.insert. rewrite insert_id by done. apply IH. right. eauto.
Qed.

(** [_wait] of a running task. *)
Lemma futex_wait_inv t a v cur m :
  futex_inv m -> t <> NULL -> state_info m !! t = None ->
  futex_inv (futex_wait t a v cur m).2.
Proof.
  intros Hi Ht Hs. unfold futex_wait. destruct (cur =? v); cbn [negb snd]; [|done].
  destruct m. by eapply futex_inv_insert.
Qed.

Lemma futex_wait_waiters t a v cur m :
  futex_wait t a v cur m =
    if cur =? v then
      (0, mkFutex (mkWait a t :: iv_list m) (<[t := a]> (state_info m)) (ready m) (doorbells m))
    else (EWOULDBLOCK, m).
Proof. unfold futex_wait. by destruct (cur =? v). Qed.

(** [FutexManager::_wake] on two different futexes.  It never asserts; it
    starts the [min(count1, #waiters)] tasks that queued last, returns their
    number and rings the doorbell exactly when there is one; of the rest it
    moves [min(count2, #rest)] to the second futex (none when that is null);
    waiters of every other futex stay; no task is lost or listed twice and the
    recorded address of every waiting task is right. *)
Lemma futex_wake_spec m f1 c1 f2 c2 :
  futex_inv m -> f1 <> f2 -> 0 <= c2 ->
  let ws := waiters f1 (iv_list m) in
  let n := capped c1 ws in
  let k := if f2 =? NULL then 0%nat else capped c2 (drop n ws) in
  exists m', futex_wake f1 c1 f2 c2 m = Done (Z.of_nat n, m') /\
    ready m' = ready m ++ take n ws /\
    waiters f1 (iv_list m') = drop (n + k) ws /\
    waiters f2 (iv_list m') = reverse (take k (drop n ws)) ++ waiters f2 (iv_list m) /\
    (forall b, b <> f1 -> b <> f2 -> waiters b (iv_list m') = waiters b (iv_list m)) /\
    doorbells m' = (if decide (n = 0%nat) then doorbells m else S (doorbells m)) /\
    futex_inv m'.
Proof.
  intros Hi Hne Hc2 ws n k. unfold futex_wake.
  destruct (wake_loop_spec (S (length (iv_list m))) f1 c1 m) as (m1 & -> & W1 & W2 & W3 & W4 & W5);
    [pose proof (waiters_length f1 (iv_list m)); lia|done|].
  cbn [obind]. fold ws in W1, W3. fold n in W1, W3.
  assert (Hmove : exists m2,
    (if negb (f2 =? NULL) && negb (c2 =? 0)
     then move_loop (S (length (iv_list m1))) f1 f2 c2 m1 else Done m1) = Done m2 /\
    waiters f1 (iv_list m2) = drop k (drop n ws) /\
    waiters f2 (iv_list m2) = reverse (take k (drop n ws)) ++ waiters f2 (iv_list m1) /\
    (forall b, b <> f1 -> b <> f2 -> waiters b (iv_list m2) = waiters b (iv_list m1)) /\
    ready m2 = ready m1 /\ doorbells m2 = doorbells m1 /\ futex_inv m2).
  { subst k. destruct (f2 =? NULL) eqn:E2; [|destruct (c2 =? 0) eqn:E3]; b2p; cbn [negb andb].
    - exists m1. rewrite take_0, drop_0. done.
    - exists m1. rewrite capped_nonpos by lia. rewrite take_0, drop_0. done.
    - rewrite <-W1. apply move_loop_spec; [done| |done].
      pose proof (waiters_length f1 (iv_list m1)). lia. }
  destruct Hmove as (m2 & -> & M1 & M2 & M3 & M4 & M5 & M6). cbn [obind].
  eexists. split; [done|]. fold ws n.
  destruct (decide (n = 0%nat)) as [E0|E0].
  - rewrite (proj2 (Z.eqb_eq (Z.of_nat n) 0)) by lia. cbn [negb].
    rewrite M1, M2, M4, M5, W3, drop_drop. split_and!; auto; [by rewrite W2 by congruence|].
    intros b Hb1 Hb2. rewrite M3, W2; auto.
  - rewrite (proj2 (Z.eqb_neq (Z.of_nat n) 0)) by lia. cbn [negb iv_list ready doorbells].
    rewrite M1, M2, M4, M5, W3, drop_drop. split_and!; auto; [by rewrite W2 by congruence| |].
    + intros b Hb1 Hb2. rewrite M3, W2; auto.
    + destruct m2. eapply futex_inv_perm; eauto.
Qed.

(** Tasks 1, 2 and 3 wait at 100, task 4 at 200. *)
Definition fm_sample : FutexManager :=
  foldl (fun m '(t, a) => (futex_wait t a 0 0 m).2) fm_new [(1, 100); (2, 100); (4, 200); (3, 100)].

Lemma fm_sample_inv : futex_inv fm_sample.
Proof. repeat (apply futex_wait_inv; [|done|by vm_compute]). apply fm_new_inv. Qed.

(** What [sys_futex] promises a task [t]: the manager and return value after
    the call at address [a]. *)
Definition futex_post (t : Z) (op : futex_op) (a val val2 : Z) (f2 : option Z) (cur : Z)
    (m : FutexManager) (rc : Z) (m' : FutexManager) : Prop :=
  let ws := waiters a (iv_list m) in
  let n := capped val ws in
  match op with
  | FUTEX_WAIT =>
      if decide (cur = val)
      then rc = 0 /\ waiters a (iv_list m') = t :: ws /\ ready m' = ready m /\
           (forall b, b <> a -> waiters b (iv_list m') = waiters b (iv_list m))
      else rc = EWOULDBLOCK /\ m' = m
  | FUTEX_WAKE =>
      rc = Z.of_nat n /\ ready m' = ready m ++ take n ws /\
      waiters a (iv_list m') = drop n ws /\
      (forall b, b <> a -> waiters b (iv_list m') = waiters b (iv_list m))
  | FUTEX_REQUEUE =>
      exists a2, f2 = Some a2 /\
      let k := if a2 =? NULL then 0%nat else capped val2 (drop n ws) in
      rc = 0 /\ ready m' = ready m ++ take n ws /\
      waiters a (iv_list m') = drop (n + k) ws /\
      waiters a2 (iv_list m') = reverse (take k (drop n ws)) ++ waiters a2 (iv_list m) /\
      (forall b, b <> a -> b <> a2 -> waiters b (iv_list m') = waiters b (iv_list m))
  | FUTEX_OTHER => rc = u64 (-EINVAL) /\ m' = m
  end.

(** Waking without a second futex. *)
Lemma futex_wake_only m a c :
  futex_inv m ->
  let ws := waiters a (iv_list m) in
  let n := capped c ws in
  exists m', futex_wake a c NULL 0 m = Done (Z.of_nat n, m') /\
    ready m' = ready m ++ take n ws /\ waiters a (iv_list m') = drop n ws /\
    (forall b, b <> a -> waiters b (iv_list m') = waiters b (iv_list m)) /\
    futex_inv m'.
Proof.
  intros Hi ws n. unfold futex_wake. rewrite Z.eqb_refl. cbn [negb andb].
  destruct (wake_loop_spec (S (length (iv_list m))) a c m) as (m1 & -> & H1 & H2 & H3 & _ & H5);
    [pose proof (waiters_length a (iv_list m)); lia|done|].
  cbn [obind]. eexists. split; [done|]. destruct (Z.of_nat _ =? 0); cbn [negb]; [done|].
  destruct m1. split_and!; auto. by eapply futex_inv_perm.
Qed.

(** the [Futex] system call of a running task.  A wait blocks the task
    exactly when the futex still has the expected value, and otherwise reports
    [EWOULDBLOCK] with nothing changed; a wake starts the [min(val, #waiters)]
    tasks that queued last and returns their number; a requeue also moves
    [min(val2, #rest)] of the remaining ones to the second futex; waiters of
    every other futex stay.  No task is lost, none is listed twice, the address
    recorded for every waiting task is right and no assertion fires: the call
    ends abnormally only for a second address without translation. *)
Theorem sys_futex_correct t op a val val2 f2 mem m :
  futex_inv m -> t <> NULL -> state_info m !! t = None -> 0 <= val2 ->
  (op = FUTEX_REQUEUE -> f2 <> Some a) ->
  match sys_futex t op (Some a) val val2 f2 mem m with
  | Crash f => f = TaskCrash /\ op = FUTEX_REQUEUE /\ f2 = None
  | Done (rc, m') => futex_inv m' /\ futex_post t op a val val2 f2 (mem a) m rc m'
  end.
Proof.
  intros Hi Ht Hs Hv Hne. unfold sys_futex, futex_post. destruct op.
  - pose proof (futex_wait_inv t a val (mem a) m Hi Ht Hs) as Hw.
    rewrite futex_wait_waiters in *.
    destruct (mem a =? val) eqn:E; b2p; simpl in *; split; auto.
    + rewrite decide_True by done. rewrite waiters_cons, decide_True by done. split_and!; auto.
      intros b Hb. by rewrite waiters_cons, decide_False by (simpl; congruence).
    + by rewrite decide_False.
  - destruct (futex_wake_only m a val Hi) as (m' & -> & H1 & H2 & H3 & H4). split_and!; auto.
  - destruct f2 as [a2|]; [|done].
    destruct (futex_wake_spec m a val a2 val2) as (m' & -> & H1 & H2 & H3 & H4 & _ & H); auto.
    { intros ->. by apply Hne. }
    simpl. split; [done|]. exists a2. split_and!; auto.
  - done.
Qed.

(** One task woken, the other two moved. *)
Lemma sys_futex_correct_witness :
  exists m', sys_futex 9 FUTEX_REQUEUE (Some 100) 1 (2 ^ 64 - 1) (Some 200) (fun _ => 0) fm_sample
      = Done (0, m') /\
    ready m' = [3] /\ waiters 200 (iv_list m') = [1; 2; 4].
Proof.
  pose proof (sys_futex_correct 9 FUTEX_REQUEUE 100 1 (2 ^ 64 - 1) (Some 200) (fun _ => 0) fm_sample
    fm_sample_inv ltac:(done) ltac:(done) ltac:(lia) ltac:(done)) as H.
  destruct (sys_futex 9 FUTEX_REQUEUE (Some 100) 1 (2 ^ 64 - 1) (Some 200) (fun _ => 0) fm_sample)
    as [[rc m']|f]; [|destruct H as (_ & _ & ?); discriminate].
  destruct H as [_ (a2 & [= <-] & H0 & H1 & _ & H2 & _)]. exists m'.
  split_and!; [by rewrite H0|exact H1|exact H2].
Defined.
