(* ===== verification/Sync.v ===== *)
(** * User-space synchronisation ([src/lib/sync.C]): data, code, mutex protocol

    The objects of [sync.h], the functions of [sync.C] as small-step programs
    (one step per atomic access or system call), and the protocol that every
    use of a mutex follows, proved once for all clients: the machines of
    [SyncMutex], [SyncRec] and [SyncBarrier] instantiate it. *)

From S2P Require Import Prelude Containers Futex.

(** ** Objects *)

(** [_futex_imp_t] *)
Record mutex_t : Type := mkMutex {
  iv_val : Z;
  iv_ownerLockCount : Z;
  iv_owner : Z;
  iv_recursive : bool
}.

(** [_cond_imp_t]; a mutex is named by the address of its [iv_val]. *)
Record sync_cond_t : Type := mkCond {
  c_mutex : Z;
  c_sequence : Z
}.

(** [_barrier_imp_t] *)
Record barrier_t : Type := mkBarrier {
  iv_mutex : mutex_t;
  iv_event : Z;
  iv_missing : Z;
  iv_count : Z
}.

Definition mutex_init (i_recursive : bool) : mutex_t := mkMutex 0 0 0 i_recursive.

Definition mutex_destroy (m : mutex_t) : outcome mutex_t :=
  assert! negb (iv_recursive m);
  Done (mkMutex (2 ^ 64 - 1) 0 0 (iv_recursive m)).

Definition recursive_mutex_destroy (m : mutex_t) : outcome mutex_t :=
  assert! iv_recursive m;
  Done (mkMutex (2 ^ 64 - 1) 0 0 (iv_recursive m)).

Definition barrier_init (i_count : Z) : barrier_t := mkBarrier (mutex_init false) 0 i_count i_count.

Definition barrier_destroy (b : barrier_t) : outcome unit :=
  assert! iv_missing b =? iv_count b; Done tt.

Definition sync_cond_init : sync_cond_t := mkCond NULL 0.

Definition with_val (m : mutex_t) (v : Z) : mutex_t :=
  mkMutex v (iv_ownerLockCount m) (iv_owner m) (iv_recursive m).

(** ** Atomic accesses *)

(** [__sync_val_compare_and_swap]: the old value and the new one. *)
Definition val_compare_and_swap (v old new : Z) : Z * Z := (v, if v =? old then new else v).
(** [__sync_lock_test_and_set] *)
Definition lock_test_and_set (v new : Z) : Z * Z := (v, new).
(** [__sync_fetch_and_sub], [__sync_fetch_and_add] *)
Definition fetch_and_sub (v n : Z) : Z * Z := (v, u64 (v - n)).
Definition fetch_and_add (v n : Z) : Z * Z := (v, u64 (v + n)).

(** ** [mutex_lock] and [mutex_unlock] *)

(** Where a thread is in [mutex_lock]. *)
Inductive lpc : Type :=
| L_cas      (** before the compare-and-swap *)
| L_tas      (** before a test-and-set *)
| L_wait     (** before [futex_wait] in the loop *)
| L_blocked. (** in the kernel, on the futex list *)

(** Where a thread is in [mutex_unlock]. *)
Inductive upc : Type :=
| U_sub      (** before the fetch-and-sub *)
| U_store    (** before [iv_val = 0] *)
| U_wake.    (** before [futex_wake] *)

#[global] Instance lpc_eq_dec : EqDecision lpc.
Proof. solve_decision. Defined.
#[global] Instance upc_eq_dec : EqDecision upc.
Proof. solve_decision. Defined.

(** One step of [mutex_lock] by thread [t] on the mutex at address [a]: the new
    value, futex manager, and the next position ([None]: the call returns). *)
Definition lock_step (t a : Z) (l : lpc) (v : Z) (fm : FutexManager)
    : option (Z * FutexManager * option lpc) :=
  match l with
  | L_cas =>
      let '(l_lockStatus, v') := val_compare_and_swap v 0 1 in
      Some (v', fm,
            if negb (l_lockStatus =? 0) then
              if negb (l_lockStatus =? 2) then Some L_tas else Some L_wait
            else None)
  | L_tas =>
      let '(l_lockStatus, v') := lock_test_and_set v 2 in
      Some (v', fm, if negb (l_lockStatus =? 0) then Some L_wait else None)
  | L_wait =>
      let '(rc, fm') := futex_wait t a 2 v fm in
      Some (v, fm', if rc =? 0 then Some L_blocked else Some L_tas)
  | L_blocked => None
  end.

(** One step of [mutex_unlock]: as above. *)
Definition unlock_step (a : Z) (u : upc) (v : Z) (fm : FutexManager)
    : outcome (Z * FutexManager * option upc) :=
  match u with
  | U_sub =>
      let '(l_lockStatus, v') := fetch_and_sub v 1 in
      Done (v', fm, if 2 <=? l_lockStatus then Some U_store else None)
  | U_store => Done (0, fm, Some U_wake)
  | U_wake => do (_, fm') <- futex_wake a 1 NULL 0 fm; Done (v, fm', None)
  end.

(** The tasks a system call handed to the scheduler. *)
Definition released (fm fm' : FutexManager) : list Z := drop (length (ready fm)) (ready fm').

(** ** Thread tables *)

Definition resume_all {P} (resume : P -> P) (ts : list Z) (f : Z -> P) : Z -> P :=
  foldl (fun f w => upd f w (resume (f w))) f ts.

Lemma resume_all_ne {P} (r : P -> P) ts f t : t ∉ ts -> resume_all r ts f t = f t.
Proof.
  unfold resume_all. revert f. induction ts as [|w ts IH]; intros f Ht; [done|].
  apply not_elem_of_cons in Ht as [Hw Ht]. simpl. by rewrite IH, upd_ne.
Qed.

Lemma resume_all_in {P} (r : P -> P) ts f t :
  NoDup ts -> t ∈ ts -> resume_all r ts f t = r (f t).
Proof.
  unfold resume_all. revert f. induction ts as [|w ts IH]; intros f Hnd Ht;
    [by apply elem_of_nil in Ht|].
  apply NoDup_cons in Hnd as [Hw Hnd]. simpl. apply elem_of_cons in Ht as [->|Ht].
  - pose proof (resume_all_ne r ts (upd f w (r (f w))) w Hw) as H.
    unfold resume_all in H. by rewrite H, upd_eq.
  - rewrite IH by done. rewrite upd_ne; [done|]. intros ->. done.
Qed.

(** Close a goal on what a known position means. *)
Ltac viewed := simpl in *; first [done | tauto | by intros []].

(** ** The mutex protocol *)

(** What a thread is to a mutex: outside (or between two accesses that do not
    matter to others), about to mark it contended, blocked, holding it, holding
    it and about to release it with waiters, about to wake a waiter. *)
Inductive mview : Type := MOut | MRetry | MBlocked | MHold | MStore | MWake.

#[global] Instance mview_eq_dec : EqDecision mview.
Proof. solve_decision. Defined.

Definition holding (v : mview) : bool :=
  match v with MHold | MStore => true | _ => false end.

(** A thread whose next access marks the mutex contended, or whose next ones
    release it and wake a waiter. *)
Definition waking (v : mview) : bool :=
  match v with MRetry | MStore | MWake => true | _ => false end.

(** A client of a mutex: the positions of its threads, and what each means to
    the mutex. *)
Class MutexClient (P : Type) : Type := view : P -> mview.

Definition view_lpc (l : lpc) : mview :=
  match l with L_cas | L_wait => MOut | L_tas => MRetry | L_blocked => MBlocked end.
Definition view_upc (u : upc) : mview :=
  match u with U_sub => MHold | U_store => MStore | U_wake => MWake end.

Section protocol.
Context {P : Type} `{!MutexClient P}.
Implicit Types (pc : Z -> P) (q : list Z) (v t : Z).

(** The value counts holders: 0 for none, else 1 or 2 with exactly one; the
    queued threads are blocked; and when a thread is queued, the value says so
    or another thread is on its way to wake it or to say so. *)
Record mutex_inv v q pc : Prop := {
  mi_val : v = 0 \/ v = 1 \/ v = 2;
  mi_unique : forall t1 t2, holding (view (pc t1)) -> holding (view (pc t2)) -> t1 = t2;
  mi_free : v = 0 -> forall t, ~ holding (view (pc t));
  mi_held : v <> 0 -> exists t, holding (view (pc t));
  mi_queue : forall t, t ∈ q -> view (pc t) = MBlocked;
  mi_wake : q <> [] -> v = 2 \/ exists t, waking (view (pc t))
}.

(** Tables that agree on every thread are the same to the protocol. *)
#[global] Instance mutex_inv_proper v q :
  Proper (pointwise_relation Z (=) ==> iff) (mutex_inv v q).
Proof.
  enough (forall pc pc', pointwise_relation Z (=) pc pc' -> mutex_inv v q pc -> mutex_inv v q pc')
    as H by (intros pc pc' E; split; apply H; [done|by symmetry]).
  intros pc pc' E [I1 I2 I3 I4 I5 I6]. split; auto.
  - intros t1 t2. rewrite <-!E. auto.
  - intros ? t. rewrite <-E. auto.
  - intros Hv. destruct (I4 Hv) as [t Ht]. exists t. by rewrite <-E.
  - intros t. rewrite <-E. auto.
  - intros Hq. destruct (I6 Hq) as [|[t Ht]]; [by left|]. right. exists t. by rewrite <-E.
Qed.

Lemma mutex_inv_new pc : (forall t, view (pc t) = MOut) -> mutex_inv 0 [] pc.
Proof.
  intros H. split; try done; [by left| | |].
  - intros t1 t2 H1. by rewrite H in H1.
  - intros _ t Ht. by rewrite H in Ht.
  - intros t. rewrite elem_of_nil. done.
Qed.

(** A step that is no access to the mutex. *)
Lemma mi_move v q pc t p :
  mutex_inv v q pc ->
  holding (view p) = holding (view (pc t)) ->
  (waking (view (pc t)) -> waking (view p)) ->
  (t ∈ q -> view p = MBlocked) ->
  mutex_inv v q (upd pc t p).
Proof.
  intros [I1 I2 I3 I4 I5 I6] Hh Hw Hq. split; auto.
  - intros t1 t2. upd_cases; rewrite ?Hh; auto.
  - intros Hv t'. upd_cases; rewrite ?Hh; auto.
  - intros Hv. destruct (I4 Hv) as [t' Ht']. exists t'. upd_cases; by rewrite ?Hh.
  - intros t' Ht'. upd_cases; auto.
  - intros Hne. destruct (I6 Hne) as [|[t' Ht']]; [by left|]. right. exists t'. upd_cases; auto.
Qed.

(** Threads released from another futex go on. *)
Lemma mi_resume v q ts pc (resume : P -> P) :
  (forall p, holding (view (resume p)) = holding (view p)) ->
  (forall p, waking (view p) -> waking (view (resume p))) ->
  (forall t, t ∈ ts -> t ∉ q) ->
  mutex_inv v q pc -> mutex_inv v q (resume_all resume ts pc).
Proof.
  intros Hh Hw. unfold resume_all. revert pc.
  induction ts as [|w ts IH]; intros pc Hq Hi; [done|]. simpl.
  apply IH; [intros t Ht; apply Hq; by right|].
  apply mi_move; [done|by rewrite Hh|auto|]. intros Hin. exfalso. apply (Hq w); [by left|done].
Qed.

(** Taking the mutex: the thread was no holder and nobody was. *)
Lemma mi_take v' q pc t p :
  mutex_inv 0 q pc -> t ∉ q -> view p = MHold -> v' = 1 \/ v' = 2 ->
  (v' = 2 \/ ~ waking (view (pc t))) ->
  mutex_inv v' q (upd pc t p).
Proof.
  intros [I1 I2 I3 I4 I5 I6] Hq Hp Hv Hw. split.
  - tauto.
  - intros t1 t2. upd_cases; auto; intros; exfalso; eapply I3; eauto.
  - lia.
  - intros _. exists t. upd_cases; by rewrite ?Hp.
  - intros t' Ht'. upd_cases; [done|auto].
  - intros Hne. destruct Hw as [|Hw]; [by left|].
    destruct (I6 Hne) as [|[t' Ht']]; [lia|]. right. exists t'. upd_cases; done.
Qed.

(** Marking a held mutex contended. *)
Lemma mi_mark v q pc t p :
  mutex_inv v q pc -> v <> 0 -> holding (view p) = holding (view (pc t)) ->
  (t ∈ q -> view p = MBlocked) -> mutex_inv 2 q (upd pc t p).
Proof.
  intros [I1 I2 I3 I4 I5 I6] Hv Hh Hq. split; auto.
  - intros t1 t2. upd_cases; rewrite ?Hh; auto.
  - done.
  - intros _. destruct (I4 Hv) as [t' Ht']. exists t'. upd_cases; by rewrite ?Hh.
  - intros t' Ht'. upd_cases; auto.
Qed.

(** Queueing on a contended mutex. *)
Lemma mi_block q pc t p :
  mutex_inv 2 q pc -> ~ holding (view (pc t)) -> view p = MBlocked ->
  mutex_inv 2 (t :: q) (upd pc t p).
Proof.
  intros [I1 I2 I3 I4 I5 I6] Hh Hp.
  assert (Hf : holding (view p) = holding (view (pc t))).
  { rewrite Hp. by destruct (holding (view (pc t))). }
  split; auto.
  - intros t1 t2. upd_cases; rewrite ?Hf; auto.
  - lia.
  - intros _. destruct I4 as [t' Ht']; [done|]. exists t'. upd_cases; by rewrite ?Hf.
  - intros t' [->|Ht']%elem_of_cons; upd_cases; auto. done.
Qed.

(** Queueing threads that are blocked already, when one is about to mark. *)
Lemma mi_requeue v q ts pc :
  mutex_inv v q pc -> (forall t, t ∈ ts -> view (pc t) = MBlocked) ->
  (exists t, waking (view (pc t))) -> mutex_inv v (ts ++ q) pc.
Proof.
  intros [I1 I2 I3 I4 I5 I6] Ht Hw. split; auto.
  intros t [?|?]%elem_of_app; auto.
Qed.

(** The holder's accesses. *)
Lemma mi_release q pc t p :
  mutex_inv 1 q pc -> view (pc t) = MHold -> ~ holding (view p) -> t ∉ q ->
  mutex_inv 0 q (upd pc t p).
Proof.
  intros [I1 I2 I3 I4 I5 I6] Hh Hp Hq. split; auto.
  - intros t1 t2. upd_cases; try done; auto.
  - intros _ t'. upd_cases; [done|]. intros H. eapply Heqb, I2; [done|]. by rewrite Hh.
  - done.
  - intros t' Ht'. upd_cases; [done|auto].
  - intros Hne. destruct (I6 Hne) as [|[t' Ht']]; [lia|]. right. exists t'. upd_cases; [|done].
    by rewrite Hh in Ht'.
Qed.

Lemma mi_contend v q pc t p :
  mutex_inv v q pc -> view (pc t) = MHold -> view p = MStore -> t ∉ q ->
  mutex_inv 1 q (upd pc t p).
Proof.
  intros [I1 I2 I3 I4 I5 I6] Hh Hp Hq.
  assert (Hf : holding (view p) = holding (view (pc t))) by by rewrite Hp, Hh.
  split; auto.
  - intros t1 t2. upd_cases; rewrite ?Hf; auto.
  - done.
  - intros _. exists t. upd_cases; by rewrite ?Hp.
  - intros t' Ht'. upd_cases; [done|auto].
  - intros _. right. exists t. upd_cases; by rewrite ?Hp.
Qed.

Lemma mi_store v q pc t p :
  mutex_inv v q pc -> view (pc t) = MStore -> view p = MWake -> t ∉ q ->
  mutex_inv 0 q (upd pc t p).
Proof.
  intros [I1 I2 I3 I4 I5 I6] Hh Hp Hq. split; auto.
  - intros t1 t2. upd_cases; rewrite ?Hp; try done; auto.
  - intros _ t'. upd_cases; rewrite ?Hp; [by intros []|]. intros H. eapply Heqb, I2; [done|].
    by rewrite Hh.
  - done.
  - intros t' Ht'. upd_cases; [done|auto].
  - intros _. right. exists t. upd_cases; by rewrite ?Hp.
Qed.

(** One waiter released; it will mark the mutex. *)
Lemma mi_wake_one v w q pc p :
  mutex_inv v (w :: q) pc -> NoDup (w :: q) -> view p = MRetry ->
  mutex_inv v q (upd pc w p).
Proof.
  intros [I1 I2 I3 I4 I5 I6] [Hw Hnd]%NoDup_cons Hp.
  assert (Hf : holding (view p) = holding (view (pc w))) by (rewrite Hp, (I5 w); [done|by left]).
  split; auto.
  - intros t1 t2. upd_cases; rewrite ?Hf; auto.
  - intros Hv t'. upd_cases; rewrite ?Hf; auto.
  - intros Hv. destruct (I4 Hv) as [t' Ht']. exists t'. upd_cases; by rewrite ?Hf.
  - intros t' Ht'. upd_cases; [done|]. apply I5. by right.
  - intros _. right. exists w. upd_cases; by rewrite ?Hp.
Qed.

(** The waker is done, when nobody is queued or a released thread is about to
    mark. *)
Lemma mi_waker_done v q pc t p :
  mutex_inv v q pc -> ~ holding (view (pc t)) -> ~ holding (view p) -> t ∉ q ->
  q = [] \/ (exists t', t' <> t /\ waking (view (pc t'))) ->
  mutex_inv v q (upd pc t p).
Proof.
  intros [I1 I2 I3 I4 I5 I6] Hh Hp Hq Hw.
  assert (Hf : holding (view p) = holding (view (pc t))).
  { by destruct (holding (view (pc t))), (holding (view p)). }
  split; auto.
  - intros t1 t2. upd_cases; rewrite ?Hf; auto.
  - intros Hv t'. upd_cases; rewrite ?Hf; auto.
  - intros Hv. destruct (I4 Hv) as [t' Ht']. exists t'. upd_cases; by rewrite ?Hf.
  - intros t' Ht'. upd_cases; [done|auto].
  - intros Hne. right. destruct Hw as [|(t' & Ht & Ht')]; [done|]. exists t'. upd_cases; done.
Qed.

(** Nobody holds, marks or wakes: then nobody is queued. *)
Lemma mi_quiet v q pc :
  mutex_inv v q pc -> (forall t, holding (view (pc t)) = false /\ waking (view (pc t)) = false) ->
  q = [].
Proof.
  intros [I1 I2 I3 I4 I5 I6] H. destruct q; [done|]. exfalso.
  destruct I6 as [->|[t Ht]]; [done| |].
  - destruct I4 as [t Ht]; [done|]. by rewrite (proj1 (H t)) in Ht.
  - by rewrite (proj2 (H t)) in Ht.
Qed.

(** *** The functions follow the protocol *)

Lemma released_app fm fm' ts : ready fm' = ready fm ++ ts -> released fm fm' = ts.
Proof. intros H. unfold released. rewrite H. apply drop_app_length. Qed.

(** A step of [mutex_lock]; [p] is the position the client records after it. *)
Lemma lock_step_inv t a l v fm v' fm' next pc p :
  futex_inv fm -> t <> NULL -> state_info fm !! t = None ->
  mutex_inv v (waiters a (iv_list fm)) pc -> view (pc t) = view_lpc l ->
  lock_step t a l v fm = Some (v', fm', next) ->
  view p = match next with Some l' => view_lpc l' | None => MHold end ->
  futex_inv fm' /\ mutex_inv v' (waiters a (iv_list fm')) (upd pc t p) /\
  fm' = (if decide (next = Some L_blocked)
         then mkFutex (mkWait a t :: iv_list fm) (<[t := a]> (state_info fm)) (ready fm) (doorbells fm)
         else fm).
Proof.
  intros Hfi Ht Hs Hi Hv Hstep Hp.
  assert (Hnh : ~ holding (view (pc t))) by (rewrite Hv; destruct l; simpl; tauto).
  assert (Hq : t ∉ waiters a (iv_list fm)).
  { intros Hin%elem_of_waiters. apply (inv_state _ Hfi) in Hin. congruence. }
  destruct l; cbn in Hstep; simplify_eq/=.
  - pose proof (mi_val _ _ _ Hi) as [->|[->| ->]]; simpl in *.
    + split_and!; [done|eapply mi_take; eauto|reflexivity]. right. rewrite Hv. viewed.
    + split_and!; [done| |reflexivity].
      apply mi_move; [done|by rewrite Hv, Hp|by rewrite Hv|done].
    + split_and!; [done| |reflexivity].
      apply mi_move; [done|by rewrite Hv, Hp|by rewrite Hv|done].
  - destruct (decide (v = 0)) as [->|Hv0].
    + simpl in *. split_and!; [done|eapply mi_take; eauto|reflexivity].
    + rewrite (proj2 (Z.eqb_neq _ _) Hv0) in *. simpl in *.
      split_and!; [done|eapply mi_mark; [done|done|by rewrite Hv, Hp|done]|reflexivity].
  - pose proof (futex_wait_inv t a 2 v fm Hfi Ht Hs) as Hwi.
    rewrite futex_wait_waiters in *. destruct (v =? 2) eqn:E; b2p; simplify_eq/=.
    + split_and!; [done| |done].
      rewrite waiters_cons, decide_True by done. eapply mi_block; eauto.
    + split_and!; [done| |done]. apply mi_move; [done|by rewrite Hv, Hp|by rewrite Hp|done].
Qed.

(** A step of [mutex_unlock]: it never asserts, and the released thread, if
    any, is the first waiter. *)
Lemma unlock_step_inv t a u v fm pc (resume : P -> P) :
  futex_inv fm -> mutex_inv v (waiters a (iv_list fm)) pc -> view (pc t) = view_upc u ->
  (forall p, view p = MBlocked -> view (resume p) = MRetry) ->
  exists v' fm' next, unlock_step a u v fm = Done (v', fm', next) /\ futex_inv fm' /\
    (exists n, (n <= 1)%nat /\ released fm fm' = take n (waiters a (iv_list fm)) /\
       waiters a (iv_list fm') = drop n (waiters a (iv_list fm))) /\
    (forall b, b <> a -> waiters b (iv_list fm') = waiters b (iv_list fm)) /\
    (forall p, view p = match next with Some u' => view_upc u' | None => MOut end ->
      mutex_inv v' (waiters a (iv_list fm')) (resume_all resume (released fm fm') (upd pc t p))).
Proof.
  intros Hfi Hi Hv Hr.
  assert (Hq : t ∉ waiters a (iv_list fm)).
  { intros Hin. apply (mi_queue _ _ _ Hi) in Hin. rewrite Hv in Hin. by destruct u. }
  destruct u; cbn [unlock_step].
  - assert (Hrel : released fm fm = []) by apply released_app, eq_sym, app_nil_r.
    assert (Hv12 : v = 1 \/ v = 2).
    { pose proof (mi_val _ _ _ Hi) as [->|?]; [|done].
      exfalso. eapply (mi_free _ _ _ Hi) with t; [done|]. by rewrite Hv. }
    destruct Hv12 as [-> | ->]; cbn; eexists _, _, _; (split_and!; [done|done|..]).
    + exists 0%nat. rewrite Hrel. by split_and!; [lia|..].
    + done.
    + intros p Hp. rewrite Hrel. eapply mi_release; eauto. rewrite Hp. viewed.
    + exists 0%nat. rewrite Hrel. by split_and!; [lia|..].
    + done.
    + intros p Hp. rewrite Hrel. change (u64 (2 - 1)) with 1.
      eapply mi_contend; eauto.
  - assert (Hrel : released fm fm = []) by apply released_app, eq_sym, app_nil_r.
    eexists _, _, _; (split_and!; [done|done|..]).
    + exists 0%nat. rewrite Hrel. by split_and!; [lia|..].
    + done.
    + intros p Hp. rewrite Hrel. eapply mi_store; eauto.
  - destruct (futex_wake_only fm a 1 Hfi) as (fm' & -> & Hrd & Hd & Ho & Hfi').
    cbn [obind]. eexists _, _, _; (split_and!; [done|done|..]).
    + exists (capped 1 (waiters a (iv_list fm))). split_and!; [unfold capped; lia|by apply released_app|done].
    + done.
    + intros p Hp. rewrite (released_app _ _ _ Hrd), Hd.
      destruct (waiters a (iv_list fm)) as [|w q] eqn:Ew.
      * cbn. eapply mi_waker_done; eauto; [rewrite Hv|rewrite Hp]; viewed.
      * rewrite capped_cons, capped_nonpos by lia. cbn.
        assert (w <> t) by (intros ->; apply Hq; by left).
        rewrite upd_ne by done.
        eapply mutex_inv_proper; [apply upd_comm; congruence|].
        pose proof (waiters_nodup a fm Hfi) as Hnd. rewrite Ew in Hnd.
        assert (Hw : view (resume (pc w)) = MRetry).
        { apply Hr, (mi_queue _ _ _ Hi). by left. }
        eapply mi_waker_done.
        -- by eapply mi_wake_one.
        -- rewrite upd_ne by done. rewrite Hv. viewed.
        -- rewrite Hp. viewed.
        -- intros ?. apply Hq. by right.
        -- right. exists w. split; [done|]. by rewrite upd_eq, Hw.
Qed.
End protocol.
