(* ===== verification/SyncMutex.v ===== *)
(** * Mutex and condition variable under every interleaving

    One mutex and one condition variable of [src/lib/sync.C] shared by any
    number of threads.  A thread calls [mutex_lock], [mutex_unlock],
    [sync_cond_wait], [sync_cond_signal] and [sync_cond_broadcast] in the order
    it likes (unlocking and waiting only while it holds the mutex); a schedule
    is the list of calls and steps, one atomic access or system call each. *)

From S2P Require Import Prelude Containers Futex Sync.

(** What a thread does after [mutex_unlock]: its caller goes on, or it is
    [sync_cond_wait] with the sequence number it has read. *)
Inductive after : Type := ThenIdle | ThenCond (seq : Z).

(** Positions; [h] says whether the caller of signal or broadcast holds the
    mutex.  [Critical rc]: the thread holds the mutex and its last call
    returned [rc].  The final loop of [sync_cond_wait] is the loop of
    [mutex_lock] entered at its test-and-set. *)
Inductive pc_t : Type :=
| Idle
| Critical (rc : Z)
| Locking (l : lpc)
| Unlocking (u : upc) (k : after)
| CwRead
| CwCheck (seq : Z)
| CwSet (seq : Z)
| CwRecheck (seq : Z)
| CwWait (seq : Z)
| CwBlocked
| SigAdd (h : bool)
| SigWake (h : bool)
| BcRead (h : bool)
| BcAdd (h : bool) (m : Z)
| BcRequeue (h : bool) (m : Z).

Definition held (h : bool) : mview := if h then MHold else MOut.

#[global] Instance mutex_client : MutexClient pc_t := fun p =>
  match p with
  | Idle => MOut
  | Critical _ => MHold
  | Locking l => view_lpc l
  | Unlocking u _ => view_upc u
  | CwRead | CwCheck _ | CwSet _ | CwRecheck _ => MHold
  | CwWait _ => MOut
  | CwBlocked => MBlocked
  | SigAdd h | SigWake h | BcRead h | BcAdd h _ | BcRequeue h _ => held h
  end.

(** A thread the kernel releases goes on after its [futex_wait]. *)
Definition resume (p : pc_t) : pc_t :=
  match p with
  | Locking L_blocked | CwBlocked => Locking L_tas
  | _ => p
  end.

(** The mutex, the condition variable, the kernel's manager, the threads. *)
Record sys : Type := mkSys {
  s_mutex : mutex_t;
  s_cond : sync_cond_t;
  s_fm : FutexManager;
  s_pc : Z -> pc_t
}.

Inductive action : Type :=
| CallLock | CallUnlock | CallWait | CallSignal | CallBroadcast
| Go. (** the next step of the call the thread is in *)

Section machine.
(** The addresses of [iv_val] and of [sequence]. *)
Variables MA CA : Z.

Definition back (h : bool) : pc_t := if h then Critical 0 else Idle.

Definition set_pc (s : sys) (t : Z) (p : pc_t) : sys :=
  mkSys (s_mutex s) (s_cond s) (s_fm s) (upd (s_pc s) t p).

(** The step of thread [t]'s current call.  [Done None]: it has none (it is
    between calls, or blocked). *)
Definition go (t : Z) (s : sys) : outcome (option sys) :=
  let v := iv_val (s_mutex s) in
  let c := s_cond s in
  match s_pc s t with
  | Idle | Critical _ | CwBlocked => Done None
  | Locking l =>
      match lock_step t MA l v (s_fm s) with
      | None => Done None
      | Some (v', fm', next) =>
          Done (Some (mkSys (with_val (s_mutex s) v') c fm'
            (upd (s_pc s) t (match next with Some l' => Locking l' | None => Critical 0 end))))
      end
  | Unlocking u k =>
      do (v', fm', next) <- unlock_step MA u v (s_fm s);
      Done (Some (mkSys (with_val (s_mutex s) v') c fm'
        (resume_all resume (released (s_fm s) fm')
          (upd (s_pc s) t
            (match next with
             | Some u' => Unlocking u' k
             | None => match k with ThenIdle => Idle | ThenCond seq => CwWait seq end
             end)))))
  | CwRead => Done (Some (set_pc s t (CwCheck (c_sequence c))))
  | CwCheck seq =>
      if negb (c_mutex c =? MA) then
        Done (Some (set_pc s t
          (if negb (c_mutex c =? NULL) then Critical EINVAL else CwSet seq)))
      else
        assert! negb (iv_recursive (s_mutex s));
        Done (Some (set_pc s t (Unlocking U_sub (ThenCond seq))))
  | CwSet seq =>
      let '(_, m') := val_compare_and_swap (c_mutex c) NULL MA in
      Done (Some (mkSys (s_mutex s) (mkCond m' (c_sequence c)) (s_fm s)
        (upd (s_pc s) t (CwRecheck seq))))
  | CwRecheck seq =>
      if negb (c_mutex c =? MA) then Done (Some (set_pc s t (Critical EINVAL)))
      else
        assert! negb (iv_recursive (s_mutex s));
        Done (Some (set_pc s t (Unlocking U_sub (ThenCond seq))))
  | CwWait seq =>
      let '(rc, fm') := futex_wait t CA seq (c_sequence c) (s_fm s) in
      Done (Some (mkSys (s_mutex s) c fm'
        (upd (s_pc s) t (if rc =? 0 then CwBlocked else Locking L_tas))))
  | SigAdd h =>
      let '(_, seq') := fetch_and_add (c_sequence c) 1 in
      Done (Some (mkSys (s_mutex s) (mkCond (c_mutex c) seq') (s_fm s)
        (upd (s_pc s) t (SigWake h))))
  | SigWake h =>
      do (_, fm') <- futex_wake CA 1 NULL 0 (s_fm s);
      Done (Some (mkSys (s_mutex s) c fm'
        (resume_all resume (released (s_fm s) fm') (upd (s_pc s) t (back h)))))
  | BcRead h =>
      Done (Some (set_pc s t (if c_mutex c =? NULL then back h else BcAdd h (c_mutex c))))
  | BcAdd h m =>
      let '(_, seq') := fetch_and_add (c_sequence c) 1 in
      Done (Some (mkSys (s_mutex s) (mkCond (c_mutex c) seq') (s_fm s)
        (upd (s_pc s) t (BcRequeue h m))))
  | BcRequeue h m =>
      do (_, fm') <- futex_wake CA 1 m (2 ^ 64 - 1) (s_fm s);
      Done (Some (mkSys (s_mutex s) c fm'
        (resume_all resume (released (s_fm s) fm') (upd (s_pc s) t (back h)))))
  end.

(** A call starts where its function starts; the assertion on the mutex kind
    comes first. *)
Definition step (e : Z * action) (s : sys) : outcome (option sys) :=
  let '(t, a) := e in
  if t =? NULL then Done None else
  match a, s_pc s t with
  | CallLock, Idle =>
      assert! negb (iv_recursive (s_mutex s)); Done (Some (set_pc s t (Locking L_cas)))
  | CallUnlock, Critical _ =>
      assert! negb (iv_recursive (s_mutex s)); Done (Some (set_pc s t (Unlocking U_sub ThenIdle)))
  | CallWait, Critical _ => Done (Some (set_pc s t CwRead))
  | CallSignal, Idle => Done (Some (set_pc s t (SigAdd false)))
  | CallSignal, Critical _ => Done (Some (set_pc s t (SigAdd true)))
  | CallBroadcast, Idle => Done (Some (set_pc s t (BcRead false)))
  | CallBroadcast, Critical _ => Done (Some (set_pc s t (BcRead true)))
  | Go, _ => go t s
  | _, _ => Done None
  end.

Fixpoint run (sched : list (Z * action)) (s : sys) : outcome (option sys) :=
  match sched with
  | [] => Done (Some s)
  | e :: sched =>
      do r <- step e s;
      match r with None => Done None | Some s' => run sched s' end
  end.

Definition sys_init : sys :=
  mkSys (mutex_init false) sync_cond_init fm_new (fun _ => Idle).

(** ** The invariant *)

Hypothesis MA_CA : MA <> CA.
Hypothesis MA_nonnull : MA <> NULL.

Abbreviation q_mutex s := (waiters MA (iv_list (s_fm s))).
Abbreviation q_cond s := (waiters CA (iv_list (s_fm s))).

(** A position that names a mutex names ours. *)
Definition pc_ok (p : pc_t) : Prop :=
  match p with BcAdd _ m | BcRequeue _ m => m = MA | _ => True end.

Record sync_inv (s : sys) : Prop := {
  si_fm : futex_inv (s_fm s);
  si_mutex : mutex_inv (iv_val (s_mutex s)) (q_mutex s) (s_pc s);
  si_rec : iv_recursive (s_mutex s) = false;
  si_cm : c_mutex (s_cond s) = NULL \/ c_mutex (s_cond s) = MA;
  si_cond : forall t, t ∈ q_cond s -> s_pc s t = CwBlocked;
  si_other : forall a, a <> MA -> a <> CA -> waiters a (iv_list (s_fm s)) = [];
  si_block : forall t, view (s_pc s t) = MBlocked -> t ∈ q_mutex s \/ t ∈ q_cond s;
  si_pc : forall t, pc_ok (s_pc s t)
}.

Lemma sync_inv_init : sync_inv sys_init.
Proof.
  split; simpl; auto; try done; [apply fm_new_inv|by apply mutex_inv_new|].
  intros t Ht. by apply elem_of_nil in Ht.
Qed.

(** A thread that is not blocked is on no list. *)
Lemma si_running s t :
  sync_inv s -> view (s_pc s t) <> MBlocked ->
  state_info (s_fm s) !! t = None /\ t ∉ q_mutex s /\ t ∉ q_cond s.
Proof.
  intros I Hv.
  assert (H1 : t ∉ q_mutex s) by (intros Hin; by apply (mi_queue _ _ _ (si_mutex _ I)) in Hin).
  assert (H2 : t ∉ q_cond s)
    by (intros Hin; apply (si_cond _ I) in Hin; by rewrite Hin in Hv).
  split_and!; [|done|done]. destruct (state_info (s_fm s) !! t) as [a|] eqn:E; [|done].
  apply (inv_state _ (si_fm _ I)), elem_of_waiters in E. exfalso.
  destruct (decide (a = MA)) as [->|]; [done|]. destruct (decide (a = CA)) as [->|]; [done|].
  rewrite (si_other _ I) in E by done. by apply elem_of_nil in E.
Qed.

(** A thread that runs is at another position after its step. *)
Lemma upd_block s t p :
  sync_inv s -> view (s_pc s t) <> MBlocked -> view p <> MBlocked ->
  (forall t', t' ∈ q_cond s -> upd (s_pc s) t p t' = CwBlocked) /\
  (forall t', view (upd (s_pc s) t p t') = MBlocked -> t' ∈ q_mutex s \/ t' ∈ q_cond s).
Proof.
  intros I Hv Hp. destruct (si_running s t I Hv) as (_ & _ & Hn). split; intros t' H.
  - rewrite upd_ne; [by apply (si_cond _ I)|]. by intros ->.
  - destruct (decide (t' = t)) as [->|]; [by rewrite upd_eq in H|].
    rewrite upd_ne in H by done. by apply (si_block _ I).
Qed.

Lemma upd_pc_ok s t p : sync_inv s -> pc_ok p -> forall t', pc_ok (upd (s_pc s) t p t').
Proof. intros I Hp t'. unfold upd. case_match; [done|]. apply (si_pc _ I). Qed.

(** Steps that touch neither the mutex nor the kernel. *)
Lemma si_local s t p c :
  sync_inv s -> view (s_pc s t) = MOut \/ view (s_pc s t) = MHold ->
  view p = view (s_pc s t) -> pc_ok p -> c_mutex c = NULL \/ c_mutex c = MA ->
  sync_inv (mkSys (s_mutex s) c (s_fm s) (upd (s_pc s) t p)).
Proof.
  intros I Hv Hp Hok Hc.
  assert (Hnb : view (s_pc s t) <> MBlocked) by (by destruct Hv as [-> | ->]).
  destruct (upd_block s t p I Hnb ltac:(by rewrite Hp)) as [U1 U2].
  split; simpl; auto; try apply I.
  - apply mi_move; [apply I|by rewrite Hp|by rewrite Hp|].
    intros Hin. by apply (mi_queue _ _ _ (si_mutex _ I)) in Hin.
  - by apply upd_pc_ok.
Qed.

Lemma resume_not_blocked p : view (resume p) <> MBlocked.
Proof. by destruct p as [| |[]|[]| | | | | | |[]|[]|[]|[]|[]]. Qed.

Lemma resume_blocked p : view p = MBlocked -> view (resume p) = MRetry.
Proof. by destruct p as [| |[]|[]| | | | | | |[]|[]|[]|[]|[]]. Qed.

Lemma resume_holding p : holding (view (resume p)) = holding (view p).
Proof. by destruct p as [| |[]|[]| | | | | | |[]|[]|[]|[]|[]]. Qed.

Lemma resume_waking p : waking (view p) -> waking (view (resume p)).
Proof. by destruct p as [| |[]|[]| | | | | | |[]|[]|[]|[]|[]]. Qed.

Lemma resume_pc_ok p : pc_ok p -> pc_ok (resume p).
Proof. by destruct p as [| |[]|[]| | | | | | | | | | |]. Qed.

(** A step whose system call released the tasks [ts]. *)
Lemma si_wake s t p m' fm' ts :
  sync_inv s -> view (s_pc s t) <> MBlocked -> view p <> MBlocked -> pc_ok p ->
  iv_recursive m' = iv_recursive (s_mutex s) -> futex_inv fm' -> NoDup ts ->
  (forall x, x ∈ q_mutex s \/ x ∈ q_cond s ->
     x ∈ ts \/ x ∈ waiters MA (iv_list fm') \/ x ∈ waiters CA (iv_list fm')) ->
  (forall x, x ∈ waiters CA (iv_list fm') -> x ∈ q_cond s /\ x ∉ ts) ->
  (forall a, a <> MA -> a <> CA -> waiters a (iv_list fm') = []) ->
  mutex_inv (iv_val m') (waiters MA (iv_list fm')) (resume_all resume ts (upd (s_pc s) t p)) ->
  sync_inv (mkSys m' (s_cond s) fm' (resume_all resume ts (upd (s_pc s) t p))).
Proof.
  intros I Hv Hp Hok Hr Hfi Hnd Hall Hc Ho Hm.
  destruct (upd_block s t p I Hv Hp) as [U1 U2]. split; simpl; auto.
  - rewrite Hr. apply I.
  - apply I.
  - intros x [Hx Hn]%Hc. rewrite resume_all_ne by done. auto.
  - intros x Hx. destruct (decide (x ∈ ts)) as [Hin|Hn].
    + rewrite resume_all_in in Hx by done. by apply resume_not_blocked in Hx.
    + rewrite resume_all_ne in Hx by done. apply U2, Hall in Hx. tauto.
  - intros x. destruct (decide (x ∈ ts)).
    + rewrite resume_all_in by done. apply resume_pc_ok. by apply upd_pc_ok.
    + rewrite resume_all_ne by done. by apply upd_pc_ok.
Qed.

(** A prefix of a queue leaves it. *)
Lemma take_drop_split n (l : list Z) x :
  NoDup l -> (x ∈ l <-> x ∈ take n l \/ x ∈ drop n l) /\ (x ∈ drop n l -> x ∉ take n l) /\
  NoDup (take n l).
Proof.
  intros Hnd. rewrite <-(take_drop n l) in Hnd at 1. apply NoDup_app in Hnd as (H1 & H2 & H3).
  split_and!; [|by intros ? ?%H2|done]. rewrite <-(take_drop n l) at 1. apply elem_of_app.
Qed.

Lemma si_unlock s t u k :
  sync_inv s -> s_pc s t = Unlocking u k ->
  exists s', go t s = Done (Some s') /\ sync_inv s'.
Proof.
  intros I Hpc. unfold go. rewrite Hpc.
  assert (Hv : view (s_pc s t) = view_upc u) by (by rewrite Hpc).
  destruct (unlock_step_inv t MA u _ _ _ resume (si_fm _ I) (si_mutex _ I) Hv resume_blocked)
    as (v' & fm' & next & -> & Hfi & (n & _ & Hrel & Hq) & Ho & Hm).
  cbn [obind]. eexists. split; [done|].
  pose proof (waiters_nodup MA _ (si_fm _ I)) as Hnd.
  apply si_wake; auto.
  - rewrite Hv. by destruct u.
  - destruct next as [[]|]; [done..|]. by destruct k.
  - destruct next as [[]|]; [done..|]. by destruct k.
  - rewrite Hrel. by apply take_drop_split.
  - intros x. rewrite Hrel, Hq, (Ho CA) by done.
    rewrite (proj1 (take_drop_split n _ x Hnd)). tauto.
  - intros x. rewrite Hrel, (Ho CA) by done. intros Hx. split; [done|]. intros Hin.
    apply MA_CA. eapply waiters_disjoint; [apply I| |exact Hx].
    apply (proj1 (take_drop_split n _ x Hnd)). by left.
  - intros a H1 H2. rewrite Ho by done. by apply (si_other _ I).
  - cbn [with_val iv_val]. apply Hm. by destruct next as [[]|], k.
Qed.

Lemma si_lock s t l :
  sync_inv s -> t <> NULL -> s_pc s t = Locking l ->
  exists r, go t s = Done r /\ (forall s', r = Some s' -> sync_inv s').
Proof.
  intros I Ht Hpc. unfold go. rewrite Hpc.
  destruct (lock_step t MA l _ _) as [[[v' fm'] next]|] eqn:E; [|by eexists].
  eexists. split; [done|]. intros s' [= <-].
  assert (Hv : view (s_pc s t) = view_lpc l) by (by rewrite Hpc).
  assert (Hnb : view (s_pc s t) <> MBlocked) by (rewrite Hv; by destruct l).
  destruct (si_running s t I Hnb) as (Hs & Hqm & Hqc).
  set (p := match next with Some l' => Locking l' | None => Critical 0 end).
  destruct (lock_step_inv t MA l _ _ v' fm' next (s_pc s) p (si_fm _ I) Ht Hs (si_mutex _ I) Hv E)
    as (Hfi & Hm & Hfm); [by destruct next|].
  assert (Hok : forall t', pc_ok (upd (s_pc s) t p t')).
  { apply upd_pc_ok; [done|]. by destruct next. }
  case_decide as Hb.
  - subst fm' next. split; simpl; auto; try apply I.
    + intros x. rewrite waiters_cons, decide_False by (simpl; congruence). intros Hx.
      rewrite upd_ne by (by intros ->). by apply (si_cond _ I).
    + intros a H1 H2. rewrite waiters_cons, decide_False by (simpl; congruence).
      by apply (si_other _ I).
    + intros x. rewrite !waiters_cons, decide_True, decide_False by (simpl; congruence).
      rewrite elem_of_cons. destruct (decide (x = t)) as [->|]; [by left; left|].
      rewrite upd_ne by done. intros Hx%(si_block _ I). cbn. tauto.
  - subst fm'. destruct (upd_block s t p I Hnb) as [U1 U2].
    { subst p. by destruct next as [[]|]. }
    split; simpl; auto; apply I.
Qed.

(** [sync_cond_wait] going to sleep. *)
Lemma si_cwait s t seq :
  sync_inv s -> t <> NULL -> s_pc s t = CwWait seq ->
  exists s', go t s = Done (Some s') /\ sync_inv s'.
Proof.
  intros I Ht Hpc. unfold go. rewrite Hpc.
  assert (Hv : view (s_pc s t) = MOut) by (by rewrite Hpc).
  destruct (si_running s t I ltac:(by rewrite Hv)) as (Hs & Hqm & Hqc).
  pose proof (futex_wait_inv t CA seq (c_sequence (s_cond s)) _ (si_fm _ I) Ht Hs) as Hfi.
  rewrite futex_wait_waiters in *. destruct (_ =? seq); eexists; (split; [done|]).
  - cbn [snd] in Hfi. change (0 =? 0) with true. cbn match. split; simpl; auto; try apply I.
    + rewrite waiters_cons, decide_False by (simpl; congruence).
      apply mi_move; [apply I|by rewrite Hv|by rewrite Hv|done].
    + intros x. rewrite waiters_cons, decide_True by done. intros [->|Hx]%elem_of_cons.
      * apply upd_eq.
      * rewrite upd_ne by (by intros ->). by apply (si_cond _ I).
    + intros a H1 H2. rewrite waiters_cons, decide_False by (simpl; congruence).
      by apply (si_other _ I).
    + intros x. rewrite !waiters_cons, decide_False, decide_True by (simpl; congruence).
      rewrite elem_of_cons. destruct (decide (x = t)) as [->|]; [by right; left|].
      rewrite upd_ne by done. intros Hx%(si_block _ I). cbn. tauto.
    + by apply upd_pc_ok.
  - change (EWOULDBLOCK =? 0) with false. cbn match.
    destruct (upd_block s t (Locking L_tas) I) as [U1 U2]; [by rewrite Hv|done|].
    split; simpl; auto; try apply I; [|by apply upd_pc_ok].
    apply mi_move; [apply I|by rewrite Hv|by rewrite Hv|done].
Qed.

(** A released thread is about to mark the mutex. *)
Lemma resume_all_waking ts (f : Z -> pc_t) w :
  NoDup ts -> w ∈ ts -> view (f w) = MBlocked -> waking (view (resume_all resume ts f w)).
Proof. intros H1 H2 H3. by rewrite resume_all_in, (resume_blocked _ H3). Qed.

(** Signal and broadcast: of the waiters of the condition the first ones
    ([l1]) go on and the next ones ([l2]) are queued on the mutex. *)
Lemma si_cond_wake s t h l1 l2 l3 fm' :
  sync_inv s -> view (s_pc s t) = held h -> futex_inv fm' ->
  q_cond s = l1 ++ l2 ++ l3 -> (l2 <> [] -> l1 <> []) ->
  released (s_fm s) fm' = l1 ->
  waiters CA (iv_list fm') = l3 ->
  waiters MA (iv_list fm') = reverse l2 ++ q_mutex s ->
  (forall b, b <> CA -> b <> MA -> waiters b (iv_list fm') = waiters b (iv_list (s_fm s))) ->
  sync_inv (mkSys (s_mutex s) (s_cond s) fm'
    (resume_all resume (released (s_fm s) fm') (upd (s_pc s) t (back h)))).
Proof.
  intros I Hv Hfi Hsplit Hne Hrel Hc Hm Ho.
  assert (Hb : view (back h) = held h) by (by destruct h).
  assert (Hnb : view (s_pc s t) <> MBlocked) by (rewrite Hv; by destruct h).
  destruct (si_running s t I Hnb) as (_ & Hqm & Hqc).
  pose proof (waiters_nodup CA _ (si_fm _ I)) as Hnd. rewrite Hsplit in Hnd.
  apply NoDup_app in Hnd as (Hnd1 & H12 & Hnd). apply NoDup_app in Hnd as (_ & H23 & _).
  assert (Hin : forall x, x ∈ q_cond s <-> x ∈ l1 \/ x ∈ l2 \/ x ∈ l3).
  { intros x. by rewrite Hsplit, !elem_of_app. }
  rewrite Hrel. apply si_wake; auto.
  - rewrite Hb. by destruct h.
  - by destruct h.
  - intros x. rewrite Hc, Hm, elem_of_app, elem_of_reverse, Hin. tauto.
  - intros x. rewrite Hc. intros Hx. split; [apply Hin; tauto|]. intros Hx1.
    apply (H12 x Hx1), elem_of_app. by right.
  - intros a H1 H2. rewrite Ho by done. by apply (si_other _ I).
  - rewrite Hm.
    assert (Hmv : mutex_inv (iv_val (s_mutex s)) (q_mutex s)
              (resume_all resume l1 (upd (s_pc s) t (back h)))).
    { apply mi_resume; [apply resume_holding|apply resume_waking| |].
      - intros x Hx Hx2. apply MA_CA. eapply waiters_disjoint; [apply I|exact Hx2|].
        apply Hin. by left.
      - apply mi_move; [apply I|by rewrite Hb, Hv|by rewrite Hb, Hv|done]. }
    destruct (decide (l2 = [])) as [->|Hl2]; [done|]. apply mi_requeue; [done| |].
    + intros x Hx. rewrite elem_of_reverse in Hx.
      rewrite resume_all_ne by (intros Hx1; apply (H12 x Hx1), elem_of_app; by left).
      assert (x ∈ q_cond s) as Hxc by (apply Hin; tauto).
      rewrite upd_ne by (by intros ->). by rewrite (si_cond _ I).
    + destruct l1 as [|w l1]; [by destruct Hne|]. exists w.
      assert (w ∈ q_cond s) as Hwc by (apply Hin; left; by left).
      apply resume_all_waking; [done|by left|]. rewrite upd_ne by (by intros ->).
      by rewrite (si_cond _ I).
Qed.

Lemma si_signal s t h :
  sync_inv s -> s_pc s t = SigWake h -> exists s', go t s = Done (Some s') /\ sync_inv s'.
Proof.
  intros I Hpc. unfold go. rewrite Hpc.
  destruct (futex_wake_only (s_fm s) CA 1 (si_fm _ I)) as (fm' & -> & Hrd & Hd & Ho & Hfi).
  cbn [obind]. eexists. split; [done|].
  apply (si_cond_wake s t h (take (capped 1 (q_cond s)) (q_cond s)) []
           (drop (capped 1 (q_cond s)) (q_cond s))); auto.
  - by rewrite Hpc.
  - cbn [app]. by rewrite take_drop.
  - by apply released_app.
Qed.

Lemma si_broadcast s t h m :
  sync_inv s -> s_pc s t = BcRequeue h m -> exists s', go t s = Done (Some s') /\ sync_inv s'.
Proof.
  intros I Hpc. unfold go. rewrite Hpc.
  pose proof (si_pc _ I t) as Hok. rewrite Hpc in Hok. simpl in Hok. subst m.
  destruct (futex_wake_spec (s_fm s) CA 1 MA (2 ^ 64 - 1) (si_fm _ I))
    as (fm' & -> & Hrd & Hd & Hm & Ho & _ & Hfi); [congruence|done|].
  cbn [obind]. eexists. split; [done|]. rewrite (proj2 (Z.eqb_neq _ _) MA_nonnull) in *.
  set (n := capped 1 (q_cond s)) in *. set (k := capped (2 ^ 64 - 1) (drop n (q_cond s))) in *.
  apply (si_cond_wake s t h (take n (q_cond s)) (take k (drop n (q_cond s)))
           (drop (n + k) (q_cond s))); auto.
  - by rewrite Hpc.
  - by rewrite <-drop_drop, !take_drop.
  - subst n. destruct (q_cond s) as [|w l]; [done|]. rewrite capped_cons by lia. done.
  - by apply released_app.
Qed.

(** Every step of every thread keeps the invariant and none asserts. *)
Lemma si_go s t :
  sync_inv s -> t <> NULL -> exists r, go t s = Done r /\ (forall s', r = Some s' -> sync_inv s').
Proof.
  intros I Ht. destruct (s_pc s t) eqn:Hpc.
  3: by eapply si_lock.
  3: { edestruct si_unlock as (s' & H1 & H2); eauto. exists (Some s'). naive_solver. }
  7: { edestruct si_cwait as (s' & H1 & H2); eauto. exists (Some s'). naive_solver. }
  9: { edestruct si_signal as (s' & H1 & H2); eauto. exists (Some s'). naive_solver. }
  11: { edestruct si_broadcast as (s' & H1 & H2); eauto. exists (Some s'). naive_solver. }
  all: unfold go; rewrite Hpc; cbn [val_compare_and_swap fetch_and_add];
    rewrite ?(si_rec _ I); cbn [negb]; repeat case_match; (eexists; split; [reflexivity|]);
    intros s' [=]; subst s'; b2p.
  all: pose proof (si_pc _ I t) as Hok; pose proof (si_cm _ I) as Hcm; rewrite Hpc in Hok.
  all: apply si_local; [exact I|try rewrite Hpc; simpl..]; try destruct h; simpl; auto.
  all: by destruct Hcm.
Qed.

Lemma si_step s e :
  sync_inv s -> exists r, step e s = Done r /\ (forall s', r = Some s' -> sync_inv s').
Proof.
  intros I. destruct e as [t a]. unfold step. destruct (t =? NULL) eqn:Ht; b2p; [by eexists|].
  destruct a; [..|by apply si_go]; destruct (s_pc s t) eqn:Hpc; try (by eexists);
    rewrite ?(si_rec _ I); cbn [negb]; (eexists; split; [done|]); intros s' [=]; subst s';
    pose proof (si_cm _ I);
    apply si_local; [exact I|try rewrite Hpc; simpl..]; auto.
Qed.

Lemma si_run sched s :
  sync_inv s -> exists r, run sched s = Done r /\ (forall s', r = Some s' -> sync_inv s').
Proof.
  revert s. induction sched as [|e sched IH]; intros s I; cbn [run].
  - eexists. split; [done|]. by intros s' [= <-].
  - destruct (si_step s e I) as ([s1|] & -> & H1); cbn [obind]; [auto|by eexists].
Qed.

(** Whether the thread holds the mutex, in the terms of its caller. *)
Definition holds (s : sys) (t : Z) : Prop := holding (view (s_pc s t)).
End machine.

(** ** Theorems *)

(** C2: mutual exclusion.  Whatever calls any number of threads make and
    however their steps interleave, no assertion of the mutex, the condition
    variable or the futex manager fires, and at most one thread is between a
    completed [mutex_lock] (or [sync_cond_wait]) and the release of the mutex. *)
Theorem mutex_exclusion MA CA sched :
  MA <> CA -> MA <> NULL ->
  exists r, run MA CA sched sys_init = Done r /\
    forall s t1 t2, r = Some s -> holds s t1 -> holds s t2 -> t1 = t2.
Proof.
  intros H1 H2. destruct (si_run MA CA H1 H2 sched sys_init) as (r & -> & Hr);
    [apply sync_inv_init|].
  exists r. split; [done|]. intros s t1 t2 ->. apply (mi_unique _ _ _ (si_mutex _ _ _ (Hr s eq_refl))).
Qed.

(** C3: no wake-up is lost.  In every reachable state in which a thread sleeps
    on the mutex (in [mutex_lock], or moved there by a broadcast), another
    thread holds it with the value marked contended, so that its unlock will
    wake a sleeper; or another thread can take a step and is about to wake a
    sleeper or to mark the value.  Threads never all sleep on a free mutex. *)
Theorem mutex_no_lost_wakeup MA CA sched s t :
  MA <> CA -> MA <> NULL -> run MA CA sched sys_init = Done (Some s) ->
  t ∈ waiters MA (iv_list (s_fm s)) ->
  exists t', t' <> t /\
    ((holds s t' /\ iv_val (s_mutex s) = 2) \/
     (waking (view (s_pc s t')) /\ (t' <> NULL -> exists s', step MA CA (t', Go) s = Done (Some s')))).
Proof.
  intros H1 H2 Hrun Hin. destruct (si_run MA CA H1 H2 sched sys_init) as (r & Hr & Hi);
    [apply sync_inv_init|].
  rewrite Hrun in Hr. injection Hr as <-. specialize (Hi s eq_refl).
  pose proof (mi_queue _ _ _ (si_mutex _ _ _ Hi) t Hin) as Ht.
  destruct (mi_wake _ _ _ (si_mutex _ _ _ Hi)) as [Hv|[t' Hw]].
  - intros E. rewrite E in Hin. by apply elem_of_nil in Hin.
  - destruct (mi_held _ _ _ (si_mutex _ _ _ Hi)) as [t' Hh]; [by rewrite Hv|].
    exists t'. split; [intros ->; by rewrite Ht in Hh|]. by left.
  - exists t'. split; [intros ->; by rewrite Ht in Hw|]. right. split; [done|].
    intros Hn. cbn [step]. rewrite (proj2 (Z.eqb_neq _ _) Hn).
    destruct (s_pc s t') as [| |[]|u k| | | | | | |[]|[]|[]|[]|[]] eqn:Hpc; try done.
    + unfold go. rewrite Hpc. simpl. eauto.
    + destruct (si_unlock MA CA H1 s t' u k Hi Hpc) as (s' & H & _). eauto.
Qed.

(** The unlock hands the mutex over.  In every reachable state in which
    [t] is in its critical section and [w] is the sleeper first in line, the
    steps of [t]'s [mutex_unlock] followed by one step of [w] leave [w] inside
    the critical section, [t] outside, the other sleepers in line and the value
    marked contended for them. *)
Theorem mutex_handoff MA CA sched s t rc w q :
  MA <> CA -> MA <> NULL -> t <> NULL -> run MA CA sched sys_init = Done (Some s) ->
  s_pc s t = Critical rc -> iv_val (s_mutex s) = 2 -> waiters MA (iv_list (s_fm s)) = w :: q ->
  exists s', run MA CA [(t, CallUnlock); (t, Go); (t, Go); (t, Go); (w, Go)] s = Done (Some s') /\
    s_pc s' w = Critical 0 /\ s_pc s' t = Idle /\ iv_val (s_mutex s') = 2 /\
    waiters MA (iv_list (s_fm s')) = q.
Proof.
  intros H1 H2 Ht Hrun Hpc Hval Hq.
  destruct (si_run MA CA H1 H2 sched sys_init) as (r & Hr & Hi); [apply sync_inv_init|].
  rewrite Hrun in Hr. injection Hr as <-. specialize (Hi s eq_refl).
  assert (Hw : w ∈ waiters MA (iv_list (s_fm s))) by (rewrite Hq; by left).
  pose proof (mi_queue _ _ _ (si_mutex _ _ _ Hi) w Hw) as Hwb.
  assert (Hwt : w <> t) by (intros ->; by rewrite Hpc in Hwb).
  assert (Hw0 : w <> NULL).
  { intros ->. apply elem_of_waiters in Hw.
    pose proof (inv_task _ (si_fm _ _ _ Hi)) as Hf. rewrite Forall_forall in Hf. by apply Hf in Hw. }
  assert (Hres : forall p, view p = MBlocked -> resume p = Locking L_tas).
  { by intros [| |[]|[]| | | | | | |[]|[]|[]|[]|[]]. }
  destruct (futex_wake_only (s_fm s) MA 1 (si_fm _ _ _ Hi)) as (fm' & Hwk & Hrd & Hd & _ & _).
  rewrite Hq in Hrd, Hd. rewrite capped_cons, capped_nonpos in Hrd, Hd by lia.
  cbn [take drop] in Hrd, Hd. rewrite take_0 in Hrd. rewrite drop_0 in Hd.
  cbn [run step]. rewrite (proj2 (Z.eqb_neq _ _) Ht), Hpc, (si_rec _ _ _ Hi). cbn [negb obind].
  unfold go at 1. cbn [set_pc s_pc s_mutex s_fm s_cond]. rewrite upd_eq, Hval.
  cbn [unlock_step fetch_and_sub obind].
  change (2 <=? 2) with true. cbn match.
  rewrite released_app with (ts := []) by (by rewrite app_nil_r). cbn [resume_all foldl].
  unfold go at 1. cbn [s_pc s_mutex s_fm s_cond]. rewrite upd_eq. cbn [unlock_step obind].
  rewrite released_app with (ts := []) by (by rewrite app_nil_r). cbn [resume_all foldl].
  unfold go at 1. cbn [s_pc s_mutex s_fm s_cond]. rewrite upd_eq. cbn [unlock_step].
  rewrite Hwk. cbn [obind]. rewrite (released_app _ _ _ Hrd). cbn [resume_all foldl].
  rewrite (proj2 (Z.eqb_neq _ _) Hw0). unfold go at 1. cbn [s_pc s_mutex s_fm s_cond].
  rewrite upd_eq, !upd_ne, Hres by done. cbn. eexists. split; [done|].
  cbn. rewrite upd_eq, !upd_ne, upd_eq by congruence. done.
Qed.

(** [sync_cond_broadcast] leaves nobody asleep on the condition.  When its
    last step is taken in a reachable state (with fewer than 2^64 tasks), no
    thread is left on the condition's list: the first in line is about to mark
    and retry the mutex, all others are queued on the mutex, where
    [mutex_unlock] finds them. *)
Theorem broadcast_releases_all MA CA sched s t h m :
  MA <> CA -> MA <> NULL -> t <> NULL -> run MA CA sched sys_init = Done (Some s) ->
  s_pc s t = BcRequeue h m -> Z.of_nat (length (waiters CA (iv_list (s_fm s)))) < 2 ^ 64 ->
  exists s', step MA CA (t, Go) s = Done (Some s') /\
    waiters CA (iv_list (s_fm s')) = [] /\
    waiters MA (iv_list (s_fm s')) =
      reverse (drop 1 (waiters CA (iv_list (s_fm s)))) ++ waiters MA (iv_list (s_fm s)) /\
    (forall w, head (waiters CA (iv_list (s_fm s))) = Some w -> s_pc s' w = Locking L_tas) /\
    s_pc s' t = back h.
Proof.
  intros H1 H2 Ht Hrun Hpc Hlen.
  destruct (si_run MA CA H1 H2 sched sys_init) as (r & Hr & Hi); [apply sync_inv_init|].
  rewrite Hrun in Hr. injection Hr as <-. specialize (Hi s eq_refl).
  pose proof (si_pc _ _ _ Hi t) as Hok. rewrite Hpc in Hok. simpl in Hok. subst m.
  assert (Hnb : view (s_pc s t) <> MBlocked) by (rewrite Hpc; by destruct h).
  destruct (si_running MA CA s t Hi Hnb) as (_ & _ & Hqc).
  cbn [step]. rewrite (proj2 (Z.eqb_neq _ _) Ht). unfold go. rewrite Hpc.
  destruct (futex_wake_spec (s_fm s) CA 1 MA (2 ^ 64 - 1) (si_fm _ _ _ Hi))
    as (fm' & -> & Hrd & Hd & Hm & _ & _ & _); [congruence|done|].
  rewrite (proj2 (Z.eqb_neq _ _) H2) in *. cbn [obind]. eexists. split; [done|].
  cbn [s_fm s_pc]. rewrite Hd, Hm, (released_app _ _ _ Hrd).
  pose proof (si_cond _ _ _ Hi) as Hcb.
  destruct (waiters CA (iv_list (s_fm s))) as [|w l] eqn:Ew.
  - cbn. split_and!; [done|done|done|apply upd_eq].
  - rewrite capped_cons, capped_nonpos by lia. cbn [Nat.add take drop]. rewrite take_0. cbn [app resume_all foldl].
    assert (Hk : capped (2 ^ 64 - 1) l = length l) by (unfold capped; cbn [length] in Hlen; lia).
    rewrite !drop_0, Hk, (take_ge l), (drop_ge l) by lia.
    assert (w <> t) by (intros ->; apply Hqc; by left).
    split_and!; [done|done| |by rewrite upd_ne, upd_eq by done].
    intros w' [= <-]. rewrite upd_eq, upd_ne by done. rewrite Hcb by (by left). done.
Qed.

(** ** Samples *)

(** Thread 1 takes the mutex; threads 2 and 3 come and sleep on it. *)
Definition sched_contended : list (Z * action) :=
  [(1, CallLock); (1, Go); (2, CallLock); (2, Go); (3, CallLock); (2, Go); (2, Go); (3, Go); (3, Go)].

(** Threads 1, 2 and 3 wait on the condition; 4 broadcasts, up to its last step. *)
Definition sched_cond : list (Z * action) :=
  let wait t := [(t, CallLock); (t, Go); (t, CallWait); (t, Go); (t, Go)] in
  wait 1 ++ [(1, Go); (1, Go); (1, Go); (1, Go)] ++
  wait 2 ++ [(2, Go); (2, Go)] ++ wait 3 ++ [(3, Go); (3, Go)] ++
  [(4, CallBroadcast); (4, Go); (4, Go)].

Definition state_after (sched : list (Z * action)) : sys :=
  match run 8 16 sched sys_init with Done (Some s) => s | _ => sys_init end.

Lemma mutex_exclusion_witness :
  exists r, run 8 16 sched_contended sys_init = Done r /\
    forall s t1 t2, r = Some s -> holds s t1 -> holds s t2 -> t1 = t2.
Proof. exact (mutex_exclusion 8 16 sched_contended ltac:(done) ltac:(done)). Defined.

Lemma mutex_no_lost_wakeup_witness :
  exists t', t' <> 2 /\
    ((holds (state_after sched_contended) t' /\ iv_val (s_mutex (state_after sched_contended)) = 2) \/
     (waking (view (s_pc (state_after sched_contended) t')) /\
      (t' <> NULL -> exists s', step 8 16 (t', Go) (state_after sched_contended) = Done (Some s')))).
Proof.
  apply (mutex_no_lost_wakeup 8 16 sched_contended); [done|done|reflexivity|].
  vm_compute. right. left.
Defined.

Lemma mutex_handoff_witness :
  exists s', run 8 16 [(1, CallUnlock); (1, Go); (1, Go); (1, Go); (3, Go)] (state_after sched_contended)
      = Done (Some s') /\
    s_pc s' 3 = Critical 0 /\ s_pc s' 1 = Idle /\ iv_val (s_mutex s') = 2 /\
    waiters 8 (iv_list (s_fm s')) = [2].
Proof.
  apply (mutex_handoff 8 16 sched_contended (state_after sched_contended) 1 0 3 [2]); try done.
Defined.

Lemma broadcast_releases_all_witness :
  exists s', step 8 16 (4, Go) (state_after sched_cond) = Done (Some s') /\
    waiters 16 (iv_list (s_fm s')) = [] /\ waiters 8 (iv_list (s_fm s')) = [1; 2] /\
    s_pc s' 3 = Locking L_tas.
Proof.
  destruct (broadcast_releases_all 8 16 sched_cond (state_after sched_cond) 4 false 8)
    as (s' & H1 & H2 & H3 & H4 & _); [done..|].
  exists s'. split_and!; [exact H1|exact H2|exact H3|]. apply H4. reflexivity.
Defined.
