(* ===== verification/SyncRec.v ===== *)
(** * The recursive mutex under every interleaving

    [recursive_mutex_lock] and [recursive_mutex_unlock] of [src/lib/sync.C],
    called by any number of threads.  The futex part of the code is that of
    the plain mutex; the owner and its lock count are modelled statement by
    statement.  A thread's nesting depth is what its caller knows. *)

From S2P Require Import Prelude Containers Futex Sync.

(** Positions; [h]: the caller holds the mutex already. *)
Inductive rpc : Type :=
| ROut
| RIn
| RlCas (h : bool)
| RlOwner (h : bool) (l_lockStatus : Z)
| RlSpin (l : lpc)
| RlSetOwner
| RlCount
| RlInc
| RuTest
| RuResetCount
| RuResetOwner
| RuUnlock (u : upc)
| RuDec.

#[global] Instance rec_client : MutexClient rpc := fun p =>
  match p with
  | ROut | RlCas false | RlOwner false _ => MOut
  | RlSpin l => view_lpc l
  | RuUnlock u => view_upc u
  | _ => MHold
  end.

Definition rresume (p : rpc) : rpc :=
  match p with RlSpin L_blocked => RlSpin L_tas | _ => p end.

Record rsys : Type := mkRsys {
  r_mutex : mutex_t;
  r_fm : FutexManager;
  r_pc : Z -> rpc;
  r_depth : Z -> Z
}.

Inductive raction : Type := RLock | RUnlock | RGo.

Section machine.
Variable MA : Z.

Definition with_owner (m : mutex_t) (o : Z) : mutex_t :=
  mkMutex (iv_val m) (iv_ownerLockCount m) o (iv_recursive m).
Definition with_count (m : mutex_t) (c : Z) : mutex_t :=
  mkMutex (iv_val m) (u64 c) (iv_owner m) (iv_recursive m).

Definition rgo (t : Z) (s : rsys) : outcome (option rsys) :=
  let m := r_mutex s in
  let pcs := r_pc s in
  let next m p := Done (Some (mkRsys m (r_fm s) (upd pcs t p) (r_depth s))) in
  let count := iv_ownerLockCount m in
  match pcs t with
  | ROut | RIn => Done None
  | RlCas h =>
      let '(l_lockStatus, v') := val_compare_and_swap (iv_val m) 0 1 in
      next (with_val m v')
        (if negb (l_lockStatus =? 0) then RlOwner h l_lockStatus else RlSetOwner)
  | RlOwner h l_lockStatus =>
      next m (if t =? iv_owner m then RlInc
              else if negb (l_lockStatus =? 2) then RlSpin L_tas else RlSpin L_wait)
  | RlSpin l =>
      match lock_step t MA l (iv_val m) (r_fm s) with
      | None => Done None
      | Some (v', fm', nx) =>
          Done (Some (mkRsys (with_val m v') fm'
            (upd pcs t (match nx with Some l' => RlSpin l' | None => RlSetOwner end)) (r_depth s)))
      end
  | RlSetOwner => next (with_owner m t) RlCount
  | RlCount | RlInc =>
      Done (Some (mkRsys (with_count m (count + 1)) (r_fm s) (upd pcs t RIn)
        (upd (r_depth s) t (r_depth s t + 1))))
  | RuTest => next m (if count <=? 1 then RuResetCount else RuDec)
  | RuResetCount => next (with_count m 0) RuResetOwner
  | RuResetOwner =>
      Done (Some (mkRsys (with_owner m 0) (r_fm s) (upd pcs t (RuUnlock U_sub))
        (upd (r_depth s) t (r_depth s t - 1))))
  | RuUnlock u =>
      do (v', fm', nx) <- unlock_step MA u (iv_val m) (r_fm s);
      Done (Some (mkRsys (with_val m v') fm'
        (resume_all rresume (released (r_fm s) fm')
          (upd pcs t (match nx with Some u' => RuUnlock u' | None => ROut end)))
        (r_depth s)))
  | RuDec =>
      Done (Some (mkRsys (with_count m (count - 1)) (r_fm s) (upd pcs t RIn)
        (upd (r_depth s) t (r_depth s t - 1))))
  end.

(** A thread unlocks only what it has locked, and nests less than 2^64 - 1
    times. *)
Definition rstep (e : Z * raction) (s : rsys) : outcome (option rsys) :=
  let '(t, a) := e in
  let next p := Done (Some (mkRsys (r_mutex s) (r_fm s) (upd (r_pc s) t p) (r_depth s))) in
  if t =? NULL then Done None else
  match a, r_pc s t with
  | RLock, ROut => assert! iv_recursive (r_mutex s); next (RlCas false)
  | RLock, RIn =>
      if r_depth s t <? 2 ^ 64 - 1 then assert! iv_recursive (r_mutex s); next (RlCas true)
      else Done None
  | RUnlock, RIn => assert! iv_recursive (r_mutex s); next RuTest
  | RGo, _ => rgo t s
  | _, _ => Done None
  end.

Fixpoint rrun (sched : list (Z * raction)) (s : rsys) : outcome (option rsys) :=
  match sched with
  | [] => Done (Some s)
  | e :: sched =>
      do r <- rstep e s;
      match r with None => Done None | Some s' => rrun sched s' end
  end.

Definition rsys_init : rsys := mkRsys (mutex_init true) fm_new (fun _ => ROut) (fun _ => 0).

(** ** The invariant *)

(** The thread is the recorded owner. *)
Definition owns (p : rpc) : bool :=
  match p with
  | RIn | RlCas true | RlOwner true _ | RlInc | RlCount
  | RuTest | RuResetCount | RuResetOwner | RuDec => true
  | _ => false
  end.

(** The lock count and the owner's depth at each position of the owner. *)
Definition count_ok (p : rpc) (depth count : Z) : Prop :=
  match p with
  | RlCount => depth = 0 /\ count = 0
  | RuResetCount => depth = 1 /\ count = 1
  | RuResetOwner => depth = 1 /\ count = 0
  | RuDec => 2 <= depth < 2 ^ 64 /\ count = depth
  | RlCas _ | RlOwner _ _ | RlInc => 1 <= depth < 2 ^ 64 - 1 /\ count = depth
  | _ => 1 <= depth < 2 ^ 64 /\ count = depth
  end.

Definition owner_ok (m : mutex_t) (pc : Z -> rpc) (depth : Z -> Z) : Prop :=
  (iv_owner m = NULL /\ iv_ownerLockCount m = 0 /\ (forall t, ~ owns (pc t)) \/
   iv_owner m <> NULL /\ owns (pc (iv_owner m)) /\
   count_ok (pc (iv_owner m)) (depth (iv_owner m)) (iv_ownerLockCount m)) /\
  (forall t, ~ owns (pc t) -> depth t = 0).

Record rec_inv (s : rsys) : Prop := {
  ri_fm : futex_inv (r_fm s);
  ri_mutex : mutex_inv (iv_val (r_mutex s)) (waiters MA (iv_list (r_fm s))) (r_pc s);
  ri_rec : iv_recursive (r_mutex s) = true;
  ri_other : forall a, a <> MA -> waiters a (iv_list (r_fm s)) = [];
  ri_block : forall t, view (r_pc s t) = MBlocked -> t ∈ waiters MA (iv_list (r_fm s));
  ri_owner : owner_ok (r_mutex s) (r_pc s) (r_depth s)
}.

Lemma rec_inv_init : rec_inv rsys_init.
Proof.
  split; simpl; auto; try done; [apply fm_new_inv|by apply mutex_inv_new|].
  split; [left|]; simpl; auto.
Qed.

Lemma owns_holding p : owns p -> view p = MHold.
Proof. by destruct p as [| |[]|[]| | | | | | | | |]. Qed.

(** The thread that owns is the recorded owner. *)
Lemma owner_is s t : rec_inv s -> owns (r_pc s t) -> iv_owner (r_mutex s) = t.
Proof.
  intros I Ho. destruct (ri_owner _ I) as [[(_ & _ & H)|(_ & H & _)] _]; [by destruct (H t)|].
  eapply (mi_unique _ _ _ (ri_mutex _ I)); rewrite owns_holding; done.
Qed.

(** Another holder excludes an owner. *)
Lemma no_owner s t :
  rec_inv s -> holding (view (r_pc s t)) -> ~ owns (r_pc s t) ->
  iv_owner (r_mutex s) = NULL /\ iv_ownerLockCount (r_mutex s) = 0 /\
  (forall t', ~ owns (r_pc s t')) /\ r_depth s t = 0.
Proof.
  intros I Hh Hn. destruct (ri_owner _ I) as [[(H1 & H2 & H)|(_ & H & _)] Hd]; [auto|].
  exfalso. apply Hn. replace t with (iv_owner (r_mutex s)); [done|].
  eapply (mi_unique _ _ _ (ri_mutex _ I)); [by rewrite owns_holding|done].
Qed.

Lemma owner_count s t :
  rec_inv s -> owns (r_pc s t) -> t <> NULL /\
  count_ok (r_pc s t) (r_depth s t) (iv_ownerLockCount (r_mutex s)).
Proof.
  intros I Ho. pose proof (owner_is s t I Ho) as E.
  destruct (ri_owner _ I) as [[(_ & _ & H)|(H1 & _ & H)] _]; [by destruct (H t)|].
  by rewrite E in H, H1.
Qed.

(** Positions that change without owner, count or depth. *)
Lemma ok_same s t p m' :
  rec_inv s -> owns p = owns (r_pc s t) ->
  (owns p -> count_ok p (r_depth s t) (iv_ownerLockCount (r_mutex s))) ->
  iv_owner m' = iv_owner (r_mutex s) -> iv_ownerLockCount m' = iv_ownerLockCount (r_mutex s) ->
  owner_ok m' (upd (r_pc s) t p) (r_depth s).
Proof.
  intros I Ho Hc E1 E2. unfold owner_ok. rewrite E1, E2.
  destruct (ri_owner _ I) as [H Hd]. split.
  - destruct H as [(H1 & H2 & H3)|(H1 & H2 & H3)]; [left|right]; split_and!; auto.
    + intros t'. upd_cases; [rewrite Ho|]; auto.
    + upd_cases; [by rewrite Ho|done].
    + upd_cases; [|done]. apply Hc. by rewrite Ho.
  - intros t'. upd_cases; [rewrite Ho|]; auto.
Qed.

(** The owner moves on with a new count and depth. *)
Lemma ok_owner s t p c d' m' :
  rec_inv s -> owns (r_pc s t) -> owns p -> count_ok p d' c ->
  iv_owner m' = iv_owner (r_mutex s) -> iv_ownerLockCount m' = c ->
  owner_ok m' (upd (r_pc s) t p) (upd (r_depth s) t d').
Proof.
  intros I Ho Hp Hc E1 E2. pose proof (owner_is s t I Ho) as E.
  destruct (owner_count s t I Ho) as [Ht _]. unfold owner_ok. rewrite E1, E2, E, !upd_eq.
  split; [by right|]. intros t'. upd_cases; [done|]. by apply (ri_owner _ I).
Qed.

Lemma upd_same (f : Z -> Z) t : pointwise_relation Z (=) (upd f t (f t)) f.
Proof. intros t'. upd_cases; done. Qed.

(** Threads woken by the kernel are no owners. *)
Lemma ok_resume m pc depth ts : owner_ok m pc depth -> owner_ok m (resume_all rresume ts pc) depth.
Proof.
  unfold resume_all. revert pc. induction ts as [|w ts IH]; intros pc H; [done|]. simpl. apply IH.
  assert (Hr : forall p, owns (rresume p) = owns p) by (by intros [| |[]|[]|[]| | | | | | | |]).
  assert (Hi : forall p, owns p -> rresume p = p) by (by intros [| |[]|[]|[]| | | | | | | |]).
  destruct H as [H Hd]. split.
  - destruct H as [(H1 & H2 & H3)|(H1 & H2 & H3)]; [left|right]; split_and!; auto.
    + intros t'. upd_cases; rewrite ?Hr; auto.
    + upd_cases; rewrite ?Hr; auto.
    + upd_cases; [|done]. by rewrite Hi.
  - intros t'. upd_cases; rewrite ?Hr; auto.
Qed.

Lemma ri_running s t :
  rec_inv s -> view (r_pc s t) <> MBlocked ->
  state_info (r_fm s) !! t = None /\ t ∉ waiters MA (iv_list (r_fm s)).
Proof.
  intros I Hv.
  assert (H1 : t ∉ waiters MA (iv_list (r_fm s)))
    by (intros Hin; by apply (mi_queue _ _ _ (ri_mutex _ I)) in Hin).
  split; [|done]. destruct (state_info (r_fm s) !! t) as [a|] eqn:E; [|done].
  apply (inv_state _ (ri_fm _ I)), elem_of_waiters in E. exfalso.
  destruct (decide (a = MA)) as [->|]; [done|].
  rewrite (ri_other _ I) in E by done. by apply elem_of_nil in E.
Qed.

(** A step outside the kernel. *)
Lemma ri_local s t p m' d' :
  rec_inv s -> view (r_pc s t) <> MBlocked -> view p <> MBlocked ->
  iv_recursive m' = true ->
  mutex_inv (iv_val m') (waiters MA (iv_list (r_fm s))) (upd (r_pc s) t p) ->
  owner_ok m' (upd (r_pc s) t p) d' ->
  rec_inv (mkRsys m' (r_fm s) (upd (r_pc s) t p) d').
Proof.
  intros I Hv Hp Hr Hm Ho. split; simpl; auto; try apply I.
  intros t'. upd_cases; [done|]. apply (ri_block _ I).
Qed.

(** A step of a thread to a position of the same kind. *)
Lemma ri_neutral s t p m' d' :
  rec_inv s -> view (r_pc s t) = MHold \/ view (r_pc s t) = MOut ->
  view p = view (r_pc s t) \/ (view (r_pc s t) = MOut /\ view p = MRetry) ->
  iv_val m' = iv_val (r_mutex s) -> iv_recursive m' = iv_recursive (r_mutex s) ->
  owner_ok m' (upd (r_pc s) t p) d' ->
  rec_inv (mkRsys m' (r_fm s) (upd (r_pc s) t p) d').
Proof.
  intros I Hv Hp E1 E2 Ho.
  assert (view (r_pc s t) <> MBlocked) as Hnb by (by destruct Hv as [-> | ->]).
  destruct (ri_running s t I Hnb) as [_ Hq].
  apply ri_local; auto.
  - destruct Hp as [->|[_ ->]]; done.
  - rewrite E2. apply I.
  - rewrite E1. apply mi_move; [apply I| | |done].
    + destruct Hp as [->|[-> ->]]; done.
    + destruct Hp as [->|[-> ->]]; done.
Qed.

(** The compare-and-swap: a free mutex is taken, a held one left alone. *)
Lemma ri_cas s t h :
  rec_inv s -> r_pc s t = RlCas h ->
  exists s', rgo t s = Done (Some s') /\ rec_inv s'.
Proof.
  intros I Hpc. unfold rgo. rewrite Hpc. cbn [val_compare_and_swap]. eexists. split; [done|].
  assert (Hnb : view (r_pc s t) <> MBlocked) by (rewrite Hpc; by destruct h).
  destruct (ri_running s t I Hnb) as [_ Hq].
  destruct (iv_val (r_mutex s) =? 0) eqn:Hv; b2p; cbn [negb].
  - assert (Hh : ~ holding (view (r_pc s t))) by (by apply (mi_free _ _ _ (ri_mutex _ I))).
    assert (h = false) as -> by (destruct h; [by rewrite Hpc in Hh|done]).
    apply ri_local; auto; [apply I| |].
    + cbn [with_val iv_val]. pose proof (ri_mutex _ I) as Hm. rewrite Hv in Hm.
      eapply mi_take; eauto. right. rewrite Hpc. viewed.
    + apply ok_same; auto; by rewrite ?Hpc.
  - apply ri_neutral; auto; rewrite ?Hpc.
    + destruct h; auto.
    + left. by destruct h.
    + apply ok_same; auto; rewrite ?Hpc; [done|]. intros Ho.
      destruct h; [|done].
      pose proof (proj2 (owner_count s t I ltac:(by rewrite Hpc))) as Hc. by rewrite Hpc in Hc.
Qed.

(** The owner test tells the owner from every other thread. *)
Lemma ri_ownertest s t h st :
  rec_inv s -> t <> NULL -> r_pc s t = RlOwner h st ->
  exists s', rgo t s = Done (Some s') /\ rec_inv s' /\ (r_pc s' t = RlInc <-> h = true).
Proof.
  intros I Ht Hpc. unfold rgo. rewrite Hpc. eexists. split; [done|]. cbn [r_pc]. rewrite upd_eq.
  destruct h.
  - pose proof (owner_is s t I ltac:(by rewrite Hpc)) as E. rewrite E, Z.eqb_refl. split; [|done].
    pose proof (proj2 (owner_count s t I ltac:(by rewrite Hpc))) as Hc. rewrite Hpc in Hc.
    apply ri_neutral; auto; rewrite ?Hpc; auto.
    apply ok_same; auto; by rewrite ?Hpc.
  - assert (t <> iv_owner (r_mutex s)) as E.
    { intros ->. destruct (ri_owner _ I) as [[(H & _)|(_ & H & _)] _]; [done|]. by rewrite Hpc in H. }
    rewrite (proj2 (Z.eqb_neq _ _) E). destruct (st =? 2); cbn [negb]; (split; [|done]);
      apply ri_neutral; auto; rewrite ?Hpc; auto; apply ok_same; auto; by rewrite ?Hpc.
Qed.

Lemma ri_spin s t l :
  rec_inv s -> t <> NULL -> r_pc s t = RlSpin l ->
  exists r, rgo t s = Done r /\ (forall s', r = Some s' -> rec_inv s').
Proof.
  intros I Ht Hpc. unfold rgo. rewrite Hpc.
  destruct (lock_step t MA l _ _) as [[[v' fm'] next]|] eqn:E; [|by eexists].
  eexists. split; [done|]. intros s' [= <-].
  assert (Hv : view (r_pc s t) = view_lpc l) by (by rewrite Hpc).
  assert (Hnb : view (r_pc s t) <> MBlocked) by (rewrite Hv; by destruct l).
  destruct (ri_running s t I Hnb) as (Hs & Hq).
  set (p := match next with Some l' => RlSpin l' | None => RlSetOwner end).
  destruct (lock_step_inv t MA l _ _ v' fm' next (r_pc s) p (ri_fm _ I) Ht Hs (ri_mutex _ I) Hv E)
    as (Hfi & Hm & Hfm); [by destruct next|].
  assert (Hok : owner_ok (with_val (r_mutex s) v') (upd (r_pc s) t p) (r_depth s)).
  { apply ok_same; auto; rewrite ?Hpc; by destruct next. }
  case_decide as Hb.
  - subst fm' next. split; simpl; auto; try apply I.
    + intros a H1. rewrite waiters_cons, decide_False by (simpl; congruence).
      by apply (ri_other _ I).
    + intros x. rewrite !waiters_cons, decide_True by done. rewrite elem_of_cons.
      destruct (decide (x = t)) as [->|]; [by left|].
      rewrite upd_ne by done. intros Hx%(ri_block _ I). tauto.
  - subst fm'. apply ri_local; auto; [|apply I]. subst p. by destruct next as [[]|].
Qed.

Lemma rresume_blocked p : view p = MBlocked -> view (rresume p) = MRetry.
Proof. by destruct p as [| |[]|[]|[]| | | | | | |[]|]. Qed.

Lemma ri_unlock s t u :
  rec_inv s -> r_pc s t = RuUnlock u ->
  exists s', rgo t s = Done (Some s') /\ rec_inv s'.
Proof.
  intros I Hpc. unfold rgo. rewrite Hpc.
  assert (Hv : view (r_pc s t) = view_upc u) by (by rewrite Hpc).
  destruct (unlock_step_inv t MA u _ _ _ rresume (ri_fm _ I) (ri_mutex _ I) Hv rresume_blocked)
    as (v' & fm' & next & -> & Hfi & (n & _ & Hrel & Hq) & Ho & Hm).
  cbn [obind]. eexists. split; [done|].
  set (p := match next with Some u' => RuUnlock u' | None => ROut end).
  assert (Hp : view p <> MBlocked) by (by destruct next as [[]|]).
  pose proof (waiters_nodup MA _ (ri_fm _ I)) as Hnd.
  split; simpl; auto; try apply I.
  - apply Hm. by destruct next as [[]|].
  - intros a Ha. rewrite Ho by done. by apply (ri_other _ I).
  - intros x Hx. rewrite Hq. rewrite <-(take_drop n (waiters MA _)) in Hnd.
    apply NoDup_app in Hnd as (Hnd & _ & _). rewrite Hrel in Hx.
    destruct (decide (x ∈ take n (waiters MA (iv_list (r_fm s))))) as [Hin|Hn].
    + rewrite resume_all_in in Hx by done.
      exfalso. revert Hx. by destruct (upd _ t p x) as [| |[]|[]|[]| | | | | | |[]|].
    + rewrite resume_all_ne in Hx by done.
      destruct (decide (x = t)) as [->|]; [by rewrite upd_eq in Hx|]. rewrite upd_ne in Hx by done.
      apply (ri_block _ I) in Hx. rewrite <-(take_drop n (waiters MA _)) in Hx.
      apply elem_of_app in Hx. tauto.
  - apply ok_resume, ok_same; auto; rewrite ?Hpc; subst p; by destruct next as [[]|].
Qed.

(** Taking and giving up ownership. *)
Lemma ri_setowner s t :
  rec_inv s -> t <> NULL -> r_pc s t = RlSetOwner ->
  exists s', rgo t s = Done (Some s') /\ rec_inv s'.
Proof.
  intros I Ht Hpc. unfold rgo. rewrite Hpc. eexists. split; [done|].
  destruct (no_owner s t I) as (H1 & H2 & H3 & H4); [by rewrite Hpc|rewrite Hpc; viewed|].
  apply ri_neutral; auto; rewrite ?Hpc; auto. split.
  - right. cbn [with_owner iv_owner iv_ownerLockCount]. rewrite upd_eq. split_and!; done.
  - intros t'. upd_cases; [done|]. apply (ri_owner _ I).
Qed.

Lemma ri_giveup s t :
  rec_inv s -> r_pc s t = RuResetOwner ->
  exists s', rgo t s = Done (Some s') /\ rec_inv s'.
Proof.
  intros I Hpc. unfold rgo. rewrite Hpc. eexists. split; [done|].
  assert (Ho : owns (r_pc s t)) by (by rewrite Hpc).
  pose proof (owner_is s t I Ho) as E. destruct (owner_count s t I Ho) as [Ht Hc].
  rewrite Hpc in Hc. destruct Hc as [Hd Hc].
  apply ri_neutral; auto; rewrite ?Hpc; auto. split.
  - left. cbn [with_owner iv_owner iv_ownerLockCount]. split_and!; [done|done|]. intros t'.
    upd_cases; [viewed|]. intros Ho'. apply (owner_is _ _ I) in Ho'. congruence.
  - intros t'. upd_cases; [lia|]. apply (ri_owner _ I).
Qed.

Lemma u64_small x : 0 <= x < 2 ^ 64 -> u64 x = x.
Proof. apply wrap_small. Qed.

(** The owner's own steps. *)
Lemma ri_owner_step s t :
  rec_inv s ->
  match r_pc s t with RlCount | RlInc | RuTest | RuResetCount | RuDec => True | _ => False end ->
  exists s', rgo t s = Done (Some s') /\ rec_inv s'.
Proof.
  intros I Hp. unfold rgo.
  assert (Ho : owns (r_pc s t)) by (by destruct (r_pc s t)).
  assert (Hh : view (r_pc s t) = MHold) by (by apply owns_holding).
  destruct (owner_count s t I Ho) as [Ht Hc].
  destruct (r_pc s t) eqn:Hpc; try done; (eexists; split; [done|]); simpl in Hc.
  - apply ri_neutral; auto; rewrite ?Hpc; auto.
    eapply ok_owner; rewrite ?Hpc; try done. simpl. rewrite u64_small by lia. lia.
  - apply ri_neutral; auto; rewrite ?Hpc; auto.
    eapply ok_owner; rewrite ?Hpc; try done. simpl. rewrite u64_small by lia. lia.
  - destruct (_ <=? 1) eqn:E; b2p; (apply ri_neutral; auto; rewrite ?Hpc; auto);
      apply ok_same; auto; rewrite ?Hpc; try done; simpl; lia.
  - apply ri_neutral; auto; rewrite ?Hpc; auto.
    assert (H : owner_ok (with_count (r_mutex s) 0) (upd (r_pc s) t RuResetOwner)
                  (upd (r_depth s) t (r_depth s t))).
    { eapply ok_owner; rewrite ?Hpc; try done. simpl. split; [lia|done]. }
    destruct H as [H1 H2]. split.
    + destruct H1 as [?|(H3 & H4 & H5)]; [by left|]. right. split_and!; auto.
      by rewrite upd_same in H5.
    + intros t' Ht'. specialize (H2 t' Ht'). by rewrite upd_same in H2.
  - apply ri_neutral; auto; rewrite ?Hpc; auto.
    eapply ok_owner; rewrite ?Hpc; try done. simpl. rewrite u64_small by lia. lia.
Qed.

Lemma ri_go s t :
  rec_inv s -> t <> NULL -> exists r, rgo t s = Done r /\ (forall s', r = Some s' -> rec_inv s').
Proof.
  intros I Ht.
  assert (Hone : (exists s', rgo t s = Done (Some s') /\ rec_inv s') ->
            exists r, rgo t s = Done r /\ (forall s', r = Some s' -> rec_inv s')).
  { intros (s' & H1 & H2). exists (Some s'). naive_solver. }
  destruct (r_pc s t) eqn:Hpc.
  1, 2: exists None; unfold rgo; by rewrite Hpc.
  2: destruct (ri_ownertest s t h l_lockStatus I Ht Hpc) as (s' & H1 & H2 & _); apply Hone; eauto.
  2: by eapply ri_spin.
  all: apply Hone; first [by eapply ri_cas | by eapply ri_setowner | by eapply ri_giveup
    | by eapply ri_unlock | apply ri_owner_step; [done|by rewrite Hpc]].
Qed.

Lemma ri_step s e :
  rec_inv s -> exists r, rstep e s = Done r /\ (forall s', r = Some s' -> rec_inv s').
Proof.
  intros I. destruct e as [t a]. unfold rstep. destruct (t =? NULL) eqn:Ht; b2p; [by eexists|].
  destruct a; [| |by apply ri_go]; destruct (r_pc s t) eqn:Hpc; try (by eexists);
    rewrite ?(ri_rec _ I); [| |].
  - eexists. split; [done|]. intros s' [= <-]. apply ri_neutral; auto; rewrite ?Hpc; auto.
    apply ok_same; auto; by rewrite ?Hpc.
  - pose proof (owner_count s t I ltac:(by rewrite Hpc)) as [_ Hc]. rewrite Hpc in Hc.
    destruct (_ <? _) eqn:E; b2p; [|by eexists]. eexists. split; [done|].
    intros s' [= <-]. apply ri_neutral; auto; rewrite ?Hpc; auto.
    apply ok_same; auto; rewrite ?Hpc; [done|]. simpl in *. lia.
  - pose proof (owner_count s t I ltac:(by rewrite Hpc)) as [_ Hc]. rewrite Hpc in Hc.
    eexists. split; [done|]. intros s' [= <-]. apply ri_neutral; auto; rewrite ?Hpc; auto.
    apply ok_same; auto; by rewrite ?Hpc.
Qed.

Lemma ri_run sched s :
  rec_inv s -> exists r, rrun sched s = Done r /\ (forall s', r = Some s' -> rec_inv s').
Proof.
  revert s. induction sched as [|e sched IH]; intros s I; cbn [rrun].
  - eexists. split; [done|]. by intros s' [= <-].
  - destruct (ri_step s e I) as ([s1|] & -> & H1); cbn [obind]; [auto|by eexists].
Qed.
End machine.

(** ** Theorems *)

(** C6: the recursive mutex.  Under every interleaving of lock and unlock calls
    no assertion fires; at most one thread has locks it did not give back yet;
    a thread between its calls that has some is the recorded owner and the lock
    count is its nesting depth; and when every thread is outside, the mutex is
    as it was initialised. *)
Theorem recursive_mutex_correct MA sched :
  exists r, rrun MA sched rsys_init = Done r /\
    forall s, r = Some s ->
      (forall t1 t2, 0 < r_depth s t1 -> 0 < r_depth s t2 -> t1 = t2) /\
      (forall t, r_pc s t = RIn ->
         1 <= r_depth s t /\ iv_owner (r_mutex s) = t /\
         iv_ownerLockCount (r_mutex s) = r_depth s t) /\
      ((forall t, r_pc s t = ROut) -> r_mutex s = mutex_init true).
Proof.
  destruct (ri_run MA sched rsys_init) as (r & -> & Hr); [apply rec_inv_init|].
  exists r. split; [done|]. intros s Hs. specialize (Hr s Hs) as I. split_and!.
  - assert (H : forall t, 0 < r_depth s t -> owns (r_pc s t)).
    { intros t Ht. destruct (owns (r_pc s t)) eqn:E; [done|].
      rewrite (proj2 (ri_owner _ _ I) t) in Ht; [lia|]. rewrite E. viewed. }
    intros t1 t2 H1%H H2%H. apply (owner_is _ _ _ I) in H1, H2. congruence.
  - intros t Hpc. assert (Ho : owns (r_pc s t)) by (by rewrite Hpc).
    destruct (owner_count MA s t I Ho) as [_ Hc]. rewrite Hpc in Hc. simpl in Hc.
    split_and!; [lia|by eapply owner_is|lia].
  - intros Hall. destruct (ri_owner _ _ I) as [[(H1 & H2 & _)|(_ & H & _)] _].
    + assert (Hv : iv_val (r_mutex s) = 0).
      { destruct (decide (iv_val (r_mutex s) = 0)) as [|Hne]; [done|].
        destruct (mi_held _ _ _ (ri_mutex _ _ I) Hne) as [t Ht]. by rewrite Hall in Ht. }
      pose proof (ri_rec _ _ I). destruct (r_mutex s). unfold mutex_init. simpl in *. by subst.
    + by rewrite Hall in H.
Qed.

(** an owner that locks again never waits.  In every reachable state, the
    steps of [recursive_mutex_lock] by a thread that holds the mutex return
    after three steps with the depth one higher and without a system call. *)
Theorem recursive_relock MA sched s t :
  t <> NULL -> rrun MA sched rsys_init = Done (Some s) -> r_pc s t = RIn ->
  r_depth s t < 2 ^ 64 - 1 ->
  exists s', rrun MA [(t, RLock); (t, RGo); (t, RGo); (t, RGo)] s = Done (Some s') /\
    r_pc s' t = RIn /\ r_depth s' t = r_depth s t + 1 /\ r_fm s' = r_fm s /\
    iv_val (r_mutex s') = iv_val (r_mutex s).
Proof.
  intros Ht Hrun Hpc Hd.
  destruct (ri_run MA sched rsys_init) as (r & Hr & Hi); [apply rec_inv_init|].
  rewrite Hrun in Hr. injection Hr as <-. specialize (Hi s eq_refl).
  assert (Ho : owns (r_pc s t)) by (by rewrite Hpc).
  pose proof (owner_is MA s t Hi Ho) as E.
  assert (Hv : iv_val (r_mutex s) <> 0).
  { intros H0. apply (mi_free _ _ _ (ri_mutex _ _ Hi) H0 t). by rewrite Hpc. }
  cbn [rrun rstep]. rewrite (proj2 (Z.eqb_neq _ _) Ht), Hpc, (ri_rec _ _ Hi).
  rewrite (proj2 (Z.ltb_lt _ _) Hd). cbn [obind].
  unfold rgo at 1. cbn [r_pc r_mutex r_fm r_depth]. rewrite upd_eq. cbn [val_compare_and_swap obind].
  rewrite (proj2 (Z.eqb_neq _ _) Hv). cbn [negb].
  unfold rgo at 1. cbn [r_pc r_mutex r_fm r_depth]. rewrite upd_eq. cbn [with_val iv_owner obind].
  rewrite E, Z.eqb_refl.
  unfold rgo at 1. cbn [r_pc r_mutex r_fm r_depth]. rewrite upd_eq. cbn [obind].
  eexists. split; [done|]. cbn. by rewrite !upd_eq.
Qed.

Definition rsched_nested : list (Z * raction) :=
  [(7, RLock); (7, RGo); (7, RGo); (7, RGo); (9, RLock); (9, RGo); (9, RGo); (9, RGo); (9, RGo)].

Definition rstate_nested : rsys :=
  match rrun 8 rsched_nested rsys_init with Done (Some s) => s | _ => rsys_init end.

Lemma recursive_relock_witness :
  exists s', rrun 8 [(7, RLock); (7, RGo); (7, RGo); (7, RGo)] rstate_nested = Done (Some s') /\
    r_pc s' 7 = RIn /\ r_depth s' 7 = 2.
Proof.
  destruct (recursive_relock 8 rsched_nested rstate_nested 7) as (s' & H1 & H2 & H3 & _); [done..|].
  exists s'. split_and!; [exact H1|exact H2|exact H3].
Defined.
