(* ===== verification/SyncBarrier.v ===== *)
(** * The barrier under every interleaving

    [barrier_wait] of [src/lib/sync.C], called over and over by the threads the
    barrier was initialised for.  The model counts, per thread, how often it
    has arrived (decremented [iv_missing]) and how often it has returned, and
    the generations completed; none of the counts influences a step. *)

From S2P Require Import Prelude Containers Futex Sync.

(** Positions; [e] is [l_event]. *)
Inductive bpc : Type :=
| BOut
| BLock (l : lpc)
| BDec
| BTest
| BRead
| BUnlock1 (u : upc) (e : Z)
| BWait (e : Z)
| BBlocked (e : Z)
| BCheck (e : Z)
| BIncr
| BReset
| BWake
| BUnlock2 (u : upc).

#[global] Instance bpc_eq_dec : EqDecision bpc.
Proof. solve_decision. Defined.

#[global] Instance barrier_client : MutexClient bpc := fun p =>
  match p with
  | BOut | BWait _ | BBlocked _ | BCheck _ => MOut
  | BLock l => view_lpc l
  | BUnlock1 u _ | BUnlock2 u => view_upc u
  | BDec | BTest | BRead | BIncr | BReset | BWake => MHold
  end.

Definition bresume (p : bpc) : bpc :=
  match p with
  | BLock L_blocked => BLock L_tas
  | BBlocked e => BCheck e
  | _ => p
  end.

Record bsys : Type := mkBsys {
  b_bar : barrier_t;
  b_fm : FutexManager;
  b_pc : Z -> bpc;
  b_arr : Z -> Z;
  b_ret : Z -> Z;
  b_gen : Z
}.

Section machine.
(** The addresses of the mutex' [iv_val] and of [iv_event], and the threads. *)
Variables (MA EA : Z) (T : list Z).

Definition bar_val (b : barrier_t) (v : Z) : barrier_t :=
  mkBarrier (with_val (iv_mutex b) v) (iv_event b) (iv_missing b) (iv_count b).

(** The next step of thread [t] in [barrier_wait]; from [BOut] it calls it. *)
Definition bgo (t : Z) (s : bsys) : outcome (option bsys) :=
  let b := b_bar s in
  let pcs := b_pc s in
  let next b p := Done (Some (mkBsys b (b_fm s) (upd pcs t p) (b_arr s) (b_ret s) (b_gen s))) in
  let leave p := (upd pcs t p, upd (b_ret s) t (b_ret s t + 1)) in
  match pcs t with
  | BOut => assert! negb (iv_recursive (iv_mutex b)); next b (BLock L_cas)
  | BLock l =>
      match lock_step t MA l (iv_val (iv_mutex b)) (b_fm s) with
      | None => Done None
      | Some (v', fm', nx) =>
          Done (Some (mkBsys (bar_val b v') fm'
            (upd pcs t (match nx with Some l' => BLock l' | None => BDec end))
            (b_arr s) (b_ret s) (b_gen s)))
      end
  | BDec =>
      Done (Some (mkBsys
        (mkBarrier (iv_mutex b) (iv_event b) (u64 (iv_missing b - 1)) (iv_count b))
        (b_fm s) (upd pcs t BTest) (upd (b_arr s) t (b_arr s t + 1)) (b_ret s) (b_gen s)))
  | BTest => next b (if 0 <? iv_missing b then BRead else BIncr)
  | BRead =>
      assert! negb (iv_recursive (iv_mutex b)); next b (BUnlock1 U_sub (iv_event b))
  | BUnlock1 u e =>
      do (v', fm', nx) <- unlock_step MA u (iv_val (iv_mutex b)) (b_fm s);
      Done (Some (mkBsys (bar_val b v') fm'
        (resume_all bresume (released (b_fm s) fm')
          (upd pcs t (match nx with Some u' => BUnlock1 u' e | None => BWait e end)))
        (b_arr s) (b_ret s) (b_gen s)))
  | BWait e =>
      let '(rc, fm') := futex_wait t EA e (iv_event b) (b_fm s) in
      Done (Some (mkBsys b fm' (upd pcs t (if rc =? 0 then BBlocked e else BCheck e))
        (b_arr s) (b_ret s) (b_gen s)))
  | BBlocked _ => Done None
  | BCheck e =>
      if iv_event b =? e then next b (BWait e)
      else let '(pcs', ret') := leave BOut in
           Done (Some (mkBsys b (b_fm s) pcs' (b_arr s) ret' (b_gen s)))
  | BIncr =>
      Done (Some (mkBsys
        (mkBarrier (iv_mutex b) (u64 (iv_event b + 1)) (iv_missing b) (iv_count b))
        (b_fm s) (upd pcs t BReset) (b_arr s) (b_ret s) (b_gen s + 1)))
  | BReset =>
      next (mkBarrier (iv_mutex b) (iv_event b) (iv_count b) (iv_count b)) BWake
  | BWake =>
      do (_, fm') <- futex_wake EA (2 ^ 64 - 1) NULL 0 (b_fm s);
      assert! negb (iv_recursive (iv_mutex b));
      Done (Some (mkBsys b fm'
        (resume_all bresume (released (b_fm s) fm') (upd pcs t (BUnlock2 U_sub)))
        (b_arr s) (b_ret s) (b_gen s)))
  | BUnlock2 u =>
      do (v', fm', nx) <- unlock_step MA u (iv_val (iv_mutex b)) (b_fm s);
      let '(pcs', ret') :=
        match nx with
        | Some u' => (upd pcs t (BUnlock2 u'), b_ret s)
        | None => leave BOut
        end in
      Done (Some (mkBsys (bar_val b v') fm'
        (resume_all bresume (released (b_fm s) fm') pcs') (b_arr s) ret' (b_gen s)))
  end.

(** Only the threads of the barrier call it. *)
Definition bstep (t : Z) (s : bsys) : outcome (option bsys) :=
  if bool_decide (t ∈ T) then bgo t s else Done None.

Fixpoint brun (sched : list Z) (s : bsys) : outcome (option bsys) :=
  match sched with
  | [] => Done (Some s)
  | t :: sched =>
      do r <- bstep t s;
      match r with None => Done None | Some s' => brun sched s' end
  end.

Definition bsys_init : bsys :=
  mkBsys (barrier_init (Z.of_nat (length T))) fm_new (fun _ => BOut) (fun _ => 0) (fun _ => 0) 0.

(** ** The invariant *)

Hypothesis MA_EA : MA <> EA.
Hypothesis T_nodup : NoDup T.
Hypothesis T_tasks : NULL ∉ T.
Hypothesis T_count : 0 < Z.of_nat (length T) < 2 ^ 64.

(** How many threads have arrived in the generation that follows [g]. *)
Definition arrived (arr : Z -> Z) (g : Z) : Z := tally (fun t => arr t =? g + 1) T.

(** A thread's arrivals and returns, by position, when [g] generations are
    complete. *)
Definition place_ok (p : bpc) (arr ret g : Z) : Prop :=
  match p with
  | BOut | BLock _ | BDec => arr = g /\ ret = g
  | BTest | BRead | BIncr => arr = g + 1 /\ ret = g
  | BReset | BWake | BUnlock2 _ => arr = g /\ ret = g - 1
  | BUnlock1 U_sub e | BUnlock1 U_store e => arr = g + 1 /\ ret = g /\ e = u64 g
  | BUnlock1 U_wake e | BWait e | BBlocked e | BCheck e =>
      (arr = g \/ arr = g + 1) /\ ret = arr - 1 /\ e = u64 (arr - 1)
  end.

(** Between the increment of [iv_event] and the wake-up of all. *)
Definition opening (p : bpc) : bool := match p with BReset | BWake => true | _ => false end.

(** [m] missing threads and [n] arrived ones: they add up to all, except that
    [iv_missing] is reset one statement after [iv_event]; it is zero only while
    the last thread is at work. *)
Definition missing_inv (m n : Z) (pc : Z -> bpc) : Prop :=
  ((exists t, pc t = BReset) /\ m = 0 /\ n = 0 \/
   (forall t, pc t <> BReset) /\ m = Z.of_nat (length T) - n) /\
  (m = 0 -> exists t, pc t = BTest \/ pc t = BIncr \/ pc t = BReset) /\
  (forall t, pc t = BRead -> 0 < m) /\ (forall t, pc t = BIncr -> m = 0).

Record bar_inv (s : bsys) : Prop := {
  bi_fm : futex_inv (b_fm s);
  bi_mutex : mutex_inv (iv_val (iv_mutex (b_bar s))) (waiters MA (iv_list (b_fm s))) (b_pc s);
  bi_rec : iv_recursive (iv_mutex (b_bar s)) = false;
  bi_count : iv_count (b_bar s) = Z.of_nat (length T);
  bi_event : iv_event (b_bar s) = u64 (b_gen s);
  bi_other : forall a, a <> MA -> a <> EA -> waiters a (iv_list (b_fm s)) = [];
  bi_lblock : forall t, b_pc s t = BLock L_blocked -> t ∈ waiters MA (iv_list (b_fm s));
  bi_eblock : forall t e, b_pc s t = BBlocked e -> t ∈ waiters EA (iv_list (b_fm s));
  bi_queue : forall t, t ∈ waiters EA (iv_list (b_fm s)) -> exists e, b_pc s t = BBlocked e;
  bi_qgen : forall t, t ∈ waiters EA (iv_list (b_fm s)) ->
    b_arr s t = b_gen s + 1 \/ exists t', opening (b_pc s t');
  bi_place : forall t, t ∈ T -> place_ok (b_pc s t) (b_arr s t) (b_ret s t) (b_gen s);
  bi_outside : forall t, t ∉ T -> b_pc s t = BOut;
  bi_missing : missing_inv (iv_missing (b_bar s)) (arrived (b_arr s) (b_gen s)) (b_pc s)
}.

Definition asleep (p : bpc) : bool :=
  match p with BLock L_blocked | BBlocked _ => true | _ => false end.
Definition busy (p : bpc) : bool :=
  match p with BTest | BRead | BIncr | BReset => true | _ => false end.

(** *** Pieces of the invariant *)

(** The unchanged fields. *)
Ltac bi_field I :=
  first [exact (bi_fm _ I) | exact (bi_rec _ I) | exact (bi_count _ I) | exact (bi_event _ I)
        | exact (bi_other _ I) | exact (bi_mutex _ I)].

Lemma busy_holding p : busy p -> view p = MHold.
Proof. by destruct p. Qed.

(** The counts see the busy thread only. *)
Lemma missing_ext m n pc pc' :
  (forall t, pc' t = pc t \/ ~ busy (pc t) /\ ~ busy (pc' t)) ->
  missing_inv m n pc -> missing_inv m n pc'.
Proof.
  intros He (H1 & H2 & H3 & H4).
  assert (Hb : forall t, busy (pc t) -> pc' t = pc t) by (intros t Ht; destruct (He t); tauto).
  assert (Hb' : forall t, busy (pc' t) -> pc' t = pc t) by (intros t Ht; destruct (He t); tauto).
  split_and!.
  - destruct H1 as [[[t Ht] H1]|[Hn H1]]; [left|right].
    + split; [|done]. exists t. rewrite Hb; [done|by rewrite Ht].
    + split; [|done]. intros t Ht. apply (Hn t). rewrite <-Hb'; [done|by rewrite Ht].
  - intros Hm. destruct (H2 Hm) as [t Ht]. exists t.
    rewrite Hb; [done|]. by destruct Ht as [->|[->| ->]].
  - intros t Ht. apply (H3 t). rewrite <-Hb'; [done|by rewrite Ht].
  - intros t Ht. apply (H4 t). rewrite <-Hb'; [done|by rewrite Ht].
Qed.

Lemma bresume_all_cases ts (f : Z -> bpc) t :
  resume_all bresume ts f t = f t \/
  (asleep (f t) /\ asleep (resume_all bresume ts f t) = false /\
   resume_all bresume ts f t = bresume (f t)).
Proof.
  unfold resume_all. revert f. induction ts as [|w ts IH]; intros f; [by left|]. simpl.
  assert (Hi : forall p, bresume p = p \/ asleep p /\ asleep (bresume p) = false).
  { intros [|[]| | | | | | | | | | |]; auto. }
  assert (Hb : forall p, bresume (bresume p) = bresume p) by (by intros [|[]| | | | | | | | | | |]).
  destruct (IH (upd f w (bresume (f w)))) as [E|(E1 & E2 & E3)]; upd_cases.
  - destruct (Hi (f w)) as [E'|[E1 E2]]; rewrite E; [by left|right]. by rewrite E2.
  - by left.
  - destruct (Hi (f w)) as [E'|[E4 E5]]; [|by rewrite E5 in E1].
    right. rewrite E' in *. rewrite E3. split_and!; [done| |done]. by rewrite <-E3.
  - by right.
Qed.

Lemma place_resume p a r g : place_ok (bresume p) a r g <-> place_ok p a r g.
Proof. by destruct p as [|[]| | | | | | | | | | |]. Qed.

Lemma b_running s t :
  bar_inv s -> asleep (b_pc s t) = false ->
  state_info (b_fm s) !! t = None /\ t ∉ waiters MA (iv_list (b_fm s)) /\
  t ∉ waiters EA (iv_list (b_fm s)).
Proof.
  intros I Hv.
  assert (H1 : t ∉ waiters MA (iv_list (b_fm s))).
  { intros Hin. apply (mi_queue _ _ _ (bi_mutex _ I)) in Hin.
    by destruct (b_pc s t) as [|[]| | | |[]| | | | | | |[]]. }
  assert (H2 : t ∉ waiters EA (iv_list (b_fm s))).
  { intros Hin. apply (bi_queue _ I) in Hin as [e He]. by rewrite He in Hv. }
  split_and!; [|done|done]. destruct (state_info (b_fm s) !! t) as [a|] eqn:E; [|done].
  apply (inv_state _ (bi_fm _ I)), elem_of_waiters in E. exfalso.
  destruct (decide (a = MA)) as [->|]; [done|]. destruct (decide (a = EA)) as [->|]; [done|].
  rewrite (bi_other _ I) in E by done. by apply elem_of_nil in E.
Qed.

(** The state after thread [t] went to [p] and the tasks [ts] were released. *)
Lemma b_assemble s t p ts b' fm' arr' ret' g' :
  bar_inv s -> t ∈ T -> asleep (b_pc s t) = false -> asleep p = false ->
  iv_recursive (iv_mutex b') = false -> iv_count b' = iv_count (b_bar s) ->
  iv_event b' = u64 g' ->
  futex_inv fm' -> NoDup ts ->
  (forall x, x ∈ waiters MA (iv_list (b_fm s)) -> x ∈ ts \/ x ∈ waiters MA (iv_list fm')) ->
  (forall x, x ∈ waiters EA (iv_list (b_fm s)) -> x ∈ ts \/ x ∈ waiters EA (iv_list fm')) ->
  (forall x, x ∈ waiters EA (iv_list fm') -> x ∈ waiters EA (iv_list (b_fm s)) /\ x ∉ ts) ->
  (forall a, a <> MA -> a <> EA -> waiters a (iv_list fm') = []) ->
  mutex_inv (iv_val (iv_mutex b')) (waiters MA (iv_list fm'))
    (resume_all bresume ts (upd (b_pc s) t p)) ->
  (forall x, x ∈ waiters EA (iv_list fm') ->
     arr' x = g' + 1 \/ exists t', opening (upd (b_pc s) t p t')) ->
  (forall x, x ∈ T -> place_ok (upd (b_pc s) t p x) (arr' x) (ret' x) g') ->
  missing_inv (iv_missing b') (arrived arr' g') (upd (b_pc s) t p) ->
  bar_inv (mkBsys b' fm' (resume_all bresume ts (upd (b_pc s) t p)) arr' ret' g').
Proof.
  intros I Ht Hv Hp Hr Hc He Hfi Hnd Hm1 He1 He2 Ho Hmi Hq Hpl Hms.
  destruct (b_running s t I Hv) as (_ & Hqm & Hqe).
  assert (Hcases := bresume_all_cases ts (upd (b_pc s) t p)).
  assert (Hna : forall x, x ∈ ts -> asleep (resume_all bresume ts (upd (b_pc s) t p) x) = false).
  { intros x Hx. rewrite resume_all_in by done.
    by destruct (upd _ t p x) as [|[]| | | | | | | | | | |]. }
  assert (Hsl : forall x, asleep (resume_all bresume ts (upd (b_pc s) t p) x) ->
    x ∉ ts /\ resume_all bresume ts (upd (b_pc s) t p) x = b_pc s x).
  { intros x Hx. assert (Hn : x ∉ ts) by (intros Hin; by rewrite Hna in Hx).
    split; [done|]. rewrite resume_all_ne in * by done.
    unfold upd in *. case_match; [by rewrite Hp in Hx|done]. }
  split; simpl; auto.
  - by rewrite Hc, (bi_count _ I).
  - intros x Hx. destruct (Hsl x) as [Hn Heq]; [by rewrite Hx|]. rewrite Heq in Hx.
    apply (bi_lblock _ I), Hm1 in Hx. tauto.
  - intros x e Hx. destruct (Hsl x) as [Hn Heq]; [by rewrite Hx|]. rewrite Heq in Hx.
    apply (bi_eblock _ I), He1 in Hx. tauto.
  - intros x [Hx Hn]%He2. rewrite resume_all_ne by done. rewrite upd_ne by (by intros ->).
    by apply (bi_queue _ I).
  - intros x Hx. destruct (Hq x Hx) as [|[t' Ht']]; [by left|]. right. exists t'.
    destruct (Hcases t') as [->|(Ha & _)]; [done|].
    by destruct (upd (b_pc s) t p t') as [|[]| | | | | | | | | | |].
  - intros x Hx. destruct (Hcases x) as [->|(_ & _ & ->)]; [auto|]. by apply place_resume, Hpl.
  - intros x Hx. assert (x <> t) by (by intros ->).
    destruct (Hcases x) as [->|(Ha & _)]; [rewrite upd_ne by done; by apply (bi_outside _ I)|].
    rewrite upd_ne in Ha by done. by rewrite (bi_outside _ I) in Ha.
  - eapply missing_ext; [|exact Hms]. intros x.
    destruct (Hcases x) as [->|(Ha & Hb & Heq)]; [by left|]. right. rewrite Heq.
    by destruct (upd (b_pc s) t p x) as [|[]| | | | | | | | | | |]; split; intros [].
Qed.

Lemma bar_inv_init : bar_inv bsys_init.
Proof.
  split; simpl; auto; try done; [apply fm_new_inv|by apply mutex_inv_new| | |].
  - intros t Ht. by apply elem_of_nil in Ht.
  - intros t Ht. by apply elem_of_nil in Ht.
  - unfold arrived. rewrite tally_none by done. split_and!; [right| |done|done].
    + split; [done|]. lia.
    + lia.
Qed.

Lemma busy_unique s t t' :
  bar_inv s -> view (b_pc s t) = MHold -> busy (b_pc s t') -> t' = t.
Proof.
  intros I Hv Hb. eapply (mi_unique _ _ _ (bi_mutex _ I)); [by rewrite busy_holding|by rewrite Hv].
Qed.

(** A step without system call by a thread that is no waiter. *)
Lemma b_local s t p b' arr' ret' g' :
  bar_inv s -> t ∈ T -> asleep (b_pc s t) = false -> asleep p = false ->
  view p = view (b_pc s t) -> iv_mutex b' = iv_mutex (b_bar s) ->
  iv_count b' = iv_count (b_bar s) -> iv_event b' = u64 g' ->
  (forall x, x ∈ waiters EA (iv_list (b_fm s)) ->
     arr' x = g' + 1 \/ exists t', opening (upd (b_pc s) t p t')) ->
  (forall x, x ∈ T -> place_ok (upd (b_pc s) t p x) (arr' x) (ret' x) g') ->
  missing_inv (iv_missing b') (arrived arr' g') (upd (b_pc s) t p) ->
  bar_inv (mkBsys b' (b_fm s) (upd (b_pc s) t p) arr' ret' g').
Proof.
  intros I Ht Hv Hp Hview Hm Hc He Hq Hpl Hms.
  destruct (b_running s t I Hv) as (_ & Hqm & Hqe).
  apply (b_assemble s t p []); auto; rewrite ?Hm; try bi_field I.
  - constructor.
  - intros x Hx. split; [done|]. by intros ?%elem_of_nil.
  - cbn. apply mi_move; [apply I|by rewrite Hview|by rewrite Hview|done].
Qed.

(** A thread outside the counting code moves on. *)
Lemma b_neutral s t p ret' :
  bar_inv s -> t ∈ T -> asleep (b_pc s t) = false -> asleep p = false ->
  view p = view (b_pc s t) -> busy (b_pc s t) = false -> busy p = false ->
  opening (b_pc s t) = false -> (forall x, x <> t -> ret' x = b_ret s x) ->
  place_ok p (b_arr s t) (ret' t) (b_gen s) ->
  bar_inv (mkBsys (b_bar s) (b_fm s) (upd (b_pc s) t p) (b_arr s) ret' (b_gen s)).
Proof.
  intros I Ht Hv Hp Hview Hb Hbp Ho Hret Hpl. apply b_local; auto; [apply (bi_event _ I)|..].
  - intros x Hx. destruct (bi_qgen _ I x Hx) as [|[t' Ht']]; [by left|]. right. exists t'.
    upd_cases; [by rewrite Ho in Ht'|done].
  - intros x Hx. upd_cases; [done|]. rewrite Hret by done. by apply (bi_place _ I).
  - eapply missing_ext; [|apply (bi_missing _ I)]. intros x. upd_cases; [right|by left].
    rewrite Hb, Hbp. split; intros [].
Qed.

Lemma b_lock s t l :
  bar_inv s -> t ∈ T -> b_pc s t = BLock l ->
  exists r, bgo t s = Done r /\ (forall s', r = Some s' -> bar_inv s').
Proof.
  intros I Ht Hpc. unfold bgo. rewrite Hpc.
  destruct (lock_step t MA l _ _) as [[[v' fm'] next]|] eqn:E; [|by eexists].
  eexists. split; [done|]. intros s' [= <-].
  assert (Hv : view (b_pc s t) = view_lpc l) by (by rewrite Hpc).
  assert (Hnb : asleep (b_pc s t) = false) by (rewrite Hpc; by destruct l).
  destruct (b_running s t I Hnb) as (Hs & Hqm & Hqe).
  assert (t <> NULL) by (by intros ->).
  set (p := match next with Some l' => BLock l' | None => BDec end).
  destruct (lock_step_inv t MA l _ _ v' fm' next (b_pc s) p (bi_fm _ I)
    ltac:(done) Hs (bi_mutex _ I) Hv E) as (Hfi & Hm & Hfm); [by destruct next|].
  pose proof (bi_place _ I t Ht) as Hpt. rewrite Hpc in Hpt.
  assert (Hpl : forall x, x ∈ T -> place_ok (upd (b_pc s) t p x) (b_arr s x) (b_ret s x) (b_gen s)).
  { intros x Hx. upd_cases; [|by apply (bi_place _ I)]. subst p. by destruct next as [[]|]. }
  assert (Hms : missing_inv (iv_missing (b_bar s)) (arrived (b_arr s) (b_gen s)) (upd (b_pc s) t p)).
  { eapply missing_ext; [|apply (bi_missing _ I)]. intros x. upd_cases; [right|by left].
    rewrite Hpc. subst p. destruct next as [[]|]; split; intros []. }
  assert (Hop : forall x, x ∈ waiters EA (iv_list (b_fm s)) ->
     b_arr s x = b_gen s + 1 \/ exists t', opening (upd (b_pc s) t p t')).
  { intros x Hx. destruct (bi_qgen _ I x Hx) as [|[t' Ht']]; [by left|]. right. exists t'.
    upd_cases; [by rewrite Hpc in Ht'|done]. }
  case_decide as Hb.
  - subst fm' next. split; simpl; auto; try bi_field I.
    + intros a H1 H2. rewrite waiters_cons, decide_False by (simpl; congruence).
      by apply (bi_other _ I).
    + intros x. rewrite waiters_cons, decide_True by done. rewrite elem_of_cons.
      destruct (decide (x = t)) as [->|]; [by left|]. rewrite upd_ne by done.
      intros Hx%(bi_lblock _ I). tauto.
    + intros x e. rewrite waiters_cons, decide_False by (simpl; congruence). upd_cases; [done|].
      apply (bi_eblock _ I).
    + intros x. rewrite waiters_cons, decide_False by (simpl; congruence). intros Hx.
      rewrite upd_ne by (by intros ->). by apply (bi_queue _ I).
    + intros x. rewrite waiters_cons, decide_False by (simpl; congruence). auto.
    + intros x Hx. rewrite upd_ne by (by intros ->). by apply (bi_outside _ I).
  - subst fm'. apply (b_assemble s t p []); auto; try bi_field I.
    + subst p. by destruct next as [[]|].
    + constructor.
    + intros x Hx. split; [done|]. by intros ?%elem_of_nil.
Qed.

(** The arrival. *)
Lemma b_dec s t :
  bar_inv s -> t ∈ T -> b_pc s t = BDec -> exists s', bgo t s = Done (Some s') /\ bar_inv s'.
Proof.
  intros I Ht Hpc. unfold bgo. rewrite Hpc. eexists. split; [done|].
  pose proof (bi_place _ I t Ht) as Hpt. rewrite Hpc in Hpt. simpl in Hpt. destruct Hpt as [Ha Hr].
  destruct (bi_missing _ I) as (H1 & H2 & H3 & H4).
  assert (Hnb : forall x, ~ busy (b_pc s x)).
  { intros x Hx. pose proof (busy_unique s t x I ltac:(by rewrite Hpc) Hx) as ->.
    by rewrite Hpc in Hx. }
  assert (Hm0 : iv_missing (b_bar s) <> 0).
  { intros E. destruct (H2 E) as [x Hx]. apply (Hnb x). by destruct Hx as [->|[->| ->]]. }
  assert (Hm : iv_missing (b_bar s) = Z.of_nat (length T) - arrived (b_arr s) (b_gen s)).
  { destruct H1 as [[_ [? _]]|[_ ?]]; lia. }
  pose proof (tally_bounds (fun t => b_arr s t =? b_gen s + 1) T) as Hb.
  change (tally _ T) with (arrived (b_arr s) (b_gen s)) in Hb.
  assert (Hadd : arrived (upd (b_arr s) t (b_arr s t + 1)) (b_gen s) =
                 arrived (b_arr s) (b_gen s) + 1).
  { unfold arrived. apply tally_add with t; auto.
    - apply Z.eqb_neq. lia.
    - rewrite upd_eq, Ha. apply Z.eqb_refl.
    - intros x Hx. by rewrite upd_ne. }
  apply b_local; auto; rewrite ?Hpc; auto; [apply (bi_event _ I)|..].
  - intros x Hx. destruct (bi_qgen _ I x Hx) as [|[t' Ht']].
    + left. destruct (bi_queue _ I x Hx) as [e He]. rewrite upd_ne; [done|].
      intros ->. by rewrite Hpc in He.
    + right. exists t'. upd_cases; [by rewrite Hpc in Ht'|done].
  - intros x Hx. upd_cases; [simpl; lia|]. by apply (bi_place _ I).
  - cbn [iv_missing]. rewrite wrap_small by (unfold is_word; lia). rewrite Hadd. split_and!.
    + right. split; [|lia]. intros x. upd_cases; [done|]. intros Hx. apply (Hnb x). by rewrite Hx.
    + intros _. exists t. rewrite upd_eq. by left.
    + intros x. upd_cases; [done|]. intros Hx. destruct (Hnb x). by rewrite Hx.
    + intros x. upd_cases; [done|]. intros Hx. destruct (Hnb x). by rewrite Hx.
Qed.

(** The thread in the counting code is the only one there. *)
Lemma busy_only s t x :
  bar_inv s -> busy (b_pc s t) -> x <> t -> ~ busy (b_pc s x).
Proof.
  intros I Hb Hx Hbx. apply Hx. apply (busy_unique s t x I); [by apply busy_holding|done].
Qed.

(** Waiters while nobody is opening the barrier are of the current generation. *)
Lemma qgen_keep s t p :
  bar_inv s -> opening (b_pc s t) = false ->
  forall x, x ∈ waiters EA (iv_list (b_fm s)) ->
    b_arr s x = b_gen s + 1 \/ exists t', opening (upd (b_pc s) t p t').
Proof.
  intros I Ho x Hx. destruct (bi_qgen _ I x Hx) as [|[t' Ht']]; [by left|]. right. exists t'.
  upd_cases; [by rewrite Ho in Ht'|done].
Qed.

Lemma b_test s t :
  bar_inv s -> t ∈ T -> b_pc s t = BTest -> exists s', bgo t s = Done (Some s') /\ bar_inv s'.
Proof.
  intros I Ht Hpc. unfold bgo. rewrite Hpc. eexists. split; [done|].
  pose proof (bi_place _ I t Ht) as Hpt. rewrite Hpc in Hpt. simpl in Hpt.
  destruct (bi_missing _ I) as (H1 & H2 & H3 & H4).
  assert (Hnb : forall x, x <> t -> ~ busy (b_pc s x)) by (intros; apply (busy_only s t); by rewrite ?Hpc).
  assert (H1' : iv_missing (b_bar s) = Z.of_nat (length T) - arrived (b_arr s) (b_gen s)).
  { destruct H1 as [[[x Hx] _]|[_ ?]]; [|done]. exfalso.
    apply (Hnb x); [intros ->; congruence|by rewrite Hx]. }
  pose proof (tally_bounds (fun t => b_arr s t =? b_gen s + 1) T) as Hb.
  change (tally _ T) with (arrived (b_arr s) (b_gen s)) in Hb.
  destruct (0 <? iv_missing (b_bar s)) eqn:E; b2p;
    (apply b_local; auto; rewrite ?Hpc; auto;
     [apply (bi_event _ I)|apply qgen_keep; [done|by rewrite Hpc]
     |intros x Hx; upd_cases; [done|by apply (bi_place _ I)]|]); split_and!.
  - right. split; [|done]. intros x. upd_cases; [done|]. intros Hx. apply (Hnb x); by rewrite ?Hx.
  - lia.
  - lia.
  - intros x. upd_cases; [done|]. intros Hx. destruct (Hnb x); by rewrite ?Hx.
  - right. split; [|done]. intros x. upd_cases; [done|]. intros Hx. apply (Hnb x); by rewrite ?Hx.
  - intros _. exists t. rewrite upd_eq. auto.
  - intros x. upd_cases; [done|]. intros Hx. destruct (Hnb x); by rewrite ?Hx.
  - intros x _. lia.
Qed.

Lemma b_read s t :
  bar_inv s -> t ∈ T -> b_pc s t = BRead -> exists s', bgo t s = Done (Some s') /\ bar_inv s'.
Proof.
  intros I Ht Hpc. unfold bgo. rewrite Hpc, (bi_rec _ I). cbn [negb]. eexists. split; [done|].
  pose proof (bi_place _ I t Ht) as Hpt. rewrite Hpc in Hpt. simpl in Hpt.
  destruct (bi_missing _ I) as (H1 & H2 & H3 & H4).
  assert (Hnb : forall x, x <> t -> ~ busy (b_pc s x)) by (intros; apply (busy_only s t); by rewrite ?Hpc).
  pose proof (H3 t Hpc) as Hpos.
  apply b_local; auto; rewrite ?Hpc; auto;
    [apply (bi_event _ I)|apply qgen_keep; [done|by rewrite Hpc]
    |intros x Hx; upd_cases; [|by apply (bi_place _ I)]|].
  - simpl. rewrite (bi_event _ I). tauto.
  - split_and!.
    + destruct H1 as [[_ [? _]]|[Hn ?]]; [lia|]. right. split; [|done]. intros x. upd_cases; [done|auto].
    + lia.
    + done.
    + intros x. upd_cases; [done|]. apply H4.
Qed.

(** The last thread opens the barrier: everybody has arrived. *)
Lemma b_incr s t :
  bar_inv s -> t ∈ T -> b_pc s t = BIncr -> exists s', bgo t s = Done (Some s') /\ bar_inv s'.
Proof.
  intros I Ht Hpc. unfold bgo. rewrite Hpc. eexists. split; [done|].
  destruct (bi_missing _ I) as (H1 & H2 & H3 & H4).
  assert (Hnb : forall x, x <> t -> ~ busy (b_pc s x)) by (intros; apply (busy_only s t); by rewrite ?Hpc).
  pose proof (H4 t Hpc) as Hm0.
  assert (Hall : forall x, x ∈ T -> b_arr s x = b_gen s + 1).
  { destruct H1 as [[[x Hx] _]|[_ Hm]].
    - exfalso. apply (Hnb x); [intros ->; congruence|by rewrite Hx].
    - intros x Hx. apply Z.eqb_eq. apply (tally_full (fun t => b_arr s t =? b_gen s + 1) T); [|done].
      unfold arrived in Hm. lia. }
  assert (Hhold : forall x, x <> t -> ~ holding (view (b_pc s x))).
  { intros x Hx Hh. apply Hx. eapply (mi_unique _ _ _ (bi_mutex _ I)); [done|by rewrite Hpc]. }
  assert (Hz : arrived (b_arr s) (b_gen s + 1) = 0).
  { apply tally_none. intros x Hx. rewrite Hall by done. apply Z.eqb_neq. lia. }
  apply b_local; auto; rewrite ?Hpc; auto.
  - cbn [iv_event]. rewrite (bi_event _ I). unfold wrap. apply Zplus_mod_idemp_l.
  - intros x Hx. right. exists t. by rewrite upd_eq.
  - intros x Hx. pose proof (Hall x Hx) as Hax. pose proof (bi_place _ I x Hx) as Hpx. upd_cases.
    + rewrite Hpc in Hpx. simpl in *. lia.
    + pose proof (Hhold x ltac:(done)) as Hh.
      destruct (b_pc s x) as [|[]| | | |[]| | | | | | |[]]; simpl in *; try lia;
        try (by destruct Hh); (split_and!; [left; lia|lia|]); destruct Hpx as (_ & _ & ->); f_equal; lia.
  - rewrite Hz. cbn [iv_missing]. split_and!.
    + left. split_and!; [|done|done]. exists t. by rewrite upd_eq.
    + intros _. exists t. rewrite upd_eq. auto.
    + intros x. upd_cases; [done|]. intros Hx. destruct (Hnb x); by rewrite ?Hx.
    + done.
Qed.

Lemma b_reset s t :
  bar_inv s -> t ∈ T -> b_pc s t = BReset -> exists s', bgo t s = Done (Some s') /\ bar_inv s'.
Proof.
  intros I Ht Hpc. unfold bgo. rewrite Hpc. eexists. split; [done|].
  destruct (bi_missing _ I) as (H1 & H2 & H3 & H4).
  pose proof (bi_place _ I t Ht) as Hpt. rewrite Hpc in Hpt. simpl in Hpt.
  assert (Hnb : forall x, x <> t -> ~ busy (b_pc s x)) by (intros; apply (busy_only s t); by rewrite ?Hpc).
  assert (Hn : arrived (b_arr s) (b_gen s) = 0).
  { destruct H1 as [[_ [_ ?]]|[Hn _]]; [done|]. by destruct (Hn t). }
  apply b_local; auto; rewrite ?Hpc; auto.
  - apply (bi_event _ I).
  - intros x Hx. right. exists t. by rewrite upd_eq.
  - intros x Hx. upd_cases; [done|by apply (bi_place _ I)].
  - rewrite Hn. cbn [iv_missing]. rewrite (bi_count _ I). split_and!.
    + right. split; [|lia]. intros x. upd_cases; [done|]. intros Hx. apply (Hnb x); by rewrite ?Hx.
    + lia.
    + lia.
    + intros x. upd_cases; [done|]. intros Hx. destruct (Hnb x); by rewrite ?Hx.
Qed.

Lemma bresume_blocked p : view p = MBlocked -> view (bresume p) = MRetry.
Proof. by destruct p as [|[]| | | |[]| | | | | | |[]]. Qed.

(** A step of [mutex_unlock] inside [barrier_wait]. *)
Lemma b_unlock s t u :
  bar_inv s -> t ∈ T -> view (b_pc s t) = view_upc u -> asleep (b_pc s t) = false ->
  busy (b_pc s t) = false -> opening (b_pc s t) = false ->
  exists v' fm' nx, unlock_step MA u (iv_val (iv_mutex (b_bar s))) (b_fm s) = Done (v', fm', nx) /\
  forall p ret', view p = match nx with Some u' => view_upc u' | None => MOut end ->
    asleep p = false -> busy p = false -> (forall x, x <> t -> ret' x = b_ret s x) ->
    place_ok p (b_arr s t) (ret' t) (b_gen s) ->
    bar_inv (mkBsys (bar_val (b_bar s) v') fm'
      (resume_all bresume (released (b_fm s) fm') (upd (b_pc s) t p)) (b_arr s) ret' (b_gen s)).
Proof.
  intros I Ht Hv Hs Hb Ho.
  destruct (unlock_step_inv t MA u _ _ _ bresume (bi_fm _ I) (bi_mutex _ I) Hv bresume_blocked)
    as (v' & fm' & nx & E & Hfi & (n & _ & Hrel & Hq) & Hoth & Hm).
  exists v', fm', nx. split; [done|]. intros p ret' Hp Hsp Hbp Hret Hpl.
  pose proof (waiters_nodup MA _ (bi_fm _ I)) as Hnd.
  rewrite <-(take_drop n (waiters MA _)) in Hnd. apply NoDup_app in Hnd as (Hnd & _ & _).
  assert (Hin : forall x, x ∈ released (b_fm s) fm' -> x ∈ waiters MA (iv_list (b_fm s))).
  { intros x. rewrite Hrel. intros Hx. rewrite <-(take_drop n (waiters MA _)). apply elem_of_app.
    by left. }
  apply b_assemble; auto; try bi_field I.
  - by rewrite Hrel.
  - intros x Hx. rewrite Hrel, Hq. apply elem_of_app. by rewrite take_drop.
  - intros x. rewrite (Hoth EA) by done. auto.
  - intros x. rewrite (Hoth EA) by done. intros Hx. split; [done|]. intros Hx2%Hin. apply MA_EA.
    by eapply waiters_disjoint; [apply (bi_fm _ I)| |].
  - intros a H1 H2. rewrite Hoth by done. by apply (bi_other _ I).
  - intros x. rewrite (Hoth EA) by done. by apply qgen_keep.
  - intros x Hx. upd_cases; [done|]. rewrite Hret by done. by apply (bi_place _ I).
  - eapply missing_ext; [|apply (bi_missing _ I)]. intros x. upd_cases; [right|by left].
    rewrite Hb, Hbp. split; intros [].
Qed.

Lemma b_unlock1 s t u e :
  bar_inv s -> t ∈ T -> b_pc s t = BUnlock1 u e -> exists s', bgo t s = Done (Some s') /\ bar_inv s'.
Proof.
  intros I Ht Hpc. pose proof (bi_place _ I t Ht) as Hpt. rewrite Hpc in Hpt. unfold bgo.
  destruct (b_unlock s t u I Ht) as (v' & fm' & nx & E & H); rewrite ?Hpc; auto.
  rewrite E. cbn [obind]. eexists. split; [done|]. apply H; auto; try by destruct nx.
  unfold unlock_step in E. destruct u; simplify_eq/=.
  - destruct (2 <=? _); [done|]. simpl. destruct Hpt as (-> & -> & ->). split_and!; [lia|lia|f_equal; lia].
  - destruct Hpt as (-> & -> & ->). split_and!; [lia|lia|f_equal; lia].
  - destruct (futex_wake _ _ _ _ _) as [[]|]; simplify_eq/=. done.
Qed.

Lemma b_unlock2 s t u :
  bar_inv s -> t ∈ T -> b_pc s t = BUnlock2 u -> exists s', bgo t s = Done (Some s') /\ bar_inv s'.
Proof.
  intros I Ht Hpc. pose proof (bi_place _ I t Ht) as Hpt. rewrite Hpc in Hpt. unfold bgo.
  destruct (b_unlock s t u I Ht) as (v' & fm' & nx & E & H); rewrite ?Hpc; auto.
  rewrite E. cbn [obind]. destruct nx; (eexists; split; [done|]); apply H; auto.
  - intros x Hx. by rewrite upd_ne.
  - simpl in *. rewrite upd_eq. lia.
Qed.

(** Going to sleep on [iv_event]. *)
Lemma b_wait s t e :
  bar_inv s -> t ∈ T -> b_pc s t = BWait e -> exists s', bgo t s = Done (Some s') /\ bar_inv s'.
Proof.
  intros I Ht Hpc. unfold bgo. rewrite Hpc.
  pose proof (bi_place _ I t Ht) as Hpt. rewrite Hpc in Hpt.
  destruct (b_running s t I ltac:(by rewrite Hpc)) as (Hs & Hqm & Hqe).
  assert (Htn : t <> NULL) by (by intros ->).
  pose proof (futex_wait_inv t EA e (iv_event (b_bar s)) _ (bi_fm _ I) Htn Hs) as Hfi.
  rewrite futex_wait_waiters in *. destruct (_ =? e) eqn:Ee; b2p; eexists; (split; [done|]).
  2:{ apply b_neutral; auto; by rewrite ?Hpc. }
  cbn [snd] in Hfi. change (0 =? 0) with true. cbn match.
  assert (Hgen : b_arr s t = b_gen s + 1).
  { destruct Hpt as ([Ha|Ha] & _ & Hu); [exfalso|done]. rewrite (bi_event _ I), Hu, Ha in Ee.
    unfold wrap in Ee. pose proof (Z_div_mod_eq_full (b_gen s) (2 ^ 64)).
    pose proof (Z_div_mod_eq_full (b_gen s - 1) (2 ^ 64)). lia. }
  split; simpl; auto; try bi_field I.
  - rewrite waiters_cons, decide_False by (simpl; congruence).
    apply mi_move; [apply (bi_mutex _ I)|by rewrite Hpc|by rewrite Hpc|done].
  - intros a H1 H2. rewrite waiters_cons, decide_False by (simpl; congruence).
    by apply (bi_other _ I).
  - intros x. rewrite waiters_cons, decide_False by (simpl; congruence). upd_cases; [done|].
    apply (bi_lblock _ I).
  - intros x e'. rewrite waiters_cons, decide_True by done. rewrite elem_of_cons.
    upd_cases; [by left|]. intros Hx. right. by eapply (bi_eblock _ I).
  - intros x. rewrite waiters_cons, decide_True by done. rewrite elem_of_cons.
    upd_cases; [by eexists|]. intros [|Hx]; [done|]. by apply (bi_queue _ I).
  - intros x. rewrite waiters_cons, decide_True by done. intros [->|Hx]%elem_of_cons; [by left|].
    apply qgen_keep; [done|by rewrite Hpc|done].
  - intros x Hx. upd_cases; [done|]. by apply (bi_place _ I).
  - intros x Hx. rewrite upd_ne by (by intros ->). by apply (bi_outside _ I).
  - eapply missing_ext; [|apply (bi_missing _ I)]. intros x. upd_cases; [right|by left].
    rewrite Hpc. split; intros [].
Qed.

(** Waking everybody: there are fewer tasks than [UINT64_MAX]. *)
Lemma b_wake s t :
  bar_inv s -> t ∈ T -> b_pc s t = BWake -> exists s', bgo t s = Done (Some s') /\ bar_inv s'.
Proof.
  intros I Ht Hpc. unfold bgo. rewrite Hpc.
  pose proof (bi_place _ I t Ht) as Hpt. rewrite Hpc in Hpt.
  destruct (futex_wake_only (b_fm s) EA (2 ^ 64 - 1) (bi_fm _ I)) as (fm' & -> & Hrd & Hd & Ho & Hfi).
  cbn [obind]. rewrite (bi_rec _ I). cbn [negb]. eexists. split; [done|].
  pose proof (waiters_nodup EA _ (bi_fm _ I)) as Hnd.
  assert (Hincl : forall x, x ∈ waiters EA (iv_list (b_fm s)) -> x ∈ T).
  { intros x Hx. apply (bi_queue _ I) in Hx as [e He].
    destruct (decide (x ∈ T)) as [|Hn]; [done|]. by rewrite (bi_outside _ I x Hn) in He. }
  assert (Hlen : Z.of_nat (length (waiters EA (iv_list (b_fm s)))) <= 2 ^ 64 - 1).
  { assert (length (waiters EA (iv_list (b_fm s))) <= length T)%nat; [|lia].
    apply submseteq_length, NoDup_submseteq; done. }
  assert (Hcap : capped (2 ^ 64 - 1) (waiters EA (iv_list (b_fm s))) =
                 length (waiters EA (iv_list (b_fm s)))) by (unfold capped; lia).
  rewrite Hcap, take_ge in Hrd by lia. rewrite Hcap, drop_ge in Hd by lia.
  rewrite (released_app _ _ _ Hrd).
  apply b_assemble; auto; rewrite ?Hpc; auto; try bi_field I.
  - intros x Hx. rewrite Ho by done. auto.
  - intros x. rewrite Hd. by intros ?%elem_of_nil.
  - intros a H1 H2. rewrite Ho by done. by apply (bi_other _ I).
  - rewrite Ho by done. apply mi_resume.
    + by intros [|[]| | | | | | | | | | |].
    + by intros [|[]| | | | | | | | | | |].
    + intros x Hx Hx2. apply MA_EA. by eapply waiters_disjoint; [apply (bi_fm _ I)| |].
    + apply mi_move; [apply (bi_mutex _ I)|by rewrite Hpc|by rewrite Hpc|].
      intros Hin. apply (mi_queue _ _ _ (bi_mutex _ I)) in Hin. by rewrite Hpc in Hin.
  - intros x. rewrite Hd. by intros ?%elem_of_nil.
  - intros x Hx. upd_cases; [done|]. by apply (bi_place _ I).
  - eapply missing_ext; [|apply (bi_missing _ I)]. intros x. upd_cases; [right|by left].
    rewrite Hpc. split; intros [].
Qed.

Lemma b_go s t :
  bar_inv s -> t ∈ T ->
  (asleep (b_pc s t) /\ bgo t s = Done None) \/ (exists s', bgo t s = Done (Some s') /\ bar_inv s').
Proof.
  intros I Ht. pose proof (bi_place _ I t Ht) as Hpt. destruct (b_pc s t) eqn:Hpc; rewrite ?Hpc in Hpt.
  - right. unfold bgo. rewrite Hpc, (bi_rec _ I). cbn [negb]. eexists. split; [done|].
    apply b_neutral; auto; by rewrite ?Hpc.
  - destruct (b_lock s t l I Ht Hpc) as (r & Hr & Hi).
    destruct l; [right|right|right|left; split; [done|]; unfold bgo; by rewrite Hpc];
      unfold bgo in *; rewrite Hpc in *; simpl in *; repeat case_match; simplify_eq; eauto.
  - right. by apply b_dec.
  - right. by apply b_test.
  - right. by apply b_read.
  - right. by eapply b_unlock1.
  - right. by eapply b_wait.
  - left. split; [done|]. unfold bgo. by rewrite Hpc.
  - right. unfold bgo. rewrite Hpc. destruct (_ =? e) eqn:E; b2p; (eexists; split; [done|]).
    + apply b_neutral; auto; by rewrite ?Hpc.
    + apply b_neutral; auto; rewrite ?Hpc; auto; [intros x Hx; by rewrite upd_ne|].
      rewrite upd_eq. simpl in *. destruct Hpt as ([Ha|Ha] & Hr & He); [lia|].
      exfalso. apply E. rewrite (bi_event _ I), He, Ha. f_equal. lia.
  - right. by apply b_incr.
  - right. by apply b_reset.
  - right. by apply b_wake.
  - right. by eapply b_unlock2.
Qed.

Lemma b_run sched s :
  bar_inv s -> exists r, brun sched s = Done r /\ (forall s', r = Some s' -> bar_inv s').
Proof.
  revert s. induction sched as [|t sched IH]; intros s I; cbn [brun].
  - eexists. split; [done|]. by intros s' [= <-].
  - unfold bstep. case_bool_decide as Ht; [|by eexists].
    destruct (b_go s t I Ht) as [[_ ->]|(s1 & -> & H1)]; cbn [obind]; [by eexists|auto].
Qed.

(** A thread's place pins its counts to the generation. *)
Lemma place_bounds p a r g : place_ok p a r g -> g <= a <= g + 1 /\ g - 1 <= r <= g /\ r <= a <= r + 1.
Proof. clear. destruct p as [|[]| | | |[]| | | | | | |[]]; simpl; lia. Qed.

(** Some thread runs as long as all are inside. *)
Lemma not_all_asleep s : bar_inv s -> exists t, t ∈ T /\ asleep (b_pc s t) = false.
Proof.
  intros I. destruct (decide (Exists (fun t => asleep (b_pc s t) = false) T)) as [H|H].
  { apply Exists_exists in H. naive_solver. }
  exfalso. assert (Ha : forall t, asleep (b_pc s t) \/ b_pc s t = BOut).
  { intros t. destruct (decide (t ∈ T)) as [Ht|Ht]; [left|right; by apply (bi_outside _ I)].
    destruct (asleep (b_pc s t)) eqn:E; [done|]. destruct H. apply Exists_exists. eauto. }
  assert (Hno : forall t, holding (view (b_pc s t)) = false /\ waking (view (b_pc s t)) = false).
  { intros t. destruct (Ha t) as [Ht| ->]; [|done]. by destruct (b_pc s t) as [|[]| | | |[]| | | | | | |[]]. }
  pose proof (mi_quiet _ _ _ (bi_mutex _ I) Hno) as Hq.
  assert (Hn : forall p, asleep p \/ p = BOut -> p <> BReset /\ ~ opening p /\
            ~ (p = BTest \/ p = BIncr \/ p = BReset)).
  { intros p [Hp| ->]; [|naive_solver]. destruct p; naive_solver. }
  assert (Harr : forall t, t ∈ T -> b_arr s t = b_gen s + 1).
  { intros t Ht. assert (Hs : asleep (b_pc s t)).
    { destruct (asleep (b_pc s t)) eqn:E; [done|]. destruct H. apply Exists_exists. eauto. }
    destruct (b_pc s t) as [|[]| | | | | |e| | | | |] eqn:Hpc; try done.
    - apply (bi_lblock _ I) in Hpc. rewrite Hq in Hpc. by apply elem_of_nil in Hpc.
    - apply (bi_eblock _ I) in Hpc. destruct (bi_qgen _ I t Hpc) as [|[t' Ht']]; [done|].
      destruct (Hn _ (Ha t')) as (_ & Hop & _). done. }
  destruct (bi_missing _ I) as ([[[t Ht] _]|[_ Hm]] & H2 & _).
  - by destruct (Hn _ (Ha t)).
  - destruct H2 as [t Ht]; [|by destruct (Hn _ (Ha t)) as (_ & _ & ?)].
    rewrite Hm. enough (arrived (b_arr s) (b_gen s) = Z.of_nat (length T)) by lia.
    unfold arrived. clear -Harr. induction T as [|x l IH]; [done|]. simpl.
    rewrite Harr, Z.eqb_refl, IH by (try intros; try apply Harr; by left || by right). lia.
Qed.
End machine.

(** ** Theorems *)

(** The premises: the threads the barrier is for, and where its words are. *)
Record barrier_setup (MA EA : Z) (T : list Z) : Prop := {
  bs_addr : MA <> EA;
  bs_nodup : NoDup T;
  bs_tasks : NULL ∉ T;
  bs_count : 0 < Z.of_nat (length T) < 2 ^ 64
}.

(** C4: the barrier holds threads back.  However the threads of a barrier
    interleave, round after round, no assertion fires, and no thread has
    returned from its k-th [barrier_wait] before every thread has arrived at
    its own k-th; nor is a thread ever more than one round ahead. *)
Theorem barrier_safe MA EA T sched :
  barrier_setup MA EA T ->
  exists r, brun MA EA T sched (bsys_init T) = Done r /\
    forall s t t', r = Some s -> t ∈ T -> t' ∈ T ->
      b_ret s t <= b_arr s t' /\ b_arr s t <= b_arr s t' + 1.
Proof.
  intros [H1 H2 H3 H4].
  destruct (b_run MA EA T H1 H2 H3 H4 sched (bsys_init T)) as (r & -> & Hr);
    [by apply bar_inv_init|].
  exists r. split; [done|]. intros s t t' Hs Ht Ht'. specialize (Hr s Hs).
  pose proof (place_bounds _ _ _ _ (bi_place _ _ _ _ Hr t Ht)).
  pose proof (place_bounds _ _ _ _ (bi_place _ _ _ _ Hr t' Ht')). lia.
Qed.

(** C5: the barrier lets threads through.  In every reachable state some thread
    that is not asleep can take a step; so when all threads are inside
    [barrier_wait] they are never stuck there. *)
Theorem barrier_progress MA EA T sched s :
  barrier_setup MA EA T -> brun MA EA T sched (bsys_init T) = Done (Some s) ->
  (forall t, t ∈ T -> b_pc s t <> BOut) ->
  exists t s', t ∈ T /\ b_pc s t <> BOut /\ bstep MA EA T t s = Done (Some s').
Proof.
  intros [H1 H2 H3 H4] Hrun Hin.
  destruct (b_run MA EA T H1 H2 H3 H4 sched (bsys_init T)) as (r & Hr & Hi); [by apply bar_inv_init|].
  rewrite Hrun in Hr. injection Hr as <-. specialize (Hi s eq_refl).
  edestruct (not_all_asleep MA EA T) as (t & Ht & Ha); [done..|exact Hi|].
  exists t. unfold bstep. rewrite bool_decide_true by done.
  destruct (b_go MA EA T H1 H2 H3 H4 s t Hi Ht) as [[Hb _]|(s' & Hg & _)]; [by rewrite Ha in Hb|].
  exists s'. split_and!; auto.
Qed.

Lemma sample_setup : barrier_setup 8 16 [1; 2].
Proof.
  split; [done| | |simpl; lia].
  - apply NoDup_cons. split; [|apply NoDup_singleton]. rewrite list_elem_of_singleton. done.
  - rewrite elem_of_cons, list_elem_of_singleton. intros [?|?]; done.
Qed.

(** Both threads inside: the first asleep, the second about to take the mutex. *)
Definition bsched_two : list Z := [1; 1; 1; 1; 1; 1; 1; 2].

Definition bstate_two : bsys :=
  match brun 8 16 [1; 2] bsched_two (bsys_init [1; 2]) with Done (Some s) => s | _ => bsys_init [] end.

Lemma barrier_safe_witness :
  exists r, brun 8 16 [1; 2] bsched_two (bsys_init [1; 2]) = Done r /\
    forall s t t', r = Some s -> t ∈ [1; 2] -> t' ∈ [1; 2] ->
      b_ret s t <= b_arr s t' /\ b_arr s t <= b_arr s t' + 1.
Proof. exact (barrier_safe 8 16 [1; 2] bsched_two sample_setup). Defined.

Lemma barrier_progress_witness :
  b_pc bstate_two 1 = BBlocked 0 /\
  exists t s', t ∈ [1; 2] /\ b_pc bstate_two t <> BOut /\
    bstep 8 16 [1; 2] t bstate_two = Done (Some s').
Proof.
  split; [reflexivity|].
  apply (barrier_progress 8 16 [1; 2] bsched_two bstate_two sample_setup); [reflexivity|].
  intros t Ht. apply elem_of_cons in Ht. destruct Ht as [Ht|Ht].
  - rewrite Ht. vm_compute. discriminate.
  - apply list_elem_of_singleton in Ht. rewrite Ht. vm_compute. discriminate.
Defined.
