(* ===== verification/PageMgr.v ===== *)
(** * The physical page allocator ([src/kernel/pagemgr.C])

    [PageManagerCore] is a buddy allocator: sixteen stacks of free blocks,
    bucket [b] holding blocks of [2^b] pages.  [PageManager] owns two of them,
    the main heap and a small reserve for the kernel.  Addresses are physical
    (below 2^64, so pointer arithmetic does not wrap); the counters keep their
    64-bit width.  A null pointer is [None]. *)

From S2P Require Import Prelude Containers.

(** ** Constants *)

Definition PAGESIZE : Z := 4096.
Definition BUCKETS : nat := 16.
Definition MAX_HEAP_RANGES : nat := 4.
Definition KERNEL_HEAP_RESERVED_PAGES : Z := 10.

(** [ALIGN_X(u,x)] for a power of two [x]: round up. *)
Definition ALIGN_X (u x : Z) : Z := Z.ldiff (u + (x - 1)) (x - 1).
Definition ALIGN_PAGE (u : Z) : Z := ALIGN_X u PAGESIZE.
(** [ALIGN_DOWN_X(u,PAGESIZE)]: round down. *)
Definition ALIGN_PAGE_DOWN (u : Z) : Z := u - u mod PAGESIZE.

(** ** [PageManagerCore] *)

(** [iv_heap] is the array of stacks, [iv_ranges] the registered
    (start, size in bytes) pairs, a start of 0 marking a free slot. *)
Record PageManagerCore : Type := mkCore {
  iv_available : Z;
  iv_supports_coalesce : bool;
  iv_heap : list (list Z);
  iv_ranges : list (Z * Z)
}.

Definition core_new (i_supports_coalesce : bool) : PageManagerCore :=
  mkCore 0 i_supports_coalesce (replicate BUCKETS []) (replicate MAX_HEAP_RANGES (0, 0)).

(** [iv_heap[n].push(p)] and [iv_heap[n].pop()] *)
Definition stack_push (n : nat) (p : Z) (h : list (list Z)) : list (list Z) :=
  alter (Stack.push p) n h.

Definition stack_pop (n : nat) (h : list (list Z)) : option Z * list (list Z) :=
  match h !! n with
  | Some s => let '(r, s') := Stack.pop s in (r, <[n := s']> h)
  | None => (None, h)
  end.

Definition push_bucket (i_p : Z) (i_n : nat) (h : list (list Z)) : list (list Z) :=
  if (BUCKETS <=? i_n)%nat then h else stack_push i_n i_p h.

(** The recursion on the next larger bucket; [fuel] counts the buckets left. *)
Fixpoint pop_bucket_rec (fuel : nat) (i_n : nat) (h : list (list Z))
    : option Z * list (list Z) :=
  match fuel with
  | O => (None, h)
  | S fuel =>
      if (BUCKETS <=? i_n)%nat then (None, h)
      else
        match stack_pop i_n h with
        | (Some p, h) => (Some p, h)
        | (None, h) =>
            match pop_bucket_rec fuel (S i_n) h with
            | (Some p, h) =>
                (Some p, push_bucket (p + PAGESIZE * 2 ^ Z.of_nat i_n) i_n h)
            | (None, h) => (None, h)
            end
        end
  end.

Definition pop_bucket (i_n : nat) (h : list (list Z)) : option Z * list (list Z) :=
  pop_bucket_rec (S BUCKETS) i_n h.

(** The inner [while] of [addMemory]: the largest bucket not above [page_length]
    whose block fits in [length]. *)
Fixpoint shrink_bucket (length : Z) (page_length : nat) : nat :=
  if length <? 2 ^ Z.of_nat page_length then
    match page_length with
    | O => O
    | S k => shrink_bucket length k
    end
  else page_length.

(** The outer [while] of [addMemory]; every round hands out at least a page. *)
Fixpoint addMemory_loop (fuel : nat) (length : Z) (page : Z) (page_length : nat)
    (h : list (list Z)) : list (list Z) :=
  match fuel with
  | O => h
  | S fuel =>
      if 0 <? length then
        let page_length := shrink_bucket length page_length in
        let h := stack_push page_length page h in
        addMemory_loop fuel (length - 2 ^ Z.of_nat page_length)
          (page + 2 ^ Z.of_nat page_length * PAGESIZE) page_length h
      else h
  end.

(** The loop over the range slots: take the first free one, assert the order. *)
Fixpoint register_range (i_addr bytes : Z) (ranges : list (Z * Z))
    : outcome (list (Z * Z)) :=
  match ranges with
  | [] => Done []
  | (first, second) :: rest =>
      if first =? 0 then Done ((i_addr, bytes) :: rest)
      else
        assert! (first <? i_addr);
        do rest' <- register_range i_addr bytes rest;
        Done ((first, second) :: rest')
  end.

Definition last_range_free (ranges : list (Z * Z)) : bool :=
  match last ranges with
  | Some (first, _) => first =? 0
  | None => false
  end.

Definition core_addMemory (i_addr i_pageCount : Z) (c : PageManagerCore)
    : outcome PageManagerCore :=
  let h := addMemory_loop (Z.to_nat i_pageCount) i_pageCount (ALIGN_PAGE i_addr)
             (BUCKETS - 1) (iv_heap c) in
  do ranges <-
    (if iv_supports_coalesce c then
       assert! (last_range_free (iv_ranges c));
       register_range i_addr (i_pageCount * PAGESIZE) (iv_ranges c)
     else Done (iv_ranges c));
  Done (mkCore (u64 (iv_available c + i_pageCount)) (iv_supports_coalesce c) h ranges).

(** [(sizeof(size_t)*8 - 1) - __builtin_clzl(n)] *)
Definition msb (n : Z) : nat := Z.to_nat (Z.log2 n).

(** The recursion peels the largest power of two off the count; each call
    clears the top bit of [i_pageCount], so 64 calls suffice. *)
Fixpoint freePage_rec (fuel : nat) (i_page i_pageCount : Z) (i_overAllocated : bool)
    (c : PageManagerCore) : PageManagerCore :=
  match fuel with
  | O => c
  | S fuel =>
      if i_pageCount =? 0 then c
      else
        let which_bucket := msb i_pageCount in
        let bucket_size := 2 ^ Z.of_nat which_bucket in
        let h := push_bucket
                   (i_page + (if i_overAllocated
                              then (i_pageCount - bucket_size) * PAGESIZE else 0))
                   which_bucket (iv_heap c) in
        let c := mkCore (u64 (iv_available c + bucket_size)) (iv_supports_coalesce c)
                   h (iv_ranges c) in
        if negb (bucket_size =? i_pageCount) then
          freePage_rec fuel
            (i_page + (if i_overAllocated then 0 else bucket_size * PAGESIZE))
            (i_pageCount - bucket_size) i_overAllocated c
        else c
  end.

Definition core_freePage (i_page : option Z) (i_pageCount : Z) (i_overAllocated : bool)
    (c : PageManagerCore) : PageManagerCore :=
  match i_page with
  | None => c
  | Some p => freePage_rec 64 p i_pageCount i_overAllocated c
  end.

(** [while ((page == NULL) && (retries < 6))] *)
Fixpoint pop_retry (retries : nat) (which_bucket : nat) (h : list (list Z))
    : option Z * list (list Z) :=
  match retries with
  | O => (None, h)
  | S k =>
      match pop_bucket which_bucket h with
      | (Some p, h) => (Some p, h)
      | (None, h) => pop_retry k which_bucket h
      end
  end.

Definition core_allocatePage (i_pageCount : Z) (c : PageManagerCore)
    : option Z * PageManagerCore :=
  let which_bucket := msb i_pageCount in
  let bucket_size := 2 ^ Z.of_nat which_bucket in
  let '(which_bucket, bucket_size) :=
    if negb (bucket_size =? i_pageCount)
    then (S which_bucket, bucket_size * 2) else (which_bucket, bucket_size) in
  match pop_retry 6 which_bucket (iv_heap c) with
  | (None, h) =>
      (None, mkCore (iv_available c) (iv_supports_coalesce c) h (iv_ranges c))
  | (Some page, h) =>
      let c := mkCore (u64 (iv_available c - bucket_size)) (iv_supports_coalesce c)
                 h (iv_ranges c) in
      (Some page,
       if negb (bucket_size =? i_pageCount) then
         core_freePage (Some (page + i_pageCount * PAGESIZE))
           (bucket_size - i_pageCount) true c
       else c)
  end.

(** The index of a block among the blocks of its size, counted from the start
    of the registered range that holds it; [None] when no range does. *)
Fixpoint range_index (addr : Z) (bucket : nat) (ranges : list (Z * Z)) : option Z :=
  match ranges with
  | [] => None
  | (first, second) :: rest =>
      if (first <=? addr) && (addr <? first + second)
      then Some ((addr - first) / (2 ^ Z.of_nat bucket * PAGESIZE))
      else range_index addr bucket rest
  end.

(** Pop a whole bucket into the priority queue. *)
Fixpoint drain (s : list Z) (pq : list Z) : list Z :=
  match s with
  | [] => pq
  | p :: s => drain s (PQueue.insert id p pq)
  end.

(** The [while] over the queue: merge even buddies with their successors. *)
Fixpoint coalesce_pq (fuel : nat) (bucket : nat) (ranges : list (Z * Z)) (pq : list Z)
    (h : list (list Z)) (count : Z) : outcome (list (list Z) * Z) :=
  match fuel with
  | O => Done (h, count)
  | S fuel =>
      match PQueue.remove pq with
      | (None, _) => Done (h, count)
      | (Some p, pq) =>
          match range_index p bucket ranges with
          | None => Crash KAssert
          | Some p_idx =>
              if negb (p_idx mod 2 =? 0) then
                coalesce_pq fuel bucket ranges pq (stack_push bucket p h) count
              else
                let p_seek := p + 2 ^ Z.of_nat bucket * PAGESIZE in
                match PQueue.remove_if id p_seek pq with
                | (Some p_next, pq) =>
                    if p_next =? p_seek then
                      coalesce_pq fuel bucket ranges pq
                        (push_bucket p (bucket + 1) h) (u64 (count + 1))
                    else
                      coalesce_pq fuel bucket ranges pq
                        (stack_push bucket p_next (stack_push bucket p h)) count
                | (None, pq) =>
                    coalesce_pq fuel bucket ranges pq (stack_push bucket p h) count
                end
          end
      end
  end.

(** One round of the [for] over the buckets. *)
Definition coalesce_bucket (ranges : list (Z * Z)) (bucket : nat)
    (hc : list (list Z) * Z) : outcome (list (list Z) * Z) :=
  let '(h, count) := hc in
  let s := default [] (h !! bucket) in
  let pq := drain s [] in
  coalesce_pq (S (length pq)) bucket ranges pq (<[bucket := []]> h) count.

Fixpoint coalesce_buckets (ranges : list (Z * Z)) (buckets : list nat)
    (hc : list (list Z) * Z) : outcome (list (list Z) * Z) :=
  match buckets with
  | [] => Done hc
  | b :: bs => do hc <- coalesce_bucket ranges b hc; coalesce_buckets ranges bs hc
  end.

(** [count] is the static [cv_coalesce_count]. *)
Definition core_coalesce (c : PageManagerCore) (count : Z)
    : outcome (PageManagerCore * Z) :=
  if negb (iv_supports_coalesce c) then Done (c, count)
  else
    do hc <- coalesce_buckets (iv_ranges c) (seq 0 (BUCKETS - 1)) (iv_heap c, count);
    Done (mkCore (iv_available c) (iv_supports_coalesce c) hc.1 (iv_ranges c), hc.2).

(** ** [PageManager] *)

(** The class and static counters; [pm_forced] is
    [CpuManager::cv_forcedMemPeriodic], which [_allocatePage] raises. *)
Record PageManager : Type := mkPageManager {
  iv_pagesAvail : Z;
  iv_pagesTotal : Z;
  pm_heap : PageManagerCore;
  pm_heapKernel : PageManagerCore;
  cv_low_page_count : Z;
  cv_coalesce_count : Z;
  pm_forced : bool
}.

(** What the boot loader data and the linker give [_initialize]. *)
Record mem_layout : Type := mkLayout {
  endPreservedOffset : Z;
  pageTableOffset : Z;
  endInitCache : Z;
  PTSIZE : Z;
  VMM_OCC_BOOTLOADER_SIZE : Z;
  hbCacheSizeBytes : Z
}.

Definition pm_initialize (l : mem_layout) : outcome PageManager :=
  let heap := core_new true in
  do heap1 <-
    (if 0 <? u64 (pageTableOffset l - endPreservedOffset l) then
       let pages := u64 (pageTableOffset l - endPreservedOffset l) / PAGESIZE in
       do h <- core_addMemory (endPreservedOffset l) pages heap; Done (h, pages)
     else Done (heap, 0));
  let '(heap, total) := heap1 in
  let endPageTable := pageTableOffset l + PTSIZE l in
  let pages := u64 (endInitCache l - endPageTable) / PAGESIZE in
  do heap <- core_addMemory endPageTable pages heap;
  let total := u64 (total + pages) in
  let endInit := endInitCache l + VMM_OCC_BOOTLOADER_SIZE l in
  let pages := u64 (hbCacheSizeBytes l - endInit) / PAGESIZE in
  do heap <- core_addMemory endInit pages heap;
  let total := u64 (total + pages) in
  let '(page, heap) := core_allocatePage KERNEL_HEAP_RESERVED_PAGES heap in
  do kernel <- core_addMemory (default 0 page) KERNEL_HEAP_RESERVED_PAGES (core_new false);
  Done (mkPageManager total total heap kernel total 0 false).

Definition pm_allocatePage (n : Z) (userspace allowOom : bool) (pm : PageManager)
    : outcome (option Z * PageManager) :=
  let '(page, heap) := core_allocatePage n (pm_heap pm) in
  let '(page, kernel, forced) :=
    match page with
    | None =>
        if negb userspace then
          let '(page, kernel) := core_allocatePage n (pm_heapKernel pm) in
          (page, kernel, true)
        else (None, pm_heapKernel pm, pm_forced pm)
    | Some p => (Some p, pm_heapKernel pm, pm_forced pm)
    end in
  match page with
  | None =>
      if negb userspace && negb allowOom then Crash KAssert
      else Done (None, mkPageManager (iv_pagesAvail pm) (iv_pagesTotal pm) heap kernel
                         (cv_low_page_count pm) (cv_coalesce_count pm) forced)
  | Some p =>
      let avail := u64 (iv_pagesAvail pm - n) in
      let low := if avail <? cv_low_page_count pm then avail else cv_low_page_count pm in
      Done (Some p, mkPageManager avail (iv_pagesTotal pm) heap kernel low
                      (cv_coalesce_count pm) forced)
  end.

Definition pm_freePage (p : option Z) (n : Z) (pm : PageManager) : outcome PageManager :=
  let heap := core_freePage p n false (pm_heap pm) in
  let avail := u64 (iv_pagesAvail pm + n) in
  let ks := iv_available (pm_heapKernel pm) in
  do hk <-
    (if ks <? KERNEL_HEAP_RESERVED_PAGES then
       match core_allocatePage 1 heap with
       | (Some page, heap) =>
           do kernel <- core_addMemory page 1 (pm_heapKernel pm); Done (heap, kernel)
       | (None, heap) => Done (heap, pm_heapKernel pm)
       end
     else Done (heap, pm_heapKernel pm));
  Done (mkPageManager avail (iv_pagesTotal pm) hk.1 hk.2 (cv_low_page_count pm)
          (cv_coalesce_count pm) (pm_forced pm)).

Definition pm_addMemory (i_addr i_pageCount : Z) (pm : PageManager) : outcome PageManager :=
  do heap <- core_addMemory i_addr i_pageCount (pm_heap pm);
  Done (mkPageManager (u64 (iv_pagesAvail pm + i_pageCount))
          (u64 (iv_pagesTotal pm + i_pageCount)) heap (pm_heapKernel pm)
          (cv_low_page_count pm) (cv_coalesce_count pm) (pm_forced pm)).

Definition pm_coalesce (pm : PageManager) : outcome PageManager :=
  do hc <- core_coalesce (pm_heap pm) (cv_coalesce_count pm);
  Done (mkPageManager (iv_pagesAvail pm) (iv_pagesTotal pm) hc.1 (pm_heapKernel pm)
          (cv_low_page_count pm) hc.2 (pm_forced pm)).

Definition queryAvail (pm : PageManager) : Z :=
  u64 (100 * iv_pagesAvail pm) / iv_pagesTotal pm.

Definition isSmallMemEnv (pm : PageManager) : bool := iv_pagesTotal pm <? 0xE00.

(** A memory map in the shape of the boot layout (one 8 MiB cache). *)
Definition sample_layout : mem_layout :=
  mkLayout 0x108000 0x140000 0x400000 0x40000 0x100000 0x800000.

Example init_runs :
  exists pm, pm_initialize sample_layout = Done pm
    /\ iv_available (pm_heapKernel pm) = 10
    /\ iv_pagesAvail pm = iv_available (pm_heap pm) + iv_available (pm_heapKernel pm).
Proof. eexists. split; [vm_compute; reflexivity|]. done. Qed.

(** ** What a heap holds: the free pages *)

(** The [n] pages from address [p] on. *)
Definition pages (p n : Z) : list Z := (fun i => p + i * PAGESIZE) <$> seqZ 0 n.

Definition block (b : nat) (p : Z) : list Z := pages p (2 ^ Z.of_nat b).
Definition bucket_pages (b : nat) (s : list Z) : list Z := concat (block b <$> s).

Fixpoint heap_pages_from (k : nat) (h : list (list Z)) : list Z :=
  match h with
  | [] => []
  | s :: h => bucket_pages k s ++ heap_pages_from (S k) h
  end.
Definition heap_pages (h : list (list Z)) : list Z := heap_pages_from 0 h.
Definition free_pages (c : PageManagerCore) : list Z := heap_pages (iv_heap c).

Lemma pages_app p n m :
  0 <= n -> 0 <= m -> pages p (n + m) = pages p n ++ pages (p + n * PAGESIZE) m.
Proof.
  intros. unfold pages. rewrite seqZ_app by done. rewrite fmap_app. f_equal.
  rewrite Z.add_0_l. rewrite <- (Z.add_0_r n) at 1. rewrite <- fmap_add_seqZ.
  rewrite <- list_fmap_compose. apply list_fmap_ext. intros ? x _. simpl. lia.
Qed.

Lemma pages_length p n : length (pages p n) = Z.to_nat n.
Proof. unfold pages. by rewrite length_fmap, length_seqZ. Qed.

Lemma elem_of_pages x p n :
  x ∈ pages p n <-> exists i, 0 <= i < n /\ x = p + i * PAGESIZE.
Proof.
  unfold pages. rewrite list_elem_of_fmap. split.
  - intros (i & -> & Hi%elem_of_seqZ). exists i. split; [lia|done].
  - intros (i & Hi & ->). exists i. split; [done|]. apply elem_of_seqZ. lia.
Qed.

Lemma block_S b p :
  block (S b) p = block b p ++ block b (p + PAGESIZE * 2 ^ Z.of_nat b).
Proof.
  unfold block. rewrite Nat2Z.inj_succ, Z.pow_succ_r by lia.
  replace (2 * 2 ^ Z.of_nat b) with (2 ^ Z.of_nat b + 2 ^ Z.of_nat b) by lia.
  rewrite pages_app by lia. do 2 f_equal. lia.
Qed.

Lemma heap_pages_update k h b s s' :
  h !! b = Some s ->
  heap_pages_from k (<[b := s']> h) ++ bucket_pages (k + b) s
  ≡ₚ heap_pages_from k h ++ bucket_pages (k + b) s'.
Proof.
  revert k b. induction h as [|x h IH]; intros k [|b] H; try discriminate; simpl in *.
  - injection H as ->. rewrite Nat.add_0_r. solve_Permutation.
  - specialize (IH (S k) b H).
    replace (k + S b)%nat with (S k + b)%nat by lia.
    rewrite <- !app_assoc, IH. done.
Qed.

Lemma bucket_pages_cons b p s : bucket_pages b (p :: s) = block b p ++ bucket_pages b s.
Proof. done. Qed.

Lemma stack_push_pages n p h :
  (n < length h)%nat -> heap_pages (stack_push n p h) ≡ₚ block n p ++ heap_pages h.
Proof.
  intros Hn. destruct (lookup_lt_is_Some_2 h n Hn) as [s Hs].
  unfold stack_push, heap_pages. 
  assert (alter (Stack.push p) n h = <[n := p :: s]> h) as ->.
  { apply list_eq. intros i. destruct (decide (i = n)) as [->|].
    - by rewrite list_lookup_alter_eq, Hs, list_lookup_insert_eq.
    - by rewrite list_lookup_alter_ne, list_lookup_insert_ne. }
  pose proof (heap_pages_update 0 h n s (p :: s) Hs) as E. simpl in E.
  rewrite bucket_pages_cons in E.
  apply (Permutation_app_inv_r (bucket_pages n s)). rewrite E. solve_Permutation.
Qed.

Lemma stack_push_length n p h : length (stack_push n p h) = length h.
Proof. apply length_alter. Qed.

Lemma push_bucket_length p n h : length (push_bucket p n h) = length h.
Proof. unfold push_bucket. destruct (_ <=? _)%nat; [done|apply stack_push_length]. Qed.

Lemma push_bucket_pages n p h :
  length h = BUCKETS -> (n < BUCKETS)%nat ->
  heap_pages (push_bucket p n h) ≡ₚ block n p ++ heap_pages h.
Proof.
  intros Hl Hn. unfold push_bucket. rewrite (proj2 (Nat.leb_gt _ _)) by done.
  apply stack_push_pages. lia.
Qed.

Lemma stack_pop_spec n h :
  (n < length h)%nat ->
  match stack_pop n h with
  | (Some p, h') => heap_pages h ≡ₚ block n p ++ heap_pages h' /\ length h' = length h
  | (None, h') => h' = h /\ h !! n = Some []
  end.
Proof.
  intros Hn. destruct (lookup_lt_is_Some_2 h n Hn) as [s Hs]. unfold stack_pop. rewrite Hs.
  destruct s as [|p s]; simpl.
  - split; [by apply list_insert_id|done].
  - rewrite length_insert. split; [|done].
    pose proof (heap_pages_update 0 h n (p :: s) s Hs) as E. simpl in E.
    rewrite bucket_pages_cons in E. unfold heap_pages.
    apply (Permutation_app_inv_r (bucket_pages n s)). rewrite <- E. solve_Permutation.
Qed.

Lemma pop_bucket_rec_spec fuel : forall n h,
  length h = BUCKETS -> (BUCKETS < n + fuel)%nat ->
  match pop_bucket_rec fuel n h with
  | (Some p, h') =>
      heap_pages h ≡ₚ block n p ++ heap_pages h' /\ length h' = BUCKETS /\ (n < BUCKETS)%nat
  | (None, h') => h' = h /\ forall m, (n <= m < BUCKETS)%nat -> h !! m = Some []
  end.
Proof.
  induction fuel as [|fuel IH]; intros n h Hl Hf; cbn [pop_bucket_rec].
  - split; [done|]. lia.
  - destruct (BUCKETS <=? n)%nat eqn:Hn; b2p; [split; [done|]; lia|].
    pose proof (stack_pop_spec n h ltac:(lia)) as Hp.
    destruct (stack_pop n h) as [[p|] h1].
    { destruct Hp as [Hp Hl1]. rewrite Hl1. done. }
    destruct Hp as [-> Hn0].
    specialize (IH (S n) h Hl ltac:(lia)).
    destruct (pop_bucket_rec fuel (S n) h) as [[p|] h2].
    + destruct IH as (IH & Hl2 & Hlt). rewrite push_bucket_length.
      split; [|split; [done|lia]].
      rewrite IH, block_S, push_bucket_pages by (done || lia). solve_Permutation.
    + destruct IH as [-> IH]. split; [done|]. intros m Hm.
      destruct (decide (m = n)) as [->|]; [done|]. apply IH. lia.
Qed.

Lemma pop_bucket_spec n h :
  length h = BUCKETS ->
  match pop_bucket n h with
  | (Some p, h') =>
      heap_pages h ≡ₚ block n p ++ heap_pages h' /\ length h' = BUCKETS /\ (n < BUCKETS)%nat
  | (None, h') => h' = h /\ forall m, (n <= m < BUCKETS)%nat -> h !! m = Some []
  end.
Proof. intros. apply pop_bucket_rec_spec; [done|]. unfold BUCKETS. lia. Qed.

Lemma pop_retry_spec k n h :
  length h = BUCKETS ->
  match pop_retry (S k) n h with
  | (Some p, h') =>
      heap_pages h ≡ₚ block n p ++ heap_pages h' /\ length h' = BUCKETS /\ (n < BUCKETS)%nat
  | (None, h') => h' = h /\ forall m, (n <= m < BUCKETS)%nat -> h !! m = Some []
  end.
Proof.
  intros Hl. induction k as [|k IH].
  - cbn [pop_retry]. pose proof (pop_bucket_spec n h Hl) as H.
    by destruct (pop_bucket n h) as [[p|] h'].
  - cbn [pop_retry]. pose proof (pop_bucket_spec n h Hl) as H.
    destruct (pop_bucket n h) as [[p|] h']; [done|]. destruct H as [-> H]. apply IH.
Qed.

(** ** Free, allocate, add *)

Lemma msb_spec n : 0 < n -> 2 ^ Z.of_nat (msb n) <= n < 2 * 2 ^ Z.of_nat (msb n).
Proof.
  intros Hn. unfold msb. pose proof (Z.log2_nonneg n). rewrite Z2Nat.id by done.
  pose proof (Z.log2_spec n Hn) as H1. rewrite Z.pow_succ_r in H1; lia.
Qed.

Lemma msb_lt n k : 0 < n < 2 ^ Z.of_nat k -> (msb n < k)%nat.
Proof.
  intros [H0 H1]. unfold msb. apply Z.log2_lt_pow2 in H1; [|done].
  pose proof (Z.log2_nonneg n). lia.
Qed.

Lemma u64_add_l x y : u64 (u64 x + y) = u64 (x + y).
Proof. unfold wrap. by rewrite Zplus_mod_idemp_l. Qed.

Lemma u64_sub_l x y : u64 (u64 x - y) = u64 (x - y).
Proof. unfold wrap. by rewrite Zminus_mod_idemp_l. Qed.

(** The fields the page operations leave alone. *)
Definition same_config (c c' : PageManagerCore) : Prop :=
  iv_supports_coalesce c' = iv_supports_coalesce c /\ iv_ranges c' = iv_ranges c.

Lemma freePage_rec_spec fuel : forall p n over c,
  0 <= n < 2 ^ Z.of_nat BUCKETS -> n < 2 ^ Z.of_nat fuel -> length (iv_heap c) = BUCKETS ->
  free_pages (freePage_rec fuel p n over c) ≡ₚ pages p n ++ free_pages c /\
  (n <> 0 -> iv_available (freePage_rec fuel p n over c) = u64 (iv_available c + n)) /\
  length (iv_heap (freePage_rec fuel p n over c)) = BUCKETS /\
  same_config c (freePage_rec fuel p n over c).
Proof.
  induction fuel as [|fuel IH]; intros p n over c Hn Hf Hl; cbn [freePage_rec].
  - assert (n = 0) as -> by (simpl in Hf; lia). by repeat split.
  - destruct (n =? 0) eqn:E0; b2p; [subst; by repeat split|].
    assert (0 < n) as Hpos by lia. pose proof (msb_spec n Hpos) as Hm.
    pose proof (msb_lt n BUCKETS ltac:(lia)) as Hb.
    set (b := msb n) in *. set (sz := 2 ^ Z.of_nat b) in *.
    match goal with |- context [mkCore ?a ?s ?h ?r] => set (c1 := mkCore a s h r) end.
    assert (length (iv_heap c1) = BUCKETS) as Hl1
      by (unfold c1; cbn [iv_heap]; by rewrite push_bucket_length).
    assert (free_pages c1 ≡ₚ
      block b (p + (if over then (n - sz) * PAGESIZE else 0)) ++ free_pages c) as Hp1
      by (unfold c1, free_pages; cbn [iv_heap]; by apply push_bucket_pages).
    destruct (sz =? n) eqn:E1; b2p; cbn [negb].
    + rewrite Hp1, E1, Z.sub_diag. replace (if over then 0 * PAGESIZE else 0) with 0
        by (by destruct over). rewrite Z.add_0_r. unfold block. fold sz. rewrite E1.
      repeat split; auto. unfold c1. cbn [iv_available]. by rewrite E1.
    + assert (n - sz < 2 ^ Z.of_nat fuel) as Hf'.
      { pose proof (msb_lt n (S fuel) ltac:(lia)) as Hb2. fold b in Hb2.
        assert (sz <= 2 ^ Z.of_nat fuel) by (apply Z.pow_le_mono_r; lia). lia. }
      specialize (IH (p + (if over then 0 else sz * PAGESIZE)) (n - sz) over c1
        ltac:(lia) Hf' Hl1) as (IH1 & IH2 & IH3 & IH4 & IH5).
      split; [|split; [|split; [done|by split]]].
      * rewrite IH1, Hp1. destruct over.
        -- replace n with ((n - sz) + sz) at 3 by lia.
           rewrite Z.add_0_r, pages_app by lia. unfold block. fold sz. solve_Permutation.
        -- replace n with (sz + (n - sz)) at 2 by lia.
           rewrite Z.add_0_r, pages_app by lia. unfold block. fold sz. solve_Permutation.
      * intros _. rewrite IH2 by lia. unfold c1. cbn [iv_available].
        rewrite u64_add_l. f_equal. lia.
Qed.

Lemma core_freePage_spec p n over c :
  0 < n < 2 ^ Z.of_nat BUCKETS -> length (iv_heap c) = BUCKETS ->
  free_pages (core_freePage (Some p) n over c) ≡ₚ pages p n ++ free_pages c /\
  iv_available (core_freePage (Some p) n over c) = u64 (iv_available c + n) /\
  length (iv_heap (core_freePage (Some p) n over c)) = BUCKETS /\
  same_config c (core_freePage (Some p) n over c).
Proof.
  intros Hn Hl. unfold core_freePage.
  assert (2 ^ Z.of_nat BUCKETS <= 2 ^ Z.of_nat 64)
    by (apply Z.pow_le_mono_r; unfold BUCKETS; lia).
  destruct (freePage_rec_spec 64 p n over c) as (H1 & H2 & H3 & H4);
    [lia|lia|done|]. repeat split; try apply H4; auto. apply H2. lia.
Qed.

(** The bucket and block size [allocatePage] asks for. *)
Definition fit (n : Z) : nat := if 2 ^ Z.of_nat (msb n) =? n then msb n else S (msb n).

Lemma fit_spec n : 0 < n -> n <= 2 ^ Z.of_nat (fit n) < 2 * n.
Proof.
  intros Hn. pose proof (msb_spec n Hn). unfold fit.
  destruct (_ =? _) eqn:E; b2p; [lia|]. rewrite Nat2Z.inj_succ, Z.pow_succ_r by lia. lia.
Qed.

Lemma core_allocatePage_spec n c :
  0 < n -> length (iv_heap c) = BUCKETS ->
  match core_allocatePage n c with
  | (Some p, c') =>
      free_pages c ≡ₚ pages p n ++ free_pages c' /\
      iv_available c' = u64 (iv_available c - n) /\
      length (iv_heap c') = BUCKETS /\ same_config c c'
  | (None, c') =>
      c' = c /\ forall m, (fit n <= m < BUCKETS)%nat -> iv_heap c !! m = Some []
  end.
Proof.
  intros Hn Hl. unfold core_allocatePage. pose proof (fit_spec n Hn) as Hfit.
  assert ((if negb (2 ^ Z.of_nat (msb n) =? n)
           then (S (msb n), 2 ^ Z.of_nat (msb n) * 2)
           else (msb n, 2 ^ Z.of_nat (msb n))) = (fit n, 2 ^ Z.of_nat (fit n))) as ->.
  { unfold fit. destruct (_ =? _); cbn [negb]; [done|].
    f_equal. rewrite Nat2Z.inj_succ, Z.pow_succ_r by lia. lia. }
  pose proof (pop_retry_spec 5 (fit n) (iv_heap c) Hl) as Hp.
  destruct (pop_retry 6 (fit n) (iv_heap c)) as [[p|] h].
  - destruct Hp as (Hp & Hlh & Hb).
    assert (2 ^ Z.of_nat (fit n) < 2 ^ Z.of_nat BUCKETS) by (apply Z.pow_lt_mono_r; lia).
    match goal with |- context [mkCore ?a ?s ?h ?r] => set (c1 := mkCore a s h r) end.
    destruct (2 ^ Z.of_nat (fit n) =? n) eqn:E; b2p; cbn [negb].
    + unfold free_pages. rewrite Hp. unfold block. rewrite E.
      repeat split; auto. unfold c1. cbn [iv_available]. by rewrite E.
    + destruct (core_freePage_spec (p + n * PAGESIZE) (2 ^ Z.of_nat (fit n) - n) true c1)
        as (F1 & F2 & F3 & F4 & F5); [lia|done|].
      split; [|split; [|split; [done|by split]]].
      * rewrite F1. unfold free_pages at 1. rewrite Hp. unfold block.
        replace (2 ^ Z.of_nat (fit n)) with (n + (2 ^ Z.of_nat (fit n) - n)) at 1 by lia.
        rewrite pages_app by lia. by rewrite <- app_assoc.
      * rewrite F2. unfold c1. cbn [iv_available]. rewrite u64_add_l. f_equal. lia.
  - destruct Hp as [-> Hp]. split; [by destruct c|done].
Qed.

Lemma shrink_bucket_spec l k :
  0 < l -> 2 ^ Z.of_nat (shrink_bucket l k) <= l /\ (shrink_bucket l k <= k)%nat.
Proof.
  intros Hl. induction k as [|k IH]; cbn [shrink_bucket];
    destruct (_ <? _) eqn:E; b2p; simpl in *; lia.
Qed.

Lemma addMemory_loop_spec fuel : forall len page k h,
  len <= Z.of_nat fuel -> length h = BUCKETS -> (k < BUCKETS)%nat -> 0 <= len ->
  heap_pages (addMemory_loop fuel len page k h) ≡ₚ pages page len ++ heap_pages h /\
  length (addMemory_loop fuel len page k h) = BUCKETS.
Proof.
  induction fuel as [|fuel IH]; intros len page k h Hf Hl Hk H0; cbn [addMemory_loop].
  - assert (len = 0) as -> by lia. done.
  - destruct (0 <? len) eqn:E; b2p; [|assert (len = 0) as -> by lia; done].
    destruct (shrink_bucket_spec len k E) as [Hs1 Hs2].
    set (b := shrink_bucket len k) in *. set (sz := 2 ^ Z.of_nat b) in *.
    assert (0 < sz) by (unfold sz; lia).
    destruct (IH (len - sz) (page + sz * PAGESIZE) b (stack_push b page h)) as [IH1 IH2];
      [lia|by rewrite stack_push_length|lia|lia|].
    split; [|done]. rewrite IH1, stack_push_pages by lia.
    replace len with (sz + (len - sz)) at 2 by lia.
    rewrite pages_app by lia. unfold block. fold sz. solve_Permutation.
Qed.

(** ** Coalescing *)

Definition in_ranges (ranges : list (Z * Z)) (p : Z) : Prop :=
  Exists (fun r => r.1 <= p < r.1 + r.2) ranges.

Lemma range_index_found p b ranges : in_ranges ranges p -> is_Some (range_index p b ranges).
Proof.
  induction 1 as [[f s] rs H|[f s] rs H IH]; simpl in *.
  - rewrite (proj2 (Z.leb_le _ _)), (proj2 (Z.ltb_lt _ _)) by lia. by eexists.
  - destruct (_ && _); [by eexists|done].
Qed.

Lemma drain_perm s : forall pq, drain s pq ≡ₚ s ++ pq.
Proof.
  induction s as [|p s IH]; intros pq; simpl; [done|].
  rewrite IH, PQueue.insert_perm. solve_Permutation.
Qed.

Lemma drain_ordered s : forall pq, PQueue.ordered id pq -> PQueue.ordered id (drain s pq).
Proof. induction s; intros pq H; simpl; [done|]. by apply IHs, PQueue.insert_ordered. Qed.

#[global] Instance bucket_pages_perm b : Proper ((≡ₚ) ==> (≡ₚ)) (bucket_pages b).
Proof.
  intros s1 s2 H. unfold bucket_pages.
  induction H as [|x s1 s2 _ IH|x y s|s1 s2 s3 _ IH1 _ IH2]; simpl.
  - done.
  - by rewrite IH.
  - rewrite !app_assoc. apply Permutation_app_tail, Permutation_app_comm.
  - by rewrite IH1.
Qed.

Lemma bucket_pages_app b s1 s2 :
  bucket_pages b (s1 ++ s2) = bucket_pages b s1 ++ bucket_pages b s2.
Proof. unfold bucket_pages. by rewrite fmap_app, concat_app. Qed.

(** A block start is one of its pages. *)
Lemma block_start b p : p ∈ block b p.
Proof. apply elem_of_pages. exists 0. split; lia. Qed.

Lemma bucket_start b p s : p ∈ s -> p ∈ bucket_pages b s.
Proof.
  intros Hin. unfold bucket_pages. apply list_elem_of_In, in_concat.
  exists (block b p). rewrite <- !list_elem_of_In. split; [|apply block_start].
  apply list_elem_of_fmap. eauto.
Qed.

Lemma remove_if_spec k q :
  match PQueue.remove_if id k q with
  | (Some y, q') => q = q' ++ [y] /\ y <= k
  | (None, q') => q' = q /\ (PQueue.ordered id q -> k ∉ q)
  end.
Proof.
  unfold PQueue.remove_if. destruct (last q) as [y|] eqn:E.
  - apply PQueue.last_removelast in E. destruct (_ <=? _) eqn:L; b2p; [done|].
    split; [done|]. intros Ho Hin. rewrite E in Ho, Hin.
    apply PQueue.ordered_app_last in Ho as [_ Hf]. rewrite Forall_forall in Hf.
    unfold id in *. apply elem_of_app in Hin as [Hin|Hin].
    + specialize (Hf _ Hin). simpl in *. lia.
    + apply list_elem_of_singleton in Hin. lia.
  - apply last_None in E. subst. split; [done|]. set_solver.
Qed.

(** The loop over the queue keeps the pages: what was queued goes back to the
    bucket or, merged, to the next one; it does not stop when every block is in
    a registered range. *)
Lemma coalesce_pq_pages fuel : forall b ranges pq h n,
  (length pq < fuel)%nat -> length h = BUCKETS -> (b + 1 < BUCKETS)%nat ->
  Forall (in_ranges ranges) pq ->
  exists h' n', coalesce_pq fuel b ranges pq h n = Done (h', n') /\
    heap_pages h' ≡ₚ bucket_pages b pq ++ heap_pages h /\ length h' = BUCKETS.
Proof.
  induction fuel as [|fuel IH]; intros b ranges pq h n Hf Hl Hb Hr; [lia|].
  cbn [coalesce_pq]. pose proof (PQueue.remove_spec pq) as Hrm.
  destruct (PQueue.remove pq) as [[p|] q]; [|destruct Hrm as [-> ->]; eauto 10].
  subst pq. rewrite length_app in Hf. simpl in Hf. apply Forall_app in Hr as [Hrq Hrp].
  inversion Hrp; subst. destruct (range_index_found p b ranges) as [i ->]; [done|].
  assert (forall h1 n1, length h1 = BUCKETS ->
    heap_pages h1 ≡ₚ block b p ++ heap_pages h ->
    exists h' n', coalesce_pq fuel b ranges q h1 n1 = Done (h', n') /\
      heap_pages h' ≡ₚ bucket_pages b (q ++ [p]) ++ heap_pages h /\ length h' = BUCKETS) as G.
  { intros h1 n1 Hl1 Hp1. destruct (IH b ranges q h1 n1) as (h' & n' & E & Hp & Hl');
      try done; [lia|]. exists h', n'. split; [done|]. split; [|done].
    rewrite Hp, Hp1, bucket_pages_app. simpl. unfold bucket_pages at 3. simpl.
    rewrite app_nil_r. by rewrite <- app_assoc. }
  destruct (negb (i mod 2 =? 0)).
  { apply G; [by rewrite stack_push_length|apply stack_push_pages; lia]. }
  cbv zeta. pose proof (remove_if_spec (p + 2 ^ Z.of_nat b * PAGESIZE) q) as Hri.
  destruct (PQueue.remove_if _ _ q) as [[y|] q'].
  - destruct Hri as [-> _]. apply Forall_app in Hrq as [Hrq Hry].
    rewrite length_app in Hf. simpl in Hf.
    assert (forall h1 n1, length h1 = BUCKETS ->
      heap_pages h1 ≡ₚ block b p ++ block b y ++ heap_pages h ->
      exists h' n', coalesce_pq fuel b ranges q' h1 n1 = Done (h', n') /\
        heap_pages h' ≡ₚ bucket_pages b ((q' ++ [y]) ++ [p]) ++ heap_pages h /\
        length h' = BUCKETS) as G2.
    { intros h1 n1 Hl1 Hp1. destruct (IH b ranges q' h1 n1) as (h' & n' & E & Hp & Hl');
        try done; [lia|]. exists h', n'. split; [done|]. split; [|done].
      rewrite Hp, Hp1, !bucket_pages_app. unfold bucket_pages at 3 4. simpl.
      rewrite !app_nil_r. solve_Permutation. }
    destruct (y =? _) eqn:Ey; b2p.
    + apply G2; [by rewrite push_bucket_length|].
      rewrite push_bucket_pages by (done || lia). subst y.
      replace (b + 1)%nat with (S b) by lia. rewrite block_S, <- app_assoc.
      by rewrite (Z.mul_comm PAGESIZE).
    + apply G2; [by rewrite !stack_push_length|].
      rewrite !stack_push_pages by (rewrite ?stack_push_length; lia). solve_Permutation.
  - destruct Hri as [-> _]. apply G; [by rewrite stack_push_length|apply stack_push_pages; lia].
Qed.

(** No even block of the stack has its buddy in the stack. *)
Definition no_buddies (ranges : list (Z * Z)) (b : nat) (s : list Z) : Prop :=
  forall p i, p ∈ s -> range_index p b ranges = Some i -> i mod 2 = 0 ->
  p + 2 ^ Z.of_nat b * PAGESIZE ∉ s.

Lemma stack_push_lookup n p h m :
  stack_push n p h !! m = if decide (m = n) then (cons p) <$> h !! m else h !! m.
Proof.
  unfold stack_push. case_decide as E; [subst|].
  - by rewrite list_lookup_alter_eq.
  - by rewrite list_lookup_alter_ne.
Qed.

Lemma push_bucket_lookup n p h m :
  m <> n -> push_bucket p n h !! m = h !! m.
Proof.
  intros. unfold push_bucket. destruct (_ <=? _)%nat; [done|].
  rewrite stack_push_lookup. by rewrite decide_False.
Qed.

(** Pages of one block are the only page-aligned addresses inside it. *)
Lemma inside_block b p y :
  p mod PAGESIZE = 0 -> y mod PAGESIZE = 0 -> p <= y < p + 2 ^ Z.of_nat b * PAGESIZE ->
  y ∈ block b p.
Proof.
  intros Hp Hy Hr. apply elem_of_pages. unfold PAGESIZE in *.
  exists ((y - p) / 4096). Z.div_mod_to_equations. nia.
Qed.

Lemma coalesce_pq_buddies fuel : forall b ranges pq h s n h' n',
  (length pq < fuel)%nat -> (b + 1 < BUCKETS)%nat ->
  PQueue.ordered id pq -> NoDup (bucket_pages b pq) ->
  Forall (fun p => p mod PAGESIZE = 0) pq ->
  h !! b = Some s -> no_buddies ranges b s ->
  (forall p q, p ∈ s -> q ∈ pq -> p < q) ->
  (forall p i, p ∈ s -> range_index p b ranges = Some i -> i mod 2 = 0 ->
     p + 2 ^ Z.of_nat b * PAGESIZE ∉ pq) ->
  coalesce_pq fuel b ranges pq h n = Done (h', n') ->
  (exists s', h' !! b = Some s' /\ no_buddies ranges b s') /\
  (forall m, m <> b -> m <> (b + 1)%nat -> h' !! m = h !! m).
Proof.
  induction fuel as [|fuel IH];
    intros b ranges pq h s n h' n' Hf Hb Ho Hnd Hal Hs Hnb Hlt Hdis E; [lia|].
  cbn [coalesce_pq] in E. pose proof (PQueue.remove_spec pq) as Hrm.
  destruct (PQueue.remove pq) as [[p|] q];
    [|destruct Hrm as [-> ->]; injection E as <- <-; eauto].
  subst pq. rewrite length_app in Hf. simpl in Hf.
  apply PQueue.ordered_app_last in Ho as [Ho Hle].
  apply Forall_app in Hal as [Halq Halp]. inversion Halp as [|? ? Hpa _]; subst.
  rewrite bucket_pages_app in Hnd. apply NoDup_app in Hnd as (Hndq & Hdj & Hndp).
  assert (forall y, y ∈ q -> y ∉ block b p) as Hout.
  { intros y Hy Hin. apply (Hdj y); [by apply bucket_start|].
    unfold bucket_pages. simpl. by rewrite app_nil_r. }
  assert (forall y, y ∈ q -> p + 2 ^ Z.of_nat b * PAGESIZE <= y) as Hge.
  { intros y Hy. apply Z.nlt_ge. intros Hc. apply (Hout y Hy).
    rewrite Forall_forall in Hle, Halq. specialize (Hle y Hy). specialize (Halq y Hy).
    apply inside_block; [done|done|]. unfold id in Hle. lia. }
  assert (0 < 2 ^ Z.of_nat b * PAGESIZE) as Hsz by (unfold PAGESIZE; lia).
  set (sz := 2 ^ Z.of_nat b * PAGESIZE) in *.
  destruct (range_index p b ranges) as [i|] eqn:Hi; [|discriminate].
  (* pushing p back when its buddy cannot follow *)
  assert (forall q1 n1, q1 = q -> (i mod 2 = 0 -> p + sz ∉ q) ->
    coalesce_pq fuel b ranges q1 (stack_push b p h) n1 = Done (h', n') ->
    (exists s', h' !! b = Some s' /\ no_buddies ranges b s') /\
    (forall m, m <> b -> m <> (b + 1)%nat -> h' !! m = h !! m)) as G.
  { intros q1 n1 -> Hnext E1.
    destruct (IH b ranges q (stack_push b p h) (p :: s) n1 h' n') as [H1 H2]; auto; try lia.
    - rewrite stack_push_lookup, decide_True by done. by rewrite Hs.
    - intros p1 i1 [->|Hp1]%elem_of_cons Hi1 Hm1.
      + rewrite not_elem_of_cons. split; [fold sz; lia|]. intros Hin.
        specialize (Hlt _ p Hin ltac:(set_solver)). fold sz in Hlt. lia.
      + rewrite not_elem_of_cons. split; [|eauto]. intros Heq.
        apply (Hdis p1 i1 Hp1 Hi1 Hm1). fold sz. fold sz in Heq. rewrite Heq. set_solver.
    - intros p1 y [->|Hp1]%elem_of_cons Hy; [specialize (Hge y Hy); lia|].
      apply Hlt; set_solver.
    - intros p1 i1 [->|Hp1]%elem_of_cons Hi1 Hm1; fold sz.
      + apply Hnext. congruence.
      + intros Hin. apply (Hdis p1 i1 Hp1 Hi1 Hm1). fold sz. set_solver.
    - split; [done|]. intros m Hm1 Hm2. rewrite H2 by done.
      rewrite stack_push_lookup. by rewrite decide_False. }
  destruct (i mod 2 =? 0) eqn:Hev; b2p; cbn [negb] in E; [|by eapply G].
  cbv zeta in E. fold sz in E. pose proof (remove_if_spec (p + sz) q) as Hri.
  destruct (PQueue.remove_if _ _ q) as [[y|] q'].
  - destruct Hri as [-> Hy]. assert (y = p + sz) as -> by
      (specialize (Hge y ltac:(set_solver)); lia).
    rewrite Z.eqb_refl in E. apply PQueue.ordered_app_last in Ho as [Ho' _].
    rewrite length_app in Hf. simpl in Hf. rewrite bucket_pages_app in Hndq.
    apply NoDup_app in Hndq as (Hndq & _ & _). apply Forall_app in Halq as [Halq _].
    destruct (IH b ranges q' (push_bucket p (b + 1) h) s (u64 (n + 1)) h' n')
      as [H1 H2]; auto; try lia.
    + rewrite push_bucket_lookup by lia. done.
    + intros p1 y1 Hp1 Hy1. apply Hlt; set_solver.
    + intros p1 i1 Hp1 Hi1 Hm1 Hin. apply (Hdis p1 i1 Hp1 Hi1 Hm1). set_solver.
    + split; [done|]. intros m Hm1 Hm2. rewrite H2 by done. by apply push_bucket_lookup.
  - destruct Hri as [-> Hri]. eapply G; eauto.
Qed.

Definition page_aligned (p : Z) : Prop := p mod PAGESIZE = 0.

(** What coalescing needs of a heap. *)
Record heap_sound (ranges : list (Z * Z)) (h : list (list Z)) : Prop := {
  hs_length : length h = BUCKETS;
  hs_nodup : NoDup (heap_pages h);
  hs_aligned : Forall page_aligned (heap_pages h);
  hs_ranges : Forall (in_ranges ranges) (heap_pages h)
}.

Lemma heap_sound_perm ranges h h' :
  heap_pages h' ≡ₚ heap_pages h -> length h' = BUCKETS ->
  heap_sound ranges h -> heap_sound ranges h'.
Proof. intros Hp Hl []. split; [done|..]; by rewrite Hp. Qed.

Lemma heap_pages_clear h b s :
  h !! b = Some s -> heap_pages h ≡ₚ bucket_pages b s ++ heap_pages (<[b := []]> h).
Proof.
  intros Hs. pose proof (heap_pages_update 0 h b s [] Hs) as E. simpl in E.
  unfold bucket_pages at 2 in E. simpl in E. rewrite app_nil_r in E.
  unfold heap_pages. rewrite <- E. apply Permutation_app_comm.
Qed.

Lemma Forall_starts (P : Z -> Prop) b s :
  Forall P (bucket_pages b s) -> Forall P s.
Proof. rewrite !Forall_forall. intros H x Hx. by apply H, bucket_start. Qed.

Lemma coalesce_bucket_spec ranges b h n :
  (b + 1 < BUCKETS)%nat -> heap_sound ranges h ->
  exists h' n', coalesce_bucket ranges b (h, n) = Done (h', n') /\
    heap_pages h' ≡ₚ heap_pages h /\ length h' = BUCKETS /\
    (exists s', h' !! b = Some s' /\ no_buddies ranges b s') /\
    (forall m, m <> b -> m <> (b + 1)%nat -> h' !! m = h !! m).
Proof.
  intros Hb [Hl Hnd Hal Hr]. unfold coalesce_bucket.
  destruct (lookup_lt_is_Some_2 h b) as [s Hs]; [lia|]. rewrite Hs. simpl default.
  pose proof (heap_pages_clear h b s Hs) as Hc. rewrite Hc in Hnd, Hal, Hr.
  apply NoDup_app in Hnd as (Hnd & _ & _). apply Forall_app in Hal as [Hal _].
  apply Forall_app in Hr as [Hr _].
  pose proof (drain_perm s []) as Hd. rewrite app_nil_r in Hd.
  set (pq := drain s []) in *.
  assert (Forall (in_ranges ranges) pq) as Hrq by (rewrite Hd; by eapply Forall_starts).
  destruct (coalesce_pq_pages (S (length pq)) b ranges pq (<[b := []]> h) n)
    as (h' & n' & E & Hp & Hl'); [lia|by rewrite length_insert|done|done|].
  exists h', n'. split; [done|]. split; [by rewrite Hp, Hd, <- Hc|]. split; [done|].
  destruct (coalesce_pq_buddies (S (length pq)) b ranges pq (<[b := []]> h) [] n h' n')
    as [H1 H2]; auto; try set_solver by lia; try lia.
  - apply drain_ordered. constructor.
  - by rewrite Hd.
  - rewrite Hd. by eapply Forall_starts.
  - apply list_lookup_insert_eq. lia.
  - intros p i Hin. set_solver.
  - split; [done|]. intros m Hm1 Hm2. rewrite H2 by done.
    by apply list_lookup_insert_ne.
Qed.

Lemma coalesce_buckets_spec ranges j : forall k h n,
  (k + j < BUCKETS)%nat -> heap_sound ranges h ->
  (forall b s, (b < k)%nat -> h !! b = Some s -> no_buddies ranges b s) ->
  exists h' n', coalesce_buckets ranges (seq k j) (h, n) = Done (h', n') /\
    heap_pages h' ≡ₚ heap_pages h /\ length h' = BUCKETS /\
    (forall b s, (b < k + j)%nat -> h' !! b = Some s -> no_buddies ranges b s).
Proof.
  induction j as [|j IH]; intros k h n Hk Hh Hnb; cbn [seq coalesce_buckets].
  - exists h, n. rewrite Nat.add_0_r. destruct Hh. done.
  - destruct (coalesce_bucket_spec ranges k h n) as (h1 & n1 & -> & Hp1 & Hl1 & Hb1 & Hfr1);
      [lia|done|]. cbn [obind].
    destruct (IH (S k) h1 n1) as (h' & n' & E & Hp & Hl & Hb);
      [lia|by eapply heap_sound_perm| |].
    + intros b s Hlt Hs. destruct (decide (b = k)) as [->|].
      * destruct Hb1 as (s' & Hs' & Hn). by replace s with s' by congruence.
      * rewrite Hfr1 in Hs by lia. apply Hnb; [lia|done].
    + exists h', n'. split; [done|]. split; [by rewrite Hp|]. split; [done|].
      intros b s Hlt. apply Hb. lia.
Qed.

(** ** The invariant of [PageManagerCore] *)

(** The pages of the free blocks are pairwise different, page aligned and, in a
    heap that coalesces, inside the registered ranges; the counter counts them. *)
Record core_ok (c : PageManagerCore) : Prop := {
  ok_length : length (iv_heap c) = BUCKETS;
  ok_nodup : NoDup (free_pages c);
  ok_aligned : Forall page_aligned (free_pages c);
  ok_available : iv_available c = u64 (Z.of_nat (length (free_pages c)));
  ok_ranges : iv_supports_coalesce c = true ->
    Forall (in_ranges (iv_ranges c)) (free_pages c)
}.
#[export] Hint Resolve ok_length : hb.

(** Adding or removing a set of pages. *)
Lemma core_ok_shrink c c' ps n :
  core_ok c -> free_pages c ≡ₚ ps ++ free_pages c' -> Z.of_nat (length ps) = n ->
  length (iv_heap c') = BUCKETS -> iv_available c' = u64 (iv_available c - n) ->
  same_config c c' -> core_ok c'.
Proof.
  intros [Hl Hnd Hal Hav Hr] Hp Hn Hl' Hav' [Hs1 Hs2]. rewrite Hp in Hnd, Hal.
  apply NoDup_app in Hnd as (_ & _ & Hnd). apply Forall_app in Hal as [_ Hal].
  split; auto.
  - rewrite Hav', Hav, u64_sub_l, Hp, length_app. f_equal. lia.
  - rewrite Hs1, Hs2. intros Hc. specialize (Hr Hc). rewrite Hp in Hr.
    by apply Forall_app in Hr as [_ Hr].
Qed.

Lemma core_ok_grow c c' ps n :
  core_ok c -> free_pages c' ≡ₚ ps ++ free_pages c -> Z.of_nat (length ps) = n ->
  length (iv_heap c') = BUCKETS -> iv_available c' = u64 (iv_available c + n) ->
  NoDup ps -> (forall x, x ∈ ps -> x ∉ free_pages c) -> Forall page_aligned ps ->
  iv_supports_coalesce c' = iv_supports_coalesce c ->
  (iv_supports_coalesce c = true ->
     Forall (in_ranges (iv_ranges c')) ps /\
     Forall (in_ranges (iv_ranges c')) (free_pages c)) ->
  core_ok c'.
Proof.
  intros [Hl Hnd Hal Hav Hr] Hp Hn Hl' Hav' Hnp Hdj Hap Hs Hrs. split; auto.
  - rewrite Hp. by apply NoDup_app.
  - rewrite Hp. by apply Forall_app.
  - rewrite Hav', Hav, u64_add_l, Hp, length_app. f_equal. lia.
  - rewrite Hs, Hp. intros Hc. apply Forall_app, Hrs, Hc.
Qed.

(** Rounding up, as a multiple. *)
Lemma ALIGN_PAGE_eq x : ALIGN_PAGE x = (x + 4095) / 4096 * 4096.
Proof.
  unfold ALIGN_PAGE, ALIGN_X, PAGESIZE. change (4096 - 1) with (Z.ones 12) at 2.
  rewrite Z.ldiff_ones_r by lia. rewrite Z.shiftr_div_pow2, Z.shiftl_mul_pow2 by lia. done.
Qed.
