(* ===== verification/PageMgrSpec.v ===== *)
(** * The page manager against its clients

    The clients of [PageManager] hold regions they were given.  The step
    relation below runs the real operations with the list of those regions
    beside the manager; the theorems show that memory is never handed out
    twice, never lost, and that the assertions of the code cannot fire. *)

From stdpp Require Import relations.
From S2P Require Import Prelude Containers PageMgr.

(** ** The system: the manager and the regions in use *)

Record pm_sys : Type := mkSys {
  sys_pm : PageManager;
  sys_owned : list (Z * Z)
}.

Definition owned_pages (l : list (Z * Z)) : list Z := concat ((fun r => pages r.1 r.2) <$> l).

Definition all_pages (s : pm_sys) : list Z :=
  free_pages (pm_heap (sys_pm s)) ++ free_pages (pm_heapKernel (sys_pm s))
  ++ owned_pages (sys_owned s).

(** Memory the caller of [addMemory] may hand over: page aligned, not at 0 and
    not managed yet. *)
Definition fresh_memory (s : pm_sys) (a n : Z) : Prop :=
  a <> 0 /\ a mod PAGESIZE = 0 /\ 0 <= n /\ forall x, x ∈ pages a n -> x ∉ all_pages s.

(** One operation on behalf of a client. *)
Inductive pm_step : pm_sys -> pm_sys -> Prop :=
| step_alloc pm pm' l n user oom p :
    0 < n -> pm_allocatePage n user oom pm = Done (Some p, pm') ->
    pm_step (mkSys pm l) (mkSys pm' ((p, n) :: l))
| step_alloc_none pm pm' l n user oom :
    0 < n -> pm_allocatePage n user oom pm = Done (None, pm') ->
    pm_step (mkSys pm l) (mkSys pm' l)
| step_free pm pm' l1 l2 p n :
    pm_freePage (Some p) n pm = Done pm' ->
    pm_step (mkSys pm (l1 ++ (p, n) :: l2)) (mkSys pm' (l1 ++ l2))
| step_coalesce pm pm' l :
    pm_coalesce pm = Done pm' -> pm_step (mkSys pm l) (mkSys pm' l)
| step_add pm pm' l a n :
    fresh_memory (mkSys pm l) a n -> pm_addMemory a n pm = Done pm' ->
    pm_step (mkSys pm l) (mkSys pm' l).

(** An unused slot of the range table is (0, 0). *)
Definition slots_ok (ranges : list (Z * Z)) : Prop :=
  Forall (fun r => r.1 = 0 -> r.2 = 0) ranges.

Record sys_ok (s : pm_sys) : Prop := {
  so_heap : core_ok (pm_heap (sys_pm s));
  so_kernel : core_ok (pm_heapKernel (sys_pm s));
  so_flag : iv_supports_coalesce (pm_heap (sys_pm s)) = true;
  so_kflag : iv_supports_coalesce (pm_heapKernel (sys_pm s)) = false;
  so_nodup : NoDup (all_pages s);
  so_aligned : Forall page_aligned (all_pages s);
  so_ranges : Forall (in_ranges (iv_ranges (pm_heap (sys_pm s)))) (all_pages s);
  so_slots : slots_ok (iv_ranges (pm_heap (sys_pm s)));
  so_avail : iv_pagesAvail (sys_pm s)
    = u64 (Z.of_nat (length (free_pages (pm_heap (sys_pm s)))
                     + length (free_pages (pm_heapKernel (sys_pm s)))));
  so_owned : Forall (fun r => 0 < r.2 < 2 ^ Z.of_nat BUCKETS) (sys_owned s)
}.

(** ** Adding memory *)

Lemma ALIGN_PAGE_id a : a mod PAGESIZE = 0 -> ALIGN_PAGE a = a.
Proof.
  intros H. unfold ALIGN_PAGE, ALIGN_X. change (PAGESIZE - 1) with (Z.ones 12).
  rewrite Z.ldiff_ones_r by lia. rewrite Z.shiftr_div_pow2, Z.shiftl_mul_pow2 by lia.
  unfold PAGESIZE in H. change (Z.ones 12) with 4095. change (2 ^ 12) with 4096.
  Z.div_mod_to_equations. lia.
Qed.

Lemma register_range_keeps a bytes p ranges : forall ranges',
  slots_ok ranges -> register_range a bytes ranges = Done ranges' ->
  in_ranges ranges p -> in_ranges ranges' p.
Proof.
  induction ranges as [|[f s] rs IH]; intros ranges' Hok E Hin; simpl in E.
  - by injection E as <-.
  - apply Forall_cons in Hok as [Hfs Hok]. simpl in Hfs. unfold in_ranges in *.
    destruct (f =? 0) eqn:Ef; b2p.
    + injection E as <-. apply Exists_cons in Hin as [Hin|Hin]; [simpl in *; lia|by right].
    + destruct (f <? a); [|discriminate].
      apply obind_Done in E as (rs' & E & [= <-]).
      apply Exists_cons in Hin as [Hin|Hin]; [by left|right; eauto].
Qed.

Lemma register_range_adds a bytes p ranges : forall ranges',
  last_range_free ranges = true -> register_range a bytes ranges = Done ranges' ->
  a <= p < a + bytes -> in_ranges ranges' p.
Proof.
  induction ranges as [|[f s] rs IH]; intros ranges' Hl E Hp; simpl in E; [discriminate|].
  destruct (f =? 0) eqn:Ef; b2p.
  - injection E as <-. by left.
  - destruct (f <? a); [|discriminate]. apply obind_Done in E as (rs' & E & [= <-]).
    right. apply IH; auto. unfold last_range_free in *. simpl in Hl.
    destruct rs as [|r rs]; [simpl in Hl; b2p; lia|done].
Qed.

Lemma register_range_slots a bytes ranges : forall ranges',
  a <> 0 -> slots_ok ranges -> register_range a bytes ranges = Done ranges' ->
  slots_ok ranges'.
Proof.
  induction ranges as [|[f s] rs IH]; intros ranges' Ha Hok E; simpl in E.
  - by injection E as <-.
  - apply Forall_cons in Hok as [Hfs Hok]. destruct (f =? 0).
    + injection E as <-. constructor; [simpl; lia|done].
    + destruct (f <? a); [|discriminate]. apply obind_Done in E as (rs' & E & [= <-]).
      constructor; [done|by apply (IH rs')].
Qed.

Lemma core_addMemory_spec a n c c' :
  length (iv_heap c) = BUCKETS -> a mod PAGESIZE = 0 -> 0 <= n ->
  core_addMemory a n c = Done c' ->
  free_pages c' ≡ₚ pages a n ++ free_pages c /\ length (iv_heap c') = BUCKETS /\
  iv_available c' = u64 (iv_available c + n) /\
  iv_supports_coalesce c' = iv_supports_coalesce c /\
  (if iv_supports_coalesce c then
     last_range_free (iv_ranges c) = true /\
     register_range a (n * PAGESIZE) (iv_ranges c) = Done (iv_ranges c')
   else iv_ranges c' = iv_ranges c).
Proof.
  intros Hl Ha Hn E. unfold core_addMemory in E. rewrite ALIGN_PAGE_id in E by done.
  apply obind_Done in E as (rs & Er & [= <-]). unfold free_pages. cbn [iv_heap].
  destruct (addMemory_loop_spec (Z.to_nat n) n a (BUCKETS - 1) (iv_heap c)) as [H1 H2];
    [lia|done|unfold BUCKETS; lia|done|].
  repeat split; auto. cbn [iv_ranges].
  destruct (iv_supports_coalesce c); [|by injection Er as ->].
  destruct (last_range_free _); [done|discriminate].
Qed.

Lemma pages_bounds x a n : x ∈ pages a n -> a <= x < a + n * PAGESIZE.
Proof. intros (i & Hi & ->)%elem_of_pages. unfold PAGESIZE. nia. Qed.

Lemma pages_aligned a n : a mod PAGESIZE = 0 -> Forall page_aligned (pages a n).
Proof.
  intros Ha. apply Forall_forall. intros x (i & Hi & ->)%elem_of_pages.
  unfold page_aligned. by rewrite Z.mod_add.
Qed.

Lemma pages_nodup a n : NoDup (pages a n).
Proof.
  unfold pages. apply NoDup_fmap_2_strong; [|apply NoDup_seqZ].
  intros x y _ _ H. unfold PAGESIZE in H. lia.
Qed.

Lemma pages_count a n : 0 <= n -> Z.of_nat (length (pages a n)) = n.
Proof. intros. rewrite pages_length. lia. Qed.

(** ** The operations of [PageManager] *)

(** What [_allocatePage] does to the two heaps. *)
Lemma pm_allocatePage_spec n user oom pm r pm' :
  0 < n -> length (iv_heap (pm_heap pm)) = BUCKETS ->
  length (iv_heap (pm_heapKernel pm)) = BUCKETS ->
  pm_allocatePage n user oom pm = Done (r, pm') ->
  match r with
  | Some p =>
      iv_pagesAvail pm' = u64 (iv_pagesAvail pm - n) /\
      (core_allocatePage n (pm_heap pm) = (Some p, pm_heap pm') /\
       pm_heapKernel pm' = pm_heapKernel pm \/
       core_allocatePage n (pm_heapKernel pm) = (Some p, pm_heapKernel pm') /\
       pm_heap pm' = pm_heap pm)
  | None =>
      pm_heap pm' = pm_heap pm /\ pm_heapKernel pm' = pm_heapKernel pm /\
      iv_pagesAvail pm' = iv_pagesAvail pm
  end.
Proof.
  intros Hn Hl Hlk E. unfold pm_allocatePage in E.
  pose proof (core_allocatePage_spec n (pm_heap pm) Hn Hl) as H1.
  pose proof (core_allocatePage_spec n (pm_heapKernel pm) Hn Hlk) as H2.
  destruct (core_allocatePage n (pm_heap pm)) as [[p|] c1] eqn:E1.
  - injection E as <- <-. cbn. auto.
  - destruct H1 as [-> _]. destruct user; simpl in E.
    + injection E as <- <-. done.
    + destruct (core_allocatePage n (pm_heapKernel pm)) as [[p|] c2] eqn:E2.
      * injection E as <- <-. cbn. auto.
      * destruct H2 as [-> _]. destruct oom; [|discriminate]. by injection E as <- <-.
Qed.

Lemma alloc_bound n c p c' :
  0 < n -> length (iv_heap c) = BUCKETS -> core_allocatePage n c = (Some p, c') ->
  n < 2 ^ Z.of_nat BUCKETS.
Proof.
  intros Hn Hl E. unfold core_allocatePage in E.
  pose proof (fit_spec n Hn) as Hfit. unfold fit in Hfit.
  destruct (_ =? n) eqn:En in E, Hfit; cbn [negb] in E.
  - pose proof (pop_retry_spec 5 (msb n) (iv_heap c) Hl) as Hp.
    destruct (pop_retry 6 (msb n) (iv_heap c)) as [[q|] h]; [|discriminate].
    destruct Hp as (_ & _ & Hlt).
    assert (2 ^ Z.of_nat (msb n) < 2 ^ Z.of_nat BUCKETS) by (apply Z.pow_lt_mono_r; lia). lia.
  - pose proof (pop_retry_spec 5 (S (msb n)) (iv_heap c) Hl) as Hp.
    destruct (pop_retry 6 (S (msb n)) (iv_heap c)) as [[q|] h]; [|discriminate].
    destruct Hp as (_ & _ & Hlt).
    assert (2 ^ Z.of_nat (S (msb n)) < 2 ^ Z.of_nat BUCKETS)
      by (apply Z.pow_lt_mono_r; lia). lia.
Qed.

Lemma core_allocatePage_ok n c p c' :
  core_ok c -> 0 < n -> core_allocatePage n c = (Some p, c') ->
  core_ok c' /\ free_pages c ≡ₚ pages p n ++ free_pages c' /\ same_config c c'.
Proof.
  intros Hok Hn E. pose proof (core_allocatePage_spec n c Hn (ok_length c Hok)) as H.
  rewrite E in H. destruct H as (Hp & Hav & Hl & Hs). split; [|done].
  eapply (core_ok_shrink c c' (pages p n) n); eauto. apply pages_count. lia.
Qed.

(** A heap that does not coalesce registers no range and asserts nothing. *)
Lemma core_addMemory_plain a n c :
  iv_supports_coalesce c = false -> exists c', core_addMemory a n c = Done c'.
Proof. intros H. unfold core_addMemory. rewrite H. simpl. eauto. Qed.

(** The refill of the kernel reserve in [_freePage]. *)
Definition refill (heap kernel : PageManagerCore) : outcome (PageManagerCore * PageManagerCore) :=
  if iv_available kernel <? KERNEL_HEAP_RESERVED_PAGES then
    match core_allocatePage 1 heap with
    | (Some page, heap) => do kernel <- core_addMemory page 1 kernel; Done (heap, kernel)
    | (None, heap) => Done (heap, kernel)
    end
  else Done (heap, kernel).

Lemma refill_ok heap kernel :
  core_ok heap -> core_ok kernel -> iv_supports_coalesce kernel = false ->
  NoDup (free_pages heap ++ free_pages kernel) ->
  exists heap' kernel', refill heap kernel = Done (heap', kernel') /\
    core_ok heap' /\ core_ok kernel' /\ same_config heap heap' /\
    iv_supports_coalesce kernel' = false /\
    free_pages heap' ++ free_pages kernel' ≡ₚ free_pages heap ++ free_pages kernel.
Proof.
  intros Hh Hk Hf Hnd. unfold refill.
  destruct (_ <? _); [|by exists heap, kernel].
  destruct (core_allocatePage 1 heap) as [[q|] heap'] eqn:E.
  - destruct (core_allocatePage_ok 1 heap q heap' Hh ltac:(lia) E) as (Hh' & Hp & Hs).
    destruct (core_addMemory_plain q 1 kernel Hf) as [kernel' Ek]. rewrite Ek. simpl.
    exists heap', kernel'. split; [done|].
    pose proof (ok_aligned _ Hh) as Hal. rewrite Hp in Hal, Hnd.
    apply Forall_app in Hal as [Hal _].
    assert (q mod PAGESIZE = 0) as Hq.
    { rewrite Forall_forall in Hal. apply Hal, elem_of_pages. exists 0. lia. }
    destruct (core_addMemory_spec q 1 kernel kernel' (ok_length _ Hk) Hq ltac:(lia) Ek)
      as (Kp & Kl & Kav & Kf & Kr). rewrite Hf in Kr.
    split; [done|]. split; [|split; [done|split; [congruence|]]].
    + eapply (core_ok_grow kernel kernel' (pages q 1) 1); eauto; [apply pages_nodup| |by rewrite Hf].
      intros x Hx Hc. rewrite <- app_assoc in Hnd.
      apply NoDup_app in Hnd as (_ & Hd & _). apply (Hd x Hx). apply elem_of_app. by right.
    + rewrite Kp, Hp. solve_Permutation.
  - pose proof (core_allocatePage_spec 1 heap ltac:(lia) (ok_length _ Hh)) as H.
    rewrite E in H. destruct H as [-> _]. by exists heap, kernel.
Qed.

Lemma pm_freePage_refill p n pm :
  pm_freePage p n pm
  = (do hk <- refill (core_freePage p n false (pm_heap pm)) (pm_heapKernel pm);
     Done (mkPageManager (u64 (iv_pagesAvail pm + n)) (iv_pagesTotal pm) hk.1 hk.2
             (cv_low_page_count pm) (cv_coalesce_count pm) (pm_forced pm))).
Proof.
  unfold pm_freePage, refill. destruct (_ <? _); [|done].
  by destruct (core_allocatePage 1 _) as [[q|] h].
Qed.

(** Freeing a region the system owns succeeds and gives exactly it back. *)
Lemma sys_free_ok pm l1 l2 p n :
  sys_ok (mkSys pm (l1 ++ (p, n) :: l2)) ->
  exists pm', pm_freePage (Some p) n pm = Done pm' /\ sys_ok (mkSys pm' (l1 ++ l2)) /\
    all_pages (mkSys pm' (l1 ++ l2)) ≡ₚ all_pages (mkSys pm (l1 ++ (p, n) :: l2)).
Proof.
  intros [Hh Hk Hf Hkf Hnd Hal Hr Hs Hav Ho]. cbn [sys_pm sys_owned] in *.
  apply Forall_app in Ho as [Ho1 Ho2]. apply Forall_cons in Ho2 as [Hn Ho2]. simpl in Hn.
  set (c1 := core_freePage (Some p) n false (pm_heap pm)).
  destruct (core_freePage_spec p n false (pm_heap pm) Hn (ok_length _ Hh))
    as (F1 & F2 & F3 & F4 & F5). fold c1 in F1, F2, F3, F4, F5.
  assert (all_pages (mkSys pm (l1 ++ (p, n) :: l2)) ≡ₚ
    pages p n ++ free_pages (pm_heap pm) ++ free_pages (pm_heapKernel pm)
    ++ owned_pages (l1 ++ l2)) as Hall.
  { unfold all_pages, owned_pages. cbn [sys_pm sys_owned].
    rewrite !fmap_app, fmap_cons, !concat_app. simpl. solve_Permutation. }
  rewrite Hall in Hnd, Hal, Hr.
  assert (core_ok c1) as Hc1.
  { apply NoDup_app in Hnd as (_ & Hd & _). apply Forall_app in Hal as [Hal _].
    apply Forall_app in Hr as [Hr _].
    eapply (core_ok_grow (pm_heap pm) c1 (pages p n) n); eauto.
    - apply pages_count. lia.
    - apply pages_nodup.
    - intros x Hx Hc. apply (Hd x Hx). apply elem_of_app. by left.
    - intros _. rewrite F5. split; [done|]. by apply ok_ranges. }
  destruct (refill_ok c1 (pm_heapKernel pm)) as (h' & k' & E & Hh' & Hk' & [S1 S2] & Hkf' & Hp');
    auto.
  { rewrite F1, <- app_assoc. rewrite !app_assoc in Hnd.
    apply NoDup_app in Hnd as (Hnd & _ & _). by rewrite <- app_assoc in Hnd. }
  rewrite pm_freePage_refill. fold c1. rewrite E. simpl. eexists. split; [done|].
  match goal with |- context [mkSys ?pm' _] => set (pm1 := pm') end.
  assert (all_pages (mkSys pm1 (l1 ++ l2)) ≡ₚ
    pages p n ++ free_pages (pm_heap pm) ++ free_pages (pm_heapKernel pm)
    ++ owned_pages (l1 ++ l2)) as Hall'.
  { unfold all_pages. cbn. rewrite app_assoc, Hp', F1. solve_Permutation. }
  split; [|by rewrite Hall', Hall].
  split; cbn [sys_pm sys_owned pm1 pm_heap pm_heapKernel iv_pagesAvail]; auto.
  - congruence.
  - by rewrite Hall'.
  - by rewrite Hall'.
  - rewrite Hall', S2, F5. done.
  - by rewrite S2, F5.
  - apply Permutation_length in Hp'. rewrite !length_app in Hp'.
    apply Permutation_length in F1. rewrite length_app, pages_length in F1.
    rewrite Hav, u64_add_l. f_equal. lia.
  - by apply Forall_app.
Qed.

(** Replacing one heap by another that lost the region given out. *)
Lemma sys_alloc_ok pm pm' l n user oom p :
  0 < n -> pm_allocatePage n user oom pm = Done (Some p, pm') ->
  sys_ok (mkSys pm l) ->
  sys_ok (mkSys pm' ((p, n) :: l)) /\
  all_pages (mkSys pm' ((p, n) :: l)) ≡ₚ all_pages (mkSys pm l).
Proof.
  intros Hn E [Hh Hk Hf Hkf Hnd Hal Hr Hs Hav Ho]. cbn [sys_pm sys_owned] in *.
  destruct (pm_allocatePage_spec n user oom pm (Some p) pm') as [Av H]; auto with hb.
  assert (exists c c', core_allocatePage n c = (Some p, c') /\ core_ok c) as (c0 & c0' & E0 & Hc0)
    by (destruct H as [[H _]|[H _]]; eauto).
  pose proof (alloc_bound n c0 p c0' Hn (ok_length _ Hc0) E0) as Hbound.
  assert (core_ok (pm_heap pm') /\ core_ok (pm_heapKernel pm') /\
    same_config (pm_heap pm) (pm_heap pm') /\
    same_config (pm_heapKernel pm) (pm_heapKernel pm') /\
    free_pages (pm_heap pm) ++ free_pages (pm_heapKernel pm) ≡ₚ
    pages p n ++ free_pages (pm_heap pm') ++ free_pages (pm_heapKernel pm'))
    as (Hh' & Hk' & [S1 S2] & [K1 K2] & Hp).
  { destruct H as [[H Hsame]|[H Hsame]].
    - destruct (core_allocatePage_ok _ _ _ _ Hh Hn H) as (? & Hp & ?).
      rewrite Hsame, Hp, <- app_assoc. by split_and!.
    - destruct (core_allocatePage_ok _ _ _ _ Hk Hn H) as (? & Hp & ?).
      rewrite Hsame, Hp. split_and!; try done. solve_Permutation. }
  assert (all_pages (mkSys pm' ((p, n) :: l)) ≡ₚ all_pages (mkSys pm l)) as Hall.
  { unfold all_pages, owned_pages in *. cbn [sys_pm sys_owned].
    rewrite fmap_cons. simpl. rewrite (app_assoc (free_pages (pm_heap pm))), Hp.
    solve_Permutation. }
  split; [|done]. split; cbn [sys_pm sys_owned]; rewrite ?Hall, ?S1, ?S2, ?K1, ?K2; auto.
  apply Permutation_length in Hp. rewrite !length_app, pages_length in Hp.
  rewrite Av, Hav, u64_sub_l. f_equal. lia.
Qed.

(** Coalescing succeeds, keeps the pages, and leaves no mergeable pair. *)
Lemma sys_coalesce_ok pm l :
  sys_ok (mkSys pm l) ->
  exists pm', pm_coalesce pm = Done pm' /\ sys_ok (mkSys pm' l) /\
    all_pages (mkSys pm' l) ≡ₚ all_pages (mkSys pm l) /\
    free_pages (pm_heap pm') ≡ₚ free_pages (pm_heap pm) /\
    forall b s, (b < BUCKETS - 1)%nat -> iv_heap (pm_heap pm') !! b = Some s ->
      no_buddies (iv_ranges (pm_heap pm')) b s.
Proof.
  intros [Hh Hk Hf Hkf Hnd Hal Hr Hs Hav Ho]. cbn [sys_pm sys_owned] in *.
  destruct Hh as [Hl Hn Ha Hv Hrr].
  destruct (coalesce_buckets_spec (iv_ranges (pm_heap pm)) (BUCKETS - 1) 0
    (iv_heap (pm_heap pm)) (cv_coalesce_count pm)) as (h' & n' & E & Hp & Hl' & Hb).
  { unfold BUCKETS. lia. }
  { split; auto. }
  { lia. }
  unfold pm_coalesce, core_coalesce. rewrite Hf. cbn [negb]. rewrite E. cbn [obind].
  eexists. split; [done|].
  match goal with |- context [mkSys ?pm' _] => set (pm1 := pm') end.
  assert (free_pages (pm_heap pm1) ≡ₚ free_pages (pm_heap pm)) as Hfree by exact Hp.
  assert (all_pages (mkSys pm1 l) ≡ₚ all_pages (mkSys pm l)) as Hall.
  { unfold all_pages. cbn [sys_pm]. by rewrite Hfree. }
  split; [|split; [done|split; [done|]]]; [|intros b s Hlt; apply Hb; lia].
  split; rewrite ?Hall; cbn [sys_pm sys_owned]; auto.
  - split; rewrite ?Hfree; auto.
  - by rewrite Hfree.
Qed.

Lemma sys_add_ok pm pm' l a n :
  fresh_memory (mkSys pm l) a n -> pm_addMemory a n pm = Done pm' ->
  sys_ok (mkSys pm l) ->
  sys_ok (mkSys pm' l) /\ all_pages (mkSys pm' l) ≡ₚ pages a n ++ all_pages (mkSys pm l).
Proof.
  intros (Ha0 & Ha & Hn & Hfr) E [Hh Hk Hf Hkf Hnd Hal Hr Hs Hav Ho].
  cbn [sys_pm sys_owned] in *. unfold pm_addMemory in E.
  apply obind_Done in E as (c' & E & [= <-]).
  destruct (core_addMemory_spec a n (pm_heap pm) c' (ok_length _ Hh) Ha Hn E)
    as (Hp & Hl & Hv & Hs' & Hrr). rewrite Hf in Hrr. destruct Hrr as [Hlast Hreg].
  match goal with |- context [mkSys ?pm' _] => set (pm1 := pm') end.
  assert (all_pages (mkSys pm1 l) ≡ₚ pages a n ++ all_pages (mkSys pm l)) as Hall.
  { unfold all_pages. cbn. rewrite Hp. solve_Permutation. }
  assert (Forall (in_ranges (iv_ranges c')) (pages a n)) as Hnew.
  { apply Forall_forall. intros x Hx%pages_bounds. eapply register_range_adds; eauto. }
  assert (forall ps, Forall (in_ranges (iv_ranges (pm_heap pm))) ps ->
    Forall (in_ranges (iv_ranges c')) ps) as Hkeep.
  { intros ps Hps. eapply Forall_impl; [exact Hps|]. intros x Hx.
    by eapply register_range_keeps. }
  split; [|done]. split; rewrite ?Hall;
    cbn [sys_pm sys_owned pm1 pm_heap pm_heapKernel iv_pagesAvail]; auto.
  - eapply (core_ok_grow (pm_heap pm) c' (pages a n) n); eauto.
    + by apply pages_count.
    + apply pages_nodup.
    + intros x Hx Hc. apply (Hfr x Hx). apply elem_of_app. by left.
    + by apply pages_aligned.
    + intros _. split; [done|]. apply Hkeep, ok_ranges; auto.
  - congruence.
  - apply NoDup_app. split; [apply pages_nodup|]. auto.
  - apply Forall_app. split; [by apply pages_aligned|done].
  - apply Forall_app. auto.
  - by eapply register_range_slots.
  - apply Permutation_length in Hp. rewrite length_app, pages_length in Hp.
    rewrite Hav, u64_add_l. f_equal. lia.
Qed.

Lemma sys_alloc_none_ok pm pm' l n user oom :
  0 < n -> pm_allocatePage n user oom pm = Done (None, pm') ->
  sys_ok (mkSys pm l) ->
  sys_ok (mkSys pm' l) /\ all_pages (mkSys pm' l) = all_pages (mkSys pm l).
Proof.
  intros Hn E [Hh Hk Hf Hkf Hnd Hal Hr Hs Hav Ho]. cbn [sys_pm sys_owned] in *.
  destruct (pm_allocatePage_spec n user oom pm None pm') as (H1 & H2 & H3); auto with hb.
  unfold all_pages in *. cbn [sys_pm sys_owned] in *. rewrite H1, H2. split; [|done].
  split; unfold all_pages; cbn [sys_pm sys_owned]; rewrite ?H1, ?H2, ?H3; auto.
Qed.

Lemma pm_step_ok s s' :
  pm_step s s' -> sys_ok s ->
  sys_ok s' /\ exists extra, all_pages s' ≡ₚ extra ++ all_pages s.
Proof.
  intros Hst Hok. inversion Hst as [pm pm' l n u o p Hn E|pm pm' l n u o Hn E|
    pm pm' l1 l2 p n E|pm pm' l E|pm pm' l a n Hfr E]; subst.
  - destruct (sys_alloc_ok pm pm' l n u o p Hn E Hok). split; [done|]. by exists [].
  - destruct (sys_alloc_none_ok pm pm' l n u o Hn E Hok) as [? ->].
    split; [done|]. by exists [].
  - destruct (sys_free_ok pm l1 l2 p n Hok) as (pm1 & E1 & ? & ?).
    assert (pm1 = pm') as -> by congruence. split; [done|]. by exists [].
  - destruct (sys_coalesce_ok pm l Hok) as (pm1 & E1 & ? & ? & _).
    assert (pm1 = pm') as -> by congruence. split; [done|]. by exists [].
  - destruct (sys_add_ok pm pm' l a n Hfr E Hok). split; [done|]. by exists (pages a n).
Qed.

(** ** Initialization *)

(** The memory map [_initialize] relies on: page-aligned areas in this order,
    with room for a block of 16 pages behind the page table. *)
Record layout_ok (l : mem_layout) : Prop := {
  lo_preserved : 0 < endPreservedOffset l /\ endPreservedOffset l mod PAGESIZE = 0;
  lo_table : endPreservedOffset l <= pageTableOffset l /\ pageTableOffset l mod PAGESIZE = 0;
  lo_ptsize : 0 < PTSIZE l /\ PTSIZE l mod PAGESIZE = 0;
  lo_init : pageTableOffset l + PTSIZE l + 16 * PAGESIZE <= endInitCache l
            /\ endInitCache l mod PAGESIZE = 0;
  lo_occ : 0 < VMM_OCC_BOOTLOADER_SIZE l /\ VMM_OCC_BOOTLOADER_SIZE l mod PAGESIZE = 0;
  lo_cache : endInitCache l + VMM_OCC_BOOTLOADER_SIZE l <= hbCacheSizeBytes l
             /\ hbCacheSizeBytes l < 2 ^ 64
}.

Lemma heap_pages_empty k n : heap_pages_from k (replicate n []) = [].
Proof. revert k. induction n; intros k; simpl; auto. Qed.

Lemma core_new_ok b : core_ok (core_new b).
Proof.
  assert (free_pages (core_new b) = []) as E by apply heap_pages_empty.
  split; rewrite ?E; try done; constructor.
Qed.

(** The manager with a given main heap and nothing else, for the additions that
    [_initialize] makes before the reserve is filled. *)
Definition only_heap (c : PageManagerCore) : PageManager :=
  mkPageManager (iv_available c) 0 c (core_new false) 0 0 false.

Lemma only_heap_add c c' a n :
  core_addMemory a n c = Done c' ->
  exists t, pm_addMemory a n (only_heap c)
    = Done (mkPageManager (iv_available c') t c' (core_new false) 0 0 false).
Proof.
  intros E. unfold pm_addMemory. cbn [pm_heap only_heap]. rewrite E. simpl.
  unfold core_addMemory in E. apply obind_Done in E as (rs & _ & [= <-]). simpl. eauto.
Qed.

Lemma sys_ok_total pm pm' l :
  pm_heap pm' = pm_heap pm -> pm_heapKernel pm' = pm_heapKernel pm ->
  iv_pagesAvail pm' = iv_pagesAvail pm -> sys_ok (mkSys pm l) -> sys_ok (mkSys pm' l).
Proof.
  intros H1 H2 H3 [Hh Hk Hf Hkf Hnd Hal Hr Hs Hav Ho].
  split; unfold all_pages in *; cbn [sys_pm sys_owned] in *; rewrite ?H1, ?H2, ?H3; auto.
Qed.

Lemma only_heap_step c c' a n :
  sys_ok (mkSys (only_heap c) []) -> core_addMemory a n c = Done c' ->
  a <> 0 -> a mod PAGESIZE = 0 -> 0 <= n -> (forall x, x ∈ pages a n -> x ∉ free_pages c) ->
  sys_ok (mkSys (only_heap c') []) /\ free_pages c' ≡ₚ pages a n ++ free_pages c.
Proof.
  intros Hok E Ha0 Ha Hn Hfr. destruct (only_heap_add c c' a n E) as [t Et].
  assert (all_pages (mkSys (only_heap c) []) = free_pages c) as Hall.
  { unfold all_pages. cbn [sys_pm sys_owned only_heap pm_heap pm_heapKernel].
    unfold free_pages at 2, heap_pages, core_new. cbn [iv_heap].
    rewrite heap_pages_empty. by rewrite !app_nil_r. }
  assert (fresh_memory (mkSys (only_heap c) []) a n) as Hfm
    by (unfold fresh_memory; rewrite Hall; auto).
  destruct (sys_add_ok _ _ _ _ _ Hfm Et Hok) as [H1 H2].
  split; [by eapply sys_ok_total; [..|exact H1]|].
  destruct (core_addMemory_spec a n c c' (ok_length _ (so_heap _ Hok)) Ha Hn E). done.
Qed.

(** Adding memory keeps what is stacked and opens a large block. *)
Lemma addMemory_loop_keeps fuel : forall len page k h m s,
  h !! m = Some s -> exists s1, addMemory_loop fuel len page k h !! m = Some (s1 ++ s).
Proof.
  induction fuel as [|fuel IH]; intros len page k h m s Hs; cbn [addMemory_loop].
  - by exists [].
  - destruct (0 <? len); [|by exists []]. cbv zeta.
    set (b := shrink_bucket len k).
    destruct (IH (len - 2 ^ Z.of_nat b) (page + 2 ^ Z.of_nat b * PAGESIZE) b
      (stack_push b page h) m (if decide (m = b) then page :: s else s)) as [s1 H].
    + rewrite stack_push_lookup, Hs. by case_decide.
    + rewrite H. case_decide; [exists (s1 ++ [page]); by rewrite <- app_assoc|by exists s1].
Qed.

Lemma shrink_bucket_large len k :
  16 <= len -> (4 <= k)%nat -> (4 <= shrink_bucket len k)%nat.
Proof.
  intros Hl. induction k as [|k IH]; intros Hk; [lia|]. cbn [shrink_bucket].
  destruct (len <? 2 ^ Z.of_nat (S k)) eqn:E; b2p; [|done].
  destruct (decide (k = 3)%nat) as [->|]; [|apply IH; lia].
  change (2 ^ Z.of_nat 4) with 16 in E. lia.
Qed.

(** Some bucket of at least 16-page blocks is not empty. *)
Definition has_large (c : PageManagerCore) : Prop :=
  exists m p s, (4 <= m < BUCKETS)%nat /\ iv_heap c !! m = Some (p :: s).

Lemma addMemory_large a n c c' :
  length (iv_heap c) = BUCKETS -> 16 <= n -> core_addMemory a n c = Done c' -> has_large c'.
Proof.
  intros Hl Hn E. unfold core_addMemory in E. apply obind_Done in E as (rs & _ & [= <-]).
  unfold has_large. cbn [iv_heap].
  destruct (Z.to_nat n) as [|fuel] eqn:Ef; [lia|]. cbn [addMemory_loop].
  rewrite (proj2 (Z.ltb_lt _ _)) by lia. cbv zeta.
  change (BUCKETS - 1)%nat with 15%nat. set (b := shrink_bucket n 15).
  assert (4 <= b < BUCKETS)%nat as Hb.
  { split; [apply shrink_bucket_large; [done|lia]|].
    destruct (shrink_bucket_spec n 15) as [_ H]; [lia|].
    fold b in H. unfold BUCKETS in *. lia. }
  destruct (lookup_lt_is_Some_2 (iv_heap c) b) as [s Hs]; [lia|].
  match goal with |- context [addMemory_loop fuel ?x ?y b ?h] =>
    destruct (addMemory_loop_keeps fuel x y b h b (ALIGN_PAGE a :: s)) as [s1 H1] end.
  { rewrite stack_push_lookup, decide_True by done. by rewrite Hs. }
  exists b. rewrite H1. destruct s1 as [|p s1]; simpl; eauto 10.
Qed.

Lemma addMemory_keeps_large a n c c' :
  core_addMemory a n c = Done c' -> has_large c -> has_large c'.
Proof.
  intros E (m & p & s & Hm & Hs). unfold core_addMemory in E.
  apply obind_Done in E as (rs & _ & [= <-]).
  unfold has_large. cbn [iv_heap].
  match goal with |- context [addMemory_loop ?f ?x ?y ?b ?h] =>
    destruct (addMemory_loop_keeps f x y b h m (p :: s) Hs) as [s1 H1] end.
  exists m. rewrite H1. destruct s1 as [|q s1]; simpl; eauto 10.
Qed.

Lemma has_large_alloc c n :
  core_ok c -> has_large c -> 0 < n -> (fit n <= 4)%nat ->
  exists p c', core_allocatePage n c = (Some p, c').
Proof.
  intros Hok (m & p & s & Hm & Hs) Hn Hfit.
  pose proof (core_allocatePage_spec n c Hn (ok_length _ Hok)) as H.
  destruct (core_allocatePage n c) as [[q|] c']; [eauto|].
  destruct H as [_ H]. rewrite (H m) in Hs by lia. discriminate.
Qed.

Lemma core_addMemory_done a n c rs :
  iv_supports_coalesce c = true -> last_range_free (iv_ranges c) = true ->
  register_range a (n * PAGESIZE) (iv_ranges c) = Done rs ->
  exists c', core_addMemory a n c = Done c' /\ iv_ranges c' = rs
    /\ iv_supports_coalesce c' = true.
Proof.
  intros Hs Hl Hr. unfold core_addMemory. rewrite Hs, Hl, Hr. simpl. eauto.
Qed.

Lemma u64_pages a b :
  0 <= a -> a <= b -> b < 2 ^ 64 -> u64 (b - a) / PAGESIZE = (b - a) / PAGESIZE.
Proof. intros. rewrite wrap_small; [done|split; lia]. Qed.

Lemma pages_fit a b :
  a <= b -> a + (b - a) / PAGESIZE * PAGESIZE <= b /\ 0 <= (b - a) / PAGESIZE.
Proof. intros. unfold PAGESIZE. Z.div_mod_to_equations. lia. Qed.

(** The part of [_initialize] before the area behind the page table. *)
Definition init_low (l : mem_layout) : outcome (PageManagerCore * Z) :=
  if 0 <? u64 (pageTableOffset l - endPreservedOffset l) then
    let pages := u64 (pageTableOffset l - endPreservedOffset l) / PAGESIZE in
    do h <- core_addMemory (endPreservedOffset l) pages (core_new true); Done (h, pages)
  else Done (core_new true, 0).

(** The state between the additions of [_initialize]: everything managed lies
    below [top], [total] pages are free, and a slot beside the last is left. *)
Record boot_ok (c : PageManagerCore) (top total : Z) (used : nat) : Prop := {
  bo_sys : sys_ok (mkSys (only_heap c) []);
  bo_below : forall x, x ∈ free_pages c -> x < top;
  bo_total : Z.of_nat (length (free_pages c)) = total;
  bo_ranges : exists rs, iv_ranges c = rs ++ replicate (MAX_HEAP_RANGES - used) (0, 0)
    /\ length rs = used /\ Forall (fun r => 0 < r.1 < top) rs
}.

Lemma boot_register a bytes rs k :
  0 < a -> Forall (fun r => 0 < r.1 < a) rs ->
  register_range a bytes (rs ++ replicate (S k) (0, 0))
  = Done ((rs ++ [(a, bytes)]) ++ replicate k (0, 0)).
Proof.
  intros Ha. induction 1 as [|[f s] rs Hf Hrs IH]; [done|].
  simpl in *. rewrite (proj2 (Z.eqb_neq f 0)), (proj2 (Z.ltb_lt f a)) by lia.
  by rewrite IH.
Qed.

Lemma boot_last rs k : last_range_free (rs ++ replicate (S k) (0, 0)) = true.
Proof.
  unfold last_range_free.
  replace (replicate (S k) (0, 0)) with (replicate k (0, 0) ++ [(0, 0)]).
  - by rewrite app_assoc, last_snoc.
  - rewrite <- replicate_S_end. done.
Qed.

Lemma boot_add c top total used a b :
  boot_ok c top total used -> (used < MAX_HEAP_RANGES - 1)%nat ->
  0 < a -> top <= a -> a <= b -> b < 2 ^ 64 -> a mod PAGESIZE = 0 ->
  exists c', core_addMemory a (u64 (b - a) / PAGESIZE) c = Done c' /\
    boot_ok c' (b + 1) (total + u64 (b - a) / PAGESIZE) (S used) /\
    free_pages c' ≡ₚ pages a ((b - a) / PAGESIZE) ++ free_pages c.
Proof.
  intros [Hok Hb Ht (rs & Hrs & Hlr & Hfr)] Hu H0 Hta Hab Hb64 Ha.
  rewrite u64_pages by lia. destruct (pages_fit a b Hab) as [Hfit Hn0].
  set (n := (b - a) / PAGESIZE) in *.
  replace (MAX_HEAP_RANGES - used)%nat with (S (MAX_HEAP_RANGES - S used)) in Hrs
    by (unfold MAX_HEAP_RANGES in *; lia).
  destruct (core_addMemory_done a n c
    ((rs ++ [(a, n * PAGESIZE)]) ++ replicate (MAX_HEAP_RANGES - S used) (0, 0)))
    as (c' & E & Er & Es); [apply (so_flag _ Hok)| | |].
  { rewrite Hrs. apply boot_last. }
  { rewrite Hrs. apply boot_register; [done|]. eapply Forall_impl; [exact Hfr|]. simpl. lia. }
  destruct (only_heap_step c c' a n Hok E) as [Hok' Hp]; [lia|done|done| |].
  { intros x Hx%pages_bounds Hc%Hb. lia. }
  exists c'. split; [done|]. split; [|done]. split; [done|..].
  - intros x. rewrite Hp, elem_of_app. intros [Hx%pages_bounds|Hx%Hb]; lia.
  - rewrite Hp, length_app, Nat2Z.inj_add, pages_count by done. lia.
  - exists (rs ++ [(a, n * PAGESIZE)]). rewrite length_app. simpl.
    split; [done|]. split; [lia|]. apply Forall_app. split.
    + eapply Forall_impl; [exact Hfr|]. simpl. lia.
    + repeat constructor; simpl; lia.
Qed.

Lemma boot_new top : 0 < top -> boot_ok (core_new true) top 0 0.
Proof.
  intros Ht. assert (free_pages (core_new true) = []) as E by apply heap_pages_empty.
  assert (free_pages (core_new false) = []) as E' by apply heap_pages_empty.
  split.
  - split; try apply core_new_ok; unfold all_pages; cbn [sys_pm only_heap pm_heap
      pm_heapKernel sys_owned]; rewrite ?E, ?E'; try done; try apply NoDup_nil_2;
      try apply Forall_nil_2. by apply Forall_replicate.
  - rewrite E. set_solver.
  - by rewrite E.
  - by exists [].
Qed.

Lemma aligned_add a b : a mod PAGESIZE = 0 -> b mod PAGESIZE = 0 -> (a + b) mod PAGESIZE = 0.
Proof. intros Ha Hb. rewrite Z.add_mod, Ha, Hb by done. done. Qed.

Lemma init_low_ok l :
  layout_ok l ->
  exists c n used, init_low l = Done (c, n) /\ (used <= 1)%nat /\
    boot_ok c (pageTableOffset l + 1) n used /\ 0 <= n /\
    n * PAGESIZE <= pageTableOffset l - endPreservedOffset l.
Proof.
  intros [[P1 P2] [T1 T2] [S1 S2] [I1 I2] [O1 O2] [C1 C2]]. unfold init_low.
  assert (0 < PAGESIZE) by done.
  rewrite wrap_small by (unfold is_word; lia).
  destruct (0 <? _) eqn:E; b2p.
  - destruct (boot_add (core_new true) (endPreservedOffset l) 0 0
      (endPreservedOffset l) (pageTableOffset l)) as (c & Ec & Hc & _);
      [by apply boot_new|unfold MAX_HEAP_RANGES; lia|lia|lia|lia|lia|done|].
    rewrite u64_pages in Ec, Hc by lia. rewrite Ec. simpl.
    pose proof (pages_fit (endPreservedOffset l) (pageTableOffset l) T1).
    eexists _, _, 1%nat. split; [done|]. split; [lia|]. split; [exact Hc|]. lia.
  - eexists _, _, 0%nat. split; [done|]. split; [lia|].
    split; [apply boot_new; lia|]. lia.
Qed.

(** Filling the kernel reserve from the booted heap. *)
Lemma boot_reserve c top total used :
  boot_ok c top total used -> has_large c ->
  exists p c' k,
    core_allocatePage KERNEL_HEAP_RESERVED_PAGES c = (Some p, c') /\
    core_addMemory p KERNEL_HEAP_RESERVED_PAGES (core_new false) = Done k /\
    iv_available k = KERNEL_HEAP_RESERVED_PAGES /\
    forall t low cnt f, sys_ok (mkSys (mkPageManager (u64 total) t c' k low cnt f) []).
Proof.
  intros [Hok Hb Ht Hrs] Hlarge. pose proof (so_heap _ Hok) as Hc. cbn in Hc.
  destruct (has_large_alloc c KERNEL_HEAP_RESERVED_PAGES Hc Hlarge) as (p & c' & E);
    [done|vm_compute; lia|].
  assert (0 < KERNEL_HEAP_RESERVED_PAGES) as H10 by done.
  destruct (core_allocatePage_ok _ _ _ _ Hc H10 E) as (Hc' & Hp & [Q1 Q2]).
  assert (p mod PAGESIZE = 0) as Hpa.
  { pose proof (ok_aligned _ Hc) as Hal. rewrite Hp in Hal. apply Forall_app in Hal as [Hal _].
    rewrite Forall_forall in Hal. apply Hal, elem_of_pages. exists 0.
    unfold KERNEL_HEAP_RESERVED_PAGES. lia. }
  destruct (core_addMemory_plain p KERNEL_HEAP_RESERVED_PAGES (core_new false) eq_refl)
    as [k Ek].
  destruct (core_addMemory_spec p KERNEL_HEAP_RESERVED_PAGES (core_new false) k eq_refl
    Hpa ltac:(lia) Ek)
    as (Kp & Kl & Kv & Kf & _).
  assert (free_pages (core_new false) = []) as Enew by apply heap_pages_empty.
  rewrite Enew, app_nil_r in Kp.
  assert (core_ok k) as Hk.
  { apply (core_ok_grow (core_new false) k (pages p KERNEL_HEAP_RESERVED_PAGES)
      KERNEL_HEAP_RESERVED_PAGES); rewrite ?Enew, ?app_nil_r;
      auto using core_new_ok, pages_nodup, pages_aligned.
    - set_solver.
    - done. }
  exists p, c', k. split; [done|]. split; [done|]. split; [by rewrite Kv|].
  intros t low cnt f.
  assert (forall l, all_pages (mkSys (mkPageManager (u64 total) t c' k low cnt f) l)
    ≡ₚ free_pages c ++ owned_pages l) as Hall.
  { intros l. unfold all_pages. cbn. rewrite Kp, Hp. solve_Permutation. }
  pose proof (Hall []) as Hall0. unfold owned_pages in Hall0. simpl in Hall0.
  rewrite app_nil_r in Hall0.
  assert (all_pages (mkSys (only_heap c) []) = free_pages c) as Hone.
  { unfold all_pages. cbn [sys_pm sys_owned only_heap pm_heap pm_heapKernel].
    by rewrite Enew, !app_nil_r. }
  destruct Hok as [_ _ Hf _ Hnd Hal Hr Hs _ _]. rewrite Hone in *.
  cbn [sys_pm only_heap pm_heap] in *.
  split; rewrite ?Hall0; cbn [sys_pm sys_owned pm_heap pm_heapKernel iv_pagesAvail];
    rewrite ?Q1, ?Q2; auto.
  apply Permutation_length in Hp. rewrite length_app in Hp. rewrite Kp. f_equal. lia.
Qed.

(** Under the boot memory map, [_initialize] runs through. *)
Lemma pm_initialize_ok l :
  layout_ok l ->
  exists pm, pm_initialize l = Done pm /\ sys_ok (mkSys pm []) /\
    iv_available (pm_heapKernel pm) = KERNEL_HEAP_RESERVED_PAGES /\
    iv_pagesTotal pm = iv_pagesAvail pm.
Proof.
  intros Hl. destruct (init_low_ok l Hl) as (c & n & used & E & Hu & Hc & Hn0 & Hn).
  destruct Hl as [[P1 P2] [T1 T2] [S1 S2] [I1 I2] [O1 O2] [C1 C2]].
  assert (0 < PAGESIZE) by done.
  set (ept := pageTableOffset l + PTSIZE l) in *.
  set (occ := endInitCache l + VMM_OCC_BOOTLOADER_SIZE l) in *.
  destruct (boot_add c (pageTableOffset l + 1) n used ept (endInitCache l))
    as (c2 & E2 & Hc2 & _);
    [done|unfold MAX_HEAP_RANGES; lia|lia|lia|lia|lia|by apply aligned_add|].
  assert (has_large c2) as Hlg.
  { eapply (addMemory_large _ _ c c2); [| |exact E2].
    - apply (ok_length _ (so_heap _ (bo_sys _ _ _ _ Hc))).
    - rewrite u64_pages by lia. apply Z.div_le_lower_bound; lia. }
  destruct (boot_add c2 (endInitCache l + 1) (n + u64 (endInitCache l - ept) / PAGESIZE)
    (S used) occ (hbCacheSizeBytes l)) as (c3 & E3 & Hc3 & _);
    [done|unfold MAX_HEAP_RANGES; lia|lia|lia|lia|lia|by apply aligned_add|].
  destruct (boot_reserve c3 _ _ _ Hc3 (addMemory_keeps_large _ _ _ _ E3 Hlg))
    as (p & c4 & k & Ea & Ek & Hk10 & Hok).
  assert (pm_initialize l = Done
    (let t := u64 (u64 (n + u64 (endInitCache l - ept) / PAGESIZE)
                   + u64 (hbCacheSizeBytes l - occ) / PAGESIZE) in
     mkPageManager t t c4 k t 0 false)) as Einit.
  { unfold pm_initialize. fold (init_low l). rewrite E. cbn [obind]. fold ept. rewrite E2.
    cbn [obind]. fold occ. rewrite E3. cbn [obind]. rewrite Ea. cbn [default].
    unfold default, id. rewrite Ek. reflexivity. }
  rewrite Einit. eexists. split; [done|]. cbv zeta.
  rewrite u64_add_l. split; [apply Hok|]. done.
Qed.

(** With nothing in the buckets from [n] on there is nothing to pop. *)
Lemma pop_bucket_rec_empty fuel : forall n h,
  (forall m, (n <= m < BUCKETS)%nat -> h !! m = Some []) ->
  fst (pop_bucket_rec fuel n h) = None /\ snd (pop_bucket_rec fuel n h) = h.
Proof.
  induction fuel as [|fuel IH]; intros n h He; cbn [pop_bucket_rec]; [done|].
  destruct (BUCKETS <=? n)%nat eqn:E; b2p; [done|].
  unfold stack_pop. rewrite (He n) by lia. cbn [Stack.pop].
  rewrite list_insert_id by (apply He; lia).
  destruct (IH (S n) h) as [H1 H2]; [intros; apply He; lia|].
  destruct (pop_bucket_rec fuel (S n) h) as [[p|] h']; [discriminate|]. done.
Qed.

Lemma alloc_none c n :
  0 < n -> length (iv_heap c) = BUCKETS ->
  (forall m, (fit n <= m < BUCKETS)%nat -> iv_heap c !! m = Some []) ->
  fst (core_allocatePage n c) = None.
Proof.
  intros Hn Hl He. unfold core_allocatePage.
  assert (forall k, fst (pop_retry k (fit n) (iv_heap c)) = None) as Hr.
  { induction k as [|k IH]; cbn [pop_retry]; [done|].
    destruct (pop_bucket_rec_empty (S BUCKETS) (fit n) (iv_heap c) He) as [H1 H2].
    unfold pop_bucket. destruct (pop_bucket_rec _ _ _) as [[p|] h]; [discriminate|].
    simpl in H2. by subst h. }
  specialize (Hr 6%nat). unfold fit in Hr. destruct (_ =? n); cbn [negb];
    destruct (pop_retry 6 _ (iv_heap c)) as [[p|] h]; done.
Qed.

(** ** The properties *)

Lemma pm_steps_ok s s' :
  rtc pm_step s s' -> sys_ok s ->
  sys_ok s' /\ exists extra, all_pages s' ≡ₚ extra ++ all_pages s.
Proof.
  induction 1 as [s|s1 s2 s3 Hs Hr IH]; intros Hok; [split; [done|by exists []]|].
  destruct (pm_step_ok s1 s2 Hs Hok) as [Hok2 [e1 H1]].
  destruct (IH Hok2) as [Hok3 [e2 H2]]. split; [done|].
  exists (e2 ++ e1). rewrite H2, H1. by rewrite app_assoc.
Qed.

(** C36: no page is ever handed out twice and none is lost.  Start the page
    manager on any sound boot memory map and run any sequence of allocations,
    frees, coalesces and additions of fresh memory: the pages of the free blocks
    of both heaps and of all the regions in use are pairwise different, every
    page that was there at the start is still free or in use, and
    [iv_pagesAvail] counts the free pages. *)
Theorem page_manager_conserves l pm0 s :
  layout_ok l -> pm_initialize l = Done pm0 -> rtc pm_step (mkSys pm0 []) s ->
  NoDup (all_pages s) /\
  (exists extra, all_pages s ≡ₚ extra ++ all_pages (mkSys pm0 [])) /\
  iv_pagesAvail (sys_pm s)
  = u64 (Z.of_nat (length (free_pages (pm_heap (sys_pm s)))
                   + length (free_pages (pm_heapKernel (sys_pm s))))).
Proof.
  intros Hl E Hr. destruct (pm_initialize_ok l Hl) as (pm & E' & Hok & _).
  assert (pm = pm0) as -> by congruence.
  destruct (pm_steps_ok _ _ Hr Hok) as [Hs He]. destruct Hs. done.
Qed.

(** Coalescing is safe and maximal.  In every reachable state [coalesce]
    returns (no block lies outside the registered ranges, so the assertion
    cannot fire), the free pages are the same as before, and afterwards no
    bucket below the largest holds both an even block and its buddy. *)
Theorem coalesce_correct l pm0 s :
  layout_ok l -> pm_initialize l = Done pm0 -> rtc pm_step (mkSys pm0 []) s ->
  exists pm', pm_coalesce (sys_pm s) = Done pm' /\
    free_pages (pm_heap pm') ≡ₚ free_pages (pm_heap (sys_pm s)) /\
    forall b st, (b < BUCKETS - 1)%nat -> iv_heap (pm_heap pm') !! b = Some st ->
      no_buddies (iv_ranges (pm_heap pm')) b st.
Proof.
  intros Hl E Hr. destruct (pm_initialize_ok l Hl) as (pm & E' & Hok & _).
  assert (pm = pm0) as -> by congruence.
  destruct (pm_steps_ok _ _ Hr Hok) as [Hs _]. destruct s as [pm own].
  destruct (sys_coalesce_ok pm own Hs) as (pm' & H1 & _ & _ & H2 & H3). eauto.
Qed.

(** Freeing what was allocated cannot fail.  In every reachable state
    [_freePage] of a region in use returns, gives exactly its pages back (some
    of them possibly to the kernel reserve) and keeps the free counter right. *)
Theorem freePage_correct l pm0 pm l1 l2 p n :
  layout_ok l -> pm_initialize l = Done pm0 ->
  rtc pm_step (mkSys pm0 []) (mkSys pm (l1 ++ (p, n) :: l2)) ->
  exists pm', pm_freePage (Some p) n pm = Done pm' /\
    free_pages (pm_heap pm') ++ free_pages (pm_heapKernel pm')
    ≡ₚ pages p n ++ free_pages (pm_heap pm) ++ free_pages (pm_heapKernel pm) /\
    iv_pagesAvail pm' = u64 (iv_pagesAvail pm + n).
Proof.
  intros Hl E Hr. destruct (pm_initialize_ok l Hl) as (pmi & E' & Hok & _).
  assert (pmi = pm0) as -> by congruence.
  destruct (pm_steps_ok _ _ Hr Hok) as [Hs _].
  destruct (sys_free_ok pm l1 l2 p n Hs) as (pm' & H1 & Hok' & H2).
  exists pm'. split; [done|]. split.
  - unfold all_pages, owned_pages in H2. cbn [sys_pm sys_owned] in H2.
    rewrite !fmap_app, fmap_cons, !concat_app in H2. simpl in H2.
    apply (Permutation_app_inv_r (concat ((fun r => pages r.1 r.2) <$> l1)
             ++ concat ((fun r => pages r.1 r.2) <$> l2))).
    rewrite <- !app_assoc. rewrite H2. solve_Permutation.
  - rewrite pm_freePage_refill in H1. by apply obind_Done in H1 as (hk & _ & [= <-]).
Qed.

(** an allocation request is served whenever it can be.  [allocatePage]
    returns null exactly when no free block of the required power of two is
    left, and leaves the heap unchanged then; otherwise it takes [n]
    consecutive pages out of the free pages, and freeing them gives back the
    same free pages and the same counter. *)
Theorem allocatePage_correct c n :
  core_ok c -> 0 < n ->
  (fst (core_allocatePage n c) = None <->
     forall m, (fit n <= m < BUCKETS)%nat -> iv_heap c !! m = Some []) /\
  match core_allocatePage n c with
  | (None, c') => c' = c
  | (Some p, c') =>
      core_ok c' /\ free_pages c ≡ₚ pages p n ++ free_pages c' /\
      free_pages (core_freePage (Some p) n false c') ≡ₚ free_pages c /\
      iv_available (core_freePage (Some p) n false c') = iv_available c
  end.
Proof.
  intros Hok Hn. pose proof (core_allocatePage_spec n c Hn (ok_length _ Hok)) as H.
  destruct (core_allocatePage n c) as [[p|] c'] eqn:E.
  - destruct (core_allocatePage_ok n c p c' Hok Hn E) as (Hok' & Hp & _).
    pose proof (alloc_bound n c p c' Hn (ok_length _ Hok) E) as Hb.
    destruct (core_freePage_spec p n false c' ltac:(lia) (ok_length _ Hok'))
      as (F1 & F2 & _).
    split; [|split; [done|split; [done|split; [by rewrite F1|]]]].
    + split; [done|]. intros Hempty. exfalso.
      pose proof (alloc_none c n Hn (ok_length _ Hok) Hempty) as Hnone.
      by rewrite E in Hnone.
    + destruct H as (_ & Hav & _). rewrite F2, Hav, u64_add_l, (ok_available _ Hok).
      rewrite Z.sub_add. unfold wrap. by rewrite Zmod_mod.
  - destruct H as [-> H]. split; [|done]. split; [done|]. done.
Qed.

(** ** Concrete runs *)

(** The booted manager, and the manager after a client took three pages. *)
Definition sample_pm0 : PageManager :=
  match pm_initialize sample_layout with Done pm => pm | Crash _ => only_heap (core_new true) end.
Definition sample_alloc : option Z * PageManager :=
  match pm_allocatePage 3 false false sample_pm0 with Done r => r | Crash _ => (None, sample_pm0) end.

Lemma sample_layout_ok : layout_ok sample_layout.
Proof. split; vm_compute; split; congruence || reflexivity. Defined.

Lemma sample_init : pm_initialize sample_layout = Done sample_pm0.
Proof. vm_compute. reflexivity. Defined.

Definition sample_page : Z := default 0 (fst sample_alloc).
Definition sample_sys : pm_sys := mkSys (snd sample_alloc) [(sample_page, 3)].

Lemma sample_run : rtc pm_step (mkSys sample_pm0 []) sample_sys.
Proof.
  eapply rtc_once. apply (step_alloc sample_pm0 (snd sample_alloc) [] 3 false false).
  - lia.
  - vm_compute. reflexivity.
Defined.

Example page_manager_conserves_witness : NoDup (all_pages sample_sys).
Proof.
  exact (proj1 (page_manager_conserves sample_layout sample_pm0 sample_sys
                  sample_layout_ok sample_init sample_run)).
Defined.

Example coalesce_correct_witness :
  exists pm', pm_coalesce (sys_pm sample_sys) = Done pm' /\
    free_pages (pm_heap pm') ≡ₚ free_pages (pm_heap (sys_pm sample_sys)) /\
    forall b st, (b < BUCKETS - 1)%nat -> iv_heap (pm_heap pm') !! b = Some st ->
      no_buddies (iv_ranges (pm_heap pm')) b st.
Proof.
  exact (coalesce_correct sample_layout sample_pm0 sample_sys
           sample_layout_ok sample_init sample_run).
Defined.

Example freePage_correct_witness :
  exists pm', pm_freePage (Some sample_page) 3 (snd sample_alloc) = Done pm' /\
    free_pages (pm_heap pm') ++ free_pages (pm_heapKernel pm')
    ≡ₚ pages sample_page 3
       ++ free_pages (pm_heap (snd sample_alloc)) ++ free_pages (pm_heapKernel (snd sample_alloc)) /\
    iv_pagesAvail pm' = u64 (iv_pagesAvail (snd sample_alloc) + 3).
Proof.
  exact (freePage_correct sample_layout sample_pm0 (snd sample_alloc) [] [] sample_page 3
           sample_layout_ok sample_init sample_run).
Defined.

Example allocatePage_correct_witness :
  fst (core_allocatePage 3 (core_new false)) = None.
Proof.
  apply (proj1 (allocatePage_correct (core_new false) 3 (core_new_ok false) ltac:(lia))).
  intros m Hm. unfold core_new. cbn [iv_heap]. apply lookup_replicate. split; [done|lia].
Defined.
