(* ===== verification/HeapMgr.v ===== *)
(** * The heap manager ([src/kernel/heapmgr.C])

    The small heap is a Fibonacci buddy system: pages are cut into chunks of
    twelve sizes, free chunks of a size are on a stack.  Larger requests go to
    the page allocator and are kept in a directory.  The page allocator is used
    through the interface [PageAllocator].  The build without
    [CONFIG_MALLOC_FENCING] (its default) is modelled.

    Memory is seen in two ways: the chunk header at an address, and the bytes.
    A free chunk's bytes are not specified (the stack's link is in them); what
    lies at an address that is no chunk's start is not read. *)

From S2P Require Import Prelude Containers Sync PageMgr.

(** ** The interface to the page allocator *)

(** [PageManager::allocatePage(n)] (which returns or stops the machine) and
    [PageManager::freePage]. *)
Class PageAllocator (S : Type) : Type := {
  pa_alloc : Z -> S -> outcome (Z * S);
  pa_free : Z -> Z -> S -> outcome S
}.

(** Regions of pages that share no byte. *)
Definition apart (r1 r2 : Z * Z) : Prop :=
  r1.1 + r1.2 * PAGESIZE <= r2.1 \/ r2.1 + r2.2 * PAGESIZE <= r1.1.

(** What it promises: [pa_ok s l] says that the regions [l] (address, pages)
    are in use; they are apart from each other, whatever their order; a new
    region is page aligned and not null; a region in use can be freed. *)
Class PageAllocatorLaws (S : Type) `{PageAllocator S} : Type := {
  pa_ok : S -> list (Z * Z) -> Prop;
  pa_alloc_ok s l n p s' :
    pa_ok s l -> 0 < n -> pa_alloc n s = Done (p, s') ->
    pa_ok s' ((p, n) :: l) /\ p mod PAGESIZE = 0 /\ 0 < p;
  pa_free_ok s l p n :
    pa_ok s ((p, n) :: l) -> exists s', pa_free p n s = Done s' /\ pa_ok s' l;
  pa_apart s r1 r2 l : pa_ok s (r1 :: r2 :: l) -> apart r1 r2;
  pa_perm s l l' : l ≡ₚ l' -> pa_ok s l -> pa_ok s l'
}.

(** ** Constants *)

Definition HBUCKETS : Z := 12.
Definition CHUNK_HEADER_PLUS_RESERVED : Z := 9.
Definition MIN_BUCKET_SIZE : Z := 16.
Definition FIB_START_INCR : Z := 16.

(** [BUCKET_SIZE0] .. [BUCKET_SIZE11], each the sum of the two before. *)
Fixpoint fib_sizes (n : nat) (a b : Z) : list Z :=
  match n with O => [] | S n => a :: fib_sizes n b (a + b) end.
Definition cv_chunk_size : list Z :=
  fib_sizes 12 MIN_BUCKET_SIZE (MIN_BUCKET_SIZE + FIB_START_INCR).

Definition MAX_SMALL_ALLOC_SIZE : Z := 3728 - CHUNK_HEADER_PLUS_RESERVED.
Definition MAX_BIG_ALLOC_SIZE : Z := 20 * PAGESIZE.
Definition MEGABYTE : Z := 1024 * 1024.
Definition GIGABYTE : Z := 1024 * MEGABYTE.
Definition HC_SLOT_SIZE : Z := 3 * MEGABYTE.
Definition HC_NUM_SLOTS : Z := 20.
Definition HC_TOTAL_SIZE : Z := HC_SLOT_SIZE * HC_NUM_SLOTS.
Definition VMM_VADDR_MALLOC : Z := 16 * GIGABYTE.
Definition VMM_MALLOC_SIZE : Z := 1 * GIGABYTE.

Definition chr_F : Z := 70.
Definition chr_A : Z := 65.
Definition chr_C : Z := 67.
Definition chr_V : Z := 86.

(** ** Data *)

(** [chunk_t], without the link of the free stacks. *)
Record chunk_t : Type := mkChunk {
  c_free : Z;
  c_coalesce : Z;
  c_size : Z;
  c_allocator : Z;
  c_bucket : Z
}.

(** [big_chunk_t] and [huge_chunk_t]: address (0 for null) and page count. *)
Record dir_t : Type := mkDir { d_addr : Z; d_pages : Z }.

(** The manager's members and counters, the memory, and the page allocator. *)
Record HeapManager (S : Type) : Type := mkHeap {
  h_hdr : Z -> chunk_t;
  h_bytes : Z -> Z;
  first_chunk : list (list Z);
  big_chunk_stack : list dir_t;
  huge_chunk_stack : list dir_t;
  hv_coalesce_count : Z;
  hv_free_bytes : Z;
  hv_free_chunks : Z;
  hv_smallheap_page_count : Z;
  hv_largeheap_page_count : Z;
  hv_largeheap_page_max : Z;
  hv_hugeblock_allocated : Z;
  h_pages : S
}.
Arguments mkHeap {S}.
Arguments h_hdr {S}. Arguments h_bytes {S}. Arguments first_chunk {S}.
Arguments big_chunk_stack {S}. Arguments huge_chunk_stack {S}.
Arguments hv_coalesce_count {S}. Arguments hv_free_bytes {S}. Arguments hv_free_chunks {S}.
Arguments hv_smallheap_page_count {S}. Arguments hv_largeheap_page_count {S}.
Arguments hv_largeheap_page_max {S}. Arguments hv_hugeblock_allocated {S}.
Arguments h_pages {S}.

Definition set_bucket (c : chunk_t) (b : Z) : chunk_t :=
  mkChunk (c_free c) (c_coalesce c) (c_size c) (c_allocator c) (u16 b).
Definition set_coalesce (c : chunk_t) (x : Z) : chunk_t :=
  mkChunk (c_free c) x (c_size c) (c_allocator c) (c_bucket c).
Definition set_merged (c : chunk_t) : chunk_t :=
  mkChunk 0 0 (c_size c) (c_allocator c) (c_bucket c).
(** What [push_bucket] writes. *)
Definition set_free (c : chunk_t) : chunk_t :=
  mkChunk chr_F (c_coalesce c) 0 0 (c_bucket c).
(** What [_allocate] writes. *)
Definition set_allocated (c : chunk_t) (i_sz tid : Z) : chunk_t :=
  mkChunk chr_A (c_coalesce c) (u16 i_sz) (u16 tid) (c_bucket c).

(** ** Sizes and buckets *)

(** [bucketByteSize]; the index -1, which [bucketIndex] reads, is the word in
    front of the array, whose value [junk] is unknown. *)
Definition bucketByteSize_at (junk : Z) (i : Z) : Z :=
  if i <? 0 then junk else default 0 (cv_chunk_size !! Z.to_nat i).
Abbreviation bucketByteSize := (bucketByteSize_at 0).

(** The loop of [bucketIndex]; the interval halves, four rounds are enough. *)
Fixpoint bucket_search (fuel : nat) (junk i_sz low_idx high_idx bucket : Z) : Z :=
  match fuel with
  | O => bucket
  | S fuel =>
      if low_idx <=? high_idx then
        let bucket := (low_idx + high_idx) / 2 in
        if bucketByteSize_at junk bucket <? i_sz then
          bucket_search fuel junk i_sz (bucket + 1) high_idx bucket
        else
          let high_idx := bucket - 1 in
          if bucketByteSize_at junk high_idx <? i_sz then bucket
          else bucket_search fuel junk i_sz low_idx high_idx bucket
      else bucket
  end.

Definition bucketIndex_at (junk i_sz : Z) : Z :=
  if bucketByteSize_at junk (HBUCKETS - 1) <? i_sz then HBUCKETS
  else bucket_search 5 junk i_sz 0 (HBUCKETS - 1) 0.
Abbreviation bucketIndex := (bucketIndex_at 0).

(** ** The small heap *)
Section small.
Context {S : Type} `{PageAllocator S}.
Implicit Types h : HeapManager S.

Definition with_hdr h (hdr : Z -> chunk_t) : HeapManager S :=
  mkHeap hdr (h_bytes h) (first_chunk h) (big_chunk_stack h) (huge_chunk_stack h)
    (hv_coalesce_count h) (hv_free_bytes h) (hv_free_chunks h) (hv_smallheap_page_count h)
    (hv_largeheap_page_count h) (hv_largeheap_page_max h) (hv_hugeblock_allocated h) (h_pages h).

Definition with_stacks h (st : list (list Z)) : HeapManager S :=
  mkHeap (h_hdr h) (h_bytes h) st (big_chunk_stack h) (huge_chunk_stack h)
    (hv_coalesce_count h) (hv_free_bytes h) (hv_free_chunks h) (hv_smallheap_page_count h)
    (hv_largeheap_page_count h) (hv_largeheap_page_max h) (hv_hugeblock_allocated h) (h_pages h).

Definition with_bytes h (bytes : Z -> Z) : HeapManager S :=
  mkHeap (h_hdr h) bytes (first_chunk h) (big_chunk_stack h) (huge_chunk_stack h)
    (hv_coalesce_count h) (hv_free_bytes h) (hv_free_chunks h) (hv_smallheap_page_count h)
    (hv_largeheap_page_count h) (hv_largeheap_page_max h) (hv_hugeblock_allocated h) (h_pages h).

Definition push_bucket (i_chunk i_bucket : Z) h : HeapManager S :=
  if HBUCKETS <=? i_bucket then h
  else
    with_stacks (with_hdr h (upd (h_hdr h) i_chunk (set_free (h_hdr h i_chunk))))
      (alter (Stack.push i_chunk) (Z.to_nat i_bucket) (first_chunk h)).

(** The recursion on the next larger bucket; [fuel] counts the buckets left. *)
Fixpoint pop_bucket_rec (fuel : nat) (i_bucket : Z) h : option Z * HeapManager S :=
  match fuel with
  | O => (None, h)
  | Datatypes.S fuel =>
      if HBUCKETS <=? i_bucket then (None, h)
      else
        match Stack.pop (default [] (first_chunk h !! Z.to_nat i_bucket)) with
        | (Some c, st) => (Some c, with_stacks h (<[Z.to_nat i_bucket := st]> (first_chunk h)))
        | (None, _) =>
            match pop_bucket_rec fuel (i_bucket + 1) h with
            | (None, h) => (None, h)
            | (Some c, h) =>
                let c_size := bucketByteSize i_bucket in
                let c1_size := u64 (bucketByteSize (c_bucket (h_hdr h c)) - c_size) in
                let c1_bucket := bucketIndex c1_size in
                let c1 := c + c_size in
                let hdr := upd (h_hdr h) c1 (set_bucket (h_hdr h c1) c1_bucket) in
                let hdr := upd hdr c (set_bucket (hdr c) i_bucket) in
                let h := with_hdr h hdr in
                (Some c,
                 if MIN_BUCKET_SIZE <=? c1_size then push_bucket c1 c1_bucket h else h)
            end
        end
  end.

Definition pop_bucket (i_bucket : Z) h : option Z * HeapManager S :=
  pop_bucket_rec (Z.to_nat HBUCKETS) i_bucket h.

(** The loop of [newPage]; a page has room for at most 256 chunks. *)
Fixpoint cut_page (fuel : nat) (c remaining : Z) h : HeapManager S :=
  match fuel with
  | O => h
  | Datatypes.S fuel =>
      if MIN_BUCKET_SIZE <=? remaining then
        let bucket := bucketIndex remaining in
        let bucket :=
          if (bucket =? HBUCKETS) || (remaining <? bucketByteSize bucket) then bucket - 1
          else bucket in
        let h := with_hdr h (upd (h_hdr h) c (set_bucket (h_hdr h c) bucket)) in
        let h := push_bucket c bucket h in
        let bsize := bucketByteSize bucket in
        cut_page fuel (c + bsize) (remaining - bsize) h
      else h
  end.

Definition with_pages h (s : S) (small : Z) : HeapManager S :=
  mkHeap (h_hdr h) (h_bytes h) (first_chunk h) (big_chunk_stack h) (huge_chunk_stack h)
    (hv_coalesce_count h) (hv_free_bytes h) (hv_free_chunks h) small
    (hv_largeheap_page_count h) (hv_largeheap_page_max h) (hv_hugeblock_allocated h) s.

(** The address is returned to name the page in statements. *)
Definition newPage h : outcome (Z * HeapManager S) :=
  do (page, s) <- pa_alloc 1 (h_pages h);
  let h := with_pages h s (u32 (hv_smallheap_page_count h + 1)) in
  Done (page, cut_page 256 page PAGESIZE h).

(** [_allocate]: the source calls itself again after [newPage]; [fuel] bounds
    how often. *)
Fixpoint _allocate_rec (fuel : nat) (i_sz tid : Z) h : outcome (Z * HeapManager S) :=
  match fuel with
  | O => Crash BadAccess
  | Datatypes.S fuel =>
      let which_bucket := bucketIndex (i_sz + CHUNK_HEADER_PLUS_RESERVED) in
      match pop_bucket which_bucket h with
      | (None, h) => do (_, h) <- newPage h; _allocate_rec fuel i_sz tid h
      | (Some chunk, h) =>
          assert! c_free (h_hdr h chunk) =? chr_F;
          let size := bucketByteSize (c_bucket (h_hdr h chunk)) in
          let h := with_bytes h (upd (h_bytes h) (chunk + size - 1) chr_V) in
          let h := with_hdr h (upd (h_hdr h) chunk (set_allocated (h_hdr h chunk) i_sz tid)) in
          Done (chunk + 8, h)
      end
  end.

Definition _allocate (i_sz tid : Z) h : outcome (Z * HeapManager S) := _allocate_rec 2 i_sz tid h.

(** The small part of [_free]. *)
Definition free_small (i_ptr : Z) h : outcome (HeapManager S) :=
  let chunk := i_ptr - 8 in
  assert! negb (c_free (h_hdr h chunk) =? chr_F);
  let size := bucketByteSize (c_bucket (h_hdr h chunk)) in
  if negb (h_bytes h (chunk + size - 1) =? chr_V) then Crash TaskCrash
  else Done (push_bucket chunk (c_bucket (h_hdr h chunk)) h).

(** ** Coalescing *)

(** The first loop: empty every stack into a chain, the head of which is the
    chunk popped last. *)
Fixpoint chain_stack (st : list Z) (head : list Z) (hdr : Z -> chunk_t)
    : outcome (list Z * (Z -> chunk_t)) :=
  match st with
  | [] => Done (head, hdr)
  | chunk :: st =>
      assert! c_free (hdr chunk) =? chr_F;
      chain_stack st (chunk :: head) (upd hdr chunk (set_coalesce (hdr chunk) chr_C))
  end.

Fixpoint chain_stacks (sts : list (list Z)) (head : list Z) (hdr : Z -> chunk_t)
    : outcome (list Z * (Z -> chunk_t)) :=
  match sts with
  | [] => Done (head, hdr)
  | st :: sts => do (head, hdr) <- chain_stack st head hdr; chain_stacks sts head hdr
  end.

(** One try to merge a chunk with its right neighbour. *)
Definition try_merge (chunk : Z) (hdr : Z -> chunk_t) : option (Z -> chunk_t) :=
  let c := hdr chunk in
  if negb (c_coalesce c =? chr_C) || negb (c_free c =? chr_F) then None
  else
    let size := bucketByteSize (c_bucket c) in
    let buddy := chunk + size in
    if negb (ALIGN_PAGE_DOWN buddy =? ALIGN_PAGE_DOWN chunk) then None
    else
      let b := hdr buddy in
      if negb (c_free b =? chr_F) || negb (c_coalesce b =? chr_C) then None
      else
        let newSize := size + bucketByteSize (c_bucket b) in
        let newBucket := bucketIndex newSize in
        if (HBUCKETS <=? newBucket) || negb (bucketByteSize newBucket =? newSize) then None
        else
          let hdr := upd hdr buddy (set_merged b) in
          Some (upd hdr chunk (set_bucket (hdr chunk) newBucket)).

(** The chunk stays the current one as long as it merges; a chunk of the
    largest size is reached after at most eleven merges. *)
Fixpoint merge_chunk (fuel : nat) (chunk : Z) (hdr : Z -> chunk_t) (count : Z)
    : (Z -> chunk_t) * Z :=
  match fuel with
  | O => (hdr, count)
  | Datatypes.S fuel =>
      match try_merge chunk hdr with
      | None => (hdr, count)
      | Some hdr => merge_chunk fuel chunk hdr (count + 1)
      end
  end.

(** One pass over the chain: the headers and the number of merges. *)
Fixpoint merge_pass (chain : list Z) (hdr : Z -> chunk_t) (count : Z) : (Z -> chunk_t) * Z :=
  match chain with
  | [] => (hdr, count)
  | chunk :: chain =>
      let '(hdr, count) := merge_chunk (Z.to_nat HBUCKETS) chunk hdr count in
      merge_pass chain hdr count
  end.

Definition still_free (hdr : Z -> chunk_t) (chunk : Z) : bool :=
  (c_free (hdr chunk) =? chr_F) && (c_coalesce (hdr chunk) =? chr_C).

(** Drop the merged chunks; the source rebuilds the chain in reverse. *)
Fixpoint prune (hdr : Z -> chunk_t) (chain newHead : list Z) : list Z :=
  match chain with
  | [] => newHead
  | chunk :: chain => prune hdr chain (if still_free hdr chunk then chunk :: newHead else newHead)
  end.

(** Passes until one merges nothing; each pass but the last shortens the chain. *)
Fixpoint merge_passes (fuel : nat) (chain : list Z) (hdr : Z -> chunk_t) (count : Z)
    : list Z * (Z -> chunk_t) * Z :=
  match fuel with
  | O => (chain, hdr, count)
  | Datatypes.S fuel =>
      let '(hdr', merged) := merge_pass chain hdr 0 in
      let chain' := prune hdr' chain [] in
      if negb (merged =? 0) then merge_passes fuel chain' hdr' (count + merged)
      else (chain', hdr', count)
  end.

(** The last loop: refill the stacks and count. *)
Fixpoint refill (chain : list Z) h : HeapManager S :=
  match chain with
  | [] => h
  | chunk :: chain =>
      let h := with_hdr h (upd (h_hdr h) chunk (set_coalesce (h_hdr h chunk) 0)) in
      let b := c_bucket (h_hdr h chunk) in
      let h := push_bucket chunk b h in
      refill chain
        (mkHeap (h_hdr h) (h_bytes h) (first_chunk h) (big_chunk_stack h) (huge_chunk_stack h)
           (hv_coalesce_count h) (u32 (hv_free_bytes h + (bucketByteSize b - 8)))
           (u32 (hv_free_chunks h + 1)) (hv_smallheap_page_count h)
           (hv_largeheap_page_count h) (hv_largeheap_page_max h) (hv_hugeblock_allocated h)
           (h_pages h))
  end.

Definition _coalesce h : outcome (HeapManager S) :=
  do (head, hdr) <- chain_stacks (first_chunk h) [] (h_hdr h);
  let '(chain, hdr, merged) := merge_passes (Datatypes.S (length head)) head hdr 0 in
  Done (refill chain
    (mkHeap hdr (h_bytes h) (replicate (Z.to_nat HBUCKETS) []) (big_chunk_stack h)
       (huge_chunk_stack h) (u32 (hv_coalesce_count h + merged)) 0 0
       (hv_smallheap_page_count h) (hv_largeheap_page_count h) (hv_largeheap_page_max h)
       (hv_hugeblock_allocated h) (h_pages h))).
End small.
