(* ===== verification/HeapMgrSpec.v ===== *)
(** * Correctness of the heap manager

    The bucket search against its specification; the chunks of every small-heap
    page tile it exactly, each is free and on the stack of its size or in use;
    allocation, release and coalescing keep this, and what they return. *)

From Stdlib Require Import Sorted.
From S2P Require Import Prelude Containers Sync PageMgr HeapMgr.

(** ** The bucket search *)

(** The number of bucket sizes below [sz]: the smallest bucket that fits. *)
Definition bucket_fit (sz : Z) : Z := tally (fun s => s <? sz) cv_chunk_size.

(** The search on the outcome of its comparisons. *)
Fixpoint search_on (fuel : nat) (below : Z -> bool) (low high bucket : Z) : Z :=
  match fuel with
  | O => bucket
  | S fuel =>
      if low <=? high then
        let bucket := (low + high) / 2 in
        if below bucket then search_on fuel below (bucket + 1) high bucket
        else if below (bucket - 1) then bucket else search_on fuel below low (bucket - 1) bucket
      else bucket
  end.

Lemma bucket_search_on fuel junk sz low high bucket :
  bucket_search fuel junk sz low high bucket
  = search_on fuel (fun i => bucketByteSize_at junk i <? sz) low high bucket.
Proof.
  revert low high bucket. induction fuel as [|fuel IH]; intros; [done|]. cbn [bucket_search search_on].
  destruct (low <=? high); [|done]. destruct (_ <? sz); [apply IH|].
  destruct (bucketByteSize_at junk _ <? sz); [done|apply IH].
Qed.

Lemma search_on_ext fuel f g low high bucket :
  (forall i, -1 <= i <= 11 -> f i = g i) -> 0 <= low -> high <= 11 ->
  search_on fuel f low high bucket = search_on fuel g low high bucket.
Proof.
  intros Hfg. revert low high bucket. induction fuel as [|fuel IH]; intros low high bucket Hl Hh; [done|].
  cbn [search_on]. destruct (low <=? high) eqn:E; [|done]. b2p.
  assert (0 <= low + high) by lia.
  pose proof (Z.div_pos (low + high) 2 ltac:(lia) ltac:(lia)).
  pose proof (Z.div_le_upper_bound (low + high) 2 11 ltac:(lia) ltac:(lia)).
  rewrite <-!Hfg by lia. destruct (f _); [apply IH; lia|]. destruct (f _); [done|]. apply IH; lia.
Qed.

(** In an ascending list the elements below a bound come first. *)
Lemma tally_below (l : list Z) sz i x :
  StronglySorted Z.lt l -> l !! i = Some x ->
  (x <? sz) = (Z.of_nat i <? tally (fun s => s <? sz) l).
Proof.
  intros Hs. revert i. induction Hs as [|y l Hs IH Hf]; intros i Hi; [done|].
  assert (Hnone : sz <= y -> tally (fun s => s <? sz) l = 0).
  { intros Hy. apply tally_none. intros z Hz. rewrite Forall_forall in Hf.
    apply Z.ltb_ge. specialize (Hf z Hz). lia. }
  pose proof (tally_bounds (fun s => s <? sz) l) as Hb. cbn [tally].
  destruct i as [|i]; simpl in Hi; simplify_eq.
  - destruct (x <? sz) eqn:E; b2p; symmetry; [apply Z.ltb_lt; lia|].
    rewrite Hnone by lia. done.
  - destruct (y <? sz) eqn:E; b2p.
    + rewrite (IH i Hi). destruct (Z.of_nat i <? _) eqn:E2; b2p; symmetry;
        [apply Z.ltb_lt|apply Z.ltb_ge]; lia.
    + rewrite Hnone by lia. rewrite Forall_forall in Hf.
      assert (y < x) by (apply Hf; by eapply list_elem_of_lookup_2).
      rewrite (proj2 (Z.ltb_ge x sz)) by lia. symmetry. apply Z.ltb_ge. lia.
Qed.

Lemma sizes_sorted : StronglySorted Z.lt cv_chunk_size.
Proof. repeat constructor. Qed.

Lemma bucketByteSize_lookup junk i :
  0 <= i <= 11 -> cv_chunk_size !! Z.to_nat i = Some (bucketByteSize_at junk i).
Proof.
  intros Hi. unfold bucketByteSize_at. rewrite (proj2 (Z.ltb_ge i 0)) by lia.
  destruct (lookup_lt_is_Some_2 cv_chunk_size (Z.to_nat i)) as [x ->]; [|done].
  change (length cv_chunk_size) with 12%nat. lia.
Qed.

(** The comparisons of sizes are those of the index with the answer. *)
Lemma fit_below junk sz i :
  0 <= i <= 11 -> (bucketByteSize_at junk i <? sz) = (i <? bucket_fit sz).
Proof.
  intros Hi. rewrite (tally_below _ sz _ _ sizes_sorted (bucketByteSize_lookup junk i Hi)).
  by rewrite Z2Nat.id by lia.
Qed.

(** Whatever the word in front of the array is, the search finds the smallest
    bucket that fits. *)
Lemma bucketIndex_fit junk sz : bucketIndex_at junk sz = bucket_fit sz.
Proof.
  unfold bucketIndex_at. rewrite fit_below by done. rewrite bucket_search_on.
  pose proof (tally_bounds (fun s => s <? sz) cv_chunk_size) as Hk.
  change (Z.of_nat (length cv_chunk_size)) with 12 in Hk. fold (bucket_fit sz) in Hk.
  set (j := junk <? sz).
  rewrite (search_on_ext 5 _ (fun i => if i <? 0 then j else i <? bucket_fit sz));
    [|intros i Hi|lia|done].
  2:{ destruct (i <? 0) eqn:E; [|b2p; apply fit_below; lia].
      unfold bucketByteSize_at. by rewrite E. }
  revert Hk. generalize (bucket_fit sz). generalize j. clear. intros j k Hk.
  assert (Hall : forallb (fun k => (if HBUCKETS - 1 <? k then HBUCKETS else
    search_on 5 (fun i => if i <? 0 then j else i <? k) 0 (HBUCKETS - 1) 0) =? k) (seqZ 0 13) = true)
    by (destruct j; vm_compute; reflexivity).
  rewrite forallb_forall in Hall. apply Z.eqb_eq, Hall, list_elem_of_In, elem_of_seqZ. lia.
Qed.

Lemma bucket_fit_bounds sz : 0 <= bucket_fit sz <= 12.
Proof. apply (tally_bounds (fun s => s <? sz) cv_chunk_size). Qed.

Lemma bucket_fit_fits sz : bucket_fit sz < 12 -> sz <= bucketByteSize (bucket_fit sz).
Proof.
  intros H. pose proof (bucket_fit_bounds sz). pose proof (fit_below 0 sz (bucket_fit sz) ltac:(lia)) as E.
  rewrite Z.ltb_irrefl in E. by apply Z.ltb_ge in E.
Qed.

Lemma bucket_fit_least sz b : 0 <= b < 12 -> sz <= bucketByteSize b -> bucket_fit sz <= b.
Proof.
  intros Hb Hs. pose proof (fit_below 0 sz b ltac:(lia)) as E.
  rewrite (proj2 (Z.ltb_ge _ _) Hs) in E. symmetry in E. by apply Z.ltb_ge in E.
Qed.

(** Facts about the twelve sizes, by computation. *)
Lemma for_buckets (f : Z -> bool) (n : Z) b :
  forallb f (seqZ 0 n) = true -> 0 <= b < n -> f b = true.
Proof. rewrite forallb_forall. intros H Hb. apply H, list_elem_of_In, elem_of_seqZ. lia. Qed.

(** A bucket's own size leads back to it. *)
Lemma bucket_fit_size b : 0 <= b < 12 -> bucket_fit (bucketByteSize b) = b.
Proof.
  intros Hb. apply Z.eqb_eq.
  by apply (for_buckets (fun b => bucket_fit (bucketByteSize b) =? b) 12).
Qed.

Lemma bucketByteSize_bounds b :
  0 <= b < 12 -> 16 <= bucketByteSize b <= 3728 /\ bucketByteSize b mod 16 = 0.
Proof.
  intros Hb.
  assert (H : ((16 <=? bucketByteSize b) && (bucketByteSize b <=? 3728) &&
               (bucketByteSize b mod 16 =? 0)) = true).
  { by apply (for_buckets (fun b => (16 <=? bucketByteSize b) && (bucketByteSize b <=? 3728) &&
               (bucketByteSize b mod 16 =? 0)) 12). }
  b2p. lia.
Qed.

(** Splitting a chunk leaves a chunk of a bucket size. *)
Lemma split_sizes b :
  0 <= b < 11 ->
  let rest := bucketByteSize (b + 1) - bucketByteSize b in
  16 <= rest /\ 0 <= bucket_fit rest < 12 /\ bucketByteSize (bucket_fit rest) = rest.
Proof.
  intros Hb. cbv zeta.
  assert (H : (let rest := bucketByteSize (b + 1) - bucketByteSize b in
    (16 <=? rest) && (0 <=? bucket_fit rest) && (bucket_fit rest <? 12) &&
    (bucketByteSize (bucket_fit rest) =? rest)) = true).
  { by apply (for_buckets (fun b => let rest := bucketByteSize (b + 1) - bucketByteSize b in
      (16 <=? rest) && (0 <=? bucket_fit rest) && (bucket_fit rest <? 12) &&
      (bucketByteSize (bucket_fit rest) =? rest)) 11). }
  cbv zeta in H. b2p. lia.
Qed.

(** ** The invariant *)

(** The chunks from [a] to [e] follow each other without gap. *)
Fixpoint tiled (hdr : Z -> chunk_t) (a e : Z) (l : list Z) : Prop :=
  match l with
  | [] => a = e
  | x :: l => x = a /\ 0 <= c_bucket (hdr x) < HBUCKETS /\
              tiled hdr (a + bucketByteSize (c_bucket (hdr x))) e l
  end.

Lemma tiled_app hdr a e l1 l2 :
  tiled hdr a e (l1 ++ l2) <-> exists m, tiled hdr a m l1 /\ tiled hdr m e l2.
Proof.
  revert a. induction l1 as [|x l1 IH]; intros a; simpl.
  - naive_solver.
  - rewrite IH. naive_solver.
Qed.

(** Chunks lie inside, on 16-byte boundaries relative to the start. *)
Lemma tiled_bounds hdr a e l :
  tiled hdr a e l -> a <= e /\ (forall x, x ∈ l -> a <= x /\ x + bucketByteSize (c_bucket (hdr x)) <= e /\
     0 <= c_bucket (hdr x) < 12).
Proof.
  revert a. induction l as [|x l IH]; intros a; simpl.
  - intros ->. split; [lia|]. intros x Hx. by apply elem_of_nil in Hx.
  - intros (-> & Hb & Ht). destruct (IH _ Ht) as [H1 H2].
    pose proof (bucketByteSize_bounds _ Hb). split; [lia|].
    intros y [->|Hy]%elem_of_cons; [unfold HBUCKETS in *; lia|]. specialize (H2 y Hy). lia.
Qed.

Lemma tiled_nodup hdr a e l : tiled hdr a e l -> NoDup l.
Proof.
  revert a. induction l as [|x l IH]; intros a; simpl; [constructor|].
  intros (-> & Hb & Ht). constructor; [|by eapply IH]. intros Hx.
  pose proof (bucketByteSize_bounds _ Hb). apply tiled_bounds in Ht as [_ Ht].
  specialize (Ht a Hx). lia.
Qed.

(** Only the buckets of the listed chunks matter. *)
Lemma tiled_ext hdr hdr' a e l :
  (forall x, x ∈ l -> c_bucket (hdr' x) = c_bucket (hdr x)) -> tiled hdr a e l -> tiled hdr' a e l.
Proof.
  revert a. induction l as [|x l IH]; intros a Hx; simpl; [done|].
  rewrite (Hx x) by (by left). intros (-> & Hb & Ht). split; [done|]. split; [done|].
  apply IH; [|done]. intros y Hy. apply Hx. by right.
Qed.

(** Cutting a chunk in two. *)
Lemma tiled_split hdr hdr' s e l1 x l2 :
  tiled hdr s e (l1 ++ x :: l2) ->
  0 <= c_bucket (hdr' x) < HBUCKETS ->
  let y := x + bucketByteSize (c_bucket (hdr' x)) in
  0 <= c_bucket (hdr' y) < HBUCKETS ->
  bucketByteSize (c_bucket (hdr' x)) + bucketByteSize (c_bucket (hdr' y))
    = bucketByteSize (c_bucket (hdr x)) ->
  (forall z, z ∈ l1 ++ l2 -> c_bucket (hdr' z) = c_bucket (hdr z)) ->
  tiled hdr' s e (l1 ++ x :: y :: l2).
Proof.
  intros Ht Hx y Hy Hsum Hz. apply tiled_app in Ht as (m & H1 & -> & H3 & H4).
  apply tiled_app. exists m. split.
  - eapply tiled_ext; [|done]. intros z Hin. apply Hz, elem_of_app. by left.
  - simpl. split; [done|]. split; [done|]. split; [done|]. split; [done|].
    replace (m + _ + _) with (m + bucketByteSize (c_bucket (hdr m))) by (subst y; lia).
    eapply tiled_ext; [|done]. intros z Hin. apply Hz, elem_of_app. by right.
Qed.

(** Joining two neighbours. *)
Lemma tiled_join hdr hdr' s e l1 x y l2 :
  tiled hdr s e (l1 ++ x :: y :: l2) ->
  0 <= c_bucket (hdr' x) < HBUCKETS ->
  bucketByteSize (c_bucket (hdr' x))
    = bucketByteSize (c_bucket (hdr x)) + bucketByteSize (c_bucket (hdr y)) ->
  (forall z, z ∈ l1 ++ l2 -> c_bucket (hdr' z) = c_bucket (hdr z)) ->
  tiled hdr' s e (l1 ++ x :: l2).
Proof.
  intros Ht Hx Hsum Hz. apply tiled_app in Ht as (m & H1 & -> & H3 & -> & H5 & H6).
  apply tiled_app. exists m. split.
  - eapply tiled_ext; [|done]. intros z Hin. apply Hz, elem_of_app. by left.
  - simpl. split; [done|]. split; [done|]. rewrite Hsum.
    replace (m + (_ + _)) with (m + bucketByteSize (c_bucket (hdr m)) +
      bucketByteSize (c_bucket (hdr (m + bucketByteSize (c_bucket (hdr m)))))) by lia.
    eapply tiled_ext; [|done]. intros z Hin. apply Hz, elem_of_app. by right.
Qed.

(** A small-heap page: its address and its chunks. *)
Record hpage : Type := mkPage { hp_addr : Z; hp_tiles : list Z }.

Definition tiles (pgs : list hpage) : list Z := concat (hp_tiles <$> pgs).

Definition page_ok (hdr : Z -> chunk_t) (p : hpage) : Prop :=
  hp_addr p mod PAGESIZE = 0 /\ tiled hdr (hp_addr p) (hp_addr p + PAGESIZE) (hp_tiles p).

(** The pages are different and tiled; a chunk is marked free exactly when it
    is on a stack or in the hand of the code ([hand]); a chunk on a stack is
    of that size; no chunk is there twice. *)
Record heap_inv (hdr : Z -> chunk_t) (st : list (list Z)) (pgs : list hpage) (hand : list Z) : Prop := {
  hi_len : length st = 12%nat;
  hi_pages : Forall (page_ok hdr) pgs;
  hi_distinct : NoDup (hp_addr <$> pgs);
  hi_free : forall a, a ∈ tiles pgs -> (c_free (hdr a) = chr_F <-> a ∈ concat st ++ hand);
  hi_tile : forall a, a ∈ concat st ++ hand -> a ∈ tiles pgs;
  hi_stack : forall b l a, st !! b = Some l -> a ∈ l -> c_bucket (hdr a) = Z.of_nat b;
  hi_nodup : NoDup (concat st ++ hand)
}.
(** *** Chunks of the pages *)

Lemma elem_of_tiles pgs x :
  x ∈ tiles pgs <-> exists pgs1 p pgs2 l1 l2, pgs = pgs1 ++ p :: pgs2 /\ hp_tiles p = l1 ++ x :: l2.
Proof.
  unfold tiles. split.
  - intros Hx. apply list_elem_of_In, in_concat in Hx as (l & Hl & Hx).
    apply list_elem_of_In in Hl, Hx. apply list_elem_of_fmap in Hl as (p & -> & Hp).
    apply list_elem_of_split in Hp as (pgs1 & pgs2 & ->).
    apply list_elem_of_split in Hx as (l1 & l2 & E). eauto 10.
  - intros (pgs1 & p & pgs2 & l1 & l2 & -> & E).
    rewrite fmap_app, fmap_cons, concat_app, E. simpl.
    rewrite !elem_of_app, elem_of_cons. auto.
Qed.

Lemma tiles_mid pgs1 p pgs2 : tiles (pgs1 ++ p :: pgs2) = tiles pgs1 ++ hp_tiles p ++ tiles pgs2.
Proof. unfold tiles. by rewrite fmap_app, fmap_cons, concat_app. Qed.

(** Two aligned pages are the same or apart. *)
Lemma aligned_apart p q :
  p mod PAGESIZE = 0 -> q mod PAGESIZE = 0 -> p <> q -> p + PAGESIZE <= q \/ q + PAGESIZE <= p.
Proof. unfold PAGESIZE. intros Hp Hq Hne. apply Z.mod_divide in Hp, Hq; [|lia..]. destruct Hp, Hq. lia. Qed.

Lemma tile_range hdr pgs x :
  Forall (page_ok hdr) pgs -> x ∈ tiles pgs ->
  exists p, p ∈ pgs /\ hp_addr p <= x /\ x + bucketByteSize (c_bucket (hdr x)) <= hp_addr p + PAGESIZE /\
    0 <= c_bucket (hdr x) < 12 /\ x ∈ hp_tiles p.
Proof.
  intros Hp Hx. apply elem_of_tiles in Hx as (pgs1 & p & pgs2 & l1 & l2 & -> & E).
  apply Forall_app in Hp as [_ Hp]. apply Forall_cons in Hp as [[_ Hp] _].
  apply tiled_bounds in Hp as [_ Hp]. assert (Hx : x ∈ hp_tiles p) by (rewrite E; set_solver).
  specialize (Hp x Hx). exists p. split; [set_solver|]. lia || (split_and!; try lia; done).
Qed.

(** Two chunks do not overlap. *)
Lemma tiled_apart hdr a e l x y :
  tiled hdr a e l -> x ∈ l -> y ∈ l -> x < y -> x + bucketByteSize (c_bucket (hdr x)) <= y.
Proof.
  revert a. induction l as [|z l IH]; intros a Ht Hx Hy Hlt; [by apply elem_of_nil in Hx|].
  simpl in Ht. destruct Ht as (-> & Hb & Ht). pose proof (tiled_bounds _ _ _ _ Ht) as [_ Hr].
  apply elem_of_cons in Hx as [->|Hx]; apply elem_of_cons in Hy as [->|Hy].
  - lia.
  - specialize (Hr y Hy). lia.
  - specialize (Hr x Hx). pose proof (bucketByteSize_bounds _ Hb). lia.
  - eauto.
Qed.

Lemma tiles_apart hdr pgs x y :
  Forall (page_ok hdr) pgs -> NoDup (hp_addr <$> pgs) ->
  x ∈ tiles pgs -> y ∈ tiles pgs -> x <> y ->
  x + bucketByteSize (c_bucket (hdr x)) <= y \/ y + bucketByteSize (c_bucket (hdr y)) <= x.
Proof.
  intros Hp Hnd Hx Hy Hne.
  destruct (tile_range _ _ _ Hp Hx) as (p & Hpi & P1 & P2 & P3 & P4).
  destruct (tile_range _ _ _ Hp Hy) as (q & Hqi & Q1 & Q2 & Q3 & Q4).
  rewrite Forall_forall in Hp. destruct (Hp p Hpi) as [Ap Tp]. destruct (Hp q Hqi) as [Aq Tq].
  destruct (decide (hp_addr p = hp_addr q)) as [E|E].
  - assert (p = q) as ->.
    { apply list_elem_of_lookup in Hpi as [i Hi], Hqi as [j Hj].
      assert (i = j); [|congruence]. eapply NoDup_lookup; [exact Hnd|..]; rewrite list_lookup_fmap.
      - rewrite Hi. simpl. by rewrite E.
      - by rewrite Hj. }
    destruct (Z.lt_total x y) as [Hlt|[->|Hlt]]; [left|done|right];
      eapply tiled_apart; eauto.
  - destruct (aligned_apart _ _ Ap Aq E); lia.
Qed.

(** A place strictly inside a chunk is no chunk's start. *)
Lemma inside_no_tile hdr pgs x y :
  Forall (page_ok hdr) pgs -> NoDup (hp_addr <$> pgs) -> x ∈ tiles pgs ->
  x < y < x + bucketByteSize (c_bucket (hdr x)) -> y ∉ tiles pgs.
Proof.
  intros Hp Hnd Hx Hy Hin.
  destruct (tile_range _ _ _ Hp Hin) as (_ & _ & _ & _ & Hb & _).
  pose proof (bucketByteSize_bounds _ Hb).
  destruct (tiles_apart hdr pgs x y Hp Hnd Hx Hin); lia.
Qed.

(** *** The stacks *)

Lemma concat_at (st : list (list Z)) b l :
  st !! b = Some l ->
  exists r, concat st ≡ₚ l ++ r /\ forall l', concat (<[b := l']> st) ≡ₚ l' ++ r.
Proof.
  intros Hb. pose proof (lookup_lt_Some _ _ _ Hb) as Hlt.
  exists (concat (take b st) ++ concat (drop (S b) st)).
  assert (Hg : forall l', concat (<[b := l']> st) ≡ₚ l' ++ concat (take b st) ++ concat (drop (S b) st)).
  { intros l'. rewrite insert_take_drop by done. rewrite concat_app. simpl.
    by rewrite Permutation_app_swap_app. }
  split; [|done]. rewrite <-(list_insert_id _ _ _ Hb) at 1. apply Hg.
Qed.

(** The parts of the invariant that only see which chunks are out of use. *)
Lemma heap_inv_perm hdr st st' pgs hand hand' :
  heap_inv hdr st pgs hand -> length st' = 12%nat ->
  concat st' ++ hand' ≡ₚ concat st ++ hand ->
  (forall b l a, st' !! b = Some l -> a ∈ l -> c_bucket (hdr a) = Z.of_nat b) ->
  heap_inv hdr st' pgs hand'.
Proof.
  intros [I1 I2 I3 I4 I5 I6 I7] Hl Hp Hs. split; auto.
  - intros a Ha. rewrite Hp. auto.
  - intros a. rewrite Hp. auto.
  - by rewrite Hp.
Qed.

(** Taking the top chunk of a stack in hand. *)
Lemma heap_inv_pop hdr st pgs hand b c l :
  heap_inv hdr st pgs hand -> st !! b = Some (c :: l) ->
  heap_inv hdr (<[b := l]> st) pgs (c :: hand).
Proof.
  intros I Hb. destruct (concat_at st b _ Hb) as (r & H1 & H2).
  eapply heap_inv_perm; [exact I|rewrite length_insert; apply I| |].
  - rewrite H1, H2. simpl. rewrite <-app_assoc. rewrite <-!Permutation_middle. by rewrite app_assoc.
  - intros b' l' a Hl' Ha. destruct (decide (b' = b)) as [->|Hne].
    + rewrite list_lookup_insert_eq in Hl' by (by eapply lookup_lt_Some). simplify_eq.
      eapply (hi_stack _ _ _ _ I); [exact Hb|]. by right.
    + rewrite list_lookup_insert_ne in Hl' by done. by eapply (hi_stack _ _ _ _ I).
Qed.

Lemma alter_push (st : list (list Z)) b c l :
  st !! b = Some l -> alter (Stack.push c) b st = <[b := c :: l]> st.
Proof.
  intros Hb. apply list_eq. intros i. destruct (decide (i = b)) as [->|].
  - rewrite list_lookup_alter_eq, Hb, list_lookup_insert_eq by (by eapply lookup_lt_Some). done.
  - by rewrite list_lookup_alter_ne, list_lookup_insert_ne.
Qed.

(** A header written at a chunk that keeps its bucket. *)
Lemma page_ok_bucket hdr hdr' pgs :
  (forall x, x ∈ tiles pgs -> c_bucket (hdr' x) = c_bucket (hdr x)) ->
  Forall (page_ok hdr) pgs -> Forall (page_ok hdr') pgs.
Proof.
  intros Hb. rewrite !Forall_forall. intros Hp p Hpi. destruct (Hp p Hpi) as [H1 H2].
  split; [done|]. eapply tiled_ext; [|done]. intros x Hx. apply Hb.
  apply list_elem_of_split in Hpi as (p1 & p2 & ->). rewrite tiles_mid. set_solver.
Qed.

(** Pushing a chunk that is not on a stack: from the hand, or in use before. *)
Lemma heap_inv_push hdr st pgs hand c l :
  heap_inv hdr st pgs hand \/ heap_inv hdr st pgs (c :: hand) ->
  c ∈ tiles pgs -> c ∉ concat st ++ hand ->
  st !! Z.to_nat (c_bucket (hdr c)) = Some l -> 0 <= c_bucket (hdr c) ->
  heap_inv (upd hdr c (set_free (hdr c)))
    (alter (Stack.push c) (Z.to_nat (c_bucket (hdr c))) st) pgs hand.
Proof.
  intros I Hc Hn Hb Hb0. rewrite (alter_push _ _ _ _ Hb).
  destruct (concat_at st _ _ Hb) as (r & H1 & H2).
  assert (Hp : concat (<[Z.to_nat (c_bucket (hdr c)) := c :: l]> st) ++ hand ≡ₚ c :: concat st ++ hand).
  { rewrite H2, H1. done. }
  assert (Hbk : forall x, c_bucket (upd hdr c (set_free (hdr c)) x) = c_bucket (hdr x))
    by (intros x; upd_cases; done).
  assert (Hstk : forall b l a, st !! b = Some l -> a ∈ l -> c_bucket (hdr a) = Z.of_nat b)
    by (destruct I as [I|I]; apply (hi_stack _ _ _ _ I)).
  assert (Hlen : length st = 12%nat) by (destruct I as [I|I]; apply (hi_len _ _ _ _ I)).
  split.
  - by rewrite length_insert.
  - destruct I as [I|I]; eapply page_ok_bucket; eauto; apply (hi_pages _ _ _ _ I).
  - destruct I as [I|I]; apply (hi_distinct _ _ _ _ I).
  - intros a Ha. rewrite Hp, elem_of_cons. unfold upd. destruct (a =? c) eqn:E; b2p.
    + subst. simpl. tauto.
    + destruct I as [I|I]; rewrite (hi_free _ _ _ _ I a Ha); [tauto|].
      rewrite !elem_of_app, elem_of_cons. tauto.
  - intros a. rewrite Hp. intros [->|Ha]%elem_of_cons; [done|].
    destruct I as [I|I]; apply (hi_tile _ _ _ _ I); [done|].
    apply elem_of_app in Ha as [?|?]; set_solver.
  - intros b l' a Hl' Ha. rewrite Hbk. destruct (decide (b = Z.to_nat (c_bucket (hdr c)))) as [->|Hne].
    + rewrite list_lookup_insert_eq in Hl' by (by eapply lookup_lt_Some). simplify_eq.
      apply elem_of_cons in Ha as [->|Ha]; [lia|]. by eapply Hstk.
    + rewrite list_lookup_insert_ne in Hl' by done. by eapply Hstk.
  - rewrite Hp. apply NoDup_cons. split; [done|].
    destruct I as [I|I]; pose proof (hi_nodup _ _ _ _ I) as Hnd; [done|].
    rewrite <-Permutation_middle in Hnd. by apply NoDup_cons in Hnd as [_ Hnd].
Qed.

Lemma heap_inv_ext hdr hdr' st pgs hand :
  (forall x, hdr' x = hdr x) -> heap_inv hdr st pgs hand -> heap_inv hdr' st pgs hand.
Proof.
  intros E [I1 I2 I3 I4 I5 I6 I7]. split; auto.
  - eapply page_ok_bucket; [|done]. intros x _. by rewrite E.
  - intros a Ha. rewrite E. auto.
  - intros b l a Hl Ha. rewrite E. eauto.
Qed.

(** A chunk in use, and what stays when chunks out of use are cut and joined:
    the pages, and the headers of the chunks in use. *)
Definition in_use (hdr : Z -> chunk_t) (pgs : list hpage) (a : Z) : Prop :=
  a ∈ tiles pgs /\ c_free (hdr a) <> chr_F.

Definition frame (hdr : Z -> chunk_t) (pgs : list hpage) (hdr' : Z -> chunk_t) (pgs' : list hpage) : Prop :=
  hp_addr <$> pgs' = hp_addr <$> pgs /\
  (forall a, in_use hdr pgs a <-> in_use hdr' pgs' a) /\
  (forall a, in_use hdr pgs a -> hdr' a = hdr a).

Lemma frame_refl hdr pgs : frame hdr pgs hdr pgs.
Proof. split_and!; done. Qed.

Lemma frame_trans hdr1 pgs1 hdr2 pgs2 hdr3 pgs3 :
  frame hdr1 pgs1 hdr2 pgs2 -> frame hdr2 pgs2 hdr3 pgs3 -> frame hdr1 pgs1 hdr3 pgs3.
Proof.
  intros (A1 & A2 & A3) (B1 & B2 & B3). split_and!.
  - congruence.
  - intros a. rewrite A2. apply B2.
  - intros a Ha. rewrite B3 by (by apply A2). by apply A3.
Qed.

Lemma tiles_perm_mid pgs1 p pgs2 l1 x l2 :
  hp_tiles p = l1 ++ x :: l2 -> tiles (pgs1 ++ p :: pgs2) ≡ₚ x :: (l1 ++ l2) ++ tiles pgs1 ++ tiles pgs2.
Proof.
  intros E. rewrite tiles_mid, E. rewrite (Permutation_app_comm (tiles pgs1)).
  rewrite <-Permutation_middle. simpl. by rewrite <-!app_assoc, (Permutation_app_comm (tiles pgs2)).
Qed.

Lemma tiles_nodup hdr pgs :
  Forall (page_ok hdr) pgs -> NoDup (hp_addr <$> pgs) -> NoDup (tiles pgs).
Proof.
  induction pgs as [|p pgs IH]; intros Hp Hnd; [constructor|].
  assert (Hall := Hp). apply Forall_cons in Hp as [[Ap Tp] Hp].
  assert (Hnd' := Hnd). simpl in Hnd. apply NoDup_cons in Hnd as [Hn Hnd]. unfold tiles in *. simpl.
  apply NoDup_app. split_and!; [by eapply tiled_nodup| |by apply IH].
  intros x Hx Hin. change (concat _) with (tiles pgs) in Hin.
  destruct (tile_range hdr pgs x Hp Hin) as (q & Hq & Q1 & Q2 & Q3 & _).
  apply tiled_bounds in Tp as [_ Tp]. specialize (Tp x Hx).
  rewrite Forall_forall in Hp. destruct (Hp q Hq) as [Aq _].
  pose proof (bucketByteSize_bounds _ Q3).
  destruct (aligned_apart (hp_addr p) (hp_addr q) Ap Aq); [|lia..].
  intros E. apply Hn. rewrite E. apply list_elem_of_fmap. eauto.
Qed.

(** Cutting a chunk in hand: the rest is a new chunk, on no stack. *)
Lemma heap_inv_split hdr hdr' st pgs hand c :
  let c1 := c + bucketByteSize (c_bucket (hdr' c)) in
  heap_inv hdr st pgs (c :: hand) ->
  0 <= c_bucket (hdr' c) < 12 -> 0 <= c_bucket (hdr' c1) < 12 ->
  bucketByteSize (c_bucket (hdr' c)) + bucketByteSize (c_bucket (hdr' c1))
    = bucketByteSize (c_bucket (hdr c)) ->
  c_free (hdr' c) = chr_F -> c_free (hdr' c1) <> chr_F ->
  (forall z, z <> c -> z <> c1 -> hdr' z = hdr z) ->
  exists pgs', heap_inv hdr' st pgs' (c :: hand) /\ c1 ∈ tiles pgs' /\ c1 ∉ concat st ++ c :: hand /\
    hp_addr <$> pgs' = hp_addr <$> pgs /\
    (forall a, a ∈ tiles pgs' <-> a = c1 \/ a ∈ tiles pgs).
Proof.
  intros c1 I Hb Hb1 Hsum Hf Hf1 Hz. pose proof I as [I1 I2 I3 I4 I5 I6 I7].
  assert (Hc : c ∈ tiles pgs) by (apply I5; set_solver).
  pose proof (bucketByteSize_bounds _ Hb). pose proof (bucketByteSize_bounds _ Hb1).
  assert (Hn1 : c1 ∉ tiles pgs) by (eapply inside_no_tile; eauto; lia).
  assert (Hn2 : c1 ∉ concat st ++ c :: hand) by (intros Hx; by apply I5 in Hx).
  assert (Hne : c1 <> c) by lia.
  pose proof Hc as Hc'. apply elem_of_tiles in Hc' as (pgs1 & p & pgs2 & l1 & l2 & Epgs & Ep).
  set (p' := mkPage (hp_addr p) (l1 ++ c :: c1 :: l2)).
  exists (pgs1 ++ p' :: pgs2).
  assert (Hperm : tiles (pgs1 ++ p' :: pgs2) ≡ₚ c1 :: tiles pgs).
  { rewrite Epgs, (tiles_perm_mid pgs1 p pgs2 l1 c l2 Ep).
    rewrite (tiles_perm_mid pgs1 p' pgs2 l1 c (c1 :: l2)) by done.
    rewrite <-(Permutation_middle l1). simpl. constructor. }
  assert (Hin : forall a, a ∈ tiles (pgs1 ++ p' :: pgs2) <-> a = c1 \/ a ∈ tiles pgs).
  { intros a. by rewrite Hperm, elem_of_cons. }
  assert (Hnd : NoDup (tiles pgs)) by (by eapply tiles_nodup).
  assert (Hkeep : forall x, x ∈ tiles pgs -> x <> c -> hdr' x = hdr x).
  { intros x Hx Hxc. apply Hz; [done|]. by intros ->. }
  assert (Haddr : hp_addr <$> pgs1 ++ p' :: pgs2 = hp_addr <$> pgs).
  { by rewrite Epgs, !fmap_app, !fmap_cons. }
  split_and!; [|apply Hin; by left|done|done|done].
  split; auto.
  - rewrite Epgs in *. rewrite (tiles_perm_mid pgs1 p pgs2 l1 c l2 Ep) in Hnd.
    apply NoDup_cons in Hnd as [Hcn _].
    assert (Hk2 : forall x, x ∈ (l1 ++ l2) ++ tiles pgs1 ++ tiles pgs2 -> hdr' x = hdr x).
    { intros x Hx. apply Hkeep; [|by intros ->]. rewrite (tiles_perm_mid pgs1 p pgs2 l1 c l2 Ep).
      by right. }
    apply Forall_app in I2 as [J1 J2]. apply Forall_cons in J2 as [[Ap Tp] J2].
    apply Forall_app. split; [|apply Forall_cons; split].
    + eapply page_ok_bucket; [|exact J1]. intros x Hx. rewrite Hk2; [done|]. rewrite !elem_of_app. auto.
    + split; [done|]. simpl. rewrite Ep in Tp. eapply tiled_split; eauto.
      intros z Hzin. rewrite Hk2; [done|]. rewrite elem_of_app. by left.
    + eapply page_ok_bucket; [|exact J2]. intros x Hx. rewrite Hk2; [done|]. rewrite !elem_of_app. auto.
  - by rewrite Haddr.
  - intros a [->|Ha]%Hin; [split; [done|]; intros; done|].
    destruct (decide (a = c)) as [->|Hac].
    + split; [intros _; set_solver|done].
    + rewrite Hkeep by done. by apply I4.
  - intros a Ha. apply Hin. right. by apply I5.
  - intros b l a Hl Ha. assert (a ∈ concat st).
    { apply list_elem_of_In, in_concat. exists l. split; apply list_elem_of_In; [|done].
      by eapply list_elem_of_lookup_2. }
    rewrite Hkeep; [by eapply I6|apply I5; set_solver|].
    intros ->. apply NoDup_app in I7 as (_ & I7 & _). apply (I7 c); [done|by left].
Qed.

(** ** The operations of the small heap *)

Section ops.
Context {S : Type} `{PageAllocator S}.
Implicit Types h : HeapManager S.

Abbreviation hinv h pgs hand := (heap_inv (h_hdr h) (first_chunk h) pgs hand).

(** The parts of the manager the small heap's operations leave alone. *)
Definition same_rest h h' : Prop :=
  h' = with_stacks (with_hdr h (h_hdr h')) (first_chunk h').

(** The directories of large and huge allocations. *)
Definition same_dirs h h' : Prop :=
  big_chunk_stack h' = big_chunk_stack h /\ huge_chunk_stack h' = huge_chunk_stack h /\
  hv_hugeblock_allocated h' = hv_hugeblock_allocated h.

Lemma same_rest_dirs h h' : same_rest h h' -> same_dirs h h'.
Proof. unfold same_rest, same_dirs. by intros ->. Qed.

Lemma same_rest_trans h1 h2 h3 : same_rest h1 h2 -> same_rest h2 h3 -> same_rest h1 h3.
Proof. unfold same_rest. intros -> ->. done. Qed.

Lemma stack_lookup st b : length st = 12%nat -> 0 <= b < 12 -> exists l : list Z, st !! Z.to_nat b = Some l.
Proof. intros Hl Hb. apply lookup_lt_is_Some_2. lia. Qed.

Lemma u16_bucket b : 0 <= b < 12 -> u16 b = b.
Proof. intros. apply wrap_small. unfold is_word. lia. Qed.

(** Cutting the chunk the larger bucket gave. *)
Lemma split_ok h pgs c b :
  hinv h pgs [c] -> 0 <= b < 11 -> c_bucket (h_hdr h c) = b + 1 ->
  let rest := bucketByteSize (b + 1) - bucketByteSize b in
  let c1 := c + bucketByteSize b in
  let hdr := upd (h_hdr h) c1 (set_bucket (h_hdr h c1) (bucket_fit rest)) in
  let hdr := upd hdr c (set_bucket (hdr c) b) in
  let h' := push_bucket c1 (bucket_fit rest) (with_hdr h hdr) in
  exists pgs', hinv h' pgs' [c] /\ c_bucket (h_hdr h' c) = b /\
    frame (h_hdr h) pgs (h_hdr h') pgs' /\ same_rest h h'.
Proof.
  intros I Hb Hcb rest c1 hdr1 hdr2 h'.
  destruct (split_sizes b Hb) as (Hr16 & Hrb & Hrs). fold rest in Hr16, Hrb, Hrs.
  pose proof (bucketByteSize_bounds b ltac:(lia)) as Hbs.
  assert (Hne : c1 <> c) by (subst c1; lia).
  assert (Hc : c ∈ tiles pgs) by (apply (hi_tile _ _ _ _ I); set_solver).
  assert (HcF : c_free (h_hdr h c) = chr_F) by (apply (hi_free _ _ _ _ I); set_solver).
  (* the headers with the new chunk not yet marked free *)
  set (g := mkChunk 0 (c_coalesce (hdr2 c1)) 0 0 (c_bucket (hdr2 c1))).
  assert (H2c : hdr2 c = set_bucket (h_hdr h c) b).
  { subst hdr2 hdr1. rewrite upd_eq, upd_ne by done. done. }
  assert (H2c1 : hdr2 c1 = set_bucket (h_hdr h c1) (bucket_fit rest)).
  { subst hdr2 hdr1. rewrite upd_ne, upd_eq by done. done. }
  assert (Hg : c_bucket g = bucket_fit rest).
  { subst g. simpl. rewrite H2c1. simpl. by apply u16_bucket. }
  assert (Hbc : c_bucket (upd hdr2 c1 g c) = b).
  { rewrite upd_ne, H2c by done. simpl. apply u16_bucket. lia. }
  destruct (heap_inv_split (h_hdr h) (upd hdr2 c1 g) (first_chunk h) pgs [] c)
    as (pgs' & I' & Hc1 & Hn1 & Haddr & Hin).
  { done. }
  { rewrite Hbc. lia. }
  { rewrite Hbc. fold c1. rewrite upd_eq, Hg. lia. }
  { rewrite Hbc. fold c1. rewrite upd_eq, Hg, Hrs, Hcb. subst rest. lia. }
  { rewrite upd_ne, H2c by done. done. }
  { rewrite Hbc. fold c1. by rewrite upd_eq. }
  { intros z Hz1 Hz2. rewrite Hbc in Hz2. fold c1 in Hz2. rewrite upd_ne by done.
    subst hdr2 hdr1. by rewrite !upd_ne. }
  rewrite Hbc in Hc1, Hn1, Hin. fold c1 in Hc1, Hn1, Hin.
  destruct (stack_lookup (first_chunk h) (bucket_fit rest) (hi_len _ _ _ _ I) Hrb) as [l Hl].
  assert (Hb1 : c_bucket (upd hdr2 c1 g c1) = bucket_fit rest) by (by rewrite upd_eq).
  pose proof (heap_inv_push _ _ _ [c] c1 l (or_introl I') Hc1 Hn1) as Ip.
  rewrite Hb1 in Ip. specialize (Ip Hl ltac:(lia)).
  assert (Hh : forall x, h_hdr h' x = upd (upd hdr2 c1 g) c1 (set_free (upd hdr2 c1 g c1)) x).
  { intros x. subst h'. unfold push_bucket. rewrite (proj2 (Z.leb_gt HBUCKETS (bucket_fit rest)))
      by (unfold HBUCKETS; lia). cbn [h_hdr with_stacks with_hdr]. rewrite upd_eq.
    unfold upd at 1 2. destruct (x =? c1) eqn:Ex; [|unfold upd; by rewrite Ex].
    unfold set_free. subst g. cbn. done. }
  assert (Hst : first_chunk h' = alter (Stack.push c1) (Z.to_nat (bucket_fit rest)) (first_chunk h)).
  { subst h'. unfold push_bucket. rewrite (proj2 (Z.leb_gt HBUCKETS (bucket_fit rest)))
      by (unfold HBUCKETS; lia). done. }
  exists pgs'. split_and!.
  - rewrite Hst. eapply heap_inv_ext; [|exact Ip]. exact Hh.
  - rewrite Hh, upd_ne, Hbc by done. done.
  - assert (Hk : forall a, a ∈ tiles pgs -> a <> c -> h_hdr h' a = h_hdr h a).
    { intros a Ha Hac. assert (a <> c1).
      { intros ->. eapply inside_no_tile; [apply I|apply I|exact Hc| |exact Ha]. rewrite Hcb.
        subst c1 rest. lia. }
      rewrite Hh, !upd_ne by done. subst hdr2 hdr1. by rewrite !upd_ne. }
    assert (HcF' : c_free (h_hdr h' c) = chr_F).
    { rewrite Hh, !upd_ne, H2c by done. done. }
    assert (Hc1F : c_free (h_hdr h' c1) = chr_F) by (by rewrite Hh, upd_eq).
    split_and!; [done| |].
    + intros a. unfold in_use. rewrite Hin. split.
      * intros [Ha Hf]. assert (a <> c) by (by intros ->). rewrite Hk by done. auto.
      * intros [[->|Ha] Hf]; [done|]. assert (a <> c) by (by intros ->).
        rewrite Hk in Hf by done. done.
    + intros a [Ha Hf]. apply Hk; [done|]. by intros ->.
  - subst h'. unfold same_rest, push_bucket. destruct (HBUCKETS <=? _); done.
Qed.

(** [pop_bucket] fails only when every stack from the bucket up is empty; else
    it hands out a chunk of the bucket's size. *)
Lemma pop_bucket_ok fuel b h pgs :
  hinv h pgs [] -> 0 <= b -> 12 - b <= Z.of_nat fuel ->
  match pop_bucket_rec fuel b h with
  | (None, h') => h' = h /\ forall b', b <= b' < 12 -> first_chunk h !! Z.to_nat b' = Some []
  | (Some c, h') =>
      b < 12 /\ exists pgs', hinv h' pgs' [c] /\ c_bucket (h_hdr h' c) = b /\
        frame (h_hdr h) pgs (h_hdr h') pgs' /\ same_rest h h'
  end.
Proof.
  intros I. revert b. induction fuel as [|fuel IH]; intros b Hb Hf; cbn [pop_bucket_rec].
  - split; [done|]. lia.
  - destruct (HBUCKETS <=? b) eqn:Eb; b2p; unfold HBUCKETS in Eb; [split; [done|lia]|].
    destruct (stack_lookup _ b (hi_len _ _ _ _ I) ltac:(lia)) as [l Hl]. rewrite Hl. cbn [default].
    destruct l as [|c l]; cbn [Stack.pop].
    + specialize (IH (b + 1) ltac:(lia) ltac:(lia)).
      destruct (pop_bucket_rec fuel (b + 1) h) as [[c|] h1].
      * destruct IH as (Hb11 & pgs1 & I1 & Hcb & Hfr & Hsr).
        destruct (split_ok h1 pgs1 c b I1 ltac:(lia) Hcb) as (pgs2 & I2 & Hcb2 & Hfr2 & Hsr2).
        destruct (split_sizes b ltac:(lia)) as (Hr16 & Hrb & Hrs).
        pose proof (bucketByteSize_bounds (b + 1) ltac:(lia)).
        pose proof (bucketByteSize_bounds b ltac:(lia)).
        rewrite Hcb, bucketIndex_fit. rewrite wrap_small by (unfold is_word; lia).
        rewrite (proj2 (Z.leb_le MIN_BUCKET_SIZE _)) by (unfold MIN_BUCKET_SIZE; lia).
        split; [lia|]. exists pgs2. split_and!; auto.
        -- by eapply frame_trans.
        -- by eapply same_rest_trans.
      * destruct IH as [-> IH]. split; [done|]. intros b' Hb'.
        destruct (decide (b' = b)) as [->|]; [done|]. apply IH. lia.
    + split; [lia|]. exists pgs. cbn [first_chunk with_stacks h_hdr].
      pose proof (heap_inv_pop _ _ _ _ _ _ _ I Hl) as I'. split_and!; auto.
      * rewrite (hi_stack _ _ _ _ I _ _ _ Hl) by (by left). lia.
      * apply frame_refl.
      * done.
Qed.

(** A new page is cut into chunks of 3728, 336 and 32 bytes. *)
Lemma cut_page_eq page h :
  cut_page 256 page PAGESIZE h =
    let cut c b h := push_bucket c b (with_hdr h (upd (h_hdr h) c (set_bucket (h_hdr h c) b))) in
    cut (page + 4064) 1 (cut (page + 3728) 6 (cut page 11 h)).
Proof.
  assert (Hs : forall fuel c r h, cut_page (Datatypes.S fuel) c r h =
      if MIN_BUCKET_SIZE <=? r then
        let bucket := bucketIndex r in
        let bucket := if (bucket =? HBUCKETS) || (r <? bucketByteSize bucket) then bucket - 1 else bucket in
        cut_page fuel (c + bucketByteSize bucket) (r - bucketByteSize bucket)
          (push_bucket c bucket (with_hdr h (upd (h_hdr h) c (set_bucket (h_hdr h c) bucket))))
      else h) by reflexivity.
  (* one round: the remaining bytes, the bucket they get, and its size *)
  assert (Hr : forall fuel c r b h, MIN_BUCKET_SIZE <= r ->
      (if (bucketIndex r =? HBUCKETS) || (r <? bucketByteSize (bucketIndex r))
       then bucketIndex r - 1 else bucketIndex r) = b ->
      cut_page (Datatypes.S fuel) c r h =
      cut_page fuel (c + bucketByteSize b) (r - bucketByteSize b)
        (push_bucket c b (with_hdr h (upd (h_hdr h) c (set_bucket (h_hdr h c) b))))).
  { intros fuel c r b h0 Hmin <-. rewrite Hs. by rewrite (proj2 (Z.leb_le _ _) Hmin). }
  rewrite (Hr 255%nat page PAGESIZE 11) by done.
  rewrite (Hr 254%nat _ _ 6) by done.
  rewrite (Hr 253%nat _ _ 1) by done.
  rewrite Hs. change (MIN_BUCKET_SIZE <=? _) with false. cbv zeta.
  change (bucketByteSize 11) with 3728. change (bucketByteSize 6) with 336.
  by replace (page + 3728 + 336) with (page + 4064) by lia.
Qed.

Lemma push_bucket_eq c b h :
  0 <= b < 12 ->
  push_bucket c b h = with_stacks (with_hdr h (upd (h_hdr h) c (set_free (h_hdr h c))))
    (alter (Stack.push c) (Z.to_nat b) (first_chunk h)).
Proof. intros Hb. unfold push_bucket. by rewrite (proj2 (Z.leb_gt HBUCKETS b)) by (unfold HBUCKETS; lia). Qed.

(** A tiled page none of whose chunks is free joins the heap. *)
Lemma heap_inv_page hdr st pgs p :
  heap_inv hdr st pgs [] -> page_ok hdr p -> hp_addr p ∉ hp_addr <$> pgs ->
  (forall a, a ∈ hp_tiles p -> c_free (hdr a) <> chr_F) ->
  heap_inv hdr st (p :: pgs) [].
Proof.
  intros I Hp Hn Hf. pose proof I as [I1 I2 I3 I4 I5 I6 I7].
  assert (Hall : Forall (page_ok hdr) (p :: pgs)) by (by constructor).
  assert (Hnd : NoDup (hp_addr <$> p :: pgs)) by (by constructor).
  pose proof (tiles_nodup _ _ Hall Hnd) as Ht. unfold tiles in *. simpl in *.
  apply NoDup_app in Ht as (_ & Ht & _). split; auto.
  - intros a. unfold tiles. simpl. rewrite elem_of_app. intros [Ha|Ha]; [|by apply I4].
    split; [intros HF; by destruct (Hf a Ha)|]. intros Hin%I5. by destruct (Ht a Ha).
  - intros a Ha. unfold tiles. simpl. rewrite elem_of_app. right. by apply I5.
Qed.

Lemma push_one hdr st pgs c b :
  heap_inv hdr st pgs [] -> c_bucket (hdr c) = b -> 0 <= b < 12 -> c ∈ tiles pgs -> c ∉ concat st ->
  heap_inv (upd hdr c (set_free (hdr c))) (alter (Stack.push c) (Z.to_nat b) st) pgs [] /\
  forall d, d ∈ concat (alter (Stack.push c) (Z.to_nat b) st) <-> d = c \/ d ∈ concat st.
Proof.
  intros I Hcb Hb Hc Hn. destruct (stack_lookup st b (hi_len _ _ _ _ I) Hb) as [l Hl]. split.
  - rewrite <-Hcb. eapply heap_inv_push; [by left|done|by rewrite app_nil_r|by rewrite Hcb|lia].
  - intros d. rewrite (alter_push _ _ _ _ Hl). destruct (concat_at st _ _ Hl) as (r & H1 & H2).
    rewrite H2, H1. simpl. rewrite elem_of_cons. done.
Qed.

Lemma newPage_ok h pgs page :
  hinv h pgs [] -> page mod PAGESIZE = 0 -> page ∉ hp_addr <$> pgs ->
  let h' := cut_page 256 page PAGESIZE h in
  let p := mkPage page [page; page + 3728; page + 4064] in
  hinv h' (p :: pgs) [] /\ same_rest h h' /\
  (exists l, first_chunk h' !! 11%nat = Some (page :: l)) /\
  (forall a, a ∈ hp_tiles p -> c_free (h_hdr h' a) = chr_F) /\
  (forall a, a ∈ tiles pgs -> h_hdr h' a = h_hdr h a).
Proof.
  intros I Hal Hn h' p. subst h'. rewrite cut_page_eq. cbv zeta.
  set (x := page + 3728) in *. set (y := page + 4064) in *.
  assert (Hxy : page <> x /\ page <> y /\ x <> y) by lia. destruct Hxy as (Hpx & Hpy & Hxy).
  set (hdr := h_hdr h) in *.
  assert (Hap : forall a, a ∈ tiles pgs -> a <> page /\ a <> x /\ a <> y).
  { intros a Ha. destruct (tile_range _ _ _ (hi_pages _ _ _ _ I) Ha) as (q & Hq & Q1 & Q2 & Q3 & _).
    pose proof (bucketByteSize_bounds _ Q3). pose proof (hi_pages _ _ _ _ I) as HP.
    rewrite Forall_forall in HP. destruct (HP q Hq) as [Aq _].
    destruct (aligned_apart page (hp_addr q) Hal Aq) as [?|?].
    - intros E. apply Hn. rewrite E. apply list_elem_of_fmap. eauto.
    - unfold PAGESIZE in *. lia.
    - unfold PAGESIZE in *. lia. }
  set (g := fun c b => mkChunk 0 (c_coalesce (hdr c)) 0 0 b).
  set (hdr0 := upd (upd (upd hdr page (g page 11)) x (g x 6)) y (g y 1)).
  assert (E0 : forall a, a ∈ tiles pgs -> hdr0 a = hdr a).
  { intros a Ha. destruct (Hap a Ha) as (? & ? & ?). subst hdr0. by rewrite !upd_ne. }
  assert (Ep : hdr0 page = g page 11) by (subst hdr0; by rewrite !upd_ne, upd_eq by done).
  assert (Ex : hdr0 x = g x 6) by (subst hdr0; by rewrite upd_ne, upd_eq by done).
  assert (Ey : hdr0 y = g y 1) by (subst hdr0; by rewrite upd_eq).
  assert (I0 : heap_inv hdr0 (first_chunk h) (p :: pgs) []).
  { apply heap_inv_page.
    - pose proof I as [I1 I2 I3 I4 I5 I6 I7]. split; auto.
      + eapply page_ok_bucket; [|exact I2]. intros a Ha. by rewrite E0.
      + intros a Ha. rewrite E0 by done. auto.
      + intros b l a Hl Ha. rewrite E0; [by eapply I6|]. apply I5, elem_of_app. left.
        apply list_elem_of_In, in_concat. exists l. split; apply list_elem_of_In; [|done].
        by eapply list_elem_of_lookup_2.
    - split; [done|]. cbn [tiled hp_tiles hp_addr p]. rewrite Ep, Ex, Ey. unfold HBUCKETS. cbn [c_bucket g].
      change (bucketByteSize 11) with 3728. change (bucketByteSize 6) with 336.
      change (bucketByteSize 1) with 32. subst x y. unfold PAGESIZE. lia.
    - done.
    - intros a. cbn [hp_tiles p]. rewrite !elem_of_cons, elem_of_nil.
      intros [->|[->|[->|[]]]]; rewrite ?Ep, ?Ex, ?Ey; done. }
  assert (Hni : forall c, c ∈ [page; x; y] -> c ∉ concat (first_chunk h)).
  { intros c Hc Hin. destruct (Hap c) as (A1 & A2 & A3).
    - apply (hi_tile _ _ _ _ I), elem_of_app. by left.
    - rewrite !elem_of_cons, elem_of_nil in Hc. tauto. }
  assert (Hti : forall c, c ∈ [page; x; y] -> c ∈ tiles (p :: pgs)).
  { intros c Hc. change (tiles (p :: pgs)) with ([page; x; y] ++ tiles pgs). apply elem_of_app. by left. }
  destruct (push_one hdr0 (first_chunk h) (p :: pgs) page 11 I0) as [I1 M1];
    [by rewrite Ep|lia|apply Hti; by left|apply Hni; by left|].
  destruct (push_one _ _ (p :: pgs) x 6 I1) as [I2 M2];
    [by rewrite upd_ne, Ex by done|lia|apply Hti; right; by left| |].
  { rewrite M1. intros [?|Hin]; [congruence|]. apply (Hni x); [right; by left|done]. }
  destruct (push_one _ _ (p :: pgs) y 1 I2) as [I3 M3];
    [by rewrite !upd_ne, Ey by done|lia|apply Hti; right; right; by left| |].
  { rewrite M2, M1. intros [?|[?|Hin]]; [congruence..|]. apply (Hni y); [right; right; by left|done]. }
  rewrite !push_bucket_eq by lia. cbn [h_hdr with_stacks with_hdr first_chunk]. fold hdr.
  split_and!.
  - eapply heap_inv_ext; [|exact I3]. intros a. unfold upd.
    destruct (a =? y) eqn:Ay; b2p; [subst a|destruct (a =? x) eqn:Ax; b2p; [subst a|
      destruct (a =? page) eqn:Apg; b2p; [subst a|]]];
      rewrite ?Z.eqb_refl, ?(proj2 (Z.eqb_neq _ _) Hpx), ?(proj2 (Z.eqb_neq _ _) Hpy),
        ?(proj2 (Z.eqb_neq _ _) Hxy), ?(proj2 (Z.eqb_neq _ _) (not_eq_sym Hpx)),
        ?(proj2 (Z.eqb_neq _ _) (not_eq_sym Hpy)), ?(proj2 (Z.eqb_neq _ _) (not_eq_sym Hxy)),
        ?Ep, ?Ex, ?Ey; try done.
    subst hdr0. by rewrite !upd_ne.
  - done.
  - rewrite !list_lookup_alter_ne by done. rewrite list_lookup_alter_eq.
    destruct (stack_lookup _ 11 (hi_len _ _ _ _ I) ltac:(lia)) as [l Hl].
    change (Z.to_nat 11) with 11%nat in *. rewrite Hl. by eexists.
  - intros a. subst p. cbn [hp_tiles]. rewrite !elem_of_cons, elem_of_nil. intros Hx. unfold upd.
    destruct (a =? y) eqn:E1; [done|]. destruct (a =? x) eqn:E2; [done|].
    destruct (a =? page) eqn:E3; [done|]. b2p. exfalso. clear -Hx E1 E2 E3. tauto.
  - intros a Ha. destruct (Hap a Ha) as (? & ? & ?). by rewrite !upd_ne.
Qed.

(** A chunk in hand is put to use. *)
Lemma heap_inv_use hdr st pgs hand c x :
  heap_inv hdr st pgs (c :: hand) -> c_free x <> chr_F -> c_bucket x = c_bucket (hdr c) ->
  heap_inv (upd hdr c x) st pgs hand.
Proof.
  intros [I1 I2 I3 I4 I5 I6 I7] Hf Hb.
  rewrite <-Permutation_middle in I7. apply NoDup_cons in I7 as [Hn I7].
  split; auto.
  - eapply page_ok_bucket; [|done]. intros y _. upd_cases; done.
  - intros a Ha. unfold upd. destruct (a =? c) eqn:E; b2p.
    + subst. split; [done|]. intros Hin. by destruct Hn.
    + rewrite (I4 a Ha), !elem_of_app, elem_of_cons. naive_solver.
  - intros a Ha. apply I5. rewrite !elem_of_app, elem_of_cons in *. tauto.
  - intros b l a Hl Ha. upd_cases; [rewrite Hb|]; by eapply I6.
Qed.
End ops.

(** ** Clients of the small heap *)

Section client.
Context {S : Type} `{PageAllocatorLaws S}.
Implicit Types (h : HeapManager S) (own : list (Z * Z)).

(** The byte at the end of the chunk of an allocation. *)
Definition guard_at h (ptr : Z) : Z := ptr - 8 + bucketByteSize (c_bucket (h_hdr h (ptr - 8))) - 1.

(** An allocation ([ptr], size): its chunk is in use and large enough, and its
    validation byte is set. *)
Definition owned_ok h (pgs : list hpage) (o : Z * Z) : Prop :=
  in_use (h_hdr h) pgs (o.1 - 8) /\ 0 <= o.2 /\ o.1 + o.2 <= guard_at h o.1 /\
  h_bytes h (guard_at h o.1) = chr_V.

(** The regions the small heap has from the page allocator. *)
Definition page_regions (pgs : list hpage) : list (Z * Z) := (fun a => (a, 1)) <$> (hp_addr <$> pgs).

(** The heap with the allocations of its clients, and the page regions [others]
    that belong to somebody else. *)
Record client_inv h (pgs : list hpage) (own others : list (Z * Z)) : Prop := {
  ci_heap : heap_inv (h_hdr h) (first_chunk h) pgs [];
  ci_pages : pa_ok (h_pages h) (page_regions pgs ++ others);
  ci_owned : Forall (owned_ok h pgs) own;
  ci_nodup : NoDup own.*1;
  ci_all : forall a, in_use (h_hdr h) pgs a -> a + 8 ∈ own.*1
}.

(** The bytes of an allocation. *)
Definition inside (o : Z * Z) (x : Z) : Prop := o.1 <= x < o.1 + o.2.

(** Allocations are inside their own chunks, hence apart. *)
Lemma owned_apart h pgs own others o1 o2 x :
  client_inv h pgs own others -> o1 ∈ own -> o2 ∈ own -> o1.1 <> o2.1 ->
  inside o1 x -> o2.1 - 8 <= x < o2.1 - 8 + bucketByteSize (c_bucket (h_hdr h (o2.1 - 8))) -> False.
Proof.
  intros C H1 H2 Hne Hx Hx2. pose proof (ci_owned _ _ _ _ C) as Ho. rewrite Forall_forall in Ho.
  destruct (Ho _ H1) as ([T1 _] & Z1 & G1 & _). destruct (Ho _ H2) as ([T2 _] & Z2 & G2 & _).
  pose proof (ci_heap _ _ _ _ C) as I. unfold guard_at, inside in *.
  destruct (tiles_apart _ _ (o1.1 - 8) (o2.1 - 8) (hi_pages _ _ _ _ I) (hi_distinct _ _ _ _ I) T1 T2);
    lia.
Qed.

(** Cutting and joining free chunks does not touch an allocation. *)
Lemma owned_frame h h' pgs pgs' o :
  frame (h_hdr h) pgs (h_hdr h') pgs' -> h_bytes h' = h_bytes h -> owned_ok h pgs o -> owned_ok h' pgs' o.
Proof.
  intros (_ & F1 & F2) Hb (U & H2 & H3 & H4). unfold owned_ok, guard_at in *.
  rewrite Hb, (F2 _ U). split_and!; auto. by apply F1.
Qed.

Lemma client_frame h h' pgs pgs' own others :
  client_inv h pgs own others ->
  heap_inv (h_hdr h') (first_chunk h') pgs' [] -> frame (h_hdr h) pgs (h_hdr h') pgs' ->
  h_bytes h' = h_bytes h -> h_pages h' = h_pages h -> client_inv h' pgs' own others.
Proof.
  intros C I F Hb Hp. split; auto.
  - rewrite Hp. unfold page_regions. destruct F as (-> & _). apply (ci_pages _ _ _ _ C).
  - eapply Forall_impl; [apply (ci_owned _ _ _ _ C)|]. intros o. by apply owned_frame.
  - apply (ci_nodup _ _ _ _ C).
  - intros a Ha. apply (ci_all _ _ _ _ C). by apply F.
Qed.

(** Taking a chunk: the state after a successful [pop_bucket]. *)
Lemma take_chunk h pgs own others c b i_sz tid :
  heap_inv (h_hdr h) (first_chunk h) pgs [c] -> c_bucket (h_hdr h c) = b -> 0 <= i_sz ->
  i_sz + 9 <= bucketByteSize b ->
  pa_ok (h_pages h) (page_regions pgs ++ others) ->
  Forall (owned_ok h pgs) own -> NoDup own.*1 ->
  (forall a, in_use (h_hdr h) pgs a -> a + 8 ∈ own.*1) ->
  let h' := with_hdr (with_bytes h (upd (h_bytes h) (c + bucketByteSize b - 1) chr_V))
              (upd (h_hdr h) c (set_allocated (h_hdr h c) i_sz tid)) in
  client_inv h' pgs ((c + 8, i_sz) :: own) others /\
  (forall o x, o ∈ own -> inside o x -> h_bytes h' x = h_bytes h x).
Proof.
  intros I Hcb Hsz Hfit Hpa Hown Hnd Hall h'.
  assert (Hc : c ∈ tiles pgs) by (apply (hi_tile _ _ _ _ I); set_solver).
  assert (HcF : c_free (h_hdr h c) = chr_F) by (apply (hi_free _ _ _ _ I); set_solver).
  assert (Hb12 : 0 <= b < 12).
  { rewrite <-Hcb. destruct (tile_range _ _ _ (hi_pages _ _ _ _ I) Hc) as (_ & _ & _ & _ & ? & _). done. }
  assert (Hne : forall o, o ∈ own -> o.1 - 8 <> c).
  { intros o Ho E. rewrite Forall_forall in Hown. destruct (Hown o Ho) as ([_ Hf] & _).
    by rewrite E in Hf. }
  assert (Hap : forall o x, o ∈ own -> c <= x < c + bucketByteSize b ->
    o.1 - 8 <= x < o.1 - 8 + bucketByteSize (c_bucket (h_hdr h (o.1 - 8))) -> False).
  { intros o x Ho Hx Hx2. rewrite Forall_forall in Hown. destruct (Hown o Ho) as ([T _] & _).
    destruct (tiles_apart _ _ c (o.1 - 8) (hi_pages _ _ _ _ I) (hi_distinct _ _ _ _ I) Hc T);
      [by apply not_eq_sym, Hne|rewrite ?Hcb in *; lia|lia]. }
  split; [split|].
  - subst h'. cbn [h_hdr with_hdr first_chunk with_bytes].
    eapply heap_inv_use; [exact I| |]; done.
  - done.
  - apply Forall_cons. split.
    + unfold owned_ok, guard_at, in_use. subst h'. cbn [h_hdr with_hdr h_bytes with_bytes fst snd].
      replace (c + 8 - 8) with c by lia. rewrite upd_eq. cbn [c_free c_bucket set_allocated]. rewrite Hcb.
      rewrite upd_eq. split_and!; [done|done|done|lia|done].
    + rewrite Forall_forall in Hown |- *. intros o Ho. pose proof (Hown o Ho) as (U & H2 & H3 & H4).
      unfold owned_ok, guard_at, in_use in *. subst h'. cbn [h_hdr with_hdr h_bytes with_bytes].
      rewrite !upd_ne with (t := c) by (by apply Hne). split_and!; auto; try apply U.
      rewrite upd_ne; [done|]. intros E.
      pose proof (bucketByteSize_bounds _ Hb12).
      apply (Hap o (c + bucketByteSize b - 1) Ho); [lia|]. rewrite <-E.
      destruct (tile_range _ _ _ (hi_pages _ _ _ _ I) (proj1 U)) as (_ & _ & _ & _ & Hb' & _).
      pose proof (bucketByteSize_bounds _ Hb'). lia.
  - simpl. apply NoDup_cons. split; [|done]. intros (o & E & Ho)%list_elem_of_fmap.
    apply (Hne o Ho). lia.
  - intros a [Ha Hf]. subst h'. cbn [h_hdr with_hdr with_bytes] in *. simpl. apply elem_of_cons.
    destruct (decide (a = c)) as [->|Hac]; [by left|]. right. rewrite upd_ne in Hf by done.
    apply Hall. by split.
  - intros o x Ho Hx. subst h'. cbn [h_bytes with_hdr with_bytes]. rewrite upd_ne; [done|]. intros ->.
    pose proof (bucketByteSize_bounds _ Hb12). rewrite Forall_forall in Hown.
    destruct (Hown o Ho) as (U & H2 & H3 & _). unfold inside, guard_at in *.
    apply (Hap o (c + bucketByteSize b - 1) Ho); lia.
Qed.

(** A call of [_allocate] that finds a chunk. *)
Lemma allocate_found fuel h pgs own others i_sz tid b :
  client_inv h pgs own others -> 0 <= i_sz ->
  b = bucket_fit (i_sz + CHUNK_HEADER_PLUS_RESERVED) -> b < 12 ->
  fst (pop_bucket b h) <> None ->
  exists ptr h' pgs', _allocate_rec (Datatypes.S fuel) i_sz tid h = Done (ptr, h') /\
    client_inv h' pgs' ((ptr, i_sz) :: own) others /\ same_dirs h h' /\
    (forall x, x <> guard_at h' ptr -> h_bytes h' x = h_bytes h x) /\
    (forall o x, o ∈ own -> inside o x -> h_bytes h' x = h_bytes h x).
Proof.
  intros C Hsz Hb Hb12 Hne.
  pose proof (bucket_fit_bounds (i_sz + CHUNK_HEADER_PLUS_RESERVED)) as Hbb. rewrite <-Hb in Hbb.
  cbn [_allocate_rec]. rewrite bucketIndex_fit, <-Hb. unfold pop_bucket in *.
  pose proof (pop_bucket_ok (Z.to_nat HBUCKETS) b h pgs (ci_heap _ _ _ _ C) ltac:(lia)
    ltac:(unfold HBUCKETS; lia)) as Hp.
  destruct (pop_bucket_rec _ b h) as [[c|] h1].
  2:{ done. }
  destruct Hp as (_ & pgs1 & I1 & Hcb & F & Hsr).
  assert (Hbytes : h_bytes h1 = h_bytes h) by (by rewrite Hsr).
  assert (Hpages : h_pages h1 = h_pages h) by (by rewrite Hsr).
  assert (HcF : c_free (h_hdr h1 c) = chr_F).
  { apply (hi_free _ _ _ _ I1); [apply (hi_tile _ _ _ _ I1)|]; set_solver. }
  rewrite HcF, Z.eqb_refl, Hcb.
  destruct (take_chunk h1 pgs1 own others c b i_sz tid I1 Hcb Hsz) as [C2 Hby].
  - rewrite Hb. unfold CHUNK_HEADER_PLUS_RESERVED in *. apply bucket_fit_fits. lia.
  - rewrite Hpages. unfold page_regions. destruct F as (-> & _). apply (ci_pages _ _ _ _ C).
  - eapply Forall_impl; [apply (ci_owned _ _ _ _ C)|]. intros o. by apply owned_frame.
  - apply (ci_nodup _ _ _ _ C).
  - intros a Ha. apply (ci_all _ _ _ _ C). by apply F.
  - eexists _, _, pgs1. split; [done|]. split; [exact C2|]. split; [by apply same_rest_dirs in Hsr|].
    split.
    { intros x Hx. cbn [h_bytes with_hdr with_bytes]. rewrite upd_ne, Hbytes; [done|]. intros ->.
      apply Hx. unfold guard_at. cbn [h_hdr with_hdr]. replace (c + 8 - 8) with c by lia.
      rewrite upd_eq. cbn [c_bucket set_allocated with_bytes h_hdr]. by rewrite Hcb. }
    intros o x Ho Hx. rewrite <-Hbytes. by apply (Hby o).
Qed.

(** A new page in the client's view. *)
Lemma client_newPage h pgs own others page s' :
  client_inv h pgs own others -> pa_alloc 1 (h_pages h) = Done (page, s') ->
  let h1 := with_pages h s' (u32 (hv_smallheap_page_count h + 1)) in
  let h' := cut_page 256 page PAGESIZE h1 in
  client_inv h' (mkPage page [page; page + 3728; page + 4064] :: pgs) own others /\
  (exists l, first_chunk h' !! 11%nat = Some (page :: l)) /\ h_bytes h' = h_bytes h /\ same_dirs h h'.
Proof.
  intros C Ha h1 h'. destruct (pa_alloc_ok _ _ 1 _ _ (ci_pages _ _ _ _ C) ltac:(lia) Ha)
    as (Hpa & Hal & Hnz).
  assert (Hn : page ∉ hp_addr <$> pgs).
  { intros Hin. assert (Hr : (page, 1) ∈ page_regions pgs ++ others).
    { apply elem_of_app. left. apply list_elem_of_fmap. by exists page. }
    apply list_elem_of_split in Hr as (r1 & r2 & Er). rewrite Er in Hpa.
    eapply pa_perm in Hpa; [|by rewrite <-(Permutation_middle r1)].
    apply pa_apart in Hpa. clear -Hpa. unfold apart, PAGESIZE in Hpa. cbn [fst snd] in Hpa. lia. }
  destruct (newPage_ok h1 pgs page (ci_heap _ _ _ _ C) Hal Hn) as (I & Hsr & Hin & Hfree & Hk).
  fold h' in I, Hsr, Hin, Hk, Hfree.
  assert (Hbytes : h_bytes h' = h_bytes h) by (by rewrite Hsr).
  assert (Hpages : h_pages h' = s') by (by rewrite Hsr).
  set (p := mkPage page [page; page + 3728; page + 4064]) in *. change (h_hdr h1) with (h_hdr h) in Hk.
  assert (Hdirs : same_dirs h h') by (by apply same_rest_dirs in Hsr).
  clearbody h'. clear Hsr.
  assert (Huse : forall a, in_use (h_hdr h) pgs a <-> in_use (h_hdr h') (p :: pgs) a).
  { intros a. unfold in_use. change (tiles (p :: pgs)) with (hp_tiles p ++ tiles pgs).
    rewrite elem_of_app. split.
    - intros [Ht Hf]. rewrite Hk by done. auto.
    - intros [[Ht|Ht] Hf]; [by rewrite Hfree in Hf|]. rewrite Hk in Hf by done. auto. }
  split; [split|split; [done|split; done]].
  - done.
  - rewrite Hpages. done.
  - eapply Forall_impl; [apply (ci_owned _ _ _ _ C)|]. intros o (U & H2' & H3 & H4).
    unfold owned_ok, guard_at in *. rewrite Hbytes, Hk by apply U. split_and!; auto. by apply Huse.
  - apply (ci_nodup _ _ _ _ C).
  - intros a Ha2. apply (ci_all _ _ _ _ C). by apply Huse.
Qed.
End client.

(** ** Theorems *)

(** [bucketIndex] finds the smallest bucket that fits, for every size and
    whatever value lies in front of the table, which the search reads when the
    size is at most 16. *)
Theorem bucketIndex_correct junk sz :
  0 <= bucketIndex_at junk sz <= HBUCKETS /\
  (bucketIndex_at junk sz < HBUCKETS -> sz <= bucketByteSize (bucketIndex_at junk sz)) /\
  (forall b, 0 <= b < HBUCKETS -> sz <= bucketByteSize b -> bucketIndex_at junk sz <= b).
Proof.
  rewrite bucketIndex_fit. split_and!.
  - apply bucket_fit_bounds.
  - apply bucket_fit_bounds.
  - apply bucket_fit_fits.
  - intros b Hb. by apply bucket_fit_least.
Qed.

(** Small allocations.  For a request that fits the small heap [_allocate]
    returns after at most one new page, unless the page allocator stops the
    machine; what it returns is apart from every allocation in use, none of
    which changes a byte, its chunk is large enough, and the chunks still tile
    their pages. *)
Lemma allocate_spec {S} `{PageAllocatorLaws S} (h : HeapManager S) pgs own others i_sz tid :
  client_inv h pgs own others -> 0 <= i_sz <= MAX_SMALL_ALLOC_SIZE ->
  match _allocate i_sz tid h with
  | Crash f => pa_alloc 1 (h_pages h) = Crash f
  | Done (ptr, h') =>
      (exists pgs', client_inv h' pgs' ((ptr, i_sz) :: own) others) /\ same_dirs h h' /\
      (forall x, x <> guard_at h' ptr -> h_bytes h' x = h_bytes h x) /\
      (forall o x, o ∈ own -> inside o x -> h_bytes h' x = h_bytes h x) /\
      (forall o x, o ∈ own -> inside o x -> ~ inside (ptr, i_sz) x)
  end.
Proof.
  intros C Hsz. unfold MAX_SMALL_ALLOC_SIZE, CHUNK_HEADER_PLUS_RESERVED in Hsz.
  set (b := bucket_fit (i_sz + CHUNK_HEADER_PLUS_RESERVED)).
  assert (Hb : 0 <= b < 12).
  { pose proof (bucket_fit_bounds (i_sz + CHUNK_HEADER_PLUS_RESERVED)). fold b in H1.
    assert (b <= 11); [|lia]. apply bucket_fit_least; [lia|]. change (bucketByteSize 11) with 3728.
    unfold CHUNK_HEADER_PLUS_RESERVED. lia. }
  assert (Hgoal : forall fuel h1 pgs1, client_inv h1 pgs1 own others ->
    h_bytes h1 = h_bytes h -> same_dirs h h1 ->
    fst (pop_bucket b h1) <> None ->
    match _allocate_rec (Datatypes.S fuel) i_sz tid h1 with
    | Crash f => pa_alloc 1 (h_pages h) = Crash f
    | Done (ptr, h') =>
      (exists pgs', client_inv h' pgs' ((ptr, i_sz) :: own) others) /\ same_dirs h h' /\
      (forall x, x <> guard_at h' ptr -> h_bytes h' x = h_bytes h x) /\
      (forall o x, o ∈ own -> inside o x -> h_bytes h' x = h_bytes h x) /\
      (forall o x, o ∈ own -> inside o x -> ~ inside (ptr, i_sz) x)
    end).
  { intros fuel h1 pgs1 C1 Hby Hdirs Hne.
    destruct (allocate_found fuel h1 pgs1 own others i_sz tid b C1 ltac:(lia) eq_refl ltac:(lia) Hne)
      as (ptr & h' & pgs' & -> & C' & Hd' & Hg' & Hby').
    split; [by eexists|]. split; [unfold same_dirs in *; destruct Hd' as (-> & -> & ->); done|].
    split; [intros x Hx; rewrite <-Hby; by apply Hg'|].
    split; [intros o x Ho Hx; rewrite <-Hby; by eapply Hby'|].
    intros o x Ho Hx Hx2. pose proof (ci_nodup _ _ _ _ C') as Hnd. simpl in Hnd.
    apply NoDup_cons in Hnd as [Hn _].
    apply (owned_apart h' pgs' _ others o (ptr, i_sz) x C'); [by right|by left| |done|].
    - intros E. apply Hn, list_elem_of_fmap. exists o. done.
    - pose proof (ci_owned _ _ _ _ C') as Hf. apply Forall_cons in Hf as [(_ & _ & Hg & _) _].
      unfold inside, guard_at in *. simpl in *. lia. }
  pose proof (pop_bucket_ok (Z.to_nat HBUCKETS) b h pgs (ci_heap _ _ _ _ C) ltac:(lia)
    ltac:(unfold HBUCKETS; lia)) as Hp.
  destruct (pop_bucket_rec (Z.to_nat HBUCKETS) b h) as [[c|] h0] eqn:Epop.
  { apply (Hgoal 1%nat h pgs C eq_refl ltac:(done)). unfold pop_bucket. by rewrite Epop. }
  destruct Hp as [-> Hempty].
  assert (Hun : _allocate i_sz tid h = do (_, h') <- newPage h; _allocate_rec 1 i_sz tid h').
  { unfold _allocate. cbn [_allocate_rec]. rewrite bucketIndex_fit. fold b. unfold pop_bucket at 1.
    by rewrite Epop. }
  rewrite Hun. unfold newPage.
  destruct (pa_alloc 1 (h_pages h)) as [[page s']|f] eqn:Ea; cbn [obind]; [|done].
  destruct (client_newPage h pgs own others page s' C Ea) as (C1 & (l & Hl) & Hby & Hdirs).
  specialize (Hgoal 0%nat _ _ C1 Hby Hdirs). apply Hgoal. clear Hgoal.
  set (h2 := cut_page 256 page PAGESIZE _) in *.
  pose proof (pop_bucket_ok (Z.to_nat HBUCKETS) b h2 _ (ci_heap _ _ _ _ C1) ltac:(lia)
    ltac:(unfold HBUCKETS; lia)) as Hp. unfold pop_bucket.
  destruct (pop_bucket_rec (Z.to_nat HBUCKETS) b h2) as [[c|] h3]; [done|].
  destruct Hp as [_ Hp]. specialize (Hp 11 ltac:(lia)). change (Z.to_nat 11) with 11%nat in Hp. congruence.
Qed.

(** Releasing.  The release of an allocation returns; the other allocations
    keep their chunks and bytes and the chunk is free again; a second release of
    it stops the machine, and so does the release of an allocation whose
    validation byte was overwritten end the task. *)
Lemma free_spec {S} `{PageAllocatorLaws S} (h : HeapManager S) pgs own1 own2 others ptr sz :
  client_inv h pgs (own1 ++ (ptr, sz) :: own2) others ->
  (exists h', free_small ptr h = Done h' /\ client_inv h' pgs (own1 ++ own2) others /\
     h_bytes h' = h_bytes h /\ free_small ptr h' = Crash KAssert) /\
  (forall v, v <> chr_V ->
     free_small ptr (with_bytes h (upd (h_bytes h) (guard_at h ptr) v)) = Crash TaskCrash).
Proof.
  intros C. pose proof (ci_owned _ _ _ _ C) as Ho. rewrite Forall_forall in Ho.
  destruct (Ho (ptr, sz)) as (U & Hsz & Hg & Hv); [set_solver|]. cbn [fst snd] in *.
  pose proof (ci_heap _ _ _ _ C) as I. destruct U as [Ht HnF].
  destruct (tile_range _ _ _ (hi_pages _ _ _ _ I) Ht) as (_ & _ & _ & _ & Hb & _).
  split.
  2:{ intros v Hne. unfold free_small, guard_at in *. cbn [h_hdr with_bytes h_bytes].
      rewrite (proj2 (Z.eqb_neq _ _) HnF). cbn [negb]. rewrite upd_eq.
      by rewrite (proj2 (Z.eqb_neq _ _) Hne). }
  unfold free_small at 1. rewrite (proj2 (Z.eqb_neq _ _) HnF). cbn [negb].
  unfold guard_at in Hv. rewrite Hv, Z.eqb_refl. cbn [negb]. rewrite push_bucket_eq by done.
  set (c := ptr - 8) in *. eexists. split; [done|].
  destruct (push_one _ _ _ c _ I eq_refl Hb Ht) as [I' _].
  { intros Hin. apply HnF, (hi_free _ _ _ _ I); [done|]. rewrite app_nil_r. done. }
  assert (Hnd := ci_nodup _ _ _ _ C). rewrite fmap_app, fmap_cons in Hnd. simpl in Hnd.
  rewrite <-Permutation_middle in Hnd. apply NoDup_cons in Hnd as [Hn Hnd].
  rewrite <-fmap_app in Hn, Hnd.
  assert (Hne : forall o, o ∈ own1 ++ own2 -> o.1 - 8 <> c).
  { intros o Hin E. apply Hn, list_elem_of_fmap. exists o. split; [subst c; lia|done]. }
  split_and!; [split|done|].
  - done.
  - apply (ci_pages _ _ _ _ C).
  - rewrite Forall_forall. intros o Hin. destruct (Ho o) as ([T F] & H2 & H3 & H4); [set_solver|].
    unfold owned_ok, guard_at, in_use in *. cbn [h_hdr with_stacks with_hdr h_bytes].
    rewrite !upd_ne by (by apply Hne). done.
  - done.
  - intros a [Ha Hf]. cbn [h_hdr with_stacks with_hdr] in *. unfold upd in Hf.
    destruct (a =? c) eqn:E; [done|]. b2p.
    pose proof (ci_all _ _ _ _ C a (conj Ha Hf)) as Hin. rewrite fmap_app, fmap_cons in Hin. simpl in Hin.
    rewrite fmap_app. rewrite elem_of_app, elem_of_cons in Hin. rewrite elem_of_app.
    destruct Hin as [?|[?|?]]; [by left| |by right]. subst c. lia.
  - unfold free_small. cbn [h_hdr with_stacks with_hdr]. fold c. rewrite upd_eq. done.
Qed.
