(* ===== verification/HeapCoalesce.v ===== *)
(** * Coalescing the small heap ([HeapManager::_coalesce])

    Joining neighbours keeps the chunks a tiling of their pages and the free
    bytes; the passes end; when they have ended no two free neighbours can be
    joined any more. *)

From Stdlib Require Import Sorted.
From S2P Require Import Prelude Containers Sync PageMgr HeapMgr HeapMgrSpec.

Definition no_stacks : list (list Z) := replicate 12 [].

Lemma concat_no_stacks : concat no_stacks = [].
Proof. reflexivity. Qed.

(** ** The chain of free chunks *)

Definition marked (ts : list Z) (hdr hdr' : Z -> chunk_t) : Prop :=
  forall x, hdr' x = if decide (x ∈ ts) then set_coalesce (hdr x) chr_C else hdr x.

Lemma marked_free ts hdr hdr' x :
  marked ts hdr hdr' -> c_free (hdr' x) = c_free (hdr x) /\ c_bucket (hdr' x) = c_bucket (hdr x).
Proof. intros Hm. rewrite (Hm x). by case_decide. Qed.

Lemma marked_trans ts1 ts2 hdr1 hdr2 hdr3 :
  marked ts1 hdr1 hdr2 -> marked ts2 hdr2 hdr3 -> marked (ts1 ++ ts2) hdr1 hdr3.
Proof.
  intros H1 H2 x. rewrite (H2 x), (H1 x).
  destruct (decide (x ∈ ts2)), (decide (x ∈ ts1)), (decide (x ∈ ts1 ++ ts2)); set_solver.
Qed.

Lemma chain_stack_ok st head hdr :
  (forall x, x ∈ st -> c_free (hdr x) = chr_F) ->
  exists hdr', chain_stack st head hdr = Done (reverse st ++ head, hdr') /\ marked st hdr hdr'.
Proof.
  revert head hdr. induction st as [|c st IH]; intros head hdr Hf; cbn [chain_stack].
  - exists hdr. split; [done|]. intros x. by rewrite decide_False by (by intros ?%elem_of_nil).
  - rewrite (Hf c) by (by left). rewrite Z.eqb_refl.
    destruct (IH (c :: head) (upd hdr c (set_coalesce (hdr c) chr_C))) as (hdr' & -> & Hm).
    { intros x Hx. unfold upd. case_match; b2p; [subst|]; simpl; apply Hf; [by left|by right]. }
    exists hdr'. split; [by rewrite reverse_cons, <-app_assoc|].
    intros x. rewrite (Hm x). unfold upd.
    destruct (x =? c) eqn:E; b2p.
    + subst. rewrite (decide_True (P := c ∈ c :: st)) by (by left). by case_decide.
    + destruct (decide (x ∈ st)), (decide (x ∈ c :: st)); set_solver.
Qed.

Lemma chain_stacks_ok sts head hdr :
  (forall x, x ∈ concat sts -> c_free (hdr x) = chr_F) ->
  exists head' hdr', chain_stacks sts head hdr = Done (head', hdr') /\
    head' ≡ₚ concat sts ++ head /\ marked (concat sts) hdr hdr'.
Proof.
  revert head hdr. induction sts as [|st sts IH]; intros head hdr Hf; cbn [chain_stacks].
  - exists head, hdr. split_and!; [done|done|]. intros x.
    by rewrite decide_False by (by intros ?%elem_of_nil).
  - destruct (chain_stack_ok st head hdr) as (hdr1 & -> & M1).
    { intros x Hx. apply Hf. simpl. apply elem_of_app. by left. }
    cbn [obind]. destruct (IH (reverse st ++ head) hdr1) as (head' & hdr' & -> & Hp & M2).
    { intros x Hx. rewrite (proj1 (marked_free _ _ _ x M1)). apply Hf. simpl. apply elem_of_app. by right. }
    exists head', hdr'. split_and!; [done| |].
    + simpl. rewrite Hp, reverse_Permutation. solve_Permutation.
    + simpl. by eapply marked_trans.
Qed.

(** ** Joining *)

Definition size_of (hdr : Z -> chunk_t) (x : Z) : Z := bucketByteSize (c_bucket (hdr x)).

Fixpoint bytes_of (hdr : Z -> chunk_t) (l : list Z) : Z :=
  match l with [] => 0 | x :: l => size_of hdr x + bytes_of hdr l end.

Lemma bytes_of_perm hdr l l' : l ≡ₚ l' -> bytes_of hdr l = bytes_of hdr l'.
Proof. induction 1; simpl; lia. Qed.

Lemma bytes_of_ext hdr hdr' l :
  (forall x, x ∈ l -> c_bucket (hdr' x) = c_bucket (hdr x)) -> bytes_of hdr' l = bytes_of hdr l.
Proof.
  induction l as [|x l IH]; intros Hx; [done|]. simpl. unfold size_of. rewrite (Hx x) by (by left).
  rewrite IH; [done|]. intros y Hy. apply Hx. by right.
Qed.

(** All free chunks are in hand and carry the mark. *)
Record merge_inv (hdr : Z -> chunk_t) (pgs : list hpage) (live : list Z) : Prop := {
  mg_heap : heap_inv hdr no_stacks pgs live;
  mg_mark : forall x, x ∈ live -> c_coalesce (hdr x) = chr_C
}.

Lemma mg_free hdr pgs live x :
  merge_inv hdr pgs live -> x ∈ tiles pgs -> (c_free (hdr x) = chr_F <-> x ∈ live).
Proof. intros M Hx. by rewrite (hi_free _ _ _ _ (mg_heap _ _ _ M) x Hx). Qed.

Lemma mg_tile hdr pgs live x : merge_inv hdr pgs live -> x ∈ live -> x ∈ tiles pgs.
Proof. intros M Hx. by apply (hi_tile _ _ _ _ (mg_heap _ _ _ M)). Qed.

Lemma ALIGN_PAGE_DOWN_in p x :
  p mod PAGESIZE = 0 -> p <= x < p + PAGESIZE -> ALIGN_PAGE_DOWN x = p.
Proof.
  unfold ALIGN_PAGE_DOWN, PAGESIZE. intros Hp Hx. Z.to_euclidean_division_equations. lia.
Qed.

(** The right neighbour of a chunk, if the page has one, is the next chunk. *)
Lemma neighbour hdr pgs1 p pgs2 l1 x l2 :
  Forall (page_ok hdr) (pgs1 ++ p :: pgs2) -> hp_tiles p = l1 ++ x :: l2 ->
  ALIGN_PAGE_DOWN (x + size_of hdr x) = ALIGN_PAGE_DOWN x ->
  exists l3, l2 = (x + size_of hdr x) :: l3.
Proof.
  intros Hall E Hal. apply Forall_app in Hall as [_ Hall]. apply Forall_cons in Hall as [[Ap Tp] _].
  pose proof (tiled_bounds _ _ _ _ Tp) as [_ Hb].
  rewrite E in Tp, Hb. apply tiled_app in Tp as (m & T1 & -> & Hbk & T2).
  destruct (Hb m) as (B1 & B2 & B3); [set_solver|].
  pose proof (bucketByteSize_bounds _ B3). fold (size_of hdr m) in *.
  rewrite (ALIGN_PAGE_DOWN_in (hp_addr p) m Ap) in Hal by lia.
  destruct l2 as [|y l3]; simpl in T2.
  - exfalso. rewrite T2 in Hal.
    rewrite (ALIGN_PAGE_DOWN_in (hp_addr p + PAGESIZE)) in Hal; [unfold PAGESIZE in *; lia| |unfold PAGESIZE; lia].
    unfold PAGESIZE in *. rewrite <-Zplus_mod_idemp_r, Z_mod_same_full, Z.add_0_r. done.
  - destruct T2 as (-> & _). by eexists.
Qed.

(** Joining two free neighbours. *)
Lemma heap_inv_join hdr hdr' pgs1 p pgs2 l1 x y l2 rest :
  heap_inv hdr no_stacks (pgs1 ++ p :: pgs2) (x :: y :: rest) -> hp_tiles p = l1 ++ x :: y :: l2 ->
  0 <= c_bucket (hdr' x) < HBUCKETS ->
  size_of hdr' x = size_of hdr x + size_of hdr y ->
  c_free (hdr' x) = chr_F -> (forall z, z <> x -> z <> y -> hdr' z = hdr z) ->
  let p' := mkPage (hp_addr p) (l1 ++ x :: l2) in
  heap_inv hdr' no_stacks (pgs1 ++ p' :: pgs2) (x :: rest) /\
  frame hdr (pgs1 ++ p :: pgs2) hdr' (pgs1 ++ p' :: pgs2) /\
  (forall z, z ∈ tiles (pgs1 ++ p :: pgs2) <-> z = y \/ z ∈ tiles (pgs1 ++ p' :: pgs2)) /\
  y ∉ tiles (pgs1 ++ p' :: pgs2).
Proof.
  intros I E Hb Hsz Hf Hk p'. pose proof I as [I1 I2 I3 I4 I5 I6 I7].
  pose proof (tiles_nodup _ _ I2 I3) as Hnd.
  assert (Hp1 : tiles (pgs1 ++ p :: pgs2) ≡ₚ x :: y :: (l1 ++ l2) ++ tiles pgs1 ++ tiles pgs2).
  { rewrite (tiles_perm_mid pgs1 p pgs2 l1 x (y :: l2) E). by rewrite <-(Permutation_middle l1). }
  assert (Hp2 : tiles (pgs1 ++ p' :: pgs2) ≡ₚ x :: (l1 ++ l2) ++ tiles pgs1 ++ tiles pgs2).
  { by apply (tiles_perm_mid pgs1 p' pgs2 l1 x l2). }
  assert (Hnd2 := Hnd). rewrite Hp1 in Hnd2. apply NoDup_cons in Hnd2 as [Hx Hnd2].
  apply NoDup_cons in Hnd2 as [Hy Hnd2].
  assert (Hxy : x <> y) by (intros ->; apply Hx; by left).
  assert (Hyn : y ∉ tiles (pgs1 ++ p' :: pgs2)).
  { rewrite Hp2. intros [->|?]%elem_of_cons; done. }
  assert (Hin : forall z, z ∈ tiles (pgs1 ++ p :: pgs2) <-> z = y \/ z ∈ tiles (pgs1 ++ p' :: pgs2)).
  { intros z. rewrite Hp1, Hp2, !elem_of_cons. tauto. }
  assert (Hkeep : forall z, z ∈ (l1 ++ l2) ++ tiles pgs1 ++ tiles pgs2 -> hdr' z = hdr z).
  { intros z Hz. apply Hk; [intros ->; apply Hx; by right|by intros ->]. }
  rewrite concat_no_stacks in *. cbn [app] in *.
  apply NoDup_cons in I7 as [Hxr I7]. apply NoDup_cons in I7 as [Hyr I7].
  assert (HxF : c_free (hdr x) = chr_F) by (apply I4; [apply I5|]; by left).
  assert (HyF : c_free (hdr y) = chr_F) by (apply I4; [apply I5|]; right; by left).
  split_and!; [split| |done|done].
  - done.
  - apply Forall_app in I2 as [J1 J2]. apply Forall_cons in J2 as [[Ap Tp] J2].
    apply Forall_app. split; [|apply Forall_cons; split].
    + eapply page_ok_bucket; [|exact J1]. intros z Hz. rewrite Hkeep; [done|]. rewrite !elem_of_app. auto.
    + split; [done|]. simpl. rewrite E in Tp. eapply tiled_join; eauto.
      intros z Hz. rewrite Hkeep; [done|]. rewrite elem_of_app. by left.
    + eapply page_ok_bucket; [|exact J2]. intros z Hz. rewrite Hkeep; [done|]. rewrite !elem_of_app. auto.
  - by rewrite fmap_app, fmap_cons in *.
  - intros a Ha. rewrite concat_no_stacks. cbn [app]. destruct (decide (a = x)) as [->|Hax].
    + split; [intros _; by left|done].
    + assert (a <> y) by (by intros ->). rewrite Hk by done.
      rewrite (I4 a) by (apply Hin; by right). rewrite !elem_of_cons. tauto.
  - intros a. rewrite concat_no_stacks. cbn [app]. intros Ha.
    assert (Hat : a ∈ tiles (pgs1 ++ p :: pgs2)).
    { apply I5. apply elem_of_cons in Ha as [->|Ha]; [by left|]. right. by right. }
    apply Hin in Hat as [->|?]; [|done]. exfalso. apply elem_of_cons in Ha as [?|?]; [done|].
    apply Hyr. done.
  - intros b l a Hl Ha. unfold no_stacks in Hl. apply lookup_replicate in Hl as [-> _].
    by apply elem_of_nil in Ha.
  - rewrite concat_no_stacks. cbn [app]. constructor; [|done]. intros ?. apply Hxr. by right.
  - assert (Hk2 : forall a, a <> x -> a <> y -> hdr' a = hdr a) by done.
    split_and!.
    + by rewrite !fmap_app, !fmap_cons.
    + intros a. unfold in_use. rewrite Hin. split.
      * intros [[->|Ha] Hnf]; [done|]. split; [done|]. assert (a <> y) by (by intros ->).
        rewrite Hk2; [done| |done]. by intros ->.
      * intros [Ha Hnf]. assert (a <> y) by (by intros ->). assert (a <> x) by (by intros ->).
        rewrite Hk2 in Hnf by done. auto.
    + intros a [Ha Hnf]. apply Hk2; by intros ->.
Qed.

(** ** One try *)

Lemma still_free_live hdr pgs live x :
  merge_inv hdr pgs live -> x ∈ live -> still_free hdr x = true.
Proof.
  intros M Hx. unfold still_free. rewrite (mg_mark _ _ _ M x Hx).
  by rewrite (proj2 (mg_free _ _ _ x M (mg_tile _ _ _ _ M Hx)) Hx).
Qed.

Lemma try_merge_free hdr x : still_free hdr x = false -> try_merge x hdr = None.
Proof.
  unfold still_free, try_merge. intros Hs. destruct (c_coalesce (hdr x) =? chr_C), (c_free (hdr x) =? chr_F);
    done.
Qed.

(** A successful try joins the chunk with its neighbour, which is dropped. *)
Lemma try_merge_ok hdr pgs live x hdr' :
  merge_inv hdr pgs live -> x ∈ live -> try_merge x hdr = Some hdr' ->
  exists pgs' live' y, merge_inv hdr' pgs' live' /\ live ≡ₚ y :: live' /\ x ∈ live' /\
    still_free hdr' y = false /\ (forall z, z ∈ live' -> z <> x -> hdr' z = hdr z) /\
    frame hdr pgs hdr' pgs' /\ bytes_of hdr' live' = bytes_of hdr live /\
    c_bucket (hdr x) < c_bucket (hdr' x) < 12 /\
    (forall z, z <> x -> z <> y -> hdr' z = hdr z).
Proof.
  intros M Hx Htry. pose proof (mg_heap _ _ _ M) as I. pose proof (mg_tile _ _ _ _ M Hx) as Ht.
  unfold try_merge in Htry. rewrite (mg_mark _ _ _ M x Hx) in Htry.
  rewrite (proj2 (mg_free _ _ _ x M Ht) Hx) in Htry. cbn [negb orb Z.eqb] in Htry.
  rewrite !Z.eqb_refl in Htry. cbn [negb orb] in Htry. fold (size_of hdr x) in Htry.
  set (y := x + size_of hdr x) in *.
  destruct (ALIGN_PAGE_DOWN y =? ALIGN_PAGE_DOWN x) eqn:Eal; [|done]. b2p. cbn [negb] in Htry.
  destruct (c_free (hdr y) =? chr_F) eqn:EyF; [|done]. b2p.
  destruct (c_coalesce (hdr y) =? chr_C) eqn:EyC; [|done]. b2p. cbn [negb orb] in Htry.
  fold (size_of hdr y) in Htry. rewrite bucketIndex_fit in Htry.
  set (nb := bucket_fit (size_of hdr x + size_of hdr y)) in *.
  destruct (HBUCKETS <=? nb) eqn:Enb; [done|]. destruct (bucketByteSize nb =? _) eqn:Esz; [|done].
  cbn [negb orb] in Htry. b2p. injection Htry as <-.
  pose proof Ht as Ht'. apply elem_of_tiles in Ht' as (pgs1 & p & pgs2 & l1 & l2 & Epgs & Ep).
  subst pgs. destruct (neighbour hdr pgs1 p pgs2 l1 x l2 (hi_pages _ _ _ _ I) Ep Eal) as [l3 ->].
  fold y in Ep.
  assert (Hyt : y ∈ tiles (pgs1 ++ p :: pgs2)).
  { apply elem_of_tiles. exists pgs1, p, pgs2, (l1 ++ [x]), l3. by rewrite <-app_assoc. }
  assert (Hyl : y ∈ live) by (by apply (mg_free _ _ _ y M Hyt)).
  destruct (tile_range _ _ _ (hi_pages _ _ _ _ I) Ht) as (_ & _ & _ & _ & Hbx & _).
  destruct (tile_range _ _ _ (hi_pages _ _ _ _ I) Hyt) as (_ & _ & _ & _ & Hby & _).
  pose proof (bucketByteSize_bounds _ Hbx) as Sx. pose proof (bucketByteSize_bounds _ Hby) as Sy.
  fold (size_of hdr x) in Sx. fold (size_of hdr y) in Sy.
  assert (Hxy : x <> y) by (subst y; lia).
  apply list_elem_of_split in Hyl as (m1 & m2 & Em).
  assert (Hperm : live ≡ₚ y :: (m1 ++ m2)) by (rewrite Em; by rewrite Permutation_middle).
  assert (Hx2 : x ∈ m1 ++ m2) by (rewrite Hperm in Hx; apply elem_of_cons in Hx as [?|?]; [done|done]).
  apply list_elem_of_split in Hx2 as (n1 & n2 & En).
  assert (Hperm2 : live ≡ₚ x :: y :: (n1 ++ n2)).
  { rewrite Hperm, En, <-Permutation_middle. apply Permutation_swap. }
  assert (Hnb : 0 <= nb < 12) by (pose proof (bucket_fit_bounds (size_of hdr x + size_of hdr y));
    fold nb in H; unfold HBUCKETS in Enb; lia).
  set (hdr' := upd (upd hdr y (set_merged (hdr y))) x _).
  assert (Hx' : hdr' x = set_bucket (hdr x) nb) by (subst hdr'; by rewrite upd_eq, upd_ne).
  assert (Hy' : hdr' y = set_merged (hdr y)) by (subst hdr'; by rewrite upd_ne, upd_eq by done).
  assert (Hz' : forall z, z <> x -> z <> y -> hdr' z = hdr z) by (intros; subst hdr'; by rewrite !upd_ne).
  assert (HxF : c_free (hdr x) = chr_F) by (by apply (mg_free _ _ _ x M Ht)).
  destruct (heap_inv_join hdr hdr' pgs1 p pgs2 l1 x y l3 (n1 ++ n2)) as (I' & F & Hin & Hyn); auto.
  { eapply heap_inv_perm; [exact I|apply I| |apply I]. by rewrite concat_no_stacks, Hperm2. }
  { rewrite Hx'. simpl. rewrite u16_bucket by done. done. }
  { unfold size_of at 1. rewrite Hx'. simpl. rewrite u16_bucket by done. done. }
  { by rewrite Hx'. }
  exists (pgs1 ++ mkPage (hp_addr p) (l1 ++ x :: l3) :: pgs2), (x :: n1 ++ n2), y.
  assert (Hndl : NoDup live) by (pose proof (hi_nodup _ _ _ _ I); done).
  rewrite Hperm2 in Hndl. apply NoDup_cons in Hndl as [N1 N2]. apply NoDup_cons in N2 as [N2 N3].
  assert (Hrest : forall z, z ∈ n1 ++ n2 -> hdr' z = hdr z).
  { intros z Hz. apply Hz'; [|by intros ->]. intros ->. apply N1. by right. }
  split_and!; auto.
  - split; [done|]. intros z [->|Hz]%elem_of_cons; [rewrite Hx'; by apply (mg_mark _ _ _ M)|].
    rewrite Hrest by done. apply (mg_mark _ _ _ M). rewrite Hperm2. by do 2 right.
  - rewrite Hperm2. apply Permutation_swap.
  - by left.
  - unfold still_free. by rewrite Hy'.
  - intros z [->|Hz]%elem_of_cons; [done|]. intros _. by apply Hrest.
  - rewrite (bytes_of_perm hdr _ _ Hperm2). simpl.
    rewrite (bytes_of_ext hdr hdr') by (intros z Hz; by rewrite Hrest).
    unfold size_of at 1. rewrite Hx'. simpl. rewrite u16_bucket by done. rewrite Esz. lia.
  - rewrite Hx'. simpl. rewrite u16_bucket by done.
    pose proof (fit_below 0 (size_of hdr x + size_of hdr y) (c_bucket (hdr x)) ltac:(lia)) as Hfb.
    fold nb in Hfb. fold (size_of hdr x) in Hfb. rewrite (proj2 (Z.ltb_lt _ _)) in Hfb by lia.
    symmetry in Hfb. b2p. done.
  - rewrite Hx'. simpl. rewrite u16_bucket by done. lia.
Qed.

(** ** Passes *)

(** The chain during a pass: the free ones of it are those in hand. *)
Definition chain_of (hdr : Z -> chunk_t) (chain live : list Z) : Prop :=
  forall x, x ∈ live <-> x ∈ chain /\ still_free hdr x = true.

(** What a number of tries leads to. *)
Record progress (hdr : Z -> chunk_t) (pgs : list hpage) (chain live : list Z) (count : Z)
    (hdr' : Z -> chunk_t) (count' : Z) (pgs' : list hpage) (live' : list Z) : Prop := {
  pr_inv : merge_inv hdr' pgs' live';
  pr_chain : chain_of hdr' chain live';
  pr_frame : frame hdr pgs hdr' pgs';
  pr_bytes : bytes_of hdr' live' = bytes_of hdr live;
  pr_count : count' - count = Z.of_nat (length live) - Z.of_nat (length live');
  pr_mono : count <= count';
  pr_same : count' = count -> hdr' = hdr
}.

Lemma progress_refl hdr pgs chain live count :
  merge_inv hdr pgs live -> chain_of hdr chain live ->
  progress hdr pgs chain live count hdr count pgs live.
Proof. intros M Hc. split; auto using frame_refl; lia. Qed.

Lemma progress_trans hdr1 pgs1 chain live1 c1 hdr2 pgs2 live2 c2 hdr3 pgs3 live3 c3 :
  progress hdr1 pgs1 chain live1 c1 hdr2 c2 pgs2 live2 ->
  progress hdr2 pgs2 chain live2 c2 hdr3 c3 pgs3 live3 ->
  progress hdr1 pgs1 chain live1 c1 hdr3 c3 pgs3 live3.
Proof.
  intros [A1 A2 A3 A4 A5 A6 A7] [B1 B2 B3 B4 B5 B6 B7]. split; auto.
  - by eapply frame_trans.
  - congruence.
  - lia.
  - lia.
  - intros E. rewrite B7 by lia. apply A7. lia.
Qed.

Lemma chain_of_merge hdr hdr' chain live live' x y pgs pgs' :
  merge_inv hdr pgs live -> merge_inv hdr' pgs' live' -> chain_of hdr chain live ->
  live ≡ₚ y :: live' -> x ∈ live' -> still_free hdr' y = false ->
  (forall z, z <> x -> z <> y -> hdr' z = hdr z) -> chain_of hdr' chain live'.
Proof.
  intros M M' Hc Hp Hx Hy Hk z. split.
  - intros Hz. split; [|by eapply still_free_live].
    apply Hc. rewrite Hp. by right.
  - intros [Hz Hs]. assert (z <> y) by (intros ->; congruence).
    destruct (decide (z = x)) as [->|Hzx]; [done|].
    assert (z ∈ live) as Hl.
    { apply Hc. split; [done|]. unfold still_free in *. by rewrite Hk in Hs by done. }
    rewrite Hp in Hl. by apply elem_of_cons in Hl as [?|?].
Qed.

(** All tries at one chunk; the fuel is enough for them to stop by themselves. *)
Lemma merge_chunk_ok fuel x hdr pgs chain live count :
  merge_inv hdr pgs live -> chain_of hdr chain live -> x ∈ chain ->
  (0 < fuel)%nat -> 12 - c_bucket (hdr x) <= Z.of_nat fuel \/ still_free hdr x = false ->
  let '(hdr', count') := merge_chunk fuel x hdr count in
  (exists pgs' live', progress hdr pgs chain live count hdr' count' pgs' live') /\
  (try_merge x hdr' = None).
Proof.
  revert hdr pgs live count. induction fuel as [|fuel IH]; intros hdr pgs live count M Hc Hx Hf Hfuel; [lia|].
  cbn [merge_chunk]. destruct (try_merge x hdr) as [hdr1|] eqn:E.
  2:{ split; [|done]. exists pgs, live. by apply progress_refl. }
  destruct (still_free hdr x) eqn:Es; [|by rewrite try_merge_free in E].
  assert (Hxl : x ∈ live) by (by apply Hc).
  destruct (try_merge_ok hdr pgs live x hdr1 M Hxl E)
    as (pgs1 & live1 & y & M1 & Hp & Hx1 & Hy & _ & F & Hby & Hbk & Hk).
  assert (Hc1 : chain_of hdr1 chain live1) by (by apply (chain_of_merge hdr hdr1 chain live live1 x y pgs pgs1)).
  destruct Hfuel as [Hfuel|?]; [|done].
  specialize (IH hdr1 pgs1 live1 (count + 1) M1 Hc1 Hx ltac:(lia) ltac:(left; lia)).
  destruct (merge_chunk fuel x hdr1 (count + 1)) as [hdr' count'].
  destruct IH as [(pgs' & live' & P) Hn]. split; [|done]. exists pgs', live'.
  eapply progress_trans; [|exact P]. split; auto; try lia.
  - apply Permutation_length in Hp. simpl in Hp. lia.
Qed.

(** A pass over a part of the chain. *)
Lemma merge_pass_ok l hdr pgs chain live count :
  merge_inv hdr pgs live -> chain_of hdr chain live -> (forall x, x ∈ l -> x ∈ chain) ->
  let '(hdr', count') := merge_pass l hdr count in
  (exists pgs' live', progress hdr pgs chain live count hdr' count' pgs' live') /\
  (count' = count -> forall x, x ∈ l -> try_merge x hdr = None).
Proof.
  revert hdr pgs live count. induction l as [|x l IH]; intros hdr pgs live count M Hc Hl; cbn [merge_pass].
  - split; [exists pgs, live; by apply progress_refl|]. intros _ x Hx. by apply elem_of_nil in Hx.
  - assert (Hfuel : 12 - c_bucket (hdr x) <= Z.of_nat (Z.to_nat HBUCKETS) \/ still_free hdr x = false).
    { destruct (still_free hdr x) eqn:Es; [left|by right].
      assert (Hx : x ∈ live) by (apply Hc; split; [apply Hl; by left|done]).
      destruct (tile_range _ _ _ (hi_pages _ _ _ _ (mg_heap _ _ _ M)) (mg_tile _ _ _ _ M Hx))
        as (_ & _ & _ & _ & Hb & _). unfold HBUCKETS. lia. }
    pose proof (merge_chunk_ok (Z.to_nat HBUCKETS) x hdr pgs chain live count M Hc
      (Hl x ltac:(by left)) ltac:(unfold HBUCKETS; lia) Hfuel) as Hm.
    destruct (merge_chunk _ x hdr count) as [hdr1 count1].
    destruct Hm as [(pgs1 & live1 & P1) Hn1].
    specialize (IH hdr1 pgs1 live1 count1 (pr_inv _ _ _ _ _ _ _ _ _ P1) (pr_chain _ _ _ _ _ _ _ _ _ P1)
      ltac:(intros; apply Hl; by right)).
    destruct (merge_pass l hdr1 count1) as [hdr2 count2].
    destruct IH as [(pgs2 & live2 & P2) Hn2]. split.
    + exists pgs2, live2. by eapply progress_trans.
    + intros E. pose proof (pr_mono _ _ _ _ _ _ _ _ _ P1). pose proof (pr_mono _ _ _ _ _ _ _ _ _ P2).
      assert (hdr1 = hdr) as -> by (apply (pr_same _ _ _ _ _ _ _ _ _ P1); lia).
      intros y [->|Hy]%elem_of_cons; [done|]. apply Hn2; [lia|done].
Qed.

Lemma prune_filter hdr chain acc :
  prune hdr chain acc = reverse (filter (fun x => still_free hdr x = true) chain) ++ acc.
Proof.
  revert acc. induction chain as [|x chain IH]; intros acc; [done|]. cbn [prune]. rewrite IH, filter_cons.
  destruct (still_free hdr x).
  - rewrite decide_True by done. by rewrite reverse_cons, <-app_assoc.
  - by rewrite decide_False by done.
Qed.

(** Pruning leaves the chunks in hand. *)
Lemma prune_live hdr pgs chain live :
  merge_inv hdr pgs live -> chain_of hdr chain live -> NoDup chain -> prune hdr chain [] ≡ₚ live.
Proof.
  intros M Hc Hnd. rewrite prune_filter, app_nil_r, reverse_Permutation.
  apply NoDup_Permutation; [by apply NoDup_filter| |].
  - apply (hi_nodup _ _ _ _ (mg_heap _ _ _ M)).
  - intros x. rewrite list_elem_of_filter, (Hc x). tauto.
Qed.

Lemma merge_inv_perm hdr pgs live live' : live ≡ₚ live' -> merge_inv hdr pgs live -> merge_inv hdr pgs live'.
Proof.
  intros Hp [I Hm]. split; [|intros x; rewrite <-Hp; apply Hm].
  eapply heap_inv_perm; [exact I|apply I|by rewrite Hp|apply I].
Qed.

(** Every pass but the last makes the chain shorter, so the fuel lasts; at the
    end no chunk of the chain can be merged. *)
Lemma merge_passes_ok fuel chain hdr pgs count :
  merge_inv hdr pgs chain -> (length chain < fuel)%nat ->
  let '(chain', hdr', count') := merge_passes fuel chain hdr count in
  exists pgs', merge_inv hdr' pgs' chain' /\ frame hdr pgs hdr' pgs' /\
    bytes_of hdr' chain' = bytes_of hdr chain /\
    (forall x, x ∈ chain' -> try_merge x hdr' = None).
Proof.
  revert chain hdr pgs count. induction fuel as [|fuel IH]; intros chain hdr pgs count M Hf; [lia|].
  cbn [merge_passes].
  assert (Hc : chain_of hdr chain chain).
  { intros x. split; [|tauto]. intros Hx. split; [done|]. by eapply still_free_live. }
  assert (Hnd : NoDup chain) by (pose proof (hi_nodup _ _ _ _ (mg_heap _ _ _ M)); done).
  pose proof (merge_pass_ok chain hdr pgs chain chain 0 M Hc ltac:(done)) as Hm.
  destruct (merge_pass chain hdr 0) as [hdr1 merged]. destruct Hm as [(pgs1 & live1 & P) Hn].
  pose proof P as [A1 A2 A3 A4 A5 A6 A7].
  pose proof (prune_live _ _ _ _ A1 A2 Hnd) as Hpr.
  assert (M1 : merge_inv hdr1 pgs1 (prune hdr1 chain [])) by (by eapply merge_inv_perm).
  destruct (merged =? 0) eqn:E; b2p; cbn [negb].
  - subst merged. assert (hdr1 = hdr) as -> by (by apply A7). exists pgs1. split_and!; auto.
    + by rewrite (bytes_of_perm _ _ _ Hpr).
    + intros x. rewrite prune_filter, app_nil_r, elem_of_reverse, list_elem_of_filter.
      intros [_ Hx]. by apply Hn.
  - specialize (IH (prune hdr1 chain []) hdr1 pgs1 (count + merged) M1).
    destruct (merge_passes fuel _ hdr1 _) as [[chain' hdr'] count'].
    destruct IH as (pgs' & B1 & B2 & B3 & B4).
    { apply Permutation_length in Hpr. lia. }
    exists pgs'. split_and!; auto; [by eapply frame_trans|].
    rewrite B3, (bytes_of_perm _ _ _ Hpr). done.
Qed.

(** ** Refilling the stacks *)

Section refill.
Context {S : Type} `{PageAllocatorLaws S}.
Implicit Types h : HeapManager S.

Lemma heap_refill_ok chain h pgs :
  heap_inv (h_hdr h) (first_chunk h) pgs chain ->
  let h' := refill chain h in
  heap_inv (h_hdr h') (first_chunk h') pgs [] /\
  (forall x, c_bucket (h_hdr h' x) = c_bucket (h_hdr h x)) /\
  (forall x, x ∈ tiles pgs -> c_free (h_hdr h' x) = c_free (h_hdr h x)) /\
  (forall x, x ∉ chain -> h_hdr h' x = h_hdr h x) /\
  concat (first_chunk h') ≡ₚ chain ++ concat (first_chunk h) /\
  h_bytes h' = h_bytes h /\ h_pages h' = h_pages h.
Proof.
  revert h. induction chain as [|c chain IH]; intros h I; cbn [refill]; [by split_and!|].
  set (h1 := with_hdr h (upd (h_hdr h) c (set_coalesce (h_hdr h c) 0))).
  set (b := c_bucket (h_hdr h1 c)).
  assert (Hc : c ∈ tiles pgs) by (apply (hi_tile _ _ _ _ I); set_solver).
  assert (Hb1 : forall x, c_bucket (h_hdr h1 x) = c_bucket (h_hdr h x)).
  { intros x. subst h1. cbn [h_hdr with_hdr]. upd_cases; done. }
  assert (Hf1 : forall x, c_free (h_hdr h1 x) = c_free (h_hdr h x)).
  { intros x. subst h1. cbn [h_hdr with_hdr]. upd_cases; done. }
  assert (Hbb : 0 <= b < 12).
  { subst b. rewrite Hb1. destruct (tile_range _ _ _ (hi_pages _ _ _ _ I) Hc) as (_ & _ & _ & _ & ? & _). done. }
  assert (HcF : c_free (h_hdr h c) = chr_F) by (apply (hi_free _ _ _ _ I); set_solver).
  assert (I1 : heap_inv (h_hdr h1) (first_chunk h) pgs (c :: chain)).
  { destruct I as [I1 I2 I3 I4 I5 I6 I7]. split; auto.
    - eapply page_ok_bucket; [|exact I2]. intros x _. apply Hb1.
    - intros a Ha. rewrite Hf1. auto.
    - intros b' l a Hl Ha. rewrite Hb1. eauto. }
  assert (Hn : c ∉ concat (first_chunk h) ++ chain).
  { pose proof (hi_nodup _ _ _ _ I) as Hnd. rewrite <-Permutation_middle in Hnd.
    by apply NoDup_cons in Hnd as [? _]. }
  destruct (stack_lookup (first_chunk h) b (hi_len _ _ _ _ I) Hbb) as [l Hl].
  pose proof (heap_inv_push (h_hdr h1) (first_chunk h) pgs chain c l (or_intror I1) Hc Hn Hl ltac:(lia)) as I2.
  rewrite push_bucket_eq by done. cbn [h_hdr with_stacks with_hdr first_chunk].
  match goal with |- context [refill chain ?hh] => set (h2 := hh) end.
  assert (E2 : h_hdr h2 = upd (h_hdr h1) c (set_free (h_hdr h1 c))) by done.
  assert (E3 : first_chunk h2 = alter (Stack.push c) (Z.to_nat b) (first_chunk h)) by done.
  assert (E4 : h_bytes h2 = h_bytes h) by done. assert (E5 : h_pages h2 = h_pages h) by done.
  clearbody h2. destruct (IH h2) as (J1 & J2 & J3 & J4 & J5 & J6 & J7).
  { rewrite E2, E3. exact I2. }
  split_and!; auto.
  - intros x. rewrite J2, E2, <-Hb1. upd_cases; done.
  - intros x Hx. rewrite J3, E2, <-Hf1 by done. upd_cases; [|done]. by rewrite Hf1, HcF.
  - intros x [Hxc Hx]%not_elem_of_cons. rewrite J4, E2 by done. subst h1. cbn [h_hdr with_hdr].
    by rewrite !upd_ne.
  - rewrite J5, E3, (alter_push _ _ _ _ Hl). destruct (concat_at _ _ _ Hl) as (r & R1 & R2).
    rewrite R2, R1. cbn [app]. by rewrite <-Permutation_middle.
  - by rewrite J6.
  - by rewrite J7.
Qed.
End refill.

(** ** The theorem *)

(** Two free neighbours whose sizes add up to the size of a bucket. *)
Definition mergeable (hdr : Z -> chunk_t) (pgs : list hpage) : Prop :=
  exists p l1 x y l2 b, p ∈ pgs /\ hp_tiles p = l1 ++ x :: y :: l2 /\
    c_free (hdr x) = chr_F /\ c_free (hdr y) = chr_F /\
    0 <= b < HBUCKETS /\ bucketByteSize b = size_of hdr x + size_of hdr y.

(** When every try fails, nothing is mergeable. *)
Lemma tries_exhausted hdr pgs live :
  merge_inv hdr pgs live -> (forall x, x ∈ live -> try_merge x hdr = None) -> ~ mergeable hdr pgs.
Proof.
  intros M Hn (p & l1 & x & y & l2 & b & Hp & E & HxF & HyF & Hb & Hs).
  pose proof (mg_heap _ _ _ M) as I. apply list_elem_of_split in Hp as (pgs1 & pgs2 & ->).
  assert (Hx : x ∈ tiles (pgs1 ++ p :: pgs2)) by (apply elem_of_tiles; eauto 10).
  assert (Hy : y ∈ tiles (pgs1 ++ p :: pgs2)).
  { apply elem_of_tiles. exists pgs1, p, pgs2, (l1 ++ [x]), l2. by rewrite <-app_assoc. }
  apply (mg_free _ _ _ x M Hx) in HxF as Hxl. apply (mg_free _ _ _ y M Hy) in HyF as Hyl.
  pose proof (hi_pages _ _ _ _ I) as HP. apply Forall_app in HP as [_ HP].
  apply Forall_cons in HP as [[Ap Tp] _]. pose proof (tiled_bounds _ _ _ _ Tp) as [_ Hbd].
  rewrite E in Tp, Hbd. destruct (Hbd x) as (X1 & X2 & X3); [set_solver|].
  destruct (Hbd y) as (Y1 & Y2 & Y3); [set_solver|].
  pose proof (bucketByteSize_bounds _ X3). pose proof (bucketByteSize_bounds _ Y3).
  apply tiled_app in Tp as (m & _ & -> & _ & -> & _ & _). fold (size_of hdr m) in *.
  set (y := m + size_of hdr m) in *. fold (size_of hdr y) in *.
  specialize (Hn m Hxl). revert Hn. unfold try_merge.
  rewrite (mg_mark _ _ _ M m Hxl), HxF.
  fold (size_of hdr m). fold y. rewrite !Z.eqb_refl. cbn [negb orb].
  rewrite (ALIGN_PAGE_DOWN_in (hp_addr p) m), (ALIGN_PAGE_DOWN_in (hp_addr p) y) by (done || lia).
  rewrite Z.eqb_refl, HyF, (mg_mark _ _ _ M y Hyl), !Z.eqb_refl. cbn [negb orb].
  fold (size_of hdr y). rewrite bucketIndex_fit, <-Hs, bucket_fit_size by done.
  rewrite (proj2 (Z.leb_gt HBUCKETS b)), Z.eqb_refl by (unfold HBUCKETS in *; lia). done.
Qed.

(** C40: [_coalesce] ends without assertion, keeps every allocation with its
    chunk and bytes and every chunk boundary in use, keeps the number of free
    bytes, and leaves no two free neighbours in a page that could be joined to
    a chunk of a bucket size. *)
Theorem heap_coalesce_correct {S} `{PageAllocatorLaws S} (h : HeapManager S) pgs own others :
  client_inv h pgs own others ->
  exists h' pgs', _coalesce h = Done h' /\ client_inv h' pgs' own others /\
    h_bytes h' = h_bytes h /\ ~ mergeable (h_hdr h') pgs' /\
    bytes_of (h_hdr h') (concat (first_chunk h')) = bytes_of (h_hdr h) (concat (first_chunk h)).
Proof.
  intros C. pose proof (ci_heap _ _ _ _ C) as I. unfold _coalesce.
  destruct (chain_stacks_ok (first_chunk h) [] (h_hdr h)) as (head & hdr1 & -> & Hp & Hm).
  { intros x Hx. apply (hi_free _ _ _ _ I); [apply (hi_tile _ _ _ _ I)|]; by rewrite app_nil_r. }
  cbn [obind]. rewrite app_nil_r in Hp.
  assert (Hmk : forall x, c_free (hdr1 x) = c_free (h_hdr h x) /\ c_bucket (hdr1 x) = c_bucket (h_hdr h x))
    by (intros x; by eapply marked_free).
  assert (M : merge_inv hdr1 pgs head).
  { split.
    - destruct I as [I1 I2 I3 I4 I5 I6 I7]. rewrite app_nil_r in I7.
      split; rewrite ?concat_no_stacks; cbn [app]; auto.
      + eapply page_ok_bucket; [|exact I2]. intros x _. apply Hmk.
      + intros a Ha. rewrite (proj1 (Hmk a)), (I4 a Ha), app_nil_r. by rewrite Hp.
      + intros a Ha. apply I5. by rewrite app_nil_r, <-Hp.
      + intros b l a Hl Ha. unfold no_stacks in Hl. apply lookup_replicate in Hl as [-> _].
        by apply elem_of_nil in Ha.
      + by rewrite Hp.
    - intros x Hx. rewrite (Hm x), decide_True by (by rewrite <-Hp). done. }
  pose proof (merge_passes_ok (Datatypes.S (length head)) head hdr1 pgs 0 M ltac:(lia)) as Hpass.
  destruct (merge_passes _ head hdr1 0) as [[chain hdr2] merged].
  destruct Hpass as (pgs' & M2 & F2 & Hby & Hno).
  match goal with |- context [refill chain ?hh] => set (h2 := hh) end.
  destruct (heap_refill_ok chain h2 pgs' (mg_heap _ _ _ M2)) as (R1 & R2 & R3 & R4 & R5 & R6 & R7).
  exists (refill chain h2), pgs'. set (h3 := refill chain h2) in *.
  assert (Hout : forall a, in_use hdr2 pgs' a -> h_hdr h3 a = hdr2 a).
  { intros a [Ha Hf]. apply R4. intros Hin. by apply Hf, (mg_free _ _ _ a M2 Ha). }
  assert (Huse3 : forall a, in_use hdr2 pgs' a <-> in_use (h_hdr h3) pgs' a).
  { intros a. unfold in_use. split; intros [Ha Hf]; (split; [done|]).
    - by rewrite R3.
    - by rewrite <-R3. }
  assert (Hmu : forall a, in_use (h_hdr h) pgs a -> hdr1 a = h_hdr h a).
  { intros a [Ha Hf]. rewrite (Hm a), decide_False; [done|]. intros Hin. apply Hf.
    apply (hi_free _ _ _ _ I a Ha). by rewrite app_nil_r. }
  assert (F : frame (h_hdr h) pgs (h_hdr h3) pgs').
  { eapply frame_trans; [|eapply frame_trans; [exact F2|]].
    - split_and!; [done| |exact Hmu]. intros a. unfold in_use. by rewrite (proj1 (Hmk a)).
    - split_and!; [done|exact Huse3|exact Hout]. }
  split_and!; [done| | | |].
  - eapply client_frame; eauto.
  - by rewrite R6.
  - intros (p & l1 & x & y & l2 & b & Hpp & E & HxF & HyF & Hb & Hs).
    apply (tries_exhausted hdr2 pgs' chain M2 Hno). exists p, l1, x, y, l2, b.
    assert (Hxt : x ∈ tiles pgs' /\ y ∈ tiles pgs').
    { apply list_elem_of_split in Hpp as (q1 & q2 & ->). rewrite tiles_mid, E. set_solver. }
    rewrite R3 in HxF, HyF by apply Hxt. unfold size_of in *. rewrite !R2 in Hs. done.
  - rewrite (bytes_of_perm _ _ _ R5). change (concat (first_chunk h2)) with (@nil Z). rewrite app_nil_r.
    rewrite (bytes_of_ext hdr2 (h_hdr h3)) by (intros; apply R2). rewrite Hby.
    rewrite (bytes_of_perm _ _ _ Hp). apply bytes_of_ext. intros x _. apply Hmk.
Qed.
