(* ===== verification/HeapBig.v ===== *)
(** * Large and huge allocations ([src/kernel/heapmgr.C])

    Requests above the small heap's sizes take whole pages, recorded in a
    directory; huge ones take a slot of a reserved block of virtual memory.
    The static entry points choose between the three.  The system calls on
    virtual memory are parameters: the model needs their return codes only. *)

From S2P Require Import Prelude Containers Sync PageMgr HeapMgr HeapMgrSpec.

(** [mm_alloc_block], [mm_set_permission] and [mm_remove_pages]: return codes
    as functions of address, size and access type. *)
Record mm_ops : Type := mkMm {
  mm_alloc_block : Z -> Z -> Z;
  mm_set_permission : Z -> Z -> Z -> Z;
  mm_remove_pages : Z -> Z -> Z
}.

Definition WRITABLE_ZERO : Z := 2 + 16.    (** [WRITABLE | ALLOCATE_FROM_ZERO] *)
Definition NO_ACCESS_ZERO : Z := 64 + 16.  (** [NO_ACCESS | ALLOCATE_FROM_ZERO] *)
Definition DIR_SIZE : Z := 24.             (** [sizeof(big_chunk_t)], [sizeof(huge_chunk_t)] *)

Section big.
Context {S : Type} `{PageAllocator S} (mm : mm_ops).
Implicit Types h : HeapManager S.

Definition with_big h (d : list dir_t) (count max : Z) (s : S) : HeapManager S :=
  mkHeap (h_hdr h) (h_bytes h) (first_chunk h) d (huge_chunk_stack h)
    (hv_coalesce_count h) (hv_free_bytes h) (hv_free_chunks h) (hv_smallheap_page_count h)
    count max (hv_hugeblock_allocated h) s.

Definition with_huge h (d : list dir_t) (state : Z) : HeapManager S :=
  mkHeap (h_hdr h) (h_bytes h) (first_chunk h) (big_chunk_stack h) d
    (hv_coalesce_count h) (hv_free_bytes h) (hv_free_chunks h) (hv_smallheap_page_count h)
    (hv_largeheap_page_count h) (hv_largeheap_page_max h) state (h_pages h).

(** The first unused directory entry takes the allocation. *)
Fixpoint use_entry (v pages : Z) (d : list dir_t) : option (list dir_t) :=
  match d with
  | [] => None
  | bc :: d =>
      if (d_pages bc =? 0) && (d_addr bc =? 0) then Some (mkDir v pages :: d)
      else match use_entry v pages d with None => None | Some d => Some (bc :: d) end
  end.

Definition _allocateBig (i_sz tid : Z) h : outcome (Z * HeapManager S) :=
  let pages := ALIGN_PAGE i_sz / PAGESIZE in
  do (v, s) <- pa_alloc pages (h_pages h);
  let count := u32 (hv_largeheap_page_count h + pages) in
  let max := if hv_largeheap_page_max h <? count then count else hv_largeheap_page_max h in
  let h := with_big h (big_chunk_stack h) count max s in
  match use_entry v pages (big_chunk_stack h) with
  | Some d => Done (v, with_big h d count max s)
  | None =>
      do (_, h) <- _allocate DIR_SIZE tid h;
      Done (v, with_big h (mkDir v pages :: big_chunk_stack h) count max (h_pages h))
  end.

(** The directory entry of an address, cleared. *)
Fixpoint clear_entry (v : Z) (d : list dir_t) : option (Z * list dir_t) :=
  match d with
  | [] => None
  | bc :: d =>
      if d_addr bc =? v then Some (d_pages bc, mkDir 0 0 :: d)
      else match clear_entry v d with None => None | Some (n, d) => Some (n, bc :: d) end
  end.

(** [_freeBig]: [None] when the pointer is not page aligned. *)
Definition _freeBig (i_ptr : Z) h : outcome (option (HeapManager S)) :=
  if negb (ALIGN_PAGE i_ptr =? i_ptr) then Done None
  else
    match clear_entry i_ptr (big_chunk_stack h) with
    | None => Crash KAssert
    | Some (n, d) =>
        let count := u32 (hv_largeheap_page_count h - n) in
        do s <- pa_free i_ptr n (h_pages h);
        Done (Some (with_big h d count (hv_largeheap_page_max h) s))
    end.

Definition memcpy (dst src n : Z) (bytes : Z -> Z) : Z -> Z :=
  fun x => if (dst <=? x) && (x <? dst + n) then bytes (src + (x - dst)) else bytes x.

(** The directory entry of an address, with a new region. *)
Fixpoint find_entry (v : Z) (d : list dir_t) : option Z :=
  match d with
  | [] => None
  | bc :: d => if d_addr bc =? v then Some (d_pages bc) else find_entry v d
  end.

Fixpoint move_entry (v v' n' : Z) (d : list dir_t) : list dir_t :=
  match d with
  | [] => []
  | bc :: d => if d_addr bc =? v then mkDir v' n' :: d else bc :: move_entry v v' n' d
  end.

(** [_reallocBig]: the address is 0 when the pointer is no large allocation. *)
Definition _reallocBig (i_ptr i_sz : Z) h : outcome (Z * HeapManager S) :=
  if negb (ALIGN_PAGE i_ptr =? i_ptr) then Done (0, h)
  else
    match find_entry i_ptr (big_chunk_stack h) with
    | None => Done (0, h)
    | Some page_count =>
        let new_size := ALIGN_PAGE i_sz / PAGESIZE in
        if page_count <? new_size then
          let count := u32 (hv_largeheap_page_count h + (new_size - page_count)) in
          let max := if hv_largeheap_page_max h <? count then count else hv_largeheap_page_max h in
          do (new_ptr, s) <- pa_alloc new_size (h_pages h);
          let h := with_bytes h (memcpy new_ptr i_ptr (page_count * PAGESIZE) (h_bytes h)) in
          do s <- pa_free i_ptr page_count s;
          Done (new_ptr, with_big h (move_entry i_ptr new_ptr new_size (big_chunk_stack h)) count max s)
        else Done (i_ptr, h)
    end.

(** ** Huge allocations *)

(** The loop that fills the list of slots. *)
Fixpoint fill_slots (fuel : nat) (addr tid : Z) h : outcome (HeapManager S) :=
  match fuel with
  | O => Done h
  | Datatypes.S fuel =>
      if VMM_VADDR_MALLOC <=? addr then
        do (_, h) <- _allocate DIR_SIZE tid h;
        fill_slots fuel (addr - HC_SLOT_SIZE) tid
          (with_huge h (mkDir addr 0 :: huge_chunk_stack h) (hv_hugeblock_allocated h))
      else Done h
  end.

(** The first slot with page count 0 gets the count. *)
Fixpoint take_slot (pages : Z) (d : list dir_t) : option (Z * list dir_t) :=
  match d with
  | [] => None
  | hc :: d =>
      if d_pages hc =? 0 then Some (d_addr hc, mkDir (d_addr hc) pages :: d)
      else match take_slot pages d with None => None | Some (a, d) => Some (a, hc :: d) end
  end.

(** [_allocateHuge]: address 0 for null.  While another thread initialises
    ([cv_hugeblock_allocated] is 1) the caller yields; a state left at 1 by a
    failed initialisation makes it wait for ever, which is [None]. *)
Definition _allocateHuge (i_sz tid : Z) h : outcome (option (Z * HeapManager S)) :=
  let pages := ALIGN_PAGE i_sz / PAGESIZE in
  if HC_SLOT_SIZE <? pages * PAGESIZE then Done (Some (0, h))
  else
    do r <-
      (if hv_hugeblock_allocated h =? 0 then
         let h := with_huge h (huge_chunk_stack h) 1 in
         if negb (mm_alloc_block mm VMM_VADDR_MALLOC HC_TOTAL_SIZE =? 0) then Done (inl (Some (0, h)))
         else
           do h <- fill_slots 22 (VMM_VADDR_MALLOC + HC_TOTAL_SIZE) tid h;
           Done (inr (with_huge h (huge_chunk_stack h) 2))
       else if hv_hugeblock_allocated h =? 2 then Done (inr h)
       else Done (inl None));
    match r with
    | inl r => Done r
    | inr h =>
        match take_slot pages (huge_chunk_stack h) with
        | None => Done (Some (0, h))
        | Some (addr, d) => Done (Some (addr, with_huge h d (hv_hugeblock_allocated h)))
        end
    end.

Fixpoint set_slot (v n : Z) (d : list dir_t) : list dir_t :=
  match d with
  | [] => []
  | hc :: d => if d_addr hc =? v then mkDir v n :: d else hc :: set_slot v n d
  end.

Definition in_huge (i_ptr : Z) : bool :=
  (VMM_VADDR_MALLOC <=? i_ptr) && (i_ptr <? VMM_VADDR_MALLOC + VMM_MALLOC_SIZE).

(** [_freeHuge]: [None] is the result false. *)
Definition _freeHuge (i_ptr : Z) h : option (HeapManager S) :=
  if negb (in_huge i_ptr) then None
  else
    match find_entry i_ptr (huge_chunk_stack h) with
    | None => None
    | Some n =>
        if negb (mm_remove_pages mm i_ptr (n * PAGESIZE) =? 0) then None
        else if negb (mm_set_permission mm i_ptr (n * PAGESIZE) NO_ACCESS_ZERO =? 0) then None
        else Some (with_huge h (set_slot i_ptr 0 (huge_chunk_stack h)) (hv_hugeblock_allocated h))
    end.

Definition _reallocHuge (i_ptr i_sz : Z) h : outcome (Z * HeapManager S) :=
  assert! in_huge i_ptr;
  assert! i_sz <=? HC_SLOT_SIZE;
  match find_entry i_ptr (huge_chunk_stack h) with
  | None => Done (0, h)
  | Some _ =>
      let n := ALIGN_PAGE i_sz / PAGESIZE in
      let h := with_huge h (set_slot i_ptr n (huge_chunk_stack h)) (hv_hugeblock_allocated h) in
      if negb (mm_set_permission mm i_ptr (n * PAGESIZE) WRITABLE_ZERO =? 0) then Done (0, h)
      else if negb (mm_set_permission mm (i_ptr + n * PAGESIZE) (HC_SLOT_SIZE - n * PAGESIZE)
                      NO_ACCESS_ZERO =? 0) then Done (0, h)
      else Done (i_ptr, h)
  end.

(** ** Entry points *)

(** [HeapManager::allocate]; [kernel]: the caller runs in kernel mode. *)
Definition allocate (kernel : bool) (i_sz tid : Z) h : outcome (option (Z * HeapManager S)) :=
  if (MAX_BIG_ALLOC_SIZE <? i_sz) && (i_sz <=? HC_SLOT_SIZE) && negb kernel then
    do r <- _allocateHuge i_sz tid h;
    match r with
    | Some (ptr, h) =>
        if negb (ptr =? 0) then Done (Some (ptr, h))
        else do r <- _allocateBig i_sz tid h; Done (Some r)
    | None => Done None
    end
  else if MAX_SMALL_ALLOC_SIZE <? i_sz then do r <- _allocateBig i_sz tid h; Done (Some r)
  else do r <- _allocate i_sz tid h; Done (Some r).

(** [HeapManager::free] / [_free] *)
Definition _free (i_ptr : Z) h : outcome (HeapManager S) :=
  if i_ptr =? 0 then Done h
  else
    match _freeHuge i_ptr h with
    | Some h => Done h
    | None =>
        do r <- _freeBig i_ptr h;
        match r with
        | Some h => Done h
        | None => free_small i_ptr h
        end
    end.

(** [HeapManager::realloc] / [_realloc] *)
Definition _realloc (i_ptr i_sz tid : Z) h : outcome (Z * HeapManager S) :=
  if VMM_VADDR_MALLOC <=? i_ptr then _reallocHuge i_ptr i_sz h
  else
    do (new_ptr, h) <- _reallocBig i_ptr i_sz h;
    if negb (new_ptr =? 0) then Done (new_ptr, h)
    else
      let chunk := i_ptr - 8 in
      let asize := u64 (bucketByteSize (c_bucket (h_hdr h chunk)) - CHUNK_HEADER_PLUS_RESERVED) in
      if asize <? i_sz then
        do (new_ptr, h) <- (if MAX_SMALL_ALLOC_SIZE <? i_sz then _allocateBig i_sz tid h
                            else _allocate i_sz tid h);
        let h := with_bytes h (memcpy new_ptr i_ptr asize (h_bytes h)) in
        do h <- _free i_ptr h;
        assert! negb (new_ptr =? 0);
        Done (new_ptr, h)
      else
        assert! negb (i_ptr =? 0);
        Done (i_ptr, h).
End big.
