(* ===== verification/HeapBigSpec.v ===== *)
(** * Correctness of the heap's entry points

    What [HeapManager::allocate], [free] and [realloc] promise a client that
    uses small and large allocations: what they hand out is apart from
    everything in use, release takes any of them back, a moved allocation keeps
    its bytes. *)

From S2P Require Import Prelude Containers Sync PageMgr HeapMgr HeapMgrSpec HeapBig.

(** ** The directory *)

(** The regions recorded in it. *)
Definition live (d : list dir_t) : list (Z * Z) :=
  (fun e => (d_addr e, d_pages e)) <$> filter (fun e => d_pages e <> 0) d.

(** An entry is unused, or records a region. *)
Definition dir_ok (d : list dir_t) : Prop :=
  Forall (fun e => (d_pages e = 0 /\ d_addr e = 0) \/
                   (0 < d_pages e /\ 0 < d_addr e /\ d_addr e mod PAGESIZE = 0)) d.

Lemma live_cons e d :
  live (e :: d) = if decide (d_pages e <> 0) then (d_addr e, d_pages e) :: live d else live d.
Proof. unfold live. rewrite filter_cons. by case_decide. Qed.

Lemma use_entry_ok v n d d' :
  dir_ok d -> 0 < n -> 0 < v -> v mod PAGESIZE = 0 -> use_entry v n d = Some d' ->
  dir_ok d' /\ live d' ≡ₚ (v, n) :: live d.
Proof.
  intros Hd Hn Hv Ha. revert d'. induction d as [|e d IH]; intros d' E; [done|].
  apply Forall_cons in Hd as [He Hd]. cbn [use_entry] in E.
  destruct (d_pages e =? 0) eqn:E0; b2p.
  - destruct (d_addr e =? 0) eqn:E1; b2p; cbn [andb] in E.
    + injection E as <-. split; [constructor; [right; simpl; auto|done]|].
      rewrite !live_cons. rewrite decide_True by (simpl; lia). rewrite decide_False by lia. done.
    + destruct He as [[_ ?]|[? _]]; lia.
  - cbn [andb] in E. destruct (use_entry v n d) as [d1|]; [|done]. injection E as <-.
    destruct (IH Hd d1 eq_refl) as [H1 H2]. split; [by constructor|].
    rewrite !live_cons, !decide_True by done. rewrite H2. apply Permutation_swap.
Qed.

Lemma live_pos d v n : dir_ok d -> (v, n) ∈ live d -> 0 < v /\ 0 < n /\ v mod PAGESIZE = 0.
Proof.
  intros Hd. unfold live. intros (e & E & He)%list_elem_of_fmap. injection E as -> ->.
  apply list_elem_of_filter in He as [Hp He]. unfold dir_ok in Hd. rewrite Forall_forall in Hd.
  destruct (Hd e He) as [[? _]|(? & ? & ?)]; [done|auto].
Qed.

Lemma clear_entry_ok v d :
  dir_ok d -> 0 < v ->
  match clear_entry v d with
  | Some (n, d') => dir_ok d' /\ 0 < n /\ live d ≡ₚ (v, n) :: live d' /\ find_entry v d = Some n
  | None => (forall n, (v, n) ∉ live d) /\ find_entry v d = None
  end.
Proof.
  intros Hd Hv. induction d as [|e d IH]; cbn [clear_entry find_entry].
  - split; [|done]. intros n Hin. by apply elem_of_nil in Hin.
  - apply Forall_cons in Hd as [He Hd]. destruct (d_addr e =? v) eqn:E; b2p.
    + destruct He as [[_ ?]|(Hp & _ & _)]; [lia|]. split_and!; auto.
      * constructor; [by left|done].
      * rewrite !live_cons. rewrite decide_True by lia. rewrite decide_False by (simpl; lia). by rewrite E.
    + specialize (IH Hd). destruct (clear_entry v d) as [[n d']|].
      * destruct IH as (H1 & H2 & H3 & H4). split_and!; auto; [by constructor|].
        rewrite !live_cons. case_decide; [|done]. rewrite H3. apply Permutation_swap.
      * destruct IH as [H1 H2]. split; [|done]. intros n. rewrite live_cons. case_decide; [|done].
        intros [[= -> ->]|?]%elem_of_cons; [done|]. by apply (H1 n).
Qed.

Lemma move_entry_ok v n v' n' d d' :
  dir_ok d -> 0 < v -> 0 < n' -> 0 < v' -> v' mod PAGESIZE = 0 ->
  clear_entry v d = Some (n, d') -> dir_ok (move_entry v v' n' d) /\
  live (move_entry v v' n' d) ≡ₚ (v', n') :: live d'.
Proof.
  intros Hd Hv Hn' Hv' Ha. revert d'. induction d as [|e d IH]; intros d' E; [done|].
  apply Forall_cons in Hd as [He Hd]. cbn [clear_entry move_entry] in *.
  destruct (d_addr e =? v) eqn:Ee; b2p.
  - injection E as <- <-. split; [constructor; [right; simpl; auto|done]|].
    rewrite !live_cons. rewrite decide_True by (simpl; lia). rewrite decide_False by (simpl; lia). done.
  - destruct (clear_entry v d) as [[m d1]|]; [|done]. injection E as -> <-.
    destruct (IH Hd d1 eq_refl) as [H1 H2]. split; [by constructor|].
    rewrite !live_cons. case_decide; [|done]. rewrite H2. apply Permutation_swap.
Qed.

(** ** The invariant *)

Section spec.
Context {S : Type} `{PageAllocatorLaws S} (mm : mm_ops).
Implicit Types (h : HeapManager S) (own rest : list (Z * Z)).

(** Small allocations [own], the regions of the directory, and the regions
    [rest] of others. *)
Record full_inv h (pgs : list hpage) own rest : Prop := {
  fi_client : client_inv h pgs own (live (big_chunk_stack h) ++ rest);
  fi_dir : dir_ok (big_chunk_stack h)
}.

(** Every allocation in use: address and bytes. *)
Definition allocs h own : list (Z * Z) :=
  own ++ ((fun r => (r.1, r.2 * PAGESIZE)) <$> live (big_chunk_stack h)).

Lemma client_perm h pgs own o1 o2 : o1 ≡ₚ o2 -> client_inv h pgs own o1 -> client_inv h pgs own o2.
Proof.
  intros Hp [C1 C2 C3 C4 C5]. split; auto. eapply pa_perm; [|exact C2]. by rewrite Hp.
Qed.

(** An allocation of the small heap lies in one of its pages. *)
Lemma owned_in_page h pgs own others o :
  client_inv h pgs own others -> o ∈ own ->
  exists p, (p, 1) ∈ page_regions pgs /\ p <= o.1 - 8 /\ guard_at h o.1 < p + PAGESIZE.
Proof.
  intros C Ho. pose proof (ci_owned _ _ _ _ C) as Hf. rewrite Forall_forall in Hf.
  destruct (Hf o Ho) as ([Ht _] & _). pose proof (ci_heap _ _ _ _ C) as I.
  destruct (tile_range _ _ _ (hi_pages _ _ _ _ I) Ht) as (p & Hp & P1 & P2 & _).
  exists (hp_addr p). split; [|unfold guard_at; lia].
  unfold page_regions. apply list_elem_of_fmap. exists (hp_addr p). split; [done|].
  apply list_elem_of_fmap. eauto.
Qed.

(** Regions of one state are apart. *)
Lemma regions_apart s (l : list (Z * Z)) i j r1 r2 :
  pa_ok s l -> l !! i = Some r1 -> l !! j = Some r2 -> i <> j -> apart r1 r2.
Proof.
  intros Hok Hi Hj Hne.
  assert (Hp : exists l', l ≡ₚ r1 :: r2 :: l').
  { apply list_elem_of_split_length in Hi as (l1 & l2 & -> & ->).
    assert (Hj2 : r2 ∈ l1 ++ l2).
    { rewrite lookup_app in Hj. destruct (l1 !! j) as [x|] eqn:E1.
      - injection Hj as ->. apply elem_of_app. left. by eapply list_elem_of_lookup_2.
      - apply lookup_ge_None in E1. destruct (j - length l1)%nat as [|k] eqn:Ek; [lia|].
        simpl in Hj. apply elem_of_app. right. by eapply list_elem_of_lookup_2. }
    apply list_elem_of_split in Hj2 as (m1 & m2 & E). exists (m1 ++ m2).
    rewrite <-Permutation_middle, E, <-Permutation_middle. done. }
  destruct Hp as [l' Hp]. eapply pa_apart, pa_perm; eauto.
Qed.

(** Small allocations are apart from every region that is not the small heap's. *)
Lemma small_big_apart h pgs own others o r x :
  client_inv h pgs own others -> o ∈ own -> r ∈ others ->
  o.1 - 8 <= x <= guard_at h o.1 -> r.1 <= x < r.1 + r.2 * PAGESIZE -> False.
Proof.
  intros C Ho Hr Hx Hx2. destruct (owned_in_page _ _ _ _ _ C Ho) as (p & Hp & P1 & P2).
  apply list_elem_of_lookup in Hp as [i Hi], Hr as [j Hj].
  pose proof (lookup_lt_Some _ _ _ Hi) as Hlt.
  pose proof (regions_apart _ _ i (length (page_regions pgs) + j) (p, 1) r (ci_pages _ _ _ _ C)) as Hap.
  rewrite lookup_app_l, lookup_app_r in Hap by lia.
  replace (length (page_regions pgs) + j - length (page_regions pgs))%nat with j in Hap by lia.
  destruct (Hap Hi Hj ltac:(lia)) as [Ha|Ha]; cbn [fst snd] in Ha; lia.
Qed.

(** Changing bytes that are no validation bytes. *)
Lemma client_bytes h pgs own others bytes :
  client_inv h pgs own others -> (forall o, o ∈ own -> bytes (guard_at h o.1) = h_bytes h (guard_at h o.1)) ->
  client_inv (with_bytes h bytes) pgs own others.
Proof.
  intros [C1 C2 C3 C4 C5] Hb. split; auto. rewrite Forall_forall in *. intros o Ho.
  destruct (C3 o Ho) as (U & H2 & H3 & H4). split_and!; try done; try apply U.
  unfold guard_at in *. cbn [h_hdr with_bytes h_bytes]. rewrite Hb by done. done.
Qed.

(** ** Large allocations *)

Lemma align_pages i_sz :
  0 < i_sz -> let n := ALIGN_PAGE i_sz / PAGESIZE in 0 < n /\ i_sz <= n * PAGESIZE.
Proof.
  intros Hs. cbv zeta. rewrite ALIGN_PAGE_eq. unfold PAGESIZE. rewrite Z.div_mul by lia.
  pose proof (Z_div_mod_eq_full (i_sz + 4095) 4096). pose proof (Z.mod_pos_bound (i_sz + 4095) 4096 ltac:(lia)).
  lia.
Qed.

Lemma aligned_ALIGN v : ALIGN_PAGE v = v <-> v mod PAGESIZE = 0.
Proof.
  rewrite ALIGN_PAGE_eq. unfold PAGESIZE.
  pose proof (Z_div_mod_eq_full (v + 4095) 4096). pose proof (Z.mod_pos_bound (v + 4095) 4096 ltac:(lia)).
  pose proof (Z_div_mod_eq_full v 4096). pose proof (Z.mod_pos_bound v 4096 ltac:(lia)). lia.
Qed.

(** The invariant sees four parts of the manager. *)
Lemma client_with h h' pgs own others others' :
  client_inv h pgs own others ->
  h_hdr h' = h_hdr h -> h_bytes h' = h_bytes h -> first_chunk h' = first_chunk h ->
  pa_ok (h_pages h') (page_regions pgs ++ others') -> client_inv h' pgs own others'.
Proof.
  intros [C1 C2 C3 C4 C5] E1 E2 E3 Hp. split; rewrite ?E1, ?E3; auto.
  eapply Forall_impl; [exact C3|]. intros o. unfold owned_ok, guard_at. by rewrite E1, E2.
Qed.

(** A crash that comes from the page allocator. *)
Definition out_of_pages (f : fault) : Prop := exists n (s : S), pa_alloc n s = Crash f.

Lemma elem_allocs h own o :
  o ∈ allocs h own <-> o ∈ own \/ exists v n, (v, n) ∈ live (big_chunk_stack h) /\ o = (v, n * PAGESIZE).
Proof.
  unfold allocs. rewrite elem_of_app, list_elem_of_fmap. split; (intros [?|Hx]; [by left|right]).
  - destruct Hx as ([v n] & -> & Hin). eauto.
  - destruct Hx as (v & n & Hin & ->). by exists (v, n).
Qed.

(** A new region is apart from every allocation. *)
Lemma new_region_apart h pgs own others v n o x :
  client_inv h pgs own ((v, n) :: others) ->
  o ∈ own \/ (exists w m, (w, m) ∈ others /\ o = (w, m * PAGESIZE)) ->
  inside o x -> v <= x < v + n * PAGESIZE -> False.
Proof.
  intros C Ho Hx Hx2. destruct Ho as [Ho|(w & m & Hin & ->)].
  - apply (small_big_apart h pgs own _ o (v, n) x C Ho); [by left| |done].
    pose proof (ci_owned _ _ _ _ C) as Hf. rewrite Forall_forall in Hf.
    destruct (Hf o Ho) as (_ & H2 & H3 & _). unfold inside in Hx. lia.
  - apply list_elem_of_lookup in Hin as [j Hj].
    pose proof (regions_apart _ _ (length (page_regions pgs)) (length (page_regions pgs) + (1 + j))
      (v, n) (w, m) (ci_pages _ _ _ _ C)) as Hap.
    rewrite !lookup_app_r in Hap by lia.
    replace (length (page_regions pgs) - length (page_regions pgs))%nat with 0%nat in Hap by lia.
    replace (length (page_regions pgs) + (1 + j) - length (page_regions pgs))%nat with (Datatypes.S j) in Hap by lia.
    simpl in Hap. destruct (Hap eq_refl Hj ltac:(lia)) as [Ha|Ha]; unfold inside in Hx; cbn [fst snd] in *; lia.
Qed.

(** What allocation promises. *)
Definition alloc_post h own rest (ptr i_sz : Z) h' : Prop :=
  exists pgs' own', full_inv h' pgs' own' rest /\
    (exists sz, (ptr, sz) ∈ allocs h' own' /\ i_sz <= sz) /\
    (forall o, o ∈ allocs h own -> o ∈ allocs h' own' /\
       (forall x, inside o x -> h_bytes h' x = h_bytes h x /\ ~ inside (ptr, i_sz) x)).

Lemma allocateBig_spec h pgs own rest i_sz tid :
  full_inv h pgs own rest -> 0 < i_sz ->
  match _allocateBig i_sz tid h with
  | Crash f => out_of_pages f
  | Done (ptr, h') => alloc_post h own rest ptr i_sz h' /\ ptr mod PAGESIZE = 0 /\ 0 < ptr
  end.
Proof.
  intros [C Hd] Hsz. destruct (align_pages i_sz Hsz) as [Hn Hfit]. unfold _allocateBig.
  set (n := ALIGN_PAGE i_sz / PAGESIZE) in *.
  destruct (pa_alloc n (h_pages h)) as [[v s]|f] eqn:Ea; cbn [obind]; [|by exists n, (h_pages h)].
  destruct (pa_alloc_ok _ _ _ _ _ (ci_pages _ _ _ _ C) Hn Ea) as (Hpa & Hal & Hv).
  set (count := u32 _). set (mx := if _ <? count then _ else _).
  set (h1 := with_big h (big_chunk_stack h) count mx s).
  assert (C1 : client_inv h1 pgs own ((v, n) :: live (big_chunk_stack h) ++ rest)).
  { eapply client_with; [exact C|done..|]. subst h1. cbn [h_pages with_big].
    eapply pa_perm; [|exact Hpa]. by rewrite Permutation_middle. }
  assert (Hap : forall h2 own2 pgs2 o x, client_inv h2 pgs2 own2 ((v, n) :: live (big_chunk_stack h) ++ rest) ->
    (forall o, o ∈ own -> o ∈ own2) -> o ∈ allocs h own -> inside o x -> ~ inside (v, i_sz) x).
  { intros h2 own2 pgs2 o x C2 Hsub Ho Hx Hx2.
    apply (new_region_apart h2 pgs2 own2 (live (big_chunk_stack h) ++ rest) v n o x C2); [|done|].
    - apply elem_allocs in Ho as [Ho|(w & m & Hin & ->)]; [left; auto|right].
      exists w, m. split; [|done]. apply elem_of_app. by left.
    - unfold inside in Hx2. simpl in Hx2. lia. }
  change (big_chunk_stack h1) with (big_chunk_stack h).
  destruct (use_entry v n (big_chunk_stack h)) as [d'|] eqn:Eu.
  - destruct (use_entry_ok v n _ d' Hd Hn Hv Hal Eu) as [Hd' Hl]. split; [|done].
    exists pgs, own. split_and!.
    + split; [|done]. eapply client_with; [exact C1|done..|]. cbn [h_pages with_big big_chunk_stack].
      eapply pa_perm; [|apply (ci_pages _ _ _ _ C1)]. subst h1. cbn [h_pages with_big]. by rewrite Hl.
    + exists (n * PAGESIZE). split; [|done]. apply elem_allocs. right. exists v, n. split; [|done].
      cbn [big_chunk_stack with_big]. rewrite Hl. by left.
    + intros o Ho. split.
      * apply elem_allocs in Ho as [Ho|(w & m & Hin & ->)]; apply elem_allocs; [by left|right].
        exists w, m. split; [|done]. cbn [big_chunk_stack with_big]. rewrite Hl. by right.
      * intros x Hx. split; [done|]. by eapply (Hap h1 own pgs o x C1).
  - pose proof (allocate_spec h1 pgs own _ DIR_SIZE tid C1 ltac:(unfold DIR_SIZE, MAX_SMALL_ALLOC_SIZE,
      CHUNK_HEADER_PLUS_RESERVED; lia)) as Hs.
    destruct (_allocate DIR_SIZE tid h1) as [[bc h2]|f]; cbn [obind]; [|by exists 1, (h_pages h1)].
    destruct Hs as ((pgs2 & C2) & (Hd2 & _ & _) & Hg & Hby & _). split; [|done].
    assert (Hl : live (mkDir v n :: big_chunk_stack h2) = (v, n) :: live (big_chunk_stack h)).
    { rewrite live_cons, decide_True by (simpl; lia). simpl. by rewrite Hd2. }
    exists pgs2, ((bc, DIR_SIZE) :: own). split_and!.
    + split; cbn [big_chunk_stack with_big].
      * rewrite Hl. eapply client_with; [exact C2|done..|]. apply (ci_pages _ _ _ _ C2).
      * constructor; [right; simpl; auto|]. by rewrite Hd2.
    + exists (n * PAGESIZE). split; [|done]. apply elem_allocs. right. exists v, n. split; [|done].
      cbn [big_chunk_stack with_big]. rewrite Hl. by left.
    + intros o Ho. split.
      * apply elem_allocs in Ho as [Ho|(w & m & Hin & ->)]; apply elem_allocs; [left; by right|right].
        exists w, m. split; [|done]. cbn [big_chunk_stack with_big]. rewrite Hl. by right.
      * intros x Hx. split; [|eapply (Hap h2 _ pgs2 o x C2); [by right|done|done]].
        cbn [h_bytes with_big]. change (h_bytes h) with (h_bytes h1).
        apply elem_allocs in Ho as [Ho|(w & m & Hin & ->)]; [by eapply Hby|]. apply Hg. intros ->.
        apply (small_big_apart h2 pgs2 _ _ (bc, DIR_SIZE) (w, m) (guard_at h2 bc) C2).
        -- by left.
        -- right. apply elem_of_app. by left.
        -- pose proof (ci_owned _ _ _ _ C2) as Hf. apply Forall_cons in Hf as [(_ & H2' & H3 & _) _].
           cbn [fst snd] in *. lia.
        -- done.
Qed.

(** A small allocation is never page aligned, nor null. *)
Lemma tiled_aligned hdr a e l x : tiled hdr a e l -> x ∈ l -> (x - a) mod 16 = 0.
Proof.
  revert a. induction l as [|y l IH]; intros a; [intros _ Hx; by apply elem_of_nil in Hx|].
  simpl. intros (-> & Hb & Ht) [->|Hx]%elem_of_cons.
  - by rewrite Z.sub_diag.
  - pose proof (bucketByteSize_bounds _ Hb) as [_ Hm]. specialize (IH _ Ht Hx).
    replace (x - a) with (x - (a + bucketByteSize (c_bucket (hdr a))) + bucketByteSize (c_bucket (hdr a))) by lia.
    rewrite Z.add_mod, IH, Hm by lia. done.
Qed.

Lemma small_ptr h pgs own others o :
  client_inv h pgs own others -> o ∈ own -> o.1 mod 16 = 8.
Proof.
  intros C Ho. pose proof (ci_owned _ _ _ _ C) as Hf. rewrite Forall_forall in Hf.
  destruct (Hf o Ho) as ([Ht _] & _). pose proof (hi_pages _ _ _ _ (ci_heap _ _ _ _ C)) as HP.
  destruct (tile_range _ _ _ HP Ht) as (p & Hp & _ & _ & _ & Hin).
  rewrite Forall_forall in HP. destruct (HP p Hp) as [Ap Tp].
  pose proof (tiled_aligned _ _ _ _ _ Tp Hin) as Hm.
  replace o.1 with (8 + (o.1 - 8 - hp_addr p) + hp_addr p) by lia.
  unfold PAGESIZE in Ap. apply Z.mod_divide in Ap as [k Ek]; [|lia].
  apply Z.mod_divide in Hm as [j Hj]; [|lia]. rewrite Hj, Ek.
  replace (8 + j * 16 + k * 4096) with (8 + (j + k * 256) * 16) by lia. by rewrite Z_mod_plus_full.
Qed.

Lemma small_not_aligned h pgs own others o :
  client_inv h pgs own others -> o ∈ own -> ALIGN_PAGE o.1 <> o.1 /\ o.1 <> 0.
Proof.
  intros C Ho. pose proof (small_ptr h pgs own others o C Ho) as Hm. split.
  - intros E%aligned_ALIGN. unfold PAGESIZE in E. apply Z.mod_divide in E as [k E]; [|lia]. rewrite E in Hm.
    replace (k * 4096) with (0 + (k * 256) * 16) in Hm by lia. by rewrite Z_mod_plus_full in Hm.
  - intros E. by rewrite E in Hm.
Qed.

(** Small allocations through the full invariant. *)
Lemma allocateSmall_spec h pgs own rest i_sz tid :
  full_inv h pgs own rest -> 0 <= i_sz <= MAX_SMALL_ALLOC_SIZE ->
  match _allocate i_sz tid h with
  | Crash f => out_of_pages f
  | Done (ptr, h') => alloc_post h own rest ptr i_sz h' /\ ptr <> 0
  end.
Proof.
  intros [C Hd] Hsz. pose proof (allocate_spec h pgs own _ i_sz tid C Hsz) as Hs.
  destruct (_allocate i_sz tid h) as [[ptr h']|f]; [|by exists 1, (h_pages h)].
  destruct Hs as ((pgs' & C') & (Hd' & _ & _) & Hg & Hby & Hap).
  assert (Ho' : owned_ok h' pgs' (ptr, i_sz)).
  { pose proof (ci_owned _ _ _ _ C') as Hf. by apply Forall_cons in Hf as [? _]. }
  split.
  - exists pgs', ((ptr, i_sz) :: own). split_and!.
    + split; [|by rewrite Hd']. by rewrite Hd'.
    + exists i_sz. split; [|done]. apply elem_allocs. left. by left.
    + intros o Ho. split.
      * apply elem_allocs in Ho as [Ho|Ho]; apply elem_allocs; [left; by right|right]. by rewrite Hd'.
      * intros x Hx. apply elem_allocs in Ho as [Ho|(w & m & Hin & ->)].
        -- split; [by eapply Hby|by eapply Hap].
        -- assert (Hno : forall y, ptr - 8 <= y <= guard_at h' ptr -> inside (w, m * PAGESIZE) y -> False).
           { intros y Hy Hy2. apply (small_big_apart h' pgs' _ _ (ptr, i_sz) (w, m) y C').
             - by left.
             - apply elem_of_app. left. done.
             - done.
             - done. }
           destruct Ho' as (_ & H2' & H3 & _). cbn [fst snd] in *. split.
           ++ apply Hg. intros ->. apply (Hno (guard_at h' ptr)); [lia|done].
           ++ intros Hx2. apply (Hno x); [|done]. unfold inside in Hx2. simpl in Hx2. lia.
  - intros ->. pose proof (small_ptr h' pgs' _ _ (0, i_sz) C' ltac:(by left)) as Hp. done.
Qed.

(** ** Release *)

Lemma not_huge ptr : ptr < VMM_VADDR_MALLOC -> in_huge ptr = false.
Proof. intros Hp. unfold in_huge. by rewrite (proj2 (Z.leb_gt _ _) Hp). Qed.

Lemma freeHuge_low ptr h : ptr < VMM_VADDR_MALLOC -> _freeHuge mm ptr h = None.
Proof. intros Hp. unfold _freeHuge. by rewrite not_huge. Qed.

(** [_free] of an allocation in use returns. *)
Lemma free_returns h pgs own rest ptr sz :
  full_inv h pgs own rest -> (ptr, sz) ∈ allocs h own -> ptr < VMM_VADDR_MALLOC ->
  exists h' own', _free mm ptr h = Done h' /\ full_inv h' pgs own' rest /\
    allocs h own ≡ₚ (ptr, sz) :: allocs h' own' /\ h_bytes h' = h_bytes h /\
    _free mm ptr h' = Crash KAssert.
Proof.
  intros [C Hd] Hin Hlow. apply elem_allocs in Hin as [Hin|(v & n & Hin & [= -> ->])].
  - destruct (small_not_aligned h pgs own _ (ptr, sz) C Hin) as [Hna Hn0]. cbn [fst] in *.
    apply list_elem_of_split in Hin as (own1 & own2 & ->).
    destruct (free_spec h pgs own1 own2 _ ptr sz C) as [(h' & E & C' & Hb & E2) _].
    assert (Hdirs : big_chunk_stack h' = big_chunk_stack h).
    { unfold free_small in E. repeat case_match; simplify_eq. unfold push_bucket. by case_match. }
    assert (Hf : forall h0, _free mm ptr h0 = free_small ptr h0).
    { intros h0. unfold _free. rewrite (proj2 (Z.eqb_neq _ _) Hn0), freeHuge_low by done.
      unfold _freeBig. by rewrite (proj2 (Z.eqb_neq _ _) Hna). }
    exists h', (own1 ++ own2). rewrite !Hf. split_and!; auto.
    + split; by rewrite Hdirs.
    + unfold allocs. rewrite Hdirs, <-!app_assoc. cbn [app]. rewrite <-Permutation_middle. done.
  - destruct (live_pos _ _ _ Hd Hin) as (Hv & Hn & Hal).
    assert (Hv0 : v <> 0) by lia.
    pose proof (clear_entry_ok v (big_chunk_stack h) Hd Hv) as Hc.
    destruct (clear_entry v (big_chunk_stack h)) as [[m d']|] eqn:Ec;
      [|destruct Hc as [Hc _]; by destruct (Hc n)].
    destruct Hc as (Hd' & Hm & Hl & _).
    assert (m = n) as ->.
    { rewrite Hl in Hin. apply elem_of_cons in Hin as [[= ?]|Hin]; [done|]. exfalso.
      apply list_elem_of_lookup in Hin as [j Hj].
      assert (Hpa : pa_ok (h_pages h) (((v, m) :: live d') ++ page_regions pgs ++ rest)).
      { eapply pa_perm; [|apply (ci_pages _ _ _ _ C)]. rewrite Hl. solve_Permutation. }
      destruct (regions_apart _ _ 0 (Datatypes.S j) (v, m) (v, n) Hpa) as [?|?]; [done| |done| |];
        cbn [fst snd] in *; try (unfold PAGESIZE in *; lia).
      simpl. by rewrite lookup_app_l by (by eapply lookup_lt_Some). }
    assert (Hpa : pa_ok (h_pages h) ((v, n) :: page_regions pgs ++ live d' ++ rest)).
    { eapply pa_perm; [|apply (ci_pages _ _ _ _ C)]. rewrite Hl. solve_Permutation. }
    destruct (pa_free_ok _ _ _ _ Hpa) as (s' & Es & Hpa').
    assert (Hcl : clear_entry v d' = None).
    { pose proof (clear_entry_ok v d' Hd' Hv) as Hc2. destruct (clear_entry v d') as [[k d2]|]; [|done].
      exfalso. destruct Hc2 as (_ & Hk & Hl2 & _).
      destruct (regions_apart (h_pages h) ((v, n) :: (v, k) :: live d2 ++ page_regions pgs ++ rest) 0 1 (v, n) (v, k))
        as [?|?]; [|done|done|done| |]; cbn [fst snd] in *; try (unfold PAGESIZE in *; lia).
      eapply pa_perm; [|exact Hpa]. rewrite Hl2. solve_Permutation. }
    apply aligned_ALIGN in Hal.
    eexists _, own. unfold _free. rewrite (proj2 (Z.eqb_neq _ _) Hv0), !freeHuge_low by done.
    unfold _freeBig at 1. rewrite Hal, Z.eqb_refl. cbn [negb]. rewrite Ec, Es. cbn [obind].
    split; [done|]. split_and!.
    + split; [|done]. eapply client_with; [exact C|done..|]. done.
    + unfold allocs. cbn [big_chunk_stack with_big]. rewrite Hl. simpl.
      by rewrite <-Permutation_middle.
    + done.
    + unfold _freeBig. rewrite Hal, Z.eqb_refl. cbn [negb big_chunk_stack with_big]. by rewrite Hcl.
Qed.

(** ** Moving *)

(** Copying into a fresh allocation touches no validation byte. *)
Lemma copy_in_keeps h pgs own rest ptr sz src k :
  full_inv h pgs own rest -> (ptr, sz) ∈ allocs h own -> k <= sz ->
  full_inv (with_bytes h (memcpy ptr src k (h_bytes h))) pgs own rest.
Proof.
  intros [C Hd] Hin Hk. split; [|done]. apply client_bytes; [done|]. intros o Ho. unfold memcpy.
  destruct (ptr <=? guard_at h o.1) eqn:E1; [|done]. destruct (guard_at h o.1 <? ptr + k) eqn:E2; [|done].
  b2p. exfalso. pose proof (ci_owned _ _ _ _ C) as Hf. rewrite Forall_forall in Hf.
  destruct (Hf o Ho) as (U & H2' & H3 & _).
  apply elem_allocs in Hin as [Hin|(v & n & Hin & [= -> ->])].
  - destruct (Hf _ Hin) as (_ & _ & H4 & _). cbn [fst snd] in H4.
    destruct (decide (o.1 = ptr)) as [Heq|Hne]; [rewrite Heq in *; lia|].
    apply (owned_apart h pgs own _ (ptr, sz) o (guard_at h o.1) C Hin Ho); [done| |].
    + unfold inside. simpl. lia.
    + unfold guard_at in *. lia.
  - apply (small_big_apart h pgs own _ o (v, n) (guard_at h o.1) C Ho).
    + apply elem_of_app. by left.
    + lia.
    + simpl. lia.
Qed.

(** What a change of size promises. *)
Definition realloc_post h own rest (ptr sz ptr' i_sz : Z) h' : Prop :=
  exists pgs' own', full_inv h' pgs' own' rest /\
    (exists sz', (ptr', sz') ∈ allocs h' own' /\ i_sz <= sz') /\
    (forall k, 0 <= k < Z.min sz i_sz -> h_bytes h' (ptr' + k) = h_bytes h (ptr + k)) /\
    (forall o, o ∈ allocs h own -> o <> (ptr, sz) -> o ∈ allocs h' own' /\
       forall x, inside o x -> h_bytes h' x = h_bytes h x).

(** A new place, the copy, and the release of the old place. *)
Lemma move_spec h own pgs rest ptr sz new asize i_sz h1 :
  full_inv h pgs own rest -> (ptr, sz) ∈ allocs h own -> ptr < VMM_VADDR_MALLOC ->
  alloc_post h own rest new i_sz h1 -> sz <= asize -> asize < i_sz ->
  exists h', _free mm ptr (with_bytes h1 (memcpy new ptr asize (h_bytes h1))) = Done h' /\
    realloc_post h own rest ptr sz new i_sz h'.
Proof.
  intros I Hin Hlow (pgs1 & own1 & I1 & (nsz & Hnew & Hnsz) & Hkeep) Has1 Has2.
  destruct (Hkeep _ Hin) as [Hin1 Hold].
  pose proof (copy_in_keeps h1 pgs1 own1 rest new nsz ptr asize I1 Hnew ltac:(lia)) as I2.
  set (h2 := with_bytes h1 _) in *.
  destruct (free_returns h2 pgs1 own1 rest ptr sz I2 Hin1 Hlow) as (h' & own' & E & I' & Hp & Hb & _).
  exists h'. split; [done|]. exists pgs1, own'. split_and!; [done| | |].
  - exists nsz. split; [|done]. change (allocs h1 own1) with (allocs h2 own1) in Hnew. rewrite Hp in Hnew.
    apply elem_of_cons in Hnew as [[= -> ->]|?]; [|done]. lia.
  - intros k Hk. rewrite Hb. subst h2. cbn [h_bytes with_bytes]. unfold memcpy.
    rewrite (proj2 (Z.leb_le new (new + k))), (proj2 (Z.ltb_lt (new + k) (new + asize))) by lia. cbn [andb].
    replace (ptr + (new + k - new)) with (ptr + k) by lia. apply Hold. unfold inside. simpl. lia.
  - intros o Ho Hne. destruct (Hkeep o Ho) as [Ho1 Hb1]. split.
    + change (allocs h1 own1) with (allocs h2 own1) in Ho1. rewrite Hp in Ho1.
      by apply elem_of_cons in Ho1 as [?|?].
    + intros x Hx. destruct (Hb1 x Hx) as [Hb2 Hnin]. rewrite Hb. subst h2. cbn [h_bytes with_bytes].
      unfold memcpy. destruct (new <=? x) eqn:E1; [|done]. destruct (x <? new + asize) eqn:E2; [|done].
      b2p. exfalso. apply Hnin. unfold inside. simpl. lia.
Qed.

(** The same place serves the new size. *)
Lemma stay_small h pgs own rest ptr sz i_sz :
  full_inv h pgs own rest -> (ptr, sz) ∈ own -> 0 <= i_sz -> ptr + i_sz <= guard_at h ptr ->
  realloc_post h own rest ptr sz ptr i_sz h.
Proof.
  intros [C Hd] Hin Hsz Hfit. apply list_elem_of_split in Hin as (o1 & o2 & ->).
  exists pgs, (o1 ++ (ptr, i_sz) :: o2). split_and!.
  - split; [|done]. destruct C as [C1 C2 C3 C4 C5].
    assert (Hfst : (o1 ++ (ptr, i_sz) :: o2).*1 = (o1 ++ (ptr, sz) :: o2).*1)
      by (by rewrite !fmap_app, !fmap_cons).
    split; rewrite ?Hfst; auto. apply Forall_app in C3 as [D1 D2]. apply Forall_cons in D2 as [D2 D3].
    apply Forall_app. split; [done|]. apply Forall_cons. split; [|done].
    destruct D2 as (U & _ & _ & Hv). split_and!; try done; apply U.
  - exists i_sz. split; [|done]. apply elem_allocs. left. set_solver.
  - done.
  - intros o Ho Hne. split; [|done]. apply elem_allocs in Ho as [Ho|Ho]; apply elem_allocs; [left|by right].
    apply elem_of_app in Ho as [?|[?|?]%elem_of_cons]; set_solver.
Qed.

Lemma reallocBig_spec h pgs own rest v n i_sz :
  full_inv h pgs own rest -> (v, n) ∈ live (big_chunk_stack h) -> 0 < i_sz ->
  match _reallocBig v i_sz h with
  | Crash f => out_of_pages f
  | Done (ptr', h') => 0 < ptr' /\ realloc_post h own rest v (n * PAGESIZE) ptr' i_sz h'
  end.
Proof.
  intros I Hin Hsz. pose proof I as [C Hd]. destruct (live_pos _ _ _ Hd Hin) as (Hv & Hn & Hal).
  pose proof (proj2 (aligned_ALIGN v) Hal) as Hal'. unfold _reallocBig. rewrite Hal', Z.eqb_refl. cbn [negb].
  pose proof (clear_entry_ok v (big_chunk_stack h) Hd Hv) as Hc.
  destruct (clear_entry v (big_chunk_stack h)) as [[m d']|] eqn:Ec;
    [|destruct Hc as [Hc _]; by destruct (Hc n)].
  destruct Hc as (Hd' & Hm & Hl & ->).
  assert (Hpa0 : pa_ok (h_pages h) ((v, m) :: live d' ++ page_regions pgs ++ rest)).
  { eapply pa_perm; [|apply (ci_pages _ _ _ _ C)]. rewrite Hl. solve_Permutation. }
  assert (m = n) as ->.
  { rewrite Hl in Hin. apply elem_of_cons in Hin as [[= ?]|Hin]; [done|]. exfalso.
    apply list_elem_of_lookup in Hin as [j Hj].
    destruct (regions_apart _ _ 0 (Datatypes.S j) (v, m) (v, n) Hpa0) as [?|?]; [done| |done| |];
      cbn [fst snd] in *; try (unfold PAGESIZE in *; lia).
    simpl. by rewrite lookup_app_l by (by eapply lookup_lt_Some). }
  destruct (align_pages i_sz Hsz) as [Hns Hfit]. set (n' := ALIGN_PAGE i_sz / PAGESIZE) in *.
  destruct (n <? n') eqn:En; b2p.
  2:{ split; [done|]. exists pgs, own. split_and!; [done| |done|].
      - exists (n * PAGESIZE). split; [apply elem_allocs; right; eauto|]. unfold PAGESIZE in *. lia.
      - intros o Ho _. done. }
  destruct (pa_alloc n' (h_pages h)) as [[v' s]|f] eqn:Ea; cbn [obind]; [|by exists n', (h_pages h)].
  destruct (pa_alloc_ok _ _ _ _ _ Hpa0 Hns Ea) as (Hpa1 & Hal1 & Hv').
  eapply pa_perm in Hpa1; [|apply Permutation_swap].
  destruct (pa_free_ok _ _ _ _ Hpa1) as (s' & -> & Hpa2). cbn [obind]. split; [done|].
  destruct (move_entry_ok v n v' n' _ d' Hd Hv Hns Hv' Hal1 Ec) as [Hd2 Hl2].
  assert (Hreg : forall w k x, (w, k) ∈ page_regions pgs ++ live d' ++ rest -> w <= x < w + k * PAGESIZE ->
    v' <= x < v' + n' * PAGESIZE -> False).
  { intros w k x Hw Hx Hx2. assert (Hw2 : (w, k) ∈ live d' ++ page_regions pgs ++ rest) by set_solver.
    apply list_elem_of_lookup in Hw2 as [j Hj].
    destruct (regions_apart _ _ 0 (Datatypes.S j) (v', n') (w, k) Hpa2 eq_refl Hj ltac:(lia)) as [?|?];
      cbn [fst snd] in *; lia. }
  assert (Hsm : forall o x, o ∈ own -> o.1 - 8 <= x <= guard_at h o.1 -> v' <= x < v' + n * PAGESIZE -> False).
  { intros o x Ho Hx Hx2. destruct (owned_in_page h pgs own _ o C Ho) as (p & Hp & P1 & P2).
    apply (Hreg p 1 x); [apply elem_of_app; by left|lia|]. unfold PAGESIZE in *. lia. }
  assert (Hcopy : forall x, ~ (v' <= x < v' + n * PAGESIZE) ->
    memcpy v' v (n * PAGESIZE) (h_bytes h) x = h_bytes h x).
  { intros x Hx. unfold memcpy. destruct (v' <=? x) eqn:E1; [|done].
    destruct (x <? v' + n * PAGESIZE) eqn:E2; [|done]. b2p. lia. }
  pose proof (ci_owned _ _ _ _ C) as Hf. rewrite Forall_forall in Hf.
  assert (C2 : client_inv (with_bytes h (memcpy v' v (n * PAGESIZE) (h_bytes h))) pgs own (live (big_chunk_stack h) ++ rest)).
  { apply client_bytes; [done|]. intros o Ho. apply Hcopy. intros Hx.
    destruct (Hf o Ho) as (_ & H2' & H3 & _). apply (Hsm o (guard_at h o.1) Ho); [lia|done]. }
  exists pgs, own. split_and!.
  - split; cbn [big_chunk_stack with_big]; [|done].
    eapply client_with; [exact C2|done..|]. cbn [h_pages with_big]. eapply pa_perm; [|exact Hpa2].
    cbn [big_chunk_stack with_bytes]. rewrite Hl2. solve_Permutation.
  - exists (n' * PAGESIZE). split; [|done]. apply elem_allocs. right. exists v', n'. split; [|done].
    cbn [big_chunk_stack with_big with_bytes]. rewrite Hl2. by left.
  - intros k Hk. cbn [h_bytes with_big with_bytes]. unfold memcpy.
    rewrite (proj2 (Z.leb_le v' (v' + k))), (proj2 (Z.ltb_lt (v' + k) _)) by lia. cbn [andb].
    f_equal. lia.
  - intros o Ho Hne. apply elem_allocs in Ho as [Ho|(w & k & Hw & ->)].
    + split; [apply elem_allocs; by left|]. intros x Hx. apply Hcopy. intros Hx2.
      destruct (Hf o Ho) as (_ & H2' & H3 & _). apply (Hsm o x Ho); [|done]. unfold inside in Hx. lia.
    + rewrite Hl in Hw. apply elem_of_cons in Hw as [[= -> ->]|Hw]; [done|]. split.
      * apply elem_allocs. right. exists w, k. split; [|done].
        cbn [big_chunk_stack with_big with_bytes]. rewrite Hl2. by right.
      * intros x Hx. apply Hcopy. intros Hx2. apply (Hreg w k x).
        -- rewrite !elem_of_app. tauto.
        -- done.
        -- unfold PAGESIZE in *. lia.
Qed.
End spec.

(** ** Theorems *)



(** [HeapManager::realloc] of an allocation in use, to a size above zero: it
    returns (unless pages run out) a place of at least that size that holds the
    old bytes up to the smaller of the sizes; every other allocation stays in
    use with its bytes. *)
Theorem heap_realloc_correct {S} `{PageAllocatorLaws S} mm (h : HeapManager S) pgs own rest ptr sz i_sz tid :
  full_inv h pgs own rest -> (ptr, sz) ∈ allocs h own -> ptr < VMM_VADDR_MALLOC -> 0 < i_sz ->
  match _realloc mm ptr i_sz tid h with
  | Crash f => out_of_pages (S := S) f
  | Done (ptr', h') => realloc_post h own rest ptr sz ptr' i_sz h'
  end.
Proof.
  intros I Hin Hlow Hsz. pose proof I as [C Hd]. unfold _realloc. rewrite (proj2 (Z.leb_gt _ _) Hlow).
  pose proof Hin as Hin'. apply elem_allocs in Hin' as [Ho|(v & n & Hl & [= -> ->])].
  2:{ pose proof (reallocBig_spec h pgs own rest v n i_sz I Hl Hsz) as Hs.
      destruct (_reallocBig v i_sz h) as [[ptr' h']|f]; cbn [obind]; [|done].
      destruct Hs as [Hp Hs]. by rewrite (proj2 (Z.eqb_neq ptr' 0)) by lia. }
  destruct (small_not_aligned h pgs own _ (ptr, sz) C Ho) as [Hna Hn0]. cbn [fst] in *.
  unfold _reallocBig. rewrite (proj2 (Z.eqb_neq _ _) Hna). cbn [negb obind Z.eqb].
  pose proof (ci_owned _ _ _ _ C) as Hf. rewrite Forall_forall in Hf.
  destruct (Hf _ Ho) as ([Ht _] & H2 & H3 & _). cbn [fst snd] in *. unfold guard_at in H3.
  destruct (tile_range _ _ _ (hi_pages _ _ _ _ (ci_heap _ _ _ _ C)) Ht) as (_ & _ & _ & _ & Hb & _).
  pose proof (bucketByteSize_bounds _ Hb) as Hbs. unfold CHUNK_HEADER_PLUS_RESERVED.
  rewrite wrap_small by (unfold is_word; lia).
  set (asize := bucketByteSize (c_bucket (h_hdr h (ptr - 8))) - 9) in *.
  destruct (asize <? i_sz) eqn:Ea; b2p.
  2:{ rewrite (proj2 (Z.eqb_neq _ _) Hn0). cbn [negb]. eapply stay_small; eauto; [lia|].
      unfold guard_at. subst asize. lia. }
  assert (Hcont : forall new h1, alloc_post h own rest new i_sz h1 -> new <> 0 ->
    match (do h <- _free mm ptr (with_bytes h1 (memcpy new ptr asize (h_bytes h1)));
           assert! negb (new =? 0); Done (new, h)) with
    | Crash f => out_of_pages (S := S) f
    | Done (ptr', h') => realloc_post h own rest ptr sz ptr' i_sz h'
    end).
  { intros new h1 Hpost Hnew. destruct (move_spec mm h own pgs rest ptr sz new asize i_sz h1 I Hin Hlow Hpost)
      as (h' & -> & Hr); [subst asize; lia|lia|]. cbn [obind]. by rewrite (proj2 (Z.eqb_neq _ _) Hnew). }
  destruct (MAX_SMALL_ALLOC_SIZE <? i_sz) eqn:E; b2p.
  - pose proof (allocateBig_spec h pgs own rest i_sz tid I Hsz) as Hs.
    destruct (_allocateBig i_sz tid h) as [[new h1]|f]; cbn [obind]; [|done].
    destruct Hs as (Hp & _ & Hn). apply Hcont; [done|lia].
  - pose proof (allocateSmall_spec h pgs own rest i_sz tid I ltac:(lia)) as Hs.
    destruct (_allocate i_sz tid h) as [[new h1]|f]; cbn [obind]; [|done].
    destruct Hs as [Hp Hn]. by apply Hcont.
Qed.
