(* ===== verification/HeapPages.v ===== *)
(** * The page manager as the heap's page allocator

    [PageManager] in kernel mode keeps the promises the heap manager relies
    on. *)

From S2P Require Import Prelude Containers PageMgr PageMgrSpec HeapMgr.

(** [PageManager::allocatePage(n)] in kernel mode (running out of memory stops
    the machine there) and [PageManager::freePage]. *)
#[global] Instance pm_allocator : PageAllocator PageManager := {
  pa_alloc n pm :=
    do (p, pm) <- pm_allocatePage n false false pm;
    match p with Some p => Done (p, pm) | None => Crash KAssert end;
  pa_free p n pm := pm_freePage (Some p) n pm
}.

Definition pm_regions_ok (pm : PageManager) (l : list (Z * Z)) : Prop :=
  sys_ok (PageMgrSpec.mkSys pm l) /\ Forall (fun a => 0 < a) (all_pages (PageMgrSpec.mkSys pm l)).

Lemma owned_pages_perm l l' : l ≡ₚ l' -> owned_pages l ≡ₚ owned_pages l'.
Proof. intros Hp. unfold owned_pages. by rewrite Hp. Qed.

Lemma sys_ok_perm pm l l' : l ≡ₚ l' -> sys_ok (PageMgrSpec.mkSys pm l) -> sys_ok (PageMgrSpec.mkSys pm l').
Proof.
  intros Hp [A1 A2 A3 A4 A5 A6 A7 A8 A9 A10]. pose proof (owned_pages_perm _ _ Hp) as Ho.
  unfold all_pages in *. cbn [sys_pm sys_owned] in *.
  split; unfold all_pages; cbn [sys_pm sys_owned]; auto; by rewrite <-?Ho, <-?Hp.
Qed.

Lemma pm_perm pm l l' : l ≡ₚ l' -> pm_regions_ok pm l -> pm_regions_ok pm l'.
Proof.
  intros Hp [H1 H2]. split; [by eapply sys_ok_perm|]. unfold all_pages in *. cbn [sys_pm sys_owned] in *.
  by rewrite <-(owned_pages_perm _ _ Hp).
Qed.

Lemma owned_cons r l : owned_pages (r :: l) = pages r.1 r.2 ++ owned_pages l.
Proof. reflexivity. Qed.

(** Two regions of one sound state share no page, so they are apart. *)
Lemma pm_apart pm r1 r2 l : pm_regions_ok pm (r1 :: r2 :: l) -> apart r1 r2.
Proof.
  intros [[_ _ _ _ Hnd Hal _ _ _ Ho] _]. unfold all_pages in *. cbn [sys_pm sys_owned] in *.
  apply Forall_cons in Ho as [Ho1 Ho]. apply Forall_cons in Ho as [Ho2 _].
  apply NoDup_app in Hnd as (_ & _ & Hnd). apply NoDup_app in Hnd as (_ & _ & Hnd).
  apply Forall_app in Hal as [_ Hal]. apply Forall_app in Hal as [_ Hal].
  rewrite !owned_cons in *. apply Forall_app in Hal as [Al1 Al2]. apply Forall_app in Al2 as [Al2 _].
  apply NoDup_app in Hnd as (_ & Hd & _). destruct r1 as [p n], r2 as [q m]. cbn [fst snd] in *.
  rewrite Forall_forall in Al1, Al2.
  assert (Hp : p ∈ pages p n) by (apply elem_of_pages; exists 0; lia).
  assert (Hq : q ∈ pages q m) by (apply elem_of_pages; exists 0; lia).
  pose proof (Al1 p Hp) as Ap. pose proof (Al2 q Hq) as Aq. unfold page_aligned in *.
  unfold apart. simpl. apply Z.mod_divide in Ap as [i ->], Aq as [j ->]; [|done..].
  destruct (Z.le_gt_cases (i + n) j) as [?|H1]; [left; unfold PAGESIZE; lia|].
  destruct (Z.le_gt_cases (j + m) i) as [?|H2]; [right; unfold PAGESIZE; lia|].
  exfalso. destruct (Z.le_gt_cases i j).
  - apply (Hd (j * PAGESIZE)); [apply elem_of_pages; exists (j - i); split; lia|].
    apply elem_of_app. by left.
  - apply (Hd (i * PAGESIZE)); [done|]. apply elem_of_app. left.
    apply elem_of_pages. exists (i - j). split; lia.
Qed.

#[global] Program Instance pm_allocator_laws : PageAllocatorLaws PageManager := {
  pa_ok := pm_regions_ok
}.
Next Obligation.
  intros pm l n p pm' [Hok Hpos] Hn Ha. cbn [pa_alloc pm_allocator] in Ha.
  apply obind_Done in Ha as ([[p'|] pm1] & Ha & E); [|done]. injection E as -> ->.
  destruct (sys_alloc_ok pm pm' l n false false p Hn Ha Hok) as [Hok' Hp].
  assert (Hpos' : Forall (fun a => 0 < a) (all_pages (PageMgrSpec.mkSys pm' ((p, n) :: l)))) by (by rewrite Hp).
  split; [done|].
  assert (Hin : p ∈ all_pages (PageMgrSpec.mkSys pm' ((p, n) :: l))).
  { unfold all_pages. cbn [sys_owned]. rewrite owned_cons, !elem_of_app. right. right. left.
    apply elem_of_pages. exists 0. simpl. lia. }
  pose proof (so_aligned _ Hok') as Hal. rewrite Forall_forall in Hal, Hpos'. split; [by apply Hal|by apply Hpos'].
Qed.
Next Obligation.
  intros pm l p n [Hok Hpos]. cbn [pa_free pm_allocator].
  destruct (sys_free_ok pm [] l p n Hok) as (pm' & E & Hok' & Hp). exists pm'. split; [done|].
  split; [done|]. cbn [app] in *. by rewrite Hp.
Qed.
Next Obligation. intros. by eapply pm_apart. Qed.
Next Obligation. intros. by eapply pm_perm. Qed.
