(* ===== verification/HeapHuge.v ===== *)
(** * The slots for huge allocations ([HeapManager::_allocateHuge], [_freeHuge])

    The first huge allocation reserves a block of virtual memory and fills the
    list of slots; a slot in use has a page count above zero. *)

From S2P Require Import Prelude Containers Sync PageMgr HeapMgr HeapMgrSpec HeapBig HeapBigSpec.

(** The addresses of the slots as the loop of [_allocateHuge] leaves them. *)
Definition slot_addrs (n : nat) : list Z :=
  (fun k => VMM_VADDR_MALLOC + Z.of_nat k * HC_SLOT_SIZE) <$> seq 0 n.

(** The block reserved by [mm_alloc_block]. *)
Definition in_block (a : Z) : Prop :=
  VMM_VADDR_MALLOC <= a /\ a + HC_SLOT_SIZE <= VMM_VADDR_MALLOC + HC_TOTAL_SIZE.

Section huge.
Context {S : Type} `{PageAllocatorLaws S} (mm : mm_ops).
Implicit Types h : HeapManager S.

(** The list of slots is complete; no slot holds more than its size. *)
Record huge_ready h : Prop := {
  hr_state : hv_hugeblock_allocated h = 2;
  hr_addrs : d_addr <$> huge_chunk_stack h = slot_addrs 21;
  hr_pages : Forall (fun e => 0 <= d_pages e /\ d_pages e * PAGESIZE <= HC_SLOT_SIZE) (huge_chunk_stack h)
}.

(** The huge allocations in use. *)
Definition huge_live (d : list dir_t) : list dir_t := filter (fun e => d_pages e <> 0) d.

Lemma full_with_huge h pgs own rest d st : full_inv h pgs own rest -> full_inv (with_huge h d st) pgs own rest.
Proof. intros [[? ? ? ? ?] ?]. by split. Qed.

Lemma slot_addrs_S n : slot_addrs (Datatypes.S n) =
  VMM_VADDR_MALLOC :: ((fun a => a + HC_SLOT_SIZE) <$> slot_addrs n).
Proof.
  unfold slot_addrs. cbn [seq fmap list_fmap]. f_equal.
  rewrite <-list_fmap_compose, <-fmap_S_seq, <-list_fmap_compose.
  apply list_fmap_ext. intros i x _. unfold compose. lia.
Qed.

(** [slot_addrs] from the top, as the loop makes it. *)
Lemma slot_addrs_snoc n : slot_addrs (Datatypes.S n) = slot_addrs n ++ [VMM_VADDR_MALLOC + Z.of_nat n * HC_SLOT_SIZE].
Proof. unfold slot_addrs. rewrite seq_S, fmap_app. done. Qed.

Lemma fill_slots_ok k fuel tid h pgs own rest :
  (k < fuel)%nat -> full_inv h pgs own rest ->
  match fill_slots fuel (VMM_VADDR_MALLOC + Z.of_nat k * HC_SLOT_SIZE - HC_SLOT_SIZE) tid h with
  | Crash f => out_of_pages (S := S) f
  | Done h' => (exists pgs' own', full_inv h' pgs' own' rest) /\
      huge_chunk_stack h' = ((fun a => mkDir a 0) <$> slot_addrs k) ++ huge_chunk_stack h
  end.
Proof.
  revert fuel h pgs own. induction k as [|k IH]; intros [|fuel] h pgs own Hk I; try lia; cbn [fill_slots].
  - rewrite (proj2 (Z.leb_gt _ _)) by (unfold HC_SLOT_SIZE, MEGABYTE; lia). eauto.
  - rewrite (proj2 (Z.leb_le _ _)) by (unfold HC_SLOT_SIZE, MEGABYTE; lia).
    pose proof (allocate_spec h pgs own _ DIR_SIZE tid (fi_client _ _ _ _ I)) as Hs.
    destruct (_allocate DIR_SIZE tid h) as [[p h1]|f]; cbn [obind].
    2:{ exists 1, (h_pages h). apply Hs. by vm_compute. }
    destruct Hs as ((pgs1 & C1) & (D1 & D2 & D3) & _); [by vm_compute|].
    replace (VMM_VADDR_MALLOC + Z.of_nat (Datatypes.S k) * HC_SLOT_SIZE - HC_SLOT_SIZE)
      with (VMM_VADDR_MALLOC + Z.of_nat k * HC_SLOT_SIZE) by lia.
    assert (I1 : full_inv h1 pgs1 ((p, DIR_SIZE) :: own) rest)
      by (split; rewrite D1; [done|apply (fi_dir _ _ _ _ I)]).
    specialize (IH fuel (with_huge h1 (mkDir (VMM_VADDR_MALLOC + Z.of_nat k * HC_SLOT_SIZE) 0 :: huge_chunk_stack h1)
                (hv_hugeblock_allocated h1)) pgs1 ((p, DIR_SIZE) :: own) ltac:(lia)
                (full_with_huge _ _ _ _ _ _ I1)).
    destruct (fill_slots _ _ _ _) as [h2|f]; [|done]. destruct IH as [Hf Hst]. split; [done|].
    rewrite Hst. cbn [huge_chunk_stack with_huge].
    rewrite slot_addrs_snoc, fmap_app, <-app_assoc, D2. done.
Qed.

Lemma take_slot_ok pages d :
  match take_slot pages d with
  | None => Forall (fun e => d_pages e <> 0) d
  | Some (a, d') => exists d1 d2, d = d1 ++ mkDir a 0 :: d2 /\ d' = d1 ++ mkDir a pages :: d2 /\
                    Forall (fun e => d_pages e <> 0) d1
  end.
Proof.
  induction d as [|e d IH]; cbn [take_slot]; [done|]. destruct (d_pages e =? 0) eqn:E; b2p.
  - exists [], d. destruct e; simpl in *; subst. done.
  - destruct (take_slot pages d) as [[a d']|].
    + destruct IH as (d1 & d2 & -> & -> & Hf). exists (e :: d1), d2. auto.
    + auto.
Qed.

Lemma slot_addrs_nodup n : NoDup (slot_addrs n).
Proof.
  unfold slot_addrs. apply NoDup_fmap_2; [|apply NoDup_seq].
  intros x y E. unfold HC_SLOT_SIZE, MEGABYTE in E. lia.
Qed.

Lemma find_entry_mid a n d1 d2 :
  a ∉ (d_addr <$> d1) -> find_entry a (d1 ++ mkDir a n :: d2) = Some n.
Proof.
  induction d1 as [|e d1 IH]; cbn [app find_entry fmap list_fmap]; intros Hn; [by rewrite Z.eqb_refl|].
  apply not_elem_of_cons in Hn as [? ?]. rewrite (proj2 (Z.eqb_neq _ _)) by done. auto.
Qed.

Lemma set_slot_mid a n m d1 d2 :
  a ∉ (d_addr <$> d1) -> set_slot a m (d1 ++ mkDir a n :: d2) = d1 ++ mkDir a m :: d2.
Proof.
  induction d1 as [|e d1 IH]; cbn [app set_slot fmap list_fmap]; intros Hn; [by rewrite Z.eqb_refl|].
  apply not_elem_of_cons in Hn as [? ?]. rewrite (proj2 (Z.eqb_neq _ _)) by done. by rewrite IH.
Qed.

Lemma live_all d : Forall (fun e => d_pages e <> 0) d -> huge_live d = d.
Proof. unfold huge_live. induction 1; [done|]. rewrite filter_cons_True by done. by f_equal. Qed.

Lemma live_none e d : d_pages e = 0 -> e ∈ d -> huge_live d <> d.
Proof. unfold huge_live. intros He Hin E. rewrite <-E in Hin. by apply list_elem_of_filter in Hin as [? _]. Qed.

Lemma slots_apart a b x : a ∈ slot_addrs 21 -> b ∈ slot_addrs 21 ->
  a <= x < a + HC_SLOT_SIZE -> b <= x < b + HC_SLOT_SIZE -> a = b.
Proof.
  intros (i & -> & _)%list_elem_of_fmap (j & -> & _)%list_elem_of_fmap. unfold HC_SLOT_SIZE, MEGABYTE. nia.
Qed.
End huge.

(** ** Theorems *)

(** The first huge allocation, when the block can be reserved, returns (or
    the page allocator stops the machine) and leaves a complete list of slots
    that share no byte; the list has one slot more than [HC_NUM_SLOTS]: all but
    the last lie in the reserved block, and the last begins at its end, outside
    of it.  When the block cannot be reserved the state stays at "init in
    progress" and every later caller waits for ever. *)
Theorem huge_slots {S} `{PageAllocatorLaws S} mm (h : HeapManager S) pgs own rest i_sz tid :
  full_inv h pgs own rest -> hv_hugeblock_allocated h = 0 -> huge_chunk_stack h = [] ->
  0 < i_sz <= HC_SLOT_SIZE ->
  (mm_alloc_block mm VMM_VADDR_MALLOC HC_TOTAL_SIZE = 0 ->
   match _allocateHuge mm i_sz tid h with
   | Crash f => out_of_pages (S := S) f
   | Done None => False
   | Done (Some (ptr, h')) =>
       ptr = VMM_VADDR_MALLOC /\ huge_ready h' /\ (exists pgs' own', full_inv h' pgs' own' rest) /\
       slot_addrs 21 = slot_addrs (Z.to_nat HC_NUM_SLOTS) ++ [VMM_VADDR_MALLOC + HC_TOTAL_SIZE] /\
       Forall in_block (slot_addrs (Z.to_nat HC_NUM_SLOTS)) /\ ~ in_block (VMM_VADDR_MALLOC + HC_TOTAL_SIZE)
   end) /\
  (mm_alloc_block mm VMM_VADDR_MALLOC HC_TOTAL_SIZE <> 0 ->
   exists h', _allocateHuge mm i_sz tid h = Done (Some (0, h')) /\
     forall i_sz2 tid2, 0 < i_sz2 <= HC_SLOT_SIZE -> _allocateHuge mm i_sz2 tid2 h' = Done None).
Proof.
  intros I Hst Hnil Hsz.
  assert (Hpg : forall sz, 0 < sz <= HC_SLOT_SIZE -> ALIGN_PAGE sz / PAGESIZE * PAGESIZE <= HC_SLOT_SIZE /\
    0 < ALIGN_PAGE sz / PAGESIZE).
  { intros sz. rewrite ALIGN_PAGE_eq. unfold PAGESIZE, HC_SLOT_SIZE, MEGABYTE. intros [??].
    Z.to_euclidean_division_equations. lia. }
  pose proof (Hpg i_sz Hsz) as [Hp1 Hp2]. unfold _allocateHuge.
  rewrite (proj2 (Z.ltb_ge _ _) Hp1), Hst. cbn [Z.eqb]. split; intros Hmm.
  - rewrite (proj2 (Z.eqb_eq _ _) Hmm). cbn [negb].
    pose proof (fill_slots_ok 21 22 tid _ pgs own rest ltac:(lia) (full_with_huge h pgs own rest
      (huge_chunk_stack h) 1 I)) as Hf.
    change (VMM_VADDR_MALLOC + Z.of_nat 21 * HC_SLOT_SIZE - HC_SLOT_SIZE) with (VMM_VADDR_MALLOC + HC_TOTAL_SIZE) in Hf.
    destruct (fill_slots _ _ _ _) as [h1|f]; cbn [obind]; [|done].
    destruct Hf as [(pgs' & own' & I1) Hs]. cbn [huge_chunk_stack with_huge] in *. rewrite Hnil, app_nil_r in Hs.
    rewrite Hs. cbn [take_slot]. rewrite slot_addrs_S. cbn [fmap list_fmap take_slot d_pages d_addr Z.eqb].
    split_and!; [done| | | | |].
    + split; [done| |].
      * cbn [huge_chunk_stack with_huge fmap list_fmap d_addr]. rewrite slot_addrs_S. f_equal.

      * cbn [huge_chunk_stack with_huge]. constructor; [simpl; lia|]. apply Forall_fmap, Forall_true.
        intros a. simpl. unfold HC_SLOT_SIZE, MEGABYTE. lia.
    + exists pgs', own'. by do 2 apply full_with_huge.
    + rewrite <-slot_addrs_S. apply slot_addrs_snoc.
    + apply Forall_fmap, Forall_forall. intros k Hk. apply elem_of_seq in Hk. unfold compose, in_block.
      change (Z.to_nat HC_NUM_SLOTS) with 20%nat in Hk. unfold HC_TOTAL_SIZE, HC_NUM_SLOTS, HC_SLOT_SIZE, MEGABYTE. lia.
    + unfold in_block, HC_SLOT_SIZE, MEGABYTE. lia.
  - rewrite (proj2 (Z.eqb_neq _ _) Hmm). cbn [negb obind]. eexists. split; [done|].
    intros sz2 tid2 Hsz2. pose proof (Hpg sz2 Hsz2) as [Hq _].
    by rewrite (proj2 (Z.ltb_ge _ _) Hq).
Qed.

(** With the list complete, a huge allocation returns at once: null exactly
    when all slots are in use, otherwise a free slot whose bytes are in no huge
    allocation in use; these stay as they are, and freeing the slot, when the
    two calls on virtual memory succeed, restores the list. *)
Theorem huge_allocate_correct {S} `{PageAllocatorLaws S} mm (h : HeapManager S) i_sz tid :
  huge_ready h -> 0 < i_sz <= HC_SLOT_SIZE ->
  exists ptr h', _allocateHuge mm i_sz tid h = Done (Some (ptr, h')) /\ huge_ready h' /\
    (ptr = 0 <-> huge_live (huge_chunk_stack h) = huge_chunk_stack h) /\
    (ptr = 0 -> huge_live (huge_chunk_stack h') = huge_live (huge_chunk_stack h)) /\
    (ptr <> 0 ->
       exists n, huge_live (huge_chunk_stack h') ≡ₚ mkDir ptr n :: huge_live (huge_chunk_stack h) /\
         i_sz <= n * PAGESIZE <= HC_SLOT_SIZE /\
         (forall e x, e ∈ huge_live (huge_chunk_stack h) ->
            inside (d_addr e, d_pages e * PAGESIZE) x -> ~ inside (ptr, i_sz) x) /\
         (mm_remove_pages mm ptr (n * PAGESIZE) = 0 ->
          mm_set_permission mm ptr (n * PAGESIZE) NO_ACCESS_ZERO = 0 ->
          exists h2, _freeHuge mm ptr h' = Some h2 /\ huge_ready h2 /\
            huge_chunk_stack h2 = huge_chunk_stack h)).
Proof.
  intros [R1 R2 R3] Hsz.
  assert (Hpg : ALIGN_PAGE i_sz / PAGESIZE * PAGESIZE <= HC_SLOT_SIZE /\ 0 < ALIGN_PAGE i_sz / PAGESIZE /\
    i_sz <= ALIGN_PAGE i_sz / PAGESIZE * PAGESIZE).
  { revert Hsz. rewrite ALIGN_PAGE_eq. unfold PAGESIZE, HC_SLOT_SIZE, MEGABYTE. intros [??].
    Z.to_euclidean_division_equations. lia. }
  destruct Hpg as (Hp1 & Hp2 & Hp3). unfold _allocateHuge.
  rewrite (proj2 (Z.ltb_ge _ _) Hp1), R1. cbn [Z.eqb Pos.eqb obind].
  set (n := ALIGN_PAGE i_sz / PAGESIZE) in *.
  pose proof (take_slot_ok n (huge_chunk_stack h)) as Ht.
  destruct (take_slot n (huge_chunk_stack h)) as [[a d']|].
  2:{ exists 0, h. split_and!; [done|by split|split; [|done]|done|done]. intros _. by apply live_all. }
  destruct Ht as (d1 & d2 & Hd & -> & Hf).
  assert (Ha : a ∈ slot_addrs 21) by (rewrite <-R2, Hd, fmap_app; set_solver).
  assert (Ha0 : a <> 0).
  { apply list_elem_of_fmap in Ha as (k & -> & _).
    unfold VMM_VADDR_MALLOC, HC_SLOT_SIZE, GIGABYTE, MEGABYTE. lia. }
  assert (Hnd : NoDup (d_addr <$> huge_chunk_stack h)) by (rewrite R2; apply slot_addrs_nodup).
  rewrite Hd, fmap_app in Hnd, R2. cbn [fmap list_fmap d_addr] in Hnd, R2.
  assert (Hn1 : a ∉ d_addr <$> d1) by (apply NoDup_app in Hnd as (_ & Hx & _); intros Hin; apply (Hx a Hin); left).
  rewrite Hd in R3. apply Forall_app in R3 as [R3 R4]. apply Forall_cons in R4 as [_ R4].
  assert (Hready : forall m, 0 <= m -> m * PAGESIZE <= HC_SLOT_SIZE ->
    huge_ready (with_huge h (d1 ++ mkDir a m :: d2) 2)).
  { intros m ? ?. split; [done| |].
    - cbn [huge_chunk_stack with_huge]. by rewrite fmap_app.
    - cbn [huge_chunk_stack with_huge]. apply Forall_app. auto. }
  exists a, (with_huge h (d1 ++ mkDir a n :: d2) 2). split_and!; [idtac|apply Hready; lia| |intros E; by destruct (Ha0 E)|].
  { by rewrite R1. }
  - split; [intros E; by destruct (Ha0 E)|]. intros E. exfalso. apply (live_none (mkDir a 0) (huge_chunk_stack h)); [done|by rewrite Hd; set_solver|done].
  - intros _. exists n. cbn [huge_chunk_stack with_huge]. rewrite Hd. split_and!; [|lia|lia| |].
    + unfold huge_live. rewrite !filter_app, filter_cons_True, filter_cons_False by (simpl; lia).
      by rewrite <-Permutation_middle.
    + intros e x He Hx Hx2. unfold huge_live in He. apply list_elem_of_filter in He as [He1 He2].
      assert (He3 : d_addr e ∈ d_addr <$> d1 ++ d2).
      { apply list_elem_of_fmap. exists e. split; [done|]. apply elem_of_app in He2 as [?|He2]; [set_solver|].
        apply elem_of_cons in He2 as [->|?]; [by simpl in He1|set_solver]. }
      assert (Hlt : d_pages e * PAGESIZE <= HC_SLOT_SIZE).
      { apply elem_of_app in He2 as [He2|He2]; [by eapply Forall_forall in R3 as [_ ?]|].
        apply elem_of_cons in He2 as [->|He2]; [by simpl in He1|by eapply Forall_forall in R4 as [_ ?]]. }
      assert (d_addr e = a).
      { apply (slots_apart _ _ x); [rewrite <-R2; rewrite fmap_app in He3; set_solver|done|..];
          unfold inside in *; cbn [fst snd] in *; lia. }
      subst a. rewrite fmap_app in He3. apply NoDup_app in Hnd as (_ & Hx1 & [Hx3 _]%NoDup_cons). set_solver.
    + intros Hm1 Hm2. exists (with_huge h (d1 ++ mkDir a 0 :: d2) 2). unfold _freeHuge.
      assert (Hin : in_huge a = true).
      { apply list_elem_of_fmap in Ha as (k & -> & Hk). apply elem_of_seq in Hk. unfold in_huge.
        apply andb_true_iff. rewrite Z.leb_le, Z.ltb_lt.
        unfold VMM_MALLOC_SIZE, HC_SLOT_SIZE, GIGABYTE, MEGABYTE. lia. }
      rewrite Hin. cbn [negb huge_chunk_stack with_huge]. rewrite find_entry_mid by done.
      rewrite Hm1, Hm2. cbn [Z.eqb negb]. rewrite set_slot_mid by done.
      split_and!; [done| |done]. apply Hready; unfold HC_SLOT_SIZE, MEGABYTE; lia.
Qed.
