(* ===== verification/HeapSamples.v ===== *)
(** * Concrete runs of the heap manager on the booted page manager *)

From S2P Require Import Prelude Containers Sync PageMgr PageMgrSpec HeapMgr HeapMgrSpec HeapCoalesce HeapBig HeapBigSpec HeapPages HeapHuge.

(** The heap before its first allocation. *)
Definition heap0 : HeapManager PageManager :=
  mkHeap (fun _ => mkChunk 0 0 0 0 0) (fun _ => 0) (replicate 12 []) [] [] 0 0 0 0 0 0 0 sample_pm0.

(** Virtual memory calls that succeed. *)
Definition mm_good : mm_ops := mkMm (fun _ _ => 0) (fun _ _ _ => 0) (fun _ _ => 0).

Lemma heap0_ok : full_inv heap0 [] [] [].
Proof.
  destruct (pm_initialize_ok sample_layout sample_layout_ok) as (pm & E & Hok & _).
  rewrite sample_init in E. assert (E' : sample_pm0 = pm) by congruence. destruct E'. clear E.
  split; [|constructor].
  - split.
    + split; try done.
      * constructor.
      * intros a Ha. change (tiles []) with (@nil Z) in Ha. set_solver.
      * intros b l a Hl Ha. apply lookup_replicate in Hl as [-> _]. set_solver.
      * apply NoDup_nil_2.
    + split; [exact Hok|]. apply (bool_decide_unpack _). vm_compute. exact I.
    + constructor.
    + constructor.
    + intros a [Ha _]. change (tiles []) with (@nil Z) in Ha. set_solver.
Qed.

Definition unpack (r : outcome (Z * HeapManager PageManager)) : Z * HeapManager PageManager :=
  match r with Done r => r | Crash _ => (0, heap0) end.

(** The heap after one allocation of 100 bytes. *)
Definition ptr1 : Z := fst (unpack (_allocate 100 0 heap0)).
Definition heap1 : HeapManager PageManager := snd (unpack (_allocate 100 0 heap0)).

Lemma alloc1 : _allocate 100 0 heap0 = Done (ptr1, heap1).
Proof.
  unfold ptr1, heap1. destruct (_allocate 100 0 heap0) as [[p h]|f] eqn:E; [done|].
  exfalso. assert (Hd : match _allocate 100 0 heap0 with Done _ => true | Crash _ => false end = true)
    by (vm_compute; reflexivity). by rewrite E in Hd.
Qed.

Lemma heap1_ok : exists pgs, full_inv heap1 pgs [(ptr1, 100)] [].
Proof.
  pose proof (allocate_spec heap0 [] [] [] 100 0 (fi_client _ _ _ _ heap0_ok)) as Hs.
  rewrite alloc1 in Hs. destruct Hs as ((pgs & C) & (D & _) & _); [by vm_compute|].
  exists pgs. split; rewrite D; [exact C|apply (fi_dir _ _ _ _ heap0_ok)].
Qed.

Lemma ptr1_low : ptr1 < VMM_VADDR_MALLOC.
Proof. vm_compute. reflexivity. Defined.

Lemma ptr1_in : (ptr1, 100) ∈ allocs heap1 [(ptr1, 100)].
Proof. apply elem_of_app. left. by apply list_elem_of_singleton. Qed.

(** ** Witnesses *)

Example heap_coalesce_correct_witness :
  exists h' pgs', _coalesce heap1 = Done h' /\ client_inv h' pgs' [(ptr1, 100)] [] /\
    ~ mergeable (h_hdr h') pgs'.
Proof.
  destruct heap1_ok as [pgs I].
  destruct (heap_coalesce_correct heap1 pgs [(ptr1, 100)] [] (fi_client _ _ _ _ I))
    as (h' & pgs' & E & C & _ & M & _).
  exists h', pgs'. exact (conj E (conj C M)).
Defined.



Example heap_realloc_correct_witness :
  match _realloc mm_good ptr1 9000 0 heap1 with
  | Crash f => out_of_pages (S := PageManager) f
  | Done (ptr', h') => realloc_post heap1 [(ptr1, 100)] [] ptr1 100 ptr' 9000 h'
  end.
Proof.
  destruct heap1_ok as [pgs I].
  exact (heap_realloc_correct mm_good heap1 pgs [(ptr1, 100)] [] ptr1 100 9000 0 I ptr1_in ptr1_low
           ltac:(lia)).
Defined.

Example huge_slots_witness :
  exists h', _allocateHuge (mkMm (fun _ _ => 1) (fun _ _ _ => 0) (fun _ _ => 0)) 100000 0 heap0
             = Done (Some (0, h')).
Proof.
  destruct (proj2 (huge_slots (mkMm (fun _ _ => 1) (fun _ _ _ => 0) (fun _ _ => 0)) heap0 [] [] []
    100000 0 heap0_ok eq_refl eq_refl ltac:(vm_compute; split; congruence)) ltac:(done)) as (h' & E & _).
  exists h'. exact E.
Defined.

Definition heap_huge : HeapManager PageManager :=
  with_huge heap0 ((fun a => mkDir a 0) <$> slot_addrs 21) 2.

Lemma heap_huge_ready : huge_ready heap_huge.
Proof.
  split; [done|vm_compute; reflexivity|]. apply (bool_decide_unpack _). vm_compute. exact I.
Defined.

Example huge_allocate_correct_witness :
  exists ptr h', _allocateHuge mm_good 100000 0 heap_huge = Done (Some (ptr, h')) /\ huge_ready h'.
Proof.
  destruct (huge_allocate_correct mm_good heap_huge 100000 0 heap_huge_ready
    ltac:(vm_compute; split; congruence)) as (ptr & h' & E & R & _).
  exists ptr, h'. exact (conj E R).
Defined.
