(* ===== verification/Bitfield.v ===== *)
(** * Bit fields of machine words

    A field of a structure made of 64-bit words is named by the word, its
    lowest bit and its width; reading and assigning it are the shift and mask
    code a compiler makes of the source's bit-field accesses. *)

From S2P Require Import Prelude.

(** The bits [lo .. lo+len) of a word. *)
Definition get_bits (lo len w : Z) : Z := Z.land (Z.shiftr w lo) (Z.ones len).
Definition set_bits (lo len v w : Z) : Z :=
  Z.lor (Z.ldiff w (Z.shiftl (Z.ones len) lo)) (Z.shiftl (Z.land v (Z.ones len)) lo).

Lemma get_bits_testbit lo len w i :
  0 <= lo -> 0 <= len -> 0 <= i -> Z.testbit (get_bits lo len w) i = (i <? len) && Z.testbit w (i + lo).
Proof.
  intros. unfold get_bits. rewrite Z.land_spec, Z.shiftr_spec, Z.testbit_ones_nonneg by lia. apply andb_comm.
Qed.

Lemma set_bits_testbit lo len v w i :
  0 <= lo -> 0 <= len -> 0 <= i ->
  Z.testbit (set_bits lo len v w) i =
    if (lo <=? i) && (i <? lo + len) then Z.testbit v (i - lo) else Z.testbit w i.
Proof.
  intros. unfold set_bits.
  rewrite Z.lor_spec, Z.ldiff_spec, !Z.shiftl_spec, Z.land_spec by lia.
  destruct (lo <=? i) eqn:E; b2p; cbn [andb].
  - rewrite Z.testbit_ones_nonneg by lia.
    replace (i - lo <? len) with (i <? lo + len) by (apply eq_true_iff_eq; rewrite !Z.ltb_lt; lia).
    destruct (i <? lo + len); cbn [negb]; rewrite ?andb_false_r, ?andb_true_r, ?orb_false_r; done.
  - rewrite !(Z.testbit_neg_r _ (i - lo)) by lia. cbn [negb]. rewrite andb_true_r, orb_false_r. done.
Qed.

Lemma get_bits_bound lo len w : 0 <= len -> 0 <= get_bits lo len w < 2 ^ len.
Proof. intros. unfold get_bits. rewrite Z.land_ones by lia. apply Z.mod_pos_bound. lia. Qed.

Lemma get_bits_eq lo len w : 0 <= lo -> 0 <= len -> get_bits lo len w = (w / 2 ^ lo) mod 2 ^ len.
Proof. intros. unfold get_bits. by rewrite Z.land_ones, Z.shiftr_div_pow2 by lia. Qed.

Lemma get_set_same lo len v w :
  0 <= lo -> 0 <= len -> get_bits lo len (set_bits lo len v w) = v mod 2 ^ len.
Proof.
  intros. rewrite <-Z.land_ones by lia. apply Z.bits_inj'. intros i Hi.
  rewrite get_bits_testbit, set_bits_testbit, Z.land_spec, Z.testbit_ones_nonneg by lia.
  rewrite (proj2 (Z.leb_le lo (i + lo))) by lia. cbn [andb].
  replace (i + lo <? lo + len) with (i <? len) by (apply eq_true_iff_eq; rewrite !Z.ltb_lt; lia).
  replace (i + lo - lo) with i by lia.
  destruct (i <? len); by rewrite ?andb_true_r, ?andb_false_r.
Qed.

Lemma get_set_apart lo len lo' len' v w :
  0 <= lo -> 0 <= len -> 0 <= lo' -> 0 <= len' -> lo + len <= lo' \/ lo' + len' <= lo ->
  get_bits lo len (set_bits lo' len' v w) = get_bits lo len w.
Proof.
  intros. apply Z.bits_inj'. intros i Hi.
  rewrite !get_bits_testbit, set_bits_testbit by lia.
  destruct (i <? len) eqn:E; [|done]. b2p. cbn [andb].
  destruct (lo' <=? i + lo) eqn:E1, (i + lo <? lo' + len') eqn:E2; b2p; try done. lia.
Qed.

(** Clearing the bits of a mask. *)
Lemma get_ldiff_in lo len w m :
  0 <= lo -> 0 <= len -> get_bits lo len m = Z.ones len -> get_bits lo len (Z.ldiff w m) = 0.
Proof.
  intros ? ? Hm. apply Z.bits_inj'. intros i Hi. rewrite get_bits_testbit, Z.ldiff_spec, Z.bits_0 by lia.
  apply (f_equal (fun x => Z.testbit x i)) in Hm.
  rewrite get_bits_testbit, Z.testbit_ones_nonneg in Hm by lia.
  destruct (i <? len); [|done]. cbn [andb] in *. by rewrite Hm, andb_false_r.
Qed.

Lemma get_ldiff_out lo len w m :
  0 <= lo -> 0 <= len -> get_bits lo len m = 0 -> get_bits lo len (Z.ldiff w m) = get_bits lo len w.
Proof.
  intros ? ? Hm. apply Z.bits_inj'. intros i Hi. rewrite !get_bits_testbit, Z.ldiff_spec by lia.
  apply (f_equal (fun x => Z.testbit x i)) in Hm. rewrite get_bits_testbit, Z.bits_0 in Hm by lia.
  destruct (i <? len); [|done]. cbn [andb] in *. by rewrite Hm, andb_true_r.
Qed.
