(* ===== verification/PtMgr.v ===== *)
(** * The hardware page table ([src/kernel/ptmgr.C])

    A hashed page table of 2048 groups of eight entries.  An entry is two
    64-bit words with the bit fields of [struct PageTableEntry]; the table is a
    function from the address of an entry to the entry.  With the table are
    modelled the translations the processor keeps ([pt_tlb], which
    [invalidateTLB] cleans) and the usage reports sent to the segments
    ([pt_stats], one per call of [SegmentManager::updateRefCount]).  Entries
    the source leaves uninitialised are a parameter of the operation. *)

From S2P Require Import Prelude Bitfield PageMgr.

(** ** Extracting bits of the 78-bit virtual address *)

(** [EXTRACT_RJ]; the shift counts are below 64. *)
Definition ONES64 : Z := Z.ones 64.
Definition EXTRACT_RJ (i_var64 i_startbit i_lastbit : Z) : Z :=
  let mask := Z.land (Z.shiftr ONES64 i_startbit) (u64 (Z.shiftl ONES64 (63 - i_lastbit))) in
  Z.shiftr (Z.land i_var64 mask) (63 - i_lastbit).

Definition EXTRACT_RJ_LEN (i_lastword i_bitlen i_startbit i_lastbit : Z) : outcome Z :=
  if 64 <? u64 (i_lastbit - i_startbit) then Crash KAssert
  else if i_bitlen <=? i_lastbit then Crash KAssert
  else if i_bitlen <=? 64 then
    let diff := 64 - i_bitlen in
    Done (EXTRACT_RJ i_lastword (i_startbit + diff) (i_lastbit + diff))
  else if i_lastbit <? i_bitlen - 64 then Done 0
  else
    let diff := i_bitlen - 64 in
    let i_lastword :=
      if i_startbit <? diff then Z.shiftr i_lastword (diff - i_startbit)
      else u64 (Z.shiftl i_lastword (i_startbit - diff)) in
    Done (EXTRACT_RJ i_lastword 0 (i_lastbit - i_startbit)).

(** ** Page table entries *)

Record PageTableEntry : Type := mkPte { dword0 : Z; dword1 : Z }.

(** A bit field: the word it is in (false for [dword0]), its lowest bit counted
    from the right, its width. *)
Record field : Type := mkField { f_second : bool; f_lo : Z; f_len : Z }.

Module PTE.
Definition AVA : field := mkField false 7 45.
Definition R2 : field := mkField false 5 1.
Definition LRU : field := mkField false 3 2.
Definition L : field := mkField false 2 1.
Definition H : field := mkField false 1 1.
Definition V : field := mkField false 0 1.
Definition pp0 : field := mkField true 63 1.
Definition B : field := mkField true 58 2.
Definition PN : field := mkField true 12 45.
Definition R : field := mkField true 8 1.
Definition C : field := mkField true 7 1.
Definition WIMG : field := mkField true 3 4.
Definition N : field := mkField true 2 1.
Definition pp1_2 : field := mkField true 0 2.
End PTE.

Definition get (f : field) (p : PageTableEntry) : Z :=
  get_bits (f_lo f) (f_len f) (if f_second f then dword1 p else dword0 p).
Definition set (f : field) (v : Z) (p : PageTableEntry) : PageTableEntry :=
  if f_second f then mkPte (dword0 p) (set_bits (f_lo f) (f_len f) v (dword1 p))
  else mkPte (set_bits (f_lo f) (f_len f) v (dword0 p)) (dword1 p).

(** ** Constants *)

Definition PTE_AVA_MASK : Z := 0x1FFFFFFFFFFF.
Definition PTE_ACCESS_BITS : Z := 0x800000000000007B.
Definition PT_SIZE : Z := 2 ^ 18.
Definition PTE_SIZE : Z := 16.
Definition PTEG_SIZE : Z := 8.
Definition PTEG_COUNT : Z := PT_SIZE / PTE_SIZE / PTEG_SIZE.
Definition PTEG_SIZE_BYTES : Z := PTE_SIZE * 8.
Definition INVALID_PN : Z := 0xFFFFFFFFFFFFFFFF.
Definition SLBE_s : Z := 40.
Definition SLBE_b : Z := 12.

Definition READ_ONLY : Z := 0x1.
Definition WRITABLE : Z := 0x2.
Definition EXECUTABLE : Z := 0x4.
Definition NO_ACCESS : Z := 0x40.
Definition BYPASS_HRMOR : Z := 0x80.
Definition GUARDED : Z := 0x100.
Definition CI_ACCESS : Z := 0xFFFFFFFF.

Definition PTE_UNKNOWN : Z := 0x0.
Definition PTE_PRESENT : Z := 0x1.
Definition PTE_VALID : Z := 0x2.
Definition PTE_READ : Z := 0x4.
Definition PTE_WRITABLE : Z := 0x8.
Definition PTE_EXECUTE : Z := 0x10.
Definition PTE_CACHE_INHIBITED : Z := 0x20.
Definition PTE_ACCESSED : Z := 0x80.

(** ** Access bits *)

(** A flag test [x & f]. *)
Definition has (x f : Z) : bool := negb (Z.land x f =? 0).

Definition setAccessBits (o_pte : PageTableEntry) (i_accessType : Z) : PageTableEntry :=
  let p := mkPte (dword0 o_pte) (Z.ldiff (dword1 o_pte) PTE_ACCESS_BITS) in
  if i_accessType =? CI_ACCESS then set PTE.N 1 (set PTE.pp1_2 2 (set PTE.WIMG 5 p))
  else
    let p := set PTE.WIMG 2 p in
    let p := if has i_accessType GUARDED then set PTE.WIMG (Z.lor (get PTE.WIMG p) 1) p else p in
    if has i_accessType READ_ONLY then set PTE.N 1 (set PTE.pp1_2 1 p)
    else if has i_accessType WRITABLE then set PTE.N 1 (set PTE.pp1_2 2 p)
    else if has i_accessType EXECUTABLE then set PTE.N 0 (set PTE.pp1_2 1 p)
    else p.

Definition getAccessType (i_pte : PageTableEntry) : outcome Z :=
  if get PTE.pp0 i_pte =? 0 then
    if (get PTE.WIMG i_pte =? 5) && (get PTE.pp1_2 i_pte =? 2) then Done CI_ACCESS
    else if Z.land (get PTE.WIMG i_pte) 14 =? 2 then
      if get PTE.pp1_2 i_pte =? 0 then Done NO_ACCESS
      else if (get PTE.pp1_2 i_pte =? 1) && (get PTE.N i_pte =? 1) then Done READ_ONLY
      else if (get PTE.pp1_2 i_pte =? 2) && (get PTE.N i_pte =? 1) then Done WRITABLE
      else if (get PTE.pp1_2 i_pte =? 1) && (get PTE.N i_pte =? 0) then Done EXECUTABLE
      else Crash KAssert
    else Crash KAssert
  else Crash KAssert.

Definition setupDefaultPTE (o_pte : PageTableEntry) : PageTableEntry :=
  set PTE.C 1 (set PTE.H 0 (set PTE.L 0 (set PTE.B 1 o_pte))).

(** [getStatus( PageTableEntry* )]; [None] is a null pointer. *)
Definition getStatus (i_pte : option PageTableEntry) : outcome Z :=
  match i_pte with
  | None => Done PTE_UNKNOWN
  | Some p =>
      let status := Z.lor PTE_UNKNOWN PTE_PRESENT in
      let status := if get PTE.V p =? 1 then Z.lor status PTE_VALID else status in
      do access <- getAccessType p;
      let status :=
        if access =? CI_ACCESS then Z.lor status PTE_CACHE_INHIBITED
        else if access =? READ_ONLY then Z.lor status PTE_READ
        else if access =? WRITABLE then Z.lor (Z.lor status PTE_WRITABLE) PTE_READ
        else if access =? EXECUTABLE then Z.lor (Z.lor status PTE_EXECUTE) PTE_READ
        else status in
      Done (if get PTE.R p =? 1 then Z.lor status PTE_ACCESSED else status)
  end.

(** ** The manager *)

Record UsageStats_t : Type := mkStats { us_C : Z; us_R : Z; us_LRU : Z }.

(** What a translation gives: page number, protection, storage control, no-execute. *)
Record xlat : Type := mkX { x_PN : Z; x_pp : Z * Z; x_WIMG : Z; x_N : Z }.
Definition xlat_of (p : PageTableEntry) : xlat :=
  mkX (get PTE.PN p) (get PTE.pp0 p, get PTE.pp1_2 p) (get PTE.WIMG p) (get PTE.N p).

(** [pt_tlb] is indexed by the address of the page. *)
Record PageTableManager : Type := mkPT {
  ivTABLE : Z;
  ivIdleTaskPN : Z;
  pt_mem : Z -> PageTableEntry;
  pt_tlb : Z -> option xlat;
  pt_stats : list (Z * UsageStats_t)
}.

Definition with_mem (m : Z -> PageTableEntry) (t : PageTableManager) : PageTableManager :=
  mkPT (ivTABLE t) (ivIdleTaskPN t) m (pt_tlb t) (pt_stats t).
Definition with_tlb (b : Z -> option xlat) (t : PageTableManager) : PageTableManager :=
  mkPT (ivTABLE t) (ivIdleTaskPN t) (pt_mem t) b (pt_stats t).
Definition with_stats (l : list (Z * UsageStats_t)) (t : PageTableManager) : PageTableManager :=
  mkPT (ivTABLE t) (ivIdleTaskPN t) (pt_mem t) (pt_tlb t) l.

(** An assignment through a pointer to an entry. *)
Definition put (a : Z) (p : PageTableEntry) (t : PageTableManager) : PageTableManager :=
  with_mem (upd (pt_mem t) a p) t.

(** [VmmManager::HTABORG]: the table is the first 256K boundary after the
    preserved area, on top of the HRMOR. *)
Definition PT_ALIGNMENT : Z := 256 * 1024.
Definition HTABORG (endPreservedOffset hrmor : Z) : Z :=
  u32 (ALIGN_X endPreservedOffset PT_ALIGNMENT) + hrmor.

Section ptmgr.
Context (endPreserved hrmor : Z).

Definition getAddress (t : PageTableManager) : Z :=
  if negb (ivTABLE t =? 0) then ivTABLE t else HTABORG endPreserved hrmor.
Definition getSize : Z := 256 * 1024.
Definition num_ptes : nat := Z.to_nat (getSize / PTE_SIZE).

Definition computeHash (i_vAddr : Z) : outcome Z :=
  if SLBE_s =? 40 then
    do a <- EXTRACT_RJ_LEN i_vAddr 78 24 37;
    let va__24_37 := u64 (Z.shiftl a 25) in
    do va__0_37 <- EXTRACT_RJ_LEN i_vAddr 78 0 37;
    do va__38_77b <- EXTRACT_RJ_LEN i_vAddr 78 38 (77 - SLBE_b);
    Done (Z.lxor (Z.lxor va__24_37 va__0_37) va__38_77b)
  else if SLBE_s =? 28 then
    do va__11_49 <- EXTRACT_RJ_LEN i_vAddr 78 11 49;
    do va__50_77b <- EXTRACT_RJ_LEN i_vAddr 78 50 (77 - SLBE_b);
    Done (Z.lxor va__11_49 va__50_77b)
  else Done 0.

Definition findPTEG (i_vAddr : Z) (t : PageTableManager) : outcome Z :=
  do hash <- computeHash i_vAddr;
  Done (getAddress t + (hash mod PTEG_COUNT) * PTEG_SIZE_BYTES).

(** The loops over the eight entries of a group. *)
Fixpoint find_entry_in (n : nat) (f : PageTableEntry -> bool) (pte_cur : Z) (m : Z -> PageTableEntry)
    : option Z :=
  match n with
  | O => None
  | S n => if f (m pte_cur) then Some pte_cur else find_entry_in n f (pte_cur + PTE_SIZE) m
  end.

(** [findPTE( i_vAddr, i_ptegAddr )] *)
Definition findPTE_in (i_vAddr i_ptegAddr : Z) (t : PageTableManager) : option Z :=
  find_entry_in 8 (fun p => get PTE.AVA p =? Z.shiftr i_vAddr 23) i_ptegAddr (pt_mem t).

Definition findPTE (i_vAddr : Z) (t : PageTableManager) : outcome (option Z) :=
  do pteg_addr <- findPTEG i_vAddr t;
  Done (findPTE_in i_vAddr pteg_addr t).

Definition findEmptyPTE (i_ptegAddr : Z) (t : PageTableManager) : option Z :=
  find_entry_in 8 (fun p => get PTE.V p =? 0) i_ptegAddr (pt_mem t).

Definition is_idle (t : PageTableManager) (p : PageTableEntry) : bool :=
  (get PTE.PN p =? ivIdleTaskPN t) || (get PTE.PN p =? u64 (ivIdleTaskPN t + 1)).

Fixpoint find_old_loop (n : nat) (t : PageTableManager) (pte old_pte : Z) : Z :=
  match n with
  | O => old_pte
  | S n =>
      let old_pte :=
        if is_idle t (pt_mem t old_pte) then pte
        else if (get PTE.LRU (pt_mem t old_pte) <? get PTE.LRU (pt_mem t pte))
                && negb (is_idle t (pt_mem t pte)) then pte
        else old_pte in
      find_old_loop n t (pte + PTE_SIZE) old_pte
  end.

Definition findOldPTE (i_ptegAddr : Z) (t : PageTableManager) : Z :=
  find_old_loop 8 t i_ptegAddr i_ptegAddr.

Definition getVirtAddrFromPTE (i_pte : Z) (t : PageTableManager) : outcome Z :=
  let pteg_num := (i_pte - getAddress t) / PTEG_SIZE_BYTES in
  let ava := get PTE.AVA (pt_mem t i_pte) in
  do Yp <- EXTRACT_RJ_LEN ava 55 27 37;
  let Zp := Z.lxor Yp pteg_num in
  Done (Z.lor (u64 (Z.shiftl Zp 12)) (u64 (Z.shiftl ava 23))).

(** [invalidateTLB]: the [tlbie] removes the translation of the page in
    [rB[0:51]]. *)
Definition invalidateTLB (i_pte : Z) (t : PageTableManager) : outcome PageTableManager :=
  if ivTABLE t =? 0 then
    do va <- getVirtAddrFromPTE i_pte t;
    do tlbie_ava <- EXTRACT_RJ_LEN va 78 14 65;
    let rB := u64 (Z.shiftl (Z.land tlbie_ava 0x000FFFFFFFFFFFFF) 12) in
    Done (with_tlb (upd (pt_tlb t) rB None) t)
  else Done t.

Definition updateLRUEntry (i_PTE : Z) (t : PageTableManager) : outcome PageTableManager :=
  let pte := pt_mem t i_PTE in
  if (get PTE.V pte =? 1) && (get PTE.R pte =? 1) then
    let pte := set PTE.R2 1 (set PTE.LRU 0 pte) in
    do t <- invalidateTLB i_PTE (put i_PTE (set PTE.R 0 (pt_mem t i_PTE)) t);
    Done (put i_PTE (mkPte (dword0 pte) (dword1 (pt_mem t i_PTE))) t)
  else
    let pte := if get PTE.LRU pte <? 3 then set PTE.LRU (get PTE.LRU pte + 1) pte else pte in
    Done (put i_PTE (mkPte (dword0 pte) (dword1 (pt_mem t i_PTE))) t).

Fixpoint update_group (n : nat) (pte_cur i_newPTE : Z) (t : PageTableManager)
    : outcome PageTableManager :=
  match n with
  | O => Done t
  | S n =>
      do t <- (if negb (pte_cur =? i_newPTE) then updateLRUEntry pte_cur t else Done t);
      update_group n (pte_cur + PTE_SIZE) i_newPTE t
  end.

Definition updateLRUGroup (i_newPTE : Z) (t : PageTableManager) : outcome PageTableManager :=
  update_group 8 (i_newPTE / PTEG_SIZE_BYTES * PTEG_SIZE_BYTES) i_newPTE t.

(** [writePTE]; [i_pte] is the value of the local copy, or of the entry itself. *)
Definition writePTE (i_pte : PageTableEntry) (i_dest : Z) (i_valid : bool) (t : PageTableManager)
    : outcome PageTableManager :=
  let dest := pt_mem t i_dest in
  assert! negb ((get PTE.V dest =? 1) && i_valid
                && negb (get PTE.AVA i_pte =? get PTE.AVA dest));
  do t <-
    (if negb (ivTABLE t =? 0) then
       Done (put i_dest (set PTE.V (if i_valid then 1 else 0) i_pte) t)
     else
       do t <-
         (if negb i_valid || (get PTE.V dest =? 1) then
            invalidateTLB i_dest (put i_dest (set PTE.V 0 dest) t)
          else Done t);
       if i_valid then
         let t := put i_dest (mkPte (dword0 (pt_mem t i_dest)) (dword1 i_pte)) t in
         let t := put i_dest (mkPte (dword0 i_pte) (dword1 (pt_mem t i_dest))) t in
         let t := put i_dest (set PTE.LRU 0 (pt_mem t i_dest)) t in
         Done (put i_dest (set PTE.V 1 (pt_mem t i_dest)) t)
       else Done t);
  if i_valid then updateLRUGroup i_dest t else Done t.

Definition pushUsageStats (i_pte : Z) (t : PageTableManager) : outcome PageTableManager :=
  if negb (ivTABLE t =? 0) then Done t
  else
    let stats := mkStats 0 0 (get PTE.LRU (pt_mem t i_pte)) in
    do (stats, t) <-
      (if negb (get PTE.R (pt_mem t i_pte) =? 0) then
         do t <- invalidateTLB i_pte (put i_pte (set PTE.R 0 (pt_mem t i_pte)) t);
         Done (mkStats (us_C stats) 1 (us_LRU stats), t)
       else Done (stats, t));
    let '(stats, t) :=
      if negb (get PTE.R2 (pt_mem t i_pte) =? 0) then
        (mkStats (us_C stats) 1 (us_LRU stats), put i_pte (set PTE.R2 0 (pt_mem t i_pte)) t)
      else (stats, t) in
    do va <- getVirtAddrFromPTE i_pte t;
    Done (with_stats (pt_stats t ++ [(va, stats)]) t).

(** [delEntry( PageTableEntry* )] *)
Definition delEntry_at (i_pte : Z) (t : PageTableManager) : outcome PageTableManager :=
  if negb (get PTE.V (pt_mem t i_pte) =? 0) then
    do t <- writePTE (pt_mem t i_pte) i_pte false t;
    pushUsageStats i_pte t
  else Done t.

Definition _delEntry (i_vAddr : Z) (t : PageTableManager) : outcome PageTableManager :=
  do pte <- findPTE i_vAddr t;
  match pte with Some pte => delEntry_at pte t | None => Done t end.

(** [junk] is the uninitialised local [pte_data]. *)
Definition _addEntry (i_vAddr i_page i_accessType : Z) (junk : PageTableEntry) (t : PageTableManager)
    : outcome PageTableManager :=
  let l_vaddr := ALIGN_PAGE_DOWN i_vAddr in
  let pte_data := setupDefaultPTE junk in
  do pteg_addr <- findPTEG l_vaddr t;
  do (pte_slot, pte_data, t) <-
    match findPTE_in l_vaddr pteg_addr t with
    | None =>
        do (pte_slot, t) <-
          match findEmptyPTE pteg_addr t with
          | Some pte_slot => Done (pte_slot, t)
          | None =>
              let pte_slot := findOldPTE pteg_addr t in
              do t <- delEntry_at pte_slot t; Done (pte_slot, t)
          end;
        Done (pte_slot, set PTE.LRU 0 (set PTE.R 0 pte_data), t)
    | Some pte_slot =>
        if get PTE.V (pt_mem t pte_slot) =? 1 then
          assert! i_page =? get PTE.PN (pt_mem t pte_slot);
          Done (pte_slot, pte_data, t)
        else Done (pte_slot, set PTE.LRU 0 (set PTE.R 0 pte_data), t)
    end;
  let pte_data := setAccessBits pte_data i_accessType in
  let pte_data := set PTE.AVA (Z.shiftr i_vAddr 23) pte_data in
  let pte_data := set PTE.PN i_page pte_data in
  writePTE pte_data pte_slot true t.

Definition addEntry (i_vAddr i_page i_accessType : Z) (junk : PageTableEntry) (t : PageTableManager)
    : outcome PageTableManager :=
  let i_page :=
    if negb (i_accessType =? CI_ACCESS) && (Z.land BYPASS_HRMOR i_accessType =? 0)
    then Z.lor i_page (hrmor / PAGESIZE) else i_page in
  _addEntry i_vAddr i_page i_accessType junk t.

(** The loop of [_delRangeVA]; [n] bounds the rounds. *)
Fixpoint del_range_loop (n : nat) (va i_vAddrFinish : Z) (t : PageTableManager)
    : outcome PageTableManager :=
  match n with
  | O => Done t
  | S n =>
      if va <? i_vAddrFinish then
        do t <- _delEntry va t; del_range_loop n (u64 (va + PAGESIZE)) i_vAddrFinish t
      else Done t
  end.

Definition _delRangeVA (i_vAddrStart i_vAddrFinish : Z) (t : PageTableManager)
    : outcome PageTableManager :=
  del_range_loop (Z.to_nat ((i_vAddrFinish - i_vAddrStart) / PAGESIZE + 1)) i_vAddrStart i_vAddrFinish t.

(** The loops over all entries of the table. *)
Fixpoint for_ptes (n : nat) (pte : Z) (op : Z -> PageTableManager -> outcome PageTableManager)
    (t : PageTableManager) : outcome PageTableManager :=
  match n with
  | O => Done t
  | S n => do t <- op pte t; for_ptes n (pte + PTE_SIZE) op t
  end.

Definition del_if_in (i_pnStart i_pnFinish pte : Z) (t : PageTableManager) : outcome PageTableManager :=
  let p := pt_mem t pte in
  if (get PTE.V p =? 1) && (i_pnStart <=? get PTE.PN p) && (get PTE.PN p <=? i_pnFinish)
  then delEntry_at pte t else Done t.

Definition _delRangePN (i_pnStart i_pnFinish : Z) (t : PageTableManager) : outcome PageTableManager :=
  for_ptes num_ptes (getAddress t) (del_if_in i_pnStart i_pnFinish) t.

Definition delRangePN (i_pnStart i_pnFinish : Z) (i_applyHRMOR : bool) (t : PageTableManager)
    : outcome PageTableManager :=
  if i_applyHRMOR then
    _delRangePN (Z.lor i_pnStart (hrmor / PAGESIZE)) (Z.lor i_pnFinish (hrmor / PAGESIZE)) t
  else _delRangePN i_pnStart i_pnFinish t.

Definition _getStatus (i_vAddr : Z) (t : PageTableManager) : outcome (Z * Z) :=
  do pte <- findPTE i_vAddr t;
  let o_pn := match pte with Some a => get PTE.PN (pt_mem t a) | None => INVALID_PN end in
  do st <- getStatus (pt_mem t <$> pte);
  Done (st, o_pn).

Definition push_if_valid (pte : Z) (t : PageTableManager) : outcome PageTableManager :=
  if negb (get PTE.V (pt_mem t pte) =? 0) then pushUsageStats pte t else Done t.

Definition _flush (t : PageTableManager) : outcome PageTableManager :=
  if negb (ivTABLE t =? 0) then Done t else for_ptes num_ptes (getAddress t) push_if_valid t.

Definition invalidate_one (pte : Z) (t : PageTableManager) : outcome PageTableManager :=
  let t := put pte (set PTE.AVA PTE_AVA_MASK (pt_mem t pte)) t in
  Done (put pte (set PTE.V 0 (pt_mem t pte)) t).

Definition invalidatePT (t : PageTableManager) : outcome PageTableManager :=
  for_ptes num_ptes (getAddress t) invalidate_one t.

(** The constructor, for the kernel's table; the idle task's function is at
    [idle].  [mem] is what the memory held. *)
Definition pt_new (idle : Z) (mem : Z -> PageTableEntry) : outcome PageTableManager :=
  let pn := Z.lor (ALIGN_PAGE_DOWN idle / PAGESIZE) (hrmor / PAGESIZE) in
  invalidatePT (mkPT 0 pn mem (fun _ => None) []).
End ptmgr.
