(* ===== verification/PtMgrInv.v ===== *)
(** * The page table: the abstract view, invariant and operations

    Every entry of the table stands for one page of virtual memory; the hash
    places a page in a group, and group and abbreviated address give the page
    back.  On this rests the abstract view: the translations the table holds.

    The invariant of the kernel's table: in a group no two entries are for the
    same page, valid entries are well formed, and every translation the
    processor keeps is one of a valid entry whose reference bit is set.  Each
    operation is reduced to the change of one slot ([step_to]). *)

From S2P Require Import Prelude PageMgr Bitfield PtMgr.

(** ** Extraction *)

Lemma testbit_ones64 i : 0 <= i -> Z.testbit ONES64 i = (i <? 64).
Proof. intros. unfold ONES64. by rewrite Z.testbit_ones_nonneg by lia. Qed.

Lemma EXTRACT_RJ_bits w s l :
  is_word 64 w -> 0 <= s <= l -> l < 64 -> EXTRACT_RJ w s l = get_bits (63 - l) (l - s + 1) w.
Proof.
  intros Hw Hs Hl. apply Z.bits_inj'. intros i Hi. unfold EXTRACT_RJ.
  rewrite get_bits_testbit, Z.shiftr_spec, !Z.land_spec by lia.
  unfold wrap. rewrite <-Z.land_ones, Z.land_spec, Z.shiftl_spec, Z.shiftr_spec by lia.
  rewrite !testbit_ones64, ?Z.testbit_ones_nonneg by lia.
  replace (i + (63 - l) + s <? 64) with (i <? l - s + 1) by (apply eq_true_iff_eq; rewrite !Z.ltb_lt; lia).
  destruct (i <? l - s + 1) eqn:E; cbn [andb]; [|by rewrite andb_false_r]. b2p.
  rewrite (proj2 (Z.ltb_lt (i + (63 - l) - (63 - l)) 64)), (proj2 (Z.ltb_lt (i + (63 - l)) 64)) by lia.
  by rewrite !andb_true_r.
Qed.

Lemma EXTRACT_bits w len s l :
  is_word 64 w -> 0 <= s <= l -> l < len -> l - s < 64 -> len <= 128 ->
  EXTRACT_RJ_LEN w len s l = Done (get_bits (len - 1 - l) (l - s + 1) w).
Proof.
  intros Hw Hs Hl Hlen Hmax. unfold EXTRACT_RJ_LEN.
  rewrite wrap_small by (unfold is_word; lia).
  rewrite (proj2 (Z.ltb_ge 64 _)), (proj2 (Z.leb_gt len l)) by lia.
  destruct (len <=? 64) eqn:E1; b2p.
  { f_equal. rewrite EXTRACT_RJ_bits by (done || lia). f_equal; lia. }
  destruct (l <? len - 64) eqn:E2; b2p.
  { f_equal. symmetry. apply Z.bits_inj'. intros i Hi. rewrite get_bits_testbit, Z.bits_0 by lia.
    by rewrite (word_bits_high 64), andb_false_r by (done || lia). }
  f_equal. destruct (s <? len - 64) eqn:E3; b2p.
  - rewrite EXTRACT_RJ_bits; [|split|lia|lia].
    2:{ apply Z.shiftr_nonneg, Hw. }
    2:{ rewrite Z.shiftr_div_pow2 by lia. apply Z.le_lt_trans with w; [|apply Hw].
        apply Z.div_le_upper_bound; [lia|]. destruct Hw. nia. }
    apply Z.bits_inj'. intros i Hi. rewrite !get_bits_testbit, Z.shiftr_spec by lia.
    replace (l - s - 0) with (l - s) by lia. f_equal. f_equal. lia.
  - rewrite EXTRACT_RJ_bits; [|apply wrap_word; lia|lia|lia].
    apply Z.bits_inj'. intros i Hi. rewrite !get_bits_testbit by lia.
    replace (l - s - 0) with (l - s) by lia. destruct (i <? l - s + 1) eqn:E; [|done]. b2p. cbn [andb].
    unfold wrap. rewrite <-Z.land_ones, Z.land_spec, Z.shiftl_spec, Z.testbit_ones_nonneg by lia.
    rewrite (proj2 (Z.ltb_lt _ 64)), andb_true_r by lia. f_equal. lia.
Qed.

(** ** Reading fields *)

Definition apart_fields (f g : field) : bool :=
  xorb (f_second f) (f_second g) || (f_lo f + f_len f <=? f_lo g) || (f_lo g + f_len g <=? f_lo f).
Definition real_field (f : field) : bool := (0 <=? f_lo f) && (0 <? f_len f).

Lemma get_set_eq f v p : real_field f = true -> get f (set f v p) = v mod 2 ^ f_len f.
Proof.
  unfold real_field, get, set. intros Hf. b2p.
  destruct (f_second f); simpl; apply get_set_same; lia.
Qed.

Lemma get_set_ne f g v p :
  real_field f && real_field g && apart_fields f g = true -> get f (set g v p) = get f p.
Proof.
  unfold real_field, apart_fields, get, set. intros Hf. b2p.
  destruct (f_second f), (f_second g); simpl in *; try done; apply get_set_apart;
    try lia; apply orb_true_iff in H0 as [?|?]; b2p; auto.
Qed.

Lemma get_mk f p q : get f (mkPte (dword0 p) (dword1 q)) = get f (if f_second f then q else p).
Proof. unfold get. by destruct (f_second f). Qed.

Lemma get_bound f p : real_field f = true -> 0 <= get f p < 2 ^ f_len f.
Proof. unfold real_field. intros. b2p. apply get_bits_bound. lia. Qed.

(** Compute the value of a field after assignments. *)
Ltac fields :=
  repeat first
    [ rewrite get_set_ne by reflexivity
    | rewrite get_set_eq by reflexivity
    | rewrite get_mk; cbn [f_second PTE.AVA PTE.R2 PTE.LRU PTE.L PTE.H PTE.V PTE.pp0 PTE.B PTE.PN
                           PTE.R PTE.C PTE.WIMG PTE.N PTE.pp1_2] ].

Lemma bit_cases f p : real_field f && (f_len f =? 1) = true -> get f p = 0 \/ get f p = 1.
Proof.
  intros Hf. b2p. pose proof (get_bound f p H). replace (f_len f) with 1 in * by done. lia.
Qed.

(** ** Pages, groups and slots *)

(** The group of an address, and the page of an entry. *)
Definition pteg_of (va : Z) : Z := Z.lxor (get_bits 40 11 va) (get_bits 12 11 va).
Definition page_of (ava g : Z) : Z :=
  Z.lor (Z.shiftl (Z.lxor (get_bits 17 11 ava) g) 12) (Z.shiftl ava 23).

Lemma pteg_bound va : 0 <= pteg_of va < 2048.
Proof. apply (lxor_word 11); [lia|apply get_bits_bound; lia..]. Qed.

Lemma findPTEG_eq endPreserved hrmor va t :
  is_word 64 va ->
  findPTEG endPreserved hrmor va t = Done (getAddress endPreserved hrmor t + pteg_of va * 128).
Proof.
  intros Hva. unfold findPTEG, computeHash. cbn [Z.eqb Pos.eqb SLBE_s].
  change (77 - SLBE_b) with 65. rewrite !EXTRACT_bits by (done || lia). cbn [obind].
  do 2 f_equal. change PTEG_SIZE_BYTES with 128. f_equal. change PTEG_COUNT with (2 ^ 11).
  rewrite <-Z.land_ones by lia. apply Z.bits_inj'. intros i Hi.
  rewrite Z.land_spec, Z.testbit_ones_nonneg by lia. unfold pteg_of. rewrite !Z.lxor_spec.
  rewrite !get_bits_testbit by lia.
  destruct (i <? 11) eqn:E; cbn [andb].
  2:{ by rewrite andb_false_r. }
  b2p. rewrite andb_true_r. unfold wrap. rewrite <-Z.land_ones, Z.land_spec, Z.shiftl_spec by lia.
  rewrite (Z.testbit_neg_r _ (i - 25)) by lia. cbn [andb xorb].
  rewrite !(proj2 (Z.ltb_lt _ _)) by lia. cbn [andb]. done.
Qed.

Lemma align_down_bits va i : 0 <= i -> Z.testbit (ALIGN_PAGE_DOWN va) i = (12 <=? i) && Z.testbit va i.
Proof.
  intros Hi. replace (ALIGN_PAGE_DOWN va) with (Z.ldiff va (Z.ones 12)).
  - rewrite Z.ldiff_spec, Z.testbit_ones_nonneg by lia. rewrite andb_comm. f_equal.
    apply eq_true_iff_eq. rewrite negb_true_iff, Z.ltb_ge, Z.leb_le. lia.
  - unfold ALIGN_PAGE_DOWN, PAGESIZE. rewrite Z.ldiff_ones_r, Z.shiftr_div_pow2, Z.shiftl_mul_pow2 by lia.
    change (2 ^ 12) with 4096. pose proof (Z.div_mod va 4096 ltac:(done)). lia.
Qed.

Lemma page_of_bits ava g i :
  0 <= i -> is_word 11 g ->
  Z.testbit (page_of ava g) i =
    if i <? 12 then false
    else if i <? 23 then xorb (Z.testbit ava (i + 5)) (Z.testbit g (i - 12))
    else Z.testbit ava (i - 23).
Proof.
  intros Hi Hg. unfold page_of. rewrite Z.lor_spec, !Z.shiftl_spec, Z.lxor_spec by lia.
  destruct (i <? 12) eqn:E1; b2p; [by rewrite !Z.testbit_neg_r by lia|].
  rewrite get_bits_testbit by lia. destruct (i <? 23) eqn:E2; b2p.
  - rewrite (proj2 (Z.ltb_lt _ _)), (Z.testbit_neg_r ava (i - 23)), orb_false_r by lia.
    cbn [andb]. do 2 f_equal. lia.
  - rewrite (proj2 (Z.ltb_ge _ _)), (word_bits_high 11 g) by (done || lia). done.
Qed.

Lemma page_of_pteg va : is_word 64 va -> page_of (Z.shiftr va 23) (pteg_of va) = ALIGN_PAGE_DOWN va.
Proof.
  intros Hva. apply Z.bits_inj'. intros i Hi. rewrite page_of_bits, align_down_bits by (done || apply pteg_bound).
  destruct (i <? 12) eqn:E1; b2p; [by rewrite (proj2 (Z.leb_gt _ _)) by lia|].
  rewrite (proj2 (Z.leb_le _ _)) by lia. cbn [andb].
  destruct (i <? 23) eqn:E2; b2p; rewrite !Z.shiftr_spec by lia; [|f_equal; lia].
  unfold pteg_of. rewrite Z.lxor_spec, !get_bits_testbit by lia.
  rewrite (proj2 (Z.ltb_lt _ _)) by lia. cbn [andb].
  replace (i - 12 + 40) with (i + 5 + 23) by lia. replace (i - 12 + 12) with i by lia.
  by destruct (Z.testbit va (i + 5 + 23)), (Z.testbit va i).
Qed.

Lemma page_of_word ava g : is_word 41 ava -> is_word 11 g -> is_word 64 (page_of ava g).
Proof.
  intros Ha Hg. apply word_of_bits; [lia| |].
  - apply Z.lor_nonneg. rewrite !Z.shiftl_nonneg. split; [|apply Ha]. apply Z.lxor_nonneg.
    pose proof (get_bits_bound 17 11 ava). destruct Hg. lia.
  - intros i Hi. rewrite page_of_bits by (done || lia).
    rewrite !(proj2 (Z.ltb_ge _ _)) by lia. apply (word_bits_high 41); [done|lia].
Qed.

Lemma page_of_ava ava g : is_word 41 ava -> is_word 11 g -> Z.shiftr (page_of ava g) 23 = ava.
Proof.
  intros Ha Hg. apply Z.bits_inj'. intros i Hi. rewrite Z.shiftr_spec, page_of_bits by (done || lia).
  rewrite !(proj2 (Z.ltb_ge _ _)) by lia. f_equal. lia.
Qed.

Lemma page_of_group ava g : is_word 41 ava -> is_word 11 g -> pteg_of (page_of ava g) = g.
Proof.
  intros Ha Hg. apply Z.bits_inj'. intros i Hi. unfold pteg_of. rewrite Z.lxor_spec, !get_bits_testbit by lia.
  destruct (i <? 11) eqn:E; b2p; cbn [andb]; [|by rewrite (word_bits_high 11 g) by (done || lia)].
  rewrite !page_of_bits by (done || lia).
  rewrite !(proj2 (Z.ltb_ge _ 12)), (proj2 (Z.ltb_ge _ 23)), (proj2 (Z.ltb_lt _ 23)) by lia.
  replace (i + 40 - 23) with (i + 12 + 5) by lia. replace (i + 12 - 12) with i by lia.
  by destruct (Z.testbit ava (i + 12 + 5)), (Z.testbit g i).
Qed.

Lemma page_of_aligned ava g : is_word 41 ava -> is_word 11 g -> ALIGN_PAGE_DOWN (page_of ava g) = page_of ava g.
Proof.
  intros Ha Hg. apply Z.bits_inj'. intros i Hi. rewrite align_down_bits, page_of_bits by (done || lia).
  destruct (i <? 12) eqn:E; b2p; [by rewrite andb_false_r|]. by rewrite (proj2 (Z.leb_le _ _)) by lia.
Qed.

Lemma page_of_inj a g a' g' :
  is_word 41 a -> is_word 11 g -> is_word 41 a' -> is_word 11 g' ->
  page_of a g = page_of a' g' -> a = a' /\ g = g'.
Proof.
  intros Ha Hg Ha' Hg' E. split.
  - by rewrite <-(page_of_ava a g), E, page_of_ava.
  - by rewrite <-(page_of_group a g), E, page_of_group.
Qed.

Lemma shiftr_41 va : is_word 64 va -> is_word 41 (Z.shiftr va 23).
Proof.
  intros Hva. apply word_of_bits; [lia|apply Z.shiftr_nonneg, Hva|].
  intros i Hi. rewrite Z.shiftr_spec by lia. apply (word_bits_high 64); [done|lia].
Qed.

Section inv.
Context (endPreserved hrmor : Z) (Hhrmor : hrmor mod 128 = 0).
Implicit Types (t : PageTableManager) (s : Z * Z) (p : PageTableEntry).

Definition tab : Z := HTABORG endPreserved hrmor.

(** ** Slots *)

Definition slot_ok s : Prop := is_word 11 s.1 /\ 0 <= s.2 < 8.
Definition addr s : Z := tab + s.1 * 128 + s.2 * 16.
Definition entry t s : PageTableEntry := pt_mem t (addr s).

Lemma tab_aligned : tab mod 128 = 0.
Proof.
  unfold tab, HTABORG. rewrite Zplus_mod, Hhrmor, Z.add_0_r, Zmod_mod.
  change 128 with (2 ^ 7). unfold wrap. rewrite <-!Z.land_ones by lia.
  apply Z.bits_inj'. intros i Hi. rewrite !Z.land_spec, Z.bits_0, !Z.testbit_ones_nonneg by lia.
  destruct (i <? 7) eqn:E; [|by rewrite andb_false_r]. b2p. rewrite andb_true_r.
  unfold ALIGN_X. change (PT_ALIGNMENT - 1) with (Z.ones 18).
  rewrite Z.ldiff_spec, Z.testbit_ones_nonneg by lia. rewrite (proj2 (Z.ltb_lt i 18)) by lia.
  by rewrite andb_false_r.
Qed.

Lemma addr_inj s s' : slot_ok s -> slot_ok s' -> addr s = addr s' -> s = s'.
Proof.
  destruct s as [g i], s' as [g' i']. unfold slot_ok, addr. simpl. intros [Hg Hi] [Hg' Hi'] E.
  assert (g = g') by lia. subst. f_equal. lia.
Qed.

Lemma addr_group s : slot_ok s -> addr s / 128 * 128 = tab + s.1 * 128.
Proof.
  intros [_ Hi]. unfold addr. pose proof tab_aligned as Ht. apply Z.mod_divide in Ht as [k ->]; [|done].
  replace (k * 128 + s.1 * 128 + s.2 * 16) with (s.2 * 16 + (k + s.1) * 128) by lia.
  rewrite Z_div_plus_full, (Z.div_small (s.2 * 16)) by lia. lia.
Qed.

Lemma addr_pteg s : slot_ok s -> (addr s - tab) / 128 = s.1.
Proof.
  intros [_ Hi]. unfold addr. replace (tab + s.1 * 128 + s.2 * 16 - tab) with (s.2 * 16 + s.1 * 128) by lia.
  rewrite Z_div_plus_full, (Z.div_small (s.2 * 16)) by lia. lia.
Qed.

Lemma addr_add g i : addr (g, i) = tab + g * 128 + i * 16.
Proof. done. Qed.

(** ** The invariant *)

Definition page t s : Z := page_of (get PTE.AVA (entry t s)) s.1.

(** Slot [s] holds the translation [x] of page [pg]. *)
Definition holds t s (pg : Z) (x : xlat) : Prop :=
  slot_ok s /\ get PTE.V (entry t s) = 1 /\ page t s = pg /\ xlat_of (entry t s) = x.
Definition maps t (pg : Z) (x : xlat) : Prop := exists s, holds t s pg x.

Definition pte_wf p : Prop :=
  is_word 41 (get PTE.AVA p) /\ get PTE.B p = 1 /\ get PTE.L p = 0 /\ get PTE.H p = 0.

Record pt_ok t : Prop := {
  ok_kernel : ivTABLE t = 0;
  ok_uniq s s' : slot_ok s -> slot_ok s' -> s.1 = s'.1 ->
    get PTE.AVA (entry t s) = get PTE.AVA (entry t s') -> s = s' \/ get PTE.AVA (entry t s) = PTE_AVA_MASK;
  ok_wf s : slot_ok s -> get PTE.V (entry t s) = 1 -> pte_wf (entry t s);
  ok_tlb pg x : pt_tlb t pg = Some x -> exists s, holds t s pg x /\ get PTE.R (entry t s) = 1
}.

Lemma getAddress_kernel t : ivTABLE t = 0 -> getAddress endPreserved hrmor t = tab.
Proof. unfold getAddress. by intros ->. Qed.

Lemma mask_not_41 : ~ is_word 41 PTE_AVA_MASK.
Proof. unfold is_word, PTE_AVA_MASK. lia. Qed.

Lemma holds_unique t s s' pg x x' : pt_ok t -> holds t s pg x -> holds t s' pg x' -> s = s' /\ x = x'.
Proof.
  intros O (Hs & Hv & Hp & Hx) (Hs' & Hv' & Hp' & Hx').
  destruct (ok_wf _ O s Hs Hv) as [Ha _], (ok_wf _ O s' Hs' Hv') as [Ha' _].
  unfold page in Hp, Hp'. rewrite <-Hp' in Hp.
  apply page_of_inj in Hp as [Ea Eg]; [|done|apply Hs|done|apply Hs'].
  destruct (ok_uniq _ O s s' Hs Hs' Eg Ea) as [->|Em]; [by split; [|congruence]|].
  rewrite Em in Ha. by apply mask_not_41 in Ha.
Qed.

Lemma holds_page t s pg x : pt_ok t -> holds t s pg x ->
  is_word 64 pg /\ s.1 = pteg_of pg /\ get PTE.AVA (entry t s) = Z.shiftr pg 23 /\ ALIGN_PAGE_DOWN pg = pg.
Proof.
  intros O (Hs & Hv & <- & _). destruct (ok_wf _ O s Hs Hv) as [Ha _]. unfold page.
  split_and!; [by apply page_of_word; [|apply Hs]| | |].
  - by rewrite page_of_group by (done || apply Hs).
  - by rewrite page_of_ava by (done || apply Hs).
  - by apply page_of_aligned; [|apply Hs].
Qed.

(** ** Changes of one slot *)

(** [t'] is [t] with slot [s] holding [p'] and, if [drop], without the
    processor's translation of the page of [s]. *)
Record step_to t s p' (drop : bool) t' : Prop := {
  st_table : ivTABLE t' = ivTABLE t;
  st_idle : ivIdleTaskPN t' = ivIdleTaskPN t;
  st_mem a : pt_mem t' a = if a =? addr s then p' else pt_mem t a;
  st_tlb pg : pt_tlb t' pg = if drop && (pg =? page t s) then None else pt_tlb t pg
}.

Lemma step_entry t s p' d t' : step_to t s p' d t' -> entry t' s = p'.
Proof. intros St. unfold entry. by rewrite (st_mem _ _ _ _ _ St), Z.eqb_refl. Qed.

Lemma step_other t s p' d t' s' :
  step_to t s p' d t' -> slot_ok s -> slot_ok s' -> s' <> s -> entry t' s' = entry t s'.
Proof.
  intros St Hs Hs' Hn. unfold entry. rewrite (st_mem _ _ _ _ _ St).
  rewrite (proj2 (Z.eqb_neq _ _)); [done|]. intros E. apply Hn. by apply addr_inj.
Qed.

Lemma step_refl t s : step_to t s (entry t s) false t.
Proof.
  split; [done|done| |done]. intros a. destruct (a =? addr s) eqn:E; [|done]. b2p. by subst.
Qed.

Lemma step_trans t s p1 d1 t1 p2 d2 t2 :
  step_to t s p1 d1 t1 -> step_to t1 s p2 d2 t2 -> get PTE.AVA p1 = get PTE.AVA (entry t s) ->
  step_to t s p2 (d1 || d2) t2.
Proof.
  intros S1 S2 Ha. split.
  - by rewrite (st_table _ _ _ _ _ S2), (st_table _ _ _ _ _ S1).
  - by rewrite (st_idle _ _ _ _ _ S2), (st_idle _ _ _ _ _ S1).
  - intros a. rewrite (st_mem _ _ _ _ _ S2), (st_mem _ _ _ _ _ S1). by destruct (a =? addr s).
  - intros pg. rewrite (st_tlb _ _ _ _ _ S2), (st_tlb _ _ _ _ _ S1).
    assert (E : page t1 s = page t s) by (unfold page; by rewrite (step_entry _ _ _ _ _ S1), Ha).
    rewrite E. by destruct d1, d2, (pg =? page t s).
Qed.

(** When such a change keeps the invariant. *)
Lemma step_ok t s p' d t' :
  pt_ok t -> slot_ok s -> step_to t s p' d t' ->
  (forall s', slot_ok s' -> s' <> s -> s'.1 = s.1 -> get PTE.AVA (entry t s') = get PTE.AVA p' ->
     get PTE.AVA p' = PTE_AVA_MASK) ->
  (get PTE.V p' = 1 -> pte_wf p') ->
  (d = true \/ get PTE.V (entry t s) = 0 \/
   get PTE.V p' = 1 /\ get PTE.AVA p' = get PTE.AVA (entry t s) /\
   xlat_of p' = xlat_of (entry t s) /\ (get PTE.R (entry t s) = 1 -> get PTE.R p' = 1)) ->
  pt_ok t'.
Proof.
  intros O Hs St Hu Hwf Ht. pose proof (step_entry _ _ _ _ _ St) as He.
  assert (Ho : forall s', slot_ok s' -> s' <> s -> entry t' s' = entry t s')
    by (intros; eapply step_other; eauto).
  split.
  - rewrite (st_table _ _ _ _ _ St). apply O.
  - intros s1 s2 H1 H2 Hg Ha.
    destruct (decide (s1 = s)) as [->|N1], (decide (s2 = s)) as [->|N2]; [by left|..].
    + right. rewrite He in *. rewrite (Ho s2) in Ha by done. by apply (Hu s2).
    + right. rewrite He in *. rewrite (Ho s1) in * by done. rewrite Ha. by apply (Hu s1).
    + rewrite (Ho s1), (Ho s2) in * by done. by apply (ok_uniq _ O).
  - intros s1 H1. destruct (decide (s1 = s)) as [->|N1]; [by rewrite He|].
    rewrite Ho by done. by apply (ok_wf _ O).
  - intros pg x. rewrite (st_tlb _ _ _ _ _ St). intros Hx.
    destruct (d && (pg =? page t s)) eqn:Ed; [done|].
    destruct (ok_tlb _ O pg x Hx) as (s1 & Hh & Hr). exists s1.
    destruct (decide (s1 = s)) as [->|N1].
    + destruct Hh as (_ & Hv & Hp & Hxl). subst pg. destruct Ht as [->|[Hv0|(Hv' & Ha' & Hx' & Hr')]].
      * by rewrite Z.eqb_refl in Ed.
      * by rewrite Hv in Hv0.
      * unfold holds, page. rewrite He, Ha'. split_and!; (done || congruence || auto).
    + pose proof Hh as [Hs1 _]. unfold holds, page in *. by rewrite !(Ho s1) by done.
Qed.

(** The translations after such a change. *)
Lemma step_maps t s p' d t' pg x :
  slot_ok s -> step_to t s p' d t' ->
  maps t' pg x <-> (exists s', s' <> s /\ holds t s' pg x) \/
                   (get PTE.V p' = 1 /\ page_of (get PTE.AVA p') s.1 = pg /\ xlat_of p' = x).
Proof.
  intros Hs St. pose proof (step_entry _ _ _ _ _ St) as He. unfold maps, holds, page. split.
  - intros (s1 & H1 & Hv & Hp & Hx). destruct (decide (s1 = s)) as [->|N1].
    + right. by rewrite He in *.
    + left. exists s1. rewrite (step_other _ _ _ _ _ _ St) in * by done. done.
  - intros [(s1 & N1 & H1 & Hv & Hp & Hx)|(Hv & Hp & Hx)].
    + exists s1. by rewrite (step_other _ _ _ _ _ _ St).
    + exists s. by rewrite He.
Qed.

(** Entries that give the same translation to the same page. *)
Definition same_xlat p p' : Prop :=
  get PTE.AVA p' = get PTE.AVA p /\ get PTE.V p' = get PTE.V p /\ get PTE.B p' = get PTE.B p /\
  get PTE.L p' = get PTE.L p /\ get PTE.H p' = get PTE.H p /\ xlat_of p' = xlat_of p.

(** Changes that keep all translations. *)
Record quiet t t' : Prop := {
  q_ok : pt_ok t';
  q_idle : ivIdleTaskPN t' = ivIdleTaskPN t;
  q_same s : slot_ok s -> same_xlat (entry t s) (entry t' s)
}.

#[global] Instance same_xlat_equiv : Equivalence same_xlat.
Proof.
  split; unfold same_xlat; [done| |].
  - intros x y (? & ? & ? & ? & ? & ?). by split_and!.
  - intros x y z (H1 & H2 & H3 & H4 & H5 & H6) (E1 & E2 & E3 & E4 & E5 & E6). split_and!; congruence.
Qed.

Lemma quiet_refl t : pt_ok t -> quiet t t.
Proof. split; [done|done|]. intros. done. Qed.

Lemma quiet_trans t1 t2 t3 : quiet t1 t2 -> quiet t2 t3 -> quiet t1 t3.
Proof.
  intros [O1 I1 S1] [O2 I2 S2]. split; [done|congruence|]. intros s Hs. etrans; eauto.
Qed.

Lemma quiet_holds t t' s pg x : quiet t t' -> holds t' s pg x <-> holds t s pg x.
Proof.
  intros [_ _ Sm]. unfold holds, page.
  split; intros (Hs & Hv & Hp & Hx); destruct (Sm s Hs) as (Ea & Ev & _ & _ & _ & Ex);
    rewrite ?Ea, ?Ev, ?Ex in *; done.
Qed.

Lemma quiet_maps t t' pg x : quiet t t' -> maps t' pg x <-> maps t pg x.
Proof. intros Q. unfold maps. by setoid_rewrite (quiet_holds t t' _ pg x Q). Qed.

Lemma step_quiet t s p' d t' :
  pt_ok t -> slot_ok s -> step_to t s p' d t' -> same_xlat (entry t s) p' ->
  d = true \/ get PTE.V (entry t s) = 0 \/ (get PTE.R (entry t s) = 1 -> get PTE.R p' = 1) -> quiet t t'.
Proof.
  intros O Hs St Sm Hr. pose proof Sm as (Ea & Ev & Eb & El & Eh & Ex). split.
  - eapply step_ok; eauto.
    + intros s' Hs' Hn Hg E. destruct (ok_uniq _ O s s' Hs Hs' (eq_sym Hg)) as [->|?]; [congruence|done|congruence].
    + intros Hv. destruct (ok_wf _ O s Hs ltac:(congruence)) as (W1 & W2 & W3 & W4).
      unfold pte_wf. rewrite Ea, Eb, El, Eh. done.
    + destruct Hr as [->|[?|?]]; auto. destruct (bit_cases PTE.V (entry t s) eq_refl) as [?|?]; [auto|].
      right. right. rewrite Ev. auto.
  - apply St.
  - intros s' Hs'. destruct (decide (s' = s)) as [->|Hn].
    + by rewrite (step_entry _ _ _ _ _ St).
    + by rewrite (step_other _ _ _ _ _ _ St).
Qed.
End inv.
