(* ===== verification/PtMgrOps.v ===== *)
(** * The page table: what its operations do *)

From S2P Require Import Prelude Bitfield PageMgr PtMgr PtMgrInv.

Section ops.
Context (endPreserved hrmor : Z) (Hhrmor : hrmor mod 128 = 0).
Implicit Types (t : PageTableManager) (s : Z * Z) (p : PageTableEntry).

Abbreviation addr := (PtMgrInv.addr endPreserved hrmor).
Abbreviation entry := (PtMgrInv.entry endPreserved hrmor).
Abbreviation page := (PtMgrInv.page endPreserved hrmor).
Abbreviation step_to := (PtMgrInv.step_to endPreserved hrmor).
Abbreviation pt_ok := (PtMgrInv.pt_ok endPreserved hrmor).
Abbreviation maps := (PtMgrInv.maps endPreserved hrmor).
Abbreviation holds := (PtMgrInv.holds endPreserved hrmor).
Abbreviation quiet := (PtMgrInv.quiet endPreserved hrmor).
Abbreviation tab := (PtMgrInv.tab endPreserved hrmor).

(** ** Single steps *)

Lemma getVirt_ok t s :
  ivTABLE t = 0 -> slot_ok s -> is_word 41 (get PTE.AVA (entry t s)) ->
  getVirtAddrFromPTE endPreserved hrmor (addr s) t = Done (page t s).
Proof.
  intros Hk Hs Ha. unfold getVirtAddrFromPTE. rewrite (getAddress_kernel _ _ _ Hk).
  change PTEG_SIZE_BYTES with 128. rewrite addr_pteg by done. fold (entry t s).
  set (ava := get PTE.AVA (entry t s)) in *.
  rewrite EXTRACT_bits; [|destruct Ha; split; lia|lia..]. cbn [obind]. f_equal. unfold page, page_of. fold ava.
  change (55 - 1 - 37) with 17. change (37 - 27 + 1) with 11. f_equal; apply wrap_small.
  - assert (Hx : is_word 11 (Z.lxor (get_bits 17 11 ava) s.1))
      by (apply lxor_word; [lia|apply get_bits_bound; lia|apply Hs]).
    rewrite Z.shiftl_mul_pow2 by lia. destruct Hx. split; lia.
  - rewrite Z.shiftl_mul_pow2 by lia. destruct Ha. split; lia.
Qed.

Lemma tlbie_page pg : is_word 64 pg -> ALIGN_PAGE_DOWN pg = pg ->
  u64 (Z.shiftl (Z.land (get_bits 12 52 pg) 0x000FFFFFFFFFFFFF) 12) = pg.
Proof.
  intros Hw Hal. change 0x000FFFFFFFFFFFFF with (Z.ones 52). unfold wrap. rewrite <-Z.land_ones by lia.
  apply Z.bits_inj'. intros i Hi. rewrite <-Hal at 2. rewrite align_down_bits by done.
  rewrite Z.land_spec, Z.shiftl_spec, Z.testbit_ones_nonneg by lia.
  destruct (12 <=? i) eqn:E; b2p; [|by rewrite (Z.testbit_neg_r _ (i - 12)) by lia].
  rewrite Z.land_spec, get_bits_testbit, Z.testbit_ones_nonneg by lia. cbn [andb].
  replace (i - 12 + 12) with i by lia.
  replace (i - 12 <? 52) with (i <? 64) by (apply eq_true_iff_eq; rewrite !Z.ltb_lt; lia).
  destruct (i <? 64) eqn:E2; b2p; [by rewrite !andb_true_r|].
  by rewrite (word_bits_high 64 pg) by (done || lia).
Qed.

Lemma invalidateTLB_ok t s :
  ivTABLE t = 0 -> slot_ok s -> is_word 41 (get PTE.AVA (entry t s)) ->
  exists t', invalidateTLB endPreserved hrmor (addr s) t = Done t' /\ step_to t s (entry t s) true t' /\
    pt_stats t' = pt_stats t.
Proof.
  intros Hk Hs Ha. unfold invalidateTLB. rewrite Hk. cbn [Z.eqb]. rewrite getVirt_ok by done. cbn [obind].
  assert (Hw : is_word 64 (page t s)) by (apply page_of_word; [done|apply Hs]).
  rewrite EXTRACT_bits by (done || lia). cbn [obind].
  change (78 - 1 - 65) with 12. change (65 - 14 + 1) with 52.
  rewrite tlbie_page by (done || by apply page_of_aligned; [|apply Hs]).
  eexists. split; [done|]. split; [|done]. split; try done.
  - intros a. simpl. destruct (a =? addr s) eqn:E; [|done]. b2p. by subst.
Qed.

Lemma put_step t s p : step_to t s p false (put (addr s) p t).
Proof. split; done. Qed.

(** ** Usage counts *)

Definition lru_update p : Z :=
  if (get PTE.V p =? 1) && (get PTE.R p =? 1) then 0 else Z.min 3 (get PTE.LRU p + 1).

Lemma xlat_of_mk p q : xlat_of (mkPte (dword0 p) (dword1 q)) = xlat_of q.
Proof. done. Qed.

(** Other words of the same entry: solve the field equations. *)
Ltac same_fields := unfold same_xlat, xlat_of; fields; split_and!; done.

Lemma updateLRUEntry_ok t s :
  pt_ok t -> slot_ok s ->
  exists t' p', updateLRUEntry endPreserved hrmor (addr s) t = Done t' /\
    step_to t s p' ((get PTE.V (entry t s) =? 1) && (get PTE.R (entry t s) =? 1)) t' /\
    same_xlat (entry t s) p' /\ get PTE.LRU p' = lru_update (entry t s) /\
    (get PTE.R p' =? 1) = (get PTE.R (entry t s) =? 1) && negb (get PTE.V (entry t s) =? 1) /\
    pt_stats t' = pt_stats t.
Proof.
  intros O Hs. unfold updateLRUEntry, lru_update. fold (entry t s). set (p := entry t s) in *.
  pose proof (get_bound PTE.LRU p eq_refl) as Hl. change (2 ^ f_len PTE.LRU) with 4 in Hl.
  destruct ((get PTE.V p =? 1) && (get PTE.R p =? 1)) eqn:Evr.
  - apply andb_prop in Evr as [Ev Er]. rewrite Ev, Er. b2p.
    pose proof (put_step t s (set PTE.R 0 p)) as S1. set (t1 := put (addr s) (set PTE.R 0 p) t) in *.
    assert (He1 : entry t1 s = set PTE.R 0 p) by (by eapply step_entry).
    destruct (invalidateTLB_ok t1 s) as (t2 & -> & S2 & Hst); [apply O|done| |].
    { rewrite He1. fields. by apply (ok_wf _ _ _ O). }
    cbn [obind]. rewrite He1 in S2.
    pose proof (step_trans _ _ _ _ _ _ _ _ _ _ S1 S2 ltac:(by fields)) as S12.
    assert (He2 : pt_mem t2 (addr s) = set PTE.R 0 p) by (by apply (step_entry _ _ _ _ _ _ _ S2)).
    rewrite He2. set (p' := mkPte _ _). exists (put (addr s) p' t2), p'. split; [done|].
    split; [|split; [|split; [|split]]].
    + apply (step_trans _ _ _ _ _ _ _ _ _ _ S12 (put_step t2 s p')). by fields.
    + subst p'. fold p. same_fields.
    + subst p'. by fields.
    + subst p'. by fields.
    + simpl. by rewrite Hst.
  - set (p1 := if get PTE.LRU p <? 3 then _ else _). set (p' := mkPte (dword0 p1) (dword1 (pt_mem t (addr s)))).
    change (pt_mem t (addr s)) with p in p'.
    assert (Hsame : same_xlat p p' /\ get PTE.LRU p' = Z.min 3 (get PTE.LRU p + 1) /\ get PTE.R p' = get PTE.R p).
    { subst p' p1. destruct (get PTE.LRU p <? 3) eqn:E; b2p.
      - split_and!; [same_fields| |by fields]. fields. change (2 ^ f_len PTE.LRU) with 4.
        rewrite Z.mod_small; lia.
      - split_and!; [same_fields|fields; lia|by fields]. }
    destruct Hsame as (H1 & H2 & H3).
    exists (put (addr s) p' t), p'. split; [done|split; [apply put_step|split_and!; try done]]. rewrite H3.
    destruct (get PTE.V p =? 1), (get PTE.R p =? 1); done.
Qed.

Lemma updateLRUEntry_quiet t s :
  pt_ok t -> slot_ok s ->
  exists t', updateLRUEntry endPreserved hrmor (addr s) t = Done t' /\ quiet t t' /\
    pt_stats t' = pt_stats t /\ get PTE.LRU (entry t' s) = lru_update (entry t s) /\
    (forall s', slot_ok s' -> s' <> s -> entry t' s' = entry t s').
Proof.
  intros O Hs. destruct (updateLRUEntry_ok t s O Hs) as (t' & p' & E & St & Sm & Hl & Hr & Hst).
  exists t'. split; [done|]. split; [|split; [done|split]].
  - eapply step_quiet; eauto.
    destruct (bit_cases PTE.V (entry t s) eq_refl) as [->|Hv]; [auto|]. rewrite Hv in *.
    destruct (bit_cases PTE.R (entry t s) eq_refl) as [Hr0|Hr1]; [|rewrite Hr1; auto].
    right. right. rewrite Hr0 in *. destruct (bit_cases PTE.R p' eq_refl) as [->|Hp]; [done|by rewrite Hp in Hr].
  - by rewrite (step_entry _ _ _ _ _ _ _ St).
  - intros s' Hs' Hn. eapply step_other; eauto.
Qed.

Lemma update_group_ok n g i t new :
  pt_ok t -> is_word 11 g -> 0 <= i -> i + Z.of_nat n <= 8 -> slot_ok new ->
  exists t', update_group endPreserved hrmor n (addr (g, i)) (addr new) t = Done t' /\ quiet t t' /\
    pt_stats t' = pt_stats t /\
    (forall s, slot_ok s -> s = new \/ s.1 <> g \/ s.2 < i -> entry t' s = entry t s) /\
    (forall s, slot_ok s -> s <> new -> s.1 = g -> i <= s.2 < i + Z.of_nat n ->
       get PTE.LRU (entry t' s) = lru_update (entry t s)).
Proof.
  revert i t. induction n as [|n IH]; intros i t O Hg Hi Hn Hnew; cbn [update_group].
  { exists t. split_and!; [done|by apply quiet_refl|done|done|]. intros. lia. }
  assert (Hs : slot_ok (g, i)) by (split; [done|simpl; lia]).
  assert (Hnext : addr (g, i) + PTE_SIZE = addr (g, i + 1))
    by (unfold PtMgrInv.addr; change PTE_SIZE with 16; simpl; lia).
  rewrite Hnext. destruct (addr (g, i) =? addr new) eqn:E; b2p; cbn [negb].
  - apply addr_inj in E as <-; [|done..]. cbn [obind].
    destruct (IH (i + 1) t O Hg ltac:(lia) ltac:(lia) Hs) as (t' & -> & Q & Hst & Hsame & Hl).
    exists t'. split_and!; [done|done|done| |].
    + intros s Hs' [->|[?|?]]; apply Hsame; auto. right. right. lia.
    + intros s Hs' Hne Hsg Hsi. apply Hl; auto.
      assert (s.2 <> i); [|lia]. intros Ei. apply Hne. destruct s. simpl in *. congruence.
  - destruct (updateLRUEntry_quiet t (g, i) O Hs) as (t1 & -> & Q1 & Hst1 & Hl1 & Ho1). cbn [obind].
    destruct (IH (i + 1) t1 (q_ok _ _ _ _ Q1) Hg ltac:(lia) ltac:(lia) Hnew) as (t' & -> & Q & Hst & Hsame & Hl).
    exists t'. split_and!; [done|by eapply quiet_trans|congruence| |].
    + intros s Hs' Hcase. assert (Hn1 : s <> (g, i)) by (intros ->; simpl in Hcase; destruct Hcase as [Hc|[?|?]]; [by rewrite Hc in E|done|lia]).
      rewrite Hsame, Ho1 by (done || destruct Hcase as [?|[?|?]]; auto; right; right; lia). done.
    + intros s Hs' Hne Hsg Hsi. destruct (decide (s.2 = i)) as [Ei|Hni].
      * assert (s = (g, i)) as -> by (destruct s; simpl in *; congruence).
        rewrite Hsame by (auto; right; right; simpl; lia). done.
      * assert (Hn1 : s <> (g, i)) by (intros ->; done).
        rewrite Hl by (auto; lia). by rewrite Ho1.
Qed.

(** ** Reports, removal, writing *)

Definition report p : UsageStats_t :=
  mkStats 0 (if (get PTE.R p =? 0) && (get PTE.R2 p =? 0) then 0 else 1) (get PTE.LRU p).

Lemma pushUsageStats_ok t s :
  ivTABLE t = 0 -> slot_ok s -> is_word 41 (get PTE.AVA (entry t s)) ->
  exists t' p', pushUsageStats endPreserved hrmor (addr s) t = Done t' /\
    step_to t s p' (negb (get PTE.R (entry t s) =? 0)) t' /\ same_xlat (entry t s) p' /\
    get PTE.R p' = 0 /\ get PTE.R2 p' = 0 /\
    pt_stats t' = pt_stats t ++ [(page t s, report (entry t s))].
Proof.
  intros Hk Hs Ha. unfold pushUsageStats, report. rewrite Hk. cbn [Z.eqb negb].
  fold (entry t s). set (p := entry t s) in *.
  (* the R bit *)
  assert (H1 : exists t1 p1,
    (if negb (get PTE.R p =? 0) then
       do t <- invalidateTLB endPreserved hrmor (addr s) (put (addr s) (set PTE.R 0 p) t);
       Done (mkStats 0 1 (get PTE.LRU p), t)
     else Done (mkStats 0 0 (get PTE.LRU p), t))
    = Done (mkStats 0 (if get PTE.R p =? 0 then 0 else 1) (get PTE.LRU p), t1) /\
    step_to t s p1 (negb (get PTE.R p =? 0)) t1 /\ same_xlat p p1 /\ get PTE.R p1 = 0 /\
    get PTE.R2 p1 = get PTE.R2 p /\ pt_stats t1 = pt_stats t).
  { destruct (get PTE.R p =? 0) eqn:Er; b2p; cbn [negb].
    - exists t, p. split_and!; try done. apply step_refl.
    - pose proof (put_step t s (set PTE.R 0 p)) as S1. set (t1 := put (addr s) (set PTE.R 0 p) t) in *.
      assert (He1 : entry t1 s = set PTE.R 0 p) by (by eapply step_entry).
      destruct (invalidateTLB_ok t1 s) as (t2 & -> & S2 & Hst); [done|done|rewrite He1; by fields|].
      rewrite He1 in S2. cbn [obind us_C us_LRU]. exists t2, (set PTE.R 0 p).
      split_and!; [done|by apply (step_trans _ _ _ _ _ _ _ _ _ _ S1 S2); fields|same_fields|by fields|by fields|done]. }
  destruct H1 as (t1 & p1 & E1 & S1 & Sm1 & Hr1 & Hr2 & Hst1). cbn [us_C us_LRU]. rewrite E1. cbn [obind].
  assert (He1 : pt_mem t1 (addr s) = p1) by apply (step_entry _ _ _ _ _ _ _ S1). rewrite He1, Hr2.
  assert (Hpage : forall t2, entry t2 s = p1 \/ entry t2 s = set PTE.R2 0 p1 -> page t2 s = page t s).
  { intros t2 He2. unfold page, PtMgrInv.page. fold p.
    replace (get PTE.AVA (entry t2 s)) with (get PTE.AVA p); [done|].
    destruct He2 as [->| ->]; fields; symmetry; apply Sm1. }
  destruct (get PTE.R2 p =? 0) eqn:E2; b2p; cbn [negb].
  - rewrite getVirt_ok; [|by rewrite (st_table _ _ _ _ _ _ _ S1)|done|rewrite (step_entry _ _ _ _ _ _ _ S1); by rewrite (proj1 Sm1)].
    cbn [obind]. exists (with_stats (pt_stats t1 ++ [(page t1 s, mkStats 0 (if get PTE.R p =? 0 then 0 else 1) (get PTE.LRU p))]) t1), p1.
    split; [done|]. split; [destruct S1; by split|]. split_and!; [done|done|congruence|].
    simpl. rewrite Hst1, Hpage by (left; by apply (step_entry _ _ _ _ _ _ _ S1)). rewrite andb_true_r. done.
  - pose proof (put_step t1 s (set PTE.R2 0 p1)) as S2.
    set (t2 := put (addr s) (set PTE.R2 0 p1) t1) in *.
    pose proof (step_entry _ _ _ _ _ _ _ S2) as He2.
    pose proof (step_trans _ _ _ _ _ _ _ _ _ _ S1 S2 (proj1 Sm1)) as S12. rewrite orb_false_r in S12.
    rewrite getVirt_ok; [|by rewrite (st_table _ _ _ _ _ _ _ S12)|done|rewrite He2; fields; by rewrite (proj1 Sm1)].
    cbn [obind us_C us_LRU]. eexists _, (set PTE.R2 0 p1). split; [done|]. split; [destruct S12; by split|].
    split_and!; [etrans; [exact Sm1|same_fields]|by fields|by fields|].
    simpl. rewrite Hst1, Hpage by auto. rewrite andb_false_r. done.
Qed.

(** Removing a valid entry. *)
Lemma delEntry_valid t s :
  pt_ok t -> slot_ok s -> get PTE.V (entry t s) = 1 ->
  exists t' p', delEntry_at endPreserved hrmor (addr s) t = Done t' /\ step_to t s p' true t' /\
    get PTE.V p' = 0 /\ get PTE.AVA p' = get PTE.AVA (entry t s) /\
    pt_stats t' = pt_stats t ++ [(page t s, report (entry t s))].
Proof.
  intros O Hs Hv. destruct (ok_wf _ _ _ O s Hs Hv) as [Ha _]. pose proof (ok_kernel _ _ _ O) as Hk.
  unfold delEntry_at, writePTE. fold (entry t s). set (p := entry t s) in *.
  rewrite Hv, Hk, Z.eqb_refl. cbn [Z.eqb negb andb orb Pos.eqb].
  pose proof (put_step t s (set PTE.V 0 p)) as S1. set (t1 := put (addr s) (set PTE.V 0 p) t) in *.
  pose proof (step_entry _ _ _ _ _ _ _ S1) as He1.
  destruct (invalidateTLB_ok t1 s) as (t2 & -> & S2 & Hst2); [done|done|rewrite He1; by fields|]. cbn [obind].
  rewrite He1 in S2. pose proof (step_trans _ _ _ _ _ _ _ _ _ _ S1 S2 ltac:(by fields)) as S12.
  pose proof (step_entry _ _ _ _ _ _ _ S12) as He2.
  destruct (pushUsageStats_ok t2 s) as (t3 & p3 & -> & S3 & Sm3 & Hr & Hr2 & Hst3);
    [by rewrite (st_table _ _ _ _ _ _ _ S12)|done|rewrite He2; by fields|].
  rewrite He2 in *. pose proof (step_trans _ _ _ _ _ _ _ _ _ _ S12 S3 ltac:(by fields)) as S123.
  exists t3, p3. split; [done|]. split; [exact S123|]. destruct Sm3 as (E1 & E2 & _).
  split_and!; [rewrite E2; by fields|rewrite E1; by fields|]. rewrite Hst3, Hst2. simpl.
  do 3 f_equal.
  - unfold page, PtMgrInv.page. rewrite He2. fold p. by fields.
  - unfold report. by fields.
Qed.

Lemma del_ok t s t' p' :
  pt_ok t -> slot_ok s -> get PTE.V (entry t s) = 1 -> step_to t s p' true t' ->
  get PTE.V p' = 0 -> get PTE.AVA p' = get PTE.AVA (entry t s) ->
  pt_ok t' /\ forall pg x, maps t' pg x <-> pg <> page t s /\ maps t pg x.
Proof.
  intros O Hs Hv St Hv' Ha'. split.
  - eapply step_ok; eauto; [|by intros ?; congruence].
    intros s' Hs' Hn Hg E. rewrite Ha' in *.
    destruct (ok_uniq _ _ _ O s s' Hs Hs' (eq_sym Hg)) as [->|?]; [congruence|done|congruence].
  - intros pg x. rewrite (step_maps _ _ _ _ _ _ _ _ _ Hs St).
    assert (Hh : holds t s (page t s) (xlat_of (entry t s))) by done.
    split.
    + intros [(s' & Hn & Hm)|(? & _)]; [|congruence]. split; [|by exists s'].
      intros ->. apply Hn. by destruct (holds_unique _ _ _ _ _ _ _ _ O Hh Hm).
    + intros [Hn [s' Hm]]. left. exists s'. split; [|done]. intros ->. apply Hn.
      by destruct Hm as (_ & _ & -> & _).
Qed.

(** What [writePTE] leaves of the local copy. *)
Definition written (q : PageTableEntry) : PageTableEntry :=
  set PTE.V 1 (set PTE.LRU 0 (mkPte (dword0 q) (dword1 q))).

Lemma write_slot t s q :
  ivTABLE t = 0 -> slot_ok s ->
  (get PTE.V (entry t s) = 1 -> get PTE.AVA q = get PTE.AVA (entry t s) /\ is_word 41 (get PTE.AVA q)) ->
  exists t1, writePTE endPreserved hrmor q (addr s) true t = updateLRUGroup endPreserved hrmor (addr s) t1 /\
    step_to t s (written q) (get PTE.V (entry t s) =? 1) t1 /\ pt_stats t1 = pt_stats t.
Proof.
  intros Hk Hs Hv. unfold writePTE. fold (entry t s). set (p := entry t s) in *. rewrite Hk.
  cbn [Z.eqb negb orb]. rewrite !andb_true_r.
  assert (Hw : forall t1 d, step_to t s (set PTE.V 0 p) d t1 \/ step_to t s p d t1 ->
    let t2 := put (addr s) (mkPte (dword0 (pt_mem t1 (addr s))) (dword1 q)) t1 in
    let t3 := put (addr s) (mkPte (dword0 q) (dword1 (pt_mem t2 (addr s)))) t2 in
    let t4 := put (addr s) (set PTE.LRU 0 (pt_mem t3 (addr s))) t3 in
    step_to t s (written q) d (put (addr s) (set PTE.V 1 (pt_mem t4 (addr s))) t4) /\
    pt_stats (put (addr s) (set PTE.V 1 (pt_mem t4 (addr s))) t4) = pt_stats t1).
  { intros t1 d St t2 t3 t4. split; [|done]. split; simpl; rewrite ?upd_eq; simpl; rewrite ?upd_eq.
    - by destruct St as [St|St]; rewrite (st_table _ _ _ _ _ _ _ St).
    - by destruct St as [St|St]; rewrite (st_idle _ _ _ _ _ _ _ St).
    - intros a. unfold upd. destruct (a =? addr s) eqn:E; [by rewrite ?Z.eqb_refl|].
      destruct St as [St|St]; by rewrite (st_mem _ _ _ _ _ _ _ St), E.
    - destruct St as [St|St]; apply (st_tlb _ _ _ _ _ _ _ St). }
  destruct (get PTE.V p =? 1) eqn:Ev; b2p.
  - destruct (Hv Ev) as [Hq1 Hq2]. rewrite (proj2 (Z.eqb_eq _ _) Hq1). cbn [negb andb].
    pose proof (put_step t s (set PTE.V 0 p)) as S1. set (t1 := put (addr s) (set PTE.V 0 p) t) in *.
    pose proof (step_entry _ _ _ _ _ _ _ S1) as He1.
    destruct (invalidateTLB_ok t1 s) as (t2 & -> & S2 & Hst2);
      [done|done|rewrite He1; fields; by rewrite <-Hq1|]. cbn [obind].
    rewrite He1 in S2. pose proof (step_trans _ _ _ _ _ _ _ _ _ _ S1 S2 ltac:(by fields)) as S12.
    destruct (Hw t2 true (or_introl S12)) as [St Hst]. eexists. split; [done|]. split; [exact St|].
    rewrite Hst. done.
  - cbn [andb negb obind]. destruct (Hw t false (or_intror (step_refl _ _ t s))) as [St Hst].
    eexists. split; [done|]. split; [exact St|done].
Qed.
End ops.
