(* ===== verification/PtMgrAdd.v ===== *)
(** * The page table: searching a group, removing and adding entries *)

From S2P Require Import Prelude PageMgr Bitfield PtMgr PtMgrInv PtMgrOps.

Section find.
Context (endPreserved hrmor : Z) (Hhrmor : hrmor mod 128 = 0).
Implicit Types (t : PageTableManager) (s : Z * Z) (p : PageTableEntry).

Abbreviation addr := (PtMgrInv.addr endPreserved hrmor).
Abbreviation entry := (PtMgrInv.entry endPreserved hrmor).
Abbreviation page := (PtMgrInv.page endPreserved hrmor).
Abbreviation step_to := (PtMgrInv.step_to endPreserved hrmor).
Abbreviation pt_ok := (PtMgrInv.pt_ok endPreserved hrmor).
Abbreviation maps := (PtMgrInv.maps endPreserved hrmor).
Abbreviation holds := (PtMgrInv.holds endPreserved hrmor).
Abbreviation quiet := (PtMgrInv.quiet endPreserved hrmor).

(** What the processor finds when it searches the table for an address. *)
Definition hw_match (va : Z) p : bool :=
  (get PTE.V p =? 1) && (get PTE.AVA p =? Z.shiftr va 23) && (get PTE.B p =? 1)
  && (get PTE.L p =? 0) && (get PTE.H p =? 0).
Definition hw_search (va : Z) t : option Z :=
  match findPTEG endPreserved hrmor va t with
  | Done a => find_entry_in 8 (hw_match va) a (pt_mem t)
  | Crash _ => None
  end.
Definition translate (va : Z) t : option xlat := (fun a => xlat_of (pt_mem t a)) <$> hw_search va t.

Lemma addr_next g i : addr (g, i) + PTE_SIZE = addr (g, i + 1).
Proof. unfold PtMgrInv.addr. change PTE_SIZE with 16. simpl. lia. Qed.

Lemma find_entry_spec n f g i t :
  match find_entry_in n f (addr (g, i)) (pt_mem t) with
  | Some a => exists j, i <= j < i + Z.of_nat n /\ a = addr (g, j) /\ f (entry t (g, j)) = true /\
                forall k, i <= k < j -> f (entry t (g, k)) = false
  | None => forall k, i <= k < i + Z.of_nat n -> f (entry t (g, k)) = false
  end.
Proof.
  revert i. induction n as [|n IH]; intros i; cbn [find_entry_in]; [lia|].
  change (pt_mem t (addr (g, i))) with (entry t (g, i)). destruct (f (entry t (g, i))) eqn:E.
  - exists i. split_and!; [lia|lia|done|done|]. lia.
  - rewrite addr_next. specialize (IH (i + 1)).
    destruct (find_entry_in n f (addr (g, i + 1)) (pt_mem t)) as [a|].
    + destruct IH as (j & Hj & -> & Hf & Hk). exists j. split_and!; [lia|lia|done|done|].
      intros k Hk2. destruct (decide (k = i)) as [->|]; [done|]. apply Hk. lia.
    + intros k Hk. destruct (decide (k = i)) as [->|]; [done|]. apply IH. lia.
Qed.

(** The eight slots of a group. *)
Lemma find_group_spec f g t :
  is_word 11 g ->
  match find_entry_in 8 f (addr (g, 0)) (pt_mem t) with
  | Some a => exists s, slot_ok s /\ s.1 = g /\ a = addr s /\ f (entry t s) = true
  | None => forall s, slot_ok s -> s.1 = g -> f (entry t s) = false
  end.
Proof.
  intros Hg. pose proof (find_entry_spec 8 f g 0 t) as H. destruct (find_entry_in _ _ _ _) as [a|].
  - destruct H as (j & Hj & -> & Hf & _). exists (g, j). split_and!; [split; simpl; [done|lia]|done|done|done].
  - intros [g' k] [_ Hk] Hg'. simpl in *. subst. apply H. lia.
Qed.

Lemma group_start t va : ivTABLE t = 0 -> is_word 64 va ->
  findPTEG endPreserved hrmor va t = Done (addr (pteg_of va, 0)).
Proof.
  intros Hk Hva. rewrite findPTEG_eq, getAddress_kernel by done. f_equal. unfold PtMgrInv.addr. simpl. lia.
Qed.

Lemma findPTE_in_spec va t :
  match findPTE_in va (addr (pteg_of va, 0)) t with
  | Some a => exists s, slot_ok s /\ s.1 = pteg_of va /\ a = addr s /\ get PTE.AVA (entry t s) = Z.shiftr va 23
  | None => forall s, slot_ok s -> s.1 = pteg_of va -> get PTE.AVA (entry t s) <> Z.shiftr va 23
  end.
Proof.
  unfold findPTE_in. pose proof (find_group_spec (fun p => get PTE.AVA p =? Z.shiftr va 23)
    (pteg_of va) t (pteg_bound va)) as H.
  destruct (find_entry_in _ _ _ _) as [a|].
  - destruct H as (s & H1 & H2 & H3 & H4). b2p. by exists s.
  - intros s H1 H2. specialize (H s H1 H2). by b2p.
Qed.

(** A slot whose entry is for the page of [va]. *)
Lemma slot_of_page t s va :
  pt_ok t -> is_word 64 va -> slot_ok s -> get PTE.V (entry t s) = 1 ->
  page t s = ALIGN_PAGE_DOWN va <-> s.1 = pteg_of va /\ get PTE.AVA (entry t s) = Z.shiftr va 23.
Proof.
  intros O Hva Hs Hv. destruct (ok_wf _ _ _ O s Hs Hv) as [Ha _].
  rewrite <-page_of_pteg by done. unfold PtMgrInv.page. split.
  - intros E. apply page_of_inj in E as [? ?]; [done|done|apply Hs|by apply shiftr_41|apply pteg_bound].
  - by intros [-> ->].
Qed.

(** The abstract translations are what the processor finds. *)
Lemma translate_maps t va x :
  pt_ok t -> is_word 64 va -> translate va t = Some x <-> maps t (ALIGN_PAGE_DOWN va) x.
Proof.
  intros O Hva. unfold translate, hw_search. rewrite (group_start _ _ (ok_kernel _ _ _ O) Hva).
  pose proof (find_group_spec (hw_match va) (pteg_of va) t (pteg_bound va)) as Hf.
  assert (Hm : forall s, slot_ok s -> s.1 = pteg_of va ->
    hw_match va (entry t s) = true <-> get PTE.V (entry t s) = 1 /\ get PTE.AVA (entry t s) = Z.shiftr va 23).
  { intros s Hs _. unfold hw_match. rewrite !andb_true_iff, !Z.eqb_eq. split; [naive_solver|].
    intros [Hv Ha]. destruct (ok_wf _ _ _ O s Hs Hv) as (_ & ? & ? & ?). done. }
  split.
  - intros E. destruct (find_entry_in _ _ _ _) as [a|]; [|done]. injection E as <-.
    destruct Hf as (s & Hs & Hg & -> & Hh). apply (Hm s Hs Hg) in Hh as [Hv Ha].
    exists s. split; [done|]. split; [done|]. split; [by apply slot_of_page|done].
  - intros (s & Hs & Hv & Hp & Hx). apply slot_of_page in Hp as [Hg Ha]; [|done..].
    destruct (find_entry_in _ _ _ _) as [a|].
    + destruct Hf as (s' & Hs' & Hg' & -> & Hh). apply (Hm s' Hs' Hg') in Hh as [Hv' Ha'].
      destruct (ok_uniq _ _ _ O s' s Hs' Hs ltac:(congruence) ltac:(congruence)) as [->|E].
      * simpl. by f_equal.
      * destruct (ok_wf _ _ _ O s' Hs' Hv') as [Hw _]. rewrite E in Hw. by apply mask_not_41 in Hw.
    + specialize (Hf s Hs Hg). by rewrite (proj2 (Hm s Hs Hg)) in Hf.
Qed.

(** ** Removing *)

Lemma delEntry_at_ok t s :
  pt_ok t -> slot_ok s ->
  exists t', delEntry_at endPreserved hrmor (addr s) t = Done t' /\ pt_ok t' /\
    ivIdleTaskPN t' = ivIdleTaskPN t /\
    (forall s', slot_ok s' -> s' <> s -> entry t' s' = entry t s') /\
    get PTE.AVA (entry t' s) = get PTE.AVA (entry t s) /\ get PTE.V (entry t' s) = 0 /\
    (forall pg x, maps t' pg x <-> (get PTE.V (entry t s) = 1 -> pg <> page t s) /\ maps t pg x) /\
    pt_stats t' = pt_stats t ++
      (if get PTE.V (entry t s) =? 1 then [(page t s, report (entry t s))] else []).
Proof.
  intros O Hs. destruct (bit_cases PTE.V (entry t s) eq_refl) as [Hv|Hv].
  - unfold delEntry_at. change (pt_mem t (addr s)) with (entry t s). rewrite Hv. exists t.
    split_and!; try done; [|by rewrite app_nil_r]. intros pg x. split; [|tauto]. intros. done.
  - destruct (delEntry_valid _ _ t s O Hs Hv) as (t' & p' & E & St & Hv' & Ha' & Hst).
    destruct (del_ok _ _ t s t' p' O Hs Hv St Hv' Ha') as [O' Hm].
    pose proof (step_entry _ _ _ _ _ _ _ St) as He.
    exists t'. rewrite !He, Hv. split_and!; try done; [apply St| |].
    + intros s' Hs' Hn. by eapply step_other.
    + intros pg x. rewrite Hm. tauto.
Qed.

Definition removed_report t (pg : Z) (l : list (Z * UsageStats_t)) : Prop :=
  ((exists x, maps t pg x) /\ exists st, l = [(pg, st)]) \/ ((forall x, ~ maps t pg x) /\ l = []).

Lemma delEntry_ok t va :
  pt_ok t -> is_word 64 va ->
  exists t' l, _delEntry endPreserved hrmor va t = Done t' /\ pt_ok t' /\
    (forall pg x, maps t' pg x <-> pg <> ALIGN_PAGE_DOWN va /\ maps t pg x) /\
    pt_stats t' = pt_stats t ++ l /\ removed_report t (ALIGN_PAGE_DOWN va) l.
Proof.
  intros O Hva. unfold _delEntry, findPTE. rewrite (group_start _ _ (ok_kernel _ _ _ O) Hva). cbn [obind].
  pose proof (findPTE_in_spec va t) as Hf.
  assert (Hnone : (forall s, slot_ok s -> get PTE.V (entry t s) = 1 -> s.1 = pteg_of va ->
                     get PTE.AVA (entry t s) <> Z.shiftr va 23) -> forall x, ~ maps t (ALIGN_PAGE_DOWN va) x).
  { intros Hn x (s & Hs & Hv & Hp & _). apply slot_of_page in Hp as [Hg Ha]; [|done..]. by apply (Hn s). }
  destruct (findPTE_in _ _ _) as [a|].
  2:{ exists t, []. rewrite app_nil_r. split_and!; [done|done| |done|right; split; [|done]].
      - intros pg x. split; [|tauto]. intros Hm. split; [|done]. intros ->.
        eapply Hnone; [|done]. intros s Hs _. by apply Hf.
      - apply Hnone. intros s Hs _. by apply Hf. }
  destruct Hf as (s & Hs & Hg & -> & Ha).
  destruct (delEntry_at_ok t s O Hs) as (t' & E & O' & _ & Ho & Ha' & Hv' & Hm & Hst).
  rewrite E. exists t'. rewrite Hst.
  destruct (bit_cases PTE.V (entry t s) eq_refl) as [Hv|Hv]; rewrite Hv in *; cbn [Z.eqb Pos.eqb] in *.
  - exists []. assert (Hn : forall x, ~ maps t (ALIGN_PAGE_DOWN va) x).
    { apply Hnone. intros s' Hs' Hvs Hg' Ha2.
      destruct (ok_uniq _ _ _ O s' s Hs' Hs ltac:(congruence) ltac:(congruence)) as [->|Em]; [congruence|].
      destruct (ok_wf _ _ _ O s' Hs' Hvs) as [Hw _]. rewrite Em in Hw. by apply mask_not_41 in Hw. }
    split_and!; [done|done| |done|by right]. intros pg x. rewrite Hm. split.
    + intros [_ Hx]. split; [|done]. intros ->. by apply Hn in Hx.
    + intros [_ Hx]. done.
  - exists [(page t s, report (entry t s))].
    assert (Hp : page t s = ALIGN_PAGE_DOWN va) by (by apply slot_of_page).
    split_and!; [done|done| |done|left].
    + intros pg x. rewrite Hm, Hp. split; [intros [H1 H2]; split; [by apply H1|done]|tauto].
    + rewrite Hp. split; [|by eexists]. exists (xlat_of (entry t s)). by exists s.
Qed.

(** ** The entry to replace *)

Definition lru_of t s : Z := get PTE.LRU (entry t s).

(** [j] is a good choice among the first [k] entries of group [g]. *)
Definition oldest t (g j k : Z) : Prop :=
  (is_idle t (entry t (g, j)) = true -> forall m, 0 <= m < k -> is_idle t (entry t (g, m)) = true) /\
  (is_idle t (entry t (g, j)) = false -> forall m, 0 <= m < k -> is_idle t (entry t (g, m)) = false ->
     lru_of t (g, m) <= lru_of t (g, j) /\ (m < j -> lru_of t (g, m) < lru_of t (g, j))).

Lemma find_old_loop_spec n t g k j :
  0 <= j <= k -> 0 < k \/ j = 0 -> oldest t g j k -> k + Z.of_nat n <= 8 -> 0 < k + Z.of_nat n ->
  exists j', find_old_loop n t (addr (g, k)) (addr (g, j)) = addr (g, j') /\
    0 <= j' <= k + Z.of_nat n - (if (n =? 0)%nat then 0 else 1) /\ oldest t g j' (k + Z.of_nat n).
Proof.
  revert k j. induction n as [|n IH]; intros k j Hj Hk0 Hold Hn Hpos; cbn [find_old_loop].
  { exists j. simpl. rewrite Z.add_0_r, Z.sub_0_r. done. }
  change (pt_mem t (addr (g, j))) with (entry t (g, j)). change (pt_mem t (addr (g, k))) with (entry t (g, k)).
  rewrite addr_next. fold (lru_of t (g, j)) (lru_of t (g, k)).
  assert (Hstep : exists j1, (if is_idle t (entry t (g, j)) then addr (g, k)
     else if (lru_of t (g, j) <? lru_of t (g, k)) && negb (is_idle t (entry t (g, k))) then addr (g, k)
     else addr (g, j)) = addr (g, j1) /\ 0 <= j1 <= k /\ oldest t g j1 (k + 1)).
  { destruct Hold as [H1 H2]. destruct (is_idle t (entry t (g, j))) eqn:Ei.
    - exists k. split; [done|]. split; [lia|]. split.
      + intros Hi m Hm. destruct (decide (m = k)) as [->|]; [done|]. apply H1; [done|lia].
      + intros Hi m Hm Hm2. destruct (decide (m = k)) as [->|]; [lia|].
        rewrite H1 in Hm2 by (done || lia). done.
    - destruct (lru_of t (g, j) <? lru_of t (g, k)) eqn:El, (is_idle t (entry t (g, k))) eqn:Ek; b2p; cbn [andb negb].
      + exists j. split; [done|]. split; [lia|]. split; [by rewrite Ei|]. intros _ m Hm Hm2.
        destruct (decide (m = k)) as [->|]; [congruence|]. apply H2; [done|lia|done].
      + exists k. split; [done|]. split; [lia|]. split; [by rewrite Ek|]. intros _ m Hm Hm2.
        destruct (decide (m = k)) as [->|]; [lia|]. destruct (H2 eq_refl m ltac:(lia) Hm2). lia.
      + exists j. split; [done|]. split; [lia|]. split; [by rewrite Ei|]. intros _ m Hm Hm2.
        destruct (decide (m = k)) as [->|]; [congruence|]. apply H2; [done|lia|done].
      + exists j. split; [done|]. split; [lia|]. split; [by rewrite Ei|]. intros _ m Hm Hm2.
        destruct (decide (m = k)) as [->|]; [lia|]. apply H2; [done|lia|done]. }
  destruct Hstep as (j1 & -> & Hj1 & Hold1).
  destruct n as [|n].
  - exists j1. simpl find_old_loop. split; [done|]. split; [simpl; lia|]. by replace (k + Z.of_nat 1) with (k + 1) by lia.
  - destruct (IH (k + 1) j1 ltac:(lia) ltac:(lia) Hold1 ltac:(lia) ltac:(lia)) as (j' & E & Hb & Ho).
    exists j'. split; [done|]. cbn [Nat.eqb] in *. split; [lia|]. by replace (k + Z.of_nat (S (S n))) with (k + 1 + Z.of_nat (S n)) by lia.
Qed.

Lemma findOldPTE_spec t g :
  is_word 11 g ->
  exists s, slot_ok s /\ s.1 = g /\ findOldPTE (addr (g, 0)) t = addr s /\ oldest t g s.2 8.
Proof.
  intros Hg. destruct (find_old_loop_spec 8 t g 0 0 ltac:(lia) ltac:(lia)) as (j & E & Hb & Ho); [|lia|lia|].
  - split; intros; lia.
  - exists (g, j). simpl in Hb. split_and!; [split; simpl; [done|lia]|done|done|done].
Qed.
End find.

(** ** Access bits *)

(** The translation [setAccessBits] and [_addEntry] make; [n] is the no-execute
    bit of the uninitialised copy, kept for an unrecognised access type. *)
Definition access_xlat (page a n : Z) : xlat :=
  if a =? CI_ACCESS then mkX page (0, 2) 5 1
  else
    let wimg := if has a GUARDED then 3 else 2 in
    if has a READ_ONLY then mkX page (0, 1) wimg 1
    else if has a WRITABLE then mkX page (0, 2) wimg 1
    else if has a EXECUTABLE then mkX page (0, 1) wimg 0
    else mkX page (0, 0) wimg n.

Definition clear_access (p : PageTableEntry) : PageTableEntry :=
  mkPte (dword0 p) (Z.ldiff (dword1 p) PTE_ACCESS_BITS).

Lemma get_clear_out f p :
  real_field f && (if f_second f then get_bits (f_lo f) (f_len f) PTE_ACCESS_BITS =? 0 else true) = true ->
  get f (clear_access p) = get f p.
Proof.
  unfold real_field, get, clear_access. intros H. b2p. destruct (f_second f); [|done]. b2p.
  simpl. apply get_ldiff_out; lia.
Qed.

Lemma get_clear_in f p :
  real_field f && f_second f && (get_bits (f_lo f) (f_len f) PTE_ACCESS_BITS =? Z.ones (f_len f)) = true ->
  get f (clear_access p) = 0.
Proof.
  unfold real_field, get, clear_access. intros H. b2p. destruct (f_second f); [|done].
  simpl. apply get_ldiff_in; lia.
Qed.

Ltac clear_fields := repeat first [ progress fields | rewrite get_clear_out by reflexivity
                                  | rewrite get_clear_in by reflexivity ].

(** Fields [setAccessBits] leaves alone. *)
Lemma setAccess_other f p a :
  real_field f && apart_fields f PTE.WIMG && apart_fields f PTE.pp1_2 && apart_fields f PTE.N
  && (if f_second f then get_bits (f_lo f) (f_len f) PTE_ACCESS_BITS =? 0 else true) = true ->
  get f (setAccessBits p a) = get f p.
Proof.
  intros H. rewrite !andb_true_iff in H. destruct H as ((((Hr & H1) & H2) & H3) & H4).
  unfold setAccessBits. fold (clear_access p).
  assert (Hs : forall g v q, g = PTE.WIMG \/ g = PTE.pp1_2 \/ g = PTE.N -> get f (set g v q) = get f q).
  { intros g v q Hg. apply get_set_ne. rewrite Hr. destruct Hg as [->|[->| ->]]; by rewrite ?H1, ?H2, ?H3. }
  assert (Hc : get f (clear_access p) = get f p) by (apply get_clear_out; by rewrite Hr, H4). clear H4.
  repeat case_match; by rewrite ?Hs by auto.
Qed.

Lemma setAccess_xlat p a :
  xlat_of (setAccessBits p a) = access_xlat (get PTE.PN p) a (get PTE.N p).
Proof.
  unfold setAccessBits, access_xlat, xlat_of. fold (clear_access p).
  destruct (a =? CI_ACCESS); [by clear_fields|].
  destruct (has a GUARDED), (has a READ_ONLY), (has a WRITABLE), (has a EXECUTABLE); by clear_fields.
Qed.

Section add.
Context (endPreserved hrmor : Z) (Hhrmor : hrmor mod 128 = 0).
Implicit Types (t : PageTableManager) (s : Z * Z) (p : PageTableEntry).

Abbreviation addr := (PtMgrInv.addr endPreserved hrmor).
Abbreviation entry := (PtMgrInv.entry endPreserved hrmor).
Abbreviation page := (PtMgrInv.page endPreserved hrmor).
Abbreviation pt_ok := (PtMgrInv.pt_ok endPreserved hrmor).
Abbreviation maps := (PtMgrInv.maps endPreserved hrmor).
Abbreviation holds := (PtMgrInv.holds endPreserved hrmor).

(** ** Writing a slot *)

Lemma write_ok t s q :
  pt_ok t -> slot_ok s -> pte_wf q ->
  (forall s', slot_ok s' -> s' <> s -> s'.1 = s.1 -> get PTE.AVA (entry t s') <> get PTE.AVA q) ->
  (get PTE.V (entry t s) = 1 -> get PTE.AVA q = get PTE.AVA (entry t s)) ->
  exists t', writePTE endPreserved hrmor q (addr s) true t = Done t' /\ pt_ok t' /\
    pt_stats t' = pt_stats t /\
    (forall pg x, maps t' pg x <-> (pg = page_of (get PTE.AVA q) s.1 /\ x = xlat_of q) \/
       (pg <> page_of (get PTE.AVA q) s.1 /\ maps t pg x)).
Proof.
  intros O Hs Hwf Hu Hv. set (pg0 := page_of (get PTE.AVA q) s.1).
  destruct (write_slot endPreserved hrmor t s q (ok_kernel _ _ _ O) Hs) as (t1 & -> & St & Hst1).
  { intros Hv1. split; [by apply Hv|apply Hwf]. }
  assert (Hq : forall f, real_field f && apart_fields f PTE.V && apart_fields f PTE.LRU = true ->
    get f (written q) = get f q).
  { intros f Hf. b2p. unfold written. rewrite !get_set_ne, get_mk by (by rewrite ?H, ?H0, ?H1). by destruct (f_second f). }
  assert (Hqv : get PTE.V (written q) = 1) by (unfold written; by fields).
  assert (Hqx : xlat_of (written q) = xlat_of q) by (unfold xlat_of; by rewrite !Hq).
  assert (O1 : pt_ok t1).
  { eapply step_ok; eauto.
    - intros s' Hs' Hn Hg E. rewrite Hq in E by done. by apply Hu in E.
    - intros _. unfold pte_wf. by rewrite !Hq.
    - destruct (bit_cases PTE.V (entry t s) eq_refl) as [->| ->]; auto. }
  assert (Hm1 : forall pg x, maps t1 pg x <-> (pg = pg0 /\ x = xlat_of q) \/ (pg <> pg0 /\ maps t pg x)).
  { intros pg x. rewrite (step_maps _ _ _ _ _ _ _ _ _ Hs St), Hqv, Hqx, (Hq PTE.AVA) by done. fold pg0. split.
    - intros [(s' & Hn & Hh)|(_ & <- & <-)]; [|by left]. right. split; [|by exists s'].
      intros ->. destruct Hh as (Hs' & Hv' & Hp' & _). destruct (ok_wf _ _ _ O s' Hs' Hv') as [Ha' _].
      apply page_of_inj in Hp' as [Ea Eg]; [|done|apply Hs'|apply Hwf|apply Hs]. by apply (Hu s').
    - intros [[-> ->]|[Hn [s' Hh]]]; [by right|]. left. exists s'. split; [|done]. intros ->. apply Hn.
      destruct Hh as (_ & Hv' & <- & _). unfold PtMgrInv.page, pg0. by rewrite (Hv Hv'). }
  unfold updateLRUGroup. change PTEG_SIZE_BYTES with 128. rewrite addr_group by done.
  replace (PtMgrInv.tab endPreserved hrmor + s.1 * 128) with (addr (s.1, 0)) by (unfold PtMgrInv.addr; simpl; lia).
  destruct (update_group_ok endPreserved hrmor 8 s.1 0 t1 s O1 (proj1 Hs) ltac:(lia) ltac:(lia) Hs)
    as (t' & -> & Q & Hst & _ & _).
  exists t'. split_and!; [done|apply Q|congruence|]. intros pg x. rewrite (quiet_maps _ _ _ _ _ _ Q). apply Hm1.
Qed.

(** ** Adding *)

(** The entry a new one replaces: its group is full, and it is the best choice. *)
Definition evicted t (pg v : Z) (st : UsageStats_t) : Prop :=
  exists s, slot_ok s /\ s.1 = pteg_of pg /\ page t s = v /\ st = report (entry t s) /\
    (forall s', slot_ok s' -> s'.1 = pteg_of pg -> get PTE.V (entry t s') = 1 /\ page t s' <> pg) /\
    oldest endPreserved hrmor t s.1 s.2 8.

Definition add_post t t' (pg page acc n : Z) : Prop :=
  exists victim : option (Z * UsageStats_t),
    (forall pg' x, maps t' pg' x <->
       (pg' = pg /\ x = access_xlat page acc n) \/
       (pg' <> pg /\ Some pg' <> (fst <$> victim) /\ maps t pg' x)) /\
    pt_stats t' = pt_stats t ++ option_list victim /\
    (forall v st, victim = Some (v, st) -> evicted t pg v st).

Lemma align_word va : is_word 64 va -> is_word 64 (ALIGN_PAGE_DOWN va).
Proof.
  intros H. unfold ALIGN_PAGE_DOWN, PAGESIZE, is_word in *. Z.to_euclidean_division_equations. lia.
Qed.

Lemma align_parts va : is_word 64 va ->
  pteg_of (ALIGN_PAGE_DOWN va) = pteg_of va /\ Z.shiftr (ALIGN_PAGE_DOWN va) 23 = Z.shiftr va 23 /\
  ALIGN_PAGE_DOWN (ALIGN_PAGE_DOWN va) = ALIGN_PAGE_DOWN va.
Proof.
  intros H. rewrite <-(page_of_pteg va H).
  pose proof (shiftr_41 va H) as Ha. pose proof (pteg_bound va) as Hg.
  split_and!; [by apply page_of_group|by apply page_of_ava|by apply page_of_aligned].
Qed.

(** The data [_addEntry] writes, from any local copy with the default bits. *)
Lemma add_data p va pg acc :
  is_word 64 va -> is_word 45 pg -> get PTE.B p = 1 -> get PTE.L p = 0 -> get PTE.H p = 0 ->
  let q := set PTE.PN pg (set PTE.AVA (Z.shiftr va 23) (setAccessBits p acc)) in
  pte_wf q /\ get PTE.AVA q = Z.shiftr va 23 /\ xlat_of q = access_xlat pg acc (get PTE.N p).
Proof.
  intros Hva Hpg HB HL HH q. pose proof (shiftr_41 va Hva) as H41.
  assert (Ha : get PTE.AVA q = Z.shiftr va 23).
  { subst q. fields. change (2 ^ f_len PTE.AVA) with (2 ^ 45). apply Z.mod_small. destruct H41. lia. }
  split_and!; [unfold pte_wf; rewrite Ha; subst q; fields; rewrite !setAccess_other by reflexivity; done|done|].
  pose proof (setAccess_xlat p acc) as Hx. unfold xlat_of in *. subst q. fields.
  change (2 ^ f_len PTE.PN) with (2 ^ 45). rewrite Z.mod_small by (destruct Hpg; lia).
  revert Hx. unfold access_xlat. repeat case_match; intros Hx; injection Hx as Hx1 Hx2 Hx3 Hx4 Hx5; congruence.
Qed.

Lemma addEntry_ok t va pg acc junk :
  pt_ok t -> is_word 64 va -> is_word 45 pg ->
  match _addEntry endPreserved hrmor va pg acc junk t with
  | Crash f => f = KAssert /\ exists x, maps t (ALIGN_PAGE_DOWN va) x /\ x_PN x <> pg
  | Done t' => pt_ok t' /\ (forall x, maps t (ALIGN_PAGE_DOWN va) x -> x_PN x = pg) /\
      add_post t t' (ALIGN_PAGE_DOWN va) pg acc (get PTE.N junk)
  end.
Proof.
  intros O Hva Hpg. pose proof (align_word va Hva) as Hw. destruct (align_parts va Hva) as (Eg & Ea & Eal).
  unfold _addEntry. rewrite (group_start _ _ t _ (ok_kernel _ _ _ O) Hw), Eg. cbn [obind].
  pose proof (findPTE_in_spec endPreserved hrmor (ALIGN_PAGE_DOWN va) t) as Hf. rewrite Eg in Hf.
  set (d := setupDefaultPTE junk).
  assert (HdB : get PTE.B d = 1 /\ get PTE.L d = 0 /\ get PTE.H d = 0 /\ get PTE.N d = get PTE.N junk)
    by (subst d; unfold setupDefaultPTE; split_and!; by fields).
  destruct HdB as (HB & HL & HH & HN).
  set (d2 := set PTE.LRU 0 (set PTE.R 0 d)).
  assert (Hd2 : get PTE.B d2 = 1 /\ get PTE.L d2 = 0 /\ get PTE.H d2 = 0 /\ get PTE.N d2 = get PTE.N junk)
    by (subst d2; split_and!; by fields).
  destruct Hd2 as (HB2 & HL2 & HH2 & HN2).
  pose proof (shiftr_41 va Hva) as H41.
  assert (Hpage : forall s, s.1 = pteg_of va -> page_of (Z.shiftr va 23) s.1 = ALIGN_PAGE_DOWN va)
    by (intros s ->; by apply page_of_pteg).
  (* writing a slot whose entry, if valid, is the page's own *)
  assert (Hwrite : forall t1 s p,
    pt_ok t1 -> slot_ok s -> s.1 = pteg_of va ->
    get PTE.B p = 1 /\ get PTE.L p = 0 /\ get PTE.H p = 0 /\ get PTE.N p = get PTE.N junk ->
    (forall s', slot_ok s' -> s' <> s -> s'.1 = s.1 -> get PTE.AVA (entry t1 s') <> Z.shiftr va 23) ->
    (get PTE.V (entry t1 s) = 1 -> Z.shiftr va 23 = get PTE.AVA (entry t1 s)) ->
    exists t', writePTE endPreserved hrmor
        (set PTE.PN pg (set PTE.AVA (Z.shiftr va 23) (setAccessBits p acc))) (addr s) true t1 = Done t' /\
      pt_ok t' /\ pt_stats t' = pt_stats t1 /\
      forall pg' x, maps t' pg' x <->
        (pg' = ALIGN_PAGE_DOWN va /\ x = access_xlat pg acc (get PTE.N junk)) \/
        (pg' <> ALIGN_PAGE_DOWN va /\ maps t1 pg' x)).
  { intros t1 s p O1 Hs Hg (HBp & HLp & HHp & HNp) Hu Hv.
    destruct (add_data p va pg acc Hva Hpg HBp HLp HHp) as (Hwf & Hqa & Hqx).
    destruct (write_ok t1 s _ O1 Hs Hwf) as (t' & E & O' & Hst & Hm); [by rewrite Hqa|by rewrite Hqa|].
    exists t'. split_and!; [done|done|done|]. intros pg' x. rewrite Hm, Hqa, Hqx, (Hpage s Hg), HNp. done. }
  assert (Hno : forall s', slot_ok s' -> get PTE.V (entry t s') = 1 -> page t s' = ALIGN_PAGE_DOWN va ->
    s'.1 = pteg_of va /\ get PTE.AVA (entry t s') = Z.shiftr va 23).
  { intros s' Hs' Hv' Hp'. by apply (slot_of_page _ _ t s' va O Hva Hs' Hv'). }
  destruct (findPTE_in _ _ _) as [a|].
  - destruct Hf as (s & Hs & Hg & -> & Ha). rewrite Ea in Ha. change (pt_mem t (addr s)) with (entry t s).
    assert (Huniq : forall s', slot_ok s' -> s' <> s -> s'.1 = s.1 -> get PTE.AVA (entry t s') <> Z.shiftr va 23).
    { intros s' Hs' Hn Hg' E. destruct (ok_uniq _ _ _ O s s' Hs Hs' (eq_sym Hg') ltac:(congruence)) as [->|Em]; [done|].
      rewrite Ha in Em. rewrite Em in H41. by apply mask_not_41 in H41. }
    assert (Hmap : forall x, maps t (ALIGN_PAGE_DOWN va) x -> get PTE.V (entry t s) = 1 /\ x_PN x = get PTE.PN (entry t s)).
    { intros x (s' & Hs' & Hv' & Hp' & <-). destruct (Hno s' Hs' Hv' Hp') as [Hg' Ha'].
      destruct (decide (s' = s)) as [->|Hn]; [done|]. exfalso. apply (Huniq s'); congruence || done. }
    destruct (get PTE.V (entry t s) =? 1) eqn:Ev; b2p.
    + destruct (pg =? get PTE.PN (entry t s)) eqn:Epn; b2p; cbn [obind].
      * destruct (Hwrite t s d O Hs Hg) as (t' & -> & O' & Hst & Hm); auto.
        split; [done|]. split; [intros x Hx; destruct (Hmap x Hx); congruence|].
        exists None. rewrite app_nil_r. split_and!; [|done|done]. intros pg' x. rewrite Hm. simpl. naive_solver.
      * split; [done|]. exists (xlat_of (entry t s)). split; [|simpl; congruence]. exists s.
        split; [done|]. split; [done|]. split; [|done]. unfold PtMgrInv.page. rewrite Ha. by apply Hpage.
    + cbn [obind]. destruct (Hwrite t s d2 O Hs Hg) as (t' & -> & O' & Hst & Hm); auto.
      split; [done|]. split; [intros x Hx; by destruct (Hmap x Hx)|].
      exists None. rewrite app_nil_r. split_and!; [|done|done]. intros pg' x. rewrite Hm. simpl. naive_solver.
  - assert (Hfree : forall s', slot_ok s' -> s'.1 = pteg_of va -> get PTE.AVA (entry t s') <> Z.shiftr va 23)
      by (intros s' Hs' Hg'; rewrite <-Ea; by apply Hf).
    assert (Hmap : forall x, ~ maps t (ALIGN_PAGE_DOWN va) x).
    { intros x (s' & Hs' & Hv' & Hp' & _). destruct (Hno s' Hs' Hv' Hp'). by apply (Hfree s'). }
    unfold findEmptyPTE. pose proof (find_group_spec endPreserved hrmor (fun p => get PTE.V p =? 0)
      (pteg_of va) t (pteg_bound va)) as He.
    destruct (find_entry_in _ _ _ _) as [a|]; cbn [obind].
    + destruct He as (s & Hs & Hg & -> & Hv). b2p. cbn [obind].
      destruct (Hwrite t s d2 O Hs Hg) as (t' & -> & O' & Hst & Hm); auto.
      { intros s' Hs' _ Hg'. apply Hfree; congruence. }
      { congruence. }
      split; [done|]. split; [intros x Hx; by apply Hmap in Hx|].
      exists None. rewrite app_nil_r. split_and!; [|done|done]. intros pg' x. rewrite Hm. simpl. naive_solver.
    + destruct (findOldPTE_spec endPreserved hrmor t (pteg_of va) (pteg_bound va)) as (s & Hs & Hg & -> & Hold).
      assert (Hfull : forall s', slot_ok s' -> s'.1 = pteg_of va -> get PTE.V (entry t s') = 1).
      { intros s' Hs' Hg'. specialize (He s' Hs' Hg'). b2p.
        destruct (bit_cases PTE.V (entry t s') eq_refl) as [?|?]; [congruence|done]. }
      pose proof (Hfull s Hs Hg) as Hv.
      destruct (delEntry_at_ok _ _ t s O Hs) as (t1 & -> & O1 & _ & Ho & Ha1 & Hv1 & Hm1 & Hst1).
      cbn [obind]. rewrite Hv in *. cbn [Z.eqb Pos.eqb] in Hst1.
      destruct (Hwrite t1 s d2 O1 Hs Hg) as (t' & -> & O' & Hst & Hm); auto.
      { intros s' Hs' Hn Hg'. rewrite Ho by done. apply Hfree; congruence. }
      { congruence. }
      split; [done|]. split; [intros x Hx; by apply Hmap in Hx|].
      exists (Some (page t s, report (entry t s))). split_and!.
      * intros pg' x. rewrite Hm, Hm1. simpl. split.
        -- intros [?|(Hn & Hne & Hx)]; [by left|right]. split_and!; [done| |done].
           intros [= ->]. by apply Hne.
        -- intros [?|(Hn & Hne & Hx)]; [by left|right]. split_and!; [done| |done].
           intros _ ->. by apply Hne.
      * rewrite Hst, Hst1. done.
      * intros v st [= <- <-]. exists s. rewrite Eg. split; [done|]. split; [done|]. split; [done|]. split; [done|].
        split; [|by rewrite Hg].
        intros s' Hs' Hg'. split; [by apply Hfull|]. intros E.
        destruct (Hno s' Hs' (Hfull s' Hs' Hg') E). by apply (Hfree s').
Qed.
End add.
