(* ===== verification/PtMgrThm.v ===== *)
(** * The page table: ranges, reachable states and theorems *)

From S2P Require Import Prelude Bitfield PageMgr PtMgr PtMgrInv PtMgrOps PtMgrAdd.

Section thm.
Context (endPreserved hrmor : Z) (Hhrmor : hrmor mod 128 = 0).
Implicit Types (t : PageTableManager) (s : Z * Z) (p : PageTableEntry).

Abbreviation addr := (PtMgrInv.addr endPreserved hrmor).
Abbreviation entry := (PtMgrInv.entry endPreserved hrmor).
Abbreviation page := (PtMgrInv.page endPreserved hrmor).
Abbreviation pt_ok := (PtMgrInv.pt_ok endPreserved hrmor).
Abbreviation maps := (PtMgrInv.maps endPreserved hrmor).
Abbreviation holds := (PtMgrInv.holds endPreserved hrmor).
Abbreviation quiet := (PtMgrInv.quiet endPreserved hrmor).
Abbreviation translate := (PtMgrAdd.translate endPreserved hrmor).

(** ** Ranges of addresses *)

(** The pages [_delRangeVA] visits. *)
Definition visited (start finish pg : Z) : Prop :=
  exists k, 0 <= k /\ start + k * PAGESIZE < finish /\ pg = ALIGN_PAGE_DOWN (start + k * PAGESIZE).

(** [t'] is [t] without the translations of the pages in [out]; one report per
    page that had one. *)
Record without t t' (out : Z -> Prop) : Prop := {
  wo_ok : pt_ok t';
  wo_maps pg x : maps t' pg x <-> maps t pg x /\ ~ out pg;
  wo_stats : exists l, pt_stats t' = pt_stats t ++ l /\ NoDup l.*1 /\
    forall pg, pg ∈ l.*1 <-> out pg /\ exists x, maps t pg x
}.

Lemma without_refl t : pt_ok t -> without t t (fun _ => False).
Proof.
  intros O. split; [done| |].
  - tauto.
  - exists []. rewrite app_nil_r. split_and!; [done|apply NoDup_nil_2|]. intros pg. simpl. set_solver.
Qed.

Lemma without_iff t t' out out' : (forall pg, out pg <-> out' pg) -> without t t' out -> without t t' out'.
Proof.
  intros H [W1 W2 W3]. split; [done| |].
  - intros. by rewrite W2, H.
  - destruct W3 as (l & E & Hn & Hl). exists l. split_and!; [done|done|]. intros pg. by rewrite Hl, H.
Qed.

Lemma without_trans t1 t2 t3 a b :
  without t1 t2 a -> without t2 t3 b -> without t1 t3 (fun pg => a pg \/ b pg).
Proof.
  intros [A1 A2 A3] [B1 B2 B3]. split; [done| |].
  - intros. rewrite B2, A2. tauto.
  - destruct A3 as (l1 & E1 & N1 & H1), B3 as (l2 & E2 & N2 & H2). exists (l1 ++ l2).
    split_and!; [by rewrite E2, E1, app_assoc| |].
    + rewrite fmap_app. apply NoDup_app. split_and!; [done| |done].
      intros pg Hp1 Hp2. apply H1 in Hp1 as [Ha _]. apply H2 in Hp2 as [_ [x Hx]]. by apply A2 in Hx as [_ Hx].
    + intros pg. rewrite fmap_app, elem_of_app, H1, H2. setoid_rewrite A2. split.
      * intros [[Ha Hx]|[Hb [x [Hx Hn]]]]; [by split; [left|]|]. split; [by right|by exists x].
      * intros [[Ha|Hb] [x Hx]]; [left; split; [done|by exists x]|].
        destruct (decide (pg ∈ l1.*1)) as [Hin|Hin]; [left; by apply H1|].
        right. split; [done|]. exists x. split; [done|]. intros Ha. apply Hin, H1. split; [done|by exists x].
Qed.

Lemma del_without t va :
  pt_ok t -> is_word 64 va ->
  exists t', _delEntry endPreserved hrmor va t = Done t' /\ without t t' (fun pg => pg = ALIGN_PAGE_DOWN va).
Proof.
  intros O Hva. destruct (delEntry_ok _ _ t va O Hva) as (t' & l & E & O' & Hm & Hst & Hl).
  exists t'. split; [done|]. split; [done| |].
  - intros. rewrite Hm. tauto.
  - exists l. split; [done|]. destruct Hl as [[Hx [st ->]]|[Hx ->]].
    + split; [apply NoDup_singleton|]. intros pg. simpl. rewrite list_elem_of_singleton. split; [intros ->; done|by intros [-> _]].
    + split; [apply NoDup_nil_2|]. intros pg. simpl. split; [set_solver|]. intros [-> [x Hx2]]. by apply Hx in Hx2.
Qed.

Lemma del_range_ok n va finish t :
  pt_ok t -> 0 <= va -> finish <= 2 ^ 64 - PAGESIZE -> finish - va <= Z.of_nat n * PAGESIZE ->
  exists t', del_range_loop endPreserved hrmor n va finish t = Done t' /\ without t t' (visited va finish).
Proof.
  unfold PAGESIZE. revert va t. induction n as [|n IH]; intros va t O Hva Hfin Hn; cbn [del_range_loop].
  - exists t. split; [done|]. eapply without_iff; [|by apply without_refl]. intros pg. split; [done|].
    intros (k & Hk & Hlt & _). unfold PAGESIZE in *. lia.
  - destruct (va <? finish) eqn:E; b2p.
    + destruct (del_without t va O) as (t1 & -> & W1); [split; lia|]. cbn [obind].
      unfold PAGESIZE. rewrite wrap_small by (split; lia).
      destruct (IH (va + 4096) t1 (wo_ok _ _ _ W1) ltac:(lia) Hfin ltac:(lia)) as (t2 & -> & W2).
      exists t2. split; [done|]. eapply without_iff; [|by eapply without_trans]. intros pg. simpl. split.
      * intros [->|(k & Hk & Hlt & ->)].
        -- exists 0. unfold PAGESIZE. split_and!; [lia|lia|]. f_equal. lia.
        -- exists (k + 1). unfold PAGESIZE in *. split_and!; [lia|lia|]. f_equal. lia.
      * intros (k & Hk & Hlt & ->). destruct (decide (k = 0)) as [->|]; [left; f_equal; unfold PAGESIZE; lia|].
        right. exists (k - 1). unfold PAGESIZE in *. split_and!; [lia|lia|]. f_equal. lia.
    + exists t. split; [done|]. eapply without_iff; [|by apply without_refl]. intros pg. split; [done|].
      intros (k & Hk & Hlt & _). unfold PAGESIZE in *. lia.
Qed.

(** ** Loops over the whole table *)

Definition slot_at (k : nat) : Z * Z := (Z.of_nat k / 8, Z.of_nat k mod 8).
Definition index s : Z := s.1 * 8 + s.2.

Lemma slot_at_ok k : Z.of_nat k < 16384 -> slot_ok (slot_at k).
Proof.
  intros Hk. unfold slot_ok, slot_at, is_word. simpl. Z.to_euclidean_division_equations. lia.
Qed.

Lemma slot_at_index k : index (slot_at k) = Z.of_nat k.
Proof. unfold index, slot_at. simpl. Z.to_euclidean_division_equations. lia. Qed.

Lemma index_inj s k : slot_ok s -> index s = Z.of_nat k -> s = slot_at k.
Proof.
  destruct s as [g i]. unfold slot_ok, index, slot_at. simpl. intros [_ Hi] E. f_equal;
    Z.to_euclidean_division_equations; lia.
Qed.

Lemma slot_at_addr k : addr (slot_at k) = PtMgrInv.tab endPreserved hrmor + Z.of_nat k * 16.
Proof.
  unfold PtMgrInv.addr, slot_at. simpl. pose proof (Z.div_mod (Z.of_nat k) 8). lia.
Qed.

Lemma index_bound s : slot_ok s -> 0 <= index s < 16384.
Proof. intros [[? ?] ?]. unfold index. simpl in *. lia. Qed.

Lemma for_ptes_from (P : nat -> PageTableManager -> Prop) op n k t :
  Z.of_nat k + Z.of_nat n <= 16384 ->
  (forall j t, Z.of_nat j < 16384 -> P j t -> exists t', op (addr (slot_at j)) t = Done t' /\ P (S j) t') ->
  P k t ->
  exists t', for_ptes n (PtMgrInv.tab endPreserved hrmor + Z.of_nat k * 16) op t = Done t' /\ P (k + n)%nat t'.
Proof.
  intros Hb Hop. revert k t Hb. induction n as [|n IH]; intros k t Hb Hk; cbn [for_ptes].
  - exists t. by rewrite Nat.add_0_r.
  - destruct (Hop k t ltac:(lia) Hk) as (t1 & E & H1). rewrite slot_at_addr in E. rewrite E. cbn [obind].
    change PTE_SIZE with 16.
    replace (PtMgrInv.tab endPreserved hrmor + Z.of_nat k * 16 + 16)
      with (PtMgrInv.tab endPreserved hrmor + Z.of_nat (S k) * 16) by lia.
    destruct (IH (S k) t1 ltac:(lia) H1) as (t2 & -> & H2). exists t2. split; [done|].
    by rewrite Nat.add_succ_r.
Qed.

Lemma num_ptes_eq : Z.of_nat num_ptes = 16384.
Proof. unfold num_ptes. rewrite Z2Nat.id; [done|]. by vm_compute. Qed.

Lemma for_ptes_ok (P : nat -> PageTableManager -> Prop) op t :
  (forall j t, Z.of_nat j < 16384 -> P j t -> exists t', op (addr (slot_at j)) t = Done t' /\ P (S j) t') ->
  P O t ->
  exists t', for_ptes num_ptes (PtMgrInv.tab endPreserved hrmor) op t = Done t' /\ P num_ptes t'.
Proof.
  intros Hop H0. destruct (for_ptes_from P op num_ptes 0 t) as (t' & E & H); [rewrite num_ptes_eq; lia|done|done|].
  exists t'. split; [|done]. by rewrite <-E, Z.add_0_r.
Qed.

(** Progress of such a loop: [k] entries are done. *)
Definition undone (k : nat) t t' : Prop :=
  forall s, slot_ok s -> Z.of_nat k <= index s -> entry t' s = entry t s.

Definition del_range lo hi (x : xlat) : Prop := lo <= x_PN x <= hi.

Record pn_state (t : PageTableManager) lo hi (k : nat) t' : Prop := {
  pn_ok : pt_ok t';
  pn_undone : undone k t t';
  pn_maps pg x : maps t' pg x <->
    maps t pg x /\ ~ (del_range lo hi x /\ exists s, holds t s pg x /\ index s < Z.of_nat k)
}.

Lemma del_pn_step t lo hi k t1 :
  pt_ok t -> Z.of_nat k < 16384 -> pn_state t lo hi k t1 ->
  exists t2, del_if_in endPreserved hrmor lo hi (addr (slot_at k)) t1 = Done t2 /\ pn_state t lo hi (S k) t2.
Proof.
  intros O Hk [O1 Hu Hm]. pose proof (slot_at_ok k Hk) as Hs. pose proof (slot_at_index k) as Hi.
  set (s := slot_at k) in *. assert (He : entry t1 s = entry t s) by (apply Hu; [done|lia]).
  unfold del_if_in. change (pt_mem t1 (addr s)) with (entry t1 s).
  assert (Hnext : forall pg x, holds t s pg x -> ~ del_range lo hi x -> True) by done. clear Hnext.
  assert (Hkeep : ~ (get PTE.V (entry t s) = 1 /\ del_range lo hi (xlat_of (entry t s))) ->
    forall pg x, maps t1 pg x <-> maps t pg x /\
      ~ (del_range lo hi x /\ exists s', holds t s' pg x /\ index s' < Z.of_nat (S k))).
  { intros Hn pg x. rewrite Hm. split; intros [Hx Hno]; (split; [done|]).
    - intros [Hd (s' & Hh & Hlt)]. destruct (decide (index s' = Z.of_nat k)) as [Ek|].
      + apply index_inj in Ek; [|apply Hh]. subst s'. apply Hn. destruct Hh as (_ & Hv & _ & <-). done.
      + apply Hno. split; [done|]. exists s'. split; [done|lia].
    - intros [Hd (s' & Hh & Hlt)]. apply Hno. split; [done|]. exists s'. split; [done|lia]. }
  rewrite He. destruct ((get PTE.V (entry t s) =? 1) && (lo <=? get PTE.PN (entry t s))
    && (get PTE.PN (entry t s) <=? hi)) eqn:E.
  - b2p. destruct (delEntry_at_ok _ _ t1 s O1 Hs) as (t2 & -> & O2 & _ & Ho & _ & _ & Hm2 & _).
    exists t2. split; [done|]. split; [done| |].
    + intros s' Hs' Hi'. assert (s' <> s) by (intros ->; lia). rewrite Ho by done. apply Hu; [done|lia].
    + intros pg x. rewrite Hm2, He, Hm. assert (Ep : page t1 s = page t s) by (unfold PtMgrInv.page; by rewrite He).
      rewrite Ep. assert (Hh : holds t s (page t s) (xlat_of (entry t s))) by done. split.
      * intros [Hne [Hx Hno]]. split; [done|]. intros [Hd (s' & Hh' & Hlt)].
        destruct (decide (index s' = Z.of_nat k)) as [Ek|].
        -- apply index_inj in Ek; [|apply Hh']. subst s'. apply Hne; [done|]. by destruct Hh' as (_ & _ & <- & _).
        -- apply Hno. split; [done|]. exists s'. split; [done|lia].
      * intros [Hx Hno]. split; [|split; [done|]].
        -- intros _ ->. apply Hno. destruct Hx as [s' Hx]. destruct (holds_unique _ _ _ _ _ _ _ _ O Hh Hx) as [<- <-].
           split; [done|]. exists s. split; [done|]. lia.
        -- intros [Hd (s' & Hh' & Hlt)]. apply Hno. split; [done|]. exists s'. split; [done|lia].
  - exists t1. split; [done|]. split; [done| |].
    + intros s' Hs' Hi'. apply Hu; [done|lia].
    + apply Hkeep. intros [Hv [Hd1 Hd2]]. simpl in *.
      rewrite Hv, (proj2 (Z.leb_le _ _) Hd1), (proj2 (Z.leb_le _ _) Hd2) in E. done.
Qed.

Lemma delRangePN_ok t lo hi :
  pt_ok t ->
  exists t', _delRangePN endPreserved hrmor lo hi t = Done t' /\ pt_ok t' /\
    forall pg x, maps t' pg x <-> maps t pg x /\ ~ lo <= x_PN x <= hi.
Proof.
  intros O. unfold _delRangePN. rewrite (getAddress_kernel _ _ _ (ok_kernel _ _ _ O)).
  destruct (for_ptes_ok (pn_state t lo hi) (del_if_in endPreserved hrmor lo hi) t) as (t' & E & [O' _ Hm]).
  - intros j t1 Hj. by apply del_pn_step.
  - split; [done|done|]. intros pg x. split; [|tauto]. intros Hx. split; [done|].
    intros [_ (s & Hh & Hlt)]. pose proof (index_bound s (proj1 Hh)). lia.
  - exists t'. split_and!; [done|done|]. intros pg x. rewrite Hm, num_ptes_eq. split; intros [Hx Hn]; (split; [done|]).
    + intros Hd. apply Hn. split; [done|]. destruct Hx as [s Hh]. exists s. split; [done|]. by apply index_bound, Hh.
    + intros [Hd _]. done.
Qed.

(** ** Flush *)

Record flush_state (t : PageTableManager) (k : nat) t' : Prop := {
  fl_quiet : quiet t t';
  fl_undone : undone k t t';
  fl_clear s : slot_ok s -> index s < Z.of_nat k -> get PTE.V (entry t' s) = 1 -> get PTE.R (entry t' s) = 0
}.

Lemma flush_step t k t1 :
  Z.of_nat k < 16384 -> flush_state t k t1 ->
  exists t2, push_if_valid endPreserved hrmor (addr (slot_at k)) t1 = Done t2 /\ flush_state t (S k) t2.
Proof.
  intros Hk [Q Hu Hc]. pose proof (slot_at_ok k Hk) as Hs. pose proof (slot_at_index k) as Hi.
  set (s := slot_at k) in *. unfold push_if_valid. change (pt_mem t1 (addr s)) with (entry t1 s).
  destruct (bit_cases PTE.V (entry t1 s) eq_refl) as [Hv|Hv]; rewrite Hv; cbn [Z.eqb negb].
  - exists t1. split; [done|]. split; [done| |].
    + intros s' Hs' Hi'. apply Hu; [done|lia].
    + intros s' Hs' Hlt Hv'. destruct (decide (index s' = Z.of_nat k)) as [Ek|]; [|apply Hc; [done|lia|done]].
      apply index_inj in Ek; [|done]. subst s'. fold s in Hv'. congruence.
  - pose proof (q_ok _ _ _ _ Q) as O1. destruct (ok_wf _ _ _ O1 s Hs Hv) as [Ha _].
    destruct (pushUsageStats_ok _ _ t1 s (ok_kernel _ _ _ O1) Hs Ha) as (t2 & p' & -> & St & Sm & Hr & _ & _).
    exists t2. split; [done|].
    assert (Ho : forall s', slot_ok s' -> s' <> s -> entry t2 s' = entry t1 s') by (intros; by eapply step_other).
    split.
    + eapply quiet_trans; [exact Q|]. eapply step_quiet; eauto.
      destruct (bit_cases PTE.R (entry t1 s) eq_refl) as [E| E]; rewrite E; [right; right; done|by left].
    + intros s' Hs' Hi'. rewrite Ho by (done || intros ->; lia). apply Hu; [done|lia].
    + intros s' Hs' Hlt Hv'. destruct (decide (s' = s)) as [->|Hn].
      * by rewrite (step_entry _ _ _ _ _ _ _ St).
      * rewrite Ho in * by done. apply Hc; [done| |done].
        destruct (decide (index s' = Z.of_nat k)) as [Ek|]; [|lia]. by apply index_inj in Ek.
Qed.

Lemma flush_ok t :
  pt_ok t ->
  exists t', _flush endPreserved hrmor t = Done t' /\ quiet t t' /\ (forall pg, pt_tlb t' pg = None).
Proof.
  intros O. unfold _flush. rewrite (ok_kernel _ _ _ O). cbn [Z.eqb negb].
  rewrite (getAddress_kernel _ _ _ (ok_kernel _ _ _ O)).
  destruct (for_ptes_ok (flush_state t) (push_if_valid endPreserved hrmor) t) as (t' & E & [Q _ Hc]).
  - intros j t1 Hj. by apply flush_step.
  - split; [by apply quiet_refl|done|]. intros s Hs Hlt. pose proof (index_bound s Hs). lia.
  - exists t'. split_and!; [done|done|]. intros pg. destruct (pt_tlb t' pg) as [x|] eqn:Et; [|done].
    destruct (ok_tlb _ _ _ (q_ok _ _ _ _ Q) pg x Et) as (s & Hh & Hr).
    destruct Hh as (Hs & Hv & _). rewrite num_ptes_eq in Hc. rewrite Hc in Hr by (done || by apply index_bound). done.
Qed.

(** ** The initial table *)

Record init_state (k : nat) t' : Prop := {
  is_table : ivTABLE t' = 0;
  is_tlb pg : pt_tlb t' pg = None;
  is_done s : slot_ok s -> index s < Z.of_nat k ->
    get PTE.V (entry t' s) = 0 /\ get PTE.AVA (entry t' s) = PTE_AVA_MASK
}.

Lemma pt_new_ok idle mem :
  exists t, pt_new endPreserved hrmor idle mem = Done t /\ pt_ok t /\ forall pg x, ~ maps t pg x.
Proof.
  unfold pt_new, invalidatePT. rewrite getAddress_kernel by done.
  destruct (for_ptes_ok init_state invalidate_one
    (mkPT 0 (Z.lor (ALIGN_PAGE_DOWN idle / PAGESIZE) (hrmor / PAGESIZE)) mem (fun _ => None) [])) as (t' & E & [T1 T2 T3]).
  - intros j t1 Hj [I1 I2 I3]. eexists. split; [done|].
    pose proof (slot_at_ok j Hj) as Hs. split; [done|done|]. intros s Hs' Hlt.
    unfold PtMgrInv.entry. simpl. unfold upd. destruct (addr s =? addr (slot_at j)) eqn:Ea; b2p.
    + rewrite Z.eqb_refl. fields. done.
    + apply I3; [done|]. destruct (decide (index s = Z.of_nat j)) as [Ej|]; [|lia].
      apply index_inj in Ej as ->; [done|done].
  - split; [done|done|]. intros s Hs Hlt. pose proof (index_bound s Hs). lia.
  - exists t'. rewrite num_ptes_eq in T3.
    assert (Hv : forall s, slot_ok s -> get PTE.V (entry t' s) = 0 /\ get PTE.AVA (entry t' s) = PTE_AVA_MASK)
      by (intros s Hs; apply T3; [done|by apply index_bound]).
    split_and!; [done| |].
    + split; [done| | |].
      * intros s s' Hs _ _ _. right. by apply Hv.
      * intros s Hs Hx. destruct (Hv s Hs). congruence.
      * intros pg x. by rewrite T2.
    + intros pg x (s & Hs & Hx & _). destruct (Hv s Hs). congruence.
Qed.
End thm.
