(* ===== verification/PtMgrClaims.v ===== *)
(** * The page table: theorems

    The table as a transition system: the operations of the page table manager
    and the accesses of the processor, from the table of the constructor. *)

From S2P Require Import Prelude Bitfield PageMgr PtMgr PtMgrInv PtMgrOps PtMgrAdd PtMgrThm.

Section system.
Context (endPreserved hrmor : Z).

(** The processor uses a translation: it sets the reference bit of the entry
    and keeps the translation. *)
Definition hw_access (va : Z) (t : PageTableManager) : PageTableManager :=
  match hw_search endPreserved hrmor va t with
  | Some a =>
      let t := put a (set PTE.R 1 (pt_mem t a)) t in
      with_tlb (upd (pt_tlb t) (ALIGN_PAGE_DOWN va) (Some (xlat_of (pt_mem t a)))) t
  | None => t
  end.

(** The page number [addEntry] uses. *)
Definition real_page (i_page acc : Z) : Z :=
  if negb (acc =? CI_ACCESS) && (Z.land BYPASS_HRMOR acc =? 0) then Z.lor i_page (hrmor / PAGESIZE) else i_page.

Inductive pt_step : PageTableManager -> PageTableManager -> Prop :=
| ps_add t va pg acc junk t' :
    is_word 64 va -> is_word 45 pg -> addEntry endPreserved hrmor va pg acc junk t = Done t' -> pt_step t t'
| ps_del t va t' : is_word 64 va -> _delEntry endPreserved hrmor va t = Done t' -> pt_step t t'
| ps_delVA t start finish t' :
    0 <= start -> finish <= 2 ^ 64 - PAGESIZE ->
    _delRangeVA endPreserved hrmor start finish t = Done t' -> pt_step t t'
| ps_delPN t lo hi b t' : delRangePN endPreserved hrmor lo hi b t = Done t' -> pt_step t t'
| ps_flush t t' : _flush endPreserved hrmor t = Done t' -> pt_step t t'
| ps_access t va : is_word 64 va -> pt_step t (hw_access va t).

(** The states after the constructor, for an idle task's function at [idle]. *)
Definition reachable (idle : Z) (mem : Z -> PageTableEntry) (t : PageTableManager) : Prop :=
  exists t0, pt_new endPreserved hrmor idle mem = Done t0 /\ rtc pt_step t0 t.

Context (Hhrmor : hrmor mod 128 = 0) (Hword : is_word 57 hrmor).

Lemma real_page_word pg acc : is_word 45 pg -> is_word 45 (real_page pg acc).
Proof.
  intros Hp. unfold real_page. destruct (_ && _); [|done]. unfold PAGESIZE.
  assert (Hq : is_word 45 (hrmor / 4096)).
  { destruct Hword. split; [by apply Z.div_pos|]. apply Z.div_lt_upper_bound; lia. }
  apply word_of_bits; [lia|apply Z.lor_nonneg; split; [apply Hp|apply Hq]|].
  intros i Hi. rewrite Z.lor_spec, !(word_bits_high 45) by (done || lia). done.
Qed.

Lemma hw_access_ok va t :
  pt_ok endPreserved hrmor t -> is_word 64 va ->
  pt_ok endPreserved hrmor (hw_access va t).
Proof.
  intros O Hva. unfold hw_access. pose proof O as O0.
  unfold hw_search. rewrite (group_start _ _ _ _ (ok_kernel _ _ _ O) Hva).
  pose proof (find_group_spec endPreserved hrmor (hw_match va) (pteg_of va) t (pteg_bound va)) as Hf.
  destruct (find_entry_in _ _ _ _) as [a|]; [|done].
  destruct Hf as (s & Hs & Hg & -> & Hm). unfold hw_match in Hm. b2p.
  set (p' := set PTE.R 1 (pt_mem t (addr endPreserved hrmor s))).
  pose proof (put_step endPreserved hrmor t s p') as St.
  set (t1 := put (addr endPreserved hrmor s) p' t) in *.
  assert (Q : quiet endPreserved hrmor t t1).
  { eapply step_quiet; eauto; [subst p'; unfold same_xlat, xlat_of; fields; split_and!; done|].
    right. right. intros _. subst p'. by fields. }
  assert (He : entry endPreserved hrmor t1 s = p') by (by eapply step_entry).
  destruct (q_ok _ _ _ _ Q) as [K1 K2 K3 K4]. split; [done|done|done|].
  intros pg x. cbn [pt_tlb with_tlb]. unfold upd. destruct (pg =? ALIGN_PAGE_DOWN va) eqn:E; b2p.
  - intros Hx. apply (inj Some) in Hx. exists s. change (entry endPreserved hrmor (with_tlb _ t1) s) with (entry endPreserved hrmor t1 s).
    split; [split; [done|]|rewrite He; subst p'; by fields].
    unfold page. change (entry endPreserved hrmor (with_tlb _ t1) s) with (entry endPreserved hrmor t1 s).
    rewrite He. split; [subst p'; by fields|]. split; [|rewrite <-Hx; change (pt_mem t1 (addr endPreserved hrmor s)) with (entry endPreserved hrmor t1 s); by rewrite He].
    subst pg p'. fields. by apply (slot_of_page _ _ t s va O Hva Hs H).
  - intros Hx. destruct (K4 pg x Hx) as (s' & Hh & Hr). by exists s'.
Qed.

Lemma delRangeVA_ok t start finish :
  pt_ok endPreserved hrmor t -> 0 <= start -> finish <= 2 ^ 64 - PAGESIZE ->
  exists t', _delRangeVA endPreserved hrmor start finish t = Done t' /\
    without endPreserved hrmor t t' (visited start finish).
Proof.
  intros O Hs Hf. unfold _delRangeVA. apply del_range_ok; try done.
  unfold PAGESIZE. destruct (Z.le_gt_cases start finish).
  - rewrite Z2Nat.id; Z.to_euclidean_division_equations; lia.
  - lia.
Qed.

Lemma pt_step_ok t t' : pt_step t t' -> pt_ok endPreserved hrmor t -> pt_ok endPreserved hrmor t'.
Proof.
  intros St O. destruct St as [t va pg acc junk t' Hva Hpg E|t va t' Hva E|t start finish t' H1 H2 E|t lo hi b t' E|t t' E|t va Hva].
  - unfold addEntry in E. fold (real_page pg acc) in E.
    pose proof (addEntry_ok _ _ Hhrmor t va (real_page pg acc) acc junk O Hva (real_page_word pg acc Hpg)) as H.
    rewrite E in H. apply H.
  - destruct (del_without _ _ Hhrmor t va O Hva) as (t2 & E2 & W). rewrite E in E2. injection E2 as ->. apply W.
  - destruct (delRangeVA_ok t start finish O H1 H2) as (t2 & E2 & W). rewrite E in E2. injection E2 as ->. apply W.
  - unfold delRangePN in E. destruct b;
      match type of E with _delRangePN _ _ ?a ?b _ = _ =>
        destruct (delRangePN_ok _ _ t a b O) as (t2 & E2 & O2 & _) end;
      rewrite E in E2; by injection E2 as ->.
  - destruct (flush_ok _ _ t O) as (t2 & E2 & Q & _). rewrite E in E2. injection E2 as ->. apply Q.
  - by apply hw_access_ok.
Qed.

Lemma reachable_ok idle mem t : reachable idle mem t -> pt_ok endPreserved hrmor t.
Proof.
  intros (t0 & E & Hr). destruct (pt_new_ok endPreserved hrmor idle mem) as (t1 & E1 & O & _).
  rewrite E in E1. injection E1 as ->. clear E. induction Hr as [|x y z Hs _ IH]; [done|]. apply IH. by eapply pt_step_ok.
Qed.
End system.

(** ** Theorems *)

(** C26: In every state the kernel's page table can reach by adding and removing
    entries, flushing, and accesses of the processor, the processor keeps no
    stale translation: whatever it has cached for a page is what a search of the
    table would find for every address of the page, and the entry is marked as
    referenced. *)
Theorem tlb_coherent endPreserved hrmor idle mem t pg x va :
  hrmor mod 128 = 0 -> is_word 57 hrmor -> reachable endPreserved hrmor idle mem t ->
  pt_tlb t pg = Some x -> is_word 64 va -> ALIGN_PAGE_DOWN va = pg ->
  translate endPreserved hrmor va t = Some x /\
  exists a, hw_search endPreserved hrmor va t = Some a /\ get PTE.R (pt_mem t a) = 1.
Proof.
  intros Hh Hw Hr Ht Hva <-. pose proof (reachable_ok _ _ Hh Hw idle mem t Hr) as O.
  destruct (ok_tlb _ _ _ O _ x Ht) as (s & Hs & HR).
  assert (Hx : translate endPreserved hrmor va t = Some x) by (apply translate_maps; [done|done|by exists s]).
  split; [done|]. unfold translate, hw_search in *. rewrite (group_start _ _ _ _ (ok_kernel _ _ _ O) Hva) in *.
  pose proof (find_group_spec endPreserved hrmor (hw_match va) (pteg_of va) t (pteg_bound va)) as Hf.
  destruct (find_entry_in _ _ _ _) as [a|]; [|done]. exists a. split; [done|].
  destruct Hf as (s' & Hs' & Hg & -> & Hm). unfold hw_match in Hm. b2p.
  destruct Hs as (Hs1 & Hv1 & Hp1 & Hx1). apply slot_of_page in Hp1 as [Hg1 Ha1]; [|done..].
  destruct (ok_uniq _ _ _ O s s' Hs1 Hs' ltac:(congruence) ltac:(congruence)) as [<-|E]; [done|].
  destruct (ok_wf _ _ _ O s Hs1 Hv1) as [W _]. rewrite E in W. by apply mask_not_41 in W.
Qed.

(** C27: Adding an entry in a reachable state.  The call asserts exactly when the
    page is mapped to another real page.  Otherwise the processor finds the new
    translation, with the protection of the access type, and every other page
    keeps its translation but for at most one: that one was in a full group, is
    the entry with the highest usage count outside the idle task's pages, and
    is reported with its usage bits. *)
Theorem addEntry_correct endPreserved hrmor idle mem t va pg acc junk :
  hrmor mod 128 = 0 -> is_word 57 hrmor -> reachable endPreserved hrmor idle mem t ->
  is_word 64 va -> is_word 45 pg ->
  let rp := real_page hrmor pg acc in
  match addEntry endPreserved hrmor va pg acc junk t with
  | Crash f => f = KAssert /\ exists x, translate endPreserved hrmor va t = Some x /\ x_PN x <> rp
  | Done t' =>
      (forall x, translate endPreserved hrmor va t = Some x -> x_PN x = rp) /\
      exists victim : option (Z * UsageStats_t),
        (forall va', is_word 64 va' ->
           translate endPreserved hrmor va' t' =
             if decide (ALIGN_PAGE_DOWN va' = ALIGN_PAGE_DOWN va)
             then Some (access_xlat rp acc (get PTE.N junk))
             else if decide (Some (ALIGN_PAGE_DOWN va') = (fst <$> victim)) then None
             else translate endPreserved hrmor va' t) /\
        pt_stats t' = pt_stats t ++ option_list victim /\
        forall v st, victim = Some (v, st) -> evicted endPreserved hrmor t (ALIGN_PAGE_DOWN va) v st
  end.
Proof.
  intros Hh Hw Hr Hva Hpg rp. pose proof (reachable_ok _ _ Hh Hw idle mem t Hr) as O.
  pose proof (addEntry_ok _ _ Hh t va rp acc junk O Hva (real_page_word _ Hw pg acc Hpg)) as Ha.
  unfold addEntry. fold (real_page hrmor pg acc). fold rp.
  destruct (_addEntry endPreserved hrmor va rp acc junk t) as [t'|f].
  - destruct Ha as (O' & Hsame & victim & Hm & Hst & Hev). split.
    { intros x Hx. by apply Hsame, translate_maps. }
    exists victim. split_and!; [|done|done]. intros va' Hva'. apply option_eq. intros x.
    rewrite translate_maps, Hm by done.
    destruct (decide (ALIGN_PAGE_DOWN va' = ALIGN_PAGE_DOWN va)) as [E|E]; [naive_solver|].
    destruct (decide (Some (ALIGN_PAGE_DOWN va') = (fst <$> victim))) as [E2|E2]; [naive_solver|].
    rewrite translate_maps by done. naive_solver.
  - destruct Ha as (-> & x & Hx & Hn). split; [done|]. exists x. by rewrite translate_maps.
Qed.

(** Removing the entries of a range of addresses returns; afterwards the
    processor finds no translation for the pages visited and the old ones for
    all others, and exactly the visited pages that were mapped are reported, each
    once. *)
Theorem delRangeVA_correct endPreserved hrmor idle mem t start finish :
  hrmor mod 128 = 0 -> is_word 57 hrmor -> reachable endPreserved hrmor idle mem t ->
  0 <= start -> finish <= 2 ^ 64 - PAGESIZE ->
  exists t' l, _delRangeVA endPreserved hrmor start finish t = Done t' /\
    (forall va, is_word 64 va -> visited start finish (ALIGN_PAGE_DOWN va) -> translate endPreserved hrmor va t' = None) /\
    (forall va, is_word 64 va -> ~ visited start finish (ALIGN_PAGE_DOWN va) ->
       translate endPreserved hrmor va t' = translate endPreserved hrmor va t) /\
    pt_stats t' = pt_stats t ++ l /\ NoDup l.*1 /\
    forall va, is_word 64 va -> ALIGN_PAGE_DOWN va ∈ l.*1 <->
      visited start finish (ALIGN_PAGE_DOWN va) /\ is_Some (translate endPreserved hrmor va t).
Proof.
  intros Hh Hw Hr Hs Hf. pose proof (reachable_ok _ _ Hh Hw idle mem t Hr) as O.
  destruct (delRangeVA_ok _ _ Hh t start finish O Hs Hf) as (t' & -> & [O' Hm (l & Hst & Hnd & Hl)]).
  exists t', l. split_and!; [done| | |done|done|].
  - intros va Hva Hv. destruct (translate endPreserved hrmor va t') as [x|] eqn:E; [|done].
    apply translate_maps, Hm in E as [_ E]; [|done..]. by destruct E.
  - intros va Hva Hv. apply option_eq. intros x. rewrite !translate_maps, Hm by done. tauto.
  - intros va Hva. rewrite Hl. unfold is_Some. by setoid_rewrite (translate_maps _ _ t va).
Qed.

(** Removing the entries of a range of real pages returns; afterwards the
    processor finds exactly the old translations to pages outside the range, and
    flushing keeps all translations and leaves the processor none cached. *)
Theorem delRangePN_correct endPreserved hrmor idle mem t lo hi b :
  hrmor mod 128 = 0 -> is_word 57 hrmor -> reachable endPreserved hrmor idle mem t ->
  let adj x := if b : bool then Z.lor x (hrmor / PAGESIZE) else x in
  (exists t', delRangePN endPreserved hrmor lo hi b t = Done t' /\
    forall va x, is_word 64 va -> translate endPreserved hrmor va t' = Some x <->
      translate endPreserved hrmor va t = Some x /\ ~ adj lo <= x_PN x <= adj hi) /\
  (exists t', _flush endPreserved hrmor t = Done t' /\
    (forall va, is_word 64 va -> translate endPreserved hrmor va t' = translate endPreserved hrmor va t) /\
    forall pg, pt_tlb t' pg = None).
Proof.
  intros Hh Hw Hr adj. pose proof (reachable_ok _ _ Hh Hw idle mem t Hr) as O. split.
  - destruct (delRangePN_ok _ _ t (adj lo) (adj hi) O) as (t' & E & O' & Hm). exists t'.
    split; [subst adj; unfold delRangePN; by destruct b|]. intros va x Hva. by rewrite !translate_maps, Hm.
  - destruct (flush_ok _ _ t O) as (t' & E & Q & Hn). exists t'. split_and!; [done| |done].
    intros va Hva. apply option_eq. intros x. rewrite !translate_maps by (done || apply Q).
    apply (quiet_maps _ _ _ _ _ _ Q).
Qed.

(** The virtual address computed back from an entry's place and its
    abbreviated address is the page the entry was made for, whatever the page. *)
Theorem virt_addr_roundtrip endPreserved hrmor idle mem t va a :
  hrmor mod 128 = 0 -> is_word 57 hrmor -> reachable endPreserved hrmor idle mem t -> is_word 64 va ->
  findPTE endPreserved hrmor va t = Done (Some a) ->
  getVirtAddrFromPTE endPreserved hrmor a t = Done (ALIGN_PAGE_DOWN va).
Proof.
  intros Hh Hw Hr Hva. pose proof (reachable_ok _ _ Hh Hw idle mem t Hr) as O.
  unfold findPTE. rewrite (group_start _ _ _ _ (ok_kernel _ _ _ O) Hva). cbn [obind]. intros E.
  pose proof (findPTE_in_spec endPreserved hrmor va t) as Hf.
  destruct (findPTE_in _ _ _) as [a'|]; [|done]. injection E as ->. destruct Hf as (s & Hs & Hg & -> & Ha).
  pose proof (shiftr_41 va Hva) as H41. rewrite getVirt_ok; [|apply O|done|by rewrite Ha].
  f_equal. unfold page. rewrite Ha, Hg. by apply page_of_pteg.
Qed.

(** The access type read back from the bits that were set: cache inhibited,
    read only, writable and executable come back as they are (with the first of
    these that is given, guarded or not), anything else as no access; the status
    query does not assert. *)
Theorem access_roundtrip p acc :
  getAccessType (setAccessBits p acc) =
    Done (if acc =? CI_ACCESS then CI_ACCESS
          else if has acc READ_ONLY then READ_ONLY
          else if has acc WRITABLE then WRITABLE
          else if has acc EXECUTABLE then EXECUTABLE else NO_ACCESS).
Proof.
  pose proof (setAccess_xlat p acc) as Hx. unfold xlat_of, access_xlat in Hx. unfold getAccessType.
  destruct (acc =? CI_ACCESS); [injection Hx as H1 H2 H3 H4 H5; by rewrite H2, H3, H4|].
  destruct (has acc GUARDED), (has acc READ_ONLY), (has acc WRITABLE), (has acc EXECUTABLE);
    injection Hx as H1 H2 H3 H4 H5; rewrite H2, H3, H4, ?H5; reflexivity.
Qed.

(** Extraction of the bits [start] to [last] (counted from the left) of a
    value of up to 128 bits, of which only the last 64 are not zero. *)
Theorem EXTRACT_RJ_LEN_correct w len start last :
  is_word 64 w -> 0 <= start <= last -> last < len -> last - start < 64 -> len <= 128 ->
  EXTRACT_RJ_LEN w len start last = Done ((w / 2 ^ (len - 1 - last)) mod 2 ^ (last - start + 1)).
Proof. intros. rewrite EXTRACT_bits by done. by rewrite get_bits_eq by lia. Qed.

(** ** Witnesses: the table after boot with the HRMOR at 128 MB *)

Definition boot_hrmor : Z := 128 * 1024 * 1024.
Definition no_pte : PageTableEntry := mkPte 0 0.

Lemma boot_hrmor_ok : boot_hrmor mod 128 = 0 /\ is_word 57 boot_hrmor.
Proof. by vm_compute. Qed.

Lemma boot_table : exists t, reachable 0 boot_hrmor 0x12b60 (fun _ => no_pte) t /\
  pt_ok 0 boot_hrmor t /\ forall pg x, ~ maps 0 boot_hrmor t pg x.
Proof.
  destruct (pt_new_ok 0 boot_hrmor 0x12b60 (fun _ => no_pte)) as (t & E & O & Hn).
  exists t. split; [|exact (conj O Hn)]. exists t. split; [exact E|apply rtc_refl].
Qed.

(** A table with one page mapped and used by the processor. *)
Lemma used_table : exists t x, reachable 0 boot_hrmor 0x12b60 (fun _ => no_pte) t /\
  pt_tlb t 0x5000 = Some x.
Proof.
  destruct boot_table as (t & (t0 & E & Hr) & O & Hn). destruct boot_hrmor_ok as [H1 H2].
  assert (Hw : is_word 64 0x5000) by by vm_compute.
  assert (Hp : is_word 45 (real_page boot_hrmor 7 WRITABLE)) by by vm_compute.
  pose proof (addEntry_ok 0 boot_hrmor H1 t 0x5000 (real_page boot_hrmor 7 WRITABLE) WRITABLE no_pte O Hw Hp) as Ha.
  destruct (_addEntry 0 boot_hrmor 0x5000 (real_page boot_hrmor 7 WRITABLE) WRITABLE no_pte t) as [t1|f] eqn:Ea.
  2:{ destruct Ha as (_ & x & Hx & _). destruct (Hn _ _ Hx). }
  destruct Ha as (O1 & _ & victim & Hm & _).
  set (x := access_xlat (real_page boot_hrmor 7 WRITABLE) WRITABLE (get PTE.N no_pte)) in *.
  assert (Ht : translate 0 boot_hrmor 0x5000 t1 = Some x).
  { apply translate_maps; [exact O1|exact Hw|]. apply Hm. left. split; reflexivity. }
  unfold translate in Ht. destruct (hw_search 0 boot_hrmor 0x5000 t1) as [a|] eqn:Es; [|done].
  exists (hw_access 0 boot_hrmor 0x5000 t1). 
  exists (xlat_of (set PTE.R 1 (pt_mem t1 a))). split.
  2:{ unfold hw_access. rewrite Es. cbn [pt_tlb with_tlb put with_mem pt_mem].
      change (ALIGN_PAGE_DOWN 0x5000) with 0x5000. by rewrite !upd_eq. }
  exists t0. split; [exact E|].
  etrans; [exact Hr|]. eapply rtc_l; [|apply rtc_once, ps_access; exact Hw].
  apply (ps_add _ _ _ 0x5000 7 WRITABLE no_pte); [exact Hw|by vm_compute|]. exact Ea.
Qed.

Example tlb_coherent_witness : exists t x,
  pt_tlb t 0x5000 = Some x /\ translate 0 boot_hrmor 0x5abc t = Some x.
Proof.
  destruct used_table as (t & x & Hr & Ht). exists t, x. split; [exact Ht|].
  exact (proj1 (tlb_coherent 0 boot_hrmor 0x12b60 (fun _ => no_pte) t 0x5000 x 0x5abc
    (proj1 boot_hrmor_ok) (proj2 boot_hrmor_ok) Hr Ht ltac:(vm_compute; split; congruence) eq_refl)).
Defined.

Example addEntry_correct_witness : exists t,
  match addEntry 0 boot_hrmor 0x5000 7 WRITABLE no_pte t with
  | Crash _ => exists x, translate 0 boot_hrmor 0x5000 t = Some x
  | Done t' => exists victim : option (Z * UsageStats_t), pt_stats t' = pt_stats t ++ option_list victim
  end.
Proof.
  destruct boot_table as (t & Hr & _). exists t.
  pose proof (addEntry_correct 0 boot_hrmor 0x12b60 (fun _ => no_pte) t 0x5000 7 WRITABLE no_pte
    (proj1 boot_hrmor_ok) (proj2 boot_hrmor_ok) Hr ltac:(vm_compute; split; congruence)
    ltac:(vm_compute; split; congruence)) as H. cbv zeta in H.
  destruct (addEntry 0 boot_hrmor 0x5000 7 WRITABLE no_pte t) as [t'|f].
  - destruct H as (_ & victim & _ & Hst & _). exists victim. exact Hst.
  - destruct H as (_ & x & Hx & _). exists x. exact Hx.
Defined.

Example delRangeVA_correct_witness : exists t t',
  _delRangeVA 0 boot_hrmor 0x5000 0x7000 t = Done t' /\ translate 0 boot_hrmor 0x6010 t' = None.
Proof.
  destruct boot_table as (t & Hr & _). exists t.
  destruct (delRangeVA_correct 0 boot_hrmor 0x12b60 (fun _ => no_pte) t 0x5000 0x7000
    (proj1 boot_hrmor_ok) (proj2 boot_hrmor_ok) Hr ltac:(lia) ltac:(vm_compute; congruence))
    as (t' & l & E & Hn & _).
  exists t'. split; [exact E|]. apply Hn; [vm_compute; split; congruence|].
  exists 1. split; [lia|]. split; [vm_compute; reflexivity|vm_compute; reflexivity].
Defined.

Example delRangePN_correct_witness : exists t t',
  _flush 0 boot_hrmor t = Done t' /\ pt_tlb t' 0x5000 = None.
Proof.
  destruct used_table as (t & x & Hr & _). exists t.
  destruct (proj2 (delRangePN_correct 0 boot_hrmor 0x12b60 (fun _ => no_pte) t 0 10 true
    (proj1 boot_hrmor_ok) (proj2 boot_hrmor_ok) Hr)) as (t' & E & _ & Hn).
  exists t'. exact (conj E (Hn 0x5000)).
Defined.

Example EXTRACT_RJ_LEN_correct_witness : EXTRACT_RJ_LEN 0x123456789abcdef0 78 24 37 = Done 0x3456.
Proof.
  rewrite (EXTRACT_RJ_LEN_correct 0x123456789abcdef0 78 24 37); [vm_compute; reflexivity|..];
    try (vm_compute; split; congruence); vm_compute; congruence || reflexivity.
Defined.

Example virt_addr_roundtrip_witness : exists t a,
  findPTE 0 boot_hrmor 0x5abc t = Done (Some a) /\ getVirtAddrFromPTE 0 boot_hrmor a t = Done 0x5000.
Proof.
  destruct used_table as (t & x & Hr & Ht).
  pose proof (reachable_ok _ _ (proj1 boot_hrmor_ok) (proj2 boot_hrmor_ok) _ _ _ Hr) as O.
  assert (Hw : is_word 64 0x5abc) by (vm_compute; split; congruence).
  destruct (findPTE 0 boot_hrmor 0x5abc t) as [[a|]|f] eqn:E.
  - exists t, a. split; [reflexivity || exact E|].
    exact (virt_addr_roundtrip 0 boot_hrmor 0x12b60 (fun _ => no_pte) t 0x5abc a
      (proj1 boot_hrmor_ok) (proj2 boot_hrmor_ok) Hr Hw E).
  - exfalso. unfold findPTE in E. rewrite (group_start _ _ _ _ (ok_kernel _ _ _ O) Hw) in E. cbn [obind] in E.
    pose proof (findPTE_in_spec 0 boot_hrmor 0x5abc t) as Hf. injection E as E. rewrite E in Hf.
    destruct (ok_tlb _ _ _ O _ _ Ht) as (s & (Hs & Hv & Hp & _) & _).
    apply (slot_of_page 0 boot_hrmor t s 0x5abc O Hw Hs Hv) in Hp as [Hg Ha]. exact (Hf s Hs Hg Ha).
  - exfalso. unfold findPTE in E. rewrite (group_start _ _ _ _ (ok_kernel _ _ _ O) Hw) in E. discriminate.
Defined.
