(* ===== verification/Sched.v ===== *)
(** * The scheduler and the sleeping tasks ([src/kernel/scheduler.C], [timemgr.C])

    Tasks are named by numbers.  A processor has a current task, an idle task
    (never queued), a queue of its own for pinned tasks and a queue of sleeping
    tasks; the global run queue is shared.  All operations run on a processor
    [c], the one whose registers the code reads. *)

From S2P Require Import Prelude Containers.

(** [Util::Locked::Queue::insert] and [remove], on the list from head to tail. *)
Module Queue.
Definition insert {A} (x : A) (q : list A) : list A := x :: q.
Definition remove {A} (q : list A) : option A * list A :=
  match last q with None => (None, q) | Some x => (Some x, removelast q) end.

Lemma remove_tail {A} (q : list A) :
  match remove q with
  | (Some x, q') => q = q' ++ [x]
  | (None, q') => q = [] /\ q' = []
  end.
Proof. apply (PQueue.remove_spec q). Qed.
End Queue.

Definition TASK_STATE_RUNNING : Z := 82.   (** ['R'] *)
Definition TASK_STATE_READY : Z := 114.    (** ['r'] *)
Definition TASK_STATE_ENDED : Z := 69.     (** ['E'] *)
Definition TASK_STATE_BLOCK_MSG : Z := 77. (** ['M'] *)
Definition TASK_STATE_BLOCK_USRSPACE : Z := 117. (** ['u'] *)
Definition TASK_STATE_BLOCK_SLEEP : Z := 115.    (** ['s'] *)
Definition TASK_STATE_BLOCK_JOIN : Z := 106.     (** ['j'] *)

(** The fields of [task_t] the kernel code here reads or writes; [t_rtn] is
    the saved register 3, the result of the task's system call. *)
Record task_t : Type := mkTask {
  t_cpu : Z;
  t_state : Z;
  t_state_info : Z;
  affinity_pinned : Z;
  t_rtn : Z;
  detached : bool;
  t_tid : Z;
  t_tracker : Z
}.

Record sched : Type := mkSched {
  s_task : Z -> task_t;
  s_cur : Z -> Z;
  idle_task : Z -> Z;
  iv_taskList : list Z;
  scheduler_extra : Z -> list Z;
  delay_list : Z -> list (Z * Z);
  masterCPU : Z
}.

Section sched.
Implicit Types (s : sched) (t c : Z).

Definition set_task t (x : task_t) s : sched :=
  mkSched (upd (s_task s) t x) (s_cur s) (idle_task s) (iv_taskList s) (scheduler_extra s) (delay_list s) (masterCPU s).
Definition set_cur c t s : sched :=
  mkSched (s_task s) (upd (s_cur s) c t) (idle_task s) (iv_taskList s) (scheduler_extra s) (delay_list s) (masterCPU s).
Definition set_global (q : list Z) s : sched :=
  mkSched (s_task s) (s_cur s) (idle_task s) q (scheduler_extra s) (delay_list s) (masterCPU s).
Definition set_extra c (q : list Z) s : sched :=
  mkSched (s_task s) (s_cur s) (idle_task s) (iv_taskList s) (upd (scheduler_extra s) c q) (delay_list s) (masterCPU s).
Definition set_delays c (q : list (Z * Z)) s : sched :=
  mkSched (s_task s) (s_cur s) (idle_task s) (iv_taskList s) (scheduler_extra s) (upd (delay_list s) c q) (masterCPU s).

Definition with_state (st : Z) (x : task_t) : task_t :=
  mkTask (t_cpu x) st (t_state_info x) (affinity_pinned x) (t_rtn x) (detached x) (t_tid x) (t_tracker x).
Definition with_info (i : Z) (x : task_t) : task_t :=
  mkTask (t_cpu x) (t_state x) i (affinity_pinned x) (t_rtn x) (detached x) (t_tid x) (t_tracker x).
Definition with_cpu (c : Z) (x : task_t) : task_t :=
  mkTask c (t_state x) (t_state_info x) (affinity_pinned x) (t_rtn x) (detached x) (t_tid x) (t_tracker x).
Definition with_rtn (r : Z) (x : task_t) : task_t :=
  mkTask (t_cpu x) (t_state x) (t_state_info x) (affinity_pinned x) r (detached x) (t_tid x) (t_tracker x).

(** [TASK_SETRTN(t, n)], and the other assignments to fields of a task. *)
Definition TASK_SETRTN t (n : Z) s : sched := set_task t (with_rtn n (s_task s t)) s.
Definition set_state t (st : Z) s : sched := set_task t (with_state st (s_task s t)) s.
Definition set_info t (i : Z) s : sched := set_task t (with_info i (s_task s t)) s.
Definition set_cpu t (c : Z) s : sched := set_task t (with_cpu c (s_task s t)) s.

(** [TaskManager::setCurrentTask] on processor [c]. *)
Definition setCurrentTask c t s : sched :=
  set_cur c t (set_task t (with_state TASK_STATE_RUNNING (with_cpu c (s_task s t))) s).

(** [Scheduler::addTask] *)
Definition addTask t s : sched :=
  let s := set_state t TASK_STATE_READY s in
  let c := t_cpu (s_task s t) in
  if negb (idle_task s c =? t) then
    if negb (0 =? affinity_pinned (s_task s t)) then
      set_extra c (Queue.insert t (scheduler_extra s c)) s
    else set_global (Queue.insert t (iv_taskList s)) s
  else s.

Definition addTaskMasterCPU t s : sched :=
  let s := set_state t TASK_STATE_READY s in
  if negb (idle_task s (t_cpu (s_task s t)) =? t) then
    set_extra (masterCPU s) (Queue.insert t (scheduler_extra s (masterCPU s))) s
  else s.

Definition returnRunnable c s : sched := addTask (s_cur s c) s.

(** [Scheduler::setNextRunnable]; the decrementer is not modelled. *)
Definition setNextRunnable c s : sched :=
  let '(t, s) :=
    match Queue.remove (scheduler_extra s c) with
    | (Some t, q) => (Some t, set_extra c q s)
    | (None, _) => (None, s)
    end in
  let '(t, s) :=
    match t with
    | Some t => (Some t, s)
    | None =>
        match Queue.remove (iv_taskList s) with
        | (Some t, q) => (Some t, set_global q s)
        | (None, _) => (None, s)
        end
    end in
  setCurrentTask c (match t with Some t => t | None => idle_task s c end) s.

(** [Systemcalls::TaskYield], [TaskMigrateToMaster]; [arg2] is the argument
    register moved to the result. *)
Definition TaskYield c s : sched := setNextRunnable c (returnRunnable c s).
Definition TaskMigrateToMaster c (arg2 : Z) s : sched :=
  let t := s_cur s c in
  setNextRunnable c (addTaskMasterCPU t (TASK_SETRTN t arg2 s)).

(** ** Time *)

Definition timebaseFreq : Z := 512000000.
Definition timeslicePerSec : Z := 1000.

Definition convertSecToTicks (i_sec i_nsec : Z) : Z :=
  let result := u64 (u64 (i_sec * 1000000000) + i_nsec) in
  let result := u64 (result * (timebaseFreq / 1000000)) in
  result / 1000.

Definition convertTicksToSec (i_ticks : Z) : Z * Z :=
  let o_sec := i_ticks / timebaseFreq in
  let o_nsec := u64 (u64 (i_ticks - o_sec * timebaseFreq) * 1000) in
  (o_sec, o_nsec / (timebaseFreq / 1000000)).

Definition getTimeSliceCount : Z := timebaseFreq / timeslicePerSec.

(** [_delayTask] and [_checkReleaseTasks] at time [now]. *)
Definition delayTask c t (i_sec i_nsec now : Z) s : sched :=
  let key := u64 (now + convertSecToTicks i_sec i_nsec) in
  let s := set_info t key (set_state t TASK_STATE_BLOCK_SLEEP s) in
  set_delays c (PQueue.insert fst (key, t) (delay_list s c)) s.

Fixpoint release_loop (fuel : nat) c (now : Z) s : sched :=
  match fuel with
  | O => s
  | S fuel =>
      match PQueue.remove_if fst now (delay_list s c) with
      | (Some (_, t), q) => release_loop fuel c now (addTask t (set_delays c q s))
      | (None, _) => s
      end
  end.

Definition checkReleaseTasks c (now : Z) s : sched :=
  release_loop (length (delay_list s c)) c now s.

(** [getIdleTimeSliceCount], outside simulation. *)
Definition getIdleTimeSliceCount c (now : Z) s : Z :=
  let sliceCount := getTimeSliceCount in
  match last (delay_list s c) with
  | Some (key, _) =>
      if now <? key then
        let diffTime := key - now in
        if diffTime <? sliceCount then diffTime else sliceCount
      else 1
  | None => sliceCount
  end.

(** [Systemcalls::TimeNanosleep] *)
Definition TimeNanosleep c (i_sec i_nsec now : Z) s : sched :=
  let t := s_cur s c in
  setNextRunnable c (TASK_SETRTN t 0 (delayTask c t i_sec i_nsec now s)).

(** [kernel_execute_decrementer]; [executePeriodics] is the periodic work, which
    may itself switch tasks. *)
Definition execute_decrementer (executePeriodics : Z -> sched -> sched) c (now : Z) s : sched :=
  let s := checkReleaseTasks c now s in
  let current_task := s_cur s c in
  let s := executePeriodics c s in
  if current_task =? s_cur s c then setNextRunnable c (returnRunnable c s) else s.
End sched.
