(* ===== verification/SchedSpec.v ===== *)
(** * The scheduler: where every task is

    A task that is not an idle task is in exactly one place: current on a
    processor, in a run queue, asleep, or held by another part of the kernel
    ([held]).  Its state letter says which. *)

From S2P Require Import Prelude Containers Sched.

(** ** Queues of a processor *)

Lemma bind_upd_out {A} (f : Z -> list A) c l ds : c ∉ ds -> ds ≫= upd f c l = ds ≫= f.
Proof.
  induction ds as [|d ds IH]; intros Hc; [done|]. apply not_elem_of_cons in Hc as [H1 H2].
  simpl. rewrite upd_ne by (by apply not_eq_sym). f_equal. auto.
Qed.

Lemma bind_upd {A} (f : Z -> list A) c l ds :
  NoDup ds -> c ∈ ds -> exists rest, ds ≫= f ≡ₚ f c ++ rest /\ ds ≫= upd f c l ≡ₚ l ++ rest.
Proof.
  induction ds as [|d ds IH]; intros Hnd Hc; [by apply elem_of_nil in Hc|].
  apply NoDup_cons in Hnd as [Hd Hnd]. apply elem_of_cons in Hc as [->|Hc].
  - exists (ds ≫= f). simpl. by rewrite upd_eq, bind_upd_out.
  - destruct (IH Hnd Hc) as (rest & H1 & H2). exists (f d ++ rest).
    simpl. rewrite upd_ne by (by intros ->). setoid_rewrite H1. setoid_rewrite H2.
    split; apply Permutation_app_swap_app.
Qed.

Lemma filter_other (x : option Z) (c : Z) (l : list Z) :
  x = Some c -> c ∉ l -> filter (fun d => Some d <> x) l = l.
Proof.
  intros ->. induction l as [|d l IH]; [done|]. intros [Hd Hl]%not_elem_of_cons.
  rewrite filter_cons_True by congruence. f_equal. auto.
Qed.

Lemma filter_none (x : option Z) (l : list Z) : x = None -> filter (fun d => Some d <> x) l = l.
Proof. intros ->. induction l as [|d l IH]; [done|]. rewrite filter_cons_True by done. f_equal. auto. Qed.

Lemma filter_split (x : option Z) (c : Z) (l : list Z) :
  x = Some c -> NoDup l -> c ∈ l -> l ≡ₚ c :: filter (fun d => Some d <> x) l.
Proof.
  intros ->. induction l as [|d l IH]; intros Hn Hc; [by apply elem_of_nil in Hc|].
  apply NoDup_cons in Hn as [Hd Hn]. destruct (decide (d = c)) as [->|Hne].
  - rewrite filter_cons_False by (intros Hf; by apply Hf). by rewrite (filter_other _ c).
  - rewrite filter_cons_True by congruence. apply elem_of_cons in Hc as [->|Hc]; [done|].
    rewrite (IH Hn Hc) at 1. constructor.
Qed.

Section spec.
Context (cpus : list Z) (idle : Z -> Z) (A : list Z).
Context (Hcpus : NoDup cpus) (Hidle : NoDup (idle <$> cpus)) (HA : NoDup A).
Implicit Types (s : sched) (t c : Z) (x : option Z) (held : list Z).

Definition is_idle_task t : Prop := t ∈ idle <$> cpus.

(** [x]: the processor whose kernel code is running; its current task is not
    counted as running. *)
Definition running x s : list Z :=
  filter (fun t => ~ is_idle_task t) (s_cur s <$> filter (fun c => Some c <> x) cpus).
Definition ready s : list Z := iv_taskList s ++ (cpus ≫= scheduler_extra s).
Definition sleeping s : list (Z * Z) := cpus ≫= delay_list s.

(** Every task of the system, those [held] by other parts of the kernel and in
    the hand of the running code included. *)
Definition all_tasks x s held : list Z := running x s ++ ready s ++ (sleeping s).*2 ++ held.

Definition state_of s t : Z := t_state (s_task s t).

Record sched_ok x s held : Prop := {
  so_all : all_tasks x s held ≡ₚ A;
  so_idle c : c ∈ cpus -> idle_task s c = idle c;
  so_queued t : t ∈ ready s ++ (sleeping s).*2 ++ held -> ~ is_idle_task t;
  so_idle_cpu c : c ∈ cpus -> t_cpu (s_task s (idle c)) = c;
  so_home c c' : c ∈ cpus -> c' ∈ cpus -> Some c <> x -> s_cur s c = idle c' -> c = c';
  so_cpu t : t_cpu (s_task s t) ∈ cpus;
  so_running c : c ∈ cpus -> Some c <> x ->
    state_of s (s_cur s c) = TASK_STATE_RUNNING /\ t_cpu (s_task s (s_cur s c)) = c;
  so_ready t : t ∈ ready s -> state_of s t = TASK_STATE_READY;
  so_sleep k t : (k, t) ∈ sleeping s ->
    state_of s t = TASK_STATE_BLOCK_SLEEP /\ t_state_info (s_task s t) = k;
  so_sorted c : PQueue.ordered fst (delay_list s c);
  so_kernel c : x = Some c -> c ∈ cpus
}.

Lemma so_nodup x s held : sched_ok x s held -> NoDup (all_tasks x s held).
Proof. intros O. by rewrite (so_all _ _ _ O). Qed.

(** A task in hand is in no other place. *)
Lemma held_apart x s t held : sched_ok x s (t :: held) ->
  t ∉ running x s /\ t ∉ ready s /\ t ∉ (sleeping s).*2 /\ t ∉ held.
Proof.
  intros O. pose proof (so_nodup _ _ _ O) as Hn. unfold all_tasks in Hn.
  rewrite !app_assoc in Hn. rewrite <-Permutation_middle in Hn. apply NoDup_cons in Hn as [Hn _].
  set_solver.
Qed.

Lemma running_in x s c : c ∈ cpus -> Some c <> x -> is_idle_task (s_cur s c) \/ s_cur s c ∈ running x s.
Proof.
  intros Hc Hx. unfold running. destruct (decide (s_cur s c ∈ idle <$> cpus)); [by left|right].
  apply list_elem_of_filter. split; [done|]. apply list_elem_of_fmap. exists c. split; [done|].
  by apply list_elem_of_filter.
Qed.

Lemma held_not_current x s t held c : sched_ok x s (t :: held) -> c ∈ cpus -> Some c <> x -> s_cur s c <> t.
Proof.
  intros O Hc Hx E. subst t. destruct (running_in x s c Hc Hx) as [Hi|Hr].
  - refine (so_queued _ _ _ O (s_cur s c) _ Hi). rewrite !elem_of_app. right. right. by left.
  - by destruct (held_apart _ _ _ _ O).
Qed.

(** ** Fields of tasks *)

(** Only the fields of a task in hand, or fields without a role here, change. *)
Lemma ok_fields x s s' held :
  sched_ok x s held ->
  s_cur s' = s_cur s -> idle_task s' = idle_task s -> iv_taskList s' = iv_taskList s ->
  scheduler_extra s' = scheduler_extra s -> delay_list s' = delay_list s ->
  (forall t, t_cpu (s_task s' t) ∈ cpus) ->
  (forall t, t ∈ running x s ++ ready s ++ (sleeping s).*2 \/ is_idle_task t ->
     t_cpu (s_task s' t) = t_cpu (s_task s t)) ->
  (forall t, t ∈ running x s ++ ready s ++ (sleeping s).*2 \/
             (exists c, c ∈ cpus /\ Some c <> x /\ s_cur s c = t) -> state_of s' t = state_of s t) ->
  (forall t, t ∈ (sleeping s).*2 -> t_state_info (s_task s' t) = t_state_info (s_task s t)) ->
  sched_ok x s' held.
Proof.
  intros O E1 E2 E3 E4 E5 Hcpu Hc Hst Hi.
  assert (R : running x s' = running x s) by (unfold running; by rewrite E1).
  assert (Q : ready s' = ready s) by (unfold ready; by rewrite E3, E4).
  assert (Zs : sleeping s' = sleeping s) by (unfold sleeping; by rewrite E5).
  split.
  - unfold all_tasks. rewrite R, Q, Zs. apply O.
  - rewrite E2. apply O.
  - rewrite Q, Zs. apply O.
  - intros c Hin. rewrite Hc; [by apply O|]. right. apply list_elem_of_fmap. eauto.
  - rewrite E1. apply O.
  - done.
  - intros c Hin Hx. rewrite E1. destruct (so_running _ _ _ O c Hin Hx) as [H1 H2]. split.
    + rewrite Hst; [done|]. right. eauto.
    + rewrite Hc; [done|]. destruct (running_in x s c Hin Hx); [by right|left; set_solver].
  - intros t. rewrite Q. intros Ht. rewrite Hst by (left; set_solver). by apply (so_ready _ _ _ O).
  - intros k t. rewrite Zs. intros Ht. assert (Hin : t ∈ (sleeping s).*2) by (apply list_elem_of_fmap; by exists (k, t)).
    rewrite Hst, Hi by (done || left; set_solver). by apply (so_sleep _ _ _ O).
  - intros c. rewrite E5. apply O.
  - apply O.
Qed.

Lemma ok_setrtn x s held t n : sched_ok x s held -> sched_ok x (TASK_SETRTN t n s) held.
Proof.
  intros O.
  assert (Hf : forall u, t_cpu (s_task (TASK_SETRTN t n s) u) = t_cpu (s_task s u) /\
    state_of (TASK_SETRTN t n s) u = state_of s u /\
    t_state_info (s_task (TASK_SETRTN t n s) u) = t_state_info (s_task s u)).
  { intros u. unfold state_of. simpl. unfold upd. destruct (u =? t) eqn:E; b2p; by subst. }
  eapply ok_fields; eauto; try done; intros u; try (intros _); try apply Hf.
  rewrite (proj1 (Hf u)). apply (so_cpu _ _ _ O).
Qed.

(** State and information of a task in hand. *)
Lemma ok_held_field x s held t y :
  sched_ok x s (t :: held) -> t_cpu y ∈ cpus -> sched_ok x (set_task t y s) (t :: held).
Proof.
  intros O Hy. destruct (held_apart _ _ _ _ O) as (H1 & H2 & H3 & H4).
  pose proof (so_queued _ _ _ O t) as Hni.
  assert (Hne : forall u, u ∈ running x s ++ ready s ++ (sleeping s).*2 -> (u =? t) = false).
  { intros u Hu. apply Z.eqb_neq. intros ->. rewrite !elem_of_app in Hu. tauto. }
  assert (Hf : forall u, s_task (set_task t y s) u = if u =? t then y else s_task s u) by done.
  eapply ok_fields; eauto; unfold state_of; setoid_rewrite Hf.
  - intros u. destruct (u =? t); [done|]. apply (so_cpu _ _ _ O).
  - intros u [Hu|Hu]; [by rewrite Hne|]. rewrite (proj2 (Z.eqb_neq _ _)); [done|].
    intros ->. apply Hni; [set_solver|done].
  - intros u [Hu|(c & Hc & Hx & <-)]; [by rewrite Hne|].
    rewrite (proj2 (Z.eqb_neq _ _)); [done|]. by eapply held_not_current.
  - intros u Hu. rewrite Hne; [done|]. set_solver.
Qed.

Lemma ok_perm x s held held' : held ≡ₚ held' -> sched_ok x s held -> sched_ok x s held'.
Proof.
  intros Hp O. destruct O. split; try done.
  - unfold all_tasks in *. by rewrite <-Hp.
  - intros t. rewrite <-Hp. auto.
Qed.

(** ** Queues *)

(** A held task becomes ready, in whichever queue the code puts it. *)
Lemma ok_enqueue x s s1 s2 t held :
  sched_ok x s (t :: held) -> s1 = set_state t TASK_STATE_READY s ->
  ready s2 ≡ₚ t :: ready s1 -> s_task s2 = s_task s1 -> s_cur s2 = s_cur s1 ->
  idle_task s2 = idle_task s1 -> delay_list s2 = delay_list s1 -> sched_ok x s2 held.
Proof.
  intros O -> Hr Ht Hcur Hid Hd. set (s1 := set_state t TASK_STATE_READY s) in *.
  assert (O1 : sched_ok x s1 (t :: held)) by (apply ok_held_field; [done|apply (so_cpu _ _ _ O)]).
  assert (Hy : state_of s1 t = TASK_STATE_READY) by (unfold state_of, s1; simpl; by rewrite upd_eq).
  assert (R : running x s2 = running x s1) by (unfold running; by rewrite Hcur).
  assert (Zs : sleeping s2 = sleeping s1) by (unfold sleeping; by rewrite Hd).
  destruct O1 as [Q1 Q2 Q3 Q4 Q5 Q6 Q7 Q8 Q9 Q10 Q11]. split.
  - rewrite <-Q1. unfold all_tasks. rewrite R, Zs, Hr. solve_Permutation.
  - by rewrite Hid.
  - intros u. rewrite Zs, Hr. intros Hu. apply Q3. set_solver.
  - rewrite Ht. done.
  - by rewrite Hcur.
  - rewrite Ht. done.
  - unfold state_of. rewrite Hcur, Ht. done.
  - intros u. rewrite Hr. unfold state_of. rewrite Ht. intros [->|Hu]%elem_of_cons; [done|by apply Q8].
  - intros k u. rewrite Zs. unfold state_of. rewrite Ht. apply Q9.
  - by rewrite Hd.
  - done.
Qed.

Lemma ready_extra c s q : c ∈ cpus ->
  exists rest, ready s ≡ₚ scheduler_extra s c ++ rest /\ ready (set_extra c q s) ≡ₚ q ++ rest.
Proof.
  intros Hc. destruct (bind_upd (scheduler_extra s) c q cpus Hcpus Hc) as (rest & E1 & E2).
  exists (iv_taskList s ++ rest). unfold ready. cbn [iv_taskList scheduler_extra set_extra].
  rewrite E1, E2. clear. split; solve_Permutation.
Qed.

Lemma ready_insert_extra c t s : c ∈ cpus ->
  ready (set_extra c (Queue.insert t (scheduler_extra s c)) s) ≡ₚ t :: ready s.
Proof.
  intros Hc. destruct (ready_extra c s (Queue.insert t (scheduler_extra s c)) Hc) as (rest & R1 & R2).
  by rewrite R1, R2.
Qed.

Lemma held_not_idle x s t held c : sched_ok x s (t :: held) -> c ∈ cpus -> (idle_task s c =? t) = false.
Proof.
  intros O Hc. rewrite (so_idle _ _ _ O c Hc). apply Z.eqb_neq. intros E.
  apply (so_queued _ _ _ O t); [rewrite !elem_of_app; right; right; by left|].
  apply list_elem_of_fmap. eauto.
Qed.

Lemma ok_addTask x s t held : sched_ok x s (t :: held) -> sched_ok x (addTask t s) held.
Proof.
  intros O. unfold addTask. set (s1 := set_state _ _ s).
  assert (Hc : t_cpu (s_task s1 t) ∈ cpus) by (simpl; rewrite upd_eq; apply (so_cpu _ _ _ O)).
  change (idle_task s1) with (idle_task s). rewrite (held_not_idle _ _ _ _ _ O Hc). cbn [negb].
  eapply ok_enqueue; [exact O|reflexivity|..]; destruct (negb _); try done. by apply ready_insert_extra.
Qed.

Lemma ok_addTaskMasterCPU x s t held :
  masterCPU s ∈ cpus -> sched_ok x s (t :: held) -> sched_ok x (addTaskMasterCPU t s) held.
Proof.
  intros Hm O. unfold addTaskMasterCPU. set (s1 := set_state _ _ s).
  assert (Hc : t_cpu (s_task s1 t) ∈ cpus) by (simpl; rewrite upd_eq; apply (so_cpu _ _ _ O)).
  change (idle_task s1) with (idle_task s). rewrite (held_not_idle _ _ _ _ _ O Hc). cbn [negb].
  eapply ok_enqueue; [exact O|reflexivity|..]; try done. by apply ready_insert_extra.
Qed.

(** An idle task is not queued. *)
Lemma ok_addTask_idle c s held :
  sched_ok (Some c) s held ->
  sched_ok (Some c) (addTask (idle c) s) held /\ sched_ok (Some c) (addTaskMasterCPU (idle c) s) held.
Proof.
  intros O. pose proof (so_kernel _ _ _ O c eq_refl) as Hc.
  unfold addTask, addTaskMasterCPU, set_state. set (s1 := set_task _ _ s).
  assert (Hf : forall u, s_task s1 u = if u =? idle c then with_state TASK_STATE_READY (s_task s (idle c)) else s_task s u) by done.
  assert (Hcpu : t_cpu (s_task s1 (idle c)) = c) by (rewrite Hf, Z.eqb_refl; by apply (so_idle_cpu _ _ _ O)).
  rewrite Hcpu. change (idle_task s1) with (idle_task s). rewrite (so_idle _ _ _ O c Hc), Z.eqb_refl. cbn [negb].
  enough (sched_ok (Some c) s1 held) by done.
  assert (Hne : forall u, ~ is_idle_task u -> (u =? idle c) = false).
  { intros u Hu. apply Z.eqb_neq. intros ->. apply Hu, list_elem_of_fmap. eauto. }
  assert (Hq : forall u, u ∈ running (Some c) s ++ ready s ++ (sleeping s).*2 -> (u =? idle c) = false).
  { intros u Hu. apply Hne. apply elem_of_app in Hu as [Hu|Hu].
    - by apply list_elem_of_filter in Hu as [? _].
    - apply (so_queued _ _ _ O). rewrite !elem_of_app in *. tauto. }
  eapply ok_fields; eauto; unfold state_of; setoid_rewrite Hf.
  - intros u. destruct (u =? idle c); [|apply (so_cpu _ _ _ O)]. simpl. by rewrite (so_idle_cpu _ _ _ O).
  - intros u _. destruct (u =? idle c) eqn:E; b2p; by subst.
  - intros u [Hu|(c' & Hc' & Hx & <-)]; [by rewrite Hq|].
    destruct (s_cur s c' =? idle c) eqn:E; b2p; [|done]. exfalso. apply Hx.
    by rewrite (so_home _ _ _ O c' c).
  - intros u Hu. rewrite Hq; [done|set_solver].
Qed.

(** ** Entering and leaving the kernel *)

Lemma running_split c s : c ∈ cpus ->
  running None s ≡ₚ (if decide (is_idle_task (s_cur s c)) then [] else [s_cur s c]) ++ running (Some c) s.
Proof.
  intros Hc. unfold running at 1. rewrite (filter_none None), (filter_split (Some c) c cpus) at 1 by done. cbn [fmap list_fmap].
  destruct (decide (is_idle_task (s_cur s c))) as [Hi|Hi].
  - by rewrite filter_cons_False by (intros Hn; by apply Hn).
  - by rewrite filter_cons_True.
Qed.

Definition in_hand c s : list Z := if decide (is_idle_task (s_cur s c)) then [] else [s_cur s c].

(** The handler of a system call or interrupt on [c] has the current task in
    hand. *)
Lemma ok_enter c s held : c ∈ cpus -> sched_ok None s held -> sched_ok (Some c) s (in_hand c s ++ held).
Proof.
  intros Hc O. pose proof (running_split c s Hc) as Hr. fold (in_hand c s) in Hr.
  destruct O as [Q1 Q2 Q3 Q4 Q5 Q6 Q7 Q8 Q9 Q10 Q11]. split; try done.
  - rewrite <-Q1. unfold all_tasks. rewrite Hr. clear. solve_Permutation.
  - intros t Ht. destruct (decide (t ∈ in_hand c s)) as [Hin|Hin].
    + unfold in_hand in Hin. destruct (decide _) as [|Hn]; [set_solver|]. by apply list_elem_of_singleton in Hin as ->.
    + apply Q3. rewrite !elem_of_app in *. tauto.
  - intros d d' H1 H2 _. by apply Q5.
  - intros d H1 _. by apply Q7.
  - by intros d [= <-].
Qed.

Lemma idle_inj c d : c ∈ cpus -> d ∈ cpus -> idle c = idle d -> c = d.
Proof.
  intros Hc Hd E. apply list_elem_of_lookup in Hc as [i Hi]. apply list_elem_of_lookup in Hd as [j Hj].
  enough (i = j) by congruence. eapply (NoDup_lookup _ i j (idle c)); [exact Hidle| |].
  - by rewrite list_lookup_fmap, Hi.
  - by rewrite list_lookup_fmap, Hj, E.
Qed.

(** Processor [c] runs [t] from now on: a task in hand, or its idle task. *)
Lemma ok_leave c s t held l :
  l = [t] /\ ~ is_idle_task t \/ l = [] /\ t = idle c ->
  sched_ok (Some c) s (l ++ held) -> sched_ok None (setCurrentTask c t s) held.
Proof.
  intros Hl O. pose proof (so_kernel _ _ _ O c eq_refl) as Hc.
  set (s' := setCurrentTask c t s).
  assert (Hin : is_idle_task (idle c)) by (apply list_elem_of_fmap; eauto).
  assert (Hf : forall u, s_task s' u = if u =? t then with_state TASK_STATE_RUNNING (with_cpu c (s_task s t)) else s_task s u) by done.
  assert (Hcur : forall d, s_cur s' d = if d =? c then t else s_cur s d) by done.
  assert (Hq : forall u, u ∈ ready s ++ (sleeping s).*2 ++ held -> (u =? t) = false).
  { intros u Hu. apply Z.eqb_neq. intros ->. destruct Hl as [[-> Hni]|[-> ->]].
    - destruct (held_apart _ _ _ _ O) as (_ & H2 & H3 & H4). rewrite !elem_of_app in Hu. tauto.
    - by apply (so_queued _ _ _ O _ Hu). }
  assert (Hrun : forall d, d ∈ cpus -> Some d <> Some c -> (s_cur s d =? t) = false).
  { intros d Hd Hx. apply Z.eqb_neq. intros E. destruct Hl as [[-> Hni]|[-> ->]].
    - by eapply held_not_current.
    - apply Hx. f_equal. by apply (so_home _ _ _ O). }
  assert (R : running None s' ++ held ≡ₚ running (Some c) s ++ l ++ held).
  { rewrite (running_split c s' Hc), Hcur, Z.eqb_refl.
    assert (E : running (Some c) s' = running (Some c) s).
    { unfold running. f_equal. apply list_fmap_ext. intros i d Hd. rewrite Hcur.
      apply list_elem_of_lookup_2, list_elem_of_filter in Hd as [Hd _].
      by rewrite (proj2 (Z.eqb_neq d c)) by congruence. }
    rewrite E. destruct Hl as [[-> Hni]|[-> ->]]; destruct (decide _); try done.
    clear. solve_Permutation. }
  split.
  - rewrite <-(so_all _ _ _ O). unfold all_tasks.
    change (ready s') with (ready s). change (sleeping s') with (sleeping s).
    transitivity (ready s ++ (sleeping s).*2 ++ running None s' ++ held); [clear; solve_Permutation|].
    rewrite R. clear. solve_Permutation.
  - apply O.
  - intros u Hu. apply (so_queued _ _ _ O). change (ready s') with (ready s) in Hu.
    change (sleeping s') with (sleeping s) in Hu. rewrite !elem_of_app in *. tauto.
  - intros d Hd. rewrite Hf. destruct (idle d =? t) eqn:E; [|by apply O]. b2p. simpl.
    destruct Hl as [[-> Hni]|[-> ->]].
    + destruct Hni. apply list_elem_of_fmap; eauto.
    + by apply idle_inj.
  - intros d d' Hd Hd' _. rewrite Hcur. destruct (d =? c) eqn:E; b2p.
    + intros ->. subst d. destruct Hl as [[-> Hni]|[-> Ht]].
      * destruct Hni. apply list_elem_of_fmap; eauto.
      * by apply idle_inj.
    + apply (so_home _ _ _ O); [done|done|congruence].
  - intros u. rewrite Hf. destruct (u =? t); [done|apply O].
  - intros d Hd _. unfold state_of. rewrite Hcur, Hf. destruct (d =? c) eqn:E; b2p.
    + by rewrite Z.eqb_refl.
    + rewrite Hrun by congruence. apply (so_running _ _ _ O); congruence.
  - intros u Hu. unfold state_of. rewrite Hf, Hq by (apply elem_of_app; by left). by apply (so_ready _ _ _ O).
  - intros k u Hu. unfold state_of. rewrite Hf, Hq; [by apply (so_sleep _ _ _ O)|].
    rewrite !elem_of_app. right. left. apply list_elem_of_fmap. by exists (k, u).
  - apply O.
  - done.
Qed.

(** The code returns to the task it interrupted. *)
Lemma ok_return c s held :
  sched_ok (Some c) s (in_hand c s ++ held) ->
  state_of s (s_cur s c) = TASK_STATE_RUNNING -> t_cpu (s_task s (s_cur s c)) = c ->
  (is_idle_task (s_cur s c) -> s_cur s c = idle c) -> sched_ok None s held.
Proof.
  intros O Hst Hcpu Hi. pose proof (so_kernel _ _ _ O c eq_refl) as Hc.
  destruct O as [Q1 Q2 Q3 Q4 Q5 Q6 Q7 Q8 Q9 Q10 Q11]. split; try done.
  - rewrite <-Q1. unfold all_tasks. rewrite (running_split c s Hc). fold (in_hand c s). clear. solve_Permutation.
  - intros t Ht. apply Q3. rewrite !elem_of_app in *. tauto.
  - intros d d' Hd Hd' _ E. destruct (decide (d = c)) as [->|]; [|apply Q5; congruence].
    apply idle_inj; [done|done|]. rewrite <-E. symmetry. apply Hi. rewrite E. apply list_elem_of_fmap; eauto.
  - intros d Hd _. destruct (decide (d = c)) as [->|]; [done|]. apply Q7; congruence.
Qed.

(** ** Moving tasks between queues *)

Lemma ok_requeue x s s' held held' :
  sched_ok x s held ->
  s_task s' = s_task s -> s_cur s' = s_cur s -> idle_task s' = idle_task s ->
  ready s' ++ (sleeping s').*2 ++ held' ≡ₚ ready s ++ (sleeping s).*2 ++ held ->
  (forall t, t ∈ ready s' -> state_of s t = TASK_STATE_READY) ->
  (forall k t, (k, t) ∈ sleeping s' ->
     state_of s t = TASK_STATE_BLOCK_SLEEP /\ t_state_info (s_task s t) = k) ->
  (forall c, PQueue.ordered fst (delay_list s' c)) ->
  sched_ok x s' held'.
Proof.
  intros O Et Ec Ei Hp Hr Hs Ho.
  assert (R : running x s' = running x s) by (unfold running; by rewrite Ec).
  destruct O as [Q1 Q2 Q3 Q4 Q5 Q6 Q7 Q8 Q9 Q10 Q11].
  split; unfold state_of; rewrite ?Et, ?Ec, ?Ei; try done.
  - rewrite <-Q1. unfold all_tasks. by rewrite R, Hp.
  - intros t. rewrite Hp. apply Q3.
Qed.

Lemma sleeping_delays c s q : c ∈ cpus ->
  exists rest, sleeping s ≡ₚ delay_list s c ++ rest /\ sleeping (set_delays c q s) ≡ₚ q ++ rest.
Proof. intros Hc. apply (bind_upd (delay_list s) c q cpus Hcpus Hc). Qed.

Lemma ok_take_global x s t q held :
  iv_taskList s = q ++ [t] -> sched_ok x s held -> sched_ok x (set_global q s) (t :: held).
Proof.
  intros E O. assert (R : ready s ≡ₚ t :: ready (set_global q s)).
  { unfold ready. rewrite E. simpl. clear. solve_Permutation. }
  eapply ok_requeue; eauto; try done.
  - rewrite R. clear. solve_Permutation.
  - intros u Hu. apply (so_ready _ _ _ O). rewrite R. by right.
  - apply (so_sleep _ _ _ O).
  - apply (so_sorted _ _ _ O).
Qed.

Lemma ok_take_extra x c s t q held :
  c ∈ cpus -> scheduler_extra s c = q ++ [t] -> sched_ok x s held ->
  sched_ok x (set_extra c q s) (t :: held).
Proof.
  intros Hc E O. destruct (ready_extra c s q Hc) as (rest & R1 & R2). rewrite E in R1.
  eapply ok_requeue; eauto; try done.
  - rewrite R1, R2. change (sleeping (set_extra c q s)) with (sleeping s). clear. solve_Permutation.
  - intros u. rewrite R2. intros Hu. apply (so_ready _ _ _ O). rewrite R1. set_solver.
  - apply (so_sleep _ _ _ O).
  - apply (so_sorted _ _ _ O).
Qed.

Lemma ok_take_delay x c s t k q held :
  c ∈ cpus -> delay_list s c = q ++ [(k, t)] -> sched_ok x s held ->
  sched_ok x (set_delays c q s) (t :: held).
Proof.
  intros Hc E O. destruct (sleeping_delays c s q Hc) as (rest & R1 & R2). rewrite E in R1.
  eapply ok_requeue; eauto; try done.
  - rewrite R1, R2. change (ready (set_delays c q s)) with (ready s). rewrite !fmap_app. simpl. clear. solve_Permutation.
  - apply (so_ready _ _ _ O).
  - intros k' u. rewrite R2. intros Hu. apply (so_sleep _ _ _ O). rewrite R1. set_solver.
  - intros d. simpl. unfold upd. destruct (d =? c) eqn:Ed; [|apply (so_sorted _ _ _ O)]. b2p. subst d.
    pose proof (so_sorted _ _ _ O c) as Ho. rewrite E in Ho. by apply PQueue.ordered_app_last in Ho as [? _].
Qed.

(** A task in hand falls asleep. *)
Lemma ok_delayTask x c s t held i_sec i_nsec now :
  c ∈ cpus -> sched_ok x s (t :: held) -> sched_ok x (delayTask c t i_sec i_nsec now s) held.
Proof.
  intros Hc O. unfold delayTask. set (k := wrap 64 (now + _)).
  set (s1 := set_info t k (set_state t TASK_STATE_BLOCK_SLEEP s)).
  assert (O1 : sched_ok x s1 (t :: held)).
  { apply ok_held_field; [apply ok_held_field; [done|]|].
    - apply (so_cpu _ _ _ O).
    - simpl. rewrite upd_eq. apply (so_cpu _ _ _ O). }
  assert (Hy : state_of s1 t = TASK_STATE_BLOCK_SLEEP /\ t_state_info (s_task s1 t) = k).
  { unfold state_of, s1. simpl. by rewrite !upd_eq. }
  set (q := PQueue.insert fst (k, t) (delay_list s1 c)).
  destruct (sleeping_delays c s1 q Hc) as (rest & R1 & R2). unfold q in R2 at 2. rewrite PQueue.insert_perm in R2.
  eapply ok_requeue; eauto; try done.
  - rewrite R1, R2. change (ready (set_delays c q s1)) with (ready s1). rewrite !fmap_app. simpl. clear. solve_Permutation.
  - apply (so_ready _ _ _ O1).
  - intros k' u. rewrite R2. cbn [app]. intros [[= -> ->]|Hu]%elem_of_cons; [done|]. apply (so_sleep _ _ _ O1). by rewrite R1.
  - intros d. simpl. unfold upd. destruct (d =? c) eqn:Ed; [|apply (so_sorted _ _ _ O1)].
    apply PQueue.insert_ordered, (so_sorted _ _ _ O1).
Qed.

(** ** The operations *)

Lemma ok_setNextRunnable c s held : sched_ok (Some c) s held -> sched_ok None (setNextRunnable c s) held.
Proof.
  intros O. pose proof (so_kernel _ _ _ O c eq_refl) as Hc. unfold setNextRunnable.
  assert (Hgo : forall s' t, sched_ok (Some c) s' (t :: held) -> sched_ok None (setCurrentTask c t s') held).
  { intros s' t O'. apply (ok_leave c s' t held [t]); [left|done]. split; [done|].
    apply (so_queued _ _ _ O'). rewrite !elem_of_app. right. right. by left. }
  pose proof (Queue.remove_tail (scheduler_extra s c)) as H1.
  destruct (Queue.remove (scheduler_extra s c)) as [[t|] q]; [by apply Hgo, ok_take_extra|].
  pose proof (Queue.remove_tail (iv_taskList s)) as H2.
  destruct (Queue.remove (iv_taskList s)) as [[t|] q2]; [by apply Hgo, ok_take_global|].
  rewrite (so_idle _ _ _ O c Hc). apply (ok_leave c s (idle c) held []); [by right|done].
Qed.

Lemma ok_returnRunnable c s held :
  sched_ok (Some c) s (in_hand c s ++ held) -> (is_idle_task (s_cur s c) -> s_cur s c = idle c) ->
  sched_ok (Some c) (returnRunnable c s) held.
Proof.
  unfold returnRunnable, in_hand. destruct (decide _) as [Hi|Hi]; intros O Hh; [|by apply ok_addTask].
  rewrite (Hh Hi). by apply ok_addTask_idle.
Qed.

Lemma idle_current c s held : c ∈ cpus -> sched_ok None s held -> is_idle_task (s_cur s c) -> s_cur s c = idle c.
Proof.
  intros Hc O (d & E & Hd)%list_elem_of_fmap. rewrite E. f_equal. symmetry. by apply (so_home _ _ _ O).
Qed.

Lemma release_loop_ok n x c now s held :
  c ∈ cpus -> sched_ok x s held -> sched_ok x (release_loop n c now s) held.
Proof.
  intros Hc. revert s. induction n as [|n IH]; intros s O; [done|]. simpl.
  unfold PQueue.remove_if. destruct (last _) as [[k t]|] eqn:E; [|done]. destruct (fst _ <=? now); [|done].
  apply IH, ok_addTask, (ok_take_delay _ _ _ _ k); [done| |done]. by apply PQueue.last_removelast.
Qed.

(** ** Sleepers *)

Lemma addTask_delays t s : delay_list (addTask t s) = delay_list s.
Proof. unfold addTask. repeat case_match; done. Qed.

Lemma addTask_ready t s u : t_cpu (s_task s t) ∈ cpus -> u ∈ ready s -> u ∈ ready (addTask t s).
Proof.
  intros Hc Hu. unfold addTask. set (s1 := set_state _ _ s).
  assert (Hc1 : t_cpu (s_task s1 t) ∈ cpus) by (simpl; by rewrite upd_eq).
  change (u ∈ ready s1) in Hu. destruct (negb _); [|done]. destruct (negb _).
  - rewrite ready_insert_extra by done. by right.
  - change (u ∈ t :: ready s1). by right.
Qed.

Lemma addTask_queued x t s held : sched_ok x s (t :: held) -> t ∈ ready (addTask t s).
Proof.
  intros O. unfold addTask. set (s1 := set_state _ _ s).
  assert (Hc : t_cpu (s_task s1 t) ∈ cpus) by (simpl; rewrite upd_eq; apply (so_cpu _ _ _ O)).
  change (idle_task s1) with (idle_task s). rewrite (held_not_idle _ _ _ _ _ O Hc). cbn [negb].
  destruct (negb _).
  - rewrite ready_insert_extra by done. by left.
  - change (t ∈ t :: ready s1). by left.
Qed.

Lemma filter_id {B} (P : B -> Prop) `{forall b, Decision (P b)} (l : list B) : Forall P l -> filter P l = l.
Proof. induction 1; [done|]. rewrite filter_cons_True by done. by f_equal. Qed.

Lemma release_loop_spec n x c now s held :
  c ∈ cpus -> sched_ok x s held -> (length (delay_list s c) <= n)%nat ->
  let s' := release_loop n c now s in
  delay_list s' c = filter (fun e => now < e.1) (delay_list s c) /\
  (forall d, d <> c -> delay_list s' d = delay_list s d) /\
  (forall u, u ∈ ready s -> u ∈ ready s') /\
  (forall k u, (k, u) ∈ delay_list s c -> k <= now -> u ∈ ready s').
Proof.
  intros Hc. revert s. induction n as [|n IH]; intros s O Hn; cbn [release_loop].
  - destruct (delay_list s c) eqn:E; [|simpl in Hn; lia]. split_and!; try done.
    intros k u Hu. by apply elem_of_nil in Hu.
  - pose proof (so_sorted _ _ _ O c) as Ho. unfold PQueue.remove_if.
    destruct (last (delay_list s c)) as [[k t]|] eqn:E.
    2:{ apply last_None in E. rewrite E. split_and!; try done.
        intros k u Hu. by apply elem_of_nil in Hu. }
    apply PQueue.last_removelast in E. set (q := removelast _) in *. rewrite E in Ho, Hn |- *.
    apply PQueue.ordered_app_last in Ho as [Ho Hf]. rewrite length_app in Hn. simpl in Hn.
    cbn [fst]. destruct (k <=? now) eqn:Ek; b2p.
    + assert (O1 : sched_ok x (set_delays c q s) (t :: held)) by (by apply (ok_take_delay _ _ _ _ k)).
      pose proof (ok_addTask _ _ _ _ O1) as O2.
      destruct (IH _ O2) as (I1 & I2 & I3 & I4).
      { rewrite addTask_delays. simpl. rewrite upd_eq. lia. }
      rewrite addTask_delays in *. cbn [delay_list set_delays] in *. rewrite !upd_eq in *. split_and!.
      * rewrite I1, filter_app, filter_cons_False by (simpl; lia). by rewrite filter_nil, app_nil_r.
      * intros d Hd. by rewrite I2, upd_ne.
      * intros u Hu. apply I3, addTask_ready; [apply (so_cpu _ _ _ O1)|done].
      * intros k' u. rewrite elem_of_app, list_elem_of_singleton. intros [Hu|[= -> ->]] Hk; [by eapply I4|].
        apply I3. by eapply addTask_queued.
    + assert (Hall : Forall (fun e => now < e.1) (q ++ [(k, t)])).
      { apply Forall_app. split; [|repeat constructor; simpl; lia].
        eapply Forall_impl; [exact Hf|]. simpl. intros. lia. }
      rewrite filter_id by done. split_and!; try done.
      intros k' u Hu Hk. rewrite Forall_forall in Hall. apply Hall in Hu. simpl in Hu. lia.
Qed.

End spec.
