(* ===== verification/SchedSteps.v ===== *)
(** * Steps of the scheduler

    The system calls and interrupts of the scheduler as a step relation, what
    they leave alone ([sched_frame]), and how tasks enter and leave the system. *)

From S2P Require Import Prelude Containers Sched SchedSpec.

(** ** Steps *)

Section steps.
Context (cpus : list Z) (idle : Z -> Z) (A : list Z).
Context (Hcpus : NoDup cpus) (Hidle : NoDup (idle <$> cpus)) (HA : NoDup A).
Context (P : Z -> sched -> sched).
Implicit Types (s : sched) (c : Z).

(** One system call or decrementer interrupt on some processor. *)
Inductive sched_step : sched -> sched -> Prop :=
| step_yield c s : c ∈ cpus -> sched_step s (TaskYield c s)
| step_migrate c arg2 s : c ∈ cpus -> sched_step s (TaskMigrateToMaster c arg2 s)
| step_nanosleep c i_sec i_nsec now s :
    c ∈ cpus -> ~ is_idle_task cpus idle (s_cur s c) -> sched_step s (TimeNanosleep c i_sec i_nsec now s)
| step_decrementer c now s : c ∈ cpus -> sched_step s (execute_decrementer P c now s).

(** The periodic work itself loses no task. *)
Definition periodics_ok : Prop :=
  forall c s held, c ∈ cpus -> sched_ok cpus idle A None s held ->
    sched_ok cpus idle A None (P c s) held /\ masterCPU (P c s) = masterCPU s.

Lemma yield_ok c s held :
  c ∈ cpus -> sched_ok cpus idle A None s held -> sched_ok cpus idle A None (TaskYield c s) held.
Proof.
  intros Hc O. unfold TaskYield. apply ok_setNextRunnable; [done..|].
  apply ok_returnRunnable; [done..| |].
  - by apply ok_enter.
  - by eapply idle_current.
Qed.

Lemma addTask_master t s : masterCPU (addTask t s) = masterCPU s.
Proof. unfold addTask. repeat case_match; done. Qed.

Lemma addTask_cur t s : s_cur (addTask t s) = s_cur s.
Proof. unfold addTask. repeat case_match; done. Qed.

Lemma setNextRunnable_master c s : masterCPU (setNextRunnable c s) = masterCPU s.
Proof. unfold setNextRunnable. repeat case_match; simplify_eq; done. Qed.

Lemma release_master n c now s :
  masterCPU (release_loop n c now s) = masterCPU s /\ s_cur (release_loop n c now s) = s_cur s.
Proof.
  revert s. induction n as [|n IH]; intros s; simpl; [done|]. repeat case_match; try done.
  destruct (IH (addTask z0 (set_delays c l s))) as [-> ->]. by rewrite addTask_master, addTask_cur.
Qed.

Lemma sched_step_ok s s' held :
  periodics_ok -> sched_step s s' -> sched_ok cpus idle A None s held -> masterCPU s ∈ cpus ->
  sched_ok cpus idle A None s' held /\ masterCPU s' = masterCPU s.
Proof.
  intros HP St O Hm. inversion St as [c ? Hc|c arg2 ? Hc|c i_sec i_nsec now ? Hc Hni|c now ? Hc]; subst s'; subst.
  - split; [by apply yield_ok|]. unfold TaskYield, returnRunnable. by rewrite setNextRunnable_master, addTask_master.
  - unfold TaskMigrateToMaster. set (s1 := TASK_SETRTN _ _ _).
    rewrite setNextRunnable_master. split; [|unfold addTaskMasterCPU; case_match; done].
    assert (O1 : sched_ok cpus idle A None s1 held) by by apply ok_setrtn.
    apply ok_setNextRunnable; [done..|].
    assert (O2 : sched_ok cpus idle A (Some c) s1 (in_hand cpus idle c s1 ++ held)) by by apply ok_enter.
    unfold in_hand in O2. change (s_cur s1 c) with (s_cur s c) in O2.
    destruct (decide _) as [Hi|Hi]; [|by apply ok_addTaskMasterCPU].
    rewrite (idle_current _ _ _ c s held Hc O Hi). by apply ok_addTask_idle.
  - unfold TimeNanosleep. rewrite setNextRunnable_master. split; [|done].
    apply ok_setNextRunnable; [done..|]. apply ok_setrtn; [done..|]. apply ok_delayTask; [done..|].
    assert (O2 : sched_ok cpus idle A (Some c) s (in_hand cpus idle c s ++ held)) by by apply ok_enter.
    unfold in_hand in O2.
    by rewrite decide_False in O2.
  - unfold execute_decrementer. set (s1 := checkReleaseTasks c now s).
    assert (O1 : sched_ok cpus idle A None s1 held) by by apply release_loop_ok.
    assert (Hm1 : masterCPU s1 = masterCPU s) by apply release_master.
    destruct (HP c s1 held Hc O1) as [O2 Hm2].
    case_match; [|split; congruence || done].
    split; [by apply yield_ok|]. unfold returnRunnable. rewrite setNextRunnable_master, addTask_master. congruence.
Qed.
End steps.

(** ** What scheduling leaves alone *)

(** The identity of every task stays. *)
Definition same_ids (s s' : sched) : Prop := forall u,
  t_tid (s_task s' u) = t_tid (s_task s u) /\ t_tracker (s_task s' u) = t_tracker (s_task s u) /\
  detached (s_task s' u) = detached (s_task s u).

#[export] Instance same_ids_pre : PreOrder same_ids.
Proof.
  split; [by intros s u|]. intros s1 s2 s3 H1 H2 u.
  destruct (H1 u) as (?&?&?), (H2 u) as (?&?&?). split_and!; congruence.
Qed.

Lemma set_task_ids t y s :
  t_tid y = t_tid (s_task s t) -> t_tracker y = t_tracker (s_task s t) -> detached y = detached (s_task s t) ->
  same_ids s (set_task t y s).
Proof. intros H1 H2 H3 u. simpl. unfold upd. case_match; b2p; by subst. Qed.

Lemma addTask_task t s u : u <> t -> s_task (addTask t s) u = s_task s u.
Proof. intros Hu. unfold addTask. repeat case_match; cbn; by rewrite upd_ne. Qed.

Lemma addTask_ids t s : same_ids s (addTask t s).
Proof.
  transitivity (set_state t TASK_STATE_READY s); [by apply set_task_ids|].
  unfold addTask. repeat case_match; done.
Qed.

Lemma addTaskMasterCPU_task t s u : u <> t -> s_task (addTaskMasterCPU t s) u = s_task s u.
Proof. intros Hu. unfold addTaskMasterCPU. repeat case_match; cbn; by rewrite upd_ne. Qed.

Lemma addTaskMasterCPU_ids t s : same_ids s (addTaskMasterCPU t s).
Proof.
  transitivity (set_state t TASK_STATE_READY s); [by apply set_task_ids|].
  unfold addTaskMasterCPU. repeat case_match; done.
Qed.

Lemma setNextRunnable_ids c s : same_ids s (setNextRunnable c s).
Proof. intros u. unfold setNextRunnable. repeat case_match; simplify_eq; cbn; unfold upd; case_match; b2p; by subst. Qed.

(** Only the task chosen changes. *)
Lemma setNextRunnable_task c s u :
  u <> s_cur (setNextRunnable c s) c -> s_task (setNextRunnable c s) u = s_task s u.
Proof.
  unfold setNextRunnable. repeat case_match; simplify_eq; cbn; rewrite upd_eq; intros Hu; by rewrite upd_ne.
Qed.

Lemma setNextRunnable_other c s d : d <> c -> s_cur (setNextRunnable c s) d = s_cur s d.
Proof. intros Hd. unfold setNextRunnable. repeat case_match; simplify_eq; cbn; by rewrite upd_ne. Qed.

Lemma setNextRunnable_idle_task c s : idle_task (setNextRunnable c s) = idle_task s.
Proof. unfold setNextRunnable. repeat case_match; simplify_eq; done. Qed.

Section frame.
Context (cpus : list Z) (idle : Z -> Z).
Context (Hcpus : NoDup cpus) (Hidle : NoDup (idle <$> cpus)).
Implicit Types (s : sched) (t c : Z) (A held : list Z) (x : option Z).

(** An operation by which no task is lost and the tasks held elsewhere stay as
    they are. *)
Definition sched_frame s s' : Prop := forall A held, NoDup A -> sched_ok cpus idle A None s held ->
  sched_ok cpus idle A None s' held /\ (forall u, u ∈ held -> s_task s' u = s_task s u) /\ same_ids s s'.

Lemma held_in_apart A x s held u c :
  NoDup A -> sched_ok cpus idle A x s held -> u ∈ held -> c ∈ cpus -> Some c <> x -> s_cur s c <> u.
Proof.
  intros HA O Hu Hc Hx. apply list_elem_of_split in Hu as (l1 & l2 & ->).
  eapply (held_not_current cpus idle A Hcpus Hidle HA) with (held := l1 ++ l2); [|exact Hc|exact Hx].
  eapply ok_perm; [|exact O]. by rewrite <-Permutation_middle.
Qed.

Lemma setNextRunnable_held A c s held u :
  NoDup A -> sched_ok cpus idle A (Some c) s held -> u ∈ held -> s_task (setNextRunnable c s) u = s_task s u.
Proof.
  intros HA O Hu. apply setNextRunnable_task. intros ->.
  assert (O1 : sched_ok cpus idle A None (setNextRunnable c s) held) by (by apply ok_setNextRunnable).
  by eapply (held_in_apart _ _ _ _ _ c HA O1 Hu); [apply (so_kernel _ _ _ _ _ _ O)|..].
Qed.

Lemma release_loop_frame n x c now s A held :
  NoDup A -> c ∈ cpus -> sched_ok cpus idle A x s held ->
  (forall u, u ∈ held -> s_task (release_loop n c now s) u = s_task s u) /\ same_ids s (release_loop n c now s).
Proof.
  intros HA Hc. revert s. induction n as [|n IH]; intros s O; [done|]. simpl.
  unfold PQueue.remove_if. destruct (last _) as [[k t]|] eqn:E; [|done]. destruct (fst _ <=? now); [|done].
  assert (O1 : sched_ok cpus idle A x (set_delays c (removelast (delay_list s c)) s) (t :: held)).
  { apply ok_take_delay with (k := k); [done..| |done]. by apply PQueue.last_removelast. }
  destruct (IH (addTask t (set_delays c (removelast (delay_list s c)) s))) as [I1 I2]; [by apply ok_addTask|].
  split.
  - intros u Hu. rewrite I1 by done. rewrite addTask_task; [done|]. intros ->.
    destruct (held_apart cpus idle A Hcpus Hidle HA x _ t held O1) as (_ & _ & _ & ?). done.
  - etransitivity; [|exact I2]. etransitivity; [|apply addTask_ids]. done.
Qed.

(** The current task when the kernel is entered on [c]. *)
Lemma in_hand_held A c s held u :
  NoDup A -> c ∈ cpus -> sched_ok cpus idle A None s held -> u ∈ held -> u <> s_cur s c.
Proof. intros HA Hc O Hu E. by eapply (held_in_apart _ _ _ _ _ c HA O Hu). Qed.

Lemma returnRunnable_ok A c s held :
  NoDup A -> c ∈ cpus -> sched_ok cpus idle A None s held -> sched_ok cpus idle A (Some c) (returnRunnable c s) held.
Proof. intros HA Hc O. apply ok_returnRunnable; [done..|by apply ok_enter|by eapply idle_current]. Qed.

Lemma yield_frame c s : c ∈ cpus -> sched_frame s (TaskYield c s).
Proof.
  intros Hc A held HA O. pose proof (returnRunnable_ok A c s held HA Hc O) as O1.
  unfold TaskYield. split_and!.
  - by apply ok_setNextRunnable.
  - intros u Hu. erewrite setNextRunnable_held by eauto. apply addTask_task. by eapply in_hand_held.
  - etransitivity; [|apply setNextRunnable_ids]. apply addTask_ids.
Qed.

(** ** Tasks enter and leave *)

Lemma ok_drop A A' x s t held :
  A ≡ₚ t :: A' -> sched_ok cpus idle A x s (t :: held) -> sched_ok cpus idle A' x s held.
Proof.
  intros E O. destruct O as [Q1 Q2 Q3 Q4 Q5 Q6 Q7 Q8 Q9 Q10 Q11]. split; try done.
  - apply (Permutation_cons_inv (a := t)). rewrite <-E, <-Q1. unfold all_tasks. clear. solve_Permutation.
  - intros u Hu. apply Q3. rewrite !elem_of_app in *. rewrite elem_of_cons. tauto.
Qed.

Lemma current_known A x s held c :
  sched_ok cpus idle A x s held -> c ∈ cpus -> Some c <> x -> s_cur s c ∈ A \/ is_idle_task cpus idle (s_cur s c).
Proof.
  intros O Hc Hx. destruct (running_in cpus idle x s c Hc Hx) as [H|H]; [by right|left].
  rewrite <-(so_all _ _ _ _ _ _ O). unfold all_tasks. rewrite !elem_of_app. tauto.
Qed.

Lemma ok_birth A x s s' t y held :
  NoDup A -> sched_ok cpus idle A x s held -> t ∉ A -> ~ is_idle_task cpus idle t -> t_cpu y ∈ cpus ->
  (forall u, s_task s' u = if u =? t then y else s_task s u) ->
  s_cur s' = s_cur s -> idle_task s' = idle_task s -> iv_taskList s' = iv_taskList s ->
  scheduler_extra s' = scheduler_extra s -> delay_list s' = delay_list s ->
  sched_ok cpus idle (t :: A) x s' (t :: held).
Proof.
  intros HA O Ht Hni Hy Hs E1 E2 E3 E4 E5.
  assert (Hk : forall u, u ∈ running cpus idle x s ++ ready cpus s ++ (sleeping cpus s).*2 ++ held -> u ∈ A)
    by (intros u Hu; by rewrite <-(so_all _ _ _ _ _ _ O)).
  assert (Hf : forall u, u ∈ A \/ is_idle_task cpus idle u -> s_task s' u = s_task s u).
  { intros u Hu. rewrite Hs, (proj2 (Z.eqb_neq u t)); [done|]. intros ->. tauto. }
  assert (O1 : sched_ok cpus idle A x s' held).
  { apply ok_fields with (s := s); [done..| | | |].
    - intros u. rewrite Hs. case_match; [done|apply O].
    - intros u [Hu|Hu]; [|by rewrite Hf by auto]. rewrite Hf; [done|left; apply Hk].
      rewrite !elem_of_app in *. tauto.
    - intros u [Hu|(c & Hc & Hx & <-)]; unfold state_of.
      + rewrite Hf; [done|left; apply Hk]. rewrite !elem_of_app in *. tauto.
      + rewrite Hf; [done|]. by eapply current_known.
    - intros u Hu. rewrite Hf; [done|left; apply Hk]. rewrite !elem_of_app. tauto. }
  destruct O1 as [Q1 Q2 Q3 Q4 Q5 Q6 Q7 Q8 Q9 Q10 Q11]. split; try done.
  - rewrite <-Q1. unfold all_tasks. clear. solve_Permutation.
  - intros u. rewrite !elem_of_app, elem_of_cons. intros [?|[?|[->|?]]]; [..|done|]; apply Q3; rewrite !elem_of_app; tauto.
Qed.
End frame.
