(* ===== verification/SchedClaims.v ===== *)
(** * The scheduler: theorems

    No task is lost or duplicated by any sequence of scheduling operations on
    any processors; a sleeping task is released exactly when its time has come;
    conversions between seconds and ticks. *)

From S2P Require Import Prelude Containers Sched SchedSpec SchedSteps.


(** [checkReleaseTasks] empties the processor's sleepers of exactly those
    whose time has come: afterwards the sleepers of the processor are the ones
    with a later key, in the same order, the other processors' sleepers are
    untouched, every task whose key is not after [now] is in a run queue, and
    no ready task left one. *)
Theorem release_exact (cpus : list Z) (idle : Z -> Z) (A : list Z) (x : option Z) (c now : Z) (s : sched) (held : list Z) :
  NoDup cpus -> NoDup (idle <$> cpus) -> NoDup A ->
  c ∈ cpus -> sched_ok cpus idle A x s held ->
  let s' := checkReleaseTasks c now s in
  delay_list s' c = filter (fun e => now < e.1) (delay_list s c) /\
  (forall d, d <> c -> delay_list s' d = delay_list s d) /\
  (forall u, u ∈ ready cpus s -> u ∈ ready cpus s') /\
  (forall k u, (k, u) ∈ delay_list s c -> k <= now -> u ∈ ready cpus s').
Proof. intros Hc Hi HA Hin O. by eapply release_loop_spec. Qed.

(** ** Time *)

Lemma word64_small z : 0 <= z < 18446744073709551616 -> u64 z = z.
Proof. intros Hz. by apply wrap_small. Qed.

Lemma convertSecToTicks_exact i_sec i_nsec :
  0 <= i_sec -> 0 <= i_nsec -> (i_sec * 1000000000 + i_nsec) * 512 < 2 ^ 64 ->
  convertSecToTicks i_sec i_nsec = (i_sec * 1000000000 + i_nsec) * 512 / 1000.
Proof.
  intros H1 H2 H3. unfold convertSecToTicks. change (timebaseFreq / 1000000) with 512.
  change (2 ^ 64) with 18446744073709551616 in H3.
  rewrite (word64_small (i_sec * _)), (word64_small (_ + i_nsec)), word64_small by lia. done.
Qed.

(** For every time of at most a year the conversion to time base ticks is
    exact in the tick (no 64-bit product overflows), and converting back gives
    the same seconds and nanoseconds up to one tick: at most 2 nanoseconds
    less. *)
Theorem time_roundtrip (i_sec i_nsec : Z) :
  0 <= i_sec <= 365 * 86400 -> 0 <= i_nsec < 1000000000 ->
  convertSecToTicks i_sec i_nsec = (i_sec * timebaseFreq * 1000 + i_nsec * 512) / 1000 /\
  exists d, 0 <= d <= 2 /\
    let '(o_sec, o_nsec) := convertTicksToSec (convertSecToTicks i_sec i_nsec) in
    o_sec = i_sec /\ o_nsec = i_nsec - d.
Proof.
  intros Hs Hn. rewrite convertSecToTicks_exact by lia. unfold timebaseFreq.
  assert (E : (i_sec * 1000000000 + i_nsec) * 512 / 1000 = i_sec * 512000000 + i_nsec * 512 / 1000).
  { rewrite <-(Z.div_add_l _ 1000) by lia. f_equal. lia. }
  split; [f_equal; lia|]. rewrite E. unfold convertTicksToSec. change (timebaseFreq / 1000000) with 512. unfold timebaseFreq.
  set (r := i_nsec * 512 / 1000). pose proof (Z.div_mod (i_nsec * 512) 1000) as Hr. fold r in Hr.
  pose proof (Z.mod_pos_bound (i_nsec * 512) 1000) as Hb.
  assert (Hr0 : 0 <= r < 512000000) by lia.
  assert (Es : (i_sec * 512000000 + r) / 512000000 = i_sec) by (rewrite Z.div_add_l by lia; rewrite Z.div_small; lia).
  rewrite Es. replace (i_sec * 512000000 + r - i_sec * 512000000) with r by lia.
  rewrite (word64_small r), word64_small by lia.
  pose proof (Z.div_mod (r * 1000) 512) as Hd. pose proof (Z.mod_pos_bound (r * 1000) 512) as Hdb.
  exists (i_nsec - r * 1000 / 512). split; [lia|]. split; [done|]. lia.
Qed.

(** The decrementer of an idle processor fires in time: the interval is
    between one tick and a whole slice, and it never passes the wake-up time of
    a task asleep on the processor whose time has not come. *)
Theorem idle_slice_bound (cpus : list Z) (idle : Z -> Z) (A : list Z) (x : option Z) (c now : Z) (s : sched) (held : list Z) :
  sched_ok cpus idle A x s held ->
  let n := getIdleTimeSliceCount c now s in
  1 <= n <= getTimeSliceCount /\
  (forall k u, (k, u) ∈ delay_list s c -> now < k -> now + n <= k) /\
  (forall k u, (k, u) ∈ delay_list s c -> k <= now -> n = 1).
Proof.
  intros O. pose proof (so_sorted _ _ _ _ _ _ O c) as Ho. unfold getIdleTimeSliceCount.
  assert (Hs : getTimeSliceCount = 512000) by reflexivity. rewrite Hs.
  destruct (last (delay_list s c)) as [[k t]|] eqn:E; cbv zeta.
  - apply PQueue.last_removelast in E. rewrite E in Ho |- *. apply PQueue.ordered_app_last in Ho as [_ Hf].
    assert (Hmin : forall k' u, (k', u) ∈ removelast (delay_list s c) ++ [(k, t)] -> k <= k').
    { intros k' u. rewrite elem_of_app, list_elem_of_singleton. intros [Hu|[= -> ->]]; [|lia].
      rewrite Forall_forall in Hf. by apply Hf in Hu. }
    clear E. repeat case_match; b2p; (split; [lia|]); split; intros k' u Hu Hk; apply Hmin in Hu; lia.
  - apply last_None in E. rewrite E. split; [lia|]. split; intros k u Hu; by apply elem_of_nil in Hu.
Qed.

(** ** A system of two processors *)

Section sample.
Definition sample_cpus : list Z := [0; 4].
Definition sample_idle (c : Z) : Z := 1000 + c.
Definition sample_task (t : Z) : task_t :=
  if t =? 10 then mkTask 0 TASK_STATE_RUNNING 0 0 0 false 10 (2000 + t)
  else if t =? 11 then mkTask 4 TASK_STATE_READY 0 0 0 false 11 (2000 + t)
  else if t =? 12 then mkTask 4 TASK_STATE_READY 0 1 0 false 12 (2000 + t)
  else if t =? 13 then mkTask 0 TASK_STATE_BLOCK_SLEEP 900 0 0 false 13 (2000 + t)
  else if t =? 1004 then mkTask 4 TASK_STATE_RUNNING 0 1 0 false 1004 (2000 + t)
  else mkTask 0 TASK_STATE_READY 0 0 0 false t (2000 + t).
Definition sample_sched : sched :=
  mkSched sample_task (fun c => if c =? 0 then 10 else 1004) sample_idle [11]
    (fun c => if c =? 4 then [12] else []) (fun c => if c =? 0 then [(900, 13)] else []) 0.

Lemma sample_sched_ok : sched_ok sample_cpus sample_idle [10; 11; 12; 13] None sample_sched [].
Proof.
  assert (Hc : forall c, c ∈ sample_cpus -> c = 0 \/ c = 4) by set_solver.
  split; simpl; try done.
  - intros t. unfold is_idle_task. cbn. set_solver.
  - intros c [-> | ->]%Hc; done.
  - intros c c' [-> | ->]%Hc [-> | ->]%Hc; done.
  - intros t. unfold sample_task. repeat case_match; set_solver.
  - intros c [-> | ->]%Hc; done.
  - intros t. cbn. rewrite !elem_of_cons. intros [->|[->|Hn]]; [done..|set_solver].
  - intros k t. cbn. rewrite list_elem_of_singleton. by intros [= -> ->].
  - intros c. unfold PQueue.ordered. destruct (c =? 0); repeat constructor.
Qed.

Lemma sample_nodup : NoDup sample_cpus /\ NoDup (sample_idle <$> sample_cpus) /\ NoDup [10; 11; 12; 13].
Proof. split_and!; apply (bool_decide_unpack _); vm_compute; exact I. Qed.

(** Task 10 sleeps, processor 4 takes its pinned task, which migrates to
    processor 0; there the decrementer releases task 13. *)
Definition sample_last : sched :=
  execute_decrementer (fun _ s => s) 0 1000
    (TaskMigrateToMaster 4 7 (TaskYield 4 (TimeNanosleep 0 1 5 100 sample_sched))).
End sample.


Lemma release_exact_witness :
  delay_list (checkReleaseTasks 0 899 sample_sched) 0 = [(900, 13)] /\
  13 ∈ ready sample_cpus (checkReleaseTasks 0 900 sample_sched).
Proof.
  destruct sample_nodup as (N1 & N2 & N3). assert (H0 : 0 ∈ sample_cpus) by by left.
  destruct (release_exact sample_cpus sample_idle [10; 11; 12; 13] None 0 899 sample_sched [] N1 N2 N3 H0 sample_sched_ok) as (E1 & _).
  destruct (release_exact sample_cpus sample_idle [10; 11; 12; 13] None 0 900 sample_sched [] N1 N2 N3 H0 sample_sched_ok) as (_ & _ & _ & E2).
  split; [rewrite E1; reflexivity|]. apply (E2 900); [by left|lia].
Defined.

Lemma time_roundtrip_witness :
  convertSecToTicks 86400 999999999 = 44237311999999 /\ convertTicksToSec 44237311999999 = (86400, 999999998).
Proof.
  destruct (time_roundtrip 86400 999999999) as [E _]; [lia..|]. split; [rewrite E; reflexivity|reflexivity].
Defined.

Lemma idle_slice_bound_witness :
  getIdleTimeSliceCount 0 100 sample_sched = 800 /\ 1 <= getIdleTimeSliceCount 0 100 sample_sched.
Proof.
  split; [reflexivity|].
  destruct (idle_slice_bound sample_cpus sample_idle [10; 11; 12; 13] None 0 100 sample_sched [] sample_sched_ok) as [H _]. lia.
Defined.
