(* ===== verification/TaskMgr.v ===== *)
(** * Tasks: creation, end and join ([src/kernel/taskmgr.C])

    A tracker is named by its address; it outlives its task until the parent has
    joined it.  Trackers form a tree: the trackers whose parent is the kernel
    are on [iv_taskList], the others on their parent's [children].  An operation
    ends normally, in a kernel assertion, or in a wild write: unlinking a node
    from a list it is not on follows the stale links of the node. *)

From S2P Require Import Prelude Containers Sched.

Inductive res (A : Type) : Type := Ok (a : A) | Kassert | Wild | NoFuel.
Arguments Ok {A} a.
Arguments Kassert {A}.
Arguments Wild {A}.
Arguments NoFuel {A}.

Definition res_bind {A B} (f : A -> res B) (m : res A) : res B :=
  match m with Ok a => f a | Kassert => Kassert | Wild => Wild | NoFuel => NoFuel end.

Definition EDEADLK : Z := 35.
Definition EFAULT : Z := 14.
Definition TASK_STATUS_EXITED_CLEAN : Z := 0.
Definition TASK_STATUS_CRASHED : Z := 1.

Record task_wait_t : Type := mkWait {
  w_tid : Z;
  w_status : Z;
  w_retval : Z
}.

Record task_tracking_t : Type := mkTracking {
  parent : option Z;
  children : list Z;
  key : Z;
  task : option Z;
  status : Z;
  retval : Z;
  wait_info : option task_wait_t
}.

(** [tm_mem] is the memory the results of a join are written to. *)
Record TaskManager : Type := mkTM {
  tm_sched : sched;
  tracker : Z -> task_tracking_t;
  tm_taskList : list Z;
  iv_nextTid : Z;
  tm_mem : Z -> Z
}.

Section taskmgr.
Implicit Types (s : TaskManager) (t tr c : Z).

Definition on_sched (f : sched -> sched) s : TaskManager :=
  mkTM (f (tm_sched s)) (tracker s) (tm_taskList s) (iv_nextTid s) (tm_mem s).
Definition set_tracker tr (x : task_tracking_t) s : TaskManager :=
  mkTM (tm_sched s) (upd (tracker s) tr x) (tm_taskList s) (iv_nextTid s) (tm_mem s).
Definition set_taskList (l : list Z) s : TaskManager :=
  mkTM (tm_sched s) (tracker s) l (iv_nextTid s) (tm_mem s).
Definition set_nextTid (n : Z) s : TaskManager :=
  mkTM (tm_sched s) (tracker s) (tm_taskList s) n (tm_mem s).
Definition write_mem (a v : Z) s : TaskManager :=
  mkTM (tm_sched s) (tracker s) (tm_taskList s) (iv_nextTid s) (upd (tm_mem s) a v).

Definition set_parent tr (p : option Z) s : TaskManager :=
  let x := tracker s tr in
  set_tracker tr (mkTracking p (children x) (key x) (task x) (status x) (retval x) (wait_info x)) s.
Definition set_children tr (l : list Z) s : TaskManager :=
  let x := tracker s tr in
  set_tracker tr (mkTracking (parent x) l (key x) (task x) (status x) (retval x) (wait_info x)) s.
Definition set_finished tr (st rv : Z) s : TaskManager :=
  let x := tracker s tr in
  set_tracker tr (mkTracking (parent x) (children x) (key x) None st rv (wait_info x)) s.
Definition set_wait_info tr (w : option task_wait_t) s : TaskManager :=
  let x := tracker s tr in
  set_tracker tr (mkTracking (parent x) (children x) (key x) (task x) (status x) (retval x) w) s.

(** The list a tracker with parent [p] is on. *)
Definition trackingList (p : option Z) s : list Z :=
  match p with Some p => children (tracker s p) | None => tm_taskList s end.
Definition set_trackingList (p : option Z) (l : list Z) s : TaskManager :=
  match p with Some p => set_children p l s | None => set_taskList l s end.

(** [List::erase(node)]: the node must be on the list. *)
Definition erase_node tr (l : list Z) : option (list Z) :=
  if bool_decide (tr ∈ l) then Some (LList.erase id tr l) else None.

(** The loop of [removeTracker] over the children of [t]; [rm] is the recursive
    call. *)
Fixpoint adopt (rm : Z -> TaskManager -> res TaskManager) (fuel : nat) (par : option Z) tr s : res TaskManager :=
  match fuel with
  | O => NoFuel
  | S fuel =>
      match Queue.remove (children (tracker s tr)) with
      | (None, _) => Ok s
      | (Some child, q) =>
          let s := set_parent child par (set_children tr q s) in
          if negb (bool_decide (is_Some par)) && negb (bool_decide (is_Some (task (tracker s child)))) then
            if status (tracker s child) =? TASK_STATUS_CRASHED then Kassert
            else res_bind (adopt rm fuel par tr) (rm child s)
          else adopt rm fuel par tr (set_trackingList par (LList.insert child (trackingList par s)) s)
      end
  end.

Fixpoint removeTracker (fuel : nat) tr s : res TaskManager :=
  match fuel with
  | O => NoFuel
  | S fuel =>
      let par := parent (tracker s tr) in
      match erase_node tr (trackingList par s) with
      | None => Wild
      | Some l =>
          let s := set_trackingList par l s in
          adopt (removeTracker fuel) (S (length (children (tracker s tr)))) par tr s
      end
  end.

(** [_createTask]; [new_task] and [new_tracker] are the addresses of the new
    objects, [p] the argument; the entry point, the stack and the other
    registers are not modelled. *)
Definition createTask c (new_task new_tracker p : Z) (kernelParent : bool) s : TaskManager :=
  let tid := iv_nextTid s in
  let s := set_nextTid (wrap 16 (tid + 1)) s in
  let s := on_sched (set_task new_task (mkTask 0 TASK_STATE_READY 0 0 p false tid new_tracker)) s in
  if kernelParent then
    let s := set_tracker new_tracker (mkTracking None [] tid (Some new_task) (-1) 0 None) s in
    set_taskList (LList.insert new_tracker (tm_taskList s)) s
  else
    let par := t_tracker (s_task (tm_sched s) (s_cur (tm_sched s) c)) in
    let s := set_tracker new_tracker (mkTracking (Some par) [] tid (Some new_task) (-1) 0 None) s in
    set_children par (LList.insert new_tracker (children (tracker s par))) s.

(** The parent is waiting for this child: it gets the results and becomes
    ready, and the child is forgotten. *)
Definition join_results (w : task_wait_t) (rv st : Z) s : TaskManager :=
  let s := if w_status w =? 0 then s else write_mem (w_status w) st s in
  if w_retval w =? 0 then s else write_mem (w_retval w) rv s.

Definition join_waiter par (w : task_wait_t) tr (tid rv st : Z) s : res TaskManager :=
  let s := set_wait_info par None (join_results w rv st s) in
  match task (tracker s par) with
  | None => Wild
  | Some tp =>
      let s := on_sched (TASK_SETRTN tp tid) s in
      res_bind (fun s => Ok (on_sched (addTask tp) s)) (removeTracker 2 tr s)
  end.

(** [_endTask] from the update of the tracker on; the task and its stack are
    deleted at the end. *)
Definition finishTask t (rv st : Z) s : res TaskManager :=
  let x := s_task (tm_sched s) t in
  let tr := t_tracker x in
  let s := set_finished tr st rv s in
  if detached x then
    if st =? TASK_STATUS_CRASHED then Kassert else removeTracker 2 tr s
  else
    match parent (tracker s tr) with
    | Some par =>
        match wait_info (tracker s par) with
        | Some w =>
            if (w_tid w <? 0) || (w_tid w =? t_tid x) then join_waiter par w tr (t_tid x) rv st s
            else Ok s
        | None => Ok s
        end
    | None => if st =? TASK_STATUS_CRASHED then Kassert else removeTracker 2 tr s
    end.

Definition endTask c t (rv st : Z) s : res TaskManager :=
  let s := on_sched (set_state t TASK_STATE_ENDED) s in
  let s := if s_cur (tm_sched s) c =? t then on_sched (setNextRunnable c) s else s in
  finishTask t rv st s.

(** The first child whose task has ended. *)
Fixpoint find_finished (l : list Z) s : option Z :=
  match l with
  | [] => None
  | tr :: l => if bool_decide (is_Some (task (tracker s tr))) then find_finished l s else Some tr
  end.

(** The end of [_waitTask], once the candidate is chosen. *)
Definition block_join c t (tid st rv : Z) s : TaskManager :=
  let tr := t_tracker (s_task (tm_sched s) t) in
  let s := set_wait_info tr (Some (mkWait tid st rv)) s in
  let s := on_sched (fun q => set_info t tid (set_state t TASK_STATE_BLOCK_JOIN q)) s in
  on_sched (setNextRunnable c) s.

Definition join_or_block c t (tid st rv : Z) (child_task : option Z) s : res TaskManager :=
  match child_task with
  | Some ch =>
      if bool_decide (is_Some (task (tracker s ch))) then Ok (block_join c t tid st rv s)
      else
        let s := on_sched (TASK_SETRTN t (key (tracker s ch))) s in
        let s := join_results (mkWait tid st rv) (retval (tracker s ch)) (status (tracker s ch)) s in
        removeTracker 2 ch s
  | None => Ok (block_join c t tid st rv s)
  end.

(** [_waitTask]; [st] and [rv] are the addresses for the results, 0 for none. *)
Definition waitTask c t (tid st rv : Z) s : res TaskManager :=
  let tr := t_tracker (s_task (tm_sched s) t) in
  let kids := children (tracker s tr) in
  if tid <? 0 then
    match kids with
    | [] => Ok (on_sched (TASK_SETRTN t (u64 (- EDEADLK))) s)
    | _ => join_or_block c t tid st rv (find_finished kids s) s
    end
  else
    match LList.find (fun tr => key (tracker s tr)) (wrap 16 tid) kids with
    | None => Ok (on_sched (TASK_SETRTN t (u64 (- EDEADLK))) s)
    | Some ch => join_or_block c t tid st rv (Some ch) s
    end.

(** ** The system calls *)

Definition TaskStart c (arg1 new_task new_tracker : Z) s : TaskManager :=
  let t := s_cur (tm_sched s) c in
  let s := createTask c new_task new_tracker arg1 false s in
  let s := on_sched (fun q => set_cpu new_task (t_cpu (s_task q t)) q) s in
  let s := on_sched (addTask new_task) s in
  on_sched (fun q => TASK_SETRTN t (t_tid (s_task q new_task)) q) s.

Definition TaskEnd c (arg0 : Z) s : res TaskManager :=
  endTask c (s_cur (tm_sched s) c) arg0 TASK_STATUS_EXITED_CLEAN s.

(** [findKernelAddress] translates the user's addresses. *)
Definition TaskWait (findKernelAddress : Z -> Z) c (arg0 arg1 arg2 : Z) s : res TaskManager :=
  let t := s_cur (tm_sched s) c in
  let fail := on_sched (TASK_SETRTN t (u64 (- EFAULT))) s in
  let st := if arg1 =? 0 then 0 else findKernelAddress arg1 in
  if negb (arg1 =? 0) && (st =? u64 (- EFAULT)) then Ok fail else
  let rv := if arg2 =? 0 then 0 else findKernelAddress arg2 in
  if negb (arg2 =? 0) && (rv =? u64 (- EFAULT)) then Ok fail else
  waitTask c t arg0 st rv s.
End taskmgr.
