(* ===== verification/TaskMgrSpec.v ===== *)
(** * The tree of trackers

    What [removeTracker] does, field by field, and that it keeps the tree of
    trackers well formed. *)

From S2P Require Import Prelude Containers Sched TaskMgr.

Section spec.
Implicit Types (s : TaskManager) (t tr x : Z) (q par : option Z).

Lemma tracker_set_tracker tr y s x : tracker (set_tracker tr y s) x = if x =? tr then y else tracker s x.
Proof. done. Qed.

(** The fields a change of the tree leaves alone. *)
Definition same_fields s s' : Prop := forall x,
  key (tracker s' x) = key (tracker s x) /\ task (tracker s' x) = task (tracker s x) /\
  status (tracker s' x) = status (tracker s x) /\ retval (tracker s' x) = retval (tracker s x) /\
  wait_info (tracker s' x) = wait_info (tracker s x).

Definition same_rest s s' : Prop :=
  tm_sched s' = tm_sched s /\ tm_mem s' = tm_mem s /\ iv_nextTid s' = iv_nextTid s.

#[export] Instance same_fields_pre : PreOrder same_fields.
Proof.
  split; [by intros s x|]. intros s1 s2 s3 H1 H2 x.
  destruct (H1 x) as (?&?&?&?&?), (H2 x) as (?&?&?&?&?). split_and!; congruence.
Qed.

#[export] Instance same_rest_pre : PreOrder same_rest.
Proof. split; [done|]. unfold same_rest. intros s1 s2 s3 (?&?&?) (?&?&?). split_and!; congruence. Qed.

Lemma set_parent_same tr p s : same_fields s (set_parent tr p s) /\ same_rest s (set_parent tr p s).
Proof. split; [|done]. intros x. cbn. unfold upd. case_match; b2p; by subst. Qed.

Lemma set_list_same q l s : same_fields s (set_trackingList q l s) /\ same_rest s (set_trackingList q l s).
Proof.
  destruct q as [p|]; (split; [|done]); intros x; [|done]. cbn. unfold upd. case_match; b2p; by subst.
Qed.

Lemma parent_set_parent tr p s x :
  parent (tracker (set_parent tr p s) x) = if x =? tr then p else parent (tracker s x).
Proof. cbn. unfold upd. by case_match. Qed.

Lemma parent_set_list q l s x : parent (tracker (set_trackingList q l s) x) = parent (tracker s x).
Proof. destruct q; [|done]. cbn. unfold upd. case_match; b2p; by subst. Qed.

Lemma list_set_parent tr p s q : trackingList q (set_parent tr p s) = trackingList q s.
Proof. destruct q; [|done]. cbn. unfold upd. case_match; b2p; by subst. Qed.

Lemma list_set_list q l s q' :
  trackingList q' (set_trackingList q l s) = if decide (q' = q) then l else trackingList q' s.
Proof.
  destruct q as [p|], q' as [p'|]; cbn; try done.
  - unfold upd. destruct (p' =? p) eqn:E; b2p; [subst; by rewrite decide_True|]. rewrite decide_False by congruence. done.
Qed.

(** ** Adopting the children *)

Record adopted par tr (kids : list Z) s s' : Prop := {
  ad_rest : same_rest s s';
  ad_fields : same_fields s s';
  ad_parent x : parent (tracker s' x) = if decide (x ∈ kids) then par else parent (tracker s x);
  ad_list q : trackingList q s' =
    if decide (q = Some tr) then [] else
    if decide (q = par) then kids ++ trackingList q s else trackingList q s
}.

Definition adoptable par (kids : list Z) s : Prop :=
  is_Some par \/ forall x, x ∈ kids -> is_Some (task (tracker s x)).

Lemma Queue_remove_snoc {B} (l : list B) (x : B) : Queue.remove (l ++ [x]) = (Some x, l).
Proof. unfold Queue.remove. by rewrite last_snoc, removelast_last. Qed.

Lemma adopt_spec rm par tr kids : par <> Some tr -> forall n s,
  (length kids < n)%nat -> children (tracker s tr) = kids -> adoptable par kids s ->
  exists s', adopt rm n par tr s = Ok s' /\ adopted par tr kids s s'.
Proof.
  intros Hpar. induction kids as [|x kids IH] using rev_ind; intros n s Hn Hk Ha;
    (destruct n as [|n]; [simpl in Hn; lia|]); cbn [adopt]; rewrite Hk.
  - exists s. split; [done|]. split; try reflexivity.
    intros q. destruct (decide _) as [->|]; [done|]. by destruct (decide _).
  - rewrite Queue_remove_snoc. rewrite length_app in Hn. simpl in Hn.
    set (s1 := set_parent x par (set_children tr kids s)).
    assert (F1 : same_fields s s1).
    { transitivity (set_trackingList (Some tr) kids s); [apply set_list_same|apply set_parent_same]. }
    assert (E : negb (bool_decide (is_Some par)) && negb (bool_decide (is_Some (task (tracker s1 x)))) = false).
    { destruct (F1 x) as (_ & -> & _). destruct Ha as [Ha|Ha].
      - by rewrite bool_decide_eq_true_2.
      - rewrite (bool_decide_eq_true_2 (is_Some (task _))); [by rewrite andb_false_r|]. apply Ha. set_solver. }
    rewrite E. clear E. set (s2 := set_trackingList par _ s1).
    assert (F2 : same_fields s s2) by (transitivity s1; [done|apply set_list_same]).
    assert (L2 : forall q, trackingList q s2 = if decide (q = par) then x :: trackingList par s else
                   if decide (q = Some tr) then kids else trackingList q s).
    { intros q. subst s2 s1. rewrite list_set_list, !list_set_parent.
      change (set_children tr kids s) with (set_trackingList (Some tr) kids s).
      rewrite !list_set_list. rewrite (decide_False (P := par = Some tr)) by done. done. }
    destruct (IH n s2) as (s' & Hs' & [A1 A2 A3 A4]).
    + lia.
    + change (trackingList (Some tr) s2 = kids). rewrite L2, decide_False, decide_True by congruence. done.
    + destruct Ha as [Ha|Ha]; [by left|right]. intros y Hy. destruct (F2 y) as (_ & -> & _). apply Ha. set_solver.
    + exists s'. split; [done|]. split.
      * transitivity s2; [|done]. transitivity s1; [done|]. apply set_list_same.
      * by transitivity s2.
      * intros y. rewrite A3. subst s2 s1. rewrite parent_set_list, parent_set_parent.
        change (set_children tr kids s) with (set_trackingList (Some tr) kids s). rewrite parent_set_list.
        destruct (decide (y ∈ kids)); [rewrite decide_True by set_solver; done|].
        destruct (y =? x) eqn:Ey; b2p; [subst; by rewrite decide_True by set_solver|].
        by rewrite decide_False by set_solver.
      * intros q. rewrite A4. destruct (decide (q = Some tr)); [done|]. rewrite L2.
        destruct (decide (q = par)) as [->|]; [|by rewrite (decide_False (P := q = Some tr))].
        by rewrite <-app_assoc.
Qed.

(** ** [removeTracker] *)

Record removed tr s s' : Prop := {
  rm_rest : same_rest s s';
  rm_fields : same_fields s s';
  rm_parent x : parent (tracker s' x) =
    if decide (x ∈ children (tracker s tr)) then parent (tracker s tr) else parent (tracker s x);
  rm_list q : trackingList q s' =
    if decide (q = Some tr) then [] else
    if decide (q = parent (tracker s tr)) then children (tracker s tr) ++ LList.erase id tr (trackingList q s)
    else trackingList q s
}.

Lemma removeTracker_spec tr s :
  let par := parent (tracker s tr) in
  par <> Some tr -> tr ∈ trackingList par s -> adoptable par (children (tracker s tr)) s ->
  exists s', removeTracker 2 tr s = Ok s' /\ removed tr s s'.
Proof.
  intros par Hpar Hin Ha. cbn [removeTracker]. fold par. unfold erase_node.
  rewrite bool_decide_eq_true_2 by done. set (l := LList.erase id tr (trackingList par s)).
  set (s1 := set_trackingList par l s).
  assert (Hk : children (tracker s1 tr) = children (tracker s tr)).
  { change (trackingList (Some tr) s1 = children (tracker s tr)). unfold s1. rewrite list_set_list. by rewrite decide_False. }
  destruct (set_list_same par l s) as [F1 R1]. fold s1 in F1, R1.
  destruct (adopt_spec (removeTracker 1) par tr (children (tracker s tr)) Hpar
              (S (length (children (tracker s1 tr)))) s1) as (s' & Hs' & [A1 A2 A3 A4]).
  - rewrite Hk. lia.
  - done.
  - destruct Ha as [Ha|Ha]; [by left|right]. intros x Hx. destruct (F1 x) as (_ & -> & _). auto.
  - exists s'. split; [exact Hs'|]. split.
    + by transitivity s1.
    + by transitivity s1.
    + intros x. rewrite A3. unfold s1. by rewrite parent_set_list.
    + intros q. rewrite A4. fold par. destruct (decide _); [done|]. unfold s1. rewrite list_set_list.
      destruct (decide (q = par)) as [->|]; done.
Qed.

(** A finished child that would become the kernel's is not on the kernel's list,
    so its own removal goes wild, or it crashed and the kernel stops. *)
Lemma adopt_not_adoptable tr kids : forall n s,
  (length kids < n)%nat -> children (tracker s tr) = kids -> NoDup kids ->
  (forall x, x ∈ kids -> x ∉ tm_taskList s) -> ~ adoptable None kids s ->
  adopt (removeTracker 1) n None tr s = Kassert \/ adopt (removeTracker 1) n None tr s = Wild.
Proof.
  induction kids as [|x kids IH] using rev_ind; intros n s Hn Hk Hnd Hdis Ha;
    (destruct n as [|n]; [simpl in Hn; lia|]).
  { destruct Ha. right. by intros x ?%elem_of_nil. }
  cbn [adopt]; rewrite Hk, Queue_remove_snoc. rewrite length_app in Hn. simpl in Hn.
  apply NoDup_app in Hnd as (Hn1 & Hn2 & _).
  set (s1 := set_parent x None (set_children tr kids s)).
  assert (F1 : same_fields s s1).
  { transitivity (set_trackingList (Some tr) kids s); [apply set_list_same|apply set_parent_same]. }
  change (bool_decide (is_Some None)) with false. cbn [negb andb].
  destruct (bool_decide (is_Some (task (tracker s1 x)))) eqn:E; cbn [negb].
  - apply bool_decide_eq_true in E. destruct (F1 x) as (_ & Ht & _). rewrite Ht in E.
    apply IH; [lia| |done| |].
    + change (trackingList (Some tr) (set_trackingList None (LList.insert x (tm_taskList s)) s1) = kids).
      rewrite list_set_list, decide_False by done. subst s1. rewrite list_set_parent.
      change (set_children tr kids s) with (set_trackingList (Some tr) kids s). by rewrite list_set_list, decide_True.
    + intros y Hy. cbn. intros [->|Hin]%elem_of_cons; [by apply (Hn2 x Hy); left|].
      apply (Hdis y); [set_solver|done].
    + intros [[? ?]|Ha2]; [done|]. apply Ha. right. intros y [Hy|Hy]%elem_of_app.
      * destruct (F1 y) as (_ & <- & _). by apply Ha2.
      * apply list_elem_of_singleton in Hy as ->. done.
  - destruct (_ =? TASK_STATUS_CRASHED); [by left|]. right.
    cbn [removeTracker]. replace (parent (tracker s1 x)) with (@None Z) by (subst s1; rewrite parent_set_parent; by rewrite Z.eqb_refl).
    unfold erase_node. rewrite bool_decide_eq_false_2; [done|]. apply Hdis. set_solver.
Qed.

(** ** The tree *)

Definition vparent (live : list Z) q : Prop := match q with None => True | Some p => p ∈ live end.

(** [live] are the trackers not deleted yet. *)
Record tree_ok (live : list Z) s : Prop := {
  tk_nodup : NoDup live;
  tk_nodups q : vparent live q -> NoDup (trackingList q s);
  tk_list q x : vparent live q -> x ∈ trackingList q s <-> x ∈ live /\ parent (tracker s x) = q;
  tk_parent x : x ∈ live -> vparent live (parent (tracker s x));
  tk_rank : exists rank : Z -> nat, forall x p,
    x ∈ live -> parent (tracker s x) = Some p -> (rank p < rank x)%nat
}.

Lemma erase_elem tr x (l : list Z) : NoDup l -> x ∈ LList.erase id tr l <-> x ∈ l /\ x <> tr.
Proof.
  induction l as [|y l IH]; intros Hn; simpl; [set_solver|].
  apply NoDup_cons in Hn as [Hy Hn]. unfold id at 1. destruct (y =? tr) eqn:E; b2p; simpl.
  - subst y. split; [|set_solver]. intros Hx. split; [by right|]. by intros ->.
  - rewrite !elem_of_cons, IH by done. split; [|tauto]. intros [->|[? ?]]; tauto.
Qed.

Lemma erase_nodup tr (l : list Z) : NoDup l -> NoDup (LList.erase id tr l).
Proof.
  induction l as [|y l IH]; intros Hn; simpl; [constructor|].
  apply NoDup_cons in Hn as [Hy Hn]. destruct (negb _); [|done].
  apply NoDup_cons. split; [|auto]. rewrite erase_elem by done. tauto.
Qed.

Section removed.
Context (live live' : list Z) (tr : Z) (s s' : TaskManager).
Context (T : tree_ok live s) (Hl : live ≡ₚ tr :: live') (R : removed tr s s').

Lemma parent_irrefl x : x ∈ live -> parent (tracker s x) <> Some x.
Proof. intros Hx E. destruct (tk_rank _ _ T) as (rank & Hr). pose proof (Hr x x Hx E). lia. Qed.

Lemma removed_live x : x ∈ live' <-> x ∈ live /\ x <> tr.
Proof.
  pose proof (tk_nodup _ _ T) as Hn. rewrite Hl in Hn |- *. apply NoDup_cons in Hn as [H1 H2].
  rewrite elem_of_cons. split; [|tauto]. intros Hx. split; [by right|]. by intros ->.
Qed.

Lemma removed_tree : tree_ok live' s'.
Proof.
  assert (Htr : tr ∈ live) by (rewrite Hl; by left).
  set (par := parent (tracker s tr)). assert (Hpar : par <> Some tr) by by apply parent_irrefl.
  assert (Hvp : vparent live par) by by apply (tk_parent _ _ T).
  assert (Hv : forall q, vparent live' q <-> vparent live q /\ q <> Some tr).
  { intros [p|]; simpl; [rewrite removed_live|]; naive_solver congruence. }
  assert (Hkid : forall x, x ∈ children (tracker s tr) <-> x ∈ live /\ parent (tracker s x) = Some tr)
    by (intros x; by apply (tk_list _ _ T (Some tr))).
  split.
  - pose proof (tk_nodup _ _ T) as Hn. rewrite Hl in Hn. by apply NoDup_cons in Hn as [_ Hn].
  - intros q [Hq1 Hq2]%Hv. rewrite (rm_list _ _ _ R). rewrite decide_False by done. fold par.
    destruct (decide (q = par)) as [->|]; [|by apply (tk_nodups _ _ T)].
    apply NoDup_app. split_and!.
    + by apply (tk_nodups _ _ T (Some tr)).
    + intros x [_ Hx]%Hkid Hx2. apply erase_elem in Hx2 as [Hx2 _]; [|by apply (tk_nodups _ _ T)].
      apply (tk_list _ _ T) in Hx2 as [_ Hx2]; [|done]. by rewrite Hx in Hx2.
    + by apply erase_nodup, (tk_nodups _ _ T).
  - intros q x [Hq1 Hq2]%Hv. rewrite (rm_list _ _ _ R), (rm_parent _ _ _ R). rewrite decide_False by done. fold par.
    rewrite removed_live. destruct (decide (q = par)) as [->|Hqp].
    + rewrite elem_of_app, erase_elem, (tk_list _ _ T) by (done || by apply (tk_nodups _ _ T)).
      destruct (decide (x ∈ children (tracker s tr))) as [Hk|Hk]; [|tauto].
      apply Hkid in Hk as Hk2. split; [|tauto]. intros _. split_and!; [tauto| |done].
      intros ->. destruct Hk2 as [? E]. by apply (parent_irrefl tr).
    + rewrite (tk_list _ _ T) by done. destruct (decide (x ∈ children (tracker s tr))) as [Hk|Hk].
      * apply Hkid in Hk as [? E]. split; [intros [_ E2]; congruence|intros [_ E2]; congruence].
      * split; [|tauto]. intros [? E]. split_and!; [done| |done]. intros ->. by apply Hqp.
  - intros x [Hx1 Hx2]%removed_live. rewrite (rm_parent _ _ _ R). fold par. apply Hv.
    destruct (decide _) as [Hk|Hk]; [done|]. split; [by apply (tk_parent _ _ T)|].
    intros E. by apply Hk, Hkid.
  - destruct (tk_rank _ _ T) as (rank & Hr). exists rank. intros x p [Hx1 Hx2]%removed_live.
    rewrite (rm_parent _ _ _ R). fold par. destruct (decide _) as [Hk|Hk]; [|by apply Hr].
    intros E. apply Hkid in Hk as [_ Hk]. pose proof (Hr x tr Hx1 Hk). pose proof (Hr tr p Htr E). lia.
Qed.
End removed.

(** A new tracker is a leaf. *)
Lemma insert_tree live s s' tr par :
  tree_ok live s -> tr ∉ live -> vparent live par ->
  parent (tracker s' tr) = par -> children (tracker s' tr) = [] ->
  (forall x, x <> tr -> parent (tracker s' x) = parent (tracker s x)) ->
  (forall q, q <> Some tr -> trackingList q s' = if decide (q = par) then tr :: trackingList q s else trackingList q s) ->
  tree_ok (tr :: live) s'.
Proof.
  intros T Htr Hpar Ep Ec Hp Hlist.
  assert (Hne : par <> Some tr) by (intros ->; by apply Htr).
  assert (Hl : forall x, x ∈ live -> x <> tr) by (by intros x Hx ->).
  assert (Hnot : forall q, vparent live q -> tr ∉ trackingList q s)
    by (intros q Hq Hin; apply (tk_list _ _ T) in Hin; tauto).
  assert (Hv : forall q, vparent (tr :: live) q <-> vparent live q \/ q = Some tr).
  { intros [p|]; simpl; [rewrite elem_of_cons|]; naive_solver congruence. }
  assert (Hleaf : forall x, x ∈ live -> parent (tracker s x) <> Some tr).
  { intros x Hx E. pose proof (tk_parent _ _ T x Hx) as Hv2. rewrite E in Hv2. by apply Htr. }
  split.
  - apply NoDup_cons. split; [done|apply T].
  - intros q [Hq| ->]%Hv; [|by cbn; rewrite Ec; constructor].
    rewrite Hlist by (intros ->; by apply Htr). destruct (decide _); [|by apply (tk_nodups _ _ T)].
    apply NoDup_cons. split; [by apply Hnot|by apply (tk_nodups _ _ T)].
  - intros q x [Hq| ->]%Hv.
    + assert (q <> Some tr) by (intros ->; by apply Htr). rewrite Hlist by done. rewrite elem_of_cons.
      destruct (decide (x = tr)) as [->|Hx].
      * rewrite Ep. destruct (decide (q = par)) as [->|]; [split; [tauto|by left]|].
        pose proof (Hnot q Hq). naive_solver congruence.
      * rewrite Hp by done. destruct (decide (q = par)) as [->|]; rewrite ?elem_of_cons, (tk_list _ _ T) by done; tauto.
    + cbn. rewrite Ec. split; [by intros ?%elem_of_nil|].
      intros [[->|Hx]%elem_of_cons E]; [congruence|]. rewrite Hp in E by auto. by apply Hleaf in E.
  - intros x Hx. apply Hv. apply elem_of_cons in Hx as [->|Hx]; [left; congruence|]. left. rewrite Hp by auto. by apply (tk_parent _ _ T).
  - destruct (tk_rank _ _ T) as (rank & Hr).
    exists (fun x => if x =? tr then match par with Some p => S (rank p) | None => 0%nat end else rank x).
    intros x p [->|Hx]%elem_of_cons.
    + rewrite Ep. intros E. rewrite E in *. rewrite Z.eqb_refl, (proj2 (Z.eqb_neq p tr)) by congruence. lia.
    + rewrite Hp by auto. intros E. rewrite (proj2 (Z.eqb_neq x tr)) by auto.
      rewrite (proj2 (Z.eqb_neq p tr)); [by apply Hr|]. intros ->. by apply (Hleaf x).
Qed.

(** When [removeTracker] succeeds. *)
Lemma removeTracker_cases live tr s :
  tree_ok live s -> tr ∈ live ->
  (exists s', removeTracker 2 tr s = Ok s' /\ removed tr s s' /\
     adoptable (parent (tracker s tr)) (children (tracker s tr)) s) \/
  ((removeTracker 2 tr s = Kassert \/ removeTracker 2 tr s = Wild) /\
     ~ adoptable (parent (tracker s tr)) (children (tracker s tr)) s).
Proof.
  intros T Htr. set (par := parent (tracker s tr)). set (kids := children (tracker s tr)).
  assert (Hpar : par <> Some tr) by by apply (parent_irrefl live).
  assert (Hin : tr ∈ trackingList par s) by (apply (tk_list _ _ T); [by apply (tk_parent _ _ T)|done]).
  assert (Hd : adoptable par kids s \/ ~ adoptable par kids s).
  { destruct par as [p|] eqn:Ep; [by left; left|].
    destruct (decide (Forall (fun x => is_Some (task (tracker s x))) kids)) as [H|H]; rewrite Forall_forall in H.
    - left. by right.
    - right. intros [[? ?]|Ha]; [done|]. by apply H. }
  destruct Hd as [Ha|Ha].
  - left. destruct (removeTracker_spec tr s Hpar Hin Ha) as (s' & H1 & H2). eauto.
  - right. split; [|done]. destruct par as [p|] eqn:Ep; [by destruct Ha; left|].
    cbn [removeTracker]. fold par. rewrite Ep. unfold erase_node. rewrite bool_decide_eq_true_2 by done.
    set (s1 := set_trackingList None _ s).
    assert (Hk : children (tracker s1 tr) = kids) by done. rewrite Hk.
    apply adopt_not_adoptable with (kids := kids); [lia|done| | |].
    + by apply (tk_nodups _ _ T (Some tr)).
    + intros x Hx Hx2. cbn in Hx2. apply (tk_list _ _ T (Some tr)) in Hx as [_ Hx]; [|done].
      apply erase_elem in Hx2 as [Hx2 _]; [|by apply (tk_nodups _ _ T None)].
      apply (tk_list _ _ T None) in Hx2 as [_ Hx2]; [|done]. congruence.
    + done.
Qed.

(** Changes outside the tree. *)
Lemma same_tree live s s' :
  tree_ok live s -> (forall x, parent (tracker s' x) = parent (tracker s x)) ->
  (forall q, trackingList q s' = trackingList q s) -> tree_ok live s'.
Proof.
  intros T Hp Hq. split; try apply T; intros *; rewrite ?Hq, ?Hp; try apply T.
  destruct (tk_rank _ _ T) as (rank & Hr). exists rank. intros x p. rewrite Hp. apply Hr.
Qed.
End spec.
