(* ===== verification/TaskMgrInv.v ===== *)
(** * Tasks: the invariant and the operations that keep it

    Tasks and trackers belong to each other, the trackers form a tree, every
    task is in one place, and every task blocked in a join has a child whose end
    will wake it. *)

From S2P Require Import Prelude Containers Sched SchedSpec SchedSteps TaskMgr TaskMgrSpec.

Section inv.
Context (cpus : list Z) (idle : Z -> Z).
Context (Hcpus : NoDup cpus) (Hidle : NoDup (idle <$> cpus)).
Implicit Types (s : TaskManager) (t tr c x : Z) (A live held : list Z) (e : option Z).

Definition info s t : task_t := s_task (tm_sched s) t.

(** The tasks blocked in a join are held by the trackers. *)
Definition joiner s tr : option Z :=
  match wait_info (tracker s tr) with Some _ => task (tracker s tr) | None => None end.
Definition joining live s : list Z := omap (joiner s) live.

(** The child that will wake the waiter is running. *)
Definition awaited s tr (w : task_wait_t) ch : Prop :=
  ch ∈ children (tracker s tr) /\ is_Some (task (tracker s ch)) /\
  (w_tid w < 0 \/ key (tracker s ch) = w_tid w).

(** [A] are the tasks, [live] the trackers; [e] is a tracker about to be
    removed. *)
Record tm_ok e A live held s : Prop := {
  to_nodup : NoDup A;
  to_tree : tree_ok live s;
  to_sched : sched_ok cpus idle A None (tm_sched s) (joining live s ++ held);
  to_task t : t ∈ A \/ is_idle_task cpus idle t ->
    t_tracker (info s t) ∈ live /\ task (tracker s (t_tracker (info s t))) = Some t;
  to_tracker x t : x ∈ live -> task (tracker s x) = Some t ->
    t_tracker (info s t) = x /\ key (tracker s x) = t_tid (info s t) /\ (t ∈ A \/ is_idle_task cpus idle t);
  to_zombie x : x ∈ live -> task (tracker s x) = None -> e <> Some x -> is_Some (parent (tracker s x));
  to_wait x w : x ∈ live -> wait_info (tracker s x) = Some w ->
    exists t, task (tracker s x) = Some t /\
      t_state (info s t) = TASK_STATE_BLOCK_JOIN /\ t_state_info (info s t) = w_tid w /\
      exists ch, awaited s x w ch
}.

Lemma joiner_in live s tr t : tr ∈ live -> joiner s tr = Some t -> t ∈ joining live s.
Proof. intros H1 H2. apply list_elem_of_omap. eauto. Qed.

Lemma joining_ext live s s' : (forall x, x ∈ live -> joiner s' x = joiner s x) -> joining live s' = joining live s.
Proof.
  unfold joining. induction live as [|x l IH]; intros H; [done|]. csimpl. rewrite (H x) by by left.
  rewrite IH; [done|]. intros y Hy. apply H. by right.
Qed.

Lemma joining_perm live live' s : live ≡ₚ live' -> joining live s ≡ₚ joining live' s.
Proof. unfold joining. by intros ->. Qed.

(** A task held by another part has no join under way. *)
Lemma held_not_joiner e A live held s t tr :
  tm_ok e A live (t :: held) s -> tr ∈ live -> joiner s tr <> Some t.
Proof.
  intros O Htr E. pose proof (to_sched _ _ _ _ _ O) as S.
  assert (S1 : sched_ok cpus idle A None (tm_sched s) (t :: joining live s ++ held)).
  { eapply ok_perm; [|exact S]. by rewrite <-Permutation_middle. }
  destruct (held_apart cpus idle A Hcpus Hidle (to_nodup _ _ _ _ _ O) _ _ _ _ S1) as (_ & _ & _ & H).
  apply H, elem_of_app. left. by eapply joiner_in.
Qed.

Lemma tm_held_perm e A live held held' s : held ≡ₚ held' -> tm_ok e A live held s -> tm_ok e A live held' s.
Proof.
  intros Hp O. split; try apply O. eapply ok_perm; [|apply O]. by rewrite Hp.
Qed.

(** Changes of the scheduler. *)
Lemma tm_sched_change e A live held held' s q :
  tm_ok e A live held s -> sched_ok cpus idle A None q (joining live s ++ held') ->
  same_ids (tm_sched s) q ->
  (forall u, u ∈ joining live s -> t_state (s_task q u) = t_state (info s u) /\
     t_state_info (s_task q u) = t_state_info (info s u)) ->
  tm_ok e A live held' (on_sched (fun _ => q) s).
Proof.
  intros O Hq Hid Hj. split.
  - apply O.
  - apply (same_tree _ s); [apply O|done|]. by intros [?|].
  - exact Hq.
  - intros t Ht. unfold info. cbn. destruct (Hid t) as (_ & -> & _). by apply (to_task _ _ _ _ _ O).
  - intros x t Hx Ht. unfold info. cbn. destruct (Hid t) as (-> & -> & _). by apply (to_tracker _ _ _ _ _ O).
  - apply O.
  - intros x w Hx Hw. destruct (to_wait _ _ _ _ _ O x w Hx Hw) as (t & H1 & H2 & H3 & H4).
    exists t. unfold info. cbn. destruct (Hj t) as [-> ->]; [|done].
    eapply joiner_in; [exact Hx|]. unfold joiner. cbn in Hw. by rewrite Hw.
Qed.

Lemma tm_frame e A live held s q :
  tm_ok e A live held s -> sched_frame cpus idle (tm_sched s) q -> tm_ok e A live held (on_sched (fun _ => q) s).
Proof.
  intros O F. destruct (F A (joining live s ++ held)) as (F1 & F2 & F3); [apply O..|].
  eapply tm_sched_change; [exact O|done|done|]. intros u Hu. unfold info. rewrite F2; [done|]. apply elem_of_app. by left.
Qed.

(** A held task is made ready. *)
Lemma tm_addTask e A live held s t :
  tm_ok e A live (t :: held) s -> tm_ok e A live held (on_sched (addTask t) s).
Proof.
  intros O. pose proof (to_sched _ _ _ _ _ O) as S.
  assert (S1 : sched_ok cpus idle A None (tm_sched s) (t :: joining live s ++ held))
    by (eapply ok_perm; [|exact S]; by rewrite <-Permutation_middle).
  pose proof (to_nodup _ _ _ _ _ O) as HA.
  change (on_sched (addTask t) s) with (on_sched (fun _ => addTask t (tm_sched s)) s).
  eapply tm_sched_change; [exact O|by apply ok_addTask|apply addTask_ids|].
  intros u Hu. rewrite addTask_task; [done|]. intros ->.
  destruct (held_apart cpus idle A Hcpus Hidle HA _ _ _ _ S1) as (_ & _ & _ & H). apply H. set_solver.
Qed.

Lemma tm_setrtn e A live held s t n : tm_ok e A live held s -> tm_ok e A live held (on_sched (TASK_SETRTN t n) s).
Proof.
  intros O. pose proof (to_nodup _ _ _ _ _ O) as HA.
  change (on_sched (TASK_SETRTN t n) s) with (on_sched (fun _ => TASK_SETRTN t n (tm_sched s)) s).
  eapply tm_sched_change; [exact O|apply ok_setrtn; [done..|apply O]|by apply set_task_ids|].
  intros u _. unfold info. cbn. unfold upd. case_match; b2p; by subst.
Qed.

Lemma tm_write e A live held s a v : tm_ok e A live held s -> tm_ok e A live held (write_mem a v s).
Proof. intros O. destruct O as [O1 O2 O3 O4 O5 O6 O7]. by split; try done; apply (same_tree _ s). Qed.

(** ** The end of a task *)

(** The tracker [tr] of [t] is marked finished; nobody waits for it. *)
Lemma tm_finish A A' live held s s' t tr :
  tm_ok None A live (t :: held) s -> A ≡ₚ t :: A' -> tr = t_tracker (info s t) ->
  (forall p w, parent (tracker s tr) = Some p -> wait_info (tracker s p) = Some w ->
     0 <= w_tid w /\ w_tid w <> t_tid (info s t)) ->
  tm_sched s' = tm_sched s ->
  (forall x, parent (tracker s' x) = parent (tracker s x)) -> (forall q, trackingList q s' = trackingList q s) ->
  (forall x, key (tracker s' x) = key (tracker s x) /\ wait_info (tracker s' x) = wait_info (tracker s x) /\
     task (tracker s' x) = if x =? tr then None else task (tracker s x)) ->
  tm_ok (Some tr) A' live held s' /\ tr ∈ live /\ wait_info (tracker s' tr) = None.
Proof.
  intros O HA Htr Hw Hsch Hp Hq Hf.
  assert (Ht : t ∈ A) by (rewrite HA; by left).
  assert (Hni : ~ is_idle_task cpus idle t).
  { apply (so_queued _ _ _ _ _ _ (to_sched _ _ _ _ _ O)). rewrite !elem_of_app. do 3 right. by left. }
  destruct (to_task _ _ _ _ _ O t (or_introl Ht)) as [Hlive Htask]. rewrite <-Htr in Hlive, Htask.
  assert (Hwtr : wait_info (tracker s tr) = None).
  { destruct (wait_info (tracker s tr)) as [w|] eqn:E; [|done]. exfalso.
    apply (held_not_joiner _ _ _ _ _ _ tr O Hlive). unfold joiner. by rewrite E. }
  assert (Hi : forall u, info s' u = info s u) by (intros u; unfold info; by rewrite Hsch).
  assert (HtA : forall u, u ∈ A' <-> u ∈ A /\ u <> t).
  { intros u. pose proof (to_nodup _ _ _ _ _ O) as Hn. rewrite HA in Hn |- *. apply NoDup_cons in Hn as [Hn _].
    rewrite elem_of_cons. split; [|tauto]. intros Hu. split; [by right|]. by intros ->. }
  assert (HJ : joining live s' = joining live s).
  { apply joining_ext. intros x Hx. unfold joiner. destruct (Hf x) as (_ & -> & ->).
    destruct (x =? tr) eqn:E; b2p; [subst; by rewrite Hwtr|done]. }
  split; [|split; [done|by destruct (Hf tr) as (_ & -> & _)]]. split.
  - pose proof (to_nodup _ _ _ _ _ O) as Hn. rewrite HA in Hn. by apply NoDup_cons in Hn as [_ Hn].
  - apply (same_tree _ s); [apply O|done|done].
  - rewrite HJ, Hsch. eapply ok_drop; [exact HA|]. eapply ok_perm; [|apply O]. by rewrite <-Permutation_middle.
  - intros u Hu. rewrite Hi. assert (Hu2 : u ∈ A \/ is_idle_task cpus idle u) by (rewrite HtA in Hu; tauto).
    destruct (to_task _ _ _ _ _ O u Hu2) as [H1 H2]. split; [done|].
    destruct (Hf (t_tracker (info s u))) as (_ & _ & ->). destruct (_ =? tr) eqn:E; b2p; [|done].
    exfalso. rewrite E, Htask in H2. injection H2 as ->. rewrite HtA in Hu. tauto.
  - intros x u Hx. destruct (Hf x) as (-> & _ & ->). destruct (x =? tr) eqn:E; b2p; [done|].
    intros Hu. rewrite Hi. destruct (to_tracker _ _ _ _ _ O x u Hx Hu) as (H1 & H2 & H3). split_and!; [done|done|].
    rewrite HtA. destruct H3 as [H3|H3]; [|by right]. left. split; [done|]. intros ->. congruence.
  - intros x Hx. rewrite Hp. destruct (Hf x) as (_ & _ & ->). destruct (x =? tr) eqn:E; b2p; [by intros _ []; subst|].
    intros Hu _. by apply (to_zombie _ _ _ _ _ O).
  - intros x w Hx. destruct (Hf x) as (_ & -> & ->). intros Hwx.
    destruct (to_wait _ _ _ _ _ O x w Hx Hwx) as (u & H1 & H2 & H3 & ch & C1 & C2 & C3).
    exists u. rewrite Hi. destruct (x =? tr) eqn:E; b2p; [congruence|]. split_and!; try done.
    exists ch. unfold awaited. change (children (tracker s' x)) with (trackingList (Some x) s').
    rewrite Hq. destruct (Hf ch) as (-> & _ & ->). destruct (ch =? tr) eqn:E2; b2p; [|done]. exfalso. subst ch.
    apply (tk_list _ _ (to_tree _ _ _ _ _ O) (Some x)) in C1 as [_ C1]; [|done].
    destruct (Hw x w C1 Hwx) as [Hw1 Hw2]. destruct C3 as [?|C3]; [lia|].
    destruct (to_tracker _ _ _ _ _ O tr t Hlive Htask) as (_ & Hk & _). congruence.
Qed.

(** A finished tracker is removed; its parent is not waiting. *)
Lemma tm_reap A live live' held s s' tr :
  tm_ok (Some tr) A live held s -> live ≡ₚ tr :: live' -> task (tracker s tr) = None ->
  (forall p, parent (tracker s tr) = Some p -> wait_info (tracker s p) = None) ->
  removed tr s s' -> adoptable (parent (tracker s tr)) (children (tracker s tr)) s ->
  tm_ok None A live' held s'.
Proof.
  intros O Hl Htr Hwp R Ha. pose proof (to_tree _ _ _ _ _ O) as T.
  pose proof (removed_tree live live' tr s s' T Hl R) as T'.
  pose proof (removed_live live live' tr s T Hl) as Hlive.
  destruct (rm_rest _ _ _ R) as (R1 & _ & _). pose proof (rm_fields _ _ _ R) as F.
  assert (Hi : forall u, info s' u = info s u) by (intros u; unfold info; by rewrite R1).
  assert (HJ : joining live s ≡ₚ joining live' s').
  { rewrite (joining_ext live' s s').
    - rewrite (joining_perm _ _ s Hl). unfold joining. cbn.
      replace (joiner s tr) with (@None Z); [done|]. unfold joiner. rewrite Htr. by destruct (wait_info _).
    - intros x _. unfold joiner. destruct (F x) as (_ & -> & _ & _ & ->). done. }
  split.
  - apply O.
  - done.
  - rewrite R1. eapply ok_perm; [|apply O]. by rewrite HJ.
  - intros u Hu. rewrite Hi. destruct (to_task _ _ _ _ _ O u Hu) as [H1 H2].
    destruct (F (t_tracker (info s u))) as (_ & -> & _). split; [|done].
    apply Hlive. split; [done|]. intros E. rewrite E in H2. congruence.
  - intros x u [Hx _]%Hlive. destruct (F x) as (-> & -> & _). rewrite Hi. by apply (to_tracker _ _ _ _ _ O).
  - intros x [Hx Hne]%Hlive. destruct (F x) as (_ & -> & _). intros Hz _. rewrite (rm_parent _ _ _ R).
    destruct (decide _) as [Hk|Hk]; [|apply (to_zombie _ _ _ _ _ O x Hx Hz); congruence].
    destruct Ha as [Ha|Ha]; [done|]. apply Ha in Hk. rewrite Hz in Hk. by destruct Hk.
  - intros x w [Hx Hne]%Hlive. destruct (F x) as (_ & -> & _ & _ & ->). intros Hw.
    destruct (to_wait _ _ _ _ _ O x w Hx Hw) as (u & H1 & H2 & H3 & ch & C1 & C2 & C3).
    exists u. rewrite Hi. split_and!; try done. exists ch. destruct (F ch) as (E1 & E2 & _).
    unfold awaited. rewrite E1, E2. split_and!; try done.
    change (ch ∈ trackingList (Some x) s'). rewrite (rm_list _ _ _ R).
    rewrite decide_False by congruence. rewrite decide_False; [done|].
    intros E. rewrite (Hwp x) in Hw; [done|]. by symmetry.
Qed.
End inv.

Section ops.
Context (cpus : list Z) (idle : Z -> Z).
Context (Hcpus : NoDup cpus) (Hidle : NoDup (idle <$> cpus)).
Implicit Types (s : TaskManager) (t tr c x : Z) (A live held : list Z).

Abbreviation ok := (tm_ok cpus idle None).

Lemma joining_upd live s s' tr :
  NoDup live -> tr ∈ live -> (forall x, x <> tr -> joiner s' x = joiner s x) ->
  exists J, joining live s ≡ₚ option_list (joiner s tr) ++ J /\ joining live s' ≡ₚ option_list (joiner s' tr) ++ J.
Proof.
  intros Hn Hlive Hf. apply list_elem_of_split in Hlive as (l1 & l2 & ->). rewrite <-Permutation_middle in Hn.
  apply NoDup_cons in Hn as [Hn _]. exists (joining (l1 ++ l2) s).
  assert (E : forall s0, joining (l1 ++ tr :: l2) s0 ≡ₚ option_list (joiner s0 tr) ++ joining (l1 ++ l2) s0).
  { intros s0. rewrite (joining_perm _ (tr :: l1 ++ l2) s0) by by rewrite <-Permutation_middle.
    unfold joining at 1. csimpl. by destruct (joiner s0 tr). }
  split; [apply E|]. rewrite E. rewrite (joining_ext (l1 ++ l2) s s'); [done|].
  intros x Hx. apply Hf. by intros ->.
Qed.

(** ** The current task is put aside *)

(** The current task of [c] is changed ([q1]) and [c] runs another one. *)
Lemma tm_switch A live held s c t q1 :
  ok A live held s -> c ∈ cpus -> t = s_cur (tm_sched s) c -> ~ is_idle_task cpus idle t ->
  (forall hs, sched_ok cpus idle A (Some c) (tm_sched s) (t :: hs) -> sched_ok cpus idle A (Some c) q1 (t :: hs)) ->
  (forall u, u <> t -> s_task q1 u = info s u) -> same_ids (tm_sched s) q1 ->
  let q := setNextRunnable c q1 in
  ok A live (t :: held) (on_sched (fun _ => q) s) /\ s_task q t = s_task q1 t /\ same_ids (tm_sched s) q.
Proof.
  intros O Hc Et Hni Hq1 Hu Hid q. pose proof (to_nodup _ _ _ _ _ _ _ O) as HA.
  pose proof (to_sched _ _ _ _ _ _ _ O) as S.
  assert (S1 : sched_ok cpus idle A (Some c) (tm_sched s) (t :: joining live s ++ held)).
  { pose proof (ok_enter cpus idle A Hcpus Hidle HA c _ _ Hc S) as S1. unfold in_hand in S1.
    rewrite decide_False in S1 by (by rewrite <-Et). by rewrite <-Et in S1. }
  apply Hq1 in S1 as S2.
  assert (Ids : same_ids (tm_sched s) q) by (etransitivity; [exact Hid|apply setNextRunnable_ids]).
  assert (Hheld : forall u, u ∈ t :: joining live s ++ held -> s_task q u = s_task q1 u).
  { intros u Hin. by apply (setNextRunnable_held cpus idle Hcpus Hidle A _ _ _ _ HA S2). }
  split_and!; [|apply Hheld; by left|done].
  eapply tm_sched_change; [exact O| |done|].
  - eapply ok_perm; [|by apply ok_setNextRunnable]. by rewrite <-Permutation_middle.
  - intros u Hin. rewrite Hheld by set_solver. rewrite Hu; [done|].
    rewrite Et. apply (in_hand_held cpus idle Hcpus Hidle A c (tm_sched s) (joining live s ++ held)); try done. set_solver.
Qed.

(** The current task has no join under way. *)
Lemma current_not_joiner A live held s c tr :
  ok A live held s -> c ∈ cpus -> tr ∈ live -> joiner s tr <> Some (s_cur (tm_sched s) c).
Proof.
  intros O Hc Hl E.
  apply (in_hand_held cpus idle Hcpus Hidle A c (tm_sched s) (joining live s ++ held) (s_cur (tm_sched s) c));
    [apply O|done|apply O| |done].
  apply elem_of_app. left. by eapply joiner_in.
Qed.

Lemma tm_block A live held s t tr w ch :
  ok A live (t :: held) s -> t ∈ A -> tr = t_tracker (info s t) ->
  t_state (info s t) = TASK_STATE_BLOCK_JOIN -> t_state_info (info s t) = w_tid w -> awaited s tr w ch ->
  ok A live held (set_wait_info tr (Some w) s).
Proof.
  intros O Ht -> Hst Hin Haw. set (tr := t_tracker (info s t)) in *.
  destruct (to_task _ _ _ _ _ _ _ O t (or_introl Ht)) as [Hlive Htask]. fold tr in Hlive, Htask.
  set (s' := set_wait_info tr (Some w) s).
  assert (Hf : forall x, parent (tracker s' x) = parent (tracker s x) /\ children (tracker s' x) = children (tracker s x) /\
    key (tracker s' x) = key (tracker s x) /\ task (tracker s' x) = task (tracker s x) /\
    wait_info (tracker s' x) = if x =? tr then Some w else wait_info (tracker s x)).
  { intros x. cbn. unfold upd. case_match; b2p; by subst. }
  assert (Hwtr : wait_info (tracker s tr) = None).
  { destruct (wait_info (tracker s tr)) as [w0|] eqn:E; [|done]. exfalso.
    eapply (held_not_joiner cpus idle Hcpus Hidle _ _ _ _ _ _ tr O Hlive). unfold joiner. by rewrite E. }
  destruct (joining_upd live s s' tr) as (J & J1 & J2); [apply O|done| |].
  { intros x Hx. unfold joiner. destruct (Hf x) as (_ & _ & _ & -> & ->). by rewrite (proj2 (Z.eqb_neq x tr)). }
  assert (HJ : joining live s' ≡ₚ t :: joining live s).
  { rewrite J1, J2. unfold joiner. destruct (Hf tr) as (_ & _ & _ & -> & ->). by rewrite Z.eqb_refl, Htask, Hwtr. }
  split.
  - apply O.
  - apply (same_tree _ s); [apply O| |].
    + intros x. apply Hf.
    + intros [p|]; [apply Hf|done].
  - eapply ok_perm; [|apply O]. rewrite HJ. by rewrite <-Permutation_middle.
  - intros u Hu. destruct (Hf (t_tracker (info s' u))) as (_ & _ & _ & -> & _). by apply (to_task _ _ _ _ _ _ _ O).
  - intros x u Hx. destruct (Hf x) as (_ & _ & -> & -> & _). by apply (to_tracker _ _ _ _ _ _ _ O).
  - intros x Hx. destruct (Hf x) as (-> & _ & _ & -> & _). by apply (to_zombie _ _ _ _ _ _ _ O).
  - intros x w' Hx. destruct (Hf x) as (_ & Hc & _ & -> & ->).
    assert (Hgo : forall v, awaited s x v ch \/ (exists ch', awaited s x v ch') -> exists ch', awaited s' x v ch').
    { intros v [Hv|(ch' & Hv)]; [exists ch|exists ch']; unfold awaited in *; rewrite Hc;
        [destruct (Hf ch) as (_ & _ & -> & -> & _)|destruct (Hf ch') as (_ & _ & -> & -> & _)]; done. }
    destruct (x =? tr) eqn:E; b2p.
    + intros [= <-]. subst x. exists t. split_and!; try done. apply Hgo. by left.
    + intros Hw. destruct (to_wait _ _ _ _ _ _ _ O x w' Hx Hw) as (u & H1 & H2 & H3 & H4).
      exists u. split_and!; try done. apply Hgo. by right.
Qed.

(** The waiter of a join is taken out. *)
Lemma tm_wake A live held s p w tp :
  ok A live held s -> p ∈ live -> wait_info (tracker s p) = Some w -> task (tracker s p) = Some tp ->
  ok A live (tp :: held) (set_wait_info p None s).
Proof.
  intros O Hlive Hw Htask. set (s' := set_wait_info p None s).
  assert (Hf : forall x, parent (tracker s' x) = parent (tracker s x) /\ children (tracker s' x) = children (tracker s x) /\
    key (tracker s' x) = key (tracker s x) /\ task (tracker s' x) = task (tracker s x) /\
    wait_info (tracker s' x) = if x =? p then None else wait_info (tracker s x)).
  { intros x. cbn. unfold upd. case_match; b2p; by subst. }
  destruct (joining_upd live s s' p) as (J & J1 & J2); [apply O|done| |].
  { intros x Hx. unfold joiner. destruct (Hf x) as (_ & _ & _ & -> & ->). by rewrite (proj2 (Z.eqb_neq x p)). }
  assert (HJ : joining live s ≡ₚ tp :: joining live s').
  { rewrite J1, J2. unfold joiner. destruct (Hf p) as (_ & _ & _ & -> & ->). by rewrite Z.eqb_refl, Htask, Hw. }
  split.
  - apply O.
  - apply (same_tree _ s); [apply O| |].
    + intros x. apply Hf.
    + intros [q|]; [apply Hf|done].
  - eapply ok_perm; [|apply O]. rewrite HJ. cbn. by rewrite <-Permutation_middle.
  - intros u Hu. destruct (Hf (t_tracker (info s' u))) as (_ & _ & _ & -> & _). by apply (to_task _ _ _ _ _ _ _ O).
  - intros x u Hx. destruct (Hf x) as (_ & _ & -> & -> & _). by apply (to_tracker _ _ _ _ _ _ _ O).
  - intros x Hx. destruct (Hf x) as (-> & _ & _ & -> & _). by apply (to_zombie _ _ _ _ _ _ _ O).
  - intros x w' Hx. destruct (Hf x) as (_ & Hc & _ & -> & ->).
    destruct (x =? p); [done|]. intros Hw'.
    destruct (to_wait _ _ _ _ _ _ _ O x w' Hx Hw') as (u & H1 & H2 & H3 & ch & C1 & C2 & C3).
    exists u. split_and!; try done. exists ch. unfold awaited. rewrite Hc.
    destruct (Hf ch) as (_ & _ & -> & -> & _). done.
Qed.
End ops.
