(* ===== verification/TaskMgrSteps.v ===== *)
(** * Tasks: creation, end and wait, and their steps *)

From S2P Require Import Prelude Containers Sched SchedSpec SchedSteps TaskMgr TaskMgrSpec TaskMgrInv.

Lemma find_finished_spec (l : list Z) (s : TaskManager) :
  match find_finished l s with
  | Some ch => ch ∈ l /\ task (tracker s ch) = None
  | None => forall ch, ch ∈ l -> is_Some (task (tracker s ch))
  end.
Proof.
  induction l as [|x l IH]; simpl; [by intros ch ?%elem_of_nil|].
  destruct (bool_decide (is_Some (task (tracker s x)))) eqn:E.
  - apply bool_decide_eq_true in E. destruct (find_finished l s) as [ch|]; [set_solver|].
    intros ch [->|Hc]%elem_of_cons; auto.
  - apply bool_decide_eq_false, eq_None_not_Some in E. split; [by left|done].
Qed.

Lemma find_key_spec (f : Z -> Z) k l ch : LList.find f k l = Some ch -> ch ∈ l /\ f ch = k.
Proof.
  intros E. pose proof (LList.find_erase f k l) as H. rewrite E in H.
  destruct H as (l1 & l2 & -> & _ & H & _). set_solver.
Qed.

Section steps.
Context (cpus : list Z) (idle : Z -> Z).
Context (Hcpus : NoDup cpus) (Hidle : NoDup (idle <$> cpus)).
Implicit Types (s : TaskManager) (t tr c x : Z) (A live held : list Z).

Abbreviation ok := (tm_ok cpus idle None).

(** ** Creation *)

Lemma tm_birth A live held s s' nt ntr y par :
  ok A live held s -> nt ∉ A -> ~ is_idle_task cpus idle nt -> ntr ∉ live -> par ∈ live ->
  t_cpu y ∈ cpus -> t_tracker y = ntr ->
  (forall u, info s' u = if u =? nt then y else info s u) ->
  s_cur (tm_sched s') = s_cur (tm_sched s) -> idle_task (tm_sched s') = idle_task (tm_sched s) ->
  iv_taskList (tm_sched s') = iv_taskList (tm_sched s) -> scheduler_extra (tm_sched s') = scheduler_extra (tm_sched s) ->
  delay_list (tm_sched s') = delay_list (tm_sched s) ->
  (forall x, x <> ntr -> parent (tracker s' x) = parent (tracker s x) /\ key (tracker s' x) = key (tracker s x) /\
     task (tracker s' x) = task (tracker s x) /\ wait_info (tracker s' x) = wait_info (tracker s x)) ->
  parent (tracker s' ntr) = Some par -> children (tracker s' ntr) = [] -> task (tracker s' ntr) = Some nt ->
  key (tracker s' ntr) = t_tid y -> wait_info (tracker s' ntr) = None ->
  (forall q, q <> Some ntr -> trackingList q s' = if decide (q = Some par) then ntr :: trackingList q s else trackingList q s) ->
  ok (nt :: A) (ntr :: live) (nt :: held) s'.
Proof.
  intros O HA Hni Hl Hpar Hy1 Hy2 Hi E1 E2 E3 E4 E5 Hf P1 P2 P3 P4 P5 Hq.
  assert (Hne : forall x, x ∈ live -> x <> ntr) by (by intros x Hx ->).
  assert (Hold : forall t, t ∈ A \/ is_idle_task cpus idle t -> info s' t = info s t).
  { intros t Ht. rewrite Hi, (proj2 (Z.eqb_neq t nt)); [done|]. intros ->. tauto. }
  assert (HJ : joining (ntr :: live) s' = joining live s).
  { unfold joining. csimpl. unfold joiner at 1. rewrite P5. apply joining_ext.
    intros x Hx. unfold joiner. destruct (Hf x) as (_ & _ & -> & ->); [by apply Hne|done]. }
  split.
  - apply NoDup_cons. split; [done|apply O].
  - apply (insert_tree live s s' ntr (Some par)); [apply O|done|exact Hpar|done|done| |done]. intros x Hx. by apply Hf.
  - rewrite HJ. eapply ok_perm; [apply Permutation_middle|].
    eapply ok_birth; try done; [apply O|apply O].
  - intros t [[->|Ht]%elem_of_cons|Ht].
    + rewrite Hi, Z.eqb_refl, Hy2. split; [by left|done].
    + rewrite Hold by tauto. destruct (to_task _ _ _ _ _ _ _ O t) as [H1 H2]; [by left|].
      split; [by right|]. destruct (Hf (t_tracker (info s t))) as (_ & _ & -> & _); [by apply Hne|done].
    + rewrite Hold by tauto. destruct (to_task _ _ _ _ _ _ _ O t) as [H1 H2]; [by right|].
      split; [by right|]. destruct (Hf (t_tracker (info s t))) as (_ & _ & -> & _); [by apply Hne|done].
  - intros x t [->|Hx]%elem_of_cons.
    + rewrite P3, P4. intros [= <-]. rewrite Hi, Z.eqb_refl. split_and!; [done|done|left; by left].
    + destruct (Hf x) as (_ & -> & -> & _); [by apply Hne|]. intros Ht.
      destruct (to_tracker _ _ _ _ _ _ _ O x t Hx Ht) as (H1 & H2 & H3). rewrite Hold by done.
      split_and!; [done|done|]. destruct H3; [left; by right|by right].
  - intros x [->|Hx]%elem_of_cons; [by rewrite P3|].
    destruct (Hf x) as (-> & _ & -> & _); [by apply Hne|]. by apply (to_zombie _ _ _ _ _ _ _ O).
  - intros x w [->|Hx]%elem_of_cons; [by rewrite P5|].
    destruct (Hf x) as (_ & _ & -> & ->); [by apply Hne|]. intros Hw.
    destruct (to_wait _ _ _ _ _ _ _ O x w Hx Hw) as (t & H1 & H2 & H3 & ch & C1 & C2 & C3).
    destruct (to_tracker _ _ _ _ _ _ _ O x t Hx H1) as (_ & _ & Ht).
    exists t. rewrite Hold by done. split_and!; try done. exists ch.
    assert (Hch : ch ∈ live) by by apply (tk_list _ _ (to_tree _ _ _ _ _ _ _ O) (Some x)) in C1 as [? _].
    unfold awaited. destruct (Hf ch) as (_ & -> & -> & _); [by apply Hne|]. split_and!; try done.
    change (ch ∈ trackingList (Some x) s'). rewrite Hq by (intros [= ->]; by apply Hl).
    destruct (decide _); [by right|done].
Qed.

Lemma TaskStart_ok A live held s c arg nt ntr :
  ok A live held s -> c ∈ cpus -> nt ∉ A -> ~ is_idle_task cpus idle nt -> ntr ∉ live ->
  ok (nt :: A) (ntr :: live) held (TaskStart c arg nt ntr s).
Proof.
  intros O Hc HA Hni Hl. set (t := s_cur (tm_sched s) c). pose proof (to_sched _ _ _ _ _ _ _ O) as S.
  assert (Ht : t ∈ A \/ is_idle_task cpus idle t) by by eapply (current_known cpus idle _ _ _ _ c S).
  destruct (to_task _ _ _ _ _ _ _ O t Ht) as [Hpl Hpt]. set (par := t_tracker (info s t)) in *.
  assert (Hne : (t =? nt) = false) by (apply Z.eqb_neq; intros ->; tauto).
  assert (Hpne : (par =? ntr) = false) by (apply Z.eqb_neq; intros E; apply Hl; by rewrite <-E).
  unfold TaskStart. fold t. apply tm_setrtn; [done..|]. apply tm_addTask; [done..|].
  set (s2 := createTask c nt ntr arg false s).
  assert (Hpar : t_tracker (s_task (tm_sched (on_sched (set_task nt (mkTask 0 TASK_STATE_READY 0 0 arg false (iv_nextTid s) ntr)) (set_nextTid (wrap 16 (iv_nextTid s + 1)) s))) t) = par).
  { cbn. unfold upd. by rewrite Hne. }
  assert (Htr : forall x, tracker s2 x =
    if x =? par then mkTracking (parent (tracker s par)) (ntr :: children (tracker s par)) (key (tracker s par))
                       (task (tracker s par)) (status (tracker s par)) (retval (tracker s par)) (wait_info (tracker s par))
    else if x =? ntr then mkTracking (Some par) [] (iv_nextTid s) (Some nt) (-1) 0 None else tracker s x).
  { intros x. unfold s2, createTask. cbn -[t_tracker]. fold t. unfold upd. rewrite Hne.
    change (t_tracker (s_task (tm_sched s) t)) with par. rewrite Hpne. done. }
  assert (Hsc : forall u, info (on_sched (fun q => set_cpu nt (t_cpu (s_task q t)) q) s2) u =
    if u =? nt then mkTask (t_cpu (info s t)) TASK_STATE_READY 0 0 arg false (iv_nextTid s) ntr else info s u).
  { intros u. unfold info, s2, createTask. cbn. unfold upd. rewrite Hne. destruct (u =? nt) eqn:E; [|done].
    by rewrite Z.eqb_refl. }
  set (s3 := on_sched _ s2) in *.
  eapply tm_birth with (s := s) (par := par); try done; change (tracker s3) with (tracker s2); rewrite ?Htr.
  - apply (so_cpu _ _ _ _ _ _ S).
  - done.
  - intros x Hx. rewrite Htr. destruct (x =? par) eqn:E; b2p; [by subst|]. by rewrite (proj2 (Z.eqb_neq x ntr)).
  - rewrite (Z.eqb_sym ntr par), Hpne, Z.eqb_refl. done.
  - rewrite (Z.eqb_sym ntr par), Hpne, Z.eqb_refl. done.
  - rewrite (Z.eqb_sym ntr par), Hpne, Z.eqb_refl. done.
  - rewrite (Z.eqb_sym ntr par), Hpne, Z.eqb_refl. done.
  - rewrite (Z.eqb_sym ntr par), Hpne, Z.eqb_refl. done.
  - intros [x|] Hx; [|done]. unfold trackingList. change (tracker s3) with (tracker s2). rewrite Htr. destruct (x =? par) eqn:E; b2p.
    + subst x. by rewrite decide_True.
    + rewrite (proj2 (Z.eqb_neq x ntr)) by congruence. by rewrite decide_False by congruence.
Qed.
(** ** End *)

Lemma tm_unex e A live held s tr :
  tm_ok cpus idle (Some tr) A live held s -> is_Some (parent (tracker s tr)) -> tm_ok cpus idle e A live held s.
Proof.
  intros O Hp. split; try apply O. intros x Hx Hz _. destruct (decide (x = tr)) as [->|]; [done|].
  apply (to_zombie _ _ _ _ _ _ _ O); congruence.
Qed.

Lemma set_finished_fields tr rv st s :
  let s' := set_finished tr st rv s in
  (forall x, parent (tracker s' x) = parent (tracker s x)) /\ (forall q, trackingList q s' = trackingList q s) /\
  (forall x, key (tracker s' x) = key (tracker s x) /\ wait_info (tracker s' x) = wait_info (tracker s x) /\
     task (tracker s' x) = if x =? tr then None else task (tracker s x)).
Proof.
  split_and!.
  - intros x. cbn. unfold upd. case_match; b2p; by subst.
  - intros [x|]; [|done]. cbn. unfold upd. case_match; b2p; by subst.
  - intros x. cbn. unfold upd. case_match; b2p; by subst.
Qed.

(** The removal of a finished tracker of which [tm_finish] made the state. *)
Lemma tm_remove A live held s s' tr :
  tm_ok cpus idle (Some tr) A live held s -> tr ∈ live -> task (tracker s tr) = None ->
  (forall p, parent (tracker s tr) = Some p -> wait_info (tracker s p) = None) ->
  removeTracker 2 tr s = Ok s' ->
  exists live', live ≡ₚ tr :: live' /\ ok A live' held s' /\ removed tr s s'.
Proof.
  intros O Hl Ht Hw E. destruct (removeTracker_cases live tr s) as [(s1 & E1 & R & Ha)|[[E1|E1] _]];
    [apply O|done| |congruence..].
  assert (s1 = s') as -> by congruence.
  apply elem_of_Permutation in Hl as (live' & Hl). exists live'. split; [done|]. split; [|done]. by eapply tm_reap.
Qed.

(** No join is lost when a task ends unless the task is detached and its parent
    waits. *)
Definition may_end s t : Prop :=
  detached (info s t) = true ->
  forall p, parent (tracker s (t_tracker (info s t))) = Some p -> wait_info (tracker s p) = None.

Lemma join_results_same w rv st s :
  tracker (join_results w rv st s) = tracker s /\ tm_sched (join_results w rv st s) = tm_sched s /\
  tm_taskList (join_results w rv st s) = tm_taskList s.
Proof. unfold join_results. repeat case_match; done. Qed.

Lemma tm_join_results A live held s w rv st : ok A live held s -> ok A live held (join_results w rv st s).
Proof. intros O. unfold join_results. repeat case_match; repeat apply tm_write; done. Qed.

Section finish.
Context (A A' live held : list Z) (s : TaskManager) (t rv st : Z).
Context (O : ok A live (t :: held) s) (HA : A ≡ₚ t :: A').
Let x : task_t := info s t.
Let tr : Z := t_tracker x.
Let sF : TaskManager := set_finished tr st rv s.
Implicit Types (p : Z) (w : task_wait_t).

Lemma finish_tracker : tr ∈ live /\ task (tracker s tr) = Some t.
Proof. apply (to_task _ _ _ _ _ _ _ O t). left. rewrite HA. by left. Qed.

(** Outcome of the end: the tracker stays or is forgotten. *)
Definition ended s' : Prop :=
  exists live', ok A' live' held s' /\ (live' = live \/ live ≡ₚ tr :: live').

Lemma finish_drop s' :
  (forall p, parent (tracker s tr) = Some p -> wait_info (tracker s p) = None) ->
  removeTracker 2 tr sF = Ok s' -> ended s'.
Proof.
  intros Hnw E. destruct (set_finished_fields tr rv st s) as (F1 & F2 & F3). fold sF in F1, F2, F3.
  destruct finish_tracker as [Htr Htask].
  destruct (tm_finish cpus idle Hcpus Hidle A A' live held s sF t tr) as (O1 & _ & Hw); try done.
  { intros p w Hp Hwp. rewrite (Hnw p Hp) in Hwp. done. }
  destruct (tm_remove A' live held sF s' tr) as (live' & L1 & L2 & _); try done.
  - destruct (F3 tr) as (_ & _ & ->). by rewrite Z.eqb_refl.
  - intros p. rewrite F1. intros Hp. destruct (F3 p) as (_ & -> & _). auto.
  - exists live'. split; [done|by right].
Qed.

Lemma finish_keep p :
  parent (tracker s tr) = Some p ->
  (forall w, wait_info (tracker s p) = Some w -> 0 <= w_tid w /\ w_tid w <> t_tid x) -> ended sF.
Proof.
  intros Ep Hnw. exists live. split; [|by left].
  destruct (set_finished_fields tr rv st s) as (F1 & F2 & F3). fold sF in F1, F2, F3.
  destruct (tm_finish cpus idle Hcpus Hidle A A' live held s sF t tr) as (O1 & _ & Hw); try done.
  { intros p' w Hp Hwp. assert (p' = p) as -> by congruence. auto. }
  apply (tm_unex _ _ _ _ _ tr); [done|]. rewrite F1, Ep. done.
Qed.

(** Fields of trackers before the waiter's child is removed: as if the waiter
    had been taken out first. *)
Lemma finish_wake_fields p w tp y :
  p <> tr ->
  let sV := on_sched (TASK_SETRTN tp (t_tid x)) (set_wait_info p None (join_results w rv st s)) in
  let sW := on_sched (TASK_SETRTN tp (t_tid x)) (set_wait_info p None (join_results w rv st sF)) in
  parent (tracker sW y) = parent (tracker sV y) /\ children (tracker sW y) = children (tracker sV y) /\
  key (tracker sW y) = key (tracker sV y) /\ wait_info (tracker sW y) = wait_info (tracker sV y) /\
  task (tracker sW y) = (if y =? tr then None else task (tracker sV y)) /\
  parent (tracker sV y) = parent (tracker s y) /\
  wait_info (tracker sV y) = (if y =? p then None else wait_info (tracker s y)).
Proof.
  intros Hp sV sW. unfold sV, sW. cbn.
  destruct (join_results_same w rv st s) as (-> & _), (join_results_same w rv st sF) as (-> & _).
  destruct (set_finished_fields tr rv st s) as (F1 & F2 & F3). fold sF in F1, F2, F3.
  destruct (F3 y) as (G1 & G2 & G3). pose proof (F1 y) as G4. pose proof (F2 (Some y)) as G5. cbn [trackingList] in G5.
  unfold upd at 1 2 3 4 5 6 7 8 9 10 11 12. destruct (y =? p) eqn:E; b2p; [subst y|]; cbn [parent children key wait_info task]; split_and!; auto.
Qed.

Lemma finish_wake p w s' :
  parent (tracker s tr) = Some p -> wait_info (tracker s p) = Some w ->
  join_waiter p w tr (t_tid x) rv st sF = Ok s' -> ended s'.
Proof.
  intros Ep Ew. destruct finish_tracker as [Htr Htask].
  assert (Hpl : p ∈ live) by (pose proof (tk_parent _ _ (to_tree _ _ _ _ _ _ _ O) tr Htr) as H; by rewrite Ep in H).
  assert (Hptr : p <> tr) by (intros ->; by apply (parent_irrefl live s (to_tree _ _ _ _ _ _ _ O) tr Htr)).
  destruct (to_wait _ _ _ _ _ _ _ O p w Hpl Ew) as (tp & Htp & _).
  pose proof (fun y => finish_wake_fields p w tp y Hptr) as HF. cbv zeta in HF.
  destruct (join_results_same w rv st s) as (M1 & M2 & M3), (join_results_same w rv st sF) as (N1 & N2 & N3).
  unfold join_waiter. set (sW := on_sched _ (set_wait_info p None (join_results w rv st sF))) in *.
  set (sV := on_sched _ (set_wait_info p None (join_results w rv st s))) in *.
  assert (HtpF : task (tracker (set_wait_info p None (join_results w rv st sF)) p) = Some tp).
  { cbn. rewrite upd_eq, N1. cbn. by rewrite upd_ne. }
  rewrite HtpF. fold sW. destruct (removeTracker 2 tr sW) as [sR| | |] eqn:ER; try done. intros [= <-].
  assert (OV : ok A live (t :: tp :: held) sV).
  { eapply tm_held_perm; [apply perm_swap|]. apply tm_setrtn; [done..|].
    apply tm_wake with (w := w); [done..|by apply tm_join_results|done|by rewrite M1|by rewrite M1]. }
  assert (HxV : t_tracker (info sV t) = tr).
  { unfold info, sV. cbn. rewrite M2. unfold tr, x, info, upd. destruct (t =? tp) eqn:E; b2p; [by subst|done]. }
  destruct (tm_finish cpus idle Hcpus Hidle A A' live (tp :: held) sV sW t tr) as (O1 & _ & _); try done.
  - intros p' w'. destruct (HF tr) as (_ & _ & _ & _ & _ & -> & _). rewrite Ep. intros [= <-].
    destruct (HF p) as (_ & _ & _ & _ & _ & _ & ->). by rewrite Z.eqb_refl.
  - unfold sW, sV. cbn. by rewrite M2, N2.
  - intros y. apply HF.
  - intros [y|]; [apply HF|]. cbn. by rewrite M3, N3.
  - intros y. destruct (HF y) as (_ & _ & H1 & H2 & H3 & _). done.
  - destruct (tm_remove A' live (tp :: held) sW sR tr) as (live' & L1 & L2 & _); try done.
    + destruct (HF tr) as (_ & _ & _ & _ & -> & _). by rewrite Z.eqb_refl.
    + intros p'. destruct (HF tr) as (-> & _ & _ & _ & _ & -> & _). rewrite Ep. intros [= <-].
      destruct (HF p) as (_ & _ & _ & -> & _ & _ & ->). by rewrite Z.eqb_refl.
    + exists live'. split; [by apply tm_addTask|by right].
Qed.

Lemma finish_ok s' : may_end s t -> finishTask t rv st s = Ok s' -> ended s'.
Proof.
  intros Hme. unfold finishTask. change (s_task (tm_sched s) t) with x. fold tr sF.
  destruct (set_finished_fields tr rv st s) as (F1 & F2 & F3). fold sF in F1, F2, F3.
  destruct (detached x) eqn:Ed; [case_match; [done|]; intros E; apply finish_drop; [by apply Hme|done]|].
  rewrite F1. destruct (parent (tracker s tr)) as [p|] eqn:Ep; [|case_match; [done|]; by apply finish_drop; rewrite Ep].
  destruct (F3 p) as (_ & -> & _).
  destruct (wait_info (tracker s p)) as [w|] eqn:Ew; [|intros [= <-]; apply (finish_keep p); [done|by rewrite Ew]].
  destruct ((w_tid w <? 0) || (w_tid w =? t_tid x)) eqn:Em; [by apply finish_wake|].
  intros [= <-]. apply (finish_keep p); [done|]. rewrite Ew. intros w' [= <-].
  apply orb_false_iff in Em as [E1 E2]. b2p. lia.
Qed.
End finish.

Lemma held_update A c q t y hs :
  NoDup A -> sched_ok cpus idle A (Some c) q (t :: hs) -> t_cpu y = t_cpu (s_task q t) ->
  sched_ok cpus idle A (Some c) (set_task t y q) (t :: hs).
Proof. intros HA S Hy. apply ok_held_field; [done..|]. rewrite Hy. apply (so_cpu _ _ _ _ _ _ S). Qed.

Lemma TaskEnd_ok A A' live held s s' c rv :
  let t := s_cur (tm_sched s) c in
  ok A live held s -> c ∈ cpus -> A ≡ₚ t :: A' -> ~ is_idle_task cpus idle t -> may_end s t ->
  TaskEnd c rv s = Ok s' ->
  exists live', ok A' live' held s' /\ (live' = live \/ live ≡ₚ t_tracker (info s t) :: live').
Proof.
  intros t O Hc HA Hni Hme. unfold TaskEnd, endTask. fold t. cbn [tm_sched on_sched].
  change (s_cur (set_state t TASK_STATE_ENDED (tm_sched s)) c) with t. rewrite Z.eqb_refl.
  set (q1 := set_state t TASK_STATE_ENDED (tm_sched s)).
  destruct (tm_switch cpus idle Hcpus Hidle A live held s c t q1) as (O1 & _ & Hid); try done.
  - intros hs S. apply held_update; [apply O|done|done].
  - intros u Hu. cbn. by rewrite upd_ne.
  - by apply set_task_ids.
  - set (s1 := on_sched (fun _ => setNextRunnable c q1) s) in *.
    change (on_sched (setNextRunnable c) (on_sched (set_state t TASK_STATE_ENDED) s)) with s1.
    destruct (Hid t) as (I1 & I2 & I3). intros E.
    assert (Et : t_tracker (info s1 t) = t_tracker (info s t)) by exact I2.
    rewrite <-Et. eapply (finish_ok A A' live held s1 t); [exact O1|exact HA| |exact E].
    unfold may_end in *. rewrite Et. change (detached (info s1 t)) with (detached (s_task (setNextRunnable c q1) t)).
    rewrite I3. exact Hme.
Qed.

(** ** Wait *)

Lemma tm_weaken e A live held s : ok A live held s -> tm_ok cpus idle e A live held s.
Proof. intros O. split; try apply O. intros x Hx Hz _. by apply (to_zombie _ _ _ _ _ _ _ O). Qed.

Lemma block_join_ok A live held s c t tid st rv ch :
  ok A live held s -> c ∈ cpus -> t = s_cur (tm_sched s) c -> t ∈ A -> ~ is_idle_task cpus idle t ->
  awaited s (t_tracker (info s t)) (mkWait tid st rv) ch -> ok A live held (block_join c t tid st rv s).
Proof.
  intros O Hc Et Ht Hni Haw. unfold block_join. change (s_task (tm_sched s) t) with (info s t).
  set (q1 := set_info t tid (set_state t TASK_STATE_BLOCK_JOIN (tm_sched s))).
  assert (Hq1 : s_task q1 t = with_info tid (with_state TASK_STATE_BLOCK_JOIN (info s t))).
  { unfold q1, set_info, set_state. cbn. by rewrite !upd_eq. }
  destruct (tm_switch cpus idle Hcpus Hidle A live held s c t q1) as (O1 & E1 & Hid); try done.
  - intros hs S. apply held_update; [apply O| |]; cbn; [|by rewrite upd_eq].
    apply held_update; [apply O|done|done].
  - intros u Hu. cbn. by rewrite !upd_ne.
  - etransitivity; [|by apply set_task_ids]. by apply set_task_ids.
  - set (q := setNextRunnable c q1) in *.
    change (ok A live held (set_wait_info (t_tracker (info s t)) (Some (mkWait tid st rv)) (on_sched (fun _ => q) s))).
    destruct (Hid t) as (_ & I2 & _).
    eapply tm_block with (t := t) (ch := ch); [done|done|exact O1|done| | | |exact Haw].
    + symmetry. exact I2.
    + change (t_state (s_task q t) = TASK_STATE_BLOCK_JOIN). by rewrite E1, Hq1.
    + change (t_state_info (s_task q t) = tid). by rewrite E1, Hq1.
Qed.

(** The result of a join: forgotten children, or the caller blocked. *)
Lemma join_ok A live held s s' c t tid st rv cand :
  ok A live held s -> c ∈ cpus -> t = s_cur (tm_sched s) c -> t ∈ A -> ~ is_idle_task cpus idle t ->
  let tr := t_tracker (info s t) in
  match cand with
  | Some ch => ch ∈ children (tracker s tr) /\ (tid < 0 \/ key (tracker s ch) = tid)
  | None => exists ch, awaited s tr (mkWait tid st rv) ch
  end ->
  join_or_block c t tid st rv cand s = Ok s' -> exists live', ok A live' held s'.
Proof.
  intros O Hc Et Ht Hni tr Hcand. unfold join_or_block. destruct cand as [ch|].
  2:{ destruct Hcand as (ch & Hch). intros [= <-]. exists live. by eapply block_join_ok. }
  destruct Hcand as [Hch Hk]. destruct (bool_decide (is_Some (task (tracker s ch)))) eqn:E.
  { apply bool_decide_eq_true in E. intros [= <-]. exists live. by eapply block_join_ok. }
  apply bool_decide_eq_false, eq_None_not_Some in E.
  destruct (to_task _ _ _ _ _ _ _ O t (or_introl Ht)) as [Htr Htask]. fold tr in Htr, Htask.
  apply (tk_list _ _ (to_tree _ _ _ _ _ _ _ O) (Some tr)) in Hch as [Hl Hp]; [|done].
  set (s1 := join_results _ _ _ _).
  assert (Et1 : tracker s1 = tracker s) by exact (proj1 (join_results_same _ _ _ _)).
  assert (O1 : ok A live held s1) by (apply tm_join_results; by apply tm_setrtn).
  intros ER. destruct (tm_remove A live held s1 s' ch) as (live' & _ & O2 & _); try done; rewrite ?Et1; try done.
  - by apply tm_weaken.
  - rewrite Hp. intros p [= <-]. destruct (wait_info (tracker s tr)) as [w|] eqn:Ew; [|done]. exfalso.
    apply (current_not_joiner cpus idle Hcpus Hidle A live held s c tr O Hc Htr). unfold joiner. rewrite Ew, Htask. by rewrite Et.
  - by exists live'.
Qed.

Lemma waitTask_ok A live held s s' c t tid st rv :
  ok A live held s -> c ∈ cpus -> t = s_cur (tm_sched s) c -> t ∈ A -> ~ is_idle_task cpus idle t ->
  tid < 2 ^ 16 -> waitTask c t tid st rv s = Ok s' -> exists live', ok A live' held s'.
Proof.
  intros O Hc Et Ht Hni Htid. unfold waitTask. change (s_task (tm_sched s) t) with (info s t).
  set (tr := t_tracker (info s t)). destruct (tid <? 0) eqn:E0; b2p.
  - pose proof (find_finished_spec (children (tracker s tr)) s) as H.
    destruct (children (tracker s tr)) as [|x l] eqn:Ek; [intros [= <-]; exists live; by apply tm_setrtn|].
    apply (join_ok A live held); try done. fold tr. destruct (find_finished _ _) as [ch|].
    + rewrite Ek. split; [tauto|by left].
    + exists x. unfold awaited. rewrite Ek. split_and!; [by left|apply H; by left|by left].
  - destruct (LList.find _ _ _) as [ch|] eqn:Ef; [|intros [= <-]; exists live; by apply tm_setrtn].
    apply find_key_spec in Ef as [H1 H2]. apply (join_ok A live held); try done.
    split; [done|]. right. rewrite H2. apply wrap_small. split; [done|]. exact Htid.
Qed.

Lemma TaskWait_ok fka A live held s s' c tid a1 a2 :
  let t := s_cur (tm_sched s) c in
  ok A live held s -> c ∈ cpus -> t ∈ A -> ~ is_idle_task cpus idle t -> tid < 2 ^ 16 ->
  TaskWait fka c tid a1 a2 s = Ok s' -> exists live', ok A live' held s'.
Proof.
  intros t O Hc Ht Hni Htid. unfold TaskWait. fold t.
  destruct (_ && _); [intros [= <-]; exists live; by apply tm_setrtn|].
  destruct (_ && _); [intros [= <-]; exists live; by apply tm_setrtn|].
  by apply (waitTask_ok A live held).
Qed.
End steps.
