(* ===== verification/TaskMgrClaims.v ===== *)
(** * Tasks: theorems

    Every interleaving of task creation, end and join with scheduling keeps the
    tree of trackers and the places of the tasks consistent and loses no join;
    a join gives the same results whichever side is first; the errors of a join;
    exactly when the end of a task succeeds. *)

From S2P Require Import Prelude Containers Sched SchedSpec SchedSteps TaskMgr TaskMgrSpec TaskMgrInv TaskMgrSteps.

(** A tracker not deleted: reachable from the kernel's list. *)
Inductive linked (s : TaskManager) : Z -> Prop :=
| linked_kernel x : x ∈ tm_taskList s -> linked s x
| linked_child p x : linked s p -> x ∈ children (tracker s p) -> linked s x.

Lemma linked_live live s x : tree_ok live s -> linked s x <-> x ∈ live.
Proof.
  intros T. split.
  - induction 1 as [x Hx|p x _ IH Hx]; [by apply (tk_list _ _ T None x)|by apply (tk_list _ _ T (Some p) x)].
  - destruct (tk_rank _ _ T) as (rank & Hr). remember (rank x) as n eqn:En. revert x En.
    induction (lt_wf n) as [n _ IH]. intros x -> Hx.
    destruct (parent (tracker s x)) as [p|] eqn:Ep.
    + pose proof (tk_parent _ _ T x Hx) as Hp. rewrite Ep in Hp. apply (linked_child _ p).
      * eapply IH; [by apply (Hr x p)|done|exact Hp].
      * by apply (tk_list _ _ T (Some p)).
    + apply linked_kernel. by apply (tk_list _ _ T None).
Qed.

Section steps.
Context (cpus : list Z) (idle : Z -> Z).
Implicit Types (s : TaskManager) (c : Z).

(** System calls of the current task of some processor, or any operation of the
    scheduler.  New objects are at addresses not in use; a join names a 16-bit
    task id or any child; no detached task ends while its parent waits. *)
Inductive task_step : TaskManager -> TaskManager -> Prop :=
| step_sched s q : sched_frame cpus idle (tm_sched s) q -> task_step s (on_sched (fun _ => q) s)
| step_start s c arg nt ntr :
    c ∈ cpus -> ~ is_idle_task cpus idle nt -> ~ linked s ntr ->
    (forall x, linked s x -> task (tracker s x) <> Some nt) -> task_step s (TaskStart c arg nt ntr s)
| step_end s s' c rv :
    c ∈ cpus -> ~ is_idle_task cpus idle (s_cur (tm_sched s) c) -> may_end s (s_cur (tm_sched s) c) ->
    TaskEnd c rv s = Ok s' -> task_step s s'
| step_wait fka s s' c tid a1 a2 :
    c ∈ cpus -> ~ is_idle_task cpus idle (s_cur (tm_sched s) c) -> tid < 2 ^ 16 ->
    TaskWait fka c tid a1 a2 s = Ok s' -> task_step s s'.

Definition tm_inv held s : Prop := exists A live, tm_ok cpus idle None A live held s.

Lemma current_task A live held s c :
  tm_ok cpus idle None A live held s -> c ∈ cpus -> ~ is_idle_task cpus idle (s_cur (tm_sched s) c) ->
  s_cur (tm_sched s) c ∈ A.
Proof.
  intros O Hc Hni. by destruct (current_known cpus idle A None _ _ c (to_sched _ _ _ _ _ _ _ O) Hc).
Qed.

Lemma task_step_ok held s s' :
  NoDup cpus -> NoDup (idle <$> cpus) -> task_step s s' -> tm_inv held s -> tm_inv held s'.
Proof.
  intros Hcpus Hidle St (A & live & O). destruct St as [s q F|s c arg nt ntr Hc Hni Hl Hn|s s' c rv Hc Hni Hme E|fka s s' c tid a1 a2 Hc Hni Htid E].
  - exists A, live. by apply tm_frame.
  - exists (nt :: A), (ntr :: live). apply TaskStart_ok; try done.
    + intros Ht. destruct (to_task _ _ _ _ _ _ _ O nt (or_introl Ht)) as [H1 H2].
      eapply Hn; [|exact H2]. by eapply linked_live; [apply (to_tree _ _ _ _ _ _ _ O)|].
    + intros Ht. apply Hl. by eapply linked_live; [apply (to_tree _ _ _ _ _ _ _ O)|].
  - pose proof (current_task _ _ _ _ _ O Hc Hni) as Ht. apply elem_of_Permutation in Ht as (A' & HA).
    destruct (TaskEnd_ok cpus idle Hcpus Hidle A A' live held s s' c rv O Hc HA Hni Hme E) as (live' & O' & _).
    by exists A', live'.
  - pose proof (current_task _ _ _ _ _ O Hc Hni) as Ht.
    destruct (TaskWait_ok cpus idle Hcpus Hidle fka A live held s s' c tid a1 a2 O Hc Ht Hni Htid E) as (live' & O').
    by exists A, live'.
Qed.
End steps.


(** ** The end of a task *)

Lemma join_waiter_outcome live par w tr tid rv st (s : TaskManager) tp :
  tree_ok live s -> tr ∈ live -> is_Some (parent (tracker s tr)) -> task (tracker s par) = Some tp ->
  exists s', join_waiter par w tr tid rv st s = Ok s'.
Proof.
  intros T Hl Hp Ht. unfold join_waiter. destruct (join_results_same w rv st s) as (M1 & M2 & M3).
  set (sm := join_results w rv st s) in *. set (s1 := set_wait_info par None sm).
  assert (Hf : forall x, parent (tracker s1 x) = parent (tracker s x) /\ children (tracker s1 x) = children (tracker s x) /\
                 task (tracker s1 x) = task (tracker s x)).
  { intros x. subst s1. cbn. rewrite M1. unfold upd. case_match; b2p; by subst. }
  destruct (Hf par) as (_ & _ & ->). rewrite Ht.
  set (s2 := on_sched _ s1).
  assert (T2 : tree_ok live s2).
  { apply (same_tree _ s); [done|intros x; apply Hf|]. intros [x|]; [apply Hf|]. cbn. by rewrite M3. }
  destruct (removeTracker_cases live tr s2 T2 Hl) as [(s3 & -> & _)|[_ Hn]]; [by eexists|].
  destruct Hn. left. change (is_Some (parent (tracker s1 tr))). by rewrite (proj1 (Hf tr)).
Qed.

(** The part of the end on the trackers. *)
Lemma finishTask_outcome cpus idle A live held (s : TaskManager) t rv :
  NoDup cpus -> NoDup (idle <$> cpus) ->
  tm_ok cpus idle None A live (t :: held) s -> t ∈ A ->
  let tr := t_tracker (info s t) in
  let res := finishTask t rv TASK_STATUS_EXITED_CLEAN s in
  (adoptable (parent (tracker s tr)) (children (tracker s tr)) s <-> exists s', res = Ok s') /\ res <> NoFuel.
Proof.
  intros Hcpus Hidle O Ht tr res. subst res. unfold finishTask. change (s_task (tm_sched s) t) with (info s t). fold tr.
  set (sF' := set_finished tr TASK_STATUS_EXITED_CLEAN rv s).
  destruct (to_task _ _ _ _ _ _ _ O t (or_introl Ht)) as [Htr Htask]. fold tr in Htr, Htask.
  destruct (set_finished_fields tr rv TASK_STATUS_EXITED_CLEAN s) as (F1 & F2 & F3). fold sF' in F1, F2, F3.
  assert (T : tree_ok live sF') by exact (same_tree live s sF' (to_tree _ _ _ _ _ _ _ O) F1 F2).
  assert (Had : adoptable (parent (tracker sF' tr)) (children (tracker sF' tr)) sF' <->
                adoptable (parent (tracker s tr)) (children (tracker s tr)) s).
  { unfold adoptable. rewrite F1. change (children (tracker sF' tr)) with (trackingList (Some tr) sF'). rewrite F2.
    assert (Hk : forall x, x ∈ children (tracker s tr) -> task (tracker sF' x) = task (tracker s x)).
    { intros x Hx. destruct (F3 x) as (_ & _ & ->). rewrite (proj2 (Z.eqb_neq x tr)); [done|]. intros ->.
      apply (tk_list _ _ (to_tree _ _ _ _ _ _ _ O) (Some tr)) in Hx as [_ Hx]; [|done].
      by apply (parent_irrefl live s (to_tree _ _ _ _ _ _ _ O) tr Htr). }
    split; (intros [H|H]; [by left|right]); intros x Hx; specialize (H x Hx); by rewrite Hk in *. }
  assert (Hrem : (adoptable (parent (tracker s tr)) (children (tracker s tr)) s <-> exists s', removeTracker 2 tr sF' = Ok s') /\
                 removeTracker 2 tr sF' <> NoFuel).
  { rewrite <-Had. destruct (removeTracker_cases live tr sF' T Htr) as [(s1 & -> & _ & Ha)|[[-> | ->] Ha]];
      (split; [naive_solver|done]). }
  change (TASK_STATUS_EXITED_CLEAN =? TASK_STATUS_CRASHED) with false.
  destruct (detached (info s t)); [exact Hrem|]. rewrite F1.
  destruct (parent (tracker s tr)) as [p|] eqn:Ep; [|exact Hrem]. clear Hrem.
  enough (exists s', match wait_info (tracker sF' p) with
            | Some w => if (w_tid w <? 0) || (w_tid w =? t_tid (info s t))
                        then join_waiter p w tr (t_tid (info s t)) rv TASK_STATUS_EXITED_CLEAN sF' else Ok sF'
            | None => Ok sF' end = Ok s') as (s' & ->).
  { split; [|done]. split; [eauto|]. intros _. by left. }
  destruct (F3 p) as (_ & -> & Hpt). destruct (wait_info (tracker s p)) as [w|] eqn:Ew; [|by eexists].
  destruct (_ || _); [|by eexists].
  assert (Hpl : p ∈ live) by (pose proof (tk_parent _ _ (to_tree _ _ _ _ _ _ _ O) tr Htr) as H1; by rewrite Ep in H1).
  destruct (to_wait _ _ _ _ _ _ _ O p w Hpl Ew) as (tp & Htp & _).
  eapply join_waiter_outcome with (tp := tp); [exact T|exact Htr|by rewrite F1, Ep|].
  rewrite Hpt, (proj2 (Z.eqb_neq p tr)); [done|]. intros ->.
  by apply (parent_irrefl live s (to_tree _ _ _ _ _ _ _ O) tr Htr).
Qed.

(** C30: A task that ends by itself: the call always terminates, and it succeeds
    exactly when its tracker has a parent other than the kernel or all its
    children are still running.  Otherwise (a task of the kernel with a finished
    child nobody waited for) the kernel asserts, or unlinks the child from a
    list it is not on. *)
Theorem TaskEnd_outcome (cpus : list Z) (idle : Z -> Z) (A live held : list Z) (s : TaskManager) (c rv : Z) :
  let t := s_cur (tm_sched s) c in
  let tr := t_tracker (info s t) in
  NoDup cpus -> NoDup (idle <$> cpus) -> tm_ok cpus idle None A live held s ->
  c ∈ cpus -> ~ is_idle_task cpus idle t ->
  (is_Some (parent (tracker s tr)) \/ (forall x, x ∈ children (tracker s tr) -> is_Some (task (tracker s x))) <->
   exists s', TaskEnd c rv s = Ok s') /\
  (TaskEnd c rv s <> NoFuel).
Proof.
  intros t tr Hcpus Hidle O Hc Hni.
  pose proof (current_task _ _ _ _ _ _ _ O Hc Hni) as Ht. fold t in Ht.
  unfold TaskEnd, endTask. fold t. cbn [tm_sched on_sched].
  change (s_cur (set_state t TASK_STATE_ENDED (tm_sched s)) c) with t. rewrite Z.eqb_refl.
  set (q1 := set_state t TASK_STATE_ENDED (tm_sched s)).
  destruct (tm_switch cpus idle Hcpus Hidle A live held s c t q1) as (O1 & _ & Hid); try done.
  - intros hs S. apply held_update; [done|done|apply O|done|done].
  - intros u Hu. cbn. by rewrite upd_ne.
  - by apply set_task_ids.
  - set (s1 := on_sched (fun _ => setNextRunnable c q1) s) in *.
    change (on_sched (setNextRunnable c) (on_sched (set_state t TASK_STATE_ENDED) s)) with s1.
    destruct (Hid t) as (_ & I2 & _). pose proof (finishTask_outcome cpus idle A live held s1 t rv Hcpus Hidle O1 Ht) as H.
    change (t_tracker (info s1 t)) with (t_tracker (s_task (setNextRunnable c q1) t)) in H. rewrite I2 in H. exact H.
Qed.

(** ** The results of a join *)

Lemma addTask_rtn t s u : t_rtn (s_task (addTask t s) u) = t_rtn (s_task s u).
Proof. unfold addTask. repeat case_match; cbn; unfold upd; case_match; b2p; by subst. Qed.

Lemma join_results_mem w rv st (s s' : TaskManager) :
  tm_mem s = tm_mem s' -> tm_mem (join_results w rv st s) = tm_mem (join_results w rv st s').
Proof. intros E. unfold join_results. repeat case_match; cbn; by rewrite ?E. Qed.

(** Two removals from trees of the same shape. *)
Lemma removed_same tr s s' r r' :
  removed tr s s' -> removed tr r r' ->
  (forall x, parent (tracker s x) = parent (tracker r x)) -> (forall q, trackingList q s = trackingList q r) ->
  (forall x, parent (tracker s' x) = parent (tracker r' x)) /\ (forall q, trackingList q s' = trackingList q r').
Proof.
  intros R1 R2 Hp Hq. pose proof (Hq (Some tr)) as Hk. cbn in Hk. split.
  - intros x. rewrite (rm_parent _ _ _ R1), (rm_parent _ _ _ R2). by rewrite Hk, !Hp.
  - intros q. rewrite (rm_list _ _ _ R1), (rm_list _ _ _ R2). by rewrite Hk, Hp, Hq.
Qed.

Lemma removed_gone live tr s s' :
  tree_ok live s -> tr ∈ live -> removed tr s s' -> tr ∉ trackingList (parent (tracker s tr)) s'.
Proof.
  intros T Hl R. pose proof (parent_irrefl live s T tr Hl) as Hirr. rewrite (rm_list _ _ _ R).
  rewrite decide_False, decide_True by done. rewrite elem_of_app. intros [Hk|Hk].
  - apply (tk_list _ _ T (Some tr)) in Hk as [_ Hk]; [|done]. done.
  - apply erase_elem in Hk as [_ Hk]; [done|]. apply (tk_nodups _ _ T). by apply (tk_parent _ _ T).
Qed.

Section join.
Context (live : list Z) (s : TaskManager) (t tp tid st rv rv0 : Z).
Let tr := t_tracker (info s t).
Let par := t_tracker (info s tp).
Context (T : tree_ok live s) (Htr : tr ∈ live) (Hne : tp <> t).
Context (Htask : task (tracker s tr) = Some t) (Hkey : key (tracker s tr) = t_tid (info s t)).
Context (Hpar : parent (tracker s tr) = Some par) (Htp : task (tracker s par) = Some tp).
Context (Hdet : detached (info s t) = false) (Hnw : wait_info (tracker s par) = None).
Context (Hsel : tid < 0 /\ (forall x, x ∈ children (tracker s par) -> x <> tr -> is_Some (task (tracker s x))) \/
   0 <= tid < 2 ^ 16 /\ LList.find (fun x => key (tracker s x)) tid (children (tracker s par)) = Some tr /\ tid = t_tid (info s t)).
Let w := mkWait tid st rv.

Lemma join_par_ne : par <> tr.
Proof. intros E. apply (parent_irrefl live s T tr Htr). by rewrite <-E at 2. Qed.

(** The child's end after the parent's wait. *)
Lemma join_wait_end s1 :
  finishTask t rv0 TASK_STATUS_EXITED_CLEAN (set_wait_info par (Some w) s) = Ok s1 ->
  exists sW, removed tr sW (on_sched (fun _ => tm_sched sW) s1) /\
    (forall x, parent (tracker sW x) = parent (tracker s x)) /\ (forall q, trackingList q sW = trackingList q s) /\
    tm_mem s1 = tm_mem (join_results w rv0 TASK_STATUS_EXITED_CLEAN s) /\
    t_rtn (info s1 tp) = t_tid (info s t) /\ wait_info (tracker s1 par) = None.
Proof.
  pose proof join_par_ne as Hpt. unfold finishTask.
  change (s_task (tm_sched (set_wait_info par (Some w) s)) t) with (info s t). rewrite Hdet. fold tr.
  set (sF := set_finished tr _ rv0 _).
  assert (HF : forall x, parent (tracker sF x) = parent (tracker s x) /\ children (tracker sF x) = children (tracker s x) /\
    task (tracker sF x) = (if x =? tr then None else task (tracker s x)) /\
    wait_info (tracker sF x) = if x =? par then Some w else wait_info (tracker s x)).
  { intros x. unfold sF. cbn. unfold upd. rewrite (proj2 (Z.eqb_neq tr par)) by congruence.
    destruct (x =? tr) eqn:E1; b2p; [subst x; rewrite (proj2 (Z.eqb_neq tr par)) by congruence; done|].
    destruct (x =? par) eqn:E2; b2p; by subst. }
  destruct (HF tr) as (-> & _). rewrite Hpar. destruct (HF par) as (_ & _ & HtF & ->). rewrite Z.eqb_refl.
  assert (Em : (w_tid w <? 0) || (w_tid w =? t_tid (info s t)) = true).
  { cbn. apply orb_true_iff. destruct Hsel as [[? _]|(_ & _ & ->)]; [left; by apply Z.ltb_lt|right; apply Z.eqb_refl]. }
  rewrite Em. unfold join_waiter. destruct (join_results_same w rv0 TASK_STATUS_EXITED_CLEAN sF) as (M1 & M2 & M3).
  set (sJ := join_results w rv0 TASK_STATUS_EXITED_CLEAN sF) in *.
  assert (HtJ : task (tracker (set_wait_info par None sJ) par) = Some tp).
  { cbn. rewrite upd_eq. cbn. rewrite M1, HtF. by rewrite (proj2 (Z.eqb_neq par tr)). }
  rewrite HtJ. set (sW := on_sched _ (set_wait_info par None sJ)).
  assert (HW : forall x, parent (tracker sW x) = parent (tracker s x) /\ children (tracker sW x) = children (tracker s x) /\
    wait_info (tracker sW x) = if x =? par then None else wait_info (tracker s x)).
  { intros x. unfold sW. cbn. rewrite M1. unfold upd. destruct (HF x) as (H1 & H2 & _ & H4).
    destruct (x =? par) eqn:E; b2p; [subst x|]; by rewrite <-?H1, <-?H2, <-?H4. }
  assert (HWq : forall q, trackingList q sW = trackingList q s).
  { intros [x|]; [apply HW|]. cbn. by rewrite M3. }
  assert (TW : tree_ok live sW) by (apply (same_tree live s); [done|apply HW|done]).
  destruct (removeTracker_cases live tr sW TW Htr) as [(sR & -> & R & _)|[[-> | ->] _]]; [|done..].
  cbn [res_bind]. intros [= <-]. pose proof (rm_rest _ _ _ R) as (R1 & R2 & R3). exists sW. split_and!.
  - destruct R as [A1 A2 A3 A4]. by split.
  - intros x. apply HW.
  - done.
  - change (tm_mem (on_sched (addTask tp) sR)) with (tm_mem sR). rewrite R2.
    change (tm_mem sW) with (tm_mem sJ). by apply join_results_mem.
  - unfold info at 1. cbn. rewrite addTask_rtn, R1. cbn. by rewrite upd_eq.
  - cbn. destruct (rm_fields _ _ _ R par) as (_ & _ & _ & _ & ->). destruct (HW par) as (_ & _ & ->). by rewrite Z.eqb_refl.
Qed.

(** The parent's wait after the child's end. *)
Lemma join_end_wait c s2 s3 :
  finishTask t rv0 TASK_STATUS_EXITED_CLEAN s = Ok s2 -> waitTask c tp tid st rv s2 = Ok s3 ->
  exists sW, removed tr sW s3 /\
    (forall x, parent (tracker sW x) = parent (tracker s x)) /\ (forall q, trackingList q sW = trackingList q s) /\
    tm_mem s3 = tm_mem (join_results w rv0 TASK_STATUS_EXITED_CLEAN s) /\
    t_rtn (info s3 tp) = t_tid (info s t).
Proof.
  pose proof join_par_ne as Hpt. unfold finishTask. change (s_task (tm_sched s) t) with (info s t). rewrite Hdet. fold tr.
  destruct (set_finished_fields tr rv0 TASK_STATUS_EXITED_CLEAN s) as (F1 & F2 & F3).
  set (sF := set_finished tr _ rv0 s) in *. rewrite F1, Hpar. destruct (F3 par) as (_ & -> & HtF). rewrite Hnw. intros [= <-].
  unfold waitTask. change (s_task (tm_sched sF) tp) with (info s tp). fold par.
  change (children (tracker sF par)) with (trackingList (Some par) sF). rewrite F2. cbn [trackingList].
  assert (Hin : tr ∈ children (tracker s par)).
  { apply (tk_list _ _ T (Some par)); [|done]. pose proof (tk_parent _ _ T tr Htr) as H. by rewrite Hpar in H. }
  assert (HtrF : task (tracker sF tr) = None) by (destruct (F3 tr) as (_ & _ & ->); by rewrite Z.eqb_refl).
  assert (Hj : join_or_block c tp tid st rv (Some tr) sF = Ok s3 ->
    exists sW, removed tr sW s3 /\
      (forall x, parent (tracker sW x) = parent (tracker s x)) /\ (forall q, trackingList q sW = trackingList q s) /\
      tm_mem s3 = tm_mem (join_results w rv0 TASK_STATUS_EXITED_CLEAN s) /\ t_rtn (info s3 tp) = t_tid (info s t)).
  { unfold join_or_block. rewrite HtrF. rewrite bool_decide_eq_false_2 by (by intros [? ?]).
    destruct (F3 tr) as (Hk & _). rewrite Hk, Hkey.
    change (tracker (on_sched (TASK_SETRTN tp (t_tid (info s t))) sF) tr) with (tracker sF tr).
    assert (Hrs : retval (tracker sF tr) = rv0 /\ status (tracker sF tr) = TASK_STATUS_EXITED_CLEAN)
      by (unfold sF; cbn; by rewrite upd_eq).
    destruct Hrs as [-> ->]. fold w. set (s0 := on_sched _ sF).
    destruct (join_results_same w rv0 TASK_STATUS_EXITED_CLEAN s0) as (M1 & M2 & M3). set (sJ := join_results _ _ _ s0) in *.
    assert (Hq : forall q, trackingList q sJ = trackingList q s).
    { intros [x|]; cbn; [rewrite M1; apply (F2 (Some x))|by rewrite M3]. }
    assert (Hp : forall x, parent (tracker sJ x) = parent (tracker s x)) by (intros x; rewrite M1; apply F1).
    assert (TJ : tree_ok live sJ) by by apply (same_tree live s).
    intros E. destruct (removeTracker_cases live tr sJ TJ Htr) as [(sR & E2 & R & _)|[[E2|E2] _]]; [|congruence..].
    assert (sR = s3) as -> by congruence. pose proof (rm_rest _ _ _ R) as (R1 & R2 & R3). exists sJ. split_and!; try done.
    - rewrite R2. by apply join_results_mem.
    - unfold info at 1. rewrite R1, M2. cbn. by rewrite upd_eq. }
  destruct Hsel as [[Ht Hrun]|(Ht & Hf & Hteq)].
  - rewrite (proj2 (Z.ltb_lt _ _) Ht). destruct (children (tracker s par)) as [|x l] eqn:Ek; [by apply elem_of_nil in Hin|].
    pose proof (find_finished_spec (x :: l) sF) as Hff. destruct (find_finished (x :: l) sF) as [ch|].
    + assert (ch = tr) as ->; [|done]. destruct Hff as [Hc1 Hc2]. destruct (decide (ch = tr)) as [|Hcne]; [done|].
      exfalso. destruct (Hrun ch Hc1 Hcne) as [u Hu]. destruct (F3 ch) as (_ & _ & E3).
      rewrite (proj2 (Z.eqb_neq ch tr)) in E3 by done. congruence.
    + destruct (Hff tr Hin) as [u Hu]. congruence.
  - rewrite (proj2 (Z.ltb_ge _ _)) by lia. rewrite wrap_small by (split; lia).
    assert (Hf2 : LList.find (fun x => key (tracker sF x)) tid (children (tracker s par)) = Some tr).
    { rewrite <-Hf. clear -F3. induction (children (tracker s par)) as [|x l IH]; [done|]. cbn [LList.find].
      destruct (F3 x) as (E & _). rewrite E. by rewrite IH. }
    by rewrite Hf2.
Qed.
End join.

(** A join gives the same results whichever side comes first.  If the
    parent waits and then the child ends, or the child ends and then the parent
    waits (for that child, or for any child when no other one is finished), the
    parent's system call returns the child's id, the same status and return
    value are written to the same places, the child's tracker is forgotten and
    its children go to the same lists. *)
Theorem join_order_irrelevant (live : list Z) (s s1 s2 s3 : TaskManager) (c t tp tid st rv rv0 : Z) :
  let tr := t_tracker (info s t) in
  let par := t_tracker (info s tp) in
  tree_ok live s -> tr ∈ live -> tp <> t ->
  task (tracker s tr) = Some t -> key (tracker s tr) = t_tid (info s t) -> parent (tracker s tr) = Some par ->
  task (tracker s par) = Some tp -> detached (info s t) = false -> wait_info (tracker s par) = None ->
  (tid < 0 /\ (forall x, x ∈ children (tracker s par) -> x <> tr -> is_Some (task (tracker s x))) \/
   0 <= tid < 2 ^ 16 /\ LList.find (fun x => key (tracker s x)) tid (children (tracker s par)) = Some tr /\ tid = t_tid (info s t)) ->
  finishTask t rv0 TASK_STATUS_EXITED_CLEAN (set_wait_info par (Some (mkWait tid st rv)) s) = Ok s1 ->
  finishTask t rv0 TASK_STATUS_EXITED_CLEAN s = Ok s2 -> waitTask c tp tid st rv s2 = Ok s3 ->
  t_rtn (info s1 tp) = t_tid (info s t) /\ t_rtn (info s3 tp) = t_tid (info s t) /\
  tm_mem s1 = tm_mem s3 /\
  tm_mem s1 = tm_mem (join_results (mkWait tid st rv) rv0 TASK_STATUS_EXITED_CLEAN s) /\
  (forall q, trackingList q s1 = trackingList q s3) /\
  (forall x, parent (tracker s1 x) = parent (tracker s3 x)) /\
  tr ∉ children (tracker s3 par) /\ wait_info (tracker s1 par) = None.
Proof.
  intros tr par T Htr Hne Htask Hkey Hpar Htp Hdet Hnw Hsel E1 E2 E3.
  destruct (join_wait_end live s t tp tid st rv rv0 T Htr Hne Htask Hpar Htp Hdet Hsel s1 E1) as (sW1 & R1 & P1 & Q1 & M1 & N1 & W1).
  destruct (join_end_wait live s t tp tid st rv rv0 T Htr Hkey Hpar Hdet Hnw Hsel c s2 s3 E2 E3) as (sW2 & R2 & P2 & Q2 & M2 & N2).
  destruct (removed_same tr sW1 _ sW2 s3 R1 R2) as [S1 S2]; [intros x; by rewrite P1, P2|intros q; by rewrite Q1, Q2|].
  split_and!; try done.
  - by rewrite M1, M2.
  - assert (T2 : tree_ok live sW2) by by apply (same_tree live s).
    pose proof (removed_gone live tr sW2 s3 T2 Htr R2) as H. rewrite P2, Hpar in H. exact H.
Qed.

(** ** Errors of a join *)

Lemma join_or_block_result live c t tid st rv ch (s s' : TaskManager) :
  tree_ok live s -> ch ∈ live -> join_or_block c t tid st rv (Some ch) s = Ok s' ->
  task (tracker s ch) = None /\ t_rtn (info s' t) = key (tracker s ch) \/
  is_Some (task (tracker s ch)) /\ s' = block_join c t tid st rv s.
Proof.
  intros T Hl. unfold join_or_block. destruct (bool_decide (is_Some (task (tracker s ch)))) eqn:E.
  - apply bool_decide_eq_true in E. intros [= <-]. by right.
  - apply bool_decide_eq_false, eq_None_not_Some in E. left. split; [done|].
    change (tracker (on_sched (TASK_SETRTN t (key (tracker s ch))) s) ch) with (tracker s ch) in H.
    set (s0 := on_sched _ s) in H. destruct (join_results_same (mkWait tid st rv) (retval (tracker s ch)) (status (tracker s ch)) s0) as (M1 & M2 & M3).
    set (sJ := join_results _ _ _ s0) in *.
    assert (TJ : tree_ok live sJ).
    { apply (same_tree live s); [done|intros x; by rewrite M1|]. intros [x|]; cbn; [by rewrite M1|by rewrite M3]. }
    destruct (removeTracker_cases live ch sJ TJ Hl) as [(sR & E2 & R & _)|[[E2|E2] _]]; [|congruence..].
    assert (sR = s') as -> by congruence. destruct (rm_rest _ _ _ R) as (R1 & _).
    unfold info at 1. rewrite R1, M2. cbn. by rewrite upd_eq.
Qed.


(** ** A system with one processor *)

Section sample.
Definition sample_tm_idle (c : Z) : Z := 1000 + c.
Definition sample_tm_sched : sched :=
  mkSched (fun t => if t =? 1 then mkTask 0 TASK_STATE_RUNNING 0 0 0 false 1 2001
                    else mkTask 0 TASK_STATE_READY 0 1 0 false 0 3000)
    (fun _ => 1) sample_tm_idle [] (fun _ => []) (fun _ => []) 0.
Definition sample_tm : TaskManager :=
  mkTM sample_tm_sched
    (fun x => if x =? 2001 then mkTracking None [] 1 (Some 1) (-1) 0 None
              else if x =? 3000 then mkTracking None [] 0 (Some 1000) (-1) 0 None
              else mkTracking None [] 0 None 0 0 None)
    [2001; 3000] 2 (fun _ => 7).

Lemma sample_sched_tm_ok : sched_ok [0] sample_tm_idle [1] None sample_tm_sched [].
Proof.
  assert (Hc : forall c, c ∈ [0] -> c = 0) by set_solver.
  split; simpl; try done.
  - intros t. unfold is_idle_task. cbn. set_solver.
  - intros c ->%Hc. done.
  - intros c c' ->%Hc ->%Hc. done.
  - intros t. case_match; set_solver.
  - intros c ->%Hc. done.
  - intros t. cbn. set_solver.
  - intros k t. cbn. set_solver.
  - intros c. constructor.
Qed.

Lemma sample_tree : tree_ok [2001; 3000] sample_tm.
Proof.
  assert (Hx : forall x, x ∈ [2001; 3000] -> parent (tracker sample_tm x) = None) by (intros x; cbn; set_solver).
  assert (Hk : forall x, children (tracker sample_tm x) = []) by (intros x; cbn; repeat case_match; done).
  split.
  - apply (bool_decide_unpack _). vm_compute. exact I.
  - intros [p|] _; cbn [trackingList]; [rewrite Hk; constructor|]. apply (bool_decide_unpack _). vm_compute. exact I.
  - intros [p|] x _; cbn [trackingList]; [rewrite Hk|].
    + split; [by intros ?%elem_of_nil|]. intros [H1 H2]. apply Hx in H1. congruence.
    + change (tm_taskList sample_tm) with [2001; 3000]. split; [intros H; auto|tauto].
  - intros x H. by rewrite Hx.
  - exists (fun _ => 0%nat). intros x p H1 H2. apply Hx in H1. congruence.
Qed.

Lemma sample_tm_ok : tm_ok [0] sample_tm_idle None [1] [2001; 3000] [] sample_tm.
Proof.
  assert (Hl : forall x, x ∈ [2001; 3000] -> x = 2001 \/ x = 3000) by set_solver.
  split.
  - apply (bool_decide_unpack _). vm_compute. exact I.
  - exact sample_tree.
  - exact sample_sched_tm_ok.
  - intros t [Ht|Ht].
    + apply list_elem_of_singleton in Ht as ->. split; [by left|done].
    + unfold is_idle_task in Ht. cbn in Ht. apply list_elem_of_singleton in Ht as ->. split; [by right; left|done].
  - intros x t [-> | ->]%Hl; cbn; intros [= <-]; split_and!; try done; [left; by left|right].
    unfold is_idle_task. cbn. by left.
  - intros x [-> | ->]%Hl; done.
  - intros x w [-> | ->]%Hl; done.
Qed.

Lemma sample_fresh x : linked sample_tm x -> x = 2001 \/ x = 3000.
Proof. intros H. apply (linked_live _ _ _ sample_tree) in H. set_solver. Qed.

(** Task 1 creates task 2 and waits for it; task 2 ends with value 77. *)
Definition sample_started : TaskManager := TaskStart 0 5 2 2002 sample_tm.
Definition sample_waiting : TaskManager :=
  match TaskWait (fun a => a + 4096) 0 2 256 264 sample_started with Ok s => s | _ => sample_tm end.
Definition sample_joined : TaskManager :=
  match TaskEnd 0 77 sample_waiting with Ok s => s | _ => sample_tm end.
End sample.


(** A kernel task whose finished child was not waited for cannot end. *)
Lemma TaskEnd_outcome_witness :
  (exists s', TaskEnd 0 9 sample_tm = Ok s') /\
  TaskEnd 0 9 (set_children 2001 [2002] (set_tracker 2002 (mkTracking (Some 2001) [] 2 None 0 5 None) sample_tm)) = Wild.
Proof.
  split; [|vm_compute; reflexivity].
  assert (N1 : NoDup [0]) by (apply (bool_decide_unpack _); vm_compute; exact I).
  assert (N2 : NoDup (sample_tm_idle <$> [0])) by (apply (bool_decide_unpack _); vm_compute; exact I).
  assert (Hi : ~ is_idle_task [0] sample_tm_idle (s_cur (tm_sched sample_tm) 0))
    by (unfold is_idle_task; apply (bool_decide_unpack _); vm_compute; exact I).
  destruct (TaskEnd_outcome [0] sample_tm_idle [1] [2001; 3000] [] sample_tm 0 9 N1 N2 sample_tm_ok) as [H _]; [by left|exact Hi|].
  apply H. right. intros x Hx. apply elem_of_nil in Hx. destruct Hx.
Defined.

Lemma sample_child_tree : tree_ok [2002; 2001; 3000] sample_started.
Proof.
  assert (N1 : NoDup [0]) by (apply (bool_decide_unpack _); vm_compute; exact I).
  assert (N2 : NoDup (sample_tm_idle <$> [0])) by (apply (bool_decide_unpack _); vm_compute; exact I).
  apply (to_tree [0] sample_tm_idle None [2; 1] [2002; 2001; 3000] []).
  apply TaskStart_ok; [exact N1|exact N2|exact sample_tm_ok|by left|set_solver| |set_solver].
  unfold is_idle_task. apply (bool_decide_unpack _). vm_compute. exact I.
Qed.

Definition sample_ended_first : TaskManager :=
  match finishTask 2 77 TASK_STATUS_EXITED_CLEAN sample_started with Ok s => s | _ => sample_tm end.
Definition sample_joined_last : TaskManager :=
  match waitTask 0 1 (-1) 100 200 sample_ended_first with Ok s => s | _ => sample_tm end.
Definition sample_ended_last : TaskManager :=
  match finishTask 2 77 TASK_STATUS_EXITED_CLEAN (set_wait_info 2001 (Some (mkWait (-1) 100 200)) sample_started) with
  | Ok s => s | _ => sample_tm end.

Lemma join_order_irrelevant_witness :
  tm_mem sample_ended_last = tm_mem sample_joined_last /\ tm_mem sample_joined_last 200 = 77 /\
  t_rtn (info sample_joined_last 1) = 2.
Proof.
  split; [|split; vm_compute; reflexivity].
  refine (proj1 (proj2 (proj2 (join_order_irrelevant [2002; 2001; 3000] sample_started sample_ended_last sample_ended_first
    sample_joined_last 0 2 1 (-1) 100 200 77 sample_child_tree _ _ _ _ _ _ _ _ _ _ _ _))));
    try discriminate; try (vm_compute; reflexivity); [vm_compute; by left|].
  left. split; [done|]. intros x Hx Hne. exfalso.
  assert (E : children (tracker sample_started (t_tracker (info sample_started 1))) = [2002]) by (vm_compute; reflexivity).
  rewrite E in Hx. apply list_elem_of_singleton in Hx. apply Hne. rewrite Hx. vm_compute. reflexivity.
Defined.


(** ** A detached child *)

Definition task_detach (t : Z) (s : TaskManager) : TaskManager :=
  let x := info s t in
  on_sched (set_task t (mkTask (t_cpu x) (t_state x) (t_state_info x) (affinity_pinned x) (t_rtn x) true (t_tid x) (t_tracker x))) s.

(** The end of a detached child does not wake a parent that waits for it: the
    wait stays, with no child left. *)
Example detached_child_lost :
  match TaskWait (fun a => a) 0 2 0 0 sample_started with
  | Ok s =>
      match TaskEnd 0 77 (task_detach 2 s) with
      | Ok s => wait_info (tracker s 2001) = Some (mkWait 2 0 0) /\ children (tracker s 2001) = [] /\
                t_state (info s 1) = TASK_STATE_BLOCK_JOIN
      | _ => False
      end
  | _ => False
  end.
Proof. vm_compute. split_and!; reflexivity. Qed.
