(* ===== verification/MsgQ.v ===== *)
(** * Message queues ([src/kernel/syscall.C], [msghandler.C], [intmsghandler.C], [ipc.C])

    Messages, queues and message handlers are named by their addresses.  The
    code stores a task, a secondary queue or a message handler in one pointer of
    a pending message; here the three are kept apart, and reading one as another
    is a wild access. *)

From S2P Require Import Prelude Containers Sched TaskMgr.

Definition EINVAL : Z := 22.
Definition EBADF : Z := 9.
Definition EAGAIN : Z := 11.
Definition MSG_FIRST_SYS_TYPE : Z := 2147483648.
Definition MSG_INTR_EXTERN : Z := 2147483652.
Definition MSG_INTR_ADD_CPU : Z := 2147483653.
Definition MSG_INTR_CPU_WAKEUP : Z := 2147483654.
Definition MSG_INTR_ISSUE_SBE_MBOX_WA : Z := 2147483655.
Definition MSG_INTR_IPC : Z := 2147483656.
Definition MSG_KEY_THREAD_WKUP : Z := 9223372036854775808.
Definition MSG_KEY_ADD_CPU_CORE : Z := 4611686018427387904.
Definition MSG_KEY_IPC_MSG : Z := 2305843009213693952.
Definition MSG_IPC_SALT : Z := 4294967296.
Definition MSGQ_ROOT_VFS : Z := 0.
Definition MSGQ_ROOT_INTR : Z := 1.
Definition MSGQ_TYPE_IPC : Z := 8.

Record msg_t : Type := mkMsg {
  m_type : Z;
  m_async : bool;
  m_pseudosync : bool;
  m_data0 : Z;
  m_data1 : Z;
  m_extra : Z
}.

(** [MessagePending]: the message and who gets the response. *)
Inductive target : Type := TTask (t : Z) | TQueue (q : Z) | THandler (h : Z).
Definition MessagePending : Type := (Z * target)%type.

(** Lists from head to tail; [insert] adds at the head, [remove] takes the
    tail. *)
Record MessageQueue : Type := mkMQ {
  messages : list MessagePending;
  responses : list MessagePending;
  waiting : list Z
}.

(** A message handler: its queue and the deferred requests by key. *)
Record MessageHandler : Type := mkHandler {
  iv_msgq : Z;
  iv_pending : list (Z * option Z)
}.

(** The IPC area of another node: the queue id and the message. *)
Record ipc_data_area_t : Type := mkIpc {
  msg_queue_id : Z;
  msg_payload : msg_t
}.

Record kern : Type := mkKern {
  k_tm : TaskManager;
  k_mq : Z -> MessageQueue;
  k_msg : Z -> msg_t;
  k_handler : Z -> MessageHandler;
  msgQRoot : Z;
  msgQIntr : Z;
  remote_ipc_data_addr : Z -> Z;
  k_ipc : Z -> ipc_data_area_t
}.

Inductive HandleResult : Type := SUCCESS | CONTINUE_DEFER | UNHANDLED_RC.
#[export] Instance HandleResult_eq : EqDecision HandleResult.
Proof. solve_decision. Defined.

Section msgq.
Implicit Types (k : kern) (c t q m h : Z).

Definition on_tm (f : TaskManager -> TaskManager) k : kern :=
  mkKern (f (k_tm k)) (k_mq k) (k_msg k) (k_handler k) (msgQRoot k) (msgQIntr k) (remote_ipc_data_addr k) (k_ipc k).
Definition set_mq q (x : MessageQueue) k : kern :=
  mkKern (k_tm k) (upd (k_mq k) q x) (k_msg k) (k_handler k) (msgQRoot k) (msgQIntr k) (remote_ipc_data_addr k) (k_ipc k).
Definition set_msg m (x : msg_t) k : kern :=
  mkKern (k_tm k) (k_mq k) (upd (k_msg k) m x) (k_handler k) (msgQRoot k) (msgQIntr k) (remote_ipc_data_addr k) (k_ipc k).
Definition set_handler h (x : MessageHandler) k : kern :=
  mkKern (k_tm k) (k_mq k) (k_msg k) (upd (k_handler k) h x) (msgQRoot k) (msgQIntr k) (remote_ipc_data_addr k) (k_ipc k).
Definition set_roots (r i : Z) k : kern :=
  mkKern (k_tm k) (k_mq k) (k_msg k) (k_handler k) r i (remote_ipc_data_addr k) (k_ipc k).
Definition set_ipc (a : Z) (x : ipc_data_area_t) k : kern :=
  mkKern (k_tm k) (k_mq k) (k_msg k) (k_handler k) (msgQRoot k) (msgQIntr k) (remote_ipc_data_addr k) (upd (k_ipc k) a x).

Definition sch (f : sched -> sched) k : kern := on_tm (on_sched f) k.
Definition cur c k : Z := s_cur (tm_sched (k_tm k)) c.
Definition tsk t k : task_t := s_task (tm_sched (k_tm k)) t.

Definition set_messages q (l : list MessagePending) k : kern :=
  set_mq q (mkMQ l (responses (k_mq k q)) (waiting (k_mq k q))) k.
Definition set_responses q (l : list MessagePending) k : kern :=
  set_mq q (mkMQ (messages (k_mq k q)) l (waiting (k_mq k q))) k.
Definition set_waiting q (l : list Z) k : kern :=
  set_mq q (mkMQ (messages (k_mq k q)) (responses (k_mq k q)) l) k.
Definition set_pending h (l : list (Z * option Z)) k : kern := set_handler h (mkHandler (iv_msgq (k_handler k h)) l) k.

Definition set_async (b : bool) m k : kern :=
  let x := k_msg k m in set_msg m (mkMsg (m_type x) b (m_pseudosync x) (m_data0 x) (m_data1 x) (m_extra x)) k.
Definition set_pseudosync m k : kern :=
  let x := k_msg k m in set_msg m (mkMsg (m_type x) (m_async x) true (m_data0 x) (m_data1 x) (m_extra x)) k.

(** [new_q] is the address of the new queue. *)
Definition MsgQCreate c (new_q : Z) k : kern :=
  sch (TASK_SETRTN (cur c k) new_q) (set_mq new_q (mkMQ [] [] []) k).

Definition MsgQDestroy c q k : kern :=
  sch (TASK_SETRTN (cur c k) 0) (if q =? 0 then k else set_mq q (mkMQ [] [] []) k).

Definition MsgQResolveRoot c (arg0 : Z) k : kern :=
  let t := cur c k in
  if arg0 =? MSGQ_ROOT_VFS then sch (TASK_SETRTN t (msgQRoot k)) k
  else if arg0 =? MSGQ_ROOT_INTR then sch (TASK_SETRTN t (msgQIntr k)) k
  else sch (TASK_SETRTN t 0) k.

(** [KernelIpc::send], the freeing of the message and the doorbell apart. *)
Definition MAX_NODES_PER_SYS : Z := 8.
Definition IPC_DATA_AREA_CLEAR : Z := 0.
Definition IPC_INVALID_REMOTE_ADDR_MASK : Z := 18446744073709551600.
Definition IPC_INVALID_REMOTE_ADDR : Z := 3735940560.
Definition KernelIpc_send (i_q i_msg : Z) k : Z * kern :=
  let dest_node := Z.land (Z.shiftr i_q 32) (MAX_NODES_PER_SYS - 1) in
  let p_dest := remote_ipc_data_addr k dest_node in
  if (p_dest =? 0) || (Z.land p_dest IPC_INVALID_REMOTE_ADDR_MASK =? IPC_INVALID_REMOTE_ADDR) then (EINVAL, k)
  else if negb (msg_queue_id (k_ipc k p_dest) =? IPC_DATA_AREA_CLEAR) then (- EAGAIN, k)
  else (0, set_ipc p_dest (mkIpc i_q (k_msg k i_msg)) k).

(** Hand message [m] to a waiting task. *)
Definition deliver (w m : Z) k : kern := sch (addTask w) (sch (TASK_SETRTN w m) k).

Definition MsgSend c (q_handle m : Z) k : kern :=
  let t := cur c k in
  if negb (Z.land (Z.shiftr q_handle 32) MSGQ_TYPE_IPC =? 0) then
    let '(rc, k) := KernelIpc_send q_handle m k in sch (TASK_SETRTN t (u64 rc)) k
  else
    let mq := q_handle in
    if (mq =? 0) || (m =? 0) then sch (TASK_SETRTN t (u64 (- EINVAL))) k
    else
      let k := set_async false m k in
      if MSG_FIRST_SYS_TYPE <=? m_type (k_msg k m) then sch (TASK_SETRTN t (u64 (- EINVAL))) k
      else
        let k :=
          match Queue.remove (waiting (k_mq k mq)) with
          | (None, _) => set_messages mq (LList.insert (m, TTask t) (messages (k_mq k mq))) k
          | (Some waiter, ws) => deliver waiter m (set_waiting mq ws k)
          end in
        sch (TASK_SETRTN t 0) k.

Definition block_msg t q k : kern := sch (fun s => set_info t q (set_state t TASK_STATE_BLOCK_MSG s)) k.

Definition MsgSendRecv c q m (mq2 : Z) k : kern :=
  let t := cur c k in
  let k := set_async true m k in
  let k := if negb (mq2 =? 0) then set_pseudosync m k else k in
  if MSG_FIRST_SYS_TYPE <=? m_type (k_msg k m) then sch (TASK_SETRTN t (u64 (- EINVAL))) k
  else
    let pseudo := m_pseudosync (k_msg k m) in
    let mp := (m, if negb pseudo then TTask t else TQueue mq2) in
    let k := if negb pseudo then block_msg t q k else sch (TASK_SETRTN t 0) k in
    match Queue.remove (waiting (k_mq k q)) with
    | (None, _) =>
        let k := set_messages q (LList.insert mp (messages (k_mq k q))) k in
        if negb pseudo then sch (setNextRunnable c) k else k
    | (Some waiter, ws) =>
        let k := sch (TASK_SETRTN waiter m) (set_waiting q ws k) in
        let k := set_responses q (LList.insert mp (responses (k_mq k q))) k in
        let k := sch (fun s => set_cpu waiter (t_cpu (s_task s t)) s) k in
        let k := if pseudo then sch (addTask t) k else k in
        sch (setCurrentTask c waiter) k
    end.

Definition MsgWait c q k : kern :=
  let t := cur c k in
  match Queue.remove (messages (k_mq k q)) with
  | (None, _) =>
      let k := set_waiting q (Queue.insert t (waiting (k_mq k q))) k in
      sch (setNextRunnable c) (block_msg t q k)
  | (Some (m, tgt), l) =>
      let k := set_messages q l k in
      let k := if m_async (k_msg k m) then set_responses q (LList.insert (m, tgt) (responses (k_mq k q))) k else k in
      sch (TASK_SETRTN t m) k
  end.

(** ** Message handlers *)

(** [sendMessage]; [nm] is the address of the new message.  [intr] chooses the
    override of [InterruptMsgHdlr], which queues a ready waiter instead of
    running it at once. *)
Definition sendMessage (intr : bool) c h (nm i_type i_key i_data : Z) (i_task : option Z) k : kern :=
  let mhp := (i_key, i_task) in
  let k := match i_task with
           | Some t => sch (fun s => set_info t i_key (set_state t TASK_STATE_BLOCK_USRSPACE s)) k
           | None => k
           end in
  let q := iv_msgq (k_handler k h) in
  let '(ready_task, k) :=
    if negb (bool_decide (is_Some (LList.find fst i_key (iv_pending (k_handler k h))))) then
      let k := set_msg nm (mkMsg i_type true false i_key i_data 0) k in
      match Queue.remove (waiting (k_mq k q)) with
      | (None, _) => (None, set_messages q (LList.insert (nm, THandler h) (messages (k_mq k q))) k)
      | (Some waiter, ws) =>
          let k := sch (TASK_SETRTN waiter nm) (set_waiting q ws k) in
          (Some waiter, set_responses q (LList.insert (nm, THandler h) (responses (k_mq k q))) k)
      end
    else (None, k) in
  let '(ready_task, k) :=
    match i_task with
    | Some t =>
        if t =? cur c k then
          match ready_task with
          | Some w => (None, sch (setCurrentTask c w) k)
          | None => (None, sch (setNextRunnable c) k)
          end
        else (ready_task, k)
    | None => (ready_task, k)
    end in
  let k :=
    match ready_task with
    | Some w => if intr then sch (addTask w) k else sch (setCurrentTask c w) (sch (addTask (cur c k)) k)
    | None => k
    end in
  set_pending h (mhp :: iv_pending (k_handler k h)) k.

Definition InterruptMsgHdlr_sendMessage : Z -> Z -> Z -> Z -> Z -> Z -> option Z -> kern -> kern := sendMessage true.

(** The static state of [InterruptMsgHdlr]: the instance, if any. *)
Record InterruptMsgHdlr : Type := mkIntr {
  cv_instance : option Z;
  cv_ipc_base_address : Z;
  cv_ipc_salt : Z
}.

(** [create]; [ni] is the address of the new instance. *)
Definition InterruptMsgHdlr_create (ni i_msgQ i_ipc_addr : Z) (x : InterruptMsgHdlr * kern) : InterruptMsgHdlr * kern :=
  (mkIntr (Some ni) i_ipc_addr (cv_ipc_salt (fst x)), set_handler ni (mkHandler i_msgQ []) (snd x)).

Definition MsgQRegisterRoot c ni (arg0 arg1 arg2 : Z) (x : InterruptMsgHdlr * kern) : InterruptMsgHdlr * kern :=
  let '(v, k) := x in
  let t := cur c k in
  if arg0 =? MSGQ_ROOT_VFS then (v, sch (TASK_SETRTN t 0) (set_roots arg1 (msgQIntr k) k))
  else if arg0 =? MSGQ_ROOT_INTR then
    let '(v, k) := InterruptMsgHdlr_create ni arg1 arg2 (v, set_roots (msgQRoot k) arg1 k) in
    (v, sch (TASK_SETRTN t 0) k)
  else (v, sch (TASK_SETRTN t (u64 (- EINVAL))) k).

(** The message of each caller of [sendMessage]: type, key and data. *)
Definition cv_send c nm (i_type i_key i_data : Z) (i_task : option Z) (v : InterruptMsgHdlr) k : kern :=
  match cv_instance v with
  | Some h => InterruptMsgHdlr_sendMessage c h nm i_type i_key i_data i_task k
  | None => k
  end.

(** [handleInterrupt]: the register read is an argument; [None] is the assert. *)
Definition handleInterrupt c nm (pir ackHypeInt2Reg : Z) (v : InterruptMsgHdlr) k : option kern :=
  if negb (cv_ipc_base_address v =? 0) then
    Some (cv_send c nm MSG_INTR_EXTERN (Z.lor pir (u64 (Z.shiftl ackHypeInt2Reg 32))) 0 None v k)
  else None.
Definition addCpuCore c nm (i_pir : Z) (v : InterruptMsgHdlr) k : kern :=
  cv_send c nm MSG_INTR_ADD_CPU (Z.lor i_pir MSG_KEY_ADD_CPU_CORE) i_pir (Some (cur c k)) v k.
Definition sendThreadWakeupMsg c nm (i_pir : Z) (v : InterruptMsgHdlr) k : kern :=
  cv_send c nm MSG_INTR_CPU_WAKEUP (Z.lor i_pir MSG_KEY_THREAD_WKUP) i_pir None v k.
Definition sendIpcMsg c nm (i_pir : Z) (v : InterruptMsgHdlr) k : InterruptMsgHdlr * kern :=
  match cv_instance v with
  | Some _ =>
      let v := mkIntr (cv_instance v) (cv_ipc_base_address v) (u64 (cv_ipc_salt v + MSG_IPC_SALT)) in
      (v, cv_send c nm MSG_INTR_IPC (Z.lor (Z.lor i_pir MSG_KEY_IPC_MSG) (cv_ipc_salt v)) i_pir None v k)
  | None => (v, k)
  end.
Definition issueSbeMboxWA c nm (v : InterruptMsgHdlr) k : kern :=
  cv_send c nm MSG_INTR_ISSUE_SBE_MBOX_WA MSG_INTR_ISSUE_SBE_MBOX_WA 0 None v k.

(** What a handler's [handleResponse] answers: the result, and the value it puts
    in the deferred task's result register, if any; what it does to the blocks of
    memory is not modelled. *)
Definition handler_fn : Type := Z -> Z -> Z -> option Z -> Z -> HandleResult * option Z.
Definition handleResponse : handler_fn := fun _ _ _ _ _ => (UNHANDLED_RC, None).
Definition InterruptMsgHdlr_handleResponse : handler_fn := fun _ i_type _ _ i_rc =>
  if MSG_INTR_ADD_CPU =? i_type then (SUCCESS, Some (u64 i_rc)) else (UNHANDLED_RC, None).

(** One pass of the loop of [recvMessage] over the requests with the key:
    returns whether a task was resumed and the tasks to end. *)
Fixpoint recv_loop (hr : handler_fn) (fuel : nat) c h (i_type key msg_rc : Z) (restored : bool) (ends : list Z) k
  : res (list Z * kern) :=
  match fuel with
  | O => NoFuel
  | S fuel =>
      match LList.find fst key (iv_pending (k_handler k h)) with
      | None => Ok (ends, k)
      | Some (_, deferred) =>
          let '(rc, reg) := hr h i_type key deferred msg_rc in
          let k := match reg, deferred with Some v, Some d => sch (TASK_SETRTN d v) k | _, _ => k end in
          let k := set_pending h (LList.erase fst key (iv_pending (k_handler k h))) k in
          match deferred with
          | None => recv_loop hr fuel c h i_type key msg_rc restored ends k
          | Some d =>
              if bool_decide (rc = SUCCESS) || (msg_rc =? 0) && bool_decide (rc = UNHANDLED_RC) then
                if negb restored && (affinity_pinned (tsk d k) =? 0) then
                  recv_loop hr fuel c h i_type key msg_rc true ends (sch (setCurrentTask c d) k)
                else recv_loop hr fuel c h i_type key msg_rc restored ends (sch (addTask d) k)
              else if bool_decide (rc = UNHANDLED_RC) then
                recv_loop hr fuel c h i_type key msg_rc restored (Queue.insert d ends) k
              else recv_loop hr fuel c h i_type key msg_rc restored ends k
          end
      end
  end.

Definition on_tm_res (f : TaskManager -> res TaskManager) k : res kern :=
  res_bind (fun s => Ok (on_tm (fun _ => s) k)) (f (k_tm k)).

Fixpoint end_loop (fuel : nat) c (extra : Z) (ends : list Z) k : res kern :=
  match fuel with
  | O => NoFuel
  | S fuel =>
      match Queue.remove ends with
      | (None, _) => Ok k
      | (Some d, ends) => res_bind (end_loop fuel c extra ends) (on_tm_res (endTask c d extra TASK_STATUS_CRASHED) k)
      end
  end.

(** The result register is an [int]. *)
Definition to_int (x : Z) : Z := let y := wrap 32 x in if y <? 2 ^ 31 then y else y - 2 ^ 32.

Definition recvMessage (hr : handler_fn) c h m k : res (Z * kern) :=
  if m_type (k_msg k m) <? MSG_FIRST_SYS_TYPE then Ok (- EINVAL, k)
  else
    let key := m_data0 (k_msg k m) in
    let msg_rc := to_int (m_data1 (k_msg k m)) in
    res_bind (fun '(ends, k') =>
      res_bind (fun k' => Ok (0, k')) (end_loop (S (length ends)) c (m_extra (k_msg k m)) ends k'))
      (recv_loop hr (S (length (iv_pending (k_handler k h)))) c h (m_type (k_msg k m)) key msg_rc false [] k).

Definition MsgRespond (hr : handler_fn) c q m k : res kern :=
  let t := cur c k in
  match LList.find fst m (responses (k_mq k q)) with
  | None => Ok (sch (TASK_SETRTN t (u64 (- EBADF))) k)
  | Some (_, waiter) =>
      let k := set_responses q (LList.erase fst m (responses (k_mq k q))) k in
      if MSG_FIRST_SYS_TYPE <=? m_type (k_msg k m) then
        match waiter with
        | THandler h =>
            res_bind (fun '(rc, k) =>
              let k := sch (TASK_SETRTN t (u64 rc)) k in
              Ok (if negb (cur c k =? t) then sch (addTask t) k else k)) (recvMessage hr c h m k)
        | _ => Wild
        end
      else if m_pseudosync (k_msg k m) then
        match waiter with
        | TQueue mq2 =>
            if mq2 =? 0 then Wild
            else
              let k :=
                match Queue.remove (waiting (k_mq k mq2)) with
                | (None, _) => set_messages mq2 (LList.insert (m, TTask t) (messages (k_mq k mq2))) k
                | (Some client, ws) => deliver client m (set_waiting mq2 ws k)
                end in
              Ok (sch (TASK_SETRTN t 0) k)
        | _ => Wild
        end
      else
        match waiter with
        | TTask w =>
            let k := sch (fun s => set_cpu w (t_cpu (s_task s t)) s) k in
            let k := sch (TASK_SETRTN w 0) (sch (setCurrentTask c w) k) in
            Ok (sch (addTask t) (sch (TASK_SETRTN t 0) k))
        | _ => Wild
        end
  end.
End msgq.
