(* ===== verification/MsgQInv.v ===== *)
(** * Message queues: the invariant

    First, lemmas on the task manager's invariant for the ways the message system
    calls move tasks: the current task blocks, a waiting task runs in its place,
    fields of tasks in hand change.

    Every task blocked on a message is held by exactly one place of one queue or
    message handler; no queue has both waiting tasks and undelivered messages; the
    pointer of every pending message is what the message's fields say it is.  An
    operation on one queue or handler is proved against the tasks that queue
    holds alone ([queue_step], [handler_step]). *)

From S2P Require Import Prelude Containers Sched SchedSpec SchedSteps TaskMgr TaskMgrSpec TaskMgrInv MsgQ.

Section switch.
Context (cpus : list Z) (idle : Z -> Z).
Context (Hcpus : NoDup cpus) (Hidle : NoDup (idle <$> cpus)).
Implicit Types (s : TaskManager) (t w c : Z) (A live held : list Z) (q : sched).

Abbreviation ok := (tm_ok cpus idle None).

(** [q'] is [q] but for fields of the tasks [l] other than their identity. *)
Record only (l : list Z) q q' : Prop := {
  on_task u : u ∉ l -> s_task q' u = s_task q u;
  on_cpu u : t_cpu (s_task q' u) = t_cpu (s_task q u) \/ t_cpu (s_task q' u) ∈ cpus;
  on_ids : same_ids q q';
  on_cur : s_cur q' = s_cur q;
  on_idle : idle_task q' = idle_task q;
  on_global : iv_taskList q' = iv_taskList q;
  on_extra : scheduler_extra q' = scheduler_extra q;
  on_delay : delay_list q' = delay_list q
}.

Lemma only_refl l q : only l q q.
Proof. split; try done. by left. Qed.

Lemma only_trans l q1 q2 q3 : only l q1 q2 -> only l q2 q3 -> only l q1 q3.
Proof.
  intros [A1 A2 A3 A4 A5 A6 A7 A8] [B1 B2 B3 B4 B5 B6 B7 B8]. split; try congruence.
  - intros u Hu. rewrite B1 by done. auto.
  - intros u. destruct (B2 u) as [->|?]; auto.
  - by etransitivity.
Qed.

Lemma only_set l t y q :
  t ∈ l -> t_cpu y = t_cpu (s_task q t) \/ t_cpu y ∈ cpus ->
  t_tid y = t_tid (s_task q t) -> t_tracker y = t_tracker (s_task q t) -> detached y = detached (s_task q t) ->
  only l q (set_task t y q).
Proof.
  intros Ht Hy I1 I2 I3. split; try done.
  - intros u Hu. cbn. apply upd_ne. by intros ->.
  - intros u. cbn. unfold upd. destruct (u =? t) eqn:E; b2p; [by subst|by left].
  - by apply set_task_ids.
Qed.

Lemma only_weaken l l' q q' : (forall u, u ∈ l -> u ∈ l') -> only l q q' -> only l' q q'.
Proof. intros Hl O. split; try apply O. intros u Hu. apply (on_task _ _ _ O). auto. Qed.

Lemma ok_held_fields A x q q' held :
  NoDup A -> sched_ok cpus idle A x q held -> only held q q' -> sched_ok cpus idle A x q' held.
Proof.
  intros HA S O. pose proof (so_nodup cpus idle A HA _ _ _ S) as Hn. unfold all_tasks in Hn.
  assert (Hap : forall u, u ∈ running cpus idle x q ++ ready cpus q ++ (sleeping cpus q).*2 -> u ∉ held).
  { rewrite !app_assoc in Hn. apply NoDup_app in Hn as (_ & Hn & _). intros u Hu. apply Hn.
    by rewrite !app_assoc in Hu. }
  assert (Hid : forall u, is_idle_task cpus idle u -> u ∉ held).
  { intros u Hi Hu. apply (so_queued _ _ _ _ _ _ S u); [|done]. rewrite !elem_of_app. tauto. }
  apply ok_fields with (s := q); try done; try apply O.
  - intros u. destruct (on_cpu _ _ _ O u) as [->|?]; [|done]. apply (so_cpu _ _ _ _ _ _ S).
  - intros u [Hu|Hu]; rewrite (on_task _ _ _ O); auto.
  - intros u [Hu|(c & Hc & Hx & <-)]; unfold state_of; rewrite (on_task _ _ _ O); auto.
    intros Hu. by apply (held_in_apart cpus idle Hcpus Hidle A x q held (s_cur q c) c HA S Hu Hc Hx).
  - intros u Hu. rewrite (on_task _ _ _ O); [done|]. apply Hap. rewrite !elem_of_app. tauto.
Qed.

(** Joiners are held, so they are apart from the tasks in hand. *)
Lemma joining_apart A live held s u :
  ok A live held s -> u ∈ joining live s -> u ∉ held.
Proof.
  intros O Hu Hh. pose proof (so_nodup cpus idle A (to_nodup _ _ _ _ _ _ _ O) _ _ _ (to_sched _ _ _ _ _ _ _ O)) as Hn.
  unfold all_tasks in Hn. rewrite !app_assoc in Hn. apply NoDup_app in Hn as (_ & Hn & _). apply (Hn u); [|done].
  rewrite !elem_of_app. tauto.
Qed.

Lemma tm_only A live held s q : ok A live held s -> only held (tm_sched s) q -> ok A live held (on_sched (fun _ => q) s).
Proof.
  intros O Q. eapply tm_sched_change; [exact O| |apply Q|].
  - apply (ok_held_fields A None (tm_sched s)); [apply O|apply O|].
    eapply only_weaken; [|exact Q]. set_solver.
  - intros u Hu. rewrite (on_task _ _ _ Q); [done|]. by eapply joining_apart.
Qed.

(** The kernel runs for [t], the current task of [c], not the idle one. *)
Lemma tm_enter A live held s c t q1 :
  ok A live held s -> c ∈ cpus -> t = s_cur (tm_sched s) c -> ~ is_idle_task cpus idle t ->
  only (t :: held) (tm_sched s) q1 ->
  sched_ok cpus idle A (Some c) q1 (t :: joining live s ++ held) /\
  (forall u, u ∈ joining live s -> s_task q1 u = info s u).
Proof.
  intros O Hc Et Hni Q. pose proof (to_nodup _ _ _ _ _ _ _ O) as HA. pose proof (to_sched _ _ _ _ _ _ _ O) as S.
  assert (S1 : sched_ok cpus idle A (Some c) (tm_sched s) (t :: joining live s ++ held)).
  { pose proof (ok_enter cpus idle A Hcpus Hidle HA c _ _ Hc S) as S1. unfold in_hand in S1.
    rewrite decide_False in S1 by (by rewrite <-Et). by rewrite <-Et in S1. }
  split.
  - eapply ok_held_fields; [done|exact S1|]. eapply only_weaken; [|exact Q]. set_solver.
  - intros u Hu. apply (on_task _ _ _ Q). intros [->|Hh]%elem_of_cons; [|by eapply joining_apart].
    apply (in_hand_held cpus idle Hcpus Hidle A c (tm_sched s) (joining live s ++ held) t HA Hc S); [set_solver|done].
Qed.

(** The current task blocks and the scheduler chooses. *)
Lemma tm_park A live held s c t q1 :
  ok A live held s -> c ∈ cpus -> t = s_cur (tm_sched s) c -> ~ is_idle_task cpus idle t ->
  only (t :: held) (tm_sched s) q1 -> ok A live (t :: held) (on_sched (fun _ => setNextRunnable c q1) s).
Proof.
  intros O Hc Et Hni Q. pose proof (to_nodup _ _ _ _ _ _ _ O) as HA.
  destruct (tm_enter A live held s c t q1 O Hc Et Hni Q) as [S1 Hj].
  eapply tm_sched_change; [exact O| | |].
  - eapply ok_perm; [|by apply ok_setNextRunnable]. by rewrite <-Permutation_middle.
  - etransitivity; [apply Q|apply setNextRunnable_ids].
  - intros u Hu. rewrite (setNextRunnable_held cpus idle Hcpus Hidle A c q1 (t :: joining live s ++ held) u HA S1) by set_solver. by rewrite Hj.
Qed.

(** The current task blocks and [w] runs. *)
Lemma tm_swap A live held s c t w q1 :
  ok A live (w :: held) s -> c ∈ cpus -> t = s_cur (tm_sched s) c -> ~ is_idle_task cpus idle t ->
  only (t :: w :: held) (tm_sched s) q1 -> ok A live (t :: held) (on_sched (fun _ => setCurrentTask c w q1) s).
Proof.
  intros O Hc Et Hni Q. pose proof (to_nodup _ _ _ _ _ _ _ O) as HA.
  destruct (tm_enter A live (w :: held) s c t q1 O Hc Et Hni Q) as [S1 Hj].
  assert (S2 : sched_ok cpus idle A (Some c) q1 ([w] ++ t :: joining live s ++ held)).
  { eapply ok_perm; [|exact S1]. clear. solve_Permutation. }
  eapply tm_sched_change; [exact O| | |].
  - eapply ok_perm; [|eapply ok_leave; [done|done|done| |exact S2]].
    + clear. solve_Permutation.
    + left. split; [done|]. apply (so_queued _ _ _ _ _ _ S2). rewrite !elem_of_app. right. right. left. by left.
  - etransitivity; [apply Q|]. by apply set_task_ids.
  - intros u Hu. cbn. rewrite upd_ne; [by rewrite Hj|]. intros ->. by eapply (joining_apart _ _ _ _ w O Hu); left.
Qed.

(** The current task goes back to its queue and [w] runs. *)
Lemma tm_preempt A live held s c w :
  ok A live (w :: held) s -> c ∈ cpus ->
  ok A live held (on_sched (fun _ => setCurrentTask c w (addTask (s_cur (tm_sched s) c) (tm_sched s))) s).
Proof.
  intros O Hc. pose proof (to_nodup _ _ _ _ _ _ _ O) as HA. pose proof (to_sched _ _ _ _ _ _ _ O) as S.
  pose proof (returnRunnable_ok cpus idle Hcpus Hidle A c _ _ HA Hc S) as S1. unfold returnRunnable in S1.
  set (q1 := addTask _ _) in *.
  assert (S2 : sched_ok cpus idle A (Some c) q1 ([w] ++ joining live s ++ held)).
  { eapply ok_perm; [|exact S1]. clear. solve_Permutation. }
  eapply tm_sched_change; [exact O| | |].
  - eapply ok_leave; [done|done|done| |exact S2]. left. split; [done|].
    apply (so_queued _ _ _ _ _ _ S2). rewrite !elem_of_app. right. right. left. by left.
  - etransitivity; [apply addTask_ids|]. by apply set_task_ids.
  - intros u Hu. cbn. rewrite upd_ne.
    + unfold q1. rewrite addTask_task; [done|].
      apply (in_hand_held cpus idle Hcpus Hidle A c (tm_sched s) (joining live s ++ w :: held) u HA Hc S). set_solver.
    + intros ->. by eapply (joining_apart _ _ _ _ w O Hu); left.
Qed.
End switch.

Lemma bind_at {B} (f : Z -> list B) q ds :
  NoDup ds -> q ∈ ds ->
  exists rest, ds ≫= f ≡ₚ f q ++ rest /\ forall g, (forall d, d ∈ ds -> d <> q -> g d = f d) -> ds ≫= g ≡ₚ g q ++ rest.
Proof.
  intros Hn Hq. enough (exists rest, forall g, (forall d, d ∈ ds -> d <> q -> g d = f d) -> ds ≫= g ≡ₚ g q ++ rest) as (rest & H).
  { exists rest. split; [by apply (H f)|exact H]. }
  induction ds as [|d ds IH]; [by apply elem_of_nil in Hq|].
  apply NoDup_cons in Hn as [Hd Hn]. destruct (decide (d = q)) as [->|Hne].
  - exists (ds ≫= f). intros g Hg. csimpl. f_equiv.
    assert (E : forall l, (forall x, x ∈ l -> g x = f x) -> l ≫= g = l ≫= f).
    { induction l as [|x l IHl]; intros Hl; [done|]. csimpl. rewrite (Hl x), IHl; [done|set_solver|set_solver]. }
    rewrite E; [done|]. intros x Hx. apply Hg; [by right|]. by intros ->.
  - apply elem_of_cons in Hq as [->|Hq]; [done|]. destruct (IH Hn Hq) as (rest & Hr).
    exists (f d ++ rest). intros g Hg. csimpl. rewrite Hr by (intros; apply Hg; [by right|done]).
    rewrite (Hg d) by (by left || done). clear. solve_Permutation.
Qed.

Lemma bind_ext {B} (f g : Z -> list B) ds : (forall d, d ∈ ds -> g d = f d) -> ds ≫= g = ds ≫= f.
Proof. induction ds as [|x l IH]; intros H; [done|]. csimpl. rewrite (H x), IH; [done|set_solver|set_solver]. Qed.

(** ** The tasks a queue and a handler hold *)

(** The sender of a synchronous message is blocked until the response. *)
Definition blocked (f : Z -> msg_t) (p : MessagePending) : option Z :=
  match p.2 with
  | TTask t => if m_async (f p.1) && negb (m_pseudosync (f p.1)) then Some t else None
  | _ => None
  end.

Definition entries (x : MessageQueue) : list MessagePending := messages x ++ responses x.
Definition qheld (f : Z -> msg_t) (x : MessageQueue) : list Z := waiting x ++ omap (blocked f) (entries x).
Definition hheld (x : MessageHandler) : list Z := omap snd (iv_pending x).
Definition qkeys (x : MessageQueue) : list Z := (entries x).*1.

(** What the code reads of a message while it is pending. *)
Definition same_kind (a b : msg_t) : Prop :=
  m_type a = m_type b /\ m_async a = m_async b /\ m_pseudosync a = m_pseudosync b.

Lemma blocked_same f g p : same_kind (g p.1) (f p.1) -> blocked g p = blocked f p.
Proof. intros (_ & E1 & E2). unfold blocked. by rewrite E1, E2. Qed.

Lemma qheld_same f g x : (forall m, m ∈ qkeys x -> same_kind (g m) (f m)) -> qheld g x = qheld f x.
Proof.
  unfold qheld, qkeys. intros H. f_equal. induction (entries x) as [|p l IH]; [done|]. csimpl.
  rewrite (blocked_same f g p) by (apply H; by left). rewrite IH; [done|]. intros m Hm. apply H. by right.
Qed.

Section inv.
Context (cpus : list Z) (idle : Z -> Z) (qs hs : list Z).
Implicit Types (k : kern) (c t q m h : Z) (A live held : list Z).

Definition ipc_held k : list Z :=
  (qs ≫= fun q => qheld (k_msg k) (k_mq k q)) ++ (hs ≫= fun h => hheld (k_handler k h)).
Definition all_keys k : list Z := qs ≫= fun q => qkeys (k_mq k q).

Definition flag_ok k (p : MessagePending) : Prop :=
  match p.2 with
  | TTask _ => m_type (k_msg k p.1) < MSG_FIRST_SYS_TYPE
  | TQueue q2 => m_type (k_msg k p.1) < MSG_FIRST_SYS_TYPE /\ m_pseudosync (k_msg k p.1) = true /\ q2 ∈ qs
  | THandler h => MSG_FIRST_SYS_TYPE <= m_type (k_msg k p.1) /\ h ∈ hs
  end.

(** [qs] are the queues and [hs] the message handlers of the system. *)
Record mq_ok k : Prop := {
  mo_qs : NoDup qs;
  mo_hs : NoDup hs;
  mo_null : 0 ∉ qs;
  mo_idle q : q ∈ qs -> waiting (k_mq k q) = [] \/ messages (k_mq k q) = [];
  mo_flag q p : q ∈ qs -> p ∈ entries (k_mq k q) -> flag_ok k p;
  mo_async q p : q ∈ qs -> p ∈ responses (k_mq k q) -> m_async (k_msg k p.1) = true;
  mo_keys : NoDup (all_keys k);
  mo_handler h : h ∈ hs -> iv_msgq (k_handler k h) ∈ qs
}.

Definition kern_ok A live held k : Prop :=
  mq_ok k /\ tm_ok cpus idle None A live (ipc_held k ++ held) (k_tm k).

Lemma elem_keys k q m : q ∈ qs -> m ∈ qkeys (k_mq k q) -> m ∈ all_keys k.
Proof. intros Hq Hm. apply list_elem_of_bind. eauto. Qed.

Lemma entry_key (x : MessageQueue) p : p ∈ entries x -> p.1 ∈ qkeys x.
Proof. intros Hp. apply list_elem_of_fmap. eauto. Qed.

(** Only queue [q] changes, and messages not pending. *)
Record only_queue q k k' : Prop := {
  oq_mq d : d <> q -> k_mq k' d = k_mq k d;
  oq_handler : k_handler k' = k_handler k;
  oq_msg m : m ∈ all_keys k -> same_kind (k_msg k' m) (k_msg k m)
}.

Lemma queue_step_gen A live held held' k k' q extra :
  kern_ok A live held k -> q ∈ qs -> only_queue q k k' ->
  waiting (k_mq k' q) = [] \/ messages (k_mq k' q) = [] ->
  qkeys (k_mq k' q) ⊆+ extra ++ qkeys (k_mq k q) -> NoDup extra -> (forall m, m ∈ extra -> m ∉ all_keys k) ->
  (forall p, p ∈ entries (k_mq k' q) -> p ∈ entries (k_mq k q) \/ flag_ok k' p) ->
  (forall p, p ∈ responses (k_mq k' q) -> p ∈ responses (k_mq k q) \/ m_async (k_msg k' p.1) = true) ->
  (forall rest, tm_ok cpus idle None A live (qheld (k_msg k) (k_mq k q) ++ rest ++ held) (k_tm k) ->
     tm_ok cpus idle None A live (qheld (k_msg k') (k_mq k' q) ++ rest ++ held') (k_tm k')) ->
  kern_ok A live held' k'.
Proof.
  intros [M T] Hq Q Hidle Hkeys Hex Hfresh Hflag Hasync Hgo.
  destruct M as [M1 M2 M3 M4 M5 M6 M7 M8].
  assert (Hsame : forall d, d ∈ qs -> d <> q -> qheld (k_msg k') (k_mq k' d) = qheld (k_msg k) (k_mq k d)).
  { intros d Hd Hne. rewrite (oq_mq _ _ _ Q) by done. apply qheld_same. intros m Hm. apply (oq_msg _ _ _ Q). by eapply elem_keys. }
  assert (Hold : forall d p, d ∈ qs -> p ∈ entries (k_mq k d) -> same_kind (k_msg k' p.1) (k_msg k p.1)).
  { intros d p Hd Hp. apply (oq_msg _ _ _ Q). eapply elem_keys; [exact Hd|]. by apply entry_key. }
  assert (Hfl : forall d p, d ∈ qs -> p ∈ entries (k_mq k d) -> flag_ok k' p).
  { intros d p Hd Hp. pose proof (M5 d p Hd Hp) as H. destruct (Hold d p Hd Hp) as (E1 & E2 & E3).
    unfold flag_ok in *. by rewrite E1, E3. }
  split; [split; try done|].
  - intros d Hd. destruct (decide (d = q)) as [->|Hne]; [done|]. rewrite (oq_mq _ _ _ Q) by done. auto.
  - intros d p Hd. destruct (decide (d = q)) as [->|Hne].
    + intros Hp. destruct (Hflag p Hp) as [Hp2|]; [by apply (Hfl q)|done].
    + rewrite (oq_mq _ _ _ Q) by done. by apply Hfl.
  - intros d p Hd. destruct (decide (d = q)) as [->|Hne].
    + intros Hp. destruct (Hasync p Hp) as [Hp2|]; [|done]. assert (He : p ∈ entries (k_mq k q)) by (apply elem_of_app; by right).
      destruct (Hold q p Hd He) as (_ & -> & _). eauto.
    + rewrite (oq_mq _ _ _ Q) by done. intros Hp. assert (He : p ∈ entries (k_mq k d)) by (apply elem_of_app; by right).
      destruct (Hold d p Hd He) as (_ & -> & _). eauto.
  - destruct (bind_at (fun d => qkeys (k_mq k d)) q qs M1 Hq) as (rest & E1 & E2).
    unfold all_keys in *. rewrite (E2 (fun d => qkeys (k_mq k' d))).
    2:{ intros d _ Hne. by rewrite (oq_mq _ _ _ Q). }
    assert (Hn : NoDup (extra ++ qkeys (k_mq k q) ++ rest)).
    { apply NoDup_app. split_and!; [done|intros m Hm; rewrite <-E1; auto|by rewrite <-E1]. }
    apply submseteq_Permutation in Hkeys as (l & Hl). rewrite app_assoc, Hl, <-app_assoc in Hn.
    apply NoDup_app in Hn as (H1 & H2 & H3). apply NoDup_app in H3 as (_ & _ & H3).
    apply NoDup_app. split_and!; [done| |done]. intros m Hm Hr. apply (H2 m Hm). apply elem_of_app. by right.
  - intros h Hh. rewrite (oq_handler _ _ _ Q). auto.
  - unfold ipc_held in *. rewrite (oq_handler _ _ _ Q).
    destruct (bind_at (fun d => qheld (k_msg k) (k_mq k d)) q qs M1 Hq) as (rest & E1 & E2).
    specialize (E2 (fun d => qheld (k_msg k') (k_mq k' d)) Hsame).
    eapply tm_held_perm; [|apply (Hgo (rest ++ (hs ≫= fun h => hheld (k_handler k h))))].
    + rewrite E2. clear. solve_Permutation.
    + eapply tm_held_perm; [|exact T]. rewrite E1. clear. solve_Permutation.
Qed.

Lemma queue_step A live held k k' q extra :
  kern_ok A live held k -> q ∈ qs -> only_queue q k k' ->
  waiting (k_mq k' q) = [] \/ messages (k_mq k' q) = [] ->
  qkeys (k_mq k' q) ⊆+ extra ++ qkeys (k_mq k q) -> NoDup extra -> (forall m, m ∈ extra -> m ∉ all_keys k) ->
  (forall p, p ∈ entries (k_mq k' q) -> p ∈ entries (k_mq k q) \/ flag_ok k' p) ->
  (forall p, p ∈ responses (k_mq k' q) -> p ∈ responses (k_mq k q) \/ m_async (k_msg k' p.1) = true) ->
  (forall rest, tm_ok cpus idle None A live (qheld (k_msg k) (k_mq k q) ++ rest) (k_tm k) ->
     tm_ok cpus idle None A live (qheld (k_msg k') (k_mq k' q) ++ rest) (k_tm k')) ->
  kern_ok A live held k'.
Proof.
  intros K Hq Q H1 H2 H3 H4 H5 H6 Hgo. apply (queue_step_gen A live held held k k' q extra); try done.
  intros rest T. by apply Hgo.
Qed.

(** Only the requests of handler [h] change. *)
Record only_handler h k k' : Prop := {
  oh_mq : k_mq k' = k_mq k;
  oh_msg : k_msg k' = k_msg k;
  oh_handler d : d <> h -> k_handler k' d = k_handler k d;
  oh_msgq : iv_msgq (k_handler k' h) = iv_msgq (k_handler k h)
}.

Lemma handler_step A A' live live' held held' k k' h :
  kern_ok A live held k -> h ∈ hs -> only_handler h k k' ->
  (forall rest, tm_ok cpus idle None A live (hheld (k_handler k h) ++ rest ++ held) (k_tm k) ->
     tm_ok cpus idle None A' live' (hheld (k_handler k' h) ++ rest ++ held') (k_tm k')) ->
  kern_ok A' live' held' k'.
Proof.
  intros [M T] Hh Q Hgo. destruct M as [M1 M2 M3 M4 M5 M6 M7 M8].
  split; [split|]; unfold all_keys, flag_ok, ipc_held in *; rewrite ?(oh_mq _ _ _ Q), ?(oh_msg _ _ _ Q); try done.
  - intros d Hd. destruct (decide (d = h)) as [->|Hne]; [rewrite (oh_msgq _ _ _ Q)|rewrite (oh_handler _ _ _ Q) by done]; auto.
  - destruct (bind_at (fun d => hheld (k_handler k d)) h hs M2 Hh) as (rest & E1 & E2).
    assert (E3 : hs ≫= (fun d => hheld (k_handler k' d)) ≡ₚ hheld (k_handler k' h) ++ rest).
    { apply E2. intros d _ Hne. by rewrite (oh_handler _ _ _ Q). }
    set (Qh := qs ≫= fun q => qheld (k_msg k) (k_mq k q)) in *.
    eapply tm_held_perm; [|apply (Hgo (rest ++ Qh))].
    + rewrite E3. clear. solve_Permutation.
    + eapply tm_held_perm; [|exact T]. rewrite E1. clear. solve_Permutation.
Qed.

(** Nothing of the queues changes. *)
Lemma tm_change A A' live live' held held' k k' :
  kern_ok A live held k -> k_mq k' = k_mq k -> k_handler k' = k_handler k ->
  (forall m, m ∈ all_keys k -> same_kind (k_msg k' m) (k_msg k m)) ->
  (forall rest, tm_ok cpus idle None A live (rest ++ held) (k_tm k) ->
     tm_ok cpus idle None A' live' (rest ++ held') (k_tm k')) ->
  kern_ok A' live' held' k'.
Proof.
  intros [M T] E1 E3 Hs Hgo. destruct M as [M1 M2 M3 M4 M5 M6 M7 M8].
  assert (Hold : forall d p, d ∈ qs -> p ∈ entries (k_mq k d) -> same_kind (k_msg k' p.1) (k_msg k p.1)).
  { intros d p Hd Hp. apply Hs. eapply elem_keys; [exact Hd|]. by apply entry_key. }
  split; [split|]; try done; rewrite ?E1, ?E3; try done.
  - intros q p Hq Hp. pose proof (M5 q p Hq Hp) as H. destruct (Hold q p Hq Hp) as (F1 & _ & F3).
    unfold flag_ok in *. by rewrite F1, F3.
  - intros q p Hq Hp. assert (He : p ∈ entries (k_mq k q)) by (apply elem_of_app; by right).
    destruct (Hold q p Hq He) as (_ & -> & _). eauto.
  - unfold all_keys in *. by rewrite E1.
  - unfold ipc_held in *. rewrite E1, E3.
    rewrite (bind_ext (fun q => qheld (k_msg k) (k_mq k q))); [by apply Hgo|].
    intros q Hq. apply qheld_same. intros m Hm. apply Hs. by eapply elem_keys.
Qed.
End inv.
