(* ===== verification/MsgQOps.v ===== *)
(** * Message queues: the system calls keep the invariant *)

From S2P Require Import Prelude Containers Sched SchedSpec SchedSteps TaskMgr TaskMgrSpec TaskMgrInv TaskMgrSteps MsgQ MsgQInv.

Section ops.
Context (cpus : list Z) (idle : Z -> Z) (qs hs : list Z).
Context (Hcpus : NoDup cpus) (Hidle : NoDup (idle <$> cpus)).
Implicit Types (k : kern) (c t q m h : Z) (A live held : list Z).

Abbreviation ok := (tm_ok cpus idle None).
Abbreviation kok := (kern_ok cpus idle qs hs).

Lemma same_kind_refl x : same_kind x x.
Proof. done. Qed.

Lemma set_async_other b m k m' : m' <> m -> same_kind (k_msg (set_async b m k) m') (k_msg k m').
Proof. intros Hm. cbn. by rewrite upd_ne. Qed.

Lemma tail_cases {B} (l : list B) :
  l = [] /\ Queue.remove l = (None, l) \/ exists x l', l = l' ++ [x] /\ Queue.remove l = (Some x, l').
Proof.
  pose proof (Queue.remove_tail l) as H. unfold Queue.remove in *. destruct (last l) as [x|] eqn:E; [right|left].
  - by exists x, (removelast l).
  - by destruct H as [-> _].
Qed.

(** Only the result register of a task changes. *)
Lemma rtn_ok A live held k t v : kok A live held k -> kok A live held (sch (TASK_SETRTN t v) k).
Proof. intros K. eapply tm_change; [exact K|done|done|done|]. intros rest T. by apply tm_setrtn. Qed.

(** ** [MsgSend] *)

(** A message for which no task waits is queued. *)
Lemma enqueue_ok_gen A live held held' k k' q m tgt :
  kok A live held k -> q ∈ qs -> m ∉ all_keys qs k -> waiting (k_mq k q) = [] ->
  k_mq k' q = mkMQ (LList.insert (m, tgt) (messages (k_mq k q))) (responses (k_mq k q)) [] ->
  only_queue qs q k k' -> flag_ok qs hs k' (m, tgt) ->
  (forall rest, ok A live (rest ++ held) (k_tm k) -> ok A live (option_list (blocked (k_msg k') (m, tgt)) ++ rest ++ held') (k_tm k')) ->
  kok A live held' k'.
Proof.
  intros K Hq Hm Hw E Q Hf Hgo. apply (queue_step_gen _ _ _ _ A live held held' k k' q [m] K Hq Q); rewrite ?E.
  - by left.
  - cbn. done.
  - apply NoDup_singleton.
  - intros m' ->%list_elem_of_singleton. done.
  - intros p [->|Hp]%elem_of_cons; [by right|by left].
  - intros p Hp. by left.
  - intros rest T. unfold qheld, entries. cbn [waiting messages responses LList.insert].
    change (LList.insert (m, tgt) (messages (k_mq k q)) ++ responses (k_mq k q)) with ((m, tgt) :: entries (k_mq k q)).
    csimpl. assert (Eh : omap (blocked (k_msg k')) (entries (k_mq k q)) = omap (blocked (k_msg k)) (entries (k_mq k q))).
    { pose proof (qheld_same (k_msg k) (k_msg k') (mkMQ (messages (k_mq k q)) (responses (k_mq k q)) [])) as H.
      unfold qheld in H. cbn [waiting app] in H. apply H. intros m' Hm'. apply (oq_msg _ _ _ _ Q).
      eapply elem_keys; [exact Hq|exact Hm']. }
    rewrite Eh. unfold qheld in T. rewrite Hw in T. cbn [app] in *. rewrite app_assoc in T. pose proof (Hgo _ T) as T2. rewrite <-app_assoc in T2.
    by destruct (blocked (k_msg k') (m, tgt)).
Qed.

Lemma enqueue_ok A live held k k' q m tgt :
  kok A live held k -> q ∈ qs -> m ∉ all_keys qs k -> waiting (k_mq k q) = [] ->
  k_mq k' q = mkMQ (LList.insert (m, tgt) (messages (k_mq k q))) (responses (k_mq k q)) [] ->
  only_queue qs q k k' -> flag_ok qs hs k' (m, tgt) ->
  (forall rest, ok A live rest (k_tm k) -> ok A live (option_list (blocked (k_msg k') (m, tgt)) ++ rest) (k_tm k')) ->
  kok A live held k'.
Proof.
  intros K Hq Hm Hw E Q Hf Hgo. apply (enqueue_ok_gen A live held held k k' q m tgt); try done.
  intros rest T. by apply Hgo.
Qed.

(** A waiting task is taken out of the queue. *)
Lemma unwait_ok_gen A live held held' k k' q w ws tgts :
  kok A live held k -> q ∈ qs -> waiting (k_mq k q) = ws ++ [w] ->
  k_mq k' q = mkMQ (messages (k_mq k q)) (tgts ++ responses (k_mq k q)) ws ->
  only_queue qs q k k' ->
  NoDup tgts.*1 -> (forall m, m ∈ tgts.*1 -> m ∉ all_keys qs k) ->
  (forall p, p ∈ tgts -> flag_ok qs hs k' p /\ m_async (k_msg k' p.1) = true) ->
  (forall rest, ok A live (w :: rest ++ held) (k_tm k) -> ok A live (omap (blocked (k_msg k')) tgts ++ rest ++ held') (k_tm k')) ->
  kok A live held' k'.
Proof.
  intros K Hq Hw E Q Hn Hm Hf Hgo. pose proof (mo_idle _ _ _ (proj1 K) q Hq) as Hi.
  assert (Hmsg : messages (k_mq k q) = []) by (destruct Hi as [Hi|Hi]; [rewrite Hw in Hi; by destruct ws|done]).
  apply (queue_step_gen _ _ _ _ A live held held' k k' q tgts.*1 K Hq Q); rewrite ?E.
  - by right.
  - unfold qkeys, entries. cbn. rewrite Hmsg. cbn. rewrite fmap_app. reflexivity.
  - done.
  - done.
  - unfold entries. cbn. rewrite Hmsg. cbn [app]. intros p [Hp|Hp]%elem_of_app; [right; exact (proj1 (Hf p Hp))|by left].
  - intros p [Hp|Hp]%elem_of_app; [right; exact (proj2 (Hf p Hp))|by left].
  - intros rest T. unfold qheld, entries in *. cbn [waiting messages responses]. rewrite Hmsg, Hw in *. cbn [app] in *.
    assert (Eh : omap (blocked (k_msg k')) (responses (k_mq k q)) = omap (blocked (k_msg k)) (responses (k_mq k q))).
    { pose proof (qheld_same (k_msg k) (k_msg k') (mkMQ [] (responses (k_mq k q)) [])) as H.
      unfold qheld in H. cbn [waiting app entries messages responses] in H. apply H. intros m' Hm'. apply (oq_msg _ _ _ _ Q).
      eapply elem_keys; [exact Hq|]. unfold qkeys, entries in *. rewrite Hmsg. exact Hm'. }
    rewrite omap_app, Eh. eapply tm_held_perm; [|apply (Hgo (ws ++ omap (blocked (k_msg k)) (responses (k_mq k q)) ++ rest))].
    + clear. solve_Permutation.
    + eapply tm_held_perm; [|exact T]. clear. solve_Permutation.
Qed.

Lemma unwait_ok A live held k k' q w ws tgts :
  kok A live held k -> q ∈ qs -> waiting (k_mq k q) = ws ++ [w] ->
  k_mq k' q = mkMQ (messages (k_mq k q)) (tgts ++ responses (k_mq k q)) ws ->
  only_queue qs q k k' ->
  NoDup tgts.*1 -> (forall m, m ∈ tgts.*1 -> m ∉ all_keys qs k) ->
  (forall p, p ∈ tgts -> flag_ok qs hs k' p /\ m_async (k_msg k' p.1) = true) ->
  (forall rest, ok A live (w :: rest) (k_tm k) -> ok A live (omap (blocked (k_msg k')) tgts ++ rest) (k_tm k')) ->
  kok A live held k'.
Proof.
  intros K Hq Hw E Q Hn Hm Hf Hgo. apply (unwait_ok_gen A live held held k k' q w ws tgts); try done.
  intros rest T. by apply Hgo.
Qed.

Lemma deliver_ok A live rest s w m :
  ok A live (w :: rest) s -> ok A live rest (on_sched (addTask w) (on_sched (TASK_SETRTN w m) s)).
Proof. intros O. apply tm_addTask; [done..|]. by apply tm_setrtn. Qed.

Lemma MsgSend_ok A live held k c q m :
  kok A live held k -> q ∈ qs -> m ∉ all_keys qs k -> kok A live held (MsgSend c q m k).
Proof.
  intros K Hq Hm. unfold MsgSend. destruct (negb (Z.land _ _ =? 0)).
  { destruct (KernelIpc_send q m k) as [rc k1] eqn:E. apply rtn_ok. unfold KernelIpc_send in E.
    repeat case_match; simplify_eq; try done. eapply tm_change; [exact K|done..]. }
  destruct (_ || _); [by apply rtn_ok|]. set (k1 := set_async false m k).
  assert (Hs : forall m', m' ∈ all_keys qs k -> same_kind (k_msg k1 m') (k_msg k m')).
  { intros m' Hm'. apply set_async_other. by intros ->. }
  destruct (MSG_FIRST_SYS_TYPE <=? m_type (k_msg k1 m)) eqn:Et.
  { apply rtn_ok. eapply tm_change; [exact K|done|done|exact Hs|done]. }
  apply rtn_ok. change (k_mq k1 q) with (k_mq k q).
  destruct (tail_cases (waiting (k_mq k q))) as [[Hw ->]|(w & ws & Hw & ->)].
  - eapply (enqueue_ok A live held k _ q m); [done|done|done|done| | | |].
    + cbn. rewrite upd_eq, Hw. done.
    + split; [intros d Hd; cbn; by rewrite upd_ne|done|exact Hs].
    + b2p. exact Et.
    + intros rest T. cbn. unfold blocked. cbn. rewrite upd_eq. done.
  - eapply (unwait_ok A live held k _ q w ws []); [done|done|done| | | | | |].
    + cbn. by rewrite upd_eq.
    + split; [intros d Hd; cbn; by rewrite upd_ne|done|exact Hs].
    + constructor.
    + by intros m' ?%elem_of_nil.
    + by intros p ?%elem_of_nil.
    + intros rest T. by apply deliver_ok.
Qed.

(** ** [MsgSendRecv] *)

(** The fields of a message made synchronous. *)
Lemma set_sync_msg m mq2 k :
  let k2 := if negb (mq2 =? 0) then set_pseudosync m (set_async true m k) else set_async true m k in
  m_type (k_msg k2 m) = m_type (k_msg k m) /\ m_async (k_msg k2 m) = true /\
  m_pseudosync (k_msg k2 m) = (negb (mq2 =? 0) || m_pseudosync (k_msg k m)) /\
  k_tm k2 = k_tm k /\ k_mq k2 = k_mq k /\ k_handler k2 = k_handler k /\
  (forall m', m' <> m -> k_msg k2 m' = k_msg k m').
Proof.
  destruct (mq2 =? 0); cbn; rewrite !upd_eq; split_and!; try done; intros m' Hm'; by rewrite !upd_ne.
Qed.

Lemma cpu_ok A live held s t : ok A live held s -> t_cpu (info s t) ∈ cpus.
Proof. intros O. apply (so_cpu _ _ _ _ _ _ (to_sched _ _ _ _ _ _ _ O)). Qed.

(** The state of a task in hand is set. *)
Lemma only_block (l : list Z) (q : sched) t (st i : Z) : t ∈ l -> only cpus l q (set_info t i (set_state t st q)).
Proof.
  intros Ht. eapply only_trans; apply only_set; try done; by left.
Qed.

Lemma only_rtn (l : list Z) (q : sched) t v : t ∈ l -> only cpus l q (TASK_SETRTN t v q).
Proof. intros Ht. apply only_set; try done. by left. Qed.

Lemma only_cpu (l : list Z) (q : sched) t c : t ∈ l -> c ∈ cpus -> only cpus l q (set_cpu t c q).
Proof. intros Ht Hc. apply only_set; try done. by right. Qed.

(** [k2] is the state with message [m] made synchronous. *)
Section sendrecv.
Context (A live held : list Z) (k k2 : kern) (c q m t : Z).
Context (K : kok A live held k) (Hc : c ∈ cpus) (Et : t = cur c k) (Hq : q ∈ qs) (Hm : m ∉ all_keys qs k).
Context (F1 : m_type (k_msg k2 m) < MSG_FIRST_SYS_TYPE) (F2 : m_async (k_msg k2 m) = true).
Context (F4 : k_tm k2 = k_tm k) (F5 : k_mq k2 = k_mq k) (F6 : k_handler k2 = k_handler k).
Context (Hs : forall m', m' ∈ all_keys qs k -> same_kind (k_msg k2 m') (k_msg k m')).

Lemma sendrecv_pseudo mq2 :
  m_pseudosync (k_msg k2 m) = true -> mq2 ∈ qs ->
  kok A live held
    match Queue.remove (waiting (k_mq (sch (TASK_SETRTN t 0) k2) q)) with
    | (None, _) => set_messages q (LList.insert (m, TQueue mq2) (messages (k_mq (sch (TASK_SETRTN t 0) k2) q))) (sch (TASK_SETRTN t 0) k2)
    | (Some waiter, ws) =>
        let k := sch (TASK_SETRTN waiter m) (set_waiting q ws (sch (TASK_SETRTN t 0) k2)) in
        let k := set_responses q (LList.insert (m, TQueue mq2) (responses (k_mq k q))) k in
        let k := sch (fun s => set_cpu waiter (t_cpu (s_task s t)) s) k in
        sch (setCurrentTask c waiter) (sch (addTask t) k)
    end.
Proof.
  intros F3 Hq2.
  change (k_mq (sch (TASK_SETRTN t 0) k2)) with (k_mq k2). rewrite F5.
  destruct (tail_cases (waiting (k_mq k q))) as [[Hw ->]|(w & ws & Hw & ->)].
  + eapply (enqueue_ok A live held k _ q m (TQueue mq2)); [done|done|done|done| | | |].
    * cbn. rewrite F5, upd_eq, Hw. done.
    * split; [intros d Hd; cbn; by rewrite F5, upd_ne|exact F6|exact Hs].
    * done.
    * intros rest T. cbn. rewrite F4. by apply tm_setrtn.
  + eapply (unwait_ok A live held k _ q w ws [(m, TQueue mq2)]); [done|done|done| | | | | |].
    * cbn. rewrite F5, !upd_eq. done.
    * split; [intros d Hd; cbn; rewrite F5, !upd_ne by done; done|exact F6|exact Hs].
    * apply NoDup_singleton.
    * intros m' ->%list_elem_of_singleton. done.
    * intros p ->%list_elem_of_singleton. done.
    * intros rest T. cbn [omap list_omap blocked snd app option_list k_tm sch on_tm]. cbn.
      set (s3 := on_sched (fun s0 : sched => set_cpu w (t_cpu (s_task s0 t)) s0) (on_sched (TASK_SETRTN w m) (on_sched (TASK_SETRTN t 0) (k_tm k2)))).
      assert (T3 : ok A live (w :: rest) s3).
      { unfold s3. rewrite F4. set (s2 := on_sched (TASK_SETRTN w m) _).
        assert (T2 : ok A live (w :: rest) s2) by (apply tm_setrtn; [done..|]; by apply tm_setrtn).
        apply (tm_only cpus idle Hcpus Hidle A live (w :: rest) s2); [done|]. apply only_cpu; [by left|].
        apply (cpu_ok A live (w :: rest) s2 t T2). }
      pose proof (tm_preempt cpus idle Hcpus Hidle A live rest s3 c w T3 Hc) as T4.
      replace (s_cur (tm_sched s3) c) with t in T4; [exact T4|]. rewrite Et. unfold s3, cur. cbn. by rewrite F4.
Qed.

Lemma sendrecv_sync :
  m_pseudosync (k_msg k2 m) = false -> ~ is_idle_task cpus idle t ->
  kok A live held
    match Queue.remove (waiting (k_mq (block_msg t q k2) q)) with
    | (None, _) =>
        sch (setNextRunnable c) (set_messages q (LList.insert (m, TTask t) (messages (k_mq (block_msg t q k2) q))) (block_msg t q k2))
    | (Some waiter, ws) =>
        let k := sch (TASK_SETRTN waiter m) (set_waiting q ws (block_msg t q k2)) in
        let k := set_responses q (LList.insert (m, TTask t) (responses (k_mq k q))) k in
        let k := sch (fun s => set_cpu waiter (t_cpu (s_task s t)) s) k in
        sch (setCurrentTask c waiter) k
    end.
Proof.
  intros F3 Hni.
  change (k_mq (block_msg t q k2)) with (k_mq k2). rewrite F5.
  destruct (tail_cases (waiting (k_mq k q))) as [[Hw ->]|(w & ws & Hw & ->)].
  + eapply (enqueue_ok A live held k _ q m (TTask t)); [done|done|done|done| | | |].
    * cbn. rewrite F5, upd_eq, Hw. done.
    * split; [intros d Hd; cbn; by rewrite F5, upd_ne|exact F6|exact Hs].
    * done.
    * intros rest T. unfold blocked. cbn [snd fst k_msg sch on_tm set_messages set_mq block_msg].
      rewrite F2, F3. cbn [andb negb orb option_list app].
      cbn [k_tm sch on_tm set_messages set_mq block_msg]. rewrite F4.
      apply (tm_park cpus idle Hcpus Hidle A live rest (k_tm k) c t (set_info t q (set_state t TASK_STATE_BLOCK_MSG (tm_sched (k_tm k))))); try done.
      apply only_block. by left.
  + eapply (unwait_ok A live held k _ q w ws [(m, TTask t)]); [done|done|done| | | | | |].
    * cbn. rewrite F5, !upd_eq. done.
    * split; [intros d Hd; cbn; rewrite F5, !upd_ne by done; done|exact F6|exact Hs].
    * apply NoDup_singleton.
    * intros m' ->%list_elem_of_singleton. done.
    * intros p ->%list_elem_of_singleton. done.
    * intros rest T. csimpl. unfold blocked. cbn [snd fst k_msg sch on_tm set_responses set_waiting set_mq block_msg].
      rewrite F2, F3. cbn [andb negb orb option_list app k_tm sch on_tm set_responses set_waiting set_mq block_msg]. rewrite F4.
      set (q1 := TASK_SETRTN w m (set_info t q (set_state t TASK_STATE_BLOCK_MSG (tm_sched (k_tm k))))).
      apply (tm_swap cpus idle Hcpus Hidle A live rest (k_tm k) c t w (set_cpu w (t_cpu (s_task q1 t)) q1)); try done.
      assert (Q1 : only cpus (t :: w :: rest) (tm_sched (k_tm k)) q1).
      { eapply only_trans; [by apply (only_block _ _ t); left|]. apply only_rtn. right. by left. }
      eapply only_trans; [exact Q1|]. apply only_cpu; [right; by left|].
      destruct (on_cpu _ _ _ _ Q1 t) as [->|?]; [|done]. apply (cpu_ok A live (w :: rest)). exact T.
Qed.
End sendrecv.

Lemma MsgSendRecv_ok A live held k c q m mq2 :
  kok A live held k -> c ∈ cpus -> ~ is_idle_task cpus idle (cur c k) -> q ∈ qs -> m ∉ all_keys qs k ->
  (if mq2 =? 0 then m_pseudosync (k_msg k m) = false else mq2 ∈ qs) ->
  kok A live held (MsgSendRecv c q m mq2 k).
Proof.
  intros K Hc Hni Hq Hm Hps. unfold MsgSendRecv. set (t := cur c k) in *.
  destruct (set_sync_msg m mq2 k) as (F1 & F2 & F3 & F4 & F5 & F6 & F7).
  set (k2 := if negb (mq2 =? 0) then _ else _) in *.
  assert (Hs : forall m', m' ∈ all_keys qs k -> same_kind (k_msg k2 m') (k_msg k m')).
  { intros m' Hm'. rewrite F7; [done|]. by intros ->. }
  destruct (MSG_FIRST_SYS_TYPE <=? m_type (k_msg k2 m)) eqn:Et.
  { apply rtn_ok. eapply tm_change; [exact K|done..|]. intros rest T. by rewrite F4. }
  b2p. rewrite F3. destruct (negb (mq2 =? 0) || m_pseudosync (k_msg k m)) eqn:Ep; cbn [negb].
  - apply (sendrecv_pseudo A live held k k2 c q m t); try done. destruct (mq2 =? 0); cbn in *; congruence.
  - by apply (sendrecv_sync A live held k k2 c q m t).
Qed.

(** ** [MsgWait] *)

Lemma MsgWait_ok A live held k c q :
  kok A live held k -> c ∈ cpus -> ~ is_idle_task cpus idle (cur c k) -> q ∈ qs -> kok A live held (MsgWait c q k).
Proof.
  intros K Hc Hni Hq. unfold MsgWait. set (t := cur c k) in *.
  destruct (tail_cases (messages (k_mq k q))) as [[Hm ->]|([m tgt] & l & Hm & ->)].
  - eapply (queue_step _ _ _ _ A live held k _ q [] K Hq).
    + split; [intros d Hd; cbn; by rewrite upd_ne|done|done].
    + right. cbn. by rewrite upd_eq.
    + cbn. rewrite upd_eq. reflexivity.
    + constructor.
    + by intros m ?%elem_of_nil.
    + cbn. rewrite upd_eq. intros p Hp. by left.
    + cbn. rewrite upd_eq. intros p Hp. by left.
    + intros rest T. cbn [k_mq k_msg sch on_tm block_msg set_waiting set_mq]. rewrite upd_eq.
      unfold qheld, entries. cbn [waiting messages responses Queue.insert app].
      cbn [k_tm sch on_tm block_msg set_waiting set_mq].
      apply (tm_park cpus idle Hcpus Hidle A live _ (k_tm k) c t (set_info t q (set_state t TASK_STATE_BLOCK_MSG (tm_sched (k_tm k))))); try done.
      apply only_block. by left.
  - apply rtn_ok. pose proof (mo_idle _ _ _ (proj1 K) q Hq) as Hi.
    assert (Hw : waiting (k_mq k q) = []) by (destruct Hi as [Hi|Hi]; [done|rewrite Hm in Hi; by destruct l]).
    assert (Hin : forall p, p ∈ l \/ p = (m, tgt) -> p ∈ entries (k_mq k q)).
    { intros p Hp. apply elem_of_app. left. rewrite Hm. apply elem_of_app. rewrite list_elem_of_singleton. tauto. }
    change (m_async (k_msg (set_messages q l k) m)) with (m_async (k_msg k m)).
    destruct (m_async (k_msg k m)) eqn:Ea.
    + eapply (queue_step _ _ _ _ A live held k _ q [] K Hq).
      * split; [intros d Hd; cbn; by rewrite !upd_ne|done|done].
      * left. cbn. by rewrite !upd_eq.
      * cbn. rewrite !upd_eq. unfold qkeys, entries. cbn. rewrite Hm, <-app_assoc. reflexivity.
      * constructor.
      * by intros m' ?%elem_of_nil.
      * cbn. rewrite !upd_eq. unfold entries at 1. cbn. intros p Hp. left. apply elem_of_app in Hp as [Hp|[->|Hp]%elem_of_cons].
        -- apply Hin. by left.
        -- apply Hin. by right.
        -- apply elem_of_app. by right.
      * cbn. rewrite !upd_eq. cbn. intros p [->|Hp]%elem_of_cons; [right; exact Ea|by left].
      * intros rest T. cbn. rewrite !upd_eq. unfold qheld, entries in *. cbn. rewrite Hm in T. rewrite <-(app_assoc l) in T. exact T.
    + eapply (queue_step _ _ _ _ A live held k _ q [] K Hq).
      * split; [intros d Hd; cbn; by rewrite !upd_ne|done|done].
      * left. cbn. by rewrite !upd_eq.
      * cbn. rewrite !upd_eq. unfold qkeys, entries. cbn. rewrite Hm, !fmap_app. cbn. rewrite <-app_assoc.
        apply submseteq_skips_l. cbn. by constructor.
      * constructor.
      * by intros m' ?%elem_of_nil.
      * cbn. rewrite !upd_eq. unfold entries at 1. cbn. intros p Hp. left. apply elem_of_app in Hp as [Hp|Hp].
        -- apply Hin. by left.
        -- apply elem_of_app. by right.
      * cbn. rewrite !upd_eq. by left.
      * intros rest T. cbn. rewrite !upd_eq. unfold qheld, entries in *. cbn. rewrite Hm in T.
        rewrite <-app_assoc, !omap_app in T. cbn in T. rewrite omap_app.
        assert (Eb : blocked (k_msg k) (m, tgt) = None) by (unfold blocked; cbn; rewrite Ea; by destruct tgt).
        rewrite Eb, app_nil_r in T. eapply tm_held_perm; [|exact T]. clear. solve_Permutation.
Qed.
End ops.
