(* ===== verification/MsgQRecv.v ===== *)
(** * Message queues: responses, kernel messages and message handlers keep the invariant

    Sending a kernel message with the current task deferred, and handling the
    response: every deferred task is resumed, made ready or ended. *)

From S2P Require Import Prelude Containers Sched SchedSpec SchedSteps TaskMgr TaskMgrSpec TaskMgrInv TaskMgrSteps MsgQ MsgQInv MsgQOps.

Section resp.
Context (cpus : list Z) (idle : Z -> Z) (qs hs : list Z).
Context (Hcpus : NoDup cpus) (Hidle : NoDup (idle <$> cpus)).
Implicit Types (k : kern) (c t q m h : Z) (A live held : list Z).

Abbreviation ok := (tm_ok cpus idle None).
Abbreviation kok := (kern_ok cpus idle qs hs).

(** ** Taking a pending response out *)

Lemma find_split {B} (key : B -> Z) m l p :
  LList.find key m l = Some p -> exists l1 l2, l = l1 ++ p :: l2 /\ LList.erase key m l = l1 ++ l2 /\ key p = m.
Proof.
  intros E. pose proof (LList.find_erase key m l) as H. rewrite E in H.
  destruct H as (l1 & l2 & H1 & H2 & H3 & _). eauto.
Qed.

Definition take_response q m k : kern := set_responses q (LList.erase fst m (responses (k_mq k q))) k.

Lemma take_response_ok A A' live live' held held' k k' q m p :
  kok A live held k -> q ∈ qs -> LList.find fst m (responses (k_mq k q)) = Some p ->
  k_mq k' = k_mq (take_response q m k) -> k_msg k' = k_msg k -> k_handler k' = k_handler k ->
  (forall rest, ok A live (option_list (blocked (k_msg k) p) ++ rest ++ held) (k_tm k) -> ok A' live' (rest ++ held') (k_tm k')) ->
  kok A' live' held' k' /\ m ∉ all_keys qs k' /\ p.1 = m.
Proof.
  intros K Hq Ef E1 E2 E3 Hgo. destruct (find_split fst m _ p Ef) as (l1 & l2 & Hl & He & Hp).
  set (k1 := take_response q m k) in *.
  assert (Hent : entries (k_mq k q) ≡ₚ p :: entries (k_mq k1 q)).
  { unfold k1, take_response, entries. cbn. rewrite upd_eq. cbn. rewrite He, Hl. clear. solve_Permutation. }
  pose proof K as [M T]. destruct M as [M1 M2 M3 M4 M5 M6 M7 M8].
  assert (Hother : forall d, d <> q -> k_mq k1 d = k_mq k d) by (intros d Hd; cbn; by rewrite upd_ne).
  assert (Hkeys : all_keys qs k ≡ₚ m :: all_keys qs k1).
  { destruct (bind_at (fun d => qkeys (k_mq k d)) q qs M1 Hq) as (rest & B1 & B2). unfold all_keys.
    rewrite B1, (B2 (fun d => qkeys (k_mq k1 d))) by (intros d _ Hd; by rewrite Hother).
    unfold qkeys. rewrite Hent. csimpl. by rewrite Hp. }
  assert (Hin : forall d p0, p0 ∈ entries (k_mq k1 d) -> p0 ∈ entries (k_mq k d)).
  { intros d p0. destruct (decide (d = q)) as [->|Hd]; [rewrite Hent; by right|by rewrite Hother]. }
  assert (Hnk : m ∉ all_keys qs k1 /\ NoDup (all_keys qs k1)) by (rewrite Hkeys in M7; by apply NoDup_cons in M7).
  split; [|split; [|done]].
  2:{ unfold all_keys in *. rewrite E1. apply Hnk. }
  split; [split; try done|].
  - intros d Hd. rewrite E1. destruct (decide (d = q)) as [->|Hne]; [|rewrite Hother by done; auto].
    unfold k1. cbn. rewrite upd_eq. cbn. auto.
  - intros d p0 Hd. rewrite E1. intros Hp0. unfold flag_ok. rewrite E2. by apply (M5 d), Hin.
  - intros d p0 Hd. rewrite E1, E2. destruct (decide (d = q)) as [->|Hne]; [|rewrite Hother by done; by apply M6].
    unfold k1. cbn. rewrite upd_eq. cbn. rewrite He. intros Hp0. apply (M6 q); [done|]. rewrite Hl. set_solver.
  - unfold all_keys in *. rewrite E1. apply Hnk.
  - intros h Hh. rewrite E3. auto.
  - destruct (bind_at (fun d => qheld (k_msg k) (k_mq k d)) q qs M1 Hq) as (rest & B1 & B2).
    assert (B3 : qs ≫= (fun d => qheld (k_msg k) (k_mq k1 d)) ≡ₚ qheld (k_msg k) (k_mq k1 q) ++ rest).
    { apply B2. intros d _ Hd. by rewrite Hother. }
    assert (Hqh : qheld (k_msg k) (k_mq k q) ≡ₚ option_list (blocked (k_msg k) p) ++ qheld (k_msg k) (k_mq k1 q)).
    { unfold qheld. rewrite Hent. replace (waiting (k_mq k1 q)) with (waiting (k_mq k q)) by (unfold k1; cbn; by rewrite upd_eq).
      csimpl. destruct (blocked (k_msg k) p); cbn [option_list app]; [|done]. by rewrite <-Permutation_middle. }
    unfold ipc_held in *. rewrite E1, E2, E3. apply Hgo.
    eapply tm_held_perm; [|exact T]. rewrite B1, B3, Hqh. clear. solve_Permutation.
Qed.

(** ** A response to a user message *)

Lemma respond_sync A live held k c q m w :
  let t := cur c k in
  kok A live held k -> c ∈ cpus -> ~ is_idle_task cpus idle t -> q ∈ qs ->
  LList.find fst m (responses (k_mq k q)) = Some (m, TTask w) -> m_pseudosync (k_msg k m) = false ->
  let k1 := sch (fun s => set_cpu w (t_cpu (s_task s t)) s) (take_response q m k) in
  let k2 := sch (TASK_SETRTN w 0) (sch (setCurrentTask c w) k1) in
  kok A live held (sch (addTask t) (sch (TASK_SETRTN t 0) k2)).
Proof.
  intros t K Hc Hni Hq Ef Ep k1 k2.
  assert (Ea : m_async (k_msg k m) = true).
  { destruct (find_split fst m _ _ Ef) as (l1 & l2 & Hl & _). apply (mo_async _ _ _ (proj1 K) q (m, TTask w) Hq). rewrite Hl. set_solver. }
  refine (proj1 (take_response_ok A A live live held held k (sch (addTask t) (sch (TASK_SETRTN t 0) k2)) q m (m, TTask w) K Hq Ef eq_refl eq_refl eq_refl _)).
  intros rest T. unfold blocked in T. cbn [snd fst] in T. rewrite Ea, Ep in T. cbn [andb negb option_list app] in T.
  apply tm_addTask; [done..|]. apply tm_setrtn; [done..|]. apply tm_setrtn; [done..|].
  apply (tm_swap cpus idle Hcpus Hidle A live (rest ++ held) (k_tm k) c t w (set_cpu w (t_cpu (s_task (tm_sched (k_tm k)) t)) (tm_sched (k_tm k)))); try done.
  apply only_cpu; [right; by left|]. by apply (cpu_ok cpus idle A live (w :: rest ++ held)).
Qed.

Lemma respond_pseudo A live held k c q m q2 :
  let t := cur c k in
  kok A live held k -> q ∈ qs ->
  LList.find fst m (responses (k_mq k q)) = Some (m, TQueue q2) -> m_type (k_msg k m) < MSG_FIRST_SYS_TYPE ->
  m_pseudosync (k_msg k m) = true ->
  let k1 := take_response q m k in
  let k2 := match Queue.remove (waiting (k_mq k1 q2)) with
            | (None, _) => set_messages q2 (LList.insert (m, TTask t) (messages (k_mq k1 q2))) k1
            | (Some client, ws) => deliver client m (set_waiting q2 ws k1)
            end in
  kok A live held (sch (TASK_SETRTN t 0) k2).
Proof.
  intros t K Hq Ef Et Ep k1 k2.
  assert (Hq2 : q2 ∈ qs).
  { destruct (find_split fst m _ _ Ef) as (l1 & l2 & Hl & _).
    destruct (mo_flag _ _ _ (proj1 K) q (m, TQueue q2) Hq) as (_ & _ & H); [|done]. apply elem_of_app. right. rewrite Hl. set_solver. }
  destruct (take_response_ok A A live live held held k k1 q m (m, TQueue q2) K Hq Ef eq_refl eq_refl eq_refl) as (K1 & Hm & _).
  { intros rest T. exact T. }
  apply rtn_ok; [done..|]. unfold k2. destruct (tail_cases (waiting (k_mq k1 q2))) as [[Hw ->]|(w & ws & Hw & ->)].
  - eapply (enqueue_ok cpus idle qs hs A live held k1 _ q2 m (TTask t)); [done|done|done|done| | | |].
    + cbn [k_mq set_messages set_mq]. by rewrite upd_eq, Hw.
    + split; [intros d Hd; cbn [k_mq set_messages set_mq]; by rewrite upd_ne|done|done].
    + done.
    + intros rest T. unfold blocked. change (k_msg (set_messages q2 (LList.insert (m, TTask t) (messages (k_mq k1 q2))) k1)) with (k_msg k).
      cbn [snd fst]. by rewrite Ep, andb_false_r.
  - eapply (unwait_ok cpus idle qs hs A live held k1 _ q2 w ws []); [done|done|done| | | | | |].
    + unfold deliver. cbn [k_mq sch on_tm set_waiting set_mq]. by rewrite upd_eq.
    + split; [intros d Hd; unfold deliver; cbn [k_mq sch on_tm set_waiting set_mq]; by rewrite upd_ne|done|done].
    + constructor.
    + by intros m' ?%elem_of_nil.
    + by intros p ?%elem_of_nil.
    + intros rest T. by apply deliver_ok.
Qed.
End resp.

(** ** The end of a task that is not running *)

Lemma same_rest_adopt rm par tr n : (forall x s s', rm x s = Ok s' -> same_rest s s') ->
  forall s s', adopt rm n par tr s = Ok s' -> same_rest s s'.
Proof.
  intros Hrm. induction n as [|n IH]; intros s s'; [done|]. cbn [adopt].
  destruct (Queue.remove _) as [[x|] l]; [|by intros [= <-]]. set (s1 := set_parent x par _).
  assert (H1 : same_rest s s1) by done. destruct (_ && _).
  - destruct (_ =? _); [done|]. destruct (rm x s1) as [s2| | |] eqn:E; try done. cbn [res_bind]. intros H.
    transitivity s1; [done|]. transitivity s2; [by apply (Hrm x)|by apply IH].
  - intros H. transitivity s1; [done|]. etransitivity; [|by apply IH]. apply set_list_same.
Qed.

Lemma same_rest_remove n tr s s' : removeTracker n tr s = Ok s' -> same_rest s s'.
Proof.
  revert tr s s'. induction n as [|n IH]; intros tr s s'; [done|]. cbn [removeTracker].
  destruct (erase_node _ _) as [l|]; [|done]. intros H.
  etransitivity; [apply (set_list_same (parent (tracker s tr)) l)|]. eapply same_rest_adopt; [|exact H]. exact IH.
Qed.

Lemma finishTask_cur t rv st s s' : finishTask t rv st s = Ok s' -> s_cur (tm_sched s') = s_cur (tm_sched s).
Proof.
  unfold finishTask. set (sF := set_finished _ _ _ s).
  assert (Hrm : forall tr s0, tm_sched s0 = tm_sched s -> removeTracker 2 tr s0 = Ok s' -> s_cur (tm_sched s') = s_cur (tm_sched s)).
  { intros tr s0 E H. apply same_rest_remove in H as (-> & _). by rewrite E. }
  destruct (detached _); [case_match; [done|]; by apply Hrm|].
  destruct (parent _) as [p|]; [|case_match; [done|]; by apply Hrm].
  destruct (wait_info _) as [w|]; [|by intros [= <-]]. destruct (_ || _); [|by intros [= <-]].
  unfold join_waiter. destruct (join_results_same w rv st sF) as (_ & M2 & _).
  destruct (task _) as [tp|]; [|done]. destruct (removeTracker 2 _ _) as [sR| | |] eqn:ER; try done.
  cbn [res_bind]. intros [= <-]. cbn [tm_sched on_sched]. rewrite addTask_cur.
  apply same_rest_remove in ER as (-> & _). cbn. by rewrite M2.
Qed.

Section recv.
Context (cpus : list Z) (idle : Z -> Z) (qs hs : list Z).
Context (Hcpus : NoDup cpus) (Hidle : NoDup (idle <$> cpus)).
Implicit Types (k : kern) (c t q m h : Z) (A live held : list Z).

Abbreviation ok := (tm_ok cpus idle None).
Abbreviation kok := (kern_ok cpus idle qs hs).

Lemma held_task A live held s d : ok A live (d :: held) s -> d ∈ A.
Proof.
  intros O. rewrite <-(so_all _ _ _ _ _ _ (to_sched _ _ _ _ _ _ _ O)). unfold all_tasks. rewrite !elem_of_app. do 4 right. by left.
Qed.

Lemma held_not_cur A live held s d c : ok A live (d :: held) s -> c ∈ cpus -> (s_cur (tm_sched s) c =? d) = false.
Proof.
  intros O Hc. apply Z.eqb_neq. intros E.
  apply (held_in_apart cpus idle Hcpus Hidle A None (tm_sched s) (joining live s ++ d :: held) d c); try done; [apply O|apply O|].
  apply elem_of_app. right. by left.
Qed.

Lemma endTask_held A live held s s' c d rv :
  ok A live (d :: held) s -> c ∈ cpus -> endTask c d rv TASK_STATUS_CRASHED s = Ok s' ->
  exists A' live', ok A' live' held s' /\ s_cur (tm_sched s') = s_cur (tm_sched s).
Proof.
  intros O Hc. unfold endTask. change (s_cur (tm_sched (on_sched (set_state d TASK_STATE_ENDED) s)) c) with (s_cur (tm_sched s) c).
  rewrite (held_not_cur A live held s d c O Hc). set (s1 := on_sched (set_state d TASK_STATE_ENDED) s). intros E.
  assert (O1 : ok A live (d :: held) s1).
  { apply (tm_only cpus idle Hcpus Hidle A live (d :: held) s (set_state d TASK_STATE_ENDED (tm_sched s))); [done|].
    apply only_set; try done; [by left|by left]. }
  pose proof (held_task _ _ _ _ _ O1) as Hd. apply elem_of_Permutation in Hd as (A' & HA).
  assert (Hme : may_end s1 d).
  { intros Hdet. exfalso. revert E. unfold finishTask. change (s_task (tm_sched s1) d) with (info s1 d). rewrite Hdet. done. }
  destruct (finish_ok cpus idle Hcpus Hidle A A' live held s1 d rv TASK_STATUS_CRASHED O1 HA s' Hme E) as (live' & O' & _).
  exists A', live'. split; [done|]. by rewrite (finishTask_cur _ _ _ _ _ E).
Qed.

Lemma end_loop_ok n c extra ends A live held k k' :
  kok A live (ends ++ held) k -> c ∈ cpus -> end_loop n c extra ends k = Ok k' ->
  exists A' live', kok A' live' held k' /\ cur c k' = cur c k.
Proof.
  revert ends A live k. induction n as [|n IH]; intros ends A live k K Hc; [done|]. cbn [end_loop].
  destruct (tail_cases ends) as [[-> ->]|(d & l & -> & ->)]; [intros [= <-]; by exists A, live|].
  unfold on_tm_res. destruct (endTask c d extra TASK_STATUS_CRASHED (k_tm k)) as [s'| | |] eqn:E; try done. cbn [res_bind]. intros H.
  assert (K1 : exists A1 live1, kok A1 live1 (l ++ held) (on_tm (fun _ => s') k) /\ s_cur (tm_sched s') = s_cur (tm_sched (k_tm k))).
  { pose proof (proj2 K) as T.
    destruct (endTask_held A live (ipc_held qs hs k ++ l ++ held) (k_tm k) s' c d extra) as (A' & live' & T' & Ec); [|done|done|].
    { eapply tm_held_perm; [|exact T]. clear. solve_Permutation. }
    exists A', live'. split; [|done]. destruct K as [[M1 M2 M3 M4 M5 M6 M7 M8] _]. by split. }
  destruct K1 as (A1 & live1 & K1 & Ec).
  destruct (IH l A1 live1 (on_tm (fun _ => s') k) K1 Hc H) as (A2 & live2 & K2 & E2).
  exists A2, live2. split; [done|]. rewrite E2. unfold cur. cbn. by rewrite Ec.
Qed.

(** ** The deferred requests *)

Section loop.
Context (hr : handler_fn) (c h t : Z) (ty key rc : Z).
Context (Hc : c ∈ cpus) (Hh : h ∈ hs) (Hni : ~ is_idle_task cpus idle t).
Context (Hhr : forall d r, fst (hr h ty key (Some d) r) <> CONTINUE_DEFER).

Definition aside (restored : bool) : list Z := if restored then [t] else [].

(** The state of the loop. *)
Record loop_ok A live held (restored : bool) (ends : list Z) k : Prop := {
  lp_ok : kok A live (ends ++ aside restored ++ held) k;
  lp_cur : restored = false -> cur c k = t
}.

Lemma recv_step A live held restored ends k p l1 l2 d v :
  loop_ok A live held restored ends k -> iv_pending (k_handler k h) = l1 ++ p :: l2 -> p.2 = Some d ->
  let k0 := match v with Some v => sch (TASK_SETRTN d v) k | None => k end in
  let k1 := set_pending h (l1 ++ l2) k0 in
  (restored = false -> loop_ok A live held true ends (sch (setCurrentTask c d) k1)) /\
  loop_ok A live held restored ends (sch (addTask d) k1) /\
  loop_ok A live held restored (Queue.insert d ends) k1.
Proof.
  intros [K Hcur] Hp Hd k0 k1.
  assert (K0 : kok A live (ends ++ aside restored ++ held) k0) by (unfold k0; destruct v; [by apply rtn_ok|done]).
  assert (E0 : k_handler k0 = k_handler k /\ cur c k0 = cur c k) by (unfold k0; destruct v; done). destruct E0 as [E0 Ec0].
  assert (Hh0 : hheld (k_handler k0 h) ≡ₚ d :: hheld (k_handler k1 h)).
  { unfold k1, hheld. cbn. rewrite upd_eq. cbn. rewrite E0, Hp, !omap_app. csimpl. rewrite Hd. by rewrite <-Permutation_middle. }
  assert (Hoh : forall k2, k_mq k2 = k_mq k0 -> k_msg k2 = k_msg k0 -> k_handler k2 = k_handler k1 -> only_handler h k0 k2).
  { intros k2 F1 F2 F3. split; [done|done|intros x Hx; rewrite F3; cbn; by rewrite upd_ne|rewrite F3; cbn; by rewrite upd_eq]. }
  assert (Hstep : forall k2 held2, k_mq k2 = k_mq k0 -> k_msg k2 = k_msg k0 -> k_handler k2 = k_handler k1 ->
     (forall rest, ok A live (d :: rest ++ ends ++ aside restored ++ held) (k_tm k0) -> ok A live (rest ++ held2) (k_tm k2)) ->
     kok A live held2 k2).
  { intros k2 held2 F1 F2 F3 Hgo. eapply (handler_step cpus idle qs hs A A live live); [exact K0|exact Hh|by apply Hoh|].
    rewrite F3. intros rest T. rewrite app_assoc. apply Hgo. eapply tm_held_perm; [|exact T]. rewrite Hh0. clear. solve_Permutation. }
  split_and!.
  - intros ->. split; [|done]. apply Hstep; try done. intros rest T.
    assert (Et : t = s_cur (tm_sched (k_tm k1)) c) by (change (t = cur c k0); rewrite Ec0; symmetry; auto).
    eapply tm_held_perm; [|apply (tm_swap cpus idle Hcpus Hidle A live (rest ++ ends ++ held) (k_tm k1) c t d (tm_sched (k_tm k1)) T Hc Et Hni); apply only_refl].
    cbn. clear. solve_Permutation.
  - split.
    + apply Hstep; try done. intros rest T. by apply tm_addTask.
    + intros Hr. unfold cur. cbn. rewrite addTask_cur. change (cur c k0 = t). rewrite Ec0. auto.
  - split; [|intros Hr; change (cur c k0 = t); rewrite Ec0; auto].
    apply Hstep; try done. intros rest T. eapply tm_held_perm; [|exact T]. cbn. clear. solve_Permutation.
Qed.

(** A request without a task is dropped. *)
Lemma recv_drop A live held restored ends k p l1 l2 :
  loop_ok A live held restored ends k -> iv_pending (k_handler k h) = l1 ++ p :: l2 -> p.2 = None ->
  loop_ok A live held restored ends (set_pending h (l1 ++ l2) k).
Proof.
  intros [K Hcur] Hp Hd. split; [|exact Hcur]. eapply (handler_step cpus idle qs hs A A live live); [exact K|exact Hh| |].
  - split; [done|done|intros x Hx; cbn; by rewrite upd_ne|cbn; by rewrite upd_eq].
  - intros rest T. cbn. rewrite upd_eq. unfold hheld in *. cbn. rewrite Hp, omap_app in T. csimpl in T. rewrite Hd in T. by rewrite omap_app.
Qed.

Lemma recv_loop_ok n A live held restored ends k :
  loop_ok A live held restored ends k -> (length (iv_pending (k_handler k h)) < n)%nat ->
  exists ends' restored' k', recv_loop hr n c h ty key rc restored ends k = Ok (ends', k') /\
    loop_ok A live held restored' ends' k'.
Proof.
  revert restored ends k. induction n as [|n IH]; intros restored ends k L Hn; [lia|]. cbn [recv_loop].
  destruct (LList.find fst key (iv_pending (k_handler k h))) as [[key' d]|] eqn:Ef; [|by exists ends, restored, k].
  destruct (find_split fst key _ _ Ef) as (l1 & l2 & Hl & He & _).
  assert (Hlen : (length (l1 ++ l2) < n)%nat) by (rewrite Hl, !length_app in Hn; rewrite length_app; simpl in Hn; lia).
  destruct (hr h ty key d rc) as [r reg] eqn:Ehr. destruct d as [d|].
  2:{ replace (match reg with Some _ | _ => k end) with k by (by destruct reg). rewrite He.
      apply IH; [by eapply (recv_drop _ _ _ _ _ _ (key', None))|]. cbn. by rewrite upd_eq. }
  destruct (recv_step A live held restored ends k (key', Some d) l1 l2 d reg L Hl eq_refl) as (S1 & S2 & S3).
  set (k0 := match reg with Some _ => _ | None => k end) in *.
  assert (E0 : k_handler k0 = k_handler k) by (unfold k0; by destruct reg). rewrite E0, He. set (k1 := set_pending h (l1 ++ l2) k0) in *.
  assert (Hl1 : forall k2, k_handler k2 = k_handler k1 -> (length (iv_pending (k_handler k2 h)) < n)%nat).
  { intros k2 ->. unfold k1. cbn. by rewrite upd_eq. }
  destruct (_ || _) eqn:Eok.
  - destruct (negb restored && _) eqn:Er; apply IH; auto. apply andb_true_iff in Er as [Er _]. apply S1. by destruct restored.
  - destruct (bool_decide (r = UNHANDLED_RC)) eqn:Eu; [by apply IH; auto|]. exfalso.
    apply orb_false_iff in Eok as [Es _]. apply bool_decide_eq_false in Es, Eu.
    pose proof (Hhr d rc) as H. rewrite Ehr in H. cbn in H. by destruct r.
Qed.
End loop.

Lemma recvMessage_ok hr A live held k k' c h m t rc :
  kok A live held k -> c ∈ cpus -> h ∈ hs -> t = cur c k -> ~ is_idle_task cpus idle t ->
  (forall ty key d r, fst (hr h ty key (Some d) r) <> CONTINUE_DEFER) ->
  recvMessage hr c h m k = Ok (rc, k') ->
  exists A' live' restored, kok A' live' (aside t restored ++ held) k' /\ (restored = false -> cur c k' = t) /\
    (restored = true -> cur c k' <> t).
Proof.
  intros K Hc Hh Et Hni Hhr. unfold recvMessage. destruct (_ <? _); [intros [= <- <-]; by exists A, live, false|].
  set (ty := m_type _). set (key := m_data0 _). set (mrc := to_int _).
  assert (L : loop_ok c t A live held false [] k) by (by split).
  destruct (recv_loop_ok hr c h t ty key mrc Hc Hh Hni (fun d r => Hhr ty key d r) (S (length (iv_pending (k_handler k h))))
              A live held false [] k L) as (ends & restored & k1 & -> & [K1 H1]); [lia|].
  cbn [res_bind]. destruct (end_loop _ c _ ends k1) as [k2| | |] eqn:E; try done. cbn [res_bind]. intros [= <- <-].
  destruct (end_loop_ok _ c _ ends A live (aside t restored ++ held) k1 k2 K1 Hc E) as (A' & live' & K2 & E2).
  exists A', live', restored. split; [done|]. split; [rewrite E2; auto|].
  intros -> Ec. destruct K2 as [M T]. assert (T2 : ok A' live' (t :: ipc_held qs hs k2 ++ held) (k_tm k2)).
  { eapply tm_held_perm; [|exact T]. cbn. clear. solve_Permutation. }
  pose proof (held_not_cur A' live' _ _ t c T2 Hc) as H. apply Z.eqb_neq in H. by apply H.
Qed.

Lemma MsgRespond_ok hr A live held k k' c q m :
  kok A live held k -> c ∈ cpus -> ~ is_idle_task cpus idle (cur c k) -> q ∈ qs ->
  (forall h ty key d r, fst (hr h ty key (Some d) r) <> CONTINUE_DEFER) ->
  MsgRespond hr c q m k = Ok k' -> exists A' live', kok A' live' held k'.
Proof.
  intros K Hc Hni Hq Hhr. unfold MsgRespond. set (t := cur c k) in *.
  destruct (LList.find fst m (responses (k_mq k q))) as [[m' tgt]|] eqn:Ef; [|intros [= <-]; exists A, live; by apply rtn_ok].
  assert (m' = m) as -> by (by apply find_split in Ef as (? & ? & _ & _ & ?)).
  change (set_responses q (LList.erase fst m (responses (k_mq k q))) k) with (take_response q m k).
  change (k_msg (take_response q m k) m) with (k_msg k m).
  destruct (MSG_FIRST_SYS_TYPE <=? m_type (k_msg k m)) eqn:Ety; b2p.
  - destruct tgt as [| |h]; try done.
    destruct (take_response_ok cpus idle qs hs Hcpus Hidle A A live live held held k (take_response q m k) q m (m, THandler h) K Hq Ef eq_refl eq_refl eq_refl (fun _ T => T)) as (K1 & _).
    assert (Hh : h ∈ hs).
    { destruct (find_split fst m _ _ Ef) as (l1 & l2 & Hl & _).
      destruct (mo_flag _ _ _ (proj1 K) q (m, THandler h) Hq) as [_ H]; [|exact H]. apply elem_of_app. right. rewrite Hl. set_solver. }
    destruct (recvMessage hr c h m (take_response q m k)) as [[rc k2]| | |] eqn:Er; try done. cbn [res_bind]. intros [= <-].
    destruct (recvMessage_ok hr A live held _ k2 c h m t rc K1 Hc Hh eq_refl Hni (Hhr h) Er) as (A' & live' & restored & K2 & H1 & H2).
    exists A', live'. change (cur c (sch (TASK_SETRTN t (u64 rc)) k2)) with (cur c k2). destruct restored.
    + rewrite (proj2 (Z.eqb_neq _ _)) by auto. cbn [negb]. apply (tm_change cpus idle qs hs A' A' live' live' (aside t true ++ held) held (sch (TASK_SETRTN t (u64 rc)) k2)); [by apply rtn_ok|done|done|done|].
      intros rest T. apply tm_addTask; [done..|]. eapply tm_held_perm; [|exact T]. cbn. clear. solve_Permutation.
    + rewrite H1, Z.eqb_refl by done. cbn [negb]. by apply rtn_ok.
  - destruct (m_pseudosync (k_msg k m)) eqn:Ep.
    + destruct tgt as [|q2|]; try done. destruct (q2 =? 0); [done|]. intros [= <-]. exists A, live.
      by apply (respond_pseudo cpus idle qs hs Hcpus Hidle A live held k c q m q2).
    + destruct tgt as [w| |]; try done. intros [= <-]. exists A, live.
      by apply (respond_sync cpus idle qs hs Hcpus Hidle A live held k c q m w).
Qed.

(** ** [sendMessage] *)

(** The deferred task joins the handler's requests. *)
Lemma defer_ok A live held k h key d :
  kok A live (option_list d ++ held) k -> h ∈ hs -> kok A live held (set_pending h ((key, d) :: iv_pending (k_handler k h)) k).
Proof.
  intros K Hh. eapply (handler_step cpus idle qs hs A A live live); [exact K|exact Hh| |].
  - split; [done|done|intros x Hx; cbn; by rewrite upd_ne|cbn; by rewrite upd_eq].
  - intros rest T. cbn. rewrite upd_eq. unfold hheld in *. cbn [iv_pending]. csimpl. eapply tm_held_perm; [|exact T].
    destruct d; cbn [option_list app]; clear; solve_Permutation.
Qed.

Section send.
Context (A live held : list Z) (k : kern) (c h nm ty key data : Z).
Context (K : kok A live held k) (Hc : c ∈ cpus) (Hh : h ∈ hs) (Hty : MSG_FIRST_SYS_TYPE <= ty) (Hnm : nm ∉ all_keys qs k).
Let q : Z := iv_msgq (k_handler k h).
Let x : msg_t := mkMsg ty true false key data 0.

(** The message goes out; [f] is what happens to the tasks. *)
Lemma send_queue held2 f :
  waiting (k_mq k q) = [] ->
  (forall rest, ok A live (rest ++ held) (k_tm k) -> ok A live (rest ++ held2) (f (k_tm k))) ->
  kok A live held2 (on_tm f (set_messages q (LList.insert (nm, THandler h) (messages (k_mq k q))) (set_msg nm x k))).
Proof.
  intros Hw Hgo. pose proof (mo_handler _ _ _ (proj1 K) h Hh) as Hq. fold q in Hq.
  eapply (enqueue_ok_gen cpus idle qs hs A live held held2 k _ q nm (THandler h)); [done|done|done|done| | | |].
  - cbn [k_mq on_tm set_messages set_mq set_msg]. by rewrite upd_eq, Hw.
  - split; [intros d Hd; cbn [k_mq on_tm set_messages set_mq set_msg]; by rewrite upd_ne|done|].
    intros m' Hm'. cbn [k_msg on_tm set_messages set_mq set_msg]. rewrite upd_ne; [done|]. by intros ->.
  - cbn. rewrite upd_eq. done.
  - intros rest T. by apply Hgo.
Qed.

Lemma send_waiter held2 f w ws :
  waiting (k_mq k q) = ws ++ [w] ->
  (forall rest, ok A live (w :: rest ++ held) (k_tm k) -> ok A live (rest ++ held2) (f (k_tm k))) ->
  let kw := set_waiting q ws (set_msg nm x k) in
  kok A live held2 (on_tm f (set_responses q (LList.insert (nm, THandler h) (responses (k_mq kw q))) kw)).
Proof.
  intros Hw Hgo kw. pose proof (mo_handler _ _ _ (proj1 K) h Hh) as Hq. fold q in Hq. unfold kw.
  eapply (unwait_ok_gen cpus idle qs hs A live held held2 k _ q w ws [(nm, THandler h)]); [done|done|done| | | | | |].
  - cbn [k_mq on_tm set_responses set_waiting set_mq set_msg]. by rewrite !upd_eq.
  - split; [intros d Hd; cbn [k_mq on_tm set_responses set_waiting set_mq set_msg]; by rewrite !upd_ne|done|].
    intros m' Hm'. cbn [k_msg on_tm set_responses set_waiting set_mq set_msg]. rewrite upd_ne; [done|]. by intros ->.
  - apply NoDup_singleton.
  - intros m' ->%list_elem_of_singleton. done.
  - intros p ->%list_elem_of_singleton. cbn. rewrite upd_eq. done.
  - intros rest T. by apply Hgo.
Qed.
End send.

Lemma send_deferred intr A live held k c h nm ty key data t :
  kok A live held k -> c ∈ cpus -> h ∈ hs -> MSG_FIRST_SYS_TYPE <= ty -> nm ∉ all_keys qs k ->
  t = cur c k -> ~ is_idle_task cpus idle t -> kok A live held (sendMessage intr c h nm ty key data (Some t) k).
Proof.
  intros K Hc Hh Hty Hnm Et Hni. unfold sendMessage.
  set (b := fun s => set_info t key (set_state t TASK_STATE_BLOCK_USRSPACE s)). set (kb := sch b k).
  change (k_handler kb) with (k_handler k).
  assert (Hcur : forall k2, tm_sched (k_tm k2) = tm_sched (k_tm kb) -> (t =? cur c k2) = true).
  { intros k2 E. unfold cur. rewrite E. rewrite Et. apply Z.eqb_refl. }
  assert (Hob : forall l, t ∈ l -> only cpus l (tm_sched (k_tm k)) (b (tm_sched (k_tm k)))) by (intros l Hl; by apply only_block).
  assert (Hpark : forall rest, ok A live (rest ++ held) (k_tm k) ->
     ok A live (rest ++ t :: held) (on_sched (setNextRunnable c) (on_sched b (k_tm k)))).
  { intros rest T. eapply tm_held_perm; [|apply (tm_park cpus idle Hcpus Hidle A live (rest ++ held) (k_tm k) c t (b (tm_sched (k_tm k)))); try done].
    - by rewrite <-Permutation_middle.
    - apply Hob. by left. }
  destruct (negb _).
  - change (k_mq (set_msg nm (mkMsg ty true false key data 0) kb)) with (k_mq k).
    destruct (tail_cases (waiting (k_mq k (iv_msgq (k_handler k h))))) as [[Hw ->]|(w & ws & Hw & ->)].
    + rewrite Hcur by done. apply defer_ok; [|done].
      by apply (send_queue A live held k h nm ty key data K Hh Hty Hnm (t :: held) (fun s => on_sched (setNextRunnable c) (on_sched b s))).
    + change (t =? cur c _) with (t =? cur c kb). rewrite (proj2 (Z.eqb_eq t (cur c kb)) Et).
      apply defer_ok; [|done].
      apply (send_waiter A live held k h nm ty key data K Hh Hty Hnm (t :: held)
        (fun s => on_sched (setCurrentTask c w) (on_sched (TASK_SETRTN w nm) (on_sched b s))) w ws Hw).
      intros rest T. eapply tm_held_perm; [|apply (tm_swap cpus idle Hcpus Hidle A live (rest ++ held) (k_tm k) c t w (TASK_SETRTN w nm (b (tm_sched (k_tm k))))); try done].
      * by rewrite <-Permutation_middle.
      * eapply only_trans; [apply Hob; by left|]. apply only_rtn. right. by left.
  - rewrite Hcur by done. apply defer_ok; [|done].
    apply (tm_change cpus idle qs hs A A live live held (t :: held) k); [done|done|done|done|exact Hpark].
Qed.

Lemma send_plain intr A live held k c h nm ty key data :
  kok A live held k -> c ∈ cpus -> h ∈ hs -> MSG_FIRST_SYS_TYPE <= ty -> nm ∉ all_keys qs k ->
  kok A live held (sendMessage intr c h nm ty key data None k).
Proof.
  intros K Hc Hh Hty Hnm. unfold sendMessage. destruct (negb _); [|by apply defer_ok].
  change (k_mq (set_msg nm (mkMsg ty true false key data 0) k)) with (k_mq k).
  destruct (tail_cases (waiting (k_mq k (iv_msgq (k_handler k h))))) as [[Hw ->]|(w & ws & Hw & ->)].
  - apply defer_ok; [|done].
    by apply (send_queue A live held k h nm ty key data K Hh Hty Hnm held (fun s => s)).
  - destruct intr; (apply defer_ok; [|done]).
    + apply (send_waiter A live held k h nm ty key data K Hh Hty Hnm held
        (fun s => on_sched (addTask w) (on_sched (TASK_SETRTN w nm) s)) w ws Hw).
      intros rest T. by apply deliver_ok.
    + set (f := fun s => on_sched (setCurrentTask c w) (on_sched (addTask (s_cur (tm_sched s) c)) (on_sched (TASK_SETRTN w nm) s))).
      apply (send_waiter A live held k h nm ty key data K Hh Hty Hnm held f w ws Hw).
      intros rest T. apply (tm_preempt cpus idle Hcpus Hidle A live (rest ++ held) (on_sched (TASK_SETRTN w nm) (k_tm k)) c w); [|done].
      by apply tm_setrtn.
Qed.
End recv.
