(* ===== verification/MsgQClaims.v ===== *)
(** * Message queues: theorems

    No task is lost in a message queue under any interleaving of the message
    calls with task and scheduler operations; a queue refines a first-in
    first-out specification; sending and responding hand the processor over and
    back. *)

From S2P Require Import Prelude Containers Sched SchedSpec SchedSteps TaskMgr TaskMgrSpec TaskMgrInv TaskMgrSteps TaskMgrClaims MsgQ MsgQInv MsgQOps MsgQRecv.

Section steps.
Context (cpus : list Z) (idle : Z -> Z) (qs hs : list Z) (hr : handler_fn).
Implicit Types (k : kern) (c q m h : Z).

(** [qs] are the addresses queues may have.  A message is sent only while no
    queue holds it; its type and flags stay while it is pending; a queue is
    destroyed only when no task is blocked on it; messages of the kernel are
    sent with no task or with the current one deferred. *)
Inductive kern_step : kern -> kern -> Prop :=
| kstep_task k s : task_step cpus idle (k_tm k) s -> kern_step k (on_tm (fun _ => s) k)
| kstep_create k c q : q ∈ qs -> k_mq k q = mkMQ [] [] [] -> kern_step k (MsgQCreate c q k)
| kstep_destroy k c q : q ∈ qs -> qheld (k_msg k) (k_mq k q) = [] -> kern_step k (MsgQDestroy c q k)
| kstep_resolve k c a : kern_step k (MsgQResolveRoot c a k)
| kstep_write k m x : (m ∈ all_keys qs k -> same_kind x (k_msg k m)) -> kern_step k (set_msg m x k)
| kstep_send k c q m : c ∈ cpus -> q ∈ qs -> m ∉ all_keys qs k -> kern_step k (MsgSend c q m k)
| kstep_sendrecv k c q m mq2 :
    c ∈ cpus -> ~ is_idle_task cpus idle (cur c k) -> q ∈ qs -> m ∉ all_keys qs k ->
    (if mq2 =? 0 then m_pseudosync (k_msg k m) = false else mq2 ∈ qs) -> kern_step k (MsgSendRecv c q m mq2 k)
| kstep_wait k c q : c ∈ cpus -> ~ is_idle_task cpus idle (cur c k) -> q ∈ qs -> kern_step k (MsgWait c q k)
| kstep_respond k k' c q m :
    c ∈ cpus -> ~ is_idle_task cpus idle (cur c k) -> q ∈ qs -> MsgRespond hr c q m k = Ok k' -> kern_step k k'
| kstep_kernel k intr c h nm ty key data d :
    c ∈ cpus -> h ∈ hs -> MSG_FIRST_SYS_TYPE <= ty -> nm ∉ all_keys qs k ->
    match d with Some t => t = cur c k /\ ~ is_idle_task cpus idle t | None => True end ->
    kern_step k (sendMessage intr c h nm ty key data d k).

(** The messages of the interrupt handler are steps. *)
Lemma cv_send_step k c nm ty key data d v :
  c ∈ cpus -> (forall h, cv_instance v = Some h -> h ∈ hs) -> MSG_FIRST_SYS_TYPE <= ty -> nm ∉ all_keys qs k ->
  match d with Some t => t = cur c k /\ ~ is_idle_task cpus idle t | None => True end ->
  rtc kern_step k (cv_send c nm ty key data d v k).
Proof.
  intros Hc Hh Hty Hnm Hd. unfold cv_send, InterruptMsgHdlr_sendMessage. destruct (cv_instance v) as [h|]; [|apply rtc_refl].
  apply rtc_once. apply kstep_kernel; auto.
Qed.

Lemma interrupt_steps k c nm pir reg v :
  c ∈ cpus -> (forall h, cv_instance v = Some h -> h ∈ hs) -> nm ∉ all_keys qs k ->
  (forall k', handleInterrupt c nm pir reg v k = Some k' -> rtc kern_step k k') /\
  rtc kern_step k (sendThreadWakeupMsg c nm pir v k) /\ rtc kern_step k (snd (sendIpcMsg c nm pir v k)) /\
  rtc kern_step k (issueSbeMboxWA c nm v k) /\
  (~ is_idle_task cpus idle (cur c k) -> rtc kern_step k (addCpuCore c nm pir v k)).
Proof.
  intros Hc Hh Hnm. split_and!; try by apply cv_send_step.
  - unfold handleInterrupt. intros k'. case_match; [|done]. intros [= <-]. by apply cv_send_step.
  - unfold sendIpcMsg. case_match; [|apply rtc_refl]. cbn [snd]. by apply cv_send_step.
  - intros Hi. by apply cv_send_step.
Qed.

Definition kern_inv (held : list Z) k : Prop := exists A live, kern_ok cpus idle qs hs A live held k.

Lemma kern_step_ok held k k' :
  NoDup cpus -> NoDup (idle <$> cpus) ->
  (forall h ty key d r, fst (hr h ty key (Some d) r) <> CONTINUE_DEFER) ->
  kern_step k k' -> kern_inv held k -> kern_inv held k'.
Proof.
  intros Hcpus Hidle Hhr St (A & live & K). destruct St.
  - destruct K as [M T]. destruct (task_step_ok cpus idle (ipc_held qs hs k ++ held) (k_tm k) s Hcpus Hidle H) as (A' & live' & T'); [by exists A, live|].
    exists A', live'. destruct M as [M1 M2 M3 M4 M5 M6 M7 M8]. by split.
  - exists A, live. apply rtn_ok; [done..|]. eapply (queue_step _ _ _ _ A live held k _ q [] K H); cbn; rewrite ?upd_eq.
    + split; [intros d Hd; cbn; by rewrite upd_ne|done|done].
    + by left.
    + apply submseteq_nil_l.
    + constructor.
    + by intros m ?%elem_of_nil.
    + by intros p ?%elem_of_nil.
    + by intros p ?%elem_of_nil.
    + intros rest T. by rewrite H0 in T.
  - exists A, live. apply rtn_ok; [done..|]. destruct (q =? 0); [done|].
    eapply (queue_step _ _ _ _ A live held k _ q [] K H); cbn; rewrite ?upd_eq.
    + split; [intros d Hd; cbn; by rewrite upd_ne|done|done].
    + by left.
    + apply submseteq_nil_l.
    + constructor.
    + by intros m ?%elem_of_nil.
    + by intros p ?%elem_of_nil.
    + by intros p ?%elem_of_nil.
    + intros rest T. by rewrite H0 in T.
  - exists A, live. unfold MsgQResolveRoot. repeat case_match; by apply rtn_ok.
  - exists A, live. eapply tm_change; [exact K|done|done| |done]. intros m' Hm'. cbn. unfold upd.
    destruct (m' =? m) eqn:E; b2p; [subst|done]. auto.
  - exists A, live. by apply MsgSend_ok.
  - exists A, live. by apply MsgSendRecv_ok.
  - exists A, live. by apply MsgWait_ok.
  - by apply (MsgRespond_ok cpus idle qs hs Hcpus Hidle hr A live held k k' c q m).
  - exists A, live. destruct d as [t|]; [destruct H3 as [Et Hni]; by apply send_deferred|by apply send_plain].
Qed.
End steps.


(** ** The abstract queue *)

(** What a message queue promises: undelivered messages and waiting tasks, the
    oldest first; the second part of a result says who gets which message. *)
Record fifo : Type := mkFifo { f_msgs : list Z; f_wait : list Z }.

Definition fifo_send (m : Z) (a : fifo) : fifo * option (Z * Z) :=
  match f_wait a with
  | w :: ws => (mkFifo (f_msgs a) ws, Some (w, m))
  | [] => (mkFifo (f_msgs a ++ [m]) [], None)
  end.
Definition fifo_wait (t : Z) (a : fifo) : fifo * option (Z * Z) :=
  match f_msgs a with
  | m :: ms => (mkFifo ms (f_wait a), Some (t, m))
  | [] => (mkFifo [] (f_wait a ++ [t]), None)
  end.

Inductive fifo_op : Type := FSend (m : Z) | FWait (t : Z).
Definition fifo_do (o : fifo_op) (a : fifo) : fifo * option (Z * Z) :=
  match o with FSend m => fifo_send m a | FWait t => fifo_wait t a end.
Fixpoint fifo_run (os : list fifo_op) (a : fifo) : fifo * list (Z * Z) :=
  match os with
  | [] => (a, [])
  | o :: os =>
      let '(a, e) := fifo_do o a in
      let '(a, es) := fifo_run os a in (a, option_list e ++ es)
  end.
Definition sent (os : list fifo_op) : list Z := omap (fun o => match o with FSend m => Some m | FWait _ => None end) os.

(** Messages are received in the order in which they were sent, each once. *)
Lemma fifo_order os a :
  (f_wait a = [] \/ f_msgs a = []) ->
  let '(a', got) := fifo_run os a in
  f_msgs a ++ sent os = got.*2 ++ f_msgs a' /\ (f_wait a' = [] \/ f_msgs a' = []).
Proof.
  revert a. induction os as [|o os IH]; intros a Ha; [cbn; by rewrite app_nil_r|].
  cbn [fifo_run]. destruct (fifo_do o a) as [a1 e] eqn:E.
  assert (H1 : (f_wait a1 = [] \/ f_msgs a1 = []) /\ f_msgs a ++ sent [o] = (option_list e).*2 ++ f_msgs a1).
  { destruct a as [ms ws]. destruct o as [m|t]; cbn in E; unfold fifo_send, fifo_wait in E; cbn in *.
    - destruct ws as [|w ws]; injection E as <- <-; cbn; [split; [by left|done]|].
      destruct Ha as [Ha|Ha]; [done|]. subst ms. split; [by right|done].
    - destruct ms as [|m ms]; injection E as <- <-; cbn; [split; [by right|done]|].
      destruct Ha as [Ha|Ha]; [|done]. subst ws. split; [by left|]. by rewrite app_nil_r. }
  destruct H1 as [Ha1 H1]. specialize (IH a1 Ha1). destruct (fifo_run os a1) as [a' got].
  destruct IH as [IH1 IH2]. split; [|done].
  rewrite fmap_app, <-app_assoc, <-IH1. rewrite app_assoc, <-H1, <-app_assoc. f_equal.
  unfold sent. change (o :: os) with ([o] ++ os). by rewrite omap_app.
Qed.

Definition abs_queue (x : MessageQueue) : fifo := mkFifo (reverse (messages x).*1) (reverse (waiting x)).

(** [k'] is what the abstract operation makes of queue [q] of [k]: its abstract
    state, the message in the result register of the task that gets it, and no
    other queue touched. *)
Definition simulates q (op : fifo -> fifo * option (Z * Z)) (k k' : kern) : Prop :=
  abs_queue (k_mq k' q) = fst (op (abs_queue (k_mq k q))) /\
  (forall w m, snd (op (abs_queue (k_mq k q))) = Some (w, m) -> t_rtn (tsk w k') = m) /\
  forall d, d <> q -> abs_queue (k_mq k' d) = abs_queue (k_mq k d).

(** The calls that put a message on queue [q] or take one off it. *)
Inductive queue_call (cpus qs : list Z) (hr : handler_fn) (q : Z) : kern -> fifo_op -> kern -> Prop :=
| qcall_send k c m :
    c ∈ cpus -> Z.land (Z.shiftr q 32) MSGQ_TYPE_IPC = 0 -> m <> 0 -> m_type (k_msg k m) < MSG_FIRST_SYS_TYPE ->
    queue_call cpus qs hr q k (FSend m) (MsgSend c q m k)
| qcall_sendrecv k c m mq2 :
    m_type (k_msg k m) < MSG_FIRST_SYS_TYPE -> queue_call cpus qs hr q k (FSend m) (MsgSendRecv c q m mq2 k)
| qcall_wait k c : queue_call cpus qs hr q k (FWait (cur c k)) (MsgWait c q k)
| qcall_respond k k' c d m :
    c ∈ cpus -> d ∈ qs -> LList.find fst m (responses (k_mq k d)) = Some (m, TQueue q) -> MsgRespond hr c d m k = Ok k' ->
    queue_call cpus qs hr q k (FSend m) k'
| qcall_kernel k intr c h nm ty key data t :
    q = iv_msgq (k_handler k h) -> LList.find fst key (iv_pending (k_handler k h)) = None ->
    queue_call cpus qs hr q k (FSend nm) (sendMessage intr c h nm ty key data t k).

(** Who finds what in its result register after a call. *)
Definition received q (o : fifo_op) (k k' : kern) : list (Z * Z) :=
  match o with
  | FSend _ => match last (waiting (k_mq k q)) with Some w => [(w, t_rtn (tsk w k'))] | None => [] end
  | FWait t => match messages (k_mq k q) with [] => [] | _ => [(t, t_rtn (tsk t k'))] end
  end.

Lemma setNextRunnable_rtn c s u : t_rtn (s_task (setNextRunnable c s) u) = t_rtn (s_task s u).
Proof. unfold setNextRunnable. repeat case_match; simplify_eq; cbn; unfold upd; case_match; b2p; by subst. Qed.

Lemma setCurrentTask_rtn c t s u : t_rtn (s_task (setCurrentTask c t s) u) = t_rtn (s_task s u).
Proof. cbn. unfold upd. case_match; b2p; by subst. Qed.

Section refine.
Context (q m : Z) (k k' : kern).

Lemma sim_enqueue tgt :
  waiting (k_mq k q) = [] ->
  messages (k_mq k' q) = LList.insert (m, tgt) (messages (k_mq k q)) -> waiting (k_mq k' q) = [] ->
  (forall d, d <> q -> abs_queue (k_mq k' d) = abs_queue (k_mq k d)) -> simulates q (fifo_send m) k k'.
Proof.
  intros Hw Hm Hw' Ho. split_and!; [|by unfold fifo_send, abs_queue; cbn; rewrite Hw|exact Ho].
  unfold fifo_send, abs_queue. cbn. rewrite Hw, Hw', Hm. cbn. f_equal. apply reverse_cons.
Qed.

Lemma sim_deliver w ws :
  waiting (k_mq k q) = ws ++ [w] ->
  messages (k_mq k' q) = messages (k_mq k q) -> waiting (k_mq k' q) = ws -> t_rtn (tsk w k') = m ->
  (forall d, d <> q -> abs_queue (k_mq k' d) = abs_queue (k_mq k d)) -> simulates q (fifo_send m) k k'.
Proof.
  intros Hw Hm Hw' Hr Ho.
  assert (E : fifo_send m (abs_queue (k_mq k q)) = (abs_queue (k_mq k' q), Some (w, m))).
  { unfold fifo_send, abs_queue. cbn. by rewrite Hw, reverse_app, Hm, Hw'. }
  unfold simulates. rewrite E. split_and!; [done| |exact Ho]. by intros ? ? [= <- <-].
Qed.
End refine.
Section calls.
Context (cpus : list Z) (idle : Z -> Z) (qs hs : list Z) (hr : handler_fn).
Context (Hcpus : NoDup cpus) (Hidle : NoDup (idle <$> cpus)).
Notation kok A live held k := (kern_ok cpus idle qs hs A live held k).

(** A task a queue holds, seen as held by itself. *)
Lemma queue_held A live held k q w :
  kok A live held k -> q ∈ qs -> w ∈ qheld (k_msg k) (k_mq k q) ->
  exists held', tm_ok cpus idle None A live (w :: held') (k_tm k).
Proof.
  intros [M T] Hq (ws & Hw)%elem_of_Permutation.
  destruct (bind_at (fun d => qheld (k_msg k) (k_mq k d)) q qs (mo_qs _ _ _ M) Hq) as (rest & E & _).
  unfold ipc_held in T. set (H2 := hs ≫= _) in T. exists (ws ++ rest ++ H2 ++ held).
  eapply tm_held_perm; [|exact T]. rewrite E, Hw. clear. solve_Permutation.
Qed.

Lemma qheld_not_current A live held k q w c :
  kok A live held k -> q ∈ qs -> w ∈ qheld (k_msg k) (k_mq k q) -> c ∈ cpus -> cur c k <> w.
Proof.
  intros K Hq Hw Hc. destruct (queue_held A live held k q w K Hq Hw) as (held' & T). apply Z.eqb_neq.
  by apply (held_not_cur cpus idle Hcpus Hidle A live held' (k_tm k) w c).
Qed.

Lemma waiter_not_cur A live held k q w c :
  kok A live held k -> q ∈ qs -> w ∈ waiting (k_mq k q) -> c ∈ cpus -> cur c k <> w.
Proof. intros K Hq Hw. apply (qheld_not_current A live held k q w c K Hq). apply elem_of_app. by left. Qed.

Lemma rtn_ne t w v k : t <> w -> t_rtn (tsk w (sch (TASK_SETRTN t v) k)) = t_rtn (tsk w k).
Proof. intros H. cbn. by rewrite upd_ne. Qed.
Lemma rtn_eq w v k : t_rtn (tsk w (sch (TASK_SETRTN w v) k)) = v.
Proof. cbn. by rewrite upd_eq. Qed.
Lemma rtn_addTask t w k : t_rtn (tsk w (sch (addTask t) k)) = t_rtn (tsk w k).
Proof. apply addTask_rtn. Qed.
Lemma rtn_current c t w k : t_rtn (tsk w (sch (setCurrentTask c t) k)) = t_rtn (tsk w k).
Proof. apply setCurrentTask_rtn. Qed.
Lemma rtn_cpu t (n : sched -> Z) w k : t_rtn (tsk w (sch (fun s => set_cpu t (n s) s) k)) = t_rtn (tsk w k).
Proof. cbn. unfold upd. case_match; b2p; by subst. Qed.

Lemma send_refines A live held k c q m :
  kok A live held k -> q ∈ qs -> c ∈ cpus -> Z.land (Z.shiftr q 32) MSGQ_TYPE_IPC = 0 -> m <> 0 ->
  m_type (k_msg k m) < MSG_FIRST_SYS_TYPE -> simulates q (fifo_send m) k (MsgSend c q m k).
Proof.
  intros K Hq Hc Hi Hm Ht. pose proof (mo_null _ _ _ (proj1 K)) as H0. unfold MsgSend. rewrite Hi.
  rewrite (proj2 (Z.eqb_neq q 0)) by (by intros ->). rewrite (proj2 (Z.eqb_neq m 0)) by done. cbn [negb orb Z.eqb].
  change (k_msg (set_async false m k) m) with (upd (k_msg k) m (mkMsg (m_type (k_msg k m)) false (m_pseudosync (k_msg k m)) (m_data0 (k_msg k m)) (m_data1 (k_msg k m)) (m_extra (k_msg k m))) m).
  rewrite upd_eq. cbn [m_type]. rewrite (proj2 (Z.leb_gt _ _)) by done. change (k_mq (set_async false m k)) with (k_mq k).
  destruct (tail_cases (waiting (k_mq k q))) as [[Hw ->]|(w & ws & Hw & ->)].
  - apply (sim_enqueue _ _ _ _ (TTask (cur c k))); try done; cbn; rewrite ?upd_eq; try done. intros d Hd. by rewrite upd_ne.
  - assert (Hcw : cur c k <> w) by (eapply waiter_not_cur; [exact K|exact Hq| |exact Hc]; rewrite Hw; set_solver).
    apply (sim_deliver _ _ _ _ w ws); try done; try (cbn; by rewrite upd_eq).
    + rewrite rtn_ne by done. unfold deliver. by rewrite rtn_addTask, rtn_eq.
    + intros d Hd. cbn. by rewrite upd_ne.
Qed.

Lemma sendrecv_refines k c q m mq2 :
  m_type (k_msg k m) < MSG_FIRST_SYS_TYPE -> simulates q (fifo_send m) k (MsgSendRecv c q m mq2 k).
Proof.
  intros Ht. unfold MsgSendRecv. destruct (set_sync_msg m mq2 k) as (F1 & _ & _ & F4 & F5 & _).
  set (k2 := if negb (mq2 =? 0) then _ else _) in *. rewrite F1, (proj2 (Z.leb_gt _ _)) by done.
  set (ps := m_pseudosync (k_msg k2 m)). set (k3 := if negb ps then _ else _).
  assert (E3 : k_mq k3 = k_mq k) by (subst k3; case_match; done). clearbody k3. rewrite E3.
  destruct (tail_cases (waiting (k_mq k q))) as [[Hw ->]|(w & ws & Hw & ->)].
  - apply (sim_enqueue _ _ _ _ (if negb ps then TTask (cur c k) else TQueue mq2)); try done.
    + destruct (negb ps); cbn; rewrite upd_eq, E3; done.
    + destruct (negb ps); cbn; rewrite upd_eq; cbn; by rewrite E3.
    + intros d Hd. destruct (negb ps); cbn; by rewrite upd_ne, E3.
  - apply (sim_deliver _ _ _ _ w ws); try done.
    + destruct ps; cbn; rewrite !upd_eq, E3; cbn; done.
    + destruct ps; cbn; rewrite !upd_eq; cbn; done.
    + rewrite rtn_current. destruct ps; rewrite ?rtn_addTask, (rtn_cpu w); apply rtn_eq.
    + intros d Hd. destruct ps; cbn; by rewrite !upd_ne, E3.
Qed.

Lemma wait_refines k c q : simulates q (fifo_wait (cur c k)) k (MsgWait c q k).
Proof.
  unfold MsgWait. destruct (tail_cases (messages (k_mq k q))) as [[Hm ->]|([m tgt] & l & Hm & ->)].
  - unfold simulates, fifo_wait, abs_queue. cbn. rewrite upd_eq, Hm. cbn. split_and!; [|done|intros d Hd; by rewrite upd_ne].
    f_equal. apply reverse_cons.
  - set (k1 := set_messages q l k). set (k2 := if m_async _ then _ else _).
    assert (E : fifo_wait (cur c k) (abs_queue (k_mq k q)) = (abs_queue (k_mq k2 q), Some (cur c k, m))).
    { unfold fifo_wait, abs_queue. cbn. rewrite Hm, fmap_app, reverse_app. cbn.
      subst k2 k1. case_match; cbn; rewrite !upd_eq; done. }
    unfold simulates. rewrite E. split_and!; [done| |].
    + intros ? ? [= <- <-]. apply rtn_eq.
    + intros d Hd. subst k2 k1. case_match; cbn; by rewrite !upd_ne.
Qed.

Lemma respond_refines A live held k k' c d q m :
  kok A live held k -> d ∈ qs -> c ∈ cpus -> LList.find fst m (responses (k_mq k d)) = Some (m, TQueue q) ->
  MsgRespond hr c d m k = Ok k' -> simulates q (fifo_send m) k k'.
Proof.
  intros K Hd Hc Ef. destruct (find_split fst m _ _ Ef) as (l1 & l2 & Hl & _ & _).
  destruct (mo_flag _ _ _ (proj1 K) d (m, TQueue q) Hd) as (Ht & Hp & Hq).
  { apply elem_of_app. right. rewrite Hl. set_solver. } cbn [fst] in Ht, Hp.
  unfold MsgRespond. rewrite Ef. set (k1 := set_responses d _ k). change (k_msg k1) with (k_msg k).
  rewrite (proj2 (Z.leb_gt _ _)), Hp by done. case_match; [done|].
  assert (E1 : waiting (k_mq k1 q) = waiting (k_mq k q) /\ messages (k_mq k1 q) = messages (k_mq k q)).
  { subst k1. cbn. unfold upd. case_match; b2p; by subst. }
  assert (Eo : forall e, abs_queue (k_mq k1 e) = abs_queue (k_mq k e)).
  { intros e. subst k1. cbn. unfold upd. case_match; b2p; by subst. }
  destruct E1 as [-> E1].
  destruct (tail_cases (waiting (k_mq k q))) as [[Hw ->]|(w & ws & Hw & ->)]; intros [= <-].
  - apply (sim_enqueue _ _ _ _ (TTask (cur c k))); try done.
    + cbn. rewrite upd_eq. cbn. unfold k1 in E1. cbn in E1. by rewrite E1.
    + transitivity (waiting (k_mq k1 q)); [cbn; by rewrite upd_eq|]. subst k1. cbn. unfold upd. case_match; b2p; by subst.
    + intros e He. rewrite <-(Eo e). cbn. by rewrite (upd_ne _ q).
  - assert (Hcw : cur c k <> w) by (eapply waiter_not_cur; [exact K|exact Hq| |exact Hc]; rewrite Hw; set_solver).
    apply (sim_deliver _ _ _ _ w ws); try done.
    + rewrite <-E1. cbn. by rewrite upd_eq.
    + cbn. by rewrite upd_eq.
    + rewrite rtn_ne by done. unfold deliver. by rewrite rtn_addTask, rtn_eq.
    + intros e He. rewrite <-(Eo e). cbn. by rewrite (upd_ne _ q).
Qed.
End calls.
Section kernel_messages.
Implicit Types (k : kern).

Lemma rtn_next c w k : t_rtn (tsk w (sch (setNextRunnable c) k)) = t_rtn (tsk w k).
Proof. apply setNextRunnable_rtn. Qed.

Lemma rtn_pending h l w k : t_rtn (tsk w (set_pending h l k)) = t_rtn (tsk w k).
Proof. done. Qed.

Lemma kernel_refines intr k q c h nm ty key data t :
  q = iv_msgq (k_handler k h) -> LList.find fst key (iv_pending (k_handler k h)) = None ->
  simulates q (fifo_send nm) k (sendMessage intr c h nm ty key data t k).
Proof.
  intros Hq Ef. unfold sendMessage. set (kb := match t with Some _ => _ | None => k end).
  assert (Eb : k_mq kb = k_mq k /\ k_handler kb = k_handler k) by (subst kb; by case_match).
  destruct Eb as [E1 E2]. clearbody kb. rewrite E2, Ef. cbn [negb bool_decide]. rewrite bool_decide_eq_false_2 by (by intros [? ?]).
  cbn [negb]. rewrite <-Hq. set (km := set_msg nm _ kb). change (k_mq km) with (k_mq kb). rewrite E1.
  assert (Em : k_mq km = k_mq k) by exact E1. clearbody km.
  destruct (tail_cases (waiting (k_mq k q))) as [[Hw ->]|(w & ws & Hw & ->)].
  - set (ks := set_messages q _ km).
    assert (Hs : k_mq ks = upd (k_mq k) q (mkMQ (LList.insert (nm, THandler h) (messages (k_mq k q))) (responses (k_mq k q)) [])).
    { subst ks. cbn. by rewrite Em, Hw. }
    clearbody ks. apply (sim_enqueue _ _ _ _ (THandler h)); [done|..]; (destruct t as [t|]; [destruct (t =? cur c ks)|]; cbn; rewrite Hs; [..|]).
    all: try (by rewrite upd_eq). all: intros d Hd; by rewrite upd_ne.
  - set (ks := set_responses q _ _).
    assert (Hs : k_mq ks q = mkMQ (messages (k_mq k q)) (LList.insert (nm, THandler h) (responses (k_mq k q))) ws /\
                 (forall d, d <> q -> k_mq ks d = k_mq k d) /\ t_rtn (tsk w ks) = nm).
    { subst ks. cbn. rewrite !upd_eq, Em. split_and!; [done| |done]. intros d Hd. by rewrite !upd_ne. }
    destruct Hs as (H1 & H2 & H3). clearbody ks.
    destruct t as [t|]; [destruct (t =? cur c ks)|]; [|destruct intr..]; cbv beta iota zeta; (apply (sim_deliver _ _ _ _ w ws);
      [done|transitivity (messages (k_mq ks q)); [done|by rewrite H1]|transitivity (waiting (k_mq ks q)); [done|by rewrite H1]
      |by rewrite rtn_pending, ?rtn_current, ?rtn_addTask
      |intros d Hd; transitivity (abs_queue (k_mq ks d)); [done|by rewrite H2]]).
Qed.

(** Message handlers leave the queues and the messages alone. *)
Definition same_queues k k' : Prop := k_mq k' = k_mq k /\ k_msg k' = k_msg k.

Lemma recv_loop_mq hr n c h ty key rc restored ends k ends' k' :
  recv_loop hr n c h ty key rc restored ends k = Ok (ends', k') -> same_queues k k'.
Proof.
  revert restored ends k. induction n as [|n IH]; intros restored ends k; [done|]. cbn [recv_loop].
  destruct (LList.find _ _ _) as [[? d]|]; [|by intros [= <- <-]]. destruct (hr _ _ _ _ _) as [r reg].
  set (k1 := match reg with Some _ => _ | None => k end).
  assert (E1 : same_queues k k1) by (subst k1; repeat case_match; done). destruct E1 as [E1 E2].
  unfold same_queues. rewrite <-E1, <-E2. clearbody k1.
  repeat case_match; intros HR; apply IH in HR; exact HR.
Qed.

Lemma end_loop_mq n c extra ends k k' : end_loop n c extra ends k = Ok k' -> same_queues k k'.
Proof.
  revert ends k. induction n as [|n IH]; intros ends k; [done|]. cbn [end_loop].
  destruct (Queue.remove ends) as [[d|] l]; [|by intros [= <-]]. unfold on_tm_res.
  destruct (endTask _ _ _ _ _); try done. cbn [res_bind]. intros H. by apply IH in H.
Qed.

Lemma recvMessage_mq hr c h m k rc k' : recvMessage hr c h m k = Ok (rc, k') -> same_queues k k'.
Proof.
  unfold recvMessage. case_match; [by intros [= <- <-]|]. destruct (recv_loop _ _ _ _ _ _ _ _ _ _) as [[ends k1]| | |] eqn:E1; try done.
  cbn [res_bind]. destruct (end_loop _ _ _ _ _) eqn:E2; try done. cbn [res_bind]. intros [= <- <-].
  apply recv_loop_mq in E1 as [E1 F1]. apply end_loop_mq in E2 as [E2 F2]. unfold same_queues. by rewrite E2, F2.
Qed.
End kernel_messages.
Section runs.
Context (cpus : list Z) (idle : Z -> Z) (qs hs : list Z) (hr : handler_fn) (q : Z).
Context (Hcpus : NoDup cpus) (Hidle : NoDup (idle <$> cpus)) (Hq : q ∈ qs).

(** A run of the kernel: the calls on the queue in order, and what tasks found
    in their registers. *)
Inductive queue_run : kern -> list fifo_op -> list (Z * Z) -> kern -> Prop :=
| qrun_end k : queue_run k [] [] k
| qrun_other k k1 k' os got :
    kern_step cpus idle qs hs hr k k1 -> abs_queue (k_mq k1 q) = abs_queue (k_mq k q) ->
    queue_run k1 os got k' -> queue_run k os got k'
| qrun_call k k1 k' o os got :
    kern_step cpus idle qs hs hr k k1 -> queue_call cpus qs hr q k o k1 ->
    queue_run k1 os got k' -> queue_run k (o :: os) (received q o k k1 ++ got) k'.

Lemma call_simulates A live held k o k' :
  kern_ok cpus idle qs hs A live held k -> queue_call cpus qs hr q k o k' -> simulates q (fifo_do o) k k'.
Proof.
  intros K C. destruct C as [k c m Hc Hi Hm Ht|k c m mq2 Ht|k c|k k' c d m Hc Hd Ef E|k intr c h nm ty key data t Eq Ef].
  - by apply (send_refines cpus idle qs hs Hcpus Hidle A live held).
  - by apply sendrecv_refines.
  - apply wait_refines.
  - by apply (respond_refines cpus idle qs hs hr Hcpus Hidle A live held k k' c d q m).
  - by apply kernel_refines.
Qed.

Lemma abs_responses k d l e : abs_queue (k_mq (set_responses d l k) e) = abs_queue (k_mq k e).
Proof. cbn. unfold upd. case_match; b2p; by subst. Qed.

Lemma received_abs k o k' :
  simulates q (fifo_do o) k k' -> received q o k k' = option_list (snd (fifo_do o (abs_queue (k_mq k q)))).
Proof.
  intros (_ & H & _). destruct o as [m|t]; cbn [received fifo_do] in *; unfold fifo_send, fifo_wait, abs_queue in *; cbn [f_wait f_msgs] in *.
  - destruct (tail_cases (waiting (k_mq k q))) as [[Hw _]|(w & ws & Hw & _)]; rewrite Hw in *; [done|].
    rewrite last_snoc, reverse_app in *. cbn in *. by rewrite (H w m).
  - destruct (tail_cases (messages (k_mq k q))) as [[Hm _]|([m tgt] & l & Hm & _)]; rewrite Hm in *; [done|].
    rewrite fmap_app, reverse_app in *. cbn in *. rewrite (H t m) by done. by destruct l.
Qed.

Lemma step_queue A live held k k' :
  kern_ok cpus idle qs hs A live held k -> kern_step cpus idle qs hs hr k k' ->
  abs_queue (k_mq k' q) = abs_queue (k_mq k q) \/ (exists o, queue_call cpus qs hr q k o k') \/
  exists c, k' = MsgQDestroy c q k.
Proof.
  intros K St. pose proof (fun o => call_simulates A live held k o k' K) as Hcall.
  assert (Hother : forall d op, (d = q -> exists o, queue_call cpus qs hr q k o k') -> simulates d op k k' ->
    abs_queue (k_mq k' q) = abs_queue (k_mq k q) \/ (exists o, queue_call cpus qs hr q k o k') \/ exists c, k' = MsgQDestroy c q k).
  { intros d op H1 (_ & _ & H2). destruct (decide (d = q)) as [E|Hne]; [right; left; auto|left]. apply H2. congruence. }
  destruct St as [k s Hs|k c d Hd E|k c d Hd E|k c a|k m x Hx|k c d m Hc Hd Hm|k c d m mq2 Hc Hni Hd Hm Hp|k c d Hc Hni Hd|k k' c d m Hc Hni Hd E|k intr c h nm ty key data t Hc Hh Hty Hnm Ht].
  - by left.
  - left. cbn. unfold upd. case_match; b2p; [subst; by rewrite E|done].
  - destruct (decide (d = q)) as [->|Hne]; [eauto|left]. unfold MsgQDestroy. case_match; cbn; [done|]. by rewrite upd_ne by congruence.
  - left. unfold MsgQResolveRoot. by repeat case_match.
  - by left.
  - destruct (decide (Z.land (Z.shiftr d 32) MSGQ_TYPE_IPC = 0)) as [Hi|Hi].
    2:{ left. unfold MsgSend. rewrite (proj2 (Z.eqb_neq _ _)) by done. cbn [negb]. unfold KernelIpc_send. repeat case_match; by simplify_eq. }
    destruct (decide (m = 0)) as [->|Hm0].
    { left. unfold MsgSend. rewrite Hi, Z.eqb_refl, orb_true_r. done. }
    destruct (decide (m_type (k_msg k m) < MSG_FIRST_SYS_TYPE)) as [Ht|Ht].
    + apply (Hother d (fifo_send m)); [|by apply (send_refines cpus idle qs hs Hcpus Hidle A live held)].
      intros ->. exists (FSend m). by constructor.
    + left. unfold MsgSend. rewrite Hi. cbn [negb Z.eqb]. case_match; [done|].
      change (m_type (k_msg (set_async false m k) m)) with (m_type (upd (k_msg k) m (mkMsg (m_type (k_msg k m)) false (m_pseudosync (k_msg k m)) (m_data0 (k_msg k m)) (m_data1 (k_msg k m)) (m_extra (k_msg k m))) m)).
      rewrite upd_eq. cbn [m_type]. by rewrite (proj2 (Z.leb_le _ _)) by lia.
  - destruct (decide (m_type (k_msg k m) < MSG_FIRST_SYS_TYPE)) as [Ht|Ht].
    + apply (Hother d (fifo_send m)); [|by apply sendrecv_refines]. intros ->. exists (FSend m). by constructor.
    + left. unfold MsgSendRecv. destruct (set_sync_msg m mq2 k) as (F1 & _ & _ & _ & F5 & _).
      set (k2 := if negb (mq2 =? 0) then _ else _) in *. rewrite F1, (proj2 (Z.leb_le _ _)) by lia. cbn. by rewrite F5.
  - apply (Hother d (fifo_wait (cur c k))); [|by apply wait_refines]. intros ->. exists (FWait (cur c k)). constructor.
  - destruct (LList.find fst m (responses (k_mq k d))) as [[m' tgt]|] eqn:Ef.
    2:{ left. unfold MsgRespond in E. rewrite Ef in E. by simplify_eq. }
    pose proof (find_split fst m _ _ Ef) as (l1 & l2 & Hl & He & Hp). cbn in Hp. subst m'.
    destruct tgt as [w|q2|h].
    3:{ left. unfold MsgRespond in E. rewrite Ef in E. case_match.
      - destruct (recvMessage _ _ _ _ _) as [[rc k1]| | |] eqn:Er; try done. cbn [res_bind] in E.
        apply recvMessage_mq in Er as [Er _]. assert (E2 : k_mq k' = k_mq k1) by (injection E as <-; by destruct (negb _)).
        rewrite E2, Er. apply abs_responses.
      - repeat case_match; by simplify_eq. }
    2:{ apply (Hother q2 (fifo_send m)); [|by eapply (respond_refines cpus idle qs hs hr Hcpus Hidle A live held)].
      intros ->. exists (FSend m). by econstructor. }
    left. unfold MsgRespond in E. rewrite Ef in E. repeat case_match; simplify_eq. apply abs_responses.
  - destruct (LList.find fst key (iv_pending (k_handler k h))) as [p|] eqn:Ef.
    + left. unfold sendMessage. set (kb := match t with Some _ => _ | None => k end).
      assert (Eb : k_mq kb = k_mq k /\ k_handler kb = k_handler k) by (subst kb; by case_match).
      destruct Eb as [E1 E2]. clearbody kb. rewrite E2, Ef, bool_decide_eq_true_2 by done. cbn [negb].
      rewrite <-E1. by repeat case_match; simplify_eq.
    + apply (Hother (iv_msgq (k_handler k h)) (fifo_send nm)); [|by apply kernel_refines].
      intros E. exists (FSend nm). by constructor.
Qed.

Lemma run_refines held k os got k' :
  (forall h ty key d r, fst (hr h ty key (Some d) r) <> CONTINUE_DEFER) ->
  kern_inv cpus idle qs hs held k -> queue_run k os got k' ->
  fifo_run os (abs_queue (k_mq k q)) = (abs_queue (k_mq k' q), got).
Proof.
  intros Hhr I R. revert I. induction R as [k|k k1 k' os got St E R IH|k k1 k' o os got St C R IH]; intros I; [done| |].
  - rewrite <-E. apply IH. by eapply kern_step_ok.
  - pose proof I as (A & live & K). pose proof (call_simulates A live held k o k1 K C) as S.
    cbn [fifo_run]. rewrite (received_abs k o k1 S). destruct S as (S & _). rewrite (surjective_pairing (fifo_do _ _)), <-S.
    rewrite IH; [done|]. by eapply kern_step_ok.
Qed.
End runs.

