(* ===== verification/MsgQReply.v ===== *)
(** * Synchronous messages: theorems

    A task that sends a message and waits for the response stays off the
    processors, with its message pending, until a server responds, which resumes
    it. *)

From S2P Require Import Prelude Containers Sched SchedSpec SchedSteps TaskMgr TaskMgrSpec TaskMgrInv TaskMgrSteps TaskMgrClaims MsgQ MsgQInv MsgQOps MsgQRecv MsgQClaims.

Section reply.
Context (cpus : list Z) (idle : Z -> Z) (qs hs : list Z) (hr : handler_fn).
Context (Hcpus : NoDup cpus) (Hidle : NoDup (idle <$> cpus)).
Notation kok A live held k := (kern_ok cpus idle qs hs A live held k).
Implicit Types (k : kern) (c t q m h : Z).

(** Task [t] waits for the response to [m], sent to queue [q]. *)
Definition pending q m t k : Prop :=
  (m, TTask t) ∈ entries (k_mq k q) /\ m_type (k_msg k m) < MSG_FIRST_SYS_TYPE /\
  m_async (k_msg k m) = true /\ m_pseudosync (k_msg k m) = false.

(** Nowhere in the scheduler: it cannot run. *)
Definition parked t k : Prop :=
  (forall c, c ∈ cpus -> cur c k <> t) /\ t ∉ ready cpus (tm_sched (k_tm k)) /\ t ∉ (sleeping cpus (tm_sched (k_tm k))).*2.

(** A response on processor [c] by its current task resumes [t]. *)
Record resumed c q m t k k' : Prop := {
  rs_cur : cur c k' = t;
  rs_rtn : t_rtn (tsk t k') = 0;
  rs_state : t_state (tsk t k') = TASK_STATE_RUNNING;
  rs_server : t_rtn (tsk (cur c k) k') = 0 /\ t_state (tsk (cur c k) k') = TASK_STATE_READY;
  rs_responses : responses (k_mq k q) ≡ₚ (m, TTask t) :: responses (k_mq k' q);
  rs_rest : messages (k_mq k' q) = messages (k_mq k q) /\ waiting (k_mq k' q) = waiting (k_mq k q)
}.

(** The entries of [q] other than [m']'s stay, and so does the kind of [m]. *)
Definition keeps q m t k k' : Prop :=
  ((m, TTask t) ∈ entries (k_mq k q) -> (m, TTask t) ∈ entries (k_mq k' q)) /\ same_kind (k_msg k' m) (k_msg k m).

Lemma keeps_pending q m t k k' : keeps q m t k k' -> pending q m t k -> pending q m t k'.
Proof. intros (H1 & E1 & E2 & E3) (P1 & P2 & P3 & P4). unfold pending. rewrite E1, E2, E3. auto. Qed.

Lemma keeps_same q m t k k' : k_mq k' = k_mq k -> k_msg k' = k_msg k -> keeps q m t k k'.
Proof. intros E1 E2. unfold keeps. by rewrite E1, E2. Qed.

(** One queue changes, all of whose entries stay. *)
Lemma keeps_upd q m t k k' d x :
  k_mq k' = upd (k_mq k) d x -> (forall p, p ∈ entries (k_mq k d) -> p.1 = m -> p ∈ entries x) ->
  same_kind (k_msg k' m) (k_msg k m) -> keeps q m t k k'.
Proof.
  intros E Hx Hs. split; [|done]. rewrite E. unfold upd. case_match; b2p; [subst|done]. intros Hp. by apply Hx.
Qed.

Lemma kind_upd k f m n x : m <> n -> f = upd (k_msg k) n x -> same_kind (f m) (k_msg k m).
Proof. intros Hn ->. by rewrite upd_ne. Qed.

Lemma keeps_send q m t k c d n : m <> n -> keeps q m t k (MsgSend c d n k).
Proof.
  intros Hn. unfold MsgSend. destruct (negb _).
  { unfold KernelIpc_send. repeat case_match; simplify_eq; by apply keeps_same. }
  destruct (_ || _); [by apply keeps_same|].
  assert (Ek : same_kind (k_msg (set_async false n k) m) (k_msg k m)) by (by apply set_async_other).
  destruct (_ <=? _); [by split|].
  destruct (tail_cases (waiting (k_mq (set_async false n k) d))) as [[Hw ->]|(w & ws & Hw & ->)];
    (eapply keeps_upd; [reflexivity| |exact Ek]); intros p Hp _; [|exact Hp].
  unfold entries in *. cbn. set_solver.
Qed.

Lemma keeps_sendrecv q m t k c d n mq2 : m <> n -> keeps q m t k (MsgSendRecv c d n mq2 k).
Proof.
  intros Hn. unfold MsgSendRecv. destruct (set_sync_msg n mq2 k) as (_ & _ & _ & _ & F5 & _ & F7).
  set (k2 := if negb (mq2 =? 0) then _ else _) in *.
  assert (Ek : same_kind (k_msg k2 m) (k_msg k m)) by (by rewrite F7).
  destruct (_ <=? _); [by split; [cbn; rewrite F5|]|].
  set (ps := m_pseudosync _). set (k3 := if negb ps then block_msg _ _ _ else _).
  assert (E3 : k_mq k3 = k_mq k /\ k_msg k3 = k_msg k2) by (subst k3; by case_match).
  destruct E3 as [E3 E4]. clearbody k3. rewrite E3.
  destruct (tail_cases (waiting (k_mq k d))) as [[Hw ->]|(w & ws & Hw & ->)].
  - destruct (negb ps); (eapply keeps_upd; [cbn; rewrite E3; reflexivity| |cbn; by rewrite E4]); intros p Hp _; unfold entries in *; cbn; set_solver.
  - destruct ps; (split; [|cbn; by rewrite E4]); cbn; rewrite E3; unfold upd; (case_match; [|done]); b2p; subst; rewrite Z.eqb_refl; unfold entries; cbn; set_solver.
Qed.

Lemma keeps_wait q m t k c d : m_async (k_msg k m) = true -> keeps q m t k (MsgWait c d k).
Proof.
  intros Ha. unfold MsgWait. destruct (tail_cases (messages (k_mq k d))) as [[Hm ->]|([n tgt] & l & Hm & ->)].
  - eapply keeps_upd; [reflexivity| |done]. intros p Hp _. unfold entries in *. cbn. done.
  - destruct (m_async (k_msg (set_messages d l k) n)) eqn:En.
    + split; [|done]. cbn. unfold upd. case_match; [|done]. b2p. subst. rewrite Z.eqb_refl. unfold entries. rewrite Hm. cbn. set_solver.
    + eapply keeps_upd; [reflexivity| |done]. intros p Hp Ep. unfold entries in *. rewrite Hm in Hp. cbn in *.
      rewrite !elem_of_app, list_elem_of_singleton in Hp. destruct Hp as [[Hp| ->]|Hp]; [set_solver| |set_solver].
      cbn in Ep. congruence.
Qed.

Lemma keeps_kernel q m t k intr c h nm ty key data d : m <> nm -> keeps q m t k (sendMessage intr c h nm ty key data d k).
Proof.
  intros Hn. unfold sendMessage. set (kb := match d with Some _ => _ | None => k end).
  assert (Eb : k_mq kb = k_mq k /\ k_msg kb = k_msg k) by (subst kb; by case_match).
  destruct Eb as [E1 E2]. clearbody kb. set (b := negb _). set (e := iv_msgq _).
  set (rk := if b then _ else (None, kb)). enough (H : keeps q m t k (snd rk)).
  { destruct rk as [r k2]. clear E1 E2. destruct d as [d|]; [destruct (d =? cur c k2)|]; destruct r as [w|]; [..|];
      try exact H; destruct intr; exact H. }
  subst rk. destruct b; [|by apply keeps_same]. set (km := set_msg nm _ kb).
  assert (Ek : same_kind (k_msg km m) (k_msg k m)) by (cbn; by rewrite upd_ne, E2).
  assert (E3 : k_mq km = k_mq k) by exact E1. clearbody km. rewrite E3.
  destruct (tail_cases (waiting (k_mq k e))) as [[Hw ->]|(w & ws & Hw & ->)].
  - eapply (keeps_upd _ _ _ _ _ e); [cbn; rewrite E3; reflexivity| |exact Ek]. intros p Hp _. unfold entries in *. cbn. set_solver.
  - split; [|exact Ek]. cbn. rewrite E3. unfold upd. case_match; [|done]. b2p. subst q. rewrite Z.eqb_refl. unfold entries. cbn. set_solver.
Qed.

(** A pending message is in one place. *)
Lemma bind_unique {B C} (f : B -> list C) l a b x :
  NoDup (l ≫= f) -> a ∈ l -> b ∈ l -> x ∈ f a -> x ∈ f b -> a = b.
Proof.
  induction l as [|y l IH]; intros Hn Ha Hb Hx Hx'; [by apply elem_of_nil in Ha|]. csimpl in Hn.
  apply NoDup_app in Hn as (_ & Hd & Hn). apply elem_of_cons in Ha as [->|Ha], Hb as [->|Hb]; [done| | |auto].
  - destruct (Hd x Hx). apply list_elem_of_bind. eauto.
  - destruct (Hd x Hx'). apply list_elem_of_bind. eauto.
Qed.

Lemma bind_NoDup {B C} (f : B -> list C) l a : NoDup (l ≫= f) -> a ∈ l -> NoDup (f a).
Proof.
  induction l as [|y l IH]; intros Hn Ha; [by apply elem_of_nil in Ha|]. csimpl in Hn.
  apply NoDup_app in Hn as (H1 & _ & Hn). apply elem_of_cons in Ha as [->|Ha]; auto.
Qed.

Lemma key_unique {B} (l : list (Z * B)) p p' : NoDup l.*1 -> p ∈ l -> p' ∈ l -> p.1 = p'.1 -> p = p'.
Proof.
  intros Hn (l' & Hl)%elem_of_Permutation Hp' E. rewrite Hl in Hp', Hn. cbn in Hn. apply NoDup_cons in Hn as [Hn _].
  apply elem_of_cons in Hp' as [->|Hp']; [done|]. destruct Hn. rewrite E. apply list_elem_of_fmap. eauto.
Qed.

Lemma entry_unique A live held k d d' p p' :
  kok A live held k -> d ∈ qs -> d' ∈ qs -> p ∈ entries (k_mq k d) -> p' ∈ entries (k_mq k d') -> p.1 = p'.1 -> d = d' /\ p = p'.
Proof.
  intros [M _] Hd Hd' Hp Hp' E. pose proof (mo_keys _ _ _ M) as Hn. unfold all_keys in Hn.
  assert (d = d') as <-.
  { eapply bind_unique; [exact Hn|done|done|by apply entry_key|]. rewrite E. by apply entry_key. }
  split; [done|]. eapply key_unique; [|exact Hp|exact Hp'|done]. by apply (bind_NoDup _ _ d) in Hn.
Qed.

Lemma pending_held q m t k : pending q m t k -> t ∈ qheld (k_msg k) (k_mq k q).
Proof.
  intros (Hp & _ & Ea & Ep). apply elem_of_app. right. apply list_elem_of_omap. exists (m, TTask t). split; [done|].
  unfold blocked. cbn. by rewrite Ea, Ep.
Qed.

Lemma pending_parked A live held k q m t : kok A live held k -> q ∈ qs -> pending q m t k -> parked t k.
Proof.
  intros K Hq Hp. apply pending_held in Hp. pose proof (queue_held cpus idle qs hs A live held k q t K Hq Hp) as (held' & T).
  split; [intros c; by apply (qheld_not_current cpus idle qs hs Hcpus Hidle A live held k q)|].
  pose proof (so_nodup cpus idle A (to_nodup _ _ _ _ _ _ _ T) _ _ _ (to_sched _ _ _ _ _ _ _ T)) as Hn.
  unfold all_tasks in Hn. apply NoDup_app in Hn as (_ & _ & Hn). apply NoDup_app in Hn as (_ & H1 & Hn).
  apply NoDup_app in Hn as (_ & H2 & _).
  assert (Ht : t ∈ joining live (k_tm k) ++ t :: held') by (apply elem_of_app; right; by left).
  split; [intros Hr; apply (H1 t Hr); apply elem_of_app; by right|intros Hs; by apply (H2 t Hs)].
Qed.

Lemma find_pending A live held k d q m n t p :
  kok A live held k -> d ∈ qs -> q ∈ qs -> pending q m t k -> LList.find fst n (responses (k_mq k d)) = Some p ->
  n = m -> d = q /\ p = (m, TTask t).
Proof.
  intros K Hd Hq (Hp & _) Ef ->. destruct (find_split fst m _ p Ef) as (l1 & l2 & Hl & _ & Ek).
  destruct (entry_unique A live held k d q p (m, TTask t) K Hd Hq) as [-> ->]; try done.
  apply elem_of_app. right. rewrite Hl. set_solver.
Qed.

Lemma addTask_state t s : t_state (s_task (addTask t s) t) = TASK_STATE_READY.
Proof. unfold addTask. repeat case_match; cbn; by rewrite upd_eq. Qed.

Lemma respond_resumes A live held k c q m t :
  kok A live held k -> c ∈ cpus -> q ∈ qs -> pending q m t k ->
  (m, TTask t) ∈ responses (k_mq k q) -> exists k', MsgRespond hr c q m k = Ok k' /\ resumed c q m t k k'.
Proof.
  intros K Hc Hq Hp Hr. pose proof Hp as (_ & Ht & _ & Eps).
  destruct (LList.find fst m (responses (k_mq k q))) as [p|] eqn:Ef.
  2:{ pose proof (LList.find_erase fst m (responses (k_mq k q))) as H. rewrite Ef in H. destruct H as [_ H].
    rewrite Forall_forall in H. by destruct (H _ Hr). }
  destruct (find_pending A live held k q q m m t p K Hq Hq Hp Ef eq_refl) as [_ ->].
  destruct (find_split fst m _ _ Ef) as (l1 & l2 & Hl & He & _).
  assert (Hne : cur c k <> t) by (apply (qheld_not_current cpus idle qs hs Hcpus Hidle A live held k q t c K Hq); [by apply (pending_held q m)|done]).
  unfold MsgRespond. rewrite Ef. cbv zeta. change (k_msg (set_responses _ _ k)) with (k_msg k).
  rewrite (proj2 (Z.leb_gt _ _)) by done. rewrite Eps. eexists. split; [reflexivity|]. set (u := cur c k) in *.
  split.
  - unfold cur. cbn. rewrite addTask_cur. cbn. by rewrite upd_eq.
  - rewrite rtn_addTask, rtn_ne by done. apply rtn_eq.
  - unfold tsk. cbn. rewrite addTask_task by done. cbn. rewrite upd_ne, upd_eq by done. cbn. by rewrite upd_eq.
  - split; [rewrite rtn_addTask; apply rtn_eq|]. apply addTask_state.
  - cbn. rewrite upd_eq. cbn [responses]. rewrite He, Hl. clear. solve_Permutation.
  - split; cbn; by rewrite upd_eq.
Qed.

Lemma respond_keeps A live held k k' c d q m n t :
  kok A live held k -> c ∈ cpus -> d ∈ qs -> q ∈ qs -> pending q m t k -> MsgRespond hr c d n k = Ok k' ->
  keeps q m t k k' \/ (d = q /\ n = m /\ resumed c q m t k k').
Proof.
  intros K Hc Hd Hq Hp E. destruct (LList.find fst n (responses (k_mq k d))) as [p|] eqn:Ef.
  2:{ unfold MsgRespond in E. rewrite Ef in E. injection E as <-. left. by apply keeps_same. }
  destruct (find_split fst n _ p Ef) as (l1 & l2 & Hl & He & Ek).
  destruct (decide (n = m)) as [->|Hn].
  { right. destruct (find_pending A live held k d q m m t p K Hd Hq Hp Ef eq_refl) as [-> ->].
    destruct (respond_resumes A live held k c q m t K Hc Hq Hp) as (k2 & E2 & R); [rewrite Hl; set_solver|]. rewrite E in E2. by injection E2 as ->. }
  left. assert (K1 : keeps q m t k (set_responses d (LList.erase fst n (responses (k_mq k d))) k)).
  { eapply keeps_upd; [reflexivity| |done]. intros p' Hp' Ep. unfold entries in *. cbn. rewrite He. rewrite Hl in Hp'.
    rewrite !elem_of_app, elem_of_cons in *. destruct Hp' as [?|[?|[->|?]]]; try tauto. congruence. }
  unfold MsgRespond in E. rewrite Ef in E. destruct p as [n' tgt]. set (k1 := set_responses _ _ k) in *. clearbody k1.
  enough (H : exists k2, keeps q m t k1 k2 /\ k_mq k' = k_mq k2 /\ k_msg k' = k_msg k2).
  { destruct H as (k2 & [H1 H2] & F1 & F2). destruct K1 as [G1 G2]. unfold keeps. rewrite F1, F2. split; [auto|].
    destruct H2 as (?&?&?), G2 as (?&?&?). unfold same_kind. split_and!; congruence. }
  destruct (_ <=? _).
  { destruct tgt as [w|q2|h]; try done. destruct (recvMessage hr c h n k1) as [[rc k2]| | |] eqn:Er; try done. cbn [res_bind] in E.
    apply recvMessage_mq in Er as [R1 R2]. exists k1. split; [by apply keeps_same|]. injection E as <-. by destruct (negb _). }
  destruct (m_pseudosync _).
  { destruct tgt as [w|q2|h]; try done. destruct (q2 =? 0); [done|]. injection E as <-. eexists. split; [|split; reflexivity].
    destruct (tail_cases (waiting (k_mq k1 q2))) as [[Hw ->]|(w & ws & Hw & ->)];
      (eapply keeps_upd; [reflexivity| |done]); intros p Hp' _; [|exact Hp']. unfold entries in *. cbn. set_solver. }
  destruct tgt as [w|q2|h]; try done. injection E as <-. exists k1. split; [by apply keeps_same|done].
Qed.

(** A step keeps the request pending or is the response. *)
Lemma step_pending A live held k k' q m t :
  kok A live held k -> q ∈ qs -> pending q m t k -> kern_step cpus idle qs hs hr k k' ->
  pending q m t k' \/ exists c, c ∈ cpus /\ MsgRespond hr c q m k = Ok k' /\ resumed c q m t k k'.
Proof.
  intros K Hq Hp St. pose proof Hp as (He & _ & Ha & _).
  assert (Hm : m ∈ all_keys qs k) by (eapply elem_keys; [exact Hq|]; by apply entry_key in He).
  assert (Hn : forall n, n ∉ all_keys qs k -> m <> n) by (intros n Hn ->; done).
  assert (Hk : keeps q m t k k' -> pending q m t k' \/ exists c, c ∈ cpus /\ MsgRespond hr c q m k = Ok k' /\ resumed c q m t k k').
  { intros Hk. left. by apply (keeps_pending q m t k). }
  destruct St as [k s Hs|k c d Hd E|k c d Hd E|k c a|k n x Hx|k c d n Hc Hd Hnk|k c d n mq2 Hc Hni Hd Hnk Hps|k c d Hc Hni Hd|k k' c d n Hc Hni Hd E|k intr c h nm ty key data d Hc Hh Hty Hnm Ht].
  - apply Hk. by apply keeps_same.
  - apply Hk. eapply keeps_upd; [reflexivity| |done]. intros p Hp'. rewrite E in Hp'. by apply elem_of_nil in Hp'.
  - apply Hk. unfold MsgQDestroy. destruct (d =? 0); [by apply keeps_same|].
    destruct (decide (d = q)) as [->|Hne].
    + pose proof (pending_held q m t k Hp) as Ht. rewrite E in Ht. by apply elem_of_nil in Ht.
    + split; [|done]. cbn. by rewrite upd_ne by congruence.
  - apply Hk. unfold MsgQResolveRoot. repeat case_match; by apply keeps_same.
  - apply Hk. split; [done|]. cbn. unfold upd. destruct (m =? n) eqn:E; [|done]. b2p. subst. auto.
  - apply Hk. by apply keeps_send, Hn.
  - apply Hk. by apply keeps_sendrecv, Hn.
  - apply Hk. by apply keeps_wait.
  - destruct (respond_keeps A live held k k' c d q m n t K Hc Hd Hq Hp E) as [H|(-> & -> & H)]; [auto|right; eauto].
  - apply Hk. by apply keeps_kernel, Hn.
Qed.

Lemma sendrecv_pending k c q m :
  m_type (k_msg k m) < MSG_FIRST_SYS_TYPE -> m_pseudosync (k_msg k m) = false ->
  pending q m (cur c k) (MsgSendRecv c q m 0 k).
Proof using Type.
  intros Ht Hp. unfold MsgSendRecv. set (t := cur c k). change (negb (0 =? 0)) with false. cbv iota zeta.
  set (k2 := set_async true m k).
  assert (F : k_msg k2 m = mkMsg (m_type (k_msg k m)) true false (m_data0 (k_msg k m)) (m_data1 (k_msg k m)) (m_extra (k_msg k m))).
  { cbn. by rewrite upd_eq, Hp. }
  assert (E3 : k_mq k2 = k_mq k) by done. clearbody k2. rewrite F. cbn [m_type m_pseudosync negb]. rewrite (proj2 (Z.leb_gt _ _)) by done.
  change (k_mq (block_msg t q k2)) with (k_mq k2). rewrite E3.
  destruct (tail_cases (waiting (k_mq k q))) as [[Hw ->]|(w & ws & Hw & ->)]; (split; [|cbn; by rewrite F]);
    unfold entries; cbn; rewrite ?upd_eq; cbn; [by left|apply elem_of_app; right; by left].
Qed.

Lemma run_pending held k k' q m t :
  (forall h ty key d r, fst (hr h ty key (Some d) r) <> CONTINUE_DEFER) ->
  kern_inv cpus idle qs hs held k -> q ∈ qs -> pending q m t k -> rtc (kern_step cpus idle qs hs hr) k k' ->
  (kern_inv cpus idle qs hs held k' /\ pending q m t k') \/
  exists ka kb c, rtc (kern_step cpus idle qs hs hr) k ka /\ pending q m t ka /\ c ∈ cpus /\
    MsgRespond hr c q m ka = Ok kb /\ resumed c q m t ka kb /\ rtc (kern_step cpus idle qs hs hr) kb k'.
Proof.
  intros Hhr I Hq Hp R. induction R as [k|k k1 k' St R IH]; [by left|].
  pose proof I as (A & live & K). destruct (step_pending A live held k k1 q m t K Hq Hp St) as [H|(c & Hc & E & H)].
  - destruct IH as [IH|(ka & kb & c & R1 & IH)]; [by eapply kern_step_ok|done|by left|].
    right. exists ka, kb, c. split; [|done]. by eapply rtc_l.
  - right. exists k, k1, c. split_and!; try done.
Qed.
End reply.


(** ** A run *)

(** One processor with the running task 1 and the ready task 2; one queue. *)
Definition sample_kern : kern :=
  mkKern sample_started (fun _ => mkMQ [] [] []) (fun _ => mkMsg 5 false false 0 0 0) (fun _ => mkHandler 0 [])
    0 0 (fun _ => 0) (fun _ => mkIpc 0 (mkMsg 5 false false 0 0 0)).

Lemma sample_cpus : NoDup [0].
Proof. apply (bool_decide_unpack _). vm_compute. exact I. Qed.

Lemma sample_idles : NoDup (sample_tm_idle <$> [0]).
Proof. apply (bool_decide_unpack _). vm_compute. exact I. Qed.

Lemma sample_kern_inv : kern_inv [0] sample_tm_idle [5000] [] [] sample_kern.
Proof.
  exists [2; 1], [2002; 2001; 3000]. split.
  - split; try (apply (bool_decide_unpack _); vm_compute; exact I); try (intros q p _ Hp; by apply elem_of_nil in Hp).
    + intros q _. by left.
    + intros h Hh. by apply elem_of_nil in Hh.
  - apply TaskStart_ok; [exact sample_cpus|exact sample_idles|exact sample_tm_ok|by left|set_solver| |set_solver].
    unfold is_idle_task. apply (bool_decide_unpack _). vm_compute. exact I.
Qed.

Lemma defer_free h ty key d r : fst (handleResponse h ty key (Some d) r) <> CONTINUE_DEFER.
Proof. done. Qed.

(** Task 1 sends message 600 and blocks, task 2 receives it and responds. *)
Definition sample_asked : kern := MsgSendRecv 0 5000 600 0 sample_kern.
Definition sample_served : kern := MsgWait 0 5000 sample_asked.
Definition sample_answered : kern :=
  match MsgRespond handleResponse 0 5000 600 sample_served with Ok k => k | _ => sample_kern end.
Notation sample_step := (kern_step [0] sample_tm_idle [5000] [] handleResponse).

Lemma sample_ask : sample_step sample_kern sample_asked.
Proof.
  apply kstep_sendrecv; [by left| |by left| |reflexivity].
  - unfold is_idle_task. apply (bool_decide_unpack _). vm_compute. exact I.
  - apply (bool_decide_unpack _). vm_compute. exact I.
Qed.

Lemma sample_serve : sample_step sample_asked sample_served.
Proof.
  apply kstep_wait; [by left| |by left]. unfold is_idle_task. apply (bool_decide_unpack _). vm_compute. exact I.
Qed.

Lemma sample_answer : sample_step sample_served sample_answered.
Proof.
  apply (kstep_respond _ _ _ _ _ _ _ 0 5000 600); [by left| |by left|reflexivity].
  unfold is_idle_task. apply (bool_decide_unpack _). vm_compute. exact I.
Qed.




(** A message once sent with a secondary queue keeps its flag: sent again
    without one, its response cannot be delivered. *)
Example stale_pseudosync :
  let k := MsgWait 0 5000 (MsgSendRecv 0 5000 600 7000 sample_kern) in
  match MsgRespond handleResponse 0 5000 600 k with
  | Ok k =>
      match MsgRespond handleResponse 0 5000 600 (MsgWait 0 5000 (MsgSendRecv 0 5000 600 0 k)) with
      | Wild => True
      | _ => False
      end
  | _ => False
  end.
Proof. vm_compute. exact I. Qed.
