(* ===== verification/Spte.v ===== *)
(** * Shadow page table entries and their permissions
      ([src/include/kernel/spte.H], [Block::setPermSPTE], [Block::getPermission])

    The entry is one 32-bit word of bit fields; each field is a component of the
    record, [page] and [last_access] with the width of the field. *)

From S2P Require Import Prelude PageMgr PtMgr.

Definition WRITE_TRACKED : Z := 0x8.
Definition ALLOCATE_FROM_ZERO : Z := 0x10.
Definition EINVAL : Z := 22.

Record ShadowPTE : Type := mkSpte {
  page : Z;
  present : bool;
  readable : bool;
  writable : bool;
  executable : bool;
  track_write : bool;
  dirty : bool;
  allocate_from_zero : bool;
  last_access : Z
}.

Definition spte0 : ShadowPTE := mkSpte 0 false false false false false false false 0.

Section spte.
Implicit Types (p : ShadowPTE) (b : bool).

Definition getPageAddr p : Z := u32 (Z.shiftl (page p) 12).
Definition getPage p : Z := page p.
(** The argument is a [uint32_t], the field has 20 bits. *)
Definition setPageAddr (i_page : Z) p : ShadowPTE :=
  mkSpte (wrap 20 (Z.shiftr (u32 i_page) 12)) (present p) (readable p) (writable p) (executable p)
    (track_write p) (dirty p) (allocate_from_zero p) (last_access p).
Definition setPresent b p : ShadowPTE :=
  mkSpte (page p) b (readable p) (writable p) (executable p) (track_write p) (dirty p) (allocate_from_zero p) (last_access p).
Definition setReadable b p : ShadowPTE :=
  mkSpte (page p) (present p) b (writable p) (executable p) (track_write p) (dirty p) (allocate_from_zero p) (last_access p).
Definition setWritable b p : ShadowPTE :=
  mkSpte (page p) (present p) (readable p) b (executable p) (track_write p) (dirty p) (allocate_from_zero p) (last_access p).
Definition setExecutable b p : ShadowPTE :=
  mkSpte (page p) (present p) (readable p) (writable p) b (track_write p) (dirty p) (allocate_from_zero p) (last_access p).
Definition setWriteTracked b p : ShadowPTE :=
  mkSpte (page p) (present p) (readable p) (writable p) (executable p) b (dirty p) (allocate_from_zero p) (last_access p).
Definition setDirty b p : ShadowPTE :=
  mkSpte (page p) (present p) (readable p) (writable p) (executable p) (track_write p) b (allocate_from_zero p) (last_access p).
Definition setAllocateFromZero b p : ShadowPTE :=
  mkSpte (page p) (present p) (readable p) (writable p) (executable p) (track_write p) (dirty p) b (last_access p).
Definition setLRU (n : Z) p : ShadowPTE :=
  mkSpte (page p) (present p) (readable p) (writable p) (executable p) (track_write p) (dirty p) (allocate_from_zero p) n.
Definition incLRU p : ShadowPTE := if last_access p <? 7 then setLRU (wrap 3 (last_access p + 1)) p else p.
Definition decLRU p : ShadowPTE := if 0 <? last_access p then setLRU (last_access p - 1) p else p.
Definition zeroLRU p : ShadowPTE := setLRU 0 p.

Definition getPermission p : Z :=
  if negb (readable p) && negb (executable p) && negb (writable p) && negb (allocate_from_zero p) && negb (track_write p)
  then NO_ACCESS
  else if readable p && negb (executable p) && negb (writable p) then READ_ONLY
  else
    let l_accessType := 0 in
    let l_accessType := if writable p then Z.lor l_accessType WRITABLE else l_accessType in
    let l_accessType := if executable p then Z.lor l_accessType EXECUTABLE else l_accessType in
    let l_accessType := if track_write p then Z.lor l_accessType WRITE_TRACKED else l_accessType in
    if allocate_from_zero p then Z.lor l_accessType ALLOCATE_FROM_ZERO else l_accessType.

(** [Block::setPermSPTE]: the return code and the entry, which a failing call
    can have changed; [tracks] says that the block has a write handler. *)
Definition setPermSPTE (tracks : bool) (p : ShadowPTE) (i_access_type : Z) : Z * ShadowPTE :=
  let acc := has i_access_type in
  if acc READ_ONLY && (acc WRITABLE || acc EXECUTABLE || acc WRITE_TRACKED || acc ALLOCATE_FROM_ZERO) then (- EINVAL, p)
  else if negb (acc READ_ONLY) && acc WRITABLE && acc EXECUTABLE then (- EINVAL, p)
  else
    let p :=
      if acc READ_ONLY then setWritable false (setExecutable false (setReadable true p))
      else if acc WRITABLE then setExecutable false (setWritable true (setReadable true p))
      else if acc EXECUTABLE then setWritable false (setExecutable true (setReadable true p))
      else p in
    let '(rc, p) :=
      if acc WRITE_TRACKED then
        if getPermission p =? READ_ONLY then (- EINVAL, p)
        else if negb tracks then (- EINVAL, p)
        else (0, setWriteTracked true p)
      else (0, setWriteTracked false p) in
    if negb (rc =? 0) then (rc, p)
    else
      let '(rc, p) :=
        if acc ALLOCATE_FROM_ZERO then
          if getPermission p =? READ_ONLY then (- EINVAL, p) else (0, setAllocateFromZero true p)
        else (0, setAllocateFromZero false p) in
      if negb (rc =? 0) then (rc, p)
      else if acc NO_ACCESS then
        (0, setWriteTracked false (setAllocateFromZero false (setWritable false (setExecutable false (setReadable false p)))))
      else (0, p).
End spte.

(** The access a block asks the page table for. *)
Definition access_of (bypass : bool) (p : ShadowPTE) : Z :=
  let l_access := if bypass then BYPASS_HRMOR else 0 in
  if executable p then Z.lor l_access EXECUTABLE
  else if writable p && dirty p then Z.lor l_access WRITABLE
  else Z.lor l_access READ_ONLY.
