(* ===== verification/Vmm.v ===== *)
(** * Virtual memory: blocks and the base segment
      ([src/kernel/block.C], [blockmsghdlr.C], [basesegment.C])

    A block is named by its address, its shadow entries are a function from
    their index.  The base segment's blocks are the list along [iv_nextBlock].
    The page table and the page manager are used through interfaces; a change of
    the page table that reports the use of a page calls back
    [SegmentManager::updateRefCount].  The contents of pages are not modelled. *)

From S2P Require Import Prelude Containers PageMgr PtMgr Sched TaskMgr MsgQ Spte.

(** ** Interfaces *)

(** The page table: the new table and the uses it reports (address, referenced). *)
Class PageTable (T : Type) : Type := {
  pt_addEntry : Z -> Z -> Z -> T -> outcome (T * list (Z * bool));
  pt_delEntry : Z -> T -> outcome (T * list (Z * bool));
  pt_delRangePN : Z -> Z -> bool -> T -> outcome (T * list (Z * bool));
  pt_flush : T -> outcome (T * list (Z * bool))
}.

(** [PageManager::allocatePage(1, false, true)], [freePage] and [addMemory]. *)
Class Frames (S : Type) : Type := {
  fr_alloc : S -> option Z * S;
  fr_free : Z -> S -> outcome S;
  fr_add : Z -> Z -> S -> outcome S
}.

Definition EALREADY : Z := 114.
Definition MSG_MM_RP_READ : Z := 2147483649.
Definition MSG_MM_RP_WRITE : Z := 2147483650.
Definition VMM_MEMORY_SIZE : Z := 64 * 1024 * 1024.
Definition RELEASE : Z := 0.
Definition FLUSH : Z := 1.
Definition EVICT : Z := 2.
Definition CRITICAL : Z := 1.
Definition BASE_SEGMENT_ID : Z := 0.

Record Block : Type := mkBlock {
  iv_baseAddr : Z;
  iv_size : Z;
  iv_ptes : Z -> ShadowPTE;
  iv_readMsgHdlr : option Z;
  iv_writeMsgHdlr : option Z;
  iv_mappedToPhysical : bool;
  iv_msgGrpList : list (Z * Z);
  iv_va2paList : list (Z * Z)
}.

(** A device window of [DeviceSegment]. *)
Record devSegData : Type := mkDev {
  dv_addr : Z;
  dv_no_ci : bool;
  dv_guarded : bool;
  dv_size : Z
}.

Record Vmm (T F : Type) : Type := mkVmm {
  v_block : Z -> Block;
  v_chain : list Z;
  v_stacks : list (Z * Z);
  v_devs : Z -> option (list devSegData);
  iv_physMemSize : Z;
  cv_ro_evict_req : Z;
  cv_rw_evict_req : Z;
  v_pt : T;
  v_frames : F;
  v_kern : kern
}.
Arguments mkVmm {T F}.
Arguments v_block {T F}.
Arguments v_chain {T F}.
Arguments v_stacks {T F}.
Arguments v_devs {T F}.
Arguments iv_physMemSize {T F}.
Arguments cv_ro_evict_req {T F}.
Arguments cv_rw_evict_req {T F}.
Arguments v_pt {T F}.
Arguments v_frames {T F}.
Arguments v_kern {T F}.

Section vmm.
Context {T F : Type} `{PageTable T} `{Frames F}.
Implicit Types (v : Vmm T F) (b c a : Z).

Definition with_block b (x : Block) v : Vmm T F :=
  mkVmm (upd (v_block v) b x) (v_chain v) (v_stacks v) (v_devs v) (iv_physMemSize v) (cv_ro_evict_req v) (cv_rw_evict_req v)
    (v_pt v) (v_frames v) (v_kern v).
Definition with_chain (l : list Z) v : Vmm T F :=
  mkVmm (v_block v) l (v_stacks v) (v_devs v) (iv_physMemSize v) (cv_ro_evict_req v) (cv_rw_evict_req v) (v_pt v) (v_frames v) (v_kern v).
Definition with_stacks (l : list (Z * Z)) v : Vmm T F :=
  mkVmm (v_block v) (v_chain v) l (v_devs v) (iv_physMemSize v) (cv_ro_evict_req v) (cv_rw_evict_req v) (v_pt v) (v_frames v) (v_kern v).
Definition with_devs (d : Z -> option (list devSegData)) v : Vmm T F :=
  mkVmm (v_block v) (v_chain v) (v_stacks v) d (iv_physMemSize v) (cv_ro_evict_req v) (cv_rw_evict_req v) (v_pt v) (v_frames v) (v_kern v).
Definition with_physMemSize (n : Z) v : Vmm T F :=
  mkVmm (v_block v) (v_chain v) (v_stacks v) (v_devs v) n (cv_ro_evict_req v) (cv_rw_evict_req v) (v_pt v) (v_frames v) (v_kern v).
Definition with_evicts (ro rw : Z) v : Vmm T F :=
  mkVmm (v_block v) (v_chain v) (v_stacks v) (v_devs v) (iv_physMemSize v) ro rw (v_pt v) (v_frames v) (v_kern v).
Definition with_pt (t : T) v : Vmm T F :=
  mkVmm (v_block v) (v_chain v) (v_stacks v) (v_devs v) (iv_physMemSize v) (cv_ro_evict_req v) (cv_rw_evict_req v) t (v_frames v) (v_kern v).
Definition with_frames (s : F) v : Vmm T F :=
  mkVmm (v_block v) (v_chain v) (v_stacks v) (v_devs v) (iv_physMemSize v) (cv_ro_evict_req v) (cv_rw_evict_req v) (v_pt v) s (v_kern v).
Definition with_kern (k : kern) v : Vmm T F :=
  mkVmm (v_block v) (v_chain v) (v_stacks v) (v_devs v) (iv_physMemSize v) (cv_ro_evict_req v) (cv_rw_evict_req v) (v_pt v) (v_frames v) k.

(** ** Blocks *)

(** [ALIGN_PAGE] of a 64-bit value. *)
Definition align_page (u : Z) : Z := u64 (ALIGN_PAGE u).

Definition isContained (x : Block) a : bool := (iv_baseAddr x <=? a) && (a <? u64 (iv_baseAddr x + iv_size x)).

(** The block that owns an address: every operation on the chain calls down
    until one contains it. *)
Fixpoint chain_find v (chain : list Z) a : option Z :=
  match chain with
  | [] => None
  | b :: l => if isContained (v_block v b) a then Some b else chain_find v l a
  end.

(** [getPTE]; an index outside the array is a bad access. *)
Definition pte_index (x : Block) a : Z := u64 (a - iv_baseAddr x) / PAGESIZE.
Definition getPTE b a v : outcome ShadowPTE :=
  let x := v_block v b in
  if pte_index x a <? iv_size x / PAGESIZE then Done (iv_ptes x (pte_index x a)) else Crash BadAccess.
Definition set_ptes (f : Z -> ShadowPTE) (x : Block) : Block :=
  mkBlock (iv_baseAddr x) (iv_size x) f (iv_readMsgHdlr x) (iv_writeMsgHdlr x) (iv_mappedToPhysical x) (iv_msgGrpList x) (iv_va2paList x).
Definition modPTE b a (f : ShadowPTE -> ShadowPTE) v : outcome (Vmm T F) :=
  do p <- getPTE b a v;
  let x := v_block v b in
  Done (with_block b (set_ptes (upd (iv_ptes x) (pte_index x a) (f p)) x) v).

(** The constructor and [init]; [rh], [wh] are the addresses of the handlers. *)
Definition new_block (i_baseAddr i_size : Z) (i_msgQ : option Z) (i_mappedToPhy : bool) (b rh wh : Z) v : Vmm T F :=
  let x := mkBlock i_baseAddr i_size (fun _ => spte0) None None i_mappedToPhy [] [] in
  match i_msgQ with
  | None => with_block b x v
  | Some q =>
      let x := mkBlock i_baseAddr i_size (fun _ => spte0) (Some rh) (Some wh) i_mappedToPhy [] [] in
      let k := set_handler wh (mkHandler q []) (set_handler rh (mkHandler q []) (v_kern v)) in
      with_kern k (with_block b x v)
  end.

Definition Block_updateRefCount (chain : list Z) a (R : bool) v : outcome (Vmm T F) :=
  match chain_find v chain a with
  | None => Crash KAssert
  | Some b => modPTE b a (if R then zeroLRU else incLRU) v
  end.

(** [SegmentManager::updateRefCount]: only the base segment overrides it. *)
Definition updateRefCount a (R : bool) v : outcome (Vmm T F) :=
  if Z.shiftr a SLBE_s =? BASE_SEGMENT_ID then Block_updateRefCount (v_chain v) a R v else Done v.

Fixpoint report_uses (l : list (Z * bool)) v : outcome (Vmm T F) :=
  match l with
  | [] => Done v
  | (a, R) :: l => do v <- updateRefCount a R v; report_uses l v
  end.

Definition on_pt (f : T -> outcome (T * list (Z * bool))) v : outcome (Vmm T F) :=
  do (t, l) <- f (v_pt v); report_uses l (with_pt t v).
Definition delEntry a v : outcome (Vmm T F) := on_pt (pt_delEntry a) v.
Definition addEntry a (i_page i_access : Z) v : outcome (Vmm T F) := on_pt (pt_addEntry a i_page i_access) v.

(** ** Permissions *)

Fixpoint perm_loop (n : nat) b cur fin (acc : Z) v : outcome (Z * Vmm T F) :=
  match n with
  | O => Done (0, v)
  | S n =>
      if cur <? fin then
        do p <- getPTE b cur v;
        do v <- (if present p then delEntry cur v else Done v);
        do p <- getPTE b cur v;
        let '(rc, p) := setPermSPTE (bool_decide (is_Some (iv_writeMsgHdlr (v_block v b)))) p acc in
        do v <- modPTE b cur (fun _ => p) v;
        if negb (rc =? 0) then Done (- EINVAL, v) else perm_loop n b (u64 (cur + PAGESIZE)) fin acc v
      else Done (0, v)
  end.

Definition Block_mmSetPermission (chain : list Z) (i_va i_size acc : Z) v : outcome (Z * Vmm T F) :=
  let l_aligned_va := ALIGN_PAGE_DOWN i_va in
  let l_aligned_size := align_page i_size in
  match chain_find v chain l_aligned_va with
  | None => Done (- EINVAL, v)
  | Some b =>
      let l_aligned_size := if i_size =? 0 then u64 (l_aligned_size + PAGESIZE) else l_aligned_size in
      perm_loop (Z.to_nat (l_aligned_size / PAGESIZE)) b l_aligned_va (u64 (l_aligned_va + l_aligned_size)) acc v
  end.
Definition Base_mmSetPermission (i_va i_size acc : Z) v : outcome (Z * Vmm T F) :=
  Block_mmSetPermission (v_chain v) i_va i_size acc v.

(** ** Pages *)

Definition map_page b a v : outcome (Vmm T F) :=
  do p <- getPTE b a v; addEntry (a / PAGESIZE * PAGESIZE) (getPage p) (access_of (iv_mappedToPhysical (v_block v b)) p) v.

Definition releaseSPTE b a v : outcome (Vmm T F) :=
  do v <- modPTE b a (fun p => setPresent false (setDirty false p)) v;
  do p <- getPTE b a v;
  do (rc, v) <- Base_mmSetPermission (getPageAddr p) 0 WRITABLE v;
  modPTE b a (setPageAddr 0) v.

(** [handlePageFault]: whether the fault is handled, whether memory ran out.
    [c] is the processor, [nm] the address of a new message. *)
Definition Block_handlePageFault c nm (chain : list Z) (i_task a : Z) (i_store : bool) v : outcome (bool * bool * Vmm T F) :=
  match chain_find v chain a with
  | None => Done (false, false, v)
  | Some b =>
      let l_addr_palign := a / PAGESIZE * PAGESIZE in
      do p <- getPTE b l_addr_palign v;
      if getPermission p =? NO_ACCESS then Done (false, false, v)
      else if i_store && negb (writable p) then Done (false, false, v)
      else
        do v <- (if i_store then modPTE b l_addr_palign (setDirty true) v else Done v);
        if negb (present p) then
          match iv_readMsgHdlr (v_block v b) with
          | Some h =>
              let '(l_page, v) := if getPage p =? 0 then (let '(q, s) := fr_alloc (v_frames v) in (q, with_frames s v))
                                  else (Some (getPageAddr p), v) in
              match l_page with
              | None => Done (false, true, v)
              | Some l_page =>
                  do v <- (if getPage p =? 0 then modPTE b l_addr_palign (setPageAddr l_page) v else Done v);
                  Done (true, false, with_kern (sendMessage false c h nm MSG_MM_RP_READ l_addr_palign l_page (Some i_task) (v_kern v)) v)
              end
          | None =>
              if allocate_from_zero p then
                let '(l_page, v) := (let '(q, s) := fr_alloc (v_frames v) in (q, with_frames s v)) in
                match l_page with
                | None => Done (false, true, v)
                | Some l_page =>
                    do (rc, v) <- Base_mmSetPermission l_page 0 READ_ONLY v;
                    do v <- modPTE b l_addr_palign (fun p => setPresent true (setPageAddr l_page p)) v;
                    do v <- map_page b l_addr_palign v;
                    Done (true, false, v)
                end
              else Done (false, false, v)
          end
        else
          do v <- map_page b l_addr_palign v; Done (true, false, v)
  end.

Definition setPhysicalPage (chain : list Z) (i_vAddr i_pAddr i_access : Z) v : outcome (Vmm T F) :=
  match chain_find v chain i_vAddr with
  | None => Crash KAssert
  | Some b =>
      do p <- getPTE b i_vAddr v;
      do v <- (if negb (i_pAddr =? 0) then
                 do v <- modPTE b i_vAddr (fun p => setPresent true (setPageAddr i_pAddr p)) v; delEntry i_vAddr v
               else if present p then delEntry i_vAddr v else Done v);
      do p <- getPTE b i_vAddr v;
      let '(rc, p) := setPermSPTE (bool_decide (is_Some (iv_writeMsgHdlr (v_block v b)))) p i_access in
      do v <- modPTE b i_vAddr (fun _ => p) v;
      if negb (rc =? 0) then Crash KAssert else Done v
  end.

Definition attachSPTE b a v : outcome (Vmm T F) :=
  do v <- modPTE b a (setPresent true) v;
  do v <- map_page b a v;
  do p <- getPTE b a v;
  do (rc, v) <- Base_mmSetPermission (getPageAddr p) 0 READ_ONLY v;
  Done v.

Definition Block_findPhysicalAddress (hrmor : Z) (chain : list Z) a v : outcome Z :=
  match chain_find v chain a with
  | None => Done (u64 (- EFAULT))
  | Some b =>
      do p <- getPTE b a v;
      if present p && negb (getPage p =? 0) then
        let paddr := getPageAddr p + a mod PAGESIZE in
        Done (if negb (iv_mappedToPhysical (v_block v b)) then Z.lor paddr hrmor else paddr)
      else Done (u64 (- EFAULT))
  end.

Fixpoint release_loop (n : nat) b page v : outcome (Vmm T F) :=
  match n with
  | O => Done v
  | S n =>
      do p <- getPTE b page v;
      do v <- (if present p then
                 do v <- delEntry page v;
                 let addr := getPageAddr p in
                 if negb (addr =? 0) then
                   do v <- releaseSPTE b page v; do s <- fr_free addr (v_frames v); Done (with_frames s v)
                 else Done v
               else Done v);
      release_loop n b (page + PAGESIZE) v
  end.
Definition releaseAllPages b v : outcome (Vmm T F) :=
  let x := v_block v b in release_loop (Z.to_nat (iv_size x / PAGESIZE)) b (iv_baseAddr x) v.

(** ** Removing pages *)

Definition on_block b (f : Block -> Block) v : Vmm T F := with_block b (f (v_block v b)) v.

(** [BlockWriteMsgHdlr::incMsgCount] and [addVirtAddr]. *)
Definition set_groups (l : list (Z * Z)) (x : Block) : Block :=
  mkBlock (iv_baseAddr x) (iv_size x) (iv_ptes x) (iv_readMsgHdlr x) (iv_writeMsgHdlr x) (iv_mappedToPhysical x) l (iv_va2paList x).
Definition set_va2pa (l : list (Z * Z)) (x : Block) : Block :=
  mkBlock (iv_baseAddr x) (iv_size x) (iv_ptes x) (iv_readMsgHdlr x) (iv_writeMsgHdlr x) (iv_mappedToPhysical x) (iv_msgGrpList x) l.

(** A count in the list is changed where it is. *)
Fixpoint set_count (t n : Z) (l : list (Z * Z)) : list (Z * Z) :=
  match l with
  | [] => []
  | (t', n') :: l => if t' =? t then (t, n) :: l else (t', n') :: set_count t n l
  end.
Definition incMsgCount (i_task : Z) (x : Block) : Block :=
  match LList.find fst i_task (iv_msgGrpList x) with
  | None => set_groups (LList.insert (i_task, 1) (iv_msgGrpList x)) x
  | Some (_, n) => set_groups (set_count i_task (u64 (n + 1)) (iv_msgGrpList x)) x
  end.
Definition addVirtAddr (i_vaddr i_pgAddr : Z) (x : Block) : Block := set_va2pa (LList.insert (i_vaddr, i_pgAddr) (iv_va2paList x)) x.

(** [nm a] is the address of the new message for the page at [a]. *)
Definition remove_page c (nm : Z -> Z) (i_op : Z) b a (i_task : option Z) v : outcome (Vmm T F) :=
  do p <- getPTE b a v;
  let pageAddr := getPageAddr p in
  if present p && negb (0 =? pageAddr) then
    do v <- delEntry a v;
    match iv_writeMsgHdlr (v_block v b), dirty p && track_write p with
    | Some h, true =>
        do v <- releaseSPTE b a v;
        let v := match i_task with Some t => on_block b (incMsgCount t) v | None => v end in
        let v := on_block b (addVirtAddr a pageAddr) v in
        Done (with_kern (sendMessage false c h (nm a) MSG_MM_RP_WRITE a pageAddr i_task (v_kern v)) v)
    | _, _ =>
        if dirty p && negb (track_write p) && (i_op =? EVICT) then Done v
        else if negb (i_op =? FLUSH) then
          do v <- releaseSPTE b a v; do s <- fr_free pageAddr (v_frames v); Done (with_frames s v)
        else Done v
    end
  else Done v.

Fixpoint remove_loop (n : nat) c (nm : Z -> Z) (i_op : Z) b a (i_task : option Z) v : outcome (Vmm T F) :=
  match n with
  | O => Done v
  | S n => do v <- remove_page c nm i_op b a i_task v; remove_loop n c nm i_op b (a + PAGESIZE) i_task v
  end.

Definition removePages c (nm : Z -> Z) (chain : list Z) (i_op i_vaddr i_size : Z) (i_task : option Z) v : outcome (Z * Vmm T F) :=
  let l_aligned_va := ALIGN_PAGE_DOWN i_vaddr in
  let l_aligned_size := align_page (u64 (i_size + i_vaddr mod PAGESIZE)) in
  match chain_find v chain l_aligned_va with
  | None => Done (- EINVAL, v)
  | Some b =>
      let x := v_block v b in
      if u64 (iv_baseAddr x + iv_size x) <? u64 (l_aligned_va + l_aligned_size) then Done (- EINVAL, v)
      else
        do v <- remove_loop (Z.to_nat ((u64 (l_aligned_va + l_aligned_size) - l_aligned_va) / PAGESIZE)) c nm i_op b l_aligned_va i_task v;
        Done (0, v)
  end.

(** [castOutPages] of one block, then of the chain, the last block first;
    [cache] is the size of the cache. *)
Fixpoint cast_loop (n : nat) c (nm : Z -> Z) (rw_constraint ro_constraint : Z) (chain : list Z) b page v : outcome (Vmm T F) :=
  match n with
  | O => Done v
  | S n =>
      do p <- getPTE b page v;
      do v <- (if present p && negb (0 =? getPageAddr p) then
                 if writable p then
                   if (rw_constraint <? last_access p) && track_write p then
                     do (rc, v) <- removePages c nm chain EVICT page PAGESIZE None v;
                     Done (with_evicts (cv_ro_evict_req v) (u32 (cv_rw_evict_req v + 1)) v)
                   else Done v
                 else if ro_constraint <? last_access p then
                   do (rc, v) <- removePages c nm chain EVICT page PAGESIZE None v;
                   Done (with_evicts (u32 (cv_ro_evict_req v + 1)) (cv_rw_evict_req v) v)
                 else Done v
               else Done v);
      cast_loop n c nm rw_constraint ro_constraint chain b (page + PAGESIZE) v
  end.

Fixpoint castOutPages c (nm : Z -> Z) (cache i_type : Z) (chain : list Z) v : outcome (Vmm T F) :=
  match chain with
  | [] => Done v
  | b :: l =>
      do v <- castOutPages c nm cache i_type l v;
      let x := v_block v b in
      if negb (iv_baseAddr x =? 0) && negb (iv_baseAddr x =? cache) then
        let '(rw, ro) := if i_type =? CRITICAL then (2, 1) else (5, 6) in
        cast_loop (Z.to_nat (iv_size x / PAGESIZE)) c nm rw ro chain b (iv_baseAddr x) v
      else Done v
  end.

(** ** Responses to the blocks' messages *)

Definition BlockReadMsgHdlr_handleResponse b (i_key i_rc : Z) v : outcome (HandleResult * Vmm T F) :=
  if negb (i_rc =? 0) then Done (UNHANDLED_RC, v)
  else do v <- attachSPTE b i_key v; Done (SUCCESS, v).

Definition BlockWriteMsgHdlr_handleResponse b (i_key : Z) (i_task : option Z) (i_rc : Z) v : outcome (HandleResult * Vmm T F) :=
  if negb (i_rc =? 0) then Done (UNHANDLED_RC, v)
  else
    do (l_result, v) <-
      (match LList.find fst i_key (iv_va2paList (v_block v b)) with
       | Some (_, pageAddr) =>
           do s <- fr_free pageAddr (v_frames v);
           let v := with_frames s v in
           Done (SUCCESS, on_block b (fun x => set_va2pa (LList.erase fst i_key (iv_va2paList x)) x) v)
       | None => Done (UNHANDLED_RC, v)
       end);
    match i_task with
    | None => Done (l_result, v)
    | Some t =>
        match LList.find fst t (iv_msgGrpList (v_block v b)) with
        | None => Done (l_result, v)
        | Some (_, n) =>
            if n =? 1 then Done (SUCCESS, on_block b (fun x => set_groups (LList.erase fst t (iv_msgGrpList x)) x) v)
            else Done (CONTINUE_DEFER, on_block b (fun x => set_groups (set_count t (u64 (n - 1)) (iv_msgGrpList x)) x) v)
        end
    end.

(** ** The base segment *)

Definition totalBlocksAlloc (chain : list Z) v : Z := foldl (fun n b => u64 (n + iv_size (v_block v b))) 0 chain.

Definition mmAllocBlock (i_mq : option Z) (i_va i_size : Z) (i_mappedToPhy : bool) (b rh wh : Z) v : Z * Vmm T F :=
  if (2 ^ SLBE_s <=? i_va) || (2 ^ SLBE_s <=? u64 (totalBlocksAlloc (v_chain v) v + align_page i_size)) ||
     negb (i_va =? ALIGN_PAGE_DOWN i_va) then (- EINVAL, v)
  else if bool_decide (is_Some (chain_find v (v_chain v) i_va)) then (- EALREADY, v)
  else (0, let v := new_block i_va (align_page i_size) i_mq i_mappedToPhy b rh wh v in with_chain (v_chain v ++ [b]) v).

(** Identity mappings with write access for the pages of a range. *)
Fixpoint map_loop (n : nat) a fin v : outcome (Vmm T F) :=
  match n with
  | O => Done v
  | S n => if a <? fin then do v <- setPhysicalPage (v_chain v) a a WRITABLE v; map_loop n (a + PAGESIZE) fin v else Done v
  end.

Definition mmLinearMap (i_paddr i_size : Z) (b rh wh : Z) v : outcome (Z * Vmm T F) :=
  let '(rc, v) := mmAllocBlock None i_paddr i_size true b rh wh v in
  if negb (rc =? 0) then Done (rc, v)
  else do v <- map_loop (Z.to_nat (i_size / PAGESIZE + 1)) i_paddr (u64 (i_paddr + i_size)) v; Done (0, v).

Definition mmExtend (cache : Z) (b rh wh : Z) v : outcome (Z * Vmm T F) :=
  let l_size := VMM_MEMORY_SIZE - cache in
  let '(rc, v) := mmAllocBlock None cache l_size false b rh wh v in
  if negb (rc =? 0) then Done (rc, v)
  else
    do v <- map_loop (Z.to_nat (l_size / PAGESIZE)) cache (cache + l_size) v;
    let spte_pages := ALIGN_PAGE (ALIGN_PAGE l_size / PAGESIZE * 4) / PAGESIZE in
    do s <- fr_add (cache + spte_pages * PAGESIZE) (l_size / PAGESIZE - spte_pages) (v_frames v);
    Done (0, with_physMemSize (iv_physMemSize v + l_size) (with_frames s v)).

Definition mmRemovePages c (nm : Z -> Z) (i_op i_vaddr i_size : Z) (i_task : option Z) v : outcome (Z * Vmm T F) :=
  match tail (v_chain v) with
  | [] => Done (- EINVAL, v)
  | l => removePages c nm l i_op i_vaddr i_size i_task v
  end.

Definition Base_findPhysicalAddress (hrmor a : Z) v : outcome Z :=
  if a <? iv_physMemSize v then
    Done (if PAGESIZE <=? a then Z.lor a hrmor else u64 (- EFAULT))
  else Block_findPhysicalAddress hrmor (v_chain v) a v.

(** [BaseSegment::_init]; [text] is the address the kernel's data begins at. *)
Fixpoint init_loop (n : nat) i fin (text : Z) v : outcome (Vmm T F) :=
  match n with
  | O => Done v
  | S n =>
      if i <? fin then
        do v <- (if i =? 0 then Done v
                 else setPhysicalPage (v_chain v) i i (if i <? ALIGN_PAGE_DOWN text then EXECUTABLE else WRITABLE) v);
        init_loop n (i + PAGESIZE) fin text v
      else Done v
  end.
Definition BaseSegment_init (cache text : Z) b v : outcome (Vmm T F) :=
  let v := with_chain [b] (new_block 0 cache None false b 0 0 (with_physMemSize cache v)) in
  init_loop (Z.to_nat (cache / PAGESIZE + 1)) 0 cache text v.
End vmm.
