(* ===== verification/VmmSeg.v ===== *)
(** * Virtual memory: stacks, devices and the segment manager
      ([src/kernel/stacksegment.C], [devicesegment.C], [segmentmgr.C], [vmmmgr.C])

    The virtual memory manager holds its lock around every call, so a call is one
    step.  Segment 0 is the base segment, 1 the stacks, 2 to 10 the devices. *)

From S2P Require Import Prelude Containers PageMgr PtMgr Sched TaskMgr MsgQ Spte Vmm.

Definition STACK_SEGMENT_ID : Z := 1.
Definition MMIO_FIRST_SEGMENT_ID : Z := 2.
Definition MMIO_LAST_SEGMENT_ID : Z := MMIO_FIRST_SEGMENT_ID + 8.
Definition MAX_SEGMENTS : Z := 16.
Definition VMM_SEGMENT_SIZE : Z := 2 ^ 40.
Definition VMM_VADDR_STACK_SEGMENT : Z := 2 ^ 40.
Definition STACK_RANGE : Z := 8 * 1024 * 1024.
Definition THIRTYTWO_GB : Z := 32 * 1024 * 1024 * 1024.
Definition MMIO_MAP_DEVICES : Z := 32.
Definition MM_EXTEND_REAL_MEMORY : Z := 0.
Definition NORMAL : Z := 0.
Definition LOWMEM_NORM_LIMIT : Z := 16.
Definition LOWMEM_CRIT_LIMIT : Z := KERNEL_HEAP_RESERVED_PAGES + 1.
Definition WINDOW : Z := 2 ^ SLBE_s / MMIO_MAP_DEVICES.

Section segments.
Context {T F : Type} `{PageTable T} `{Frames F}.
Implicit Types (v : Vmm T F) (b c a : Z).

(** ** Stacks *)

Definition stack_key a : Z := a - a mod STACK_RANGE.

Definition Stack_handlePageFault c nm (i_task a : Z) (i_store : bool) v : outcome (bool * bool * Vmm T F) :=
  match LList.find fst (stack_key a) (v_stacks v) with
  | None => Done (false, false, v)
  | Some (_, b) => Block_handlePageFault c nm [b] i_task a i_store v
  end.

Definition Stack_findPhysicalAddress (hrmor a : Z) v : outcome Z :=
  match LList.find fst (stack_key a) (v_stacks v) with
  | None => Done (u64 (- EFAULT))
  | Some (_, b) => Block_findPhysicalAddress hrmor [b] a v
  end.

Definition stack_addr (i_task : Z) : Z := i_task * STACK_RANGE + VMM_VADDR_STACK_SEGMENT.
Definition l_offset_bottom (i_task : Z) : Z := (64 + 128 * (i_task mod 61)) * 1024.
Definition l_offset_top (i_task : Z) : Z := l_offset_bottom i_task + 256 * 1024 - 8.

Fixpoint stack_loop (n : nat) b a fin v : outcome (Vmm T F) :=
  match n with
  | O => Done v
  | S n =>
      if a <=? fin then
        do v <- setPhysicalPage [b] a 0 (Z.lor WRITABLE ALLOCATE_FROM_ZERO) v; stack_loop n b (a + PAGESIZE) fin v
      else Done v
  end.

(** [_createStack]: the top of the stack; [b] is the address of the block. *)
Definition createStack (i_task b : Z) v : outcome (Z * Vmm T F) :=
  let l_addr_8mb := stack_addr i_task in
  assert! negb (bool_decide (is_Some (LList.find fst l_addr_8mb (v_stacks v))));
  let l_addr_bottom := l_addr_8mb + l_offset_bottom i_task in
  let l_addr_top := l_addr_8mb + l_offset_top i_task in
  do v <- stack_loop 64 b l_addr_bottom l_addr_top (new_block l_addr_bottom (256 * 1024) None false b 0 0 v);
  Done (l_addr_top, with_stacks (LList.insert (l_addr_8mb, b) (v_stacks v)) v).

Definition deleteStack (i_task : Z) v : outcome (Vmm T F) :=
  let l_addr_8mb := stack_addr i_task in
  match LList.find fst l_addr_8mb (v_stacks v) with
  | None => Crash KAssert
  | Some (_, b) => releaseAllPages b (with_stacks (LList.erase fst l_addr_8mb (v_stacks v)) v)
  end.

(** ** Devices *)

Definition dev0 : devSegData := mkDev 0 false false 0.
Definition in_segment (segId a : Z) : bool := (segId * VMM_SEGMENT_SIZE <=? a) && (a <? segId * VMM_SEGMENT_SIZE + 2 ^ SLBE_s).
Definition dev_at (l : list devSegData) (idx : Z) : devSegData := nth (Z.to_nat idx) l dev0.

Definition Dev_handlePageFault (segId a : Z) (l : list devSegData) v : outcome (bool * Vmm T F) :=
  if negb (in_segment segId a) then Done (false, v)
  else
    let segment_ea := a - segId * VMM_SEGMENT_SIZE in
    let idx := segment_ea / WINDOW in
    let device_offset := segment_ea - idx * 2 ^ SLBE_s / MMIO_MAP_DEVICES in
    let d := dev_at l idx in
    if dv_size d <=? device_offset then Done (false, v)
    else
      let acc := if dv_no_ci d then Z.lor (Z.lor BYPASS_HRMOR WRITABLE) (if dv_guarded d then GUARDED else 0) else CI_ACCESS in
      do v <- addEntry (a / PAGESIZE * PAGESIZE) (u64 (dv_addr d + device_offset) / PAGESIZE) acc v;
      Done (true, v).

(** [devMap]: the first free window; the size has 62 bits. *)
Fixpoint map_window (segId i : Z) (ra i_size : Z) (i_nonCI i_guarded : bool) (l : list devSegData) : option (Z * list devSegData) :=
  match l with
  | [] => None
  | d :: l =>
      if (dv_addr d =? 0) && (dv_size d =? 0) then
        Some (i * WINDOW + segId * VMM_SEGMENT_SIZE, mkDev ra i_nonCI i_guarded (wrap 62 i_size) :: l)
      else
        match map_window segId (i + 1) ra i_size i_nonCI i_guarded l with
        | Some (ea, l) => Some (ea, d :: l)
        | None => None
        end
  end.
Definition Dev_devMap (segId ra i_size : Z) (i_nonCI i_guarded : bool) (l : list devSegData) : option (Z * list devSegData) :=
  if i_size <=? THIRTYTWO_GB then map_window segId 0 ra i_size i_nonCI i_guarded l else None.

Definition Dev_devUnmap (segId ea : Z) (l : list devSegData) v : outcome (Z * Vmm T F) :=
  if negb (in_segment segId ea) then Done (- EINVAL, v)
  else
    let idx := (ea - segId * VMM_SEGMENT_SIZE) / WINDOW in
    let d := dev_at l idx in
    if negb (dv_addr d =? 0) || negb (dv_size d =? 0) then
      do v <- on_pt (pt_delRangePN (dv_addr d / PAGESIZE) (u64 (dv_addr d + dv_size d) / PAGESIZE) false) v;
      let l := <[Z.to_nat idx := mkDev 0 (dv_no_ci d) false 0]> l in
      Done (0, with_devs (upd (v_devs v) segId (Some l)) v)
    else Done (- EINVAL, v).

Definition Dev_findPhysicalAddress (segId a : Z) (l : list devSegData) : Z :=
  if negb (in_segment segId a) then u64 (- EFAULT)
  else
    let segment_ea := a - segId * VMM_SEGMENT_SIZE in
    let idx := segment_ea / WINDOW in
    let d := dev_at l idx in
    if negb (dv_addr d =? 0) || negb (dv_size d =? 0) then u64 (dv_addr d + (segment_ea - idx * WINDOW)) else u64 (- EFAULT).

(** ** The segment manager *)

Definition getSegmentIdFromAddress a : Z := Z.shiftr a SLBE_s.
Definition is_device (segId : Z) : bool := (MMIO_FIRST_SEGMENT_ID <=? segId) && (segId <=? MMIO_LAST_SEGMENT_ID).

Definition handlePageFault c nm (i_task a : Z) (i_store : bool) v : outcome (bool * bool * Vmm T F) :=
  let segId := getSegmentIdFromAddress a in
  if segId =? BASE_SEGMENT_ID then Block_handlePageFault c nm (v_chain v) i_task a i_store v
  else if segId =? STACK_SEGMENT_ID then Stack_handlePageFault c nm i_task a i_store v
  else if is_device segId then
    match v_devs v segId with
    | None => Done (false, false, v)
    | Some l => do (r, v) <- Dev_handlePageFault segId a l v; Done (r, false, v)
    end
  else Done (false, false, v).

Definition findPhysicalAddress (hrmor a : Z) v : outcome Z :=
  let segId := getSegmentIdFromAddress a in
  if segId =? BASE_SEGMENT_ID then Base_findPhysicalAddress hrmor a v
  else if segId =? STACK_SEGMENT_ID then Stack_findPhysicalAddress hrmor a v
  else if is_device segId then
    match v_devs v segId with None => Done (u64 (- EFAULT)) | Some l => Done (Dev_findPhysicalAddress segId a l) end
  else Done (u64 (- EFAULT)).

Fixpoint devMap_from (n : nat) (segId ra i_size : Z) (i_nonCI i_guarded : bool) v : Z * Vmm T F :=
  match n with
  | O => (0, v)
  | S n =>
      match v_devs v segId with
      | None => devMap_from n (segId + 1) ra i_size i_nonCI i_guarded v
      | Some l =>
          match Dev_devMap segId ra i_size i_nonCI i_guarded l with
          | Some (ea, l) => (ea, with_devs (upd (v_devs v) segId (Some l)) v)
          | None => devMap_from n (segId + 1) ra i_size i_nonCI i_guarded v
          end
      end
  end.
Definition devMap (ra i_size : Z) (i_nonCI i_guarded : bool) v : Z * Vmm T F :=
  devMap_from (Z.to_nat (MMIO_LAST_SEGMENT_ID - MMIO_FIRST_SEGMENT_ID + 1)) MMIO_FIRST_SEGMENT_ID ra i_size i_nonCI i_guarded v.

Definition devUnmap (ea : Z) v : outcome (Z * Vmm T F) :=
  let segId := getSegmentIdFromAddress ea in
  if negb (is_device segId) then Done (- EINVAL, v)
  else match v_devs v segId with None => Done (- EINVAL, v) | Some l => Dev_devUnmap segId ea l v end.

(** ** [VmmManager] *)

Definition pteMiss c nm (t effAddr : Z) (store : bool) v : outcome (bool * Vmm T F) :=
  do (rc, oom, v) <- handlePageFault c nm t effAddr store v;
  assert! negb oom;
  Done (rc, v).

Definition flushPageTable v : outcome (Vmm T F) := on_pt pt_flush v.

Definition FORCE_PHYS_ADDR : Z := 2 ^ 63.
Definition findKernelAddress (hrmor i_vaddr : Z) v : outcome Z :=
  do phys <- findPhysicalAddress hrmor i_vaddr v;
  Done (if negb (u64 (- EFAULT) =? phys) then Z.lor phys FORCE_PHYS_ADDR else phys).

(** The device segments made at start. *)
Definition devs_init : Z -> option (list devSegData) :=
  fun segId => if (MMIO_FIRST_SEGMENT_ID <=? segId) && (segId <? MMIO_LAST_SEGMENT_ID) then Some (replicate 32 dev0) else None.

(** ** System calls *)

Definition vcur c v : Z := cur c (v_kern v).
Definition set_rtn c (rc : Z) v : Vmm T F := with_kern (sch (TASK_SETRTN (vcur c v) rc) (v_kern v)) v.

Definition MmAllocBlock c (mq : option Z) (va size b rh wh : Z) v : Vmm T F :=
  if negb (Z.land va (PAGESIZE - 1) =? 0) then set_rtn c 0 v
  else let '(rc, w) := mmAllocBlock mq va size false b rh wh v in set_rtn c (u64 rc) w.

(** The result register is of the task that made the call, which may have been
    blocked meanwhile. *)
Definition MmRemovePages c (nm : Z -> Z) (oper vaddr size : Z) v : outcome (Vmm T F) :=
  let t := vcur c v in
  do (rc, v) <- mmRemovePages c nm oper vaddr size (Some t) v;
  Done (with_kern (sch (TASK_SETRTN t (u64 rc)) (v_kern v)) v).

Definition DevMap c (arg0 arg1 arg2 arg3 : Z) v : Vmm T F :=
  let devDataSize := align_page arg1 in
  if negb (Z.land arg0 (PAGESIZE - 1) =? 0) then set_rtn c 0 v
  else if THIRTYTWO_GB <? devDataSize then set_rtn c 0 v
  else let '(ea, w) := devMap arg0 devDataSize (negb (arg2 =? 0)) (negb (arg3 =? 0)) v in set_rtn c ea w.

Definition DevUnmap c (ea : Z) v : outcome (Vmm T F) :=
  do (rc, v) <- devUnmap ea v; Done (set_rtn c (u64 rc) v).

Definition MmSetPermission c (va size access_type : Z) v : outcome (Vmm T F) :=
  do (rc, v) <- Base_mmSetPermission va size access_type v; Done (set_rtn c (u64 rc) v).

Definition MmVirtToPhys c (hrmor i_vaddr : Z) v : outcome (Vmm T F) :=
  do phys <- findPhysicalAddress hrmor i_vaddr v; Done (set_rtn c phys v).

Definition MmExtend c (size cache b rh wh : Z) v : outcome (Vmm T F) :=
  if size =? MM_EXTEND_REAL_MEMORY then do (rc, v) <- mmExtend cache b rh wh v; Done (set_rtn c (u64 rc) v)
  else Done (set_rtn c (u64 (- EINVAL)) v).

Definition MmLinearMap c (paddr size b rh wh : Z) v : outcome (Vmm T F) :=
  do (rc, v) <- mmLinearMap paddr size b rh wh v; Done (set_rtn c (u64 rc) v).

(** [alloc] and [avail] are [allocatePage(n, true)] and [queryAvail] of the page
    manager; [busy] says that another task is freeing memory.  The flag of the
    processor manager for the periodic work is not modelled. *)
Definition MmAllocPages c (nm : Z -> Z) (cache : Z) (alloc : Z -> F -> option Z * F) (avail : F -> Z) (busy : bool) (pages : Z) v : outcome (Vmm T F) :=
  let '(page, s) := alloc pages (v_frames v) in
  let v := set_rtn c (default 0 page) (with_frames s v) in
  let pcntAvail := avail s in
  if (pcntAvail <? LOWMEM_NORM_LIMIT) && negb busy then
    do v <- flushPageTable v;
    castOutPages c nm cache (if pcntAvail <? LOWMEM_CRIT_LIMIT then CRITICAL else NORMAL) (v_chain v) v
  else Done v.
End segments.
