(* ===== verification/VmmSpec.v ===== *)
(** * Virtual memory: the invariant

    What the page table promises ([PageTableLaws]); the invariant that every
    translation in the page table is backed by the shadow entry or the device
    window of its address; what each primitive change keeps. *)

From S2P Require Import Prelude Containers PageMgr PtMgr Sched TaskMgr MsgQ Spte Vmm VmmSeg.

(** ** The page table's promise *)

Definition writes (acc : Z) : bool := (acc =? CI_ACCESS) || negb (has acc READ_ONLY) && has acc WRITABLE.

(** [pt_maps t a (pn, w)]: the processor translates the page at [a] to the real
    page [pn], for stores if [w]; [pt_real] is the page number the table uses for
    a page and an access. *)
Class PageTableLaws (T : Type) `{PageTable T} : Type := {
  pt_ok : T -> Prop;
  pt_maps : T -> Z -> Z * bool -> Prop;
  pt_real : Z -> Z -> Z;
  pt_maps_page t a x : pt_ok t -> pt_maps t a x -> is_word 64 a /\ a mod PAGESIZE = 0;
  pt_real_device pg acc : acc = CI_ACCESS \/ has acc BYPASS_HRMOR = true -> pt_real pg acc = pg;
  pt_real_access pg acc acc' :
    acc <> CI_ACCESS -> acc' <> CI_ACCESS -> has acc BYPASS_HRMOR = has acc' BYPASS_HRMOR -> pt_real pg acc = pt_real pg acc';
  pt_add_ok t va pg acc :
    pt_ok t -> is_word 64 va -> is_word 45 pg ->
    match pt_addEntry va pg acc t with
    | Crash f => exists x, pt_maps t (ALIGN_PAGE_DOWN va) x /\ x.1 <> pt_real pg acc
    | Done (t', l) =>
        pt_ok t' /\
        (forall a x, pt_maps t' a x -> a = ALIGN_PAGE_DOWN va /\ x = (pt_real pg acc, writes acc) \/ pt_maps t a x) /\
        pt_maps t' (ALIGN_PAGE_DOWN va) (pt_real pg acc, writes acc) /\
        (forall a x, pt_maps t' a x -> a = ALIGN_PAGE_DOWN va -> x = (pt_real pg acc, writes acc)) /\
        forall a, a ∈ l.*1 -> exists x, pt_maps t a x
    end;
  pt_del_ok t va :
    pt_ok t -> is_word 64 va ->
    exists t' l, pt_delEntry va t = Done (t', l) /\ pt_ok t' /\
      (forall a x, pt_maps t' a x <-> pt_maps t a x /\ a <> ALIGN_PAGE_DOWN va) /\
      forall a, a ∈ l.*1 -> exists x, pt_maps t a x;
  pt_delPN_ok t lo hi :
    pt_ok t ->
    exists t' l, pt_delRangePN lo hi false t = Done (t', l) /\ pt_ok t' /\
      (forall a x, pt_maps t' a x <-> pt_maps t a x /\ ~ lo <= x.1 <= hi) /\
      forall a, a ∈ l.*1 -> exists x, pt_maps t a x;
  pt_flush_ok t :
    pt_ok t ->
    exists t' l, pt_flush t = Done (t', l) /\ pt_ok t' /\
      (forall a x, pt_maps t' a x <-> pt_maps t a x) /\
      forall a, a ∈ l.*1 -> exists x, pt_maps t a x
}.

(** The page manager gives out addresses of 64 bits. *)
Class FrameLaws (F : Type) `{Frames F} : Prop :=
  fr_alloc_word s a s' : fr_alloc s = (Some a, s') -> is_word 64 a.

(** ** Pages and blocks *)

Definition page_start (a : Z) : Prop := is_word 64 a /\ a mod PAGESIZE = 0.

Lemma align_down_start a : is_word 64 a -> page_start (ALIGN_PAGE_DOWN a).
Proof. unfold page_start, is_word, ALIGN_PAGE_DOWN, PAGESIZE. intros. split; Z.to_euclidean_division_equations; lia. Qed.

Lemma div_mul_down a : a / PAGESIZE * PAGESIZE = ALIGN_PAGE_DOWN a.
Proof. unfold ALIGN_PAGE_DOWN, PAGESIZE. Z.to_euclidean_division_equations; lia. Qed.

Lemma down_start a : page_start a -> ALIGN_PAGE_DOWN a = a.
Proof. intros [_ H]. unfold ALIGN_PAGE_DOWN. lia. Qed.

Record spte_ok (p : ShadowPTE) : Prop := {
  sp_page : is_word 20 (page p);
  sp_lru : is_word 3 (last_access p);
  sp_wx : writable p && executable p = false
}.

Record block_ok (x : Block) : Prop := {
  bo_base : 0 <= iv_baseAddr x /\ iv_baseAddr x mod PAGESIZE = 0;
  bo_size : 0 <= iv_size x /\ iv_size x mod PAGESIZE = 0;
  bo_end : iv_baseAddr x + iv_size x < 2 ^ 64;
  bo_ptes i : spte_ok (iv_ptes x i)
}.

Definition inside (x : Block) (a : Z) : Prop := iv_baseAddr x <= a < iv_baseAddr x + iv_size x.

Lemma contained_inside x a : block_ok x -> isContained x a = true <-> inside x a.
Proof.
  intros O. unfold isContained, inside. pose proof (bo_base _ O). pose proof (bo_size _ O). pose proof (bo_end _ O).
  rewrite wrap_small by (split; lia).
  rewrite andb_true_iff, Z.leb_le, Z.ltb_lt. done.
Qed.

Lemma inside_page x a : block_ok x -> is_word 64 a -> inside x a <-> inside x (ALIGN_PAGE_DOWN a).
Proof.
  intros O Ha. destruct (bo_base _ O) as [H1 H2], (bo_size _ O) as [H3 H4]. unfold inside, ALIGN_PAGE_DOWN, PAGESIZE in *.
  Z.to_euclidean_division_equations; lia.
Qed.

(** The index of an address inside is in the array, and tells its page. *)
Lemma index_inside x a : block_ok x -> inside x a ->
  pte_index x a = (a - iv_baseAddr x) / PAGESIZE /\ (pte_index x a <? iv_size x / PAGESIZE) = true.
Proof.
  intros O H. destruct (bo_base _ O) as [H1 H2], (bo_size _ O) as [H3 H4]. pose proof (bo_end _ O). unfold inside in H. unfold pte_index.
  rewrite wrap_small by (split; lia). split; [done|]. apply Z.ltb_lt. unfold PAGESIZE in *. Z.to_euclidean_division_equations; lia.
Qed.

Lemma pte_index_inj x a a' : block_ok x -> inside x a -> inside x a' -> a mod PAGESIZE = 0 -> a' mod PAGESIZE = 0 ->
  pte_index x a = pte_index x a' -> a = a'.
Proof.
  intros O H H' Ha Ha' E. rewrite (proj1 (index_inside x a O H)), (proj1 (index_inside x a' O H')) in E.
  destruct (bo_base _ O) as [_ H2]. unfold PAGESIZE in *. Z.to_euclidean_division_equations; lia.
Qed.

(** ** The invariant *)

Section inv.
Context {T F : Type} {PT : PageTable T} {PL : PageTableLaws T} {FR : Frames F}.
Implicit Types (v : Vmm T F) (b a : Z).

Definition mapped v a : Prop := exists x, pt_maps (v_pt v) a x.
Definition spte v b a : ShadowPTE := iv_ptes (v_block v b) (pte_index (v_block v b) a).
Definition blocks v : list Z := v_chain v ++ (v_stacks v).*2.

(** The block that owns an address of the first two segments. *)
Definition owner v a : option Z :=
  let segId := getSegmentIdFromAddress a in
  if segId =? BASE_SEGMENT_ID then chain_find v (v_chain v) a
  else if segId =? STACK_SEGMENT_ID then
    match LList.find fst (stack_key a) (v_stacks v) with
    | Some (_, b) => chain_find v [b] a
    | None => None
    end
  else None.

(** The translation agrees with the shadow entry: the page is present, the page
    number is the entry's, stores only to writable pages recorded as dirty. *)
Definition page_backs (x : Block) (p : ShadowPTE) (y : Z * bool) : Prop :=
  present p = true /\ y.1 = pt_real (page p) (access_of (iv_mappedToPhysical x) p) /\
  (y.2 = true -> writable p = true /\ dirty p = true).

Definition dev_offset a : Z := a mod WINDOW.
Definition dev_access (d : devSegData) : Z :=
  if dv_no_ci d then Z.lor (Z.lor BYPASS_HRMOR WRITABLE) (if dv_guarded d then GUARDED else 0) else CI_ACCESS.
Definition dev_index a : Z := a mod 2 ^ 40 / WINDOW.

Definition device_backs v a (y : Z * bool) : Prop :=
  is_device (getSegmentIdFromAddress a) = true /\
  exists l, v_devs v (getSegmentIdFromAddress a) = Some l /\ let d := dev_at l (dev_index a) in
    dev_offset a < dv_size d /\ y.1 = (dv_addr d + dev_offset a) / PAGESIZE.

Definition backed v a (y : Z * bool) : Prop :=
  (exists b, owner v a = Some b /\ page_backs (v_block v b) (spte v b a) y) \/ device_backs v a y.

Definition dev_ok (d : devSegData) : Prop :=
  0 <= dv_addr d /\ 0 <= dv_size d <= THIRTYTWO_GB /\ dv_addr d + dv_size d <= 2 ^ 56 /\
  dv_addr d mod PAGESIZE = 0 /\ dv_size d mod PAGESIZE = 0.

Record stack_ok v (e : Z * Z) : Prop := {
  sk_tid : exists tid, 0 <= tid < 2 ^ 16 /\ e.1 = stack_addr tid /\
    iv_baseAddr (v_block v e.2) = e.1 + l_offset_bottom tid;
  sk_size : iv_size (v_block v e.2) = 256 * 1024
}.

(** [E]: the pages whose translations need not be backed now. *)
Record vmm_inv (E : Z -> Prop) v : Prop := {
  vo_pt : pt_ok (v_pt v);
  vo_blocks b : block_ok (v_block v b);
  vo_nodup : NoDup (blocks v);
  vo_keys : NoDup (v_stacks v).*1;
  vo_stacks e : e ∈ v_stacks v -> stack_ok v e;
  vo_devs segId l : v_devs v segId = Some l -> length l = 32%nat /\ Forall dev_ok l;
  vo_base a : mapped v a -> getSegmentIdFromAddress a = BASE_SEGMENT_ID -> is_Some (chain_find v (v_chain v) a);
  vo_maps a y : pt_maps (v_pt v) a y -> ~ E a -> backed v a y
}.

Definition nowhere : Z -> Prop := fun _ => False.
Definition vmm_ok v : Prop := vmm_inv nowhere v.

(** What changes of the page table and of permissions leave alone. *)
Record same_spte (p p' : ShadowPTE) : Prop := {
  ss_page : page p' = page p;
  ss_present : present p' = present p;
  ss_dirty : dirty p' = dirty p
}.
Record same_block (x x' : Block) : Prop := {
  sb_base : iv_baseAddr x' = iv_baseAddr x;
  sb_size : iv_size x' = iv_size x;
  sb_read : iv_readMsgHdlr x' = iv_readMsgHdlr x;
  sb_write : iv_writeMsgHdlr x' = iv_writeMsgHdlr x;
  sb_mapped : iv_mappedToPhysical x' = iv_mappedToPhysical x
}.
Record same_frame v v' : Prop := {
  sf_blocks b : same_block (v_block v b) (v_block v' b);
  sf_chain : v_chain v' = v_chain v;
  sf_stacks : v_stacks v' = v_stacks v;
  sf_devs : v_devs v' = v_devs v;
  sf_phys : iv_physMemSize v' = iv_physMemSize v
}.
Record quiet v v' : Prop := {
  qu_frame : same_frame v v';
  qu_sptes b i : same_spte (iv_ptes (v_block v b) i) (iv_ptes (v_block v' b) i);
  qu_lists b : iv_va2paList (v_block v' b) = iv_va2paList (v_block v b) /\ iv_msgGrpList (v_block v' b) = iv_msgGrpList (v_block v b);
  qu_frames : v_frames v' = v_frames v;
  qu_kern : v_kern v' = v_kern v;
  qu_maps a : mapped v' a -> mapped v a
}.

#[global] Instance same_block_refl : Reflexive same_block.
Proof. by intros x. Qed.
#[global] Instance same_block_trans : Transitive same_block.
Proof. intros x y z [] []. split; congruence. Qed.
#[global] Instance same_frame_refl : Reflexive same_frame.
Proof. by intros v. Qed.
#[global] Instance same_frame_trans : Transitive same_frame.
Proof. intros x y z [] []. split; [intros b; by transitivity (v_block y b)|congruence..]. Qed.
#[global] Instance quiet_refl : Reflexive quiet.
Proof. by intros v. Qed.
#[global] Instance quiet_trans : Transitive quiet.
Proof.
  intros x y z [A1 A2 A3 A4 A5 A6] [B1 B2 B3 B4 B5 B6]. split; [by transitivity y| | |congruence|congruence|auto].
  - intros b i. destruct (A2 b i), (B2 b i). split; congruence.
  - intros b. destruct (A3 b), (B3 b). split; congruence.
Qed.

Lemma frame_contained v v' b a : same_frame v v' -> isContained (v_block v' b) a = isContained (v_block v b) a.
Proof. intros S. destruct (sf_blocks _ _ S b) as [E1 E2 _ _ _]. unfold isContained. by rewrite E1, E2. Qed.

Lemma frame_chain v v' l a : same_frame v v' -> chain_find v' l a = chain_find v l a.
Proof. intros S. induction l as [|b l IH]; [done|]. cbn. by rewrite (frame_contained v v'), IH. Qed.

Lemma frame_owner v v' a : same_frame v v' -> owner v' a = owner v a.
Proof.
  intros S. unfold owner. rewrite (sf_stacks _ _ S), (sf_chain _ _ S), (frame_chain v v') by done.
  case_match; [done|]. case_match; [|done]. case_match; [|done]. case_match. by apply frame_chain.
Qed.

Lemma frame_backed v v' a y : same_frame v v' -> (forall b, owner v a = Some b -> page_backs (v_block v b) (spte v b a) y -> page_backs (v_block v' b) (spte v' b a) y) ->
  backed v a y -> backed v' a y.
Proof.
  intros S Hp [(b & Ho & Hb)|(Hd & l & El & Hl)]; [left|right].
  - exists b. rewrite (frame_owner v v') by done. auto.
  - split; [done|]. exists l. by rewrite (sf_devs _ _ S).
Qed.

(** ** Ownership *)

Lemma chain_find_spec v l a b : chain_find v l a = Some b -> b ∈ l /\ isContained (v_block v b) a = true.
Proof.
  induction l as [|b' l IH]; [done|]. cbn. case_match; [intros [= <-]; split; [by left|done]|].
  intros E. destruct (IH E). split; [by right|done].
Qed.

Lemma find_elem {B} (key : B -> Z) k l x : LList.find key k l = Some x -> x ∈ l /\ key x = k.
Proof.
  intros E. pose proof (LList.find_erase key k l) as H1. rewrite E in H1. destruct H1 as (l1 & l2 & -> & _ & Hk & _).
  split; [apply elem_of_app; right; by left|done].
Qed.

Lemma owner_block E v a b : vmm_inv E v -> owner v a = Some b -> b ∈ blocks v /\ inside (v_block v b) a.
Proof.
  intros O Ho. assert (Hb : b ∈ blocks v /\ isContained (v_block v b) a = true).
  { unfold owner in Ho. case_match.
    - apply chain_find_spec in Ho as [Ho Hc]. split; [|done]. apply elem_of_app. by left.
    - case_match; [|done]. destruct (LList.find _ _ _) as [[k b']|] eqn:Ef; [|done].
      apply chain_find_spec in Ho as [->%list_elem_of_singleton Hc]. split; [|done].
      apply elem_of_app. right. apply find_elem in Ef as [Ef _]. apply list_elem_of_fmap. by exists (k, b'). }
  destruct Hb as [Hb Hc]. split; [done|]. apply contained_inside; [|done]. by apply (vo_blocks _ _ O).
Qed.

Lemma getPTE_inside E v b a : vmm_inv E v -> inside (v_block v b) a -> getPTE b a v = Done (spte v b a).
Proof.
  intros O Ha. unfold getPTE. by rewrite (proj2 (index_inside _ _ (vo_blocks _ _ O b) Ha)).
Qed.

Definition put_pte b a (p : ShadowPTE) v : Vmm T F :=
  with_block b (set_ptes (upd (iv_ptes (v_block v b)) (pte_index (v_block v b) a) p) (v_block v b)) v.

Lemma modPTE_inside E v b a f : vmm_inv E v -> inside (v_block v b) a -> modPTE b a f v = Done (put_pte b a (f (spte v b a)) v).
Proof. intros O Ha. unfold modPTE. by rewrite (getPTE_inside E). Qed.

(** ** Changing one shadow entry *)

Lemma put_frame b a p v : same_frame v (put_pte b a p v).
Proof.
  split; try done. intros d. cbn. unfold upd. case_match; b2p; [subst|done]. by split.
Qed.

Lemma put_spte b a p v d e : spte (put_pte b a p v) d e =
  if (d =? b) && (pte_index (v_block v b) e =? pte_index (v_block v b) a) then p else spte v d e.
Proof.
  unfold spte. change (v_block (put_pte b a p v) d) with (upd (v_block v) b (set_ptes (upd (iv_ptes (v_block v b)) (pte_index (v_block v b) a) p) (v_block v b)) d).
  destruct (d =? b) eqn:Ed; b2p; [subst d; rewrite upd_eq|by rewrite upd_ne]. cbn. unfold upd.
  change (pte_index (set_ptes _ (v_block v b)) e) with (pte_index (v_block v b) e). done.
Qed.

(** An entry may change in any way if its page has no translation; otherwise
    the page stays as the translation says. *)
Definition harmless v b a (p : ShadowPTE) : Prop :=
  let old := spte v b a in
  owner v a = Some b -> mapped v a ->
  page p = page old /\ (present old = true -> present p = true) /\
  (writable old = true -> dirty old = true -> writable p = true /\ dirty p = true).

Lemma access_not_ci bypass p : access_of bypass p <> CI_ACCESS /\ has (access_of bypass p) BYPASS_HRMOR = bypass.
Proof. unfold access_of. destruct bypass; repeat case_match; (split; [vm_compute; discriminate|vm_compute; reflexivity]). Qed.

Lemma real_access n bypass p p' : pt_real n (access_of bypass p) = pt_real n (access_of bypass p').
Proof.
  destruct (access_not_ci bypass p), (access_not_ci bypass p'). apply pt_real_access; [done|done|congruence].
Qed.

(** Or if the page is exempt. *)
Lemma put_exempt E v b a p :
  vmm_inv E v -> inside (v_block v b) a -> a mod PAGESIZE = 0 -> spte_ok p -> (~ E a -> harmless v b a p) ->
  vmm_inv E (put_pte b a p v).
Proof.
  intros O Ha Hal Hp Hh. pose proof (put_frame b a p v) as S. destruct O as [O1 O2 O3 O4 O5 O6 O7 O8].
  assert (O : vmm_inv E v) by by split.
  split; try done.
  - intros d. destruct (O2 d) as [B1 B2 B3 B4]. destruct (sf_blocks _ _ S d) as [E1 E2 _ _ _].
    split; rewrite ?E1, ?E2; try done. intros i. cbn. unfold upd at 1. destruct (d =? b) eqn:Ed; [|done]. b2p. subst d. cbn.
    unfold upd. case_match; [done|]. apply B4.
  - intros e He. destruct (O5 e He) as [K1 K2]. destruct (sf_blocks _ _ S e.2) as [E1 E2 _ _ _]. split; [|by rewrite E2].
    destruct K1 as (tid & ? & ? & K3). exists tid. by rewrite E1.
  - intros e He Hs. rewrite (frame_chain v) by done. by apply O7.
  - intros e y Hy He. apply (frame_backed v); [done| |by apply O8]. intros d Ho (Hpr & Hpn & Hw).
    destruct (owner_block E v e d O Ho) as [Hd Hi]. rewrite put_spte. unfold page_backs.
    rewrite (sb_mapped _ _ (sf_blocks _ _ S d)). destruct ((d =? b) && _) eqn:Edb; [|done]. b2p. subst d.
    destruct (pt_maps_page _ _ _ O1 Hy) as [_ Hem].
    assert (e = a) as -> by by apply (pte_index_inj (v_block v b) e a (O2 b)).
    destruct (Hh He Ho) as (H1 & H2 & H3); [by exists y|]. split_and!; [auto| |].
    + rewrite Hpn, H1. apply real_access.
    + intros Hy2. destruct (Hw Hy2) as [Hw1 Hw2]. auto.
Qed.

Lemma put_ok E v b a p :
  vmm_inv E v -> inside (v_block v b) a -> a mod PAGESIZE = 0 -> spte_ok p -> harmless v b a p ->
  vmm_inv E (put_pte b a p v).
Proof. intros. by apply put_exempt. Qed.

(** The change does not matter where no translation is. *)
Lemma harmless_unmapped v b a p : ~ mapped v a -> harmless v b a p.
Proof. intros Hm _ H. by destruct Hm. Qed.

Lemma put_quiet b a p v : same_spte (spte v b a) p -> quiet v (put_pte b a p v).
Proof.
  intros Hs. split; try done.
  - apply put_frame.
  - intros d i. cbn. unfold upd at 1. destruct (d =? b) eqn:Ed; [|done]. b2p. subst d. cbn. unfold upd. case_match; [|done]. b2p. by subst.
  - intros d. cbn. unfold upd. case_match; b2p; by subst.
Qed.

(** ** Changing the page table *)

Lemma pt_frame t v : same_frame v (with_pt t v).
Proof. by split. Qed.

Lemma with_pt_ok E v t :
  vmm_inv E v -> pt_ok t ->
  (forall a y, pt_maps t a y -> pt_maps (v_pt v) a y \/ backed v a y) ->
  vmm_inv E (with_pt t v).
Proof.
  intros O Ht Hm. destruct O as [O1 O2 O3 O4 O5 O6 O7 O8]. split; try done.
  - intros e He. destruct (O5 e He). by split.
  - intros a [y Hy] Hs. rewrite (frame_chain v) by apply pt_frame. change (v_chain (with_pt t v)) with (v_chain v).
    destruct (Hm a y Hy) as [Hy'|[(b & Ho & _)|(Hd & _)]].
    + apply O7; [by exists y|done].
    + unfold owner in Ho. rewrite Hs in Ho. cbn in Ho. by exists b.
    + unfold is_device in Hd. rewrite Hs in Hd. done.
  - intros a y Hy He. apply (frame_backed v); [apply pt_frame|done|]. destruct (Hm a y Hy); [by apply O8|done].
Qed.

Definition lru_only v v' : Prop := forall b i, setLRU 0 (iv_ptes (v_block v' b) i) = setLRU 0 (iv_ptes (v_block v b) i).
#[global] Instance lru_refl : Reflexive lru_only.
Proof. by intros v b i. Qed.
#[global] Instance lru_trans : Transitive lru_only.
Proof. intros x y z A B b i. by rewrite B. Qed.

Definition counts (R : bool) : ShadowPTE -> ShadowPTE := if R then zeroLRU else incLRU.

Lemma counts_ok R p : spte_ok p -> spte_ok (counts R p) /\ setLRU 0 (counts R p) = setLRU 0 p.
Proof.
  intros [P1 P2 P3]. destruct R; cbn; [split; [split; try done|done]; split; lia|].
  unfold incLRU. case_match; [|done]. b2p. split; [|done]. split; try done. cbn. apply wrap_word. lia.
Qed.

Lemma lru_fields p p' : setLRU 0 p' = setLRU 0 p ->
  same_spte p p' /\ writable p' = writable p /\ executable p' = executable p /\ readable p' = readable p /\
  track_write p' = track_write p /\ allocate_from_zero p' = allocate_from_zero p.
Proof. destruct p, p'. unfold setLRU. cbn. intros E. injection E as -> -> -> -> -> -> -> ->. by split. Qed.

Lemma use_ok E v a R :
  vmm_inv E v -> a mod PAGESIZE = 0 ->
  (getSegmentIdFromAddress a = BASE_SEGMENT_ID -> is_Some (chain_find v (v_chain v) a)) ->
  exists v', updateRefCount a R v = Done v' /\ vmm_inv E v' /\ quiet v v' /\ lru_only v v' /\ v_pt v' = v_pt v.
Proof.
  intros O Hal Hm. unfold updateRefCount. destruct (Z.shiftr a SLBE_s =? BASE_SEGMENT_ID) eqn:Es; [|by exists v]. b2p.
  unfold Block_updateRefCount. destruct (Hm Es) as (b & Hf). rewrite Hf.
  assert (Ho : owner v a = Some b) by (unfold owner, getSegmentIdFromAddress; by rewrite Es).
  destruct (owner_block E v a b O Ho) as [Hb Hi]. rewrite (modPTE_inside E) by done. fold (counts R).
  destruct (counts_ok R (spte v b a)) as [C1 C2]; [by apply (vo_blocks _ _ O b)|].
  destruct (lru_fields _ _ C2) as (Hs & Hw & _). eexists. split; [reflexivity|].
  split_and!; [|by apply put_quiet| |done].
  - apply put_ok; try done. intros _ _. destruct Hs as [-> -> ->]. by rewrite Hw.
  - intros d i. cbn. unfold upd at 1. destruct (d =? b) eqn:Ed; [|done]. b2p. subst d. cbn. unfold upd. case_match; [|done]. b2p. by subst.
Qed.

Lemma uses_ok E l v :
  vmm_inv E v ->
  (forall a, a ∈ l.*1 -> a mod PAGESIZE = 0 /\ (getSegmentIdFromAddress a = BASE_SEGMENT_ID -> is_Some (chain_find v (v_chain v) a))) ->
  exists v', report_uses l v = Done v' /\ vmm_inv E v' /\ quiet v v' /\ lru_only v v' /\ v_pt v' = v_pt v.
Proof.
  revert v. induction l as [|[a R] l IH]; intros v O Hl; [by exists v|]. cbn [report_uses].
  destruct (Hl a) as [Ha Hc]; [by left|]. destruct (use_ok E v a R O Ha Hc) as (v1 & -> & O1 & Q1 & L1 & E1). cbn [obind].
  destruct (IH v1 O1) as (v2 & -> & O2 & Q2 & L2 & E2).
  { intros a' Ha'. destruct (Hl a') as [H1 H2]; [by right|]. split; [done|].
    rewrite (frame_chain v v1) by apply Q1. by rewrite (sf_chain _ _ (qu_frame _ _ Q1)). }
  exists v2. split_and!; try done; [by transitivity v1|by transitivity v1|congruence].
Qed.

(** An operation of the page table with its reports. *)
Lemma on_pt_ok E E' v (f : T -> outcome (T * list (Z * bool))) t l :
  vmm_inv E v -> f (v_pt v) = Done (t, l) -> vmm_inv E' (with_pt t v) ->
  (forall a, a ∈ l.*1 -> mapped v a) ->
  exists v', on_pt f v = Done v' /\ vmm_inv E' v' /\ v_pt v' = t /\ quiet (with_pt t v) v' /\ lru_only v v'.
Proof.
  intros O Ef O1 Hl. unfold on_pt. rewrite Ef. cbn [obind].
  destruct (uses_ok E' l (with_pt t v) O1) as (v' & Ev & O2 & Q & L & Et).
  { intros a [y Hy]%Hl. split; [by apply (pt_maps_page _ _ _ (vo_pt _ _ O) Hy)|]. intros Hs.
    destruct (vo_base _ _ O a) as (b & Hb); [by exists y|done|]. exists b.
    change (v_chain (with_pt t v)) with (v_chain v). rewrite (frame_chain v); [done|by split]. }
  by exists v'.
Qed.

Definition except (E : Z -> Prop) (a : Z) : Z -> Prop := fun e => E e /\ e <> a.

(** [delEntry] returns; the page has no translation afterwards, the others have
    the ones they had. *)
Lemma vmm_delEntry_ok E v a :
  vmm_inv E v -> page_start a ->
  exists v', delEntry a v = Done v' /\ vmm_inv (except E a) v' /\ quiet v v' /\ lru_only v v' /\ ~ mapped v' a /\
    (forall e y, pt_maps (v_pt v') e y <-> pt_maps (v_pt v) e y /\ e <> a).
Proof.
  intros O [Ha Hal]. destruct (pt_del_ok (v_pt v) a (vo_pt _ _ O) Ha) as (t & l & Et & Ot & Hm & Hl).
  rewrite down_start in Hm by done.
  destruct (on_pt_ok E (except E a) v (pt_delEntry a) t l O Et) as (v' & Ev & O' & Ept & Q & L); [|done|].
  - assert (O1 : vmm_inv E (with_pt t v)).
    { apply with_pt_ok; try done. intros e y Hy. left. by apply Hm in Hy as [Hy _]. }
    destruct O1 as [A1 A2 A3 A4 A5 A6 A7 A8]. split; try done. intros e y Hy He. apply A8; [done|]. intros HE. apply He.
    split; [done|]. intros ->. by apply Hm in Hy as [_ Hy].
  - exists v'. unfold delEntry. split_and!; try done.
    + destruct Q as [Q1 Q2 Q3 Q4 Q5 Q6]. split; try done.
      * by transitivity (with_pt t v); [apply pt_frame|].
      * intros e He. apply Q6 in He as [y Hy]. apply Hm in Hy as [Hy _]. by exists y.
    + intros [y Hy]. rewrite Ept in Hy. by apply Hm in Hy as [_ Hy].
    + by rewrite Ept.
Qed.
End inv.
