(* ===== verification/VmmOps.v ===== *)
(** * Virtual memory: the operations on blocks keep the invariant *)

From S2P Require Import Prelude Containers PageMgr PtMgr Sched TaskMgr MsgQ Spte Vmm VmmSeg VmmSpec.

(** [Q] of the result; a fault satisfies [P]. *)
Definition safe {A} (P : fault -> Prop) (Q : A -> Prop) (m : outcome A) : Prop :=
  match m with Done a => Q a | Crash f => P f end.

Lemma safe_bind {A B} (P : fault -> Prop) (Q : A -> Prop) (R : B -> Prop) m (k : A -> outcome B) :
  safe P Q m -> (forall a, Q a -> safe P R (k a)) -> safe P R (obind m k).
Proof. destruct m; cbn; auto. Qed.

Lemma safe_done {A} (P : fault -> Prop) (Q : A -> Prop) m : (exists a, m = Done a /\ Q a) -> safe P Q m.
Proof. by intros (a & -> & H). Qed.

Lemma safe_mono {A} (P : fault -> Prop) (Q R : A -> Prop) m : safe P Q m -> (forall a, Q a -> R a) -> safe P R m.
Proof. destruct m; cbn; auto. Qed.

(** ** Permissions of one entry *)

Lemma spte_ok0 : spte_ok spte0.
Proof. by split. Qed.

Lemma setPerm_ok tr p acc : spte_ok p -> spte_ok (setPermSPTE tr p acc).2 /\ same_spte p (setPermSPTE tr p acc).2.
Proof.
  intros [P1 P2 P3]. unfold setPermSPTE. destruct (_ && (_ || _)); [by split|]. destruct (negb _ && _ && _); [by split|].
  set (p1 := if has acc READ_ONLY then _ else _).
  assert (H1 : spte_ok p1 /\ same_spte p p1).
  { subst p1. repeat case_match; (split; [split; try done|by split]); cbn; by rewrite ?andb_false_r. }
  destruct H1 as [[Q1 Q2 Q3] [S1 S2 S3]]. clearbody p1.
  set (r := if has acc WRITE_TRACKED then _ else _).
  assert (H2 : spte_ok r.2 /\ same_spte p r.2) by (subst r; repeat case_match; by split).
  destruct r as [rc p2]. cbn in H2. destruct H2 as [[R1 R2 R3] [U1 U2 U3]].
  destruct (negb _); [by split|].
  set (r := if has acc ALLOCATE_FROM_ZERO then _ else _).
  assert (H3 : spte_ok r.2 /\ same_spte p r.2) by (subst r; repeat case_match; by split).
  destruct r as [rc3 p3]. cbn in H3. destruct H3 as [[W1 W2 W3] [V1 V2 V3]].
  destruct (negb _); [by split|]. destruct (has acc NO_ACCESS); by split.
Qed.

Lemma getPageAddr_word p : is_word 32 (getPageAddr p).
Proof. apply wrap_word. lia. Qed.

Lemma word_64 w a : 0 <= w <= 64 -> is_word w a -> is_word 64 a.
Proof. intros [Hw1 Hw2] [H1 H2]. split; [done|]. pose proof (Z.pow_le_mono_r 2 w 64). lia. Qed.

Lemma getPageAddr_start p : page_start (getPageAddr p).
Proof.
  split; [by eapply (word_64 32), getPageAddr_word|]. unfold getPageAddr, wrap, PAGESIZE. rewrite Z.shiftl_mul_pow2 by done.
  Z.to_euclidean_division_equations; lia.
Qed.

Lemma getPageAddr_val p : spte_ok p -> getPageAddr p = page p * PAGESIZE.
Proof. intros [[P1 P2] _ _]. unfold getPageAddr. rewrite Z.shiftl_mul_pow2 by done. unfold PAGESIZE. apply wrap_small. split; lia. Qed.

Section ops.
Context {T F : Type} {PT : PageTable T} {PL : PageTableLaws T} {FR : Frames F}.
Implicit Types (v : Vmm T F) (b a : Z) (E : Z -> Prop).

Lemma inv_mono E E' v : (forall a, E a -> E' a) -> vmm_inv E v -> vmm_inv E' v.
Proof. intros Hm [O1 O2 O3 O4 O5 O6 O7 O8]. split; try done. intros a y Hy He. apply O8; [done|]. auto. Qed.

(** No page exempt from the invariant is owned by a block. *)
Definition stray E v : Prop := forall e b, E e -> owner v e <> Some b.

Lemma stray_frame E v v' : same_frame v v' -> stray E v -> stray E v'.
Proof. intros S H e b He. rewrite (frame_owner v v') by done. by apply H. Qed.

Lemma stray_nowhere v : stray nowhere v.
Proof. intros e b []. Qed.

Lemma owner_not_device v a b : owner v a = Some b -> is_device (getSegmentIdFromAddress a) = false.
Proof.
  unfold owner, is_device. destruct (_ =? BASE_SEGMENT_ID) eqn:E1; [b2p; by rewrite E1|].
  destruct (_ =? STACK_SEGMENT_ID) eqn:E2; [b2p; by rewrite E2|done].
Qed.

Lemma shown E v a b y : vmm_inv E v -> stray E v -> owner v a = Some b -> pt_maps (v_pt v) a y -> page_backs (v_block v b) (spte v b a) y.
Proof.
  intros O St Ho Hy. destruct (vo_maps _ _ O a y Hy) as [(b' & Ho' & Hb)|(Hd & _)].
  - intros He. by apply (St a b).
  - congruence.
  - by rewrite (owner_not_device v a b) in Hd.
Qed.

(** Clearing the translation of a page if it is present. *)
Lemma clear_ok E v b a :
  vmm_inv E v -> stray E v -> inside (v_block v b) a -> page_start a ->
  exists v1, (if present (spte v b a) then delEntry a v else Done v) = Done v1 /\
    vmm_inv E v1 /\ quiet v v1 /\ lru_only v v1 /\ (owner v a = Some b -> ~ mapped v1 a).
Proof.
  intros O St Hi Hs. destruct (present (spte v b a)) eqn:Ep.
  - destruct (vmm_delEntry_ok E v a O Hs) as (v1 & Ev & O1 & Q1 & L1 & Hm & _). exists v1. split_and!; try done.
    apply (inv_mono (except E a)); [by intros e []|done].
  - exists v. split_and!; try done. intros Ho [y Hy]. destruct (shown E v a b y O St Ho Hy) as [Hp _]. congruence.
Qed.

Lemma quiet_inside v v' b a : quiet v v' -> inside (v_block v b) a -> inside (v_block v' b) a.
Proof. intros Q. destruct (sf_blocks _ _ (qu_frame _ _ Q) b) as [E1 E2 _ _ _]. unfold inside. by rewrite E1, E2. Qed.

Lemma quiet_index v v' b a : same_frame v v' -> pte_index (v_block v' b) a = pte_index (v_block v b) a.
Proof. intros S. unfold pte_index. by rewrite (sb_base _ _ (sf_blocks _ _ S b)). Qed.

Lemma quiet_spte v v' b a : quiet v v' -> same_spte (spte v b a) (spte v' b a).
Proof. intros Q. unfold spte. rewrite (quiet_index v v') by apply Q. apply (qu_sptes _ _ Q). Qed.

Lemma put_ptes b a p v d i : iv_ptes (v_block (put_pte b a p v) d) i =
  if (d =? b) && (i =? pte_index (v_block v b) a) then p else iv_ptes (v_block v d) i.
Proof. cbn. unfold upd at 1. destruct (d =? b) eqn:Ed; [|done]. b2p. subst d. done. Qed.

(** One page's permissions. *)
Lemma perm_page_ok E v b a acc :
  vmm_inv E v -> stray E v -> inside (v_block v b) a -> page_start a ->
  let tr := bool_decide (is_Some (iv_writeMsgHdlr (v_block v b))) in
  exists v1 v2, (if present (spte v b a) then delEntry a v else Done v) = Done v1 /\
    getPTE b a v1 = Done (spte v1 b a) /\
    iv_writeMsgHdlr (v_block v1 b) = iv_writeMsgHdlr (v_block v b) /\
    modPTE b a (fun _ => (setPermSPTE tr (spte v1 b a) acc).2) v1 = Done v2 /\
    vmm_inv E v2 /\ quiet v v2 /\ lru_only v v1 /\ v2 = put_pte b a (setPermSPTE tr (spte v1 b a) acc).2 v1.
Proof.
  intros O St Hi Hs tr. destruct (clear_ok E v b a O St Hi Hs) as (v1 & Ev & O1 & Q1 & L1 & Hm).
  pose proof (quiet_inside _ _ _ _ Q1 Hi) as Hi1. set (p := (setPermSPTE tr (spte v1 b a) acc).2).
  destruct (setPerm_ok tr (spte v1 b a) acc) as [Hp Hsm]; [apply (vo_blocks _ _ O1)|]. fold p in Hp, Hsm.
  exists v1, (put_pte b a p v1). split_and!; try done.
  - by apply (getPTE_inside E).
  - apply (sb_write _ _ (sf_blocks _ _ (qu_frame _ _ Q1) b)).
  - by apply (modPTE_inside E).
  - apply put_ok; try done; [apply Hs|]. intros Ho Hmp. rewrite (frame_owner v v1) in Ho by apply Q1. by destruct (Hm Ho).
  - transitivity v1; [done|]. by apply put_quiet.
Qed.

(** ** Permissions of a range *)

Lemma getPTE_cases E v b a :
  vmm_inv E v -> is_word 64 a -> inside (v_block v b) a /\ getPTE b a v = Done (spte v b a) \/ getPTE b a v = Crash BadAccess.
Proof.
  intros O Ha. pose proof (vo_blocks _ _ O b) as [[B1 B2] [B3 B4] B5 _].
  destruct (decide (iv_baseAddr (v_block v b) <= a < iv_baseAddr (v_block v b) + iv_size (v_block v b))) as [Hi|Hi];
    [left; split; [done|by apply (getPTE_inside E)]|right].
  unfold getPTE. enough ((pte_index (v_block v b) a <? iv_size (v_block v b) / PAGESIZE) = false) as -> by done.
  apply Z.ltb_ge. unfold pte_index in *. destruct Ha as [Ha1 Ha2].
  destruct (decide (iv_baseAddr (v_block v b) <= a)).
  - rewrite wrap_small by (split; lia). apply Z.div_le_mono; [done|lia].
  - apply Z.div_le_mono; [done|]. unfold wrap. rewrite <-(Z_mod_plus_full _ 1), Z.mod_small; lia.
Qed.

Lemma perm_loop_ok E n v b cur fin acc :
  vmm_inv E v -> stray E v -> page_start cur ->
  safe (fun f => f = BadAccess) (fun r => vmm_inv E r.2 /\ quiet v r.2 /\ (r.1 = 0 \/ r.1 = - EINVAL)) (perm_loop n b cur fin acc v).
Proof.
  revert v cur. induction n as [|n IH]; intros v cur O St Hs; [cbn; split_and!; by try left|]. cbn [perm_loop].
  destruct (cur <? fin); [|cbn; split_and!; by try left].
  destruct (getPTE_cases E v b cur O (proj1 Hs)) as [[Hi ->]| ->]; [|done]. cbn [obind].
  destruct (perm_page_ok E v b cur acc O St Hi Hs) as (v1 & v2 & -> & E2 & Ew & E3 & O2 & Q2 & _). cbn [obind].
  rewrite E2, Ew. cbn [obind]. destruct (setPermSPTE _ (spte v1 b cur) acc) as [rc p] eqn:Ep. cbn [snd] in E3. rewrite E3. cbn [obind].
  destruct (negb _); [cbn; split_and!; by try right|].
  eapply safe_mono; [apply IH; [done| |]|].
  - apply (stray_frame E v); [apply Q2|done].
  - destruct Hs as [Hw Hal]. split; [by apply wrap_word|]. unfold wrap, PAGESIZE in *. Z.to_euclidean_division_equations; lia.
  - intros [rc' v'] (A1 & A2 & A3). split_and!; [done|by transitivity v2|done].
Qed.

Lemma Block_perm_ok E v chain va size acc :
  vmm_inv E v -> stray E v -> is_word 64 va ->
  safe (fun f => f = BadAccess) (fun r => vmm_inv E r.2 /\ quiet v r.2 /\ (r.1 = 0 \/ r.1 = - EINVAL)) (Block_mmSetPermission chain va size acc v).
Proof.
  intros O St Hw. unfold Block_mmSetPermission. case_match; [|cbn; split_and!; by try right]. apply perm_loop_ok; [done..|]. by apply align_down_start.
Qed.

(** Only the entries of the block that owns the address may change. *)
Definition elsewhere v v' (who : option Z) : Prop :=
  forall d i, who <> Some d -> setLRU 0 (iv_ptes (v_block v' d) i) = setLRU 0 (iv_ptes (v_block v d) i).

(** One page always succeeds in finding its entry. *)
Lemma base_perm_ok E v a acc :
  vmm_inv E v -> stray E v -> is_word 64 a ->
  exists rc v', Base_mmSetPermission a 0 acc v = Done (rc, v') /\ vmm_inv E v' /\ quiet v v' /\
    elsewhere v v' (chain_find v (v_chain v) (ALIGN_PAGE_DOWN a)).
Proof.
  intros O St Hw.
  unfold Base_mmSetPermission, Block_mmSetPermission. destruct (chain_find v (v_chain v) (ALIGN_PAGE_DOWN a)) as [b|] eqn:Ef; [|by exists (- EINVAL), v].
  change (Z.to_nat _) with 1%nat. pose proof (align_down_start a Hw) as Hs. cbn [perm_loop].
  destruct (_ <? _); [|by exists 0, v].
  apply chain_find_spec in Ef as [_ Hc]. apply contained_inside in Hc; [|apply (vo_blocks _ _ O)].
  rewrite (getPTE_inside E) by done. cbn [obind].
  destruct (perm_page_ok E v b _ acc O St Hc Hs) as (v1 & v2 & -> & E2 & Ew & E3 & O2 & Q2 & L1 & E4). cbn [obind].
  rewrite E2, Ew. cbn [obind]. destruct (setPermSPTE _ (spte v1 b _) acc) as [rc p] eqn:Ep. cbn [snd] in E3, E4. rewrite E3. cbn [obind].
  assert (He : elsewhere v v2 (Some b)).
  { intros d i Hd. rewrite E4, put_ptes. destruct (d =? b) eqn:Ed; [b2p; by subst|]. apply L1. }
  destruct (negb _); eexists _, v2; by split_and!.
Qed.

(** ** Releasing an entry *)

Record released b a v v' : Prop := {
  re_frame : same_frame v v';
  re_sptes d i : ~ (d = b /\ i = pte_index (v_block v b) a) -> same_spte (iv_ptes (v_block v d) i) (iv_ptes (v_block v' d) i);
  re_others d i : ~ (d = b /\ i = pte_index (v_block v b) a) -> chain_find v (v_chain v) (getPageAddr (spte v b a)) <> Some d ->
    setLRU 0 (iv_ptes (v_block v' d) i) = setLRU 0 (iv_ptes (v_block v d) i);
  re_spte : page (spte v' b a) = 0 /\ present (spte v' b a) = false /\ dirty (spte v' b a) = false;
  re_lists d : iv_va2paList (v_block v' d) = iv_va2paList (v_block v d) /\ iv_msgGrpList (v_block v' d) = iv_msgGrpList (v_block v d);
  re_frames : v_frames v' = v_frames v;
  re_kern : v_kern v' = v_kern v;
  re_maps e : mapped v' e -> mapped v e
}.

Lemma put_lists b a p v d :
  iv_va2paList (v_block (put_pte b a p v) d) = iv_va2paList (v_block v d) /\ iv_msgGrpList (v_block (put_pte b a p v) d) = iv_msgGrpList (v_block v d).
Proof. cbn. unfold upd. case_match; b2p; by subst. Qed.

Lemma releaseSPTE_ok E v b a :
  vmm_inv E v -> stray E v -> inside (v_block v b) a -> page_start a -> ~ mapped v a ->
  exists v', releaseSPTE b a v = Done v' /\ vmm_inv E v' /\ released b a v v'.
Proof.
  intros O St Hi Hs Hm. unfold releaseSPTE. rewrite (modPTE_inside E) by done. cbn [obind].
  set (p1 := setPresent false (setDirty false (spte v b a))). set (v1 := put_pte b a p1 v).
  assert (O1 : vmm_inv E v1).
  { apply put_ok; [done|done|apply Hs| |by apply harmless_unmapped]. destruct (vo_blocks _ _ O b) as [_ _ _ B4]. destruct (B4 (pte_index (v_block v b) a)). by split. }
  assert (S1 : same_frame v v1) by apply put_frame.
  assert (Hi1 : inside (v_block v1 b) a) by (destruct (sf_blocks _ _ S1 b) as [E1 E2 _ _ _]; unfold inside; by rewrite E1, E2).
  rewrite (getPTE_inside E) by done. cbn [obind].
  destruct (base_perm_ok E v1 (getPageAddr (spte v1 b a)) WRITABLE O1) as (rc & v2 & -> & O2 & Q2 & L2); [by apply (stray_frame E v)|by eapply (word_64 32), getPageAddr_word|].
  cbn [obind]. pose proof (quiet_inside _ _ _ _ Q2 Hi1) as Hi2. rewrite (modPTE_inside E) by done.
  assert (Hm2 : ~ mapped v2 a) by (intros Hx; apply Hm; by apply (qu_maps _ _ Q2) in Hx).
  set (p3 := setPageAddr 0 (spte v2 b a)). exists (put_pte b a p3 v2). split; [done|]. split.
  { apply put_ok; [done|done|apply Hs| |by apply harmless_unmapped]. destruct (vo_blocks _ _ O2 b) as [_ _ _ B4]. destruct (B4 (pte_index (v_block v2 b) a)). by split. }
  assert (Ei : pte_index (v_block v2 b) a = pte_index (v_block v b) a) by (rewrite (quiet_index v1) by apply Q2; by apply quiet_index).
  split.
  - transitivity v1; [done|]. transitivity v2; [apply Q2|apply put_frame].
  - intros d i Hne. rewrite put_ptes, Ei. destruct ((d =? b) && _) eqn:Ed; [b2p; by destruct Hne|].
    destruct (qu_sptes _ _ Q2 d i) as [A1 A2 A3]. unfold v1 in A1, A2, A3. rewrite put_ptes, Ed in A1, A2, A3. by split.
  - intros d i Hne Hd. rewrite put_ptes, Ei. destruct ((d =? b) && _) eqn:Ed; [b2p; by destruct Hne|].
    rewrite L2; [unfold v1; by rewrite put_ptes, Ed|]. rewrite down_start by apply getPageAddr_start.
    rewrite (frame_chain v), (sf_chain _ _ S1) by done. unfold v1. by rewrite put_spte, !Z.eqb_refl.
  - rewrite put_spte, !Z.eqb_refl. cbn. destruct (quiet_spte _ _ b a Q2) as [A1 A2 A3]. rewrite A2, A3. unfold v1. by rewrite put_spte, !Z.eqb_refl.
  - intros d. destruct (put_lists b a p3 v2 d) as [-> ->]. destruct (qu_lists _ _ Q2 d) as [-> ->]. apply put_lists.
  - apply (qu_frames _ _ Q2).
  - apply (qu_kern _ _ Q2).
  - intros e He. by apply (qu_maps _ _ Q2) in He.
Qed.

(** ** Entering translations *)

(** What an operation of the page table leaves alone. *)
Record calm v v' : Prop := {
  ca_frame : same_frame v v';
  ca_lru : lru_only v v';
  ca_lists d : iv_va2paList (v_block v' d) = iv_va2paList (v_block v d) /\ iv_msgGrpList (v_block v' d) = iv_msgGrpList (v_block v d);
  ca_frames : v_frames v' = v_frames v;
  ca_kern : v_kern v' = v_kern v
}.

Lemma calm_spte v v' b a : calm v v' -> setLRU 0 (spte v' b a) = setLRU 0 (spte v b a).
Proof. intros C. unfold spte. rewrite (quiet_index v v') by apply C. apply (ca_lru _ _ C). Qed.

Lemma vmm_addEntry_ok E v a pg acc :
  vmm_inv E v -> page_start a -> is_word 45 pg ->
  (forall y, pt_maps (v_pt v) a y -> y.1 = pt_real pg acc) ->
  backed v a (pt_real pg acc, writes acc) ->
  exists v', addEntry a pg acc v = Done v' /\ vmm_inv E v' /\ calm v v' /\
    pt_maps (v_pt v') a (pt_real pg acc, writes acc) /\
    (forall y, pt_maps (v_pt v') a y -> y = (pt_real pg acc, writes acc)) /\
    (forall e y, pt_maps (v_pt v') e y -> e = a \/ pt_maps (v_pt v) e y).
Proof.
  intros O Hs Hpg Hsame Hb. pose proof (pt_add_ok (v_pt v) a pg acc (vo_pt _ _ O) (proj1 Hs) Hpg) as Ha.
  rewrite down_start in Ha by done. unfold addEntry. destruct (pt_addEntry a pg acc (v_pt v)) as [[t l]|f] eqn:Et.
  - destruct Ha as (Ot & Hm & Hnew & Huniq & Hl).
    assert (O1 : vmm_inv E (with_pt t v)).
    { apply with_pt_ok; [done..|]. intros e y [[-> ->]|Hy]%Hm; [by right|by left]. }
    destruct (on_pt_ok E E v (pt_addEntry a pg acc) t l O Et O1 Hl) as (v' & Ev & O' & Ept & Q & L).
    exists v'. split_and!; try done.
    + split; [transitivity (with_pt t v); [apply pt_frame|apply Q]|done|apply (qu_lists _ _ Q)|apply (qu_frames _ _ Q)|apply (qu_kern _ _ Q)].
    + by rewrite Ept.
    + intros y Hy. rewrite Ept in Hy. by apply (Huniq a).
    + intros e y Hy. rewrite Ept in Hy. apply Hm in Hy as [[-> _]|Hy]; [by left|by right].
  - destruct Ha as (y & Hy & Hne). by destruct Hne; apply Hsame.
Qed.

Lemma writes_access m p : spte_ok p -> writes (access_of m p) = writable p && dirty p.
Proof. intros [_ _ P]. unfold access_of. destruct m, (executable p), (writable p), (dirty p); done. Qed.

(** The page of a present entry is entered, writable if the entry is writable and dirty. *)
Lemma map_page_ok E v b a :
  vmm_inv E v -> stray E v -> owner v a = Some b -> page_start a -> present (spte v b a) = true ->
  let acc := access_of (iv_mappedToPhysical (v_block v b)) (spte v b a) in
  exists v', map_page b a v = Done v' /\ vmm_inv E v' /\ calm v v' /\
    pt_maps (v_pt v') a (pt_real (page (spte v b a)) acc, writable (spte v b a) && dirty (spte v b a)) /\
    (forall e y, pt_maps (v_pt v') e y -> e = a \/ pt_maps (v_pt v) e y).
Proof.
  intros O St Ho Hs Hp acc. destruct (owner_block E v a b O Ho) as [_ Hi]. unfold map_page. rewrite (getPTE_inside E) by done.
  cbn [obind]. rewrite div_mul_down, down_start by done. fold acc.
  assert (Hok : spte_ok (spte v b a)) by apply (vo_blocks _ _ O b).
  assert (Hw : writes acc = writable (spte v b a) && dirty (spte v b a)) by by apply writes_access.
  destruct (vmm_addEntry_ok E v a (getPage (spte v b a)) acc) as (v' & Ev & O' & C & Hn & _ & Hm); try done.
  - destruct (sp_page _ Hok). split; [done|]. unfold getPage. lia.
  - intros y Hy. by destruct (shown E v a b y O St Ho Hy) as (_ & -> & _).
  - left. exists b. split; [done|]. split_and!; [done..|]. intros E1. change (writes acc = true) in E1.
    rewrite Hw in E1. by apply andb_true_iff in E1.
  - exists v'. rewrite Hw in Hn. by split_and!.
Qed.

(** ** Changes outside the shadow entries *)

Record alike v v' : Prop := {
  al_blocks d : same_block (v_block v d) (v_block v' d) /\ iv_ptes (v_block v' d) = iv_ptes (v_block v d);
  al_chain : v_chain v' = v_chain v;
  al_stacks : v_stacks v' = v_stacks v;
  al_devs : v_devs v' = v_devs v;
  al_pt : v_pt v' = v_pt v
}.

Lemma alike_contained v v' b a : alike v v' -> isContained (v_block v' b) a = isContained (v_block v b) a.
Proof. intros S. destruct (proj1 (al_blocks _ _ S b)) as [E1 E2 _ _ _]. unfold isContained. by rewrite E1, E2. Qed.

Lemma alike_chain v v' l a : alike v v' -> chain_find v' l a = chain_find v l a.
Proof. intros S. induction l as [|b l IH]; [done|]. cbn. by rewrite (alike_contained v v'), IH. Qed.

Lemma alike_owner v v' a : alike v v' -> owner v' a = owner v a.
Proof.
  intros S. unfold owner. rewrite (al_stacks _ _ S), (al_chain _ _ S), (alike_chain v v') by done.
  case_match; [done|]. case_match; [|done]. case_match; [|done]. case_match. by apply alike_chain.
Qed.

Lemma alike_spte v v' b a : alike v v' -> spte v' b a = spte v b a.
Proof. intros S. unfold spte, pte_index. destruct (al_blocks _ _ S b) as [[-> _ _ _ _] ->]. done. Qed.

Lemma alike_inv E v v' : alike v v' -> vmm_inv E v -> vmm_inv E v'.
Proof.
  intros S [O1 O2 O3 O4 O5 O6 O7 O8].
  assert (Em : forall a, mapped v' a <-> mapped v a) by (intros a; unfold mapped; by rewrite (al_pt _ _ S)).
  split; unfold blocks; rewrite ?(al_pt _ _ S), ?(al_chain _ _ S), ?(al_stacks _ _ S), ?(al_devs _ _ S); try done.
  - intros b. destruct (O2 b) as [B1 B2 B3 B4], (al_blocks _ _ S b) as [[E1 E2 _ _ _] E3]. split; rewrite ?E1, ?E2, ?E3; done.
  - intros e He. destruct (O5 e He) as [K1 K2]. destruct (al_blocks _ _ S e.2) as [[E1 E2 _ _ _] _]. split; [|by rewrite E2].
    destruct K1 as (tid & ? & ? & K3). exists tid. by rewrite E1.
  - intros a Ha Hs. rewrite (alike_chain v v') by done. apply O7; [by apply Em|done].
  - intros a y Hy He. destruct (O8 a y Hy He) as [(b & Ho & Hb)|(Hd & l & El & Hl)]; [left|right].
    + exists b. rewrite (alike_owner v v'), (alike_spte v v') by done. split; [done|].
      destruct (al_blocks _ _ S b) as [[_ _ _ _ Em5] _]. unfold page_backs. by rewrite Em5.
    + split; [done|]. exists l. by rewrite (al_devs _ _ S).
Qed.

Lemma alike_refl v : alike v v.
Proof. by split. Qed.

Lemma alike_trans u v w : alike u v -> alike v w -> alike u w.
Proof.
  intros [A1 A2 A3 A4 A5] [B1 B2 B3 B4 B5]. split; try congruence. intros d. destruct (A1 d), (B1 d). split; [|congruence].
  by transitivity (v_block v d).
Qed.

Lemma alike_frames v s : alike v (with_frames s v).
Proof. by split. Qed.
Lemma alike_kern v k : alike v (with_kern k v).
Proof. by split. Qed.
Lemma alike_evicts v ro rw : alike v (with_evicts ro rw v).
Proof. by split. Qed.
Lemma alike_phys v n : alike v (with_physMemSize n v).
Proof. by split. Qed.
Lemma alike_block v b f : same_block (v_block v b) (f (v_block v b)) -> iv_ptes (f (v_block v b)) = iv_ptes (v_block v b) -> alike v (on_block b f v).
Proof. intros S Ep. split; try done. intros d. cbn. unfold upd. case_match; b2p; [by subst|done]. Qed.
Lemma alike_inc v b t : alike v (on_block b (incMsgCount t) v).
Proof. apply alike_block; unfold incMsgCount; repeat case_match; by try split. Qed.

(** The faults the operations can meet: the page manager's, when it does not
    take back a page, and an access outside a block's array. *)
Definition vmm_fault (f : fault) : Prop := f = BadAccess \/ exists s a n, fr_free a s = Crash f \/ fr_add a n s = Crash f.

Lemma free_safe (Q : F -> Prop) a s : (forall s', Q s') -> safe vmm_fault Q (fr_free a s).
Proof. intros HQ. destruct (fr_free a s) as [s'|f] eqn:Ef; cbn; [done|]. right. exists s, a, 0. by left. Qed.

(** ** Removing pages *)

Lemma released_stray E b a v v' : released b a v v' -> stray E v -> stray E v'.
Proof. intros R. apply stray_frame, R. Qed.

Definition live (p : ShadowPTE) : bool := present p && negb (0 =? getPageAddr p).

(** What happens to a page and to nothing else. *)
Record one_page b a v v' : Prop := {
  op_frame : same_frame v v';
  op_sptes d i : ~ (d = b /\ i = pte_index (v_block v b) a) -> same_spte (iv_ptes (v_block v d) i) (iv_ptes (v_block v' d) i);
  op_others d i : ~ (d = b /\ i = pte_index (v_block v b) a) -> chain_find v (v_chain v) (getPageAddr (spte v b a)) <> Some d ->
    setLRU 0 (iv_ptes (v_block v' d) i) = setLRU 0 (iv_ptes (v_block v d) i);
  op_lists d : d <> b -> iv_va2paList (v_block v' d) = iv_va2paList (v_block v d) /\ iv_msgGrpList (v_block v' d) = iv_msgGrpList (v_block v d);
  op_maps e : mapped v' e -> mapped v e
}.

Definition gone (p : ShadowPTE) : Prop := page p = 0 /\ present p = false /\ dirty p = false.

(** The fates of a page: not there; written back; kept; freed. *)
Definition page_fate c (nm : Z -> Z) (i_op : Z) b a (i_task : option Z) v v' : Prop :=
  let p := spte v b a in
  let pa := getPageAddr p in
  if negb (live p) then v' = v
  else
    ~ mapped v' a /\
    match iv_writeMsgHdlr (v_block v b), dirty p && track_write p with
    | Some h, true =>
        gone (spte v' b a) /\ v_frames v' = v_frames v /\
        v_kern v' = sendMessage false c h (nm a) MSG_MM_RP_WRITE a pa i_task (v_kern v) /\
        iv_va2paList (v_block v' b) = LList.insert (a, pa) (iv_va2paList (v_block v b))
    | _, _ =>
        v_kern v' = v_kern v /\ iv_va2paList (v_block v' b) = iv_va2paList (v_block v b) /\
        if dirty p && negb (track_write p) && (i_op =? EVICT) || (i_op =? FLUSH)
        then same_spte p (spte v' b a) /\ v_frames v' = v_frames v
        else gone (spte v' b a) /\ fr_free pa (v_frames v) = Done (v_frames v')
    end.

Lemma released_page b a v v1 v' :
  quiet v v1 -> lru_only v v1 -> released b a v1 v' -> one_page b a v v' /\ gone (spte v' b a).
Proof.
  intros Q L [R1 R2 R3 R4 R5 R6 R7 R8]. rewrite (quiet_index v v1) in R2, R3 by apply Q. split; [|done].
  assert (Ep : getPageAddr (spte v1 b a) = getPageAddr (spte v b a)).
  { unfold getPageAddr. by rewrite (ss_page _ _ (quiet_spte _ _ b a Q)). }
  split.
  - transitivity v1; [apply Q|done].
  - intros d i Hne. destruct (R2 d i Hne), (qu_sptes _ _ Q d i). split; congruence.
  - intros d i Hne Hd. rewrite R3, <-(L d i); try done. rewrite (frame_chain v), (sf_chain _ _ (qu_frame _ _ Q)), Ep; [done|apply Q].
  - intros d _. destruct (R5 d) as [-> ->]. apply (qu_lists _ _ Q).
  - intros e He. by apply (qu_maps _ _ Q), R8.
Qed.

Lemma one_alike b a v v' w : one_page b a v v' -> alike v' w -> same_frame v' w ->
  (forall d, d <> b -> v_block w d = v_block v' d) -> one_page b a v w.
Proof.
  intros [P1 P2 P3 P4 P5] A S Hd. split.
  - by transitivity v'.
  - intros d i Hne. rewrite (proj2 (al_blocks _ _ A d)). auto.
  - intros d i Hne Hc. rewrite (proj2 (al_blocks _ _ A d)). auto.
  - intros d Hb. rewrite Hd by done. auto.
  - intros e He. apply P5. unfold mapped in *. by rewrite <-(al_pt _ _ A).
Qed.

Lemma quiet_page b a v v' : quiet v v' -> lru_only v v' -> one_page b a v v'.
Proof. intros [Q1 Q2 Q3 Q4 Q5 Q6] L. by split. Qed.

(** What is recorded of a write-back. *)
Definition noted b a (pa : Z) (i_task : option Z) v : Vmm T F :=
  on_block b (addVirtAddr a pa) (match i_task with Some t => on_block b (incMsgCount t) v | None => v end).

Lemma inc_va2pa t x : iv_va2paList (incMsgCount t x) = iv_va2paList x.
Proof. unfold incMsgCount. by repeat case_match. Qed.

Lemma noted_ok b a pa t v : let w := noted b a pa t v in
  alike v w /\ same_frame v w /\ (forall d, d <> b -> v_block w d = v_block v d) /\
  iv_va2paList (v_block w b) = LList.insert (a, pa) (iv_va2paList (v_block v b)) /\ v_kern w = v_kern v /\ v_frames w = v_frames v.
Proof.
  intros w. set (u := match t with Some t => on_block b (incMsgCount t) v | None => v end).
  assert (Au : alike v u) by (subst u; destruct t; [apply alike_inc|apply alike_refl]).
  assert (Aw : alike u w) by by apply alike_block.
  assert (A : alike v w) by by apply (alike_trans v u).
  split_and!; [done| |..].
  - split; try apply A. subst w u. by destruct t.
  - intros d Hd. unfold w, noted. cbn. rewrite upd_ne by done. destruct t; [|done]. cbn. by rewrite upd_ne.
  - unfold w, noted. cbn. rewrite upd_eq. cbn. destruct t; [|done]. cbn. by rewrite upd_eq, inc_va2pa.
  - by destruct t.
  - by destruct t.
Qed.

(** The page manager, the messages and the lists are as they were. *)
Record untouched v v' : Prop := {
  un_frames : v_frames v' = v_frames v;
  un_kern : v_kern v' = v_kern v;
  un_lists d : iv_va2paList (v_block v' d) = iv_va2paList (v_block v d)
}.

(** Taking a page out: without its translation, then released. *)
Lemma cleared E v b a :
  vmm_inv E v -> stray E v -> inside (v_block v b) a -> page_start a ->
  exists v1 v2, delEntry a v = Done v1 /\ releaseSPTE b a v1 = Done v2 /\
    (vmm_inv E v1 /\ one_page b a v v1 /\ ~ mapped v1 a /\ untouched v v1 /\ same_spte (spte v b a) (spte v1 b a)) /\
    (vmm_inv E v2 /\ one_page b a v v2 /\ ~ mapped v2 a /\ untouched v v2 /\ gone (spte v2 b a)).
Proof.
  intros O St Hi Hs. destruct (vmm_delEntry_ok E v a O Hs) as (v1 & -> & O1 & Q1 & L1 & Hm & _).
  apply (inv_mono _ E) in O1; [|by intros e []].
  pose proof (stray_frame _ _ _ (qu_frame _ _ Q1) St) as St1. pose proof (quiet_inside _ _ _ _ Q1 Hi) as Hi1.
  destruct (releaseSPTE_ok E v1 b a O1 St1 Hi1 Hs Hm) as (v2 & Ev2 & O2 & R). destruct (released_page b a v v1 v2 Q1 L1 R) as [P2 G2].
  exists v1, v2. split_and!; try done.
  - by apply quiet_page.
  - split; [apply (qu_frames _ _ Q1)|apply (qu_kern _ _ Q1)|intros d; apply (qu_lists _ _ Q1 d)].
  - by apply quiet_spte.
  - intros Hx. by apply Hm, (re_maps _ _ _ _ R).
  - split; [rewrite (re_frames _ _ _ _ R); apply (qu_frames _ _ Q1)|rewrite (re_kern _ _ _ _ R); apply (qu_kern _ _ Q1)|].
    intros d. rewrite (proj1 (re_lists _ _ _ _ R d)). apply (qu_lists _ _ Q1 d).
Qed.

Lemma alike_mapped v v' a : alike v v' -> mapped v' a <-> mapped v a.
Proof. intros A. unfold mapped. by rewrite (al_pt _ _ A). Qed.

Lemma remove_page_ok E c nm op b a t v :
  vmm_inv E v -> stray E v -> inside (v_block v b) a -> page_start a ->
  safe vmm_fault (fun v' => vmm_inv E v' /\ one_page b a v v' /\ page_fate c nm op b a t v v') (remove_page c nm op b a t v).
Proof.
  intros O St Hi Hs. unfold remove_page. rewrite (getPTE_inside E) by done. cbn [obind]. fold (live (spte v b a)). unfold page_fate.
  destruct (live (spte v b a)) eqn:El; cbn [negb]; [|by cbn].
  destruct (cleared E v b a O St Hi Hs) as (v1 & v2 & -> & Er & (O1 & P1 & M1 & [F1 K1 A1] & Sp1) & (O2 & P2 & M2 & [F2 K2 A2] & G2)).
  cbn [obind]. rewrite (sb_write _ _ (sf_blocks _ _ (op_frame _ _ _ _ P1) b)), Er. cbn [obind].
  set (pa := getPageAddr (spte v b a)).
  assert (Hback : forall h, let w := with_kern (sendMessage false c h (nm a) MSG_MM_RP_WRITE a pa t (v_kern (noted b a pa t v2))) (noted b a pa t v2) in
    vmm_inv E w /\ one_page b a v w /\ ~ mapped w a /\ gone (spte w b a) /\ v_frames w = v_frames v /\
    v_kern w = sendMessage false c h (nm a) MSG_MM_RP_WRITE a pa t (v_kern v) /\ iv_va2paList (v_block w b) = LList.insert (a, pa) (iv_va2paList (v_block v b))).
  { intros h w. destruct (noted_ok b a pa t v2) as (N1 & N2 & N3 & N4 & N5 & N6).
    assert (Aw : alike v2 w) by (apply (alike_trans _ (noted b a pa t v2)); [done|apply alike_kern]).
    split_and!; [by apply (alike_inv _ v2)|apply (one_alike _ _ _ v2); [done..| |done]; by destruct N2; split|by rewrite (alike_mapped v2)|by rewrite (alike_spte v2)|..].
    - by rewrite <-F2, <-N6.
    - unfold w. cbn [v_kern with_kern]. by rewrite N5, K2.
    - by rewrite <-A2, <-N4. }
  assert (Hrest : safe vmm_fault (fun v' => vmm_inv E v' /\ one_page b a v v' /\ ~ mapped v' a /\ v_kern v' = v_kern v /\
      iv_va2paList (v_block v' b) = iv_va2paList (v_block v b) /\
      if dirty (spte v b a) && negb (track_write (spte v b a)) && (op =? EVICT) || (op =? FLUSH)
      then same_spte (spte v b a) (spte v' b a) /\ v_frames v' = v_frames v
      else gone (spte v' b a) /\ fr_free pa (v_frames v) = Done (v_frames v'))
    (if dirty (spte v b a) && negb (track_write (spte v b a)) && (op =? EVICT) then Done v1
     else if negb (op =? FLUSH) then do s <- fr_free pa (v_frames v2); Done (with_frames s v2) else Done v1)).
  { destruct (_ && _ && _); cbn [orb]; [by cbn|]. destruct (op =? FLUSH); cbn [negb]; [by cbn|].
    rewrite F2. destruct (fr_free pa (v_frames v)) as [s|f] eqn:Ef; cbn; [|right; exists (v_frames v), pa, 0; by left].
    split_and!; try done; [apply (alike_inv _ v2); [apply alike_frames|done]|apply (one_alike _ _ _ v2); [done|apply alike_frames|by split|done]]. }
  destruct (iv_writeMsgHdlr (v_block v b)) as [h|], (dirty (spte v b a) && track_write (spte v b a)); [|exact Hrest..].
  destruct (Hback h) as (W1 & W2 & W3 & W4 & W5 & W6 & W7). unfold noted in W1, W2, W3, W4, W5, W6, W7. by destruct t.
Qed.

(** *** Of a range *)

Fixpoint writebacks (n : nat) b a v : list (Z * Z) :=
  match n with
  | O => []
  | S n =>
      let p := spte v b a in
      (if live p && (dirty p && track_write p) then [(a, getPageAddr p)] else []) ++ writebacks n b (a + PAGESIZE) v
  end.

(** The messages and records of the write-backs, one after the other. *)
Definition send_all c (nm : Z -> Z) (h : option Z) (t : option Z) (l : list (Z * Z)) (k : kern) : kern :=
  match h with
  | Some h => foldl (fun k x => sendMessage false c h (nm x.1) MSG_MM_RP_WRITE x.1 x.2 t k) k l
  | None => k
  end.
Definition record_all (h : option Z) (l : list (Z * Z)) (r : list (Z * Z)) : list (Z * Z) :=
  match h with Some _ => foldl (fun r x => LList.insert x r) r l | None => r end.

Lemma live_lru p p' : setLRU 0 p' = setLRU 0 p ->
  live p' = live p /\ dirty p' && track_write p' = dirty p && track_write p /\ getPageAddr p' = getPageAddr p.
Proof. intros Hp. destruct (lru_fields _ _ Hp) as ([E1 E2 E3] & _ & _ & _ & E4 & _). unfold live, getPageAddr. by rewrite E1, E2, E3, E4. Qed.

Lemma writebacks_same n b a v v' :
  (forall e, a <= e < a + Z.of_nat n * PAGESIZE -> e mod PAGESIZE = a mod PAGESIZE -> setLRU 0 (spte v' b e) = setLRU 0 (spte v b e)) ->
  writebacks n b a v' = writebacks n b a v.
Proof.
  revert a. induction n as [|n IH]; intros a Hs; [done|]. cbn [writebacks]. unfold PAGESIZE in *.
  destruct (live_lru _ _ (Hs a ltac:(lia) eq_refl)) as (-> & -> & ->). f_equal. apply IH. intros e He Hm. apply Hs; [lia|].
  rewrite Hm. Z.to_euclidean_division_equations; lia.
Qed.

(** No page of the block lies in the block itself. *)
Definition foreign b v : Prop :=
  chain_find v (v_chain v) 0 <> Some b /\ forall i, chain_find v (v_chain v) (getPageAddr (iv_ptes (v_block v b) i)) <> Some b.

Record range_gone c nm (n : nat) b a t v v' : Prop := {
  rg_frame : same_frame v v';
  rg_maps e : mapped v' e -> mapped v e;
  rg_outside d i : ~ (d = b /\ pte_index (v_block v b) a <= i < pte_index (v_block v b) a + Z.of_nat n) ->
    same_spte (iv_ptes (v_block v d) i) (iv_ptes (v_block v' d) i);
  rg_unmapped e : a <= e < a + Z.of_nat n * PAGESIZE -> page_start e -> live (spte v b e) = true -> ~ mapped v' e;
  rg_sent : foreign b v ->
    let h := iv_writeMsgHdlr (v_block v b) in
    v_kern v' = send_all c nm h t (writebacks n b a v) (v_kern v) /\
    iv_va2paList (v_block v' b) = record_all h (writebacks n b a v) (iv_va2paList (v_block v b))
}.

Lemma one_fate_sent E c nm op b a t v v' :
  vmm_inv E v -> page_fate c nm op b a t v v' ->
  let h := iv_writeMsgHdlr (v_block v b) in let p := spte v b a in
  let l := if live p && (dirty p && track_write p) then [(a, getPageAddr p)] else [] in
  v_kern v' = send_all c nm h t l (v_kern v) /\ iv_va2paList (v_block v' b) = record_all h l (iv_va2paList (v_block v b)).
Proof.
  intros O. unfold page_fate. destruct (live (spte v b a)); cbn [negb andb].
  - intros [_ Hf]. destruct (iv_writeMsgHdlr (v_block v b)) as [h|]; cbn; [|by destruct Hf as (? & ? & _)].
    destruct (dirty (spte v b a) && track_write (spte v b a)); cbn; [by destruct Hf as (_ & _ & ? & ?)|by destruct Hf as (? & ? & _)].
  - intros ->. by destruct (iv_writeMsgHdlr (v_block v b)).
Qed.

Lemma index_next x a : block_ok x -> inside x a -> inside x (a + PAGESIZE) -> pte_index x (a + PAGESIZE) = pte_index x a + 1.
Proof.
  intros O H H'. rewrite (proj1 (index_inside x a O H)), (proj1 (index_inside x _ O H')). unfold PAGESIZE. Z.to_euclidean_division_equations; lia.
Qed.

Lemma one_foreign b a v v' : one_page b a v v' -> gone (spte v' b a) \/ same_spte (spte v b a) (spte v' b a) -> foreign b v -> foreign b v'.
Proof.
  intros P Hf [H0 Hg]. unfold foreign. rewrite (frame_chain v), (sf_chain _ _ (op_frame _ _ _ _ P)) by apply P. split; [done|].
  intros i. rewrite (frame_chain v) by apply P.
  destruct (decide (i = pte_index (v_block v b) a)) as [->|Hi].
  - unfold spte in Hf. rewrite (quiet_index v v') in Hf by apply P. destruct Hf as [[Hp _]|[Hp _ _]].
    + unfold getPageAddr. by rewrite Hp.
    + unfold getPageAddr. rewrite Hp. apply Hg.
  - destruct (op_sptes _ _ _ _ P b i) as [Hp _ _]; [by intros []|]. unfold getPageAddr. rewrite Hp. apply Hg.
Qed.

Lemma fate_spte c nm op b a t v v' : page_fate c nm op b a t v v' -> gone (spte v' b a) \/ same_spte (spte v b a) (spte v' b a).
Proof.
  unfold page_fate. destruct (negb _); [intros ->; by right|]. intros [_ Hf].
  destruct (iv_writeMsgHdlr (v_block v b)), (dirty (spte v b a) && track_write (spte v b a)).
  1: left; by destruct Hf as (? & _).
  all: destruct Hf as (_ & _ & Hf); destruct (_ || _); [right|left]; apply Hf.
Qed.

Lemma send_app c nm h t l l' k : send_all c nm h t (l ++ l') k = send_all c nm h t l' (send_all c nm h t l k).
Proof. destruct h; [|done]. apply foldl_app. Qed.
Lemma record_app h l l' r : record_all h (l ++ l') r = record_all h l' (record_all h l r).
Proof. destruct h; [|done]. apply foldl_app. Qed.

Lemma start_next a : page_start a -> a + PAGESIZE < 2 ^ 64 -> page_start (a + PAGESIZE).
Proof.
  intros [[H1 H2] H3] H. unfold page_start, PAGESIZE in *. split; [split; lia|]. Z.to_euclidean_division_equations; lia.
Qed.

Lemma range_step E c nm op n b a t v v1 v' :
  vmm_inv E v -> page_start a -> block_ok (v_block v b) -> inside (v_block v b) a ->
  (n <> 0%nat -> inside (v_block v b) (a + PAGESIZE)) -> a + Z.of_nat (S n) * PAGESIZE <= iv_baseAddr (v_block v b) + iv_size (v_block v b) ->
  one_page b a v v1 -> page_fate c nm op b a t v v1 -> range_gone c nm n b (a + PAGESIZE) t v1 v' ->
  range_gone c nm (S n) b a t v v'.
Proof.
  intros O Hs Bo Hi Hi2 Hend P Hf [R1 R2 R3 R4 R5]. pose proof (op_frame _ _ _ _ P) as S1.
  assert (Ei : n = 0%nat \/ pte_index (v_block v1 b) (a + PAGESIZE) = pte_index (v_block v b) a + 1).
  { destruct n; [by left|right]. rewrite (quiet_index v v1) by done. apply index_next; auto. }
  assert (Hidx : forall e, a + PAGESIZE <= e < a + Z.of_nat (S n) * PAGESIZE -> pte_index (v_block v b) e <> pte_index (v_block v b) a).
  { intros e He. assert (Hie : inside (v_block v b) e) by (unfold inside in *; lia).
    rewrite (proj1 (index_inside _ e Bo Hie)), (proj1 (index_inside _ a Bo Hi)). destruct (bo_base _ Bo), Hs as [_ Hs].
    unfold PAGESIZE in *. Z.to_euclidean_division_equations; lia. }
  split.
  - by transitivity v1.
  - intros e He. by apply (op_maps _ _ _ _ P), R2.
  - intros d i Hne. destruct (R3 d i); [intros [-> Hr]; apply Hne; split; [done|]; destruct Ei; lia|].
    destruct (op_sptes _ _ _ _ P d i); [intros [-> ->]; apply Hne; split; [done|lia]|]. split; congruence.
  - intros e He Hes Hl. destruct (decide (e = a)) as [->|Hea].
    + intros Hm. apply R2 in Hm. unfold page_fate in Hf. rewrite Hl in Hf. by destruct Hf as [Hf _].
    + assert (He2 : a + PAGESIZE <= e).
      { destruct Hs as [_ Hs], Hes as [_ Hes]. unfold PAGESIZE in *. Z.to_euclidean_division_equations; lia. }
      apply R4; [lia|done|]. rewrite <-Hl. unfold spte. rewrite (quiet_index v v1) by done.
      destruct (op_sptes _ _ _ _ P b (pte_index (v_block v b) e)) as [E1 E2 _]; [intros [_ Hc]; revert Hc; apply Hidx; lia|].
      unfold live, getPageAddr. by rewrite E1, E2.
  - intros Hfo h. destruct (one_fate_sent E c nm op b a t v v1 O Hf) as [K1 K2].
    destruct R5 as [K3 K4]; [apply (one_foreign b a v); [done|by eapply fate_spte|done]|].
    rewrite (sb_write _ _ (sf_blocks _ _ S1 b)) in K3, K4. fold h in K1, K2, K3, K4. cbn [writebacks].
    assert (Ew : writebacks n b (a + PAGESIZE) v1 = writebacks n b (a + PAGESIZE) v).
    { apply writebacks_same. intros e He _. unfold spte. rewrite (quiet_index v v1) by done.
      apply (op_others _ _ _ _ P); [intros [_ Hc]; revert Hc; apply Hidx; lia|]. apply Hfo. }
    rewrite K3, K4, Ew, K1, K2, send_app, record_app. done.
Qed.

Lemma remove_loop_ok E n c nm op b a t v :
  vmm_inv E v -> stray E v -> page_start a -> iv_baseAddr (v_block v b) <= a ->
  a + Z.of_nat n * PAGESIZE <= iv_baseAddr (v_block v b) + iv_size (v_block v b) ->
  safe vmm_fault (fun v' => vmm_inv E v' /\ range_gone c nm n b a t v v') (remove_loop n c nm op b a t v).
Proof.
  revert v a. induction n as [|n IH]; intros v a O St Hs Hlo Hhi; cbn [remove_loop].
  - cbn. split; [done|]. split; try done; [lia|]. intros _. unfold send_all, record_all. cbn. by destruct (iv_writeMsgHdlr (v_block v b)).
  - pose proof (vo_blocks _ _ O b) as Bo. pose proof (bo_end _ Bo).
    assert (Hi : inside (v_block v b) a) by (unfold inside, PAGESIZE in *; lia).
    eapply safe_bind; [by apply (remove_page_ok E)|]. intros v1 (O1 & P & Hf). cbn beta.
    destruct (sf_blocks _ _ (op_frame _ _ _ _ P) b) as [E1 E2 _ _ _].
    destruct n as [|n].
    { cbn. split; [done|]. apply (range_step E c nm op 0 b a t v v1 v1); try done. split; try done; [lia|].
      intros _. unfold send_all, record_all. cbn. by destruct (iv_writeMsgHdlr (v_block v1 b)). }
    eapply safe_mono; [apply IH|].
    + done.
    + apply (stray_frame E v); [apply P|done].
    + apply start_next; [done|]. unfold PAGESIZE in *. lia.
    + rewrite E1. unfold PAGESIZE. lia.
    + rewrite E1, E2. unfold PAGESIZE in *. lia.
    + intros v' [O' R]. split; [done|]. apply (range_step E c nm op (S n) b a t v v1 v'); try done.
      intros _. unfold inside, PAGESIZE in *. lia.
Qed.

Definition remove_end (i_vaddr i_size : Z) : Z :=
  u64 (ALIGN_PAGE_DOWN i_vaddr + align_page (u64 (i_size + i_vaddr mod PAGESIZE))).
Definition remove_count (i_vaddr i_size : Z) : nat :=
  Z.to_nat ((remove_end i_vaddr i_size - ALIGN_PAGE_DOWN i_vaddr) / PAGESIZE).

Lemma removePages_ok E c nm chain op va size t v :
  vmm_inv E v -> stray E v -> is_word 64 va ->
  safe vmm_fault (fun r => vmm_inv E r.2 /\
      (r = (- EINVAL, v) \/
       r.1 = 0 /\ exists b, chain_find v chain (ALIGN_PAGE_DOWN va) = Some b /\ range_gone c nm (remove_count va size) b (ALIGN_PAGE_DOWN va) t v r.2))
    (removePages c nm chain op va size t v).
Proof.
  intros O St Hw. unfold removePages. pose proof (align_down_start va Hw) as Hs.
  destruct (chain_find v chain (ALIGN_PAGE_DOWN va)) as [b|] eqn:Ef; [|cbn; split; [done|by left]].
  apply chain_find_spec in Ef as [_ Hc]. pose proof (vo_blocks _ _ O b) as Bo. apply contained_inside in Hc; [|done].
  destruct (_ <? _) eqn:Ee; [cbn; split; [done|by left]|]. apply Z.ltb_ge in Ee. fold (remove_end va size) in *.
  pose proof (bo_end _ Bo) as He. destruct (bo_base _ Bo) as [Hb _]. unfold inside in Hc.
  rewrite (wrap_small _ (iv_baseAddr _ + _)) in Ee by (split; lia).
  eapply safe_bind; [apply (remove_loop_ok E (remove_count va size)); try done; [lia|]|].
  - unfold remove_count. destruct (Z.le_gt_cases 0 ((remove_end va size - ALIGN_PAGE_DOWN va) / PAGESIZE)).
    + rewrite Z2Nat.id by done. pose proof (Z.mul_div_le (remove_end va size - ALIGN_PAGE_DOWN va) PAGESIZE eq_refl). lia.
    + rewrite Z2Nat.nonpos by lia. lia.
  - intros v' [O' R]. cbn. split; [done|]. right. split; [done|]. by exists b.
Qed.

(** ** Casting out pages *)

Lemma cast_loop_ok E n c nm rw ro chain b a v :
  vmm_inv E v -> stray E v -> page_start a -> iv_baseAddr (v_block v b) <= a ->
  a + Z.of_nat n * PAGESIZE <= iv_baseAddr (v_block v b) + iv_size (v_block v b) ->
  safe vmm_fault (fun v' => vmm_inv E v' /\ same_frame v v' /\ forall e, mapped v' e -> mapped v e) (cast_loop n c nm rw ro chain b a v).
Proof.
  revert v a. induction n as [|n IH]; intros v a O St Hs Hlo Hhi; cbn [cast_loop]; [by cbn|].
  pose proof (bo_end _ (vo_blocks _ _ O b)).
  rewrite (getPTE_inside E) by (try done; unfold inside, PAGESIZE in *; lia). cbn [obind].
  assert (Hev : forall ro' rw' op, safe vmm_fault (fun v' => vmm_inv E v' /\ same_frame v v' /\ forall e, mapped v' e -> mapped v e)
    (do (rc, w) <- removePages c nm chain op a PAGESIZE None v; Done (with_evicts (ro' w) (rw' w) w))).
  { intros ro' rw' op. eapply safe_bind; [apply (removePages_ok E); [done..|apply Hs]|]. intros [rc w] [O1 Hr]. cbn.
    split; [by apply (alike_inv _ w)|]. destruct Hr as [[= -> ->]|(_ & d & _ & [R1 R2 _ _ _])]; [by split|].
    split; [destruct R1; by split|exact R2]. }
  eapply (safe_bind _ (fun v' => vmm_inv E v' /\ same_frame v v' /\ forall e, mapped v' e -> mapped v e)).
  - destruct (_ && _); [|by cbn]. destruct (writable _); [destruct (_ && _)|destruct (_ <? _)]; try by cbn.
  - intros v1 (O1 & S1 & M1). destruct (sf_blocks _ _ S1 b) as [E1 E2 _ _ _].
    destruct n as [|n]; [by cbn|].
    eapply safe_mono; [apply IH|]; [done|by apply (stray_frame E v)|apply start_next; [done|]|..]; rewrite ?E1, ?E2; [unfold PAGESIZE in *; lia..|].
    intros v' (O' & S' & M'). split_and!; [done|by transitivity v1|auto].
Qed.

Lemma castOutPages_ok E c nm cache ty chain v :
  vmm_inv E v -> stray E v ->
  safe vmm_fault (fun v' => vmm_inv E v' /\ same_frame v v' /\ forall e, mapped v' e -> mapped v e) (castOutPages c nm cache ty chain v).
Proof.
  intros O St. induction chain as [|b l IH]; [by cbn|]. cbn [castOutPages]. eapply safe_bind; [exact IH|]. intros v1 (O1 & S1 & M1).
  destruct (_ && _); [|by cbn]. destruct (bo_base _ (vo_blocks _ _ O1 b)) as [Hb Hb2]. pose proof (bo_end _ (vo_blocks _ _ O1 b)).
  destruct (bo_size _ (vo_blocks _ _ O1 b)) as [Hz _].
  assert (Hend : iv_baseAddr (v_block v1 b) + Z.of_nat (Z.to_nat (iv_size (v_block v1 b) / PAGESIZE)) * PAGESIZE <= iv_baseAddr (v_block v1 b) + iv_size (v_block v1 b)).
  { rewrite Z2Nat.id by by apply Z.div_pos. pose proof (Z.mul_div_le (iv_size (v_block v1 b)) PAGESIZE eq_refl). lia. }
  destruct (if ty =? CRITICAL then _ else _) as [rw ro].
  eapply safe_mono; [apply (cast_loop_ok E); [done|by apply (stray_frame E v)|split; [split; lia|done]|lia|done]|].
  intros v' (O' & S' & M'). split_and!; [done|by transitivity v1|auto].
Qed.
End ops.
