(* ===== verification/VmmFault.v ===== *)
(** * Virtual memory: page faults and the responses to their messages

    [Block::handlePageFault], [setPhysicalPage], [attachSPTE] and the handlers of
    the blocks' messages keep the invariant; none of them asserts. *)

From S2P Require Import Prelude Containers PageMgr PtMgr Sched TaskMgr MsgQ Spte Vmm VmmSeg VmmSpec VmmOps.

(** The accesses the segments give pages directly are accepted. *)
Lemma perm_plain tr p acc : acc = WRITABLE \/ acc = EXECUTABLE \/ acc = Z.lor WRITABLE ALLOCATE_FROM_ZERO -> (setPermSPTE tr p acc).1 = 0.
Proof. intros [->|[->| ->]]; destruct p as [? ? ? ? ? [] ? [] ?]; reflexivity. Qed.

(** [ALIGN_PAGE_DOWN] does not leave the segment or the stack. *)
Lemma down_div a k : (PAGESIZE | k) -> 0 < k -> ALIGN_PAGE_DOWN a / k = a / k.
Proof.
  intros [q ->] Hk. unfold ALIGN_PAGE_DOWN, PAGESIZE in *. assert (0 < q) by lia.
  rewrite (Z.mul_comm q), <-!Z.div_div by lia. f_equal. Z.to_euclidean_division_equations; lia.
Qed.

Lemma down_segment a : getSegmentIdFromAddress (ALIGN_PAGE_DOWN a) = getSegmentIdFromAddress a.
Proof. unfold getSegmentIdFromAddress. rewrite !Z.shiftr_div_pow2 by done. apply down_div; [by exists (2 ^ 28)|done]. Qed.

Lemma down_stack a : stack_key (ALIGN_PAGE_DOWN a) = stack_key a.
Proof.
  unfold stack_key. rewrite !Z.mod_eq by done. rewrite down_div; [lia|by exists 2048|done].
Qed.

Section fault.
Context {T F : Type} {PT : PageTable T} {PL : PageTableLaws T} {FR : Frames F}.
Implicit Types (v : Vmm T F) (b a : Z) (E : Z -> Prop).

Lemma chain_find_down E v l a : vmm_inv E v -> is_word 64 a -> chain_find v l (ALIGN_PAGE_DOWN a) = chain_find v l a.
Proof.
  intros O Ha. induction l as [|b l IH]; [done|]. cbn. rewrite IH. pose proof (vo_blocks _ _ O b) as Bo.
  assert (Ec : isContained (v_block v b) (ALIGN_PAGE_DOWN a) = isContained (v_block v b) a).
  { apply eq_true_iff_eq. rewrite !contained_inside by done. symmetry. by apply inside_page. }
  by rewrite Ec.
Qed.

Lemma owner_down E v a : vmm_inv E v -> is_word 64 a -> owner v (ALIGN_PAGE_DOWN a) = owner v a.
Proof.
  intros O Ha. unfold owner. rewrite down_segment, down_stack. case_match; [by apply (chain_find_down E)|].
  case_match; [|done]. case_match; [|done]. case_match. by apply (chain_find_down E).
Qed.

(** ** [setPhysicalPage] *)

Definition plus E a : Z -> Prop := fun e => E e \/ e = a.

Lemma setPhysicalPage_ok E v chain a pa acc b :
  vmm_inv E v -> stray E v -> page_start a -> chain_find v chain a = Some b ->
  acc = WRITABLE \/ acc = EXECUTABLE \/ acc = Z.lor WRITABLE ALLOCATE_FROM_ZERO ->
  exists v', setPhysicalPage chain a pa acc v = Done v' /\ vmm_inv E v' /\ same_frame v v' /\
    (forall e, mapped v' e -> mapped v e) /\ (owner v a = Some b -> ~ mapped v' a) /\
    v_frames v' = v_frames v /\ v_kern v' = v_kern v.
Proof.
  intros O St Hs Hf Hacc. unfold setPhysicalPage. rewrite Hf. apply chain_find_spec in Hf as [_ Hc].
  apply contained_inside in Hc; [|apply (vo_blocks _ _ O)]. rewrite (getPTE_inside E) by done. cbn [obind].
  assert (Hfin : forall v1, vmm_inv E v1 -> same_frame v v1 -> (forall e, mapped v1 e -> mapped v e) -> (owner v a = Some b -> ~ mapped v1 a) ->
    v_frames v1 = v_frames v -> v_kern v1 = v_kern v ->
    exists v', (do p <- getPTE b a v1;
      let '(rc, p) := setPermSPTE (bool_decide (is_Some (iv_writeMsgHdlr (v_block v1 b)))) p acc in
      do v <- modPTE b a (fun _ => p) v1; if negb (rc =? 0) then Crash KAssert else Done v) = Done v' /\ vmm_inv E v' /\ same_frame v v' /\
      (forall e, mapped v' e -> mapped v e) /\ (owner v a = Some b -> ~ mapped v' a) /\ v_frames v' = v_frames v /\ v_kern v' = v_kern v).
  { intros v1 O1 S1 M1 U1 F1 K1.
    assert (Hi1 : inside (v_block v1 b) a) by (destruct (sf_blocks _ _ S1 b) as [E1 E2 _ _ _]; unfold inside; by rewrite E1, E2).
    rewrite (getPTE_inside E) by done. cbn [obind]. set (tr := bool_decide _).
    destruct (setPerm_ok tr (spte v1 b a) acc) as [Hp _]; [apply (vo_blocks _ _ O1)|].
    pose proof (perm_plain tr (spte v1 b a) acc Hacc) as Hrc. destruct (setPermSPTE tr (spte v1 b a) acc) as [rc p]. cbn in Hrc, Hp. subst rc.
    rewrite (modPTE_inside E) by done. cbn. eexists. split; [reflexivity|]. split_and!; try done.
    - apply put_ok; [done|done|apply Hs|done|]. intros Ho. rewrite (frame_owner v) in Ho by done. intros Hm. by destruct (U1 Ho).
    - transitivity v1; [done|apply put_frame]. }
  destruct (negb (pa =? 0)).
  - rewrite (modPTE_inside E) by done. cbn [obind]. set (p := setPresent true _). set (v1 := put_pte b a p v).
    assert (O1 : vmm_inv (plus E a) v1).
    { apply put_exempt; [apply (inv_mono E); [intros e He; by left|done]|done|apply Hs| |intros Hn; destruct Hn; by right].
      destruct (vo_blocks _ _ O b) as [_ _ _ B4]. destruct (B4 (pte_index (v_block v b) a)) as [P1 P2 P3]. split; try done. apply wrap_word. lia. }
    destruct (vmm_delEntry_ok (plus E a) v1 a O1 Hs) as (v2 & -> & O2 & Q2 & _ & M2 & _). cbn [obind].
    destruct (Hfin v2) as (v' & Ev & R); [| | | |by apply (qu_frames _ _ Q2)|by apply (qu_kern _ _ Q2)|].
    + apply (inv_mono (except (plus E a) a)); [|done]. by intros e [[He| ->] Hn].
    + transitivity v1; [apply put_frame|apply Q2].
    + intros e He. by apply (qu_maps _ _ Q2) in He.
    + done.
    + exists v'. by split.
  - destruct (clear_ok E v b a O St Hc Hs) as (v1 & -> & O1 & Q1 & _ & M1). cbn [obind].
    apply Hfin; [done|apply Q1|apply (qu_maps _ _ Q1)|done|apply (qu_frames _ _ Q1)|apply (qu_kern _ _ Q1)].
Qed.

(** ** Page faults *)

Definition accessible (p : ShadowPTE) (store : bool) : bool := negb (getPermission p =? NO_ACCESS) && negb (store && negb (writable p)).

(** The access can be made again: the page is translated, for stores if need be. *)
Definition resolved v a (store : bool) : Prop := exists y, pt_maps (v_pt v) a y /\ (store = true -> y.2 = true).

(** What a fault on a page of a block leads to: [r] handled, [oom] no memory. *)
Definition fault_spec c nm (t : Z) b pa (store : bool) v (r oom : bool) v' : Prop :=
  let p := spte v b pa in
  if negb (accessible p store) then r = false /\ oom = false /\ v' = v
  else if present p then r = true /\ oom = false /\ resolved v' pa store
  else
    match iv_readMsgHdlr (v_block v b) with
    | Some h =>
        match (if page p =? 0 then fr_alloc (v_frames v) else (Some (getPageAddr p), v_frames v)) with
        | (Some pg, s) =>
            r = true /\ oom = false /\ v_frames v' = s /\ v_kern v' = sendMessage false c h nm MSG_MM_RP_READ pa pg (Some t) (v_kern v)
        | (None, _) => r = false /\ oom = true
        end
    | None =>
        if allocate_from_zero p then
          match fr_alloc (v_frames v) with
          | (Some pg, s) =>
              r = true /\ oom = false /\ v_frames v' = s /\ present (spte v' b pa) = true /\ resolved v' pa false /\
              (chain_find v (v_chain v) (ALIGN_PAGE_DOWN pg) <> Some b -> resolved v' pa store)
          | (None, _) => r = false /\ oom = true
          end
        else r = false /\ oom = false
    end.

Lemma put_inside b a p v e : inside (v_block v b) e -> inside (v_block (put_pte b a p v) b) e.
Proof. destruct (sf_blocks _ _ (put_frame b a p v) b) as [E1 E2 _ _ _]. unfold inside. by rewrite E1, E2. Qed.

Lemma put_self b a p v : spte (put_pte b a p v) b a = p.
Proof. by rewrite put_spte, !Z.eqb_refl. Qed.

(** A store to a writable page marks it dirty. *)
Lemma dirty_ok E v b a store :
  vmm_inv E v -> inside (v_block v b) a -> page_start a -> accessible (spte v b a) store = true ->
  exists v1, (if store then modPTE b a (setDirty true) v else Done v) = Done v1 /\ vmm_inv E v1 /\ same_frame v v1 /\
    v_frames v1 = v_frames v /\ v_kern v1 = v_kern v /\ v_pt v1 = v_pt v /\
    (exists d, spte v1 b a = setDirty d (spte v b a) /\ (store = true -> writable (spte v b a) && d = true)) /\
    (forall d, d <> b -> v_block v1 d = v_block v d).
Proof.
  intros O Hi Hs Ha. destruct store.
  - apply andb_true_iff in Ha as [_ Ha]. cbn in Ha. rewrite negb_involutive in Ha. rewrite (modPTE_inside E) by done.
    eexists. split; [reflexivity|]. split_and!; try done.
    + apply put_ok; [done|done|apply Hs| |]; [|intros _ _; by cbn].
      destruct (vo_blocks _ _ O b) as [_ _ _ B4]. destruct (B4 (pte_index (v_block v b) a)). by split.
    + apply put_frame.
    + exists true. rewrite put_self, Ha. by split.
    + intros d Hd. cbn. by rewrite upd_ne.
  - exists v. split_and!; try done. exists (dirty (spte v b a)). split; [by destruct (spte v b a)|done].
Qed.

Lemma frame_inside v v1 b a : same_frame v v1 -> inside (v_block v b) a -> inside (v_block v1 b) a.
Proof. intros S Hi. destruct (sf_blocks _ _ S b) as [E1 E2 _ _ _]. unfold inside. by rewrite E1, E2. Qed.

(** Entering the page after the entry became present. *)
Lemma enter_ok E v b a store :
  vmm_inv E v -> stray E v -> owner v a = Some b -> page_start a -> present (spte v b a) = true ->
  exists v', map_page b a v = Done v' /\ vmm_inv E v' /\ calm v v' /\ resolved v' a false /\
    (writable (spte v b a) && dirty (spte v b a) = true -> resolved v' a store).
Proof.
  intros O St Ho Hs Hp. destruct (map_page_ok E v b a O St Ho Hs Hp) as (v' & Ev & O' & C & Hm & _).
  exists v'. split_and!; try done; [by eexists|]. intros Hw. rewrite Hw in Hm. eexists. split; [exact Hm|done].
Qed.

Lemma zero_fault_ok `{!FrameLaws F} E v v1 b a store pg s d :
  vmm_inv E v1 -> stray E v1 -> owner v1 a = Some b -> page_start a -> inside (v_block v1 b) a -> same_frame v v1 ->
  v_frames v1 = v_frames v -> spte v1 b a = setDirty d (spte v b a) -> (store = true -> writable (spte v b a) && d = true) ->
  present (spte v b a) = false ->
  fr_alloc (v_frames v) = (Some pg, s) ->
  exists rc v2 v3 v4, Base_mmSetPermission pg 0 READ_ONLY (with_frames s v1) = Done (rc, v2) /\
    modPTE b a (fun p => setPresent true (setPageAddr pg p)) v2 = Done v3 /\ map_page b a v3 = Done v4 /\
    vmm_inv E v4 /\ same_frame v v4 /\ v_frames v4 = s /\ present (spte v4 b a) = true /\ resolved v4 a false /\
    (chain_find v (v_chain v) (ALIGN_PAGE_DOWN pg) <> Some b -> resolved v4 a store).
Proof.
  intros O St Ho Hs Hi S Hf Ep Hst Hpr Hal.
  assert (O1 : vmm_inv E (with_frames s v1)) by (apply (alike_inv _ v1); [apply alike_frames|done]).
  assert (Sf : same_frame v1 (with_frames s v1)) by by split.
  destruct (base_perm_ok E (with_frames s v1) pg READ_ONLY O1) as (rc & v2 & E2 & O2 & Q2 & L2); [by apply (stray_frame _ v1)|by eapply fr_alloc_word|].
  assert (S2 : same_frame v1 v2) by (transitivity (with_frames s v1); [done|apply Q2]).
  assert (Hi2 : inside (v_block v2 b) a) by by apply (frame_inside v1).
  assert (Ho2 : owner v2 a = Some b) by by rewrite (frame_owner v1).
  set (p := setPresent true (setPageAddr pg (spte v2 b a))). set (v3 := put_pte b a p v2).
  destruct (quiet_spte _ _ b a Q2) as [A1 A2 A3].
  assert (O3 : vmm_inv E v3).
  { apply put_ok; [done|done|apply Hs| |].
    - destruct (vo_blocks _ _ O2 b) as [_ _ _ B4]. destruct (B4 (pte_index (v_block v2 b) a)) as [P1 P2 P3]. split; try done. apply wrap_word. lia.
    - apply harmless_unmapped. intros [y Hy]. destruct (shown E v2 a b y O2) as [Hpp _]; [by apply (stray_frame _ v1)|done|done|].
      rewrite A2 in Hpp. change (spte (with_frames s v1) b a) with (spte v1 b a) in Hpp. rewrite Ep in Hpp. cbn in Hpp. congruence. }
  destruct (enter_ok E v3 b a store O3) as (v4 & E4 & O4 & C4 & R4 & W4).
  - apply (stray_frame _ v2); [apply put_frame|]. by apply (stray_frame _ v1).
  - rewrite (frame_owner v2); [done|apply put_frame].
  - done.
  - unfold v3. by rewrite put_self.
  - exists rc, v2, v3, v4. split_and!; try done.
    + by rewrite (modPTE_inside E).
    + transitivity v1; [done|]. transitivity v2; [done|]. transitivity v3; [apply put_frame|apply C4].
    + rewrite (ca_frames _ _ C4). apply (qu_frames _ _ Q2).
    + destruct (lru_fields _ _ (calm_spte _ _ b a C4)) as ([_ -> _] & _). unfold v3. by rewrite put_self.
    + intros Hne. destruct store; [|done]. apply W4. unfold v3. rewrite put_self. cbn.
      assert (El : setLRU 0 (spte v2 b a) = setLRU 0 (spte v1 b a)).
      { unfold spte. rewrite (quiet_index v1 v2) by done. apply (L2 b). change (v_chain (with_frames s v1)) with (v_chain v1).
        rewrite (frame_chain v1), (frame_chain v), (sf_chain _ _ S) by done. exact Hne. }
      destruct (lru_fields _ _ El) as ([_ _ Ed] & Ew & _). rewrite Ed, Ew, Ep. cbn. apply Hst. done.
Qed.

Lemma Block_fault_ok `{!FrameLaws F} E c nm chain t a store v b :
  vmm_inv E v -> stray E v -> is_word 64 a -> chain_find v chain a = Some b -> owner v a = Some b ->
  exists r oom v', Block_handlePageFault c nm chain t a store v = Done (r, oom, v') /\ vmm_inv E v' /\ same_frame v v' /\
    fault_spec c nm t b (ALIGN_PAGE_DOWN a) store v r oom v'.
Proof.
  intros O St Ha Hf Ho. unfold Block_handlePageFault. rewrite Hf, div_mul_down.
  pose proof (align_down_start a Ha) as Hs. rewrite <-(owner_down E) in Ho by done. set (pa := ALIGN_PAGE_DOWN a) in *. clearbody pa.
  destruct (owner_block E v pa b O Ho) as [_ Hi]. rewrite (getPTE_inside E) by done. cbn [obind]. unfold fault_spec.
  destruct (accessible (spte v b pa) store) eqn:Eacc; cbn [negb].
  2:{ unfold accessible in Eacc. destruct (getPermission _ =? NO_ACCESS); [by exists false, false, v|]. cbn in Eacc.
      apply negb_false_iff in Eacc. rewrite Eacc. by exists false, false, v. }
  pose proof Eacc as Eacc'. unfold accessible in Eacc'. apply andb_true_iff in Eacc' as [Ea1 Ea2].
  apply negb_true_iff in Ea1, Ea2. rewrite Ea1, Ea2.
  destruct (dirty_ok E v b pa store O Hi Hs Eacc) as (v1 & -> & O1 & S1 & F1 & K1 & T1 & (d & Ep & Hd) & _). cbn [obind].
  assert (St1 : stray E v1) by by apply (stray_frame E v).
  assert (Ho1 : owner v1 pa = Some b) by by rewrite (frame_owner v).
  assert (Hi1 : inside (v_block v1 b) pa) by by apply (frame_inside v).
  destruct (present (spte v b pa)) eqn:Epr; cbn [negb].
  - destruct (enter_ok E v1 b pa store O1 St1 Ho1 Hs) as (v2 & -> & O2 & C2 & R2 & W2); [by rewrite Ep|].
    cbn [obind]. exists true, false, v2. split_and!; try done; [transitivity v1; [done|apply C2]|].
    destruct store; [|done]. apply W2. rewrite Ep. cbn. by apply Hd.
  - rewrite (sb_read _ _ (sf_blocks _ _ S1 b)), F1. destruct (iv_readMsgHdlr (v_block v b)) as [h|].
    + unfold getPage. destruct (page (spte v b pa) =? 0) eqn:Epg.
      * destruct (fr_alloc (v_frames v)) as [[pg|] s].
        -- assert (Of : vmm_inv E (with_frames s v1)) by (apply (alike_inv _ v1); [apply alike_frames|done]).
           rewrite (modPTE_inside E) by done. cbn [obind]. eexists _, _, _. split; [reflexivity|]. split_and!; try done.
           ++ apply (alike_inv _ (put_pte b pa (setPageAddr pg (spte (with_frames s v1) b pa)) (with_frames s v1))); [apply alike_kern|].
              apply put_ok; [done|done|apply Hs| |].
              ** destruct (vo_blocks _ _ O1 b) as [_ _ _ B4]. destruct (B4 (pte_index (v_block v1 b) pa)) as [P1 P2 P3]. split; try done. apply wrap_word. lia.
              ** apply harmless_unmapped. intros [y Hy]. destruct (shown E v1 pa b y O1 St1 Ho1 Hy) as [Hpp _]. rewrite Ep in Hpp. cbn in Hpp. congruence.
           ++ transitivity v1; [done|]. destruct (put_frame b pa (setPageAddr pg (spte (with_frames s v1) b pa)) (with_frames s v1)). by split.
           ++ cbn. by rewrite K1.
        -- eexists false, true, _. split; [reflexivity|]. split_and!; try done; [apply (alike_inv _ v1); [apply alike_frames|done]|].
           destruct S1; by split.
      * eexists _, _, _. split; [reflexivity|]. split_and!; try done; [apply (alike_inv _ v1); [apply alike_kern|done]|destruct S1; by split|].
        cbn. by rewrite K1.
    + destruct (allocate_from_zero (spte v b pa)); [|by exists false, false, v1].
      destruct (fr_alloc (v_frames v)) as [[pg|] s] eqn:Eal.
      * destruct (zero_fault_ok E v v1 b pa store pg s d) as (rc & v2 & v3 & v4 & E2 & E3 & E4 & R); try done.
        rewrite E2. cbn [obind]. rewrite E3. cbn [obind]. rewrite E4. cbn [obind]. destruct R as (R1 & R2 & R3 & R4 & R5 & R6).
        exists true, false, v4. by split_and!.
      * eexists false, true, _. split; [reflexivity|]. split_and!; try done; [apply (alike_inv _ v1); [apply alike_frames|done]|].
        destruct S1; by split.
Qed.

(** ** Responses *)

Lemma attachSPTE_ok E v b a :
  vmm_inv E v -> stray E v -> owner v a = Some b -> page_start a ->
  exists v', attachSPTE b a v = Done v' /\ vmm_inv E v' /\ same_frame v v' /\
    same_spte (setPresent true (spte v b a)) (spte v' b a) /\ v_frames v' = v_frames v /\ v_kern v' = v_kern v.
Proof.
  intros O St Ho Hs. destruct (owner_block E v a b O Ho) as [_ Hi]. unfold attachSPTE.
  rewrite (modPTE_inside E) by done. cbn [obind]. set (v1 := put_pte b a (setPresent true (spte v b a)) v).
  assert (S1 : same_frame v v1) by apply put_frame.
  assert (O1 : vmm_inv E v1).
  { apply put_ok; [done|done|apply Hs| |by intros _ _; cbn].
    destruct (vo_blocks _ _ O b) as [_ _ _ B4]. destruct (B4 (pte_index (v_block v b) a)). by split. }
  destruct (enter_ok E v1 b a false O1) as (v2 & -> & O2 & C2 & _); [by apply (stray_frame _ v)|by rewrite (frame_owner v)|done|by unfold v1; rewrite put_self|].
  cbn [obind]. assert (S2 : same_frame v v2) by (transitivity v1; [done|apply C2]).
  rewrite (getPTE_inside E) by (try done; by apply (frame_inside v)). cbn [obind].
  destruct (base_perm_ok E v2 (getPageAddr (spte v2 b a)) READ_ONLY O2) as (rc & v3 & -> & O3 & Q3 & _);
    [by apply (stray_frame _ v)|apply getPageAddr_start|].
  cbn [obind]. exists v3. split_and!; try done.
  - transitivity v2; [done|apply Q3].
  - destruct (quiet_spte _ _ b a Q3) as [A1 A2 A3]. destruct (lru_fields _ _ (calm_spte _ _ b a C2)) as ([B1 B2 B3] & _).
    unfold v1 in B1, B2, B3. rewrite put_self in B1, B2, B3. split; congruence.
  - rewrite (qu_frames _ _ Q3). apply (ca_frames _ _ C2).
  - rewrite (qu_kern _ _ Q3). apply (ca_kern _ _ C2).
Qed.

Lemma read_response_ok E v b a rc :
  vmm_inv E v -> stray E v -> owner v a = Some b -> page_start a ->
  exists r v', BlockReadMsgHdlr_handleResponse b a rc v = Done (r, v') /\ vmm_inv E v' /\ same_frame v v'.
Proof.
  intros O St Ho Hs. unfold BlockReadMsgHdlr_handleResponse. destruct (negb _); [by exists UNHANDLED_RC, v|].
  destruct (attachSPTE_ok E v b a O St Ho Hs) as (v' & -> & O' & S' & _). by exists SUCCESS, v'.
Qed.

Lemma groups_alike b l v : alike v (on_block b (set_groups l) v).
Proof. by apply alike_block. Qed.
Lemma va2pa_alike b l v : alike v (on_block b (set_va2pa l) v).
Proof. by apply alike_block. Qed.

Lemma alike_phys_frame v v' : alike v v' -> iv_physMemSize v' = iv_physMemSize v -> same_frame v v'.
Proof. intros [A1 A2 A3 A4 A5] Hp. split; try done. intros d. apply A1. Qed.

Lemma write_response_ok E v b a t rc :
  vmm_inv E v ->
  safe vmm_fault (fun r => vmm_inv E r.2 /\ same_frame v r.2 /\ forall e, mapped r.2 e <-> mapped v e) (BlockWriteMsgHdlr_handleResponse b a t rc v).
Proof.
  intros O. unfold BlockWriteMsgHdlr_handleResponse. destruct (negb _); [by cbn|].
  assert (Hal : forall w, alike v w -> iv_physMemSize w = iv_physMemSize v ->
    vmm_inv E w /\ same_frame v w /\ forall e, mapped w e <-> mapped v e) by
    (intros w A Hp; split_and!; [by apply (alike_inv _ v)|by apply alike_phys_frame|intros e; by apply alike_mapped]).
  eapply (safe_bind _ (fun r : HandleResult * Vmm T F => alike v r.2 /\ iv_physMemSize r.2 = iv_physMemSize v)).
  - destruct (LList.find _ _ _) as [[k pg]|]; [|cbn; split; [apply alike_refl|done]].
    destruct (fr_free pg (v_frames v)) as [s|f] eqn:Ef; cbn; [|right; exists (v_frames v), pg, 0; by left].
    split; [|done]. apply (alike_trans _ (with_frames s v)); [apply alike_frames|]. apply va2pa_alike.
  - intros [res w] [A Hp]. cbn in A, Hp. destruct t as [t|]; [|cbn [safe snd]; by apply Hal].
    destruct (LList.find _ _ _) as [[k n]|]; [|cbn [safe snd]; by apply Hal].
    destruct (n =? 1); (cbn [safe snd]; apply Hal; [apply (alike_trans _ w); [done|apply groups_alike]|done]).
Qed.
End fault.
