(* ===== verification/VmmRange.v ===== *)
(** * Virtual memory: making and deleting blocks

    [BaseSegment] allocates, maps and extends blocks and [StackSegment] makes and
    deletes stacks; the blocks' addresses are new, a deleted stack leaves no
    translation behind. *)

From S2P Require Import Prelude Containers PageMgr PtMgr Sched TaskMgr MsgQ Spte Vmm VmmSeg VmmSpec VmmOps VmmFault.

Section range.
Context {T F : Type} {PT : PageTable T} {PL : PageTableLaws T} {FR : Frames F}.
Implicit Types (v : Vmm T F) (b a : Z) (E : Z -> Prop).

(** ** Blocks nobody uses may change *)

Lemma chain_find_ext v v' l a : (forall d, d ∈ l -> v_block v' d = v_block v d) -> chain_find v' l a = chain_find v l a.
Proof.
  intros He. induction l as [|b l IH]; [done|]. cbn. rewrite He by by left. rewrite IH; [done|]. intros d Hd. apply He. by right.
Qed.

Record agree v v' : Prop := {
  ag_blocks d : d ∈ blocks v -> v_block v' d = v_block v d;
  ag_chain : v_chain v' = v_chain v;
  ag_stacks : v_stacks v' = v_stacks v;
  ag_devs : v_devs v' = v_devs v;
  ag_pt : v_pt v' = v_pt v
}.

Lemma agree_find v v' a : agree v v' -> chain_find v' (v_chain v) a = chain_find v (v_chain v) a.
Proof. intros A. apply chain_find_ext. intros d Hd. apply A, elem_of_app. by left. Qed.

Lemma stack_block v k b : (k, b) ∈ v_stacks v -> b ∈ blocks v.
Proof. intros Hb. apply elem_of_app. right. apply list_elem_of_fmap. by exists (k, b). Qed.

Lemma agree_owner v v' a : agree v v' -> owner v' a = owner v a.
Proof.
  intros A. unfold owner. rewrite (ag_stacks _ _ A), (ag_chain _ _ A), (agree_find v v') by done.
  destruct (_ =? _); [done|]. destruct (_ =? _); [|done]. destruct (LList.find _ _ _) as [[k b]|] eqn:Ef; [|done].
  apply chain_find_ext. intros d ->%list_elem_of_singleton. apply A. apply find_elem in Ef as [Ef _]. by apply (stack_block v k).
Qed.

Lemma agree_inv E v v' : agree v v' -> (forall b, block_ok (v_block v' b)) -> vmm_inv E v -> vmm_inv E v'.
Proof.
  intros A Hb O. assert (Em : forall a, mapped v' a <-> mapped v a) by (intros a; unfold mapped; by rewrite (ag_pt _ _ A)).
  pose proof O as [O1 O2 O3 O4 O5 O6 O7 O8].
  split; unfold blocks; rewrite ?(ag_pt _ _ A), ?(ag_chain _ _ A), ?(ag_stacks _ _ A), ?(ag_devs _ _ A); try done.
  - intros [k b] He. destruct (O5 (k, b) He) as [K1 K2]. cbn in K1, K2.
    pose proof (ag_blocks _ _ A b (stack_block v k b He)) as Eb. split; cbn; rewrite Eb; done.
  - intros a Ha Hs. rewrite (agree_find v v') by done. apply O7; [by apply Em|done].
  - intros a y Hy He. destruct (O8 a y Hy He) as [(b & Ho & Hp)|(Hd & l & El & Hl)]; [left|right].
    + exists b. rewrite (agree_owner v v') by done. destruct (owner_block E v a b O Ho) as [Hbl _].
      unfold spte. by rewrite (ag_blocks _ _ A b Hbl).
    + split; [done|]. exists l. by rewrite (ag_devs _ _ A).
Qed.

Lemma block_ok_new base size rh wh m : page_start base -> 0 <= size -> size mod PAGESIZE = 0 -> base + size < 2 ^ 64 ->
  block_ok (mkBlock base size (fun _ => spte0) rh wh m [] []).
Proof. intros [[H1 H2] H3] H4 H5 H6. by split. Qed.

Lemma new_block_ok E v base size q m b rh wh :
  vmm_inv E v -> b ∉ blocks v -> page_start base -> 0 <= size -> size mod PAGESIZE = 0 -> base + size < 2 ^ 64 ->
  let v' := new_block base size q m b rh wh v in
  vmm_inv E v' /\ agree v v' /\ iv_baseAddr (v_block v' b) = base /\ iv_size (v_block v' b) = size /\
  v_frames v' = v_frames v /\ iv_physMemSize v' = iv_physMemSize v.
Proof.
  intros O Hb Hs Hz Hm He v'.
  assert (Hx : exists rh wh, v_block v' = upd (v_block v) b (mkBlock base size (fun _ => spte0) rh wh m [] []) /\ v_chain v' = v_chain v /\
    v_stacks v' = v_stacks v /\ v_devs v' = v_devs v /\ v_pt v' = v_pt v /\ v_frames v' = v_frames v /\ iv_physMemSize v' = iv_physMemSize v).
  { subst v'. destruct q as [q|]; [exists (Some rh), (Some wh)|exists None, None]; by split_and!. }
  destruct Hx as (rh' & wh' & X1 & X2 & X3 & X4 & X5 & X6 & X7).
  assert (A : agree v v').
  { split; try done. intros d Hd. rewrite X1, upd_ne; [done|]. by intros ->. }
  split_and!; try done; try (rewrite X1, upd_eq; done).
  apply (agree_inv E v); [done| |done]. intros d. rewrite X1. unfold upd. destruct (d =? b); [by apply block_ok_new|apply (vo_blocks _ _ O)].
Qed.

(** ** A block of the base segment *)

Lemma chain_find_app v l b a : chain_find v (l ++ [b]) a =
  match chain_find v l a with Some d => Some d | None => if isContained (v_block v b) a then Some b else None end.
Proof. induction l as [|d l IH]; [done|]. cbn. rewrite IH. by destruct (isContained (v_block v d) a). Qed.

Lemma chain_add_ok v b : vmm_ok v -> b ∉ blocks v -> vmm_ok (with_chain (v_chain v ++ [b]) v).
Proof.
  intros O Hb. destruct O as [O1 O2 O3 O4 O5 O6 O7 O8]. assert (O : vmm_ok v) by by split.
  set (w := with_chain (v_chain v ++ [b]) v).
  assert (Ec : forall l a, chain_find w l a = chain_find v l a) by (intros l a; by apply chain_find_ext).
  assert (Ef : forall a d, chain_find v (v_chain v) a = Some d -> chain_find w (v_chain w) a = Some d).
  { intros a d Ed. rewrite Ec. cbn. by rewrite chain_find_app, Ed. }
  split; try done.
  - assert (Hp : blocks w ≡ₚ b :: blocks v) by (unfold blocks; cbn; rewrite <-app_assoc; cbn; by rewrite <-Permutation_middle).
    rewrite Hp. by constructor.
  - intros e He. destruct (O5 e He). by split.
  - intros a Ha Hs. destruct (O7 a Ha Hs) as [d Hd]. exists d. by apply Ef.
  - intros a y Hy He. destruct (O8 a y Hy He) as [(d & Ho & Hp)|Hd]; [left|by right].
    exists d. split; [|done]. unfold owner in *. destruct (_ =? _); [by apply Ef|]. destruct (_ =? _); [|done].
    change (v_stacks w) with (v_stacks v). destruct (LList.find _ _ _) as [[k d']|]; [|done]. by rewrite Ec.
Qed.

Lemma align_page_ok n : 0 <= n <= 2 ^ 63 -> n <= align_page n <= 2 ^ 63 /\ align_page n mod PAGESIZE = 0.
Proof.
  intros Hn. unfold align_page. assert (Ha : n <= ALIGN_PAGE n <= 2 ^ 63 /\ ALIGN_PAGE n mod PAGESIZE = 0).
  { rewrite ALIGN_PAGE_eq; unfold PAGESIZE. Z.to_euclidean_division_equations; lia. }
  rewrite wrap_small by (split; lia). done.
Qed.

Lemma mmAllocBlock_ok v q va size m b rh wh :
  vmm_ok v -> b ∉ blocks v -> 0 <= va -> 0 <= size <= 2 ^ 63 ->
  let r := mmAllocBlock q va size m b rh wh v in
  vmm_ok r.2 /\
  (r = (- EINVAL, v) \/ r = (- EALREADY, v) \/
   r.1 = 0 /\ va < 2 ^ 40 /\ page_start va /\ v_chain r.2 = v_chain v ++ [b] /\ agree v (with_chain (v_chain v) r.2) /\
   iv_baseAddr (v_block r.2 b) = va /\ iv_size (v_block r.2 b) = align_page size /\ v_frames r.2 = v_frames v /\ iv_physMemSize r.2 = iv_physMemSize v).
Proof.
  intros O Hb Hva Hz. unfold mmAllocBlock. destruct (_ || _ || _) eqn:Eg; [split; [done|by left]|].
  destruct (bool_decide _); [split; [done|by right; left]|].
  apply orb_false_iff in Eg as [Eg Ea]. apply orb_false_iff in Eg as [Eg _]. apply Z.leb_gt in Eg. apply negb_false_iff, Z.eqb_eq in Ea.
  change (2 ^ SLBE_s) with (2 ^ 40) in Eg.
  destruct (align_page_ok size Hz) as [Hal Hal2]. assert (Hs : page_start va) by (rewrite Ea; apply align_down_start; split; lia).
  destruct (new_block_ok nowhere v va (align_page size) q m b rh wh O Hb Hs) as (O1 & A1 & B1 & B2 & B3 & B4); [lia|done|lia|].
  set (w := new_block va (align_page size) q m b rh wh v) in *.
  assert (Eb : blocks w = blocks v) by (unfold blocks; by rewrite (ag_chain _ _ A1), (ag_stacks _ _ A1)).
  cbn [fst snd]. split; [apply chain_add_ok; [done|by rewrite Eb]|]. right; right. rewrite <-(ag_chain _ _ A1). split_and!; try done.
  destruct A1 as [A1 A2 A3 A4 A5]. by split.
Qed.

(** *** Identity mappings *)

Definition covered v a fin : Prop := forall e, page_start e -> a <= e < fin -> is_Some (chain_find v (v_chain v) e).

Lemma covered_frame v v' a fin : same_frame v v' -> covered v a fin -> covered v' a fin.
Proof. intros S H e He Hr. rewrite (frame_chain v v'), (sf_chain _ _ S) by done. by apply H. Qed.

(** Mapping the pages of a range one after the other. *)
Lemma identity_ok v a fin acc :
  vmm_ok v -> page_start a -> a < fin -> covered v a fin ->
  acc = WRITABLE \/ acc = EXECUTABLE ->
  exists v', setPhysicalPage (v_chain v) a a acc v = Done v' /\ vmm_ok v' /\ same_frame v v' /\ v_frames v' = v_frames v /\ v_kern v' = v_kern v /\
    covered v' (a + PAGESIZE) fin.
Proof.
  intros O Hs Ha Hc Hacc. destruct (Hc a Hs) as [b Hf]; [lia|].
  destruct (setPhysicalPage_ok nowhere v (v_chain v) a a acc b O (stray_nowhere v) Hs Hf) as (v' & Ev & O' & S' & _ & _ & F' & K'); [tauto|].
  exists v'. split_and!; try done. apply (covered_frame v); [done|]. intros e He Hr. apply Hc; [done|]. unfold PAGESIZE in *. lia.
Qed.

Lemma map_loop_ok n a fin v :
  vmm_ok v -> page_start a -> fin + PAGESIZE < 2 ^ 64 -> covered v a fin ->
  exists v', map_loop n a fin v = Done v' /\ vmm_ok v' /\ same_frame v v' /\ v_frames v' = v_frames v /\ v_kern v' = v_kern v.
Proof.
  revert a v. induction n as [|n IH]; intros a v O Hs Hf Hc; [by exists v|]. cbn [map_loop].
  destruct (a <? fin) eqn:Ea; [|by exists v]. apply Z.ltb_lt in Ea.
  destruct (identity_ok v a fin WRITABLE O Hs Ea Hc) as (v1 & -> & O1 & S1 & F1 & K1 & C1); [by left|]. cbn [obind].
  destruct (IH (a + PAGESIZE) v1 O1) as (v2 & -> & O2 & S2 & F2 & K2); [apply start_next; [done|lia]|done|done|].
  exists v2. split_and!; try done; [by transitivity v1|congruence|congruence].
Qed.

Lemma init_loop_ok n a fin text v :
  vmm_ok v -> page_start a -> fin + PAGESIZE < 2 ^ 64 -> covered v a fin ->
  exists v', init_loop n a fin text v = Done v' /\ vmm_ok v' /\ same_frame v v' /\ v_frames v' = v_frames v /\ v_kern v' = v_kern v.
Proof.
  revert a v. induction n as [|n IH]; intros a v O Hs Hf Hc; [by exists v|]. cbn [init_loop].
  destruct (a <? fin) eqn:Ea; [|by exists v]. apply Z.ltb_lt in Ea.
  assert (Hv : exists v1, (if a =? 0 then Done v else setPhysicalPage (v_chain v) a a (if a <? ALIGN_PAGE_DOWN text then EXECUTABLE else WRITABLE) v) = Done v1 /\
    vmm_ok v1 /\ same_frame v v1 /\ v_frames v1 = v_frames v /\ v_kern v1 = v_kern v /\ covered v1 (a + PAGESIZE) fin).
  { destruct (a =? 0).
    - exists v. split_and!; try done. intros e He Hr. apply Hc; [done|]. unfold PAGESIZE in *. lia.
    - apply identity_ok; try done. destruct (_ <? _); tauto. }
  destruct Hv as (v1 & -> & O1 & S1 & F1 & K1 & C1). cbn [obind].
  destruct (IH (a + PAGESIZE) v1 O1) as (v2 & -> & O2 & S2 & F2 & K2); [apply start_next; [done|lia]|done|done|].
  exists v2. split_and!; try done; [by transitivity v1|congruence|congruence].
Qed.

Lemma block_covered w b fin :
  vmm_ok w -> b ∈ v_chain w -> fin <= iv_baseAddr (v_block w b) + iv_size (v_block w b) -> covered w (iv_baseAddr (v_block w b)) fin.
Proof.
  intros O Hb Hf e He Hr. assert (Hc : isContained (v_block w b) e = true).
  { apply contained_inside; [apply (vo_blocks _ _ O)|]. unfold inside. lia. }
  clear Hr. induction (v_chain w) as [|d l IH]; [by apply elem_of_nil in Hb|]. cbn. destruct (isContained (v_block w d) e) eqn:Ed; [done|].
  apply elem_of_cons in Hb as [->|Hb]; [congruence|auto].
Qed.

Lemma mmLinearMap_ok v pa size b rh wh :
  vmm_ok v -> b ∉ blocks v -> 0 <= pa -> 0 <= size <= 2 ^ 63 ->
  exists rc v', mmLinearMap pa size b rh wh v = Done (rc, v') /\ vmm_ok v' /\ v_frames v' = v_frames v /\ iv_physMemSize v' = iv_physMemSize v.
Proof.
  intros O Hb Hp Hz. unfold mmLinearMap. pose proof (mmAllocBlock_ok v None pa size true b rh wh O Hb Hp Hz) as Ha.
  destruct (mmAllocBlock _ _ _ _ _ _ _ v) as [rc w]. cbn [fst snd] in Ha.
  destruct Ha as [O1 [[= -> ->]|[[= -> ->]|(-> & Hva & Hs & Ec & A & B1 & B2 & F1 & P1)]]]; [by exists (- EINVAL), v|by exists (- EALREADY), v|].
  cbn. destruct (align_page_ok size Hz) as [Hal _]. rewrite (wrap_small _ (pa + size)) by (split; lia).
  destruct (map_loop_ok (Z.to_nat (size / PAGESIZE + 1)) pa (pa + size) w O1 Hs) as (v' & -> & O' & S' & F' & K').
  - unfold PAGESIZE. lia.
  - rewrite <-B1 at 1. apply block_covered; [done|rewrite Ec; apply elem_of_app; right; by left|]. rewrite B1, B2. lia.
  - exists 0, v'. split_and!; try done; [congruence|]. rewrite <-P1. apply S'.
Qed.

Lemma mmExtend_ok v cache b rh wh :
  vmm_ok v -> b ∉ blocks v -> 0 <= cache <= VMM_MEMORY_SIZE ->
  safe vmm_fault (fun r => vmm_ok r.2) (mmExtend cache b rh wh v).
Proof.
  intros O Hb Hc. unfold mmExtend. assert (Hz : 0 <= VMM_MEMORY_SIZE - cache <= 2 ^ 63) by (unfold VMM_MEMORY_SIZE in *; lia).
  pose proof (mmAllocBlock_ok v None cache (VMM_MEMORY_SIZE - cache) false b rh wh O Hb (proj1 Hc) Hz) as Ha.
  destruct (mmAllocBlock _ _ _ _ _ _ _ v) as [rc w]. cbn [fst snd] in Ha.
  destruct Ha as [O1 [[= -> ->]|[[= -> ->]|(-> & Hva & Hs & Ec & A & B1 & B2 & F1 & P1)]]]; [done..|].
  cbn [negb Z.eqb]. destruct (align_page_ok _ Hz) as [Hal _].
  destruct (map_loop_ok (Z.to_nat ((VMM_MEMORY_SIZE - cache) / PAGESIZE)) cache (cache + (VMM_MEMORY_SIZE - cache)) w O1 Hs) as (v' & -> & O' & S' & F' & K').
  - unfold VMM_MEMORY_SIZE, PAGESIZE. lia.
  - rewrite <-B1 at 1. apply block_covered; [done|rewrite Ec; apply elem_of_app; right; by left|]. rewrite B1, B2. lia.
  - cbn [obind]. destruct (fr_add _ _ _) as [s|f] eqn:Ef; cbn.
    + apply (alike_inv _ v'); [|done]. by split.
    + right. eexists (v_frames v'), _, _. right. exact Ef.
Qed.

(** ** The start *)

(** Before [VmmManager::init]: no block, no stack, no translation. *)
Record boot v : Prop := {
  bt_pt : pt_ok (v_pt v);
  bt_maps a : ~ mapped v a;
  bt_blocks b : block_ok (v_block v b);
  bt_chain : v_chain v = [];
  bt_stacks : v_stacks v = [];
  bt_devs : v_devs v = devs_init
}.

Lemma devs_init_ok segId l : devs_init segId = Some l -> length l = 32%nat /\ Forall dev_ok l.
Proof.
  unfold devs_init. destruct (_ && _); [|done]. intros E. assert (l = replicate 32 dev0) as -> by congruence.
  split; [apply length_replicate|]. apply Forall_replicate. by split.
Qed.

Lemma boot_ok v : boot v -> vmm_ok v.
Proof.
  intros [B1 B2 B3 B4 B5 B6]. split; try done.
  - unfold blocks. rewrite B4, B5. constructor.
  - rewrite B5. constructor.
  - intros e. rewrite B5. intros He. by apply elem_of_nil in He.
  - rewrite B6. apply devs_init_ok.
  - intros a Ha. by apply B2 in Ha.
  - intros a y Hy. destruct (B2 a). by exists y.
Qed.

Lemma BaseSegment_init_ok v cache text b :
  boot v -> 0 <= cache < 2 ^ 40 -> cache mod PAGESIZE = 0 ->
  exists v', BaseSegment_init cache text b v = Done v' /\ vmm_ok v' /\ v_chain v' = [b] /\ v_stacks v' = [] /\
    iv_baseAddr (v_block v' b) = 0 /\ iv_size (v_block v' b) = cache /\ v_frames v' = v_frames v /\ v_kern v' = v_kern v.
Proof.
  intros B Hc Hm. unfold BaseSegment_init.
  assert (O0 : vmm_ok (with_physMemSize cache v)) by by apply (alike_inv _ v), boot_ok.
  assert (Hb : b ∉ blocks (with_physMemSize cache v)) by (unfold blocks; cbn; rewrite (bt_chain _ B), (bt_stacks _ B); apply not_elem_of_nil).
  destruct (new_block_ok nowhere _ 0 cache None false b 0 0 O0 Hb) as (O1 & A1 & B1 & B2 & F1 & P1); [by split|lia|done|lia|].
  set (w := new_block 0 cache None false b 0 0 (with_physMemSize cache v)) in *.
  assert (Ec : v_chain w = []) by (rewrite (ag_chain _ _ A1); apply (bt_chain _ B)).
  assert (Es : v_stacks w = []) by (rewrite (ag_stacks _ _ A1); apply (bt_stacks _ B)).
  assert (O2 : vmm_ok (with_chain (v_chain w ++ [b]) w)).
  { apply chain_add_ok; [done|]. unfold blocks. rewrite Ec, Es. apply not_elem_of_nil. }
  rewrite Ec in O2. cbn [app] in O2.
  destruct (init_loop_ok (Z.to_nat (cache / PAGESIZE + 1)) 0 cache text (with_chain [b] w) O2) as (v' & -> & O' & S' & F' & K').
  - by split.
  - unfold PAGESIZE. lia.
  - change (v_block w) with (v_block (with_chain [b] w)) in B1, B2. rewrite <-B1. apply block_covered; [done|by left|]. rewrite B1, B2. lia.
  - exists v'. destruct (sf_blocks _ _ S' b) as [E1 E2 _ _ _]. split_and!; try done.
    + apply (sf_chain _ _ S').
    + rewrite (sf_stacks _ _ S'). exact Es.
    + by rewrite E1.
    + by rewrite E2.
Qed.
End range.
