(* ===== verification/VmmStack.v ===== *)
(** * Virtual memory: stacks

    A new stack is 64 pages that are allocated when they are first touched; a
    deleted one leaves no translation. *)

From S2P Require Import Prelude Containers PageMgr PtMgr Sched TaskMgr MsgQ Spte Vmm VmmSeg VmmSpec VmmOps VmmFault VmmRange.

(** ** Lists of stacks *)

Lemma find_erase_other (k k' : Z) (l : list (Z * Z)) : k' <> k -> LList.find fst k' (LList.erase fst k l) = LList.find fst k' l.
Proof.
  intros Hk. induction l as [|x l IH]; [done|]. cbn. destruct (x.1 =? k) eqn:E1; b2p.
  - destruct (x.1 =? k') eqn:E2; [b2p; congruence|done].
  - cbn. by rewrite IH.
Qed.

Lemma find_none k (l : list (Z * Z)) : LList.find fst k l = None <-> k ∉ l.*1.
Proof.
  induction l as [|x l IH]; cbn; [split; [intros _; apply not_elem_of_nil|done]|].
  rewrite not_elem_of_cons. destruct (x.1 =? k) eqn:E; b2p; [split; [done|]; intros [Hn _]; congruence|].
  rewrite IH. split; [intros; split; [congruence|done]|tauto].
Qed.

Lemma find_erase_self k (l : list (Z * Z)) : NoDup l.*1 -> LList.find fst k (LList.erase fst k l) = None.
Proof.
  induction l as [|x l IH]; cbn; [done|]. rewrite NoDup_cons. intros [Hx Hl]. destruct (x.1 =? k) eqn:E; b2p.
  - apply find_none. by rewrite <-E.
  - cbn. rewrite (proj2 (Z.eqb_neq _ _) E). auto.
Qed.

Lemma erase_sublist k (l : list (Z * Z)) : LList.erase fst k l `sublist_of` l.
Proof. induction l as [|x l IH]; cbn; [done|]. destruct (_ =? _); [by apply sublist_cons|by apply sublist_skip]. Qed.

Section stack.
Context {T F : Type} {PT : PageTable T} {PL : PageTableLaws T} {FR : Frames F}.
Implicit Types (v : Vmm T F) (b a : Z) (E : Z -> Prop).

(** Only pages with translations need be exempt. *)
Lemma inv_shrink E E' v : (forall a, mapped v a -> E a -> E' a) -> vmm_inv E v -> vmm_inv E' v.
Proof.
  intros Hm [O1 O2 O3 O4 O5 O6 O7 O8]. split; try done. intros a y Hy He. apply O8; [done|]. intros HE. apply He, Hm; [by exists y|done].
Qed.

(** ** A new stack *)

Definition stack_pte : ShadowPTE := (setPermSPTE false spte0 (Z.lor WRITABLE ALLOCATE_FROM_ZERO)).2.

Lemma stack_geometry tid : 0 <= tid < 2 ^ 16 ->
  page_start (stack_addr tid + l_offset_bottom tid) /\ stack_addr tid + l_offset_bottom tid + 256 * 1024 < stack_addr tid + STACK_RANGE /\
  stack_addr tid < stack_addr tid + l_offset_bottom tid /\ stack_addr tid + STACK_RANGE <= 2 ^ 41 /\ 2 ^ 40 <= stack_addr tid.
Proof.
  unfold page_start, is_word, stack_addr, l_offset_bottom, STACK_RANGE, VMM_VADDR_STACK_SEGMENT, PAGESIZE. intros Ht.
  Z.to_euclidean_division_equations; lia.
Qed.

(** An address of the 8 MB of a task's stack. *)
Lemma stack_range_key tid a : 0 <= tid < 2 ^ 16 -> stack_addr tid <= a < stack_addr tid + STACK_RANGE ->
  stack_key a = stack_addr tid /\ getSegmentIdFromAddress a = STACK_SEGMENT_ID.
Proof.
  intros Ht Ha. destruct (stack_geometry tid Ht) as (_ & _ & _ & H1 & H2). unfold getSegmentIdFromAddress. rewrite Z.shiftr_div_pow2 by done. split.
  - unfold stack_key, stack_addr, STACK_RANGE, VMM_VADDR_STACK_SEGMENT in *. Z.to_euclidean_division_equations; lia.
  - unfold STACK_SEGMENT_ID, SLBE_s. Z.to_euclidean_division_equations; lia.
Qed.

Lemma setPhysicalPage_zero E v chain a acc b :
  vmm_inv E v -> chain_find v chain a = Some b -> present (spte v b a) = false ->
  (setPermSPTE (bool_decide (is_Some (iv_writeMsgHdlr (v_block v b)))) (spte v b a) acc).1 = 0 ->
  setPhysicalPage chain a 0 acc v =
    Done (put_pte b a (setPermSPTE (bool_decide (is_Some (iv_writeMsgHdlr (v_block v b)))) (spte v b a) acc).2 v).
Proof.
  intros O Hf Hp Hrc. unfold setPhysicalPage. rewrite Hf. apply chain_find_spec in Hf as [_ Hc].
  apply contained_inside in Hc; [|apply (vo_blocks _ _ O)]. rewrite (getPTE_inside E) by done. cbn [obind negb Z.eqb]. rewrite Hp. cbn [obind].
  rewrite (getPTE_inside E) by done. cbn [obind]. destruct (setPermSPTE _ _ acc) as [rc p]. cbn in Hrc |- *. subst rc.
  by rewrite (modPTE_inside E).
Qed.

(** The first [k] entries are set. *)
Record stacking (k base : Z) b v : Prop := {
  sg_base : iv_baseAddr (v_block v b) = base;
  sg_size : iv_size (v_block v b) = 256 * 1024;
  sg_write : iv_writeMsgHdlr (v_block v b) = None;
  sg_read : iv_readMsgHdlr (v_block v b) = None;
  sg_ptes i : 0 <= i < 64 -> iv_ptes (v_block v b) i = if i <? k then stack_pte else spte0
}.

Lemma stack_loop_ok n k base b v :
  vmm_ok v -> b ∉ blocks v -> stacking k base b v -> 0 <= k -> k + Z.of_nat n = 64 ->
  exists v', stack_loop n b (base + k * PAGESIZE) (base + 256 * 1024 - 8) v = Done v' /\ vmm_ok v' /\ same_frame v v' /\
    stacking 64 base b v' /\ v_frames v' = v_frames v /\ v_kern v' = v_kern v /\ v_pt v' = v_pt v.
Proof.
  revert k v. induction n as [|n IH]; intros k v O Hb G Hk Hn.
  { exists v. split_and!; try done. by assert (k = 64) as <- by lia. }
  cbn [stack_loop]. rewrite (proj2 (Z.leb_le _ _)) by (unfold PAGESIZE; lia).
  pose proof (vo_blocks _ _ O b) as Bo. destruct G as [G1 G2 G3 G4 G5]. set (a := base + k * PAGESIZE).
  assert (Hi : inside (v_block v b) a) by (unfold inside, a, PAGESIZE; lia).
  assert (Ei : pte_index (v_block v b) a = k).
  { rewrite (proj1 (index_inside _ _ Bo Hi)), G1. unfold a, PAGESIZE. Z.to_euclidean_division_equations; lia. }
  assert (Es : spte v b a = spte0) by (unfold spte; rewrite Ei, G5 by lia; by rewrite (proj2 (Z.ltb_ge k k))).
  assert (Ef : chain_find v [b] a = Some b) by (cbn; by rewrite (proj2 (contained_inside _ _ Bo))).
  rewrite (setPhysicalPage_zero nowhere v [b] a _ b O Ef); rewrite ?Es, ?G3; [|done|done]. cbn [obind].
  fold stack_pte. change (bool_decide (is_Some None)) with false. fold stack_pte. set (v1 := put_pte b a stack_pte v).
  assert (S1 : same_frame v v1) by apply put_frame.
  assert (O1 : vmm_ok v1).
  { destruct (bo_base _ Bo) as [_ Hm]. apply put_ok; [done|done| |by split|].
    - rewrite G1 in Hm. unfold a. unfold PAGESIZE in Hm |- *. Z.to_euclidean_division_equations; lia.
    - intros Ho. by destruct (owner_block nowhere v a b O Ho). }
  destruct (IH (k + 1) v1 O1) as (v' & Ev & O' & S' & G' & F' & K' & T'); [| |lia|lia|].
  - unfold blocks. by rewrite (sf_chain _ _ S1), (sf_stacks _ _ S1).
  - destruct (sf_blocks _ _ S1 b) as [E1 E2 E3 E4 _]. split; rewrite ?E1, ?E2, ?E3, ?E4; try done.
    intros i Hi'. unfold v1. rewrite put_ptes, Z.eqb_refl, Ei, G5 by done. cbn.
    destruct (i =? k) eqn:E5; b2p; [by rewrite (proj2 (Z.ltb_lt i (k + 1))) by lia|].
    destruct (i <? k) eqn:E6, (i <? k + 1) eqn:E7; b2p; done || lia.
  - replace (base + (k + 1) * PAGESIZE) with (a + PAGESIZE) in Ev by (unfold a; lia).
    exists v'. split_and!; try done; by transitivity v1.
Qed.

Lemma stack_add_ok v k b :
  vmm_ok v -> b ∉ blocks v -> LList.find fst k (v_stacks v) = None -> stack_ok v (k, b) -> vmm_ok (with_stacks (LList.insert (k, b) (v_stacks v)) v).
Proof.
  intros O Hb Hk Hst. set (w := with_stacks _ v). destruct O as [O1 O2 O3 O4 O5 O6 O7 O8]. assert (O : vmm_ok v) by by split.
  assert (Ec : forall l a, chain_find w l a = chain_find v l a) by (intros l a; by apply chain_find_ext).
  split; try done.
  - assert (Hp : blocks w ≡ₚ b :: blocks v) by (unfold blocks; cbn; by rewrite <-Permutation_middle).
    rewrite Hp. by constructor.
  - cbn. constructor; [|done]. by apply find_none.
  - intros e He. cbn in He. apply elem_of_cons in He as [->|He]; [|destruct (O5 e He)]; [destruct Hst|]; by split.
  - intros a Ha Hs. rewrite Ec. by apply O7.
  - intros a y Hy He. destruct (O8 a y Hy He) as [(d & Ho & Hp)|Hd]; [left|by right]. exists d. split; [|done].
    unfold owner in *. change (v_chain w) with (v_chain v). rewrite Ec. destruct (_ =? _); [done|]. destruct (_ =? _); [|done].
    cbn [w with_stacks v_stacks LList.insert LList.find fst]. destruct (k =? stack_key a) eqn:E; b2p; [by rewrite <-E, Hk in Ho|].
    cbn [negb]. destruct (LList.find fst (stack_key a) (v_stacks v)) as [[k' d']|]; [|done]. by rewrite Ec.
Qed.

(** [createStack] makes the stack of a task that has none. *)
Lemma createStack_ok v tid b :
  vmm_ok v -> b ∉ blocks v -> 0 <= tid < 2 ^ 16 -> LList.find fst (stack_addr tid) (v_stacks v) = None ->
  exists v', createStack tid b v = Done (stack_addr tid + l_offset_top tid, v') /\ vmm_ok v' /\
    v_stacks v' = (stack_addr tid, b) :: v_stacks v /\ v_chain v' = v_chain v /\ stacking 64 (stack_addr tid + l_offset_bottom tid) b v' /\
    v_frames v' = v_frames v /\ v_pt v' = v_pt v.
Proof.
  intros O Hb Ht Hf. unfold createStack. rewrite Hf. cbn [negb bool_decide].
  destruct (stack_geometry tid Ht) as (Gs & G1 & G2 & G3 & G4). set (base := stack_addr tid + l_offset_bottom tid) in *.
  destruct (new_block_ok nowhere v base (256 * 1024) None false b 0 0 O Hb Gs) as (O1 & A1 & B1 & B2 & F1 & P1); [done|done|unfold STACK_RANGE in *; lia|].
  assert (G : stacking 0 base b (new_block base (256 * 1024) None false b 0 0 v)).
  { split; [done|done|cbn; by rewrite upd_eq..|]. intros i Hi. cbn. rewrite upd_eq. cbn. by rewrite (proj2 (Z.ltb_ge _ _)) by lia. }
  set (w := new_block _ _ _ _ _ _ _ v) in *.
  assert (Hbw : b ∉ blocks w) by (unfold blocks; by rewrite (ag_chain _ _ A1), (ag_stacks _ _ A1)).
  destruct (stack_loop_ok 64 0 base b w O1 Hbw G) as (v' & Ev & O' & S' & G' & F' & K' & T'); [done|done|].
  replace (stack_addr tid + l_offset_top tid) with (base + 256 * 1024 - 8) by (unfold base, l_offset_top; lia).
  replace (base + 0 * PAGESIZE) with base in Ev by lia. rewrite bool_decide_eq_false_2 by by intros [? ?].
  cbn [negb]. rewrite Ev. cbn [obind]. eexists. split; [reflexivity|].
  assert (Es : v_stacks v' = v_stacks v) by (rewrite (sf_stacks _ _ S'); apply A1).
  rewrite Es. split_and!; try done.
  - rewrite <-Es. destruct (sf_blocks _ _ S' b) as [E1 E2 _ _ _]. apply stack_add_ok; [done| |by rewrite Es|].
    + unfold blocks. by rewrite (sf_chain _ _ S'), (sf_stacks _ _ S').
    + split; cbn; [exists tid; by rewrite (sg_base _ _ _ _ G')|by rewrite (sg_size _ _ _ _ G')].
  - cbn. rewrite (sf_chain _ _ S'). apply A1.
  - destruct G' as [J1 J2 J3 J4 J5]. split; done.
Qed.

(** ** A deleted stack *)

Definition in_stack (k p : Z) : Z -> Prop := fun a => getSegmentIdFromAddress a = STACK_SEGMENT_ID /\ stack_key a = k /\ p <= a.

Lemma find_in k b v : NoDup (v_stacks v).*1 -> (k, b) ∈ v_stacks v -> LList.find fst k (v_stacks v) = Some (k, b).
Proof.
  intros Hn Hin. induction (v_stacks v) as [|x l IH]; [by apply elem_of_nil in Hin|]. cbn in *. apply NoDup_cons in Hn as [Hx Hl].
  apply elem_of_cons in Hin as [<-|Hin]; cbn; [by rewrite Z.eqb_refl|].
  destruct (x.1 =? k) eqn:E; b2p; [|auto]. destruct Hx. apply list_elem_of_fmap. by exists (k, b).
Qed.

(** Taking the stack off the list: its pages' translations are exempt for now. *)
Lemma stack_del_ok v k b :
  vmm_ok v -> LList.find fst k (v_stacks v) = Some (k, b) ->
  let w := with_stacks (LList.erase fst k (v_stacks v)) v in
  vmm_inv (in_stack k (iv_baseAddr (v_block v b))) w /\ stray (in_stack k (iv_baseAddr (v_block v b))) w /\
  forall a, in_stack k (iv_baseAddr (v_block v b)) a -> mapped w a -> inside (v_block w b) a /\ present (spte w b a) = true.
Proof.
  intros O Hf w. pose proof O as [O1 O2 O3 O4 O5 O6 O7 O8]. pose proof (erase_sublist k (v_stacks v)) as Hsub.
  assert (Ec : forall l a, chain_find w l a = chain_find v l a) by (intros l a; by apply chain_find_ext).
  assert (Hown : forall a, getSegmentIdFromAddress a = STACK_SEGMENT_ID -> stack_key a = k -> mapped v a ->
    inside (v_block v b) a /\ present (spte v b a) = true).
  { intros a Hs Hk [y Hy]. destruct (O8 a y Hy) as [(d & Ho & Hp)|[Hd _]]; [intros []| |by rewrite Hs in Hd].
    destruct (owner_block nowhere v a d O Ho) as [_ Hi]. unfold owner in Ho. rewrite Hs, Hk, Hf in Ho. cbn in Ho.
    destruct (isContained _ _); [|done]. injection Ho as <-. split; [done|apply Hp]. }
  split_and!.
  - split; try done.
    + unfold blocks. cbn. eapply sublist_NoDup; [exact O3|]. apply sublist_app; [done|]. by apply fmap_sublist.
    + cbn. eapply sublist_NoDup; [exact O4|]. by apply fmap_sublist.
    + intros e He. cbn in He. assert (He' : e ∈ v_stacks v) by by eapply elem_of_sublist. destruct (O5 e He'). by split.
    + intros a Ha Hs. rewrite Ec. by apply O7.
    + intros a y Hy He. destruct (O8 a y Hy) as [(d & Ho & Hp)|Hd]; [intros []|left|by right]. exists d. split; [|done].
      destruct (owner_block nowhere v a d O Ho) as [_ Hi].
      unfold owner in *. change (v_chain w) with (v_chain v). rewrite Ec. destruct (_ =? _); [done|]. destruct (_ =? STACK_SEGMENT_ID) eqn:Es; [|done].
      change (v_stacks w) with (LList.erase fst k (v_stacks v)). b2p. destruct (decide (stack_key a = k)) as [Hk|Hk].
      * destruct He. split; [done|]. split; [done|]. destruct (Hown a Es Hk) as [Hi' _]; [by exists y|]. apply Hi'.
      * rewrite find_erase_other by done. destruct (LList.find fst (stack_key a) (v_stacks v)) as [[k' d']|]; [|done]. by rewrite Ec.
  - intros e d (Hs & Hk & _). unfold owner. rewrite Hs, Hk. cbn. by rewrite find_erase_self.
  - intros a (Hs & Hk & _) Ha. by apply Hown.
Qed.

(** One page of the loop. *)
Lemma release_step k b p v :
  vmm_inv (in_stack k p) v -> stray (in_stack k p) v -> inside (v_block v b) p -> page_start p ->
  (forall a, in_stack k p a -> mapped v a -> inside (v_block v b) a /\ present (spte v b a) = true) ->
  (mapped v p -> in_stack k p p) ->
  safe vmm_fault (fun v' => vmm_inv (in_stack k (p + PAGESIZE)) v' /\ same_frame v v' /\
      forall a, in_stack k (p + PAGESIZE) a -> mapped v' a -> inside (v_block v' b) a /\ present (spte v' b a) = true)
    (if present (spte v b p) then
       do v1 <- delEntry p v;
       let addr := getPageAddr (spte v b p) in
       if negb (addr =? 0) then do v2 <- releaseSPTE b p v1; do s <- fr_free addr (v_frames v2); Done (with_frames s v2) else Done v1
     else Done v).
Proof.
  intros O St Hi Hs Hpr Hp. set (P := in_stack k p) in *. set (P' := in_stack k (p + PAGESIZE)).
  assert (Hfin : forall v', vmm_inv P v' -> same_frame v v' -> (forall e, mapped v' e -> mapped v e) -> ~ mapped v' p ->
    (forall i, i <> pte_index (v_block v b) p -> present (iv_ptes (v_block v' b) i) = present (iv_ptes (v_block v b) i)) ->
    vmm_inv P' v' /\ same_frame v v' /\ forall a, P' a -> mapped v' a -> inside (v_block v' b) a /\ present (spte v' b a) = true).
  { intros v' O' S' M' U' Pr'. split_and!; [|done|].
    - apply (inv_shrink P); [|done]. intros a Ha (A1 & A2 & A3). split; [done|]. split; [done|].
      assert (a <> p) by by intros ->. destruct Ha as [y Hy]. destruct (pt_maps_page _ _ _ (vo_pt _ _ O') Hy) as [_ Hal].
      destruct Hs as [_ Hs]. unfold PAGESIZE in *. Z.to_euclidean_division_equations; lia.
    - intros a (A1 & A2 & A3) Ha. assert (Hap : in_stack k p a) by (split_and!; [done..|unfold PAGESIZE in *; lia]).
      destruct (Hpr a Hap (M' a Ha)) as [Hia Hpa]. split; [by apply (frame_inside v)|].
      unfold spte in *. rewrite (quiet_index v v') by done. rewrite Pr'; [done|]. intros He.
      destruct Ha as [y Hy]. destruct (pt_maps_page _ _ _ (vo_pt _ _ O') Hy) as [_ Hal].
      assert (a = p) as -> by (apply (pte_index_inj (v_block v b)); try done; [apply (vo_blocks _ _ O)|apply Hs]).
      unfold PAGESIZE in *. lia. }
  destruct (present (spte v b p)) eqn:Epr.
  - destruct (cleared P v b p O St Hi Hs) as (v1 & v2 & -> & Er & (O1 & P1 & M1 & [F1 K1 A1] & Sp1) & (O2 & P2 & M2 & [F2 K2 A2] & G2)).
    cbn [obind]. destruct (negb _); [rewrite Er; cbn [obind]|].
    + rewrite F2. destruct (fr_free _ _) as [s|f] eqn:Ef; cbn; [|right; eexists (v_frames v), _, 0; left; exact Ef].
      apply (Hfin (with_frames s v2)); [by apply (alike_inv _ v2)|destruct P2 as [S2 _ _ _ _]; destruct S2; by split|apply (op_maps _ _ _ _ P2)|done|].
      intros i Hne. apply (op_sptes _ _ _ _ P2 b i). intros [_ ->]. done.
    + cbn. apply Hfin; [done|apply P1|apply (op_maps _ _ _ _ P1)|done|]. intros i Hne. apply (op_sptes _ _ _ _ P1 b i). intros [_ ->]. done.
  - cbn. apply Hfin; try done. intros Hm. destruct (Hpr p (Hp Hm) Hm). congruence.
Qed.

Lemma vmm_release_ok n k b p v :
  vmm_inv (in_stack k p) v -> stray (in_stack k p) v -> page_start p -> iv_baseAddr (v_block v b) <= p ->
  p + Z.of_nat n * PAGESIZE = iv_baseAddr (v_block v b) + iv_size (v_block v b) ->
  (forall a, p <= a < iv_baseAddr (v_block v b) + iv_size (v_block v b) -> getSegmentIdFromAddress a = STACK_SEGMENT_ID /\ stack_key a = k) ->
  (forall a, in_stack k p a -> mapped v a -> inside (v_block v b) a /\ present (spte v b a) = true) ->
  safe vmm_fault (fun v' => vmm_ok v' /\ same_frame v v') (release_loop n b p v).
Proof.
  revert p v. induction n as [|n IH]; intros p v O St Hs Hlo Hend Hk Hpr; cbn [release_loop].
  - cbn. split; [|done]. apply (inv_shrink (in_stack k p)); [|done]. intros a Ha Hp.
    destruct (Hpr a Hp Ha) as [[_ Hi] _]. destruct Hp as (_ & _ & Hp). lia.
  - pose proof (bo_end _ (vo_blocks _ _ O b)) as He.
    assert (Hi : inside (v_block v b) p) by (unfold inside, PAGESIZE in *; lia).
    rewrite (getPTE_inside (in_stack k p)) by done. cbn [obind].
    eapply (safe_bind _ (fun v' => vmm_inv (in_stack k (p + PAGESIZE)) v' /\ same_frame v v' /\
      forall a, in_stack k (p + PAGESIZE) a -> mapped v' a -> inside (v_block v' b) a /\ present (spte v' b a) = true)).
    + apply release_step; try done. intros _. destruct (Hk p); [unfold PAGESIZE in *; lia|]. by split_and!.
    + intros v1 (O1 & S1 & Pr1). destruct (sf_blocks _ _ S1 b) as [E1 E2 _ _ _]. destruct n as [|n].
      * cbn. split; [|done]. apply (inv_shrink (in_stack k (p + PAGESIZE))); [|done]. intros a Ha Hp.
        destruct (Pr1 a Hp Ha) as [[_ Hi'] _]. destruct Hp as (_ & _ & Hp). rewrite E1, E2 in Hi'. unfold PAGESIZE in *. lia.
      * eapply safe_mono; [apply IH|]; rewrite ?E1, ?E2; try done.
        -- apply (stray_frame _ v); [done|]. intros e d (A1 & A2 & A3). apply St. split_and!; [done..|unfold PAGESIZE in *; lia].
        -- apply start_next; [done|unfold PAGESIZE in *; lia].
        -- unfold PAGESIZE. lia.
        -- rewrite <-Hend. unfold PAGESIZE. lia.
        -- intros a Ha. apply Hk. unfold PAGESIZE in *. lia.
        -- intros v' [O' S']. split; [done|by transitivity v1].
Qed.

Lemma deleteStack_ok v tid b :
  vmm_ok v -> 0 <= tid < 2 ^ 16 -> LList.find fst (stack_addr tid) (v_stacks v) = Some (stack_addr tid, b) ->
  safe vmm_fault (fun v' => vmm_ok v' /\ v_stacks v' = LList.erase fst (stack_addr tid) (v_stacks v) /\ v_chain v' = v_chain v)
    (deleteStack tid v).
Proof.
  intros O Ht Hf. unfold deleteStack. rewrite Hf. unfold releaseAllPages.
  destruct (stack_del_ok v _ b O Hf) as (O1 & St1 & Pr1). set (w := with_stacks _ v) in *.
  change (v_block w b) with (v_block v b).
  destruct (vo_stacks _ _ O (stack_addr tid, b)) as [(tid' & Ht' & Ek & Eb) Es]; [by apply find_elem in Hf as [Hf _]|]. cbn in Ek, Eb, Es.
  assert (tid' = tid) as -> by (unfold stack_addr, STACK_RANGE in Ek; lia).
  destruct (stack_geometry tid Ht) as (Gs & G1 & G2 & G3 & G4).
  eapply safe_mono; [apply (vmm_release_ok _ (stack_addr tid))|]; try done.
  - by rewrite Eb.
  - change (v_block w b) with (v_block v b). by rewrite Es.
  - change (v_block w b) with (v_block v b). rewrite Es, Eb. intros a Ha. destruct (stack_range_key tid a Ht); [lia|done].
  - intros v' [O' S']. split_and!; [done|apply (sf_stacks _ _ S')|apply (sf_chain _ _ S')].
Qed.
End stack.
