(* ===== verification/VmmDev.v ===== *)
(** * Virtual memory: device windows, and what [mmSetPermission] sets

    A window is entered before its pages are translated and its translations are
    taken out before it is free again. *)

From S2P Require Import Prelude Containers PageMgr PtMgr Sched TaskMgr MsgQ Spte Vmm VmmSeg VmmSpec VmmOps VmmFault VmmRange.

(** ** Addresses and windows *)

Lemma dev_geometry a : is_word 64 a ->
  let segId := getSegmentIdFromAddress a in
  in_segment segId a = true /\ a - segId * VMM_SEGMENT_SIZE = a mod 2 ^ 40 /\ a mod 2 ^ 40 / WINDOW = dev_index a /\
  a mod 2 ^ 40 - dev_index a * WINDOW = dev_offset a /\ 0 <= dev_index a < 32 /\ 0 <= dev_offset a < WINDOW.
Proof.
  intros [H1 H2] segId. assert (Es : segId = a / 2 ^ 40) by (apply Z.shiftr_div_pow2; done). clearbody segId. subst segId.
  unfold in_segment, VMM_SEGMENT_SIZE, dev_index, dev_offset, WINDOW, MMIO_MAP_DEVICES, SLBE_s.
  rewrite andb_true_iff, Z.leb_le, Z.ltb_lt. change (2 ^ 40 / 32) with 34359738368. change (2 ^ 40) with 1099511627776.
  pose proof (Z.div_mod a 1099511627776 ltac:(done)). pose proof (Z.mod_pos_bound a 1099511627776 eq_refl).
  split_and!; try done; Z.to_euclidean_division_equations; lia.
Qed.

(** The page of an address is in the same window. *)
Lemma dev_down a : dev_index (ALIGN_PAGE_DOWN a) = dev_index a /\ dev_offset (ALIGN_PAGE_DOWN a) = ALIGN_PAGE_DOWN (dev_offset a).
Proof.
  unfold dev_index, dev_offset, WINDOW, MMIO_MAP_DEVICES, SLBE_s, ALIGN_PAGE_DOWN, PAGESIZE. change (2 ^ 40 / 32) with 34359738368. change (2 ^ 40) with 1099511627776.
  Z.to_euclidean_division_equations; lia.
Qed.

Lemma dev_at_insert l i d idx : (i < length l)%nat -> 0 <= idx -> dev_at (<[i := d]> l) idx = if idx =? Z.of_nat i then d else dev_at l idx.
Proof.
  intros Hi Hx. unfold dev_at. rewrite !nth_lookup. destruct (idx =? Z.of_nat i) eqn:E; b2p.
  - subst. rewrite Nat2Z.id, list_lookup_insert_eq by done. done.
  - rewrite list_lookup_insert_ne by lia. done.
Qed.

Lemma dev_at_ok l idx : Forall dev_ok l -> dev_ok (dev_at l idx).
Proof.
  intros Hl. unfold dev_at. rewrite nth_lookup. destruct (l !! _) as [d|] eqn:E; [|by split].
  cbn. by eapply Forall_lookup_1.
Qed.

Section dev.
Context {T F : Type} {PT : PageTable T} {PL : PageTableLaws T} {FR : Frames F}.
Implicit Types (v : Vmm T F) (b a : Z) (E : Z -> Prop).

(** ** Faults *)

Lemma device_no_owner v a : is_device (getSegmentIdFromAddress a) = true -> owner v a = None.
Proof. intros Hd. destruct (owner v a) as [b|] eqn:Ho; [|done]. apply owner_not_device in Ho. congruence. Qed.

Lemma dev_access_real d pg : pt_real pg (dev_access d) = pg.
Proof. apply pt_real_device. unfold dev_access. destruct (dv_no_ci d); [right|by left]. by destruct (dv_guarded d). Qed.

Lemma Dev_fault_ok v a l :
  vmm_ok v -> is_word 64 a -> is_device (getSegmentIdFromAddress a) = true -> v_devs v (getSegmentIdFromAddress a) = Some l ->
  let d := dev_at l (dev_index a) in
  exists v', Dev_handlePageFault (getSegmentIdFromAddress a) a l v = Done (dev_offset a <? dv_size d, v') /\ vmm_ok v' /\ calm v v' /\
    (dev_offset a < dv_size d ->
     pt_maps (v_pt v') (ALIGN_PAGE_DOWN a) ((dv_addr d + dev_offset a) / PAGESIZE, writes (dev_access d))).
Proof.
  intros O Ha Hd Hl d. destruct (dev_geometry a Ha) as (G1 & G2 & G3 & G4 & G5 & G6).
  unfold Dev_handlePageFault. rewrite G1, G2, G3. cbn [negb].
  replace (dev_index a * 2 ^ SLBE_s / MMIO_MAP_DEVICES) with (dev_index a * WINDOW) by (unfold WINDOW; by rewrite Z.divide_div_mul_exact by (try done; by exists (2 ^ 35))).
  rewrite G4. fold d. destruct (vo_devs _ _ O _ _ Hl) as [_ Hok]. destruct (dev_at_ok l (dev_index a) Hok) as (D1 & D2 & D3 & D4 & D5). fold d in D1, D2, D3, D4, D5.
  destruct (dv_size d <=? dev_offset a) eqn:Eo; b2p.
  - exists v. rewrite (proj2 (Z.ltb_ge _ _)) by lia. split_and!; try done. lia.
  - rewrite (proj2 (Z.ltb_lt _ _)) by lia. rewrite div_mul_down, wrap_small by (split; lia). fold (dev_access d).
    set (pg := (dv_addr d + dev_offset a) / PAGESIZE).
    pose proof (align_down_start a Ha) as Hs. destruct (dev_down a) as [E1 E2].
    assert (Epg : (dv_addr d + dev_offset (ALIGN_PAGE_DOWN a)) / PAGESIZE = pg).
    { rewrite E2. unfold pg, ALIGN_PAGE_DOWN, PAGESIZE in *. Z.to_euclidean_division_equations; lia. }
    assert (Hlt : dev_offset (ALIGN_PAGE_DOWN a) < dv_size d) by (rewrite E2; unfold ALIGN_PAGE_DOWN, PAGESIZE; Z.to_euclidean_division_equations; lia).
    destruct (vmm_addEntry_ok nowhere v (ALIGN_PAGE_DOWN a) pg (dev_access d) O Hs) as (v' & -> & O' & C & Hm & _).
    + unfold pg, PAGESIZE. split; [apply Z.div_pos; lia|]. apply Z.div_lt_upper_bound; lia.
    + intros y Hy. rewrite dev_access_real. destruct (vo_maps _ _ O _ y Hy) as [(b & Ho & _)|(_ & l' & El & Hd1 & Hd2)]; [intros []| |].
      * rewrite device_no_owner in Ho; [done|by rewrite down_segment].
      * rewrite down_segment, Hl in El. injection El as <-. rewrite E1 in Hd2. fold d in Hd2. by rewrite Hd2.
    + rewrite dev_access_real. right. unfold device_backs. rewrite down_segment. split; [done|]. exists l. split; [done|]. rewrite E1. fold d. by split.
    + cbn. exists v'. rewrite dev_access_real in Hm. by split_and!.
Qed.

(** ** Mapping *)

Lemma map_window_spec segId i ra sz nc g l :
  match map_window segId i ra sz nc g l with
  | Some (ea, l') => exists k d, l !! k = Some d /\ dv_addr d = 0 /\ dv_size d = 0 /\ l' = <[k := mkDev ra nc g (wrap 62 sz)]> l /\
      ea = (i + Z.of_nat k) * WINDOW + segId * VMM_SEGMENT_SIZE
  | None => forall d, d ∈ l -> ~ (dv_addr d = 0 /\ dv_size d = 0)
  end.
Proof.
  revert i. induction l as [|d l IH]; intros i; cbn [map_window]; [intros d Hd; by apply elem_of_nil in Hd|].
  destruct ((dv_addr d =? 0) && (dv_size d =? 0)) eqn:E.
  - b2p. exists 0%nat, d. split_and!; try done. by rewrite Z.add_0_r.
  - specialize (IH (i + 1)). destruct (map_window _ _ _ _ _ _ l) as [[ea l']|].
    + destruct IH as (k & d' & Hk & Ha & Hz & -> & ->). exists (S k), d'. split_and!; try done. f_equal. lia.
    + intros d' [->|Hd']%elem_of_cons; [|auto]. intros [Ha Hz]. rewrite Ha, Hz in E. done.
Qed.

(** A window may be entered where there was none. *)
Lemma window_ok v segId l k d d' :
  vmm_ok v -> v_devs v segId = Some l -> l !! k = Some d -> dv_size d = 0 \/ (forall a, mapped v a -> getSegmentIdFromAddress a = segId -> dev_index a <> Z.of_nat k) ->
  dev_ok d' -> vmm_ok (with_devs (upd (v_devs v) segId (Some (<[k := d']> l))) v).
Proof.
  intros O Hl Hk Hfree Hd'. set (w := with_devs _ v). destruct O as [O1 O2 O3 O4 O5 O6 O7 O8].
  assert (Ec : forall l a, chain_find w l a = chain_find v l a) by (intros l0 a; by apply chain_find_ext).
  destruct (O6 segId l Hl) as [Hlen Hok]. pose proof (lookup_lt_Some _ _ _ Hk) as Hlt.
  split; try done.
  - intros e He. destruct (O5 e He). by split.
  - intros s l'. cbn. unfold upd. destruct (s =? segId) eqn:E; [|apply O6]. intros [= <-]. b2p. subst s.
    split; [by rewrite length_insert|]. by apply Forall_insert.
  - intros a Ha Hs. rewrite Ec. by apply O7.
  - intros a y Hy He. destruct (O8 a y Hy He) as [(b & Ho & Hp)|(Hd & l' & El & Hd1 & Hd2)]; [left|right].
    + exists b. split; [|done]. unfold owner in *. change (v_chain w) with (v_chain v). change (v_stacks w) with (v_stacks v). rewrite Ec.
      destruct (_ =? _); [done|]. destruct (_ =? _); [|done]. destruct (LList.find fst (stack_key a) (v_stacks v)) as [[k' b']|]; [|done]. by rewrite Ec.
    + split; [done|]. cbn. unfold upd. destruct (_ =? segId) eqn:E; [|by exists l']. b2p. rewrite E, Hl in El. injection El as <-.
      exists (<[k := d']> l). split; [done|]. destruct (dev_geometry a) as (_ & _ & _ & _ & G5 & G6); [by apply (pt_maps_page _ _ _ O1 Hy)|].
      rewrite dev_at_insert by (done || lia). destruct (dev_index a =? Z.of_nat k) eqn:Ei; [|done]. b2p. exfalso.
      destruct Hfree as [Hz|Hn]; [|by apply (Hn a); [by exists y|..]].
      unfold dev_at in Hd1. rewrite Ei, nth_lookup, Nat2Z.id, Hk in Hd1. cbn in Hd1. lia.
Qed.

(** The window a successful [devMap] enters. *)
Definition windowed v segId k ea : Prop :=
  is_device segId = true /\ (exists l d0, v_devs v segId = Some l /\ l !! k = Some d0 /\ dv_addr d0 = 0 /\ dv_size d0 = 0) /\
  (k < 32)%nat /\ ea = segId * VMM_SEGMENT_SIZE + Z.of_nat k * WINDOW.

Definition enter_window v segId k (d : devSegData) : Vmm T F :=
  match v_devs v segId with Some l => with_devs (upd (v_devs v) segId (Some (<[k := d]> l))) v | None => v end.

Definition full v segId : Prop := forall l d, v_devs v segId = Some l -> d ∈ l -> ~ (dv_addr d = 0 /\ dv_size d = 0).

Lemma devMap_from_spec n segId v ra sz nc g :
  vmm_ok v -> (forall s, segId <= s < segId + Z.of_nat n -> is_device s = true) -> sz <= THIRTYTWO_GB ->
  let r := devMap_from n segId ra sz nc g v in
  (r = (0, v) /\ forall s, segId <= s < segId + Z.of_nat n -> full v s) \/
  exists s k, segId <= s /\ windowed v s k r.1 /\
    r.2 = enter_window v s k (mkDev ra nc g (wrap 62 sz)).
Proof.
  intros O. revert segId. induction n as [|n IH]; intros segId Hd Hz; cbn [devMap_from]; [left; split; [done|lia]|].
  assert (Hrec : full v segId -> let r := devMap_from n (segId + 1) ra sz nc g v in
    (r = (0, v) /\ forall s, segId <= s < segId + Z.of_nat (S n) -> full v s) \/
    exists s k, segId <= s /\ windowed v s k r.1 /\ r.2 = enter_window v s k (mkDev ra nc g (wrap 62 sz))).
  { intros Hf. destruct (IH (segId + 1)) as [[E Hn]|(s & k & Hs & R)]; [intros s Hs; apply Hd; lia|done|left|right].
    - split; [done|]. intros s Hs. destruct (decide (s = segId)) as [->|]; [done|]. apply Hn. lia.
    - exists s, k. split; [lia|done]. }
  destruct (v_devs v segId) as [l|] eqn:El; [|apply Hrec; intros l d; congruence].
  unfold Dev_devMap. rewrite (proj2 (Z.leb_le _ _) Hz). pose proof (map_window_spec segId 0 ra sz nc g l) as Hw.
  destruct (map_window _ _ _ _ _ _ l) as [[ea l']|].
  - right. destruct Hw as (k & d0 & Hk & Ha & Hs & -> & ->). destruct (vo_devs _ _ O _ _ El) as [Hlen _].
    exists segId, k. split; [lia|]. split; [|unfold enter_window; by rewrite El].
    split; [apply Hd; lia|]. split; [by exists l, d0|]. pose proof (lookup_lt_Some _ _ _ Hk). split; [lia|cbn; lia].
  - apply Hrec. intros l' d E. rewrite El in E. injection E as <-. apply Hw.
Qed.

Lemma devMap_ok v ra sz nc g :
  vmm_ok v -> 0 <= ra -> ra mod PAGESIZE = 0 -> 0 <= sz <= THIRTYTWO_GB -> sz mod PAGESIZE = 0 -> ra + sz <= 2 ^ 56 ->
  vmm_ok (devMap ra sz nc g v).2.
Proof.
  intros O Hra Hra2 Hsz Hsz2 He. destruct (devMap_from_spec 9 2 v ra sz nc g O) as [[E _]|(s & k & Hs & Hw & E2)].
  - intros s Hs. unfold is_device. rewrite andb_true_iff, !Z.leb_le. change MMIO_FIRST_SEGMENT_ID with 2. change MMIO_LAST_SEGMENT_ID with 10. lia.
  - lia.
  - unfold devMap. change (Z.to_nat _) with 9%nat. change MMIO_FIRST_SEGMENT_ID with 2. by rewrite E.
  - unfold devMap. change (Z.to_nat _) with 9%nat. change MMIO_FIRST_SEGMENT_ID with 2. rewrite E2. unfold enter_window.
    destruct Hw as (_ & (l & d0 & El & Ek & Ha & Hz) & _). rewrite El.
    apply (window_ok v s l k d0); [done..|by left|]. split; cbn; rewrite ?wrap_small by (unfold THIRTYTWO_GB in *; split; lia); done.
Qed.

(** ** Unmapping *)

Lemma devUnmap_ok v ea :
  vmm_ok v -> is_word 64 ea ->
  exists rc v', devUnmap ea v = Done (rc, v') /\ vmm_ok v' /\
    (rc = 0 -> exists l, v_devs v (getSegmentIdFromAddress ea) = Some l /\
      let d := dev_at l (dev_index ea) in
      v_devs v' (getSegmentIdFromAddress ea) = Some (<[Z.to_nat (dev_index ea) := mkDev 0 (dv_no_ci d) false 0]> l) /\
      forall a, getSegmentIdFromAddress a = getSegmentIdFromAddress ea -> dev_index a = dev_index ea -> ~ mapped v' a) /\
    (rc <> 0 -> rc = - EINVAL /\ v' = v).
Proof.
  intros O Ha. unfold devUnmap. destruct (is_device _) eqn:Hd; cbn [negb]; [|by exists (- EINVAL), v].
  destruct (v_devs v _) as [l|] eqn:El; [|by exists (- EINVAL), v]. set (segId := getSegmentIdFromAddress ea) in *.
  destruct (dev_geometry ea Ha) as (G1 & G2 & G3 & G4 & G5 & G6). fold segId in G1, G2.
  unfold Dev_devUnmap. rewrite G1, G2, G3. cbn [negb]. set (d := dev_at l (dev_index ea)).
  destruct (_ || _) eqn:Ed; [|by exists (- EINVAL), v]. destruct (vo_devs _ _ O _ _ El) as [Hlen Hok].
  destruct (dev_at_ok l (dev_index ea) Hok) as (D1 & D2 & D3 & D4 & D5). fold d in D1, D2, D3, D4, D5.
  rewrite wrap_small by (unfold THIRTYTWO_GB in *; split; lia). set (lo := dv_addr d / PAGESIZE). set (hi := (dv_addr d + dv_size d) / PAGESIZE).
  destruct (pt_delPN_ok (v_pt v) lo hi (vo_pt _ _ O)) as (t & rep & Et & Ot & Hm & Hl).
  destruct (on_pt_ok nowhere nowhere v (pt_delRangePN lo hi false) t rep O Et) as (v1 & Ev & O1 & Ept & Q & L); [|done|].
  { apply with_pt_ok; [done..|]. intros a y Hy. left. by apply Hm in Hy as [Hy _]. }
  rewrite Ev. cbn [obind]. eexists 0, _. split; [reflexivity|].
  assert (Edv : v_devs v1 = v_devs v) by apply (sf_devs _ _ (qu_frame _ _ Q)).
  assert (Hun : forall a, getSegmentIdFromAddress a = segId -> dev_index a = dev_index ea -> ~ mapped v1 a).
  { intros a Hs Hi [y Hy]. rewrite Ept in Hy. apply Hm in Hy as [Hy Hn].
    destruct (vo_maps _ _ O a y Hy) as [(b & Ho & _)|(_ & l' & El' & Hd1 & Hd2)]; [intros []| |].
    - rewrite device_no_owner in Ho; [done|by rewrite Hs].
    - rewrite Hs, El in El'. injection El' as <-. rewrite Hi in Hd1, Hd2. fold d in Hd1, Hd2. apply Hn. rewrite Hd2.
      destruct (dev_geometry a) as (_ & _ & _ & _ & _ & G7); [by apply (pt_maps_page _ _ _ (vo_pt _ _ O) Hy)|].
      unfold lo, hi, PAGESIZE. split; apply Z.div_le_mono; lia. }
  assert (Hlt : (Z.to_nat (dev_index ea) < length l)%nat) by lia.
  assert (Hlk : l !! Z.to_nat (dev_index ea) = Some d).
  { unfold d, dev_at. rewrite nth_lookup. destruct (l !! _) as [x|] eqn:E; [done|]. apply lookup_ge_None in E. lia. }
  split_and!; [|..].
  - apply (window_ok v1 segId l (Z.to_nat (dev_index ea)) d); [done|by rewrite Edv|done| |by split].
    right. intros a Hm' Hs Hi. rewrite Z2Nat.id in Hi by lia. by apply (Hun a Hs).
  - intros _. exists l. split; [done|]. cbn. rewrite upd_eq. split; [done|]. exact Hun.
  - done.
Qed.

(** ** The other changes of the page table *)

Lemma vmm_flush_ok v :
  vmm_ok v ->
  exists v', flushPageTable v = Done v' /\ vmm_ok v' /\ quiet v v' /\ forall a y, pt_maps (v_pt v') a y <-> pt_maps (v_pt v) a y.
Proof.
  intros O. destruct (pt_flush_ok (v_pt v) (vo_pt _ _ O)) as (t & rep & Et & Ot & Hm & Hl).
  destruct (on_pt_ok nowhere nowhere v pt_flush t rep O Et) as (v1 & Ev & O1 & Ept & Q & L); [|done|].
  { apply with_pt_ok; [done..|]. intros a y Hy. left. by apply Hm. }
  exists v1. split_and!; [done..| |intros a y; rewrite Ept; apply Hm].
  destruct Q as [Q1 Q2 Q3 Q4 Q5 Q6]. split; try done; [by transitivity (with_pt t v); [apply pt_frame|]|].
  intros e He. apply Q6 in He as [y Hy]. apply Hm in Hy. by exists y.
Qed.

(** The processor may record uses in the entries. *)
Lemma recorded_ok v t : vmm_ok v -> pt_ok t -> (forall a y, pt_maps t a y -> pt_maps (v_pt v) a y) -> vmm_ok (with_pt t v).
Proof. intros O Ot Hm. apply with_pt_ok; [done..|]. intros a y Hy. left. auto. Qed.
End dev.

(** The requests that name one access; write tracking needs a write handler. *)
Definition perm_plainly (acc : Z) : bool :=
  bool_decide (acc ∈ [READ_ONLY; NO_ACCESS; WRITABLE; EXECUTABLE; Z.lor WRITABLE ALLOCATE_FROM_ZERO; Z.lor EXECUTABLE ALLOCATE_FROM_ZERO]).
Definition perm_tracked (acc : Z) : bool :=
  bool_decide (acc ∈ [Z.lor WRITABLE WRITE_TRACKED; Z.lor EXECUTABLE WRITE_TRACKED;
    Z.lor (Z.lor WRITABLE WRITE_TRACKED) ALLOCATE_FROM_ZERO; Z.lor (Z.lor EXECUTABLE WRITE_TRACKED) ALLOCATE_FROM_ZERO]).
Definition perm_valid (tr : bool) (acc : Z) : bool := perm_plainly acc || tr && perm_tracked acc.

(** Such a request succeeds and [getPermission] gives it back. *)
Lemma perm_exact tr p acc : perm_valid tr acc = true -> (setPermSPTE tr p acc).1 = 0 /\ getPermission (setPermSPTE tr p acc).2 = acc.
Proof.
  unfold perm_valid, perm_plainly, perm_tracked. intros Hv. apply orb_true_iff in Hv as [Hv|[-> Hv]%andb_true_iff]; apply bool_decide_eq_true in Hv.
  all: repeat (apply elem_of_cons in Hv as [->|Hv]; [destruct p as [? ? ? ? ? [] ? [] ?]; split; reflexivity|]); by apply elem_of_nil in Hv.
Qed.

Lemma perm_lru p p' : setLRU 0 p' = setLRU 0 p -> getPermission p' = getPermission p.
Proof. intros E. destruct (lru_fields _ _ E) as (_ & E1 & E2 & E3 & E4 & E5). unfold getPermission. by rewrite E1, E2, E3, E4, E5. Qed.

Section perm.
Context {T F : Type} {PT : PageTable T} {PL : PageTableLaws T} {FR : Frames F}.
Implicit Types (v : Vmm T F) (b a : Z) (E : Z -> Prop).

(** The [n] pages of a block from [a] on. *)
Definition page_range (n : nat) a e : Prop := page_start e /\ a <= e < a + Z.of_nat n * PAGESIZE.

Record range_set (n : nat) b a acc v v' : Prop := {
  rs_quiet : quiet v v';
  rs_set e : page_range n a e -> getPermission (spte v' b e) = acc;
  rs_unmapped e : page_range n a e -> owner v e = Some b -> ~ mapped v' e;
  rs_outside d i : ~ (d = b /\ pte_index (v_block v b) a <= i < pte_index (v_block v b) a + Z.of_nat n) ->
    setLRU 0 (iv_ptes (v_block v' d) i) = setLRU 0 (iv_ptes (v_block v d) i)
}.

Lemma range_index x n a e : block_ok x -> inside x a -> a mod PAGESIZE = 0 -> a + Z.of_nat n * PAGESIZE <= iv_baseAddr x + iv_size x ->
  page_range n a e -> pte_index x a <= pte_index x e < pte_index x a + Z.of_nat n.
Proof.
  intros O Hi Ha He [[_ Hm] Hr]. assert (Hie : inside x e) by (unfold inside in *; lia).
  rewrite (proj1 (index_inside x a O Hi)), (proj1 (index_inside x e O Hie)). destruct (bo_base _ O) as [_ Hb]. unfold PAGESIZE in *.
  Z.to_euclidean_division_equations; lia.
Qed.

Lemma perm_loop_exact n v b a acc :
  vmm_ok v -> page_start a -> perm_valid (bool_decide (is_Some (iv_writeMsgHdlr (v_block v b)))) acc = true ->
  iv_baseAddr (v_block v b) <= a -> a + Z.of_nat n * PAGESIZE <= iv_baseAddr (v_block v b) + iv_size (v_block v b) ->
  exists v', perm_loop n b a (a + Z.of_nat n * PAGESIZE) acc v = Done (0, v') /\ vmm_ok v' /\ range_set n b a acc v v'.
Proof.
  revert v a. induction n as [|n IH]; intros v a O Hs Hv Hlo Hhi.
  { exists v. split; [done|]. split; [done|]. split; try done; intros e [_ Hr]; lia. }
  pose proof (vo_blocks _ _ O b) as Bo. pose proof (bo_end _ Bo) as Hend. assert (Hi : inside (v_block v b) a) by (unfold inside, PAGESIZE in *; lia).
  cbn [perm_loop]. rewrite (proj2 (Z.ltb_lt _ _)) by (unfold PAGESIZE; lia). rewrite (getPTE_inside nowhere) by done. cbn [obind].
  destruct (clear_ok nowhere v b a O (stray_nowhere v) Hi Hs) as (w1 & Ew & _ & _ & _ & U1).
  destruct (perm_page_ok nowhere v b a acc O (stray_nowhere v) Hi Hs) as (v1 & v2 & E1 & E2 & Ewr & E3 & O2 & Q2 & L1 & E4).
  rewrite E1 in Ew. injection Ew as <-. rewrite E1. cbn [obind]. rewrite E2, Ewr. cbn [obind].
  destruct (perm_exact _ (spte v1 b a) acc Hv) as [Hrc Hget]. set (tr := bool_decide _) in *.
  destruct (setPermSPTE tr (spte v1 b a) acc) as [rc p]. cbn [fst snd] in Hrc, Hget, E3, E4. subst rc. rewrite E3. cbn [obind Z.eqb negb].
  pose proof (qu_frame _ _ Q2) as S2. destruct (sf_blocks _ _ S2 b) as [F1 F2 _ F4 _].
  assert (Hp2 : spte v2 b a = p) by (rewrite E4; apply put_self).
  assert (Hoth : forall d i, ~ (d = b /\ i = pte_index (v_block v b) a) -> setLRU 0 (iv_ptes (v_block v2 d) i) = setLRU 0 (iv_ptes (v_block v d) i)).
  { intros d i Hne. rewrite E4, put_ptes. destruct ((d =? b) && _) eqn:Ed; [|apply L1]. b2p. subst d. destruct Hne. split; [done|].
    rewrite H0. rewrite E4 in S2. unfold pte_index. pose proof (sb_base _ _ (sf_blocks _ _ S2 b)) as Hb. cbn in Hb. rewrite upd_eq in Hb. cbn in Hb. by rewrite Hb. }
  assert (Um2 : owner v a = Some b -> ~ mapped v2 a).
  { intros Ho Hm. apply (U1 Ho). rewrite E4 in Hm. exact Hm. }
  assert (Hone : range_set 1 b a acc v v2).
  { split; [done| | |].
    - intros e He. assert (e = a) as ->; [|by rewrite Hp2]. destruct He as [[_ Hm] Hr], Hs as [_ Hs]. unfold PAGESIZE in *. Z.to_euclidean_division_equations; lia.
    - intros e He Ho. assert (e = a) as ->; [|by apply Um2]. destruct He as [[_ Hm] Hr], Hs as [_ Hs]. unfold PAGESIZE in *. Z.to_euclidean_division_equations; lia.
    - intros d i Hne. apply Hoth. intros [-> ->]. apply Hne. split; [done|lia]. }
  destruct n as [|n].
  { cbn. exists v2. split; [done|]. by split. }
  pose proof (proj1 (proj1 Hs)) as Ha0. rewrite (wrap_small _ (a + PAGESIZE)) by (unfold PAGESIZE in *; split; lia).
  replace (a + Z.of_nat (S (S n)) * PAGESIZE) with (a + PAGESIZE + Z.of_nat (S n) * PAGESIZE) in * by (unfold PAGESIZE; lia).
  destruct (IH v2 (a + PAGESIZE) O2) as (v' & Ev & O' & [R1 R2 R3 R4]).
  - apply start_next; [done|unfold PAGESIZE in *; lia].
  - rewrite F4. exact Hv.
  - rewrite F1. unfold PAGESIZE. lia.
  - rewrite F1, F2. done.
  - exists v'. split; [done|]. split; [done|]. pose proof (index_next _ _ Bo Hi) as Hnx.
    rewrite (quiet_index v v2) in R4 by done. rewrite Hnx in R4 by (unfold inside, PAGESIZE in *; lia).
    destruct Hone as [_ A2 A3 _]. split.
    + by transitivity v2.
    + intros e He. destruct (decide (e = a)) as [->|Hne].
      * rewrite <-(A2 a) by (split; [done|unfold PAGESIZE in *; lia]). apply perm_lru. unfold spte.
        rewrite (quiet_index v2 v') by apply R1. rewrite (quiet_index v v2) by done. apply R4. lia.
      * apply R2. destruct He as [He Hr]. split; [done|]. destruct Hs as [_ Hs], He as [_ He]. unfold PAGESIZE in *. Z.to_euclidean_division_equations; lia.
    + intros e He Ho. destruct (decide (e = a)) as [->|Hne].
      * intros Hm. apply (qu_maps _ _ R1) in Hm. by apply (A3 a); [split; [done|unfold PAGESIZE in *; lia]|..].
      * apply R3; [|by rewrite (frame_owner v v2)]. destruct He as [He Hr]. split; [done|].
        destruct Hs as [_ Hs], He as [_ He]. unfold PAGESIZE in *. Z.to_euclidean_division_equations; lia.
    + intros d i Hne. rewrite R4; [apply Hoth|]; intros [-> Hx]; apply Hne; (split; [done|lia]).
Qed.

(** Every index of a range is a page's. *)
Lemma range_page E v b a n i :
  vmm_inv E v -> page_start a -> inside (v_block v b) a -> a + Z.of_nat n * PAGESIZE <= iv_baseAddr (v_block v b) + iv_size (v_block v b) ->
  pte_index (v_block v b) a <= i < pte_index (v_block v b) a + Z.of_nat n ->
  exists e, page_range n a e /\ i = pte_index (v_block v b) e.
Proof.
  intros O Hs Hi Hend Hr. pose proof (vo_blocks _ _ O b) as Bo. pose proof (bo_end _ Bo).
  exists (a + (i - pte_index (v_block v b) a) * PAGESIZE). set (j := i - pte_index (v_block v b) a). assert (Hj : 0 <= j < Z.of_nat n) by (unfold j; lia).
  assert (Hie : inside (v_block v b) (a + j * PAGESIZE)) by (unfold inside, PAGESIZE in *; lia). destruct Hs as [[Hs1 Hs2] Hs3]. split.
  - split; [|unfold PAGESIZE; lia]. unfold page_start, is_word, PAGESIZE in *. split; [lia|]. Z.to_euclidean_division_equations; lia.
  - rewrite (proj1 (index_inside _ _ Bo Hie)). assert (Hj2 : i = pte_index (v_block v b) a + j) by (unfold j; lia). rewrite Hj2.
    rewrite (proj1 (index_inside _ _ Bo Hi)). unfold PAGESIZE. replace (a + j * 4096 - iv_baseAddr (v_block v b)) with (a - iv_baseAddr (v_block v b) + j * 4096) by lia.
    by rewrite Z.div_add.
Qed.
End perm.
