(* ===== verification/VmmPt.v ===== *)
(** * Virtual memory: the page table manager keeps the page table's promise

    The interface [PageTable] and its laws for the page table of [PtMgr]; the
    statistics a call pushes are the uses it reports. *)

From S2P Require Import Prelude Bitfield PageMgr PtMgr PtMgrInv PtMgrOps PtMgrAdd PtMgrThm PtMgrClaims Vmm VmmSpec.

Section table.
Context (endPreserved hrmor : Z) (junk : PageTableEntry).
Implicit Types (t : PageTableManager).

Abbreviation addr := (PtMgrInv.addr endPreserved hrmor).
Abbreviation entry := (PtMgrInv.entry endPreserved hrmor).
Abbreviation maps := (PtMgrInv.maps endPreserved hrmor).
Abbreviation table_ok := (PtMgrInv.pt_ok endPreserved hrmor).

(** One call, and what it pushes. *)
Definition reported (f : PageTableManager -> outcome PageTableManager) t : outcome (PageTableManager * list (Z * bool)) :=
  do t' <- f (with_stats [] t); Done (t', (fun s => (s.1, negb (us_R s.2 =? 0))) <$> pt_stats t').

Definition PtMgr_table : PageTable PageTableManager := {|
  pt_addEntry := fun va pg acc => reported (PtMgr.addEntry endPreserved hrmor va pg acc junk);
  pt_delEntry := fun va => reported (_delEntry endPreserved hrmor va);
  pt_delRangePN := fun lo hi b => reported (delRangePN endPreserved hrmor lo hi b);
  pt_flush := reported (_flush endPreserved hrmor)
|}.

Definition grants (x : xlat) : Z * bool := (x_PN x, bool_decide (x_pp x = (0, 2))).
Definition table_maps t a y : Prop := exists x, maps t a x /\ y = grants x.

Lemma fresh_ok t : table_ok t -> table_ok (with_stats [] t).
Proof. intros [O1 O2 O3 O4]. by split. Qed.

(** What was reported had a translation. *)
Definition told t t' : Prop := exists l, pt_stats t' = pt_stats t ++ l /\ forall a, a ∈ l.*1 -> exists x, maps t a x.

Lemma told_refl t : told t t.
Proof. exists []. rewrite app_nil_r. split; [done|]. intros a Ha. by apply elem_of_nil in Ha. Qed.

Lemma told_add t t1 t2 l : told t t1 -> pt_stats t2 = pt_stats t1 ++ l -> (forall a, a ∈ l.*1 -> exists x, maps t a x) -> told t t2.
Proof.
  intros (l1 & E1 & H1) E2 H2. exists (l1 ++ l). rewrite E2, E1, app_assoc. split; [done|]. intros a. rewrite fmap_app, elem_of_app.
  intros [Ha|Ha]; auto.
Qed.

Lemma reports_of t t' : told (with_stats [] t) t' ->
  forall a, a ∈ ((fun s : Z * UsageStats_t => (s.1, negb (us_R s.2 =? 0))) <$> pt_stats t').*1 -> exists y, table_maps t a y.
Proof.
  intros (l & -> & Hl) a. cbn [with_stats pt_stats app]. rewrite <-list_fmap_compose. intros Ha.
  destruct (Hl a) as [x Hx]; [|by exists (grants x), x]. exact Ha.
Qed.

Lemma slot_maps t s : slot_ok s -> get PTE.V (entry t s) = 1 -> exists x, maps t (PtMgrInv.page endPreserved hrmor t s) x.
Proof. intros Hs Hv. exists (xlat_of (entry t s)), s. by split_and!. Qed.

(** ** The loops over the table *)

Lemma delRangePN_told t lo hi :
  table_ok t -> exists t', _delRangePN endPreserved hrmor lo hi t = Done t' /\ told t t'.
Proof.
  intros O. unfold _delRangePN. rewrite (getAddress_kernel _ _ _ (ok_kernel _ _ _ O)).
  destruct (for_ptes_ok endPreserved hrmor (fun k t' => pn_state endPreserved hrmor t lo hi k t' /\ told t t') (del_if_in endPreserved hrmor lo hi) t)
    as (t2 & E2 & _ & Ht); [| |by exists t2].
  - intros j t1 Hj [P T]. destruct (del_pn_step endPreserved hrmor t lo hi j t1 O Hj P) as (t2 & E2 & P2). exists t2. split_and!; [done|done|].
    pose proof (slot_at_ok hrmor j Hj) as Hs. destruct P as [O1 Hu _]. unfold del_if_in in E2. destruct (_ && _ && _); [|injection E2 as <-; done].
    destruct (delEntry_at_ok endPreserved hrmor t1 (slot_at j) O1 Hs) as (t3 & E3 & _ & _ & _ & _ & _ & _ & Est).
    rewrite E3 in E2. injection E2 as ->. apply (told_add t t1 t2 _ T Est). intros a Ha.
    assert (He : entry t1 (slot_at j) = entry t (slot_at j)) by (apply Hu; [done|by rewrite (slot_at_index hrmor)]).
    destruct (get PTE.V (entry t1 (slot_at j)) =? 1) eqn:Ev; [|by apply elem_of_nil in Ha]. b2p.
    apply list_elem_of_singleton in Ha as ->. unfold PtMgrInv.page. rewrite He in *. by apply slot_maps.
  - split; [|apply told_refl]. split; [done|done|]. intros pg x. split; [|tauto]. intros Hx. split; [done|].
    intros [_ (s & Hh & Hlt)]. pose proof (index_bound s (proj1 Hh)). lia.
Qed.

Lemma flush_told t :
  table_ok t -> exists t', _flush endPreserved hrmor t = Done t' /\ told t t'.
Proof.
  intros O. unfold _flush. rewrite (ok_kernel _ _ _ O). cbn [Z.eqb negb]. rewrite (getAddress_kernel _ _ _ (ok_kernel _ _ _ O)).
  destruct (for_ptes_ok endPreserved hrmor (fun k t' => flush_state endPreserved hrmor t k t' /\ told t t') (push_if_valid endPreserved hrmor) t)
    as (t2 & E2 & _ & Ht); [| |by exists t2].
  - intros j t1 Hj [P T]. destruct (flush_step endPreserved hrmor t j t1 Hj P) as (t2 & E2 & P2). exists t2. split_and!; [done|done|].
    pose proof (slot_at_ok hrmor j Hj) as Hs. destruct P as [Q1 _ _]. pose proof (q_ok _ _ _ _ Q1) as O1. unfold push_if_valid in E2.
    change (pt_mem t1 (addr (slot_at j))) with (entry t1 (slot_at j)) in E2.
    destruct (bit_cases PTE.V (entry t1 (slot_at j)) eq_refl) as [Hv|Hv]; rewrite Hv in E2; cbn [Z.eqb negb] in E2; [injection E2 as <-; done|].
    destruct (ok_wf _ _ _ O1 _ Hs Hv) as [Ha _].
    destruct (pushUsageStats_ok endPreserved hrmor t1 _ (ok_kernel _ _ _ O1) Hs Ha) as (t3 & p' & E3 & _ & _ & _ & _ & Est).
    rewrite E3 in E2. injection E2 as ->. apply (told_add t t1 t2 _ T Est). intros a Hin.
    apply list_elem_of_singleton in Hin as ->. destruct (slot_maps t1 _ Hs Hv) as [x Hx]. exists x. by apply (PtMgrInv.quiet_maps _ _ _ _ _ _ Q1).
  - split; [|apply told_refl]. split; [by apply PtMgrInv.quiet_refl|done|]. intros s Hs Hlt. pose proof (index_bound s Hs). lia.
Qed.

(** ** The laws *)

Context (Hhrmor : hrmor mod 128 = 0) (Hword : is_word 57 hrmor).

Lemma grants_access pg acc n : grants (access_xlat pg acc n) = (pg, writes acc).
Proof.
  unfold grants, access_xlat, writes. destruct (acc =? CI_ACCESS); [done|]. cbn [orb].
  by destruct (has acc READ_ONLY), (has acc WRITABLE), (has acc EXECUTABLE).
Qed.

Lemma bypass_bits acc : (Z.land BYPASS_HRMOR acc =? 0) = negb (has acc BYPASS_HRMOR).
Proof. unfold has. by rewrite negb_involutive, Z.land_comm. Qed.

(** A call whose effect on the translations is known. *)
Lemma call_ok t (f : PageTableManager -> outcome PageTableManager) t' (Q : Z -> xlat -> Prop) :
  f (with_stats [] t) = Done t' -> table_ok t' -> told (with_stats [] t) t' ->
  (forall a x, maps t' a x <-> maps t a x /\ Q a x) ->
  exists l, reported f t = Done (t', l) /\ table_ok t' /\
    (forall a, a ∈ l.*1 -> exists y, table_maps t a y).
Proof.
  intros E O Ht Hm. unfold reported. rewrite E. cbn [obind]. eexists. split; [reflexivity|]. split; [done|]. by apply reports_of.
Qed.

Lemma table_maps_iff t t' (Q : Z -> xlat -> Prop) (R : Z -> Z * bool -> Prop) :
  (forall a x, maps t' a x <-> maps t a x /\ Q a x) -> (forall a x, Q a x <-> R a (grants x)) ->
  forall a y, table_maps t' a y <-> table_maps t a y /\ R a y.
Proof.
  intros Hm HR a y. unfold table_maps. split.
  - intros (x & Hx & ->). apply Hm in Hx as [Hx HQ]. split; [by exists x|by apply HR].
  - intros [(x & Hx & ->) Hr]. exists x. split; [|done]. apply Hm. split; [done|by apply HR].
Qed.

Lemma without_told t t' out : without endPreserved hrmor (with_stats [] t) t' out -> told (with_stats [] t) t'.
Proof. intros [_ _ (l & E & _ & Hl)]. exists l. split; [done|]. intros a Ha. by apply Hl. Qed.

Lemma table_add_ok t va pg acc : table_ok t -> is_word 64 va -> is_word 45 pg ->
  match pt_addEntry (PageTable := PtMgr_table) va pg acc t with
  | Crash f => exists x, table_maps t (ALIGN_PAGE_DOWN va) x /\ x.1 <> real_page hrmor pg acc
  | Done (t', l) =>
      table_ok t' /\
      (forall a x, table_maps t' a x -> a = ALIGN_PAGE_DOWN va /\ x = (real_page hrmor pg acc, writes acc) \/ table_maps t a x) /\
      table_maps t' (ALIGN_PAGE_DOWN va) (real_page hrmor pg acc, writes acc) /\
      (forall a x, table_maps t' a x -> a = ALIGN_PAGE_DOWN va -> x = (real_page hrmor pg acc, writes acc)) /\
      forall a, a ∈ l.*1 -> exists x, table_maps t a x
  end.
Proof.
  intros O Hva Hpg. cbn [pt_addEntry PtMgr_table]. unfold reported, PtMgr.addEntry. fold (real_page hrmor pg acc).
  set (rp := real_page hrmor pg acc).
  pose proof (PtMgrAdd.addEntry_ok _ _ Hhrmor (with_stats [] t) va rp acc junk (fresh_ok t O) Hva (real_page_word _ Hword pg acc Hpg)) as Ha.
  destruct (_addEntry _ _ _ _ _ _ _) as [t'|f]; cbn [obind].
  - destruct Ha as (O' & _ & victim & Hm & Est & Hv). split_and!; [done| | | |].
    + intros a y (x & Hx & ->). apply Hm in Hx as [[-> ->]|(_ & _ & Hx)]; [left; by rewrite grants_access|right; by exists x].
    + exists (access_xlat rp acc (get PTE.N junk)). split; [apply Hm; by left|]. by rewrite grants_access.
    + intros a y (x & Hx & ->) ->. apply Hm in Hx as [[_ ->]|(Hn & _)]; [by rewrite grants_access|done].
    + apply reports_of. exists (option_list victim). split; [done|]. intros a Ha. destruct victim as [[w st]|]; [|by apply elem_of_nil in Ha].
      apply list_elem_of_singleton in Ha as ->. cbn. destruct (Hv w st eq_refl) as (s & Hs & Hg & <- & _ & Hfull & _).
      apply slot_maps; [done|]. by apply Hfull.
  - destruct Ha as (_ & x & Hx & Hn). by exists (grants x); split; [exists x|].
Qed.

Definition PtMgr_laws : @PageTableLaws PageTableManager PtMgr_table.
Proof.
  refine {| pt_ok := table_ok; pt_maps := table_maps; pt_real := real_page hrmor |}.
  - intros t a y O (x & (s & Hh) & ->). destruct (holds_page _ _ t s a x O Hh) as (Hw & _ & _ & Hd). split; [done|].
    unfold ALIGN_PAGE_DOWN in Hd. lia.
  - intros pg acc [->|Hb]; unfold real_page; [done|]. by rewrite bypass_bits, Hb, andb_false_r.
  - intros pg acc acc' Hc Hc' Hb. unfold real_page. rewrite !bypass_bits, Hb, (proj2 (Z.eqb_neq _ _) Hc), (proj2 (Z.eqb_neq _ _) Hc'). done.
  - apply table_add_ok.
  - intros t va O Hva. destruct (del_without _ _ Hhrmor (with_stats [] t) va (fresh_ok t O) Hva) as (t' & E & W).
    destruct (call_ok t _ t' (fun a _ => a <> ALIGN_PAGE_DOWN va) E (wo_ok _ _ _ _ _ W) (without_told t t' _ W)) as (l & El & O' & Hl);
      [exact (wo_maps _ _ _ _ _ W)|].
    exists t', l. split_and!; [done|done| |done]. by apply (table_maps_iff t t' (fun a _ => a <> ALIGN_PAGE_DOWN va)); [exact (wo_maps _ _ _ _ _ W)|].
  - intros t lo hi O. destruct (delRangePN_ok _ _ _ lo hi (fresh_ok t O)) as (t' & E & O' & Hm).
    destruct (delRangePN_told _ lo hi (fresh_ok t O)) as (t2 & E2 & Ht). rewrite E in E2. injection E2 as <-.
    destruct (call_ok t (delRangePN endPreserved hrmor lo hi false) t' (fun _ x => ~ lo <= x_PN x <= hi) E O' Ht Hm) as (l & El & _ & Hl).
    exists t', l. split_and!; [done|done| |done]. by apply (table_maps_iff t t' (fun _ x => ~ lo <= x_PN x <= hi)).
  - intros t O. destruct (flush_ok _ _ _ (fresh_ok t O)) as (t' & E & Q & _).
    destruct (flush_told _ (fresh_ok t O)) as (t2 & E2 & Ht). rewrite E in E2. injection E2 as <-.
    assert (Hm : forall a x, maps t' a x <-> maps t a x /\ True).
    { intros a x. rewrite (PtMgrInv.quiet_maps _ _ _ _ _ _ Q). split; [done|by intros [? _]]. }
    destruct (call_ok t (_flush endPreserved hrmor) t' (fun _ _ => True) E (q_ok _ _ _ _ Q) Ht Hm) as (l & El & O' & Hl).
    exists t', l. split_and!; [done|done| |done]. intros a y. rewrite (table_maps_iff t t' (fun _ _ => True) (fun _ _ => True)); [tauto|done|done].
Defined.
End table.
