(* ===== verification/VmmSteps.v ===== *)
(** * Virtual memory: the operations as steps

    The states the virtual memory can reach from [VmmManager::init]; every step
    keeps the invariant.  The other users of the page manager, the scheduler's
    and the queues' own steps and the processor's record of uses are steps too. *)

From stdpp Require Import relations.
From S2P Require Import Prelude Containers PageMgr PtMgr Sched TaskMgr MsgQ Spte Vmm VmmSeg VmmSpec VmmOps VmmFault VmmRange VmmStack VmmDev.

Section steps.
Context {T F : Type} {PT : PageTable T} {PL : PageTableLaws T} {FR : Frames F} {FL : FrameLaws F}.
Implicit Types (v : Vmm T F) (b a : Z).

(** [b], [rh] and [wh] are the addresses of new objects.  A size of a block is at
    most [2^63]: the check of [mmAllocBlock] wraps around above. *)
Inductive vmm_step v : Vmm T F -> Prop :=
| st_fault c nm t a store r v' : is_word 64 a -> pteMiss c nm t a store v = Done (r, v') -> vmm_step v v'
| st_flush v' : flushPageTable v = Done v' -> vmm_step v v'
| st_alloc mq va size m b rh wh : b ∉ blocks v -> 0 <= va -> 0 <= size <= 2 ^ 63 -> vmm_step v (mmAllocBlock mq va size m b rh wh v).2
| st_linear pa size b rh wh rc v' : b ∉ blocks v -> 0 <= pa -> 0 <= size <= 2 ^ 63 -> mmLinearMap pa size b rh wh v = Done (rc, v') -> vmm_step v v'
| st_extend cache b rh wh rc v' : b ∉ blocks v -> 0 <= cache <= VMM_MEMORY_SIZE -> mmExtend cache b rh wh v = Done (rc, v') -> vmm_step v v'
| st_remove c nm op va size t rc v' : is_word 64 va -> mmRemovePages c nm op va size t v = Done (rc, v') -> vmm_step v v'
| st_castout c nm cache ty v' : castOutPages c nm cache ty (v_chain v) v = Done v' -> vmm_step v v'
| st_perm va size acc rc v' : is_word 64 va -> Base_mmSetPermission va size acc v = Done (rc, v') -> vmm_step v v'
| st_create tid b top v' : b ∉ blocks v -> 0 <= tid < 2 ^ 16 -> createStack tid b v = Done (top, v') -> vmm_step v v'
| st_delete tid v' : 0 <= tid < 2 ^ 16 -> deleteStack tid v = Done v' -> vmm_step v v'
| st_devMap ra size nonCI guarded : 0 <= ra -> ra mod PAGESIZE = 0 -> 0 <= size <= THIRTYTWO_GB -> size mod PAGESIZE = 0 -> ra + size <= 2 ^ 56 ->
    vmm_step v (devMap ra size nonCI guarded v).2
| st_devUnmap ea rc v' : is_word 64 ea -> devUnmap ea v = Done (rc, v') -> vmm_step v v'
| st_read_response b a rc r v' : owner v a = Some b -> page_start a -> BlockReadMsgHdlr_handleResponse b a rc v = Done (r, v') -> vmm_step v v'
| st_write_response b a t rc r v' : BlockWriteMsgHdlr_handleResponse b a t rc v = Done (r, v') -> vmm_step v v'
| st_kern k : vmm_step v (with_kern k v)
| st_frames s : vmm_step v (with_frames s v)
| st_recorded t : pt_ok t -> (forall a y, pt_maps t a y -> pt_maps (v_pt v) a y) -> vmm_step v (with_pt t v).

(** A fault of any address. *)
Definition fault_result c nm t a store v (r oom : bool) v' : Prop :=
  match owner v a with
  | Some b => fault_spec c nm t b (ALIGN_PAGE_DOWN a) store v r oom v'
  | None =>
      match (if is_device (getSegmentIdFromAddress a) then v_devs v (getSegmentIdFromAddress a) else None) with
      | Some l =>
          let d := dev_at l (dev_index a) in
          oom = false /\ r = (dev_offset a <? dv_size d) /\
          (r = true -> pt_maps (v_pt v') (ALIGN_PAGE_DOWN a) ((dv_addr d + dev_offset a) / PAGESIZE, writes (dev_access d)))
      | None => r = false /\ oom = false /\ v' = v
      end
  end.

Lemma block_miss c nm chain t a store v : chain_find v chain a = None -> Block_handlePageFault c nm chain t a store v = Done (false, false, v).
Proof. unfold Block_handlePageFault. by intros ->. Qed.

Lemma handlePageFault_ok c nm t a store v :
  vmm_ok v -> is_word 64 a ->
  exists r oom v', handlePageFault c nm t a store v = Done (r, oom, v') /\ vmm_ok v' /\ same_frame v v' /\ fault_result c nm t a store v r oom v'.
Proof.
  intros O Ha. unfold handlePageFault, fault_result.
  destruct (owner v a) as [b|] eqn:Ho.
  - unfold owner in Ho. destruct (getSegmentIdFromAddress a =? BASE_SEGMENT_ID) eqn:E0.
    + apply (Block_fault_ok nowhere c nm (v_chain v)); [done|apply stray_nowhere|done|done|]. unfold owner. by rewrite E0.
    + destruct (getSegmentIdFromAddress a =? STACK_SEGMENT_ID) eqn:E1; [|done]. unfold Stack_handlePageFault.
      destruct (LList.find fst (stack_key a) (v_stacks v)) as [[k d]|] eqn:Ef; [|done].
      apply (Block_fault_ok nowhere c nm [d]); [done|apply stray_nowhere|done|done|]. unfold owner. by rewrite E0, E1, Ef.
  - unfold owner in Ho. destruct (getSegmentIdFromAddress a =? BASE_SEGMENT_ID) eqn:E0.
    { rewrite block_miss by done. exists false, false, v. apply Z.eqb_eq in E0. by rewrite E0. }
    destruct (getSegmentIdFromAddress a =? STACK_SEGMENT_ID) eqn:E1.
    { apply Z.eqb_eq in E1. unfold Stack_handlePageFault. destruct (LList.find fst (stack_key a) (v_stacks v)) as [[k d]|]; rewrite ?block_miss by done;
        exists false, false, v; by rewrite E1. }
    destruct (is_device (getSegmentIdFromAddress a)) eqn:Ed; [|by exists false, false, v].
    destruct (v_devs v (getSegmentIdFromAddress a)) as [l|] eqn:El; [|by exists false, false, v].
    destruct (Dev_fault_ok v a l O Ha Ed El) as (v' & -> & O' & C & Hm). cbn [obind].
    eexists _, false, v'. split_and!; try done; [apply C|]. intros Hr. apply Hm. by b2p.
Qed.

Lemma vmm_step_ok v v' : vmm_step v v' -> vmm_ok v -> vmm_ok v'.
Proof.
  assert (Hsafe : forall A (P : fault -> Prop) (Q : A -> Prop) m x, safe P Q m -> m = Done x -> Q x) by (intros A P Q m x Hm ->; exact Hm).
  pose proof (stray_nowhere v) as St.
  destruct 1 as [c nm t a store r v' Ha E|v' E|mq va size m b rh wh Hb Hva Hz|pa size b rh wh rc v' Hb Hpa Hz E|cache b rh wh rc v' Hb Hc E|
    c nm op va size t rc v' Hva E|c nm cache ty v' E|va size acc rc v' Hva E|tid b top v' Hb Ht E|tid v' Ht E|ra size nonCI guarded H1 H2 H3 H4 H5|
    ea rc v' Ha E|b a rc r v' Ho Hs E|b a t rc r v' E|k|s|t Ht Hm]; intros O.
  - unfold pteMiss in E. destruct (handlePageFault_ok c nm t a store v O Ha) as (r' & oom & v1 & E1 & O1 & _). rewrite E1 in E. cbn in E.
    destruct oom; [done|]. by injection E as <- <-.
  - destruct (vmm_flush_ok v O) as (v1 & E1 & O1 & _). rewrite E1 in E. by injection E as <-.
  - by apply mmAllocBlock_ok.
  - destruct (mmLinearMap_ok v pa size b rh wh O Hb Hpa Hz) as (rc1 & v1 & E1 & O1 & _). rewrite E1 in E. by injection E as <- <-.
  - by apply (Hsafe _ _ _ _ _ (mmExtend_ok v cache b rh wh O Hb Hc) E).
  - unfold mmRemovePages in E. destruct (tail (v_chain v)) as [|d l]; [by injection E as <- <-|].
    by apply (Hsafe _ _ _ _ _ (removePages_ok nowhere c nm (d :: l) op va size t v O St Hva) E).
  - by apply (Hsafe _ _ _ _ _ (castOutPages_ok nowhere c nm cache ty (v_chain v) v O St) E).
  - by apply (Hsafe _ _ _ _ _ (Block_perm_ok nowhere v (v_chain v) va size acc O St Hva) E).
  - destruct (LList.find fst (stack_addr tid) (v_stacks v)) as [x|] eqn:Ef.
    + unfold createStack in E. rewrite Ef in E. done.
    + destruct (createStack_ok v tid b O Hb Ht Ef) as (v1 & E1 & O1 & _). rewrite E1 in E. by injection E as <- <-.
  - destruct (LList.find fst (stack_addr tid) (v_stacks v)) as [[k b]|] eqn:Ef; [|unfold deleteStack in E; by rewrite Ef in E].
    assert (k = stack_addr tid) as -> by by apply find_elem in Ef as [_ Ef].
    by apply (Hsafe _ _ _ _ _ (deleteStack_ok v tid b O Ht Ef) E).
  - by apply devMap_ok.
  - destruct (devUnmap_ok v ea O Ha) as (rc1 & v1 & E1 & O1 & _). rewrite E1 in E. by injection E as <- <-.
  - destruct (read_response_ok nowhere v b a rc O St Ho Hs) as (r1 & v1 & E1 & O1 & _). rewrite E1 in E. by injection E as <- <-.
  - by apply (Hsafe _ _ _ _ _ (write_response_ok nowhere v b a t rc O) E).
  - by apply (alike_inv _ v); [apply alike_kern|].
  - by apply (alike_inv _ v); [apply alike_frames|].
  - by apply recorded_ok.
Qed.

(** The states reachable from the start. *)
Definition vmm_reach v : Prop :=
  exists v0 cache text b v1, boot v0 /\ 0 <= cache < 2 ^ 40 /\ cache mod PAGESIZE = 0 /\
    BaseSegment_init cache text b v0 = Done v1 /\ rtc vmm_step v1 v.

Lemma vmm_reach_ok v : vmm_reach v -> vmm_ok v.
Proof.
  intros (v0 & cache & text & b & v1 & B & Hc & Hm & E & R).
  destruct (BaseSegment_init_ok v0 cache text b B Hc Hm) as (w & Ew & O & _). rewrite E in Ew. injection Ew as <-.
  clear E. induction R as [|x y z Hs _ IH]; [done|]. apply IH. by eapply vmm_step_ok.
Qed.
End steps.
