(* ===== verification/VmmClaims.v ===== *)
(** * Virtual memory: theorems

    About every state the virtual memory can reach from its start, for any page
    table and page manager that keep their promises. *)

From stdpp Require Import relations.
From S2P Require Import Prelude Containers PageMgr PtMgr Sched TaskMgr MsgQ Spte Vmm VmmSeg VmmSpec VmmOps VmmFault VmmRange VmmStack VmmDev VmmSteps.

Section claims.
Context {T F : Type} {PT : PageTable T} {PL : PageTableLaws T} {FR : Frames F} {FL : FrameLaws F}.
Implicit Types (v : Vmm T F) (b a : Z).

Lemma reach_step v v' : vmm_reach v -> vmm_step v v' -> vmm_reach v'.
Proof.
  intros (v0 & cache & text & b & v1 & B & Hc & Hm & E & R) Hs. exists v0, cache, text, b, v1. split_and!; try done; try apply Hc.
  by eapply rtc_r.
Qed.

Lemma reach_rtn v c rc : vmm_reach v -> vmm_reach (set_rtn c rc v).
Proof. intros R. apply (reach_step v); [done|apply st_kern]. Qed.

(** The system calls stay within the reachable states. *)
Lemma syscalls_reach v c :
  vmm_reach v ->
  (forall mq va size b rh wh, b ∉ blocks v -> 0 <= va -> 0 <= size <= 2 ^ 63 -> vmm_reach (MmAllocBlock c mq va size b rh wh v)) /\
  (forall nm op va size v', is_word 64 va -> MmRemovePages c nm op va size v = Done v' -> vmm_reach v') /\
  (forall va size acc v', is_word 64 va -> MmSetPermission c va size acc v = Done v' -> vmm_reach v') /\
  (forall hrmor a v', MmVirtToPhys c hrmor a v = Done v' -> vmm_reach v') /\
  (forall size cache b rh wh v', b ∉ blocks v -> 0 <= cache <= VMM_MEMORY_SIZE -> MmExtend c size cache b rh wh v = Done v' -> vmm_reach v') /\
  (forall pa size b rh wh v', b ∉ blocks v -> 0 <= pa -> 0 <= size <= 2 ^ 63 -> MmLinearMap c pa size b rh wh v = Done v' -> vmm_reach v') /\
  (forall ra size a2 a3, 0 <= ra -> 0 <= size -> ra + align_page size <= 2 ^ 56 -> vmm_reach (DevMap c ra size a2 a3 v)) /\
  (forall ea v', is_word 64 ea -> DevUnmap c ea v = Done v' -> vmm_reach v') /\
  (forall nm cache alloc avail busy pages v', MmAllocPages c nm cache alloc avail busy pages v = Done v' -> vmm_reach v').
Proof.
  intros R. split_and!.
  - intros mq va size b rh wh Hb Hva Hz. unfold MmAllocBlock. destruct (negb _); [by apply reach_rtn|].
    pose proof (st_alloc v mq va size false b rh wh Hb Hva Hz) as Hs. destruct (mmAllocBlock _ _ _ _ _ _ _ v) as [rc w]. by apply reach_rtn, (reach_step v).
  - intros nm op va size v' Hva. unfold MmRemovePages. destruct (mmRemovePages _ _ _ _ _ _ v) as [[rc w]|] eqn:E; [|done]. intros [= <-].
    apply (reach_step w); [|apply st_kern]. apply (reach_step v); [done|]. by eapply st_remove.
  - intros va size acc v' Hva. unfold MmSetPermission. destruct (Base_mmSetPermission va size acc v) as [[rc w]|] eqn:E; [|done]. intros [= <-].
    apply reach_rtn, (reach_step v); [done|]. by eapply st_perm.
  - intros hrmor a v'. unfold MmVirtToPhys. destruct (findPhysicalAddress _ _ _); [|done]. intros [= <-]. by apply reach_rtn.
  - intros size cache b rh wh v' Hb Hc. unfold MmExtend. destruct (_ =? _); [|intros [= <-]; by apply reach_rtn].
    destruct (mmExtend _ _ _ _ v) as [[rc w]|] eqn:E; [|done]. intros [= <-]. apply reach_rtn, (reach_step v); [done|]. by eapply st_extend.
  - intros pa size b rh wh v' Hb Hp Hz. unfold MmLinearMap. destruct (mmLinearMap _ _ _ _ _ v) as [[rc w]|] eqn:E; [|done]. intros [= <-].
    apply reach_rtn, (reach_step v); [done|]. by eapply st_linear.
  - intros ra size a2 a3 Hra Hz He. unfold DevMap. destruct (negb _) eqn:Ea; [by apply reach_rtn|]. destruct (_ <? _) eqn:Es; [by apply reach_rtn|].
    apply negb_false_iff, Z.eqb_eq in Ea. apply Z.ltb_ge in Es. change (PAGESIZE - 1) with (Z.ones 12) in Ea. rewrite Z.land_ones in Ea by done.
    assert (Hal : 0 <= align_page size /\ align_page size mod PAGESIZE = 0).
    { unfold align_page. split; [apply wrap_word; lia|]. rewrite ALIGN_PAGE_eq. unfold wrap, PAGESIZE. Z.to_euclidean_division_equations; lia. }
    pose proof (st_devMap v ra (align_page size) (negb (a2 =? 0)) (negb (a3 =? 0)) Hra Ea ltac:(lia) (proj2 Hal) He) as Hs.
    destruct (devMap _ _ _ _ v) as [ea w]. by apply reach_rtn, (reach_step v).
  - intros ea v' Ha. unfold DevUnmap. destruct (devUnmap ea v) as [[rc w]|] eqn:E; [|done]. intros [= <-].
    apply reach_rtn, (reach_step v); [done|]. by eapply st_devUnmap.
  - intros nm cache alloc avail busy pages v'. unfold MmAllocPages. destruct (alloc pages (v_frames v)) as [pg s].
    assert (R1 : vmm_reach (set_rtn c (default 0 pg) (with_frames s v))) by (apply reach_rtn, (reach_step v); [done|apply st_frames]).
    destruct (_ && _); [|by intros [= <-]]. set (w := set_rtn _ _ _) in *. destruct (flushPageTable w) as [w1|] eqn:E1; [|done]. cbn [obind]. intros E2.
    apply (reach_step w1); [apply (reach_step w); [done|by apply st_flush]|]. by eapply st_castout.
Qed.

(** ** Ranges of permissions *)

Definition perm_count (i_size : Z) : nat := if i_size =? 0 then 1%nat else Z.to_nat (align_page i_size / PAGESIZE).

Lemma perm_range_ok v va size acc b :
  vmm_ok v -> is_word 64 va -> 0 <= size <= 2 ^ 63 -> chain_find v (v_chain v) (ALIGN_PAGE_DOWN va) = Some b ->
  perm_valid (bool_decide (is_Some (iv_writeMsgHdlr (v_block v b)))) acc = true ->
  ALIGN_PAGE_DOWN va + Z.of_nat (perm_count size) * PAGESIZE <= iv_baseAddr (v_block v b) + iv_size (v_block v b) ->
  exists v', Base_mmSetPermission va size acc v = Done (0, v') /\ vmm_ok v' /\ range_set (perm_count size) b (ALIGN_PAGE_DOWN va) acc v v'.
Proof.
  intros O Hw Hz Hf Hv Hend. unfold Base_mmSetPermission, Block_mmSetPermission. rewrite Hf.
  apply chain_find_spec in Hf as [_ Hc]. pose proof (vo_blocks _ _ O b) as Bo. apply contained_inside in Hc; [|done]. pose proof (bo_end _ Bo) as He.
  destruct (align_page_ok size Hz) as [Ha Hm]. pose proof (align_down_start va Hw) as Hs.
  set (sz := if size =? 0 then u64 (align_page size + PAGESIZE) else align_page size).
  assert (Hsz : sz = Z.of_nat (perm_count size) * PAGESIZE).
  { subst sz. unfold perm_count. destruct (size =? 0) eqn:E; b2p; [subst size; reflexivity|].
    rewrite Z2Nat.id by (apply Z.div_pos; [lia|done]). unfold PAGESIZE in *. Z.to_euclidean_division_equations; lia. }
  rewrite Hsz. rewrite Z.div_mul, Nat2Z.id by done. unfold inside in Hc. destruct (proj1 Hs) as [Hs0 _].
  rewrite (wrap_small _ (ALIGN_PAGE_DOWN va + _)) by (unfold PAGESIZE in *; split; lia).
  apply perm_loop_exact; [done..|lia|done].
Qed.

(** ** Windows *)

Lemma window_address segId k off : is_device segId = true -> (k < 32)%nat -> 0 <= off < WINDOW ->
  let a := segId * VMM_SEGMENT_SIZE + Z.of_nat k * WINDOW + off in
  is_word 64 a /\ getSegmentIdFromAddress a = segId /\ dev_index a = Z.of_nat k /\ dev_offset a = off.
Proof.
  intros Hd Hk Ho a. apply andb_true_iff in Hd as [H1 H2]. apply Z.leb_le in H1, H2.
  unfold MMIO_LAST_SEGMENT_ID, MMIO_FIRST_SEGMENT_ID in *.
  change WINDOW with 34359738368 in *. assert (Ha : a = segId * 1099511627776 + Z.of_nat k * 34359738368 + off) by done. clearbody a.
  unfold is_word, getSegmentIdFromAddress, dev_index, dev_offset. rewrite Z.shiftr_div_pow2 by done. change WINDOW with 34359738368. change (2 ^ SLBE_s) with 1099511627776.
  change (2 ^ 40) with 1099511627776. split_and!; try lia; Z.to_euclidean_division_equations; lia.
Qed.

Lemma dev_find_ok hrmor segId l k d v off :
  is_device segId = true -> (k < 32)%nat -> v_devs v segId = Some l -> dev_at l (Z.of_nat k) = d -> dev_ok d -> 0 <= off < dv_size d ->
  findPhysicalAddress hrmor (segId * VMM_SEGMENT_SIZE + Z.of_nat k * WINDOW + off) v = Done (dv_addr d + off).
Proof.
  intros Hd Hk Hl Hat (D1 & D2 & D3 & D4 & D5) Ho. assert (Hw : 0 <= off < WINDOW) by (unfold THIRTYTWO_GB in *; change WINDOW with 34359738368; lia).
  destruct (window_address segId k off Hd Hk Hw) as (W1 & W2 & W3 & W4). set (a := segId * VMM_SEGMENT_SIZE + _ + off) in *.
  destruct (dev_geometry a W1) as (G1 & G2 & G3 & G4 & _). rewrite W2 in G1, G2. unfold findPhysicalAddress. rewrite W2.
  assert (Hb : (segId =? BASE_SEGMENT_ID) = false /\ (segId =? STACK_SEGMENT_ID) = false).
  { apply andb_true_iff in Hd as [Hd _]. apply Z.leb_le in Hd. unfold MMIO_FIRST_SEGMENT_ID, BASE_SEGMENT_ID, STACK_SEGMENT_ID in *.
    split; apply Z.eqb_neq; lia. }
  destruct Hb as [-> ->]. rewrite Hd, Hl. unfold Dev_findPhysicalAddress. rewrite G1, G2, G3, G4, W3, W4, Hat. cbn [negb].
  rewrite (proj2 (Z.eqb_neq (dv_size d) 0)) by lia. rewrite orb_true_r. rewrite wrap_small by (split; lia). done.
Qed.

(** ** Theorems *)

(** C21: In every state the virtual memory can reach, each translation the
    processor can find is backed: the page of a block is present, has the real
    page of its shadow entry, and can be stored to only if the entry is writable
    and recorded as dirty; or the page lies inside an open window of a device and
    goes to that device's address. *)
Theorem vm_coherent v a pn w :
  vmm_reach v -> pt_maps (v_pt v) a (pn, w) ->
  (exists b, owner v a = Some b /\ let p := spte v b a in
     present p = true /\ pn = pt_real (page p) (access_of (iv_mappedToPhysical (v_block v b)) p) /\
     (w = true -> writable p = true /\ dirty p = true)) \/
  (exists l, is_device (getSegmentIdFromAddress a) = true /\ v_devs v (getSegmentIdFromAddress a) = Some l /\
     let d := dev_at l (dev_index a) in dev_offset a < dv_size d /\ pn = (dv_addr d + dev_offset a) / PAGESIZE).
Proof.
  intros R Hm. destruct (vo_maps _ _ (vmm_reach_ok v R) a (pn, w) Hm) as [(b & Ho & H1 & H2 & H3)|(Hd & l & El & H1 & H2)]; [intros []|left|right].
  - by exists b.
  - by exists l.
Qed.

(** C24: The fields of every shadow entry keep their widths in every reachable
    state, and no page is writable and executable at once: no translation that
    allows stores is of an executable page. *)
Theorem shadow_entries_typed v b i :
  vmm_reach v ->
  let p := iv_ptes (v_block v b) i in
  is_word 20 (page p) /\ is_word 3 (last_access p) /\ writable p && executable p = false /\
  (forall a pn, owner v a = Some b -> pte_index (v_block v b) a = i -> pt_maps (v_pt v) a (pn, true) -> executable p = false).
Proof.
  intros R p. pose proof (vmm_reach_ok v R) as O. destruct (bo_ptes _ (vo_blocks _ _ O b) i) as [P1 P2 P3]. fold p in P1, P2, P3.
  split_and!; try done; try apply P1; try apply P2. intros a pn Ho Hi Hm.
  destruct (shown nowhere v a b (pn, true) O (stray_nowhere v) Ho Hm) as (_ & _ & Hw). destruct (Hw eq_refl) as [Hw1 _].
  unfold spte in Hw1. rewrite Hi in Hw1. fold p in Hw1. by rewrite Hw1 in P3.
Qed.

(** C22: A page fault in a reachable state always returns to the dispatcher (no
    assertion of the segments and no access outside an array).  It is handled
    exactly when the permissions allow the access and the page can be had: then
    the page is translated, for stores if the access was one, or the read message
    is sent; lack of memory is told apart, and an access outside every block and
    window changes nothing. *)
Theorem page_fault_correct c nm t a store v :
  vmm_reach v -> is_word 64 a ->
  exists r oom v', handlePageFault c nm t a store v = Done (r, oom, v') /\ (oom = false -> vmm_reach v') /\ fault_result c nm t a store v r oom v'.
Proof.
  intros R Ha. destruct (handlePageFault_ok c nm t a store v (vmm_reach_ok v R) Ha) as (r & oom & v' & E & _ & _ & Hr).
  exists r, oom, v'. split_and!; [done| |done]. intros ->. apply (reach_step v); [done|].
  apply (st_fault v c nm t a store r); [done|]. unfold pteMiss. rewrite E. done.
Qed.



Lemma device_not_low segId : is_device segId = true -> (segId =? BASE_SEGMENT_ID) = false /\ (segId =? STACK_SEGMENT_ID) = false.
Proof.
  intros Hd. apply andb_true_iff in Hd as [Hd _]. apply Z.leb_le in Hd. unfold MMIO_FIRST_SEGMENT_ID, BASE_SEGMENT_ID, STACK_SEGMENT_ID in *.
  split; apply Z.eqb_neq; lia.
Qed.

(** What an open window gives. *)
Lemma window_open c nm t store hrmor v segId l k d off :
  vmm_ok v -> is_device segId = true -> (k < 32)%nat -> v_devs v segId = Some l -> l !! k = Some d -> 0 <= off < dv_size d ->
  let a := segId * VMM_SEGMENT_SIZE + Z.of_nat k * WINDOW + off in
  findPhysicalAddress hrmor a v = Done (dv_addr d + off) /\
  exists w, handlePageFault c nm t a store v = Done (true, false, w) /\
    pt_maps (v_pt w) (ALIGN_PAGE_DOWN a) ((dv_addr d + off) / PAGESIZE, writes (dev_access d)).
Proof.
  intros O Hd Hk Hl Hlk Ho a. destruct (vo_devs _ _ O _ _ Hl) as [Hlen Hok].
  assert (Hat : dev_at l (Z.of_nat k) = d) by (unfold dev_at; by rewrite nth_lookup, Nat2Z.id, Hlk).
  assert (Dok : dev_ok d) by by eapply Forall_lookup_1. split; [by apply (dev_find_ok hrmor segId l k d)|].
  destruct Dok as (_ & D2 & _). assert (Hw : 0 <= off < WINDOW) by (unfold THIRTYTWO_GB in *; change WINDOW with 34359738368; lia).
  destruct (window_address segId k off Hd Hk Hw) as (W1 & W2 & W3 & W4). fold a in W1, W2, W3, W4.
  destruct (handlePageFault_ok c nm t a store v O W1) as (r & oom & w & E & _ & _ & Hr). revert Hr. unfold fault_result.
  rewrite device_no_owner by by rewrite W2. rewrite W2, Hd, Hl, W3, W4, Hat, (proj2 (Z.ltb_lt _ _)) by lia. intros (-> & -> & Hm).
  exists w. split; [done|]. by apply Hm.
Qed.

(** Mapping a device in a reachable state fails, changing nothing, exactly
    when no window is free.  Otherwise the address returned opens a window: every
    offset below the size translates to the device's address plus the offset, for
    the kernel's walk and for a page fault; and unmapping the address gives the
    window back and leaves no translation in it. *)
Theorem device_window_roundtrip c nm t store hrmor v ra size nonCI guarded :
  vmm_reach v -> 0 <= ra -> ra mod PAGESIZE = 0 -> 0 < size <= THIRTYTWO_GB -> size mod PAGESIZE = 0 -> ra + size <= 2 ^ 56 ->
  let '(ea, v') := devMap ra size nonCI guarded v in
  if ea =? 0 then v' = v /\ forall segId, is_device segId = true -> full v segId
  else
    vmm_reach v' /\
    (forall off, 0 <= off < size ->
       findPhysicalAddress hrmor (ea + off) v' = Done (ra + off) /\
       exists w, handlePageFault c nm t (ea + off) store v' = Done (true, false, w) /\
         pt_maps (v_pt w) (ALIGN_PAGE_DOWN (ea + off)) ((ra + off) / PAGESIZE, writes (dev_access (mkDev ra nonCI guarded size)))) /\
    exists w, devUnmap ea v' = Done (0, w) /\ vmm_reach w /\
      (forall off, 0 <= off < WINDOW -> ~ mapped w (ea + off)) /\
      exists l, v_devs w (getSegmentIdFromAddress ea) = Some l /\ dev_at l (dev_index ea) = mkDev 0 nonCI false 0.
Proof.
  intros R Hra Hra2 Hsz Hsz2 He. pose proof (vmm_reach_ok v R) as O. pose proof (devMap_from_spec 9 2 v ra size nonCI guarded O) as Hs.
  assert (R' : vmm_reach (devMap ra size nonCI guarded v).2) by (apply (reach_step v); [done|]; apply st_devMap; [done..|lia|done|done]).
  unfold devMap in *. change (Z.to_nat _) with 9%nat in *. change MMIO_FIRST_SEGMENT_ID with 2 in *.
  destruct (devMap_from 9 2 ra size nonCI guarded v) as [ea v'] eqn:E. cbn [snd] in R'. destruct Hs as [[[= -> ->] Hn]|(s & k & H2 & (Hd & (l & d0 & El & Ek & Hz1 & Hz2) & Hk & Eea) & Ev)].
  - intros s Hs. unfold is_device. rewrite andb_true_iff, !Z.leb_le. change MMIO_FIRST_SEGMENT_ID with 2. change MMIO_LAST_SEGMENT_ID with 10. lia.
  - lia.
  - cbn. split; [done|]. intros s Hs. apply Hn. apply andb_true_iff in Hs as [Hs1 Hs2]. apply Z.leb_le in Hs1, Hs2. change MMIO_FIRST_SEGMENT_ID with 2 in Hs1.
    change MMIO_LAST_SEGMENT_ID with 10 in Hs2. lia.
  - cbn [fst snd] in Eea, Ev. assert (Hea : (ea =? 0) = false).
    { apply Z.eqb_neq. subst ea. apply andb_true_iff in Hd as [Hd _]. apply Z.leb_le in Hd. unfold MMIO_FIRST_SEGMENT_ID, VMM_SEGMENT_SIZE in *.
      change WINDOW with 34359738368. lia. }
    rewrite Hea. split; [done|]. unfold enter_window in Ev. rewrite El in Ev.
    rewrite (wrap_small 62) in Ev by (unfold THIRTYTWO_GB in *; split; lia). set (d := mkDev ra nonCI guarded size) in *.
    assert (El' : v_devs v' s = Some (<[k := d]> l)) by (rewrite Ev; cbn; by rewrite upd_eq).
    pose proof (lookup_lt_Some _ _ _ Ek) as Hlt. assert (Elk : (<[k := d]> l) !! k = Some d) by by apply list_lookup_insert_eq.
    pose proof (vmm_reach_ok v' R') as O'. split.
    { intros off Ho. rewrite Eea. by apply (window_open c nm t store hrmor v' s (<[k := d]> l) k d off). }
    assert (Hpos : 0 <= 0 < WINDOW) by done. destruct (window_address s k 0 Hd Hk Hpos) as (W1 & W2 & W3 & W4). rewrite Z.add_0_r, <-Eea in W1, W2, W3, W4.
    destruct (devUnmap_ok v' ea O' W1) as (rc & w & Ew & Ow & H0 & Hne).
    assert (rc = 0) as ->.
    { revert Ew. unfold devUnmap. rewrite W2, Hd, El'. cbn [negb]. destruct (dev_geometry ea W1) as (G1 & G2 & G3 & G4 & G5 & G6). rewrite W2 in G1, G2.
      unfold Dev_devUnmap. rewrite G1, G2, G3, W3. cbn [negb].
      assert (Hat : dev_at (<[k := d]> l) (Z.of_nat k) = d) by (unfold dev_at; by rewrite nth_lookup, Nat2Z.id, Elk). rewrite !Hat.
      rewrite (proj2 (Z.eqb_neq (dv_size d) 0)) by (cbn; lia). rewrite orb_true_r.
      destruct (on_pt _ v'); cbn; [|done]. by intros [= <- _]. }
    exists w. destruct (H0 eq_refl) as (l' & El2 & Ed2 & Hum). split; [done|]. split; [by apply (reach_step v'), (st_devUnmap v' ea 0)|]. split.
    + intros off Ho. rewrite Eea. destruct (window_address s k off Hd Hk Ho) as (V1 & V2 & V3 & V4). apply Hum; congruence.
    + rewrite W2, El' in El2. injection El2 as <-. eexists. split; [exact Ed2|]. rewrite W3, Nat2Z.id, dev_at_insert by (rewrite ?length_insert; done || lia).
      rewrite Z.eqb_refl. f_equal. unfold dev_at. by rewrite nth_lookup, Nat2Z.id, Elk.
Qed.

(** ** Stacks *)

Lemma stack_owner v tid k b a :
  0 <= tid < 2 ^ 16 -> stack_addr tid <= a < stack_addr tid + STACK_RANGE -> LList.find fst (stack_addr tid) (v_stacks v) = Some (k, b) ->
  owner v a = if isContained (v_block v b) a then Some b else None.
Proof. intros Ht Ha Hf. destruct (stack_range_key tid a Ht Ha) as [Ek Es]. unfold owner. rewrite Es, Ek, Hf. done. Qed.

(** A page of a new stack that nobody has touched. *)
Lemma stack_page_fault c nm t store v base b a :
  vmm_ok v -> b ∉ v_chain v -> stacking 64 base b v -> owner v a = Some b -> is_word 64 a ->
  match fr_alloc (v_frames v) with
  | (Some pg, s) => exists w, handlePageFault c nm t a store v = Done (true, false, w) /\ v_frames w = s /\ resolved w (ALIGN_PAGE_DOWN a) store
  | (None, _) => exists w, handlePageFault c nm t a store v = Done (false, true, w)
  end.
Proof.
  intros O Hb [G1 G2 G3 G4 G5] Ho Ha. destruct (handlePageFault_ok c nm t a store v O Ha) as (r & oom & w & E & _ & _ & Hr). revert Hr.
  unfold fault_result. rewrite Ho. unfold fault_spec. rewrite G4.
  assert (Ep : spte v b (ALIGN_PAGE_DOWN a) = stack_pte).
  { rewrite <-(owner_down nowhere) in Ho by done. destruct (owner_block nowhere v _ b O Ho) as [_ Hi]. pose proof (vo_blocks _ _ O b) as Bo.
    unfold spte. rewrite (proj1 (index_inside _ _ Bo Hi)), G5; [rewrite (proj2 (Z.ltb_lt _ _)); [done|]|];
      unfold inside in Hi; rewrite G1, G2 in *; unfold PAGESIZE; [apply Z.div_lt_upper_bound; lia|].
    split; [apply Z.div_pos; lia|apply Z.div_lt_upper_bound; lia]. }
  rewrite Ep. change (accessible stack_pte store) with (negb (store && false)). rewrite andb_false_r. cbn [negb].
  change (present stack_pte) with false. change (allocate_from_zero stack_pte) with true. cbv iota.
  destruct (fr_alloc (v_frames v)) as [[pg|] s].
  - intros (-> & -> & Hf & _ & _ & Hres). exists w. split_and!; try done. apply Hres. intros [Hc _]%chain_find_spec. done.
  - intros [-> ->]. by exists w.
Qed.

(** The stack made in a reachable state for a task that has none lies inside
    the task's own 8 MB with a gap at each end.  A fault on any address of its 256
    KB is resolved by a page of zeroes (or memory has run out); a fault on any
    other address of the 8 MB is not handled and changes nothing, so running over
    either end of the stack is caught. *)
Theorem stack_guarded c nm t store v tid b :
  vmm_reach v -> 0 <= tid < 2 ^ 16 -> b ∉ blocks v -> LList.find fst (stack_addr tid) (v_stacks v) = None ->
  exists top v', createStack tid b v = Done (top, v') /\ vmm_reach v' /\
    let bottom := stack_addr tid + l_offset_bottom tid in
    stack_addr tid + 64 * 1024 <= bottom /\ top + 8 = bottom + 256 * 1024 /\ top + 8 + 64 * 1024 <= stack_addr tid + STACK_RANGE /\
    forall a, stack_addr tid <= a < stack_addr tid + STACK_RANGE ->
      if (bottom <=? a) && (a <? top + 8) then
        match fr_alloc (v_frames v') with
        | (Some pg, s) => exists w, handlePageFault c nm t a store v' = Done (true, false, w) /\ v_frames w = s /\ resolved w (ALIGN_PAGE_DOWN a) store
        | (None, _) => exists w, handlePageFault c nm t a store v' = Done (false, true, w)
        end
      else handlePageFault c nm t a store v' = Done (false, false, v').
Proof.
  intros R Ht Hb Hf. pose proof (vmm_reach_ok v R) as O. destruct (createStack_ok v tid b O Hb Ht Hf) as (v' & E & O' & Es & Ec & G & Ef & Ept).
  exists (stack_addr tid + l_offset_top tid), v'. split; [done|]. split; [by apply (reach_step v), (st_create v tid b (stack_addr tid + l_offset_top tid))|].
  cbv zeta. set (bottom := stack_addr tid + l_offset_bottom tid) in *.
  assert (Etop : stack_addr tid + l_offset_top tid + 8 = bottom + 256 * 1024) by (unfold bottom, l_offset_top; lia).
  assert (Hoff : 64 * 1024 <= l_offset_bottom tid <= (64 + 128 * 60) * 1024) by (unfold l_offset_bottom; pose proof (Z.mod_pos_bound tid 61 eq_refl); lia).
  assert (Hfind : LList.find fst (stack_addr tid) (v_stacks v') = Some (stack_addr tid, b)) by (rewrite Es; cbn; by rewrite Z.eqb_refl).
  split_and!; [lia|done|unfold STACK_RANGE, bottom in *; lia|]. intros a Ha. rewrite Etop.
  destruct (stack_geometry tid Ht) as (_ & _ & _ & Hg1 & Hg2). assert (Hw : is_word 64 a) by (split; lia).
  pose proof (stack_owner v' tid _ b a Ht Ha Hfind) as Ho. pose proof (vo_blocks _ _ O' b) as Bo.
  assert (Ei : isContained (v_block v' b) a = (bottom <=? a) && (a <? bottom + 256 * 1024)).
  { apply eq_true_iff_eq. rewrite contained_inside, andb_true_iff, Z.leb_le, Z.ltb_lt by done. unfold inside.
    by rewrite (sg_base _ _ _ _ G), (sg_size _ _ _ _ G). }
  rewrite Ei in Ho. destruct (_ && _).
  - apply (stack_page_fault c nm t store v' bottom b); try done. rewrite Ec. intros Hin. apply Hb, elem_of_app. by left.
  - destruct (handlePageFault_ok c nm t a store v' O' Hw) as (r & oom & w & E1 & _ & _ & Hr). revert Hr. unfold fault_result. rewrite Ho.
    destruct (stack_range_key tid a Ht Ha) as [_ ->]. cbn. intros (-> & -> & ->). done.
Qed.

(** Deleting a task's stack in a reachable state leaves no translation in
    its 8 MB and no owner of them; it asserts exactly when the task has no stack
    and can otherwise stop only in the page manager. *)
Theorem deleteStack_clears v tid :
  vmm_reach v -> 0 <= tid < 2 ^ 16 ->
  match deleteStack tid v with
  | Crash f => if decide (is_Some (LList.find fst (stack_addr tid) (v_stacks v))) then vmm_fault f else f = KAssert
  | Done v' =>
      is_Some (LList.find fst (stack_addr tid) (v_stacks v)) /\ vmm_reach v' /\
      forall a, stack_addr tid <= a < stack_addr tid + STACK_RANGE -> owner v' a = None /\ ~ mapped v' a
  end.
Proof.
  intros R Ht. pose proof (vmm_reach_ok v R) as O. destruct (LList.find fst (stack_addr tid) (v_stacks v)) as [[k b]|] eqn:Hf.
  - assert (k = stack_addr tid) as -> by by apply find_elem in Hf as [_ Hf].
    pose proof (deleteStack_ok v tid b O Ht Hf) as Hs. destruct (deleteStack tid v) as [v'|f] eqn:E; cbn in Hs.
    + destruct Hs as (O' & Es & Ec). split; [done|]. split; [by apply (reach_step v), (st_delete v tid)|]. intros a Ha.
      destruct (stack_range_key tid a Ht Ha) as [Ek Eseg].
      assert (Ho : owner v' a = None) by (unfold owner; rewrite Eseg, Ek, Es, find_erase_self; [done|apply (vo_keys _ _ O)]).
      split; [done|]. intros [y Hy]. destruct (vo_maps _ _ O' a y Hy) as [(d & Hd & _)|(Hd & _)]; [intros []|congruence|by rewrite Eseg in Hd].
    + by rewrite decide_True.
  - unfold deleteStack. rewrite Hf. rewrite decide_False; [done|]. by intros [? ?].
Qed.
End claims.
