(* ===== verification/VmmSamples.v ===== *)
(** * Virtual memory: the page table and page manager of the kernel, and samples

    The interfaces are those of the page table manager and of the page manager;
    the theorems are applied to the states after a start with an 8 MB cache. *)

From stdpp Require Import relations.
From S2P Require Import Prelude Containers PageMgr PtMgr PtMgrInv PtMgrClaims Sched TaskMgr MsgQ MsgQReply Spte Vmm VmmSeg VmmSpec VmmOps VmmFault VmmRange VmmStack VmmDev VmmPt VmmSteps VmmClaims.

(** The page manager; a pointer has 64 bits and the null pointer is not freed.
    [allocatePage] does not assert for a caller that allows lack of memory. *)
#[export] Instance PageMgr_frames : Frames PageManager := {|
  fr_alloc := fun pm =>
    match pm_allocatePage 1 false true pm with Done (p, pm) => (u64 <$> p, pm) | Crash _ => (None, pm) end;
  fr_free := fun a => pm_freePage (if a =? 0 then None else Some a) 1;
  fr_add := pm_addMemory
|}.

#[export] Instance PageMgr_laws : FrameLaws PageManager.
Proof.
  intros s a s'. cbn. destruct (pm_allocatePage 1 false true s) as [[[p|] pm]|f]; cbn; intros [= <- _]. apply wrap_word. lia.
Qed.

Lemma alloc_never_asserts pm : exists r, pm_allocatePage 1 false true pm = Done r.
Proof.
  unfold pm_allocatePage. destruct (core_allocatePage 1 (pm_heap pm)) as [[p|] h]; cbn; [by eexists|].
  destruct (core_allocatePage 1 (pm_heapKernel pm)) as [[p|] k]; by eexists.
Qed.

#[export] Instance kernel_table : PageTable PageTableManager := PtMgr_table 0 boot_hrmor no_pte.
#[export] Instance kernel_table_laws : PageTableLaws PageTableManager :=
  PtMgr_laws 0 boot_hrmor no_pte (proj1 boot_hrmor_ok) (proj2 boot_hrmor_ok).

(** ** Samples *)

Definition sample_pm : PageManager :=
  match pm_initialize sample_layout with
  | Done pm => pm
  | Crash _ => mkPageManager 0 0 (core_new true) (core_new false) 0 0 false
  end.

Lemma sample_alloc : exists pg s, fr_alloc sample_pm = (Some pg, s).
Proof. eexists _, _. vm_compute. reflexivity. Qed.

Abbreviation vmem := (Vmm PageTableManager PageManager).

Definition sample_boot (t : PageTableManager) : vmem :=
  mkVmm (fun _ => mkBlock 0 0 (fun _ => spte0) None None false [] []) [] [] devs_init 0 0 0 t sample_pm sample_kern.

(** The page manager has a page to give. *)
Definition has_page (v : vmem) : Prop := exists pg s, fr_alloc (v_frames v) = (Some pg, s).

(** After the start: the base block, at address 100. *)
Definition started (v : vmem) : Prop :=
  vmm_reach v /\ v_chain v = [100] /\ v_stacks v = [] /\ iv_baseAddr (v_block v 100) = 0 /\ iv_size (v_block v 100) = 0x800000 /\ has_page v.

Lemma sample_started : exists v, started v.
Proof.
  destruct boot_table as (t & _ & O & Hn).
  assert (B : boot (sample_boot t)).
  { split; try done. intros a (y & x & Hx & _). by apply (Hn a x). }
  destruct (BaseSegment_init_ok (sample_boot t) 0x800000 0x40000 100 B ltac:(done) ltac:(done)) as (v & E & _ & H1 & H2 & H3 & H4 & H5 & _).
  assert (Hp : has_page v) by (unfold has_page; rewrite H5; apply sample_alloc). clear H5.
  exists v. split; [exists (sample_boot t), 0x800000, 0x40000, 100, v; do 4 (split; [done|]); done|].
  by do 4 (split; [done|]).
Qed.

Lemma started_find v a : started v -> 0 <= a < 0x800000 -> chain_find v (v_chain v) a = Some 100.
Proof.
  intros (R & H1 & _ & H2 & H3 & _) Ha. rewrite H1. cbn.
  rewrite (proj2 (contained_inside _ _ (vo_blocks _ _ (vmm_reach_ok v R) 100))); [done|]. unfold inside. rewrite H2, H3. lia.
Qed.

Lemma started_fresh v b : started v -> b <> 100 -> b ∉ blocks v.
Proof. intros (_ & H1 & H2 & _) Hb. unfold blocks. rewrite H1, H2. cbn. rewrite not_elem_of_cons. split; [done|apply not_elem_of_nil]. Qed.

(** Task 5 has a stack. *)
Definition stacked (v : vmem) : Prop :=
  vmm_reach v /\ v_stacks v = [(stack_addr 5, 200)] /\ v_chain v = [100] /\ stacking 64 (stack_addr 5 + l_offset_bottom 5) 200 v /\ has_page v.

Lemma sample_stacked : exists v, stacked v.
Proof.
  destruct sample_started as (v & S). pose proof S as (R & H1 & H2 & H3 & H4 & H5).
  destruct (createStack_ok v 5 200 (vmm_reach_ok v R) (started_fresh v 200 S ltac:(done)) ltac:(done)) as (v' & E & O & Es & Ec & G & Ef & _); [by rewrite H2|].
  exists v'. split_and!; [|by rewrite Es, H2|by rewrite Ec|done|unfold has_page; by rewrite Ef].
  apply (reach_step v); [done|]. by apply (st_create v 5 200 (stack_addr 5 + l_offset_top 5)); [apply started_fresh|..].
Qed.

Definition sample_addr : Z := stack_addr 5 + l_offset_top 5.

Lemma stacked_owner v : stacked v -> owner v sample_addr = Some 200.
Proof.
  intros (R & H1 & H2 & G & _). rewrite (stack_owner v 5 (stack_addr 5) 200) by (rewrite ?H1; done).
  rewrite (proj2 (contained_inside _ _ (vo_blocks _ _ (vmm_reach_ok v R) 200))); [done|]. unfold inside.
  rewrite (sg_base _ _ _ _ G), (sg_size _ _ _ _ G). done.
Qed.

(** The task has stored to its stack. *)
Lemma sample_used : exists (v : vmem) pn, vmm_reach v /\ pt_maps (v_pt v) (ALIGN_PAGE_DOWN sample_addr) (pn, true).
Proof.
  destruct sample_stacked as (v & S). pose proof S as (R & H1 & H2 & G & Ef).
  assert (Hn : 200 ∉ v_chain v) by (rewrite H2; by intros ?%list_elem_of_singleton).
  assert (Hw : is_word 64 sample_addr) by done.
  pose proof (stack_page_fault 0 900 1 true v _ 200 sample_addr (vmm_reach_ok v R) Hn G (stacked_owner v S) Hw) as Hf.
  destruct Ef as (pg & s & Ea). rewrite Ea in Hf. destruct Hf as (w & E & _ & [pn y] & Hm & Hy).
  rewrite <-(Hy eq_refl). exists w, pn. split; [|exact Hm]. apply (reach_step v); [done|]. apply (st_fault v 0 900 1 sample_addr true true); [done|].
  unfold pteMiss. by rewrite E.
Qed.

(** A block whose pages come from a queue. *)
Lemma sample_block : exists v : vmem, vmm_reach v /\ chain_find v (tail (v_chain v)) 0x10000000 = Some 300.
Proof.
  destruct sample_started as (v & S). pose proof S as (R & H1 & H2 & H3 & H4 & H5).
  assert (Hb : 300 ∉ blocks v) by by apply (started_fresh v 300 S).
  pose proof (st_alloc v (Some 5000) 0x10000000 0x3000 false 300 901 902 Hb ltac:(done) ltac:(done)) as Hst.
  pose proof (mmAllocBlock_ok v (Some 5000) 0x10000000 0x3000 false 300 901 902 (vmm_reach_ok v R) Hb ltac:(done) ltac:(done)) as [O Ha].
  assert (E1 : (mmAllocBlock (Some 5000) 0x10000000 0x3000 false 300 901 902 v).1 = 0).
  { unfold mmAllocBlock, totalBlocksAlloc. rewrite H1. cbn [foldl chain_find]. rewrite H4. unfold isContained. rewrite H3, H4. reflexivity. }
  set (r := mmAllocBlock _ _ _ _ _ _ _ v) in *. exists r.2. split; [by apply (reach_step v)|].
  destruct Ha as [->|[->|(_ & _ & _ & Ec & _ & B1 & B2 & _)]]; [done..|]. rewrite Ec, H1. cbn [app tail chain_find].
  rewrite (proj2 (contained_inside _ _ (vo_blocks _ _ O 300))); [done|]. unfold inside. rewrite B1, B2. done.
Qed.

(** ** The theorems at the samples *)

Lemma vm_coherent_witness : exists (v : vmem) pn,
  pt_maps (v_pt v) (ALIGN_PAGE_DOWN sample_addr) (pn, true) /\
  exists b, owner v (ALIGN_PAGE_DOWN sample_addr) = Some b /\ dirty (spte v b (ALIGN_PAGE_DOWN sample_addr)) = true.
Proof.
  destruct sample_used as (v & pn & R & Hm). exists v, pn. split; [exact Hm|].
  destruct (vm_coherent v (ALIGN_PAGE_DOWN sample_addr) pn true R Hm) as [(b & Ho & _ & _ & Hw)|(l & Hd & _)].
  - exists b. split; [exact Ho|]. exact (proj2 (Hw eq_refl)).
  - exfalso. revert Hd. vm_compute. discriminate.
Defined.

Lemma shadow_entries_typed_witness : exists (v : vmem) pn b,
  pt_maps (v_pt v) (ALIGN_PAGE_DOWN sample_addr) (pn, true) /\ is_word 20 (page (iv_ptes (v_block v b) 63)).
Proof.
  destruct sample_used as (v & pn & R & Hm). exists v, pn, 200. split; [exact Hm|].
  exact (proj1 (shadow_entries_typed v 200 63 R)).
Defined.

Lemma page_fault_correct_witness : exists (v v' : vmem), handlePageFault 0 900 1 sample_addr true v = Done (true, false, v').
Proof.
  destruct sample_stacked as (v & S). pose proof S as (R & H1 & H2 & G & Ef). exists v.
  destruct (page_fault_correct 0 900 1 sample_addr true v R ltac:(done)) as (r & oom & v' & E & _ & Hr). exists v'. rewrite E.
  revert Hr. unfold fault_result. rewrite (stacked_owner v S). unfold fault_spec.
  pose proof (stack_page_fault 0 900 1 true v _ 200 sample_addr (vmm_reach_ok v R) ltac:(rewrite H2; by intros ?%list_elem_of_singleton) G (stacked_owner v S) ltac:(done)) as Hf.
  destruct Ef as (pg & s & Ea). rewrite Ea in Hf. destruct Hf as (w & Ew & _). rewrite E in Ew. by injection Ew as -> -> _.
Defined.



Lemma device_window_roundtrip_witness : exists v : vmem,
  let '(ea, v') := devMap 0x6030000000000 0x100000 false true v in
  ea = 0 \/ findPhysicalAddress 0 (ea + 0x1234) v' = Done 0x6030000001234.
Proof.
  destruct sample_started as (v & S). pose proof S as (R & _). exists v.
  pose proof (device_window_roundtrip 0 900 1 true 0 v 0x6030000000000 0x100000 false true R ltac:(done) ltac:(done) ltac:(done) ltac:(done) ltac:(done)) as Hr.
  destruct (devMap _ _ _ _ v) as [ea v']. destruct (ea =? 0) eqn:Ee; [left; by apply Z.eqb_eq|right].
  destruct Hr as (_ & Hr & _). exact (proj1 (Hr 0x1234 ltac:(done))).
Defined.

Lemma stack_guarded_witness : exists (v v' : vmem) top,
  createStack 5 200 v = Done (top, v') /\ handlePageFault 0 900 1 (stack_addr 5) true v' = Done (false, false, v').
Proof.
  destruct sample_started as (v & S). pose proof S as (R & H1 & H2 & _).
  destruct (stack_guarded 0 900 1 true v 5 200 R ltac:(done) (started_fresh v 200 S ltac:(done)) ltac:(by rewrite H2)) as (top & v' & E & _ & _ & Htop & _ & Hf).
  exists v, v', top. split; [exact E|]. apply (Hf (stack_addr 5)). by vm_compute.
Defined.

Lemma deleteStack_clears_witness : exists v : vmem,
  match deleteStack 5 v with
  | Crash f => vmm_fault (F := PageManager) f
  | Done v' => ~ mapped v' (ALIGN_PAGE_DOWN sample_addr)
  end.
Proof.
  destruct sample_used as (v & pn & R & Hm). exists v. pose proof (deleteStack_clears v 5 R ltac:(done)) as Hd.
  destruct (deleteStack 5 v) as [v'|f].
  - apply Hd. by vm_compute.
  - destruct (vmm_reach_ok v R) as [_ _ _ _ _ _ _ Hb]. destruct (decide _) as [_|Hn]; [exact Hd|]. destruct Hn.
    destruct (Hb _ _ Hm) as [(b & Ho & _)|(Hd' & _)]; [intros []| |exfalso; revert Hd'; vm_compute; discriminate].
    revert Ho. unfold owner. change (getSegmentIdFromAddress (ALIGN_PAGE_DOWN sample_addr)) with 1. change (stack_key (ALIGN_PAGE_DOWN sample_addr)) with (stack_addr 5).
    cbn [Z.eqb BASE_SEGMENT_ID STACK_SEGMENT_ID Pos.eqb]. destruct (LList.find fst (stack_addr 5) (v_stacks v)) as [x|]; [intros _; by eexists|discriminate].
Defined.
