(* ===== verification/SplayTree.v ===== *)
(** * The splay tree of the C library
      ([src/lib/splaytree.C], [include/util/impl/splaytree.H])

    Nodes and trees live in one memory and are named by their addresses; a
    pointer to a freed node, or to none, is a bad access.  Every public operation
    holds the recursive mutex of its tree from its start to its end and is one
    step here.  The depth a recursion may reach is the number of nodes of the
    tree: beyond it the stack of the task overflows.  The entry kept in a node is
    a key with a value, as the only client, [util/impl/stlmap.H], has it. *)

From S2P Require Import Prelude.

(** [DIRECTION]: the index of a child. *)
Definition LEFT : bool := false.
Definition RIGHT : bool := true.

Record Node (K V : Type) : Type := mkNode {
  parent : Z;
  child_left : Z;
  child_right : Z;
  data : K * V
}.
Arguments mkNode {K V}.
Arguments parent {K V}.
Arguments child_left {K V}.
Arguments child_right {K V}.
Arguments data {K V}.

(** The header of a tree: the root, the ends and the number of nodes. *)
Record Header : Type := mkHeader {
  hd_root : Z;
  hd_left : Z;
  hd_right : Z;
  hd_size : Z
}.

Record Memory (K V : Type) : Type := mkMem {
  nodes : Z -> option (Node K V);
  header : Z -> Header
}.
Arguments mkMem {K V}.
Arguments nodes {K V}.
Arguments header {K V}.

Section splaytree.
Context {K V : Type} (iv_comp : K -> K -> bool).
Implicit Types (m : Memory K V) (n p t y self : Z) (d : bool).

(** ** Access to nodes and headers *)

Definition child (x : Node K V) d : Z := if d then child_right x else child_left x.
Definition with_parent p (x : Node K V) : Node K V := mkNode p (child_left x) (child_right x) (data x).
Definition with_child d n (x : Node K V) : Node K V :=
  if d then mkNode (parent x) (child_left x) n (data x) else mkNode (parent x) n (child_right x) (data x).

Definition store n (x : option (Node K V)) m : Memory K V := mkMem (upd (nodes m) n x) (header m).
Definition with_header self (h : Header) m : Memory K V := mkMem (nodes m) (upd (header m) self h).

Definition load m n : outcome (Node K V) :=
  if n =? 0 then Crash BadAccess else match nodes m n with Some x => Done x | None => Crash BadAccess end.
Definition get_parent m n : outcome Z := do x <- load m n; Done (parent x).
Definition get_child m n d : outcome Z := do x <- load m n; Done (child x d).
Definition get_key m n : outcome K := do x <- load m n; Done (data x).1.
Definition set_parent n p m : outcome (Memory K V) := do x <- load m n; Done (store n (Some (with_parent p x)) m).
Definition set_child n d c m : outcome (Memory K V) := do x <- load m n; Done (store n (Some (with_child d c x)) m).

Definition hd_child (h : Header) d : Z := if d then hd_right h else hd_left h.
Definition set_root self n m : Memory K V :=
  let h := header m self in with_header self (mkHeader n (hd_left h) (hd_right h) (hd_size h)) m.
Definition set_end self d n m : Memory K V :=
  let h := header m self in
  with_header self (if d then mkHeader (hd_root h) (hd_left h) n (hd_size h) else mkHeader (hd_root h) n (hd_right h) (hd_size h)) m.
Definition set_size self n m : Memory K V :=
  let h := header m self in with_header self (mkHeader (hd_root h) (hd_left h) (hd_right h) (u64 n)) m.

Definition depth m self : nat := S (Z.to_nat (hd_size (header m self))).

(** The comparison of two keys ([Map::compare]). *)
Definition compare (k1 k2 : K) : Z := if iv_comp k1 k2 then -1 else if iv_comp k2 k1 then 1 else 0.

Definition direction m p c : outcome bool := do l <- get_child m p LEFT; Done (if l =? c then LEFT else RIGHT).

(** ** Walks *)

(** [leftmost] and [rightmost]. *)
Fixpoint edge (fuel : nat) d m n : outcome Z :=
  match fuel with
  | O => Crash BadAccess
  | S fuel => do c <- get_child m n d; if c =? 0 then Done n else edge fuel d m c
  end.

(** The loop of [successor] ([d] is [LEFT]) and [predecessor] ([d] is [RIGHT]). *)
Fixpoint climb (fuel : nat) d m n y : outcome Z :=
  match fuel with
  | O => Crash BadAccess
  | S fuel =>
      if y =? 0 then Done y
      else do c <- get_child m y (negb d); if n =? c then do z <- get_parent m y; climb fuel d m y z else Done y
  end.

Definition neighbour (fuel : nat) d m n : outcome Z :=
  do c <- get_child m n (negb d);
  if negb (c =? 0) then edge fuel d m c else do y <- get_parent m n; climb fuel d m n y.
Definition successor self m n : outcome Z := neighbour (depth m self) LEFT m n.
Definition predecessor self m n : outcome Z := neighbour (depth m self) RIGHT m n.

(** ** Rotations *)

Definition rotate self n d m : outcome (Memory K V) :=
  do p <- get_parent m n;
  do c <- get_child m n d;
  do m <- set_child p (negb d) c m;
  do c <- get_child m n d;
  do m <- (if negb (c =? 0) then set_parent c p m else Done m);
  do q <- get_parent m p;
  do m <- set_parent n q m;
  do q <- get_parent m p;
  do m <- (if q =? 0 then Done (set_root self n m) else do e <- direction m q p; set_child q e n m);
  do m <- set_parent p n m;
  set_child n d p m.

(** [rotate(n, !direction(n->parent, n))]. *)
Definition rotate_up self n m : outcome (Memory K V) :=
  do p <- get_parent m n; do e <- direction m p n; rotate self n (negb e) m.

Fixpoint splay_rec (fuel : nat) self n m : outcome (Memory K V) :=
  match fuel with
  | O => Crash BadAccess
  | S fuel =>
      do p <- get_parent m n;
      if p =? 0 then Done m
      else
        do q <- get_parent m p;
        if q =? 0 then rotate_up self n m
        else
          do e1 <- direction m p n;
          do e2 <- direction m q p;
          if Bool.eqb e1 e2 then
            do m <- rotate_up self p m; do m <- rotate_up self n m; splay_rec fuel self n m
          else
            do m <- rotate_up self n m; do m <- rotate_up self n m; splay_rec fuel self n m
  end.
Definition splay self n m : outcome (Memory K V) := splay_rec (depth m self) self n m.

(** ** Search and insertion *)

(** [n] is the key of the node searched for; none stands for a null pointer. *)
Fixpoint find_rec (fuel : nat) m t (n : option K) : outcome (bool * Z) :=
  match fuel with
  | O => Crash BadAccess
  | S fuel =>
      match n with
      | None => Done (false, t)
      | Some k =>
          do kt <- get_key m t;
          let c := compare k kt in
          if c =? 0 then Done (true, t)
          else do child <- get_child m t (if c <? 0 then LEFT else RIGHT);
               if child =? 0 then Done (false, t) else find_rec fuel m child n
      end
  end.

(** The recursion of [__insert] swaps its arguments. *)
Fixpoint insert_rec (fuel : nat) t n m : outcome (Memory K V) :=
  match fuel with
  | O => Crash BadAccess
  | S fuel =>
      do kn <- get_key m n; do kt <- get_key m t;
      let d := if compare kn kt <? 0 then LEFT else RIGHT in
      do child <- get_child m t d;
      if child =? 0 then do m <- set_child t d n m; set_parent n t m else insert_rec fuel n child m
  end.

Definition insert self n m : outcome (Memory K V) :=
  let h := header m self in
  do m <-
    (if hd_root h =? 0 then
       let m := set_root self n (set_end self LEFT n (set_end self RIGHT n m)) in
       do m <- set_child n RIGHT 0 m; do m <- set_child n LEFT 0 m; set_parent n 0 m
     else
       do k <- get_key m n;
       do (_, insert_location) <- find_rec (depth m self) m (hd_root h) (Some k);
       do m <- insert_rec (depth m self) insert_location n m;
       do l <- edge (depth m self) LEFT m (hd_left (header m self));
       let m := set_end self LEFT l m in
       do r <- edge (depth m self) RIGHT m (hd_right (header m self));
       let m := set_end self RIGHT r m in
       splay self n m);
  Done (set_size self (hd_size (header m self) + 1) m).

(** ** Removal *)

Definition remove_ends self n m : outcome (Memory K V) :=
  do m <- (if hd_left (header m self) =? n then do s <- successor self m n; Done (set_end self LEFT s m) else Done m);
  if hd_right (header m self) =? n then do p <- predecessor self m n; Done (set_end self RIGHT p m) else Done m.

(** Splice [y], which has at most one child, out of the tree. *)
Definition splice self y m : outcome (Memory K V) :=
  do l <- get_child m y LEFT;
  do x <- (if negb (l =? 0) then Done l else get_child m y RIGHT);
  do q <- get_parent m y;
  do m <- (if negb (x =? 0) then set_parent x q m else Done m);
  if q =? 0 then Done (set_root self x m) else do e <- direction m q y; set_child q e x m.

Definition adopt_child y n d m : outcome (Memory K V) :=
  do c <- get_child m n d;
  do m <- set_child y d c m;
  if negb (c =? 0) then set_parent c y m else Done m.

(** Put [y] in the place of [n]. *)
Definition replace self n y m : outcome (Memory K V) :=
  do q <- get_parent m n;
  do m <- set_parent y q m;
  do m <- (if negb (q =? 0) then do e <- direction m q n; set_child q e y m else Done (set_root self y m));
  do m <- adopt_child y n LEFT m;
  adopt_child y n RIGHT m.

Definition remove self n m : outcome (Memory K V) :=
  do m <- remove_ends self n m;
  let m := set_size self (hd_size (header m self) - 1) m in
  do l <- get_child m n LEFT;
  do r <- get_child m n RIGHT;
  do y <- (if (l =? 0) || (r =? 0) then Done n else successor self m n);
  do m <- splice self y m;
  if negb (y =? n) then do m <- replace self n y m; splay self y m else Done m.

(** ** Operations by value *)

Definition find_hint self (n : option K) (hint : Z) m : outcome (bool * Z * Memory K V) :=
  let h := header m self in
  if hd_root h =? 0 then Done (false, hint, m)
  else
    do (found, hint) <- find_rec (depth m self) m (hd_root h) n;
    do m <- (if negb (hint =? 0) then splay self hint m else Done m);
    Done (found, hint, m).

Definition find_by_value self (k : K) m : outcome (Z * Memory K V) :=
  do (found, n, m) <- find_hint self (Some k) 0 m; Done (if found : bool then n else 0, m).

(** A new node at [n], unlinked ([copy_functor]). *)
Definition new_node n (kv : K * V) m : Memory K V := store n (Some (mkNode 0 0 0 kv)) m.

(** [new] gives the address [a]. *)
Definition insert_by_value self a (kv : K * V) m : outcome (bool * Z * Memory K V) :=
  do (n, m) <- find_by_value self kv.1 m;
  if negb (n =? 0) then Done (false, n, m)
  else do m <- insert self a (new_node a kv m); Done (true, a, m).

Definition remove_by_value self (k : K) m : outcome (Z * Memory K V) :=
  if hd_root (header m self) =? 0 then Done (0, m)
  else
    do (found, v_node) <- find_rec (depth m self) m (hd_root (header m self)) (Some k);
    if found : bool then do m <- remove self v_node m; Done (1, store v_node None m) else Done (0, m).

Definition lower_bound_by_value self (k : K) m : outcome (Z * Memory K V) :=
  do (found, n, m) <- find_hint self (Some k) 0 m;
  if found || (n =? 0) then Done (n, m)
  else do kn <- get_key m n;
       if -1 =? compare kn k then do s <- successor self m n; Done (s, m) else Done (n, m).

Definition upper_bound_by_value self (k : K) m : outcome (Z * Memory K V) :=
  do (found, n, m) <- find_hint self (Some k) 0 m;
  if found : bool then do s <- successor self m n; Done (s, m)
  else if n =? 0 then Done (0, m)
  else do kn <- get_key m n;
       if -1 =? compare kn k then do s <- successor self m n; Done (s, m) else Done (n, m).

Definition front self m : Z := hd_left (header m self).
Definition back self m : Z := hd_right (header m self).
Definition size self m : Z := hd_size (header m self).
Definition empty self m : bool := size self m =? 0.

(** ** Whole trees *)

Fixpoint clear_loop (fuel : nat) self n m : outcome (Memory K V) :=
  match fuel with
  | O => Crash BadAccess
  | S fuel =>
      if n =? 0 then Done m
      else do s <- successor self m n; do m <- remove self n m; clear_loop fuel self s (store n None m)
  end.
Definition clear self m : outcome (Memory K V) := clear_loop (depth m self) self (front self m) m.

(** The nodes from [n1] to [n2], of the tree at [src]; the addresses [new] gives
    are a list.  [successor] needs no tree. *)
Fixpoint insert_range self src n1 n2 (new : list Z) m : outcome (Memory K V) :=
  if n1 =? n2 then Done m
  else match new with
       | [] => Crash BadAccess
       | a :: new =>
           do x <- load m n1;
           do m <- insert self a (new_node a (data x) m);
           do s <- successor src m n1;
           insert_range self src s n2 new m
       end.

Definition assign self t (new : list Z) m : outcome (Memory K V) :=
  do m <- clear self m;
  do m <- insert_range self t (front t m) 0 new m;
  let l := hd_left (header m self) in
  if negb (l =? 0) then splay self l m else Done m.

(** The constructors. *)
Definition new_tree self m : Memory K V := with_header self (mkHeader 0 0 0 0) m.
Definition copy_tree self t (new : list Z) m : outcome (Memory K V) := assign self t new (new_tree self m).

Definition swap self t m : Memory K V :=
  let t_header := header m self in with_header t t_header (with_header self (header m t) m).

(** ** Iterators *)

Definition increment self m n : outcome Z := if n =? 0 then Done (front self m) else successor self m n.
Definition decrement self m n : outcome Z := if n =? 0 then Done (back self m) else predecessor self m n.

End splaytree.
