(* ===== verification/SplayRot.v ===== *)
(** * The splay tree: trees in memory, rotations and the splay

    A tree of entries (an address with a key and a value), its walk from either
    side, and what it means for a tree, or for the rest of a tree around one
    subtree, to be in memory.  A rotation changes the shape of the tree and not
    its walk; the splay ends, with its node at the root. *)

From S2P Require Import Prelude SplayTree.

Section rep.
Context {K V : Type}.

Definition entry : Type := Z * (K * V).
Definition addr (e : entry) : Z := e.1.

Inductive tree : Type :=
| E
| T (l : tree) (e : entry) (r : tree).

Definition root (t : tree) : Z := match t with E => 0 | T _ e _ => addr e end.

(** The node [e] with [x] on side [d] and [y] on the other. *)
Definition mk (d : bool) (e : entry) (x y : tree) : tree := if d then T y e x else T x e y.

(** The entries from side [d]. *)
Fixpoint walk (d : bool) (t : tree) : list entry :=
  match t with
  | E => []
  | T l e r => if d then walk d r ++ e :: walk d l else walk d l ++ e :: walk d r
  end.
Definition adds (t : tree) : list Z := addr <$> walk LEFT t.

(** A frame: the hole is the child on side [d] of the node, with the other child. *)
Record frame : Type := Fr { f_dir : bool; f_node : entry; f_sib : tree }.
Definition fill (f : frame) (t : tree) : tree := mk (f_dir f) (f_node f) t (f_sib f).
Definition plug (c : list frame) (t : tree) : tree := foldl (fun t f => fill f t) t c.
Definition above (c : list frame) : Z := match c with [] => 0 | f :: _ => addr (f_node f) end.

(** What the walk from side [d] visits before and after the hole. *)
Fixpoint before (d : bool) (c : list frame) : list entry :=
  match c with
  | [] => []
  | f :: c => if Bool.eqb (f_dir f) d then before d c else before d c ++ walk d (f_sib f) ++ [f_node f]
  end.
Fixpoint after (d : bool) (c : list frame) : list entry :=
  match c with
  | [] => []
  | f :: c => if Bool.eqb (f_dir f) d then f_node f :: walk d (f_sib f) ++ after d c else after d c
  end.

(** ** Pure facts *)

Lemma mk_cases d t : t = E \/ exists e x y, t = mk d e x y.
Proof. destruct t as [|l e r]; [by left|right]. destruct d; [by exists e, r, l|by exists e, l, r]. Qed.

Lemma mk_flip d e x y : mk (negb d) e y x = mk d e x y.
Proof. by destruct d. Qed.

Lemma root_mk d e x y : root (mk d e x y) = addr e.
Proof. by destruct d. Qed.

Lemma walk_mk d e x y : walk d (mk d e x y) = walk d x ++ e :: walk d y.
Proof. by destruct d. Qed.

Lemma walk_flip d t : walk (negb d) t = reverse (walk d t).
Proof.
  induction t as [|l IHl e r IHr]; [done|]. destruct d; cbn [walk negb] in *;
    rewrite reverse_app, reverse_cons, <-IHl, <-IHr, <-app_assoc; done.
Qed.

Lemma walk_perm d t : walk d t ≡ₚ walk LEFT t.
Proof. destruct d; [|done]. change true with (negb LEFT). by rewrite walk_flip, reverse_Permutation. Qed.

Lemma adds_walk d t : addr <$> walk d t ≡ₚ adds t.
Proof. unfold adds. by rewrite (walk_perm d). Qed.

Lemma adds_mk d e x y : adds (mk d e x y) ≡ₚ addr e :: adds x ++ adds y.
Proof. rewrite <-(adds_walk d), walk_mk, fmap_app, fmap_cons, !adds_walk. by rewrite Permutation_middle. Qed.

Lemma adds_T l e r : adds (T l e r) ≡ₚ addr e :: adds l ++ adds r.
Proof. apply (adds_mk LEFT). Qed.

Lemma walk_plug d c : forall t, walk d (plug c t) = before d c ++ walk d t ++ after d c.
Proof.
  induction c as [|[e n s] c IH]; intros t; [cbn; by rewrite app_nil_r|].
  change (plug (Fr e n s :: c) t) with (plug c (mk e n t s)). rewrite IH. cbn [before after f_dir f_node f_sib]. destruct (Bool.eqb e d) eqn:Ed.
  - apply eqb_prop in Ed as ->. by rewrite walk_mk, <-!app_assoc.
  - apply eqb_false_iff in Ed. assert (e = negb d) as -> by (by destruct e, d). rewrite mk_flip, walk_mk. by rewrite <-!app_assoc.
Qed.

Lemma plug_app c1 c2 t : plug (c1 ++ c2) t = plug c2 (plug c1 t).
Proof. unfold plug. by rewrite foldl_app. Qed.

(** Addresses of a context. *)
Definition cadds (c : list frame) : list Z := addr <$> before LEFT c ++ after LEFT c.

Lemma adds_plug c t : adds (plug c t) ≡ₚ cadds c ++ adds t.
Proof.
  unfold adds, cadds. rewrite walk_plug, !fmap_app, <-app_assoc. apply Permutation_app_head, Permutation_app_comm.
Qed.

Lemma cadds_cons f c : cadds (f :: c) ≡ₚ addr (f_node f) :: adds (f_sib f) ++ cadds c.
Proof.
  pose proof (adds_plug c (fill f E)) as H. change (plug c (fill f E)) with (plug (f :: c) E) in H.
  rewrite (adds_plug (f :: c)) in H. unfold fill in H. rewrite adds_mk in H. cbn [adds walk] in H. rewrite app_nil_r in H. rewrite H.
  cbn. rewrite (Permutation_app_comm (cadds c)). done.
Qed.

Lemma elem_adds a t : a ∈ adds t -> exists c e l r, t = plug c (T l e r) /\ addr e = a.
Proof.
  induction t as [|l IHl e r IHr]; [by intros ?%elem_of_nil|]. intros Ha.
  rewrite (adds_T l e r) in Ha. rewrite elem_of_cons, elem_of_app in Ha.
  destruct Ha as [->|[(c & x & l' & r' & E & Hx)%IHl|(c & x & l' & r' & E & Hx)%IHr]].
  - by exists [], e, l, r.
  - exists (c ++ [Fr LEFT e r]), x, l', r'. by rewrite plug_app, <-E.
  - exists (c ++ [Fr RIGHT e l]), x, l', r'. by rewrite plug_app, <-E.
Qed.

(** ** Trees in memory *)

Implicit Types (m : Memory K V).

Record holds m (q : Z) (e : entry) (cl cr : Z) : Prop := {
  ho_null : addr e <> 0;
  ho_node : nodes m (addr e) = Some (mkNode q cl cr e.2)
}.

Fixpoint linked m (q : Z) (t : tree) : Prop :=
  match t with
  | E => True
  | T l e r => holds m q e (root l) (root r) /\ linked m (addr e) l /\ linked m (addr e) r
  end.

(** The context [c] of a subtree with root [h], in the tree [self]. *)
Fixpoint around m self (h : Z) (c : list frame) : Prop :=
  match c with
  | [] => hd_root (header m self) = h
  | Fr d e s :: c =>
      holds m (above c) e (if d then root s else h) (if d then h else root s) /\ linked m (addr e) s /\ around m self (addr e) c
  end.

Definition holds_on m (d : bool) q e x y : Prop := holds m q e (if d then y else x) (if d then x else y).

Lemma linked_mk m d q e x y :
  linked m q (mk d e x y) <-> holds_on m d q e (root x) (root y) /\ linked m (addr e) x /\ linked m (addr e) y.
Proof. destruct d; cbn; tauto. Qed.

Lemma around_plug m self c : forall t,
  around m self (root t) c /\ linked m (above c) t <-> hd_root (header m self) = root (plug c t) /\ linked m 0 (plug c t).
Proof.
  induction c as [|[d e s] c IH]; intros t; [done|]. change (plug (Fr d e s :: c) t) with (plug c (mk d e t s)).
  rewrite <-IH, linked_mk, root_mk. cbn. unfold holds_on. tauto.
Qed.

(** ** Frames *)

Lemma linked_ext m m' t : forall q, linked m q t -> (forall a, a ∈ adds t -> nodes m' a = nodes m a) -> linked m' q t.
Proof.
  induction t as [|l IHl e r IHr]; intros q; [done|]. intros ([H1 H2] & Hl & Hr) Hm.
  assert (Hp : forall a, a ∈ adds (T l e r) <-> a = addr e \/ a ∈ adds l \/ a ∈ adds r).
  { intros a. rewrite (adds_T l e r). by rewrite elem_of_cons, elem_of_app. }
  split_and!; [split; [done|]|apply IHl|apply IHr]; try done.
  - rewrite Hm; [done|]. apply Hp. by left.
  - intros a Ha. apply Hm, Hp. tauto.
  - intros a Ha. apply Hm, Hp. tauto.
Qed.

(** A new parent for the root of a subtree. *)
Lemma linked_reparent m m' q q' t :
  linked m q t -> NoDup (adds t) ->
  (forall a, a ∈ adds t -> nodes m' a = if a =? root t then with_parent q' <$> nodes m a else nodes m a) -> linked m' q' t.
Proof.
  destruct t as [|l e r]; [done|]. intros ([H1 H2] & Hl & Hr) Hn Hm.
  pose proof (adds_T l e r) as Hp. rewrite Hp in Hn. apply NoDup_cons in Hn as [He _].
  rewrite elem_of_app in He.
  split_and!; [split; [done|]|eapply linked_ext; [done|]|eapply linked_ext; [done|]].
  - rewrite Hm; [|rewrite Hp; by left]. cbn. by rewrite Z.eqb_refl, H2.
  - intros a Ha. rewrite Hm; [|rewrite Hp, elem_of_cons, elem_of_app; tauto]. rewrite (proj2 (Z.eqb_neq a _)); [done|].
    intros ->. apply He. by left.
  - intros a Ha. rewrite Hm; [|rewrite Hp, elem_of_cons, elem_of_app; tauto]. rewrite (proj2 (Z.eqb_neq a _)); [done|].
    intros ->. apply He. by right.
Qed.

Lemma around_ext m m' self c : forall h,
  around m self h c -> (forall a, a ∈ cadds c -> nodes m' a = nodes m a) ->
  hd_root (header m' self) = hd_root (header m self) -> around m' self h c.
Proof.
  induction c as [|[d e s] c IH]; intros h Hc Hm Hr; [cbn in *; congruence|]. destruct Hc as ([H1 H2] & Hs & Hc).
  pose proof (cadds_cons (Fr d e s) c) as Hp. cbn in Hp.
  split_and!; [split; [done|]|eapply linked_ext; [done|]|apply IH; [done| |done]].
  - rewrite Hm; [done|]. rewrite Hp. by left.
  - intros a Ha. apply Hm. rewrite Hp, elem_of_cons, elem_of_app. tauto.
  - intros a Ha. apply Hm. rewrite Hp, elem_of_cons, elem_of_app. tauto.
Qed.

(** Another root in the hole of a context. *)
Lemma around_hole m m' self h h' c :
  around m self h c -> NoDup (cadds c) ->
  (forall a, a ∈ cadds c -> nodes m' a = match c with Fr d e _ :: _ => if a =? addr e then with_child d h' <$> nodes m a else nodes m a
                                                   | [] => nodes m a end) ->
  hd_root (header m' self) = match c with [] => h' | _ => hd_root (header m self) end -> around m' self h' c.
Proof.
  destruct c as [|[d e s] c]; [done|]. intros ([H1 H2] & Hs & Hc) Hn Hm Hr. cbn.
  pose proof (cadds_cons (Fr d e s) c) as Hp. cbn in Hp. rewrite Hp in Hn. apply NoDup_cons in Hn as [He Hn].
  rewrite elem_of_app in He.
  assert (Hm' : forall a, a ∈ adds s \/ a ∈ cadds c -> nodes m' a = nodes m a).
  { intros a Ha. rewrite Hm; [|rewrite Hp, elem_of_cons, elem_of_app; tauto]. by rewrite (proj2 (Z.eqb_neq a _)) by (intros ->; tauto). }
  split_and!; [split; [done|]|eapply linked_ext; [done|]; auto|].
  - rewrite Hm by (rewrite Hp; by left). rewrite Z.eqb_refl, H2. by destruct d.
  - eapply around_ext; [done|auto|done].
Qed.

End rep.
Arguments tree : clear implicits.
Arguments frame : clear implicits.
Arguments entry : clear implicits.

Section rot.
Context {K V : Type}.
Implicit Types (m : Memory K V) (self : Z) (t : tree K V) (c : list (frame K V)) (e : entry K V) (d : bool).

(** The tree [self] is [t]. *)
Record stored m self t : Prop := {
  sd_root : hd_root (header m self) = root t;
  sd_linked : linked m 0 t;
  sd_nodup : NoDup (adds t)
}.

(** The tree [self] is [t] in the context [c]. *)
Record zipped m self c t : Prop := {
  zp_around : around m self (root t) c;
  zp_linked : linked m (above c) t;
  zp_nodup : NoDup (adds (plug c t))
}.

(** Only the nodes of [l], and the root of [self], may have changed. *)
Record relinked (l : list Z) self m m' : Prop := {
  rl_nodes : forall a, a ∉ l -> nodes m' a = nodes m a;
  rl_headers : forall s, s <> self -> header m' s = header m s;
  rl_ends : forall d, hd_child (header m' self) d = hd_child (header m self) d;
  rl_size : hd_size (header m' self) = hd_size (header m self)
}.

Lemma relinked_trans l self m1 m2 m3 : relinked l self m1 m2 -> relinked l self m2 m3 -> relinked l self m1 m3.
Proof.
  intros [A1 B1 C1 D1] [A2 B2 C2 D2]. split; [intros a Ha; by rewrite A2, A1|intros s Hs; by rewrite B2, B1|intros d; by rewrite C2|by rewrite D2].
Qed.

Lemma relinked_refl l self m : relinked l self m m.
Proof. done. Qed.

Lemma relinked_perm l l' self m m' : l ≡ₚ l' -> relinked l self m m' -> relinked l' self m m'.
Proof. intros Hl [A B C D]. split; try done. intros a Ha. apply A. by rewrite Hl. Qed.

Lemma zipped_stored m self c t : zipped m self c t <-> stored m self (plug c t).
Proof.
  split.
  - intros [A L N]. destruct (proj1 (around_plug m self c t) (conj A L)). done.
  - intros [R L N]. destruct (proj2 (around_plug m self c t) (conj R L)). done.
Qed.

Lemma zipped_up m self f c t : zipped m self (f :: c) t <-> zipped m self c (fill f t).
Proof. by rewrite !zipped_stored. Qed.

(** ** Reading and writing *)

Lemma load_holds m q e cl cr : holds m q e cl cr -> load m (addr e) = Done (mkNode q cl cr e.2).
Proof. intros [H1 H2]. unfold load. by rewrite (proj2 (Z.eqb_neq _ _) H1), H2. Qed.

Lemma load_node m a x : a <> 0 -> nodes m a = Some x -> load m a = Done x.
Proof. intros H1 H2. unfold load. by rewrite (proj2 (Z.eqb_neq _ _) H1), H2. Qed.

Lemma load_store m a x : a <> 0 -> load (store a (Some x) m) a = Done x.
Proof. intros Ha. apply load_node; [done|]. cbn. apply upd_eq. Qed.

Lemma load_store_ne m a b x : a <> b -> load (store b x m) a = load m a.
Proof. intros Ha. unfold load. cbn. by rewrite upd_ne. Qed.

Lemma load_root m self n a : load (set_root self n m) a = load m a.
Proof. done. Qed.

Lemma root_null m q t : linked m q t -> root t = 0 -> t = E.
Proof. destruct t as [|l e r]; [done|]. intros ([H _] & _) H0. done. Qed.

Lemma root_adds t : t <> E -> root t ∈ adds t.
Proof. destruct t as [|l e r]; [done|]. intros _. rewrite adds_T. by left. Qed.

Lemma linked_adds m q t a : linked m q t -> a ∈ adds t -> a <> 0 /\ is_Some (nodes m a).
Proof.
  revert q. induction t as [|l IHl e r IHr]; intros q; [by intros _ ?%elem_of_nil|]. intros ([H1 H2] & Hl & Hr).
  rewrite adds_T, elem_of_cons, elem_of_app. intros [->|[Ha|Ha]]; [by rewrite H2|by apply (IHl (addr e))|by apply (IHr (addr e))].
Qed.

(** The node above a context points down with the side of its frame. *)
Lemma direction_above m self h d e s c :
  around m self h (Fr d e s :: c) -> h <> 0 -> h ∉ adds s -> direction m (addr e) h = Done d.
Proof.
  intros (Hh & Hs & _) Hn Hi. unfold direction, get_child. rewrite (load_holds _ _ _ _ _ Hh). cbn.
  destruct d; cbn; [|by rewrite Z.eqb_refl]. rewrite (proj2 (Z.eqb_neq _ _)); [done|]. intros <-. apply Hi, root_adds.
  by intros ->.
Qed.

End rot.

Ltac addr_ne :=
  match goal with
  | H : ?a <> ?b |- ?a <> ?b => exact H
  | H : ?b <> ?a |- ?a <> ?b => exact (not_eq_sym H)
  end.

(** Run a read or a write of a node that is known. *)
Ltac mem_step :=
  repeat first
  [ progress cbn [obind parent child child_left child_right data negb LEFT RIGHT with_parent with_child]
  | rewrite load_root | rewrite load_store by addr_ne | rewrite load_store_ne by addr_ne
  | match goal with H : load ?m ?a = Done _ |- context [load ?m ?a] => rewrite H end
  | match goal with H : ?a <> 0 |- context [?a =? 0] => rewrite (proj2 (Z.eqb_neq a 0) H) end
  | match goal with H : ?a = 0 |- context [?a =? 0] => rewrite (proj2 (Z.eqb_eq a 0) H) end
  | rewrite Z.eqb_refl ].

Section rotate.
Context {K V : Type}.
Implicit Types (m : Memory K V) (self : Z) (x y s t : tree K V) (c : list (frame K V)) (p n q : entry K V) (d b : bool).

(** What a rotation of [n] below [p] writes. *)
Definition rotated m d p n x y s c (a : Z) : option (Node K V) :=
  if a =? addr n then Some (with_child d (root x) (mkNode (above c) (addr p) (addr p) n.2))
  else if a =? addr p then Some (with_child d (root y) (mkNode (addr n) (root s) (root s) p.2))
  else if negb (root y =? 0) && (a =? root y) then with_parent (addr p) <$> nodes m a
  else match c with
       | Fr b q _ :: _ => if a =? addr q then with_child b (addr n) <$> nodes m a else nodes m a
       | [] => nodes m a
       end.

Lemma nodup_rotate c d p n x y s :
  NoDup (adds (plug (Fr d p s :: c) (mk d n x y))) ->
  addr p <> addr n /\ addr p ∉ adds x ++ adds y ++ adds s ++ cadds c /\ addr n ∉ adds x ++ adds y ++ adds s ++ cadds c /\
  NoDup (adds x ++ adds y ++ adds s ++ cadds c).
Proof.
  rewrite adds_plug, cadds_cons. cbn [f_node f_sib]. intros H.
  assert (P : (addr p :: adds s ++ cadds c) ++ adds (mk d n x y) ≡ₚ (addr p :: addr n :: (adds x ++ adds y) ++ adds s ++ cadds c)).
  { rewrite adds_mk. cbn [app]. constructor. rewrite Permutation_app_comm. cbn [app]. done. }
  rewrite P, <-app_assoc in H. apply NoDup_cons in H as [H1 H]. apply NoDup_cons in H as [H2 H].
  apply not_elem_of_cons in H1 as [H0 H1]. done.
Qed.

(** A subtree is empty or its root can be read. *)
Lemma root_known m a y : linked m a y ->
  root y = 0 \/ root y <> 0 /\ root y ∈ adds y /\ exists yn, load m (root y) = Done yn /\ nodes m (root y) = Some yn.
Proof.
  destruct y as [|l e r]; [by left|]. intros (H & _). right. split_and!; [apply (ho_null _ _ _ _ _ H)|by apply root_adds|].
  exists (mkNode a (root l) (root r) e.2). split; [apply (load_holds _ _ _ _ _ H)|apply (ho_node _ _ _ _ _ H)].
Qed.

(** A context is empty or the node above can be read, and knows its side. *)
Lemma above_known m self h c : around m self h c -> h <> 0 -> h ∉ cadds c ->
  c = [] \/ exists b q sq c', c = Fr b q sq :: c' /\ addr q <> 0 /\ addr q ∈ cadds c /\
    exists qn, load m (addr q) = Done qn /\ nodes m (addr q) = Some qn /\ (if child_left qn =? h then LEFT else RIGHT) = b.
Proof.
  destruct c as [|[b q sq] c']; [by left|]. intros Hc H0 Hh. right. exists b, q, sq, c'. pose proof Hc as (Hq & _).
  rewrite cadds_cons in Hh |- *. cbn in Hh. rewrite elem_of_cons, elem_of_app in Hh.
  split_and!; [done|apply (ho_null _ _ _ _ _ Hq)|by left|].
  exists (mkNode (above c') (if b then root sq else h) (if b then h else root sq) q.2).
  split_and!; [apply (load_holds _ _ _ _ _ Hq)|apply (ho_node _ _ _ _ _ Hq)|].
  pose proof (direction_above m self h b q sq c' Hc H0 ltac:(tauto)) as D.
  unfold direction, get_child in D. rewrite (load_holds _ _ _ _ _ Hq) in D. cbn in D |- *. by injection D.
Qed.

Lemma rotate_run m self d p n x y s c :
  zipped m self (Fr d p s :: c) (mk d n x y) ->
  exists m', rotate self (addr n) (negb d) m = Done m' /\ (forall a, nodes m' a = rotated m d p n x y s c a) /\
    header m' = match c with [] => header (set_root self (addr n) m) | _ => header m end.
Proof.
  intros [[Hp [Hs Hc]] Hl N]. apply linked_mk in Hl as (Hn & Hx & Hy). apply nodup_rotate in N as (Hpn & Np & Nn & N).
  cbn [above f_node] in *. rewrite root_mk in Hp.
  pose proof (ho_null _ _ _ _ _ Hp) as P0. pose proof (ho_null _ _ _ _ _ Hn) as N0.
  pose proof (load_holds _ _ _ _ _ Hp) as Lp. pose proof (load_holds _ _ _ _ _ Hn) as Ln.
  rewrite !not_elem_of_app in Np, Nn. destruct Np as (_ & Npy & _ & Npc), Nn as (_ & Nny & _ & Nnc).
  assert (Nyc : forall a, a ∈ adds y -> a ∉ cadds c).
  { apply NoDup_app in N as (_ & _ & N). apply NoDup_app in N as (_ & N & _). intros a Ha Hi. apply (N a Ha), elem_of_app. by right. }
  destruct (root_known _ _ _ Hy) as [Y0|(Y0 & Yi & yn & Ly & Ey)];
    destruct (above_known _ _ _ _ Hc P0 Npc) as [->|(b & q & sq & c' & -> & Q0 & Qi & qn & Lq & Eq & De)];
    repeat match goal with
    | H : ?a ∈ ?l, H' : ?b ∉ ?l |- _ =>
        lazymatch goal with _ : a <> b |- _ => fail | _ => assert (a <> b) by (intros Ee; apply H'; rewrite <-Ee; exact H) end
    end;
    try match goal with H : addr ?q ∈ _ |- _ => assert (addr q <> root y) by (intros Ee; rewrite Ee in H; by apply (Nyc (root y))) end;
    unfold rotate, get_parent, get_child, set_parent, set_child, direction, rotated;
    destruct d; cbn [above f_node] in *; mem_step; unfold get_child; mem_step; cbn [child]; rewrite ?De;
    (eexists; split; [reflexivity|]; split; [intros a; cbn [nodes store set_root with_header]; by upd_cases; rewrite ?Ey, ?Eq|done]).
Qed.

Lemma walk_ext d b t s : walk d t = walk d s -> walk b t = walk b s.
Proof.
  intros H. destruct (decide (b = d)) as [->|Hb]; [done|]. assert (b = negb d) as -> by by destruct b, d.
  by rewrite !walk_flip, H.
Qed.

Lemma walk_rotate d p n x y s b : walk b (mk d n x (mk d p y s)) = walk b (fill (Fr d p s) (mk d n x y)).
Proof. apply (walk_ext d). unfold fill. cbn. rewrite !walk_mk, <-app_assoc. done. Qed.

Lemma walk_plug_ext c t s b : (forall b, walk b t = walk b s) -> walk b (plug c t) = walk b (plug c s).
Proof. intros H. by rewrite !walk_plug, H. Qed.

Lemma rotated_other m d p n x y s c a :
  a ∉ adds (plug (Fr d p s :: c) (mk d n x y)) -> rotated m d p n x y s c a = nodes m a.
Proof.
  rewrite adds_plug, cadds_cons, adds_mk. cbn [f_node f_sib]. rewrite !not_elem_of_app, !not_elem_of_cons, !not_elem_of_app.
  intros ((Hp & _ & Hc) & Hn & _ & Hy). unfold rotated. rewrite (proj2 (Z.eqb_neq a _) Hn), (proj2 (Z.eqb_neq a _) Hp).
  destruct (negb (root y =? 0) && (a =? root y)) eqn:Ey.
  { b2p. subst a. exfalso. apply Hy, root_adds. by intros ->. }
  destruct c as [|[b q sq] c]; [done|]. rewrite (proj2 (Z.eqb_neq a _)); [done|]. intros ->. apply Hc. rewrite cadds_cons. by left.
Qed.

Lemma rotated_far m d p n x y s c a :
  a <> addr n -> a <> addr p -> a ∉ adds y -> rotated m d p n x y s c a =
    match c with Fr b q _ :: _ => if a =? addr q then with_child b (addr n) <$> nodes m a else nodes m a | [] => nodes m a end.
Proof.
  intros Hn Hp Hy. unfold rotated. rewrite (proj2 (Z.eqb_neq a _) Hn), (proj2 (Z.eqb_neq a _) Hp).
  destruct (negb (root y =? 0) && (a =? root y)) eqn:Ey; [|done].
  b2p. subst a. exfalso. apply Hy, root_adds. by intros ->.
Qed.

Lemma rotated_inside m d p n x y s c a :
  a <> addr n -> a <> addr p -> a ∉ adds y -> a ∉ cadds c -> rotated m d p n x y s c a = nodes m a.
Proof.
  intros Hn Hp Hy Hc. rewrite rotated_far by done. destruct c as [|[b q sq] c]; [done|].
  rewrite (proj2 (Z.eqb_neq a _)); [done|]. intros ->. apply Hc. rewrite cadds_cons. by left.
Qed.

Lemma rotated_child m d p n x y s c a :
  a ∈ adds y -> addr n ∉ adds y -> addr p ∉ adds y -> a ∉ cadds c -> linked m (addr n) y ->
  rotated m d p n x y s c a = if a =? root y then with_parent (addr p) <$> nodes m a else nodes m a.
Proof.
  intros Ha Hn Hp Hc Hl. unfold rotated. rewrite !(proj2 (Z.eqb_neq a _)) by (intros ->; done).
  destruct (linked_adds _ _ _ _ Hl Ha) as [A0 _]. destruct (a =? root y) eqn:Ey.
  - b2p. subst a. by rewrite (proj2 (Z.eqb_neq _ _) A0).
  - rewrite andb_false_r. destruct c as [|[b q sq] c]; [done|]. rewrite (proj2 (Z.eqb_neq a _)); [done|].
    intros ->. apply Hc. rewrite cadds_cons. by left.
Qed.

Lemma adds_ext t s : walk LEFT t = walk LEFT s -> adds t ≡ₚ adds s.
Proof. unfold adds. by intros ->. Qed.

(** A rotation lifts [n] over its parent. *)
Lemma rotate_ok m self d p n x y s c :
  zipped m self (Fr d p s :: c) (mk d n x y) ->
  exists m', rotate self (addr n) (negb d) m = Done m' /\ zipped m' self c (mk d n x (mk d p y s)) /\
    relinked (adds (plug (Fr d p s :: c) (mk d n x y))) self m m'.
Proof.
  intros Z. destruct (rotate_run _ _ _ _ _ _ _ _ _ Z) as (m' & E & Hm & Hh). exists m'. split; [done|].
  destruct Z as [[Hp [Hs Hc]] Hl N]. apply linked_mk in Hl as (Hn & Hx & Hy). pose proof N as ND. apply nodup_rotate in N as (Hpn & Np & Nn & N).
  split; [|split; [intros a Ha; by rewrite Hm, rotated_other| | |]].
  2: intros u Hu; rewrite Hh; destruct c; cbn; by rewrite ?upd_ne.
  2,3: rewrite Hh; destruct c; cbn; rewrite ?upd_eq; by try destruct d0.
  rewrite !not_elem_of_app in Np, Nn. destruct Np as (Npx & Npy & Nps & Npc), Nn as (Nnx & Nny & Nns & Nnc).
  apply NoDup_app in N as (_ & Dx & N). apply NoDup_app in N as (Ny & Dy & N). apply NoDup_app in N as (_ & Ds & Nc).
  assert (Nyc : forall a, a ∈ adds y -> a ∉ cadds c) by (intros a Ha Hi; apply (Dy a Ha), elem_of_app; by right).
  cbn [f_node above] in *.
  split; [|apply linked_mk; split_and!; [split| |apply linked_mk; split_and!; [split| |]]|].
  - rewrite root_mk. apply (around_hole m m' self (addr p)); [done|done| |rewrite Hh; by destruct c; cbn; rewrite ?upd_eq].
    intros a Ha. rewrite Hm, rotated_far; [done|by intros ->|by intros ->|]. intros Hi. by apply (Nyc a).
  - apply (ho_null _ _ _ _ _ Hn).
  - rewrite Hm, root_mk. unfold rotated. rewrite Z.eqb_refl. by destruct d.
  - eapply linked_ext; [exact Hx|]. intros a Ha. rewrite Hm. apply rotated_inside; [by intros ->|by intros ->| |];
      intros Hi; apply (Dx a Ha); rewrite !elem_of_app; tauto.
  - apply (ho_null _ _ _ _ _ Hp).
  - rewrite Hm. unfold rotated. rewrite (proj2 (Z.eqb_neq _ _) Hpn), Z.eqb_refl. by destruct d.
  - eapply linked_reparent; [exact Hy|done|]. intros a Ha. rewrite Hm. apply rotated_child; auto.
  - eapply linked_ext; [exact Hs|]. intros a Ha. rewrite Hm. apply rotated_inside; [by intros ->|by intros ->| |].
    + intros Hi. apply (Dy a Hi), elem_of_app. by left.
    + intros Hi. by apply (Ds a).
  - unfold adds in *. rewrite (walk_plug_ext c _ (fill (Fr d p s) (mk d n x y))); [done|]. apply walk_rotate.
Qed.

Lemma zipped_direction m self d p s c t :
  zipped m self (Fr d p s :: c) t -> root t <> 0 -> direction m (addr p) (root t) = Done d.
Proof.
  intros [A L N] H0. apply (direction_above m self _ d p s c A H0). intros Hi.
  rewrite adds_plug, cadds_cons in N. cbn in N. apply NoDup_cons in N as [_ N]. rewrite <-app_assoc in N.
  apply NoDup_app in N as (_ & N & _). apply (N _ Hi). rewrite elem_of_app. right. apply root_adds. by intros ->.
Qed.

(** The parent of the root of a subtree, and the subtree as a node. *)
Lemma zipped_parent m self c d n x y : zipped m self c (mk d n x y) ->
  addr n <> 0 /\ get_parent m (addr n) = Done (above c).
Proof.
  intros [_ L _]. apply linked_mk in L as (H & _). split; [apply (ho_null _ _ _ _ _ H)|].
  unfold get_parent. by rewrite (load_holds _ _ _ _ _ H).
Qed.

Lemma rotate_up_ok m self d p n x y s c :
  zipped m self (Fr d p s :: c) (mk d n x y) ->
  exists m', rotate_up self (addr n) m = Done m' /\ zipped m' self c (mk d n x (mk d p y s)) /\
    relinked (adds (plug (Fr d p s :: c) (mk d n x y))) self m m'.
Proof.
  intros Z. destruct (rotate_ok _ _ _ _ _ _ _ _ _ Z) as (m' & E & Hr). exists m'. split; [|done].
  destruct (zipped_parent _ _ _ _ _ _ _ Z) as (N0 & Hp). unfold rotate_up. rewrite Hp. cbn [obind above f_node].
  pose proof (zipped_direction _ _ _ _ _ _ _ Z) as D. rewrite root_mk in D. rewrite D by done. done.
Qed.

(** What a splay of the node [n] of the tree [t] does. *)
Definition splayed m self (n : Z) t m' : Prop :=
  exists t', stored m' self t' /\ root t' = n /\ (forall b, walk b t' = walk b t) /\ relinked (adds t) self m m'.

Lemma splayed_step m m1 m' self (h : Z) t t1 :
  (forall b, walk b t1 = walk b t) -> relinked (adds t) self m m1 -> splayed m1 self h t1 m' -> splayed m self h t m'.
Proof.
  intros Hw Hr (t' & H1 & H2 & H3 & H4). exists t'. split_and!; [done..|by intros b; rewrite H3|].
  unfold adds in H4. rewrite Hw in H4. by eapply relinked_trans.
Qed.

Lemma zig_ok m self d p n x y s :
  zipped m self [Fr d p s] (mk d n x y) -> exists m', rotate_up self (addr n) m = Done m' /\ splayed m self (addr n) (plug [Fr d p s] (mk d n x y)) m'.
Proof.
  intros Z. destruct (rotate_up_ok _ _ _ _ _ _ _ _ _ Z) as (m' & E & Z' & Hr). exists m'. split; [done|].
  exists (mk d n x (mk d p y s)). split_and!; [by apply zipped_stored in Z'|apply root_mk|intros b; apply walk_rotate|done].
Qed.

Lemma zigzig_ok m self d p q n x y s1 s2 c :
  zipped m self (Fr d p s1 :: Fr d q s2 :: c) (mk d n x y) ->
  exists m1 m' t', rotate_up self (addr p) m = Done m1 /\ rotate_up self (addr n) m1 = Done m' /\ zipped m' self c t' /\
    (exists x' y', t' = mk d n x' y') /\ (forall b, walk b t' = walk b (plug [Fr d p s1; Fr d q s2] (mk d n x y))) /\
    relinked (adds (plug (Fr d p s1 :: Fr d q s2 :: c) (mk d n x y))) self m m'.
Proof.
  intros Z. pose proof Z as Z0. apply zipped_up in Z0. unfold fill in Z0. cbn in Z0.
  destruct (rotate_up_ok _ _ _ _ _ _ _ _ _ Z0) as (m1 & E1 & Z1 & R1).
  change (mk d p (mk d n x y) (mk d q s1 s2)) with (fill (Fr d p (mk d q s1 s2)) (mk d n x y)) in Z1. apply zipped_up in Z1.
  destruct (rotate_up_ok _ _ _ _ _ _ _ _ _ Z1) as (m' & E2 & Z2 & R2).
  exists m1, m', (mk d n x (mk d p y (mk d q s1 s2))). split_and!; [done..|by eexists _, _| |].
  - intros b. apply (walk_ext d). cbn [plug foldl]. unfold fill. cbn [f_dir f_node f_sib]. rewrite !walk_mk.
    by repeat (rewrite <-app_assoc; cbn [app]).
  - eapply relinked_trans; [exact R1|]. eapply relinked_perm; [|exact R2]. apply adds_ext.
    cbn. unfold fill. cbn. apply walk_plug_ext. intros b. apply walk_rotate.
Qed.

Lemma zigzag_ok m self d p q n x y s1 s2 c :
  zipped m self (Fr d p s1 :: Fr (negb d) q s2 :: c) (mk d n x y) ->
  exists m1 m' t', rotate_up self (addr n) m = Done m1 /\ rotate_up self (addr n) m1 = Done m' /\ zipped m' self c t' /\
    (exists x' y', t' = mk d n x' y') /\ (forall b, walk b t' = walk b (plug [Fr d p s1; Fr (negb d) q s2] (mk d n x y))) /\
    relinked (adds (plug (Fr d p s1 :: Fr (negb d) q s2 :: c) (mk d n x y))) self m m'.
Proof.
  intros Z. destruct (rotate_up_ok _ _ _ _ _ _ _ _ _ Z) as (m1 & E1 & Z1 & R1). rewrite <-(mk_flip d n) in Z1.
  destruct (rotate_up_ok _ _ _ _ _ _ _ _ _ Z1) as (m' & E2 & Z2 & R2).
  exists m1, m', (mk (negb d) n (mk d p y s1) (mk (negb d) q x s2)). split_and!; [done..| | |].
  - exists (mk (negb d) q x s2), (mk d p y s1). by rewrite mk_flip.
  - intros b. rewrite walk_rotate. cbn. unfold fill. cbn. apply (walk_ext (negb d)). rewrite !walk_mk. f_equal.
    rewrite <-walk_mk, mk_flip. apply (walk_rotate d p n x y s1).
  - eapply relinked_trans; [exact R1|]. eapply relinked_perm; [|exact R2]. apply adds_ext.
    change (plug (Fr d p s1 :: ?c) ?t) with (plug c (fill (Fr d p s1) t)). apply walk_plug_ext.
    intros b. rewrite mk_flip. apply walk_rotate.
Qed.

Lemma splay_rec_ok fuel : forall m self c n d x y, zipped m self c (mk d n x y) -> (length c < fuel)%nat ->
  exists m', splay_rec fuel self (addr n) m = Done m' /\ splayed m self (addr n) (plug c (mk d n x y)) m'.
Proof.
  induction fuel as [|fuel IH]; intros m self c n d x y Z Hf; [lia|]. cbn [splay_rec].
  destruct (zipped_parent _ _ _ _ _ _ _ Z) as (N0 & ->). cbn [obind].
  destruct c as [|[e p s1] c]; cbn [above f_node].
  { exists m. split; [done|]. exists (mk d n x y). split_and!; [by apply zipped_stored in Z|apply root_mk|done..]. }
  assert (exists x1 y1, mk d n x y = mk e n x1 y1) as (x1 & y1 & Ee).
  { destruct (decide (d = e)) as [->|]; [by exists x, y|]. exists y, x. assert (e = negb d) as -> by by destruct d, e. by rewrite mk_flip. }
  rewrite Ee in *. clear d Ee x y.
  pose proof Z as Zp. apply zipped_up in Zp. unfold fill in Zp. cbn in Zp. destruct (zipped_parent _ _ _ _ _ _ _ Zp) as (P0 & Pp).
  rewrite (proj2 (Z.eqb_neq _ _) P0), Pp. cbn [obind].
  destruct c as [|[b q s2] c]; cbn [above f_node]; [apply zig_ok, Z|].
  pose proof Zp as Zq. apply zipped_up in Zq. unfold fill in Zq. cbn in Zq. destruct (zipped_parent _ _ _ _ _ _ _ Zq) as (Q0 & _).
  rewrite (proj2 (Z.eqb_neq _ _) Q0). pose proof (zipped_direction _ _ _ _ _ _ _ Z) as D1. pose proof (zipped_direction _ _ _ _ _ _ _ Zp) as D2.
  rewrite root_mk in D1, D2. rewrite D1, D2 by done. cbn [obind]. cbn [length] in Hf.
  destruct (Bool.eqb e b) eqn:Eb.
  - apply eqb_prop in Eb as <-. destruct (zigzig_ok _ _ _ _ _ _ _ _ _ _ _ Z) as (m1 & m2 & t' & -> & E2 & Z2 & (x' & y' & ->) & Hw & Hr).
    cbn [obind]. rewrite E2. cbn [obind]. destruct (IH _ _ _ _ _ _ _ Z2 ltac:(lia)) as (m' & E & Hs). exists m'. split; [done|].
    eapply splayed_step; [|exact Hr|exact Hs]. intros i. by apply (walk_plug_ext c).
  - assert (b = negb e) as -> by by destruct e, b. destruct (zigzag_ok _ _ _ _ _ _ _ _ _ _ _ Z) as (m1 & m2 & t' & -> & E2 & Z2 & (x' & y' & ->) & Hw & Hr).
    cbn [obind]. rewrite E2. cbn [obind]. destruct (IH _ _ _ _ _ _ _ Z2 ltac:(lia)) as (m' & E & Hs). exists m'. split; [done|].
    eapply splayed_step; [|exact Hr|exact Hs]. intros i. by apply (walk_plug_ext c).
Qed.
End rotate.
