(* ===== verification/SplayOps.v ===== *)
(** * The splay tree: reading it, search, insertion and removal

    [leftmost], [successor] and their mirrors follow the walk; a search follows
    the order of the keys.  Then the invariant of a tree and what each operation
    does to its walk. *)

From stdpp Require Import sorting.
From S2P Require Import Prelude SplayTree SplayRot.

(** The order of the keys. *)
Class StrictWeak {K : Type} (lt : K -> K -> bool) : Prop := {
  sw_irrefl : forall a, lt a a = false;
  sw_trans : forall a b c, lt a b = true -> lt b c = true -> lt a c = true;
  sw_cotrans : forall a b c, lt a c = true -> lt a b = true \/ lt b c = true
}.

Section find.
Context {K V : Type} (iv_comp : K -> K -> bool).
Implicit Types (m : Memory K V) (self : Z) (t x y : tree K V) (c : list (frame K V)) (n e p : entry K V) (d : bool) (k : K).

Definition first_of (l : list (entry K V)) : Z := match l with [] => 0 | e :: _ => addr e end.
Definition ekey (e : entry K V) : K := e.2.1.

Lemma first_app l1 l2 : first_of (l1 ++ l2) = match l1 with [] => first_of l2 | e :: _ => addr e end.
Proof. by destruct l1. Qed.

Lemma length_adds_mk d e x y : length (adds (mk d e x y)) = S (length (adds x) + length (adds y)).
Proof. rewrite adds_mk. cbn. by rewrite length_app. Qed.

Lemma length_context c : (length c <= length (cadds c))%nat.
Proof. induction c as [|[b e s] c IH]; [done|]. rewrite cadds_cons. cbn. rewrite length_app. lia. Qed.

Lemma context_small c d n x y : (length c < length (adds (plug c (mk d n x y))))%nat.
Proof. rewrite adds_plug, length_app, length_adds_mk. pose proof (length_context c). lia. Qed.

Lemma child_holds m d q e x y b : holds_on m d q e (root x) (root y) ->
  get_child m (addr e) b = Done (if Bool.eqb b d then root x else root y).
Proof. intros H. unfold get_child. rewrite (load_holds _ _ _ _ _ H). by destruct b, d. Qed.

(** [leftmost] and [rightmost]. *)
Lemma edge_ok m d t : forall fuel q, linked m q t -> t <> E -> (length (adds t) <= fuel)%nat ->
  edge fuel d m (root t) = Done (first_of (walk d t)).
Proof.
  induction t as [|l IHl e r IHr]; intros fuel q L Ht Hf; [done|].
  destruct (mk_cases d (T l e r)) as [|(e' & x & y & Ee)]; [done|].
  assert (IH : forall fuel q, linked m q x -> x <> E -> (length (adds x) <= fuel)%nat -> edge fuel d m (root x) = Done (first_of (walk d x))).
  { destruct d; injection Ee as -> -> ->; assumption. }
  rewrite Ee in L, Hf |- *. clear Ee IHl IHr. rewrite length_adds_mk in Hf. destruct fuel as [|fuel]; [lia|].
  apply linked_mk in L as (H & Lx & Ly). rewrite root_mk, walk_mk, first_app. cbn [edge]. rewrite (child_holds _ _ _ _ _ _ _ H), eqb_reflx. cbn [obind].
  destruct (root x =? 0) eqn:Ex; b2p.
  - by rewrite (root_null _ _ _ Lx Ex).
  - rewrite (IH fuel (addr e')); [|done|by intros ->|lia]. destruct x as [|xl xe xr]; [done|].
    destruct (walk d (T xl xe xr)) eqn:Ew; [|done]. destruct d; cbn in Ew; by destruct (walk _ _).
Qed.

(** The climb to the next node above. *)
Lemma climb_ok m self d c : forall fuel h, around m self h c -> h <> 0 -> NoDup (cadds c) -> h ∉ cadds c -> (length c < fuel)%nat ->
  climb fuel d m h (above c) = Done (first_of (after d c)).
Proof.
  induction c as [|[b p s] c IH]; intros fuel h A H0 Nd Hn Hf; (destruct fuel as [|fuel]; [lia|]); [done|].
  destruct A as (H & Ls & A). cbn [above f_node climb after f_dir f_sib]. rewrite (proj2 (Z.eqb_neq _ _) (ho_null _ _ _ _ _ H)).
  rewrite cadds_cons in Nd, Hn. cbn in Nd, Hn. apply NoDup_cons in Nd as [Np Nd]. apply not_elem_of_cons in Hn as [_ Hn].
  rewrite elem_of_app in Np. apply not_elem_of_app in Hn as [Hs Hc].
  unfold get_child, get_parent. rewrite (load_holds _ _ _ _ _ H). cbn [obind].
  destruct (Bool.eqb b d) eqn:Eb.
  - apply eqb_prop in Eb as ->. assert (Hsib : h =? root s = false).
    { apply Z.eqb_neq. intros Eh. apply Hs. rewrite Eh. apply root_adds. by intros ->. }
    destruct d; cbn; by rewrite Hsib.
  - assert (b = negb d) as -> by by destruct b, d. cbn in Hf. apply NoDup_app in Nd as (_ & _ & Nd).
    assert (Ec : child (mkNode (above c) (if negb d then root s else h) (if negb d then h else root s) p.2) (negb d) = h) by by destruct d.
    rewrite Ec, Z.eqb_refl. cbn. apply IH; [done|apply (ho_null _ _ _ _ _ H)|done|tauto|lia].
Qed.

Lemma zipped_context m self c t : zipped m self c t -> NoDup (cadds c) /\ (forall a, a ∈ adds t -> a ∉ cadds c).
Proof.
  intros [_ _ N]. rewrite adds_plug in N. apply NoDup_app in N as (N1 & N2 & _). split; [done|]. intros a Ha Hi. by apply (N2 a).
Qed.

(** [successor] and [predecessor] of a node in its context. *)
Lemma neighbour_zip fuel m self d c n x y :
  zipped m self c (mk d n x y) -> (length (adds (plug c (mk d n x y))) <= fuel)%nat ->
  neighbour fuel d m (addr n) = Done (first_of (walk d y ++ after d c)).
Proof.
  intros Z Hf. destruct (zipped_context _ _ _ _ Z) as [Nc Na]. destruct (zipped_parent _ _ _ _ _ _ _ Z) as (N0 & Hp). destruct Z as [A L N].
  pose proof (context_small c d n x y) as Hc. pose proof L as L0. apply linked_mk in L as (H & Lx & Ly).
  unfold neighbour. rewrite (child_holds _ _ _ _ _ _ _ H). rewrite first_app.
  assert (Ed : Bool.eqb (negb d) d = false) by by destruct d. rewrite Ed. cbn [obind].
  destruct (root y =? 0) eqn:Ey; b2p; cbn [negb].
  - rewrite (root_null _ _ _ Ly Ey). rewrite Hp. cbn [obind walk]. rewrite root_mk in A.
    apply (climb_ok m self); [done|done|done| |lia]. apply Na. rewrite adds_mk. by left.
  - rewrite (edge_ok m d y fuel (addr n)); [|done|by intros ->|].
    + destruct (walk d y) eqn:Ew; [|done]. destruct y as [|yl ye yr]; [done|]. destruct d; cbn in Ew; by destruct (walk _ _).
    + rewrite adds_plug, length_app, length_adds_mk in Hf. lia.
Qed.

(** A list of entries with different addresses splits in one way at an entry. *)
Lemma split_unique (l1 l2 l1' l2' : list (entry K V)) n n' :
  NoDup (addr <$> l1 ++ n :: l2) -> l1 ++ n :: l2 = l1' ++ n' :: l2' -> addr n = addr n' -> l1 = l1' /\ n = n' /\ l2 = l2'.
Proof.
  revert l1'. induction l1 as [|a l1 IH]; intros [|b l1'] N Ee Ha; cbn in *.
  - by injection Ee as -> ->.
  - injection Ee as -> ->. exfalso. apply NoDup_cons in N as [N _]. apply N. rewrite fmap_app. cbn. rewrite elem_of_app, elem_of_cons. by rewrite Ha; right; left.
  - injection Ee as <- <-. exfalso. apply NoDup_cons in N as [N _]. apply N. rewrite fmap_app. cbn. rewrite elem_of_app, elem_of_cons. by rewrite Ha; right; left.
  - injection Ee as <- Ee. apply NoDup_cons in N as [_ N]. destruct (IH _ N Ee Ha) as (-> & -> & ->). done.
Qed.

Lemma walk_nodup m self t d : stored m self t -> NoDup (addr <$> walk d t).
Proof. intros [_ _ N]. by rewrite adds_walk. Qed.

(** A place in the walk is a place in the tree. *)
Lemma zip_at m self t d l1 n l2 : stored m self t -> walk d t = l1 ++ n :: l2 ->
  exists c x y, t = plug c (mk d n x y) /\ zipped m self c (mk d n x y) /\ before d c ++ walk d x = l1 /\ walk d y ++ after d c = l2.
Proof.
  intros S Hw. assert (Hi : addr n ∈ adds t).
  { rewrite <-(adds_walk d), Hw, fmap_app. cbn. rewrite elem_of_app, elem_of_cons. by right; left. }
  destruct (elem_adds _ _ Hi) as (c & e & l & r & -> & He).
  destruct (mk_cases d (T l e r)) as [|(e' & x & y & Ee)]; [done|].
  assert (e' = e) as -> by (destruct d; by injection Ee). rewrite Ee in *. clear Ee.
  pose proof (walk_nodup _ _ _ d S) as N. assert (Hx : walk d (plug c (mk d e x y)) = (before d c ++ walk d x) ++ e :: (walk d y ++ after d c)).
  { rewrite walk_plug, walk_mk. by repeat (rewrite <-app_assoc; cbn [app]). }
  rewrite Hx in N. rewrite Hw in Hx. destruct (split_unique _ _ _ _ _ _ N (eq_sym Hx) He) as (E1 & -> & E2).
  exists c, x, y. split_and!; [done|by apply zipped_stored|done..].
Qed.

Lemma neighbour_ok fuel m self t d l1 n l2 : stored m self t -> walk d t = l1 ++ n :: l2 -> (length (adds t) <= fuel)%nat ->
  neighbour fuel d m (addr n) = Done (first_of l2).
Proof.
  intros S Hw Hf. destruct (zip_at _ _ _ _ _ _ _ S Hw) as (c & x & y & -> & Z & _ & <-). by apply (neighbour_zip _ _ self d c n x).
Qed.

(** ** Search *)

(** The path of a search: the context, and the subtree with the key or nothing. *)
Fixpoint search k t c : list (frame K V) * tree K V :=
  match t with
  | E => (c, E)
  | T l e r =>
      if compare iv_comp k (ekey e) =? 0 then (c, t)
      else if compare iv_comp k (ekey e) <? 0 then search k l (Fr LEFT e r :: c)
      else search k r (Fr RIGHT e l :: c)
  end.

Lemma find_rec_ok m k t : forall fuel q c, linked m q t -> t <> E -> (length (adds t) <= fuel)%nat ->
  find_rec iv_comp fuel m (root t) (Some k) =
    Done (match search k t c with (c', E) => (false, above c') | (_, T _ e _) => (true, addr e) end).
Proof.
  induction t as [|l IHl e r IHr]; intros fuel q c L Ht Hf; [done|]. destruct fuel as [|fuel].
  { rewrite adds_T in Hf. cbn in Hf. lia. }
  rewrite adds_T in Hf. cbn in Hf. rewrite length_app in Hf. destruct L as (H & Ll & Lr). cbn [find_rec root search].
  unfold get_key, get_child. rewrite (load_holds _ _ _ _ _ H). cbn [obind data]. change e.2.1 with (ekey e).
  destruct (compare iv_comp k (ekey e) =? 0); [done|]. destruct (compare iv_comp k (ekey e) <? 0); cbn [child child_left child_right LEFT RIGHT].
  - destruct (root l =? 0) eqn:El; b2p; [by rewrite (root_null _ _ _ Ll El)|].
    apply (IHl fuel (addr e)); [done|by intros ->|lia].
  - destruct (root r =? 0) eqn:Er; b2p; [by rewrite (root_null _ _ _ Lr Er)|].
    apply (IHr fuel (addr e)); [done|by intros ->|lia].
Qed.

Lemma search_plug k t : forall c c' t', search k t c = (c', t') -> plug c' t' = plug c t /\ (exists c0, c' = c0 ++ c) /\
  match t' with E => True | T _ e _ => compare iv_comp k (ekey e) = 0 end.
Proof.
  induction t as [|l IHl e r IHr]; intros c c' t'; cbn [search]; [intros [= <- <-]; split_and!; [done|by exists []|done]|].
  destruct (_ =? 0) eqn:E0; [intros [= <- <-]; b2p; split_and!; [done|by exists []|done]|].
  destruct (_ <? 0); [intros (H & (c0 & ->) & Ht)%IHl|intros (H & (c0 & ->) & Ht)%IHr]; (split_and!; [by rewrite H| |done]).
  - exists (c0 ++ [Fr LEFT e r]). by rewrite <-app_assoc.
  - exists (c0 ++ [Fr RIGHT e l]). by rewrite <-app_assoc.
Qed.

End find.
Arguments first_of {K V} l.
Arguments ekey {K V} e.

(** Different addresses of 64 bits are fewer than 2^64. *)
Lemma addresses_bound (l : list Z) N : NoDup l -> Forall (fun a => 0 < a < N) l -> 0 < N -> Z.of_nat (length l) < N.
Proof.
  intros Nd Hl HN. assert (l ⊆+ seqZ 1 (N - 1)) as Hs%submseteq_length.
  { apply NoDup_submseteq; [done|]. intros a Ha. rewrite Forall_forall in Hl. apply elem_of_seqZ. specialize (Hl a Ha). lia. }
  rewrite length_seqZ in Hs. lia.
Qed.

Section ops.
Context {K V : Type} (iv_comp : K -> K -> bool) `{!StrictWeak iv_comp}.
Implicit Types (m : Memory K V) (self a : Z) (t x y : tree K V) (c : list (frame K V)) (n e p : entry K V) (d : bool) (k : K) (lo hi w : list (entry K V)).

Record tree_ok m self t : Prop := {
  tk_stored : stored m self t;
  tk_ends : forall d, hd_child (header m self) d = first_of (walk d t);
  tk_size : hd_size (header m self) = Z.of_nat (length (adds t));
  tk_words : Forall (is_word 64) (adds t)
}.

(** The keys rise along the list. *)
Definition ordered w : Prop := StronglySorted (fun e e' => iv_comp (ekey e) (ekey e') = true) w.
Definition under k w : Prop := Forall (fun e => iv_comp (ekey e) k = true) w.
Definition over k w : Prop := Forall (fun e => iv_comp k (ekey e) = true) w.

Lemma length_walk d t : length (walk d t) = length (adds t).
Proof. unfold adds. by rewrite length_fmap, (walk_perm d). Qed.

Lemma size_small m self t : tree_ok m self t -> Z.of_nat (length (adds t)) < 2 ^ 64.
Proof.
  intros [[_ L N] _ _ W]. apply addresses_bound; [done| |done]. rewrite Forall_forall in W |- *. intros a Ha.
  destruct (linked_adds _ _ _ _ L Ha). destruct (W a Ha). lia.
Qed.

Lemma same_walk_ok m m' self t t' : tree_ok m self t -> stored m' self t' -> (forall b, walk b t' = walk b t) ->
  relinked (adds t) self m m' -> tree_ok m' self t'.
Proof.
  intros [S En Sz W] S' Hw R. assert (Ha : adds t' = adds t) by (unfold adds; by rewrite Hw).
  split; [done|intros d; by rewrite (rl_ends _ _ _ _ R), Hw|by rewrite (rl_size _ _ _ _ R), Ha|by rewrite Ha].
Qed.

(** The splay of any node; the header may not yet count a new one. *)
Lemma splay_zip m self c d n x y : zipped m self c (mk d n x y) ->
  Z.of_nat (length (adds (plug c (mk d n x y)))) <= hd_size (header m self) + 1 ->
  exists m', splay self (addr n) m = Done m' /\ splayed m self (addr n) (plug c (mk d n x y)) m'.
Proof.
  intros Z Hs. unfold splay. apply splay_rec_ok; [done|]. pose proof (context_small c d n x y). unfold depth. lia.
Qed.

(** ** Places *)

(** [k] lies between [lo] and [hi], and [n] is its node or a neighbour of its place. *)
Definition located k w (found : bool) (a : Z) : Prop :=
  exists lo hi, under k lo /\ over k hi /\
    if found then exists e, w = lo ++ e :: hi /\ addr e = a /\ compare iv_comp k (ekey e) = 0
    else w = lo ++ hi /\ ((exists e lo', lo = lo' ++ [e] /\ addr e = a) \/ (exists e hi', hi = e :: hi' /\ addr e = a)).

Lemma compare_zero k k' : compare iv_comp k k' = 0 <-> iv_comp k k' = false /\ iv_comp k' k = false.
Proof. unfold compare. destruct (iv_comp k k') eqn:E1, (iv_comp k' k) eqn:E2; split; intros; try done; naive_solver. Qed.

Lemma compare_side k k' : compare iv_comp k k' =? 0 = false ->
  if compare iv_comp k k' <? 0 then iv_comp k k' = true else iv_comp k' k = true.
Proof. unfold compare. destruct (iv_comp k k') eqn:E1, (iv_comp k' k) eqn:E2; done. Qed.

Lemma search_split k t : forall c c' t', ordered (walk LEFT (plug c t)) -> under k (before LEFT c) -> over k (after LEFT c) ->
  search iv_comp k t c = (c', t') -> under k (before LEFT c') /\ over k (after LEFT c').
Proof.
  induction t as [|l IHl e r IHr]; intros c c' t' O Hu Ho; cbn [search]; [by intros [= <- <-]|].
  destruct (_ =? 0) eqn:E0; [by intros [= <- <-]|]. apply compare_side in E0.
  pose proof O as O1. rewrite walk_plug in O1. apply StronglySorted_app_1_r, StronglySorted_app_1_l in O1. cbn in O1.
  apply StronglySorted_app in O1 as (O2 & _ & O3). apply StronglySorted_cons in O3 as [O3 _].
  destruct (_ <? 0); [apply IHl|apply IHr]; try done; cbn.
  - apply Forall_cons. split; [done|]. apply Forall_app. split; [|done]. eapply Forall_impl; [exact O3|]. intros x Hx. by apply (sw_trans _ (ekey e)).
  - apply Forall_app. split; [done|]. apply Forall_app. split; [|by apply Forall_singleton]. apply Forall_forall. intros x Hx.
    apply (sw_trans _ (ekey e)); [|done]. apply O2; [done|by left].
Qed.

Lemma search_found k t c l e r : ordered (walk LEFT t) -> search iv_comp k t [] = (c, T l e r) ->
  under k (before LEFT c ++ walk LEFT l) /\ over k (walk LEFT r ++ after LEFT c).
Proof.
  intros O Hs. destruct (search_plug _ _ _ _ _ _ Hs) as (Hp & _ & Hc). cbn in Hp. apply compare_zero in Hc as [C1 C2].
  destruct (search_split k t [] c (T l e r) O) as [Hu Ho]; [by apply Forall_nil..|done|].
  rewrite <-Hp, walk_plug in O. apply StronglySorted_app_1_r, StronglySorted_app_1_l in O. cbn in O.
  apply StronglySorted_app in O as (O2 & _ & O3). apply StronglySorted_cons in O3 as [O3 _].
  split; apply Forall_app; (split; [done|] || (split; [|done])); apply Forall_forall; intros x Hx.
  - destruct (sw_cotrans (ekey x) k (ekey e)); [apply O2; [done|by left]|done|congruence].
  - rewrite Forall_forall in O3. destruct (sw_cotrans (ekey e) k (ekey x)); [by apply O3|congruence|done].
Qed.

Lemma search_located k t c t' : ordered (walk LEFT t) -> t <> E -> search iv_comp k t [] = (c, t') ->
  located k (walk LEFT t) (match t' with E => false | _ => true end) (match t' with E => above c | T _ e _ => addr e end).
Proof.
  intros O Ht Hs. destruct (search_plug _ _ _ _ _ _ Hs) as (Hp & _ & Hc). cbn in Hp. destruct t' as [|l e r].
  - destruct (search_split k t [] c E O) as [Hu Ho]; [by apply Forall_nil..|done|]. exists (before LEFT c), (after LEFT c).
    split_and!; [done..|by rewrite <-Hp, walk_plug|]. destruct c as [|[b p s] c]; [by subst t|]. cbn. destruct b; [left|right].
    + exists p, (before LEFT c ++ walk LEFT s). by rewrite <-app_assoc.
    + by exists p, (walk LEFT s ++ after LEFT c).
  - destruct (search_found _ _ _ _ _ _ O Hs) as [Hu Ho]. exists (before LEFT c ++ walk LEFT l), (walk LEFT r ++ after LEFT c).
    split_and!; [done..|]. exists e. split_and!; [|done..]. rewrite <-Hp, walk_plug. cbn. by repeat (rewrite <-app_assoc; cbn [app]).
Qed.

(** ** Search *)

Lemma find_rec_located m self t k : tree_ok m self t -> ordered (walk LEFT t) -> t <> E ->
  exists found a, find_rec iv_comp (depth m self) m (hd_root (header m self)) (Some k) = Done (found, a) /\
    located k (walk LEFT t) found a.
Proof.
  intros Hk O Ht. destruct Hk as [[R L N] En Sz W]. rewrite R.
  destruct (search iv_comp k t []) as [c t'] eqn:Es. pose proof (search_located _ _ _ _ O Ht Es) as Hl.
  rewrite (find_rec_ok iv_comp m k t (depth m self) 0 []); [|done..|unfold depth; lia]. rewrite Es.
  destruct t' as [|l e r]; by eexists _, _.
Qed.

Lemma located_split k w found a : located k w found a -> exists l1 e l2, w = l1 ++ e :: l2 /\ addr e = a.
Proof.
  intros (lo & hi & _ & _ & H). destruct found.
  - destruct H as (e & -> & He & _). by exists lo, e, hi.
  - destruct H as (-> & [(e & lo' & -> & He)|(e & hi' & -> & He)]); [exists lo', e, hi|by exists lo, e, hi'].
    by rewrite <-app_assoc.
Qed.

(** A node of the tree is brought to its root. *)
Lemma splay_node m self t l1 e l2 : tree_ok m self t -> walk LEFT t = l1 ++ e :: l2 ->
  exists m' t', splay self (addr e) m = Done m' /\ tree_ok m' self t' /\ root t' = addr e /\
    (forall b, walk b t' = walk b t) /\ relinked (adds t) self m m'.
Proof.
  intros Hk Hw. destruct (zip_at _ _ _ _ _ _ _ (tk_stored _ _ _ Hk) Hw) as (c & x & y & Et & Z & _).
  destruct (splay_zip _ _ _ _ _ _ _ Z) as (m' & E & t' & S & Hr & Hb & R); [rewrite <-Et, (tk_size _ _ _ Hk); lia|].
  rewrite <-Et in *. exists m', t'. split_and!; try done. by eapply same_walk_ok.
Qed.

Lemma find_hint_ok m self t k hint : tree_ok m self t -> ordered (walk LEFT t) -> t <> E ->
  exists m' t' found a, find_hint iv_comp self (Some k) hint m = Done (found, a, m') /\ tree_ok m' self t' /\ root t' = a /\
    (forall b, walk b t' = walk b t) /\ relinked (adds t) self m m' /\ located k (walk LEFT t) found a.
Proof.
  intros Hk O Ht. destruct (find_rec_located m self t k Hk O Ht) as (found & a & Ef & Hl).
  destruct (located_split _ _ _ _ Hl) as (l1 & e & l2 & Hw & <-).
  assert (R0 : hd_root (header m self) <> 0).
  { pose proof (tk_stored _ _ _ Hk) as [R L _]. rewrite R. intros E. by apply Ht, (root_null m 0). }
  assert (A0 : addr e <> 0).
  { destruct (linked_adds m 0 t (addr e)); [apply (tk_stored _ _ _ Hk)| |done]. rewrite <-(adds_walk LEFT), Hw, fmap_app. cbn.
    rewrite elem_of_app, elem_of_cons. by right; left. }
  destruct (splay_node m self t l1 e l2 Hk Hw) as (m' & t' & Es & Hk' & Hr & Hb & R).
  exists m', t', found, (addr e). unfold find_hint. rewrite (proj2 (Z.eqb_neq _ _) R0), Ef. cbn [obind].
  rewrite (proj2 (Z.eqb_neq _ _) A0). cbn [negb]. rewrite Es. done.
Qed.

End ops.
