(* ===== verification/SplayIns.v ===== *)
(** * The splay tree: insertion *)

From stdpp Require Import sorting.
From S2P Require Import Prelude SplayTree SplayRot SplayOps.

Section insert.
Context {K V : Type} (iv_comp : K -> K -> bool) `{!StrictWeak iv_comp}.
Implicit Types (m : Memory K V) (self a : Z) (t u x y s : tree K V) (c : list (frame K V)) (n e p : entry K V) (d b : bool) (k : K) (lo hi w : list (entry K V)).

(** Nodes outside [l] and the other trees are as they were. *)
Definition only (l : list Z) self m m' : Prop :=
  (forall a, a ∉ l -> nodes m' a = nodes m a) /\ forall i, i <> self -> header m' i = header m i.

Lemma only_relinked l self m m' : relinked l self m m' -> only l self m m'.
Proof. by intros [H1 H2 _ _]. Qed.

Lemma only_chain l self m1 m2 m3 : only l self m1 m2 -> only l self m2 m3 -> only l self m1 m3.
Proof. intros [A1 B1] [A2 B2]. split; [intros a Ha; by rewrite A2, A1|intros i Hi; by rewrite B2, B1]. Qed.

Lemma only_sub l l' self m m' : (forall a, a ∈ l -> a ∈ l') -> only l self m m' -> only l' self m m'.
Proof. intros Hl [A B]. split; [|done]. intros a Ha. apply A. auto. Qed.

(** Changes of the header alone. *)
Lemma stored_header m m' self t : stored m self t -> (forall a, nodes m' a = nodes m a) -> hd_root (header m' self) = hd_root (header m self) ->
  stored m' self t.
Proof. intros [R L N] Hn Hr. split; [by rewrite Hr|by eapply linked_ext|done]. Qed.

Lemma with_header_other self (h : Header) m i : i <> self -> header (with_header self h m) i = header m i.
Proof. intros Hi. cbn. by rewrite upd_ne. Qed.

(** ** Linking the new node *)

Lemma insert_rec_ok fuel m self d p s c a kv q :
  zipped m self (Fr d p s :: c) E -> nodes m a = Some (mkNode q 0 0 kv) -> a <> 0 -> a ∉ adds (plug (Fr d p s :: c) E) ->
  d = (if compare iv_comp kv.1 (ekey p) <? 0 then LEFT else RIGHT) -> (0 < fuel)%nat ->
  exists m', insert_rec iv_comp fuel (addr p) a m = Done m' /\ zipped m' self (Fr d p s :: c) (T E (a, kv) E) /\
    relinked (a :: adds (plug (Fr d p s :: c) E)) self m m'.
Proof.
  intros Z Ha A0 Hn Hd Hf. destruct fuel as [|fuel]; [lia|]. pose proof Z as [[Hp [Hs Hc]] _ N]. cbn [root above f_node] in *.
  assert (Hpa : addr p <> a /\ a ∉ adds s /\ a ∉ cadds c /\ addr p ∉ adds s /\ addr p ∉ cadds c).
  { rewrite adds_plug, cadds_cons in Hn, N. cbn in Hn, N. rewrite app_nil_r in N. apply NoDup_cons in N as [N _].
    rewrite !not_elem_of_app in N. apply not_elem_of_cons in Hn as [H1 H2]. rewrite !not_elem_of_app in H2. destruct H2 as [[H2 H3] _]. by split_and!; try apply N; try apply not_eq_sym. }
  destruct Hpa as (Hpa & Has & Hac & Hps & Hpc).
  pose proof (load_node _ _ _ A0 Ha) as La. pose proof (load_holds _ _ _ _ _ Hp) as Lp. pose proof (ho_null _ _ _ _ _ Hp) as P0.
  set (pc := if d then root s else 0) in *. set (pd := if d then 0 else root s) in *.
  exists (store a (Some (mkNode (addr p) 0 0 kv)) (store (addr p) (Some (with_child d a (mkNode (above c) pc pd p.2))) m)).
  split_and!.
  - cbn [insert_rec]. unfold get_key, get_child, set_child, set_parent. mem_step. change p.2.1 with (ekey p).
    rewrite <-Hd. assert (Ec : child (mkNode (above c) pc pd p.2) d = 0) by by destruct d.
    rewrite Ec. by mem_step.
  - assert (Hm : forall g, g ∈ adds s \/ g ∈ cadds c -> upd (upd (nodes m) (addr p) (Some (with_child d a (mkNode (above c) pc pd p.2)))) a
        (Some (mkNode (addr p) 0 0 kv)) g = nodes m g).
    { intros g Hg. rewrite !upd_ne; [done|..]; intros ->; tauto. }
    split; [|cbn; split_and!; [split; [done|apply upd_eq]|done|done]|].
    + cbn [root addr fst]. split_and!; [split; [done|]| |].
      * cbn. rewrite upd_ne, upd_eq by done. by destruct d.
      * eapply linked_ext; [done|]. intros g Hg. apply Hm. by left.
      * eapply around_ext; [done| |done]. intros g Hg. apply Hm. by right.
    + rewrite adds_plug in Hn, N |- *. cbn [adds walk app fmap list_fmap] in *. rewrite app_nil_r in *. rewrite Permutation_app_comm. by apply NoDup_cons.
  - split; [|done..]. intros g Hg. apply not_elem_of_cons in Hg as [Hg1 Hg2]. cbn. rewrite !upd_ne; [done| |done].
    intros ->. apply Hg2. rewrite adds_plug, cadds_cons. by left.
Qed.

(** ** The ends after an insertion *)

(** The old end of [u] is a place in [u'] from which the edge is the end of [u']. *)
Definition end_in b u u' : Prop :=
  exists c e x y, u' = plug c (mk b e x y) /\ addr e = first_of (walk b u) /\ first_of (walk b (mk b e x y)) = first_of (walk b u').

Lemma walk_first b u (l : list (entry K V)) : u <> E -> first_of (walk b u ++ l) = first_of (walk b u).
Proof. intros Hu. destruct (mk_cases b u) as [|(e & x & y & ->)]; [done|]. rewrite walk_mk, !first_app. by destruct (walk b x). Qed.

Lemma fill_side b f t : (f_dir f = b /\ fill f t = mk b (f_node f) t (f_sib f)) \/ (f_dir f = negb b /\ fill f t = mk b (f_node f) (f_sib f) t).
Proof. destruct f as [d n s]. destruct (decide (d = b)) as [->|]; [by left|right]. assert (d = negb b) as -> by by destruct d, b. by rewrite <-(mk_flip b). Qed.

Lemma plug_node b c e x y : plug c (mk b e x y) <> E.
Proof.
  intros Ee. assert (H : walk b (plug c (mk b e x y)) = []) by by rewrite Ee. rewrite walk_plug, walk_mk in H.
  by destruct (before b c), (walk b x).
Qed.

Lemma end_in_fill b f u u' : end_in b u u' -> u <> E -> f_dir f = b -> end_in b (fill f u) (fill f u').
Proof.
  intros (c & e & x & y & -> & He & Hf) Hu Hd. exists (c ++ [f]), e, x, y. split_and!.
  - by rewrite plug_app.
  - rewrite He. unfold fill. by rewrite Hd, walk_mk, walk_first.
  - rewrite Hf. unfold fill. by rewrite Hd, (walk_mk b (f_node f)), walk_first by apply plug_node.
Qed.

Lemma end_self b u : u <> E -> end_in b u u.
Proof.
  induction u as [|l IHl e r IHr]; intros Hu; [done|]. destruct (mk_cases b (T l e r)) as [|(e' & x & y & Ee)]; [done|].
  assert (IH : x <> E -> end_in b x x) by (destruct b; injection Ee as -> -> ->; assumption). rewrite Ee. clear Ee IHl IHr Hu.
  destruct (decide (walk b x = [])) as [Ex|Ex].
  - exists [], e', x, y. by rewrite !walk_mk, Ex.
  - assert (Hx : x <> E) by (by intros ->). pose proof (end_in_fill b (Fr b e' y) x x (IH Hx) Hx eq_refl) as H.
    unfold fill in H. done.
Qed.

Lemma end_in_far b p s u u' : end_in b (mk b p s u) (mk b p s u').
Proof.
  destruct (decide (walk b s = [])) as [Es|Es].
  - exists [], p, s, u'. by rewrite !walk_mk, Es.
  - assert (Hs : s <> E) by (by intros ->). destruct (end_self b s Hs) as (c & e & x & y & Ec & He & Hf).
    exists (c ++ [Fr b p u']), e, x, y. rewrite plug_app, <-Ec. split_and!; [done|..].
    + by rewrite walk_mk, walk_first.
    + by rewrite Hf, (walk_mk b p), walk_first.
Qed.

Lemma fill_node f u : fill f u <> E.
Proof. destruct f as [[] n s]; done. Qed.

(** A node linked at a place of a tree is found from the old end. *)
Lemma end_in_plug b f c n : end_in b (plug (f :: c) E) (plug (f :: c) (T E n E)).
Proof.
  assert (G : end_in b (fill f E) (fill f (T E n E))).
  { destruct (fill_side b f E) as [[H1 ->]|[H1 ->]], (fill_side b f (T E n E)) as [[H2 ->]|[H2 ->]];
      [|rewrite H1 in H2; by destruct b..|apply end_in_far].
    exists [], (f_node f), (T E n E), (f_sib f). by rewrite !walk_mk. }
  change (end_in b (plug c (fill f E)) (plug c (fill f (T E n E)))).
  pose proof (fill_node f E) as Hu. revert G Hu. generalize (fill f E) (fill f (T E n E)). clear f.
  induction c as [|f c IH]; intros u u' G Hu; [done|]. apply (IH (fill f u) (fill f u')); [|apply fill_node].
  destruct (fill_side b f u) as [[Hd _]|[Hd ->]]; [by apply end_in_fill|].
  destruct (fill_side b f u') as [[Hd' ->]|[_ ->]]; [rewrite Hd' in Hd; by destruct b|apply end_in_far].
Qed.

Lemma new_end fuel b m self u u' : stored m self u' -> end_in b u u' -> (length (adds u') <= fuel)%nat ->
  edge fuel b m (first_of (walk b u)) = Done (first_of (walk b u')).
Proof.
  intros S (c & e & x & y & -> & <- & Hf) Hl. apply zipped_stored in S as [_ L _]. rewrite <-Hf, <-(root_mk b e x y).
  apply (edge_ok m b _ fuel (above c)); [done|by destruct b|]. rewrite adds_plug, length_app in Hl. lia.
Qed.


(** ** The operation *)

(** What an insertion of [(a, kv)] does. *)
Definition inserted m self t a (kv : K * V) m' : Prop :=
  exists t' lo hi, tree_ok m' self t' /\ walk LEFT t = lo ++ hi /\ walk LEFT t' = lo ++ (a, kv) :: hi /\
    under iv_comp kv.1 lo /\ over iv_comp kv.1 hi /\ only (a :: adds t) self m m'.

Lemma insert_first m self a kv : tree_ok m self E -> nodes m a = Some (mkNode 0 0 0 kv) -> a <> 0 -> is_word 64 a ->
  exists m', insert iv_comp self a m = Done m' /\ inserted m self E a kv m'.
Proof.
  intros [[R _ _] _ Sz _] Ha A0 Wa. pose proof (load_node _ _ _ A0 Ha) as La. cbn in R, Sz.
  unfold insert. rewrite R, Z.eqb_refl.
  set (m1 := set_root self a _). assert (L1 : load m1 a = Done (mkNode 0 0 0 kv)) by exact La.
  unfold set_child, set_parent. rewrite L1. mem_step. eexists. split; [reflexivity|].
  exists (T E (a, kv) E), [], []. split_and!; [|done|done|by apply Forall_nil|by apply Forall_nil|].
  - split; [split|..].
    + cbn. by rewrite !upd_eq.
    + cbn. split_and!; [split; [done|]|done|done]. cbn. by rewrite upd_eq.
    + cbn. apply NoDup_singleton.
    + intros d. cbn. rewrite !upd_eq. by destruct d.
    + cbn. rewrite !upd_eq. cbn. by rewrite Sz.
    + by apply Forall_singleton.
  - split.
    + intros g Hg. apply not_elem_of_cons in Hg as [Hg _]. cbn. by rewrite !upd_ne.
    + intros i Hi. cbn. by rewrite !upd_ne.
Qed.

(** The ends are found, and the new node brought to the root. *)
Lemma insert_rest m0 m self t t' a : tree_ok m0 self t -> stored m self t' -> relinked (a :: adds t) self m0 m ->
  (forall b, end_in b t t') -> adds t' ≡ₚ a :: adds t -> (exists l1 e l2, walk LEFT t' = l1 ++ e :: l2 /\ addr e = a) -> is_word 64 a ->
  exists m', (do m <- (do l <- edge (depth m self) LEFT m (hd_left (header m self));
                       let m := set_end self LEFT l m in
                       do r <- edge (depth m self) RIGHT m (hd_right (header m self));
                       let m := set_end self RIGHT r m in
                       splay self a m);
              Done (set_size self (hd_size (header m self) + 1) m)) = Done m' /\
    exists t2, tree_ok m' self t2 /\ (forall b, walk b t2 = walk b t') /\ only (a :: adds t) self m0 m'.
Proof.
  intros Hk Sd R En Hp (l1 & e & l2 & Hw & He) Wa. destruct Hk as [S0 En0 Sz0 W0].
  pose proof (rl_size _ _ _ _ R) as Sz. pose proof (rl_ends _ _ _ _ R) as Ends.
  assert (Hlen : length (adds t') = S (length (adds t))) by by rewrite Hp.
  assert (Hd : depth m self = length (adds t')) by (unfold depth; rewrite Sz, Sz0, Hlen; lia).
  assert (E1 : edge (depth m self) LEFT m (hd_left (header m self)) = Done (first_of (walk LEFT t'))).
  { change (hd_left (header m self)) with (hd_child (header m self) LEFT). rewrite Ends, En0. apply (new_end _ _ _ self); [done|done|lia]. }
  rewrite E1. cbn [obind]. set (m1 := set_end self LEFT _ m).
  assert (H1 : header m1 self = mkHeader (hd_root (header m self)) (first_of (walk LEFT t')) (hd_right (header m self)) (hd_size (header m self))).
  { unfold m1. cbn. by rewrite upd_eq. }
  assert (S1 : stored m1 self t') by (apply (stored_header m); [done|done|by rewrite H1]).
  assert (E2 : edge (depth m1 self) RIGHT m1 (hd_right (header m1 self)) = Done (first_of (walk RIGHT t'))).
  { rewrite H1. cbn [hd_right]. change (hd_right (header m self)) with (hd_child (header m self) RIGHT). rewrite Ends, En0.
    apply (new_end _ _ _ self); [done|done|]. unfold depth. rewrite H1. cbn. unfold depth in Hd. lia. }
  rewrite E2. cbn [obind]. set (m2 := set_end self RIGHT _ m1).
  assert (H2 : header m2 self = mkHeader (hd_root (header m self)) (first_of (walk LEFT t')) (first_of (walk RIGHT t')) (hd_size (header m self))).
  { unfold m2. cbn [set_end with_header header]. rewrite upd_eq, H1. done. }
  assert (S2 : stored m2 self t') by (apply (stored_header m1); [done|done|by rewrite H2, H1]).
  destruct (zip_at _ _ _ _ _ _ _ S2 Hw) as (c & x & y & Et & Zp & _).
  destruct (splay_zip m2 self c LEFT e x y Zp) as (m3 & E3 & t2 & S3 & _ & W3 & R3).
  { rewrite <-Et, H2. cbn. lia. }
  rewrite <-Et, He in *. rewrite E3. cbn [obind]. eexists. split; [reflexivity|]. exists t2.
  assert (Hh : hd_size (header m3 self) = Z.of_nat (length (adds t))) by (rewrite (rl_size _ _ _ _ R3), H2; cbn; lia).
  assert (Had : adds t2 = adds t') by (unfold adds; by rewrite W3).
  assert (Ww : Forall (is_word 64) (adds t')) by (rewrite Hp; by apply Forall_cons).
  split_and!; [split|done|].
  - apply (stored_header m3); [done|done|]. cbn. by rewrite upd_eq.
  - intros d. cbn. rewrite upd_eq. change (hd_child _ d) with (hd_child (header m3 self) d). rewrite (rl_ends _ _ _ _ R3), H2, W3. by destruct d.
  - cbn. rewrite upd_eq. cbn. rewrite Hh, Had, Hlen, wrap_small; [lia|]. split; [lia|].
    enough (Z.of_nat (length (adds t')) < 2 ^ 64) by lia. apply addresses_bound; [apply (sd_nodup _ _ _ S2)| |done].
    rewrite Forall_forall in Ww |- *. intros g Hg. destruct (linked_adds _ _ _ _ (sd_linked _ _ _ S2) Hg). destruct (Ww g Hg). lia.
  - by rewrite Had.
  - apply only_relinked in R, R3. apply (only_chain _ _ _ m3).
    + eapply only_chain; [exact R|]. apply (only_chain _ _ _ m2); [|eapply only_sub; [|exact R3]; intros g; rewrite Hp; exact id].
      split; [done|]. intros i Hi. unfold m2, m1. cbn. by rewrite !upd_ne.
    + split; [done|]. intros i Hi. cbn. by rewrite upd_ne.
Qed.

Lemma insert_ok m self t a kv : tree_ok m self t -> ordered iv_comp (walk LEFT t) -> nodes m a = Some (mkNode 0 0 0 kv) ->
  a <> 0 -> is_word 64 a -> a ∉ adds t -> Forall (fun e => compare iv_comp kv.1 (ekey e) <> 0) (walk LEFT t) ->
  exists m', insert iv_comp self a m = Done m' /\ inserted m self t a kv m'.
Proof.
  intros Hk O Ha A0 Wa Hn Hnew. destruct (decide (walk LEFT t = [])) as [Et|Et].
  { assert (t = E) as ->; [|by apply insert_first]. destruct t; [done|]. by apply app_eq_nil in Et as [_ ?]. }
  assert (Ht : t <> E) by (by intros ->). clear Et. pose proof Hk as [[R L N] En Sz W].
  destruct (search iv_comp kv.1 t []) as [c t'] eqn:Es. destruct (search_plug _ _ _ _ _ _ Es) as (Hp & _ & Hc). cbn in Hp.
  destruct t' as [|l' e' r'].
  2: { exfalso. rewrite Forall_forall in Hnew. apply (Hnew e'); [|done]. rewrite <-Hp, walk_plug. cbn.
       rewrite !elem_of_app, elem_of_cons. tauto. }
  destruct c as [|[d p s] c]; [by subst t|].
  destruct (search_split iv_comp kv.1 t [] (Fr d p s :: c) E O) as [Hu Ho]; [by apply Forall_nil..|exact Es|].
  assert (Zp : zipped m self (Fr d p s :: c) E) by (apply zipped_stored; by rewrite Hp).
  destruct (insert_rec_ok (depth m self) m self d p s c a kv 0) as (m1 & E1 & Z1 & R1); [done..|by rewrite Hp| |unfold depth; lia|].
  { cbn in Hu, Ho. destruct d; cbn in Hu, Ho.
    - apply Forall_app in Hu as [_ Hu]. apply Forall_app in Hu as [_ Hu]. rewrite Forall_singleton in Hu. unfold compare.
      destruct (iv_comp kv.1 (ekey p)) eqn:E2; [|by rewrite Hu]. pose proof (sw_trans _ _ _ E2 Hu) as H. by rewrite sw_irrefl in H.
    - apply Forall_cons in Ho as [Ho _]. cbn in Ho. unfold compare. by rewrite Ho. }
  rewrite Hp in R1.
  unfold insert. rewrite R, (proj2 (Z.eqb_neq (root t) 0)).
  2: { intros E0. by apply Ht, (root_null m 0). }
  assert (Lk : get_key m a = Done kv.1) by (unfold get_key; by rewrite (load_node _ _ _ A0 Ha)).
  rewrite Lk. cbn [obind]. rewrite (find_rec_ok iv_comp m kv.1 t (depth m self) 0 []), Es; [|done..|unfold depth; lia].
  cbn [obind above f_node]. rewrite E1. cbn [obind]. apply zipped_stored in Z1.
  assert (Hadds : adds (plug (Fr d p s :: c) (T E (a, kv) E)) ≡ₚ a :: adds t).
  { rewrite <-Hp, !adds_plug. cbn. rewrite app_nil_r. by rewrite Permutation_app_comm. }
  assert (Hw : walk LEFT (plug (Fr d p s :: c) (T E (a, kv) E)) = before LEFT (Fr d p s :: c) ++ (a, kv) :: after LEFT (Fr d p s :: c))
    by by rewrite walk_plug.
  destruct (insert_rest m m1 self t _ a Hk Z1 R1) as (m' & E2 & t2 & Hk2 & Hw2 & Ho2); [|done|by eexists _, (a, kv), _|done|].
  { intros b. rewrite <-Hp. apply end_in_plug. }
  exists m'. split; [exact E2|]. exists t2, (before LEFT (Fr d p s :: c)), (after LEFT (Fr d p s :: c)).
  split_and!; [done|by rewrite <-Hp, walk_plug|by rewrite Hw2|done..].
Qed.

End insert.
