(* ===== verification/SplayDel.v ===== *)
(** * The splay tree: removal *)

From stdpp Require Import sorting.
From S2P Require Import Prelude SplayTree SplayRot SplayOps SplayIns.

Section remove.
Context {K V : Type}.
Implicit Types (m : Memory K V) (self a : Z) (t u x y z l r : tree K V) (c : list (frame K V)) (n e p q : entry K V) (d b : bool).

(** What a context with another subtree in its hole writes, apart from the subtree. *)
Definition rehung m c (h a : Z) : option (Node K V) :=
  match c with
  | Fr b q _ :: _ => if a =? addr q then with_child b h <$> nodes m a else nodes m a
  | [] => nodes m a
  end.

Lemma rehung_other m c h a : a ∉ cadds c -> rehung m c h a = nodes m a.
Proof.
  destruct c as [|[b q s] c]; [done|]. rewrite cadds_cons. intros Hn. cbn in *. apply not_elem_of_cons in Hn as [Hn _].
  by rewrite (proj2 (Z.eqb_neq a _) Hn).
Qed.

Lemma zip_parts m self c l e r : zipped m self c (T l e r) ->
  addr e ∉ adds l ++ adds r ++ cadds c /\ NoDup (adds l) /\ NoDup (adds r) /\ NoDup (cadds c) /\
  (forall a, a ∈ adds l -> a ∉ adds r ++ cadds c) /\ (forall a, a ∈ adds r -> a ∉ cadds c).
Proof.
  intros [_ _ N]. rewrite adds_plug, Permutation_app_comm, adds_T in N. cbn in N. rewrite <-app_assoc in N.
  apply NoDup_cons in N as [H1 N]. apply NoDup_app in N as (H2 & H3 & N). apply NoDup_app in N as (H4 & H5 & H6).
  split_and!; try done.
Qed.

(** ** Splicing *)

Definition only_child l r : tree K V := match l with E => r | _ => l end.

Lemma only_child_in l r a : l = E \/ r = E -> a ∈ adds (only_child l r) <-> a ∈ adds l ++ adds r.
Proof. intros [->| ->]; [done|]. rewrite app_nil_r. by destruct l. Qed.

Lemma splice_run m self c l e r : zipped m self c (T l e r) -> l = E \/ r = E ->
  let z := only_child l r in
  exists m', splice self (addr e) m = Done m' /\
    (forall a, nodes m' a = if negb (root z =? 0) && (a =? root z) then with_parent (above c) <$> nodes m a else rehung m c (root z) a) /\
    header m' = match c with [] => header (set_root self (root z) m) | _ => header m end.
Proof.
  intros Zp Hlr z. destruct (zip_parts _ _ _ _ _ _ Zp) as (He & Nl & Nr & Nc & Dl & Dr). destruct Zp as [Hc [H [Ll Lr]] N].
  pose proof (ho_null _ _ _ _ _ H) as E0. pose proof (load_holds _ _ _ _ _ H) as Le. rewrite !not_elem_of_app in He. destruct He as (Hel & Her & Hec).
  assert (Lz : linked m (addr e) z) by (unfold z; destruct Hlr as [->| ->]; [done|]; by destruct l).
  assert (Hz : forall a, a ∈ adds z -> a ∉ cadds c).
  { intros a Ha. apply only_child_in in Ha; [|done]. apply elem_of_app in Ha as [Ha|Ha]; [|by apply Dr].
    intros Hi. apply (Dl a Ha), elem_of_app. by right. }
  assert (Hze : addr e ∉ adds z) by (intros Hi; apply only_child_in in Hi; [|done]; apply elem_of_app in Hi as [Hi|Hi]; done).
  assert (Ex : (if negb (root l =? 0) then Done (root l) else get_child m (addr e) RIGHT) = Done (root z)).
  { unfold get_child. rewrite Le. cbn. unfold z. destruct l as [|l1 el l2]; [done|]. cbn [root].
    by rewrite (proj2 (Z.eqb_neq _ _) (ho_null _ _ _ _ _ (proj1 Ll))). }
  unfold splice. unfold get_child at 1. rewrite Le. cbn [obind child LEFT child_left]. rewrite Ex. cbn [obind].
  clearbody z. unfold get_parent. rewrite Le. cbn [obind parent].
  destruct (root_known _ _ _ Lz) as [Y0|(Y0 & Yi & yn & Ly & Ey)];
    destruct (above_known _ _ _ _ Hc E0 Hec) as [->|(b & q & sq & c' & -> & Q0 & Qi & qn & Lq & Eq & De)];
    try match goal with H : addr ?q ∈ _ |- _ => assert (addr q <> root z) by (intros Ee; rewrite Ee in H; by apply (Hz (root z))) end;
    unfold set_parent, set_child, direction, get_child, rehung; cbn [above f_node] in *; mem_step; cbn [child child_left LEFT]; rewrite ?De;
    mem_step; (eexists; split; [reflexivity|]; split; [intros a; cbn [nodes store set_root with_header]; by upd_cases; rewrite ?Ey, ?Eq|done]).
Qed.

Lemma splice_ok m self c l e r : zipped m self c (T l e r) -> l = E \/ r = E ->
  exists m', splice self (addr e) m = Done m' /\ zipped m' self c (only_child l r) /\ nodes m' (addr e) = nodes m (addr e) /\
    relinked (adds (plug c (T l e r))) self m m'.
Proof.
  intros Zp Hlr. destruct (splice_run _ _ _ _ _ _ Zp Hlr) as (m' & Es & Hm & Hh). exists m'. split; [done|].
  destruct (zip_parts _ _ _ _ _ _ Zp) as (He & Nl & Nr & Nc & Dl & Dr). destruct Zp as [Hc [H [Ll Lr]] N].
  set (z := only_child l r) in *. rewrite !not_elem_of_app in He. destruct He as (Hel & Her & Hec).
  assert (Lz : linked m (addr e) z) by (unfold z; destruct Hlr as [->| ->]; [done|]; by destruct l).
  assert (Nz : NoDup (adds z)) by (unfold z; destruct Hlr as [->| ->]; [done|]; by destruct l).
  assert (Hz : forall a, a ∈ adds z -> a ∉ cadds c).
  { intros a Ha. apply only_child_in in Ha; [|done]. apply elem_of_app in Ha as [Ha|Ha]; [|by apply Dr].
    intros Hi. apply (Dl a Ha), elem_of_app. by right. }
  assert (Hze : addr e ∉ adds z) by (intros Hi; apply only_child_in in Hi; [|done]; apply elem_of_app in Hi as [Hi|Hi]; done).
  assert (Hfar : forall a, a ∉ adds z -> nodes m' a = rehung m c (root z) a).
  { intros a Ha. rewrite Hm. destruct (negb (root z =? 0) && (a =? root z)) eqn:Ez; [|done]. b2p. subst a. exfalso. apply Ha, root_adds. by intros ->. }
  split_and!; [split|rewrite Hfar by done; by apply rehung_other|split].
  - apply (around_hole m m' self (addr e)); [done|done| |rewrite Hh; by destruct c; cbn; rewrite ?upd_eq].
    intros a Ha. rewrite Hfar; [by destruct c as [|[]]|]. intros Hi. by apply (Hz a).
  - eapply linked_reparent; [exact Lz|done|]. intros a Ha. rewrite Hm. destruct (linked_adds _ _ _ _ Lz Ha) as [A0 _].
    destruct (a =? root z) eqn:Ea; [b2p; subst a; by rewrite (proj2 (Z.eqb_neq _ _) A0)|]. rewrite andb_false_r. apply rehung_other. by apply Hz.
  - rewrite adds_plug. apply NoDup_app. split_and!; [done| |done]. intros a Ha Hi. by apply (Hz a).
  - intros a Ha. rewrite adds_plug, adds_T in Ha. rewrite not_elem_of_app, not_elem_of_cons in Ha. destruct Ha as (Ha1 & _ & Ha2).
    rewrite Hfar; [by apply rehung_other|]. intros Hi. by apply only_child_in in Hi.
  - intros i Hi. rewrite Hh. destruct c; [|done]. cbn. by rewrite upd_ne.
  - intros d. rewrite Hh. destruct c; [|done]. cbn. rewrite upd_eq. by destruct d.
  - rewrite Hh. destruct c; [|done]. cbn. by rewrite upd_eq.
Qed.


(** ** Replacing a node *)

(** The cells [replace] writes: the new node, its children and the context. *)
Definition replaced m c l r (yn : Node K V) (y a : Z) : option (Node K V) :=
  if a =? y then Some (mkNode (above c) (root l) (root r) (data yn))
  else if (negb (root l =? 0) && (a =? root l)) || (negb (root r =? 0) && (a =? root r)) then with_parent y <$> nodes m a
  else rehung m c y a.

Lemma replace_run m self c l e r (y : Z) yn : zipped m self c (T l e r) -> nodes m y = Some yn -> y <> 0 ->
  y ∉ adds (plug c (T l e r)) ->
  exists m', replace self (addr e) y m = Done m' /\ (forall a, nodes m' a = replaced m c l r yn y a) /\
    header m' = match c with [] => header (set_root self y m) | _ => header m end.
Proof.
  intros Zp Hy Y0 Hn. destruct (zip_parts _ _ _ _ _ _ Zp) as (He & _ & _ & _ & Dl & Dr). destruct Zp as [Hc [H [Ll Lr]] _].
  pose proof (ho_null _ _ _ _ _ H) as E0. pose proof (load_holds _ _ _ _ _ H) as Le. pose proof (load_node _ _ _ Y0 Hy) as Ly.
  rewrite adds_plug, adds_T in Hn. rewrite !not_elem_of_app in He. rewrite not_elem_of_app, not_elem_of_cons, not_elem_of_app in Hn.
  destruct He as (Hel & Her & Hec), Hn as (Hyc & Hye & Hyl & Hyr).
  assert (Dl' : forall a, a ∈ adds l -> a ∉ adds r /\ a ∉ cadds c) by (intros a Ha; by apply not_elem_of_app, Dl).
  destruct (root_known _ _ _ Ll) as [L0|(L0 & Li & ln & Lln & Eln)]; destruct (root_known _ _ _ Lr) as [R0|(R0 & Ri & rn & Lrn & Ern)];
    destruct (above_known _ _ _ _ Hc E0 Hec) as [->|(b & q & sq & c' & -> & Q0 & Qi & qn & Lq & Eq & De)];
    repeat match goal with
    | H : ?a ∈ ?l, H' : ?b ∉ ?l |- _ =>
        lazymatch goal with _ : a <> b |- _ => fail | _ => assert (a <> b) by (intros Ee; apply H'; rewrite <-Ee; exact H) end
    end;
    try match goal with H : root l ∈ _, H' : root r ∈ _ |- _ =>
      assert (root l <> root r) by (intros Ee; rewrite Ee in H; by destruct (Dl' _ H)) end;
    try match goal with H : addr ?q ∈ _, H' : root l ∈ _ |- _ =>
      assert (addr q <> root l) by (intros Ee; rewrite Ee in H; by destruct (Dl' _ H')) end;
    try match goal with H : addr ?q ∈ _, H' : root r ∈ _ |- _ =>
      assert (addr q <> root r) by (intros Ee; rewrite Ee in H; by apply (Dr _ H')) end;
    unfold replace, adopt_child, get_parent, set_parent, set_child, direction, get_child, replaced, rehung; cbn [above f_node] in *;
    mem_step; cbn [child child_left LEFT]; rewrite ?De; mem_step; cbn [child child_left child_right];
    mem_step; (eexists; split; [reflexivity|]; split; [intros a; cbn [nodes store set_root with_header]; by upd_cases; rewrite ?Eln, ?Ern, ?Eq|done]).
Qed.

Lemma replaced_far m c l r yn (y a : Z) : a <> y -> a ∉ adds l -> a ∉ adds r -> replaced m c l r yn y a = rehung m c y a.
Proof.
  intros Hy Hl Hr. unfold replaced. rewrite (proj2 (Z.eqb_neq a _) Hy).
  destruct (negb (root l =? 0) && (a =? root l)) eqn:E1; [b2p; subst a; exfalso; apply Hl, root_adds; by intros ->|].
  destruct (negb (root r =? 0) && (a =? root r)) eqn:E2; [b2p; subst a; exfalso; apply Hr, root_adds; by intros ->|]. done.
Qed.

Lemma replaced_child m c l r yn (y a : Z) z : z = l \/ z = r -> a <> 0 ->
  a ∈ adds z -> (forall g, g ∈ adds l -> g ∉ adds r) -> a <> y -> a ∉ cadds c ->
  replaced m c l r yn y a = if a =? root z then with_parent y <$> nodes m a else nodes m a.
Proof.
  intros Hz A0 Ha D Hy Hc. unfold replaced. rewrite (proj2 (Z.eqb_neq a _) Hy), rehung_other by done.
  destruct Hz as [->| ->].
  - destruct (a =? root l) eqn:E1; b2p.
    + subst a. by rewrite (proj2 (Z.eqb_neq _ _) A0).
    + rewrite andb_false_r. destruct (negb (root r =? 0) && (a =? root r)) eqn:E2; [|done].
      b2p. subst a. exfalso. apply (D _ Ha), root_adds. by intros ->.
  - destruct (a =? root r) eqn:E1; b2p.
    + subst a. rewrite (proj2 (Z.eqb_neq _ _) A0), orb_true_r. done.
    + rewrite andb_false_r, orb_false_r. destruct (negb (root l =? 0) && (a =? root l)) eqn:E2; [|done].
      b2p. subst a. exfalso. apply (D (root l)); [apply root_adds; by intros ->|done].
Qed.

Lemma replace_ok m self c l e r (y : Z) yn : zipped m self c (T l e r) -> nodes m y = Some yn -> y <> 0 ->
  y ∉ adds (plug c (T l e r)) ->
  exists m', replace self (addr e) y m = Done m' /\ zipped m' self c (T l (y, data yn) r) /\
    relinked (y :: adds (plug c (T l e r))) self m m'.
Proof.
  intros Zp Hy Y0 Hn. destruct (replace_run _ _ _ _ _ _ _ _ Zp Hy Y0 Hn) as (m' & Es & Hm & Hh). exists m'. split; [done|].
  destruct (zip_parts _ _ _ _ _ _ Zp) as (He & Nl & Nr & Nc & Dl & Dr). destruct Zp as [Hc [H [Ll Lr]] N].
  pose proof Hn as Hn0. rewrite !not_elem_of_app in He. rewrite adds_plug, adds_T, not_elem_of_app, not_elem_of_cons, not_elem_of_app in Hn.
  destruct He as (Hel & Her & Hec), Hn as (Hyc & Hye & Hyl & Hyr).
  assert (Dl' : forall a, a ∈ adds l -> a ∉ adds r /\ a ∉ cadds c) by (intros a Ha; by apply not_elem_of_app, Dl).
  split_and!; [split; [|cbn; split_and!; [split; [done|]| |]|]|split].
  - apply (around_hole m m' self (addr e)); [done|done| |rewrite Hh; by destruct c; cbn; rewrite ?upd_eq].
    intros a Ha. rewrite Hm, replaced_far; [by destruct c as [|[]]|by intros ->| |]; intros Hi; [by destruct (Dl' a Hi)|by apply (Dr a Hi)].
  - cbn. rewrite Hm. unfold replaced. by rewrite Z.eqb_refl.
  - cbn. eapply linked_reparent; [exact Ll|done|]. intros a Ha. rewrite Hm.
    destruct (linked_adds _ _ _ _ Ll Ha). apply replaced_child; try done; [by left|naive_solver|by intros ->|by destruct (Dl' a Ha)].
  - cbn. eapply linked_reparent; [exact Lr|done|]. intros a Ha. rewrite Hm.
    destruct (linked_adds _ _ _ _ Lr Ha). apply replaced_child; try done; [by right|naive_solver|by intros ->|by apply Dr].
  - rewrite adds_plug, adds_T in N |- *. cbn [addr fst]. rewrite <-Permutation_middle in N |- *. apply NoDup_cons in N as [_ N]. apply NoDup_cons.
    split; [|done]. rewrite !not_elem_of_app. tauto.
  - intros a Ha. apply not_elem_of_cons in Ha as [Hay Ha]. rewrite adds_plug, adds_T, not_elem_of_app, not_elem_of_cons, not_elem_of_app in Ha.
    destruct Ha as (H1 & _ & H2 & H3). rewrite Hm, replaced_far by done. by apply rehung_other.
  - intros i Hi. rewrite Hh. destruct c; [|done]. cbn. by rewrite upd_ne.
  - intros d. rewrite Hh. destruct c; [|done]. cbn. rewrite upd_eq. by destruct d.
  - rewrite Hh. destruct c; [|done]. cbn. by rewrite upd_eq.
Qed.

(** ** The ends and the place *)

Lemma first_is (w l1 l2 : list (entry K V)) e : w = l1 ++ e :: l2 -> NoDup (addr <$> w) -> (first_of w =? addr e) = true <-> l1 = [].
Proof.
  intros -> N. rewrite first_app. destruct l1 as [|f l1]; [by rewrite Z.eqb_refl|]. split; [|done]. intros Ee. b2p. cbn in N.
  apply NoDup_cons in N as [N _]. exfalso. apply N. rewrite Ee, fmap_app, elem_of_app. cbn. right. by left.
Qed.

Lemma first_drop (w l1 l2 : list (entry K V)) e : w = l1 ++ e :: l2 -> l1 <> [] -> first_of w = first_of (l1 ++ l2).
Proof. intros -> H. by destruct l1. Qed.

Lemma remove_ends_ok m self t (l1 l2 : list (entry K V)) e : tree_ok m self t -> walk LEFT t = l1 ++ e :: l2 ->
  exists h, remove_ends self (addr e) m = Done (mkMem (nodes m) h) /\
    (forall i, i <> self -> h i = header m i) /\
    h self = mkHeader (root t) (first_of (l1 ++ l2)) (first_of (reverse (l1 ++ l2))) (Z.of_nat (length (adds t))).
Proof.
  intros [Sd En Sz _] Hw. pose proof (walk_nodup _ _ _ LEFT Sd) as N. pose proof (walk_nodup _ _ _ RIGHT Sd) as N'.
  assert (Hw' : walk RIGHT t = reverse l2 ++ e :: reverse l1).
  { change RIGHT with (negb LEFT). rewrite walk_flip, Hw, reverse_app, reverse_cons, <-app_assoc. done. }
  pose proof (En LEFT) as EL. pose proof (En RIGHT) as ER. cbn in EL, ER.
  destruct (header m self) as [hr hl hR hs] eqn:Eh. pose proof (sd_root _ _ _ Sd) as Hr. rewrite Eh in Hr. cbn in EL, ER, Sz, Hr.
  assert (Hd : (length (adds t) <= S (Z.to_nat (Z.of_nat (length (adds t)))))%nat) by lia.
  pose proof (neighbour_ok _ _ _ _ _ _ _ _ Sd Hw Hd) as NL. pose proof (neighbour_ok _ _ _ _ _ _ _ _ Sd Hw' Hd) as NR.
  unfold remove_ends. rewrite Eh. cbn [hd_left].
  assert (HL : exists h, (if hl =? addr e then do s <- successor self m (addr e); Done (set_end self LEFT s m) else Done m) = Done (mkMem (nodes m) h) /\
     (forall i, i <> self -> h i = header m i) /\ h self = mkHeader hr (first_of (l1 ++ l2)) hR hs).
  { rewrite EL. destruct (first_of (walk LEFT t) =? addr e) eqn:E1.
    - apply (first_is _ _ _ _ Hw N) in E1 as ->. unfold successor, depth. rewrite Eh. cbn [hd_size]. rewrite Sz, NL. cbn [obind].
      eexists. split; [reflexivity|]. split; [intros i Hi; by apply upd_ne|]. rewrite upd_eq. cbn. by rewrite Eh, <-Sz.
    - destruct m as [nd h]. exists h. split_and!; [done..|]. cbn in Eh |- *. rewrite Eh, EL. f_equal. apply (first_drop _ _ _ e); [done|].
      intros ->. rewrite (proj2 (first_is _ _ _ _ Hw N) eq_refl) in E1. done. }
  destruct HL as (h & -> & Ho & Hs). cbn [obind header]. rewrite Hs. cbn [hd_right]. rewrite ER.
  destruct (first_of (walk RIGHT t) =? addr e) eqn:E1.
  - apply (first_is _ _ _ _ Hw' N') in E1. unfold predecessor, depth. cbn [header]. rewrite Hs. cbn [hd_size]. rewrite Sz.
    assert (NR' : neighbour (S (Z.to_nat (Z.of_nat (length (adds t))))) RIGHT (mkMem (nodes m) h) (addr e) = Done (first_of (reverse l1))).
    { apply (neighbour_ok _ _ self t RIGHT (reverse l2) e (reverse l1)); [|done|lia]. apply (stored_header m); [done|done|cbn; by rewrite Hs, Eh]. }
    rewrite NR'. cbn [obind]. eexists. split; [reflexivity|]. cbn. split; [intros i Hi; by rewrite upd_ne, Ho|].
    rewrite upd_eq, Hs. cbn. rewrite <-Hr, Sz. f_equal. rewrite reverse_app, E1. done.
  - exists h. split_and!; [done..|]. rewrite Hs, <-Hr, Sz, ER. f_equal. rewrite reverse_app. apply (first_drop _ _ _ e); [done|].
    intros Ee. rewrite (proj2 (first_is _ _ _ _ Hw' N') Ee) in E1. done.
Qed.

Lemma walk_nil b t : walk b t = [] -> t = E.
Proof. destruct (mk_cases b t) as [->|(e & x & y & ->)]; [done|]. rewrite walk_mk. by destruct (walk b x). Qed.

(** The least node of a subtree has no left child and is all that comes first. *)
Lemma least_split y : y <> E -> NoDup (adds y) -> exists c e z, y = plug c (T E e z) /\ before LEFT c = [].
Proof.
  intros Hy N. destruct (end_self LEFT y Hy) as (c & e & x & z & Ey & He & _). exists c, e, z.
  assert (Hw : walk LEFT y = (before LEFT c ++ walk LEFT x) ++ e :: (walk LEFT z ++ after LEFT c)).
  { rewrite Ey, walk_plug, walk_mk. by repeat (rewrite <-app_assoc; cbn [app]). }
  destruct (first_is _ _ _ _ Hw N) as [Hf _]. rewrite He in Hf. apply app_eq_nil in Hf as [H1 H2]; [|apply Z.eqb_refl].
  by apply walk_nil in H2 as ->.
Qed.

Lemma walk_only l r : l = E \/ r = E -> walk LEFT (only_child l r) = walk LEFT l ++ walk LEFT r.
Proof. intros [->| ->]; [done|]. cbn. rewrite app_nil_r. by destruct l. Qed.

(** The tree without the entry, once the header has its ends and size. *)
Lemma removed_ok m m' self t t' (w : list (entry K V)) : tree_ok m self t -> stored m' self t' -> walk LEFT t' = w ->
  (exists e, adds t ≡ₚ addr e :: (addr <$> w)) ->
  (forall d, hd_child (header m' self) d = if d then first_of (reverse w) else first_of w) ->
  hd_size (header m' self) = Z.of_nat (length (adds t)) - 1 -> tree_ok m' self t'.
Proof.
  intros [_ _ _ W] S' Hw (e & Hp) He Hs. split; [done| | |].
  - intros d. rewrite He. destruct d; [|by rewrite <-Hw]. change true with (negb LEFT). by rewrite walk_flip, Hw.
  - rewrite Hs, Hp. unfold adds. rewrite Hw. cbn. lia.
  - rewrite Hp in W. apply Forall_cons in W as [_ W]. unfold adds. by rewrite Hw.
Qed.

Lemma header_only (l : list Z) self m (h : Z -> Header) : (forall i, i <> self -> h i = header m i) -> only l self m (mkMem (nodes m) h).
Proof. intros H. split; [done|exact H]. Qed.

(** The header is that of the tree without the entry. *)
Record trimmed m self t (w : list (entry K V)) : Prop := {
  tr_ends : forall d, hd_child (header m self) d = if d then first_of (reverse w) else first_of w;
  tr_size : hd_size (header m self) = Z.of_nat (length (adds t)) - 1
}.

Lemma trimmed_relinked m m' self t w (l : list Z) : trimmed m self t w -> relinked l self m m' -> trimmed m' self t w.
Proof. intros [H1 H2] R. split; [intros d; by rewrite (rl_ends _ _ _ _ R)|by rewrite (rl_size _ _ _ _ R)]. Qed.

(** A node with at most one child is spliced out. *)
Lemma remove_outer m self c x e y w : zipped m self c (T x e y) -> x = E \/ y = E ->
  w = (before LEFT c ++ walk LEFT x) ++ walk LEFT y ++ after LEFT c -> trimmed m self (plug c (T x e y)) w ->
  exists m' t', splice self (addr e) m = Done m' /\ stored m' self t' /\ walk LEFT t' = w /\
    relinked (adds (plug c (T x e y))) self m m' /\ trimmed m' self (plug c (T x e y)) w.
Proof.
  intros Zp Hc -> Ht. destruct (splice_ok _ _ _ _ _ _ Zp Hc) as (m' & Es & Z' & _ & R). exists m', (plug c (only_child x y)).
  split_and!; [done|by apply zipped_stored| |done|by eapply trimmed_relinked].
  rewrite walk_plug, walk_only by done. by rewrite <-!app_assoc.
Qed.

(** A node with two children is replaced by its successor, which is brought to the root. *)
Lemma remove_inner m self c x e y w : zipped m self c (T x e y) -> x <> E -> y <> E ->
  w = (before LEFT c ++ walk LEFT x) ++ walk LEFT y ++ after LEFT c -> trimmed m self (plug c (T x e y)) w ->
  exists m' t' s, successor self m (addr e) = Done s /\ s <> addr e /\
    (do m <- splice self s m; do m <- replace self (addr e) s m; splay self s m) = Done m' /\ stored m' self t' /\ walk LEFT t' = w /\
    relinked (adds (plug c (T x e y))) self m m' /\ trimmed m' self (plug c (T x e y)) w.
Proof.
  intros Zp Hx Hy -> Ht. destruct (zip_parts _ _ _ _ _ _ Zp) as (He & _ & Ny & _ & _ & _).
  destruct (least_split y Hy Ny) as (c2 & s & z & -> & Hb).
  set (cs := c2 ++ Fr RIGHT e x :: c). set (t := plug c (T x e (plug c2 (T E s z)))) in *.
  assert (Ets : plug cs (T E s z) = t) by (unfold cs, t; by rewrite plug_app).
  assert (Zs : zipped m self cs (T E s z)) by (apply zipped_stored; rewrite Ets; by apply zipped_stored).
  destruct (splice_ok _ _ _ _ _ _ Zs ltac:(by left)) as (m1 & E1 & Z1 & Hs1 & R1). rewrite Ets in R1. cbn [only_child] in Z1.
  assert (Ze : zipped m1 self c (T x e (plug c2 z))).
  { apply zipped_stored. apply zipped_stored in Z1. unfold cs in Z1. by rewrite plug_app in Z1. }
  destruct (zip_parts _ _ _ _ _ _ Zs) as (Hs & _). cbn [adds walk app fmap list_fmap] in Hs.
  assert (Hns : addr s ∉ adds (plug c (T x e (plug c2 z)))).
  { change (plug c (T x e (plug c2 z))) with (plug (Fr RIGHT e x :: c) (plug c2 z)). rewrite <-plug_app, adds_plug, not_elem_of_app.
    rewrite not_elem_of_app in Hs. unfold cs in Hs. tauto. }
  pose proof (zp_linked _ _ _ _ Zs) as [Hsn _]. pose proof (ho_null _ _ _ _ _ Hsn) as S0.
  rewrite (ho_node _ _ _ _ _ Hsn) in Hs1.
  destruct (replace_ok _ _ _ _ _ _ _ _ Ze Hs1 S0 Hns) as (m2 & E2 & Z2 & R2). cbn [data] in Z2.
  assert (Ep : (addr s, s.2) = s) by by destruct s. rewrite Ep in Z2. clear Ep.
  assert (P2 : addr s :: adds (plug c (T x e (plug c2 z))) ≡ₚ adds t).
  { unfold t. change (plug c (T x e ?u)) with (plug (Fr RIGHT e x :: c) u). rewrite !(adds_plug (_ :: c)), !(adds_plug c2), adds_T. cbn.
    by rewrite !Permutation_middle. }
  assert (Hsz : hd_size (header m2 self) = Z.of_nat (length (adds t)) - 1).
  { rewrite (rl_size _ _ _ _ R2), (rl_size _ _ _ _ R1). apply Ht. }
  assert (P3 : length (adds (plug c (T x s (plug c2 z)))) = (length (adds t) - 1)%nat).
  { unfold t. rewrite !adds_plug, !adds_T, !length_app. cbn. rewrite !length_app, !adds_plug, adds_T, !length_app. cbn. lia. }
  destruct (splay_zip m2 self c LEFT s x (plug c2 z) Z2) as (m3 & E3 & t3 & S3 & _ & W3 & R3).
  { change (mk LEFT s x (plug c2 z)) with (T x s (plug c2 z)). rewrite P3, Hsz. lia. }
  change (mk LEFT s x (plug c2 z)) with (T x s (plug c2 z)) in *.
  exists m3, t3, (addr s). split_and!.
  - unfold successor. change (T x e (plug c2 (T E s z))) with (mk LEFT e x (plug c2 (T E s z))) in Zp.
    rewrite (neighbour_zip (depth m self) m self LEFT c e x _ Zp).
    + f_equal. rewrite first_app, walk_plug, Hb. done.
    + change (mk LEFT e x (plug c2 (T E s z))) with (T x e (plug c2 (T E s z))). fold t. destruct Ht as [_ Hz].
      unfold depth. rewrite Hz. lia.
  - intros Ee. apply He. rewrite <-Ee, !elem_of_app, adds_plug, elem_of_app, adds_T, elem_of_cons. tauto.
  - rewrite E1. cbn [obind]. rewrite E2. cbn [obind]. done.
  - done.
  - rewrite W3, walk_plug. cbn. rewrite !walk_plug, Hb. cbn. by repeat (rewrite <-app_assoc; cbn [app]).
  - eapply relinked_trans; [exact R1|]. eapply relinked_trans; [eapply relinked_perm; [exact P2|exact R2]|].
    destruct R3 as [A B C D]. split; try done. intros a Ha. apply A. intros Hi. apply Ha. rewrite <-P2.
    rewrite adds_plug, adds_T in Hi. rewrite adds_plug, adds_T. set_solver.
  - eapply trimmed_relinked; [|exact R3]. eapply trimmed_relinked; [|exact R2]. by eapply trimmed_relinked.
Qed.

(** Removal of the node [e]: the rest of the walk stays. *)
Lemma remove_ok m self t (l1 l2 : list (entry K V)) e : tree_ok m self t -> walk LEFT t = l1 ++ e :: l2 ->
  exists m' t', remove self (addr e) m = Done m' /\ tree_ok m' self t' /\ walk LEFT t' = l1 ++ l2 /\ only (adds t) self m m'.
Proof.
  intros Hk Hw. pose proof (size_small _ _ _ Hk) as Hsm. destruct (remove_ends_ok m self t l1 l2 e Hk Hw) as (h & E1 & Ho & Hs).
  pose proof (tk_stored _ _ _ Hk) as Sd. assert (Hp : adds t ≡ₚ addr e :: (addr <$> l1 ++ l2)).
  { unfold adds. rewrite Hw, !fmap_app. cbn. by rewrite Permutation_middle. }
  assert (Hlen : (0 < length (adds t))%nat) by (rewrite Hp; cbn; lia).
  unfold remove. rewrite E1. cbn [obind header]. rewrite Hs. cbn [hd_size]. set (m2 := set_size self _ _).
  assert (H2 : header m2 self = mkHeader (root t) (first_of (l1 ++ l2)) (first_of (reverse (l1 ++ l2))) (Z.of_nat (length (adds t)) - 1)).
  { unfold m2. cbn. rewrite upd_eq, Hs. cbn. f_equal. rewrite wrap_small; [done|]. split; lia. }
  assert (S2 : stored m2 self t) by (apply (stored_header m); [done|done|rewrite H2; cbn; by rewrite (sd_root _ _ _ Sd)]).
  assert (O2 : only (adds t) self m m2).
  { split; [done|]. intros i Hi. unfold m2. cbn. by rewrite upd_ne, Ho. }
  assert (Ht : trimmed m2 self t (l1 ++ l2)) by (split; [intros []|]; by rewrite H2).
  assert (Hfin : forall m' t', stored m' self t' -> walk LEFT t' = l1 ++ l2 -> relinked (adds t) self m2 m' -> trimmed m' self t (l1 ++ l2) ->
     tree_ok m' self t' /\ walk LEFT t' = l1 ++ l2 /\ only (adds t) self m m').
  { intros m' t' S' W' R' [T1 T2]. split_and!; [|done|eapply only_chain; [exact O2|by apply only_relinked]].
    by apply (removed_ok m m' self t t' (l1 ++ l2)); [..|exists e| |]. }
  clearbody m2. clear E1 Ho Hs Sd H2.
  destruct (zip_at _ _ _ LEFT _ _ _ S2 Hw) as (c & x & y & Et & Zp & Hl1 & Hl2). change (mk LEFT e x y) with (T x e y) in *.
  pose proof (zp_linked _ _ _ _ Zp) as [H [Lx Ly]]. unfold get_child at 1 2. rewrite (load_holds _ _ _ _ _ H). cbn [obind child LEFT RIGHT child_left child_right].
  rewrite Et in Ht. destruct ((root x =? 0) || (root y =? 0)) eqn:Exy.
  - assert (Hc : x = E \/ y = E) by (apply orb_true_iff in Exy as [Ex|Ex]; b2p; [left; by apply (root_null _ _ _ Lx)|right; by apply (root_null _ _ _ Ly)]).
    destruct (remove_outer m2 self c x e y (l1 ++ l2) Zp Hc) as (m' & t' & Es & S' & W' & R' & T'); [by rewrite Hl1, Hl2|done|].
    cbn [obind]. rewrite Es. cbn [obind]. rewrite Z.eqb_refl. cbn [negb]. rewrite <-Et in *. exists m', t'. split; [done|]. by apply Hfin.
  - b2p. destruct (remove_inner m2 self c x e y (l1 ++ l2) Zp) as (m' & t' & s & E1 & Hne & Es & S' & W' & R' & T');
      [by intros ->|by intros ->|by rewrite Hl1, Hl2|done|].
    rewrite E1. cbn [obind]. rewrite (proj2 (Z.eqb_neq _ _) Hne). cbn [negb].
    destruct (splice self s m2) as [m3|]; [|done]. cbn [obind] in Es |- *. rewrite Es. rewrite <-Et in *. exists m', t'. split; [done|]. by apply Hfin.
Qed.

End remove.
