(* ===== verification/StlMap.v ===== *)
(** * [std::map] ([src/include/util/impl/stlmap.H]) on the splay tree

    The operations of the class, with iterators as addresses of nodes (zero is
    the end), and what they promise on the list of the entries in the order of
    their keys. *)

From stdpp Require Import sorting.
From S2P Require Import Prelude SplayTree SplayRot SplayOps SplayIns SplayDel.

Section stlmap.
Context {K V : Type} (iv_comp : K -> K -> bool) (v0 : V).
Implicit Types (m : Memory K V) (self a : Z) (k : K) (v : V) (e : entry K V) (w : list (entry K V)).

(** ** The operations *)

(** [insert], and [emplace] with its new node made first. *)
Definition map_insert self a k v m : outcome (Z * bool * Memory K V) :=
  do (rc, n, m) <- insert_by_value iv_comp self a (k, v) m; Done (n, rc, m).
Definition map_emplace self a k v m : outcome (Z * bool * Memory K V) :=
  let m := new_node a (k, v) m in
  do (rc, hint_node, m) <- find_hint iv_comp self (Some k) 0 m;
  if negb rc then do m <- insert iv_comp self a m; Done (a, true, m) else Done (hint_node, false, store a None m).
Definition map_subscript self a k m : outcome (Z * Memory K V) :=
  do (n, rc, m) <- map_insert self a k v0 m; Done (n, m).

(** A write through the reference that [operator[]] or an iterator gives. *)
Definition map_write a v m : outcome (Memory K V) :=
  do x <- load m a; Done (store a (Some (mkNode (parent x) (child_left x) (child_right x) ((data x).1, v))) m).

Definition map_find self k m : outcome (Z * Memory K V) := find_by_value iv_comp self k m.
Definition map_count self k m : outcome (Z * Memory K V) :=
  do (found, _, m) <- find_hint iv_comp self (Some k) 0 m; Done (if found : bool then 1 else 0, m).
Definition map_lower_bound self k m : outcome (Z * Memory K V) := lower_bound_by_value iv_comp self k m.
Definition map_upper_bound self k m : outcome (Z * Memory K V) := lower_bound_by_value iv_comp self k m.
Definition map_equal_range self k m : outcome (Z * Z * Memory K V) :=
  do (l, m) <- map_lower_bound self k m; do (u, m) <- map_upper_bound self k m; Done (l, u, m).
Definition map_at self k m : outcome (V * Memory K V) :=
  do (result, m) <- map_lower_bound self k m;
  assert! negb (result =? 0); do x <- load m result; Done ((data x).2, m).

Definition map_erase_at self a m : outcome (Memory K V) := do m <- remove self a m; Done (store a None m).
Definition map_erase self k m : outcome (Z * Memory K V) := remove_by_value iv_comp self k m.
Definition map_begin self m : Z := front self m.
Definition map_rbegin self m : Z := back self m.

(** [erase(first, last)]: the iterator steps before its node is erased. *)
Fixpoint map_erase_range (fuel : nat) self (first last : Z) m : outcome (Memory K V) :=
  if first =? last then Done m
  else match fuel with
       | O => Crash BadAccess
       | S fuel => do next <- increment self m first; do m <- map_erase_at self first m; map_erase_range fuel self next last m
       end.

(** ** The promises *)

Definition node_of (o : option (entry K V)) : Z := match o with Some e => addr e | None => 0 end.
Definition spec_find k w : option (entry K V) := List.find (fun e => compare iv_comp k (ekey e) =? 0) w.
Definition spec_put e w : list (entry K V) :=
  List.filter (fun e' => iv_comp (ekey e') (ekey e)) w ++ e :: List.filter (fun e' => iv_comp (ekey e) (ekey e')) w.
Definition spec_erase k w : list (entry K V) := List.filter (fun e => negb (compare iv_comp k (ekey e) =? 0)) w.
Definition spec_lower k w : option (entry K V) := List.find (fun e => negb (iv_comp (ekey e) k)) w.
Definition spec_upper k w : option (entry K V) := List.find (fun e => iv_comp k (ekey e)) w.
Definition spec_drop a w : list (entry K V) := List.filter (fun e => negb (addr e =? a)) w.
Definition spec_write a v w : list (entry K V) := (fun e => if addr e =? a then (a, (ekey e, v)) else e) <$> w.

(** The entries behind that of the node [a]. *)
Fixpoint spec_behind a w : list (entry K V) :=
  match w with [] => [] | e :: w => if addr e =? a then w else spec_behind a w end.

Inductive map_op : Type :=
| OpInsert (a : Z) (k : K) (v : V)
| OpEmplace (a : Z) (k : K) (v : V)
| OpSubscript (a : Z) (k : K)
| OpWrite (a : Z) (v : V)
| OpFind (k : K)
| OpCount (k : K)
| OpLower (k : K)
| OpUpper (k : K)
| OpAt (k : K)
| OpErase (k : K)
| OpEraseAt (a : Z)
| OpBegin
| OpRBegin
| OpNext (a : Z)
| OpPrev (a : Z)
| OpSize
| OpEmpty
| OpClear.

Inductive map_result : Type :=
| ResUnit
| ResNode (a : Z)
| ResPair (a : Z) (b : bool)
| ResCount (n : Z)
| ResValue (v : V).

Definition run_op self (op : map_op) m : outcome (map_result * Memory K V) :=
  match op with
  | OpInsert a k v => do (n, b, m) <- map_insert self a k v m; Done (ResPair n b, m)
  | OpEmplace a k v => do (n, b, m) <- map_emplace self a k v m; Done (ResPair n b, m)
  | OpSubscript a k => do (n, m) <- map_subscript self a k m; Done (ResNode n, m)
  | OpWrite a v => do m <- map_write a v m; Done (ResUnit, m)
  | OpFind k => do (n, m) <- map_find self k m; Done (ResNode n, m)
  | OpCount k => do (n, m) <- map_count self k m; Done (ResCount n, m)
  | OpLower k => do (n, m) <- map_lower_bound self k m; Done (ResNode n, m)
  | OpUpper k => do (n, m) <- map_upper_bound self k m; Done (ResNode n, m)
  | OpAt k => do (v, m) <- map_at self k m; Done (ResValue v, m)
  | OpErase k => do (n, m) <- map_erase self k m; Done (ResCount n, m)
  | OpEraseAt a => do m <- map_erase_at self a m; Done (ResUnit, m)
  | OpBegin => Done (ResNode (map_begin self m), m)
  | OpRBegin => Done (ResNode (map_rbegin self m), m)
  | OpNext a => do n <- increment self m a; Done (ResNode n, m)
  | OpPrev a => do n <- decrement self m a; Done (ResNode n, m)
  | OpSize => Done (ResCount (size self m), m)
  | OpEmpty => Done (ResCount (if empty self m then 1 else 0), m)
  | OpClear => do m <- clear self m; Done (ResUnit, m)
  end.

Definition spec_insert a k v w : Z * bool * list (entry K V) :=
  match spec_find k w with Some e => (addr e, false, w) | None => (a, true, spec_put (a, (k, v)) w) end.

Definition spec_op (op : map_op) w : outcome (map_result * list (entry K V)) :=
  match op with
  | OpInsert a k v | OpEmplace a k v => let '(n, b, w) := spec_insert a k v w in Done (ResPair n b, w)
  | OpSubscript a k => let '(n, _, w) := spec_insert a k v0 w in Done (ResNode n, w)
  | OpWrite a v => Done (ResUnit, spec_write a v w)
  | OpFind k => Done (ResNode (node_of (spec_find k w)), w)
  | OpCount k => Done (ResCount (match spec_find k w with Some _ => 1 | None => 0 end), w)
  | OpLower k | OpUpper k => Done (ResNode (node_of (spec_lower k w)), w)
  | OpAt k => match spec_lower k w with Some e => Done (ResValue e.2.2, w) | None => Crash KAssert end
  | OpErase k => Done (ResCount (match spec_find k w with Some _ => 1 | None => 0 end), spec_erase k w)
  | OpEraseAt a => Done (ResUnit, spec_drop a w)
  | OpBegin => Done (ResNode (first_of w), w)
  | OpRBegin => Done (ResNode (first_of (reverse w)), w)
  | OpNext a => Done (ResNode (first_of (if a =? 0 then w else spec_behind a w)), w)
  | OpPrev a => Done (ResNode (first_of (if a =? 0 then reverse w else spec_behind a (reverse w))), w)
  | OpSize => Done (ResCount (Z.of_nat (length w)), w)
  | OpEmpty => Done (ResCount (if bool_decide (w = []) then 1 else 0), w)
  | OpClear => Done (ResUnit, [])
  end.

(** [new] gives an address of no node; an iterator points into the map, or behind
    it where that is allowed. *)
Definition fresh m a : Prop := nodes m a = None /\ a <> 0 /\ is_word 64 a.
Definition op_fits m w (op : map_op) : Prop :=
  match op with
  | OpInsert a _ _ | OpEmplace a _ _ | OpSubscript a _ => fresh m a
  | OpWrite a _ | OpEraseAt a => a ∈ addr <$> w
  | OpNext a | OpPrev a => a = 0 \/ a ∈ addr <$> w
  | _ => True
  end.

Fixpoint run_ops self (ops : list map_op) m : outcome (list map_result * Memory K V) :=
  match ops with
  | [] => Done ([], m)
  | op :: ops => do (r, m) <- run_op self op m; do (rs, m) <- run_ops self ops m; Done (r :: rs, m)
  end.
Fixpoint spec_ops (ops : list map_op) w : outcome (list map_result * list (entry K V)) :=
  match ops with
  | [] => Done ([], w)
  | op :: ops => do (r, w) <- spec_op op w; do (rs, w) <- spec_ops ops w; Done (r :: rs, w)
  end.
Fixpoint ops_fit self (ops : list map_op) m w : Prop :=
  match ops with
  | [] => True
  | op :: ops => op_fits m w op /\
      forall r m' r' w', run_op self op m = Done (r, m') -> spec_op op w = Done (r', w') -> ops_fit self ops m' w'
  end.

End stlmap.
Arguments map_op : clear implicits.
Arguments map_result : clear implicits.
