(* ===== verification/StlMapThm.v ===== *)
(** * [std::map]: each operation keeps its promise *)

From stdpp Require Import sorting.
From S2P Require Import Prelude SplayTree SplayRot SplayOps SplayIns SplayDel StlMap.

Section thm.
Context {K V : Type} (iv_comp : K -> K -> bool) `{!StrictWeak iv_comp} .
Implicit Types (m : Memory K V) (self a : Z) (k : K) (v : V) (e : entry K V) (w lo hi : list (entry K V)) (t : tree K V).

(** The map at [self] has the entries [w], in the order of their keys. *)
Definition map_ok m self w : Prop := exists t, tree_ok m self t /\ walk LEFT t = w /\ ordered iv_comp w.

(** ** Lists split at a key *)

Lemma find_skip (f : entry K V -> bool) w w' : Forall (fun e => f e = false) w -> List.find f (w ++ w') = List.find f w'.
Proof. induction 1 as [|e w He Hw IH]; [done|]. cbn. by rewrite He. Qed.

Lemma filter_all (f : entry K V -> bool) w : Forall (fun e => f e = true) w -> List.filter f w = w.
Proof. induction 1 as [|e w He Hw IH]; [done|]. cbn. by rewrite He, IH. Qed.

Lemma filter_nothing (f : entry K V -> bool) w : Forall (fun e => f e = false) w -> List.filter f w = [].
Proof. induction 1 as [|e w He Hw IH]; [done|]. cbn. by rewrite He. Qed.

Lemma sw_asym k1 k2 : iv_comp k1 k2 = true -> iv_comp k2 k1 = false.
Proof. intros H. destruct (iv_comp k2 k1) eqn:E; [|done]. pose proof (sw_trans _ _ _ H E) as Ht. by rewrite sw_irrefl in Ht. Qed.

Lemma under_compare k w : under iv_comp k w -> Forall (fun e => compare iv_comp k (ekey e) =? 0 = false) w.
Proof. intros H. eapply Forall_impl; [exact H|]. intros e He. cbn in He. unfold compare. by rewrite (sw_asym _ _ He), He. Qed.

Lemma over_compare k w : over iv_comp k w -> Forall (fun e => compare iv_comp k (ekey e) =? 0 = false) w.
Proof. intros H. eapply Forall_impl; [exact H|]. intros e He. cbn in He. unfold compare. by rewrite He. Qed.

Lemma under_above k w : under iv_comp k w -> Forall (fun e => iv_comp k (ekey e) = false) w.
Proof. intros H. eapply Forall_impl; [exact H|]. intros e. apply sw_asym. Qed.

Lemma over_below k w : over iv_comp k w -> Forall (fun e => iv_comp (ekey e) k = false) w.
Proof. intros H. eapply Forall_impl; [exact H|]. intros e. apply sw_asym. Qed.

Lemma spec_find_some k lo e hi : under iv_comp k lo -> compare iv_comp k (ekey e) = 0 -> spec_find iv_comp k (lo ++ e :: hi) = Some e.
Proof. intros Hl He. unfold spec_find. rewrite find_skip by by apply under_compare. cbn. by rewrite He. Qed.

Lemma spec_find_none k lo hi : under iv_comp k lo -> over iv_comp k hi -> spec_find iv_comp k (lo ++ hi) = None.
Proof. intros Hl Hh. unfold spec_find. rewrite find_skip by by apply under_compare. by rewrite <-(app_nil_r hi), find_skip by by apply over_compare. Qed.

Lemma lower_first k hi : Forall (fun e => iv_comp (ekey e) k = false) hi -> spec_lower iv_comp k hi = head hi.
Proof. intros H. destruct H as [|e hi He Hh]; [done|]. unfold spec_lower. cbn. by rewrite He. Qed.

Lemma spec_lower_split k lo hi : under iv_comp k lo -> Forall (fun e => iv_comp (ekey e) k = false) hi ->
  spec_lower iv_comp k (lo ++ hi) = head hi.
Proof.
  intros Hl Hh. unfold spec_lower. rewrite find_skip; [by apply lower_first|]. eapply Forall_impl; [exact Hl|]. intros e He. cbn in He. by rewrite He.
Qed.

Lemma spec_upper_split k lo hi : Forall (fun e => iv_comp k (ekey e) = false) lo -> over iv_comp k hi ->
  spec_upper iv_comp k (lo ++ hi) = head hi.
Proof. intros Hl Hh. unfold spec_upper. rewrite find_skip by done. destruct Hh as [|e hi He Hh]; [done|]. cbn. by rewrite He. Qed.

Lemma spec_erase_split k lo e hi : under iv_comp k lo -> over iv_comp k hi -> compare iv_comp k (ekey e) = 0 ->
  spec_erase iv_comp k (lo ++ e :: hi) = lo ++ hi.
Proof.
  intros Hl Hh He. unfold spec_erase. rewrite List.filter_app. cbn. rewrite He. cbn. rewrite !filter_all; [done|..].
  - eapply Forall_impl; [by apply over_compare|]. cbn. intros x Hx. by rewrite Hx.
  - eapply Forall_impl; [by apply under_compare|]. cbn. intros x Hx. by rewrite Hx.
Qed.

Lemma spec_erase_none k lo hi : under iv_comp k lo -> over iv_comp k hi -> spec_erase iv_comp k (lo ++ hi) = lo ++ hi.
Proof.
  intros Hl Hh. apply filter_all, Forall_app. split; [eapply Forall_impl; [by apply under_compare|]|eapply Forall_impl; [by apply over_compare|]];
    cbn; intros x Hx; by rewrite Hx.
Qed.

Lemma spec_put_split e lo hi : under iv_comp (ekey e) lo -> over iv_comp (ekey e) hi -> spec_put iv_comp e (lo ++ hi) = lo ++ e :: hi.
Proof.
  intros Hl Hh. unfold spec_put. rewrite !List.filter_app, (filter_all _ lo Hl), (filter_all _ hi Hh).
  rewrite (filter_nothing _ hi) by by apply over_below. rewrite (filter_nothing _ lo) by by apply under_above. by rewrite app_nil_r.
Qed.

Lemma node_head w : node_of (head w) = first_of w.
Proof. by destruct w. Qed.

Lemma in_split a w : a ∈ addr <$> w -> exists lo e hi, w = lo ++ e :: hi /\ addr e = a.
Proof. intros (e & -> & (lo & hi & ->)%list_elem_of_split)%list_elem_of_fmap. by exists lo, e, hi. Qed.

Lemma spec_behind_split lo e hi : NoDup (addr <$> lo ++ e :: hi) -> spec_behind (addr e) (lo ++ e :: hi) = hi.
Proof.
  induction lo as [|f lo IH]; cbn; intros N; [by rewrite Z.eqb_refl|]. apply NoDup_cons in N as [Hf N].
  rewrite (proj2 (Z.eqb_neq (addr f) _)); [by apply IH|]. intros Ee. apply Hf. rewrite Ee, fmap_app, elem_of_app. right. cbn. by left.
Qed.

Lemma spec_drop_split lo e hi : NoDup (addr <$> lo ++ e :: hi) -> spec_drop (addr e) (lo ++ e :: hi) = lo ++ hi.
Proof.
  rewrite fmap_app. cbn. intros (_ & N1 & [N2 _]%NoDup_cons)%NoDup_app. unfold spec_drop. rewrite List.filter_app. cbn. rewrite Z.eqb_refl. cbn.
  rewrite !filter_all; [done|..]; apply Forall_forall; intros f Hf; apply negb_true_iff, Z.eqb_neq; intros Ee.
  - apply N2. rewrite <-Ee. by apply list_elem_of_fmap_2.
  - apply (N1 (addr f)); [by apply list_elem_of_fmap_2|]. rewrite Ee. by left.
Qed.

(** ** Places in the map *)

Lemma map_nodup m self w : map_ok m self w -> NoDup (addr <$> w).
Proof. intros (t & Hk & <- & _). by apply (walk_nodup m self), tk_stored. Qed.

Lemma tree_empty m self t : tree_ok m self t -> (hd_root (header m self) =? 0) = bool_decide (walk LEFT t = []).
Proof.
  intros [[R L _] _ _ _]. rewrite R. destruct (root t =? 0) eqn:E0; b2p.
  - by rewrite (root_null _ _ _ L E0).
  - symmetry. apply bool_decide_eq_false_2. intros Hw. apply E0. by rewrite (walk_nil _ _ Hw).
Qed.

(** A search brings what it found to the root and keeps the entries. *)
Lemma map_hint m self w k hint : map_ok m self w -> w <> [] ->
  exists m' found a, find_hint iv_comp self (Some k) hint m = Done (found, a, m') /\ map_ok m' self w /\ only (addr <$> w) self m m' /\
    located iv_comp k w found a.
Proof.
  intros (t & Hk & <- & O) Hw. destruct (find_hint_ok iv_comp m self t k hint Hk O) as (m' & t' & found & a & E & Hk' & _ & Hb & R & Hl); [by intros ->|].
  exists m', found, a. split_and!; [done| | |done].
  - exists t'. by rewrite Hb.
  - apply only_relinked in R. exact R.
Qed.

Lemma map_hint_empty m self k hint : map_ok m self [] -> find_hint iv_comp self (Some k) hint m = Done (false, hint, m).
Proof. intros (t & Hk & Hw & _). unfold find_hint. rewrite (tree_empty _ _ _ Hk), Hw. done. Qed.

Lemma map_entry m self w lo e hi : map_ok m self w -> w = lo ++ e :: hi -> addr e <> 0 /\
  exists x, load m (addr e) = Done x /\ nodes m (addr e) = Some x /\ data x = e.2.
Proof.
  intros (t & Hk & <- & _) Hw. destruct (zip_at _ _ _ LEFT _ _ _ (tk_stored _ _ _ Hk) Hw) as (c & x & y & _ & Zp & _).
  pose proof (zp_linked _ _ _ _ Zp) as [H _]. split; [apply (ho_null _ _ _ _ _ H)|].
  eexists. split; [apply (load_holds _ _ _ _ _ H)|]. split; [apply (ho_node _ _ _ _ _ H)|done].
Qed.

Lemma map_step m self w (d : bool) lo e hi : map_ok m self w -> (if d then reverse w else w) = lo ++ e :: hi ->
  neighbour (depth m self) d m (addr e) = Done (first_of hi).
Proof.
  intros (t & Hk & <- & _) Hw. apply (neighbour_ok _ _ self t d lo e hi); [by apply tk_stored| |].
  - rewrite <-Hw. destruct d; [|done]. change true with (negb LEFT). by rewrite walk_flip.
  - unfold depth. rewrite (tk_size _ _ _ Hk). lia.
Qed.

Lemma map_insert_ok m self w a k v : map_ok m self w -> nodes m a = Some (mkNode 0 0 0 (k, v)) -> a <> 0 -> is_word 64 a ->
  a ∉ addr <$> w -> spec_find iv_comp k w = None ->
  exists m', insert iv_comp self a m = Done m' /\ map_ok m' self (spec_put iv_comp (a, (k, v)) w) /\ only (a :: (addr <$> w)) self m m'.
Proof.
  intros (t & Hk & <- & O) Ha A0 Wa Hn Hf.
  destruct (insert_ok iv_comp m self t a (k, v) Hk O Ha A0 Wa Hn) as (m' & E & t' & lo & hi & Hk' & Hw & Hw' & Hu & Ho & Hon).
  { apply Forall_forall. intros e He Hc. unfold spec_find in Hf. pose proof (List.find_none _ _ Hf e) as Hx.
    cbn in Hc, Hx. rewrite Hc in Hx. apply list_elem_of_In in He. by specialize (Hx He). }
  exists m'. split_and!; [done| |done]. exists t'. split_and!; [done|rewrite Hw', Hw; symmetry; by apply (spec_put_split (a, (k, v)))|].
  rewrite Hw. rewrite (spec_put_split (a, (k, v))) by done. unfold ordered in O. rewrite Hw in O. apply StronglySorted_app in O as (O1 & O2 & O3).
  apply StronglySorted_app. split_and!; [|done|by apply StronglySorted_cons].
  intros x y Hx Hy. apply elem_of_cons in Hy as [->|Hy]; [|by apply O1]. cbn. unfold under in Hu. rewrite Forall_forall in Hu. by apply Hu.
Qed.

(** ** Nodes outside the map *)

Lemma map_ok_ext m m' self w : map_ok m self w -> (forall a, a ∈ addr <$> w -> nodes m' a = nodes m a) -> header m' self = header m self ->
  map_ok m' self w.
Proof.
  intros (t & [[R L N] En Sz W] & <- & O) Hn Hh. exists t. split_and!; [split; [split|..]|done..]; rewrite ?Hh; try done.
  eapply linked_ext; [exact L|]. intros a Ha. by apply Hn.
Qed.

Lemma map_ok_store m self w a x : map_ok m self w -> a ∉ addr <$> w -> map_ok (store a x m) self w.
Proof. intros H Hn. apply (map_ok_ext m); [done| |done]. intros b Hb. cbn. rewrite upd_ne; [done|]. by intros ->. Qed.

Lemma fresh_out m self w a : map_ok m self w -> nodes m a = None -> a ∉ addr <$> w.
Proof.
  intros H Ha Hi. destruct (in_split _ _ Hi) as (lo & e & hi & Hw & <-). destruct (map_entry _ _ _ _ _ _ H Hw) as (_ & x & _ & Hx & _). congruence.
Qed.

Lemma only_store l self m a x : a ∈ l -> only l self m (store a x m).
Proof. intros Ha. split; [|done]. intros b Hb. cbn. rewrite upd_ne; [done|]. by intros ->. Qed.

(** ** Operations *)

Lemma find_ok m self w k : map_ok m self w ->
  exists m', find_by_value iv_comp self k m = Done (node_of (spec_find iv_comp k w), m') /\ map_ok m' self w /\ only (addr <$> w) self m m'.
Proof.
  intros H. unfold find_by_value. destruct (decide (w = [])) as [->|Hw].
  { rewrite (map_hint_empty _ _ _ _ H). exists m. by split_and!. }
  destruct (map_hint m self w k 0 H Hw) as (m' & found & a & -> & H' & Hon & lo & hi & Hu & Ho & Hl). cbn [obind]. exists m'.
  destruct found; [destruct Hl as (e & -> & <- & He); by rewrite spec_find_some|destruct Hl as (-> & _); by rewrite spec_find_none].
Qed.

Lemma count_ok m self w k : map_ok m self w ->
  exists m', map_count iv_comp self k m = Done (match spec_find iv_comp k w with Some _ => 1 | None => 0 end, m') /\ map_ok m' self w /\
    only (addr <$> w) self m m'.
Proof.
  intros H. unfold map_count. destruct (decide (w = [])) as [->|Hw].
  { rewrite (map_hint_empty _ _ _ _ H). exists m. by split_and!. }
  destruct (map_hint m self w k 0 H Hw) as (m' & found & a & -> & H' & Hon & lo & hi & Hu & Ho & Hl). cbn [obind]. exists m'.
  destruct found; [destruct Hl as (e & -> & <- & He); by rewrite spec_find_some|destruct Hl as (-> & _); by rewrite spec_find_none].
Qed.

(** The node after that of an entry, as [successor] gives it. *)
Lemma map_successor m self w lo e hi : map_ok m self w -> w = lo ++ e :: hi -> successor self m (addr e) = Done (first_of hi).
Proof. intros H Hw. by apply (map_step m self w LEFT lo). Qed.

Lemma map_key m self w lo e hi : map_ok m self w -> w = lo ++ e :: hi -> get_key m (addr e) = Done (ekey e).
Proof. intros H Hw. destruct (map_entry _ _ _ _ _ _ H Hw) as (_ & x & Hx & _ & Hd). unfold get_key. rewrite Hx. cbn. by rewrite Hd. Qed.

(** The search stops at [a] beside the place of [k]: the step that finds the next entry. *)
Lemma bound_step m self w k lo hi a : map_ok m self w -> w = lo ++ hi -> under iv_comp k lo -> over iv_comp k hi ->
  ((exists e lo', lo = lo' ++ [e] /\ addr e = a) \/ (exists e hi', hi = e :: hi' /\ addr e = a)) ->
  (if a =? 0 then Done (a, m)
   else do kn <- get_key m a; if -1 =? compare iv_comp kn k then do s <- successor self m a; Done (s, m) else Done (a, m)) = Done (first_of hi, m).
Proof.
  intros H -> Hu Ho [(e & lo' & -> & <-)|(e & hi' & -> & <-)].
  - assert (Hw : (lo' ++ [e]) ++ hi = lo' ++ e :: hi) by by rewrite <-app_assoc. destruct (map_entry _ _ _ _ _ _ H Hw) as (A0 & _).
    rewrite (proj2 (Z.eqb_neq _ _) A0), (map_key _ _ _ _ _ _ H Hw). cbn [obind]. apply Forall_app in Hu as [_ Hu]. apply Forall_cons in Hu as [Hu _]. cbn in Hu.
    unfold compare. rewrite Hu. cbn. by rewrite (map_successor _ _ _ _ _ _ H Hw).
  - destruct (map_entry _ _ _ _ _ _ H eq_refl) as (A0 & _). rewrite (proj2 (Z.eqb_neq _ _) A0), (map_key _ _ _ _ _ _ H eq_refl). cbn [obind].
    apply Forall_cons in Ho as [Ho _]. cbn in Ho. unfold compare. by rewrite (sw_asym _ _ Ho), Ho.
Qed.

Lemma lower_ok m self w k : map_ok m self w ->
  exists m', lower_bound_by_value iv_comp self k m = Done (node_of (spec_lower iv_comp k w), m') /\ map_ok m' self w /\ only (addr <$> w) self m m'.
Proof.
  intros H. unfold lower_bound_by_value. destruct (decide (w = [])) as [->|Hw].
  { rewrite (map_hint_empty _ _ _ _ H). exists m. by split_and!. }
  destruct (map_hint m self w k 0 H Hw) as (m' & found & a & -> & H' & Hon & lo & hi & Hu & Ho & Hl). cbn [obind]. exists m'. split; [|done].
  destruct found; cbn [orb].
  - destruct Hl as (e & -> & <- & He). apply compare_zero in He as [C1 C2].
    rewrite spec_lower_split; [done|done|]. apply Forall_cons. split; [done|by apply over_below].
  - destruct Hl as (E & Hl). rewrite (bound_step m' self w k lo hi a H' E Hu Ho Hl). by rewrite E, spec_lower_split, node_head; [|done|apply over_below].
Qed.

(** The tree's upper bound is the first entry with a greater key. *)
Lemma upper_ok m self w k : map_ok m self w ->
  exists m', upper_bound_by_value iv_comp self k m = Done (node_of (spec_upper iv_comp k w), m') /\ map_ok m' self w /\ only (addr <$> w) self m m'.
Proof.
  intros H. unfold upper_bound_by_value. destruct (decide (w = [])) as [->|Hw].
  { rewrite (map_hint_empty _ _ _ _ H). exists m. by split_and!. }
  destruct (map_hint m self w k 0 H Hw) as (m' & found & a & -> & H' & Hon & lo & hi & Hu & Ho & Hl). cbn [obind]. exists m'. split; [|done].
  destruct found.
  - destruct Hl as (e & -> & <- & He). rewrite (map_successor _ _ _ _ _ _ H' eq_refl). cbn [obind]. apply compare_zero in He as [C1 C2].
    assert (Ea : lo ++ e :: hi = (lo ++ [e]) ++ hi) by by rewrite <-app_assoc. rewrite Ea, spec_upper_split, node_head; [done| |done].
    apply Forall_app. split; [by apply under_above|by apply Forall_singleton].
  - destruct Hl as (E & Hl). pose proof (bound_step m' self w k lo hi a H' E Hu Ho Hl) as Hb.
    rewrite E, spec_upper_split, node_head; [|by apply under_above|done]. destruct (a =? 0) eqn:A0; [|exact Hb]. b2p. by rewrite A0 in Hb.
Qed.

(** A new node beside the map, and its insertion. *)
Lemma map_new m self w a k v : map_ok m self w -> nodes m a = None -> map_ok (new_node a (k, v) m) self w /\
  nodes (new_node a (k, v) m) a = Some (mkNode 0 0 0 (k, v)).
Proof. intros H Ha. split; [apply map_ok_store; [done|by eapply fresh_out]|cbn; apply upd_eq]. Qed.

Lemma only_cons a (l : list Z) self m m' : only l self m m' -> only (a :: l) self m m'.
Proof. apply only_sub. intros b Hb. by right. Qed.

Lemma only_none m m' self w a : map_ok m self w -> only (addr <$> w) self m m' -> nodes m a = None -> nodes m' a = None.
Proof. intros H [Ho _] Ha. rewrite Ho; [done|]. by eapply fresh_out. Qed.

Lemma insert_value_ok m self w a k v : map_ok m self w -> fresh m a ->
  exists m', map_insert iv_comp self a k v m = Done ((spec_insert iv_comp a k v w).1, m') /\ map_ok m' self (spec_insert iv_comp a k v w).2 /\
    only (a :: (addr <$> w)) self m m'.
Proof.
  intros H (Ha & A0 & Wa). destruct (find_ok m self w k H) as (m1 & E1 & H1 & O1). unfold map_insert, insert_by_value, spec_insert.
  cbn [fst]. rewrite E1. cbn [obind]. destruct (spec_find iv_comp k w) as [e|] eqn:Ef; cbn [node_of].
  - apply List.find_some in Ef as [Hi%list_elem_of_In _]. apply list_elem_of_split in Hi as (lo & hi & Hw).
    destruct (map_entry _ _ _ _ _ _ H Hw) as (E0 & _). rewrite (proj2 (Z.eqb_neq _ _) E0). cbn [negb obind].
    exists m1. split_and!; [done..|by apply only_cons].
  - cbn [Z.eqb negb]. destruct (map_new m1 self w a k v H1) as [H2 Hn]; [by apply (only_none m m1 self w)|].
    destruct (map_insert_ok _ self w a k v H2 Hn A0 Wa) as (m' & -> & H' & O'); [by apply (fresh_out m self)|done|]. cbn [obind]. exists m'. split_and!; [done..|].
    eapply only_chain; [by apply only_cons|]. eapply only_chain; [|exact O']. apply only_store. by left.
Qed.

Lemma emplace_ok m self w a k v : map_ok m self w -> fresh m a ->
  exists m', map_emplace iv_comp self a k v m = Done ((spec_insert iv_comp a k v w).1, m') /\ map_ok m' self (spec_insert iv_comp a k v w).2 /\
    only (a :: (addr <$> w)) self m m'.
Proof.
  intros H (Ha & A0 & Wa). destruct (map_new m self w a k v H Ha) as [H1 Hn]. pose proof (fresh_out _ _ _ _ H Ha) as Hout.
  assert (O1 : only (a :: (addr <$> w)) self m (new_node a (k, v) m)) by (apply only_store; by left).
  unfold map_emplace, spec_insert. destruct (decide (w = [])) as [->|Hw].
  - rewrite (map_hint_empty _ _ _ _ H1). cbn [obind negb].
    destruct (map_insert_ok _ self [] a k v H1 Hn A0 Wa) as (m' & -> & H' & O'); [done..|]. cbn [obind]. exists m'. split_and!; [done..|]. by eapply only_chain.
  - destruct (map_hint _ self w k 0 H1 Hw) as (m2 & found & b & -> & H2 & O2 & lo & hi & Hu & Ho & Hl). cbn [obind].
    assert (Hn2 : nodes m2 a = Some (mkNode 0 0 0 (k, v))) by (destruct O2 as [O2 _]; by rewrite O2).
    assert (O3 : only (a :: (addr <$> w)) self m m2) by (eapply only_chain; [exact O1|by apply only_cons]).
    destruct found; cbn [negb].
    + destruct Hl as (e & Ew & <- & He). assert (Ef : spec_find iv_comp k w = Some e) by (rewrite Ew; by apply spec_find_some). rewrite Ef. cbn [fst snd]. exists (store a None m2). split_and!; [done| |].
      * by apply map_ok_store.
      * eapply only_chain; [exact O3|]. apply only_store. by left.
    + destruct Hl as (Ew & _). assert (Ef : spec_find iv_comp k w = None) by (rewrite Ew; by apply spec_find_none). rewrite Ef. cbn [fst snd].
      destruct (map_insert_ok m2 self w a k v H2 Hn2 A0 Wa Hout Ef) as (m' & -> & H' & O'). cbn [obind]. exists m'. split_and!; [done..|]. by eapply only_chain.
Qed.

(** ** Removal *)

Lemma ordered_drop lo e hi : ordered iv_comp (lo ++ e :: hi) -> ordered iv_comp (lo ++ hi).
Proof.
  unfold ordered. rewrite !StronglySorted_app, StronglySorted_cons. intros (H1 & H2 & _ & H3). split_and!; [|done..].
  intros x y Hx Hy. apply H1; [done|by right].
Qed.

Lemma map_remove m self w lo e hi : map_ok m self w -> w = lo ++ e :: hi ->
  exists m', remove self (addr e) m = Done m' /\ map_ok (store (addr e) None m') self (lo ++ hi) /\ only (addr <$> w) self m (store (addr e) None m').
Proof.
  intros H Hw. pose proof (map_nodup _ _ _ H) as N. destruct H as (t & Hk & Ht & O).
  destruct (remove_ok m self t lo hi e Hk) as (m' & t' & Er & Hk' & Hw' & Ho); [by rewrite Ht|]. exists m'. split; [done|].
  assert (H' : map_ok m' self (lo ++ hi)) by (exists t'; split_and!; [done..|]; rewrite Hw in O; by eapply ordered_drop).
  rewrite Hw, fmap_app in N. cbn in N. rewrite <-Permutation_middle in N. apply NoDup_cons in N as [N _]. split.
  - apply map_ok_store; [done|]. by rewrite fmap_app.
  - assert (Ha : adds t = addr <$> w) by (unfold adds; by rewrite Ht). rewrite Ha in Ho. eapply only_chain; [exact Ho|]. apply only_store.
    rewrite Hw, fmap_app, elem_of_app. right. by left.
Qed.

Lemma erase_ok m self w k : map_ok m self w ->
  exists m', map_erase iv_comp self k m = Done (match spec_find iv_comp k w with Some _ => 1 | None => 0 end, m') /\
    map_ok m' self (spec_erase iv_comp k w) /\ only (addr <$> w) self m m'.
Proof.
  intros H. pose proof H as (t & Hk & Ht & O). unfold map_erase, remove_by_value. rewrite (tree_empty _ _ _ Hk), Ht.
  destruct (decide (w = [])) as [->|Hw]; [by exists m|]. rewrite bool_decide_eq_false_2 by done.
  destruct (find_rec_located iv_comp m self t k Hk) as (found & a & Ef & Hl); [by rewrite Ht|intros ->; by apply Hw|]. rewrite Ht in Hl.
  destruct Hl as (lo & hi & Hu & Ho & Hl). rewrite Ef. cbn [obind]. destruct found.
  - destruct Hl as (e & Ew & <- & He). destruct (map_remove _ _ _ _ _ _ H Ew) as (m' & -> & H' & O'). cbn [obind].
    exists (store (addr e) None m'). rewrite Ew in O' |- *. by rewrite spec_find_some, spec_erase_split.
  - destruct Hl as (Ew & _). exists m. rewrite Ew in H |- *. by rewrite spec_find_none, spec_erase_none.
Qed.

Lemma erase_at_ok m self w a : map_ok m self w -> a ∈ addr <$> w ->
  exists m', map_erase_at self a m = Done m' /\ map_ok m' self (spec_drop a w) /\ only (addr <$> w) self m m'.
Proof.
  intros H Ha. destruct (in_split _ _ Ha) as (lo & e & hi & Hw & <-). destruct (map_remove _ _ _ _ _ _ H Hw) as (m' & E & H' & O').
  exists (store (addr e) None m'). unfold map_erase_at. rewrite E. split_and!; [done| |done]. rewrite Hw, spec_drop_split; [done|].
  rewrite <-Hw. by eapply map_nodup.
Qed.

Lemma clear_loop_ok w : forall fuel m self, map_ok m self w -> (length w < fuel)%nat ->
  exists m', clear_loop fuel self (first_of w) m = Done m' /\ map_ok m' self [] /\ only (addr <$> w) self m m'.
Proof.
  induction w as [|e w IH]; intros fuel m self H Hf; (destruct fuel as [|fuel]; [lia|]); [by exists m|]. cbn [clear_loop first_of].
  destruct (map_entry m self _ [] e w H eq_refl) as (E0 & _). rewrite (proj2 (Z.eqb_neq _ _) E0).
  rewrite (map_successor m self _ [] e w H eq_refl). cbn [obind].
  destruct (map_remove m self _ [] e w H eq_refl) as (m1 & -> & H1 & O1). cbn [obind]. cbn in Hf, H1.
  destruct (IH fuel _ self H1 ltac:(lia)) as (m' & E' & H' & O'). exists m'. split_and!; [done..|].
  eapply only_chain; [exact O1|]. cbn. by apply only_cons.
Qed.

Lemma map_size m self w : map_ok m self w -> hd_size (header m self) = Z.of_nat (length w).
Proof. intros (t & [_ _ Sz _] & <- & _). by rewrite Sz, length_walk. Qed.

Lemma map_clear_ok m self w : map_ok m self w -> exists m', clear self m = Done m' /\ map_ok m' self [] /\ only (addr <$> w) self m m'.
Proof.
  intros H. unfold clear, front, depth. rewrite (map_size _ _ _ H). pose proof H as (t & [_ En _ _] & <- & _).
  change (hd_left (header m self)) with (hd_child (header m self) LEFT). rewrite En. apply clear_loop_ok; [done|lia].
Qed.

(** ** Writing a value *)

Fixpoint relabel (f : entry K V -> entry K V) t : tree K V :=
  match t with E => E | T l e r => T (relabel f l) (f e) (relabel f r) end.

Definition write_entry a v e : entry K V := if addr e =? a then (a, (ekey e, v)) else e.

Lemma write_addr a v e : addr (write_entry a v e) = addr e.
Proof. unfold write_entry. destruct (addr e =? a) eqn:Ea; [|done]. by b2p. Qed.

Lemma write_key a v e : ekey (write_entry a v e) = ekey e.
Proof. unfold write_entry. by destruct (addr e =? a). Qed.

Lemma walk_relabel f d t : walk d (relabel f t) = f <$> walk d t.
Proof. induction t as [|l IHl e r IHr]; [done|]. destruct d; cbn; by rewrite IHl, IHr, fmap_app. Qed.

Lemma root_relabel a v t : root (relabel (write_entry a v) t) = root t.
Proof. destruct t; [done|]. apply write_addr. Qed.

Lemma addr_write a v w : addr <$> spec_write a v w = addr <$> w.
Proof. unfold spec_write. rewrite <-list_fmap_compose. apply list_fmap_ext. intros i e _. apply write_addr. Qed.

Lemma linked_relabel m m' a v t : forall q, linked m q t ->
  (forall g, nodes m' g = if g =? a then (fun x => mkNode (parent x) (child_left x) (child_right x) ((data x).1, v)) <$> nodes m g else nodes m g) ->
  linked m' q (relabel (write_entry a v) t).
Proof.
  induction t as [|l IHl e r IHr]; intros q L Hm; [done|]. destruct L as ([H1 H2] & Ll & Lr). cbn. rewrite write_addr.
  split_and!; [split; rewrite ?write_addr, ?root_relabel; [done|]|by apply IHl|by apply IHr]. rewrite Hm, H2.
  unfold write_entry. by destruct (addr e =? a).
Qed.

Lemma ordered_write a v w : ordered iv_comp w -> ordered iv_comp (spec_write a v w).
Proof.
  unfold ordered. induction 1 as [|e w Hw IH He]; [constructor|]. cbn. apply StronglySorted_cons. split; [|done].
  apply Forall_fmap. eapply Forall_impl; [exact He|]. intros x Hx.
  change (iv_comp (ekey (write_entry a v e)) (ekey (write_entry a v x)) = true). by rewrite !write_key.
Qed.

Lemma map_write_ok m self w a v : map_ok m self w -> a ∈ addr <$> w ->
  exists m', map_write a v m = Done m' /\ map_ok m' self (spec_write a v w) /\ only (addr <$> w) self m m'.
Proof.
  intros H Ha. destruct (in_split _ _ Ha) as (lo & e & hi & Hw & He). destruct (map_entry _ _ _ _ _ _ H Hw) as (A0 & x & Hl & Hx & Hd).
  rewrite He in *. unfold map_write. rewrite Hl. cbn [obind]. eexists. split; [reflexivity|]. split; [|by apply only_store].
  destruct H as (t & [[R L N] En Sz W] & Ht & O). exists (relabel (write_entry a v) t).
  assert (Had : adds (relabel (write_entry a v) t) = adds t).
  { unfold adds. rewrite walk_relabel, Ht. apply addr_write. }
  split_and!; [split; [split|..]| |].
  - cbn. by rewrite root_relabel.
  - apply (linked_relabel m); [done|]. intros g. cbn. unfold upd. destruct (g =? a) eqn:Eg; [|done]. b2p. by rewrite Eg, Hx.
  - by rewrite Had.
  - intros d. cbn. rewrite walk_relabel, En. destruct (walk d t) as [|f l]; [done|]. cbn. by rewrite write_addr.
  - cbn. by rewrite Had.
  - by rewrite Had.
  - by rewrite walk_relabel, Ht.
  - by apply ordered_write.
Qed.

(** ** Iteration *)

Lemma map_end m self w (d : bool) : map_ok m self w -> hd_child (header m self) d = first_of (if d then reverse w else w).
Proof.
  intros (t & [_ En _ _] & <- & _). rewrite En. destruct d; [|done]. change true with (negb LEFT). by rewrite walk_flip.
Qed.

Lemma iterate_ok m self w (d : bool) a : map_ok m self w -> a = 0 \/ a ∈ addr <$> w ->
  (if a =? 0 then Done (hd_child (header m self) d) else neighbour (depth m self) d m a) =
  Done (first_of (if a =? 0 then if d then reverse w else w else spec_behind a (if d then reverse w else w))).
Proof.
  intros H Ha. destruct (a =? 0) eqn:E0; b2p; [by rewrite (map_end _ _ w)|]. destruct Ha as [|Ha]; [done|].
  assert (Hd : a ∈ addr <$> (if d then reverse w else w)) by (destruct d; [|done]; by rewrite reverse_Permutation).
  destruct (in_split _ _ Hd) as (lo & e & hi & Hw & <-). rewrite (map_step _ _ _ _ _ _ _ H Hw), Hw, spec_behind_split; [done|].
  rewrite <-Hw. apply map_nodup in H. destruct d; [|done]. by rewrite reverse_Permutation.
Qed.

(** ** Every operation *)

(** The address [new] gives in an operation. *)
Definition op_new (op : map_op K V) : list Z := match op with OpInsert a _ _ | OpEmplace a _ _ | OpSubscript a _ => [a] | _ => [] end.

Context (v0 : V).

Lemma op_ok m self w op : map_ok m self w -> op_fits m w op ->
  match spec_op iv_comp v0 op w with
  | Done (r, w') => exists m', run_op iv_comp v0 self op m = Done (r, m') /\ map_ok m' self w' /\ only (op_new op ++ (addr <$> w)) self m m'
  | Crash f => run_op iv_comp v0 self op m = Crash f
  end.
Proof.
  intros H Hf. destruct op as [a k v|a k v|a k|a v|k|k|k|k|k|k|a| | |a|a| | |]; cbn [spec_op run_op op_fits op_new app] in *.
  - destruct (insert_value_ok m self w a k v H Hf) as (m' & E & H' & O'). rewrite E. destruct (spec_insert iv_comp a k v w) as [[n b] w'].
    cbn in *. by exists m'.
  - destruct (emplace_ok m self w a k v H Hf) as (m' & E & H' & O'). rewrite E. destruct (spec_insert iv_comp a k v w) as [[n b] w'].
    cbn in *. by exists m'.
  - destruct (insert_value_ok m self w a k v0 H Hf) as (m' & E & H' & O'). unfold map_subscript. rewrite E.
    destruct (spec_insert iv_comp a k v0 w) as [[n b] w']. cbn in *. by exists m'.
  - destruct (map_write_ok m self w a v H Hf) as (m' & -> & H' & O'). by exists m'.
  - destruct (find_ok m self w k H) as (m' & E & H' & O'). unfold map_find. rewrite E. by exists m'.
  - destruct (count_ok m self w k H) as (m' & -> & H' & O'). by exists m'.
  - destruct (lower_ok m self w k H) as (m' & E & H' & O'). unfold map_lower_bound. rewrite E. by exists m'.
  - destruct (lower_ok m self w k H) as (m' & E & H' & O'). unfold map_upper_bound. rewrite E. by exists m'.
  - destruct (lower_ok m self w k H) as (m' & E & H' & O'). unfold map_at, map_lower_bound. rewrite E. cbn [obind].
    destruct (spec_lower iv_comp k w) as [e|] eqn:El; [|done]. cbn [node_of]. apply List.find_some in El as [Hi%list_elem_of_In _].
    apply list_elem_of_split in Hi as (lo & hi & Hw). destruct (map_entry _ _ _ _ _ _ H' Hw) as (A0 & x & Hl & _ & Hd).
    rewrite (proj2 (Z.eqb_neq _ _) A0), Hl. cbn. rewrite Hd. by exists m'.
  - destruct (erase_ok m self w k H) as (m' & -> & H' & O'). by exists m'.
  - destruct (erase_at_ok m self w a H Hf) as (m' & -> & H' & O'). by exists m'.
  - unfold map_begin, front. pose proof (map_end m self w false H) as E. cbn in E. rewrite E. by exists m.
  - unfold map_rbegin, back. pose proof (map_end m self w true H) as E. cbn in E. rewrite E. by exists m.
  - pose proof (iterate_ok m self w false a H Hf) as E. cbn in E. unfold increment, successor, front, LEFT. rewrite E. by exists m.
  - pose proof (iterate_ok m self w true a H Hf) as E. cbn in E. unfold decrement, predecessor, back, RIGHT. rewrite E. by exists m.
  - unfold size. rewrite (map_size _ _ _ H). by exists m.
  - unfold empty, size. rewrite (map_size _ _ _ H). exists m. split; [|done]. do 3 f_equal. by destruct w.
  - destruct (map_clear_ok m self w H) as (m' & -> & H' & O'). by exists m'.
Qed.

(** Other maps that share no node are as they were. *)
Lemma step_others l m m' self other w : only l self m m' -> map_ok m other w -> other <> self -> (forall a, a ∈ addr <$> w -> a ∉ l) ->
  map_ok m' other w.
Proof. intros [On Oh] H Hne Hd. apply (map_ok_ext m); [done| |by apply Oh]. intros a Ha. by apply On, Hd. Qed.

Lemma runs_ok ops : forall m self w, map_ok m self w -> ops_fit iv_comp v0 self ops m w ->
  match spec_ops iv_comp v0 ops w with
  | Done (rs, w') => exists m', run_ops iv_comp v0 self ops m = Done (rs, m') /\ map_ok m' self w'
  | Crash f => run_ops iv_comp v0 self ops m = Crash f
  end.
Proof.
  induction ops as [|op ops IH]; intros m self w H Hf; [by exists m|]. destruct Hf as [Hf Hrest]. cbn [run_ops spec_ops].
  pose proof (op_ok m self w op H Hf) as Hs. destruct (spec_op iv_comp v0 op w) as [[r w1]|f] eqn:Es; [|by rewrite Hs].
  destruct Hs as (m1 & Er & H1 & _). rewrite Er. cbn [obind]. pose proof (IH m1 self w1 H1 (Hrest _ _ _ _ Er eq_refl)) as Hi.
  destruct (spec_ops iv_comp v0 ops w1) as [[rs w2]|f]; cbn [obind]; [|by rewrite Hi]. destruct Hi as (m2 & -> & H2). by exists m2.
Qed.

Lemma new_tree_ok m self : map_ok (new_tree self m) self [].
Proof. exists E. split_and!; [split; [split|..]|done|constructor]; cbn; rewrite ?upd_eq; try constructor. by intros []. Qed.

End thm.
