(* ===== verification/StlClaims.v ===== *)
(** * [std::map] and the splay tree: theorems *)

From stdpp Require Import sorting.
From S2P Require Import Prelude SplayTree SplayRot SplayOps SplayIns SplayDel StlMap StlMapThm.

Section claims.
Context {K V : Type} (iv_comp : K -> K -> bool) `{!StrictWeak iv_comp} (v0 : V).
Implicit Types (m : Memory K V) (self src a : Z) (k : K) (v : V) (e : entry K V) (w : list (entry K V)) (t : tree K V).

(** ** Whole maps *)

Lemma map_splay m self w e : map_ok iv_comp m self w -> e ∈ w ->
  exists m', splay self (addr e) m = Done m' /\ map_ok iv_comp m' self w /\ hd_root (header m' self) = addr e /\ only (addr <$> w) self m m'.
Proof.
  intros (t & Hk & Ht & O) (lo & hi & Hw)%list_elem_of_split. destruct (splay_node m self t lo e hi Hk) as (m' & t' & E & Hk' & Hr & Hb & R); [by rewrite Ht|].
  exists m'. split_and!; [done|exists t'; by rewrite Hb|by rewrite (sd_root _ _ _ (tk_stored _ _ _ Hk'))|].
  apply only_relinked in R. unfold adds in R. by rewrite Ht in R.
Qed.

(** An entry with a greater key than all others goes to the end. *)
Lemma append_ok m self w a k v : map_ok iv_comp m self w -> fresh m a -> under iv_comp k w ->
  exists m', insert iv_comp self a (new_node a (k, v) m) = Done m' /\ map_ok iv_comp m' self (w ++ [(a, (k, v))]) /\ only (a :: (addr <$> w)) self m m'.
Proof.
  intros H (Ha & A0 & Wa) Hu. destruct (map_new iv_comp m self w a k v H Ha) as [H1 Hn]. pose proof (fresh_out iv_comp _ _ _ _ H Ha) as Hout.
  assert (Ef : spec_find iv_comp k w = None) by (rewrite <-(app_nil_r w); apply (spec_find_none iv_comp k w []); [exact Hu|by apply Forall_nil]).
  destruct (map_insert_ok iv_comp _ self w a k v H1 Hn A0 Wa Hout Ef) as (m' & E & H' & O'). exists m'. split_and!; [done| |].
  - rewrite <-(app_nil_r w), (spec_put_split iv_comp (a, (k, v))) in H'; [done|done|by apply Forall_nil].
  - eapply only_chain; [|exact O']. apply only_store. by left.
Qed.

Definition copies (new : list Z) w : list (entry K V) := zip_with (fun a e => (a, e.2)) new w.

Definition apart w w' : Prop := forall a, a ∈ addr <$> w -> a ∉ addr <$> w'.

Lemma insert_range_ok src self (rest : list (entry K V)) : forall pre wd new m, self <> src ->
  map_ok iv_comp m src (pre ++ rest) -> map_ok iv_comp m self wd -> apart (pre ++ rest) wd ->
  (forall e e', e ∈ wd -> e' ∈ rest -> iv_comp (ekey e) (ekey e') = true) ->
  NoDup new -> Forall (fresh m) new -> length new = length rest ->
  exists m', insert_range iv_comp self src (first_of rest) 0 new m = Done m' /\ map_ok iv_comp m' self (wd ++ copies new rest) /\
    map_ok iv_comp m' src (pre ++ rest) /\ apart (pre ++ rest) (wd ++ copies new rest).
Proof.
  induction rest as [|e rest IH]; intros pre wd new m Hne Hs Hd Hap Hlt Nd Hf Hl.
  { exists m. cbn. destruct new; [|done]. rewrite !app_nil_r in *. done. }
  destruct new as [|a new]; [done|]. apply Forall_cons in Hf as [Ha Hf]. apply NoDup_cons in Nd as [Hn Nd].
  destruct (map_entry iv_comp m src _ pre e rest Hs eq_refl) as (E0 & x & Hx & _ & Hdx).
  cbn [insert_range first_of]. rewrite (proj2 (Z.eqb_neq _ _) E0), Hx. cbn [obind]. rewrite Hdx.
  destruct e as [b [k v]]. cbn [snd] in *.
  destruct (append_ok m self wd a k v Hd Ha) as (m1 & -> & H1 & O1).
  { apply Forall_forall. intros y Hy. apply (Hlt y (b, (k, v))); [done|by left]. }
  cbn [obind]. pose proof (fresh_out iv_comp m src _ a Hs (proj1 Ha)) as Has.
  assert (Hs1 : map_ok iv_comp m1 src (pre ++ (b, (k, v)) :: rest)).
  { apply (step_others iv_comp _ m m1 self src _ O1 Hs); [done|]. intros g Hg Hi. apply elem_of_cons in Hi as [->|Hi]; [done|]. by apply (Hap g). }
  rewrite (map_successor iv_comp m1 src _ pre (b, (k, v)) rest Hs1 eq_refl). cbn [obind].
  assert (Ea : pre ++ (b, (k, v)) :: rest = (pre ++ [(b, (k, v))]) ++ rest) by by rewrite <-app_assoc.
  destruct (IH (pre ++ [(b, (k, v))]) (wd ++ [(a, (k, v))]) new m1 Hne) as (m' & -> & Hm & Hm' & Hap'); [by rewrite <-Ea|done|..].
  - rewrite <-Ea. intros g Hg. rewrite fmap_app. cbn. rewrite not_elem_of_app. split; [by apply Hap|]. intros ->%list_elem_of_singleton. done.
  - intros y y' Hy Hy'. apply elem_of_app in Hy as [Hy| ->%list_elem_of_singleton]; [apply Hlt; [done|by right]|].
    destruct Hs as (_ & _ & _ & O). apply StronglySorted_app in O as (_ & _ & O). apply StronglySorted_cons in O as [O _].
    rewrite Forall_forall in O. by apply O.
  - done.
  - rewrite Forall_forall in Hf |- *. intros g Hg. destruct (Hf g Hg) as (G1 & G2 & G3). split_and!; [|done..].
    destruct O1 as [O1 _]. rewrite O1; [done|]. intros Hi. apply elem_of_cons in Hi as [->|Hi]; [done|].
    by apply (fresh_out iv_comp m self wd g Hd).
  - by injection Hl.
  - exists m'. rewrite <-Ea in Hm', Hap'. rewrite <-app_assoc in Hm. rewrite <-app_assoc in Hap'. done.
Qed.

Lemma assign_ok m self src w ws new :
  map_ok iv_comp m self w -> map_ok iv_comp m src ws -> self <> src -> apart ws w ->
  NoDup new -> Forall (fresh m) new -> length new = length ws ->
  exists m', assign iv_comp self src new m = Done m' /\ map_ok iv_comp m' self (copies new ws) /\ map_ok iv_comp m' src ws.
Proof.
  intros H Hs Hne Hap Nd Hf Hl. destruct (map_clear_ok iv_comp m self w H) as (m1 & E1 & H1 & O1).
  pose proof (step_others iv_comp _ _ _ _ src ws O1 Hs (not_eq_sym Hne) Hap) as Hs1.
  destruct (insert_range_ok src self ws [] [] new m1 Hne Hs1 H1) as (m2 & E2 & H2 & Hs2 & Hap2); [by intros a _ ?%elem_of_nil|by intros ? ? ?%elem_of_nil|done| |done|].
  { rewrite Forall_forall in Hf |- *. intros g Hg. destruct (Hf g Hg) as (G1 & G2 & G3). split_and!; [|done..]. by apply (only_none iv_comp m m1 self w). }
  unfold assign. rewrite E1. cbn [obind]. unfold front. pose proof (map_end iv_comp m1 src ws false Hs1) as Ef. cbn in Ef. rewrite Ef, E2. cbn [obind].
  cbn [app] in H2, Hap2. pose proof (map_end iv_comp m2 self _ false H2) as Eh. cbn in Eh. rewrite Eh.
  destruct (copies new ws) as [|e c] eqn:Ec; [by exists m2|]. cbn [first_of].
  destruct (map_entry iv_comp m2 self _ [] e c H2 eq_refl) as (E0 & _). rewrite (proj2 (Z.eqb_neq _ _) E0). cbn [negb].
  destruct (map_splay m2 self _ e H2 ltac:(by left)) as (m' & E & H' & _ & O'). exists m'. split_and!; [done..|].
  apply (step_others iv_comp _ m2 m' self src ws O' Hs2); [by apply not_eq_sym|exact Hap2].
Qed.

Lemma copy_ok m self src ws new : map_ok iv_comp m src ws -> self <> src -> NoDup new -> Forall (fresh m) new -> length new = length ws ->
  exists m', copy_tree iv_comp self src new m = Done m' /\ map_ok iv_comp m' self (copies new ws) /\ map_ok iv_comp m' src ws.
Proof.
  intros Hs Hne Nd Hf Hl. apply (assign_ok (new_tree self m) self src []); try done.
  - apply new_tree_ok.
  - apply (map_ok_ext iv_comp m); [done|done|]. cbn. apply upd_ne. by apply not_eq_sym.
  - by intros a _ ?%elem_of_nil.
Qed.

Lemma swap_ok m self src w ws : map_ok iv_comp m self w -> map_ok iv_comp m src ws -> self <> src ->
  map_ok iv_comp (swap self src m) self ws /\ map_ok iv_comp (swap self src m) src w.
Proof.
  assert (G : forall m m' i j u, map_ok iv_comp m i u -> (forall a, nodes m' a = nodes m a) -> header m' j = header m i -> map_ok iv_comp m' j u).
  { intros m1 m2 i j u (t & [[R L N] En Sz W] & Hu & O) Hn Hh. exists t. split_and!; [split; [split|..]|done..]; rewrite ?Hh; try done.
    eapply linked_ext; [exact L|]. intros a _. apply Hn. }
  intros H Hs Hne. split; [apply (G m _ src self ws Hs)|apply (G m _ self src w H)]; try done; cbn; [by rewrite upd_ne, upd_eq|by rewrite upd_eq].
Qed.

(** Erasing from one iterator to another takes the entries between them. *)
Lemma erase_range_ok self (mid : list (entry K V)) : forall m lo hi fuel, map_ok iv_comp m self (lo ++ mid ++ hi) -> (length mid <= fuel)%nat ->
  exists m', map_erase_range fuel self (first_of (mid ++ hi)) (first_of hi) m = Done m' /\ map_ok iv_comp m' self (lo ++ hi).
Proof.
  induction mid as [|e mid IH]; intros m lo hi fuel H Hf.
  { exists m. split; [|done]. destruct fuel; cbn; by rewrite Z.eqb_refl. }
  destruct fuel as [|fuel]; [cbn in Hf; lia|]. cbn [map_erase_range app first_of].
  destruct (map_entry iv_comp m self _ lo e (mid ++ hi) H eq_refl) as (E0 & _).
  assert (Hne : addr e =? first_of hi = false).
  { apply Z.eqb_neq. destruct hi as [|f hi]; [done|]. cbn. intros Ee. apply map_nodup in H. rewrite fmap_app in H. apply NoDup_app in H as (_ & _ & H).
    cbn in H. apply NoDup_cons in H as [H _]. apply H. rewrite Ee, fmap_app, elem_of_app. right. by left. }
  rewrite Hne. unfold increment, map_erase_at. rewrite (proj2 (Z.eqb_neq _ _) E0), (map_successor iv_comp m self _ lo e _ H eq_refl). cbn [obind].
  destruct (map_remove iv_comp m self _ lo e (mid ++ hi) H eq_refl) as (m1 & -> & H1 & _). cbn [obind]. apply (IH _ lo); [done|cbn in Hf; lia].
Qed.

(** ** Theorems *)


(** C16: The splay of any node of a map, by whatever rotations its place asks for,
    ends with that node at the root; the entries and their order are as before, and
    no node or tree other than this one is touched. *)
Theorem splay_correct m self w e :
  map_ok iv_comp m self w -> e ∈ w ->
  exists m', splay self (addr e) m = Done m' /\ hd_root (header m' self) = addr e /\ map_ok iv_comp m' self w /\
    (forall a, a ∉ addr <$> w -> nodes m' a = nodes m a) /\ (forall s, s <> self -> header m' s = header m s).
Proof. intros H He. destruct (map_splay m self w e H He) as (m' & E & H' & Hr & O1 & O2). by exists m'. Qed.

(** A loop from an iterator to the end. *)
Fixpoint iterate (fuel : nat) self m n : outcome (list Z) :=
  if n =? 0 then Done []
  else match fuel with O => Crash BadAccess | S fuel => do s <- increment self m n; do l <- iterate fuel self m s; Done (n :: l) end.

(** A loop over a map from [begin] to [end] ends after one step for each entry
    and meets all of them, in the order of their keys. *)
Theorem iteration_complete m self w :
  map_ok iv_comp m self w -> iterate (length w) self m (map_begin self m) = Done (addr <$> w) /\ ordered iv_comp w.
Proof.
  intros H. split; [|by destruct H as (t & _ & _ & O)]. pose proof (map_end iv_comp m self w false H) as E. cbn in E. unfold map_begin, front. rewrite E. clear E.
  assert (G : forall rest pre, w = pre ++ rest -> iterate (length rest) self m (first_of rest) = Done (addr <$> rest)).
  { induction rest as [|e rest IH]; intros pre Hw; [done|]. cbn. destruct (map_entry iv_comp _ _ _ _ _ _ H Hw) as (E0 & _).
    unfold increment. rewrite (proj2 (Z.eqb_neq _ _) E0), (map_successor iv_comp _ _ _ _ _ _ H Hw). cbn [obind].
    rewrite (IH (pre ++ [e])); [done|]. by rewrite <-app_assoc. }
  by apply (G w []).
Qed.

(** Assigning one map to another that shares no node with it, or making a
    map as a copy, gives it the keys and values of the source, in new nodes; the
    source is as it was. *)
Theorem assign_copies m self src w ws new :
  map_ok iv_comp m self w -> map_ok iv_comp m src ws -> self <> src -> apart ws w ->
  NoDup new -> Forall (fresh m) new -> length new = length ws ->
  (exists m', assign iv_comp self src new m = Done m' /\ map_ok iv_comp m' self (copies new ws) /\ map_ok iv_comp m' src ws) /\
  (forall i, i <> src -> exists m', copy_tree iv_comp i src new m = Done m' /\ map_ok iv_comp m' i (copies new ws) /\ map_ok iv_comp m' src ws).
Proof. intros. split; [by apply (assign_ok m self src w)|]. intros i Hi. by apply copy_ok. Qed.

(** Assigning a map to itself empties it. *)
Lemma assign_self_clears m self w new : map_ok iv_comp m self w ->
  exists m', assign iv_comp self self new m = Done m' /\ map_ok iv_comp m' self [].
Proof.
  intros H. destruct (map_clear_ok iv_comp m self w H) as (m1 & E1 & H1 & _). exists m1. split; [|done]. unfold assign. rewrite E1. cbn [obind].
  pose proof (map_end iv_comp m1 self [] false H1) as Ef. cbn in Ef. unfold front. rewrite Ef. destruct new; cbn; by rewrite Ef.
Qed.

(** The upper bound is the lower bound, so the range of equal keys is empty. *)
Lemma equal_range_empty m self w k : map_ok iv_comp m self w ->
  exists a m', map_equal_range iv_comp self k m = Done (a, a, m') /\ a = node_of (spec_lower iv_comp k w).
Proof.
  intros H. destruct (lower_ok iv_comp m self w k H) as (m1 & E1 & H1 & _). destruct (lower_ok iv_comp m1 self w k H1) as (m2 & E2 & _ & _).
  unfold map_equal_range, map_lower_bound, map_upper_bound. rewrite E1. cbn [obind]. rewrite E2. by eexists _, m2.
Qed.

End claims.
