(* ===== verification/StlSamples.v ===== *)
(** * [std::map]: the theorems at samples, and behaviour at odds with its interface *)

From stdpp Require Import sorting.
From S2P Require Import Prelude SplayTree SplayRot SplayOps SplayIns SplayDel StlMap StlMapThm StlClaims.

#[export] Instance Zltb_weak : StrictWeak Z.ltb.
Proof. split; intros *; rewrite ?Z.ltb_lt; [apply Z.ltb_irrefl|lia|lia]. Qed.

Definition no_memory : Memory Z Z := mkMem (fun _ => None) (fun _ => mkHeader 0 0 0 0).

(** Three insertions, a search, an erasure and a step. *)
Definition sample_ops : list (map_op Z Z) :=
  [OpInsert 100 5 50; OpInsert 200 3 30; OpInsert 300 9 90; OpFind 5; OpErase 3; OpLower 4; OpNext 100; OpSize].

(** Run the conditions of a concrete sequence. *)
Ltac fit :=
  cbn [ops_fit];
  repeat lazymatch goal with
  | |- _ /\ _ => split
  | |- forall r m' r' w', _ -> _ -> _ => intros r m' r' w' E1 E2; vm_compute in E1; vm_compute in E2; injection E1 as <- <-; injection E2 as <- <-
  | |- True => exact I
  | |- op_fits _ _ (OpNext _) => right; apply list_elem_of_In; vm_compute; tauto
  | |- op_fits _ _ (OpInsert _ _ _) => split; [reflexivity|split; [discriminate|split; [discriminate|reflexivity]]]
  | |- op_fits _ _ _ => exact I
  end.


(** A map of three entries. *)
Definition sample_inserts : list (map_op Z Z) := [OpInsert 100 5 50; OpInsert 200 3 30; OpInsert 300 9 90].
Definition sample_entries : list (entry Z Z) := [(200, (3, 30)); (100, (5, 50)); (300, (9, 90))].
Definition sample_memory : Memory Z Z :=
  match run_ops Z.ltb 0 2 sample_inserts (new_tree 2 no_memory) with Done (_, m) => m | Crash _ => no_memory end.

Lemma sample_map : map_ok Z.ltb sample_memory 2 sample_entries.
Proof.
  assert (Hf : ops_fit Z.ltb 0 2 sample_inserts (new_tree 2 no_memory) []) by (unfold sample_inserts; fit).
  pose proof (runs_ok Z.ltb 0 sample_inserts _ 2 [] (new_tree_ok Z.ltb no_memory 2) Hf) as H.
  assert (Es : exists rs, spec_ops Z.ltb 0 sample_inserts [] = Done (rs, sample_entries)) by (eexists; vm_compute; reflexivity).
  destruct Es as (rs & Es). rewrite Es in H. destruct H as (m & E & Hm). unfold sample_memory. by rewrite E.
Qed.

Lemma splay_correct_witness : exists m', splay 2 200 sample_memory = Done m' /\ hd_root (header m' 2) = 200 /\ map_ok Z.ltb m' 2 sample_entries.
Proof.
  destruct (splay_correct Z.ltb sample_memory 2 sample_entries (200, (3, 30)) sample_map ltac:(by left)) as (m' & E & Hr & Hm & _).
  exists m'. split; [exact E|split; [exact Hr|exact Hm]].
Defined.

Lemma iteration_complete_witness : iterate 3 2 sample_memory (map_begin 2 sample_memory) = Done [200; 100; 300].
Proof. exact (proj1 (iteration_complete Z.ltb sample_memory 2 sample_entries sample_map)). Defined.

Lemma assign_copies_witness : exists m', assign Z.ltb 1 2 [400; 500; 600] (new_tree 1 sample_memory) = Done m' /\
  map_ok Z.ltb m' 1 [(400, (3, 30)); (500, (5, 50)); (600, (9, 90))] /\ map_ok Z.ltb m' 2 sample_entries.
Proof.
  assert (Hs : map_ok Z.ltb (new_tree 1 sample_memory) 2 sample_entries) by (apply (map_ok_ext Z.ltb sample_memory); [exact sample_map|done|done]).
  refine (proj1 (assign_copies Z.ltb (new_tree 1 sample_memory) 1 2 [] sample_entries [400; 500; 600] (new_tree_ok Z.ltb sample_memory 1) Hs _ _ _ _ _)).
  - done.
  - intros a _ H. by apply elem_of_nil in H.
  - by apply (bool_decide_unpack _).
  - repeat (apply Forall_cons; split; [split; [reflexivity|done]|]). by apply Forall_nil.
  - done.
Defined.

(** ** Behaviour at odds with the interface *)

Definition results {A} (o : outcome (list (map_result Z) * A)) : option (list (map_result Z)) :=
  match o with Done (rs, _) => Some rs | Crash _ => None end.

(** [at] of a key that is absent gives the value of the next key. *)
Example at_absent : results (run_ops Z.ltb 0 2 [OpCount 4; OpAt 4; OpCount 9; OpAt 6] sample_memory) =
  Some [ResCount 0; ResValue 50; ResCount 1; ResValue 90].
Proof. vm_compute. reflexivity. Qed.

(** A range with a key that the map has is inserted all the same, by way of the
    swapped arguments of [__insert]: the first node of the key is out of reach of a
    search, the sizes disagree, and clearing leaves a size of one. *)
Definition range_insert : outcome (Memory Z Z) :=
  do (_, m) <- run_ops Z.ltb 0 1 [OpInsert 100 1 10; OpInsert 200 2 20; OpFind 1] (new_tree 2 (new_tree 1 no_memory));
  do (_, m) <- run_ops Z.ltb 0 2 [OpInsert 300 1 11] m;
  insert_range Z.ltb 1 2 (front 2 m) 0 [400] m.

Example range_insert_breaks :
  results (do m <- range_insert; run_ops Z.ltb 0 1 [OpSize; OpFind 2; OpFind 1; OpBegin; OpNext 100; OpNext 200; OpNext 400] m) =
    Some [ResCount 3; ResNode 200; ResNode 400; ResNode 100; ResNode 200; ResNode 0; ResNode 200] /\
  results (do m <- range_insert; run_ops Z.ltb 0 1 [OpSize; OpClear; OpSize] m) = Some [ResCount 3; ResUnit; ResCount 1].
Proof. vm_compute. split; reflexivity. Qed.
