(* ===== verification/LibMem.v ===== *)
(** * The C library: memory functions ([src/lib/string_utils.C], [string.C])

    Memory is a function from addresses to bytes.  A [long] is eight bytes, the
    most significant first.  A buffer does not run over the end of the address
    space; plain [char] is unsigned on the target. *)

From S2P Require Import Prelude.

Definition memory : Type := Z -> Z.
Implicit Types (m : memory) (a : Z).

(** The [n] bytes from [a]. *)
Fixpoint bytes_at (n : nat) m a : list Z := match n with O => [] | S n => m a :: bytes_at n m (a + 1) end.
Fixpoint put_bytes (l : list Z) a m : memory := match l with [] => m | b :: l => put_bytes l (a + 1) (upd m a b) end.

Definition load_long m a : Z := be_combine (bytes_at 8 m a).
Definition store_long a (w : Z) m : memory := put_bytes (be_split 8 w) a m.

(** ** [memset] *)

(** [do { ldest[--i] = lch; } while (i > 0)]. *)
Fixpoint memset_longs (i : nat) (ldest lch : Z) m : memory :=
  match i with O => m | S i => memset_longs i ldest lch (store_long (ldest + 8 * Z.of_nat i) lch m) end.
Fixpoint memset_bytes (len : nat) (cdest ch : Z) m : memory :=
  match len with O => m | S len => memset_bytes len (cdest + 1) ch (upd m cdest (u8 ch)) end.

Definition fill_long (ch : Z) : Z :=
  let lch := Z.land ch 255 in
  let lch := Z.lor lch (u64 (Z.shiftl lch 8)) in
  let lch := Z.lor lch (u64 (Z.shiftl lch 16)) in
  Z.lor lch (u64 (Z.shiftl lch 32)).

Definition memset (vdest ch len : Z) m : memory :=
  if 8 <=? len then
    let len8 := len / 8 in
    let m := memset_longs (Z.to_nat len8) vdest (fill_long ch) m in
    memset_bytes (Z.to_nat (len - len8 * 8)) (vdest + len8 * 8) ch m
  else memset_bytes (Z.to_nat len) vdest ch m.

Definition bzero (vdest len : Z) m : memory := memset vdest 0 len m.

(** ** [memcpy] and [memmove] *)

Fixpoint memcpy_longs (n : nat) (ldest lsrc : Z) m : memory :=
  match n with O => m | S n => memcpy_longs n (ldest + 8) (lsrc + 8) (store_long ldest (load_long m lsrc) m) end.
Fixpoint memcpy_bytes (n : nat) (cdest csrc : Z) m : memory :=
  match n with O => m | S n => memcpy_bytes n (cdest + 1) (csrc + 1) (upd m cdest (m csrc)) end.

Definition memcpy (vdest vsrc len : Z) m : memory :=
  let n := len / 8 in
  memcpy_bytes (Z.to_nat (len - n * 8)) (vdest + n * 8) (vsrc + n * 8) (memcpy_longs (Z.to_nat n) vdest vsrc m).

(** [for (i = len; i > 0;) { --i; dest[i] = src[i]; }]. *)
Fixpoint memmove_down (i : nat) (dest src : Z) m : memory :=
  match i with O => m | S i => memmove_down i dest src (upd m (dest + Z.of_nat i) (m (src + Z.of_nat i))) end.

Definition memmove (vdest vsrc len : Z) m : memory :=
  if vdest <=? vsrc then memcpy vdest vsrc len m else memmove_down (Z.to_nat len) vdest vsrc m.

(** ** [memcmp], [memchr], [memmem] *)

Fixpoint memcmp_loop (n : nat) (c1 c2 : Z) m : Z :=
  match n with O => 0 | S n => if negb (m c1 - m c2 =? 0) then m c1 - m c2 else memcmp_loop n (c1 + 1) (c2 + 1) m end.
Definition memcmp (p1 p2 len : Z) m : Z := memcmp_loop (Z.to_nat len) p1 p2 m.

(** A null pointer is none. *)
Fixpoint memchr_loop (n : nat) (p ch : Z) m : option Z :=
  match n with O => None | S n => if m p =? ch then Some p else memchr_loop n (p + 1) ch m end.
Definition memchr (ptr c n : Z) m : option Z := memchr_loop (Z.to_nat n) ptr (u8 c) m.

Fixpoint needle_at (n : nat) (h p : Z) m : bool :=
  match n with O => true | S n => if negb (m h =? m p) then false else needle_at n (h + 1) (p + 1) m end.
Fixpoint memmem_loop (n : nat) (h p : Z) (needlelen : nat) m : option Z :=
  match n with O => None | S n => if needle_at needlelen h p m then Some h else memmem_loop n (h + 1) p needlelen m end.
Definition memmem (haystack haystacklen needle needlelen : Z) m : option Z :=
  if needlelen <=? haystacklen then memmem_loop (Z.to_nat (haystacklen - needlelen + 1)) haystack needle (Z.to_nat needlelen) m else None.

(** Ranges of addresses as tests. *)
Ltac range := apply eq_true_iff_eq; rewrite ?andb_true_iff, ?Z.leb_le, ?Z.ltb_lt; split; intros; try done; lia.
Ltac in_range := symmetry; apply andb_true_iff; rewrite Z.leb_le, Z.ltb_lt; lia.
Ltac out_of_range := symmetry; apply andb_false_iff; rewrite Z.leb_gt, Z.ltb_ge; lia.

(** ** Bytes of memory *)

Lemma length_bytes_at n m a : length (bytes_at n m a) = n.
Proof. revert a. induction n as [|n IH]; intros a; cbn; [done|]. by rewrite IH. Qed.

Lemma bytes_at_lookup n m : forall a (i : nat), (i < n)%nat -> bytes_at n m a !! i = Some (m (a + Z.of_nat i)).
Proof.
  induction n as [|n IH]; intros a i Hi; [lia|]. destruct i as [|i]; cbn [bytes_at lookup list_lookup].
  - by rewrite Z.add_0_r.
  - change (bytes_at n m (a + 1) !! i = Some (m (a + Z.of_nat (S i)))). rewrite IH by lia. do 2 f_equal. lia.
Qed.

Lemma bytes_at_ext n m m' : forall a, (forall b, a <= b < a + Z.of_nat n -> m' b = m b) -> bytes_at n m' a = bytes_at n m a.
Proof. induction n as [|n IH]; intros a H; [done|]. cbn. rewrite H by lia. f_equal. apply IH. intros b Hb. apply H. lia. Qed.

Lemma put_bytes_val l : forall a m b, put_bytes l a m b = if (a <=? b) && (b <? a + Z.of_nat (length l)) then nth (Z.to_nat (b - a)) l 0 else m b.
Proof.
  induction l as [|x l IH]; intros a m b; cbn [put_bytes length].
  { replace (_ && _) with false; [done|]. out_of_range. }
  rewrite IH. destruct (decide (b = a)) as [->|Hb].
  - replace ((a + 1 <=? a) && _) with false by out_of_range. rewrite upd_eq.
    replace ((a <=? a) && _) with true by in_range. by rewrite Z.sub_diag.
  - rewrite upd_ne by done. replace ((a + 1 <=? b) && (b <? a + 1 + Z.of_nat (length l))) with ((a <=? b) && (b <? a + Z.of_nat (S (length l)))) by range.
    destruct ((a <=? b) && _) eqn:E; [|done]. b2p. replace (Z.to_nat (b - a)) with (S (Z.to_nat (b - (a + 1)))) by lia. done.
Qed.

Definition all_bytes m : Prop := forall a, is_byte (m a).

Lemma bytes_at_bytes n m : forall a, all_bytes m -> is_bytes (bytes_at n m a).
Proof. induction n as [|n IH]; intros a H; constructor; [apply H|by apply IH]. Qed.

(** A load and a store of a word copy its eight bytes. *)
Lemma copy_long m d s b : all_bytes m -> store_long d (load_long m s) m b = if (d <=? b) && (b <? d + 8) then m (s + (b - d)) else m b.
Proof.
  intros Hm. unfold store_long, load_long. pose proof (be_split_combine (bytes_at 8 m s) (bytes_at_bytes 8 m s Hm)) as E.
  rewrite length_bytes_at in E. rewrite E, put_bytes_val, length_bytes_at. destruct ((d <=? b) && _) eqn:Eb; [|done]. b2p.
  apply nth_lookup_Some. rewrite bytes_at_lookup by lia. do 2 f_equal. lia.
Qed.

Lemma copied_bytes m m' d s n : all_bytes m -> (forall b, m' b = if (d <=? b) && (b <? d + n) then m (s + (b - d)) else m b) -> all_bytes m'.
Proof. intros H E a. rewrite E. destruct (_ && _); apply H. Qed.

(** ** Copies *)

(** Copying upwards is safe when the destination does not start inside the source. *)
Definition upwards (d s n : Z) : Prop := d <= s \/ s + n <= d.

(** The bytes [d, d+n) become those of [s, s+n); no other changes. *)
Definition copied m m' (d s n : Z) : Prop := forall b, m' b = if (d <=? b) && (b <? d + n) then m (s + (b - d)) else m b.

Lemma copied_app m m1 m' d s n k : 0 <= n -> 0 <= k -> upwards d s (n + k) -> copied m m1 d s n -> copied m1 m' (d + n) (s + n) k -> copied m m' d s (n + k).
Proof.
  intros Hn Hk Hu H1 H2 b. rewrite H2. destruct ((d + n <=? b) && (b <? d + n + k)) eqn:E1.
  - b2p. rewrite H1. replace ((d <=? b) && _) with true by in_range.
    replace ((d <=? s + n + (b - (d + n))) && _) with false by (destruct Hu; out_of_range). f_equal. lia.
  - rewrite H1. apply andb_false_iff in E1. destruct ((d <=? b) && (b <? d + n)) eqn:E2.
    + b2p. by replace ((d <=? b) && _) with true by in_range.
    + apply andb_false_iff in E2. replace ((d <=? b) && (b <? d + (n + k))) with false by out_of_range. done.
Qed.

Lemma upwards_shift d s n k : 0 <= n -> upwards d s (n + k) -> upwards (d + n) (s + n) k.
Proof. unfold upwards. lia. Qed.

Lemma upwards_less d s n k : 0 <= k -> upwards d s (n + k) -> upwards d s n.
Proof. unfold upwards. lia. Qed.

Lemma memcpy_longs_ok n : forall d s m, all_bytes m -> upwards d s (8 * Z.of_nat n) -> copied m (memcpy_longs n d s m) d s (8 * Z.of_nat n).
Proof.
  induction n as [|n IH]; intros d s m Hm Hu; cbn [memcpy_longs].
  { intros b. by replace ((d <=? b) && _) with false by out_of_range. }
  replace (8 * Z.of_nat (S n)) with (8 + 8 * Z.of_nat n) in * by lia. pose proof (fun b => copy_long m d s b Hm) as E.
  eapply copied_app; [lia|lia|done|exact E|]. apply IH; [by eapply copied_bytes|by apply upwards_shift].
Qed.

Lemma memcpy_bytes_ok n : forall d s m, upwards d s (Z.of_nat n) -> copied m (memcpy_bytes n d s m) d s (Z.of_nat n).
Proof.
  induction n as [|n IH]; intros d s m Hu; cbn [memcpy_bytes].
  { intros b. by replace ((d <=? b) && _) with false by out_of_range. }
  replace (Z.of_nat (S n)) with (1 + Z.of_nat n) in * by lia. eapply copied_app; [lia|lia|done| |apply IH; by apply upwards_shift].
  intros b. unfold upd. destruct (b =? d) eqn:Eb; b2p.
  - subst b. replace ((d <=? d) && _) with true by in_range. f_equal. lia.
  - by replace ((d <=? b) && _) with false by out_of_range.
Qed.

Lemma memcpy_ok d s len m : all_bytes m -> 0 <= len -> upwards d s len -> copied m (memcpy d s len m) d s len.
Proof.
  intros Hm Hl Hu. unfold memcpy. pose proof (Z.div_mod len 8 ltac:(lia)) as Hd. pose proof (Z.mod_pos_bound len 8 ltac:(lia)) as Hr.
  set (n := len / 8) in *. assert (Hn : 0 <= n) by (apply Z.div_pos; lia). replace len with (n * 8 + (len - n * 8)) in Hu |- * at 2 by lia.
  eapply copied_app; [lia|lia|done| |].
  - replace (n * 8) with (8 * Z.of_nat (Z.to_nat n)) by lia. apply memcpy_longs_ok; [done|]. replace (8 * Z.of_nat (Z.to_nat n)) with (n * 8) by lia.
    eapply upwards_less; [|exact Hu]. lia.
  - replace (len - n * 8) with (Z.of_nat (Z.to_nat (len - n * 8))) at 2 by lia. apply memcpy_bytes_ok.
    replace (Z.of_nat (Z.to_nat (len - n * 8))) with (len - n * 8) by lia. apply upwards_shift; [lia|done].
Qed.

Lemma memmove_down_ok n : forall d s m, s <= d -> copied m (memmove_down n d s m) d s (Z.of_nat n).
Proof.
  induction n as [|n IH]; intros d s m Hd b; cbn [memmove_down].
  { by replace ((d <=? b) && _) with false by out_of_range. }
  rewrite IH by done. destruct (decide (b = d + Z.of_nat n)) as [->|Hb].
  - replace ((d <=? _) && (_ <? d + Z.of_nat n)) with false by out_of_range. rewrite upd_eq.
    replace ((d <=? _) && _) with true by in_range. f_equal. lia.
  - replace ((d <=? b) && (b <? d + Z.of_nat (S n))) with ((d <=? b) && (b <? d + Z.of_nat n)) by range.
    destruct ((d <=? b) && _) eqn:Eb; [b2p|]; by rewrite upd_ne by lia.
Qed.

(** ** Filling *)

Lemma fill_bytes_check : forallb (fun c => bool_decide (be_split 8 (fill_long c) = replicate 8 c)) (seqZ 0 256) = true.
Proof. vm_compute. reflexivity. Qed.

(** All bytes of the word [memset] stores are the character. *)
Lemma fill_long_bytes ch : be_split 8 (fill_long ch) = replicate 8 (u8 ch).
Proof.
  assert (E : fill_long ch = fill_long (u8 ch)).
  { unfold fill_long. change 255 with (Z.ones 8). rewrite !Z.land_ones by lia. unfold wrap. by rewrite Z.mod_mod. }
  rewrite E. pose proof fill_bytes_check as H. rewrite forallb_forall in H.
  assert (Hi : In (u8 ch) (seqZ 0 256)) by (apply list_elem_of_In, elem_of_seqZ; apply (wrap_word 8); lia).
  specialize (H _ Hi). by apply bool_decide_eq_true in H.
Qed.

Definition filled m m' (d n c : Z) : Prop := forall b, m' b = if (d <=? b) && (b <? d + n) then c else m b.

Lemma memset_bytes_ok n ch : forall d m, filled m (memset_bytes n d ch m) d (Z.of_nat n) (u8 ch).
Proof.
  induction n as [|n IH]; intros d m b; cbn [memset_bytes].
  { by replace ((d <=? b) && _) with false by out_of_range. }
  rewrite IH. destruct (decide (b = d)) as [->|Hb].
  - replace ((d + 1 <=? d) && _) with false by out_of_range. rewrite upd_eq. by replace ((d <=? d) && _) with true by in_range.
  - rewrite upd_ne by done. by replace ((d + 1 <=? b) && (b <? d + 1 + Z.of_nat n)) with ((d <=? b) && (b <? d + Z.of_nat (S n))) by range.
Qed.

Lemma memset_longs_ok n ch : forall d m, filled m (memset_longs n d (fill_long ch) m) d (8 * Z.of_nat n) (u8 ch).
Proof.
  induction n as [|n IH]; intros d m b; cbn [memset_longs].
  { by replace ((d <=? b) && _) with false by out_of_range. }
  rewrite IH. destruct ((d <=? b) && (b <? d + 8 * Z.of_nat n)) eqn:E1.
  { b2p. by replace ((d <=? b) && _) with true by in_range. }
  unfold store_long. rewrite fill_long_bytes, put_bytes_val, length_replicate. apply andb_false_iff in E1. rewrite Z.leb_gt, Z.ltb_ge in E1.
  destruct ((d + 8 * Z.of_nat n <=? b) && _) eqn:E2.
  - b2p. replace ((d <=? b) && _) with true by in_range. apply nth_lookup_Some, lookup_replicate. lia.
  - apply andb_false_iff in E2. rewrite Z.leb_gt, Z.ltb_ge in E2. by replace ((d <=? b) && _) with false by out_of_range.
Qed.

Lemma memset_ok d ch len m : 0 <= len -> filled m (memset d ch len m) d len (u8 ch).
Proof.
  intros Hl b. unfold memset. destruct (8 <=? len) eqn:E8; b2p.
  - pose proof (Z.div_mod len 8 ltac:(lia)) as Hd. pose proof (Z.mod_pos_bound len 8 ltac:(lia)) as Hr. set (n := len / 8) in *.
    rewrite memset_bytes_ok, memset_longs_ok. replace (Z.of_nat (Z.to_nat (len - n * 8))) with (len - n * 8) by lia. replace (8 * Z.of_nat (Z.to_nat n)) with (n * 8) by lia.
    destruct ((d + n * 8 <=? b) && _) eqn:E1; [b2p; by replace ((d <=? b) && _) with true by in_range|].
    apply andb_false_iff in E1. rewrite Z.leb_gt, Z.ltb_ge in E1.
    replace ((d <=? b) && (b <? d + n * 8)) with ((d <=? b) && (b <? d + len)); [done|range].
  - rewrite memset_bytes_ok. by replace (Z.of_nat (Z.to_nat len)) with len by lia.
Qed.

(** ** Comparison and search *)

(** The first byte that differs decides. *)
Lemma memcmp_ok p1 p2 len m : 0 <= len ->
  (forall i, 0 <= i < len -> m (p1 + i) = m (p2 + i)) /\ memcmp p1 p2 len m = 0 \/
  exists i, 0 <= i < len /\ (forall j, 0 <= j < i -> m (p1 + j) = m (p2 + j)) /\ m (p1 + i) <> m (p2 + i) /\ memcmp p1 p2 len m = m (p1 + i) - m (p2 + i).
Proof.
  intros Hl. unfold memcmp. replace len with (Z.of_nat (Z.to_nat len)) by lia. rewrite Nat2Z.id. generalize (Z.to_nat len) as n. clear.
  intros n. revert p1 p2. induction n as [|n IH]; intros p1 p2; cbn [memcmp_loop]; [left; split; [lia|done]|].
  destruct (m p1 - m p2 =? 0) eqn:E0; b2p; cbn [negb].
  - destruct (IH (p1 + 1) (p2 + 1)) as [[H E]|(i & Hi & Hj & Hne & E)]; [left|right].
    + split; [|done]. intros i Hi. destruct (decide (i = 0)) as [->|]; [rewrite !Z.add_0_r; lia|]. specialize (H (i - 1) ltac:(lia)).
      by replace (p1 + 1 + (i - 1)) with (p1 + i) in H by lia; replace (p2 + 1 + (i - 1)) with (p2 + i) in H by lia.
    + exists (i + 1). replace (p1 + (i + 1)) with (p1 + 1 + i) by lia. replace (p2 + (i + 1)) with (p2 + 1 + i) by lia. split_and!; [lia|lia| |done..].
      intros j Hj'. destruct (decide (j = 0)) as [->|]; [rewrite !Z.add_0_r; lia|]. specialize (Hj (j - 1) ltac:(lia)).
      by replace (p1 + 1 + (j - 1)) with (p1 + j) in Hj by lia; replace (p2 + 1 + (j - 1)) with (p2 + j) in Hj by lia.
  - right. exists 0. rewrite !Z.add_0_r. split_and!; [lia|lia|lia|lia|done].
Qed.

Lemma needle_at_ok n h p m : needle_at n h p m = true <-> bytes_at n m h = bytes_at n m p.
Proof.
  revert h p. induction n as [|n IH]; intros h p; cbn; [done|]. destruct (m h =? m p) eqn:E; b2p; cbn; [|split; [done|congruence]].
  rewrite IH, E. split; [by intros ->|by intros [=]].
Qed.

(** The first place of the needle, if there is one. *)
Lemma memmem_ok h hl p pl m : 0 <= hl -> 0 <= pl ->
  match memmem h hl p pl m with
  | Some r => h <= r <= h + hl - pl /\ bytes_at (Z.to_nat pl) m r = bytes_at (Z.to_nat pl) m p /\
      forall q, h <= q < r -> bytes_at (Z.to_nat pl) m q <> bytes_at (Z.to_nat pl) m p
  | None => forall q, h <= q <= h + hl - pl -> bytes_at (Z.to_nat pl) m q <> bytes_at (Z.to_nat pl) m p
  end.
Proof.
  intros Hh Hp. unfold memmem. destruct (pl <=? hl) eqn:El; b2p; [|intros q Hq; lia].
  assert (G : forall n h, match memmem_loop n h p (Z.to_nat pl) m with
    | Some r => h <= r < h + Z.of_nat n /\ bytes_at (Z.to_nat pl) m r = bytes_at (Z.to_nat pl) m p /\
        forall q, h <= q < r -> bytes_at (Z.to_nat pl) m q <> bytes_at (Z.to_nat pl) m p
    | None => forall q, h <= q < h + Z.of_nat n -> bytes_at (Z.to_nat pl) m q <> bytes_at (Z.to_nat pl) m p end).
  { clear. induction n as [|n IH]; intros h; cbn [memmem_loop]; [intros q Hq; lia|]. destruct (needle_at _ h p m) eqn:En.
    - split_and!; [lia|lia|by apply needle_at_ok|intros q Hq; lia].
    - assert (Hn : bytes_at (Z.to_nat pl) m h <> bytes_at (Z.to_nat pl) m p) by (intros Hb%needle_at_ok; congruence).
      specialize (IH (h + 1)). destruct (memmem_loop n (h + 1) p _ m) as [r|].
      + destruct IH as (H1 & H2 & H3). split_and!; [lia|lia|done|]. intros q Hq. destruct (decide (q = h)) as [->|]; [done|apply H3; lia].
      + intros q Hq. destruct (decide (q = h)) as [->|]; [done|apply IH; lia]. }
  specialize (G (Z.to_nat (hl - pl + 1)) h). destruct (memmem_loop _ _ _ _ _) as [r|].
  - destruct G as (H1 & H2 & H3). split_and!; [lia|lia|done..].
  - intros q Hq. apply G. lia.
Qed.

Lemma memchr_ok p c n m : 0 <= n ->
  match memchr p c n m with
  | Some r => p <= r < p + n /\ m r = u8 c /\ forall q, p <= q < r -> m q <> u8 c
  | None => forall q, p <= q < p + n -> m q <> u8 c
  end.
Proof.
  intros Hn. unfold memchr. replace n with (Z.of_nat (Z.to_nat n)) by lia. rewrite Nat2Z.id. generalize (Z.to_nat n) as k. clear. intros k. revert p.
  induction k as [|k IH]; intros p; cbn [memchr_loop]; [intros q Hq; lia|]. destruct (m p =? u8 c) eqn:E; b2p; [split_and!; [lia|lia|done|intros q Hq; lia]|].
  specialize (IH (p + 1)). destruct (memchr_loop k (p + 1) _ m) as [r|].
  - destruct IH as (H1 & H2 & H3). split_and!; [lia|lia|done|]. intros q Hq. destruct (decide (q = p)) as [->|]; [done|apply H3; lia].
  - intros q Hq. destruct (decide (q = p)) as [->|]; [done|apply IH; lia].
Qed.

(** ** Theorems *)

(** C1: [memmove] copies a buffer byte for byte whatever the overlap of its
    source and destination, though it copies words of eight bytes upwards where
    the destination is not behind the source: afterwards the destination holds
    what the source held, and no other byte has changed. *)
Theorem memmove_correct d s len m :
  all_bytes m -> 0 <= len ->
  (forall i, 0 <= i < len -> memmove d s len m (d + i) = m (s + i)) /\ (forall b, ~ d <= b < d + len -> memmove d s len m b = m b).
Proof.
  intros Hm Hl. assert (C : copied m (memmove d s len m) d s len).
  { unfold memmove. destruct (d <=? s) eqn:E; b2p; [apply memcpy_ok; [done|done|by left]|].
    replace len with (Z.of_nat (Z.to_nat len)) at 2 by lia. apply memmove_down_ok. lia. }
  split.
  - intros i Hi. rewrite C. replace ((d <=? d + i) && _) with true by in_range. f_equal. lia.
  - intros b Hb. rewrite C. by replace ((d <=? b) && _) with false by out_of_range.
Qed.

(** Twenty bytes moved up by three. *)
Lemma memmove_correct_witness :
  let m := fun a => a mod 251 in
  (forall i, 0 <= i < 20 -> memmove 100 103 20 m (100 + i) = (103 + i) mod 251) /\ memmove 100 103 20 m 121 = 121.
Proof.
  intros m. assert (Hm : all_bytes m) by (intros a; unfold m, is_byte, is_word; pose proof (Z.mod_pos_bound a 251); lia).
  destruct (memmove_correct 100 103 20 m Hm ltac:(lia)) as [H1 H2]. split; [exact H1|]. rewrite H2 by lia. reflexivity.
Defined.
