(* ===== verification/Crc32.v ===== *)
(** * The C library: the checksum ([src/lib/crc32.C])

    Polynomials over two elements are integers, their sum is [Z.lxor].  The
    builtin that counts leading zeros is undefined at zero; the instruction it
    stands for on the target gives 64, which the model takes. *)

From S2P Require Import Prelude.

Definition CRC32_POLY : Z := 0x104C11DB7.

Definition clzl (x : Z) : Z := if x =? 0 then 64 else 63 - Z.log2 x.

(** Four bytes, the missing ones zero. *)
Fixpoint next_data (n : nat) (data : Z) (l : list Z) : Z * list Z :=
  match n with
  | O => (data, l)
  | S n =>
      let data := u64 (Z.shiftl data 8) in
      match l with [] => next_data n data [] | b :: l => next_data n (Z.lor data b) l end
  end.

(** [do ... while (idx < 32)]. *)
Fixpoint reduce (fuel : nat) (crc : Z) : outcome Z :=
  match fuel with
  | O => Crash BadAccess
  | S fuel =>
      let idx := clzl crc in
      if idx <? 32 then reduce fuel (Z.lxor crc (u64 (Z.shiftl CRC32_POLY (31 - idx)))) else Done crc
  end.

(** A 64-bit number has at most 32 leading bits to clear. *)
Fixpoint crc32_loop (size : nat) (crc : Z) (l : list Z) : outcome Z :=
  match size, l with
  | _, [] => Done crc
  | O, _ => Crash BadAccess
  | S size, _ =>
      let '(data, l) := next_data 4 0 l in
      let crc := u64 (Z.shiftl crc 32) in
      let crc := Z.lxor crc (u64 (Z.shiftl data 32)) in
      do crc <- reduce 33 crc; crc32_loop size crc l
  end.
Definition crc32_calc (l : list Z) : outcome Z := do crc <- crc32_loop (length l) 0 l; Done (u32 crc).

(** ** The reference: division of polynomials *)

(** The product of two polynomials. *)
Fixpoint pmul_pos (q : positive) (p : Z) : Z :=
  match q with
  | xH => p
  | xO q => 2 * pmul_pos q p
  | xI q => Z.lxor p (2 * pmul_pos q p)
  end.
Definition pmul (q : N) (p : Z) : Z := match q with N0 => 0 | Npos q => pmul_pos q p end.

(** The message as a polynomial: its bytes with zeros up to a multiple of four,
    the first byte highest. *)
Definition message (l : list Z) : Z := be_combine (l ++ replicate (Z.to_nat ((- Z.of_nat (length l)) mod 4)) 0).

(** ** Products *)

Lemma double_lxor x y : 2 * Z.lxor x y = Z.lxor (2 * x) (2 * y).
Proof. rewrite !(Z.mul_comm 2), <-!(Z.shiftl_mul_pow2 _ 1) by lia. apply Z.shiftl_lxor. Qed.

Lemma lxor_swap a b c d : Z.lxor (Z.lxor a b) (Z.lxor c d) = Z.lxor (Z.lxor a c) (Z.lxor b d).
Proof. rewrite !Z.lxor_assoc. f_equal. rewrite <-!Z.lxor_assoc. f_equal. apply Z.lxor_comm. Qed.

Lemma pmul_double n p : pmul (Pos.Ndouble n) p = 2 * pmul n p.
Proof. by destruct n. Qed.

Lemma pmul_succ_double n p : pmul (Pos.Nsucc_double n) p = Z.lxor p (2 * pmul n p).
Proof. destruct n; [|done]. cbn. by rewrite Z.lxor_0_r. Qed.

Lemma pmul_pos_lxor a p : forall b, pmul (Pos.lxor a b) p = Z.lxor (pmul_pos a p) (pmul_pos b p).
Proof.
  assert (H1 : pmul 1 p = p) by done.
  induction a as [a IH|a IH|]; intros [b|b|];
    [change (Pos.lxor a~1 b~1) with (Pos.Ndouble (Pos.lxor a b)) | change (Pos.lxor a~1 b~0) with (Pos.Nsucc_double (Pos.lxor a b))
    | | change (Pos.lxor a~0 b~1) with (Pos.Nsucc_double (Pos.lxor a b)) | change (Pos.lxor a~0 b~0) with (Pos.Ndouble (Pos.lxor a b)) | ..];
    rewrite ?pmul_double, ?pmul_succ_double, ?IH; cbn [pmul_pos]; rewrite ?double_lxor.
  - by rewrite lxor_swap, Z.lxor_nilpotent, Z.lxor_0_l.
  - by rewrite Z.lxor_assoc.
  - change (pmul (Pos.lxor a~1 1) p) with (2 * pmul_pos a p). by rewrite (Z.lxor_comm p), Z.lxor_assoc, Z.lxor_nilpotent, Z.lxor_0_r.
  - rewrite <-!Z.lxor_assoc. f_equal. apply Z.lxor_comm.
  - done.
  - apply Z.lxor_comm.
  - change (pmul (Pos.lxor 1 b~1) p) with (2 * pmul_pos b p). by rewrite <-Z.lxor_assoc, Z.lxor_nilpotent, Z.lxor_0_l.
  - done.
  - by rewrite Z.lxor_nilpotent.
Qed.

Lemma pmul_lxor a b p : pmul (N.lxor a b) p = Z.lxor (pmul a p) (pmul b p).
Proof. destruct a as [|a], b as [|b]; [done|by rewrite Z.lxor_0_l|by rewrite Z.lxor_0_r|apply pmul_pos_lxor]. Qed.

Lemma pmul_shift a p k : pmul (N.shiftl a (N.of_nat k)) p = Z.shiftl (pmul a p) (Z.of_nat k).
Proof.
  induction k as [|k IH]; [cbn; by destruct a|]. rewrite Nat2N.inj_succ, N.shiftl_succ_r.
  change (N.double ?x) with (Pos.Ndouble x). rewrite pmul_double, IH, !Z.shiftl_mul_pow2 by lia. rewrite Nat2Z.inj_succ, Z.pow_succ_r by lia. ring.
Qed.

(** [x] is a multiple of the generator. *)
Definition multiple (x : Z) : Prop := exists q : N, x = pmul q CRC32_POLY.

Lemma multiple_zero : multiple 0.
Proof. by exists 0%N. Qed.

Lemma multiple_lxor x y : multiple x -> multiple y -> multiple (Z.lxor x y).
Proof. intros [a ->] [b ->]. exists (N.lxor a b). by rewrite pmul_lxor. Qed.

Lemma multiple_shift x k : 0 <= k -> multiple x -> multiple (Z.shiftl x k).
Proof. intros Hk [a ->]. exists (N.shiftl a (N.of_nat (Z.to_nat k))). rewrite pmul_shift. f_equal. lia. Qed.

Lemma multiple_generator k : 0 <= k -> multiple (Z.shiftl CRC32_POLY k).
Proof. intros Hk. apply multiple_shift; [done|]. by exists 1%N. Qed.

(** Equal up to a multiple of the generator. *)
Definition same_rest (x y : Z) : Prop := multiple (Z.lxor x y).

Lemma rest_refl x : same_rest x x.
Proof. unfold same_rest. rewrite Z.lxor_nilpotent. apply multiple_zero. Qed.

Lemma rest_sym x y : same_rest x y -> same_rest y x.
Proof. unfold same_rest. by rewrite Z.lxor_comm. Qed.

Lemma rest_trans x y z : same_rest x y -> same_rest y z -> same_rest x z.
Proof.
  unfold same_rest. intros H1 H2. replace (Z.lxor x z) with (Z.lxor (Z.lxor x y) (Z.lxor y z)); [by apply multiple_lxor|].
  by rewrite Z.lxor_assoc, <-(Z.lxor_assoc y), Z.lxor_nilpotent, Z.lxor_0_l.
Qed.

Lemma rest_shift x y k : 0 <= k -> same_rest x y -> same_rest (Z.shiftl x k) (Z.shiftl y k).
Proof. intros Hk H. unfold same_rest. rewrite <-Z.shiftl_lxor. by apply multiple_shift. Qed.

Lemma rest_lxor x y z : same_rest x y -> same_rest (Z.lxor x z) (Z.lxor y z).
Proof. intros H. unfold same_rest. by rewrite lxor_swap, Z.lxor_nilpotent, Z.lxor_0_r. Qed.

(** ** Degrees *)

Lemma log2_lxor_high x y : 0 <= x -> 0 <= y -> Z.log2 x < Z.log2 y -> Z.log2 (Z.lxor x y) = Z.log2 y.
Proof.
  intros Hx Hy H. apply Z.log2_bits_unique.
  - assert (0 < y) by (apply Z.log2_lt_cancel; change (Z.log2 0) with 0; pose proof (Z.log2_nonneg x); lia).
    rewrite Z.lxor_spec, Z.bit_log2 by done. by rewrite Z.bits_above_log2.
  - intros m Hm. rewrite Z.lxor_spec, !Z.bits_above_log2 by lia. done.
Qed.

Lemma pmul_pos_degree q : 0 < pmul_pos q CRC32_POLY /\ Z.log2 (pmul_pos q CRC32_POLY) = 32 + Z.log2 (Z.pos q).
Proof.
  assert (P : Z.log2 CRC32_POLY = 32) by reflexivity.
  induction q as [q [H1 H2]|q [H1 H2]|]; cbn [pmul_pos]; [| |done].
  - assert (D : Z.log2 (2 * pmul_pos q CRC32_POLY) = 33 + Z.log2 (Z.pos q)) by (rewrite Z.log2_double by done; lia).
    assert (L : Z.log2 (Z.lxor CRC32_POLY (2 * pmul_pos q CRC32_POLY)) = 33 + Z.log2 (Z.pos q)).
    { rewrite log2_lxor_high; [done|done|lia|]. pose proof (Z.log2_nonneg (Z.pos q)). lia. }
    rewrite L. replace (Z.pos q~1) with (2 * Z.pos q + 1) by lia. rewrite Z.log2_succ_double by done. split; [|lia].
    assert (0 <= Z.lxor CRC32_POLY (2 * pmul_pos q CRC32_POLY)) by (apply Z.lxor_nonneg; split; intros; [lia|done]).
    destruct (Z.eq_dec (Z.lxor CRC32_POLY (2 * pmul_pos q CRC32_POLY)) 0) as [E|]; [|lia].
    rewrite E in L. change (Z.log2 0) with 0 in L. pose proof (Z.log2_nonneg (Z.pos q)). lia.
  - replace (Z.pos q~0) with (2 * Z.pos q) by lia. rewrite !Z.log2_double by done. lia.
Qed.

(** The only multiple of 32 bits is zero: a remainder is unique. *)
Lemma rest_unique x y : is_word 32 x -> is_word 32 y -> same_rest x y -> x = y.
Proof.
  intros Hx Hy [q E]. pose proof (lxor_word 32 x y ltac:(lia) Hx Hy) as [H0 H1]. destruct q as [|q]; [by apply Z.lxor_eq|].
  destruct (pmul_pos_degree q) as [P1 P2]. cbn in E. rewrite <-E in P1, P2.
  assert (Z.log2 (Z.lxor x y) < 32) by (apply Z.log2_lt_pow2; lia). pose proof (Z.log2_nonneg (Z.pos q)). lia.
Qed.

(** ** The loops *)

Lemma reduce_ok fuel : forall crc, is_word 64 crc -> (Z.to_nat (Z.log2 crc) < 31 + fuel)%nat -> (0 < fuel)%nat ->
  exists r, reduce fuel crc = Done r /\ is_word 32 r /\ same_rest r crc.
Proof.
  induction fuel as [|fuel IH]; intros crc Hc Hf H0; [lia|]. cbn [reduce]. unfold clzl. destruct (crc =? 0) eqn:E0; b2p.
  { subst crc. exists 0. split_and!; [done|done|apply rest_refl]. }
  destruct Hc as [C0 C1]. assert (L : Z.log2 crc < 64) by (apply Z.log2_lt_pow2; lia). pose proof (Z.log2_nonneg crc) as L0.
  destruct (63 - Z.log2 crc <? 32) eqn:E; b2p.
  - set (k := 31 - (63 - Z.log2 crc)). assert (Hk : 0 <= k <= 31) by (unfold k; lia).
    assert (P : Z.log2 (Z.shiftl CRC32_POLY k) = Z.log2 crc).
    { rewrite Z.log2_shiftl by (unfold CRC32_POLY; lia). change (Z.log2 CRC32_POLY) with 32. unfold k. lia. }
    assert (W : is_word 64 (Z.shiftl CRC32_POLY k)).
    { split; [by apply Z.shiftl_nonneg|]. apply Z.log2_lt_cancel. rewrite P, Z.log2_pow2; lia. }
    rewrite wrap_small by done. set (crc' := Z.lxor crc (Z.shiftl CRC32_POLY k)).
    assert (W' : is_word 64 crc') by (apply lxor_word; [lia|done|done]).
    assert (D : Z.log2 crc' < Z.log2 crc).
    { destruct (Z.eq_dec crc' 0) as [->|N]; [change (Z.log2 0) with 0; lia|]. destruct W' as [W0 _].
      apply Z.log2_lt_pow2; [lia|]. enough (Z.log2 crc' < Z.log2 crc) by (apply Z.log2_lt_cancel; rewrite Z.log2_pow2; lia).
      assert (crc' < 2 ^ Z.log2 crc) as Hlt; [|by apply Z.log2_lt_pow2 in Hlt; lia].
      apply (word_of_bits (Z.log2 crc)); [done|done|]. intros i Hi. unfold crc'. rewrite Z.lxor_spec.
      destruct (Z.eq_dec i (Z.log2 crc)) as [->|Hne].
      - rewrite Z.bit_log2, <-P, Z.bit_log2; [done| |lia]. destruct W as [W0' _].
        destruct (Z.eq_dec (Z.shiftl CRC32_POLY k) 0) as [E1|]; [|lia]. rewrite E1 in P. change (Z.log2 0) with 0 in P. lia.
      - destruct W. by rewrite !Z.bits_above_log2 by lia. }
    destruct (IH crc' W' ltac:(lia)) as (r & Er & Wr & Hr); [lia|]. exists r. split_and!; [done..|].
    apply (rest_trans r crc'); [done|]. unfold same_rest, crc'.
    rewrite (Z.lxor_comm crc), Z.lxor_assoc, Z.lxor_nilpotent, Z.lxor_0_r. apply multiple_generator. lia.
  - exists crc. split_and!; [done| |apply rest_refl]. split; [done|]. apply Z.log2_lt_cancel. rewrite Z.log2_pow2; lia.
Qed.

Lemma shiftl_fits w k x : 0 <= w -> 0 <= k -> is_word w x -> is_word (w + k) (Z.shiftl x k).
Proof.
  intros Hw Hk [H0 H1]. rewrite Z.shiftl_mul_pow2 by done. split; [apply Z.mul_nonneg_nonneg; lia|]. rewrite Z.pow_add_r by done.
  apply Z.mul_lt_mono_pos_r; lia.
Qed.

Lemma word_mono w w' x : is_word w x -> w <= w' -> is_word w' x.
Proof. intros [H0 H1] H. split; [done|]. eapply Z.lt_le_trans; [exact H1|]. by apply Z.pow_le_mono_r. Qed.

Lemma lor_fits w x y : 0 <= w -> is_word w x -> is_word w y -> is_word w (Z.lor x y).
Proof.
  intros Hw Hx Hy. apply word_of_bits; [done| |].
  - apply Z.lor_nonneg. destruct Hx, Hy. lia.
  - intros i Hi. by rewrite Z.lor_spec, !(word_bits_high w) by auto with lia.
Qed.

(** ** Bytes of the message *)

Lemma be_combine_lxor b l : is_bytes l -> be_combine (b :: l) = Z.lxor (Z.shiftl b (8 * Z.of_nat (length l))) (be_combine l).
Proof.
  intros Hl. cbn [be_combine]. symmetry. apply Z.lxor_lor. apply Z.bits_inj'. intros i Hi. rewrite Z.land_spec, Z.shiftl_spec, Z.bits_0 by done.
  destruct (decide (i < 8 * Z.of_nat (length l))).
  - by rewrite (Z.testbit_neg_r b) by lia.
  - rewrite (word_bits_high _ (be_combine l) i (be_combine_word l Hl)) by lia. apply andb_false_r.
Qed.

Lemma be_combine_app l l' : is_bytes l -> is_bytes l' -> be_combine (l ++ l') = Z.lxor (Z.shiftl (be_combine l) (8 * Z.of_nat (length l'))) (be_combine l').
Proof.
  intros Hl Hl'. induction Hl as [|b l Hb Hl IH]; [cbn; by rewrite Z.shiftl_0_l|]. change ((b :: l) ++ l') with (b :: (l ++ l')).
  rewrite (be_combine_lxor b (l ++ l')), (be_combine_lxor b l), IH by (try apply Forall_app; done).
  rewrite Z.shiftl_lxor, Z.shiftl_shiftl, Z.lxor_assoc by lia. do 2 f_equal. rewrite length_app. lia.
Qed.

(** The first [n] bytes, with zeros for the missing ones. *)
Definition first_bytes (n : nat) (l : list Z) : list Z := take n l ++ replicate (n - length l) 0.
Definition padded (l : list Z) : list Z := l ++ replicate (Z.to_nat ((- Z.of_nat (length l)) mod 4)) 0.

Lemma zeros_bytes n : is_bytes (replicate n 0).
Proof. apply Forall_replicate. split; lia. Qed.

Lemma first_bytes_bytes n l : is_bytes l -> is_bytes (first_bytes n l).
Proof. intros H. apply Forall_app. split; [by apply Forall_take|apply zeros_bytes]. Qed.

Lemma length_first_bytes n l : length (first_bytes n l) = n.
Proof. unfold first_bytes. rewrite length_app, length_take, length_replicate. lia. Qed.

Lemma first_bytes_step n l : first_bytes (S n) l = hd 0 l :: first_bytes n (tail l).
Proof. unfold first_bytes. destruct l as [|b l]; cbn; [by rewrite take_nil, Nat.sub_0_r|done]. Qed.

Lemma padded_step l : l <> [] -> padded l = first_bytes 4 l ++ padded (drop 4 l).
Proof.
  intros Hl. unfold padded, first_bytes. destruct (decide (4 <= length l)%nat) as [H4|H4].
  - replace (4 - length l)%nat with 0%nat by lia. cbn [replicate]. rewrite app_nil_r, app_assoc, take_drop. do 3 f_equal.
    rewrite length_drop. replace (- Z.of_nat (length l - 4)) with (- Z.of_nat (length l) + 1 * 4) by lia. by rewrite Z.mod_add.
  - rewrite drop_ge, take_ge by lia. cbn [length]. change (replicate _ 0) with (@nil Z) at 3. rewrite app_nil_r. do 2 f_equal.
    destruct l as [|b l]; [done|]. rewrite <-(Z.mod_add _ 1) by lia. rewrite Z.mod_small; cbn in *; lia.
Qed.

Lemma next_data_ok n : forall k data l, 0 <= k -> is_word (8 * k) data -> k + Z.of_nat n <= 8 -> is_bytes l ->
  next_data n data l = (Z.lor (Z.shiftl data (8 * Z.of_nat n)) (be_combine (first_bytes n l)), drop n l).
Proof.
  induction n as [|n IH]; intros k data l Hk Hd Hn Hl; [by cbn; rewrite Z.shiftl_0_r, Z.lor_0_r|].
  rewrite first_bytes_step. pose proof (shiftl_fits (8 * k) 8 data ltac:(lia) ltac:(lia) Hd) as Hs.
  transitivity (next_data n (Z.lor (Z.shiftl data 8) (hd 0 l)) (tail l)).
  { cbn [next_data]. rewrite wrap_small by (eapply word_mono; [exact Hs|lia]). destruct l; cbn; [by rewrite Z.lor_0_r|done]. }
  rewrite (IH (k + 1)); [|lia| |lia|destruct Hl; [constructor|done]].
  - f_equal; [|destruct l; cbn; by rewrite ?drop_nil]. cbn [be_combine]. rewrite length_first_bytes, Z.shiftl_lor, Z.shiftl_shiftl, <-Z.lor_assoc by lia.
    do 2 f_equal. lia.
  - replace (8 * (k + 1)) with (8 * k + 8) by lia. apply lor_fits; [lia|done|]. apply (word_mono 8); [|lia]. destruct Hl; [by split|done].
Qed.

Lemma message_step l : is_bytes l -> l <> [] ->
  message l = Z.lxor (Z.shiftl (be_combine (first_bytes 4 l)) (8 * Z.of_nat (length (padded (drop 4 l))))) (message (drop 4 l)).
Proof.
  intros Hb Hl. change (message l) with (be_combine (padded l)). rewrite padded_step by done. apply be_combine_app; [by apply first_bytes_bytes|].
  apply Forall_app. split; [by apply Forall_drop|apply zeros_bytes].
Qed.

(** A round puts the next four bytes under what has been read and divides. *)
Lemma crc32_round crc data : is_word 32 crc -> is_word 32 data ->
  exists r, reduce 33 (Z.lxor (u64 (Z.shiftl crc 32)) (u64 (Z.shiftl data 32))) = Done r /\ is_word 32 r /\
    same_rest r (Z.shiftl (Z.lxor crc data) 32).
Proof.
  intros Hc Hd. pose proof (shiftl_fits 32 32 _ ltac:(lia) ltac:(lia) Hc) as Wc. pose proof (shiftl_fits 32 32 _ ltac:(lia) ltac:(lia) Hd) as Wd.
  rewrite !wrap_small by done. rewrite <-Z.shiftl_lxor. pose proof (shiftl_fits 32 32 _ ltac:(lia) ltac:(lia) (lxor_word 32 _ _ ltac:(lia) Hc Hd)) as W.
  apply reduce_ok; [done| |lia]. assert (Z.log2 (Z.shiftl (Z.lxor crc data) 32) <= 63); [|lia].
  etransitivity; [apply Z.log2_le_mono|]; [destruct W as [_ W]; apply Z.lt_le_pred in W; exact W|done].
Qed.

Lemma crc32_loop_ok size : forall crc l, is_word 32 crc -> is_bytes l -> (length l <= size)%nat ->
  exists r, crc32_loop size crc l = Done r /\ is_word 32 r /\
    same_rest r (Z.lxor (Z.shiftl crc (8 * Z.of_nat (length (padded l)))) (Z.shiftl (message l) 32)).
Proof.
  assert (Hnil : forall size crc, is_word 32 crc -> exists r, crc32_loop size crc [] = Done r /\ is_word 32 r /\
    same_rest r (Z.lxor (Z.shiftl crc (8 * Z.of_nat (length (padded [])))) (Z.shiftl (message []) 32))).
  { clear. intros size crc Hc. exists crc. split_and!; [by destruct size|done|]. cbn. rewrite Z.shiftl_0_r, Z.lxor_0_r. apply rest_refl. }
  induction size as [|size IH]; intros crc [|b l] Hc Hl Hs; [by apply Hnil|cbn in Hs; lia|by apply Hnil|].
  set (bl := b :: l) in *. assert (Hne : bl <> []) by done. assert (Hpos : (0 < length bl)%nat) by (cbn; lia).
  assert (Hstep : forall crc, crc32_loop (S size) crc bl = let '(data, l) := next_data 4 0 bl in
    do crc <- reduce 33 (Z.lxor (u64 (Z.shiftl crc 32)) (u64 (Z.shiftl data 32))); crc32_loop size crc l) by done.
  clearbody bl.
  pose proof (first_bytes_bytes 4 bl Hl) as Hf. pose proof (be_combine_word _ Hf) as Hd. rewrite length_first_bytes in Hd.
  destruct (crc32_round crc _ Hc Hd) as (c & Ec & Hcw & Hcr).
  destruct (IH c (drop 4 bl) Hcw ltac:(by apply Forall_drop)) as (r & Er & Hr & Hrr); [rewrite length_drop; lia|].
  exists r. split_and!; [|done|].
  - rewrite Hstep, (next_data_ok 4 0 0 bl); [|lia|split; lia|lia|done]. rewrite Z.shiftl_0_l, Z.lor_0_l, Ec. exact Er.
  - eapply rest_trans; [exact Hrr|]. rewrite (message_step bl) by done. set (n := length (padded (drop 4 bl))).
    rewrite (padded_step bl Hne), length_app, length_first_bytes. fold n. set (d := be_combine (first_bytes 4 bl)) in *.
    replace (8 * Z.of_nat (4 + n)) with (32 + 8 * Z.of_nat n) by lia.
    rewrite Z.shiftl_lxor, <-Z.lxor_assoc, (Z.shiftl_shiftl d), (Z.add_comm _ 32), <-!Z.shiftl_shiftl, <-Z.shiftl_lxor by lia.
    apply rest_lxor. eapply rest_trans; [apply rest_shift; [lia|exact Hcr]|]. rewrite <-Z.shiftl_lxor. apply rest_refl.
Qed.

(** ** Theorems *)

(** C20: the checksum is the remainder of the division of polynomials over two
    elements by the generator of degree 32: the loops end, the result has 32
    bits and differs from the message, padded with zeros to whole words of four
    bytes and moved up by 32, by a multiple of the generator, and it is the only
    number of 32 bits that does. *)
Theorem crc32_is_remainder l :
  is_bytes l ->
  exists crc, crc32_calc l = Done crc /\ is_word 32 crc /\ same_rest crc (Z.shiftl (message l) 32) /\
    forall r, is_word 32 r -> same_rest r (Z.shiftl (message l) 32) -> r = crc.
Proof.
  intros Hl. destruct (crc32_loop_ok (length l) 0 l) as (r & Er & Hr & Hrr); [by split|done|lia|]. rewrite Z.shiftl_0_l, Z.lxor_0_l in Hrr.
  exists r. split_and!; [|done|done|].
  - unfold crc32_calc. rewrite Er. cbn. by rewrite wrap_small.
  - intros r' Hr' Hrr'. apply rest_unique; [done|done|]. eapply rest_trans; [exact Hrr'|]. by apply rest_sym.
Qed.

(** The checksum of nine digits, and that no other word is their remainder. *)
Lemma crc32_is_remainder_witness :
  crc32_calc [49; 50; 51; 52; 53; 54; 55; 56; 57] = Done 0xa7b8b4bc /\
  (forall r, is_word 32 r -> same_rest r (Z.shiftl (message [49; 50; 51; 52; 53; 54; 55; 56; 57]) 32) -> r = 0xa7b8b4bc).
Proof.
  assert (Hl : is_bytes [49; 50; 51; 52; 53; 54; 55; 56; 57]) by (repeat (apply Forall_cons; split; [split; lia|]); apply Forall_nil; done).
  destruct (crc32_is_remainder _ Hl) as (crc & E & _ & _ & H).
  assert (crc = 0xa7b8b4bc) as -> by (vm_compute in E; congruence). split; [vm_compute; reflexivity|exact H].
Defined.
