(* ===== verification/LibStr.v ===== *)
(** * The C library: strings ([src/lib/string.C], [string_utils.C], [stdlib.C])

    Strings are bytes of memory up to a zero byte.  The loops that read until
    that byte take the number of bytes they may read as fuel; reading further
    is a bad access.  Plain [char] is unsigned on the target; a null pointer
    is [None]. *)

From S2P Require Import Prelude LibMem.

Implicit Types (m : memory) (a d s : Z) (l : list Z).

(** ** Length *)

Fixpoint strlen_loop (fuel : nat) (length : Z) m a : outcome Z :=
  match fuel with
  | O => Crash BadAccess
  | S fuel => if negb (m a =? 0) then strlen_loop fuel (u64 (length + 1)) m (a + 1) else Done length
  end.
Definition strlen (fuel : nat) a m : outcome Z := strlen_loop fuel 0 m a.

Fixpoint strnlen_loop (n : nat) (length : Z) m s : Z :=
  match n with O => length | S n => if negb (m s =? 0) then strnlen_loop n (length + 1) m (s + 1) else length end.
Definition strnlen s (n : Z) m : Z := strnlen_loop (Z.to_nat n) 0 m s.

(** ** Comparison *)

(** What [strcmp] and [strncmp] return at the place where they stop. *)
Definition cmp_end (x y : Z) : Z := if x =? y then 0 else if x =? 0 then -1 else 1.

Fixpoint strcmp (fuel : nat) (a b : Z) m : outcome Z :=
  match fuel with
  | O => Crash BadAccess
  | S fuel =>
      if negb (m a =? 0) && negb (m b =? 0) then
        if m a =? m b then strcmp fuel (a + 1) (b + 1) m else Done (if m b <? m a then 1 else -1)
      else Done (cmp_end (m a) (m b))
  end.

(** [n] more characters may be compared before the last. *)
Fixpoint strncmp_loop (n : nat) (a b : Z) m : Z :=
  match n with
  | O => cmp_end (m a) (m b)
  | S n =>
      if negb (m a =? 0) && negb (m b =? 0) then
        if m a =? m b then strncmp_loop n (a + 1) (b + 1) m else if m b <? m a then 1 else -1
      else cmp_end (m a) (m b)
  end.
Definition strncmp (a b l : Z) m : Z := if l =? 0 then 0 else strncmp_loop (Z.to_nat (l - 1)) a b m.

(** ** Copies *)

Fixpoint strcpy (fuel : nat) d s m : outcome memory :=
  match fuel with
  | O => Crash BadAccess
  | S fuel => let m := upd m d (m s) in if m s =? 0 then Done m else strcpy fuel (d + 1) (s + 1) m
  end.

Fixpoint strncpy_pad (l : nat) d m : memory := match l with O => m | S l => strncpy_pad l (d + 1) (upd m d 0) end.
Fixpoint strncpy_loop (l : nat) d s m : memory :=
  match l with
  | O => m
  | S n => if negb (m s =? 0) then strncpy_loop n (d + 1) (s + 1) (upd m d (m s)) else strncpy_pad l d m
  end.
Definition strncpy d s (l : Z) m : memory := strncpy_loop (Z.to_nat l) d s m.

(** The first loop of [strcat] and [strncat]. *)
Fixpoint string_end (fuel : nat) d m : outcome Z :=
  match fuel with O => Crash BadAccess | S fuel => if negb (m d =? 0) then string_end fuel (d + 1) m else Done d end.

Fixpoint strcat_loop (fuel : nat) d s m : outcome memory :=
  match fuel with
  | O => Crash BadAccess
  | S fuel => if negb (m s =? 0) then strcat_loop fuel (d + 1) (s + 1) (upd m d (m s)) else Done (upd m d 0)
  end.
Definition strcat (fuel : nat) d s m : outcome memory := do e <- string_end fuel d m; strcat_loop fuel e s m.

Fixpoint strncat_loop (n : nat) d s m : memory :=
  match n with
  | O => upd m d 0
  | S n => if negb (m s =? 0) then strncat_loop n (d + 1) (s + 1) (upd m d (m s)) else upd m d 0
  end.
Definition strncat (fuel : nat) d s (n : Z) m : outcome memory := do e <- string_end fuel d m; Done (strncat_loop (Z.to_nat n) e s m).

(** ** Search *)

Fixpoint strchr (fuel : nat) s (c : Z) m : outcome (option Z) :=
  match fuel with
  | O => Crash BadAccess
  | S fuel => if negb (m s =? 0) && negb (m s =? c) then strchr fuel (s + 1) c m else Done (if m s =? c then Some s else None)
  end.

Fixpoint strrchr_loop (fuel : nat) (last : option Z) s (cb : Z) m : outcome (option Z) :=
  match fuel with
  | O => Crash BadAccess
  | S fuel => if negb (m s =? 0) then strrchr_loop fuel (if m s =? cb then Some s else last) (s + 1) cb m else Done last
  end.
Definition strrchr (fuel : nat) s (c : Z) m : outcome (option Z) := strrchr_loop fuel None s (u8 c) m.

Fixpoint strcspn_loop (fuel fuel_b : nat) (length a b : Z) m : outcome Z :=
  match fuel with
  | O => Crash BadAccess
  | S fuel =>
      if negb (m a =? 0) then
        do r <- strchr fuel_b b (m a) m;
        match r with Some _ => Done length | None => strcspn_loop fuel fuel_b (length + 1) (a + 1) b m end
      else Done length
  end.
Definition strcspn (fuel : nat) (a b : Z) m : outcome Z := strcspn_loop fuel fuel 0 a b m.

Fixpoint strstr_loop (fuel : nat) (haystack needle needle_len : Z) m : outcome (option Z) :=
  match fuel with
  | O => Crash BadAccess
  | S fuel =>
      if negb (m haystack =? 0) then
        if strncmp needle haystack needle_len m =? 0 then Done (Some haystack) else strstr_loop fuel (haystack + 1) needle needle_len m
      else Done None
  end.
Definition strstr (fuel : nat) (haystack needle : Z) m : outcome (option Z) :=
  do needle_len <- strlen fuel needle m; strstr_loop fuel haystack needle needle_len m.

(** ** Strings of memory *)

(** The string [l] is at [a]: its characters, none of them zero, and the zero byte. *)
Fixpoint cstring m a l : Prop :=
  match l with [] => m a = 0 | c :: l => m a = c /\ c <> 0 /\ cstring m (a + 1) l end.

(** The order of strings by their first difference; a proper prefix is less. *)
Fixpoint lex (l l' : list Z) : Z :=
  match l, l' with
  | [], [] => 0
  | [], _ => -1
  | _, [] => 1
  | c :: l, c' :: l' => if c =? c' then lex l l' else if c' <? c then 1 else -1
  end.

(** The [i]-th character, zero from the end on. *)
Definition char_at (l : list Z) (i : nat) : Z := nth i l 0.

Lemma char_at_in l i : (i < length l)%nat -> char_at l i ∈ l.
Proof. intros H. apply list_elem_of_In, nth_In, H. Qed.

Lemma cstring_chars m a l : cstring m a l <-> Forall (fun c => c <> 0) l /\ forall i : nat, (i <= length l)%nat -> m (a + Z.of_nat i) = char_at l i.
Proof.
  revert a. induction l as [|c l IH]; intros a; cbn [cstring].
  - split; [|intros [_ H]; specialize (H 0%nat ltac:(cbn; lia)); by rewrite Z.add_0_r in H].
    intros H. split; [constructor|]. intros i Hi. cbn in Hi. by replace i with 0%nat by lia; rewrite Z.add_0_r.
  - rewrite IH, Forall_cons. split.
    + intros (H1 & H2 & H3 & H4). split; [done|]. intros [|i] Hi; cbn in Hi; [by rewrite Z.add_0_r|].
      replace (a + Z.of_nat (S i)) with (a + 1 + Z.of_nat i) by lia. apply H4. lia.
    + intros [[H1 H2] H3]. split_and!; [specialize (H3 0%nat ltac:(cbn; lia)); by rewrite Z.add_0_r in H3|done|done|].
      intros i Hi. replace (a + 1 + Z.of_nat i) with (a + Z.of_nat (S i)) by lia. apply H3. cbn. lia.
Qed.

Lemma cstring_byte m a l i : cstring m a l -> (i <= length l)%nat -> m (a + Z.of_nat i) = char_at l i.
Proof. intros H. apply cstring_chars in H. apply H. Qed.

(** A string is not changed by stores elsewhere. *)
Lemma cstring_ext m m' a l : cstring m a l -> (forall b, a <= b <= a + Z.of_nat (length l) -> m' b = m b) -> cstring m' a l.
Proof.
  rewrite !cstring_chars. intros [H1 H2] H. split; [done|]. intros i Hi. rewrite H by lia. by apply H2.
Qed.

Lemma cstring_unique m a l l' : cstring m a l -> cstring m a l' -> l = l'.
Proof.
  revert a l'. induction l as [|c l IH]; intros a [|c' l']; cbn; [done|intros H (H1 & H2 & _); congruence|intros (H1 & H2 & _) H; congruence|].
  intros (H1 & H2 & H3) (H4 & H5 & H6). f_equal; [congruence|by apply (IH (a + 1))].
Qed.

(** ** Length *)

Lemma strlen_loop_ok fuel : forall k m a l, cstring m a l -> (length l < fuel)%nat -> 0 <= k -> k + Z.of_nat (length l) < 2 ^ 64 ->
  strlen_loop fuel k m a = Done (k + Z.of_nat (length l)).
Proof.
  induction fuel as [|fuel IH]; intros k m a l Hc Hl Hk Hm; [lia|]. cbn [strlen_loop]. destruct l as [|c l]; cbn [cstring length] in *.
  - rewrite Hc. cbn. f_equal. lia.
  - destruct Hc as (-> & Hne & Hc). apply Z.eqb_neq in Hne. rewrite Hne. cbn [negb]. rewrite wrap_small by (split; lia).
    rewrite (IH _ _ _ l) by (done || lia). f_equal. lia.
Qed.

Lemma strlen_ok fuel m a l : cstring m a l -> (length l < fuel)%nat -> Z.of_nat (length l) < 2 ^ 64 -> strlen fuel a m = Done (Z.of_nat (length l)).
Proof. intros. unfold strlen. rewrite (strlen_loop_ok _ _ _ _ l) by (done || lia). done. Qed.

Lemma strnlen_ok m n : forall a l, cstring m a l -> 0 <= n -> strnlen a n m = Z.min n (Z.of_nat (length l)).
Proof.
  intros a l Hc Hn. unfold strnlen. replace n with (Z.of_nat (Z.to_nat n)) at 2 by lia. generalize (Z.to_nat n) as k. clear n Hn. intros k.
  enough (G : forall c, strnlen_loop k c m a = c + Z.min (Z.of_nat k) (Z.of_nat (length l))) by (rewrite G; lia).
  revert a l Hc. induction k as [|k IH]; intros a l Hc c; cbn [strnlen_loop]; [lia|]. destruct l as [|b l]; cbn [cstring length] in *.
  - rewrite Hc. cbn. lia.
  - destruct Hc as (-> & Hne & Hc). apply Z.eqb_neq in Hne. rewrite Hne. cbn [negb]. rewrite (IH _ l Hc). lia.
Qed.

(** ** Comparison *)

Lemma strcmp_ok fuel : forall m a b l l', cstring m a l -> cstring m b l' -> (length l < fuel)%nat -> strcmp fuel a b m = Done (lex l l').
Proof.
  induction fuel as [|fuel IH]; intros m a b l l' Ha Hb Hf; [lia|]. cbn [strcmp]. unfold cmp_end.
  destruct l as [|c l], l' as [|c' l']; cbn [cstring length lex] in *.
  - by rewrite Ha, Hb.
  - destruct Hb as (-> & Hb & _). apply not_eq_sym, Z.eqb_neq in Hb. rewrite Ha. change (negb (0 =? 0)) with false. cbn [andb]. by rewrite Hb.
  - destruct Ha as (-> & Ha & _). apply Z.eqb_neq in Ha. rewrite Hb, Ha. done.
  - destruct Ha as (-> & Ha & Hl), Hb as (-> & Hb & Hl'). apply Z.eqb_neq in Ha, Hb. rewrite Ha, Hb. cbn [negb andb].
    destruct (c =? c'); [|done]. apply IH; [done..|lia].
Qed.

Lemma lex_eq l : forall l', lex l l' = 0 <-> l = l'.
Proof.
  induction l as [|c l IH]; intros [|c' l']; cbn; [done..|]. destruct (c =? c') eqn:E; b2p; [subst c'; rewrite IH; split; congruence|].
  split; [|congruence]. by destruct (c' <? c).
Qed.

Lemma cstring_pos m a l i : all_bytes m -> cstring m a l -> (i < length l)%nat -> 0 < char_at l i.
Proof.
  intros Hm Hc Hi. pose proof (Hm (a + Z.of_nat i)) as [H _]. rewrite (cstring_byte m a l i Hc) in H by lia. apply cstring_chars in Hc as [Hc _].
  rewrite Forall_forall in Hc. specialize (Hc _ (char_at_in l i Hi)). lia.
Qed.

(** Where the first difference of two strings is. *)
Definition first_diff (l l' : list Z) (i : nat) : Prop := take i l = take i l' /\ char_at l i <> char_at l' i.

Lemma first_diff_cons c l l' i : first_diff l l' i -> first_diff (c :: l) (c :: l') (S i).
Proof. intros [H1 H2]. split; [cbn; by rewrite H1|done]. Qed.

Lemma first_diff_head l l' : char_at l 0 <> char_at l' 0 -> first_diff l l' 0.
Proof. split; [done|done]. Qed.

(** What [strncmp] returns for a first difference at [i] when at most [S n] characters are compared. *)
Definition diff_sign (n i : nat) (l l' : list Z) : Z :=
  if bool_decide (i = n) then if char_at l i =? 0 then -1 else 1 else if char_at l' i <? char_at l i then 1 else -1.

Lemma strncmp_loop_ok n : forall m a b l l', all_bytes m -> cstring m a l -> cstring m b l' ->
  (take (S n) l = take (S n) l' /\ strncmp_loop n a b m = 0) \/
  exists i, (i <= n)%nat /\ first_diff l l' i /\ strncmp_loop n a b m = diff_sign n i l l'.
Proof.
  induction n as [|n IH]; intros m a b l l' Hm Ha Hb; cbn [strncmp_loop]; unfold cmp_end.
  all: pose proof (cstring_byte m a l 0 Ha ltac:(lia)) as Ea; pose proof (cstring_byte m b l' 0 Hb ltac:(lia)) as Eb;
    rewrite Z.add_0_r in Ea, Eb; pose proof (Hm a) as [Pa _]; pose proof (Hm b) as [Pb _].
  - destruct (m a =? m b) eqn:E; b2p.
    + left. split; [|done]. destruct l as [|c l], l' as [|c' l']; cbn [cstring] in *; destruct_and?; cbn; rewrite ?take_0; try done; congruence.
    + right. exists 0%nat. split_and!; [done|apply first_diff_head; congruence|]. unfold diff_sign. by rewrite bool_decide_true, <-Ea by done.
  - destruct (negb (m a =? 0) && negb (m b =? 0)) eqn:E0.
    + b2p. destruct l as [|c l], l' as [|c' l']; [done|done|done|]. destruct Ha as (_ & _ & Ha), Hb as (_ & _ & Hb). cbn in Ea, Eb.
      destruct (m a =? m b) eqn:E; b2p.
      * replace c' with c by congruence. destruct (IH m (a + 1) (b + 1) l l' Hm Ha Hb) as [[H1 H2]|(i & Hi & Hd & Hs)].
        -- left. split; [|done]. cbn [take]. by rewrite H1.
        -- right. exists (S i). split_and!; [lia|by apply first_diff_cons|]. rewrite Hs. unfold diff_sign. case_bool_decide; case_bool_decide; try lia; done.
      * right. exists 0%nat. split_and!; [lia|apply first_diff_head; cbn; congruence|]. unfold diff_sign. rewrite bool_decide_false by done. by rewrite Ea, Eb.
    + destruct (m a =? m b) eqn:E; b2p.
      * left. split; [|done]. apply andb_false_iff in E0 as [E0|E0]; b2p;
          destruct l as [|c l], l' as [|c' l']; cbn [cstring] in *; destruct_and?; cbn; rewrite ?take_0; try done; congruence.
      * right. exists 0%nat. split_and!; [lia|apply first_diff_head; congruence|]. unfold diff_sign. rewrite bool_decide_false, <-Ea, <-Eb by done.
        apply andb_false_iff in E0. destruct (m a =? 0) eqn:E1, (m b <? m a) eqn:E2; b2p; try done; [lia|].
        destruct E0 as [E0|E0]; b2p; [done|lia].
Qed.

(** ** Copies *)

(** Two buffers of sizes [n] and [k] do not overlap. *)
Definition apart (d n s k : Z) : Prop := d + n <= s \/ s + k <= d.

Lemma strcpy_ok fuel : forall d s m l, cstring m s l -> (length l < fuel)%nat ->
  apart d (Z.of_nat (length l) + 1) s (Z.of_nat (length l) + 1) -> strcpy fuel d s m = Done (put_bytes (l ++ [0]) d m).
Proof.
  induction fuel as [|fuel IH]; intros d s m l Hc Hl Ha; [lia|]. cbn [strcpy]. unfold apart in Ha. destruct l as [|c l]; cbn [cstring length app put_bytes] in *.
  - rewrite upd_ne, Hc by lia. done.
  - destruct Hc as (E & Hne & Hc). rewrite upd_ne, E by lia. apply Z.eqb_neq in Hne. rewrite Hne. apply IH; [|lia|unfold apart; lia].
    eapply cstring_ext; [exact Hc|]. intros b Hb. apply upd_ne. lia.
Qed.

Lemma strncpy_pad_ok n : forall d m, strncpy_pad n d m = put_bytes (replicate n 0) d m.
Proof. induction n as [|n IH]; intros d m; cbn; [done|apply IH]. Qed.

Lemma strncpy_ok d s n m l : cstring m s l -> 0 <= n -> apart d n s (Z.of_nat (length l) + 1) ->
  strncpy d s n m = put_bytes (take (Z.to_nat n) l ++ replicate (Z.to_nat n - length l) 0) d m.
Proof.
  intros Hc Hn Ha. unfold strncpy. replace n with (Z.of_nat (Z.to_nat n)) in Ha by lia. revert d s m l Hc Ha. generalize (Z.to_nat n) as k. clear.
  unfold apart. induction k as [|k IH]; intros d s m l Hc Ha; cbn [strncpy_loop]; [by destruct l|]. destruct l as [|c l]; cbn [cstring length] in *.
  - rewrite Hc. cbn [negb Z.eqb take app Nat.sub]. apply strncpy_pad_ok.
  - destruct Hc as (E & Hne & Hc). apply Z.eqb_neq in Hne. rewrite E, Hne. cbn [negb take app put_bytes Nat.sub]. apply IH; [|lia].
    eapply cstring_ext; [exact Hc|]. intros b Hb. apply upd_ne. lia.
Qed.

Lemma string_end_ok fuel : forall d m l, cstring m d l -> (length l < fuel)%nat -> string_end fuel d m = Done (d + Z.of_nat (length l)).
Proof.
  induction fuel as [|fuel IH]; intros d m l Hc Hl; [lia|]. cbn [string_end]. destruct l as [|c l]; cbn [cstring length] in *.
  - rewrite Hc. cbn. f_equal. lia.
  - destruct Hc as (E & Hne & Hc). apply Z.eqb_neq in Hne. rewrite E, Hne. cbn [negb]. rewrite (IH _ _ l) by (done || lia). f_equal. lia.
Qed.

Lemma strcat_loop_ok fuel : forall d s m l, cstring m s l -> (length l < fuel)%nat ->
  apart d (Z.of_nat (length l)) s (Z.of_nat (length l) + 1) -> strcat_loop fuel d s m = Done (put_bytes (l ++ [0]) d m).
Proof.
  induction fuel as [|fuel IH]; intros d s m l Hc Hl Ha; [lia|]. cbn [strcat_loop]. unfold apart in Ha. destruct l as [|c l]; cbn [cstring length app put_bytes] in *.
  - by rewrite Hc.
  - destruct Hc as (E & Hne & Hc). apply Z.eqb_neq in Hne. rewrite E, Hne. cbn [negb]. apply IH; [|lia|unfold apart; lia].
    eapply cstring_ext; [exact Hc|]. intros b Hb. apply upd_ne. lia.
Qed.

Lemma strcat_ok fuel d s m l l' : cstring m d l -> cstring m s l' -> (length l < fuel)%nat -> (length l' < fuel)%nat ->
  apart d (Z.of_nat (length l) + Z.of_nat (length l')) s (Z.of_nat (length l') + 1) ->
  strcat fuel d s m = Done (put_bytes (l' ++ [0]) (d + Z.of_nat (length l)) m).
Proof.
  intros Hd Hs Hl Hl' Ha. unfold strcat. rewrite (string_end_ok _ _ _ l) by done. cbn [obind]. apply strcat_loop_ok; [done..|]. unfold apart in *. lia.
Qed.

Lemma strncat_ok fuel d s n m l l' : cstring m d l -> cstring m s l' -> (length l < fuel)%nat -> 0 <= n ->
  apart d (Z.of_nat (length l) + Z.of_nat (length l')) s (Z.of_nat (length l') + 1) ->
  strncat fuel d s n m = Done (put_bytes (take (Z.to_nat n) l' ++ [0]) (d + Z.of_nat (length l)) m).
Proof.
  intros Hd Hs Hl Hn Ha. unfold strncat. rewrite (string_end_ok _ _ _ l) by done. cbn [obind]. f_equal. unfold apart in Ha.
  assert (H : d + Z.of_nat (length l) + Z.of_nat (length l') <= s \/ s + Z.of_nat (length l') + 1 <= d + Z.of_nat (length l)) by lia.
  revert H. generalize (d + Z.of_nat (length l)). clear -Hs. revert s m l' Hs. generalize (Z.to_nat n) as k.
  induction k as [|k IH]; intros s m l' Hs e H; cbn [strncat_loop]; [by rewrite take_0|]. destruct l' as [|c l']; cbn [cstring length] in *.
  - by rewrite Hs.
  - destruct Hs as (E & Hne & Hc). apply Z.eqb_neq in Hne. rewrite E, Hne. cbn [negb take app put_bytes]. apply IH; [|lia].
    eapply cstring_ext; [exact Hc|]. intros b Hb. apply upd_ne. lia.
Qed.

(** What the copies write reads back as the string. *)
Lemma cstring_put l a m : Forall (fun c => c <> 0) l -> cstring (put_bytes (l ++ [0]) a m) a l.
Proof.
  intros H. apply cstring_chars. split; [done|]. intros i Hi. rewrite put_bytes_val, length_app. cbn [length].
  replace ((a <=? a + Z.of_nat i) && _) with true by in_range. unfold char_at. replace (Z.to_nat (a + Z.of_nat i - a)) with i by lia.
  destruct (decide (i < length l)%nat).
  - by rewrite app_nth1 by done.
  - replace i with (length l) by lia. rewrite app_nth2, Nat.sub_diag by lia. by rewrite (nth_overflow l) by lia.
Qed.

(** ** Search *)

(** [i] is the first place of [l], its end included, where [P] holds. *)
Definition first_place (P : nat -> Prop) (i : nat) : Prop := P i /\ forall j, (j < i)%nat -> ~ P j.

Lemma first_place_next (P : nat -> Prop) i : ~ P 0%nat -> first_place (fun j => P (S j)) i -> first_place P (S i).
Proof. intros H0 [H1 H2]. split; [done|]. intros [|j] Hj; [done|apply H2; lia]. Qed.

Lemma strchr_ok fuel : forall s c m l, cstring m s l -> (length l < fuel)%nat ->
  exists r, strchr fuel s c m = Done r /\
    match r with
    | Some p => exists i, (i <= length l)%nat /\ p = s + Z.of_nat i /\ first_place (fun i => char_at l i = c) i
    | None => forall i, (i <= length l)%nat -> char_at l i <> c
    end.
Proof.
  induction fuel as [|fuel IH]; intros s c m l Hc Hl; [lia|]. cbn [strchr]. pose proof (cstring_byte m s l 0 Hc ltac:(lia)) as E0. rewrite Z.add_0_r in E0.
  destruct (m s =? c) eqn:Ec; b2p.
  { rewrite andb_false_r. eexists. split; [done|]. exists 0%nat. split_and!; [lia|lia|split; [congruence|intros j Hj; lia]]. }
  destruct l as [|b l]; cbn [cstring length] in *.
  - rewrite Hc. cbn [Z.eqb negb andb]. eexists. split; [done|]. intros i Hi. replace i with 0%nat by lia. cbn. congruence.
  - destruct Hc as (E & Hne & Hc). apply Z.eqb_neq in Hne. rewrite E, Hne. cbn [negb andb].
    destruct (IH (s + 1) c m l Hc ltac:(lia)) as (r & Er & H). exists r. split; [done|]. destruct r as [p|].
    + destruct H as (i & Hi & -> & H). exists (S i). split_and!; [lia|lia|]. apply first_place_next; [cbn; congruence|done].
    + intros [|i] Hi; [cbn; congruence|apply (H i); lia].
Qed.

(** The last place before the end: the end itself is never found. *)
Lemma strrchr_ok fuel s c m l : cstring m s l -> (length l < fuel)%nat ->
  exists r, strrchr fuel s c m = Done r /\
    match r with
    | Some p => exists i, (i < length l)%nat /\ p = s + Z.of_nat i /\ char_at l i = u8 c /\ forall j, (i < j < length l)%nat -> char_at l j <> u8 c
    | None => forall i, (i < length l)%nat -> char_at l i <> u8 c
    end.
Proof.
  unfold strrchr. generalize (u8 c) as x. clear c. intros x. intros Hc Hl.
  enough (G : forall fuel s l last, cstring m s l -> (length l < fuel)%nat -> exists r, strrchr_loop fuel last s x m = Done r /\
    ((r = last /\ forall i, (i < length l)%nat -> char_at l i <> x) \/
     exists i, (i < length l)%nat /\ r = Some (s + Z.of_nat i) /\ char_at l i = x /\ forall j, (i < j < length l)%nat -> char_at l j <> x)).
  { destruct (G fuel s l None Hc Hl) as (r & Er & H). exists r. split; [done|]. destruct H as [[-> H]|(i & Hi & -> & H)]; [done|]. by exists i. }
  clear. induction fuel as [|fuel IH]; intros s l last Hc Hl; [lia|]. cbn [strrchr_loop]. destruct l as [|b l]; cbn [cstring length] in *.
  - rewrite Hc. cbn. eexists. split; [done|]. left. split; [done|]. intros i Hi. lia.
  - destruct Hc as (E & Hne & Hc). apply Z.eqb_neq in Hne. rewrite E, Hne. cbn [negb].
    destruct (IH (s + 1) l (if b =? x then Some s else last) Hc ltac:(lia)) as (r & Er & [[-> H]|(i & Hi & -> & Hx & H)]); eexists; (split; [exact Er|]).
    + destruct (b =? x) eqn:Eb; b2p.
      * right. exists 0%nat. split_and!; [lia|f_equal; lia|done|]. intros [|j] Hj; [lia|]. apply (H j). lia.
      * left. split; [done|]. intros [|i] Hi; [done|apply (H i); lia].
    + right. exists (S i). split_and!; [lia|f_equal; lia|done|]. intros [|j] Hj; [lia|]. apply (H j). lia.
Qed.

(** The first place with a character of the other string, or the end. *)
Lemma strcspn_ok fuel a b m l l' : cstring m a l -> cstring m b l' -> (length l < fuel)%nat -> (length l' < fuel)%nat ->
  exists i, (i <= length l)%nat /\ strcspn fuel a b m = Done (Z.of_nat i) /\ first_place (fun i => i = length l \/ char_at l i ∈ l') i.
Proof.
  intros Ha Hb Hl Hl'. unfold strcspn.
  enough (G : forall f a l k, cstring m a l -> (length l < f)%nat -> exists i, (i <= length l)%nat /\
    strcspn_loop f fuel k a b m = Done (k + Z.of_nat i) /\ first_place (fun i => i = length l \/ char_at l i ∈ l') i).
  { destruct (G fuel a l 0 Ha Hl) as (i & H1 & H2 & H3). by exists i. }
  clear a l Ha Hl. induction f as [|f IH]; intros a l k Ha Hl; [lia|]. cbn [strcspn_loop]. destruct l as [|c l]; cbn [cstring length] in *.
  - rewrite Ha. cbn. exists 0%nat. split_and!; [lia|f_equal; lia|split; [by left|intros j Hj; lia]].
  - destruct Ha as (E & Hne & Ha). pose proof Hne as Hne'. apply Z.eqb_neq in Hne'. rewrite E, Hne'. cbn [negb].
    destruct (strchr_ok fuel b c m l' Hb Hl') as (r & -> & H). cbn [obind]. destruct r as [p|].
    + destruct H as (i & Hi & _ & Hc & _). exists 0%nat. split_and!; [lia|f_equal; lia|split; [|intros j Hj; lia]]. right. cbn. rewrite <-Hc. apply char_at_in.
      destruct (decide (i = length l')) as [->|]; [|lia]. unfold char_at in Hc. rewrite nth_overflow in Hc by lia. congruence.
    + destruct (IH (a + 1) l (k + 1) Ha ltac:(lia)) as (i & Hi & Er & Hf). exists (S i). split_and!; [lia|rewrite Er; f_equal; lia|].
      apply first_place_next.
      * intros [?|Hin]; [done|]. cbn in Hin. apply list_elem_of_lookup in Hin as [j Hj]. apply (H j); [apply lookup_lt_Some in Hj; lia|].
        by apply nth_lookup_Some.
      * destruct Hf as [[->|Hf] Hf']; split; [by left| |by right|]; intros j Hj [?|Hx]; (eapply (Hf' j); [lia|]); [left; lia|by right|left; lia|by right].
Qed.

Lemma char_at_take k l i : (i < k)%nat -> char_at (take k l) i = char_at l i.
Proof.
  unfold char_at. revert k i. induction l as [|c l IH]; intros [|k] [|i] H; cbn; try done; try lia. apply IH. lia.
Qed.

Lemma diff_sign_nonzero n i l l' : diff_sign n i l l' <> 0.
Proof. unfold diff_sign. by repeat case_match. Qed.

Lemma strncmp_zero a b n m l l' : all_bytes m -> cstring m a l -> cstring m b l' -> 0 <= n ->
  strncmp a b n m = 0 <-> take (Z.to_nat n) l = take (Z.to_nat n) l'.
Proof.
  intros Hm Ha Hb Hn. unfold strncmp. destruct (n =? 0) eqn:E; b2p; [subst n; by rewrite !take_0|].
  replace (Z.to_nat n) with (S (Z.to_nat (n - 1))) by lia. destruct (strncmp_loop_ok (Z.to_nat (n - 1)) m a b l l' Hm Ha Hb) as [[H1 H2]|(i & Hi & [H1 H2] & H3)]; [done|].
  rewrite H3. split; intros H; [by apply diff_sign_nonzero in H|]. destruct H2. rewrite <-(char_at_take (S (Z.to_nat (n - 1)))), H by lia. apply char_at_take. lia.
Qed.

Lemma cstring_drop m a l i : cstring m a l -> (i <= length l)%nat -> cstring m (a + Z.of_nat i) (drop i l).
Proof.
  revert a i. induction l as [|c l IH]; intros a [|i] H Hi; cbn in *; rewrite ?Z.add_0_r; [done|lia|done|].
  replace (a + Z.of_nat (S i)) with (a + 1 + Z.of_nat i) by lia. apply IH; [apply H|lia].
Qed.

Lemma strstr_loop_ok fuel m b l' : forall a l, all_bytes m -> cstring m a l -> cstring m b l' -> (length l < fuel)%nat ->
  exists r, strstr_loop fuel a b (Z.of_nat (length l')) m = Done r /\
    match r with
    | Some p => exists i, (i < length l)%nat /\ p = a + Z.of_nat i /\ first_place (fun i => take (length l') (drop i l) = l') i
    | None => forall i, (i < length l)%nat -> take (length l') (drop i l) <> l'
    end.
Proof.
  induction fuel as [|fuel IH]; intros a l Hm Ha Hb Hl; [lia|]. cbn [strstr_loop]. destruct l as [|c l]; cbn [length] in *.
  { cbn in Ha. rewrite Ha. cbn. eexists. split; [done|]. intros i Hi. lia. }
  pose proof (strncmp_zero b a (Z.of_nat (length l')) m l' (c :: l) Hm Hb Ha ltac:(lia)) as Hz. rewrite Nat2Z.id, firstn_all in Hz.
  destruct Ha as (E & Hne & Ha). apply Z.eqb_neq in Hne. rewrite E, Hne. cbn [negb]. destruct (strncmp b a _ m =? 0) eqn:Ez; b2p.
  - eexists. split; [done|]. exists 0%nat. split_and!; [lia|lia|]. split; [symmetry; by apply Hz|intros j Hj; lia].
  - assert (H0 : take (length l') (c :: l) <> l') by (intros H; apply Ez, Hz; done).
    destruct (IH (a + 1) l Hm Ha Hb ltac:(lia)) as (r & Er & H). exists r. split; [done|]. destruct r as [p|].
    + destruct H as (i & Hi & -> & H). exists (S i). split_and!; [lia|lia|]. by apply first_place_next.
    + intros [|i] Hi; [done|]. apply (H i). lia.
Qed.

(** ** Theorems *)

(** C1: [strncmp] of two strings is zero exactly where their first [n]
    characters agree.  Otherwise the first difference decides: the result is 1
    or -1 by the order of the two characters, except where they are the [n]-th,
    the last compared: then it is 1 whatever their order, unless the first
    string has ended. *)
Theorem strncmp_correct a b n m l l' :
  all_bytes m -> cstring m a l -> cstring m b l' -> 0 <= n ->
  (strncmp a b n m = 0 <-> take (Z.to_nat n) l = take (Z.to_nat n) l') /\
  forall i, (Z.of_nat i < n) -> first_diff l l' i ->
    (Z.of_nat i + 1 < n -> strncmp a b n m = if char_at l' i <? char_at l i then 1 else -1) /\
    (Z.of_nat i + 1 = n -> strncmp a b n m = if char_at l i =? 0 then -1 else 1).
Proof.
  intros Hm Ha Hb Hn. split; [by apply strncmp_zero|]. intros i Hi Hd. unfold strncmp. replace (n =? 0) with false by (symmetry; apply Z.eqb_neq; lia).
  assert (D : strncmp_loop (Z.to_nat (n - 1)) a b m = diff_sign (Z.to_nat (n - 1)) i l l').
  { destruct Hd as [D1 D2]. destruct (strncmp_loop_ok (Z.to_nat (n - 1)) m a b l l' Hm Ha Hb) as [[H1 H2]|(j & Hj & [H1 H2] & ->)].
    - destruct D2. rewrite <-(char_at_take (S (Z.to_nat (n - 1)))), H1 by lia. apply char_at_take. lia.
    - f_equal. destruct (Nat.lt_trichotomy i j) as [H|[-> |H]]; [|done|].
      + destruct D2. rewrite <-(char_at_take j), H1 by lia. by apply char_at_take.
      + destruct H2. rewrite <-(char_at_take i), D1 by lia. by apply char_at_take. }
  rewrite D. unfold diff_sign. split; intros H; [rewrite bool_decide_false by lia|rewrite bool_decide_true by lia]; done.
Qed.

(** A byte string put at an address of zeros. *)
Definition literal (l : list Z) a m : memory := put_bytes (l ++ [0]) a m.

Lemma literal_bytes l a m : is_bytes l -> all_bytes m -> all_bytes (literal l a m).
Proof.
  intros Hl Hm b. unfold literal. rewrite put_bytes_val. destruct (_ && _); [|apply Hm].
  assert (H : is_bytes (l ++ [0])) by (apply Forall_app; split; [done|]; constructor; [split; lia|done]).
  destruct (nth_in_or_default (Z.to_nat (b - a)) (l ++ [0]) 0) as [Hi| ->]; [|split; lia].
  unfold is_bytes in H. rewrite Forall_forall in H. by apply H, list_elem_of_In.
Qed.

Definition two_strings (l l' : list Z) : memory := literal l' 200 (literal l 100 (fun _ => 0)).

(** "ab" and "az" differ at the second character: less for three characters, greater for two. *)
Lemma strncmp_correct_witness :
  strncmp 100 200 3 (two_strings [97; 98] [97; 122]) = -1 /\ strncmp 100 200 2 (two_strings [97; 98] [97; 122]) = 1.
Proof.
  set (m := two_strings [97; 98] [97; 122]).
  assert (Hm : all_bytes m) by (repeat apply literal_bytes; try (intros ?; split; lia); repeat (constructor; [split; lia|]); constructor).
  assert (Ha : cstring m 100 [97; 98]) by (vm_compute; split_and!; congruence). assert (Hb : cstring m 200 [97; 122]) by (vm_compute; split_and!; congruence).
  assert (Hd : first_diff [97; 98] [97; 122] 1) by (split; [done|cbn; lia]).
  destruct (strncmp_correct 100 200 3 m _ _ Hm Ha Hb ltac:(lia)) as [_ H3]. destruct (strncmp_correct 100 200 2 m _ _ Hm Ha Hb ltac:(lia)) as [_ H2].
  split; [apply (H3 1%nat); [lia|done|lia]|apply (H2 1%nat); [lia|done|lia]].
Defined.

(** C1: [strstr] returns the first place of a string that is not empty where the
    other begins, and null exactly where there is none; in the empty string it
    finds nothing, not even the empty string. *)
Theorem strstr_correct fuel a b m l l' :
  all_bytes m -> cstring m a l -> cstring m b l' -> (length l < fuel)%nat -> (length l' < fuel)%nat -> Z.of_nat (length l') < 2 ^ 64 ->
  exists r, strstr fuel a b m = Done r /\
    match r with
    | Some p => exists i, (i < length l)%nat /\ p = a + Z.of_nat i /\ first_place (fun i => take (length l') (drop i l) = l') i
    | None => forall i, (i < length l)%nat -> take (length l') (drop i l) <> l'
    end.
Proof.
  intros Hm Ha Hb Hl Hl' Hw. unfold strstr. rewrite (strlen_ok _ _ _ l') by done. cbn [obind]. by apply strstr_loop_ok.
Qed.

Example strrchr_end : strrchr 10 100 0 (two_strings [97; 98] []) = Done None.
Proof. vm_compute. reflexivity. Qed.

Example strstr_empty : strstr 10 100 200 (two_strings [] []) = Done None.
Proof. vm_compute. reflexivity. Qed.
