(* ===== verification/Sprintf.v ===== *)
(** * The C library: formatted output ([src/lib/sprintf.C], [ctype.C])

    A format and a string argument are lists of characters without the zero
    byte at their end, which is read as the end of the list.  The output goes to
    a [ConsoleBufferInterface], a class.  A store behind one of the buffers of 64
    characters, an argument of another type than the format asks for and a
    conversion the language leaves undefined are bad accesses. *)

From Stdlib Require Import Floats.SpecFloat.
From S2P Require Import Prelude.

(** [operator()]. *)
Class ConsoleBufferInterface (S : Type) : Type := putc : S -> Z -> S.

(** ** Character classes *)

Definition toupper (ch : Z) : Z := if (97 <=? ch) && (ch <=? 122) then Z.land ch (Z.lnot 0x20) else ch.
Definition isdigit (c : Z) : bool := (48 <=? c) && (c <=? 57).
Definition isxdigit (c : Z) : bool :=
  ((48 <=? c) && (c <=? 57)) || ((97 <=? c) && (c <=? 102)) || ((65 <=? c) && (c <=? 70)).

(** ** Options *)

Definition digits : list Z := [48; 49; 50; 51; 52; 53; 54; 55; 56; 57; 97; 98; 99; 100; 101; 102].

Definition ALT_FORM : Z := 0x1.
Definition ZERO_PAD : Z := 0x2.
Definition LEFT_ALIGN : Z := 0x4.
Definition EMPTY_SIGN : Z := 0x8.
Definition PLUS_SIGN : Z := 0x10.

Inductive lengths : Type := LEN_INT | LEN_CHAR | LEN_SHORT | LEN_LONG | LEN_LONGLONG | LEN_SIZET | LEN_PTRDIFF.
Inductive types : Type :=
| TYPE_PERCENT | TYPE_SIGNED_DECIMAL | TYPE_DECIMAL | TYPE_OCTAL | TYPE_HEX | TYPE_BINARY
| TYPE_CHAR | TYPE_STRING | TYPE_PTR | TYPE_DOUBLE.

#[global] Instance lengths_eq_dec : EqDecision lengths.
Proof. solve_decision. Defined.
#[global] Instance types_eq_dec : EqDecision types.
Proof. solve_decision. Defined.

Record format_options : Type := mkOptions {
  flags : Z;
  field_width : Z;
  precision : Z;
  length : lengths;
  upper : bool;
  type : types
}.

Definition has (f : format_options) (b : Z) : bool := negb (Z.land (flags f) b =? 0).

(** ** Parsing *)

(** The character at [fmt]. *)
Definition cur (fmt : list Z) : Z := hd 0 fmt.

Fixpoint parse_flags (fmt : list Z) (fl : Z) : list Z * Z :=
  match fmt with
  | [] => (fmt, fl)
  | c :: fmt' =>
      if c =? 35 then parse_flags fmt' (Z.lor fl ALT_FORM)
      else if c =? 48 then parse_flags fmt' (Z.lor fl ZERO_PAD)
      else if c =? 45 then parse_flags fmt' (Z.lor fl LEFT_ALIGN)
      else if c =? 32 then parse_flags fmt' (Z.lor fl EMPTY_SIGN)
      else if c =? 43 then parse_flags fmt' (Z.lor fl PLUS_SIGN)
      else (fmt, fl)
  end.

(** [*= 10; += *fmt - '0'], a [size_t]. *)
Fixpoint parse_number (fmt : list Z) (n : Z) : list Z * Z :=
  match fmt with
  | [] => (fmt, n)
  | c :: fmt' => if isdigit c then parse_number fmt' (u64 (u64 (n * 10) + (c - 48))) else (fmt, n)
  end.

Fixpoint parse_length (fmt : list Z) (len : lengths) : list Z * lengths :=
  match fmt with
  | [] => (fmt, len)
  | c :: fmt' =>
      if c =? 104 then
        parse_length fmt' (if bool_decide (len = LEN_SHORT) || bool_decide (len = LEN_CHAR) then LEN_CHAR else LEN_SHORT)
      else if c =? 108 then
        parse_length fmt' (if bool_decide (len = LEN_LONG) || bool_decide (len = LEN_LONGLONG) then LEN_LONGLONG else LEN_LONG)
      else if c =? 122 then parse_length fmt' LEN_SIZET
      else if c =? 116 then parse_length fmt' LEN_PTRDIFF
      else (fmt, len)
  end.

(** The type and whether it is in upper case. *)
Definition parse_type (c : Z) : types * bool :=
  if (c =? 100) || (c =? 105) then (TYPE_SIGNED_DECIMAL, false)
  else if c =? 111 then (TYPE_OCTAL, false)
  else if c =? 117 then (TYPE_DECIMAL, false)
  else if c =? 120 then (TYPE_HEX, false)
  else if c =? 88 then (TYPE_HEX, true)
  else if c =? 98 then (TYPE_BINARY, false)
  else if c =? 66 then (TYPE_BINARY, true)
  else if c =? 99 then (TYPE_CHAR, false)
  else if c =? 115 then (TYPE_STRING, false)
  else if c =? 112 then (TYPE_PTR, false)
  else if c =? 102 then (TYPE_DOUBLE, false)
  else (TYPE_PERCENT, false).

(** [fmt] is at a percent sign; the early return does not step over a second. *)
Definition parse_format_options (fmt : list Z) : format_options * list Z :=
  let fmt := tail fmt in
  if (cur fmt =? 0) || (cur fmt =? 37) then (mkOptions 0 0 0 LEN_INT false TYPE_PERCENT, fmt)
  else
    let '(fmt, flags) := parse_flags fmt 0 in
    let '(fmt, field_width) := parse_number fmt 0 in
    let '(fmt, precision) := if cur fmt =? 46 then parse_number (tail fmt) 0 else (fmt, 0) in
    let '(fmt, length) := parse_length fmt LEN_INT in
    let '(type, upper) := parse_type (cur fmt) in
    (mkOptions flags field_width precision length upper type, tail fmt).

(** ** Numbers *)

(** [output[len++] = c] for a buffer of 64 characters, the first written at the head. *)
Definition push (output : list Z) (c : Z) : outcome (list Z) :=
  if (List.length output <? 64)%nat then Done (output ++ [c]) else Crash BadAccess.

Fixpoint convert_loop (fuel : nat) (output : list Z) (i_number i_base : Z) : outcome (list Z) :=
  match fuel with
  | O => Crash BadAccess
  | S fuel =>
      if i_number =? 0 then Done output
      else
        do output <- push output (nth (Z.to_nat (i_number mod i_base)) digits 0);
        convert_loop fuel output (i_number / i_base) i_base
  end.
(** Every round but the last stores a character, and there is room for 64. *)
Definition convert_number_to_ascii (output : list Z) (i_number i_base : Z) : outcome (list Z) :=
  if i_number =? 0 then push output (nth 0 digits 0) else convert_loop 65 output i_number i_base.

(** [while (len < limit)], where [len] may count more than the buffer. *)
Fixpoint zeros (fuel : nat) (output : list Z) (len limit : Z) : outcome (list Z) :=
  match fuel with
  | O => Crash BadAccess
  | S fuel => if len <? limit then do output <- push output (nth 0 digits 0); zeros fuel output (len + 1) limit else Done output
  end.

Definition s64 (x : Z) : Z := if x <? 2 ^ 63 then x else x - 2 ^ 64.

(** The sign, zero for none, and the number without it; the negation wraps. *)
Definition number_sign (f : format_options) (number : Z) : Z * Z :=
  if bool_decide (type f = TYPE_SIGNED_DECIMAL) then
    if s64 number <? 0 then (45, u64 (- s64 number))
    else if has f PLUS_SIGN then (43, number)
    else if has f EMPTY_SIGN then (32, number)
    else (0, number)
  else (0, number).

Definition number_base (f : format_options) : Z :=
  match type f with TYPE_BINARY => 2 | TYPE_OCTAL => 8 | TYPE_HEX | TYPE_PTR => 16 | _ => 10 end.

Definition number_special (f : format_options) : list Z :=
  if has f ALT_FORM || bool_decide (type f = TYPE_PTR) then
    match type f with TYPE_BINARY => [48; 98] | TYPE_HEX | TYPE_PTR => [48; 120] | TYPE_OCTAL => [48] | _ => [] end
  else [].

(** ** Doubles *)

Definition double : Type := spec_float.
Definition dprec : Z := 53.
Definition demax : Z := 1024.

(** [static_cast<uint64_t>], undefined where the integral part does not fit, and back. *)
Definition uint64_of_double (d : double) : outcome Z :=
  match d with
  | S754_zero _ => Done 0
  | S754_finite s m e =>
      let n := Z.shiftl (Zpos m) e in
      if if s then n =? 0 else n <? 2 ^ 64 then Done n else Crash BadAccess
  | _ => Crash BadAccess
  end.
Definition double_of_uint64 (n : Z) : double := binary_normalize dprec demax n 0 false.

(** The number of the form [digits * 10^-k], rounded, for the examples. *)
Definition decimal (n k : Z) : double := SFdiv dprec demax (double_of_uint64 n) (double_of_uint64 (10 ^ k)).

Fixpoint double_loop (fuel : nat) (l_doubleTemp : double) (l_integerPartTemp l_doubleMultiplier : Z) : outcome Z :=
  match fuel with
  | O => Crash BadAccess
  | S fuel =>
      if SFltb (S754_zero false) (SFsub dprec demax l_doubleTemp (double_of_uint64 l_integerPartTemp)) then
        let l_doubleTemp := SFmul dprec demax l_doubleTemp (double_of_uint64 10) in
        do l_integerPartTemp <- uint64_of_double l_doubleTemp;
        double_loop fuel l_doubleTemp l_integerPartTemp (u64 (l_doubleMultiplier * 10))
      else Done l_doubleMultiplier
  end.

(** The characters of the double: the digits behind the point are those of an
    integer. *)
Definition double_string (i_doubleNumber : double) : outcome (list Z) :=
  do l_integerPart <- uint64_of_double i_doubleNumber;
  do l_doubleMultiplier <- double_loop 400 i_doubleNumber l_integerPart 1;
  do after <- if 1 <? l_doubleMultiplier then
    uint64_of_double (SFmul dprec demax (SFsub dprec demax i_doubleNumber (double_of_uint64 l_integerPart)) (double_of_uint64 l_doubleMultiplier))
    else Done 0;
  do buffer <- convert_number_to_ascii [] after 10;
  do buffer <- push buffer 46;
  do buffer <- convert_number_to_ascii buffer l_integerPart 10;
  do _ <- push buffer 0;
  Done (rev buffer).

(** ** Output *)

(** The next argument by its type: [int] or [unsigned int]; [long], [size_t] or
    [ptrdiff_t], as 64 bits; a pointer; a string; a double. *)
Inductive va_arg : Type :=
| VInt (v : Z)
| VLong (v : Z)
| VPtr (v : Z)
| VStr (l : list Z)
| VDouble (d : double).

Definition s32 (x : Z) : Z := if u32 x <? 2 ^ 31 then u32 x else u32 x - 2 ^ 32.

Section output.
Context {St : Type} `{ConsoleBufferInterface St}.
Implicit Types (func : St) (f : format_options) (count size : Z).

Fixpoint spaces (n : nat) func count : St * Z :=
  match n with O => (func, count) | S n => spaces n (putc func 32) (u64 (count + 1)) end.

Definition display_pre_header func f size : St * Z :=
  if negb (has f LEFT_ALIGN) && negb (field_width f =? 0) then spaces (Z.to_nat (field_width f - size)) func 0 else (func, 0).
Definition display_post_header func f size : St * Z :=
  if has f LEFT_ALIGN && negb (field_width f =? 0) then spaces (Z.to_nat (field_width f - size)) func 0 else (func, 0).

Fixpoint put_chars (l : list Z) func count : St * Z :=
  match l with [] => (func, count) | c :: l => put_chars l (putc func c) (u64 (count + 1)) end.

Definition display_string func f (string : list Z) : St * Z :=
  let len := Z.of_nat (List.length string) in
  let '(func, c) := display_pre_header func f len in
  let count := u64 (0 + c) in
  let '(func, count) := put_chars string func count in
  let '(func, c) := display_post_header func f len in
  (func, u64 (count + c)).

Definition display_number func f (number : Z) : outcome (St * Z) :=
  let '(sign, number) := number_sign f number in
  let base := number_base f in
  let special := number_special f in
  do output <- convert_number_to_ascii [] number base;
  do output <- zeros 65 output (Z.of_nat (List.length output)) (precision f);
  let total_len := Z.of_nat (List.length output) + (if sign =? 0 then 0 else 1) + Z.of_nat (List.length special) in
  do x <- if has f ZERO_PAD then
    do output <- zeros 65 output total_len (field_width f); Done (output, func, 0)
    else let '(func, c) := display_pre_header func f total_len in Done (output, func, u64 (0 + c));
  let '(output, func, count) := x in
  let '(func, count) := if sign =? 0 then (func, count) else (putc func sign, u64 (count + 1)) in
  let up c := if upper f then toupper c else c in
  let '(func, count) := put_chars (map up special) func count in
  let '(func, count) := put_chars (map up (rev output)) func count in
  if has f ZERO_PAD then Done (func, count)
  else let '(func, c) := display_post_header func f total_len in Done (func, u64 (count + c)).

Definition display_double func f (d : double) : outcome (St * Z) :=
  do string <- double_string d; Done (display_string func f string).

(** The number of the cases that share the default label. *)
Definition va_number (len : lengths) (args : list va_arg) : outcome (Z * list va_arg) :=
  match len, args with
  | (LEN_INT | LEN_CHAR | LEN_SHORT), VInt v :: args => Done (u32 v, args)
  | (LEN_LONG | LEN_LONGLONG | LEN_SIZET | LEN_PTRDIFF), VLong v :: args => Done (u64 v, args)
  | _, _ => Crash BadAccess
  end.

(** One conversion; [count] is an [int]. *)
Definition convert func f (args : list va_arg) count : outcome (St * list va_arg * Z) :=
  match type f with
  | TYPE_PERCENT => Done (putc func 37, args, s32 (count + 1))
  | TYPE_PTR =>
      match args with
      | VPtr v :: args => do x <- display_number func f (u64 v); Done (x.1, args, count)
      | _ => Crash BadAccess
      end
  | TYPE_CHAR =>
      match args with
      | VInt v :: args =>
          let '(func, c) := display_pre_header func f 1 in
          let count := s32 (count + c) in
          let func := putc func (s32 v) in
          let count := s32 (count + 1) in
          let '(func, c) := display_post_header func f 1 in
          Done (func, args, s32 (count + c))
      | _ => Crash BadAccess
      end
  | TYPE_STRING =>
      match args with
      | VStr l :: args => let '(func, c) := display_string func f l in Done (func, args, s32 (count + c))
      | _ => Crash BadAccess
      end
  | TYPE_DOUBLE =>
      match args with
      | VDouble d :: args => do x <- display_double func f d; Done (x.1, args, s32 (count + x.2))
      | _ => Crash BadAccess
      end
  | _ =>
      do x <- va_number (length f) args;
      do y <- display_number func f x.1; Done (y.1, x.2, s32 (count + y.2))
  end.

(** Every round takes a character of the format at least. *)
Fixpoint vasprintf_loop (fuel : nat) func (fmt : list Z) (args : list va_arg) count : outcome (St * Z) :=
  match fuel with
  | O => Crash BadAccess
  | S fuel =>
      match fmt with
      | [] => Done (func, count)
      | c :: fmt' =>
          if c =? 37 then
            let '(f, fmt) := parse_format_options fmt in
            do x <- convert func f args count;
            let '(func, args, count) := x in vasprintf_loop fuel func fmt args count
          else vasprintf_loop fuel (putc func c) fmt' args (s32 (count + 1))
      end
  end.
Definition vasprintf func (fmt : list Z) (args : list va_arg) : outcome (St * Z) :=
  vasprintf_loop (S (List.length fmt)) func fmt args 0.
End output.
