(* ===== verification/SprintfNum.v ===== *)
(** * Formatted output: its text, and the numbers in it

    First, formatted output does not look at its console: two consoles in related
    states stay related and the results are the same, so the output of
    [vasprintf] is a list of characters put one after the other.  Then the digits
    of a number, the padding and the buffer of 64 characters. *)

From S2P Require Import Prelude Sprintf.

(** Outcomes with the same fault or related values. *)
Inductive orel {A B} (R : A -> B -> Prop) : outcome A -> outcome B -> Prop :=
| orel_done a b : R a b -> orel R (Done a) (Done b)
| orel_crash f : orel R (Crash f) (Crash f).

Section two.
Context {S1 S2 : Type} `{C1 : ConsoleBufferInterface S1} `{C2 : ConsoleBufferInterface S2}.
Variable R : S1 -> S2 -> Prop.
Hypothesis R_putc : forall s1 s2 c, R s1 s2 -> R (putc s1 c) (putc s2 c).

(** Related consoles, the same count. *)
Definition prel (x : S1 * Z) (y : S2 * Z) : Prop := R x.1 y.1 /\ x.2 = y.2.

Lemma spaces_rel n : forall s1 s2 c, R s1 s2 -> prel (spaces n s1 c) (spaces n s2 c).
Proof. induction n as [|n IH]; intros s1 s2 c H; cbn; [done|]. apply IH. by apply R_putc. Qed.

Lemma put_chars_rel l : forall s1 s2 c, R s1 s2 -> prel (put_chars l s1 c) (put_chars l s2 c).
Proof. induction l as [|x l IH]; intros s1 s2 c H; cbn; [done|]. apply IH. by apply R_putc. Qed.

Lemma pre_header_rel s1 s2 f n : R s1 s2 -> prel (display_pre_header s1 f n) (display_pre_header s2 f n).
Proof. intros H. unfold display_pre_header. case_match; [by apply spaces_rel|done]. Qed.

Lemma post_header_rel s1 s2 f n : R s1 s2 -> prel (display_post_header s1 f n) (display_post_header s2 f n).
Proof. intros H. unfold display_post_header. case_match; [by apply spaces_rel|done]. Qed.
End two.

(** Replace a pair of related results by their components. *)
Tactic Notation "use_rel" constr(t) "as" ident(a) ident(b) ident(c) ident(E) :=
  let P := fresh in let d := fresh in pose proof t as P;
  match type of P with prel _ ?x ?y => destruct x as [a c], y as [b d]; destruct P as [E P]; cbn in E, P; subst d end.

Section outputs.
Context {S1 S2 : Type} `{C1 : ConsoleBufferInterface S1} `{C2 : ConsoleBufferInterface S2}.
Variable R : S1 -> S2 -> Prop.
Hypothesis R_putc : forall s1 s2 c, R s1 s2 -> R (putc s1 c) (putc s2 c).

Lemma display_string_rel s1 s2 f l : R s1 s2 -> prel R (display_string s1 f l) (display_string s2 f l).
Proof.
  intros H. unfold display_string. use_rel (pre_header_rel R R_putc s1 s2 f (Z.of_nat (List.length l)) H) as a b c E.
  use_rel (put_chars_rel R R_putc l a b (u64 (0 + c)) E) as a1 b1 c1 E1.
  use_rel (post_header_rel R R_putc a1 b1 f (Z.of_nat (List.length l)) E1) as a2 b2 c2 E2. by split.
Qed.

Lemma display_number_rel s1 s2 f n : R s1 s2 -> orel (prel R) (display_number s1 f n) (display_number s2 f n).
Proof.
  intros H. unfold display_number. destruct (number_sign f n) as [sign mag].
  destruct (convert_number_to_ascii _ _ _) as [o|]; cbn [obind]; [|constructor]. destruct (zeros 65 o _ _) as [o1|]; cbn [obind]; [|constructor].
  set (total := _ + _ + _).
  assert (G : forall o2 t1 t2 c, R t1 t2 -> orel (prel R)
    (let '(func, count) := if sign =? 0 then (t1, c) else (putc t1 sign, u64 (c + 1)) in
     let '(func, count) := put_chars (map (fun c => if upper f then toupper c else c) (number_special f)) func count in
     let '(func, count) := put_chars (map (fun c => if upper f then toupper c else c) (rev o2)) func count in
     if has f ZERO_PAD then Done (func, count)
     else let '(func, c) := display_post_header func f total in Done (func, u64 (count + c)))
    (let '(func, count) := if sign =? 0 then (t2, c) else (putc t2 sign, u64 (c + 1)) in
     let '(func, count) := put_chars (map (fun c => if upper f then toupper c else c) (number_special f)) func count in
     let '(func, count) := put_chars (map (fun c => if upper f then toupper c else c) (rev o2)) func count in
     if has f ZERO_PAD then Done (func, count)
     else let '(func, c) := display_post_header func f total in Done (func, u64 (count + c)))).
  { intros o2 t1 t2 c Ht. assert (Hs : prel R (if sign =? 0 then (t1, c) else (putc t1 sign, u64 (c + 1))) (if sign =? 0 then (t2, c) else (putc t2 sign, u64 (c + 1)))).
    { destruct (sign =? 0); split; cbn; auto. }
    use_rel Hs as a b k E. use_rel (put_chars_rel R R_putc (map (fun c => if upper f then toupper c else c) (number_special f)) a b k E) as a1 b1 k1 E1.
    use_rel (put_chars_rel R R_putc (map (fun c => if upper f then toupper c else c) (rev o2)) a1 b1 k1 E1) as a2 b2 k2 E2.
    destruct (has f ZERO_PAD); [by constructor|]. use_rel (post_header_rel R R_putc a2 b2 f total E2) as a3 b3 k3 E3. by constructor. }
  destruct (has f ZERO_PAD) eqn:Ez.
  - destruct (zeros 65 o1 _ _) as [o2|]; cbn [obind]; [|constructor]. by apply (G o2 s1 s2 0).
  - use_rel (pre_header_rel R R_putc s1 s2 f total H) as a b k E. cbn [obind]. by apply (G o1 a b (u64 (0 + k))).
Qed.

(** A conversion leaves the same arguments and count. *)
Definition crel (x : S1 * list va_arg * Z) (y : S2 * list va_arg * Z) : Prop := R x.1.1 y.1.1 /\ x.1.2 = y.1.2 /\ x.2 = y.2.

Lemma convert_rel s1 s2 f args c : R s1 s2 -> orel crel (convert s1 f args c) (convert s2 f args c).
Proof.
  intros H. unfold convert.
  assert (N : orel crel
    (do x <- va_number (length f) args; do y <- display_number s1 f x.1; Done (y.1, x.2, s32 (c + y.2)))
    (do x <- va_number (length f) args; do y <- display_number s2 f x.1; Done (y.1, x.2, s32 (c + y.2)))).
  { destruct (va_number _ _) as [x|]; cbn [obind]; [|constructor].
    destruct (display_number_rel s1 s2 f x.1 H) as [a b [Ha Hb]|]; cbn [obind]; constructor. split_and!; cbn; [done|done|by rewrite Hb]. }
  destruct (type f) eqn:Et; try exact N; clear N.
  - constructor. split_and!; cbn; [by apply R_putc|done|done].
  - destruct args as [|[v|v|v|l|d] args]; try constructor.
    use_rel (pre_header_rel R R_putc s1 s2 f 1 H) as a b k E.
    use_rel (post_header_rel R R_putc (putc a (s32 v)) (putc b (s32 v)) f 1 (R_putc _ _ _ E)) as a1 b1 k1 E1.
    constructor. by split_and!.
  - destruct args as [|[v|v|v|l|d] args]; try constructor. use_rel (display_string_rel s1 s2 f l H) as a b k E. constructor. by split_and!.
  - destruct args as [|[v|v|v|l|d] args]; try constructor.
    destruct (display_number_rel s1 s2 f (u64 v) H) as [a b [Ha Hb]|]; cbn [obind]; constructor. by split_and!.
  - destruct args as [|[v|v|v|l|d] args]; try constructor. unfold display_double. destruct (double_string d) as [l|]; cbn [obind]; [|constructor].
    pose proof (display_string_rel s1 s2 f l H) as [Ha Hb]. constructor. split_and!; cbn; [done|done|by rewrite Hb].
Qed.

Lemma vasprintf_loop_rel fuel : forall s1 s2 fmt args c, R s1 s2 -> orel (prel R) (vasprintf_loop fuel s1 fmt args c) (vasprintf_loop fuel s2 fmt args c).
Proof.
  induction fuel as [|fuel IH]; intros s1 s2 fmt args c H; cbn [vasprintf_loop]; [constructor|]. destruct fmt as [|x fmt]; [by constructor|].
  destruct (x =? 37); [|apply IH; by apply R_putc]. destruct (parse_format_options _) as [f fmt'].
  destruct (convert_rel s1 s2 f args c H) as [[[a1 b1] d1] [[a2 b2] d2] (H1 & H2 & H3)|]; cbn [obind]; [|constructor].
  cbn in H1, H2, H3. subst. by apply IH.
Qed.
End outputs.

(** The console that records what is put to it. *)
#[global] Instance trace : ConsoleBufferInterface (list Z) := fun l c => l ++ [c].

Definition formatted (fmt : list Z) (args : list va_arg) : outcome (list Z * Z) := vasprintf [] fmt args.

Lemma vasprintf_formatted {St} `{ConsoleBufferInterface St} (func : St) fmt args :
  vasprintf func fmt args = do x <- formatted fmt args; Done (fold_left putc x.1 func, x.2).
Proof.
  unfold formatted, vasprintf. set (R := fun (s : St) (l : list Z) => s = fold_left putc l func).
  assert (HR : forall s l c, R s l -> R (putc s c) (putc l c)) by (unfold R; intros s l c ->; change (putc l c) with (l ++ [c]); by rewrite fold_left_app).
  destruct (vasprintf_loop_rel R HR (S (List.length fmt)) func [] fmt args 0 ltac:(done)) as [[s c] [l c'] [H1 H2]|]; cbn [obind]; [|done].
  cbn in *. unfold R in H1. congruence.
Qed.

(** ** Digits *)

(** The digits of a number, the least significant first. *)
Fixpoint digits_le (fuel : nat) (base n : Z) : list Z :=
  match fuel with O => [] | S fuel => if n =? 0 then [] else n mod base :: digits_le fuel base (n / base) end.

(** The digits as written; 64 are enough for a 64-bit number. *)
Definition number_digits (base n : Z) : list Z := if n =? 0 then [0] else rev (digits_le 64 base n).

(** The number that digits stand for. *)
Definition value (base : Z) (ds : list Z) : Z := fold_left (fun v d => v * base + d) ds 0.

Definition digit (d : Z) : Z := nth (Z.to_nat d) digits 0.

Lemma value_snoc base ds d : value base (ds ++ [d]) = value base ds * base + d.
Proof. unfold value. by rewrite fold_left_app. Qed.

Lemma digits_le_ok fuel base : 2 <= base -> forall n, 0 <= n < 2 ^ Z.of_nat fuel ->
  value base (rev (digits_le fuel base n)) = n /\ Forall (fun d => 0 <= d < base) (digits_le fuel base n) /\
  (n <> 0 -> last (digits_le fuel base n) <> Some 0 /\ digits_le fuel base n <> []).
Proof.
  intros Hb. induction fuel as [|fuel IH]; intros n Hn.
  { cbn in *. assert (n = 0) as -> by lia. split_and!; [done|constructor|done]. }
  cbn [digits_le]. destruct (n =? 0) eqn:E; b2p; [subst n; split_and!; [done|constructor|done]|].
  pose proof (Z.div_mod n base ltac:(lia)) as Hd. pose proof (Z.mod_pos_bound n base ltac:(lia)) as Hr.
  assert (H0 : 0 <= n / base) by (apply Z.div_pos; lia).
  assert (Hq : 0 <= n / base < 2 ^ Z.of_nat fuel).
  { split; [done|]. apply Z.div_lt_upper_bound; [lia|]. rewrite Nat2Z.inj_succ, Z.pow_succ_r in Hn by lia. nia. }
  destruct (IH _ Hq) as (IH1 & IH2 & IH3). split_and!.
  - cbn [rev]. rewrite value_snoc, IH1. lia.
  - by constructor.
  - intros _. split; [|done]. destruct (decide (n / base = 0)) as [Hz|Hz].
    + rewrite Hz in Hd |- *. replace (digits_le fuel base 0) with (@nil Z) by (by destruct fuel). cbn. intros [= H]. lia.
    + destruct (IH3 Hz) as [H1 H2]. destruct (digits_le fuel base (n / base)) eqn:E2; [done|]. exact H1.
Qed.

Lemma digits_le_length fuel base : 2 <= base -> forall n, (List.length (digits_le fuel base n) <= fuel)%nat.
Proof. intros Hb. induction fuel as [|fuel IH]; intros n; cbn; [lia|]. destruct (n =? 0); cbn; [lia|]. specialize (IH (n / base)). lia. Qed.

(** A number's digits stand for it, fit the base, and do not start with zero
    unless it is zero. *)
Lemma number_digits_ok base n : 2 <= base -> is_word 64 n ->
  value base (number_digits base n) = n /\ Forall (fun d => 0 <= d < base) (number_digits base n) /\
  (n = 0 /\ number_digits base n = [0] \/ n <> 0 /\ hd 0 (number_digits base n) <> 0) /\
  (1 <= List.length (number_digits base n) <= 64)%nat.
Proof.
  intros Hb Hn. unfold number_digits. destruct (n =? 0) eqn:E; b2p.
  { subst n. split_and!; [done|constructor; [lia|constructor]|by left|cbn; lia..]. }
  destruct (digits_le_ok 64 base Hb n ltac:(exact Hn)) as (H1 & H2 & H3). specialize (H3 E) as [H3 H4].
  pose proof (digits_le_length 64 base Hb n) as HL. split_and!; [done|by apply Forall_rev| |rewrite length_rev|by rewrite length_rev].
  - right. split; [done|]. destruct (digits_le 64 base n) as [|x l] eqn:El using rev_ind; [done|]. rewrite rev_app_distr. cbn.
    intros ->. apply H3. by rewrite last_snoc.
  - destruct (digits_le 64 base n); [done|cbn; lia].
Qed.

(** ** The buffer *)

Lemma convert_loop_ok fuel base : 2 <= base -> forall n output, 0 <= n < 2 ^ Z.of_nat fuel -> (List.length output + fuel <= 64)%nat ->
  convert_loop (S fuel) output n base = Done (output ++ map digit (digits_le fuel base n)).
Proof.
  intros Hb. induction fuel as [|fuel IH]; intros n output Hn Hl.
  { cbn in Hn. assert (n = 0) as -> by lia. cbn. by rewrite app_nil_r. }
  change (convert_loop (S (S fuel)) output n base) with
    (if n =? 0 then Done output else do o <- push output (digit (n mod base)); convert_loop (S fuel) o (n / base) base).
  cbn [digits_le]. destruct (n =? 0) eqn:E; b2p; [by rewrite app_nil_r|]. unfold push.
  replace (List.length output <? 64)%nat with true by (symmetry; apply Nat.ltb_lt; lia). cbn [obind]. rewrite IH.
  - by rewrite <-app_assoc.
  - split; [apply Z.div_pos; lia|]. apply Z.div_lt_upper_bound; [lia|]. rewrite Nat2Z.inj_succ, Z.pow_succ_r in Hn by lia. nia.
  - rewrite length_app. cbn. lia.
Qed.

(** The digits of any number fit the buffer. *)
Lemma convert_ok base n : 2 <= base -> is_word 64 n -> convert_number_to_ascii [] n base = Done (rev (map digit (number_digits base n))).
Proof.
  intros Hb Hn. unfold convert_number_to_ascii, number_digits. destruct (n =? 0); [done|].
  rewrite (convert_loop_ok 64) by (done || cbn; lia). by rewrite <-map_rev, rev_involutive.
Qed.

(** Zeros up to a limit: a store behind the buffer where they do not fit. *)
Lemma zeros_ok fuel : forall output len limit, (64 < List.length output + fuel)%nat -> (List.length output <= 64)%nat ->
  zeros fuel output len limit =
    if Z.of_nat (List.length output) + Z.max 0 (limit - len) <=? 64 then Done (output ++ replicate (Z.to_nat (limit - len)) 48) else Crash BadAccess.
Proof.
  induction fuel as [|fuel IH]; intros output len limit Hf Hl; [lia|]. cbn [zeros]. destruct (len <? limit) eqn:E; b2p.
  - unfold push. destruct (List.length output <? 64)%nat eqn:E64; cbn [obind].
    + apply Nat.ltb_lt in E64. rewrite IH by (rewrite length_app; cbn; lia). rewrite length_app. cbn [List.length].
      replace (Z.of_nat (List.length output + 1) + Z.max 0 (limit - (len + 1))) with (Z.of_nat (List.length output) + Z.max 0 (limit - len)) by lia.
      destruct (_ <=? 64); [|done]. f_equal. rewrite <-app_assoc. f_equal. replace (Z.to_nat (limit - len)) with (S (Z.to_nat (limit - (len + 1)))) by lia. done.
    + apply Nat.ltb_ge in E64. replace (_ <=? 64) with false by (symmetry; apply Z.leb_gt; lia). done.
  - replace (_ <=? 64) with true by (symmetry; apply Z.leb_le; lia). replace (Z.to_nat (limit - len)) with 0%nat by lia. cbn. by rewrite app_nil_r.
Qed.

(** ** The text of a number *)

Definition cap (f : format_options) (c : Z) : Z := if upper f then toupper c else c.
Definition sign_text (sign : Z) : list Z := if sign =? 0 then [] else [sign].

(** The digits to write at least: the precision, and with zero padding what the
    field leaves. *)
Definition least_digits (f : format_options) (sign : Z) : Z :=
  if has f ZERO_PAD then Z.max (precision f) (field_width f - Z.of_nat (List.length (sign_text sign)) - Z.of_nat (List.length (number_special f)))
  else precision f.

Definition number_body (f : format_options) (sign : Z) (ds : list Z) : list Z :=
  replicate (Z.to_nat (least_digits f sign - Z.of_nat (List.length ds))) 48 ++ map digit ds.

Definition number_text (f : format_options) (sign : Z) (ds : list Z) : list Z :=
  sign_text sign ++ map (cap f) (number_special f) ++ map (cap f) (number_body f sign ds).

(** A text in its field. *)
Definition in_field (f : format_options) (text : list Z) : list Z :=
  let pad := replicate (Z.to_nat (field_width f - Z.of_nat (List.length text))) 32 in
  if has f LEFT_ALIGN then text ++ pad else pad ++ text.

Lemma put_chars_ok l : forall func count, 0 <= count -> count + Z.of_nat (List.length l) < 2 ^ 64 ->
  put_chars l func count = (func ++ l, count + Z.of_nat (List.length l)).
Proof.
  induction l as [|c l IH]; intros func count H0 H; cbn [put_chars List.length] in *; [rewrite app_nil_r; f_equal; lia|].
  rewrite wrap_small, IH by (split; lia) || lia. change (putc func c) with (func ++ [c]). rewrite <-app_assoc. f_equal. lia.
Qed.

Lemma spaces_put n : forall (func : list Z) count, spaces n func count = put_chars (replicate n 32) func count.
Proof. induction n as [|n IH]; intros func count; cbn; [done|]. apply IH. Qed.

Section field.
Variable f : format_options.
Hypothesis Hw : is_word 64 (field_width f).
Implicit Types (func text : list Z).

Lemma pre_header_ok func size : 0 <= size -> display_pre_header func f size =
  if has f LEFT_ALIGN then (func, 0) else (func ++ replicate (Z.to_nat (field_width f - size)) 32, Z.max 0 (field_width f - size)).
Proof.
  intros Hs. unfold display_pre_header. destruct (has f LEFT_ALIGN); [done|]. cbn [negb andb]. destruct (field_width f =? 0) eqn:E; b2p; cbn [negb].
  - rewrite E. replace (Z.to_nat (0 - size)) with 0%nat by lia. cbn [replicate]. rewrite app_nil_r. f_equal. lia.
  - destruct Hw. rewrite spaces_put, put_chars_ok by (rewrite ?length_replicate; lia). rewrite length_replicate. f_equal. lia.
Qed.

Lemma post_header_ok func size : 0 <= size -> display_post_header func f size =
  if has f LEFT_ALIGN then (func ++ replicate (Z.to_nat (field_width f - size)) 32, Z.max 0 (field_width f - size)) else (func, 0).
Proof.
  intros Hs. unfold display_post_header. destruct (has f LEFT_ALIGN); [|done]. cbn [negb andb]. destruct (field_width f =? 0) eqn:E; b2p; cbn [negb].
  - rewrite E. replace (Z.to_nat (0 - size)) with 0%nat by lia. cbn [replicate]. rewrite app_nil_r. f_equal. lia.
  - destruct Hw. rewrite spaces_put, put_chars_ok by (rewrite ?length_replicate; lia). rewrite length_replicate. f_equal. lia.
Qed.

Lemma length_in_field text : Z.of_nat (List.length (in_field f text)) = Z.max (field_width f) (Z.of_nat (List.length text)).
Proof. destruct Hw. unfold in_field. destruct (has f LEFT_ALIGN); rewrite length_app, length_replicate; lia. Qed.
End field.

(** ** A number on the recording console *)

(** What is written, sign first, and how long it may be without the field. *)
Lemma number_parts f number : is_word 64 number ->
  let '(sign, mag) := number_sign f number in
  is_word 64 mag /\ 2 <= number_base f /\ (List.length (sign_text sign) <= 1)%nat /\ (List.length (number_special f) <= 2)%nat.
Proof.
  intros Hn. unfold number_sign, number_base, number_special, s64, sign_text. destruct Hn.
  assert (B : 2 <= match type f with TYPE_BINARY => 2 | TYPE_OCTAL => 8 | TYPE_HEX | TYPE_PTR => 16 | _ => 10 end) by (destruct (type f); lia).
  assert (S : (List.length (if has f ALT_FORM || bool_decide (type f = TYPE_PTR) then
    match type f with TYPE_BINARY => [48; 98] | TYPE_HEX | TYPE_PTR => [48; 120] | TYPE_OCTAL => [48] | _ => [] end else []) <= 2)%nat).
  { destruct (_ || _); [|cbn; lia]. destruct (type f); cbn; lia. }
  repeat case_match; simplify_eq; split_and!; try done; try lia; cbn; try lia; b2p; apply wrap_word; lia.
Qed.

Lemma rev_zeros j (c : Z) : rev (replicate j c) = replicate j c.
Proof. induction j as [|j IH]; [done|]. cbn [replicate rev]. by rewrite IH, <-replicate_cons_app. Qed.

Section number.
Variables (f : format_options) (sign : Z) (ds : list Z).
Let n : Z := Z.of_nat (List.length ds).
Let k : Z := Z.of_nat (List.length (sign_text sign)).
Let sp : Z := Z.of_nat (List.length (number_special f)).

Lemma sign_length : (if sign =? 0 then 0 else 1) = k.
Proof. unfold k, sign_text. by destruct (sign =? 0). Qed.

Lemma length_number_body : Z.of_nat (List.length (number_body f sign ds)) = Z.max n (least_digits f sign).
Proof. unfold number_body. rewrite length_app, length_replicate, length_map. fold n. lia. Qed.

Lemma length_number_text : Z.of_nat (List.length (number_text f sign ds)) = k + sp + Z.max n (least_digits f sign).
Proof. unfold number_text. rewrite !length_app, !length_map. rewrite <-length_number_body. unfold k, sp. lia. Qed.

(** The sign, the prefix and the digits, put to the console. *)
Lemma put_number func count : 0 <= count -> count + Z.of_nat (List.length (number_text f sign ds)) < 2 ^ 64 ->
  (let '(func, count) := if sign =? 0 then (func, count) else (putc func sign, u64 (count + 1)) in
   let '(func, count) := put_chars (map (cap f) (number_special f)) func count in
   put_chars (map (cap f) (number_body f sign ds)) func count) =
  (func ++ number_text f sign ds, count + Z.of_nat (List.length (number_text f sign ds))).
Proof.
  rewrite length_number_text. pose proof length_number_body as Lb. pose proof sign_length as Ek. intros H0 H1.
  assert (E : (if sign =? 0 then (func, count) else (putc func sign, u64 (count + 1))) = (func ++ sign_text sign, count + k)).
  { rewrite <-Ek. unfold sign_text. destruct (sign =? 0); [rewrite app_nil_r; f_equal; lia|]. by rewrite wrap_small by (split; lia). }
  rewrite E. rewrite put_chars_ok by (rewrite ?length_map; fold sp; lia). rewrite put_chars_ok by (rewrite ?length_map; fold sp; lia).
  rewrite !length_map. fold sp. unfold number_text. apply f_equal2; [by rewrite <-!app_assoc|lia].
Qed.

(** The precision, then the field with zero padding. *)
Lemma fill_buffer : (1 <= List.length ds <= 64)%nat ->
  (do output <- zeros 65 (rev (map digit ds)) n (precision f);
   let total_len := Z.of_nat (List.length output) + k + sp in
   if has f ZERO_PAD then zeros 65 output total_len (field_width f) else Done output) =
  if Z.of_nat (List.length (number_body f sign ds)) <=? 64 then Done (rev (number_body f sign ds)) else Crash BadAccess.
Proof.
  intros HL. rewrite length_number_body. rewrite zeros_ok by (rewrite length_rev, length_map; lia). rewrite length_rev, length_map. fold n.
  destruct (n + Z.max 0 (precision f - n) <=? 64) eqn:E1; b2p; cbn [obind].
  2: { replace (_ <=? 64) with false; [done|]. symmetry. apply Z.leb_gt. unfold least_digits. destruct (has f ZERO_PAD); lia. }
  set (o1 := rev (map digit ds) ++ replicate (Z.to_nat (precision f - n)) 48).
  assert (L1 : Z.of_nat (List.length o1) = Z.max n (precision f)) by (unfold o1; rewrite length_app, length_rev, length_map, length_replicate; fold n; lia).
  cbv zeta. rewrite L1. unfold number_body, least_digits. fold k sp n. destruct (has f ZERO_PAD) eqn:Ez.
  - rewrite zeros_ok by lia. rewrite L1.
    replace (Z.max n (precision f) + Z.max 0 (field_width f - (Z.max n (precision f) + k + sp)))
      with (Z.max n (Z.max (precision f) (field_width f - k - sp))) by lia.
    destruct (_ <=? 64); [|done]. f_equal. unfold o1. rewrite rev_app_distr, rev_zeros, <-app_assoc, <-replicate_add. do 2 f_equal. lia.
  - replace (_ <=? 64) with true by (symmetry; apply Z.leb_le; lia). f_equal. unfold o1. by rewrite rev_app_distr, rev_zeros.
Qed.
End number.

Lemma display_number_ok f number :
  is_word 64 number -> is_word 64 (field_width f) -> is_word 64 (precision f) ->
  let '(sign, mag) := number_sign f number in
  let ds := number_digits (number_base f) mag in
  display_number [] f number =
    if Z.of_nat (List.length (number_body f sign ds)) <=? 64 then
      let text := if has f ZERO_PAD then number_text f sign ds else in_field f (number_text f sign ds) in
      Done (text, Z.of_nat (List.length text))
    else Crash BadAccess.
Proof.
  intros Hn Hw Hp. pose proof (number_parts f number Hn) as P. unfold display_number. destruct (number_sign f number) as [sign mag].
  destruct P as (Hm & Hb & Hs & Hsp). cbv zeta. set (ds := number_digits (number_base f) mag). rewrite convert_ok by done. cbn [obind]. fold ds.
  pose proof (number_digits_ok (number_base f) mag Hb Hm) as (_ & _ & _ & HL). fold ds in HL.
  pose proof (fill_buffer f sign ds HL) as F. rewrite sign_length. rewrite length_rev, length_map. cbv zeta in F.
  pose proof (length_number_text f sign ds) as Lt. pose proof (length_number_body f sign ds) as Lb.
  set (k := Z.of_nat (List.length (sign_text sign))) in *. set (sp := Z.of_nat (List.length (number_special f))) in *.
  set (total := k + sp + _) in Lt. assert (Hk : 0 <= k <= 1) by (unfold k; lia). assert (Hsp' : 0 <= sp <= 2) by (unfold sp; lia).
  assert (Put : forall func count, 0 <= count -> count + total < 2 ^ 64 -> _) by (intros func count; rewrite <-Lt; exact (put_number f sign ds func count)).
  destruct (zeros 65 (rev (map digit ds)) _ _) as [o|]; cbn [obind] in *; [|revert F; destruct (_ <=? 64); [done|congruence]].
  unfold in_field. rewrite Lt. change (fun c => if upper f then toupper c else c) with (cap f).
  destruct (has f ZERO_PAD) eqn:Ez; cbn [obind].
  - rewrite F. destruct (_ <=? 64) eqn:E2; cbn [obind]; [|done]. b2p. rewrite Lb in E2. rewrite rev_involutive.
    specialize (Put [] 0 ltac:(lia) ltac:(unfold total; lia)). revert Put.
    destruct (if sign =? 0 then _ else _) as [s1 c1]. destruct (put_chars _ s1 c1) as [s2 c2]. intros ->. by rewrite Lt.
  - destruct (_ <=? 64) eqn:E2; [|done]. b2p. rewrite Lb in E2. injection F as ->. rewrite length_rev, Lb.
    replace (Z.max _ _ + k + sp) with total by (unfold total; lia). assert (Ht : 0 <= total < 70) by (unfold total; lia). destruct Hw as [W0 W1].
    rewrite pre_header_ok by (done || lia). destruct (has f LEFT_ALIGN) eqn:El; cbn [obind]; rewrite rev_involutive.
    + specialize (Put [] (u64 (0 + 0)) ltac:(done) ltac:(change (u64 (0 + 0)) with 0; lia)). revert Put.
      destruct (if sign =? 0 then _ else _) as [s1 c1]. destruct (put_chars _ s1 c1) as [s2 c2]. intros ->. change (u64 (0 + 0)) with 0.
      rewrite post_header_ok, El by (done || lia). cbn [app]. rewrite wrap_small by (split; lia). f_equal. f_equal.
      rewrite length_app, length_replicate. lia.
    + set (pad := replicate _ 32). rewrite (wrap_small 64 (0 + _)) by (split; lia).
      specialize (Put ([] ++ pad) (0 + Z.max 0 (field_width f - total)) ltac:(lia) ltac:(lia)). revert Put.
      destruct (if sign =? 0 then _ else _) as [s1 c1]. destruct (put_chars _ s1 c1) as [s2 c2]. intros ->.
      rewrite post_header_ok, El by (done || lia). cbn [app]. rewrite wrap_small by (split; lia). f_equal. f_equal.
      unfold pad. rewrite length_app, length_replicate. lia.
Qed.
