(* ===== verification/Stdio.v ===== *)
(** * The C library: [sprintf] and [strtoul] ([src/lib/stdio.C], [stdlib.C])

    The buffer of [snprintf] is memory; [strtoul] reads memory. *)

From S2P Require Import Prelude LibMem LibStr Sprintf SprintfNum.

Implicit Types (m : memory) (fmt : list Z) (args : list va_arg).

(** ** [SprintfBuffer] *)

Record SprintfBuffer : Type := mkBuffer {
  iv_pos : Z;
  iv_size : Z;
  iv_buffer : Z;
  buffer_mem : memory
}.
Implicit Types b : SprintfBuffer.

Definition set_pos b (pos : Z) : SprintfBuffer := mkBuffer pos (iv_size b) (iv_buffer b) (buffer_mem b).
Definition buffer_putc b (c : Z) : SprintfBuffer :=
  if c =? 8 then if 0 <? iv_pos b then set_pos b (iv_pos b - 1) else b
  else if iv_pos b <? iv_size b then
    mkBuffer (u64 (iv_pos b + 1)) (iv_size b) (iv_buffer b) (upd (buffer_mem b) (iv_buffer b + iv_pos b) (u8 c))
  else set_pos b (u64 (iv_pos b + 1)).
#[global] Instance buffer_console : ConsoleBufferInterface SprintfBuffer := buffer_putc.

Definition nullTerminate b : SprintfBuffer :=
  if 0 <? iv_size b then
    let b := if iv_size b <=? iv_pos b then set_pos b (iv_size b - 1) else b in buffer_putc b 0
  else b.

(** [vsnprintf] has the same body; [sprintf] and [vsprintf] pass [UINT64_MAX]. *)
Definition snprintf (str size : Z) fmt args m : outcome (memory * Z) :=
  do x <- vasprintf (mkBuffer 0 size str m) fmt args;
  let '(console, count) := x in Done (buffer_mem (nullTerminate console), s32 count).
Definition sprintf (str : Z) fmt args m : outcome (memory * Z) := snprintf str (2 ^ 64 - 1) fmt args m.

(** ** [strtoul] *)

Fixpoint strtoul_dec (fuel : nat) (nptr i l_data base : Z) m : outcome (Z * Z) :=
  match fuel with
  | O => Crash BadAccess
  | S fuel =>
      if negb (m (nptr + i) =? 0) then
        if negb (isdigit (m (nptr + i))) then Done (l_data, i)
        else
          let l_data := if 0 <? i then u64 (l_data * base) else l_data in
          strtoul_dec fuel nptr (i + 1) (u64 (l_data + (m (nptr + i) - 48))) base m
      else Done (l_data, i)
  end.

(** The switch over the digits. *)
Definition l_nib (c : Z) : Z :=
  if (48 <=? c) && (c <=? 57) then c - 48
  else if (65 <=? c) && (c <=? 70) then c - 55
  else if (97 <=? c) && (c <=? 102) then c - 87
  else 0.

Fixpoint strtoul_hex (fuel : nat) (nptr i l_data : Z) m : outcome (Z * Z) :=
  match fuel with
  | O => Crash BadAccess
  | S fuel =>
      if negb (m (nptr + i) =? 0) then
        if negb (isxdigit (m (nptr + i))) then Done (l_data, i)
        else strtoul_hex fuel nptr (i + 1) (Z.lor (u64 (Z.shiftl l_data 4)) (l_nib (m (nptr + i)))) m
      else Done (l_data, i)
  end.

(** The number and [endptr]. *)
Definition strtoul (fuel : nat) (nptr base : Z) m : outcome (Z * Z) :=
  assert! (base =? 10) || (base =? 16);
  do x <- if base =? 10 then strtoul_dec fuel nptr 0 0 base m
    else
      let i := if (m nptr =? 120) || (m nptr =? 88) then 1
        else if (m nptr =? 48) && ((m (nptr + 1) =? 120) || (m (nptr + 1) =? 88)) then 2 else 0 in
      strtoul_hex fuel nptr i 0 m;
  Done (x.1, nptr + x.2).

(** ** The buffer *)

(** The bytes a console of size [size] at [str] may change. *)
Definition within (str size : Z) m m' : Prop := forall a, m' a <> m a -> str <= a < str + size.

Section buffer.
Variables (str size : Z) (m : memory).

(** A buffer of [snprintf] at work. *)
Definition buffer_inv b : Prop :=
  iv_size b = size /\ iv_buffer b = str /\ is_word 64 (iv_pos b) /\ within str size m (buffer_mem b).

Lemma within_upd m' a v : within str size m m' -> str <= a < str + size -> within str size m (upd m' a v).
Proof. intros H Ha x Hx. destruct (decide (x = a)) as [->|Hne]; [done|]. rewrite upd_ne in Hx by done. by apply H. Qed.

Lemma putc_inv b c : buffer_inv b -> buffer_inv (buffer_putc b c).
Proof.
  intros (H1 & H2 & [P0 P1] & H4). unfold buffer_putc, set_pos, buffer_inv.
  repeat case_match; b2p; cbn; split_and!; try done; try lia; try (apply wrap_word; lia); try (split; lia).
  apply within_upd; [done|lia].
Qed.

Lemma puts_inv l : forall b, buffer_inv b -> buffer_inv (fold_left putc l b).
Proof. induction l as [|c l IH]; intros b H; cbn; [done|]. apply IH. by apply putc_inv. Qed.

Lemma terminate_inv b : buffer_inv b -> 0 < size -> within str size m (buffer_mem (nullTerminate b)) /\
  exists i, 0 <= i < size /\ i <= iv_pos b /\ buffer_mem (nullTerminate b) (str + i) = 0.
Proof.
  intros (H1 & H2 & [P0 P1] & H4) Hs. unfold nullTerminate, set_pos. rewrite H1. replace (0 <? size) with true by (symmetry; apply Z.ltb_lt; lia).
  destruct (size <=? iv_pos b) eqn:E; b2p; unfold buffer_putc; cbn; rewrite ?H1, ?H2.
  - replace (size - 1 <? size) with true by (symmetry; apply Z.ltb_lt; lia). cbn. split; [apply within_upd; [done|lia]|].
    exists (size - 1). split_and!; [lia|lia|lia|]. by rewrite upd_eq.
  - replace (iv_pos b <? size) with true by (symmetry; apply Z.ltb_lt; lia). cbn. split; [apply within_upd; [done|lia]|].
    exists (iv_pos b). split_and!; [lia|lia|lia|]. by rewrite upd_eq.
Qed.

(** Without backspaces the buffer holds the start of what was put to it. *)
Lemma puts_text l : forall k b, Forall (fun c => c <> 8) l -> iv_size b = size -> iv_buffer b = str -> iv_pos b = Z.of_nat k ->
  Z.of_nat k + Z.of_nat (List.length l) < 2 ^ 64 ->
  iv_pos (fold_left putc l b) = Z.of_nat k + Z.of_nat (List.length l) /\ iv_size (fold_left putc l b) = size /\ iv_buffer (fold_left putc l b) = str /\
  (forall i, Z.of_nat k <= i < size -> i < Z.of_nat k + Z.of_nat (List.length l) ->
    buffer_mem (fold_left putc l b) (str + i) = u8 (nth (Z.to_nat (i - Z.of_nat k)) l 0)) /\
  (forall i, 0 <= i < Z.of_nat k -> buffer_mem (fold_left putc l b) (str + i) = buffer_mem b (str + i)).
Proof.
  induction l as [|c l IH]; intros k b Hf H1 H2 H3 Hk; cbn [fold_left List.length] in *; [split_and!; [lia|done|done|intros; lia|done]|].
  inversion Hf as [|? ? Hc Hf']; subst. apply Z.eqb_neq in Hc.
  set (b' := putc b c). assert (E : b' = buffer_putc b c) by done. unfold buffer_putc in E. rewrite Hc, H3 in E.
  assert (Hb : iv_size b' = iv_size b /\ iv_buffer b' = iv_buffer b /\ iv_pos b' = Z.of_nat (S k) /\
    buffer_mem b' = if Z.of_nat k <? iv_size b then upd (buffer_mem b) (iv_buffer b + Z.of_nat k) (u8 c) else buffer_mem b).
  { destruct (Z.of_nat k <? iv_size b); rewrite E; cbn; rewrite wrap_small by (split; lia); split_and!; done || lia. }
  clearbody b'. clear E. destruct Hb as (B1 & B2 & B3 & B4).
  destruct (IH (S k) b' Hf' ltac:(congruence) ltac:(congruence) B3 ltac:(lia)) as (I1 & I2 & I3 & I4 & I5). split_and!; [lia|done|done| |].
  - intros i Hi Hi'. destruct (decide (i = Z.of_nat k)) as [->|Hne].
    + rewrite I5, B4 by lia. replace (Z.of_nat k <? _) with true by (symmetry; apply Z.ltb_lt; lia). rewrite upd_eq, Z.sub_diag. done.
    + rewrite I4 by lia. replace (Z.to_nat (i - Z.of_nat k)) with (S (Z.to_nat (i - Z.of_nat (S k)))) by lia. done.
  - intros i Hi. rewrite I5, B4 by lia. destruct (_ <? _); [|done]. by rewrite upd_ne by lia.
Qed.
End buffer.

Lemma s32_small x : 0 <= x < 2 ^ 31 -> s32 x = x.
Proof. intros H. unfold s32. rewrite wrap_small by (split; lia). by replace (x <? 2 ^ 31) with true by (symmetry; apply Z.ltb_lt; lia). Qed.

Lemma snprintf_formatted str size fmt args m out count : formatted fmt args = Done (out, count) ->
  snprintf str size fmt args m = Done (buffer_mem (nullTerminate (fold_left putc out (mkBuffer 0 size str m))), s32 count).
Proof. intros E. unfold snprintf. rewrite vasprintf_formatted, E. done. Qed.

(** The text written, as far as the buffer holds it. *)
Lemma snprintf_text str size m out : Forall (fun c => 0 < c < 256 /\ c <> 8) out -> 0 < size -> Z.of_nat (List.length out) < 2 ^ 64 ->
  cstring (buffer_mem (nullTerminate (fold_left putc out (mkBuffer 0 size str m)))) str (take (Z.to_nat (size - 1)) out).
Proof.
  intros Hf Hs Hl. assert (Hf8 : Forall (fun c => c <> 8) out) by (eapply Forall_impl; [exact Hf|]; intros c [_ ?]; done).
  destruct (puts_text str size out 0 (mkBuffer 0 size str m) Hf8 eq_refl eq_refl eq_refl ltac:(lia)) as (E1 & E2 & E3 & E4 & _).
  set (b := fold_left putc out _) in *. clearbody b. cbn in E4. change (Z.of_nat 0) with 0 in *.
  set (t := Z.min (Z.of_nat (List.length out)) (size - 1)).
  assert (M : buffer_mem (nullTerminate b) = upd (buffer_mem b) (str + t) 0).
  { unfold nullTerminate, set_pos. rewrite E2, E1. replace (0 <? size) with true by (symmetry; apply Z.ltb_lt; lia).
    destruct (size <=? 0 + Z.of_nat (List.length out)) eqn:E; b2p; unfold buffer_putc; cbn; rewrite ?E2, ?E3, ?E1.
    - replace (size - 1 <? size) with true by (symmetry; apply Z.ltb_lt; lia). cbn. do 2 f_equal. unfold t. lia.
    - replace (0 + _ <? size) with true by (symmetry; apply Z.ltb_lt; lia). cbn. do 2 f_equal. unfold t. lia. }
  rewrite M. apply cstring_chars. assert (Ht : Z.of_nat (List.length (take (Z.to_nat (size - 1)) out)) = t) by (rewrite length_take; unfold t; lia). split.
  - apply Forall_take. eapply Forall_impl; [exact Hf|]. intros c [? _]. lia.
  - intros i Hi. destruct (decide (Z.of_nat i = t)) as [E|Hne].
    + rewrite E, upd_eq. unfold char_at. rewrite nth_overflow by lia. done.
    + rewrite upd_ne, E4 by lia. rewrite char_at_take by lia. unfold char_at. rewrite Z.sub_0_r, Nat2Z.id.
      assert (Hn : In (nth i out 0) out) by (apply nth_In; lia). rewrite Forall_forall in Hf. apply list_elem_of_In in Hn. apply Hf in Hn.
      rewrite wrap_small; [done|split; lia].
Qed.

(** ** Reading digits *)

Lemma wrap_digit base v d : wrap 64 (wrap 64 (wrap 64 v * base) + d) = wrap 64 (v * base + d).
Proof. unfold wrap. by rewrite Z.mul_mod_idemp_l, Z.add_mod_idemp_l by lia. Qed.

Lemma digit_cases d : 0 <= d < 16 -> digit d = if d <? 10 then 48 + d else 87 + d.
Proof.
  intros H. assert (F : Forall (fun d => digit d = if d <? 10 then 48 + d else 87 + d) (seqZ 0 16)) by (cbn; repeat constructor).
  rewrite Forall_forall in F. apply F, elem_of_seqZ. lia.
Qed.

Lemma strtoul_dec_ok fuel m nptr : forall ds i v, cstring m (nptr + i) (map digit ds) -> Forall (fun d => 0 <= d < 10) ds ->
  (List.length ds < fuel)%nat -> 0 <= i -> (i = 0 -> v = 0) ->
  strtoul_dec fuel nptr i (u64 v) 10 m = Done (u64 (fold_left (fun v d => v * 10 + d) ds v), i + Z.of_nat (List.length ds)).
Proof.
  induction fuel as [|fuel IH]; intros ds i v Hc Hd Hl Hi H0; [lia|]. cbn [strtoul_dec]. destruct ds as [|d ds]; cbn [map cstring List.length fold_left] in *.
  - rewrite Hc. cbn. f_equal. f_equal. lia.
  - destruct Hc as (E & Hne & Hc). inversion Hd as [|? ? Hd0 Hd']; subst. rewrite E. apply Z.eqb_neq in Hne. rewrite Hne. cbn [negb].
    rewrite digit_cases by lia. replace (d <? 10) with true by (symmetry; apply Z.ltb_lt; lia).
    replace (isdigit (48 + d)) with true by (symmetry; unfold isdigit; apply andb_true_iff; rewrite !Z.leb_le; lia). cbn [negb].
    replace (if 0 <? i then u64 (u64 v * 10) else u64 v) with (u64 (u64 v * 10)).
    2: { destruct (0 <? i) eqn:Ei; b2p; [done|]. by rewrite H0 by lia. }
    replace (48 + d - 48) with d by lia. rewrite wrap_digit, (IH ds); [do 2 f_equal; lia| |done|lia|lia|lia].
    by replace (nptr + (i + 1)) with (nptr + i + 1) by lia.
Qed.

Lemma lor_digit v d : 0 <= d < 16 -> Z.lor (u64 (Z.shiftl (u64 v) 4)) d = u64 (v * 16 + d).
Proof.
  intros Hd. rewrite Z.shiftl_mul_pow2 by lia. change (2 ^ 4) with 16. unfold wrap. rewrite Z.mul_mod_idemp_l by lia.
  assert (E : (v * 16) mod 2 ^ 64 = 16 * (v mod 2 ^ 60)) by (rewrite (Z.mul_comm v); change (2 ^ 64) with (16 * 2 ^ 60); apply Z.mul_mod_distr_l; lia).
  pose proof (Z.mod_pos_bound v (2 ^ 60) ltac:(lia)) as Hv.
  rewrite <-(Z.add_mod_idemp_l (v * 16)), E by lia. rewrite (Z.mod_small (_ + d)) by lia. generalize dependent (v mod 2 ^ 60). intros x _ Hx.
  rewrite <-Z.lxor_lor, <-Z.add_nocarry_lxor; [done| |].
  all: replace (16 * x) with (Z.shiftl x 4) by (rewrite Z.shiftl_mul_pow2 by lia; lia); apply Z.bits_inj'; intros i Hi; rewrite Z.land_spec, Z.shiftl_spec, Z.bits_0 by done.
  all: destruct (decide (i < 4)); [by rewrite (Z.testbit_neg_r x) by lia|]; rewrite (word_bits_high 4 d) by (split; lia || lia); apply andb_false_r.
Qed.

Lemma strtoul_hex_ok fuel m nptr : forall ds i v, cstring m (nptr + i) (map digit ds) -> Forall (fun d => 0 <= d < 16) ds ->
  (List.length ds < fuel)%nat ->
  strtoul_hex fuel nptr i (u64 v) m = Done (u64 (fold_left (fun v d => v * 16 + d) ds v), i + Z.of_nat (List.length ds)).
Proof.
  induction fuel as [|fuel IH]; intros ds i v Hc Hd Hl; [lia|]. cbn [strtoul_hex]. destruct ds as [|d ds]; cbn [map cstring List.length fold_left] in *.
  - rewrite Hc. cbn. f_equal. f_equal. lia.
  - destruct Hc as (E & Hne & Hc). inversion Hd as [|? ? Hd0 Hd']; subst. rewrite E. apply Z.eqb_neq in Hne. rewrite Hne. cbn [negb].
    assert (Hx : isxdigit (digit d) = true /\ l_nib (digit d) = d).
    { assert (F : Forall (fun d => isxdigit (digit d) = true /\ l_nib (digit d) = d) (seqZ 0 16)) by (cbn; repeat constructor).
      rewrite Forall_forall in F. apply F, elem_of_seqZ. lia. }
    destruct Hx as [-> ->]. cbn [negb]. rewrite lor_digit, (IH ds) by (done || lia || by replace (nptr + (i + 1)) with (nptr + i + 1) by lia).
    do 2 f_equal. lia.
Qed.

(** ** Printed numbers *)

Lemma digits_le_short fuel base k : 2 <= base -> forall n, 0 <= n < base ^ Z.of_nat k -> (List.length (digits_le fuel base n) <= k)%nat.
Proof.
  intros Hb. revert k. induction fuel as [|fuel IH]; intros k n Hn; cbn [digits_le]; [cbn; lia|]. destruct (n =? 0) eqn:E; b2p; [cbn; lia|].
  destruct k as [|k]; [cbn in Hn; lia|]. cbn. rewrite Nat2Z.inj_succ, Z.pow_succ_r in Hn by lia. apply le_n_S, IH.
  split; [apply Z.div_pos; lia|]. apply Z.div_lt_upper_bound; lia.
Qed.

Lemma number_digits_short base k n : 2 <= base -> (1 <= k)%nat -> 0 <= n < base ^ Z.of_nat k -> (List.length (number_digits base n) <= k)%nat.
Proof.
  intros Hb Hk Hn. unfold number_digits. destruct (n =? 0); [cbn; lia|]. rewrite length_rev. by apply digits_le_short.
Qed.

(** A conversion alone with no field, sign or precision: the prefix and the digits. *)
Lemma plain_number f number : is_word 64 number -> flags f = 0 \/ flags f = ALT_FORM -> field_width f = 0 -> precision f = 0 -> upper f = false ->
  type f <> TYPE_SIGNED_DECIMAL ->
  let text := number_special f ++ map digit (number_digits (number_base f) number) in
  display_number [] f number = Done (text, Z.of_nat (List.length text)).
Proof.
  intros Hn Hf Hw Hp Hu Ht. pose proof (display_number_ok f number Hn ltac:(rewrite Hw; split; lia) ltac:(rewrite Hp; split; lia)) as D.
  pose proof (number_parts f number Hn) as P. assert (E : number_sign f number = (0, number)) by (unfold number_sign; by rewrite bool_decide_false).
  rewrite E in D, P. cbv zeta in D. destruct P as (_ & Hb & _ & _). pose proof (number_digits_ok (number_base f) number Hb Hn) as (_ & _ & _ & HL).
  assert (Hz : has f ZERO_PAD = false) by (unfold has; by destruct Hf as [-> | ->]). assert (Hl : has f LEFT_ALIGN = false) by (unfold has; by destruct Hf as [-> | ->]).
  assert (Hbody : number_body f 0 (number_digits (number_base f) number) = map digit (number_digits (number_base f) number)).
  { unfold number_body, least_digits. rewrite Hz, Hp. replace (Z.to_nat _) with 0%nat by lia. done. }
  assert (Hcap : forall l, map (cap f) l = l) by (intros l; unfold cap; rewrite Hu; apply map_id).
  rewrite Hbody, length_map in D. replace (Z.of_nat _ <=? 64) with true in D by (symmetry; apply Z.leb_le; lia). rewrite Hz in D.
  unfold in_field, number_text in D. rewrite Hl, Hw, Hbody, !Hcap in D. cbv zeta in D. replace (Z.to_nat (0 - _)) with 0%nat in D by lia. exact D.
Qed.

Definition fmt_lu : list Z := [37; 108; 117].
Definition fmt_alt_lx : list Z := [37; 35; 108; 120].

Lemma formatted_lu n : is_word 64 n -> formatted fmt_lu [VLong n] =
  Done (map digit (number_digits 10 n), s32 (Z.of_nat (List.length (number_digits 10 n)))).
Proof.
  intros Hn. set (f := mkOptions 0 0 0 LEN_LONG false TYPE_DECIMAL). pose proof (plain_number f n Hn ltac:(by left) eq_refl eq_refl eq_refl ltac:(done)) as D.
  transitivity (do y <- display_number [] f (u64 n); Done (y.1, s32 (0 + y.2))).
  { change (formatted fmt_lu [VLong n]) with (do x <- (do y <- display_number [] f (u64 n); Done (y.1, @nil va_arg, s32 (0 + y.2)));
      let '(func, args, count) := x in vasprintf_loop 3 func [] args count). by destruct (display_number [] f (u64 n)). }
  rewrite wrap_small, D by done. cbn [obind fst snd]. change (number_special f) with (@nil Z). cbn [app]. by rewrite length_map.
Qed.

Lemma formatted_alt_lx n : is_word 64 n -> formatted fmt_alt_lx [VLong n] =
  Done (48 :: 120 :: map digit (number_digits 16 n), s32 (2 + Z.of_nat (List.length (number_digits 16 n)))).
Proof.
  intros Hn. set (f := mkOptions ALT_FORM 0 0 LEN_LONG false TYPE_HEX). pose proof (plain_number f n Hn ltac:(by right) eq_refl eq_refl eq_refl ltac:(done)) as D.
  transitivity (do y <- display_number [] f (u64 n); Done (y.1, s32 (0 + y.2))).
  { change (formatted fmt_alt_lx [VLong n]) with (do x <- (do y <- display_number [] f (u64 n); Done (y.1, @nil va_arg, s32 (0 + y.2)));
      let '(func, args, count) := x in vasprintf_loop 4 func [] args count). by destruct (display_number [] f (u64 n)). }
  rewrite wrap_small, D by done. cbn [obind fst snd]. change (number_special f) with [48; 120]. cbn [app List.length]. rewrite length_map.
  by replace (0 + Z.of_nat (S (S (List.length (number_digits (number_base f) n))))) with (2 + Z.of_nat (List.length (number_digits (number_base f) n))) by lia.
Qed.

Lemma digit_char d : 0 <= d < 16 -> 0 < digit d < 256 /\ digit d <> 8.
Proof. intros H. rewrite digit_cases by done. destruct (d <? 10); lia. Qed.

Lemma digits_text ds base : base <= 16 -> Forall (fun d => 0 <= d < base) ds -> Forall (fun c => 0 < c < 256 /\ c <> 8) (map digit ds).
Proof. intros Hb Hd. rewrite Forall_map. eapply Forall_impl; [exact Hd|]. intros d [? ?]. apply digit_char. lia. Qed.

Lemma decimal_roundtrip str size n m fuel : is_word 64 n -> 21 <= size < 2 ^ 64 -> (22 <= fuel)%nat ->
  exists m' r, snprintf str size fmt_lu [VLong n] m = Done (m', r) /\ 1 <= r <= 20 /\ strtoul fuel str 10 m' = Done (n, str + r).
Proof.
  intros Hn Hs Hfuel. destruct (number_digits_ok 10 n ltac:(lia) Hn) as (V & R & _ & L). pose proof (number_digits_short 10 20 n ltac:(lia) ltac:(lia) ltac:(change (10 ^ Z.of_nat 20) with (10 ^ 20); destruct Hn; lia)) as L20.
  set (ds := number_digits 10 n) in *. eexists _, _. split; [apply snprintf_formatted, formatted_lu, Hn|]. fold ds.
  assert (T := snprintf_text str size m (map digit ds) (digits_text ds 10 ltac:(lia) R) ltac:(lia) ltac:(rewrite length_map; lia)). rewrite take_ge in T by (rewrite length_map; lia).
  assert (S : s32 (s32 (Z.of_nat (List.length ds))) = Z.of_nat (List.length ds)).
  { by rewrite !s32_small by (rewrite ?s32_small; lia). }
  rewrite S. split; [lia|]. unfold strtoul. cbn [orb Z.eqb Pos.eqb].
  pose proof (strtoul_dec_ok fuel _ str ds 0 0 ltac:(rewrite Z.add_0_r; exact T) R ltac:(lia) ltac:(lia) ltac:(done)) as D.
  change (u64 0) with 0 in D. rewrite D. cbn [obind fst snd]. change (fold_left _ ds 0) with (value 10 ds). rewrite V, wrap_small by done. done.
Qed.

Lemma hexadecimal_roundtrip str size n m fuel : is_word 64 n -> 21 <= size < 2 ^ 64 -> (22 <= fuel)%nat ->
  exists m' r, snprintf str size fmt_alt_lx [VLong n] m = Done (m', r) /\ 3 <= r <= 18 /\ strtoul fuel str 16 m' = Done (n, str + r).
Proof.
  intros Hn Hs Hfuel. destruct (number_digits_ok 16 n ltac:(lia) Hn) as (V & R & _ & L). pose proof (number_digits_short 16 16 n ltac:(lia) ltac:(lia) Hn) as L16.
  set (ds := number_digits 16 n) in *. eexists _, _. split; [apply snprintf_formatted, formatted_alt_lx, Hn|]. fold ds.
  assert (T := snprintf_text str size m (48 :: 120 :: map digit ds) ltac:(repeat (constructor; [lia|]); apply (digits_text ds 16); [lia|done]) ltac:(lia) ltac:(cbn; rewrite length_map; lia)).
  rewrite take_ge in T by (cbn; rewrite length_map; lia). set (m' := buffer_mem _) in *. clearbody m'. cbn [cstring] in T. destruct T as (T0 & _ & T1 & _ & T).
  assert (S : s32 (s32 (2 + Z.of_nat (List.length ds))) = 2 + Z.of_nat (List.length ds)).
  { by rewrite !s32_small by (rewrite ?s32_small; lia). }
  rewrite S. split; [lia|]. unfold strtoul. rewrite T0, T1. cbn [orb andb Z.eqb Pos.eqb].
  pose proof (strtoul_hex_ok fuel m' str ds 2 0 ltac:(by replace (str + 2) with (str + 1 + 1) by lia) R ltac:(lia)) as D.
  change (u64 0) with 0 in D. rewrite D. cbn [obind fst snd]. change (fold_left _ ds 0) with (value 16 ds). rewrite V, wrap_small by done. done.
Qed.

(** ** Theorems *)

(** C19: a number is written through a buffer of 64 characters.  Its digits stand
    for its magnitude in the base of the conversion, without leading zeros; the
    text is the sign, the prefix, and the digits with zeros up to the precision or
    the zero-padded field, in a field of spaces, and the count is its length.  It
    is written exactly if the digits with their zeros are at most 64; otherwise
    the buffer is overrun. *)
Theorem display_number_correct f number :
  is_word 64 number -> is_word 64 (field_width f) -> is_word 64 (precision f) ->
  let '(sign, mag) := number_sign f number in
  exists ds, value (number_base f) ds = mag /\ Forall (fun d => 0 <= d < number_base f) ds /\ (mag <> 0 -> hd 0 ds <> 0) /\
    display_number [] f number =
      if Z.max (Z.of_nat (List.length ds)) (least_digits f sign) <=? 64 then
        let text := if has f ZERO_PAD then number_text f sign ds else in_field f (number_text f sign ds) in
        Done (text, Z.of_nat (List.length text))
      else Crash BadAccess.
Proof.
  intros Hn Hw Hp. pose proof (display_number_ok f number Hn Hw Hp) as D. pose proof (number_parts f number Hn) as P.
  destruct (number_sign f number) as [sign mag]. cbv zeta in D. destruct P as (Hm & Hb & _).
  destruct (number_digits_ok (number_base f) mag Hb Hm) as (H1 & H2 & H3 & _). exists (number_digits (number_base f) mag). split_and!; [done|done| |].
  - intros H. by destruct H3 as [[? _]|[_ ?]].
  - by rewrite length_number_body in D.
Qed.

(** Minus five in a field of eight with a precision of three. *)
Lemma display_number_correct_witness :
  let f := mkOptions 0 8 3 LEN_LONG false TYPE_SIGNED_DECIMAL in
  display_number [] f (2 ^ 64 - 5) = Done ([32; 32; 32; 32; 45; 48; 48; 53], 8) /\
  exists ds, value 10 ds = 5 /\ hd 0 ds <> 0 /\
    (if Z.max (Z.of_nat (List.length ds)) 3 <=? 64 then Done (in_field f (number_text f 45 ds), Z.of_nat (List.length (in_field f (number_text f 45 ds))))
     else Crash BadAccess) = Done ([32; 32; 32; 32; 45; 48; 48; 53], 8).
Proof.
  intros f. split; [vm_compute; reflexivity|].
  destruct (display_number_correct f (2 ^ 64 - 5) ltac:(split; lia) ltac:(split; cbn; lia) ltac:(split; cbn; lia)) as (ds & H1 & _ & H2 & H3).
  exists ds. split; [exact H1|]. split; [apply H2; vm_compute; discriminate|]. etransitivity; [symmetry; exact H3|vm_compute; reflexivity].
Defined.

(** C18: [snprintf] changes no byte outside its buffer and, unless the size is
    zero, ends what it wrote with a zero byte inside it, whatever the format and
    the output (backspaces included).  If the output has no backspaces and no
    zero bytes, the buffer holds the string of its first [size - 1] characters.
    The result counts the output and not what fitted. *)
Theorem snprintf_correct str size fmt args m out count :
  formatted fmt args = Done (out, count) -> is_word 64 size ->
  exists m', snprintf str size fmt args m = Done (m', s32 count) /\ within str size m m' /\
    (0 < size -> exists i, 0 <= i < size /\ m' (str + i) = 0) /\
    (0 < size -> Forall (fun c => 0 < c < 256 /\ c <> 8) out -> Z.of_nat (List.length out) < 2 ^ 64 -> cstring m' str (take (Z.to_nat (size - 1)) out)).
Proof.
  intros E [S0 S1]. eexists. split; [by apply snprintf_formatted|]. set (b := fold_left putc out (mkBuffer 0 size str m)).
  assert (I : buffer_inv str size m b) by (apply puts_inv; split_and!; [done|done|done|intros a; done]). split_and!.
  - destruct (Z.eq_dec size 0) as [->|Hne]; [|by apply terminate_inv; [|lia]].
    destruct I as (I1 & _ & _ & I4). unfold nullTerminate. by rewrite I1.
  - intros Hs. destruct (terminate_inv str size m b I Hs) as (_ & i & H1 & _ & H3). by exists i.
  - intros Hs Hf Hl. by apply snprintf_text.
Qed.

(** "n=%ld" of 12345 into six bytes. *)
Lemma snprintf_correct_witness :
  exists m', snprintf 1000 6 [110; 61; 37; 108; 100] [VLong 12345] (fun _ => 0xff) = Done (m', 7) /\ cstring m' 1000 [110; 61; 49; 50; 51] /\ m' 1006 = 0xff.
Proof.
  assert (E : formatted [110; 61; 37; 108; 100] [VLong 12345] = Done ([110; 61; 49; 50; 51; 52; 53], 7)) by (vm_compute; reflexivity).
  destruct (snprintf_correct 1000 6 _ _ (fun _ => 0xff) _ _ E ltac:(split; lia)) as (m' & H1 & H2 & _ & H4). exists m'. split_and!.
  - exact H1.
  - apply H4; [lia| |cbn; lia]. repeat (constructor; [lia|]). constructor.
  - destruct (Z.eq_dec (m' 1006) 0xff) as [H|H]; [exact H|]. specialize (H2 1006 H). lia.
Defined.



(** ** Where the output is not what the format says *)

(** "50%%." gives "50%%": the second percent sign starts a conversion. *)
Example percent_twice : formatted [53; 48; 37; 37; 46] [] = Done ([53; 48; 37; 37], 4).
Proof. vm_compute. reflexivity. Qed.

(** "%d" of minus one is written as 4294967295. *)
Example negative_int : formatted [37; 100] [VInt (2 ^ 32 - 1)] = Done ([52; 50; 57; 52; 57; 54; 55; 50; 57; 53], 10).
Proof. vm_compute. reflexivity. Qed.

(** "%p" of 16 writes four characters and counts none. *)
Example pointer_count : formatted [37; 112] [VPtr 16] = Done ([48; 120; 49; 48], 0).
Proof. vm_compute. reflexivity. Qed.

(** "%065d" overruns the buffer. *)
Example wide_zero_pad : formatted [37; 48; 54; 53; 100] [VInt 1] = Crash BadAccess.
Proof. vm_compute. reflexivity. Qed.

(** "%f" of 1.05 is written as 1.5: the digits behind the point lose their zeros. *)
Example lost_zero : formatted [37; 102] [VDouble (decimal 105 2)] = Done ([49; 46; 53], 3).
Proof. vm_compute. reflexivity. Qed.

(** The results the comment of [display_double] gives: 3.14159 and 1.2345e-4. *)
Example documented_doubles :
  double_string (decimal 314159 5) = Done [51; 46; 49; 52; 49; 53; 56] /\
  double_string (decimal 12345 8) = Done [48; 46; 57; 53; 56; 55; 52; 55; 50; 50; 48; 53; 48; 50; 55; 55; 57].
Proof. vm_compute. split; reflexivity. Qed.
