(* ===== verification/Console.v ===== *)
(** * The kernel console ([src/kernel/console.C])

    [printk] formats into a buffer that every processor shares without a lock:
    the test for room and the atomic increment of the position are two steps. *)

From S2P Require Import Prelude LibMem Sprintf.

Definition BUFFER_SIZE : Z := 1024 * 36.

(** The singleton: the position, a [size_t], and the buffer, at index 0. *)
Record Console : Type := mkConsole { console_pos : Z; console_buffer : memory }.

Definition new_console : Console := mkConsole 0 (memset 0 0 BUFFER_SIZE (fun _ => 0)).

(** [putc] on one processor alone. *)
Definition console_putc (s : Console) (c : Z) : Console :=
  if c =? 8 then mkConsole (u64 (console_pos s - 1)) (console_buffer s)
  else if console_pos s <? BUFFER_SIZE then
    mkConsole (u64 (console_pos s + 1)) (upd (console_buffer s) (console_pos s) (u8 c))
  else s.
#[global] Instance kernel_console : ConsoleBufferInterface Console := console_putc.

Definition printk (s : Console) (fmt : list Z) (args : list va_arg) : outcome Console :=
  do x <- vasprintf s fmt args; Done x.1.

(** A backspace at the start moves the position behind every buffer: nothing is
    ever written again. *)
Lemma console_backspace l : forall s, console_pos s = 2 ^ 64 - 1 -> Forall (fun c => c <> 8) l -> fold_left putc l s = s.
Proof.
  induction l as [|c l IH]; intros s Hp Hl; [done|]. inversion Hl as [|? ? Hc Hl']; subst. apply Z.eqb_neq in Hc. cbn [fold_left].
  replace (putc s c) with s; [by apply IH|]. unfold putc, kernel_console, console_putc. by rewrite Hc, Hp.
Qed.

Example backspace_first : console_pos (putc new_console 8) = 2 ^ 64 - 1.
Proof. vm_compute. reflexivity. Qed.

(** ** Several processors *)

(** A processor in [putc]: after the test, and after the increment. *)
Inductive cpc : Type := COut | CTested (c : Z) | CAdded (i c : Z).

Record consys : Type := mkConsys { cs_con : Console; cs_pc : nat -> cpc; cs_writes : list Z }.

Section machine.
Variable n : nat.

Definition con_pc (s : consys) (t : nat) (p : cpc) : nat -> cpc := fun x => if (x =? t)%nat then p else cs_pc s x.

(** The steps of [putc] for characters other than the backspace. *)
Inductive con_step (s : consys) : consys -> Prop :=
| con_room t c : (t < n)%nat -> cs_pc s t = COut -> console_pos (cs_con s) < BUFFER_SIZE ->
    con_step s (mkConsys (cs_con s) (con_pc s t (CTested c)) (cs_writes s))
| con_full t : (t < n)%nat -> cs_pc s t = COut -> BUFFER_SIZE <= console_pos (cs_con s) -> con_step s s
| con_add t c : (t < n)%nat -> cs_pc s t = CTested c ->
    con_step s (mkConsys (mkConsole (u64 (console_pos (cs_con s) + 1)) (console_buffer (cs_con s)))
      (con_pc s t (CAdded (console_pos (cs_con s)) c)) (cs_writes s))
| con_store t i c : (t < n)%nat -> cs_pc s t = CAdded i c ->
    con_step s (mkConsys (mkConsole (console_pos (cs_con s)) (upd (console_buffer (cs_con s)) i (u8 c))) (con_pc s t COut) (i :: cs_writes s)).

Definition con_init : consys := mkConsys new_console (fun _ => COut) [].

Inductive con_reach : consys -> Prop :=
| con_reach_init : con_reach con_init
| con_reach_step s s' : con_reach s -> con_step s s' -> con_reach s'.

(** Processors between the test and the increment. *)
Definition is_tested (p : cpc) : nat := match p with CTested _ => 1 | _ => 0 end.
Definition tested (s : consys) : nat := sum_list_with (fun t => is_tested (cs_pc s t)) (seq 0 n).

Lemma sum_update (f g : nat -> nat) t : (t < n)%nat -> (forall x, x <> t -> g x = f x) ->
  (sum_list_with g (seq 0 n) + f t = sum_list_with f (seq 0 n) + g t)%nat.
Proof.
  intros Ht Hg. assert (E : forall k, (k <= t)%nat -> sum_list_with g (seq 0 k) = sum_list_with f (seq 0 k)).
  { induction k as [|k IH]; intros Hk; [done|]. rewrite seq_S, !sum_list_with_app, IH by lia. cbn. rewrite Hg by lia. done. }
  induction n as [|k IH]; [lia|]. rewrite seq_S, !sum_list_with_app. cbn. destruct (decide (t = k)) as [->|Hne]; [rewrite E by lia; lia|].
  specialize (IH ltac:(lia)). rewrite (Hg k) by lia. lia.
Qed.

Lemma tested_bound s : (tested s <= n)%nat.
Proof.
  assert (G : forall l, (sum_list_with (fun t => is_tested (cs_pc s t)) l <= List.length l)%nat).
  { induction l as [|t l IH]; cbn; [lia|]. destruct (cs_pc s t); cbn; lia. }
  specialize (G (seq 0 n)). by rewrite length_seq in G.
Qed.

Definition con_inv (s : consys) : Prop :=
  0 <= console_pos (cs_con s) /\ console_pos (cs_con s) + Z.of_nat (tested s) <= BUFFER_SIZE + Z.of_nat n - 1 /\
  (forall t i c, cs_pc s t = CAdded i c -> 0 <= i < BUFFER_SIZE + Z.of_nat n - 1) /\
  Forall (fun i => 0 <= i < BUFFER_SIZE + Z.of_nat n - 1) (cs_writes s).

Lemma con_step_inv s s' : Z.of_nat n < 2 ^ 63 -> con_inv s -> con_step s s' -> con_inv s'.
Proof.
  intros Hn (H0 & H1 & H2 & H3) Hst. unfold con_inv.
  assert (U : forall t p x, x <> t -> con_pc s t p x = cs_pc s x) by (intros t p x Hx; unfold con_pc; by rewrite (proj2 (Nat.eqb_neq x t) Hx)).
  assert (T : forall t p, (t < n)%nat -> (sum_list_with (fun x => is_tested (con_pc s t p x)) (seq 0 n) + is_tested (cs_pc s t) = tested s + is_tested p)%nat).
  { intros t p Ht. unfold tested. rewrite (sum_update (fun x => is_tested (cs_pc s x)) (fun x => is_tested (con_pc s t p x)) t Ht).
    - unfold con_pc. by rewrite Nat.eqb_refl.
    - intros x Hx. by rewrite U. }
  assert (P : forall t p, (forall i c, p = CAdded i c -> 0 <= i < BUFFER_SIZE + Z.of_nat n - 1) ->
    forall x i c, con_pc s t p x = CAdded i c -> 0 <= i < BUFFER_SIZE + Z.of_nat n - 1).
  { intros t p Hp x i c. unfold con_pc. destruct (x =? t)%nat; [apply Hp|apply H2]. }
  pose proof (tested_bound s) as Hb. destruct Hst as [t c Ht Hpc Hroom|t Ht Hpc Hfull|t c Ht Hpc|t i c Ht Hpc]; cbn.
  - specialize (T t (CTested c) Ht). unfold tested; cbn. rewrite Hpc in T. cbn in T.
    assert (B : (sum_list_with (fun x => is_tested (con_pc s t (CTested c) x)) (seq 0 n) <= n)%nat).
    { exact (tested_bound (mkConsys (cs_con s) (con_pc s t (CTested c)) [])). }
    split_and!; [done|lia|by apply P|done].
  - done.
  - specialize (T t (CAdded (console_pos (cs_con s)) c) Ht). unfold tested; cbn. rewrite Hpc in T. cbn in T. unfold BUFFER_SIZE in *.
    rewrite wrap_small by (split; lia). split_and!; [lia|lia| |done]. apply P. intros i c' [= <- <-]. lia.
  - specialize (T t COut Ht). unfold tested; cbn. rewrite Hpc in T. cbn in T. split_and!; [done|lia|by apply P|].
    constructor; [|done]. by apply (H2 t i c).
Qed.

Lemma con_reach_inv s : (1 <= n)%nat -> Z.of_nat n < 2 ^ 63 -> con_reach s -> con_inv s.
Proof.
  intros H1 Hn. induction 1 as [|s s' _ IH Hst]; [|by eapply con_step_inv].
  assert (T : tested con_init = 0%nat) by (unfold tested; cbn; induction (seq 0 n); done).
  unfold con_inv. rewrite T. unfold con_init, new_console, BUFFER_SIZE. cbn. split_and!; [lia|lia|done|constructor].
Qed.
End machine.

(** However many processors print at once, no character is stored further
    behind the buffer than there are other processors: with [n] processors every
    index written is below [BUFFER_SIZE + n - 1]. *)
Theorem printk_overrun_bound n s i :
  (1 <= n)%nat -> Z.of_nat n < 2 ^ 63 -> con_reach n s -> i ∈ cs_writes s -> 0 <= i < BUFFER_SIZE + Z.of_nat n - 1.
Proof.
  intros H1 Hn Hr Hi. destruct (con_reach_inv n s H1 Hn Hr) as (_ & _ & _ & H). rewrite Forall_forall in H. by apply H.
Qed.

(** One processor alone fills the buffer. *)
Lemma con_fill (k : nat) : Z.of_nat k <= BUFFER_SIZE -> exists s, con_reach 2 s /\ console_pos (cs_con s) = Z.of_nat k /\ forall t, cs_pc s t = COut.
Proof.
  induction k as [|k IH]; intros Hk; [exists con_init; split_and!; [constructor|done|done]|].
  destruct (IH ltac:(lia)) as (s & Hr & Hp & Hpc). eexists. split_and!.
  - eapply con_reach_step; [eapply con_reach_step; [eapply con_reach_step; [exact Hr|]|]|].
    + apply (con_room 2 s 0 65); [lia|done|lia].
    + apply (con_add 2 _ 0 65); [lia|done].
    + apply (con_store 2 _ 0 (console_pos (cs_con s)) 65); [lia|done].
  - cbn. rewrite wrap_small by (unfold BUFFER_SIZE in Hk; split; lia). lia.
  - intros t. cbn. unfold con_pc. cbn. unfold con_pc. by destruct (t =? 0)%nat.
Qed.

(** Two processors that both see the last free place: the second stores one byte
    behind the buffer. *)
Lemma printk_overrun : exists s, con_reach 2 s /\ BUFFER_SIZE ∈ cs_writes s.
Proof.
  destruct (con_fill (Z.to_nat (BUFFER_SIZE - 1)) ltac:(unfold BUFFER_SIZE; lia)) as (s & Hr & Hp & Hpc).
  rewrite Z2Nat.id in Hp by (unfold BUFFER_SIZE; lia).
  eexists. split.
  - eapply con_reach_step; [eapply con_reach_step; [eapply con_reach_step; [eapply con_reach_step; [eapply con_reach_step; [exact Hr|]|]|]|]|].
    + apply (con_room 2 s 0 65); [lia|done|lia].
    + apply (con_room 2 _ 1 66); [lia|apply Hpc|cbn; lia].
    + apply (con_add 2 _ 0 65); [lia|done].
    + apply (con_add 2 _ 1 66); [lia|done].
    + apply (con_store 2 _ 1 BUFFER_SIZE 66); [lia|]. cbn. unfold con_pc. cbn. by rewrite Hp.
  - by left.
Qed.

Lemma printk_overrun_bound_witness : exists s, con_reach 2 s /\ BUFFER_SIZE ∈ cs_writes s /\ 0 <= BUFFER_SIZE < BUFFER_SIZE + 2 - 1.
Proof.
  destruct printk_overrun as (s & Hr & Hi). exists s. split; [exact Hr|]. split; [exact Hi|].
  exact (printk_overrun_bound 2 s BUFFER_SIZE ltac:(lia) ltac:(lia) Hr Hi).
Defined.
