(* ===== verification/Deferred.v ===== *)
(** * Deferred work ([src/kernel/deferred.C], [barrier.C], [cpumgr.C])

    The processors of the kernel insert work items into a queue and execute them
    together.  A step is one atomic access of [DeferredQueue] or [DeferredWork]
    or one section under the lock of a barrier; a section under the lock of the
    queue is one step where the processor does not wait in it.  The virtual
    methods of a work item are places where a processor stays for a step.
    Pointers are numbers of 32 bits, as the packed words need. *)

From stdpp Require Import gmap.
From S2P Require Import Prelude.

(** ** Data *)

(** With the fields of its [Barrier]. *)
Record DeferredWork : Type := mkWork {
  iv_cpus_and_next : Z;
  iv_activeSeqId : Z;
  iv_count : Z;
  iv_event : Z;
  iv_missing : Z;
  iv_releasePre : bool;
  iv_releasePost : bool
}.

(** The macros on the packed word of a count and a pointer. *)
Definition DEFERRED_QUEUE_GET_NEXT_PTR (x : Z) : Z := Z.land x 0xFFFFFFFF.
Definition DEFERRED_QUEUE_GET_CPU_COUNT (x : Z) : Z := Z.shiftr x 32.
Definition DEFERRED_QUEUE_SET_NEXT_PTR (x item : Z) : Z := Z.lor (Z.land x 0xFFFFFFFF00000000) item.

Definition set_word (i : DeferredWork) (x : Z) : DeferredWork :=
  mkWork x (iv_activeSeqId i) (iv_count i) (iv_event i) (iv_missing i) (iv_releasePre i) (iv_releasePost i).
Definition set_barrier (i : DeferredWork) (event missing : Z) : DeferredWork :=
  mkWork (iv_cpus_and_next i) (iv_activeSeqId i) (iv_count i) event missing (iv_releasePre i) (iv_releasePost i).
Definition release_pre (i : DeferredWork) : DeferredWork :=
  mkWork (iv_cpus_and_next i) (iv_activeSeqId i) (iv_count i) (iv_event i) (iv_missing i) true (iv_releasePost i).
Definition release_post (i : DeferredWork) : DeferredWork :=
  mkWork (iv_cpus_and_next i) (iv_activeSeqId i) (iv_count i) (iv_event i) (iv_missing i) (iv_releasePre i) true.

(** The constructor: [cv_cpuSeq] has the sequence number above the count. *)
Definition new_work (cpuSeq : Z) : DeferredWork :=
  let cpuCount := Z.land cpuSeq 0xFFFFFFFF in
  mkWork 0 (u32 (Z.shiftr cpuSeq 32)) cpuCount 0 cpuCount false false.

(** Where a processor is: [w] is the work item it points to, [a] whether it was
    active when the item was created. *)
Inductive dpc : Type :=
| D_out
| D_insert (w : Z) (onlyIfEmpty : bool)
| D_read
| D_cas (cpus_and_next : Z)
| D_start (w : Z)
| D_bar1 (w : Z)
| D_spin1 (w : Z) (l_event : Z)
| D_pre (w : Z) (a : bool)
| D_prework (w : Z) (a : bool)
| D_main (w : Z) (a : bool)
| D_bar2 (w : Z)
| D_spin2 (w : Z) (l_event : Z)
| D_post (w : Z) (a : bool)
| D_postwork (w : Z)
| D_pop (w : Z)
| D_clear (w : Z) (old_ptr : Z)
| D_wait (w : Z) (old_ptr : Z)
| D_rel (w : Z)
| D_clean (w : Z)
| D_delete (w : Z).

#[global] Instance dpc_eq_dec : EqDecision dpc.
Proof. solve_decision. Defined.

(** The singleton queue, the items that are allocated, the processors with the
    sequence number of their start (0 before it) and [cv_cpuSeq]. *)
Record dsys : Type := mkD {
  d_head : Z;
  d_lock : bool;
  d_items : gmap Z DeferredWork;
  d_pc : Z -> dpc;
  d_start_seqid : Z -> Z;
  d_cpuSeq : Z
}.

Definition goto (s : dsys) (t : Z) (p : dpc) : dsys :=
  mkD (d_head s) (d_lock s) (d_items s) (upd (d_pc s) t p) (d_start_seqid s) (d_cpuSeq s).
Definition set_head (s : dsys) (h : Z) : dsys := mkD h (d_lock s) (d_items s) (d_pc s) (d_start_seqid s) (d_cpuSeq s).
Definition set_lock (s : dsys) (l : bool) : dsys := mkD (d_head s) l (d_items s) (d_pc s) (d_start_seqid s) (d_cpuSeq s).
Definition set_items (s : dsys) (m : gmap Z DeferredWork) : dsys :=
  mkD (d_head s) (d_lock s) m (d_pc s) (d_start_seqid s) (d_cpuSeq s).
Definition put_item (s : dsys) (w : Z) (i : DeferredWork) : dsys := set_items s (<[w := i]> (d_items s)).

(** An access to an item that is not allocated is a bad one. *)
Definition item (s : dsys) (w : Z) : outcome DeferredWork :=
  match d_items s !! w with Some i => Done i | None => Crash BadAccess end.

(** The destructor's assertion. *)
Definition delete_work (s : dsys) (w : Z) : outcome dsys :=
  do i <- item s w; assert! iv_cpus_and_next i =? 0; Done (set_items s (delete w (d_items s))).

(** ** [DeferredQueue] *)

Fixpoint find_tail (fuel : nat) (s : dsys) (tail : Z) : outcome Z :=
  match fuel with
  | O => Crash BadAccess
  | S fuel =>
      do i <- item s tail;
      let next := DEFERRED_QUEUE_GET_NEXT_PTR (iv_cpus_and_next i) in
      if next =? 0 then Done tail else find_tail fuel s next
  end.

(** [_insert], under the lock; the walk visits no item twice. *)
Definition insert_work (s : dsys) (i_work : Z) (i_onlyIfEmpty : bool) : outcome dsys :=
  if d_head s =? 0 then Done (set_head s i_work)
  else if i_onlyIfEmpty then delete_work s i_work
  else
    do tail <- find_tail (S (size (d_items s))) s (DEFERRED_QUEUE_GET_NEXT_PTR (d_head s));
    do i <- item s tail;
    Done (put_item s tail (set_word i (DEFERRED_QUEUE_SET_NEXT_PTR (iv_cpus_and_next i) i_work))).

(** The locked section of [Barrier::wait]: the event to wait for, if not last. *)
Definition barrier_arrive (i : DeferredWork) : DeferredWork * option Z :=
  let missing := u64 (iv_missing i - 1) in
  if 0 <? missing then (set_barrier i (iv_event i) missing, Some (iv_event i))
  else (set_barrier i (u64 (iv_event i + 1)) (iv_count i), None).

(** The compare-and-swap of [activateCPU]. *)
Definition activateCPU (s : dsys) (t : Z) : dsys :=
  let seq := u64 (d_cpuSeq s + 1 + Z.shiftl 1 32) in
  mkD (d_head s) (d_lock s) (d_items s) (d_pc s) (upd (d_start_seqid s) t (Z.shiftr seq 32)) seq.

Section machine.
(** The processor whose [master] is set. *)
Variable M : Z.

(** One step of processor [t] inside [insert] or [execute]; a processor that
    spins stays where it is. *)
Definition run (t : Z) (s : dsys) : outcome dsys :=
  match d_pc s t with
  | D_out => Done s
  | D_insert w only => if d_lock s then Done s else do s <- insert_work s w only; Done (goto s t D_out)
  | D_read => Done (if d_head s =? 0 then goto s t D_out else goto s t (D_cas (d_head s)))
  | D_cas h =>
      Done (if d_head s =? h then goto (set_head s (u64 (h + Z.shiftl 1 32))) t (D_start (DEFERRED_QUEUE_GET_NEXT_PTR h)) else goto s t D_read)
  | D_start w =>
      do i <- item s w;
      let s := put_item s w (set_word i (u64 (iv_cpus_and_next i + Z.shiftl 1 32))) in
      Done (goto s t (if d_start_seqid s t <=? iv_activeSeqId i then D_bar1 w else D_pre w false))
  | D_bar1 w =>
      do i <- item s w;
      let '(i, e) := barrier_arrive i in
      Done (goto (put_item s w i) t (match e with Some e => D_spin1 w e | None => D_pre w true end))
  | D_spin1 w e => do i <- item s w; Done (if iv_event i =? e then s else goto s t (D_pre w true))
  | D_pre w a =>
      if t =? M then Done (goto s t (D_prework w a))
      else do i <- item s w; Done (if iv_releasePre i then goto s t (D_main w a) else s)
  | D_prework w a => do i <- item s w; Done (goto (put_item s w (release_pre i)) t (D_main w a))
  | D_main w a => Done (goto s t (if a then D_bar2 w else D_post w false))
  | D_bar2 w =>
      do i <- item s w;
      let '(i, e) := barrier_arrive i in
      Done (goto (put_item s w i) t (match e with Some e => D_spin2 w e | None => D_post w true end))
  | D_spin2 w e => do i <- item s w; Done (if iv_event i =? e then s else goto s t (D_post w true))
  | D_post w a =>
      if t =? M then Done (goto s t (D_postwork w))
      else do i <- item s w; Done (if iv_releasePost i then goto s t (D_clean w) else s)
  | D_postwork w => Done (goto s t (D_pop w))
  | D_pop w =>
      if d_lock s then Done s
      else
        do i <- item s w;
        let new_ptr := DEFERRED_QUEUE_GET_NEXT_PTR (iv_cpus_and_next i) in
        Done (goto (set_lock (set_head s new_ptr) true) t (D_clear w (d_head s)))
  | D_clear w old_ptr =>
      do i <- item s w;
      Done (goto (put_item s w (set_word i (DEFERRED_QUEUE_SET_NEXT_PTR (iv_cpus_and_next i) 0))) t (D_wait w (Z.shiftr old_ptr 32)))
  | D_wait w old_ptr =>
      do i <- item s w;
      Done (if DEFERRED_QUEUE_GET_CPU_COUNT (iv_cpus_and_next i) =? old_ptr then goto (set_lock s false) t (D_rel w) else s)
  | D_rel w => do i <- item s w; Done (goto (put_item s w (release_post i)) t (D_clean w))
  | D_clean w =>
      do i <- item s w;
      let x := u64 (iv_cpus_and_next i - Z.shiftl 1 32) in
      Done (goto (put_item s w (set_word i x)) t (if Z.shiftr x 32 =? 0 then D_delete w else D_out))
  | D_delete w => do s <- delete_work s w; Done (goto s t D_out)
  end.

(** The processors; the start, with the master active. *)
Variable T : list Z.

Definition d_init : dsys := mkD 0 false ∅ (fun _ => D_out) (fun t => if t =? M then 1 else 0) (Z.shiftl 1 32 + 1).

Inductive d_step (s : dsys) : dsys -> Prop :=
| d_activate t : t ∈ T -> d_start_seqid s t = 0 -> d_step s (activateCPU s t)
| d_new t w only : t ∈ T -> d_start_seqid s t <> 0 -> d_pc s t = D_out -> 0 < w < 2 ^ 32 -> d_items s !! w = None ->
    d_step s (goto (put_item s w (new_work (d_cpuSeq s))) t (D_insert w only))
| d_execute t : t ∈ T -> d_start_seqid s t <> 0 -> d_pc s t = D_out -> d_step s (goto s t D_read)
| d_run t s' : t ∈ T -> run t s = Done s' -> d_step s s'.

Inductive d_reach : dsys -> Prop :=
| d_reach_init : d_reach d_init
| d_reach_step s s' : d_reach s -> d_step s s' -> d_reach s'.
End machine.
