(* ===== verification/DeferredInv.v ===== *)
(** * The invariant of deferred work

    How many processors are at each place of each item, how the queue is linked
    and where each item is: queued, being created, taken off the queue by the
    master, or released; and what a step leaves as it was. *)

From stdpp Require Import gmap.
From S2P Require Import Prelude Deferred.

(** ** Packed words *)

Notation next_ptr := DEFERRED_QUEUE_GET_NEXT_PTR.
Notation cpu_count := DEFERRED_QUEUE_GET_CPU_COUNT.

Lemma next_ptr_mod x : next_ptr x = x mod 2 ^ 32.
Proof. unfold DEFERRED_QUEUE_GET_NEXT_PTR. change 0xFFFFFFFF with (Z.ones 32). by apply Z.land_ones. Qed.

Lemma cpu_count_div x : cpu_count x = x / 2 ^ 32.
Proof. unfold DEFERRED_QUEUE_GET_CPU_COUNT. by apply Z.shiftr_div_pow2. Qed.

Lemma word_parts x : x = cpu_count x * 2 ^ 32 + next_ptr x.
Proof. rewrite next_ptr_mod, cpu_count_div, (Z.mul_comm _ (2 ^ 32)). by apply Z.div_mod. Qed.

Lemma next_ptr_word x : is_word 32 (next_ptr x).
Proof. rewrite next_ptr_mod. by apply Z.mod_pos_bound. Qed.

Lemma packed c p : 0 <= c < 2 ^ 32 -> is_word 32 p ->
  is_word 64 (c * 2 ^ 32 + p) /\ cpu_count (c * 2 ^ 32 + p) = c /\ next_ptr (c * 2 ^ 32 + p) = p.
Proof.
  intros Hc [H0 H1]. rewrite cpu_count_div, next_ptr_mod, Z.div_add_l, (Z.div_small p), Z.add_comm, Z.mod_add, Z.mod_small by lia.
  split_and!; [split; lia|lia|done].
Qed.

Lemma packed_ext x y : cpu_count x = cpu_count y -> next_ptr x = next_ptr y -> x = y.
Proof. intros H1 H2. rewrite (word_parts x), (word_parts y). congruence. Qed.

Lemma count_up x : is_word 64 x -> cpu_count x + 1 < 2 ^ 32 ->
  is_word 64 (u64 (x + Z.shiftl 1 32)) /\ cpu_count (u64 (x + Z.shiftl 1 32)) = cpu_count x + 1 /\ next_ptr (u64 (x + Z.shiftl 1 32)) = next_ptr x.
Proof.
  intros [H0 H1] Hc. change (Z.shiftl 1 32) with (2 ^ 32).
  assert (C0 : 0 <= cpu_count x) by (rewrite cpu_count_div; apply Z.div_pos; lia).
  pose proof (packed (cpu_count x + 1) (next_ptr x) ltac:(lia) (next_ptr_word x)) as P.
  replace (x + 2 ^ 32) with ((cpu_count x + 1) * 2 ^ 32 + next_ptr x) by (pose proof (word_parts x); lia). rewrite wrap_small by apply P. exact P.
Qed.

Lemma count_down x : is_word 64 x -> 1 <= cpu_count x ->
  is_word 64 (u64 (x - Z.shiftl 1 32)) /\ cpu_count (u64 (x - Z.shiftl 1 32)) = cpu_count x - 1 /\ next_ptr (u64 (x - Z.shiftl 1 32)) = next_ptr x.
Proof.
  intros [H0 H1] Hc. change (Z.shiftl 1 32) with (2 ^ 32).
  assert (C1 : cpu_count x < 2 ^ 32) by (rewrite cpu_count_div; apply Z.div_lt_upper_bound; lia).
  pose proof (packed (cpu_count x - 1) (next_ptr x) ltac:(lia) (next_ptr_word x)) as P.
  replace (x - 2 ^ 32) with ((cpu_count x - 1) * 2 ^ 32 + next_ptr x) by (pose proof (word_parts x); lia). rewrite wrap_small by apply P. exact P.
Qed.

Lemma set_next x p : is_word 64 x -> is_word 32 p ->
  is_word 64 (DEFERRED_QUEUE_SET_NEXT_PTR x p) /\ cpu_count (DEFERRED_QUEUE_SET_NEXT_PTR x p) = cpu_count x /\ next_ptr (DEFERRED_QUEUE_SET_NEXT_PTR x p) = p.
Proof.
  intros [H0 H1] Hp. assert (C : 0 <= cpu_count x < 2 ^ 32) by (rewrite cpu_count_div; split; [apply Z.div_pos; lia|apply Z.div_lt_upper_bound; lia]).
  replace (DEFERRED_QUEUE_SET_NEXT_PTR x p) with (cpu_count x * 2 ^ 32 + p); [by apply packed|].
  unfold DEFERRED_QUEUE_SET_NEXT_PTR. rewrite cpu_count_div, <-Z.shiftl_mul_pow2, <-Z.shiftr_div_pow2 by lia.
  assert (E : Z.land x 0xFFFFFFFF00000000 = Z.shiftl (Z.shiftr x 32) 32).
  { apply Z.bits_inj'. intros i Hi. rewrite Z.land_spec, Z.shiftl_spec by done. change 0xFFFFFFFF00000000 with (Z.shiftl (Z.ones 32) 32).
    rewrite Z.shiftl_spec by done. destruct (decide (i < 32)).
    - rewrite !(Z.testbit_neg_r _ (i - 32)) by lia. apply andb_false_r.
    - rewrite Z.shiftr_spec, Z.sub_add by lia. destruct (decide (i < 64)).
      + rewrite Z.ones_spec_low by lia. apply andb_true_r.
      + by rewrite (word_bits_high 64 x) by (done || lia). }
  rewrite E, <-Z.lxor_lor, <-Z.add_nocarry_lxor; [done| |].
  all: apply Z.bits_inj'; intros i Hi; rewrite Z.land_spec, Z.shiftl_spec, Z.bits_0 by done.
  all: destruct (decide (i < 32)); [by rewrite (Z.testbit_neg_r _ (i - 32)) by lia|]; rewrite (word_bits_high 32 p) by (done || lia); apply andb_false_r.
Qed.

(** ** Places *)

(** The item a processor points to. *)
Definition pc_item (p : dpc) : option Z :=
  match p with
  | D_out | D_read | D_cas _ => None
  | D_insert w _ | D_start w | D_bar1 w | D_spin1 w _ | D_pre w _ | D_prework w _ | D_main w _ | D_bar2 w | D_spin2 w _
  | D_post w _ | D_postwork w | D_pop w | D_clear w _ | D_wait w _ | D_rel w | D_clean w | D_delete w => Some w
  end.

(** Kinds of places: creating; with a pointer, not counted yet; before the first
    barrier, in it, behind it, in the second, behind it, of those active; leaving;
    deleting. *)
Inductive kind : Type := KC | KH | K0 | K1 | K2 | K3 | K4 | KL | KD | KN.

Definition kind_eqb (k k' : kind) : bool :=
  match k, k' with
  | KC, KC | KH, KH | K0, K0 | K1, K1 | K2, K2 | K3, K3 | K4, K4 | KL, KL | KD, KD | KN, KN => true
  | _, _ => false
  end.

(** The kind of a place; not active for the item and counted: [KN]. *)
Definition kind_of (p : dpc) : option kind :=
  match p with
  | D_out | D_read | D_cas _ => None
  | D_insert _ _ => Some KC
  | D_start _ => Some KH
  | D_bar1 _ => Some K0
  | D_spin1 _ _ => Some K1
  | D_pre _ a | D_prework _ a | D_main _ a => Some (if a then K2 else KN)
  | D_bar2 _ => Some K2
  | D_spin2 _ _ => Some K3
  | D_post _ a => Some (if a then K4 else KN)
  | D_postwork _ | D_pop _ | D_clear _ _ | D_wait _ _ | D_rel _ => Some K4
  | D_clean _ => Some KL
  | D_delete _ => Some KD
  end.

Definition points_to (w : Z) (p : dpc) : bool := match pc_item p with Some w' => w' =? w | None => false end.
Definition at_place (k : kind) (w : Z) (p : dpc) : bool :=
  points_to w p && match kind_of p with Some k' => kind_eqb k k' | None => false end.

Lemma points_to_spec w p : points_to w p = true <-> pc_item p = Some w.
Proof. unfold points_to. destruct (pc_item p); rewrite ?Z.eqb_eq; split; congruence. Qed.

Section counts.
Variable T : list Z.
Hypothesis HT : NoDup T.
Implicit Types (s : dsys) (pc : Z -> dpc).

Definition cnt (k : kind) pc (w : Z) : Z := tally (fun t => at_place k w (pc t)) T.

Lemma cnt_pos k pc w : 0 <= cnt k pc w.
Proof. apply tally_bounds. Qed.

Lemma tally_upd (f : dpc -> bool) pc t p l : NoDup l -> t ∈ l ->
  tally (fun x => f (upd pc t p x)) l = tally (fun x => f (pc x)) l - Z.b2z (f (pc t)) + Z.b2z (f p).
Proof.
  induction l as [|x l IH]; intros Hn Hi; [by apply elem_of_nil in Hi|]. apply NoDup_cons in Hn as [Hx Hn]. cbn [tally].
  destruct (decide (x = t)) as [->|Hne].
  - rewrite upd_eq, (tally_ext (fun x => f (upd pc t p x)) (fun x => f (pc x))).
    + destruct (f (pc t)), (f p); cbn; lia.
    + intros y Hy. rewrite upd_ne; [done|]. by intros ->.
  - apply elem_of_cons in Hi as [?|Hi]; [done|]. rewrite upd_ne, IH by done. lia.
Qed.

Lemma cnt_upd k pc t p w : t ∈ T -> cnt k (upd pc t p) w = cnt k pc w - Z.b2z (at_place k w (pc t)) + Z.b2z (at_place k w p).
Proof. intros Ht. by apply (tally_upd (at_place k w)). Qed.

Lemma at_place_other k w p : pc_item p <> Some w -> at_place k w p = false.
Proof. intros H. unfold at_place. destruct (points_to w p) eqn:E; [by apply points_to_spec in E|done]. Qed.

(** A step between places of other items does not change the counts of [w]. *)
Lemma cnt_frame k pc t p w : t ∈ T -> pc_item (pc t) <> Some w -> pc_item p <> Some w -> cnt k (upd pc t p) w = cnt k pc w.
Proof. intros Ht H1 H2. rewrite cnt_upd, !at_place_other by done. cbn. lia. Qed.

Lemma cnt_zero k pc w : (forall t, t ∈ T -> pc_item (pc t) <> Some w) -> cnt k pc w = 0.
Proof. intros H. apply tally_none. intros t Ht. apply at_place_other. by apply H. Qed.

Lemma tally_le {A} (f g : A -> bool) l : (forall x, x ∈ l -> f x = true -> g x = true) -> tally f l <= tally g l.
Proof.
  induction l as [|x l IH]; intros H; [done|]. cbn. specialize (IH ltac:(intros y Hy; apply H; by right)). specialize (H x ltac:(by left)).
  destruct (f x); [rewrite H by done; lia|destruct (g x); lia].
Qed.

Lemma tally_lt {A} (f g : A -> bool) l x : (forall x, x ∈ l -> f x = true -> g x = true) -> x ∈ l -> f x = false -> g x = true -> tally f l < tally g l.
Proof.
  induction l as [|y l IH]; intros H Hx Hf Hg; [by apply elem_of_nil in Hx|]. cbn. apply elem_of_cons in Hx as [->|Hx].
  - rewrite Hf, Hg. enough (tally f l <= tally g l) by lia. apply tally_le. intros z Hz. apply H. by right.
  - specialize (IH ltac:(intros z Hz; apply H; by right) Hx Hf Hg). specialize (H y ltac:(by left)). destruct (f y); [rewrite H by done; lia|destruct (g y); lia].
Qed.

(** The processors counted in an item's word. *)
Definition inside (w : Z) (p : dpc) : bool :=
  points_to w p && match kind_of p with Some (K0 | K1 | K2 | K3 | K4 | KL | KN) => true | _ => false end.
Definition active_in (w : Z) (p : dpc) : bool :=
  points_to w p && match kind_of p with Some (K0 | K1 | K2 | K3 | K4) => true | _ => false end.

Definition one (b : bool) : Z := if b then 1 else 0.

Lemma place_sum w p :
  one (inside w p) = one (at_place K0 w p) + one (at_place K1 w p) + one (at_place K2 w p) + one (at_place K3 w p) + one (at_place K4 w p) +
    one (at_place KL w p) + one (at_place KN w p) /\
  one (active_in w p) = one (at_place K0 w p) + one (at_place K1 w p) + one (at_place K2 w p) + one (at_place K3 w p) + one (at_place K4 w p) /\
  one (inside w p) + one (at_place KH w p) <= 1.
Proof. unfold inside, active_in, at_place. destruct (points_to w p); cbn [andb]; [|cbn; lia]. destruct (kind_of p) as [[]|]; cbn; lia. Qed.

Lemma inside_sum pc w : tally (fun t => inside w (pc t)) T =
  cnt K0 pc w + cnt K1 pc w + cnt K2 pc w + cnt K3 pc w + cnt K4 pc w + cnt KL pc w + cnt KN pc w.
Proof.
  unfold cnt. clear HT. induction T as [|t l IH]; [done|]. cbn [tally]. pose proof (place_sum w (pc t)) as (H & _ & _). unfold one in H. lia.
Qed.

Lemma active_sum pc w : tally (fun t => active_in w (pc t)) T = cnt K0 pc w + cnt K1 pc w + cnt K2 pc w + cnt K3 pc w + cnt K4 pc w.
Proof.
  unfold cnt. clear HT. induction T as [|t l IH]; [done|]. cbn [tally]. pose proof (place_sum w (pc t)) as (_ & H & _). unfold one in H. lia.
Qed.

(** At most all processors point to an item and have not left it. *)
Lemma cnt_total pc w : cnt KH pc w + tally (fun t => inside w (pc t)) T <= Z.of_nat (length T).
Proof.
  unfold cnt. clear HT. induction T as [|t l IH]; [done|]. cbn [tally length]. pose proof (place_sum w (pc t)) as (_ & _ & H). unfold one in H. lia.
Qed.
End counts.

(** ** The invariant *)

Section invariant.
Variables (M : Z) (T : list Z).
Implicit Types (s : dsys) (q : list Z) (i : DeferredWork).

(** What a processor at [p] knows of its item; [st] is its sequence number. *)
Definition counted_in (st : Z) i : Prop := 1 <= st <= iv_activeSeqId i.
Definition knows (t st : Z) i (p : dpc) : Prop :=
  match p with
  | D_out | D_read | D_cas _ | D_insert _ _ => True
  | D_start _ => t = M -> iv_releasePost i = false
  | D_bar1 _ => counted_in st i /\ (t = M -> iv_releasePost i = false)
  | D_spin1 _ e => counted_in st i /\ (t = M -> iv_releasePost i = false) /\ (t = M -> iv_releasePre i = false) /\ e = 0
  | D_pre _ a => (a = true <-> counted_in st i) /\ (t = M -> iv_releasePost i = false) /\ (t = M -> iv_releasePre i = false)
  | D_prework _ a => (a = true <-> counted_in st i) /\ t = M /\ iv_releasePost i = false /\ iv_releasePre i = false
  | D_main _ a | D_post _ a => (a = true <-> counted_in st i) /\ (t = M -> iv_releasePost i = false) /\ iv_releasePre i = true
  | D_bar2 _ => counted_in st i /\ (t = M -> iv_releasePost i = false) /\ iv_releasePre i = true
  | D_spin2 _ e => counted_in st i /\ (t = M -> iv_releasePost i = false) /\ iv_releasePre i = true /\ e = 1
  | D_postwork _ | D_pop _ | D_clear _ _ | D_wait _ _ | D_rel _ =>
      counted_in st i /\ t = M /\ iv_releasePost i = false /\ iv_releasePre i = true
  | D_clean _ | D_delete _ => iv_releasePost i = true
  end.

(** Places behind the removal from the queue. *)
Definition popped (p : dpc) : bool := match p with D_clear _ _ | D_wait _ _ | D_rel _ => true | _ => false end.

Definition pc_ok s q (t : Z) : Prop :=
  match pc_item (d_pc s t) with
  | Some w => exists i, d_items s !! w = Some i /\ knows t (d_start_seqid s t) i (d_pc s t) /\ (popped (d_pc s t) = true -> w ∉ q)
  | None => d_pc s t <> D_cas 0
  end.

Notation c k s w := (cnt T k (d_pc s) w).
Definition nin s (w : Z) : Z := tally (fun t => inside w (d_pc s t)) T.

(** The barrier: nobody has passed it; all have passed it once; all have twice. *)
Definition barrier_ok s (w : Z) i : Prop :=
  (iv_event i = 0 /\ c K2 s w = 0 /\ c K3 s w = 0 /\ c K4 s w = 0 /\ iv_missing i + c K1 s w = iv_count i /\ 1 <= iv_missing i /\
   iv_releasePre i = false /\ iv_releasePost i = false) \/
  (iv_event i = 1 /\ c K1 s w + c K2 s w + c K3 s w = iv_count i /\ c K4 s w = 0 /\ iv_missing i + c K3 s w = iv_count i /\ 1 <= iv_missing i /\
   iv_releasePost i = false) \/
  (iv_event i = 2 /\ iv_releasePre i = true /\ c K0 s w = 0 /\ c K1 s w = 0 /\ c K2 s w = 0 /\ iv_missing i = iv_count i /\
   (iv_releasePost i = false -> c K3 s w + c K4 s w = iv_count i)).

(** An item off the queue that the master has not released. *)
Definition popping s (w : Z) i : Prop :=
  match d_pc s M with
  | D_clear w' o => w' = w /\ c KH s w + nin s w = cpu_count o
  | D_wait w' o => w' = w /\ c KH s w + nin s w = o /\ next_ptr (iv_cpus_and_next i) = 0
  | D_rel w' => w' = w /\ c KH s w = 0 /\ next_ptr (iv_cpus_and_next i) = 0
  | _ => False
  end.

Definition place_ok s q (w : Z) i : Prop :=
  (w ∈ q /\ c KC s w = 0 /\ c KD s w = 0 /\ iv_releasePost i = false /\ (hd 0 q <> w -> c KH s w = 0 /\ nin s w = 0)) \/
  (w ∉ q /\ c KC s w = 1 /\ c KD s w = 0 /\ c KH s w = 0 /\ nin s w = 0 /\ iv_cpus_and_next i = 0 /\ iv_releasePost i = false) \/
  (w ∉ q /\ c KC s w = 0 /\ c KD s w = 0 /\ iv_releasePost i = false /\ popping s w i) \/
  (w ∉ q /\ c KC s w = 0 /\ c KH s w = 0 /\ iv_releasePost i = true /\ next_ptr (iv_cpus_and_next i) = 0 /\
   (1 <= nin s w /\ c KD s w = 0 \/ nin s w = 0 /\ c KD s w = 1)).

Record item_ok s q (w : Z) i : Prop := {
  item_word : is_word 64 (iv_cpus_and_next i);
  item_count : cpu_count (iv_cpus_and_next i) = nin s w;
  item_barrier : barrier_ok s w i;
  item_place : place_ok s q w i
}.

(** The sequence numbers: as many processors have started as the last of them. *)
Record seq_ok s (K : Z) : Prop := {
  seq_val : d_cpuSeq s = K * 2 ^ 32 + K;
  seq_pos : 1 <= K;
  seq_start t : 0 <= d_start_seqid s t <= K;
  seq_master : d_start_seqid s M = 1;
  seq_out t : d_start_seqid s t = 0 -> d_pc s t = D_out;
  seq_in t : d_start_seqid s t <> 0 -> t ∈ T;
  seq_tally j : 0 <= j <= K -> tally (fun t => (1 <=? d_start_seqid s t) && (d_start_seqid s t <=? j)) T = j;
  seq_items w i : d_items s !! w = Some i -> iv_count i = iv_activeSeqId i /\ 1 <= iv_activeSeqId i <= K /\ 0 < w < 2 ^ 32
}.

(** Each item's word points to the next. *)
Fixpoint chain (m : gmap Z DeferredWork) q : Prop :=
  match q with
  | [] => True
  | w :: q => (exists i, m !! w = Some i /\ next_ptr (iv_cpus_and_next i) = hd 0 q) /\ chain m q
  end.

Record queue_ok s q : Prop := {
  queue_nodup : NoDup q;
  queue_head : next_ptr (d_head s) = hd 0 q;
  queue_word : is_word 64 (d_head s);
  queue_count : cpu_count (d_head s) = match q with [] => 0 | w :: _ => c KH s w + nin s w end;
  queue_chain : chain (d_items s) q
}.

Record dinv s q : Prop := {
  inv_seq : exists K, seq_ok s K;
  inv_queue : queue_ok s q;
  inv_pc t : pc_ok s q t;
  inv_item w i : d_items s !! w = Some i -> item_ok s q w i;
  inv_lock : d_lock s = match d_pc s M with D_clear _ _ | D_wait _ _ => true | _ => false end
}.
End invariant.

Section frame.
Variables (M : Z) (T : list Z).
Hypothesis HT : NoDup T.
Implicit Types (s : dsys) (q : list Z) (i : DeferredWork).
Notation c k s w := (cnt T k (d_pc s) w).
Notation nin := (nin T).

Lemma nin_upd s s' t p' w : t ∈ T -> d_pc s' = upd (d_pc s) t p' ->
  nin s' w = nin s w - Z.b2z (inside w (d_pc s t)) + Z.b2z (inside w p').
Proof. intros Ht E. unfold DeferredInv.nin. rewrite E. by apply (tally_upd (inside w)). Qed.

Lemma inside_other w p : pc_item p <> Some w -> inside w p = false.
Proof. intros H. unfold inside. destruct (points_to w p) eqn:E; [by apply points_to_spec in E|done]. Qed.

Lemma nin_frame s s' t p' w : t ∈ T -> d_pc s' = upd (d_pc s) t p' -> pc_item (d_pc s t) <> Some w -> pc_item p' <> Some w -> nin s' w = nin s w.
Proof. intros Ht E H1 H2. rewrite (nin_upd s s' t p' w Ht E), !inside_other by done. cbn. lia. Qed.

Lemma knows_frame t st i i' p : knows M t st i p -> iv_activeSeqId i' = iv_activeSeqId i ->
  (iv_releasePre i = true -> iv_releasePre i' = true) -> (iv_releasePost i = true -> iv_releasePost i' = true) ->
  (t = M -> iv_releasePre i' = iv_releasePre i /\ iv_releasePost i' = iv_releasePost i) -> knows M t st i' p.
Proof.
  intros K Es H1 H2 H3. unfold knows, counted_in in *. rewrite Es.
  destruct p; try done; naive_solver congruence.
Qed.

Lemma pc_ok_frame s s' q q' t :
  pc_ok M s q t -> d_pc s' t = d_pc s t -> d_start_seqid s' t = d_start_seqid s t ->
  (forall w, pc_item (d_pc s t) = Some w -> d_items s' !! w = d_items s !! w /\ (w ∈ q' -> w ∈ q)) -> pc_ok M s' q' t.
Proof.
  unfold pc_ok. intros H E1 E2 Hw. rewrite E1, E2. destruct (pc_item (d_pc s t)) as [w|] eqn:Ei; [|done]. destruct H as (i & H1 & H2 & H3).
  destruct (Hw w eq_refl) as [E3 E4]. exists i. rewrite E3. split_and!; [done|done|]. intros Hp Hq. by apply H3, E4.
Qed.

(** An item no step has touched. *)
Lemma item_frame s s' q q' t p' w i :
  item_ok M T s q w i -> t ∈ T -> d_pc s' = upd (d_pc s) t p' -> pc_item (d_pc s t) <> Some w -> pc_item p' <> Some w ->
  (w ∈ q' <-> w ∈ q) -> (w ∈ q -> hd 0 q' <> w -> hd 0 q <> w) -> item_ok M T s' q' w i.
Proof.
  intros [H1 H2 H3 H4] Ht E P1 P2 Hq Hh. assert (C : forall k, c k s' w = c k s w) by (intros k; rewrite E; by apply cnt_frame).
  assert (N : nin s' w = nin s w) by (by apply (nin_frame s s' t p')). split; [done|by rewrite N| |].
  - unfold barrier_ok in *. by rewrite !C.
  - assert (P : popping M T s' w i <-> popping M T s w i).
    { unfold popping. assert (EM : d_pc s' M = upd (d_pc s) t p' M) by (by rewrite E). rewrite EM, C, N.
      destruct (decide (t = M)) as [->|Hne]; [rewrite upd_eq|by rewrite upd_ne by done]. split; intros H; exfalso; [destruct p'|destruct (d_pc s M)]; try done; cbn in P1, P2; by destruct H as [<- _]. }
    unfold place_ok in *. rewrite !C, N, Hq, P. intuition.
Qed.

Lemma seq_frame s s' K t p' w i i' :
  seq_ok M T s K -> d_pc s' = upd (d_pc s) t p' -> d_start_seqid s' = d_start_seqid s -> d_cpuSeq s' = d_cpuSeq s -> d_start_seqid s t <> 0 ->
  d_items s !! w = Some i -> d_items s' = <[w := i']> (d_items s) -> iv_activeSeqId i' = iv_activeSeqId i -> iv_count i' = iv_count i -> seq_ok M T s' K.
Proof.
  intros [S1 S2 S3 S4 S5 S6 S7 S8] E1 E2 E3 Hst Ew E4 E5 E6. split; rewrite ?E2, ?E3; try done.
  - intros x Hx. rewrite E1. destruct (decide (x = t)) as [->|Hne]; [done|rewrite upd_ne by done; by apply S5].
  - intros x y. rewrite E4. destruct (decide (x = w)) as [->|Hne].
    + rewrite lookup_insert. case_decide; [|done]. intros [= <-]. rewrite E5, E6. by apply (S8 w i).
    + rewrite lookup_insert_ne by done. apply S8.
Qed.

Lemma step_frame s s' q q' t p' w i i' :
  dinv M T s q -> t ∈ T -> d_start_seqid s t <> 0 ->
  d_pc s' = upd (d_pc s) t p' -> d_start_seqid s' = d_start_seqid s -> d_cpuSeq s' = d_cpuSeq s ->
  d_items s !! w = Some i -> d_items s' = <[w := i']> (d_items s) ->
  (pc_item (d_pc s t) = None \/ pc_item (d_pc s t) = Some w) -> (pc_item p' = None \/ pc_item p' = Some w) ->
  iv_activeSeqId i' = iv_activeSeqId i -> iv_count i' = iv_count i ->
  (iv_releasePre i = true -> iv_releasePre i' = true) -> (iv_releasePost i = true -> iv_releasePost i' = true) ->
  (t = M \/ iv_releasePre i' = iv_releasePre i /\ iv_releasePost i' = iv_releasePost i) ->
  (forall x, x <> w -> (x ∈ q' <-> x ∈ q)) -> (forall x, x <> w -> x ∈ q -> hd 0 q' <> x -> hd 0 q <> x) ->
  (forall x, x <> t -> popped (d_pc s x) = true -> pc_item (d_pc s x) = Some w -> w ∉ q') ->
  d_lock s' = match d_pc s' M with D_clear _ _ | D_wait _ _ => true | _ => false end ->
  queue_ok T s' q' -> item_ok M T s' q' w i' -> pc_ok M s' q' t -> dinv M T s' q'.
Proof.
  intros [[K Hs] Hqu Hpc Hit Hl] Ht Hst E1 E2 E3 Ew E4 P1 P2 F1 F2 F3 F4 F5 Q1 Q2 Q3 L Hqu' Hi' Hpc'. split; [|done| | |done].
  - exists K. by eapply seq_frame.
  - intros x. destruct (decide (x = t)) as [->|Hne]; [done|]. destruct (decide (pc_item (d_pc s x) = Some w)) as [Hx|Hx].
    + specialize (Hpc x). unfold pc_ok in *. rewrite E1, upd_ne, E2, Hx in * by done. destruct Hpc as (j & Hj & Hk & _). replace j with i in * by congruence.
      exists i'. rewrite E4, lookup_insert. split_and!; [by case_decide|by eapply knows_frame; [exact Hk|done|done|done|]; destruct F5; [congruence|]|].
      intros Hp. by apply (Q3 x).
    + apply (pc_ok_frame s s' q q' x (Hpc x)); [by rewrite E1, upd_ne|by rewrite E2|]. intros y Hy. assert (y <> w) by congruence.
      rewrite E4, lookup_insert_ne by done. split; [done|]. by apply Q1.
  - intros x j. rewrite E4. destruct (decide (x = w)) as [->|Hne].
    + rewrite lookup_insert. case_decide; [|done]. by intros [= <-].
    + rewrite lookup_insert_ne by done. intros Hj. eapply (item_frame s s' q q' t p' x j); [by apply Hit|done|done| | |by apply Q1|by apply Q2].
      * destruct P1 as [-> | ->]; congruence.
      * destruct P2 as [-> | ->]; congruence.
Qed.

Lemma chain_insert m q w i i' : chain m q -> m !! w = Some i -> (w ∈ q -> next_ptr (iv_cpus_and_next i') = next_ptr (iv_cpus_and_next i)) -> chain (<[w := i']> m) q.
Proof.
  induction q as [|x q IH]; intros Hc Hw Hn; [done|]. cbn in *. destruct Hc as [(j & Hj & Ej) Hc]. split.
  - destruct (decide (x = w)) as [->|Hne]; [exists i'; rewrite lookup_insert; case_decide; [|done]|exists j; by rewrite lookup_insert_ne].
    split; [done|]. rewrite Hn by (by left). by replace i with j by congruence.
  - apply IH; [done|done|]. intros H. apply Hn. by right.
Qed.

(** The queue as it was, with the same processors at its head. *)
Lemma queue_frame s s' q t p' w i i' :
  queue_ok T s q -> t ∈ T -> d_pc s' = upd (d_pc s) t p' -> d_head s' = d_head s ->
  d_items s !! w = Some i -> d_items s' = <[w := i']> (d_items s) ->
  (pc_item (d_pc s t) = None \/ pc_item (d_pc s t) = Some w) -> (pc_item p' = None \/ pc_item p' = Some w) ->
  (w ∈ q -> next_ptr (iv_cpus_and_next i') = next_ptr (iv_cpus_and_next i) /\ c KH s' w + nin s' w = c KH s w + nin s w) -> queue_ok T s' q.
Proof.
  intros [Q1 Q2 Q3 Q4 Q5] Ht E1 E2 Ew E4 P1 P2 Hq. split; rewrite ?E2; [done|done|done| |].
  - rewrite Q4. destruct q as [|x q]; [done|]. destruct (decide (x = w)) as [->|Hne]; [symmetry; apply Hq; by left|].
    rewrite E1, cnt_frame, (nin_frame s s' t p' x); [done|done|done|..]; try done; [destruct P1 as [-> | ->]|destruct P2 as [-> | ->]|destruct P1 as [-> | ->]|destruct P2 as [-> | ->]]; congruence.
  - rewrite E4. eapply chain_insert; [done|exact Ew|]. intros H. by apply Hq.
Qed.
End frame.

(** ** What the counts say *)

Section counting.
Variables (M : Z) (T : list Z).
Hypothesis HT : NoDup T.
Implicit Types (s : dsys) (q : list Z) (i : DeferredWork).
Notation c k s w := (cnt T k (d_pc s) w).
Notation nin := (nin T).

Lemma tally_one {A} (f : A -> bool) l x : x ∈ l -> f x = true -> 1 <= tally f l.
Proof.
  induction l as [|y l IH]; intros Hx Hf; [by apply elem_of_nil in Hx|]. cbn. pose proof (tally_bounds f l). apply elem_of_cons in Hx as [->|Hx]; [rewrite Hf; lia|].
  specialize (IH Hx Hf). destruct (f y); lia.
Qed.

Lemma tally_two {A} (f : A -> bool) l x y : NoDup l -> x ∈ l -> y ∈ l -> x <> y -> f x = true -> f y = true -> 2 <= tally f l.
Proof.
  induction l as [|z l IH]; intros Hn Hx Hy Hne Hfx Hfy; [by apply elem_of_nil in Hx|]. apply NoDup_cons in Hn as [Hz Hn]. cbn.
  apply elem_of_cons in Hx as [->|Hx]; apply elem_of_cons in Hy as [->|Hy]; [done|rewrite Hfx; pose proof (tally_one f l y Hy Hfy); lia|
    rewrite Hfy; pose proof (tally_one f l x Hx Hfx); lia|]. specialize (IH Hn Hx Hy Hne Hfx Hfy). destruct (f z); lia.
Qed.

Lemma cnt_one k s w t : t ∈ T -> at_place k w (d_pc s t) = true -> 1 <= c k s w.
Proof. intros Ht H. by apply (tally_one _ T t). Qed.

Lemma cnt_two k s w t t' : t ∈ T -> t' ∈ T -> t <> t' -> at_place k w (d_pc s t) = true -> at_place k w (d_pc s t') = true -> 2 <= c k s w.
Proof. intros. by apply (tally_two _ T t t'). Qed.

Lemma nin_one s w t : t ∈ T -> inside w (d_pc s t) = true -> 1 <= nin s w.
Proof. intros Ht H. by apply (tally_one _ T t). Qed.

Lemma knows_active t st i w p : knows M t st i p -> active_in w p = true -> counted_in st i.
Proof.
  unfold active_in. intros K [_ H]%andb_true_iff. unfold knows in K. destruct p; cbn in H; try done; try (by apply K).
  all: destruct a; try done; by apply K.
Qed.

(** Those at the barriers of an item are among those active at its creation. *)
Lemma active_le s q w i : dinv M T s q -> d_items s !! w = Some i ->
  c K0 s w + c K1 s w + c K2 s w + c K3 s w + c K4 s w <= iv_activeSeqId i /\
  forall t, t ∈ T -> counted_in (d_start_seqid s t) i -> active_in w (d_pc s t) = false ->
    c K0 s w + c K1 s w + c K2 s w + c K3 s w + c K4 s w < iv_activeSeqId i.
Proof.
  intros [[K Hs] _ Hpc _ _] Hi. destruct (seq_items M T s K Hs w i Hi) as (_ & Hk & _).
  pose proof (seq_tally M T s K Hs (iv_activeSeqId i) ltac:(lia)) as Ht. rewrite <-active_sum by done. rewrite <-Ht.
  assert (P : forall x, x ∈ T -> active_in w (d_pc s x) = true -> (1 <=? d_start_seqid s x) && (d_start_seqid s x <=? iv_activeSeqId i) = true).
  { intros x _ Hx. pose proof Hx as [Hp _]%andb_true_iff. apply points_to_spec in Hp. specialize (Hpc x). unfold pc_ok in Hpc. rewrite Hp in Hpc.
    destruct Hpc as (j & Hj & Hk' & _). replace j with i in Hk' by congruence. apply (knows_active x _ i w) in Hk'; [|done].
    unfold counted_in in Hk'. apply andb_true_iff. rewrite !Z.leb_le. lia. }
  split; [by apply tally_le|]. intros t Hin Hc Ha. apply (tally_lt _ _ T t); [done|done|done|]. unfold counted_in in Hc. apply andb_true_iff. rewrite !Z.leb_le. lia.
Qed.

(** Counts of an item all of whose processors are elsewhere. *)
Lemma unheld s q w : dinv M T s q -> d_items s !! w = None -> forall t, pc_item (d_pc s t) <> Some w.
Proof. intros [_ _ Hpc _ _] Hi t Ht. specialize (Hpc t). unfold pc_ok in Hpc. rewrite Ht in Hpc. destruct Hpc as (j & Hj & _). congruence. Qed.

(** The counts of [w] after a step of [t] from one of its places to another. *)
Lemma counts_step s s' t p' w : t ∈ T -> d_pc s' = upd (d_pc s) t p' ->
  (forall k, c k s' w = c k s w - Z.b2z (at_place k w (d_pc s t)) + Z.b2z (at_place k w p')) /\
  nin s' w = nin s w - Z.b2z (inside w (d_pc s t)) + Z.b2z (inside w p').
Proof. intros Ht E. split; [intros k; rewrite E; by apply cnt_upd|by apply nin_upd]. Qed.
End counting.

(** All counts after a step, as equations that [lia] reads. *)
Ltac count_all C Hp :=
  let C1 := fresh in let C2 := fresh in rewrite Hp in C; destruct C as [C1 C2];
  pose proof (C1 KC); pose proof (C1 KH); pose proof (C1 K0); pose proof (C1 K1); pose proof (C1 K2); pose proof (C1 K3);
  pose proof (C1 K4); pose proof (C1 KD); clear C1;
  unfold at_place, inside, points_to in *; cbn [pc_item kind_of kind_eqb andb Z.b2z] in *; rewrite ?Z.eqb_refl in *; cbn [andb Z.b2z] in *.
