(* ===== verification/DeferredSafe.v ===== *)
(** * Deferred work: every step keeps the invariant and none fails *)

From stdpp Require Import gmap.
From S2P Require Import Prelude Deferred DeferredInv.

Section steps.
Variables (M : Z) (T : list Z).
Hypothesis HT : NoDup T.
Hypothesis HM : M ∈ T.
Hypothesis HN : Z.of_nat (length T) < 2 ^ 31.
Implicit Types (s : dsys) (q : list Z) (i : DeferredWork).
Notation c k s w := (cnt T k (d_pc s) w).
Notation nin := (nin T).
Notation dinv := (dinv M T).

(** A processor at an item: the item is allocated and all that is known of it. *)
Record visit s q (t w : Z) i : Prop := {
  visit_in : t ∈ T;
  visit_start : 1 <= d_start_seqid s t;
  visit_item : d_items s !! w = Some i;
  visit_knows : knows M t (d_start_seqid s t) i (d_pc s t);
  visit_popped : popped (d_pc s t) = true -> w ∉ q;
  visit_ok : item_ok M T s q w i;
  visit_seq : iv_count i = iv_activeSeqId i /\ 1 <= iv_activeSeqId i < 2 ^ 32 /\ 0 < w < 2 ^ 32;
  visit_master : counted_in (d_start_seqid s M) i;
  visit_total : c KH s w + nin s w < 2 ^ 31
}.

Lemma seq_small s K : seq_ok M T s K -> K < 2 ^ 31.
Proof.
  intros Hs. pose proof (seq_tally M T s K Hs K ltac:(pose proof (seq_pos M T s K Hs); lia)) as H.
  pose proof (tally_bounds (fun t => (1 <=? d_start_seqid s t) && (d_start_seqid s t <=? K)) T). lia.
Qed.

Lemma at_item s q t w : dinv s q -> pc_item (d_pc s t) = Some w -> exists i, visit s q t w i.
Proof.
  intros [[K Hs] Hq Hpc Hit Hl] Hp. pose proof (Hpc t) as P. unfold pc_ok in P. rewrite Hp in P. destruct P as (i & Hi & Hk & Hpo). exists i.
  assert (Hst : d_start_seqid s t <> 0). { intros H. rewrite (seq_out M T s K Hs t H) in Hp. done. }
  pose proof (seq_start M T s K Hs t). pose proof (seq_small s K Hs). destruct (seq_items M T s K Hs w i Hi) as (H1 & H2 & H3).
  split; try done; try lia.
  - by apply (seq_in M T s K Hs).
  - by apply Hit.
  - unfold counted_in. rewrite (seq_master M T s K Hs). lia.
  - pose proof (cnt_total T (d_pc s) w). unfold DeferredInv.nin. lia.
Qed.

(** A step that changes an item and leaves the queue as it was. *)
Lemma step_same s s' q t p' w i i' :
  dinv s q -> visit s q t w i -> pc_item (d_pc s t) = Some w -> pc_item p' = None \/ pc_item p' = Some w -> p' <> D_cas 0 ->
  d_pc s' = upd (d_pc s) t p' -> d_start_seqid s' = d_start_seqid s -> d_cpuSeq s' = d_cpuSeq s -> d_head s' = d_head s ->
  d_items s' = <[w := i']> (d_items s) -> iv_activeSeqId i' = iv_activeSeqId i -> iv_count i' = iv_count i ->
  (iv_releasePre i = true -> iv_releasePre i' = true) -> (iv_releasePost i = true -> iv_releasePost i' = true) ->
  (t = M \/ iv_releasePre i' = iv_releasePre i /\ iv_releasePost i' = iv_releasePost i) ->
  d_lock s' = match d_pc s' M with D_clear _ _ | D_wait _ _ => true | _ => false end ->
  (w ∈ q -> next_ptr (iv_cpus_and_next i') = next_ptr (iv_cpus_and_next i) /\ c KH s' w + nin s' w = c KH s w + nin s w) ->
  knows M t (d_start_seqid s t) i' p' -> (popped p' = true -> w ∉ q) -> item_ok M T s' q w i' -> dinv s' q.
Proof.
  intros D V P1 P2 P3 E1 E2 E3 E4 E5 F1 F2 F3 F4 F5 L Q K Po I. destruct V as [V1 V2 V3 V4 V5 V6 V7 V8 V9].
  eapply (step_frame M T HT s s' q q t p' w i i'); try done; try lia; try (by right); try (by left).
  - intros x Hx Hp Hi. specialize (inv_pc M T s q D x) as P. unfold pc_ok in P. rewrite Hi in P. destruct P as (j & _ & _ & P). by apply P.
  - eapply (queue_frame T HT s s' q t p' w i i'); try done; [by apply (inv_queue M T s q D)|by right].
  - unfold pc_ok. rewrite E1, E2, upd_eq. destruct P2 as [-> | ->]; [exact P3|]. exists i'. rewrite E5, lookup_insert. split_and!; [by case_decide|done|done].
Qed.

(** The lock and the place of the master when another place is taken. *)
Lemma lock_frame s s' q t p' : dinv s q -> d_pc s' = upd (d_pc s) t p' -> d_lock s' = d_lock s ->
  (match d_pc s t with D_clear _ _ | D_wait _ _ => False | _ => True end) -> (match p' with D_clear _ _ | D_wait _ _ => False | _ => True end) ->
  d_lock s' = match d_pc s' M with D_clear _ _ | D_wait _ _ => true | _ => false end.
Proof.
  intros D E1 E2 H1 H2. rewrite E1, E2, (inv_lock M T s q D). destruct (decide (M = t)) as [->|Hne].
  - rewrite upd_eq. by destruct (d_pc s t), p'.
  - by rewrite upd_ne by done.
Qed.

(** The master is at the item exactly in its own steps. *)
Lemma popping_other s s' t p' w i i' : d_pc s' = upd (d_pc s) t p' -> t <> M -> c KH s' w + nin s' w = c KH s w + nin s w ->
  (c KH s w = 0 -> c KH s' w = 0) -> next_ptr (iv_cpus_and_next i') = next_ptr (iv_cpus_and_next i) ->
  popping M T s w i -> popping M T s' w i'.
Proof.
  intros E Ht H1 H2 H3. unfold popping. assert (EM : d_pc s' M = d_pc s M) by (rewrite E, upd_ne by done; done). rewrite EM, H3.
  destruct (d_pc s M); try done; rewrite ?H1; try done. intros (? & ? & ?). by split_and!; [|apply H2|].
Qed.

Lemma popping_ne s t w i : popping M T s w i -> popped (d_pc s t) = false -> t <> M.
Proof. unfold popping. intros H Hp ->. by destruct (d_pc s M). Qed.

Ltac open_item V Hp :=
  destruct V as [V1 V2 V3 V4 V5 [Wd Wc Wb Wp] (Vc & Vs & Vw) VM Vt]; rewrite Hp in V4, V5; cbn [knows popped] in V4, V5;
  unfold run; rewrite Hp; unfold item; rewrite ?V3; cbn [obind].

Ltac nonneg w s :=
  pose proof (cnt_pos T KC (d_pc s) w); pose proof (cnt_pos T KH (d_pc s) w); pose proof (cnt_pos T K0 (d_pc s) w); pose proof (cnt_pos T K1 (d_pc s) w);
  pose proof (cnt_pos T K2 (d_pc s) w); pose proof (cnt_pos T K3 (d_pc s) w); pose proof (cnt_pos T K4 (d_pc s) w); pose proof (cnt_pos T KD (d_pc s) w);
  pose proof (tally_bounds (fun t => inside w (d_pc s t)) T : 0 <= nin s w <= _).

Ltac name_state s' := match goal with |- DeferredInv.dinv _ _ ?x _ => set (s' := x) end.

(** Places with a pointer other than those of the removal. *)
Definition staying (p : dpc) : bool :=
  negb (popped p) && match kind_of p with Some (KH | K0 | K1 | K2 | K3 | K4 | KL | KN) => true | _ => false end.

Lemma staying_places w p : pc_item p = Some w -> staying p = true ->
  at_place KC w p = false /\ at_place KD w p = false /\ Z.b2z (at_place KH w p) + Z.b2z (inside w p) = 1.
Proof.
  intros Hi Hb. assert (P : points_to w p = true) by (by apply points_to_spec). unfold at_place, inside. rewrite P. cbn [andb].
  apply andb_true_iff in Hb as [_ Hb]. by destruct (kind_of p) as [[]|].
Qed.

(** A step from one such place to a counted one: what is left to show is the
    word, the barrier and what the processor knows. *)
Lemma step_inside s s' q t p' w i i' :
  dinv s q -> visit s q t w i -> pc_item (d_pc s t) = Some w -> pc_item p' = Some w -> staying (d_pc s t) = true -> staying p' = true ->
  inside w p' = true ->
  d_pc s' = upd (d_pc s) t p' -> d_start_seqid s' = d_start_seqid s -> d_cpuSeq s' = d_cpuSeq s -> d_head s' = d_head s -> d_lock s' = d_lock s ->
  d_items s' = <[w := i']> (d_items s) -> iv_activeSeqId i' = iv_activeSeqId i -> iv_count i' = iv_count i ->
  (iv_releasePre i = true -> iv_releasePre i' = true) -> (t = M \/ iv_releasePre i' = iv_releasePre i) -> iv_releasePost i' = iv_releasePost i ->
  is_word 64 (iv_cpus_and_next i') -> cpu_count (iv_cpus_and_next i') = cpu_count (iv_cpus_and_next i) + 1 - Z.b2z (inside w (d_pc s t)) ->
  next_ptr (iv_cpus_and_next i') = next_ptr (iv_cpus_and_next i) ->
  barrier_ok T s' w i' -> knows M t (d_start_seqid s t) i' p' -> dinv s' q.
Proof.
  intros D V P1 P2 B1 B2 I E1 E2 E3 E4 E5 E6 F1 F2 F3 F4 F5 W1 W2 W3 Ba K. pose proof V as V'. destruct V' as [V1 V2 V3 V4 V5 [Wd Wc Wb Wp] (Vc & Vs & Vw) VM Vt].
  destruct (staying_places w _ P1 B1) as (A1 & A2 & A3), (staying_places w _ P2 B2) as (A4 & A5 & A6). destruct (counts_step T HT s s' t p' w V1 E1) as [C N].
  pose proof (C KC) as CC. pose proof (C KD) as CD. pose proof (C KH) as CH. rewrite A1, A4 in CC. rewrite A2, A5 in CD. rewrite I in N, A6.
  assert (Po : popped (d_pc s t) = false) by (apply andb_true_iff in B1 as [B1 _]; by apply negb_true_iff).
  assert (Po' : popped p' = false) by (apply andb_true_iff in B2 as [B2 _]; by apply negb_true_iff). nonneg w s. nonneg w s'.
  assert (G : 1 <= c KH s w + nin s w).
  { destruct (inside w (d_pc s t)) eqn:Ei; cbn in A3; [pose proof (nin_one T s w t V1 Ei); lia|].
    assert (Eh : at_place KH w (d_pc s t) = true) by (destruct (at_place KH w (d_pc s t)); [done|cbn in A3; lia]). pose proof (cnt_one T KH s w t V1 Eh). lia. }
  assert (S : c KH s' w + nin s' w = c KH s w + nin s w) by (cbn in *; lia).
  assert (S' : c KH s w = 0 -> c KH s' w = 0) by (destruct (at_place KH w (d_pc s t)), (at_place KH w p'); cbn in *; lia).
  eapply (step_same s s' q t p' w i i'); try done; try (by right); try congruence; try (by intros ->).
  - destruct F4; [by left|right; done].
  - eapply lock_frame; [done|done|done|by destruct (d_pc s t)|by destruct p'].
  - split; [done|rewrite W2, Wc, N; cbn; lia|done|]. unfold place_ok in *. rewrite F5, W3. cbn in CC, CD.
    destruct Wp as [Wp|[Wp|[Wp|Wp]]]; [left|exfalso; lia|right; right; left|right; right; right].
    + destruct Wp as (Wq & Wp1 & Wp2 & Wp3 & Wp4). split_and!; [done|lia|lia|done|]. intros Hx. destruct (Wp4 Hx). lia.
    + destruct Wp as (Wq & Wp1 & Wp2 & Wp3 & Wp4). split_and!; [done|lia|lia|done|]. eapply popping_other; try done. by apply (popping_ne s t w i).
    + destruct Wp as (Wq & Wp1 & Wp2 & Wp3 & Wp4 & Wp5). split_and!; [done|lia|lia|done|done|]. specialize (S' Wp2). left. lia.
Qed.

Ltac enter D Hp i V :=
  match type of Hp with d_pc ?s ?t = ?p =>
    match type of D with DeferredInv.dinv _ _ _ ?q =>
      let w := eval cbn in (match pc_item p with Some w => w | None => 0 end) in
      destruct (at_item s q t w D ltac:(by rewrite Hp)) as [i V]; pose proof (active_le M T s q w i D (visit_item _ _ _ _ _ V)) as Act;
      let V' := fresh in pose proof V as V'; open_item V' Hp; nonneg w s
    end
  end.

(** The equations for the counts after a step to [p']. *)
Ltac counted s s' t p' w Hp := pose proof (counts_step T HT s s' t p' w ltac:(done) eq_refl) as C; count_all C Hp.

Lemma post_unset s q t w i : visit s q t w i -> (1 <= c KH s w -> iv_releasePost i = false).
Proof. intros V H. pose proof (item_place _ _ _ _ _ _ (visit_ok _ _ _ _ _ V)) as Wp. unfold place_ok in Wp. intuition lia. Qed.

Lemma inside_at w p : pc_item p = Some w -> match kind_of p with Some (K0 | K1 | K2 | K3 | K4 | KL | KN) => True | _ => False end -> inside w p = true.
Proof. intros H1%points_to_spec H2. unfold inside. rewrite H1. by destruct (kind_of p) as [[]|]. Qed.

Ltac same_count Hp := unfold inside, points_to; rewrite Hp; cbn; rewrite Z.eqb_refl; cbn; lia.

Ltac inside_step D V Hp p' i' :=
  match type of V with visit ?s ?q ?t ?w ?i =>
    eapply (step_inside s _ q t p' w i i' D V); try reflexivity; try done; try (by rewrite Hp); try (by right); try (by left);
      try (by apply inside_at); try (by rewrite insert_id); try (same_count Hp)
  end.

Ltac open_barrier s' := clearbody s'; unfold barrier_ok in *;
  cbn [iv_event iv_missing iv_count iv_releasePre iv_releasePost set_word set_barrier release_pre release_post].

(** [start]: the item's count goes up. *)
Lemma run_start s q t w : dinv s q -> d_pc s t = D_start w -> exists s', run M t s = Done s' /\ dinv s' q.
Proof.
  intros D Hp. enter D Hp i V. destruct (count_up (iv_cpus_and_next i) Wd ltac:(lia)) as (U1 & U2 & U3). eexists. split; [done|].
  pose proof (cnt_one T KH s w t V1 ltac:(unfold at_place, points_to; rewrite Hp; cbn; by rewrite Z.eqb_refl)) as Hone. pose proof (post_unset s q t w i V Hone) as Po.
  cbn [d_start_seqid put_item set_items]. destruct (d_start_seqid s t <=? iv_activeSeqId i) eqn:Ea; b2p; name_state s'.
  - assert (Hc : counted_in (d_start_seqid s t) i) by (unfold counted_in; lia). destruct Act as [_ Act].
    specialize (Act t V1 Hc ltac:(unfold active_in; rewrite Hp; apply andb_false_r)). counted s s' t (D_bar1 w) w Hp.
    inside_step D V Hp (D_bar1 w) (set_word i (u64 (iv_cpus_and_next i + Z.shiftl 1 32))).
    + open_barrier s'. destruct Wb as [Wb|[Wb|Wb]]; [left; destruct_and? Wb; split_and!; done || lia|exfalso; lia|exfalso].
      destruct Wb as (_ & _ & _ & _ & _ & _ & Wb). specialize (Wb Po). lia.
  - assert (Hc : ~ counted_in (d_start_seqid s t) i) by (unfold counted_in; lia). counted s s' t (D_pre w false) w Hp.
    inside_step D V Hp (D_pre w false) (set_word i (u64 (iv_cpus_and_next i + Z.shiftl 1 32))).
    + open_barrier s'. intuition lia.
    + cbn. split; [split; [done|intros Hx; by destruct (Hc Hx)]|]. by split; [|intros ->].
Qed.

Ltac place_here k s t w Hp V1 := pose proof (cnt_one T k s w t V1 ltac:(unfold at_place, points_to; rewrite Hp; cbn; by rewrite Z.eqb_refl)).

(** [Barrier::wait] before the pre-work. *)
Lemma run_bar1 s q t w : dinv s q -> d_pc s t = D_bar1 w -> exists s', run M t s = Done s' /\ dinv s' q.
Proof.
  intros D Hp. enter D Hp i V. place_here K0 s t w Hp V1. destruct V4 as [Kc Kp]. destruct Act as [Act _].
  assert (E0 : iv_event i = 0 /\ iv_releasePre i = false /\ 1 <= iv_missing i <= iv_count i /\ iv_missing i + c K1 s w = iv_count i /\
    c K2 s w = 0 /\ c K3 s w = 0 /\ c K4 s w = 0 /\ iv_releasePost i = false).
  { unfold barrier_ok in Wb. destruct Wb as [Wb|[Wb|Wb]]; [|exfalso; lia|exfalso; lia]. destruct_and? Wb. split_and!; done || lia. }
  destruct E0 as (E0 & Epre & Em & Em' & Z2 & Z3 & Z4 & Epost). unfold barrier_arrive.
  rewrite (wrap_small 64 (iv_missing i - 1)) by (split; lia). rewrite (wrap_small 64 (iv_event i + 1)) by (rewrite E0; split; lia).
  destruct (0 <? iv_missing i - 1) eqn:Ez; b2p; eexists; (split; [done|]); name_state s'.
  - counted s s' t (D_spin1 w (iv_event i)) w Hp. inside_step D V Hp (D_spin1 w (iv_event i)) (set_barrier i (iv_event i) (iv_missing i - 1)).
    + open_barrier s'. left. split_and!; done || lia.
  - counted s s' t (D_pre w true) w Hp.
    inside_step D V Hp (D_pre w true) (set_barrier i (iv_event i + 1) (iv_count i)).
    + open_barrier s'. right. left. split_and!; done || lia.
Qed.

Lemma run_spin1 s q t w e : dinv s q -> d_pc s t = D_spin1 w e -> exists s', run M t s = Done s' /\ dinv s' q.
Proof.
  intros D Hp. enter D Hp i V. place_here K1 s t w Hp V1. destruct V4 as (Kc & Kp & Kq & ->). eexists. split; [done|].
  destruct (iv_event i =? 0) eqn:Ee; b2p; [done|]. name_state s'. counted s s' t (D_pre w true) w Hp.
  inside_step D V Hp (D_pre w true) i.
  open_barrier s'. destruct Wb as [Wb|[Wb|Wb]]; [exfalso; lia|right; left|exfalso; lia]. destruct_and? Wb. split_and!; done || lia.
Qed.

Lemma run_pre s q t w a : dinv s q -> d_pc s t = D_pre w a -> exists s', run M t s = Done s' /\ dinv s' q.
Proof.
  intros D Hp. enter D Hp i V. destruct V4 as (Kc & Kp & Kq). destruct (t =? M) eqn:Et; b2p.
  - eexists. split; [done|]. name_state s'. counted s s' t (D_prework w a) w Hp. destruct a; [inside_step D V Hp (D_prework w true) i|inside_step D V Hp (D_prework w false) i].
    all: try (open_barrier s'; intuition lia). all: cbn; split_and!; auto; apply Kc.
  - eexists. split; [done|]. destruct (iv_releasePre i) eqn:Epre; [|done]. name_state s'. counted s s' t (D_main w a) w Hp.
    destruct a; [inside_step D V Hp (D_main w true) i|inside_step D V Hp (D_main w false) i].
    all: try (open_barrier s'; intuition lia). all: cbn; split_and!; auto; apply Kc.
Qed.

(** The master was active when any item was created. *)
Lemma master_active s q t w i a : visit s q t w i -> t = M -> (a = true <-> counted_in (d_start_seqid s t) i) -> a = true.
Proof. intros V -> H. apply H. apply V. Qed.

Lemma run_prework s q t w a : dinv s q -> d_pc s t = D_prework w a -> exists s', run M t s = Done s' /\ dinv s' q.
Proof.
  intros D Hp. enter D Hp i V. destruct V4 as (Kc & Km & Kp & Kq). assert (a = true) as -> by (by eapply master_active).
  place_here K2 s t w Hp V1. eexists. split; [done|]. name_state s'. counted s s' t (D_main w true) w Hp.
  inside_step D V Hp (D_main w true) (release_pre i). open_barrier s'. destruct Wb as [Wb|[Wb|Wb]]; [exfalso; lia|right; left|exfalso; lia].
  destruct_and? Wb. split_and!; done || lia.
Qed.

Lemma run_main s q t w a : dinv s q -> d_pc s t = D_main w a -> exists s', run M t s = Done s' /\ dinv s' q.
Proof.
  intros D Hp. enter D Hp i V. destruct V4 as (Kc & Kp & Kq). eexists. split; [done|]. destruct a; name_state s'.
  - counted s s' t (D_bar2 w) w Hp. inside_step D V Hp (D_bar2 w) i.
    all: try (open_barrier s'; intuition lia). all: cbn; split_and!; auto; by apply Kc.
  - counted s s' t (D_post w false) w Hp. inside_step D V Hp (D_post w false) i.
    all: try (open_barrier s'; intuition lia). all: cbn; split_and!; auto; by apply Kc.
Qed.

(** [Barrier::wait] after the main work. *)
Lemma run_bar2 s q t w : dinv s q -> d_pc s t = D_bar2 w -> exists s', run M t s = Done s' /\ dinv s' q.
Proof.
  intros D Hp. enter D Hp i V. place_here K2 s t w Hp V1. destruct V4 as (Kc & Kp & Kq). destruct Act as [Act _].
  assert (E1 : iv_event i = 1 /\ 1 <= iv_missing i <= iv_count i /\ iv_missing i + c K3 s w = iv_count i /\
    c K1 s w + c K2 s w + c K3 s w = iv_count i /\ c K4 s w = 0 /\ iv_releasePost i = false).
  { unfold barrier_ok in Wb. destruct Wb as [Wb|[Wb|Wb]]; [exfalso; lia| |exfalso; lia]. destruct_and? Wb. split_and!; done || lia. }
  destruct E1 as (E1 & Em & Em' & Es & Z4 & Epost). unfold barrier_arrive.
  rewrite (wrap_small 64 (iv_missing i - 1)) by (split; lia). rewrite (wrap_small 64 (iv_event i + 1)) by (rewrite E1; split; lia).
  destruct (0 <? iv_missing i - 1) eqn:Ez; b2p; eexists; (split; [done|]); name_state s'.
  - counted s s' t (D_spin2 w (iv_event i)) w Hp. inside_step D V Hp (D_spin2 w (iv_event i)) (set_barrier i (iv_event i) (iv_missing i - 1)).
    open_barrier s'. right. left. split_and!; done || lia.
  - counted s s' t (D_post w true) w Hp. inside_step D V Hp (D_post w true) (set_barrier i (iv_event i + 1) (iv_count i)).
    open_barrier s'. right. right. split_and!; try done; lia.
Qed.

Lemma run_spin2 s q t w e : dinv s q -> d_pc s t = D_spin2 w e -> exists s', run M t s = Done s' /\ dinv s' q.
Proof.
  intros D Hp. enter D Hp i V. place_here K3 s t w Hp V1. destruct V4 as (Kc & Kp & Kq & ->). eexists. split; [done|].
  destruct (iv_event i =? 1) eqn:Ee; b2p; [done|]. name_state s'. counted s s' t (D_post w true) w Hp.
  inside_step D V Hp (D_post w true) i.
  open_barrier s'. destruct Wb as [Wb|[Wb|Wb]]; [exfalso; lia|exfalso; lia|right; right]. destruct Wb as (B1 & B2 & B3 & B4 & B5 & B6 & B7).
  split_and!; try done; try lia. intros Hx. specialize (B7 Hx). lia.
Qed.

Lemma run_post s q t w a : dinv s q -> d_pc s t = D_post w a -> exists s', run M t s = Done s' /\ dinv s' q.
Proof.
  intros D Hp. enter D Hp i V. destruct V4 as (Kc & Kp & Kq). destruct (t =? M) eqn:Et; b2p.
  - assert (a = true) as -> by (by eapply master_active). eexists. split; [done|]. name_state s'. counted s s' t (D_postwork w) w Hp.
    inside_step D V Hp (D_postwork w) i.
    all: try (open_barrier s'; intuition lia). all: cbn; split_and!; auto; by apply Kc.
  - eexists. split; [done|]. destruct (iv_releasePost i) eqn:Epost; [|done]. name_state s'.
    assert (B : iv_event i = 2 /\ iv_releasePre i = true /\ c K0 s w = 0 /\ c K1 s w = 0 /\ c K2 s w = 0 /\ iv_missing i = iv_count i).
    { unfold barrier_ok in Wb. destruct Wb as [Wb|[Wb|Wb]]; destruct_and? Wb; [congruence|congruence|]. done. }
    destruct B as (B1 & B2 & B3 & B4 & B5 & B6).
    destruct a; counted s s' t (D_clean w) w Hp; inside_step D V Hp (D_clean w) i; clear Wb; open_barrier s'; right; right;
      (split_and!; try done; try lia; congruence).
Qed.

Lemma run_postwork s q t w : dinv s q -> d_pc s t = D_postwork w -> exists s', run M t s = Done s' /\ dinv s' q.
Proof.
  intros D Hp. enter D Hp i V. eexists. split; [done|]. name_state s'. counted s s' t (D_pop w) w Hp.
  inside_step D V Hp (D_pop w) i. open_barrier s'. intuition lia.
Qed.

(** ** Leaving, and the steps outside an item *)

Lemma step_none s s' q t p' :
  dinv s q -> t ∈ T -> d_start_seqid s t <> 0 -> pc_item (d_pc s t) = None -> pc_item p' = None -> p' <> D_cas 0 ->
  d_pc s' = upd (d_pc s) t p' -> d_start_seqid s' = d_start_seqid s -> d_cpuSeq s' = d_cpuSeq s -> d_head s' = d_head s ->
  d_items s' = d_items s -> d_lock s' = d_lock s -> dinv s' q.
Proof.
  intros D Ht Hst P1 P2 P3 E1 E2 E3 E4 E5 E6. pose proof D as [[K Hs] [Q1 Q2 Q3 Q4 Q5] Hpc Hit Hl]. split.
  - exists K. destruct Hs. split; rewrite ?E2, ?E3, ?E5; try done. intros x Hx. rewrite E1. destruct (decide (x = t)) as [->|Hne]; [done|].
    rewrite upd_ne by done. auto.
  - split; rewrite ?E4, ?E5; try done. rewrite Q4. destruct q as [|w q]; [done|]. rewrite E1, cnt_frame by (rewrite ?P1, ?P2; done).
    by rewrite (nin_frame T HT s s' t p' w) by (rewrite ?P1, ?P2; done).
  - intros x. destruct (decide (x = t)) as [->|Hne].
    + unfold pc_ok. by rewrite E1, upd_eq, P2.
    + apply (pc_ok_frame M s s' q q x (Hpc x)); [by rewrite E1, upd_ne|by rewrite E2|]. intros y Hy. by rewrite E5.
  - intros x j. rewrite E5. intros Hj. apply (item_frame M T HT s s' q q t p' x j); [by apply Hit|done|done|by rewrite P1|by rewrite P2|done|done].
  - eapply lock_frame; [done|done|done|by destruct (d_pc s t)|by destruct p'].
Qed.

Lemma started s q t : dinv s q -> d_pc s t <> D_out -> t ∈ T /\ d_start_seqid s t <> 0.
Proof.
  intros [[K Hs] _ _ _ _] Hp. assert (H : d_start_seqid s t <> 0) by (intros H; by apply (seq_out M T s K Hs) in H).
  split; [by apply (seq_in M T s K Hs)|done].
Qed.

Lemma run_read s q t : dinv s q -> d_pc s t = D_read -> exists s', run M t s = Done s' /\ dinv s' q.
Proof.
  intros D Hp. destruct (started s q t D ltac:(by rewrite Hp)) as [Ht Hst]. unfold run. rewrite Hp. eexists. split; [done|].
  destruct (d_head s =? 0) eqn:E; b2p.
  - eapply (step_none s _ q t D_out); try done. by rewrite Hp.
  - eapply (step_none s _ q t (D_cas (d_head s))); try done; [by rewrite Hp|congruence].
Qed.

Lemma queue_alive s q w : dinv s q -> w ∈ q -> exists i, d_items s !! w = Some i /\ 0 < w < 2 ^ 32.
Proof.
  intros [[K Hs] [_ _ _ _ Q5] _ _ _] Hw. assert (G : exists i, d_items s !! w = Some i).
  { clear -Q5 Hw. induction q as [|x q IH]; [by apply elem_of_nil in Hw|]. cbn in Q5. destruct Q5 as [(i & Hi & _) Hc]. apply elem_of_cons in Hw as [->|Hw]; [by exists i|by apply IH]. }
  destruct G as [i Hi]. exists i. split; [done|]. by apply (seq_items M T s K Hs w i Hi).
Qed.

Lemma queue_empty s q : dinv s q -> d_head s = 0 <-> q = [].
Proof.
  intros D. pose proof D as [_ [Q1 Q2 Q3 Q4 Q5] _ _ _]. split.
  - intros E. destruct q as [|w q]; [done|]. exfalso. destruct (queue_alive s (w :: q) w D ltac:(by left)) as (i & _ & Hw). rewrite E in Q2. change (next_ptr 0) with 0 in Q2.
    cbn in Q2. lia.
  - intros ->. apply packed_ext; [by rewrite Q4|by rewrite Q2].
Qed.

(** [_execute]: the count of the first item's pointers goes up. *)
Lemma run_cas s q t h : dinv s q -> d_pc s t = D_cas h -> exists s', run M t s = Done s' /\ dinv s' q.
Proof.
  intros D Hp. destruct (started s q t D ltac:(by rewrite Hp)) as [Ht Hst]. unfold run. rewrite Hp. eexists. split; [done|].
  destruct (d_head s =? h) eqn:E; b2p.
  2: { eapply (step_none s _ q t D_read); try done. by rewrite Hp. }
  assert (Hh : h <> 0). { intros ->. pose proof (inv_pc M T s q D t) as P. unfold pc_ok in P. by rewrite Hp in P. }
  destruct q as [|w q]; [exfalso; apply Hh; rewrite <-E; by apply (queue_empty s [] D)|].
  pose proof D as [[K Hs] [Q1 Q2 Q3 Q4 Q5] Hpc Hit Hl]. destruct (queue_alive s (w :: q) w D ltac:(by left)) as (i & Hi & Hw).
  rewrite E in Q2, Q3, Q4. cbn [hd] in Q2. pose proof (seq_small s K Hs). pose proof (cnt_total T (d_pc s) w) as Tot. fold (nin s w) in Tot.
  destruct (count_up h Q3 ltac:(lia)) as (U1 & U2 & U3). rewrite Q2. name_state s'. set (h' := u64 _) in *.
  counted s s' t (D_start w) w Hp. pose proof (Hit w i Hi) as [Wd Wc Wb Wp].
  assert (Po : iv_releasePost i = false /\ c KC s w = 0 /\ c KD s w = 0).
  { unfold place_ok in Wp. destruct Wp as [Wp|[Wp|[Wp|Wp]]]; destruct_and? Wp; [done|exfalso..]; set_solver. }
  assert (Eh : d_head s' = h') by done. assert (Ep : d_pc s' = upd (d_pc s) t (D_start w)) by done. assert (Ei : d_items s' = d_items s) by done.
  eapply (step_frame M T HT s s' (w :: q) (w :: q) t (D_start w) w i i); try done; try (by right); try (by left).
  - by rewrite insert_id.
  - left. by rewrite Hp.
  - intros x Hx Hpo Hxi. specialize (Hpc x). unfold pc_ok in Hpc. rewrite Hxi in Hpc. destruct Hpc as (j & _ & _ & P). by apply P.
  - eapply lock_frame; [done|done|done|by rewrite Hp|done].
  - clearbody s'. split; rewrite ?Eh, ?Ei; [done|by rewrite U3|done|rewrite U2, Q4; lia|done].
  - clearbody s'. destruct Po as (Po & ZC & ZD). split; [done|lia|unfold barrier_ok in *; intuition lia|]. left. split_and!; [by left|lia|lia|done|done].
  - unfold pc_ok. rewrite Ep, upd_eq. exists i. split_and!; [done|by intros _; apply Po|done].
Qed.

(** [_complete] takes the first item off the queue. *)
Lemma run_pop s q t w : dinv s q -> d_pc s t = D_pop w -> exists s' q', run M t s = Done s' /\ dinv s' q'.
Proof.
  intros D Hp. enter D Hp i V. destruct (d_lock s) eqn:El; [by exists s, q|]. destruct V4 as (Kc & -> & Kpost & Kpre).
  place_here K4 s M w Hp V1. pose proof (nin_one T s w M V1 ltac:(rewrite Hp; by apply inside_at)) as Hin.
  assert (Hq : w ∈ q /\ c KC s w = 0 /\ c KD s w = 0 /\ hd 0 q = w).
  { unfold place_ok, popping in Wp. rewrite Hp in Wp. destruct Wp as [Wp|[Wp|[Wp|Wp]]]; [|exfalso; lia|exfalso; by destruct_and? Wp|exfalso; destruct_and? Wp; congruence].
    destruct Wp as (A1 & A2 & A3 & A4 & A5). split_and!; try done. destruct (decide (hd 0 q = w)) as [|Hne]; [done|]. destruct (A5 Hne). lia. }
  destruct Hq as (Hq & ZC & ZD & Hhd). destruct q as [|w' q]; [by apply elem_of_nil in Hq|]. cbn in Hhd. subst w'.
  pose proof D as [[K Hs] [Q1 Q2 Q3 Q4 Q5] Hpc Hit Hl]. cbn in Q5. destruct Q5 as [(j & Hj & Ej) Q5]. replace j with i in * by congruence. clear j Hj.
  apply NoDup_cons in Q1 as [Hnw Q1]. exists (goto (set_lock (set_head s (next_ptr (iv_cpus_and_next i))) true) M (D_clear w (d_head s))), q. split; [done|].
  name_state s'. counted s s' M (D_clear w (d_head s)) w Hp.
  assert (Eh : d_head s' = next_ptr (iv_cpus_and_next i)) by done. assert (Ep : d_pc s' = upd (d_pc s) M (D_clear w (d_head s))) by done.
  assert (Ei : d_items s' = d_items s) by done. pose proof (next_ptr_word (iv_cpus_and_next i)) as Nw.
  pose proof (packed 0 (next_ptr (iv_cpus_and_next i)) ltac:(lia) Nw) as (P1 & P2 & P3). rewrite Z.mul_0_l, Z.add_0_l in P1, P2, P3.
  eapply (step_frame M T HT s s' (w :: q) q M (D_clear w (d_head s)) w i i); try done; try (by right); try (by left).
  - lia.
  - by rewrite insert_id.
  - right. by rewrite Hp.
  - intros x Hx. rewrite elem_of_cons. naive_solver.
  - by rewrite Ep, upd_eq.
  - clear Wb Wp. clearbody s'. split; rewrite ?Eh, ?Ei; [done|by rewrite P3|done| |done]. rewrite P2. destruct q as [|w2 q]; [done|].
    assert (Hne : w <> w2) by (intros ->; apply Hnw; by left). destruct (queue_alive s (w :: w2 :: q) w2 D ltac:(right; by left)) as (i2 & Hi2 & _).
    rewrite Ep, cnt_frame by (rewrite ?Hp; cbn; congruence). rewrite (nin_frame T HT s s' M (D_clear w (d_head s)) w2) by (rewrite ?Hp; cbn; congruence).
    pose proof (item_place M T s _ w2 i2 (Hit w2 i2 Hi2)) as Wp. unfold place_ok in Wp.
    destruct Wp as [Wp|[Wp|[Wp|Wp]]]; [|exfalso; destruct_and? Wp; set_solver..]. destruct Wp as (_ & _ & _ & _ & A5). destruct (A5 Hne). lia.
  - clearbody s'. split; [done|lia|unfold barrier_ok in *; intuition lia|]. right. right. left. split_and!; [done|lia|lia|done|].
    unfold popping. assert (EM : d_pc s' M = D_clear w (d_head s)) by (by rewrite Ep, upd_eq). rewrite EM. split; [done|]. lia.
  - unfold pc_ok. rewrite Ep, upd_eq. exists i. split_and!; [done|by split_and!; try done; apply Kc|done].
Qed.

(** ** Release and removal *)

Lemma points_sum s w : tally (fun t => points_to w (d_pc s t)) T = c KC s w + c KH s w + nin s w + c KD s w.
Proof.
  unfold cnt, DeferredInv.nin. clear HT HM HN. induction T as [|t l IH]; [done|]. cbn [tally].
  assert (P : one (points_to w (d_pc s t)) = one (at_place KC w (d_pc s t)) + one (at_place KH w (d_pc s t)) + one (inside w (d_pc s t)) + one (at_place KD w (d_pc s t))).
  { unfold at_place, inside, points_to. destruct (d_pc s t); cbn; try done; destruct (_ =? w); try done; by destruct a. }
  unfold one in P. lia.
Qed.

(** The only processor that points to an item. *)
Lemma alone s q t w : dinv s q -> t ∈ T -> pc_item (d_pc s t) = Some w -> c KC s w + c KH s w + nin s w + c KD s w <= 1 ->
  forall x, x <> t -> pc_item (d_pc s x) <> Some w.
Proof.
  intros D Ht Hp Hs x Hne Hx. destruct (started s q x D ltac:(intros E; by rewrite E in Hx)) as [Hin _].
  rewrite <-points_sum in Hs. enough (2 <= tally (fun t => points_to w (d_pc s t)) T) by lia.
  apply (tally_two _ T x t); try done; by apply points_to_spec.
Qed.

Lemma chain_delete m q w : chain m q -> w ∉ q -> chain (delete w m) q.
Proof.
  induction q as [|x q IH]; intros Hc Hw; [done|]. cbn in *. apply not_elem_of_cons in Hw as [Hne Hw]. destruct Hc as [(j & Hj & Ej) Hc].
  split; [|by apply IH]. exists j. by rewrite lookup_delete_ne.
Qed.

Lemma step_delete s s' q t w i :
  dinv s q -> visit s q t w i -> pc_item (d_pc s t) = Some w -> w ∉ q -> (forall x, x <> t -> pc_item (d_pc s x) <> Some w) ->
  popped (d_pc s t) = false ->
  d_pc s' = upd (d_pc s) t D_out -> d_start_seqid s' = d_start_seqid s -> d_cpuSeq s' = d_cpuSeq s -> d_head s' = d_head s -> d_lock s' = d_lock s ->
  d_items s' = delete w (d_items s) -> dinv s' q.
Proof.
  intros D V Hp Hw Ha Hpo E1 E2 E3 E4 E5 E6. pose proof D as [[K Hs] [Q1 Q2 Q3 Q4 Q5] Hpc Hit Hl]. destruct V as [V1 V2 V3 V4 V5 V6 V7 V8 V9]. split.
  - exists K. destruct Hs. split; rewrite ?E2, ?E3; try done.
    + intros x Hx. rewrite E1. destruct (decide (x = t)) as [->|Hne]; [by rewrite upd_eq|rewrite upd_ne by done; auto].
    + intros x j. rewrite E6. intros [_ Hj]%lookup_delete_Some. eauto.
  - split; rewrite ?E4, ?E6; [done|done|done| |by apply chain_delete]. rewrite Q4. destruct q as [|x q]; [done|]. apply not_elem_of_cons in Hw as [Hne Hw].
    rewrite E1, cnt_frame by (rewrite ?Hp; done || congruence). by rewrite (nin_frame T HT s s' t D_out x) by (rewrite ?Hp; done || congruence).
  - intros x. destruct (decide (x = t)) as [->|Hne]; [unfold pc_ok; by rewrite E1, upd_eq|].
    apply (pc_ok_frame M s s' q q x (Hpc x)); [by rewrite E1, upd_ne|by rewrite E2|]. intros y Hy. rewrite E6, lookup_delete_ne; [done|].
    intros ->. by apply (Ha x).
  - intros x j. rewrite E6. intros [Hne Hj]%lookup_delete_Some. apply (item_frame M T HT s s' q q t D_out x j); try done; [by apply Hit|rewrite Hp; congruence].
  - eapply lock_frame; [done|done|done|by destruct (d_pc s t)|done].
Qed.

(** The last processor deletes the item; the destructor's assertion holds. *)
Lemma run_delete s q t w : dinv s q -> d_pc s t = D_delete w -> exists s', run M t s = Done s' /\ dinv s' q.
Proof.
  intros D Hp. enter D Hp i V. place_here KD s t w Hp V1.
  assert (P : w ∉ q /\ c KC s w = 0 /\ c KH s w = 0 /\ nin s w = 0 /\ c KD s w = 1 /\ next_ptr (iv_cpus_and_next i) = 0).
  { unfold place_ok in Wp. destruct Wp as [Wp|[Wp|[Wp|Wp]]]; [exfalso; lia|exfalso; lia|exfalso; lia|]. destruct Wp as (A1 & A2 & A3 & A4 & A5 & A6).
    split_and!; done || lia. }
  destruct P as (P1 & P2 & P3 & P4 & P5 & P6). assert (W : iv_cpus_and_next i = 0) by (apply packed_ext; [by rewrite Wc, P4|by rewrite P6]).
  unfold delete_work, item. rewrite V3. cbn [obind]. rewrite W, Z.eqb_refl. eexists. split; [done|]. name_state s'.
  eapply (step_delete s s' q t w i D V); try done; try (by rewrite Hp). eapply alone; try done; [by rewrite Hp|lia].
Qed.

Lemma run_clean s q t w : dinv s q -> d_pc s t = D_clean w -> exists s', run M t s = Done s' /\ dinv s' q.
Proof.
  intros D Hp. enter D Hp i V. pose proof (nin_one T s w t V1 ltac:(rewrite Hp; by apply inside_at)) as Hin.
  assert (P : w ∉ q /\ c KC s w = 0 /\ c KH s w = 0 /\ iv_releasePost i = true /\ next_ptr (iv_cpus_and_next i) = 0 /\ c KD s w = 0).
  { unfold place_ok in Wp. destruct Wp as [Wp|[Wp|[Wp|Wp]]]; destruct_and? Wp; [congruence|congruence|congruence|]. split_and!; done || lia. }
  destruct P as (P1 & P2 & P3 & P4 & P5 & P6). destruct (count_down (iv_cpus_and_next i) Wd ltac:(lia)) as (U1 & U2 & U3).
  change (Z.shiftr ?x 32) with (cpu_count x). rewrite U2, Wc. eexists. split; [done|]. destruct (nin s w - 1 =? 0) eqn:E; b2p; name_state s'.
  - counted s s' t (D_delete w) w Hp. set (i' := set_word i (u64 (iv_cpus_and_next i - Z.shiftl 1 32))) in *.
    eapply (step_same s s' q t (D_delete w) w i i' D V); try done; try (by rewrite Hp); try (by right).
    + eapply lock_frame; [done|done|done|by rewrite Hp|done].
    + clearbody s'. split; [done|cbn; lia|unfold barrier_ok in *; cbn; intuition lia|]. right. right. right. cbn. rewrite U3. split_and!; try done; lia.
  - counted s s' t D_out w Hp. set (i' := set_word i (u64 (iv_cpus_and_next i - Z.shiftl 1 32))) in *.
    eapply (step_same s s' q t D_out w i i' D V); try done; try (by rewrite Hp); try (by right); try (by left).
    + eapply lock_frame; [done|done|done|by rewrite Hp|done].
    + clearbody s'. split; [done|cbn; lia|unfold barrier_ok in *; cbn; intuition lia|]. right. right. right. cbn. rewrite U3. split_and!; try done; lia.
Qed.

(** The master alone is at the places of the removal. *)
Lemma removing s q w i : visit s q M w i -> popped (d_pc s M) = true -> w ∉ q -> inside w (d_pc s M) = true -> iv_releasePost i = false ->
  c KC s w = 0 /\ c KD s w = 0 /\ popping M T s w i.
Proof.
  intros V Hp Hq Hin Hpost. pose proof (nin_one T s w M (visit_in _ _ _ _ _ V) Hin). pose proof (item_place _ _ _ _ _ _ (visit_ok _ _ _ _ _ V)) as Wp.
  unfold place_ok in Wp. destruct Wp as [Wp|[Wp|[Wp|Wp]]]; destruct_and? Wp; try done; [lia|congruence].
Qed.

Lemma run_clear s q t w o : dinv s q -> d_pc s t = D_clear w o -> exists s', run M t s = Done s' /\ dinv s' q.
Proof.
  intros D Hp. enter D Hp i V. destruct V4 as (Kc & -> & Kpost & Kpre). specialize (V5 eq_refl).
  destruct (removing s q w i V ltac:(by rewrite Hp) V5 ltac:(rewrite Hp; by apply inside_at) Kpost) as (ZC & ZD & Po). unfold popping in Po. rewrite Hp in Po.
  destruct (set_next (iv_cpus_and_next i) 0 Wd ltac:(done)) as (U1 & U2 & U3). eexists. split; [done|]. name_state s'.
  counted s s' M (D_wait w (Z.shiftr o 32)) w Hp. set (i' := set_word i _) in *. assert (Ep : d_pc s' = upd (d_pc s) M (D_wait w (Z.shiftr o 32))) by done.
  eapply (step_same s s' q M (D_wait w (Z.shiftr o 32)) w i i' D V); try done; try (by rewrite Hp); try (by right); try (by left).
  - rewrite Ep, upd_eq. cbn. by rewrite (inv_lock M T s q D), Hp.
  - clearbody s'. split; [done|cbn; lia|unfold barrier_ok in *; cbn; intuition lia|]. right. right. left. split_and!; [done|lia|lia|done|].
    unfold popping. assert (EM : d_pc s' M = D_wait w (Z.shiftr o 32)) by (by rewrite Ep, upd_eq). rewrite EM. split_and!; [done| |done]. change (Z.shiftr o 32) with (cpu_count o). lia.
Qed.

(** All those counted at the head have counted themselves in the item. *)
Lemma run_wait s q t w o : dinv s q -> d_pc s t = D_wait w o -> exists s', run M t s = Done s' /\ dinv s' q.
Proof.
  intros D Hp. enter D Hp i V. destruct V4 as (Kc & -> & Kpost & Kpre). specialize (V5 eq_refl).
  destruct (removing s q w i V ltac:(by rewrite Hp) V5 ltac:(rewrite Hp; by apply inside_at) Kpost) as (ZC & ZD & Po). unfold popping in Po. rewrite Hp in Po.
  eexists. split; [done|]. destruct (cpu_count (iv_cpus_and_next i) =? o) eqn:E; b2p; [|done]. name_state s'.
  counted s s' M (D_rel w) w Hp. assert (Ep : d_pc s' = upd (d_pc s) M (D_rel w)) by done.
  eapply (step_same s s' q M (D_rel w) w i i D V); try done; try (by rewrite Hp); try (by right); try (by left).
  - by rewrite insert_id.
  - by rewrite Ep, upd_eq.
  - clearbody s'. split; [done|lia|unfold barrier_ok in *; intuition lia|]. right. right. left. split_and!; [done|lia|lia|done|].
    unfold popping. assert (EM : d_pc s' M = D_rel w) by (by rewrite Ep, upd_eq). rewrite EM. destruct_and? Po. split_and!; [done|lia|done].
Qed.

Lemma run_rel s q t w : dinv s q -> d_pc s t = D_rel w -> exists s', run M t s = Done s' /\ dinv s' q.
Proof.
  intros D Hp. enter D Hp i V. destruct V4 as (Kc & -> & Kpost & Kpre). specialize (V5 eq_refl). place_here K4 s M w Hp V1.
  destruct (removing s q w i V ltac:(by rewrite Hp) V5 ltac:(rewrite Hp; by apply inside_at) Kpost) as (ZC & ZD & Po). unfold popping in Po. rewrite Hp in Po.
  eexists. split; [done|]. name_state s'.
  counted s s' M (D_clean w) w Hp. assert (Ep : d_pc s' = upd (d_pc s) M (D_clean w)) by done. destruct_and? Po.
  eapply (step_same s s' q M (D_clean w) w i (release_post i) D V); try done; try (by rewrite Hp); try (by right); try (by left).
  - eapply lock_frame; [done|done|done|by rewrite Hp|done].
  - pose proof (nin_one T s w M V1 ltac:(rewrite Hp; by apply inside_at)). clearbody s'. split; [done|cbn; lia| |].
    + unfold barrier_ok in *. cbn. right. right. destruct Wb as [Wb|[Wb|Wb]]; [exfalso; lia|exfalso; lia|]. destruct_and? Wb. split_and!; try done; lia.
    + right. right. right. cbn. split_and!; try done; lia.
Qed.
End steps.
