(* ===== verification/DeferredQueue.v ===== *)
(** * Deferred work: insertion, creation, activation and the start *)

From stdpp Require Import gmap.
From S2P Require Import Prelude Deferred DeferredInv DeferredSafe.

Lemma tally_set {A} `{EqDecision A} (f g : A -> bool) l t : NoDup l -> t ∈ l -> (forall x, x <> t -> g x = f x) ->
  tally g l = tally f l - Z.b2z (f t) + Z.b2z (g t).
Proof.
  intros Hn Ht H. induction l as [|x l IH]; [by apply elem_of_nil in Ht|]. apply NoDup_cons in Hn as [Hx Hn]. cbn.
  destruct (decide (x = t)) as [->|Hne].
  - rewrite (tally_ext g f l) by (intros y Hy; apply H; by intros ->). destruct (f t), (g t); cbn; lia.
  - apply elem_of_cons in Ht as [?|Ht]; [done|]. rewrite IH, H by done. lia.
Qed.

Section steps.
Variables (M : Z) (T : list Z).
Hypothesis HT : NoDup T.
Hypothesis HM : M ∈ T.
Hypothesis HN : Z.of_nat (length T) < 2 ^ 31.
Implicit Types (s : dsys) (q : list Z) (i : DeferredWork).
Notation c k s w := (cnt T k (d_pc s) w).
Notation nin := (nin T).
Notation dinv := (dinv M T).

(** ** The walk to the tail *)

Lemma find_tail_last s q x fuel : chain (d_items s) (q ++ [x]) -> (forall y, y ∈ q -> y <> 0) -> (x <> 0) -> (length q < fuel)%nat ->
  find_tail fuel s (hd 0 (q ++ [x])) = Done x /\ exists i, d_items s !! x = Some i /\ next_ptr (iv_cpus_and_next i) = 0.
Proof.
  revert fuel. induction q as [|y q IH]; intros fuel Hc Hq Hx Hf; (destruct fuel as [|fuel]; [cbn in Hf; lia|]); cbn in Hc; destruct Hc as [(j & Hj & Ej) Hc].
  - cbn. unfold item. rewrite Hj. cbn. rewrite Ej. by split; [|exists j].
  - cbn. unfold item. rewrite Hj. cbn [obind]. rewrite Ej.
    assert (Hn : hd 0 (q ++ [x]) <> 0) by (destruct q as [|z q]; [done|apply Hq; right; by left]). apply Z.eqb_neq in Hn. rewrite Hn.
    apply IH; [done| |done|cbn in Hf; lia]. intros z Hz. apply Hq. by right.
Qed.

Lemma chain_append m q x i i' w iw : chain m (q ++ [x]) -> x ∉ q -> w <> x -> m !! w = Some iw -> next_ptr (iv_cpus_and_next iw) = 0 ->
  next_ptr (iv_cpus_and_next i') = w -> m !! x = Some i -> chain (<[x := i']> m) (q ++ [x; w]).
Proof.
  induction q as [|y q IH]; intros Hc Hx Hne Hw Ew Ei Hi.
  - cbn. split; [exists i'; rewrite lookup_insert; by case_decide|]. split; [|done]. exists iw. by rewrite lookup_insert_ne by congruence.
  - cbn in *. apply not_elem_of_cons in Hx as [Hxy Hx]. destruct Hc as [(j & Hj & Ej) Hc]. split; [|by apply IH].
    exists j. rewrite lookup_insert_ne by congruence. split; [done|]. rewrite Ej. by destruct q.
Qed.

(** The queue holds no more items than are allocated. *)
Lemma queue_size s q : dinv s q -> (length q <= size (d_items s))%nat.
Proof.
  intros D. pose proof (queue_nodup T s q (inv_queue M T s q D)) as Hn. rewrite <-(size_list_to_set (C := gset Z) q Hn), <-(size_dom (D := gset Z) (d_items s)).
  apply subseteq_size. intros x Hx. apply elem_of_list_to_set in Hx. destruct (queue_alive M T s q x D Hx) as (i & Hi & _). apply elem_of_dom. by exists i.
Qed.

(** Another word with the same count changes nothing for a queued item. *)
Lemma item_word_set s q w i x : item_ok M T s q w i -> w ∈ q -> is_word 64 x -> cpu_count x = cpu_count (iv_cpus_and_next i) -> item_ok M T s q w (set_word i x).
Proof.
  intros [Wd Wc Wb Wp] Hq H1 H2. split; [done|by rewrite <-Wc|done|]. unfold place_ok in *.
  destruct Wp as [Wp|[Wp|[Wp|Wp]]]; [by left|exfalso..]; by destruct_and? Wp.
Qed.

(** ** [insert] *)

Section insertion.
Variables (s : dsys) (q : list Z) (t w : Z) (only : bool) (i : DeferredWork).
Hypothesis D : dinv s q.
Hypothesis V : visit M T s q t w i.
Hypothesis Hp : d_pc s t = D_insert w only.

Lemma created : w ∉ q /\ c KC s w = 1 /\ c KD s w = 0 /\ c KH s w = 0 /\ nin s w = 0 /\ iv_cpus_and_next i = 0 /\ iv_releasePost i = false.
Proof using HT V Hp.
  pose proof (cnt_one T KC s w t (visit_in _ _ _ _ _ _ _ V) ltac:(unfold at_place, points_to; rewrite Hp; cbn; by rewrite Z.eqb_refl)).
  pose proof (item_place _ _ _ _ _ _ (visit_ok _ _ _ _ _ _ _ V)) as Wp. unfold place_ok in Wp. destruct Wp as [Wp|[Wp|[Wp|Wp]]]; [exfalso; lia|done|exfalso; lia|exfalso; lia].
Qed.

Lemma inserted s' q' : d_pc s' = upd (d_pc s) t D_out -> w ∈ q' -> item_ok M T s' q' w i.
Proof using HT V Hp.
  intros Ep Hq. destruct created as (P1 & P2 & P3 & P4 & P5 & P6 & P7). pose proof V as V'. destruct V' as [V1 V2 V3 V4 V5 [Wd Wc Wb Wp] V7 V8 V9].
  pose proof (counts_step T HT s s' t D_out w V1 Ep) as C. count_all C Hp. split; [done|lia|unfold barrier_ok in *; intuition lia|].
  left. split_and!; try done; lia.
Qed.

Lemma insert_empty_queue : d_head s = 0 -> dinv (goto (set_head s w) t D_out) [w].
Proof using HT HM HN D V Hp.
  intros E. destruct created as (P1 & P2 & P3 & P4 & P5 & P6 & P7). assert (Eq : q = []) by (by apply (queue_empty M T s q D)).
  pose proof V as V'. destruct V' as [V1 V2 V3 V4 V5 V6 (V7 & V7' & Vw) V8 V9].
  set (s' := goto _ _ _). assert (Ep : d_pc s' = upd (d_pc s) t D_out) by done. pose proof (inserted s' [w] Ep ltac:(by left)) as Hi.
  pose proof (counts_step T HT s s' t D_out w V1 Ep) as C. count_all C Hp.
  pose proof (packed 0 w ltac:(lia) ltac:(split; lia)) as (W1 & W2 & W3). rewrite Z.mul_0_l, Z.add_0_l in W1, W2, W3.
  eapply (step_frame M T HT s s' q [w] t D_out w i i); try done; try lia; try (by left).
  - by rewrite insert_id.
  - right. by rewrite Hp.
  - by right.
  - intros x Hx. rewrite Eq, list_elem_of_singleton. split; [done|by intros ?%elem_of_nil].
  - intros x Hx Hxq. rewrite Eq in Hxq. by apply elem_of_nil in Hxq.
  - intros x Hx Hpo Hxi. exfalso. apply (alone M T HT s q t w D V1 ltac:(by rewrite Hp) ltac:(lia) x Hx). done.
  - eapply (lock_frame M T); try done; by rewrite ?Hp.
  - assert (Eh : d_head s' = w) by done. assert (Ei : d_items s' = d_items s) by done. clearbody s'. split; rewrite ?Eh, ?Ei; [apply NoDup_singleton|done|done|rewrite W2; lia|].
    cbn. split; [|done]. exists i. split; [done|]. by rewrite P6.
  - unfold pc_ok. by rewrite Ep, upd_eq.
Qed.

Lemma insert_only : exists s', delete_work s w = Done s' /\ dinv (goto s' t D_out) q.
Proof using HT HM HN D V Hp.
  destruct created as (P1 & P2 & P3 & P4 & P5 & P6 & P7). unfold delete_work, item. rewrite (visit_item _ _ _ _ _ _ _ V). cbn [obind]. rewrite P6, Z.eqb_refl.
  eexists. split; [done|]. eapply (step_delete M T HT HM s _ q t w i D V); try done; rewrite ?Hp; try done.
  eapply (alone M T); try done; [by apply V|by rewrite Hp|lia].
Qed.
(** At the end of a queue [q0 ++ [x]]; two items change. *)
Lemma insert_last q0 x j : q = q0 ++ [x] -> d_items s !! x = Some j -> next_ptr (iv_cpus_and_next j) = 0 ->
  dinv (goto (put_item s x (set_word j (DEFERRED_QUEUE_SET_NEXT_PTR (iv_cpus_and_next j) w))) t D_out) (q ++ [w]).
Proof using HT HM HN D V Hp.
  intros Eq Ex En. destruct created as (P1 & P2 & P3 & P4 & P5 & P6 & P7). pose proof D as [[K Hs] [Q1 Q2 Q3 Q4 Q5] Hpc Hit Hl].
  pose proof V as V'. destruct V' as [V1 V2 V3 V4 V5 V6 (V7 & V7' & Vw) V8 V9].
  assert (Hx : x ∈ q) by (rewrite Eq; apply elem_of_app; right; by left). assert (Hne : w <> x) by (by intros ->).
  destruct (set_next (iv_cpus_and_next j) w (item_word _ _ _ _ _ _ (Hit x j Ex)) ltac:(split; lia)) as (U1 & U2 & U3).
  assert (Hhd : hd 0 (q ++ [w]) = hd 0 q) by (rewrite Eq; by destruct q0).
  set (j' := set_word j _). set (s' := goto _ _ _). assert (Ep : d_pc s' = upd (d_pc s) t D_out) by done.
  assert (Ei : d_items s' = <[x := j']> (d_items s)) by done. assert (Eh : d_head s' = d_head s) by done.
  assert (El : d_lock s' = d_lock s) by done. assert (Es : d_start_seqid s' = d_start_seqid s) by done.
  assert (Fr : forall y iy, d_items s !! y = Some iy -> y <> w -> item_ok M T s' (q ++ [w]) y iy).
  { intros y iy Hy Hyw. apply (item_frame M T HT s s' q _ t D_out y iy); try done; [by apply Hit|rewrite Hp; cbn; congruence| |by rewrite Hhd].
    rewrite elem_of_app, list_elem_of_singleton. naive_solver. }
  assert (Kx : seq_ok M T s' K) by (by apply (seq_frame M T s s' K t D_out x j j'); try done; lia).
  pose proof (inserted s' (q ++ [w]) Ep ltac:(apply elem_of_app; right; by left)) as Hi. clearbody s'. split.
  - by exists K.
  - split; rewrite ?Eh, ?Ei, ?Hhd; [|done|done| |].
    + apply NoDup_app. split_and!; [done| |apply NoDup_singleton]. intros y Hy ->%list_elem_of_singleton. done.
    + rewrite Q4. destruct q as [|z q1] eqn:Eqq; [by apply elem_of_nil in Hx|]. cbn. apply not_elem_of_cons in P1 as [P1 _].
      rewrite Ep, cnt_frame by (rewrite ?Hp; cbn; congruence). by rewrite (nin_frame T HT s s' t D_out z) by (rewrite ?Hp; cbn; congruence).
    + rewrite Eq, <-app_assoc. cbn. rewrite Eq in Q5. apply (chain_append _ q0 x j j' w i); try done; [|by rewrite P6].
      rewrite Eq in Q1. apply NoDup_app in Q1 as (_ & Q1 & _). intros H. apply (Q1 x H). by left.
  - intros y. destruct (decide (y = t)) as [->|Hyt]; [unfold pc_ok; by rewrite Ep, upd_eq|]. specialize (Hpc y). unfold pc_ok in *. rewrite Ep, upd_ne, Es by done.
    destruct (pc_item (d_pc s y)) as [z|] eqn:Ez; [|done]. destruct Hpc as (jz & Hz & Kz & Pz).
    assert (Pz' : popped (d_pc s y) = true -> z ∉ q ++ [w]).
    { intros H. rewrite elem_of_app, list_elem_of_singleton. intros [Hz'| ->]; [by apply Pz|].
      by apply (alone M T HT s q t w D V1 ltac:(by rewrite Hp) ltac:(lia) y Hyt). }
    destruct (decide (z = x)) as [->|Hzx].
    + exists j'. rewrite Ei, lookup_insert. split_and!; [by case_decide| |done]. replace jz with j in Kz by congruence. by apply (knows_frame M y _ j j').
    + exists jz. by rewrite Ei, lookup_insert_ne by congruence.
  - intros y iy. rewrite Ei. destruct (decide (y = x)) as [->|Hyx].
    + rewrite lookup_insert. case_decide; [|done]. intros [= <-]. apply item_word_set; [apply Fr; [done|congruence]|apply elem_of_app; by left|done|done].
    + rewrite lookup_insert_ne by congruence. intros Hy. destruct (decide (y = w)) as [->|Hyw]; [|by apply Fr]. replace iy with i by congruence. done.
  - eapply (lock_frame M T); try done; by rewrite ?Hp.
Qed.
End insertion.

Lemma run_insert s q t w only : dinv s q -> d_pc s t = D_insert w only -> exists s' q', run M t s = Done s' /\ dinv s' q'.
Proof using HT HM HN.
  intros D Hp. destruct (at_item M T HN s q t w D ltac:(by rewrite Hp)) as [i V]. unfold run. rewrite Hp. destruct (d_lock s); [by exists s, q|].
  unfold insert_work. destruct (d_head s =? 0) eqn:E; b2p; cbn [obind].
  - eexists _, _. split; [done|]. by eapply insert_empty_queue.
  - destruct only.
    + destruct (insert_only s q t w true i D V Hp) as (s1 & -> & D1). by eexists _, _.
    + assert (Hq : q <> []) by (intros H; by apply E, (queue_empty M T s q D)). destruct (exists_last Hq) as (q0 & x & Eq).
      destruct (inv_queue M T s q D) as [Q1 Q2 Q3 Q4 Q5]. pose proof (queue_size s q D) as Sz.
      assert (A : forall y, y ∈ q -> y <> 0) by (intros y Hy; destruct (queue_alive M T s q y D Hy) as (? & _ & ?); lia).
      destruct (find_tail_last s q0 x (S (size (d_items s)))) as (F & j & Hj & Ej).
      * by rewrite <-Eq.
      * intros y Hy. apply A. rewrite Eq. apply elem_of_app. by left.
      * apply A. rewrite Eq. apply elem_of_app. right. by left.
      * rewrite Eq, length_app in Sz. cbn in Sz. lia.
      * rewrite Q2, Eq, F. cbn [obind]. unfold item. rewrite Hj. cbn [obind]. eexists _, _. split; [done|]. by eapply insert_last.
Qed.

(** ** Creation and activation *)

Lemma new_item s q t w only : dinv s q -> t ∈ T -> d_start_seqid s t <> 0 -> d_pc s t = D_out -> 0 < w < 2 ^ 32 -> d_items s !! w = None ->
  dinv (goto (put_item s w (new_work (d_cpuSeq s))) t (D_insert w only)) q.
Proof using HT HM HN.
  intros D Ht Hst Hp Hw Hn. pose proof D as [[K Hs] [Q1 Q2 Q3 Q4 Q5] Hpc Hit Hl]. pose proof (seq_small M T HN s K Hs) as HK.
  pose proof (seq_pos M T s K Hs) as HK1. destruct (packed K K ltac:(lia) ltac:(split; lia)) as (W1 & W2 & W3).
  assert (Ew : new_work (d_cpuSeq s) = mkWork 0 K K 0 K false false).
  { unfold new_work. rewrite (seq_val M T s K Hs). change (Z.land ?x 0xFFFFFFFF) with (next_ptr x). change (Z.shiftr ?x 32) with (cpu_count x).
    rewrite W2, W3, wrap_small by (split; lia). done. }
  rewrite Ew. set (i := mkWork _ _ _ _ _ _ _). assert (Hnq : w ∉ q) by (intros H; destruct (queue_alive M T s q w D H) as (? & ? & _); congruence).
  pose proof (unheld M T s q w D Hn) as Hno. assert (Z0 : forall k, c k s w = 0) by (intros k; by apply cnt_zero).
  assert (N0 : nin s w = 0) by (apply tally_none; intros x _; by apply inside_other).
  set (s' := goto _ _ _). assert (Ep : d_pc s' = upd (d_pc s) t (D_insert w only)) by done. assert (Ei : d_items s' = <[w := i]> (d_items s)) by done.
  assert (Eh : d_head s' = d_head s) by done. assert (El : d_lock s' = d_lock s) by done. assert (Es : d_start_seqid s' = d_start_seqid s) by done.
  assert (Ec : d_cpuSeq s' = d_cpuSeq s) by done.
  pose proof (counts_step T HT s s' t (D_insert w only) w Ht Ep) as C. count_all C Hp. clearbody s'. split.
  - exists K. destruct Hs. split; rewrite ?Es, ?Ec; try done.
    + intros x Hx. rewrite Ep. destruct (decide (x = t)) as [->|Hne]; [done|rewrite upd_ne by done; auto].
    + intros y iy. rewrite Ei. destruct (decide (y = w)) as [->|Hne].
      * rewrite lookup_insert. case_decide; [|done]. intros [= <-]. cbn. lia.
      * rewrite lookup_insert_ne by congruence. eauto.
  - split; rewrite ?Eh, ?Ei; [done|done|done| |].
    + rewrite Q4. destruct q as [|z q1]; [done|]. apply not_elem_of_cons in Hnq as [Hnq _].
      rewrite Ep, cnt_frame by (rewrite ?Hp; cbn; congruence). by rewrite (nin_frame T HT s s' t (D_insert w only) z) by (rewrite ?Hp; cbn; congruence).
    + clear -Q5 Hn. induction q as [|z q IH]; [done|]. cbn in *. destruct Q5 as [(j & Hj & Ej) Q5]. split; [|by apply IH]. exists j. rewrite lookup_insert_ne; [done|congruence].
  - intros y. destruct (decide (y = t)) as [->|Hyt].
    + unfold pc_ok. rewrite Ep, upd_eq. exists i. rewrite Ei, lookup_insert. by case_decide.
    + apply (pc_ok_frame M s s' q q y (Hpc y)); [by rewrite Ep, upd_ne|by rewrite Es|]. intros z Hz. rewrite Ei, lookup_insert_ne; [done|]. intros ->. by apply (Hno y).
  - intros y iy. rewrite Ei. destruct (decide (y = w)) as [->|Hne].
    + rewrite lookup_insert. case_decide; [|done]. intros [= <-]. pose proof (Z0 KC). pose proof (Z0 KH). pose proof (Z0 K1). pose proof (Z0 K2).
      pose proof (Z0 K3). pose proof (Z0 K4). pose proof (Z0 KD). split; [split; cbn; lia|cbn; change (cpu_count 0) with 0; lia| |].
      * left. cbn. split_and!; done || lia.
      * right. left. split_and!; done || lia.
    + rewrite lookup_insert_ne by congruence. intros Hy. apply (item_frame M T HT s s' q q t (D_insert w only) y iy); try done; [by apply Hit|by rewrite Hp|cbn; congruence].
  - eapply (lock_frame M T); try done; by rewrite ?Hp.
Qed.
Lemma activate_step s q t : dinv s q -> t ∈ T -> d_start_seqid s t = 0 -> dinv (activateCPU s t) q.
Proof using HT HM HN.
  intros D Ht Hst. pose proof D as [[K Hs] [Q1 Q2 Q3 Q4 Q5] Hpc Hit Hl]. pose proof (seq_small M T HN s K Hs) as HK. destruct Hs as [S1 S2 S3 S4 S5 S6 S7 S8].
  destruct (packed (K + 1) (K + 1) ltac:(lia) ltac:(split; lia)) as (W1 & W2 & W3).
  assert (E : u64 (d_cpuSeq s + 1 + Z.shiftl 1 32) = (K + 1) * 2 ^ 32 + (K + 1)).
  { rewrite S1. change (Z.shiftl 1 32) with (2 ^ 32). replace (K * 2 ^ 32 + K + 1 + 2 ^ 32) with ((K + 1) * 2 ^ 32 + (K + 1)) by lia. by apply wrap_small. }
  assert (Hp : d_pc s t = D_out) by (by apply S5).
  assert (Es : d_start_seqid (activateCPU s t) = upd (d_start_seqid s) t (K + 1)).
  { unfold activateCPU. cbn [d_start_seqid]. rewrite E. change (Z.shiftr ?x 32) with (cpu_count x). by rewrite W2. }
  assert (Ec : d_cpuSeq (activateCPU s t) = (K + 1) * 2 ^ 32 + (K + 1)) by (unfold activateCPU; cbn [d_cpuSeq]; by rewrite E).
  split; [|done| | |done].
  - exists (K + 1). split; rewrite ?Es; try done.
    + lia.
    + intros x. destruct (decide (x = t)) as [->|Hne]; [rewrite upd_eq; lia|rewrite upd_ne by done; specialize (S3 x); lia].
    + destruct (decide (M = t)) as [->|Hne]; [lia|by rewrite upd_ne].
    + intros x. cbn [d_pc]. destruct (decide (x = t)) as [->|Hne]; [done|rewrite upd_ne by done; apply S5].
    + intros x. destruct (decide (x = t)) as [->|Hne]; [done|rewrite upd_ne by done; apply S6].
    + intros j Hj. destruct (decide (j = K + 1)) as [->|Hne].
      * rewrite (tally_set (fun x => (1 <=? d_start_seqid s x) && (d_start_seqid s x <=? K)) _ T t HT Ht).
        -- rewrite S7, Hst, upd_eq by lia. replace ((1 <=? K + 1) && (K + 1 <=? K + 1)) with true by (symmetry; apply andb_true_iff; rewrite !Z.leb_le; lia). cbn. lia.
        -- intros x Hx. rewrite upd_ne by done. specialize (S3 x). f_equal. destruct (_ <=? K) eqn:E1, (_ <=? K + 1) eqn:E2; b2p; done || lia.
      * rewrite (tally_set (fun x => (1 <=? d_start_seqid s x) && (d_start_seqid s x <=? j)) _ T t HT Ht).
        -- rewrite S7, Hst, upd_eq by lia. replace (K + 1 <=? j) with false by (symmetry; apply Z.leb_gt; lia). rewrite andb_false_r. cbn. lia.
        -- intros x Hx. by rewrite upd_ne by done.
    + intros w i Hi. specialize (S8 w i Hi). lia.
  - intros x. specialize (Hpc x). unfold pc_ok in *. rewrite Es. cbn [activateCPU d_pc d_items]. destruct (decide (x = t)) as [->|Hne]; [by rewrite Hp in *|by rewrite upd_ne].
  - intros w i Hi. by destruct (Hit w i Hi).
Qed.

Lemma init_ok : dinv (d_init M) [].
Proof using HT HM.
  split; [|split; try done|done|done|done].
  - exists 1. split; try done; cbn [d_init d_start_seqid d_pc].
    + intros t. destruct (t =? M); lia.
    + by rewrite Z.eqb_refl.
    + intros t. by destruct (t =? M) eqn:E; b2p; intros; subst.
    + intros j Hj. rewrite (tally_set (fun _ => false) _ T M HT HM).
      * rewrite tally_none by done. rewrite Z.eqb_refl. cbn. destruct (decide (j = 0)) as [->|]; [done|]. by replace j with 1 by lia.
      * intros x Hx. by rewrite (proj2 (Z.eqb_neq x M) Hx).
  - constructor.
Qed.

(** ** Every step *)

Lemma run_ok s q t : dinv s q -> exists s' q', run M t s = Done s' /\ dinv s' q'.
Proof using HT HM HN.
  intros D. destruct (d_pc s t) eqn:Hp.
  - exists s, q. unfold run. by rewrite Hp.
  - by eapply run_insert.
  - destruct (run_read M T HT HM s q t D Hp) as (s' & ?). by exists s', q.
  - edestruct run_cas as (s' & ?); try eassumption. by exists s', q.
  - edestruct run_start as (s' & ?); try eassumption. by exists s', q.
  - edestruct run_bar1 as (s' & ?); try eassumption. by exists s', q.
  - edestruct run_spin1 as (s' & ?); try eassumption. by exists s', q.
  - edestruct run_pre as (s' & ?); try eassumption. by exists s', q.
  - edestruct run_prework as (s' & ?); try eassumption. by exists s', q.
  - edestruct run_main as (s' & ?); try eassumption. by exists s', q.
  - edestruct run_bar2 as (s' & ?); try eassumption. by exists s', q.
  - edestruct run_spin2 as (s' & ?); try eassumption. by exists s', q.
  - edestruct run_post as (s' & ?); try eassumption. by exists s', q.
  - edestruct run_postwork as (s' & ?); try eassumption. by exists s', q.
  - edestruct run_pop as (s' & q' & ?); try eassumption. by exists s', q'.
  - edestruct run_clear as (s' & ?); try eassumption. by exists s', q.
  - edestruct run_wait as (s' & ?); try eassumption. by exists s', q.
  - edestruct run_rel as (s' & ?); try eassumption. by exists s', q.
  - edestruct run_clean as (s' & ?); try eassumption. by exists s', q.
  - edestruct run_delete as (s' & ?); try eassumption. by exists s', q.
Qed.

Lemma reach_ok s : d_reach M T s -> exists q, dinv s q.
Proof using HT HM HN.
  induction 1 as [|s s' _ [q D] [t Ht Hst|t w only Ht Hst Hp Hw Hn|t Ht Hst Hp|t s2 Ht Hr]].
  - exists []. apply init_ok.
  - exists q. by apply activate_step.
  - exists q. by apply new_item.
  - exists q. eapply (step_none M T HT HM s _ q t D_read); try done. by rewrite Hp.
  - destruct (run_ok s q t D) as (s1 & q1 & E1 & D1). exists q1. congruence.
Qed.
End steps.
