(* ===== verification/DeferredClaims.v ===== *)
(** * Deferred work: safety and progress

    No step of a processor uses an item that was deleted, the master's work runs
    while the processors that were active wait, and the processors inside the
    work items never all wait for each other. *)

From stdpp Require Import gmap.
From S2P Require Import Prelude Deferred DeferredInv DeferredSafe DeferredQueue.

Lemma tally_gap {A} (f g : A -> bool) (l : list A) : tally g l < tally f l -> exists x, x ∈ l /\ f x = true /\ g x = false.
Proof.
  induction l as [|x l IH]; cbn; [lia|]. intros H. destruct (f x) eqn:Ef, (g x) eqn:Eg; [|by exists x; split; [left|]| |];
    (destruct IH as (y & Hy & P); [lia|]; exists y; by split; [right|]).
Qed.

Section claims.
Variables (M : Z) (T : list Z).
Hypothesis HT : NoDup T.
Hypothesis HM : M ∈ T.
Hypothesis HN : Z.of_nat (length T) < 2 ^ 31.
Implicit Types (s : dsys) (q : list Z) (i : DeferredWork).
Notation c k s w := (cnt T k (d_pc s) w).
Notation nin := (nin T).
Notation dinv := (dinv M T).

(** A processor that spins or has nothing to do. *)
Definition blocked s (t : Z) : bool :=
  match d_pc s t with
  | D_out => true
  | D_insert _ _ | D_pop _ => d_lock s
  | D_spin1 w e | D_spin2 w e => match d_items s !! w with Some i => iv_event i =? e | None => false end
  | D_pre w _ => negb (t =? M) && match d_items s !! w with Some i => negb (iv_releasePre i) | None => false end
  | D_post w _ => negb (t =? M) && match d_items s !! w with Some i => negb (iv_releasePost i) | None => false end
  | D_wait w o => match d_items s !! w with Some i => negb (cpu_count (iv_cpus_and_next i) =? o) | None => false end
  | _ => false
  end.

Lemma unblocked_moves s q t : dinv s q -> blocked s t = false -> exists s', run M t s = Done s' /\ s' <> s.
Proof using HT HM HN.
  intros D Hb. destruct (run_ok M T HT HM HN s q t D) as (s' & _ & E & _). exists s'. split; [done|].
  assert (G : d_pc s' t <> d_pc s t); [|congruence]. unfold blocked in Hb. unfold run, item in E.
  destruct (d_pc s t) eqn:Hp; try done; rewrite ?Hb in E; cbn [obind] in E.
  all: try (apply obind_Done in E as (s1 & Es1 & E)).
  all: repeat case_match; simplify_eq; cbn; rewrite ?upd_eq; try done; try congruence. all: apply negb_false_iff in Hb; cbn in *; rewrite ?Hb in *; simplify_eq; cbn; by rewrite upd_eq.
Qed.

Lemma somebody k s w : 1 <= c k s w -> exists x, x ∈ T /\ at_place k w (d_pc s x) = true.
Proof.
  intros H. destruct (tally_gap (fun x => at_place k w (d_pc s x)) (fun _ => false) T) as (x & Hx & H1 & _).
  - rewrite tally_none by done. unfold cnt in H. lia.
  - by exists x.
Qed.

Lemma at_place_item k w p : at_place k w p = true -> pc_item p = Some w /\ kind_of p = Some k.
Proof.
  unfold at_place. intros [H1%points_to_spec H2]%andb_true_iff. split; [done|]. destruct (kind_of p) as [k'|]; [|done]. by destruct k, k'.
Qed.

(** Nobody waits in an item that the master has released. *)
Lemma released_moves s q x w i : dinv s q -> visit M T s q x w i -> pc_item (d_pc s x) = Some w -> staying (d_pc s x) = true ->
  iv_releasePost i = true -> blocked s x = false.
Proof.
  intros D V Hp Hst Hpost. destruct V as [V1 V2 V3 V4 V5 [Wd Wc Wb Wp] V7 V8 V9].
  assert (B : iv_event i = 2 /\ iv_releasePre i = true) by (unfold barrier_ok in Wb; destruct Wb as [Wb|[Wb|Wb]]; destruct_and? Wb; congruence || done).
  destruct B as [B1 B2]. unfold blocked. destruct (d_pc s x); cbn in Hp, V4; simplify_eq; rewrite ?V3, ?B1, ?B2, ?Hpost, ?andb_false_r; try done.
  all: destruct_and? V4; subst; congruence || done.
Qed.

(** In the queue's first item or in one taken off it by the master. *)
Lemma master_item s q w i : visit M T s q M w i -> inside w (d_pc s M) = true -> popped (d_pc s M) = false -> iv_releasePost i = false -> hd 0 q = w /\ w ∈ q.
Proof.
  intros V Hin Hpo Hpost. pose proof (nin_one T s w M (visit_in _ _ _ _ _ _ _ V) Hin). pose proof (item_place _ _ _ _ _ _ (visit_ok _ _ _ _ _ _ _ V)) as Wp.
  unfold place_ok in Wp. destruct Wp as [Wp|[Wp|[Wp|Wp]]].
  - destruct Wp as (A1 & A2 & A3 & A4 & A5). split; [|done]. destruct (decide (hd 0 q = w)) as [|Hne]; [done|]. destruct (A5 Hne). lia.
  - exfalso. destruct_and? Wp. lia.
  - exfalso. destruct Wp as (_ & _ & _ & _ & Wp). by apply (popping_ne M T s M w i Wp).
  - destruct_and? Wp. congruence.
Qed.

(** Who is counted in the master's item but not in it waits for nothing. *)
Lemma elsewhere_moves s q x w : dinv s q -> hd 0 q = w -> (popped (d_pc s M) = false) -> d_lock s = false -> d_pc s x <> D_out ->
  pc_item (d_pc s x) <> Some w -> blocked s x = false.
Proof using HT HM HN.
  intros D Hhd Hpo Hl Hout Hx. destruct (pc_item (d_pc s x)) as [w'|] eqn:Ep.
  - destruct (at_item M T HN s q x w' D Ep) as [i V]. destruct (staying (d_pc s x)) eqn:Es.
    + destruct (staying_places w' _ Ep Es) as (_ & _ & A3). destruct (iv_releasePost i) eqn:Hpost; [by eapply released_moves|].
      assert (G : 1 <= c KH s w' + nin s w').
      { pose proof (cnt_pos T KH (d_pc s) w'). pose proof (tally_bounds (fun t => inside w' (d_pc s t)) T : 0 <= nin s w' <= _).
        destruct (inside w' (d_pc s x)) eqn:Ei; [pose proof (nin_one T s w' x (visit_in _ _ _ _ _ _ _ V) Ei); lia|].
        destruct (at_place KH w' (d_pc s x)) eqn:Eh; [pose proof (cnt_one T KH s w' x (visit_in _ _ _ _ _ _ _ V) Eh); lia|cbn in A3; lia]. }
      pose proof (item_place _ _ _ _ _ _ (visit_ok _ _ _ _ _ _ _ V)) as Wp. unfold place_ok in Wp. exfalso. destruct Wp as [Wp|[Wp|[Wp|Wp]]].
      * destruct Wp as (_ & _ & _ & _ & A5). destruct A5 as [? ?]; [congruence|lia].
      * destruct_and? Wp. lia.
      * destruct Wp as (_ & _ & _ & _ & Wp). unfold popping in Wp. destruct (d_pc s M) eqn:EM; try done.
      * destruct_and? Wp. congruence.
    + unfold blocked. unfold staying in Es. destruct (d_pc s x) eqn:Hp; try done; try (by destruct a).
      pose proof (visit_knows _ _ _ _ _ _ _ V) as Kn. rewrite Hp in Kn. cbn in Kn. destruct Kn as (_ & -> & _). by rewrite Hp in Hpo.
  - unfold blocked. by destruct (d_pc s x).
Qed.

(** The master waits in a barrier: somebody that has not arrived moves. *)
Lemma barrier_moves s q w i : dinv s q -> visit M T s q M w i -> pc_item (d_pc s M) = Some w ->
  (forall x, x ∈ T -> d_start_seqid s x <> 0 -> d_pc s x <> D_out) -> blocked s M = true ->
  match d_pc s M with D_spin1 _ _ | D_spin2 _ _ => True | _ => False end -> exists x, blocked s x = false.
Proof using HT HM HN.
  intros D V Hi Hall Hb Hm. pose proof (inv_lock M T s q D) as Hl.
  assert (Hl' : d_lock s = false) by (rewrite Hl; by destruct (d_pc s M)). pose proof (visit_knows _ _ _ _ _ _ _ V) as Kn. pose proof (visit_seq _ _ _ _ _ _ _ V) as (Vc & _ & _).
  pose proof (visit_item _ _ _ _ _ _ _ V) as Ew. pose proof (item_barrier _ _ _ _ _ _ (visit_ok _ _ _ _ _ _ _ V)) as Wb. unfold barrier_ok in Wb.
  unfold blocked in Hb. destruct (d_pc s M) eqn:Hp; try done; cbn in Hi, Kn; simplify_eq; rewrite Ew in Hb; b2p; destruct Kn as (Kc & Kpost & Kn).
  - destruct Kn as [Kpre ->]. assert (B : c K2 s w = 0 /\ c K1 s w < iv_activeSeqId i) by (destruct Wb as [Wb|[Wb|Wb]]; destruct_and? Wb; lia || (split; lia)).
    destruct B as [B2 B1]. destruct (master_item s q w i V) as [Hhd _]; [rewrite Hp; by apply inside_at|by rewrite Hp|by apply Kpost|].
    destruct (inv_seq M T s q D) as [K Hs]. destruct (seq_items M T s K Hs w i Ew) as (_ & Hk & _).
    destruct (tally_gap (fun x => (1 <=? d_start_seqid s x) && (d_start_seqid s x <=? iv_activeSeqId i)) (fun x => at_place K1 w (d_pc s x)) T) as (x & Hx & H1 & H2).
    { rewrite (seq_tally M T s K Hs) by lia. exact B1. }
    apply andb_true_iff in H1. rewrite !Z.leb_le in H1. exists x. specialize (Hall x Hx ltac:(lia)). destruct (decide (pc_item (d_pc s x) = Some w)) as [Hxw|Hxw].
    + destruct (at_item M T HN s q x w D Hxw) as [i' V']. pose proof (visit_item _ _ _ _ _ _ _ V') as Ew'. assert (i' = i) as -> by congruence.
      pose proof (visit_knows _ _ _ _ _ _ _ V') as Kx.
      assert (C2 : at_place K2 w (d_pc s x) = false) by (destruct (at_place K2 w (d_pc s x)) eqn:E; [pose proof (cnt_one T K2 s w x Hx E); lia|done]).
      specialize (Kpre eq_refl). unfold at_place, points_to in H2, C2. unfold blocked.
      destruct (d_pc s x) eqn:Hpx; cbn in Hxw, H2, C2, Kx; simplify_eq; rewrite ?Z.eqb_refl, ?Ew in *; try done; cbn in *.
      all: try (destruct_and? Kx; subst; by rewrite ?Hb || congruence).
      destruct a; [done|]. destruct Kx as [Kx _]. assert (false = true) by (apply Kx; unfold counted_in; lia). done.
    + apply (elsewhere_moves s q x w); try done. by rewrite Hp.
  - destruct Kn as [Kpre ->]. assert (B : 1 <= c K1 s w \/ 1 <= c K2 s w) by (destruct Wb as [Wb|[Wb|Wb]]; destruct_and? Wb; lia).
    destruct B as [B|B]; destruct (somebody _ s w B) as (x & Hx & Hat); pose proof (at_place_item _ _ _ Hat) as [P1 P2]; exists x;
      destruct (at_item M T HN s q x w D P1) as [i' V']; pose proof (visit_item _ _ _ _ _ _ _ V') as Ew'; (assert (i' = i) as -> by congruence);
      pose proof (visit_knows _ _ _ _ _ _ _ V') as Kx; unfold blocked; destruct (d_pc s x) eqn:Hpx; cbn in P1, P2, Kx; try done; try (by destruct a);
      simplify_eq; rewrite ?Ew; destruct_and? Kx; subst; rewrite ?Hb, ?Kpre, ?andb_false_r; done.
Qed.

(** At the master's pre-work: those active at the item's creation wait behind
    or in the first barrier. *)
Lemma prework_waits s q w a x i : dinv s q -> d_pc s M = D_prework w a -> d_items s !! w = Some i -> counted_in (d_start_seqid s x) i ->
  d_pc s x = D_spin1 w 0 \/ d_pc s x = D_pre w true \/ d_pc s x = D_prework w true.
Proof using HT HM HN.
  intros D Hp Hi Hc. destruct (at_item M T HN s q M w D ltac:(by rewrite Hp)) as [i' V]. pose proof (visit_item _ _ _ _ _ _ _ V) as Hi'. assert (i' = i) as -> by congruence.
  pose proof (visit_knows _ _ _ _ _ _ _ V) as Kn. rewrite Hp in Kn. destruct Kn as (Ka & _ & Kpost & Kpre). pose proof (visit_seq _ _ _ _ _ _ _ V) as (Vc & _ & _).
  assert (a = true) as -> by (apply Ka, V). pose proof (item_barrier _ _ _ _ _ _ (visit_ok _ _ _ _ _ _ _ V)) as Wb. destruct (active_le M T s q w i D Hi) as [Ac Ac'].
  assert (H2 : 1 <= c K2 s w) by (apply (cnt_one T K2 s w M HM); unfold at_place, points_to; rewrite Hp; cbn; by rewrite Z.eqb_refl).
  pose proof (cnt_pos T K0 (d_pc s) w). pose proof (cnt_pos T K3 (d_pc s) w). pose proof (cnt_pos T K4 (d_pc s) w).
  assert (B : c K1 s w + c K2 s w + c K3 s w = iv_activeSeqId i /\ c K4 s w = 0 /\ c K0 s w = 0).
  { unfold barrier_ok in Wb. destruct Wb as [Wb|[Wb|Wb]]; destruct_and? Wb; [lia| |congruence]. split_and!; lia. }
  assert (Hx : x ∈ T). { destruct (inv_seq M T s q D) as [K Hs]. apply (seq_in M T s K Hs). unfold counted_in in Hc. lia. }
  destruct (active_in w (d_pc s x)) eqn:Ea; [|specialize (Ac' x Hx Hc Ea); lia].
  pose proof Ea as [Ep%points_to_spec Ek]%andb_true_iff. destruct (at_item M T HN s q x w D Ep) as [i' V']. pose proof (visit_item _ _ _ _ _ _ _ V') as Ew'.
  assert (i' = i) as -> by congruence. pose proof (visit_knows _ _ _ _ _ _ _ V') as Kx.
  assert (C0 : at_place K0 w (d_pc s x) = false) by (destruct (at_place K0 w (d_pc s x)) eqn:E; [pose proof (cnt_one T K0 s w x Hx E); lia|done]).
  assert (C4 : at_place K4 w (d_pc s x) = false) by (destruct (at_place K4 w (d_pc s x)) eqn:E; [pose proof (cnt_one T K4 s w x Hx E); lia|done]).
  unfold at_place in C0, C4. destruct (d_pc s x) eqn:Hpx; cbn in Ep, Ek, Kx; simplify_eq; try done; try (by destruct_and? Kx; congruence);
    unfold points_to in C0, C4; cbn in C0, C4; rewrite ?Z.eqb_refl in C0, C4; try done.
  - destruct_and? Kx. subst. by left.
  - destruct a; [|done]. right. by left.
  - destruct a; [|done]. right. by right.
Qed.

(** At the master's post-work: they have finished the main work. *)
Lemma postwork_waits s q w x i : dinv s q -> d_pc s M = D_postwork w -> d_items s !! w = Some i -> counted_in (d_start_seqid s x) i ->
  d_pc s x = D_spin2 w 1 \/ d_pc s x = D_post w true \/ d_pc s x = D_postwork w.
Proof using HT HM HN.
  intros D Hp Hi Hc. destruct (at_item M T HN s q M w D ltac:(by rewrite Hp)) as [i' V]. pose proof (visit_item _ _ _ _ _ _ _ V) as Hi'. assert (i' = i) as -> by congruence.
  pose proof (visit_knows _ _ _ _ _ _ _ V) as Kn. rewrite Hp in Kn. destruct Kn as (Ka & _ & Kpost & Kpre). pose proof (visit_seq _ _ _ _ _ _ _ V) as (Vc & _ & _).
  pose proof (item_barrier _ _ _ _ _ _ (visit_ok _ _ _ _ _ _ _ V)) as Wb. destruct (active_le M T s q w i D Hi) as [Ac Ac'].
  assert (H4 : 1 <= c K4 s w) by (apply (cnt_one T K4 s w M HM); unfold at_place, points_to; rewrite Hp; cbn; by rewrite Z.eqb_refl).
  assert (B : c K0 s w = 0 /\ c K1 s w = 0 /\ c K2 s w = 0 /\ c K3 s w + c K4 s w = iv_activeSeqId i).
  { unfold barrier_ok in Wb. destruct Wb as [Wb|[Wb|Wb]]; [lia|lia|]. destruct Wb as (_ & _ & B1 & B2 & B3 & _ & B4). specialize (B4 Kpost). split_and!; lia. }
  assert (Hx : x ∈ T). { destruct (inv_seq M T s q D) as [K Hs]. apply (seq_in M T s K Hs). unfold counted_in in Hc. lia. }
  destruct (active_in w (d_pc s x)) eqn:Ea; [|specialize (Ac' x Hx Hc Ea); lia].
  pose proof Ea as [Ep%points_to_spec Ek]%andb_true_iff. destruct (at_item M T HN s q x w D Ep) as [i' V']. pose proof (visit_item _ _ _ _ _ _ _ V') as Ew'.
  assert (i' = i) as -> by congruence. pose proof (visit_knows _ _ _ _ _ _ _ V') as Kx.
  assert (Cz : forall k, c k s w = 0 -> at_place k w (d_pc s x) = false).
  { intros k Hk. destruct (at_place k w (d_pc s x)) eqn:E; [pose proof (cnt_one T k s w x Hx E); lia|done]. }
  destruct_and? B. pose proof (Cz K0 ltac:(done)) as C0. pose proof (Cz K1 ltac:(done)) as C1. pose proof (Cz K2 ltac:(done)) as C2.
  unfold at_place in C0, C1, C2. destruct (d_pc s x) eqn:Hpx; cbn in Ep, Ek, Kx; simplify_eq; try done;
    unfold points_to in C0, C1, C2; cbn in C0, C1, C2; rewrite ?Z.eqb_refl in C0, C1, C2; try done; try (by destruct a).
  - destruct_and? Kx. subst. by left.
  - destruct a; [|done]. right. by left.
  - right. by right.
  - destruct Kx as (_ & -> & _). congruence.
  - destruct Kx as (_ & -> & _). congruence.
  - destruct Kx as (_ & -> & _). congruence.
  - destruct Kx as (_ & -> & _). congruence.
Qed.

(** C13: in every reachable state no step of a processor uses a work item that
    was deleted or fails the assertion of its destructor; only the master runs
    the pre-work and the post-work; while it runs the pre-work all processors
    that were active when the item was created wait in the first barrier or
    behind it and nobody runs the item's main work; the main work runs after
    the pre-work; the post-work runs when all those processors have finished
    the main work. *)
Theorem deferred_safe s : d_reach M T s ->
  (forall t, exists s', run M t s = Done s') /\
  (forall t w a, d_pc s t = D_prework w a \/ d_pc s t = D_postwork w -> t = M) /\
  (forall w a, d_pc s M = D_prework w a -> exists i, d_items s !! w = Some i /\ (forall x b, d_pc s x <> D_main w b) /\
     forall x, 1 <= d_start_seqid s x <= iv_activeSeqId i -> d_pc s x = D_spin1 w 0 \/ d_pc s x = D_pre w true \/ d_pc s x = D_prework w true) /\
  (forall t w a, d_pc s t = D_main w a -> exists i, d_items s !! w = Some i /\ iv_releasePre i = true) /\
  (forall w, d_pc s M = D_postwork w -> exists i, d_items s !! w = Some i /\
     forall x, 1 <= d_start_seqid s x <= iv_activeSeqId i -> d_pc s x = D_spin2 w 1 \/ d_pc s x = D_post w true \/ d_pc s x = D_postwork w).
Proof using HT HM HN.
  intros R. destruct (reach_ok M T HT HM HN s R) as [q D].
  assert (At : forall t w p, d_pc s t = p -> pc_item p = Some w -> exists i, d_items s !! w = Some i /\ knows M t (d_start_seqid s t) i p).
  { intros t w p <- Hi. destruct (at_item M T HN s q t w D Hi) as [i V]. exists i. split; apply V. }
  split_and!.
  - intros t. destruct (run_ok M T HT HM HN s q t D) as (s' & _ & E & _). by exists s'.
  - intros t w a [H|H]; destruct (At _ w _ H eq_refl) as (i & _ & K); apply K.
  - intros w a H. destruct (At _ w _ H eq_refl) as (i & Hi & _ & _ & _ & K). exists i. split_and!; [done| |intros x Hx; by eapply prework_waits].
    intros x b Hx. destruct (At _ w _ Hx eq_refl) as (j & Hj & _ & _ & Kj). congruence.
  - intros t w a H. destruct (At _ w _ H eq_refl) as (i & Hi & _ & _ & K). by exists i.
  - intros w H. destruct (At _ w _ H eq_refl) as (i & Hi & _). exists i. split; [done|]. intros x Hx. by eapply postwork_waits.
Qed.

(** C14: the processors that are in [insert] or [execute] never all wait for each
    other: when every processor that has started is inside, one of them has a
    step that changes the state. *)
Theorem deferred_progress s : d_reach M T s -> (forall x, x ∈ T -> d_start_seqid s x <> 0 -> d_pc s x <> D_out) ->
  exists t s', run M t s = Done s' /\ s' <> s.
Proof using HT HM HN.
  intros R Hall. destruct (reach_ok M T HT HM HN s R) as [q D]. enough (exists t, blocked s t = false) as [t Hb].
  { exists t. by eapply unblocked_moves. }
  destruct (blocked s M) eqn:Hb; [|by exists M]. destruct (inv_seq M T s q D) as [K Hs].
  assert (Hout : d_pc s M <> D_out) by (apply (Hall M HM); by rewrite (seq_master M T s K Hs)).
  pose proof (inv_lock M T s q D) as Hl. destruct (pc_item (d_pc s M)) as [w|] eqn:Hi.
  - destruct (at_item M T HN s q M w D Hi) as [i V]. destruct (d_pc s M) eqn:Hp; unfold blocked in Hb; rewrite Hp in Hb; try done; try (by rewrite Hl in Hb);
      try (by rewrite Z.eqb_refl in Hb).
    + eapply barrier_moves; try done; rewrite ?Hp; try done. by unfold blocked; rewrite Hp.
    + eapply barrier_moves; try done; rewrite ?Hp; try done. by unfold blocked; rewrite Hp.
    + cbn in Hi. injection Hi as ->. rewrite (visit_item _ _ _ _ _ _ _ V) in Hb. apply negb_true_iff in Hb. b2p.
      pose proof (visit_knows _ _ _ _ _ _ _ V) as Kn. rewrite Hp in Kn. destruct Kn as (_ & _ & Kpost & _).
      destruct (removing M T s q w i V) as (_ & _ & Po); rewrite ?Hp; try done; [by apply V; rewrite Hp|by apply inside_at|].
      unfold popping in Po. rewrite Hp in Po. destruct Po as (_ & Po & _). rewrite (item_count _ _ _ _ _ _ (visit_ok _ _ _ _ _ _ _ V)) in Hb.
      pose proof (cnt_pos T KH (d_pc s) w). destruct (somebody KH s w ltac:(lia)) as (x & _ & Hx). apply at_place_item in Hx as [_ Hx]. exists x.
      unfold blocked. destruct (d_pc s x); try done; by destruct a.
  - unfold blocked in Hb. by destruct (d_pc s M).
Qed.
End claims.

(** ** Runs *)

Inductive act : Type := Activate (t : Z) | New (t w : Z) (only : bool) | Execute (t : Z) | Run (t : Z).

(** One step of the machine, if its guard holds. *)
Definition do_act (M : Z) (T : list Z) (s : dsys) (a : act) : option dsys :=
  match a with
  | Activate t => if bool_decide (t ∈ T) && (d_start_seqid s t =? 0) then Some (activateCPU s t) else None
  | New t w only =>
      if bool_decide (t ∈ T) && negb (d_start_seqid s t =? 0) && bool_decide (d_pc s t = D_out) && (0 <? w) && (w <? 2 ^ 32) &&
         bool_decide (d_items s !! w = None)
      then Some (goto (put_item s w (new_work (d_cpuSeq s))) t (D_insert w only)) else None
  | Execute t => if bool_decide (t ∈ T) && negb (d_start_seqid s t =? 0) && bool_decide (d_pc s t = D_out) then Some (goto s t D_read) else None
  | Run t => if bool_decide (t ∈ T) then match run M t s with Done s => Some s | _ => None end else None
  end.

Fixpoint do_acts (M : Z) (T : list Z) (s : dsys) (l : list act) : option dsys :=
  match l with [] => Some s | a :: l => match do_act M T s a with Some s => do_acts M T s l | None => None end end.

Lemma do_acts_reach M T l s s' : d_reach M T s -> do_acts M T s l = Some s' -> d_reach M T s'.
Proof.
  revert s. induction l as [|a l IH]; intros s R; cbn; [by intros [= <-]|]. destruct (do_act M T s a) as [s1|] eqn:E; [|done]. apply IH.
  eapply d_reach_step; [exact R|]. destruct a; cbn in E; repeat case_match; simplify_eq; b2p; repeat match goal with H : _ /\ _ |- _ => destruct H end;
    repeat match goal with H : bool_decide _ = true |- _ => apply bool_decide_eq_true in H end; econstructor; eauto.
Qed.

(** Two processors meet at an item; the master is at its pre-work. *)
Definition meeting : list act :=
  [Activate 1; New 0 4096 false; Run 0; Execute 0; Run 0; Run 0; Run 0; Run 0; Execute 1; Run 1; Run 1; Run 1; Run 1; Run 0; Run 0].

Definition met : dsys := default (d_init 0) (do_acts 0 [0; 1] (d_init 0) meeting).

Lemma met_reach : d_reach 0 [0; 1] met.
Proof. apply (do_acts_reach 0 [0; 1] meeting (d_init 0)); [constructor|vm_compute; reflexivity]. Qed.

Lemma two_nodup : NoDup [0; 1].
Proof. apply NoDup_cons. split; [rewrite list_elem_of_singleton; discriminate|apply NoDup_singleton]. Qed.

(** The item is gone in the end. *)
Example meeting_ends :
  match do_acts 0 [0; 1] met (repeat (Run 0) 12 ++ repeat (Run 1) 6 ++ repeat (Run 0) 12 ++ repeat (Run 1) 6 ++ repeat (Run 0) 3) with
  | Some s => d_head s = 0 /\ d_items s !! 4096 = None /\ d_pc s 0 = D_out /\ d_pc s 1 = D_out
  | None => False
  end.
Proof. vm_compute. repeat split. Qed.

(** A processor that starts between the creation of an item and its insertion
    finds the queue empty and does not wait for the item. *)
Example started_between :
  match do_acts 0 [0; 1] (d_init 0) [New 0 4096 false; Activate 1; Execute 1; Run 1; Run 0; Execute 0; Run 0; Run 0; Run 0; Run 0; Run 0] with
  | Some s => d_pc s 0 = D_prework 4096 true /\ d_start_seqid s 1 = 2 /\ d_pc s 1 = D_out
  | None => False
  end.
Proof. vm_compute. repeat split. Qed.

Lemma deferred_safe_witness :
  d_pc met 0 = D_prework 4096 true /\ exists i, d_items met !! 4096 = Some i /\ (forall x b, d_pc met x <> D_main 4096 b) /\
    forall x, 1 <= d_start_seqid met x <= iv_activeSeqId i -> d_pc met x = D_spin1 4096 0 \/ d_pc met x = D_pre 4096 true \/ d_pc met x = D_prework 4096 true.
Proof.
  split; [vm_compute; reflexivity|].
  assert (H0 : 0 ∈ [0; 1]) by (left; done).
  destruct (deferred_safe 0 [0; 1] two_nodup H0 ltac:(vm_compute; reflexivity) met met_reach) as (_ & _ & H & _).
  apply (H 4096 true). vm_compute. reflexivity.
Defined.

Lemma deferred_progress_witness : exists t s', run 0 t met = Done s' /\ s' <> met.
Proof.
  assert (H0 : 0 ∈ [0; 1]) by (left; done).
  apply (deferred_progress 0 [0; 1] two_nodup H0 ltac:(vm_compute; reflexivity) met met_reach).
  intros x [-> | [-> | []%elem_of_nil]%elem_of_cons]%elem_of_cons _; vm_compute; discriminate.
Defined.
