(* ===== verification/Bignum.v ===== *)
(** * Big numbers of the signature check ([src/securerom/ecverify.C])

    Numbers of [NWORDS] words of 64 bits, the most significant first, as the
    build of the ROM has them: [BN_POWER64_MUL], [BN_POWER64_CMP],
    [EC_POWER64_RED] and [EC_POWER64_ALG] are defined, so products and reductions
    are the sequences of machine instructions, and [EC_ASSERT] is empty.  A loop
    from the least significant word on is a recursion that works on the way
    back. *)

From S2P Require Import Prelude.

Implicit Types (a b r : list Z).

(** ** Instructions *)

(** [mulld], [mulhdu]; [addc], [addze] with the carry. *)
Definition mulld (x y : Z) : Z := u64 (x * y).
Definition mulhdu (x y : Z) : Z := Z.shiftr (x * y) 64.
Definition addc (x y : Z) : Z * Z := (u64 (x + y), Z.shiftr (x + y) 64).
Definition addze (x ca : Z) : Z * Z := addc x ca.

(** ** Constants *)

Definition BN_BITS : Z := 64.
Definition NWORDS : nat := 9.
Definition EC_PRIMEBITS : Z := 521.
Definition BN_PRIME_MSW_MASK : Z := 0x1ff.
Definition BN_PRIME_MSW_BITS : Z := EC_PRIMEBITS mod BN_BITS.
Definition BN_MSW_UNUSED_BITS : Z := BN_BITS - BN_PRIME_MSW_BITS.
Definition BN_MSW_UNUSED_MASK : Z := Z.shiftl 1 BN_MSW_UNUSED_BITS - 1.

Definition ec_prime : list Z :=
  [0x1ff; 0xffffffffffffffff; 0xffffffffffffffff; 0xffffffffffffffff; 0xffffffffffffffff;
   0xffffffffffffffff; 0xffffffffffffffff; 0xffffffffffffffff; 0xffffffffffffffff].
Definition ec_order : list Z :=
  [0x00000000000001ff; 0xffffffffffffffff; 0xffffffffffffffff; 0xffffffffffffffff; 0xfffffffffffffffa;
   0x51868783bf2f966b; 0x7fcc0148f709a5d0; 0x3bb5c9b8899c47ae; 0xbb6fb71e91386409].
Definition prime_px : list Z :=
  [0x00000000000000c6; 0x858e06b70404e9cd; 0x9e3ecb662395b442; 0x9c648139053fb521; 0xf828af606b4d3dba;
   0xa14b5e77efe75928; 0xfe1dc127a2ffa8de; 0x3348b3c1856a429b; 0xf97e7e31c2e5bd66].
Definition prime_py : list Z :=
  [0x0000000000000118; 0x39296a789a3bc004; 0x5c8a5fb42c7d1bd9; 0x98f54449579b4468; 0x17afbd17273e662c;
   0x97ee72995ef42640; 0xc550b9013fad0761; 0x353c7086a272c240; 0x88be94769fd16650].
Definition ec_order_qn : list Z :=
  [0; 0; 0; 0; 0x0000000000000005; 0xae79787c40d06994; 0x8033feb708f65a2f; 0xc44a36477663b851; 0x449048e16ec79bf6].

(** ** Words *)

Definition bn_clr (s : nat) : list Z := repeat 0 s.

Definition bn_one : list Z := bn_clr (NWORDS - 1) ++ [1].

(** The shift of the upper half of a product; [acc] is the first word of the lower. *)
Fixpoint bn_shl_loop a (acc : Z) : list Z * Z :=
  match a with
  | [] => ([], acc)
  | w :: a =>
      let '(r, acc) := bn_shl_loop a acc in
      (Z.lor (u64 (Z.shiftl w BN_MSW_UNUSED_BITS)) (Z.land BN_MSW_UNUSED_MASK (Z.shiftr acc BN_PRIME_MSW_BITS)) :: r, w)
  end.
Definition bn_shl a (acc : Z) : list Z := (bn_shl_loop a acc).1.

Fixpoint bn_add_loop a b : list Z * Z :=
  match a, b with
  | aw :: a, bw :: b =>
      let '(r, cf) := bn_add_loop a b in
      let '(aw, cf) := if negb (cf =? 0) then (u64 (aw + 1), Z.b2z (u64 (aw + 1) =? 0)) else (aw, cf) in
      let aw := u64 (aw + bw) in
      (aw :: r, Z.lor cf (Z.b2z (aw <? bw)))
  | _, _ => ([], 0)
  end.
Definition bn_add a b : list Z := (bn_add_loop a b).1.

Fixpoint bn_sub_loop a b : list Z * Z :=
  match a, b with
  | aw :: a, bw :: b =>
      let '(r, cf) := bn_sub_loop a b in
      let '(aw, cf) := if negb (cf =? 0) then (u64 (aw - 1), Z.b2z (aw =? 0)) else (aw, cf) in
      (u64 (aw - bw) :: r, Z.lor cf (Z.b2z (aw <? bw)))
  | _, _ => ([], 0)
  end.
(** The difference and the borrow that is returned. *)
Definition bn_sub a b : list Z * Z := bn_sub_loop a b.

Fixpoint bn_cmp a b : Z :=
  match a, b with
  | aw :: a, bw :: b => if negb (aw =? bw) then 1 - Z.shiftl (Z.b2z (aw <? bw)) 1 else bn_cmp a b
  | _, _ => 0
  end.

Definition bn_ge_prime a : bool := 0 <=? bn_cmp a ec_prime.
Definition bn_ge_order a : bool := 0 <=? bn_cmp a ec_order.

(** Byte by byte, without the [mn] least significant words. *)
Fixpoint zero_loop (p2 : list Z) : bool :=
  match p2 with [] => true | b :: p2 => if negb (b =? 0) then (0 - b =? 0) else zero_loop p2 end.
Definition bn_is_zero (m : list Z) (mn : nat) : bool := zero_loop (concat (map (be_split 8) (take (NWORDS - mn) m))).

(** ** Products *)

(** One word [tb] of [b]: the words of [r] under those of [a], and the carry word [th]. *)
Fixpoint mul_row a r (tb : Z) : list Z * Z :=
  match a, r with
  | aw :: a, rw :: r =>
      let '(row, th) := mul_row a r tb in
      let '(pl, ca) := addc (mulld aw tb) rw in
      let ph := (addze (mulhdu aw tb) ca).1 in
      let '(rw, ca) := addc pl th in
      (rw :: row, (addze ph ca).1)
  | _, _ => ([], 0)
  end.

(** The rows from the last word of [b] on: the words that the next row adds to,
    and those that are done. *)
Fixpoint mul_rows a b : list Z * list Z :=
  match b with
  | [] => (bn_clr (length a), [])
  | tb :: b =>
      let '(acc, low) := mul_rows a b in
      let '(row, th) := mul_row a acc tb in
      (th :: removelast row, List.last row 0 :: low)
  end.
Definition bn_mul a b : list Z := let '(acc, low) := mul_rows a b in acc ++ low.

(** ** Reduction by the prime *)

(** [al] and [ah] from the last words on: the sum, and the carry [t0]. *)
Fixpoint modred_loop (ah al : list Z) (t0 : Z) : list Z * Z :=
  match ah, al with
  | h :: ah, l :: al =>
      let '(r, t0) := modred_loop ah al t0 in
      let t1 := u64 (Z.shiftl h 55) in
      let t2 := Z.shiftr h 9 in
      let '(t3, ca) := addc l t0 in
      let t2 := (addze t2 ca).1 in
      let '(r0, ca) := addc t3 t1 in
      (r0 :: r, (addze t2 ca).1)
  | _, _ => ([], t0)
  end.

(** The last round masks [t2]; a word of [a] is named by its index. *)
Definition bn_modred_fast a : list Z :=
  let w i := nth i a 0 in
  let t0 := u64 (Z.shiftr (w 1%nat) 18 + Z.shiftr (w 9%nat) 9) in
  let '(r, t0) := modred_loop (take 7 (drop 2 a)) (take 7 (drop 11 a)) t0 in
  let t1 := u64 (Z.shiftl (w 1%nat) 55) in
  let t2 := Z.land (Z.shiftr (w 1%nat) 9) BN_PRIME_MSW_MASK in
  let '(t3, ca) := addc (w 10%nat) t0 in
  let t2 := (addze t2 ca).1 in
  let '(r1, ca) := addc t3 t1 in
  let t0 := (addze t2 ca).1 in
  u64 (Z.land (w 9%nat) BN_PRIME_MSW_MASK + t0) :: r1 :: r.

(** The carry of [t0] through all words. *)
Fixpoint carry_loop r (ca : Z) : list Z * Z :=
  match r with
  | [] => ([], ca)
  | w :: r => let '(r, ca) := carry_loop r ca in let '(w, ca) := addze w ca in (w :: r, ca)
  end.
Definition bn_modred_slow r : list Z :=
  let msw := hd 0 r in
  let r := if BN_PRIME_MSW_MASK <? msw then (carry_loop (Z.land msw BN_PRIME_MSW_MASK :: tail r) (Z.shiftr msw 9)).1 else r in
  if bn_ge_prime r then (bn_sub r ec_prime).1 else r.

Definition bn_modmul_prime a b : list Z := bn_modred_fast (bn_mul a b).
Definition bn_modsqr_prime a : list Z := bn_modmul_prime a a.

Definition bn_modadd a b : list Z := bn_add a b.
Definition bn_modsub a b : list Z := let '(r, cf) := bn_sub a b in if negb (cf =? 0) then bn_add r ec_prime else r.

(** ** Reduction by the order *)

Definition bn_modred_p521_order a : list Z :=
  let r := bn_shl (take 9 a) (nth 9 a 0) in
  let dbl := bn_mul r ec_order_qn in
  let dbl := bn_shl (take 9 dbl) (nth 9 dbl 0) in
  let r := bn_add r dbl in
  let dbl := bn_mul r ec_order in
  let r := (bn_sub (drop 9 a) (drop 9 dbl)).1 in
  let r := if 0 <=? bn_cmp r ec_order then (bn_sub r ec_order).1 else r in
  if 0 <=? bn_cmp r ec_order then (bn_sub r ec_order).1 else r.
Definition bn_modmul_order a b : list Z := bn_modred_p521_order (bn_mul a b).

(** ** The value of a number *)

Fixpoint val (l : list Z) : Z := match l with [] => 0 | w :: l => w * 2 ^ (64 * Z.of_nat (length l)) + val l end.

(** [n] words. *)
Definition bn (n : nat) (l : list Z) : Prop := length l = n /\ Forall (is_word 64) l.

Lemma bn_cons n w l : bn (S n) (w :: l) <-> is_word 64 w /\ bn n l.
Proof. unfold bn. cbn. rewrite Forall_cons. intuition lia. Qed.

Lemma bn_app n m l l' : bn n l -> bn m l' -> bn (n + m) (l ++ l').
Proof. intros [H1 H2] [H3 H4]. split; [rewrite length_app; lia|by apply Forall_app]. Qed.

Lemma bn_take n m l : bn n l -> (m <= n)%nat -> bn m (take m l).
Proof. intros [H1 H2] H. split; [rewrite length_take; lia|by apply Forall_take]. Qed.

Lemma bn_drop n m l : bn n l -> bn (n - m) (drop m l).
Proof. intros [H1 H2]. split; [rewrite length_drop; lia|by apply Forall_drop]. Qed.

Lemma bn_nth n l i : bn n l -> is_word 64 (nth i l 0).
Proof.
  intros [_ H]. revert i. induction H as [|w l Hw _ IH]; intros [|i]; cbn; done || (split; lia) || auto. Qed.

Lemma pow_pos_64 n : 0 < 2 ^ (64 * Z.of_nat n).
Proof. apply Z.pow_pos_nonneg; lia. Qed.

Lemma pow_succ_64 n : 2 ^ (64 * Z.of_nat (S n)) = 2 ^ 64 * 2 ^ (64 * Z.of_nat n).
Proof. rewrite <-Z.pow_add_r by lia. f_equal. lia. Qed.

Lemma val_bound n l : bn n l -> 0 <= val l < 2 ^ (64 * Z.of_nat n).
Proof.
  revert n. induction l as [|w l IH]; intros [|n] [Hl H]; cbn in Hl; try done.
  apply Forall_cons in H as [[Hw0 Hw1] H]. specialize (IH n ltac:(split; [lia|done])). cbn [val]. replace (length l) with n by lia. rewrite pow_succ_64.
  pose proof (pow_pos_64 n). nia.
Qed.

Lemma val_app l l' : val (l ++ l') = val l * 2 ^ (64 * Z.of_nat (length l')) + val l'.
Proof.
  induction l as [|w l IH]; cbn [app val]; [lia|]. rewrite IH, length_app, Nat2Z.inj_add, Z.mul_add_distr_l, Z.pow_add_r by lia. ring.
Qed.

Lemma val_zeros n : val (bn_clr n) = 0.
Proof. unfold bn_clr. induction n as [|n IH]; cbn; lia. Qed.

Lemma bn_zeros n : bn n (bn_clr n).
Proof. unfold bn_clr, bn. split; [apply repeat_length|]. induction n; constructor; [split; lia|done]. Qed.

Lemma val_split n m l : bn (n + m) l -> val l = val (take n l) * 2 ^ (64 * Z.of_nat m) + val (drop n l).
Proof. intros [Hl _]. rewrite <-(take_drop n l) at 1. rewrite val_app, length_drop. replace (length l - n)%nat with m by lia. done. Qed.

(** ** Sums and differences *)

Lemma carry_word x y : is_word 64 x -> is_word 64 y -> u64 (x + y) + Z.b2z (u64 (x + y) <? y) * 2 ^ 64 = x + y.
Proof.
  intros [H0 H1] [H2 H3]. unfold wrap. destruct (decide (x + y < 2 ^ 64)).
  - rewrite Z.mod_small by lia. replace (x + y <? y) with false by (symmetry; apply Z.ltb_ge; lia). cbn. lia.
  - assert (E : (x + y) mod 2 ^ 64 = x + y - 2 ^ 64) by (symmetry; apply Z.mod_unique with (q := 1); lia). rewrite E.
    replace (x + y - 2 ^ 64 <? y) with true by (symmetry; apply Z.ltb_lt; lia). cbn [Z.b2z]. lia.
Qed.

Lemma borrow_word x y : is_word 64 x -> is_word 64 y -> u64 (x - y) - Z.b2z (x <? y) * 2 ^ 64 = x - y.
Proof.
  intros [H0 H1] [H2 H3]. unfold wrap. destruct (x <? y) eqn:E; b2p; cbn [Z.b2z].
  - assert (Em : (x - y) mod 2 ^ 64 = x - y + 2 ^ 64) by (symmetry; apply Z.mod_unique with (q := -1); lia). lia.
  - rewrite Z.mod_small by lia. lia.
Qed.

Lemma succ_word x : is_word 64 x -> u64 (x + 1) + Z.b2z (u64 (x + 1) =? 0) * 2 ^ 64 = x + 1.
Proof.
  intros [H0 H1]. unfold wrap. destruct (decide (x + 1 < 2 ^ 64)).
  - rewrite Z.mod_small by lia. replace (x + 1 =? 0) with false by (symmetry; apply Z.eqb_neq; lia). cbn. lia.
  - replace x with (2 ^ 64 - 1) by lia. by vm_compute.
Qed.

Lemma pred_word x : is_word 64 x -> u64 (x - 1) - Z.b2z (x =? 0) * 2 ^ 64 = x - 1.
Proof.
  intros [H0 H1]. unfold wrap. destruct (x =? 0) eqn:E; b2p.
  - subst. by vm_compute.
  - rewrite Z.mod_small by lia. cbn. lia.
Qed.

Lemma u64_word x : is_word 64 (u64 x).
Proof. by apply wrap_word. Qed.

Lemma bn_add_loop_ok n : forall a b, bn n a -> bn n b -> exists r cf, bn_add_loop a b = (r, cf) /\ bn n r /\ 0 <= cf <= 1 /\
  val r + cf * 2 ^ (64 * Z.of_nat n) = val a + val b.
Proof.
  induction n as [|n IH]; intros [|x a] [|y b] [La Ha] [Lb Hb]; cbn in La, Lb; try done; [exists [], 0; cbn; split_and!; done || lia|].
  apply Forall_cons in Ha as [Hx Ha], Hb as [Hy Hb]. destruct (IH a b ltac:(split; [lia|done]) ltac:(split; [lia|done])) as (r & cf & E & Hr & Hc & Ev).
  cbn [bn_add_loop]. rewrite E. pose proof (succ_word x Hx) as Sx. pose proof (u64_word (x + 1)) as W1.
  cbn [val]. replace (length a) with n by lia. replace (length b) with n by lia. rewrite pow_succ_64.
  assert (G : forall aw c0, is_word 64 aw -> 0 <= c0 <= 1 -> aw + c0 * 2 ^ 64 = x + cf ->
    exists r0 cf0, (u64 (aw + y) :: r, Z.lor c0 (Z.b2z (u64 (aw + y) <? y))) = (r0, cf0) /\ bn (S n) r0 /\ 0 <= cf0 <= 1 /\
      val r0 + cf0 * (2 ^ 64 * 2 ^ (64 * Z.of_nat n)) = x * 2 ^ (64 * Z.of_nat n) + val a + (y * 2 ^ (64 * Z.of_nat n) + val b)).
  { intros aw c0 Haw Hc0 Es. eexists _, _. split; [reflexivity|]. pose proof (carry_word aw y Haw Hy) as Cw. pose proof (u64_word (aw + y)) as [W0 W2].
    split; [apply bn_cons; split; [apply u64_word|done]|]. destruct Haw, Hy, Hx.
    assert (L : Z.lor c0 (Z.b2z (u64 (aw + y) <? y)) = c0 + Z.b2z (u64 (aw + y) <? y)).
    { assert (c0 = 0 \/ c0 = 1) as [-> | ->] by lia; destruct (u64 (aw + y) <? y); cbn [Z.b2z] in *; try done; exfalso; lia. }
    rewrite L. cbn [val]. destruct Hr as [-> _]. pose proof (pow_pos_64 n) as P. set (Bn := 2 ^ (64 * Z.of_nat n)) in *. clearbody Bn.
    set (w := u64 (aw + y)) in *. set (k := Z.b2z (w <? y)) in *. assert (0 <= k <= 1) by (unfold k; destruct (w <? y); cbn; lia). split; [|nia].
    split; [lia|]. assert (c0 = 0 \/ c0 = 1) as [-> | ->] by lia; [lia|]. assert (k = 0 \/ k = 1) as [-> | ->] by lia; lia. }
  destruct (cf =? 0) eqn:Ec; b2p; cbn [negb].
  - subst cf. apply G; [done|lia|lia].
  - apply G; [apply u64_word|destruct (_ =? 0); cbn; lia|]. assert (cf = 1) as -> by lia. lia.
Qed.

Lemma bn_sub_loop_ok n : forall a b, bn n a -> bn n b -> exists r cf, bn_sub_loop a b = (r, cf) /\ bn n r /\ 0 <= cf <= 1 /\
  val r - cf * 2 ^ (64 * Z.of_nat n) = val a - val b.
Proof.
  induction n as [|n IH]; intros [|x a] [|y b] [La Ha] [Lb Hb]; cbn in La, Lb; try done; [exists [], 0; cbn; split_and!; done || lia|].
  apply Forall_cons in Ha as [Hx Ha], Hb as [Hy Hb]. destruct (IH a b ltac:(split; [lia|done]) ltac:(split; [lia|done])) as (r & cf & E & Hr & Hc & Ev).
  cbn [bn_sub_loop]. rewrite E. pose proof (pred_word x Hx) as Sx.
  cbn [val]. replace (length a) with n by lia. replace (length b) with n by lia. rewrite pow_succ_64.
  assert (G : forall aw c0, is_word 64 aw -> 0 <= c0 <= 1 -> aw - c0 * 2 ^ 64 = x - cf ->
    exists r0 cf0, (u64 (aw - y) :: r, Z.lor c0 (Z.b2z (aw <? y))) = (r0, cf0) /\ bn (S n) r0 /\ 0 <= cf0 <= 1 /\
      val r0 - cf0 * (2 ^ 64 * 2 ^ (64 * Z.of_nat n)) = x * 2 ^ (64 * Z.of_nat n) + val a - (y * 2 ^ (64 * Z.of_nat n) + val b)).
  { intros aw c0 Haw Hc0 Es. eexists _, _. split; [reflexivity|]. pose proof (borrow_word aw y Haw Hy) as Cw. pose proof (u64_word (aw - y)) as [W0 W2].
    split; [apply bn_cons; split; [apply u64_word|done]|]. destruct Haw, Hy, Hx.
    assert (L : Z.lor c0 (Z.b2z (aw <? y)) = c0 + Z.b2z (aw <? y)).
    { assert (c0 = 0 \/ c0 = 1) as [-> | ->] by lia; destruct (aw <? y) eqn:El; b2p; cbn [Z.b2z] in *; try done; exfalso; lia. }
    rewrite L. cbn [val]. destruct Hr as [-> _]. pose proof (pow_pos_64 n) as P. set (Bn := 2 ^ (64 * Z.of_nat n)) in *. clearbody Bn.
    set (w := u64 (aw - y)) in *. set (k := Z.b2z (aw <? y)) in *. assert (0 <= k <= 1) by (unfold k; destruct (aw <? y); cbn; lia). split; [|nia].
    split; [lia|]. assert (c0 = 0 \/ c0 = 1) as [-> | ->] by lia; [lia|]. assert (k = 0 \/ k = 1) as [-> | ->] by lia; lia. }
  destruct (cf =? 0) eqn:Ec; b2p; cbn [negb].
  - subst cf. apply G; [done|lia|lia].
  - apply G; [apply u64_word|destruct (_ =? 0); cbn; lia|]. assert (cf = 1) as -> by lia. lia.
Qed.

Lemma bn_add_ok n a b : bn n a -> bn n b -> val a + val b < 2 ^ (64 * Z.of_nat n) -> bn n (bn_add a b) /\ val (bn_add a b) = val a + val b.
Proof.
  intros Ha Hb Hs. destruct (bn_add_loop_ok n a b Ha Hb) as (r & cf & E & Hr & Hc & Ev). unfold bn_add. rewrite E. cbn. split; [done|].
  pose proof (val_bound n r Hr). assert (cf = 0 \/ cf = 1) as [-> | ->] by lia; lia.
Qed.

Lemma bn_sub_ok n a b : bn n a -> bn n b -> exists r cf, bn_sub a b = (r, cf) /\ bn n r /\ 0 <= cf <= 1 /\ val r = val a - val b + cf * 2 ^ (64 * Z.of_nat n) /\
  (cf = 1 <-> val a < val b).
Proof.
  intros Ha Hb. destruct (bn_sub_loop_ok n a b Ha Hb) as (r & cf & E & Hr & Hc & Ev). exists r, cf. unfold bn_sub. pose proof (val_bound n r Hr).
  pose proof (val_bound n a Ha). pose proof (val_bound n b Hb). assert (cf = 0 \/ cf = 1) as [-> | ->] by lia; split_and!; done || lia.
Qed.

Lemma bn_sub_le n a b : bn n a -> bn n b -> val b <= val a -> bn n (bn_sub a b).1 /\ val (bn_sub a b).1 = val a - val b.
Proof. intros Ha Hb Hl. destruct (bn_sub_ok n a b Ha Hb) as (r & cf & E & Hr & Hc & Ev & Hf). rewrite E. cbn. split; [done|]. assert (cf = 0) as -> by lia. lia. Qed.

(** Modulo the size of the words. *)
Lemma bn_add_wrap n a b : bn n a -> bn n b -> bn n (bn_add a b) /\ val (bn_add a b) = (val a + val b) mod 2 ^ (64 * Z.of_nat n).
Proof.
  intros Ha Hb. destruct (bn_add_loop_ok n a b Ha Hb) as (r & cf & E & Hr & Hc & Ev). unfold bn_add. rewrite E. cbn. split; [done|].
  pose proof (val_bound n r Hr). apply Z.mod_unique with (q := cf); lia.
Qed.

Lemma bn_sub_wrap n a b : bn n a -> bn n b -> bn n (bn_sub a b).1 /\ val (bn_sub a b).1 = (val a - val b) mod 2 ^ (64 * Z.of_nat n).
Proof.
  intros Ha Hb. destruct (bn_sub_ok n a b Ha Hb) as (r & cf & E & Hr & Hc & Ev & _). rewrite E. cbn. split; [done|].
  pose proof (val_bound n r Hr). apply Z.mod_unique with (q := - cf); lia.
Qed.

Lemma bn_cmp_ok n : forall a b, bn n a -> bn n b -> bn_cmp a b = if val a <? val b then -1 else if val b <? val a then 1 else 0.
Proof.
  induction n as [|n IH]; intros [|x a] [|y b] [La Ha] [Lb Hb]; cbn in La, Lb; try done.
  apply Forall_cons in Ha as [Hx Ha], Hb as [Hy Hb]. assert (Ba : bn n a) by (split; [lia|done]). assert (Bb : bn n b) by (split; [lia|done]).
  pose proof (val_bound n a Ba). pose proof (val_bound n b Bb). pose proof (pow_pos_64 n) as P. cbn [bn_cmp val]. replace (length a) with n by lia.
  replace (length b) with n by lia. set (Bn := 2 ^ (64 * Z.of_nat n)) in *. clearbody Bn. destruct (x =? y) eqn:E; b2p; cbn [negb].
  - subst y. rewrite (IH a b Ba Bb). destruct (val a <? val b) eqn:E1, (x * Bn + val a <? x * Bn + val b) eqn:E2; b2p; try done; try (exfalso; lia).
    destruct (val b <? val a) eqn:E3, (x * Bn + val b <? x * Bn + val a) eqn:E4; b2p; try done; exfalso; lia.
  - destruct (x <? y) eqn:E1; b2p; cbn [Z.b2z].
    + replace (x * Bn + val a <? y * Bn + val b) with true; [done|]. symmetry. apply Z.ltb_lt. nia.
    + replace (x * Bn + val a <? y * Bn + val b) with false by (symmetry; apply Z.ltb_ge; nia).
      replace (y * Bn + val b <? x * Bn + val a) with true by (symmetry; apply Z.ltb_lt; nia). done.
Qed.

Lemma val_inj n a b : bn n a -> bn n b -> val a = val b -> a = b.
Proof.
  revert a b. induction n as [|n IH]; intros [|x a] [|y b] [La Ha] [Lb Hb] Hv; cbn in La, Lb; try done.
  apply Forall_cons in Ha as [Hx Ha], Hb as [Hy Hb]. assert (Ba : bn n a) by (split; [lia|done]). assert (Bb : bn n b) by (split; [lia|done]).
  pose proof (val_bound n a Ba). pose proof (val_bound n b Bb). cbn [val] in Hv. replace (length a) with n in Hv by lia. replace (length b) with n in Hv by lia.
  assert (x = y) by nia. subst y. f_equal. apply IH; [done|done|lia].
Qed.

Lemma bn_cmp_zero n a b : bn n a -> bn n b -> bn_cmp a b = 0 <-> val a = val b.
Proof. intros Ha Hb. rewrite (bn_cmp_ok n) by done. destruct (_ <? _) eqn:E; b2p; [split; lia|]. destruct (val b <? val a) eqn:E2; b2p; split; lia. Qed.

Lemma bn_cmp_ge n a b : bn n a -> bn n b -> (0 <=? bn_cmp a b) = (val b <=? val a).
Proof.
  intros Ha Hb. rewrite (bn_cmp_ok n) by done. destruct (_ <? _) eqn:E; b2p; [by symmetry; apply Z.leb_gt|].
  replace (val b <=? val a) with true by (symmetry; by apply Z.leb_le). by destruct (_ <? _).
Qed.

Lemma zero_loop_ok l : zero_loop l = forallb (fun x => x =? 0) l.
Proof. induction l as [|x l IH]; [done|]. cbn. destruct (x =? 0) eqn:E; b2p; cbn [negb andb]; [done|]. apply Z.eqb_neq. lia. Qed.

Lemma split_zero w : is_word 64 w -> forallb (fun x => x =? 0) (be_split 8 w) = (w =? 0).
Proof.
  intros [H0 H1]. destruct (w =? 0) eqn:E; b2p; [by subst|]. apply not_true_iff_false. intros H. apply E. cbn -[Z.shiftr wrap] in H. b2p.
  rewrite !Z.shiftr_div_pow2 in * by lia. unfold wrap in *. cbn in *. Z.div_mod_to_equations. lia.
Qed.

Lemma bn_is_zero_ok a : bn 9 a -> bn_is_zero a 0 = (val a =? 0).
Proof.
  intros Ha. unfold bn_is_zero. rewrite zero_loop_ok, take_ge by (destruct Ha as [-> _]; cbn; lia).
  clear -Ha. revert Ha. generalize 9%nat. induction a as [|w a IH]; intros n [Hl Hf]; [done|]. apply Forall_cons in Hf as [Hw Hf]. cbn [map concat].
  rewrite forallb_app, split_zero, (IH (length a)) by done. cbn [val]. pose proof (val_bound (length a) a ltac:(done)). pose proof (pow_pos_64 (length a)). destruct Hw.
  destruct (w =? 0) eqn:E1, (val a =? 0) eqn:E2; b2p; cbn; symmetry; apply Z.eqb_eq || apply Z.eqb_neq; nia.
Qed.

(** ** Products *)

Lemma addc_ok x y : is_word 64 x -> is_word 64 y -> exists s ca, addc x y = (s, ca) /\ is_word 64 s /\ 0 <= ca <= 1 /\ s + ca * 2 ^ 64 = x + y.
Proof.
  intros [H0 H1] [H2 H3]. unfold addc. eexists _, _. split; [reflexivity|]. rewrite Z.shiftr_div_pow2 by lia. unfold wrap.
  pose proof (Z.div_mod (x + y) (2 ^ 64) ltac:(lia)). pose proof (Z.mod_pos_bound (x + y) (2 ^ 64) ltac:(lia)).
  assert (0 <= (x + y) / 2 ^ 64 <= 1) by (split; [apply Z.div_pos; lia|apply Z.lt_succ_r, Z.div_lt_upper_bound; lia]). split_and!; try lia. split; lia.
Qed.

(** No carry out. *)
Lemma addze_ok x ca : 0 <= ca <= 1 -> 0 <= x -> x + ca < 2 ^ 64 -> (addze x ca).1 = x + ca.
Proof. intros H0 H1 H2. unfold addze, addc. cbn. apply wrap_small. split; lia. Qed.

Lemma mul_words x y : is_word 64 x -> is_word 64 y -> is_word 64 (mulld x y) /\ 0 <= mulhdu x y <= 2 ^ 64 - 2 /\ mulld x y + mulhdu x y * 2 ^ 64 = x * y.
Proof.
  intros [H0 H1] [H2 H3]. unfold mulld, mulhdu. rewrite Z.shiftr_div_pow2 by lia. pose proof (u64_word (x * y)) as W. unfold wrap in *.
  pose proof (Z.div_mod (x * y) (2 ^ 64) ltac:(lia)). assert (x * y <= (2 ^ 64 - 1) * (2 ^ 64 - 1)) by nia.
  split_and!; [done|apply Z.div_pos; nia|apply Z.lt_succ_r, Z.div_lt_upper_bound; lia|lia].
Qed.

Lemma mul_row_ok n tb : is_word 64 tb -> forall a r, bn n a -> bn n r -> exists row th, mul_row a r tb = (row, th) /\ bn n row /\ is_word 64 th /\
  val row + th * 2 ^ (64 * Z.of_nat n) = val a * tb + val r.
Proof.
  intros Ht. induction n as [|n IH]; intros [|x a] [|y r] [La Ha] [Lr Hr]; cbn in La, Lr; try done; [exists [], 0; cbn; split_and!; done || lia || (split; lia)|].
  apply Forall_cons in Ha as [Hx Ha], Hr as [Hy Hr]. destruct (IH a r ltac:(split; [lia|done]) ltac:(split; [lia|done])) as (row & th & E & Hrow & Hth & Ev).
  cbn [mul_row]. rewrite E. destruct (mul_words x tb Hx Ht) as (M1 & M2 & M3). destruct (addc_ok (mulld x tb) y M1 Hy) as (pl & ca & -> & Hpl & Hca & E1).
  rewrite addze_ok by lia. destruct (addc_ok pl th Hpl Hth) as (w & ca' & -> & Hw & Hca' & E2).
  assert (B : mulhdu x tb + ca + ca' < 2 ^ 64).
  { destruct Hx, Ht, Hy, Hth. assert (x * tb <= (2 ^ 64 - 1) * (2 ^ 64 - 1)) by nia. destruct Hw. lia. }
  rewrite addze_ok by lia. eexists _, _. split; [reflexivity|]. split; [by apply bn_cons|]. split; [split; lia|].
  cbn [val]. destruct Hrow as [-> _]. replace (length a) with n by lia. replace (length r) with n by lia. rewrite pow_succ_64.
  set (Bn := 2 ^ (64 * Z.of_nat n)) in *. clearbody Bn. nia.
Qed.

Lemma row_split n row : bn (S n) row -> bn n (removelast row) /\ is_word 64 (List.last row 0) /\ val row = val (removelast row) * 2 ^ 64 + List.last row 0.
Proof.
  intros [Hl Hf]. destruct (exists_last (l := row)) as (l & x & ->); [by intros ->|]. rewrite removelast_last, last_last. apply Forall_app in Hf as [H1 H2]. apply Forall_cons in H2 as [H2 _].
  split; [split; [rewrite length_app in Hl; cbn in Hl; lia|done]|]. split; [done|]. rewrite val_app. cbn. lia.
Qed.

Lemma mul_rows_ok n m : forall a b, bn (S n) a -> bn m b -> exists acc low, mul_rows a b = (acc, low) /\ bn (S n) acc /\ bn m low /\
  val acc * 2 ^ (64 * Z.of_nat m) + val low = val a * val b.
Proof.
  intros a b Ha. revert b. induction m as [|m IH]; intros [|tb b] [Lb Hb]; cbn in Lb; try done.
  - cbn [mul_rows]. eexists _, _. split; [reflexivity|]. destruct Ha as [-> _]. rewrite val_zeros. split_and!; [apply bn_zeros|done|cbn; lia].
  - apply Forall_cons in Hb as [Ht Hb]. destruct (IH b ltac:(split; [lia|done])) as (acc & low & E & Hacc & Hlow & Ev). cbn [mul_rows]. rewrite E.
    destruct (mul_row_ok (S n) tb Ht a acc Ha Hacc) as (row & th & -> & Hrow & Hth & Ev'). destruct (row_split n row Hrow) as (R1 & R2 & R3).
    eexists _, _. split; [reflexivity|]. split; [by apply bn_cons|]. split; [by apply bn_cons|]. cbn [val]. destruct R1 as [-> _], Hlow as [-> _].
    replace (length b) with m by lia. rewrite R3 in Ev'. rewrite pow_succ_64 in *. set (Bn := 2 ^ (64 * Z.of_nat n)) in *. set (Bm := 2 ^ (64 * Z.of_nat m)) in *.
    clearbody Bn Bm. set (v1 := val (removelast row)) in *. set (v2 := List.last row 0) in *. clearbody v1 v2. nia.
Qed.

Lemma bn_mul_ok n a b : bn (S n) a -> bn (S n) b -> bn (S n + S n) (bn_mul a b) /\ val (bn_mul a b) = val a * val b.
Proof.
  intros Ha Hb. destruct (mul_rows_ok n (S n) a b Ha Hb) as (acc & low & E & Hacc & Hlow & Ev). unfold bn_mul. rewrite E. split; [by apply bn_app|].
  rewrite val_app. destruct Hlow as [-> _]. done.
Qed.

(** ** The shift *)

Lemma shl_word w h : is_word 64 w -> is_word 64 h ->
  Z.lor (u64 (Z.shiftl w BN_MSW_UNUSED_BITS)) (Z.land BN_MSW_UNUSED_MASK (Z.shiftr h BN_PRIME_MSW_BITS)) = (w mod 2 ^ 9) * 2 ^ 55 + h / 2 ^ 9.
Proof.
  intros [H0 H1] [H2 H3]. change BN_MSW_UNUSED_BITS with 55. change BN_PRIME_MSW_BITS with 9. change BN_MSW_UNUSED_MASK with (Z.ones 55).
  rewrite Z.land_comm, Z.land_ones, Z.shiftr_div_pow2, Z.shiftl_mul_pow2 by lia.
  assert (Hh : 0 <= h / 2 ^ 9 < 2 ^ 55) by (split; [apply Z.div_pos; lia|apply Z.div_lt_upper_bound; lia]).
  rewrite (Z.mod_small (h / 2 ^ 9)) by done. unfold wrap. change (2 ^ 64) with (2 ^ 9 * 2 ^ 55). rewrite Z.mul_mod_distr_r by lia.
  rewrite <-Z.shiftl_mul_pow2 by lia. symmetry. rewrite <-Z.lxor_lor, <-Z.add_nocarry_lxor; [done| |]; apply Z.bits_inj'; intros i Hi; rewrite Z.land_spec, Z.shiftl_spec, Z.bits_0 by done.
  all: destruct (decide (i < 55)); [by rewrite (Z.testbit_neg_r _ (i - 55)) by lia|]; rewrite (word_bits_high 55 (h / 2 ^ 9)) by (done || lia); apply andb_false_r.
Qed.

Lemma bn_shl_loop_ok n : forall a acc, bn n a -> is_word 64 acc -> exists r, bn_shl_loop a acc = (r, hd acc a) /\ bn n r /\
  val r = ((val a * 2 ^ 64 + acc) / 2 ^ 9) mod 2 ^ (64 * Z.of_nat n).
Proof.
  induction n as [|n IH]; intros [|w a] acc [La Ha] Hacc; cbn in La; try done.
  - exists []. cbn. split_and!; [done|done|]. by rewrite Z.mod_1_r.
  - apply Forall_cons in Ha as [Hw Ha]. assert (Ba : bn n a) by (split; [lia|done]). destruct (IH a acc Ba Hacc) as (r & E & Hr & Ev).
    cbn [bn_shl_loop]. rewrite E. set (h := hd acc a). assert (Hh : is_word 64 h) by (unfold h; destruct a; [done|by apply Forall_cons in Ha as [? _]]).
    rewrite shl_word by done. eexists. split; [reflexivity|]. destruct Hw as [W0 W1], Hh as [H0 H1].
    assert (Bh : 0 <= h / 2 ^ 9 < 2 ^ 55) by (split; [apply Z.div_pos; lia|apply Z.div_lt_upper_bound; lia]).
    pose proof (Z.mod_pos_bound w (2 ^ 9) ltac:(lia)) as Bw. split; [apply bn_cons; split; [split; lia|done]|].
    cbn [val]. destruct Hr as [Lr Hr]. rewrite Lr. replace (length a) with n by lia. rewrite pow_succ_64. rewrite Ev. pose proof (pow_pos_64 n) as P.
    set (Bn := 2 ^ (64 * Z.of_nat n)) in *. set (X := val a * 2 ^ 64 + acc) in *.
    assert (HX : exists x', X = h * Bn + x' /\ 0 <= x' < Bn).
    { unfold X, h, Bn. destruct a as [|y a]; cbn in La.
      - exists 0. assert (n = 0%nat) as -> by lia. cbn. lia.
      - cbn [hd val]. destruct n as [|n]; [lia|]. replace (length a) with n by lia. exists (val a * 2 ^ 64 + acc). rewrite pow_succ_64.
        pose proof (val_bound n a ltac:(apply bn_cons in Ba; apply Ba)). destruct Hacc. nia. }
    destruct HX as (x' & HX & Hx'). set (R := ((h mod 2 ^ 9) * Bn + x') / 2 ^ 9).
    pose proof (Z.mod_pos_bound h (2 ^ 9) ltac:(lia)) as Bm. assert (HR : 0 <= R < Bn) by (unfold R; split; [apply Z.div_pos; nia|apply Z.div_lt_upper_bound; nia]).
    assert (EX : X / 2 ^ 9 = h / 2 ^ 9 * Bn + R).
    { unfold R. rewrite HX. pose proof (Z.div_mod h (2 ^ 9) ltac:(lia)) as Dh. replace (h * Bn + x') with ((h mod 2 ^ 9) * Bn + x' + (h / 2 ^ 9 * Bn) * 2 ^ 9) by nia.
      rewrite Z.div_add by lia. lia. }
    assert (EM : (X / 2 ^ 9) mod Bn = R) by (rewrite EX, Z.add_comm, Z.mod_add by lia; by apply Z.mod_small). rewrite EM.
    replace ((w * Bn + val a) * 2 ^ 64 + acc) with (X + (w * 2 ^ 55 * Bn) * 2 ^ 9) by (unfold X; ring). rewrite Z.div_add, EX by lia.
    pose proof (Z.div_mod w (2 ^ 9) ltac:(lia)) as Dw. apply Z.mod_unique with (q := w / 2 ^ 9); [left; nia|]. nia.
Qed.

Lemma bn_shl_ok n a acc : bn n a -> is_word 64 acc -> bn n (bn_shl a acc) /\ val (bn_shl a acc) = ((val a * 2 ^ 64 + acc) / 2 ^ 9) mod 2 ^ (64 * Z.of_nat n).
Proof. intros Ha Hc. destruct (bn_shl_loop_ok n a acc Ha Hc) as (r & E & Hr & Ev). unfold bn_shl. by rewrite E. Qed.

(** ** Reduction by the prime *)

Definition prime : Z := 2 ^ 521 - 1.

Lemma val_prime : bn 9 ec_prime /\ val ec_prime = prime.
Proof. split; [split; [done|repeat constructor; done]|by vm_compute]. Qed.

Lemma word_shift55 h : is_word 64 h -> is_word 64 (u64 (Z.shiftl h 55)) /\ 0 <= Z.shiftr h 9 < 2 ^ 55 /\ u64 (Z.shiftl h 55) + Z.shiftr h 9 * 2 ^ 64 = h * 2 ^ 55.
Proof.
  intros [H0 H1]. rewrite Z.shiftl_mul_pow2, Z.shiftr_div_pow2 by lia. unfold wrap. change (2 ^ 64) with (2 ^ 9 * 2 ^ 55). rewrite Z.mul_mod_distr_r by lia.
  pose proof (Z.div_mod h (2 ^ 9) ltac:(lia)). pose proof (Z.mod_pos_bound h (2 ^ 9) ltac:(lia)).
  assert (0 <= h / 2 ^ 9 < 2 ^ 55) by (split; [apply Z.div_pos; lia|apply Z.div_lt_upper_bound; lia]). split_and!; try lia. split; lia.
Qed.

Lemma modred_loop_ok n : forall ah al t0, bn n ah -> bn n al -> is_word 64 t0 -> exists r t1, modred_loop ah al t0 = (r, t1) /\ bn n r /\ is_word 64 t1 /\
  val r + t1 * 2 ^ (64 * Z.of_nat n) = val al + val ah * 2 ^ 55 + t0.
Proof.
  induction n as [|n IH]; intros [|h ah] [|l al] t0 [La Ha] [Lb Hb] Ht; cbn in La, Lb; try done; [exists [], t0; cbn; split_and!; try done; lia|].
  apply Forall_cons in Ha as [Hh Ha], Hb as [Hl Hb]. destruct (IH ah al t0 ltac:(split; [lia|done]) ltac:(split; [lia|done]) Ht) as (r & t1 & E & Hr & Ht1 & Ev).
  cbn [modred_loop]. rewrite E. destruct (word_shift55 h Hh) as (S1 & S2 & S3). destruct (addc_ok l t1 Hl Ht1) as (t3 & ca & -> & Ht3 & Hca & E1).
  rewrite addze_ok by lia. destruct (addc_ok t3 (u64 (Z.shiftl h 55)) Ht3 S1) as (r0 & ca' & -> & Hr0 & Hca' & E2). rewrite addze_ok by lia.
  eexists _, _. split; [reflexivity|]. split; [by apply bn_cons|]. split; [split; lia|]. cbn [val]. destruct Hr as [-> _]. replace (length ah) with n by lia.
  replace (length al) with n by lia. rewrite pow_succ_64. set (Bn := 2 ^ (64 * Z.of_nat n)) in *. clearbody Bn. set (t1' := u64 (Z.shiftl h 55)) in *. clearbody t1'. nia.
Qed.

Lemma mask_word w : is_word 64 w -> Z.land w BN_PRIME_MSW_MASK = w mod 2 ^ 9 /\ Z.shiftr w 9 = w / 2 ^ 9.
Proof. intros _. change BN_PRIME_MSW_MASK with (Z.ones 9). by rewrite Z.land_ones, Z.shiftr_div_pow2 by lia. Qed.

Lemma modred_last w1 : is_word 64 w1 -> is_word 64 (u64 (Z.shiftl w1 55)) /\ 0 <= Z.land (Z.shiftr w1 9) BN_PRIME_MSW_MASK < 2 ^ 9 /\
  u64 (Z.shiftl w1 55) + Z.land (Z.shiftr w1 9) BN_PRIME_MSW_MASK * 2 ^ 64 = (w1 mod 2 ^ 18) * 2 ^ 55.
Proof.
  intros Hw. destruct (word_shift55 w1 Hw) as (S1 & S2 & S3). assert (W9 : is_word 64 (Z.shiftr w1 9)) by (split; lia). destruct (mask_word _ W9) as [-> _].
  rewrite Z.shiftr_div_pow2 in * by lia. pose proof (Z.mod_pos_bound (w1 / 2 ^ 9) (2 ^ 9) ltac:(lia)). split_and!; [done|lia|lia|].
  change (2 ^ 18) with (2 ^ 9 * 2 ^ 9). rewrite (Z.rem_mul_r w1 (2 ^ 9) (2 ^ 9)) by lia. pose proof (Z.div_mod w1 (2 ^ 9) ltac:(lia)). lia.
Qed.

(** The words of a product, as the reduction reads them. *)
Lemma product_words a : bn 18 a -> exists w0 w1 ah w9 w10 al, a = [w0; w1] ++ ah ++ [w9; w10] ++ al /\ is_word 64 w0 /\ is_word 64 w1 /\ bn 7 ah /\ is_word 64 w9 /\ is_word 64 w10 /\ bn 7 al.
Proof.
  intros [Hl Hf]. do 18 (destruct a as [|? a]; [done|]). destruct a; [|done]. repeat (apply Forall_cons in Hf as [? Hf]).
  exists z, z0, [z1; z2; z3; z4; z5; z6; z7], z8, z9, [z10; z11; z12; z13; z14; z15; z16]. split; [done|]. split_and!; try done; (split; [done|]; by repeat (apply Forall_cons; split; [done|])).
Qed.

(** The result is congruent, and longer than the prime by a bit at most where
    the product has no more than the 1042 bits of two reduced factors. *)
Lemma bn_modred_fast_ok a : bn 18 a -> val a < 2 ^ 1088 -> bn 9 (bn_modred_fast a) /\ val (bn_modred_fast a) <= 2 * prime + val a / 2 ^ 1042 /\
  exists k, val a = val (bn_modred_fast a) + prime * k.
Proof.
  intros Ha Hv. destruct (product_words a Ha) as (w0 & w1 & ah & w9 & w10 & al & -> & H0 & H1 & Hah & H9 & H10 & Hal).
  assert (Ev : val ([w0; w1] ++ ah ++ [w9; w10] ++ al) = w0 * 2 ^ 1088 + w1 * 2 ^ 1024 + val ah * 2 ^ 576 + w9 * 2 ^ 512 + w10 * 2 ^ 448 + val al).
  { rewrite !val_app, !length_app. destruct Hah as [-> _], Hal as [-> _]. cbn [val length]. change (64 * Z.of_nat (7 + (2 + 7))) with 1024.
    change (64 * Z.of_nat (2 + 7)) with 576. change (64 * Z.of_nat 7) with 448. change (2 ^ (64 * Z.of_nat 1)) with (2 ^ 64). change (2 ^ (64 * Z.of_nat 0)) with 1.
    change (2 ^ 1088) with (2 ^ 64 * 2 ^ 1024). change (2 ^ 512) with (2 ^ 64 * 2 ^ 448). ring. }
  pose proof (val_bound 7 ah Hah) as Bah. pose proof (val_bound 7 al Hal) as Bal. change (64 * Z.of_nat 7) with 448 in Bah, Bal.
  assert (w0 = 0) as ->. { destruct H0, H1, H9, H10. rewrite Ev in Hv. destruct (decide (w0 = 0)); [done|]. exfalso. lia. }
  assert (En : forall i, nth i ([0; w1] ++ ah ++ [w9; w10] ++ al) 0 = match i with 1%nat => w1 | 9%nat => w9 | 10%nat => w10 | _ => nth i ([0; w1] ++ ah ++ [w9; w10] ++ al) 0 end).
  { destruct Hah as [La _]. do 7 (destruct ah as [|? ah]; [done|]). destruct ah; [|done]. intros i. do 11 (destruct i as [|i]; [done|]). done. }
  assert (Et : take 7 (drop 2 ([0; w1] ++ ah ++ [w9; w10] ++ al)) = ah /\ take 7 (drop 11 ([0; w1] ++ ah ++ [w9; w10] ++ al)) = al).
  { destruct Hah as [La _], Hal as [Lb _]. do 7 (destruct ah as [|? ah]; [done|]). destruct ah; [|done]. do 7 (destruct al as [|? al]; [done|]). by destruct al. }
  unfold bn_modred_fast. rewrite (En 1%nat), (En 9%nat), (En 10%nat). destruct Et as [-> ->]. clear En. rewrite Ev. clear Ev Hv Ha H0.
  destruct (mask_word w9 H9) as [-> ->]. rewrite (Z.shiftr_div_pow2 w1 18) by lia. destruct (modred_last w1 H1) as (L1 & L2 & L3).
  set (t1 := u64 (Z.shiftl w1 55)) in *. set (t2 := Z.land (Z.shiftr w1 9) BN_PRIME_MSW_MASK) in *. clearbody t1 t2.
  destruct H1 as [W10 W11], H9 as [W90 W91].
  pose proof (Z.div_mod w1 (2 ^ 18) ltac:(lia)) as D1. pose proof (Z.mod_pos_bound w1 (2 ^ 18) ltac:(lia)) as M1.
  pose proof (Z.div_mod w9 (2 ^ 9) ltac:(lia)) as D9. pose proof (Z.mod_pos_bound w9 (2 ^ 9) ltac:(lia)) as M9.
  set (a1 := w1 / 2 ^ 18) in *. set (m1 := w1 mod 2 ^ 18) in *. set (a9 := w9 / 2 ^ 9) in *. set (m9 := w9 mod 2 ^ 9) in *. clearbody a1 m1 a9 m9.
  assert (Ba1 : 0 <= a1 < 2 ^ 46) by lia. assert (Ba9 : 0 <= a9 < 2 ^ 55) by lia.
  rewrite (wrap_small 64 (a1 + a9)) by (split; lia). destruct (modred_loop_ok 7 ah al (a1 + a9) Hah Hal ltac:(split; lia)) as (r & t0 & -> & Hr & Ht0 & Er).
  destruct (addc_ok w10 t0 H10 Ht0) as (t3 & ca & -> & Ht3 & Hca & E1). rewrite addze_ok by lia.
  destruct (addc_ok t3 t1 Ht3 L1) as (r1 & ca' & -> & Hr1 & Hca' & E2). rewrite addze_ok by lia. rewrite wrap_small by (split; lia).
  change (64 * Z.of_nat 7) with 448 in Er.
  assert (Ey : val (m9 + (t2 + ca + ca') :: r1 :: r) = m9 * 2 ^ 512 + w10 * 2 ^ 448 + val al + a1 + a9 + val ah * 2 ^ 55 + m1 * 2 ^ 503).
  { cbn [val length]. destruct Hr as [Lr _]. rewrite Lr. change (64 * Z.of_nat 8) with 512. change (64 * Z.of_nat 7) with 448.
    change (2 ^ 512) with (2 ^ 64 * 2 ^ 448). change (2 ^ 503) with (2 ^ 55 * 2 ^ 448). nia. }
  rewrite Ey. destruct H10 as [W100 W101]. split; [apply bn_cons; split; [split; lia|by apply bn_cons]|]. split.
  - assert (Ediv : a1 <= (0 * 2 ^ 1088 + w1 * 2 ^ 1024 + val ah * 2 ^ 576 + w9 * 2 ^ 512 + w10 * 2 ^ 448 + val al) / 2 ^ 1042) by (apply Z.div_le_lower_bound; lia).
    unfold prime. lia.
  - exists (a9 + val ah * 2 ^ 55 + m1 * 2 ^ 503 + a1 * (2 ^ 521 + 1)). unfold prime. subst w1 w9. lia.
Qed.

Lemma carry_loop_ok n : forall r ca, bn n r -> is_word 64 ca -> exists r' ca', carry_loop r ca = (r', ca') /\ bn n r' /\ is_word 64 ca' /\
  val r' + ca' * 2 ^ (64 * Z.of_nat n) = val r + ca.
Proof.
  induction n as [|n IH]; intros [|w r] ca [Lr Hr] Hca; cbn in Lr; try done; [exists [], ca; cbn; split_and!; try done; lia|].
  apply Forall_cons in Hr as [Hw Hr]. destruct (IH r ca ltac:(split; [lia|done]) Hca) as (r' & c & E & Hr' & Hc & Ev). cbn [carry_loop]. rewrite E.
  unfold addze. destruct (addc_ok w c Hw Hc) as (w' & c' & -> & Hw' & Hc' & E'). eexists _, _. split; [reflexivity|]. split; [by apply bn_cons|]. split; [split; lia|].
  cbn [val]. destruct Hr' as [-> _]. replace (length r) with n by lia. rewrite pow_succ_64. set (Bn := 2 ^ (64 * Z.of_nat n)) in *. clearbody Bn. nia.
Qed.

(** Complete, for every number. *)
Lemma bn_modred_slow_ok r : bn 9 r -> bn 9 (bn_modred_slow r) /\ val (bn_modred_slow r) = val r mod prime.
Proof.
  intros Hr. unfold bn_modred_slow. cbv zeta.
  assert (G : forall r1, bn 9 r1 -> val r1 < 2 * prime -> (exists k, val r = val r1 + prime * k) ->
    bn 9 (if bn_ge_prime r1 then (bn_sub r1 ec_prime).1 else r1) /\ val (if bn_ge_prime r1 then (bn_sub r1 ec_prime).1 else r1) = val r mod prime).
  { intros r1 H1 Hb [k Hk]. destruct val_prime as [Bp Vp]. unfold bn_ge_prime. rewrite (bn_cmp_ge 9) by done. rewrite Vp. pose proof (val_bound 9 r1 H1).
    destruct (prime <=? val r1) eqn:E; b2p.
    - destruct (bn_sub_le 9 r1 ec_prime H1 Bp ltac:(lia)) as [S1 S2]. split; [done|]. rewrite S2, Vp. apply Z.mod_unique with (q := k + 1); [left; lia|lia].
    - split; [done|]. apply Z.mod_unique with (q := k); [left; lia|lia]. }
  destruct r as [|w r]; [by destruct Hr|]. cbn [hd tail]. apply bn_cons in Hr as [Hw Hr]. destruct (mask_word w Hw) as [-> ->].
  pose proof (val_bound 8 r Hr) as Br. destruct Hw as [W0 W1]. change (64 * Z.of_nat 8) with 512 in Br.
  assert (Ev : val (w :: r) = w * 2 ^ 512 + val r) by (cbn [val]; by destruct Hr as [-> _]).
  destruct (BN_PRIME_MSW_MASK <? w) eqn:E; b2p; change BN_PRIME_MSW_MASK with 511 in E.
  - pose proof (Z.mod_pos_bound w (2 ^ 9) ltac:(lia)) as M. pose proof (Z.div_mod w (2 ^ 9) ltac:(lia)) as D.
    assert (Q : 0 <= w / 2 ^ 9 < 2 ^ 55) by (split; [apply Z.div_pos; lia|apply Z.div_lt_upper_bound; lia]).
    set (m := w mod 2 ^ 9) in *. set (d := w / 2 ^ 9) in *. clearbody m d.
    assert (Bm : bn 9 (m :: r)) by (apply bn_cons; split; [split; lia|done]). destruct (carry_loop_ok 9 (m :: r) d Bm ltac:(split; lia)) as (r' & c' & -> & Hr' & Hc' & E').
    cbn [fst]. assert (Em : val (m :: r) = m * 2 ^ 512 + val r) by (cbn [val]; by destruct Hr as [-> _]). rewrite Em in E'. change (64 * Z.of_nat 9) with 576 in E'.
    pose proof (val_bound 9 r' Hr') as Bv. assert (c' = 0) as -> by (destruct Hc'; change (64 * Z.of_nat 9) with 576 in Bv; nia).
    apply G; [done|unfold prime; lia|]. exists d. rewrite Ev. unfold prime. lia.
  - apply G; [apply bn_cons; split; [split; lia|done]|rewrite Ev; unfold prime; lia|by exists 0; lia].
Qed.

(** ** Numbers that stand for one modulo the prime *)

(** [v] modulo the prime, and at most [k] times it. *)
Definition rep (k : Z) a (v : Z) : Prop := bn 9 a /\ val a <= k * prime /\ val a mod prime = v mod prime.
(** [v] reduced. *)
Definition red a (v : Z) : Prop := bn 9 a /\ val a = v mod prime.

Lemma prime_pos : 0 < prime < 2 ^ 521.
Proof. unfold prime. lia. Qed.

Lemma rep_red a v : red a v -> rep 1 a v.
Proof. intros [H1 H2]. pose proof prime_pos. pose proof (Z.mod_pos_bound v prime ltac:(lia)). split_and!; [done|lia|by rewrite H2, Z.mod_mod by lia]. Qed.

Lemma rep_weaken j k a v : rep j a v -> j <= k -> rep k a v.
Proof. intros (H1 & H2 & H3) H. pose proof prime_pos. split_and!; [done|nia|done]. Qed.

Lemma red_slow k a v : rep k a v -> red (bn_modred_slow a) v.
Proof. intros (H1 & H2 & H3). destruct (bn_modred_slow_ok a H1) as [H4 H5]. split; [done|congruence]. Qed.

Lemma rep_mul j k a b u v : rep j a u -> rep k b v -> 0 <= j -> 0 <= k -> j * k <= 2 ^ 40 -> rep 3 (bn_modmul_prime a b) (u * v).
Proof.
  intros (A1 & A2 & A3) (B1 & B2 & B3) Hj Hk Hb. destruct (bn_mul_ok 8 a b A1 B1) as [P1 P2]. pose proof prime_pos as Pp.
  pose proof (val_bound 9 a A1) as [A0 _]. pose proof (val_bound 9 b B1) as [B0 _].
  assert (Bp : val a * val b <= 2 ^ 40 * (prime * prime)).
  { transitivity ((j * prime) * (k * prime)); [nia|]. replace ((j * prime) * (k * prime)) with (j * k * (prime * prime)) by ring. nia. }
  assert (Bq : 2 ^ 40 * (prime * prime) < 2 ^ 1082) by (unfold prime; vm_compute; reflexivity).
  destruct (bn_modred_fast_ok (bn_mul a b) P1 ltac:(rewrite P2; lia)) as (R1 & R2 & q & R3). unfold bn_modmul_prime. split; [done|]. split.
  - rewrite P2 in R2. assert (val a * val b / 2 ^ 1042 <= prime) by (apply Z.lt_le_incl, Z.div_lt_upper_bound; [lia|]; unfold prime; lia). lia.
  - rewrite Z.mul_mod, <-A3, <-B3, <-Z.mul_mod, <-P2, R3 by lia. rewrite (Z.mul_comm prime), Z.mod_add by lia. done.
Qed.

Lemma rep_sqr j a u : rep j a u -> 0 <= j -> j * j <= 2 ^ 40 -> rep 3 (bn_modsqr_prime a) (u * u).
Proof. intros H Hj Hb. unfold bn_modsqr_prime. by apply (rep_mul j j). Qed.

Lemma rep_add j k a b u v : rep j a u -> rep k b v -> j + k <= 2 ^ 40 -> rep (j + k) (bn_modadd a b) (u + v).
Proof.
  intros (A1 & A2 & A3) (B1 & B2 & B3) Hb. pose proof prime_pos. destruct (bn_add_ok 9 a b A1 B1) as [P1 P2].
  { change (64 * Z.of_nat 9) with 576. assert (2 ^ 40 * prime < 2 ^ 576) by (unfold prime; lia). nia. }
  unfold bn_modadd. split; [done|]. rewrite P2. split; [nia|]. by rewrite Z.add_mod, A3, B3, <-Z.add_mod by lia.
Qed.

Lemma rep_sub k a b u v : rep k a u -> rep 1 b v -> 1 <= k -> rep k (bn_modsub a b) (u - v).
Proof.
  intros (A1 & A2 & A3) (B1 & B2 & B3) Hk. pose proof prime_pos. destruct (bn_sub_ok 9 a b A1 B1) as (r & cf & E & Hr & Hc & Er & Hf). unfold bn_modsub. rewrite E.
  pose proof (val_bound 9 a A1) as [A0 _]. pose proof (val_bound 9 b B1) as [B0 _].
  assert (Em : (val a - val b) mod prime = (u - v) mod prime) by (by rewrite Zminus_mod, A3, B3, <-Zminus_mod).
  destruct (cf =? 0) eqn:Ec; b2p; cbn [negb].
  - subst cf. rewrite Z.mul_0_l, Z.add_0_r in Er. split_and!; [done|nia|by rewrite Er].
  - assert (cf = 1) as -> by lia. destruct Hf as [Hf _]. specialize (Hf eq_refl). destruct val_prime as [Bp Vp]. destruct (bn_add_wrap 9 r ec_prime Hr Bp) as [S1 S2].
    split; [done|]. assert (Es : val (bn_add r ec_prime) = val a - val b + prime).
    { rewrite S2, Er, Vp, Z.mul_1_l. change (64 * Z.of_nat 9) with 576. symmetry. apply Z.mod_unique with (q := 1); [|lia]. left. unfold prime in *. lia. }
    rewrite Es. split; [nia|]. rewrite <-Em. replace (val a - val b + prime) with (val a - val b + 1 * prime) by lia. by rewrite Z.mod_add by lia.
Qed.

(** A reduced number minus another is reduced. *)
Lemma red_sub a b u v : red a u -> red b v -> red (bn_modsub a b) (u - v).
Proof.
  intros Ha Hb. pose proof (rep_sub 1 a b u v (rep_red a u Ha) (rep_red b v Hb) ltac:(lia)) as (H1 & H2 & H3). split; [done|].
  pose proof prime_pos. rewrite <-H3. symmetry. apply Z.mod_small. split; [by apply (val_bound 9)|]. destruct Ha as [A1 A2], Hb as [B1 B2].
  pose proof (Z.mod_pos_bound u prime ltac:(lia)). pose proof (Z.mod_pos_bound v prime ltac:(lia)).
  destruct (bn_sub_ok 9 a b A1 B1) as (r & cf & E & Hr & Hc & Er & Hf). unfold bn_modsub. rewrite E. destruct (cf =? 0) eqn:Ec; b2p; cbn [negb].
  - subst cf. lia.
  - assert (cf = 1) as -> by lia. destruct Hf as [Hf _]. specialize (Hf eq_refl). destruct val_prime as [Bp Vp]. destruct (bn_add_wrap 9 r ec_prime Hr Bp) as [S1 S2].
    rewrite S2, Er, Vp, Z.mul_1_l. change (64 * Z.of_nat 9) with 576. erewrite <-(Z.mod_unique _ (2 ^ 576) 1 (val a - val b + prime)); [lia| |lia]. left. unfold prime in *. lia.
Qed.

(** ** Reduction by the order *)

Definition order : Z := val ec_order.
Definition order_gap : Z := 2 ^ 521 - order.

Lemma val_order : bn 9 ec_order /\ 2 ^ 258 < order_gap < 2 ^ 259 /\ order = 2 ^ 521 - order_gap.
Proof. split; [split; [done|repeat constructor; done]|]. split; [split; vm_compute; reflexivity|]. unfold order_gap. lia. Qed.

Lemma val_qn : bn 9 ec_order_qn /\ val ec_order_qn = order_gap - 1.
Proof. split; [split; [done|repeat constructor; done]|by vm_compute]. Qed.

(** The quotient is at most two and a little too small. *)
Lemma quotient_bounds B G A H L F R : 0 < B -> 0 < G -> 8 * G < B -> 4 * (G * G) < B -> A = B * H + L -> 0 <= L < B -> 0 <= H < B ->
  H * (G - 1) = B * F + R -> 0 <= R < B -> 0 <= A - (H + F) * (B - G) < 4 * (B - G).
Proof.
  intros PB PG HG8 HGG DA ML HH DF MF.
  assert (E : B * (A - (H + F) * (B - G)) = B * L + H * B + H * (G * G - G) + R * (B - G)).
  { rewrite DA. assert (B * F = H * (G - 1) - R) as EF by lia. transitivity (B * B * H + B * L - (B * H + B * F) * (B - G)); [ring|]. rewrite EF. ring. }
  assert (G0 : 0 <= G * G - G) by nia. set (K := G * G - G) in *. assert (HK : 4 * K < B) by lia. clearbody K. clear HGG.
  assert (P1 : 0 <= B * L <= B * B - B) by (split; [apply Z.mul_nonneg_nonneg; lia|replace (B * B - B) with (B * (B - 1)) by ring; apply Z.mul_le_mono_nonneg_l; lia]).
  assert (P2 : 0 <= H * B <= B * B - B) by (split; [apply Z.mul_nonneg_nonneg; lia|replace (B * B - B) with ((B - 1) * B) by ring; apply Z.mul_le_mono_nonneg_r; lia]).
  assert (P3 : 0 <= H * K /\ 4 * (H * K) <= B * B).
  { split; [apply Z.mul_nonneg_nonneg; lia|]. replace (4 * (H * K)) with (H * (4 * K)) by ring. apply Z.mul_le_mono_nonneg; lia. }
  assert (P4 : 0 <= R * (B - G) <= B * B - B * G) by (split; [apply Z.mul_nonneg_nonneg; lia|rewrite <-Z.mul_sub_distr_l; apply Z.mul_le_mono_nonneg_r; lia]).
  assert (P5 : 8 * (B * G) <= B * B) by (replace (8 * (B * G)) with (B * (8 * G)) by ring; apply Z.mul_le_mono_nonneg_l; lia).
  split.
  - apply (Z.mul_le_mono_pos_l _ _ B PB). rewrite E. lia.
  - apply (Z.mul_lt_mono_pos_l B _ _ PB). rewrite E. replace (B * (4 * (B - G))) with (4 * (B * B) - 4 * (B * G)) by ring. lia.
Qed.

Lemma quotient_close A q G : 0 < G < 2 ^ 259 -> 0 <= A < 2 ^ 1042 -> q = A / 2 ^ 521 + (A / 2 ^ 521 * (G - 1)) / 2 ^ 521 ->
  0 <= A - q * (2 ^ 521 - G) < 4 * (2 ^ 521 - G).
Proof.
  intros HG HA ->. apply (quotient_bounds _ _ _ _ (A mod 2 ^ 521) _ ((A / 2 ^ 521 * (G - 1)) mod 2 ^ 521)); try lia.
  - replace (2 ^ 521) with (4 * (2 ^ 259 * 2 ^ 260)) by reflexivity. apply Z.mul_lt_mono_pos_l; [lia|]. apply Z.mul_lt_mono_nonneg; lia.
  - apply Z.div_mod. lia.
  - apply Z.mod_pos_bound. lia.
  - split; [apply Z.div_pos; lia|apply Z.div_lt_upper_bound; lia].
  - apply Z.div_mod. lia.
  - apply Z.mod_pos_bound. lia.
Qed.

Lemma sub_order r : bn 9 r -> bn 9 (if 0 <=? bn_cmp r ec_order then (bn_sub r ec_order).1 else r) /\
  val (if 0 <=? bn_cmp r ec_order then (bn_sub r ec_order).1 else r) = if order <=? val r then val r - order else val r.
Proof.
  intros Hr. destruct val_order as (Bo & _). rewrite (bn_cmp_ge 9) by done. fold order. destruct (order <=? val r) eqn:E; b2p; [|done].
  by apply (bn_sub_le 9).
Qed.

(** Congruent, and less than twice the order. *)
Lemma bn_modred_p521_order_ok a : bn 18 a -> val a < 2 ^ 1042 ->
  bn 9 (bn_modred_p521_order a) /\ val (bn_modred_p521_order a) < 2 * order /\ val (bn_modred_p521_order a) mod order = val a mod order.
Proof.
  intros Ha Hv. destruct val_order as (Bo & HG & Eo). destruct val_qn as (Bq & Vq). pose proof (val_bound 18 a Ha) as [Hv0 _]. unfold bn_modred_p521_order.
  assert (Shl : forall d, bn 18 d -> val d / 2 ^ 521 < 2 ^ 576 -> bn 9 (bn_shl (take 9 d) (nth 9 d 0)) /\ val (bn_shl (take 9 d) (nth 9 d 0)) = val d / 2 ^ 521).
  { intros d Hd Hs. pose proof (bn_take 18 9 d Hd ltac:(lia)) as Ht. destruct (bn_shl_ok 9 (take 9 d) (nth 9 d 0) Ht (bn_nth 18 d 9 Hd)) as [S1 S2]. split; [done|]. rewrite S2.
    pose proof (val_split 9 9 d Hd) as Ed. pose proof (bn_drop 18 9 d Hd) as Hdr. pose proof (val_split 1 8 (drop 9 d) Hdr) as Ed2.
    assert (En : val (take 1 (drop 9 d)) = nth 9 d 0).
    { destruct Hd as [Ld _]. do 10 (destruct d as [|? d]; [done|]). change (z8 * 1 + 0 = z8). lia. }
    pose proof (val_bound 8 (drop 1 (drop 9 d)) (bn_drop 9 1 _ Hdr)) as Bl. change (64 * Z.of_nat 9) with 576 in *. change (64 * Z.of_nat 8) with 512 in *.
    assert (Ed3 : val d = (val (take 9 d) * 2 ^ 64 + nth 9 d 0) * 2 ^ 512 + val (drop 1 (drop 9 d))) by (rewrite Ed, Ed2, En; change (2 ^ 576) with (2 ^ 64 * 2 ^ 512); ring).
    change (2 ^ 521) with (2 ^ 512 * 2 ^ 9) in Hs |- *. rewrite <-Z.div_div in Hs |- * by lia. replace (val d / 2 ^ 512) with (val (take 9 d) * 2 ^ 64 + nth 9 d 0) in *.
    - rewrite Z.mod_small; [done|]. split; [|done]. pose proof (val_bound 9 _ Ht). pose proof (bn_nth 18 d 9 Hd) as [? _]. apply Z.div_pos; lia.
    - apply Z.div_unique with (r := val (drop 1 (drop 9 d))); [left; lia|lia]. }
  assert (HA : 0 <= val a / 2 ^ 521 < 2 ^ 521) by (split; [apply Z.div_pos; lia|apply Z.div_lt_upper_bound; lia]).
  destruct (Shl a Ha ltac:(lia)) as [S1 S2]. set (r0 := bn_shl (take 9 a) (nth 9 a 0)) in *.
  destruct (bn_mul_ok 8 r0 ec_order_qn S1 Bq) as [M1 M2]. rewrite S2, Vq in M2.
  assert (HB : 0 <= val a / 2 ^ 521 * (order_gap - 1) / 2 ^ 521 < 2 ^ 521) by (split; [apply Z.div_pos; nia|apply Z.div_lt_upper_bound; nia]).
  destruct (Shl _ M1 ltac:(rewrite M2; lia)) as [T1 T2]. rewrite M2 in T2. set (d0 := bn_shl (take 9 (bn_mul r0 ec_order_qn)) _) in *.
  destruct (bn_add_ok 9 r0 d0 S1 T1 ltac:(rewrite S2, T2; change (64 * Z.of_nat 9) with 576; lia)) as [A1 A2]. rewrite S2, T2 in A2.
  destruct (bn_mul_ok 8 (bn_add r0 d0) ec_order A1 Bo) as [N1 N2]. fold order in N2. set (q := val (bn_add r0 d0)) in *.
  pose proof (quotient_close (val a) q order_gap ltac:(lia) ltac:(lia) A2) as [Q1 Q2]. rewrite <-Eo in Q1, Q2.
  destruct (bn_sub_wrap 9 (drop 9 a) (drop 9 (bn_mul (bn_add r0 d0) ec_order)) (bn_drop 18 9 a Ha) (bn_drop 18 9 _ N1)) as [U1 U2].
  set (r2 := (bn_sub (drop 9 a) _).1) in *. assert (V2 : val r2 = val a - q * order).
  { rewrite U2. pose proof (val_split 9 9 a Ha) as Ea. pose proof (val_split 9 9 _ N1) as Eb. rewrite N2 in Eb. change (64 * Z.of_nat 9) with 576 in *.
    symmetry. apply Z.mod_unique with (q := val (take 9 (bn_mul (bn_add r0 d0) ec_order)) - val (take 9 a)); [left; lia|lia]. }
  clearbody r2. destruct (sub_order r2 U1) as [W1 W2]. set (r3 := if 0 <=? bn_cmp r2 ec_order then _ else r2) in *. clearbody r3.
  destruct (sub_order r3 W1) as [X1 X2]. set (r4 := if 0 <=? bn_cmp r3 ec_order then _ else r3) in *. clearbody r4. split; [done|].
  assert (E : exists k, val r4 = val a - k * order /\ val r4 < 2 * order).
  { rewrite X2, W2, V2. destruct (order <=? val a - q * order) eqn:E1; b2p.
    - destruct (order <=? val a - q * order - order) eqn:E2; b2p; [exists (q + 2)|exists (q + 1)]; split; lia.
    - destruct (order <=? val a - q * order) eqn:E2; b2p; [lia|]. exists q. split; lia. }
  destruct E as (k & E & Hk). split; [done|]. rewrite E. replace (val a - k * order) with (val a + (- k) * order) by ring. apply Z.mod_add. lia.
Qed.
