(* ===== verification/BnInv.v ===== *)
(** * The modular inverse of the signature check ([bn_modinv], [ecverify.C])

    Euclid's algorithm with shifts for quotients, on numbers in two's complement;
    the signs are read from one bit of the first word, so the coefficients must
    stay below it: they do, because each is small where its partner is large. *)

From Stdlib Require Import Znumtheory.
From S2P Require Import Prelude Bignum.

Implicit Types (a r s u v : list Z).

(** From the last word on; [bits] is not 0. *)
Fixpoint shl_loop r (bits : Z) : list Z * Z :=
  match r with
  | [] => ([], 0)
  | w :: r => let '(r, cfin) := shl_loop r bits in (Z.lor (u64 (Z.shiftl w bits)) cfin :: r, Z.shiftr w (BN_BITS - bits))
  end.
(** For [rn = NWORDS], as it is called. *)
Definition bn_shl_n r (bits : Z) : list Z :=
  let '(r, bits) :=
    if BN_BITS <=? bits then let cfin := Z.to_nat (bits / BN_BITS) in (drop cfin r ++ bn_clr cfin, bits mod BN_BITS) else (r, bits) in
  if negb (bits =? 0) then (shl_loop r bits).1 else r.

(** At most 7 and 8 rounds. *)
Fixpoint bits_word8 (fuel : nat) (an full : Z) : Z * Z :=
  match fuel with O => (an, full) | S fuel => if 0xff <? an then bits_word8 fuel (Z.shiftr an 8) (full + 8) else (an, full) end.
Fixpoint bits_word1 (fuel : nat) (an full : Z) : Z :=
  match fuel with O => full | S fuel => if negb (an =? 0) then bits_word1 fuel (Z.shiftr an 1) (full + 1) else full end.
Fixpoint bits_loop a (full : Z) : Z :=
  match a with
  | [] => 0
  | an :: a =>
      let full := full - BN_BITS in
      if an =? 0 then bits_loop a full else let '(an, full) := bits_word8 7 an full in bits_word1 8 an full
  end.
Definition bn_bits a : Z := bits_loop a (BN_BITS * Z.of_nat NWORDS).

Definition bn_is_negative a : bool := negb (Z.land 0x1000 (hd 0 a) =? 0).

(** [pr], [ps], [pu] and [pv] are swapped as values. *)
Fixpoint modinv_loop (fuel : nat) r s u v (ub vb : Z) : outcome (list Z * list Z) :=
  match fuel with
  | O => Crash BadAccess
  | S fuel =>
      if 1 <? vb then
        let shl := u32 (ub - vb) in
        let vs := if negb (shl =? 0) then bn_shl_n v shl else v in
        let ss := if negb (shl =? 0) then bn_shl_n s shl else s in
        let '(u, r) :=
          if Bool.eqb (bn_is_negative v) (bn_is_negative u) then ((bn_sub u vs).1, (bn_sub r ss).1) else (bn_add u vs, bn_add r ss) in
        let ub := if bn_is_negative u then bn_bits (bn_sub (bn_clr NWORDS) u).1 else bn_bits u in
        if ub <? vb then modinv_loop fuel s r v u vb ub else modinv_loop fuel r s u v ub vb
      else Done (s, v)
  end.

(** Each round takes a bit from one of two numbers of [EC_PRIMEBITS]. *)
Definition bn_modinv a (n : list Z) : outcome (list Z) :=
  do x <- modinv_loop (S (2 * Z.to_nat EC_PRIMEBITS)) (bn_clr NWORDS) bn_one n a EC_PRIMEBITS (bn_bits a);
  let '(ps, pv) := x in
  let ps := if bn_is_negative pv then (bn_sub (bn_clr NWORDS) ps).1 else ps in
  let ps := if bn_is_negative ps then bn_add ps n else ps in
  Done (if 0 <=? bn_cmp ps n then (bn_sub ps n).1 else ps).

(** ** Shifts and bits *)

Definition nbits (x : Z) : Z := if x =? 0 then 0 else Z.log2 x + 1.

Lemma nbits_spec x k : 0 <= x -> 0 <= k -> nbits x <= k <-> x < 2 ^ k.
Proof.
  intros Hx Hk. unfold nbits. destruct (x =? 0) eqn:E; b2p; [subst; split; [intros _; by apply Z.pow_pos_nonneg|done]|].
  rewrite Z.log2_lt_pow2 by lia. lia.
Qed.

Lemma nbits_nonneg x : 0 <= nbits x.
Proof. unfold nbits. destruct (x =? 0); [done|]. pose proof (Z.log2_nonneg x). lia. Qed.

Lemma nbits_low x : 0 < x -> 2 ^ (nbits x - 1) <= x < 2 ^ nbits x.
Proof.
  intros Hx. unfold nbits. destruct (x =? 0) eqn:E; b2p; [lia|]. replace (Z.log2 x + 1 - 1) with (Z.log2 x) by lia. by apply Z.log2_spec.
Qed.

Lemma bits_word1_ok fuel : forall an full, is_word (Z.of_nat fuel) an -> bits_word1 fuel an full = full + nbits an.
Proof.
  induction fuel as [|fuel IH]; intros an full [H0 H1]; cbn [bits_word1].
  - assert (an = 0) as -> by (change (2 ^ Z.of_nat 0) with 1 in H1; lia). change (nbits 0) with 0. lia.
  - destruct (an =? 0) eqn:E; b2p; cbn [negb]; [subst; change (nbits 0) with 0; lia|].
    rewrite Nat2Z.inj_succ, Z.pow_succ_r in H1 by lia. rewrite Z.shiftr_div_pow2, Z.pow_1_r by lia.
    assert (Hd : 0 <= an / 2 < 2 ^ Z.of_nat fuel) by (split; [apply Z.div_pos; lia|apply Z.div_lt_upper_bound; lia]). rewrite IH by done.
    unfold nbits. destruct (an / 2 =? 0) eqn:E2; b2p.
    + assert (an = 1) as -> by (Z.div_mod_to_equations; lia). cbn. lia.
    + rewrite (proj2 (Z.eqb_neq an 0)) by done. rewrite <-Z.shiftr_div_pow2 with (n := 1) by lia. rewrite Z.log2_shiftr by lia.
      assert (1 <= Z.log2 an) by (apply Z.log2_le_pow2; Z.div_mod_to_equations; lia). lia.
Qed.

Lemma bits_word8_ok fuel : forall an full, 0 < an -> an < 2 ^ (8 * Z.of_nat fuel + 8) ->
  exists an' full', bits_word8 fuel an full = (an', full') /\ 0 < an' < 2 ^ 8 /\ full' + nbits an' = full + nbits an.
Proof.
  induction fuel as [|fuel IH]; intros an full H0 H1; cbn [bits_word8]; [exists an, full; done|].
  destruct (255 <? an) eqn:E; b2p; [|exists an, full; split_and!; try done; lia]. rewrite Z.shiftr_div_pow2 by lia.
  assert (Hd : 0 < an / 2 ^ 8 < 2 ^ (8 * Z.of_nat fuel + 8)).
  { split; [apply Z.div_str_pos; lia|apply Z.div_lt_upper_bound; [lia|]]. rewrite <-Z.pow_add_r by lia. by replace (8 + (8 * Z.of_nat fuel + 8)) with (8 * Z.of_nat (S fuel) + 8) by lia. }
  destruct (IH (an / 2 ^ 8) (full + 8) ltac:(lia) ltac:(lia)) as (an' & full' & -> & Ha & Hf). exists an', full'. split_and!; try done; try lia. rewrite Hf.
  unfold nbits. rewrite !(proj2 (Z.eqb_neq _ 0)) by lia. rewrite <-Z.shiftr_div_pow2, Z.log2_shiftr by lia.
  assert (8 <= Z.log2 an) by (apply Z.log2_le_pow2; lia). lia.
Qed.

Lemma bits_loop_ok n : forall a, bn n a -> bits_loop a (64 * Z.of_nat n) = nbits (val a).
Proof.
  induction n as [|n IH]; intros [|w a] [Hl Hf]; cbn in Hl; try done. apply Forall_cons in Hf as [[W0 W1] Hf]. assert (Ba : bn n a) by (split; [lia|done]).
  cbn [bits_loop]. change BN_BITS with 64. replace (64 * Z.of_nat (S n) - 64) with (64 * Z.of_nat n) by lia. cbn [val]. replace (length a) with n by lia.
  destruct (w =? 0) eqn:E; b2p; [subst; rewrite Z.mul_0_l, Z.add_0_l; by apply IH|].
  destruct (bits_word8_ok 7 w (64 * Z.of_nat n) ltac:(lia) ltac:(done)) as (an & full & -> & Ha & Hf'). rewrite bits_word1_ok by (split; lia). rewrite Hf'.
  pose proof (val_bound n a Ba) as Bv. pose proof (pow_pos_64 n). unfold nbits. rewrite !(proj2 (Z.eqb_neq _ 0)) by nia.
  rewrite Z.add_assoc. f_equal. symmetry. pose proof (Z.log2_nonneg w). apply Z.log2_unique; [lia|]. destruct (Z.log2_spec w ltac:(lia)) as [L1 L2].
  rewrite Z.pow_add_r, Z.pow_succ_r, Z.pow_add_r by lia. rewrite Z.pow_succ_r in L2 by lia. nia.
Qed.

Lemma bn_bits_ok a : bn 9 a -> bn_bits a = nbits (val a).
Proof. apply bits_loop_ok. Qed.

Lemma shl_loop_ok n bits : 0 < bits < 64 -> forall r, bn n r -> exists r' c, shl_loop r bits = (r', c) /\ bn n r' /\ 0 <= c < 2 ^ bits /\
  val r' + c * 2 ^ (64 * Z.of_nat n) = val r * 2 ^ bits.
Proof.
  intros Hb. induction n as [|n IH]; intros [|w r] [Hl Hf]; cbn in Hl; try done.
  - exists [], 0. cbn. pose proof (Z.pow_pos_nonneg 2 bits ltac:(lia) ltac:(lia)). split_and!; try done; try lia.
  - apply Forall_cons in Hf as [[W0 W1] Hf]. destruct (IH r ltac:(split; [lia|done])) as (r' & c & E & Hr & Hc & Ev). cbn [shl_loop]. rewrite E. change BN_BITS with 64.
    rewrite Z.shiftl_mul_pow2, Z.shiftr_div_pow2 by lia.
    assert (P2 : 2 ^ 64 = 2 ^ (64 - bits) * 2 ^ bits) by (rewrite <-Z.pow_add_r by lia; f_equal; lia). pose proof (Z.pow_pos_nonneg 2 bits ltac:(lia) ltac:(lia)) as Pb.
    pose proof (Z.pow_pos_nonneg 2 (64 - bits) ltac:(lia) ltac:(lia)) as Pc.
    assert (Eu : u64 (w * 2 ^ bits) = (w mod 2 ^ (64 - bits)) * 2 ^ bits) by (unfold wrap; rewrite P2; apply Z.mul_mod_distr_r; lia).
    assert (El : Z.lor (u64 (w * 2 ^ bits)) c = (w mod 2 ^ (64 - bits)) * 2 ^ bits + c).
    { rewrite Eu. set (m := w mod _). rewrite <-Z.shiftl_mul_pow2 by lia. symmetry.
      rewrite <-Z.lxor_lor, <-Z.add_nocarry_lxor; [done| |]; apply Z.bits_inj'; intros i Hi; rewrite Z.land_spec, Z.shiftl_spec, Z.bits_0 by done.
      all: destruct (decide (i < bits)); [by rewrite (Z.testbit_neg_r _ (i - bits)) by lia|]; rewrite (word_bits_high bits c) by (done || lia); apply andb_false_r. }
    rewrite El. pose proof (Z.div_mod w (2 ^ (64 - bits)) ltac:(lia)) as D. pose proof (Z.mod_pos_bound w (2 ^ (64 - bits)) ltac:(lia)) as M.
    assert (Q : 0 <= w / 2 ^ (64 - bits) < 2 ^ bits) by (split; [apply Z.div_pos; lia|apply Z.div_lt_upper_bound; lia]).
    set (m := w mod _) in *. set (d := w / _) in *. clearbody m d. eexists _, _. split; [reflexivity|]. split; [apply bn_cons; split; [split; nia|done]|]. split; [done|].
    cbn [val]. destruct Hr as [-> _]. replace (length r) with n by lia. rewrite pow_succ_64, P2. set (Bn := 2 ^ (64 * Z.of_nat n)) in *. clearbody Bn. subst w. nia.
Qed.

Lemma bn_shl_n_ok r bits : bn 9 r -> 0 <= bits < 576 -> bn 9 (bn_shl_n r bits) /\ val (bn_shl_n r bits) = (val r * 2 ^ bits) mod 2 ^ 576.
Proof.
  intros Hr Hb. unfold bn_shl_n. change BN_BITS with 64.
  assert (G : forall r1 b1, bn 9 r1 -> 0 <= b1 < 64 -> bn 9 (if negb (b1 =? 0) then (shl_loop r1 b1).1 else r1) /\
    val (if negb (b1 =? 0) then (shl_loop r1 b1).1 else r1) = (val r1 * 2 ^ b1) mod 2 ^ 576).
  { intros r1 b1 H1 Hb1. pose proof (val_bound 9 r1 H1) as B1. change (64 * Z.of_nat 9) with 576 in B1. destruct (b1 =? 0) eqn:E; b2p; cbn [negb].
    - subst. rewrite Z.pow_0_r, Z.mul_1_r, Z.mod_small by lia. done.
    - destruct (shl_loop_ok 9 b1 ltac:(lia) r1 H1) as (r' & c & -> & Hr' & Hc & Ev). split; [done|]. cbn [fst]. pose proof (val_bound 9 r' Hr') as B2.
      change (64 * Z.of_nat 9) with 576 in *. apply Z.mod_unique with (q := c); [left; lia|lia]. }
  destruct (64 <=? bits) eqn:E; b2p; [|apply G; [done|lia]].
  set (k := Z.to_nat (bits / 64)). assert (Hk : (k <= 9)%nat) by (unfold k; assert (0 <= bits / 64 <= 8) by (Z.div_mod_to_equations; lia); lia).
  pose proof (bn_drop 9 k r Hr) as Hd. assert (Hn : bn 9 (drop k r ++ bn_clr k)) by (replace 9%nat with ((9 - k) + k)%nat by lia; apply bn_app; [done|apply bn_zeros]).
  destruct (G _ (bits mod 64) Hn ltac:(apply Z.mod_pos_bound; lia)) as [G1 G2]. split; [done|]. rewrite G2, val_app, val_zeros, Z.add_0_r. destruct (bn_zeros k) as [-> _].
  assert (E9 : bn (k + (9 - k)) r) by (by replace (k + (9 - k))%nat with 9%nat by lia). rewrite (val_split k (9 - k) r E9).
  assert (Eb : 2 ^ bits = 2 ^ (64 * Z.of_nat k) * 2 ^ (bits mod 64)).
  { rewrite <-Z.pow_add_r; [|lia|apply Z.mod_pos_bound; lia]. f_equal. unfold k. rewrite Z2Nat.id by (apply Z.div_pos; lia). apply Z.div_mod. lia. }
  assert (E5 : 2 ^ 576 = 2 ^ (64 * Z.of_nat (9 - k)) * 2 ^ (64 * Z.of_nat k)) by (rewrite <-Z.pow_add_r by lia; f_equal; lia).
  rewrite Eb. replace ((val (take k r) * 2 ^ (64 * Z.of_nat (9 - k)) + val (drop k r)) * (2 ^ (64 * Z.of_nat k) * 2 ^ (bits mod 64)))
    with (val (drop k r) * 2 ^ (64 * Z.of_nat k) * 2 ^ (bits mod 64) + val (take k r) * 2 ^ (bits mod 64) * (2 ^ (64 * Z.of_nat (9 - k)) * 2 ^ (64 * Z.of_nat k))) by ring.
  rewrite <-E5, Z.mod_add by lia. done.
Qed.

(** ** Two's complement *)

Definition signed a (v : Z) : Prop := bn 9 a /\ val a = v mod 2 ^ 576.

Lemma signed_val a : bn 9 a -> signed a (val a).
Proof. intros H. split; [done|]. symmetry. apply Z.mod_small. by apply (val_bound 9). Qed.

Lemma signed_nonneg a x : signed a x -> 0 <= x < 2 ^ 576 -> val a = x.
Proof. intros [_ H] Hv. rewrite H. by apply Z.mod_small. Qed.

Lemma signed_sub a b x y : signed a x -> signed b y -> signed (bn_sub a b).1 (x - y).
Proof. intros [A1 A2] [B1 B2]. destruct (bn_sub_wrap 9 a b A1 B1) as [S1 S2]. split; [done|]. rewrite S2, A2, B2. change (64 * Z.of_nat 9) with 576. by rewrite <-Zminus_mod. Qed.

Lemma signed_add a b x y : signed a x -> signed b y -> signed (bn_add a b) (x + y).
Proof. intros [A1 A2] [B1 B2]. destruct (bn_add_wrap 9 a b A1 B1) as [S1 S2]. split; [done|]. rewrite S2, A2, B2. change (64 * Z.of_nat 9) with 576. by rewrite <-Z.add_mod. Qed.

Lemma signed_neg a x : signed a x -> signed (bn_sub (bn_clr NWORDS) a).1 (- x).
Proof. intros H. replace (- x) with (0 - x) by lia. apply signed_sub; [|done]. split; [apply (bn_zeros 9)|by rewrite val_zeros]. Qed.

Lemma signed_shl a x bits : signed a x -> 0 <= bits < 576 -> signed (if negb (bits =? 0) then bn_shl_n a bits else a) (x * 2 ^ bits).
Proof.
  intros [A1 A2] Hb. destruct (bits =? 0) eqn:E; b2p; cbn [negb]; [subst; rewrite Z.pow_0_r, Z.mul_1_r; done|].
  destruct (bn_shl_n_ok a bits A1 Hb) as [S1 S2]. split; [done|]. by rewrite S2, A2, Z.mul_mod_idemp_l by lia.
Qed.

Lemma negative_ok a x : signed a x -> Z.abs x < 2 ^ 524 -> bn_is_negative a = (x <? 0).
Proof.
  intros [A1 A2] Hx. destruct a as [|w a]; [by destruct A1|]. unfold bn_is_negative. cbn [hd]. apply bn_cons in A1 as [[W0 W1] Ha]. pose proof (val_bound 8 a Ha) as Bv.
  cbn [val] in A2. destruct Ha as [La _]. rewrite La in A2. change (64 * Z.of_nat 8) with 512 in *.
  change 0x1000 with (2 ^ 12). assert (El : (Z.land (2 ^ 12) w =? 0) = negb (Z.testbit w 12)).
  { rewrite Z.land_comm. destruct (Z.testbit w 12) eqn:E; cbn [negb].
    - apply Z.eqb_neq. intros H. apply (f_equal (fun z => Z.testbit z 12)) in H. rewrite Z.land_spec, E, Z.bits_0 in H. done.
    - apply Z.eqb_eq. apply Z.bits_inj'. intros i Hi. rewrite Z.land_spec, Z.bits_0, Z.pow2_bits_eqb by lia. destruct (Z.eqb_spec 12 i); [subst; by rewrite E|apply andb_false_r]. }
  rewrite El, negb_involutive, Z.testbit_eqb by lia. destruct (x <? 0) eqn:Es; b2p.
  - assert (Ex : x mod 2 ^ 576 = x + 2 ^ 576) by (symmetry; apply Z.mod_unique with (q := -1); lia). rewrite Ex in A2. apply Z.eqb_eq.
    assert (Hw : w / 2 ^ 12 = 2 ^ 52 - 1) by (symmetry; apply Z.div_unique with (r := w - (2 ^ 52 - 1) * 2 ^ 12); [left; lia|lia]). by rewrite Hw.
  - rewrite Z.mod_small in A2 by lia. apply Z.eqb_neq. rewrite Z.div_small by lia. done.
Qed.

Lemma signed_bits a x : signed a x -> Z.abs x < 2 ^ 524 -> (if bn_is_negative a then bn_bits (bn_sub (bn_clr NWORDS) a).1 else bn_bits a) = nbits (Z.abs x).
Proof.
  intros H Hx. rewrite (negative_ok a x H Hx). destruct (x <? 0) eqn:E; b2p.
  - pose proof (signed_neg a x H) as Hn. rewrite bn_bits_ok by apply Hn. rewrite (signed_nonneg _ _ Hn) by lia. f_equal. lia.
  - rewrite bn_bits_ok by apply H. rewrite (signed_nonneg _ _ H) by lia. f_equal. lia.
Qed.

(** ** The loop *)

Section inverse.
Variables (N A : Z).
Hypothesis HN : 2 ^ 520 <= N < 2 ^ 521.

(** The numbers of a state. *)
Record euclid (R S U V ub vb : Z) : Prop := {
  eu_r : (N | U - R * A);
  eu_s : (N | V - S * A);
  eu_det : Z.abs (U * S - V * R) = N;
  eu_gcd : Z.gcd U V = 1;
  eu_ub : ub = nbits (Z.abs U);
  eu_vb : vb = nbits (Z.abs V);
  eu_order : vb <= ub;
  eu_range : 2 <= ub <= 521;
  eu_small : Z.abs S * Z.abs U <= 2 * N;
  eu_next : Z.abs S * 2 ^ (vb - 1) <= N
}.

Lemma euclid_bounds R S U V ub vb : euclid R S U V ub vb -> 2 ^ (ub - 1) <= Z.abs U < 2 ^ ub /\ Z.abs U < 2 ^ 521 /\ 0 <= vb /\ (1 <= vb -> 2 ^ (vb - 1) <= Z.abs V < 2 ^ vb) /\ Z.abs V < 2 ^ 521 /\ Z.abs S <= N.
Proof.
  intros [H1 H2 H3 H4 -> -> H7 H8 H9 H10]. assert (U0 : 0 < Z.abs U). { unfold nbits in H8. destruct (Z.abs U =? 0) eqn:E; b2p; lia. }
  pose proof (nbits_low _ U0) as B. assert (B2 : Z.abs U < 2 ^ 521) by (apply nbits_spec; lia). assert (V2 : Z.abs V < 2 ^ 521) by (apply nbits_spec; lia).
  pose proof (nbits_nonneg (Z.abs V)). split_and!; try done; try lia.
  - intros Hv. apply nbits_low. unfold nbits in Hv. destruct (Z.abs V =? 0) eqn:E; b2p; lia.
  - assert (2 <= Z.abs U); [|pose proof (Z.mul_le_mono_nonneg_l 2 (Z.abs U) (Z.abs S) ltac:(lia) ltac:(done)); lia]. transitivity (2 ^ (nbits (Z.abs U) - 1)); [|lia]. rewrite <-(Z.pow_1_r 2) at 1. apply Z.pow_le_mono_r; lia.
Qed.

(** One subtraction or addition of the shifted numbers. *)
Lemma euclid_step R S U V ub vb c R' U' : euclid R S U V ub vb -> 2 <= vb -> c = (if Bool.eqb (V <? 0) (U <? 0) then -1 else 1) * 2 ^ (ub - vb) ->
  U' = U + V * c -> R' = R + S * c -> Z.abs U' < 2 ^ (ub - 1) /\ (N | U' - R' * A) /\ Z.abs (U' * S - V * R') = N /\ Z.gcd U' V = 1 /\ Z.abs S * Z.abs U' <= 2 * N /\
    (Z.abs U' < 2 ^ (vb - 1) -> Z.abs R' * Z.abs V <= 2 * N).
Proof.
  intros E Hvb Hc -> ->. pose proof (euclid_bounds _ _ _ _ _ _ E) as (B1 & _ & _ & B3 & _ & _). specialize (B3 ltac:(lia)). destruct E as [H1 H2 H3 H4 H5 H6 H7 H8 H9 H10].
  set (k := ub - vb) in *. assert (Pk : 0 < 2 ^ k) by (apply Z.pow_pos_nonneg; lia).
  assert (E1 : 2 ^ ub = 2 * 2 ^ (ub - 1)) by (rewrite <-Z.pow_succ_r by lia; f_equal; lia).
  assert (E2 : 2 ^ (ub - 1) = 2 ^ k * 2 ^ (vb - 1)) by (rewrite <-Z.pow_add_r by lia; f_equal; lia).
  assert (E3 : 2 ^ ub = 2 ^ k * 2 ^ vb) by (rewrite <-Z.pow_add_r by lia; f_equal; lia).
  assert (Bt : 2 ^ (ub - 1) <= 2 ^ k * Z.abs V < 2 ^ ub) by (rewrite E2, E3; split; nia).
  assert (Ha : Z.abs (U + V * c) < 2 ^ (ub - 1)).
  { rewrite Hc. assert (Et : Z.abs (V * 2 ^ k) = 2 ^ k * Z.abs V) by (rewrite Z.abs_mul, (Z.abs_eq (2 ^ k)) by lia; ring).
    assert (Es : V * 2 ^ k < 0 <-> V < 0) by (rewrite <-(Z.mul_0_l (2 ^ k)) at 2; symmetry; by apply Z.mul_lt_mono_pos_r). rewrite <-Et in Bt.
    replace (V * ((if Bool.eqb (V <? 0) (U <? 0) then -1 else 1) * 2 ^ k)) with ((if Bool.eqb (V <? 0) (U <? 0) then -1 else 1) * (V * 2 ^ k)) by ring.
    set (t := V * 2 ^ k) in *. clearbody t. destruct (V <? 0) eqn:Ev, (U <? 0) eqn:Eu; b2p; cbn [Bool.eqb]; lia. }
  split; [done|]. split. { replace (U + V * c - (R + S * c) * A) with ((U - R * A) + (V - S * A) * c) by ring. apply Z.divide_add_r; [done|]. by apply Z.divide_mul_l. }
  assert (Ed : (U + V * c) * S - V * (R + S * c) = U * S - V * R) by ring. split; [by rewrite Ed|].
  split. { rewrite Z.gcd_comm, (Z.mul_comm V), Z.gcd_add_mult_diag_r, Z.gcd_comm. done. }
  split; [transitivity (Z.abs S * Z.abs U); [apply Z.mul_le_mono_nonneg_l; lia|done]|].
  intros Hs. rewrite <-Ed in H3. rewrite <-Z.abs_mul, Z.mul_comm. assert (Z.abs S * Z.abs (U + V * c) <= N) as Hn by (transitivity (Z.abs S * 2 ^ (vb - 1)); [apply Z.mul_le_mono_nonneg_l; lia|done]).
  rewrite <-Z.abs_mul, Z.mul_comm in Hn. lia.
Qed.

(** What the loop leaves: the coefficient of a number of one bit. *)
Lemma modinv_loop_ok fuel : forall r s u v ub vb R S U V, signed r R -> signed s S -> signed u U -> signed v V -> euclid R S U V ub vb ->
  (Z.to_nat (ub + vb) < fuel)%nat -> exists s' v' S' V', modinv_loop fuel r s u v ub vb = Done (s', v') /\ signed s' S' /\ signed v' V' /\ Z.abs V' = 1 /\
    (N | V' - S' * A) /\ Z.abs S' <= N.
Proof.
  induction fuel as [|fuel IH]; intros r s u v ub vb R S U V Hr Hs Hu Hv E Hf; [lia|].
  pose proof (euclid_bounds _ _ _ _ _ _ E) as (B1 & B2 & B0 & B3 & B4 & B5). cbn [modinv_loop]. destruct (1 <? vb) eqn:Evb; b2p.
  2: { exists s, v, S, V. split; [done|]. split_and!; try done; [|by apply E]. destruct (decide (vb = 1)) as [->|Hne]; [specialize (B3 ltac:(lia)); cbn in B3; lia|].
       assert (V = 0) as ->. { destruct (eu_vb _ _ _ _ _ _ E). pose proof (eu_vb _ _ _ _ _ _ E) as Ev. unfold nbits in Ev. destruct (Z.abs V =? 0) eqn:Ea; b2p; [lia|].
         pose proof (Z.log2_nonneg (Z.abs V)). lia. }
       pose proof (eu_gcd _ _ _ _ _ _ E) as G. rewrite Z.gcd_0_r in G. pose proof (eu_range _ _ _ _ _ _ E). exfalso.
       assert (2 ^ 1 <= 2 ^ (ub - 1)) by (apply Z.pow_le_mono_r; lia). lia. }
  pose proof (eu_range _ _ _ _ _ _ E) as Rg. pose proof (eu_order _ _ _ _ _ _ E) as Or. rewrite (wrap_small 32 (ub - vb)) by (split; lia).
  pose proof (signed_shl v V (ub - vb) Hv ltac:(lia)) as Sv. pose proof (signed_shl s S (ub - vb) Hs ltac:(lia)) as Ss.
  set (vs := if negb (ub - vb =? 0) then bn_shl_n v (ub - vb) else v) in *. set (ss := if negb (ub - vb =? 0) then bn_shl_n s (ub - vb) else s) in *. clearbody vs ss.
  rewrite (negative_ok v V Hv), (negative_ok u U Hu) by lia. set (same := Bool.eqb (V <? 0) (U <? 0)).
  set (c := (if same then -1 else 1) * 2 ^ (ub - vb)). set (U' := U + V * c). set (R' := R + S * c).
  destruct (euclid_step R S U V ub vb c R' U' E ltac:(lia) eq_refl eq_refl eq_refl) as (C1 & C2 & C3 & C4 & C5 & C6).
  assert (Eq : exists u' r', (if same then ((bn_sub u vs).1, (bn_sub r ss).1) else (bn_add u vs, bn_add r ss)) = (u', r') /\ signed u' U' /\ signed r' R').
  { destruct same; eexists _, _; (split; [reflexivity|]); unfold U', R', c; split.
    - replace (U + V * (-1 * 2 ^ (ub - vb))) with (U - V * 2 ^ (ub - vb)) by ring. by apply signed_sub.
    - replace (R + S * (-1 * 2 ^ (ub - vb))) with (R - S * 2 ^ (ub - vb)) by ring. by apply signed_sub.
    - rewrite Z.mul_1_l. by apply signed_add.
    - rewrite Z.mul_1_l. by apply signed_add. }
  destruct Eq as (u' & r' & -> & Hu' & Hr'). clearbody U' R'. clear Sv Ss.
  assert (P2 : 2 ^ (ub - 1) <= 2 ^ 521) by (apply Z.pow_le_mono_r; lia). rewrite (signed_bits u' U' Hu') by lia.
  assert (Lb : nbits (Z.abs U') <= ub - 1) by (apply nbits_spec; lia). pose proof (nbits_nonneg (Z.abs U')) as Nn.
  destruct E as [H1 H2 H3 H4 H5 H6 H7 H8 H9 H10]. destruct (nbits (Z.abs U') <? vb) eqn:El; b2p.
  - assert (Us : Z.abs U' < 2 ^ (vb - 1)) by (apply nbits_spec; lia). specialize (C6 Us). destruct (B3 ltac:(lia)) as [B6 _].
    apply (IH s r' v u' vb (nbits (Z.abs U')) S R' V U'); try done; [|lia]. split; try done; try lia.
    + by rewrite Z.gcd_comm.
    + assert (2 * 2 ^ (nbits (Z.abs U') - 1) <= Z.abs V); [|clear - C6 H; pose proof (Z.mul_le_mono_nonneg_l _ _ (Z.abs R') (Z.abs_nonneg _) H); lia]. etransitivity; [|exact B6]. destruct (decide (nbits (Z.abs U') = 0)) as [->|].
      * change (2 ^ (0 - 1)) with 0. pose proof (Z.pow_pos_nonneg 2 (vb - 1) ltac:(lia) ltac:(lia)). lia.
      * rewrite <-Z.pow_succ_r by lia. apply Z.pow_le_mono_r; lia.
  - apply (IH r' s u' v (nbits (Z.abs U')) vb R' S U' V); try done; [|lia]. split; try done; lia.
Qed.
End inverse.

(** Where an inverse exists, it is found, reduced. *)
Lemma bn_modinv_ok a (n : list Z) : bn 9 a -> bn 9 n -> 2 ^ 520 <= val n < 2 ^ 521 -> val a < val n -> Z.gcd (val n) (val a) = 1 ->
  exists r, bn_modinv a n = Done r /\ bn 9 r /\ val r < val n /\ (val r * val a) mod val n = 1.
Proof.
  intros Ha Hn HN Hlt G. unfold bn_modinv. rewrite (bn_bits_ok a Ha). pose proof (val_bound 9 a Ha) as [A0 _].
  assert (A1 : 0 < val a). { destruct (decide (val a = 0)) as [Ez|]; [|lia]. rewrite Ez, Z.gcd_0_r in G. lia. }
  assert (En : nbits (val n) = EC_PRIMEBITS).
  { change EC_PRIMEBITS with 521. apply Z.le_antisymm; [apply nbits_spec; lia|]. unfold nbits. rewrite (proj2 (Z.eqb_neq _ 0)) by lia. enough (520 <= Z.log2 (val n)) by lia. apply Z.log2_le_pow2; lia. }
  assert (La : nbits (val a) <= 521) by (apply nbits_spec; lia). pose proof (nbits_nonneg (val a)) as Na. pose proof (nbits_low (val a) A1) as Nl.
  assert (E : euclid (val n) (val a) 0 1 (val n) (val a) EC_PRIMEBITS (nbits (val a))).
  { change EC_PRIMEBITS with 521 in *. split; rewrite ?Z.abs_eq by lia; try done; try lia.
    - rewrite Z.mul_0_l, Z.sub_0_r. apply Z.divide_refl.
    - rewrite Z.mul_1_l, Z.sub_diag. apply Z.divide_0_r. }
  destruct (modinv_loop_ok (val n) (val a) HN (S (2 * Z.to_nat EC_PRIMEBITS)) (bn_clr NWORDS) bn_one n a EC_PRIMEBITS (nbits (val a)) 0 1 (val n) (val a)) as (s' & v' & S' & V' & -> & Hs & Hv & V1 & Dv & Sb).
  { split; [apply (bn_zeros 9)|done]. }
  { split; [split; [done|repeat constructor; done]|done]. }
  { by apply signed_val. }
  { by apply signed_val. }
  { done. }
  { change EC_PRIMEBITS with 521. lia. }
  cbn [obind]. rewrite (negative_ok v' V' Hv) by lia.
  set (ps := if V' <? 0 then (bn_sub (bn_clr NWORDS) s').1 else s').
  assert (Hps : signed ps (V' * S')).
  { unfold ps. destruct (V' <? 0) eqn:Ev; b2p; [assert (V' = -1) as -> by lia; replace (-1 * S') with (- S') by ring; by apply signed_neg|].
    assert (V' = 1) as -> by lia. by rewrite Z.mul_1_l. }
  assert (Dp : (val n | 1 - V' * S' * val a)).
  { replace (1 - V' * S' * val a) with (V' * (V' - S' * val a)); [by apply Z.divide_mul_r|]. assert (V' = 1 \/ V' = -1) as [-> | ->] by lia; ring. }
  assert (Bp : Z.abs (V' * S') <= val n) by (rewrite Z.abs_mul, V1; lia). clearbody ps. set (p := V' * S') in *. clearbody p. clear Hs Hv V1 Dv Sb.
  rewrite (negative_ok ps p Hps) by lia. set (ps2 := if p <? 0 then bn_add ps n else ps). set (p2 := if p <? 0 then p + val n else p).
  assert (Hp2 : signed ps2 p2) by (unfold ps2, p2; destruct (p <? 0); [apply signed_add; [done|by apply signed_val]|done]).
  assert (B2 : 0 <= p2 <= val n) by (unfold p2; destruct (p <? 0) eqn:?; b2p; lia).
  assert (D2 : (val n | 1 - p2 * val a)).
  { unfold p2. destruct (p <? 0); [|done]. replace (1 - (p + val n) * val a) with (1 - p * val a + (- val a) * val n) by ring. apply Z.divide_add_r; [done|]. by apply Z.divide_mul_r. }
  clearbody ps2 p2. pose proof (signed_nonneg ps2 p2 Hp2 ltac:(lia)) as V2. destruct Hp2 as [Bq _]. eexists. split; [reflexivity|].
  rewrite (bn_cmp_ge 9) by done. rewrite V2. assert (Fin : forall x, 0 <= x < val n -> (val n | 1 - x * val a) -> (x * val a) mod val n = 1).
  { intros x Hx [k Hk]. symmetry. apply Z.mod_unique with (q := - k); [left; lia|lia]. }
  destruct (val n <=? p2) eqn:Ec; b2p.
  - destruct (bn_sub_le 9 ps2 n Bq Hn ltac:(lia)) as [S1 S2]. split; [done|]. rewrite S2, V2. split; [lia|]. apply Fin; [lia|].
    replace (1 - (p2 - val n) * val a) with (1 - p2 * val a + val a * val n) by ring. apply Z.divide_add_r; [done|]. by apply Z.divide_mul_r.
  - split; [done|]. rewrite V2. split; [done|]. apply Fin; [lia|done].
Qed.
