(* ===== verification/Sha512.v ===== *)
(** * SHA-512 ([src/securerom/contrib/sha512.C], [src/include/securerom/contrib/sha512.H])

    The hash of the secure ROM, with [SHA512_FIX] as its makefile defines it.
    [SHA512_Transform] expands a block in place, in a ring of 16 words that is
    the context's buffer; the target is big-endian, so words are read from bytes
    without a swap.  The specification is the standard's: the padding, the
    schedule of 80 words and the compression of the blocks one after another. *)

From S2P Require Import Prelude.

Implicit Types (data block msg w : list Z).

(** ** Constants *)

Definition SHA512_BLOCK_LENGTH : nat := 128.
Definition SHA512_SHORT_BLOCK_LENGTH : nat := SHA512_BLOCK_LENGTH - 16.

Definition sha512_initial_hash_value : list Z :=
  [0x6a09e667f3bcc908; 0xbb67ae8584caa73b; 0x3c6ef372fe94f82b; 0xa54ff53a5f1d36f1;
   0x510e527fade682d1; 0x9b05688c2b3e6c1f; 0x1f83d9abfb41bd6b; 0x5be0cd19137e2179].

Definition K512 : list Z :=
  [0x428a2f98d728ae22; 0x7137449123ef65cd; 0xb5c0fbcfec4d3b2f; 0xe9b5dba58189dbbc;
   0x3956c25bf348b538; 0x59f111f1b605d019; 0x923f82a4af194f9b; 0xab1c5ed5da6d8118;
   0xd807aa98a3030242; 0x12835b0145706fbe; 0x243185be4ee4b28c; 0x550c7dc3d5ffb4e2;
   0x72be5d74f27b896f; 0x80deb1fe3b1696b1; 0x9bdc06a725c71235; 0xc19bf174cf692694;
   0xe49b69c19ef14ad2; 0xefbe4786384f25e3; 0x0fc19dc68b8cd5b5; 0x240ca1cc77ac9c65;
   0x2de92c6f592b0275; 0x4a7484aa6ea6e483; 0x5cb0a9dcbd41fbd4; 0x76f988da831153b5;
   0x983e5152ee66dfab; 0xa831c66d2db43210; 0xb00327c898fb213f; 0xbf597fc7beef0ee4;
   0xc6e00bf33da88fc2; 0xd5a79147930aa725; 0x06ca6351e003826f; 0x142929670a0e6e70;
   0x27b70a8546d22ffc; 0x2e1b21385c26c926; 0x4d2c6dfc5ac42aed; 0x53380d139d95b3df;
   0x650a73548baf63de; 0x766a0abb3c77b2a8; 0x81c2c92e47edaee6; 0x92722c851482353b;
   0xa2bfe8a14cf10364; 0xa81a664bbc423001; 0xc24b8b70d0f89791; 0xc76c51a30654be30;
   0xd192e819d6ef5218; 0xd69906245565a910; 0xf40e35855771202a; 0x106aa07032bbd1b8;
   0x19a4c116b8d2d0c8; 0x1e376c085141ab53; 0x2748774cdf8eeb99; 0x34b0bcb5e19b48a8;
   0x391c0cb3c5c95a63; 0x4ed8aa4ae3418acb; 0x5b9cca4f7763e373; 0x682e6ff3d6b2b8a3;
   0x748f82ee5defb2fc; 0x78a5636f43172f60; 0x84c87814a1f0ab72; 0x8cc702081a6439ec;
   0x90befffa23631e28; 0xa4506cebde82bde9; 0xbef9a3f7b2c67915; 0xc67178f2e372532b;
   0xca273eceea26619c; 0xd186b8c721c0c207; 0xeada7dd6cde0eb1e; 0xf57d4f7fee6ed178;
   0x06f067aa72176fba; 0x0a637dc5a2c898a6; 0x113f9804bef90dae; 0x1b710b35131c471b;
   0x28db77f523047d84; 0x32caab7b40c72493; 0x3c9ebe0a15c9bebc; 0x431d67c49c100d4c;
   0x4cc5d4becb3e42b6; 0x597f299cfc657e2a; 0x5fcb6fab3ad6faec; 0x6c44198c4a475817].

(** ** Functions of words *)

Definition R (b x : Z) : Z := Z.shiftr x b.
Definition S64 (b x : Z) : Z := Z.lor (Z.shiftr x b) (u64 (Z.shiftl x (64 - b))).
Definition Ch (x y z : Z) : Z := Z.lxor (Z.land x y) (Z.land (Z.lxor x (Z.ones 64)) z).
Definition Maj (x y z : Z) : Z := Z.lxor (Z.lxor (Z.land x y) (Z.land x z)) (Z.land y z).
Definition Sigma0_512 (x : Z) : Z := Z.lxor (Z.lxor (S64 28 x) (S64 34 x)) (S64 39 x).
Definition Sigma1_512 (x : Z) : Z := Z.lxor (Z.lxor (S64 14 x) (S64 18 x)) (S64 41 x).
Definition sigma0_512 (x : Z) : Z := Z.lxor (Z.lxor (S64 1 x) (S64 8 x)) (R 7 x).
Definition sigma1_512 (x : Z) : Z := Z.lxor (Z.lxor (S64 19 x) (S64 61 x)) (R 6 x).

(** ** The context *)

Record SHA512_CTX : Type := { state : list Z; bitcount : Z * Z; buffer : list Z }.

(** [ADDINC128]: the lower word first. *)
Definition ADDINC128 (c : Z * Z) (n : Z) : Z * Z :=
  let w0 := u64 (c.1 + n) in
  (w0, if w0 <? n then u64 (c.2 + 1) else c.2).

Definition SHA512_Init (context : SHA512_CTX) : SHA512_CTX :=
  {| state := sha512_initial_hash_value; buffer := replicate SHA512_BLOCK_LENGTH 0; bitcount := (0, 0) |}.

(** [a] to [h]. *)
Definition registers : Type := Z * Z * Z * Z * Z * Z * Z * Z.

(** The part that both loops share, for the constant [k] and the word [v]. *)
Definition sha512_round (r : registers) (k v : Z) : registers :=
  let '(a, b, c, d, e, f, g, h) := r in
  let T1 := u64 (h + Sigma1_512 e + Ch e f g + k + v) in
  let T2 := u64 (Sigma0_512 a + Maj a b c) in
  (u64 (T1 + T2), a, b, c, u64 (d + T1), e, f, g).

(** [j] from 0 to 15: the words of the block, which are stored at [W512[j]]. *)
Fixpoint first_rounds (j : nat) (r : registers) data : registers :=
  match data with [] => r | v :: data => first_rounds (S j) (sha512_round r (nth j K512 0) v) data end.

(** [j] from 16 to 79; [W512] is [w]. *)
Fixpoint next_rounds (rounds j : nat) (r : registers) w : registers * list Z :=
  match rounds with
  | O => (r, w)
  | S rounds =>
      let at_ i := nth (Nat.land i 15) w 0 in
      let s0 := sigma0_512 (at_ (j + 1)%nat) in
      let s1 := sigma1_512 (at_ (j + 14)%nat) in
      let v := u64 (at_ j + (s1 + at_ (j + 9)%nat + s0)) in
      next_rounds rounds (S j) (sha512_round r (nth j K512 0) v) (<[Nat.land j 15 := v]> w)
  end.

Definition registers_of (l : list Z) : registers := (nth 0 l 0, nth 1 l 0, nth 2 l 0, nth 3 l 0, nth 4 l 0, nth 5 l 0, nth 6 l 0, nth 7 l 0).
Definition registers_list (r : registers) : list Z := let '(a, b, c, d, e, f, g, h) := r in [a; b; c; d; e; f; g; h].

(** [data] is 128 bytes, which may be the buffer itself: a word of it is read
    before it is replaced. *)
Definition SHA512_Transform (context : SHA512_CTX) data : SHA512_CTX :=
  let W512 := be_words 16 data in
  let r := first_rounds 0 (registers_of (state context)) W512 in
  let '(r, W512) := next_rounds 64 16 r W512 in
  {| state := zip_with (fun x y => u64 (x + y)) (state context) (registers_list r); bitcount := bitcount context;
     buffer := concat (map (be_split 8) W512) |}.

(** The count of bytes in the buffer. *)
Definition usedspace (context : SHA512_CTX) : nat := Z.to_nat (Z.shiftr (bitcount context).1 3 mod Z.of_nat SHA512_BLOCK_LENGTH).

(** The whole blocks of [data]: what is left of it, too.  [fuel] is its length. *)
Fixpoint update_blocks (fuel : nat) (context : SHA512_CTX) data : SHA512_CTX * list Z :=
  match fuel with
  | O => (context, data)
  | S fuel =>
      if (SHA512_BLOCK_LENGTH <=? length data)%nat then
        let context := SHA512_Transform context (take SHA512_BLOCK_LENGTH data) in
        let context := {| state := state context; bitcount := ADDINC128 (bitcount context) (Z.shiftl (Z.of_nat SHA512_BLOCK_LENGTH) 3); buffer := buffer context |} in
        update_blocks fuel context (drop SHA512_BLOCK_LENGTH data)
      else (context, data)
  end.

(** Bytes to the buffer at [i], and their count. *)
Definition save (context : SHA512_CTX) (i : nat) data : SHA512_CTX :=
  {| state := state context; buffer := write_at i data (buffer context); bitcount := ADDINC128 (bitcount context) (u64 (Z.shiftl (Z.of_nat (length data)) 3)) |}.

(** [data] has the length [len]. *)
Definition SHA512_Update (context : SHA512_CTX) data : SHA512_CTX :=
  if (length data =? 0)%nat then context
  else
    let used := usedspace context in
    let freespace := (SHA512_BLOCK_LENGTH - used)%nat in
    if (0 <? used)%nat && (length data <? freespace)%nat then save context used data
    else
      let '(context, data) :=
        if (0 <? used)%nat then
          let context := save context used (take freespace data) in
          (SHA512_Transform context (buffer context), drop freespace data)
        else (context, data) in
      let '(context, data) := update_blocks (length data) context data in
      if (0 <? length data)%nat then save context 0 data else context.

(** [bzero] of [n] bytes of the buffer from [i] on. *)
Definition bzero (i n : nat) (buf : list Z) : list Z := write_at i (replicate n 0) buf.

Definition set_buffer (context : SHA512_CTX) (buf : list Z) : SHA512_CTX := {| state := state context; bitcount := bitcount context; buffer := buf |}.

(** The bit 1 and zeros, up to the place of the length. *)
Definition begin_padding (context : SHA512_CTX) : SHA512_CTX :=
  let used := usedspace context in
  if (0 <? used)%nat then
    let context := set_buffer context (write_at used [0x80] (buffer context)) in
    let used := S used in
    if (used <? SHA512_SHORT_BLOCK_LENGTH)%nat then set_buffer context (bzero used (SHA512_SHORT_BLOCK_LENGTH - used) (buffer context))
    else if (SHA512_SHORT_BLOCK_LENGTH <? used)%nat then
      let context :=
        if (used <? SHA512_BLOCK_LENGTH)%nat then set_buffer context (bzero used (SHA512_BLOCK_LENGTH - used) (buffer context)) else context in
      let context := SHA512_Transform context (buffer context) in
      set_buffer context (bzero 0 SHA512_SHORT_BLOCK_LENGTH (buffer context))
    else context
  else set_buffer context (write_at 0 [0x80] (bzero 0 SHA512_SHORT_BLOCK_LENGTH (buffer context))).

Definition SHA512_Last (context : SHA512_CTX) : SHA512_CTX :=
  let context := begin_padding context in
  let context := set_buffer context (write_at SHA512_SHORT_BLOCK_LENGTH (be_split 8 (bitcount context).2) (buffer context)) in
  let context := set_buffer context (write_at (SHA512_SHORT_BLOCK_LENGTH + 8) (be_split 8 (bitcount context).1) (buffer context)) in
  SHA512_Transform context (buffer context).

(** The digest; [sizeof(context)] is the size of a pointer, so one word of the
    state is cleared. *)
Definition SHA512_Final (context : SHA512_CTX) : SHA512_CTX * list Z :=
  let context := SHA512_Last context in
  let result := concat (map (be_split 8) (state context)) in
  ({| state := write_at 0 [0] (state context); bitcount := bitcount context; buffer := buffer context |}, result).

(** The context is on the stack, with what was there. *)
Definition SHA512_Hash (stack : SHA512_CTX) data : list Z := (SHA512_Final (SHA512_Update (SHA512_Init stack) data)).2.

(** ** The standard *)

Definition schedule_next w : Z :=
  let W i := nth (length w - i) w 0 in
  u64 (sigma1_512 (W 2%nat) + W 7%nat + sigma0_512 (W 15%nat) + W 16%nat).
(** [n] more words of the schedule. *)
Fixpoint schedule (n : nat) w : list Z := match n with O => w | S n => schedule n (w ++ [schedule_next w]) end.

(** The rounds [ts] with the schedule [w]. *)
Definition rounds w (ts : list nat) (r : registers) : registers := fold_left (fun r t => sha512_round r (nth t K512 0) (nth t w 0)) ts r.

Definition add_words : list Z -> list Z -> list Z := zip_with (fun x y => u64 (x + y)).

(** One block. *)
Definition block_hash (H : list Z) block : list Z :=
  add_words H (registers_list (rounds (schedule 64 (be_words 16 block)) (seq 0 80) (registers_of H))).

(** [n] blocks at the front of a message. *)
Fixpoint hash_blocks (n : nat) (H : list Z) msg : list Z :=
  match n with O => H | S n => hash_blocks n (block_hash H (take 128 msg)) (drop 128 msg) end.

(** The padding of a message of [len] bytes: the bit 1, zeros, and the length in
    bits as a number of 128 bits. *)
Definition padding (len : nat) : list Z := 0x80 :: replicate ((239 - len mod 128) mod 128) 0 ++ be_split 16 (8 * Z.of_nat len).

Definition sha512 msg : list Z :=
  let padded := msg ++ padding (length msg) in
  concat (map (be_split 8) (hash_blocks (length padded / 128) sha512_initial_hash_value padded)).

(** ** The rounds *)

Lemma land_15 i : Nat.land i 15 = (i mod 16)%nat.
Proof. change 15%nat with (Nat.ones 4). by rewrite Nat.land_ones. Qed.

Lemma schedule_prefix n : forall w t, (t < length w)%nat -> nth t (schedule n w) 0 = nth t w 0.
Proof.
  induction n as [|n IH]; intros w t Ht; [done|]. cbn [schedule]. rewrite IH by (rewrite length_app; cbn; lia). by apply app_nth1.
Qed.

Lemma length_schedule n : forall w, length (schedule n w) = (length w + n)%nat.
Proof. induction n as [|n IH]; intros w; cbn [schedule]; [lia|]. rewrite IH, length_app. cbn. lia. Qed.

Lemma first_rounds_ok w : forall data j r, (forall i, (i < length data)%nat -> nth (j + i) w 0 = nth i data 0) ->
  first_rounds j r data = rounds w (seq j (length data)) r.
Proof.
  induction data as [|v data IH]; intros j r Hw; [done|]. cbn [first_rounds length seq]. unfold rounds. cbn [fold_left].
  pose proof (Hw 0%nat ltac:(cbn; lia)) as E. rewrite Nat.add_0_r in E. rewrite E. cbn [nth]. rewrite IH; [done|]. intros i Hi. rewrite Nat.add_succ_comm. apply (Hw (S i)). cbn. lia.
Qed.

(** The ring has the last 16 words of the schedule, each at its number modulo 16. *)
Lemma next_rounds_ok n : forall w W r, length w = 16%nat -> (16 <= length W)%nat ->
  (forall t, (length W - 16 <= t < length W)%nat -> nth (t mod 16) w 0 = nth t W 0) ->
  exists w', next_rounds n (length W) r w = (rounds (schedule n W) (seq (length W) n) r, w') /\ length w' = 16%nat.
Proof.
  induction n as [|n IH]; intros w W r Hw HW Hr; [by exists w|]. cbn [next_rounds schedule seq]. set (j := length W) in *.
  assert (E : forall k, (1 <= k <= 16)%nat -> nth (Nat.land (j + (16 - k)) 15) w 0 = nth (j - k) W 0).
  { intros k Hk. rewrite land_15. replace (j + (16 - k))%nat with (j - k + 1 * 16)%nat by lia. rewrite Nat.Div0.mod_add. apply Hr. lia. }
  pose proof (E 15%nat ltac:(lia)) as E15. pose proof (E 2%nat ltac:(lia)) as E2. pose proof (E 7%nat ltac:(lia)) as E7. pose proof (E 16%nat ltac:(lia)) as E16.
  cbn [Nat.sub] in E15, E2, E7, E16. rewrite Nat.add_0_r in E16. rewrite E15, E2, E7, E16.
  set (v := u64 _). assert (Ev : v = schedule_next W) by (unfold v, schedule_next; fold j; f_equal; lia). clearbody v. subst v.
  destruct (IH (<[Nat.land j 15 := schedule_next W]> w) (W ++ [schedule_next W]) (sha512_round r (nth j K512 0) (schedule_next W))) as (w' & IH' & Hw').
  - by rewrite length_insert.
  - rewrite length_app. lia.
  - rewrite length_app. cbn [length]. fold j. intros t Ht. rewrite land_15. assert (Hm : (j mod 16 < 16)%nat) by (apply Nat.mod_upper_bound; lia).
    destruct (decide (t = j)) as [->|Hne].
    + rewrite app_nth2, Nat.sub_diag by (fold j; lia). rewrite nth_lookup. by rewrite list_lookup_insert_eq by lia.
    + rewrite app_nth1 by (fold j; lia). rewrite <-Hr by lia. rewrite !nth_lookup. rewrite list_lookup_insert_ne; [done|].
      intros Em. pose proof (Nat.div_mod_eq t 16). pose proof (Nat.div_mod_eq j 16). lia.
  - exists w'. split; [|done]. rewrite length_app in IH'. cbn [length] in IH'. replace (length W + 1)%nat with (S j) in IH' by (unfold j; lia). rewrite IH'.
    f_equal. unfold rounds. cbn [fold_left]. f_equal. f_equal. rewrite schedule_prefix by (rewrite length_app; cbn; lia). unfold j. by rewrite app_nth2, Nat.sub_diag by lia.
Qed.

Lemma length_registers_list r : length (registers_list r) = 8%nat.
Proof. by destruct r as [[[[[[[a b] c] d] e] f] g] h]. Qed.

Lemma length_split_words l : length (concat (map (be_split 8) l)) = (8 * length l)%nat.
Proof. induction l as [|v l IH]; [done|]. cbn [map concat length]. rewrite length_app, length_be_split, IH. lia. Qed.

Lemma length_block_hash H block : length H = 8%nat -> length (block_hash H block) = 8%nat.
Proof. intros E. unfold block_hash, add_words. rewrite length_zip_with, length_registers_list. lia. Qed.

Lemma transform_ok context data : state (SHA512_Transform context data) = block_hash (state context) data /\
  bitcount (SHA512_Transform context data) = bitcount context /\ length (buffer (SHA512_Transform context data)) = SHA512_BLOCK_LENGTH.
Proof.
  unfold SHA512_Transform. cbv zeta. set (W := be_words 16 data). assert (LW : length W = 16%nat) by apply length_be_words.
  rewrite (first_rounds_ok (schedule 64 W) W 0). 2: { intros i Hi. cbn [Nat.add]. by apply schedule_prefix. }
  destruct (next_rounds_ok 64 W W (rounds (schedule 64 W) (seq 0 (length W)) (registers_of (state context))) LW) as (w' & E & Lw').
  { lia. } { intros t Ht. f_equal. apply Nat.mod_small. lia. }
  rewrite LW in E. rewrite LW, E. cbn [state bitcount buffer]. rewrite length_split_words, Lw'. split; [|split; reflexivity]. unfold block_hash, add_words. fold W.
  unfold rounds. by rewrite <-fold_left_app.
Qed.

#[local] Opaque block_hash SHA512_Transform.

(** ** The blocks of a message *)

Lemma hash_blocks_app n : forall H m k m', length m = (128 * n)%nat -> hash_blocks (n + k) H (m ++ m') = hash_blocks k (hash_blocks n H m) m'.
Proof.
  induction n as [|n IH]; intros H m k m' Hm; [by destruct m|]. cbn [Nat.add hash_blocks].
  rewrite take_app_le, drop_app_le by lia. rewrite IH; [done|]. rewrite length_drop. lia.
Qed.

Lemma hash_blocks_snoc n H m block : length m = (128 * n)%nat -> length block = 128%nat ->
  hash_blocks (S n) H (m ++ block) = block_hash (hash_blocks n H m) block.
Proof. intros Hm Hb. rewrite <-Nat.add_1_r, hash_blocks_app by done. cbn [hash_blocks]. by rewrite take_ge by lia. Qed.

(** ** Counts of bits *)

Definition count (len : nat) : Z * Z := ((8 * Z.of_nat len) mod 2 ^ 64, (8 * Z.of_nat len / 2 ^ 64) mod 2 ^ 64).

Lemma addinc_ok len d : (d <= 128)%nat -> ADDINC128 (count len) (8 * Z.of_nat d) = count (len + d).
Proof.
  intros Hd. unfold ADDINC128, count, wrap. cbn [fst snd]. rewrite Nat2Z.inj_add, Z.mul_add_distr_l. set (x := 8 * Z.of_nat len). assert (0 <= x) by lia.
  set (y := 8 * Z.of_nat d). assert (0 <= y <= 1024) by lia. clearbody x y. rewrite Z.add_mod_idemp_l by lia.
  pose proof (Z.div_mod x (2 ^ 64) ltac:(lia)) as D. pose proof (Z.mod_pos_bound x (2 ^ 64) ltac:(lia)) as M. set (q := x / 2 ^ 64) in *. set (m := x mod 2 ^ 64) in *.
  assert (Em : (x + y) mod 2 ^ 64 = (m + y) mod 2 ^ 64) by (unfold m; by rewrite Z.add_mod_idemp_l by lia). rewrite Em.
  assert (Eq : (x + y) / 2 ^ 64 = q + (m + y) / 2 ^ 64) by (rewrite D; replace (2 ^ 64 * q + m + y) with (m + y + q * 2 ^ 64) by lia; rewrite Z.div_add by lia; lia).
  rewrite Eq. clearbody q m. destruct (decide (m + y < 2 ^ 64)).
  - rewrite (Z.mod_small (m + y)), (Z.div_small (m + y)) by lia. rewrite Z.add_0_r. destruct (m + y <? y) eqn:E; b2p; [lia|done].
  - assert (E1 : (m + y) mod 2 ^ 64 = m + y - 2 ^ 64) by (symmetry; apply Z.mod_unique with (q := 1); [left; lia|lia]).
    assert (E2 : (m + y) / 2 ^ 64 = 1) by (symmetry; apply Z.div_unique with (r := m + y - 2 ^ 64); [left; lia|lia]). rewrite E1, E2.
    destruct (m + y - 2 ^ 64 <? y) eqn:E; b2p; [|lia]. by rewrite Z.add_mod_idemp_l by lia.
Qed.

Lemma count_used len : Z.to_nat (Z.shiftr (count len).1 3 mod Z.of_nat SHA512_BLOCK_LENGTH) = (len mod 128)%nat.
Proof.
  unfold count. cbn [fst]. rewrite Z.shiftr_div_pow2 by lia. change (Z.of_nat SHA512_BLOCK_LENGTH) with 128.
  assert (E : (8 * Z.of_nat len) mod 2 ^ 64 / 2 ^ 3 = Z.of_nat len mod 2 ^ 61).
  { change (2 ^ 64) with (8 * 2 ^ 61). rewrite Z.mul_mod_distr_l by lia. change (2 ^ 3) with 8. rewrite Z.mul_comm. by rewrite Z.div_mul by lia. }
  rewrite E. change (2 ^ 61) with (128 * 2 ^ 54). rewrite Z.rem_mul_r by lia. rewrite Z.mul_comm, Z.mod_add by lia. rewrite Z.mod_mod by lia.
  change 128 with (Z.of_nat 128). rewrite <-Nat2Z.inj_mod. by rewrite Nat2Z.id.
Qed.

Lemma count_bytes len : be_split 8 (count len).2 ++ be_split 8 (count len).1 = be_split 16 (8 * Z.of_nat len).
Proof.
  unfold count. cbn [fst snd]. set (x := 8 * Z.of_nat len). clearbody x. cbn [be_split app]. rewrite <-!(Z.shiftr_div_pow2 x 64) by lia.
  assert (E : forall y i, 0 <= i <= 56 -> u8 (Z.shiftr (y mod 2 ^ 64) i) = u8 (Z.shiftr y i)).
  { intros y i Hi. apply Z.bits_inj'. intros k Hk. unfold wrap. destruct (decide (k < 8)).
    - rewrite !Z.mod_pow2_bits_low, !Z.shiftr_spec by lia. by rewrite Z.mod_pow2_bits_low by lia.
    - by rewrite !Z.mod_pow2_bits_high by lia. }
  rewrite !E by lia. rewrite !Z.shiftr_shiftr by lia. done.
Qed.

(** ** The buffer *)

Lemma length_write_at i bs buf : length (write_at i bs buf) = length buf.
Proof. apply length_inserts. Qed.

(** A write right after a known prefix extends it. *)
Lemma write_prefix p bs buf : take (length p) buf = p -> (length p + length bs <= length buf)%nat -> take (length p + length bs) (write_at (length p) bs buf) = p ++ bs.
Proof.
  intros Hp Hl. assert (E : buf = p ++ take (length bs) (drop (length p) buf) ++ drop (length bs) (drop (length p) buf)) by (rewrite take_drop; rewrite <-Hp at 1; by rewrite take_drop).
  rewrite E at 1. rewrite write_at_app by (rewrite length_take, length_drop; lia). rewrite app_assoc. rewrite take_app_le by (rewrite length_app; lia). apply take_ge. rewrite length_app. lia.
Qed.

(** ** A context that has absorbed a message *)

Record absorbed (context : SHA512_CTX) msg : Prop := {
  ab_count : bitcount context = count (length msg);
  ab_buffer : length (buffer context) = 128%nat;
  ab_split : exists n whole rest, msg = whole ++ rest /\ length whole = (128 * n)%nat /\ (length rest < 128)%nat /\
    state context = hash_blocks n sha512_initial_hash_value whole /\ take (length rest) (buffer context) = rest
}.

Lemma init_absorbed context : absorbed (SHA512_Init context) [].
Proof. split; [done|done|]. exists 0%nat, [], []. split_and!; try done. cbn. lia. Qed.

Lemma absorbed_used context msg n whole rest : absorbed context msg -> msg = whole ++ rest -> length whole = (128 * n)%nat -> (length rest < 128)%nat ->
  usedspace context = length rest.
Proof.
  intros H -> Hw Hr. unfold usedspace. rewrite (ab_count _ _ H), count_used, length_app, Hw. rewrite Nat.add_comm, Nat.mul_comm, Nat.Div0.mod_add. by apply Nat.mod_small.
Qed.

Lemma shifted_count (d : nat) : (d <= 128)%nat -> u64 (Z.shiftl (Z.of_nat d) 3) = 8 * Z.of_nat d.
Proof. intros H. rewrite Z.shiftl_mul_pow2 by lia. rewrite wrap_small by (split; lia). lia. Qed.

(** Bytes that leave the buffer unfilled, and bytes that fill it. *)
Lemma save_absorbed context msg whole rest n data : absorbed context msg -> msg = whole ++ rest -> length whole = (128 * n)%nat ->
  state context = hash_blocks n sha512_initial_hash_value whole -> take (length rest) (buffer context) = rest -> (length rest + length data <= 128)%nat ->
  let context' := save context (length rest) data in
  bitcount context' = count (length (msg ++ data)) /\ length (buffer context') = 128%nat /\ take (length rest + length data) (buffer context') = rest ++ data /\
  state context' = state context.
Proof.
  intros H -> Hw Hs Hb Hl context'. unfold context', save. cbn [bitcount buffer state]. rewrite length_write_at, (ab_buffer _ _ H).
  rewrite (ab_count _ _ H), shifted_count, addinc_ok, !length_app by lia. split; [done|]. split; [done|]. split; [|done].
  apply write_prefix; [done|]. by rewrite (ab_buffer _ _ H).
Qed.

Lemma save_partial context msg data n whole rest : absorbed context msg -> msg = whole ++ rest -> length whole = (128 * n)%nat ->
  state context = hash_blocks n sha512_initial_hash_value whole -> take (length rest) (buffer context) = rest -> (length rest + length data < 128)%nat ->
  absorbed (save context (length rest) data) (msg ++ data).
Proof.
  intros H E Hw Hs Hb Hl. destruct (save_absorbed context msg whole rest n data H E Hw Hs Hb ltac:(lia)) as (S1 & S2 & S3 & S4). split; [done|done|].
  exists n, whole, (rest ++ data). rewrite E, app_assoc, length_app, S4. split_and!; done.
Qed.

Lemma save_full context msg data n whole rest : absorbed context msg -> msg = whole ++ rest -> length whole = (128 * n)%nat ->
  state context = hash_blocks n sha512_initial_hash_value whole -> take (length rest) (buffer context) = rest -> (length rest + length data = 128)%nat ->
  let context' := save context (length rest) data in absorbed (SHA512_Transform context' (buffer context')) (msg ++ data).
Proof.
  intros H E Hw Hs Hb Hl context'. destruct (save_absorbed context msg whole rest n data H E Hw Hs Hb ltac:(lia)) as (S1 & S2 & S3 & S4). fold context' in S1, S2, S3, S4.
  destruct (transform_ok context' (buffer context')) as (T1 & T2 & T3). rewrite Hl, take_ge in S3 by lia.
  generalize dependent (SHA512_Transform context' (buffer context')). intros c1 T1 T2 T3. split; [by rewrite T2|exact T3|].
  exists (S n), (whole ++ rest ++ data), []. rewrite E, T1, S4, Hs, S3.
  rewrite hash_blocks_snoc; [|exact Hw|rewrite length_app; exact Hl].
  split; [by rewrite app_nil_r, app_assoc|]. split; [rewrite !length_app; lia|]. split; [cbn; lia|done].
Qed.

(** The whole blocks of the data, where the buffer is empty. *)
Definition aligned msg : Prop := exists n, length msg = (128 * n)%nat.

Lemma aligned_state context msg n : absorbed context msg -> length msg = (128 * n)%nat -> state context = hash_blocks n sha512_initial_hash_value msg.
Proof.
  intros [_ _ (m & whole & rest & -> & Hw & Hr & Hs & Hb)] Hn. rewrite length_app in Hn. assert (length rest = 0)%nat by lia. destruct rest; [|done].
  rewrite app_nil_r. by replace n with m by lia.
Qed.

(** One round of the loop. *)
Definition absorb_block (context : SHA512_CTX) block : SHA512_CTX :=
  let context := SHA512_Transform context block in
  {| state := state context; bitcount := ADDINC128 (bitcount context) (Z.shiftl (Z.of_nat SHA512_BLOCK_LENGTH) 3); buffer := buffer context |}.

Lemma absorb_block_ok context msg block : absorbed context msg -> aligned msg -> length block = 128%nat -> absorbed (absorb_block context block) (msg ++ block).
Proof.
  intros H [n Hn] Lb. unfold absorb_block. pose proof (aligned_state context msg n H Hn) as Hs. pose proof (transform_ok context block) as T.
  generalize dependent (SHA512_Transform context block). intros c (T1 & T2 & T3). split; cbn [bitcount buffer state].
  - rewrite T2, (ab_count _ _ H), length_app, Lb. change (Z.shiftl (Z.of_nat SHA512_BLOCK_LENGTH) 3) with (8 * Z.of_nat 128). by apply addinc_ok.
  - exact T3.
  - exists (S n), (msg ++ block), []. rewrite T1, Hs, hash_blocks_snoc by assumption. rewrite length_app. split; [by rewrite app_nil_r|]. split; [lia|]. split; [cbn; lia|done].
Qed.

Lemma update_blocks_ok fuel : forall context msg data, absorbed context msg -> aligned msg -> (length data <= fuel)%nat ->
  exists context' whole rest, update_blocks fuel context data = (context', rest) /\ data = whole ++ rest /\ (length rest < 128)%nat /\
    absorbed context' (msg ++ whole) /\ aligned (msg ++ whole).
Proof.
  induction fuel as [|fuel IH]; intros context msg data H Ha Hf; cbn [update_blocks].
  { destruct data; [|cbn in Hf; lia]. exists context, [], []. rewrite (app_nil_r msg). split; [done|]. split; [done|]. split; [cbn; lia|]. by split. }
  change (SHA512_BLOCK_LENGTH <=? length data)%nat with (128 <=? length data)%nat. destruct (128 <=? length data)%nat eqn:El; b2p.
  2: { exists context, [], data. rewrite (app_nil_r msg). split; [done|]. split; [done|]. split; [done|]. by split. }
  fold (absorb_block context (take SHA512_BLOCK_LENGTH data)). assert (Lb : length (take SHA512_BLOCK_LENGTH data) = 128%nat) by (rewrite length_take; change SHA512_BLOCK_LENGTH with 128%nat; lia).
  pose proof (absorb_block_ok context msg _ H Ha Lb) as H2. set (c2 := absorb_block context _) in *. clearbody c2. pose proof (take_drop SHA512_BLOCK_LENGTH data) as Etd.
  assert (Ld : (length (drop SHA512_BLOCK_LENGTH data) <= fuel)%nat) by (rewrite length_drop; change SHA512_BLOCK_LENGTH with 128%nat; lia).
  set (block := take _ data) in *. set (others := drop _ data) in *. clearbody block others. destruct Ha as [n Hn].
  destruct (IH c2 (msg ++ block) others H2) as (c' & whole & rest & E & Ed & Hr & Hc & Ha); [exists (S n); rewrite length_app; lia|exact Ld|].
  exists c', (block ++ whole), rest. rewrite (app_assoc msg), <-(app_assoc block), <-Ed. split; [exact E|]. split; [by symmetry|]. by split.
Qed.

Lemma update_absorbed context msg data : absorbed context msg -> absorbed (SHA512_Update context data) (msg ++ data).
Proof.
  intros H. pose proof H as [_ _ (n & whole & rest & E & Hw & Hr & Hs & Hb)]. unfold SHA512_Update. rewrite (absorbed_used context msg n whole rest H E Hw Hr).
  change SHA512_BLOCK_LENGTH with 128%nat. destruct (length data =? 0)%nat eqn:E0; b2p; [destruct data; [by rewrite app_nil_r|done]|].
  assert (G : forall c m d, absorbed c m -> aligned m -> absorbed (let '(context, data) := update_blocks (length d) c d in if (0 <? length data)%nat then save context 0 data else context) (m ++ d)).
  { intros c m d Hc Ha. destruct (update_blocks_ok (length d) c m d Hc Ha ltac:(lia)) as (c' & wh & re & -> & -> & Hre & Hc' & [k Hk]). rewrite app_assoc.
    destruct (0 <? length re)%nat eqn:Er; b2p; [|destruct re; [by rewrite app_nil_r|cbn in Er; lia]].
    apply (save_partial c' (m ++ wh) re k (m ++ wh) []); try done; [by rewrite app_nil_r|by apply aligned_state]. }
  destruct (0 <? length rest)%nat eqn:Er; b2p; cbn [andb].
  - destruct (length data <? 128 - length rest)%nat eqn:Ed; b2p; [apply (save_partial context msg data n whole rest); try done; lia|].
    cbv zeta. replace (msg ++ data) with ((msg ++ take (128 - length rest) data) ++ drop (128 - length rest) data) by (by rewrite <-app_assoc, take_drop). apply G.
    + apply (save_full context msg (take (128 - length rest) data) n whole rest); try done. rewrite length_take. lia.
    + exists (S n). rewrite E, !length_app, length_take. lia.
  - apply G; [done|]. exists n. rewrite E, length_app. lia.
Qed.

(** ** The padding *)

(** The same for a prefix of any known length. *)
Lemma write_next i p bs buf : i = length p -> take i buf = p -> (i + length bs <= length buf)%nat -> take (i + length bs) (write_at i bs buf) = p ++ bs.
Proof. intros ->. apply write_prefix. Qed.

Lemma bzero_next i n p buf : i = length p -> take i buf = p -> (i + n <= length buf)%nat -> take (i + n) (bzero i n buf) = p ++ replicate n 0.
Proof. intros Hi Hp Hl. rewrite <-(length_replicate n 0) at 1. apply write_next; [done|done|]. by rewrite length_replicate. Qed.

Lemma length_bzero i n buf : length (bzero i n buf) = length buf.
Proof. apply length_write_at. Qed.

(** What the last transform gets. *)
Record padded (context : SHA512_CTX) msg (n : nat) (front tail : list Z) : Prop := {
  pd_count : bitcount context = count (length msg);
  pd_buffer : length (buffer context) = 128%nat;
  pd_tail : take 112 (buffer context) = tail /\ length tail = 112%nat;
  pd_front : length front = (128 * n)%nat /\ state context = hash_blocks n sha512_initial_hash_value front;
  pd_message : msg ++ padding (length msg) = front ++ tail ++ be_split 16 (8 * Z.of_nat (length msg))
}.

Lemma begin_padding_ok context msg : absorbed context msg -> exists n front tail, padded (begin_padding context) msg n front tail.
Proof.
  intros H. pose proof H as [Hc Hl (n & whole & rest & E & Hw & Hr & Hs & Hb)]. unfold begin_padding. rewrite (absorbed_used context msg n whole rest H E Hw Hr).
  change SHA512_SHORT_BLOCK_LENGTH with 112%nat. change SHA512_BLOCK_LENGTH with 128%nat. set (u := length rest) in *.
  assert (Eu : (length msg mod 128)%nat = u) by (rewrite E, length_app, Hw, Nat.add_comm, Nat.mul_comm, Nat.Div0.mod_add; by apply Nat.mod_small).
  assert (Ep : msg ++ padding (length msg) = whole ++ (rest ++ [0x80]) ++ replicate ((239 - u) mod 128) 0 ++ be_split 16 (8 * Z.of_nat (length msg)))
    by (unfold padding; rewrite Eu, E at 1; by rewrite <-!app_assoc).
  destruct (0 <? u)%nat eqn:E0; b2p.
  - set (c1 := set_buffer context (write_at u [0x80] (buffer context))). set (b1 := buffer c1).
    assert (L1 : length b1 = 128%nat) by (unfold b1, c1; cbn [set_buffer buffer]; by rewrite length_write_at).
    assert (P1 : take (S u) b1 = rest ++ [0x80]) by (rewrite <-Nat.add_1_r; apply (write_next u rest [0x80]); [done|done|cbn; lia]).
    assert (Lp : S u = length (rest ++ [0x80])) by (rewrite length_app; cbn; lia).
    destruct (S u <? 112)%nat eqn:E1; b2p; [|destruct (112 <? S u)%nat eqn:E2; b2p].
    + exists n, whole, ((rest ++ [0x80]) ++ replicate (112 - S u) 0). split; cbn [set_buffer bitcount buffer state]; [done|by rewrite length_bzero| |done|].
      * split; [|rewrite length_app, length_replicate; lia]. fold b1. rewrite <-(bzero_next (S u) (112 - S u) _ b1 Lp P1) by lia. f_equal. lia.
      * assert (Em : ((239 - u) mod 128 = 112 - S u)%nat) by (replace (239 - u)%nat with (112 - S u + 1 * 128)%nat by lia; rewrite Nat.Div0.mod_add; apply Nat.mod_small; lia).
        rewrite Ep, Em. by rewrite <-!app_assoc.
    + set (c2 := if (S u <? 128)%nat then set_buffer c1 (bzero (S u) (128 - S u) b1) else c1). set (block := (rest ++ [0x80]) ++ replicate (128 - S u) 0).
      assert (Lb : length block = 128%nat) by (unfold block; rewrite length_app, length_replicate; lia).
      assert (C2 : bitcount c2 = count (length msg) /\ buffer c2 = block /\ state c2 = hash_blocks n sha512_initial_hash_value whole).
      { unfold c2. destruct (S u <? 128)%nat eqn:E3; b2p; (split; [done|]; split; [|done]).
        - cbn [set_buffer buffer]. unfold block. rewrite <-(bzero_next (S u) (128 - S u) _ b1 Lp P1) by lia. symmetry. apply take_ge. rewrite length_bzero. lia.
        - fold b1. unfold block. replace (128 - S u)%nat with 0%nat by lia. rewrite app_nil_r, <-P1. symmetry. apply take_ge. lia. }
      destruct C2 as (C2 & C3 & C4). fold b1. clearbody c2. rewrite C3. pose proof (transform_ok c2 block) as T. generalize dependent (SHA512_Transform c2 block). intros c3 (T1 & T2 & T3).
      exists (S n), (whole ++ block), (replicate 112 0). split; cbn [set_buffer bitcount buffer state]; [congruence|by rewrite length_bzero| | |].
      * split; [|by rewrite length_replicate]. apply (bzero_next 0 112 [] (buffer c3)); [done|done|]. rewrite T3. apply Nat.leb_le. reflexivity.
      * split; [rewrite length_app; lia|]. by rewrite T1, C4, hash_blocks_snoc.
      * assert (Em : ((239 - u) mod 128 = (128 - S u) + 112)%nat) by (rewrite Nat.mod_small; lia).
        rewrite Ep, Em, replicate_add. unfold block. by rewrite <-!app_assoc.
    + exists n, whole, (rest ++ [0x80]). assert (S u = 112)%nat as Eq by lia. split; [done|done| |done|].
      * fold b1. rewrite <-P1, Eq. split; [done|]. rewrite length_take. lia.
      * rewrite Ep. replace (239 - u)%nat with (1 * 128)%nat by lia. by rewrite Nat.Div0.mod_mul.
  - assert (rest = []) as -> by (destruct rest; [done|cbn in *; lia]). exists n, whole, (0x80 :: replicate 111 0).
    split; cbn [set_buffer bitcount buffer state]; [done|by rewrite length_write_at, length_bzero| |done|].
    + split; [|done]. pose proof (bzero_next 0 112 [] (buffer context) eq_refl eq_refl ltac:(lia)) as B. set (b := bzero 0 112 (buffer context)) in *.
      clearbody b. destruct b as [|x b']; [done|]. cbn [Nat.add app take replicate] in B. injection B as _ B. exact (f_equal (cons 0x80) B).
    + rewrite Ep. change u with 0%nat. done.
Qed.

(** ** The digest *)

Lemma last_ok context msg : absorbed context msg -> concat (map (be_split 8) (state (SHA512_Last context))) = sha512 msg.
Proof.
  intros H. destruct (begin_padding_ok context msg H) as (n & front & tail & [Hc Hl [Ht Lt] [Lf Hs] Hm]). unfold SHA512_Last. set (c := begin_padding context) in *. clearbody c.
  change SHA512_SHORT_BLOCK_LENGTH with 112%nat. cbv zeta.
  set (b1 := write_at 112 (be_split 8 (bitcount c).2) (buffer c)). set (b2 := write_at (112 + 8) (be_split 8 (bitcount c).1) b1).
  assert (L1 : length b1 = 128%nat) by (unfold b1; by rewrite length_write_at). assert (L2 : length b2 = 128%nat) by (unfold b2; by rewrite length_write_at).
  assert (P1 : take (112 + 8) b1 = tail ++ be_split 8 (bitcount c).2) by (apply (write_next 112 tail (be_split 8 _)); [done|done|rewrite Hl, length_be_split; lia]).
  assert (P2 : take (112 + 8 + 8) b2 = (tail ++ be_split 8 (bitcount c).2) ++ be_split 8 (bitcount c).1).
  { apply (write_next (112 + 8) _ (be_split 8 _)); [rewrite length_app, length_be_split; lia|done|rewrite L1, length_be_split; lia]. }
  rewrite take_ge in P2 by lia. rewrite <-app_assoc, Hc, count_bytes in P2. cbn [set_buffer buffer bitcount]. fold b1. fold b2.
  destruct (transform_ok (set_buffer (set_buffer c b1) b2) b2) as [-> _]. cbn [set_buffer state]. unfold sha512. rewrite Hm, P2, Hs.
  assert (Lb : length (tail ++ be_split 16 (8 * Z.of_nat (length msg))) = 128%nat) by (rewrite length_app, length_be_split; lia).
  rewrite length_app, Lf, Lb. replace ((128 * n + 128) / 128)%nat with (S n) by (replace (128 * n + 128)%nat with (S n * 128)%nat by lia; by rewrite Nat.div_mul by lia).
  by rewrite hash_blocks_snoc by (assumption || exact Lb).
Qed.

(** C12: A message that arrives in pieces of any lengths, empty ones among them,
    is hashed to its SHA-512, whatever the context held before. *)
Theorem sha512_streaming context (pieces : list (list Z)) :
  (SHA512_Final (fold_left SHA512_Update pieces (SHA512_Init context))).2 = sha512 (concat pieces).
Proof.
  assert (G : forall c msg, absorbed c msg -> absorbed (fold_left SHA512_Update pieces c) (msg ++ concat pieces)).
  { induction pieces as [|data pieces IH]; intros c msg H; [by rewrite app_nil_r|]. cbn [fold_left concat]. rewrite app_assoc. apply IH. by apply update_absorbed. }
  pose proof (G _ _ (init_absorbed context)) as H. cbn [app] in H. unfold SHA512_Final. cbn [snd]. by apply last_ok.
Qed.

(** [SHA512_Hash] is the case of one piece. *)
Lemma sha512_hash_ok stack data : SHA512_Hash stack data = sha512 data.
Proof. unfold SHA512_Hash, SHA512_Final. cbn [snd]. apply last_ok. by apply (update_absorbed _ []), init_absorbed. Qed.

(** The padded message is a whole number of blocks, and no longer than needed. *)
Lemma padding_aligned msg : exists n, length (msg ++ padding (length msg)) = (128 * n)%nat /\ (128 * n < length msg + 17 + 128)%nat.
Proof.
  unfold padding. rewrite length_app. cbn [length]. rewrite length_app, length_replicate, length_be_split. set (l := length msg). clearbody l.
  pose proof (Nat.div_mod_eq l 128) as D. pose proof (Nat.mod_upper_bound l 128 ltac:(lia)) as M. set (m := (l mod 128)%nat) in *. set (q := (l / 128)%nat) in *. clearbody m q.
  destruct (decide (m <= 111)%nat).
  - exists (q + 1)%nat. replace (239 - m)%nat with (111 - m + 1 * 128)%nat by lia. rewrite Nat.Div0.mod_add, Nat.mod_small by lia. lia.
  - exists (q + 2)%nat. rewrite Nat.mod_small by lia. lia.
Qed.

#[local] Transparent block_hash SHA512_Transform.

(** The message of the standard's example, in three pieces. *)
Example hash_abc : (SHA512_Final (fold_left SHA512_Update [[0x61]; []; [0x62; 0x63]] (SHA512_Init {| state := []; bitcount := (0, 0); buffer := [] |}))).2 =
  be_split 64 0xddaf35a193617abacc417349ae20413112e6fa4e89a97ea20a9eeee64b55d39a2192992a274fc1a836ba3c23a3feebbd454d4423643ce80e2a9ac94fa54ca49f.
Proof. vm_compute. reflexivity. Qed.

(** Of the state, all words but the first are still there after [SHA512_Final]. *)
Lemma final_keeps_state context : tail (state (SHA512_Final context).1) = tail (state (SHA512_Last context)).
Proof. unfold SHA512_Final. cbn [fst state]. unfold write_at. by destruct (state (SHA512_Last context)). Qed.
