(* ===== verification/EcVerify.v ===== *)
(** * The signature check ([src/securerom/ecverify.C])

    Points of the curve in projective coordinates, and ECDSA on P-521.  Sums and
    products are reduced lazily: a number is at most a few times the prime until
    [bn_modred_slow], and every point that leaves [ec_double] or [ec_add] is
    reduced, which the comparisons of coordinates and the test for infinity
    need. *)

From S2P Require Import Prelude Bignum BnInv.

Implicit Types (x y z : list Z).

(** [x], [y] and [z]. *)
Definition point : Type := list Z * list Z * list Z.

(** ** Points *)

Definition ec_is_infinity x y : bool := bn_is_zero x 0 && bn_is_zero y 0.

Definition ec_projective2affine x z : outcome (list Z) :=
  do zinv <- bn_modinv z ec_prime;
  Done (bn_modred_slow (bn_modmul_prime x zinv)).

Definition ec_double (p : point) : point :=
  let '(x, y, z) := p in
  let a := bn_modadd x z in
  let d := bn_modsub x z in
  let a := bn_modmul_prime a d in
  let d := a in
  let a := bn_modadd a a in
  let a := bn_modadd a d in
  let b := bn_modmul_prime z y in
  let c := x in
  let y := bn_modmul_prime y b in
  let c := bn_modmul_prime c y in
  let z := bn_modsqr_prime b in
  let z := bn_modmul_prime z b in
  let z := bn_modadd z z in
  let z := bn_modadd z z in
  let z := bn_modadd z z in
  let z := bn_modred_slow z in
  let t := bn_modadd c c in
  let t := bn_modadd t t in
  let t := bn_modadd t t in
  let d := bn_modsqr_prime a in
  let t := bn_modred_slow t in
  let d := bn_modsub d t in
  let x := bn_modmul_prime b d in
  let x := bn_modadd x x in
  let x := bn_modred_slow x in
  let d := bn_modred_slow d in
  let c := bn_modadd c c in
  let c := bn_modadd c c in
  let c := bn_modsub c d in
  let a := bn_modmul_prime a c in
  let y := bn_modsqr_prime y in
  let y := bn_modadd y y in
  let y := bn_modadd y y in
  let y := bn_modadd y y in
  let a := bn_modred_slow a in
  let y := bn_modred_slow y in
  let a := bn_modsub a y in
  (x, a, z).

(** The part of [ec_add] for two points that differ and are not at infinity. *)
Definition ec_add_chord (p q : point) : point :=
  let '(x1, y1, z1) := p in
  let '(x2, y2, z2) := q in
  let t1 := bn_modmul_prime y1 z2 in
  let a := bn_modmul_prime y2 z1 in
  let t1 := bn_modred_slow t1 in
  let a := bn_modsub a t1 in
  let x1 := bn_modmul_prime x1 z2 in
  let b := bn_modmul_prime x2 z1 in
  let x1 := bn_modred_slow x1 in
  let b := bn_modsub b x1 in
  let bs := bn_modsqr_prime b in
  let c := bn_modsqr_prime a in
  let z1 := bn_modmul_prime z1 z2 in
  let c := bn_modmul_prime c z1 in
  let x1 := bn_modmul_prime x1 bs in
  let t2 := bn_modmul_prime b bs in
  let t2 := bn_modred_slow t2 in
  let x1 := bn_modred_slow x1 in
  let c := bn_modsub c t2 in
  let c := bn_modsub c x1 in
  let c := bn_modsub c x1 in
  let z1 := bn_modmul_prime z1 t2 in
  let z1 := bn_modred_slow z1 in
  let c := bn_modred_slow c in
  let t1 := bn_modmul_prime t1 t2 in
  let x1 := bn_modsub x1 c in
  let x1 := bn_modmul_prime x1 a in
  let x1 := bn_modred_slow x1 in
  let t1 := bn_modred_slow t1 in
  let x1 := bn_modsub x1 t1 in
  let y1 := x1 in
  let x1 := bn_modmul_prime b c in
  let x1 := bn_modred_slow x1 in
  (x1, y1, z1).

(** The sum, and whether it is at infinity. *)
Definition ec_add (p q : point) : point * bool :=
  let '(x1, y1, z1) := p in
  let '(x2, y2, z2) := q in
  let inf1 := ec_is_infinity x1 y1 in
  let inf2 := ec_is_infinity x2 y2 in
  if inf2 then (p, inf1)
  else if inf1 then (q, false)
  else if (bn_cmp x1 x2 =? 0) && (bn_cmp y1 y2 =? 0) then (ec_double p, false)
  else (ec_add_chord p q, false).

(** [rk] has the words of [k] from the one that [mask] selects from. *)
Fixpoint multiply_loop (i : nat) (p q : point) (mask : Z) (rk : list Z) : point :=
  match i with
  | O => p
  | S i =>
      let p := if negb (Z.land mask (hd 0 rk) =? 0) then (ec_add p q).1 else p in
      let q := if 0 <? Z.of_nat i then ec_double q else q in
      let mask := u64 (Z.shiftl mask 1) in
      if mask =? 0 then multiply_loop i p q 1 (tail rk) else multiply_loop i p q mask rk
  end.
Definition ec_multiply x y (k : list Z) : point :=
  multiply_loop (Z.to_nat (bn_bits k)) (bn_clr NWORDS, bn_clr NWORDS, bn_one) (x, y, bn_one) 1 (rev k).

(** ** The check *)

Definition EC_HASHBYTES : nat := 64.
Definition EC_COORDBYTES : nat := 66.
Definition EC_PRIMEBYTES : nat := Z.to_nat ((EC_PRIMEBITS + 7) / 8).
Definition BNBYTES : nat := NWORDS * 8.

(** [len] bytes moved to the end of a number whose first word was cleared: all
    others are overwritten. *)
Definition bn_read (len : nat) (data : list Z) : list Z := be_words NWORDS (replicate (BNBYTES - len) 0 ++ take len data).
Definition bn_read_pt (data : list Z) : list Z := bn_read EC_PRIMEBYTES data.
Definition bn_read_hash (data : list Z) : list Z := bn_read EC_HASHBYTES data.

(** [None] for a null pointer. *)
Definition ec_verify (publicpt hash signature : option (list Z)) : outcome Z :=
  match publicpt, signature, hash with
  | Some publicpt, Some signature, Some hash =>
      let r := bn_read_pt signature in
      let s := bn_read_pt (drop EC_COORDBYTES signature) in
      let e := bn_read_hash hash in
      let px := bn_read_pt publicpt in
      let py := bn_read_pt (drop EC_COORDBYTES publicpt) in
      if bn_ge_order r || bn_ge_order s || bn_is_zero s 0 || bn_is_zero r 0 then Done 0
      else if bn_ge_prime px || bn_ge_prime py || bn_is_zero px 0 || bn_is_zero py 0 then Done (-1)
      else
        do u1 <- bn_modinv s ec_order;
        let u2 := bn_modmul_order r u1 in
        let u1 := bn_modmul_order u1 e in
        let p := ec_multiply px py u2 in
        let q := ec_multiply prime_px prime_py u1 in
        let '((px, _, pz), infinity) := ec_add p q in
        if infinity then Done 0
        else
          do px <- ec_projective2affine px pz;
          let px := if bn_ge_order px then (bn_sub px ec_order).1 else px in
          Done (Z.b2z (bn_cmp r px =? 0))
  | _, _, _ => Done (-1)
  end.

(** ** Points as numbers *)

Definition zpoint : Type := Z * Z * Z.
Implicit Types (P Q : zpoint).

Definition zred P : zpoint := let '(X, Y, Z) := P in (X mod prime, Y mod prime, Z mod prime).
Definition repr (p : point) P : Prop := let '(x, y, z) := p in let '(X, Y, Z) := P in red x X /\ red y Y /\ red z Z.

(** The tangent. *)
Definition zdouble P : zpoint :=
  let '(X, Y, Z) := P in
  let A := 3 * (X * X - Z * Z) in
  let B := Y * Z in
  let C := X * Y * B in
  let D := A * A - 8 * C in
  zred (2 * B * D, A * (4 * C - D) - 8 * (Y * B) * (Y * B), 8 * B * B * B).

(** The chord. *)
Definition zchord P Q : zpoint :=
  let '(X1, Y1, Z1) := P in
  let '(X2, Y2, Z2) := Q in
  let A := Y2 * Z1 - Y1 * Z2 in
  let B := X2 * Z1 - X1 * Z2 in
  let C := A * A * Z1 * Z2 - B * B * B - 2 * B * B * X1 * Z2 in
  zred (B * C, A * (B * B * X1 * Z2 - C) - B * B * B * Y1 * Z2, B * B * B * Z1 * Z2).

Definition zinf P : bool := let '(X, Y, _) := P in (X =? 0) && (Y =? 0).
Definition zadd P Q : zpoint :=
  if zinf Q then P
  else if zinf P then Q
  else let '(X1, Y1, _) := P in let '(X2, Y2, _) := Q in if (X1 =? X2) && (Y1 =? Y2) then zdouble P else zchord P Q.

(** [P] and [k] times [Q]. *)
Fixpoint zmul P Q (k : positive) : zpoint :=
  match k with
  | xH => zadd P Q
  | xO k => zmul P (zdouble Q) k
  | xI k => zmul (zadd P Q) (zdouble Q) k
  end.
Definition zmultiple (X Y : Z) (k : Z) : zpoint := match k with Zpos k => zmul (0, 0, 1) (X, Y, 1) k | _ => (0, 0, 1) end.

(** ** Lazy reduction *)

Lemma red_eq x (u v : Z) : red x u -> u mod prime = v mod prime -> red x v.
Proof. intros [H1 H2] E. split; [done|congruence]. Qed.

Lemma red_mod x (v : Z) : red x (v mod prime) <-> red x v.
Proof. unfold red. pose proof prime_pos. by rewrite Z.mod_mod by lia. Qed.

Lemma repr_zred p P : repr p P -> repr p (zred P).
Proof. destruct p as [[x y] z], P as [[X Y] Z]. intros (H1 & H2 & H3). split_and!; by apply red_mod. Qed.

(** What a value of the body of [ec_double] or [ec_add] stands for: proved from
    the facts on the values before it. *)
Ltac rep_find := first [eassumption | apply rep_red; eassumption].
Ltac rep_step :=
  lazymatch goal with
  | |- repr (let a := ?e in @?f a) ?v =>
      change (repr (f e) v);
      tryif is_var e then cbv beta
      else
        let H := fresh "R" in
        lazymatch e with
        | bn_modred_slow _ => eassert (H : red e _) by (eapply red_slow; rep_find)
        | bn_modmul_prime _ _ => eassert (H : rep 3 e _) by (eapply rep_mul; [rep_find|rep_find|lia|lia|lia])
        | bn_modsqr_prime _ => eassert (H : rep 3 e _) by (eapply rep_sqr; [rep_find|lia|lia])
        | bn_modadd _ _ => eassert (H : rep _ e _) by (eapply rep_add; [rep_find|rep_find|lia])
        | bn_modsub _ _ => first [eassert (H : red e _) by (eapply red_sub; eassumption) | eassert (H : rep _ e _) by (eapply rep_sub; [rep_find|rep_find|lia])]
        end;
        revert H; generalize e; intros ? H; cbv beta
  end.

Lemma ec_double_repr p P : repr p P -> repr (ec_double p) (zdouble P).
Proof.
  destruct p as [[x y] z], P as [[X Y] Z]. intros (Hx & Hy & Hz). cbv beta iota delta [ec_double zdouble]. repeat rep_step.
  apply repr_zred. split_and!; (eapply red_eq; [eassumption|f_equal; ring]).
Qed.

Lemma ec_add_chord_repr p q P Q : repr p P -> repr q Q -> repr (ec_add_chord p q) (zchord P Q).
Proof.
  destruct p as [[x1 y1] z1], q as [[x2 y2] z2], P as [[X1 Y1] Z1], Q as [[X2 Y2] Z2]. intros (Hx & Hy & Hz) (Hx2 & Hy2 & Hz2).
  cbv beta iota delta [ec_add_chord zchord]. repeat rep_step. apply repr_zred. split_and!; (eapply red_eq; [eassumption|f_equal; ring]).
Qed.

(** ** Sums of points *)

(** The coordinates are reduced. *)
Definition is_red (u : Z) : Prop := 0 <= u < prime.
Definition reduced P : Prop := let '(X, Y, Z) := P in is_red X /\ is_red Y /\ is_red Z.

Lemma reduced_zred P : reduced (zred P).
Proof. destruct P as [[X Y] Z]. pose proof prime_pos. split_and!; apply Z.mod_pos_bound; lia. Qed.

Lemma zdouble_reduced P : reduced (zdouble P).
Proof. destruct P as [[X Y] Z]. apply reduced_zred. Qed.

Lemma zadd_reduced P Q : reduced P -> reduced Q -> reduced (zadd P Q).
Proof.
  intros HP HQ. unfold zadd. case_match; [done|]. case_match; [done|]. destruct P as [[X1 Y1] Z1], Q as [[X2 Y2] Z2].
  case_match; [apply zdouble_reduced|apply reduced_zred].
Qed.

Lemma red_val x (u : Z) : red x u -> is_red u -> val x = u.
Proof. intros [_ H] Hu. rewrite H. by apply Z.mod_small. Qed.

Lemma is_infinity_ok x y z P : repr (x, y, z) P -> reduced P -> ec_is_infinity x y = zinf P.
Proof.
  destruct P as [[X Y] Z]. intros (Hx & Hy & _) (R1 & R2 & _). unfold ec_is_infinity. rewrite !bn_is_zero_ok by (apply Hx || apply Hy).
  by rewrite (red_val x X), (red_val y Y).
Qed.

Lemma red_cmp x y (u v : Z) : red x u -> red y v -> is_red u -> is_red v -> (bn_cmp x y =? 0) = (u =? v).
Proof.
  intros Hx Hy Hu Hv. apply eq_true_iff_eq. rewrite !Z.eqb_eq, (bn_cmp_zero 9) by (apply Hx || apply Hy). by rewrite (red_val x u), (red_val y v).
Qed.

Lemma ec_add_repr p q P Q : repr p P -> repr q Q -> reduced P -> reduced Q ->
  repr (ec_add p q).1 (zadd P Q) /\ (ec_add p q).2 = zinf P && zinf Q.
Proof.
  intros HP HQ RP RQ. pose proof (ec_double_repr p P HP) as Hd. pose proof (ec_add_chord_repr p q P Q HP HQ) as Hc.
  destruct p as [[x1 y1] z1], q as [[x2 y2] z2]. unfold ec_add, zadd.
  rewrite (is_infinity_ok x1 y1 z1 P), (is_infinity_ok x2 y2 z2 Q) by done. destruct (zinf Q); [by rewrite andb_true_r|].
  destruct (zinf P); [done|]. destruct P as [[X1 Y1] Z1], Q as [[X2 Y2] Z2].
  destruct HP as (A1 & A2 & A3), HQ as (B1 & B2 & B3), RP as (C1 & C2 & C3), RQ as (D1 & D2 & D3).
  rewrite (red_cmp x1 x2 X1 X2), (red_cmp y1 y2 Y1 Y2) by done. by destruct ((X1 =? X2) && (Y1 =? Y2)).
Qed.

(** ** Multiples *)

Lemma repr_clear : repr (bn_clr NWORDS, bn_clr NWORDS, bn_one) (0, 0, 1).
Proof. split_and!; (split; [split; [done|repeat constructor; done]|by vm_compute]). Qed.

(** The words that are left, from the least significant one on. *)
Lemma val_rev_cons w rk : val (rev (w :: rk)) = val (rev rk) * 2 ^ 64 + w.
Proof. cbn [rev]. rewrite val_app. cbn [val length]. change (2 ^ (64 * Z.of_nat 1)) with (2 ^ 64). change (2 ^ (64 * Z.of_nat 0)) with 1. lia. Qed.

(** The bit under the mask, and the number that is left after it. *)
Lemma mask_bit j rk : 0 <= j < 64 -> Forall (is_word 64) rk -> negb (Z.land (2 ^ j) (hd 0 rk) =? 0) = Z.odd (val (rev rk) / 2 ^ j) /\
  val (rev rk) / 2 ^ j / 2 = if u64 (Z.shiftl (2 ^ j) 1) =? 0 then val (rev (tail rk)) / 2 ^ 0 else val (rev rk) / 2 ^ (j + 1).
Proof.
  intros Hj Hrk. split.
  - rewrite <-Z.shiftr_div_pow2, <-Z.bit0_odd, Z.shiftr_spec, Z.add_0_l by lia. transitivity (Z.testbit (hd 0 rk) j).
    + destruct (Z.testbit (hd 0 rk) j) eqn:E.
      * apply negb_true_iff, Z.eqb_neq. intros H. apply (f_equal (fun u => Z.testbit u j)) in H. rewrite Z.land_spec, E, Z.pow2_bits_true, Z.bits_0 in H by lia. done.
      * apply negb_false_iff, Z.eqb_eq. apply Z.bits_inj'. intros i Hi. rewrite Z.land_spec, Z.bits_0, Z.pow2_bits_eqb by lia.
        destruct (Z.eqb_spec j i); [by subst|done].
    + destruct rk as [|w rk]; [done|]. rewrite val_rev_cons. cbn [hd]. apply Forall_cons in Hrk as [[W0 W1] _].
      rewrite <-(Z.mod_pow2_bits_low (_ * _ + _) 64 j) by lia. f_equal. rewrite Z.add_comm, Z.mod_add by lia. symmetry. by apply Z.mod_small.
  - rewrite Z.shiftl_mul_pow2, <-Z.pow_add_r by lia. destruct (decide (j = 63)) as [->|Hne].
    + change (u64 (2 ^ (63 + 1)) =? 0) with true. cbn [tail]. change (2 ^ 0) with 1. rewrite Z.div_1_r, Z.div_div by lia.
      destruct rk as [|w rk]; [done|]. rewrite val_rev_cons. apply Forall_cons in Hrk as [[W0 W1] _]. symmetry.
      apply Z.div_unique with (r := w); [left; lia|]. cbn [tail]. change (2 ^ 63 * 2) with (2 ^ 64). lia.
    + unfold wrap. assert (2 ^ (j + 1) < 2 ^ 64) by (apply Z.pow_lt_mono_r; lia). pose proof (Z.pow_pos_nonneg 2 (j + 1) ltac:(lia) ltac:(lia)).
      rewrite Z.mod_small by lia. rewrite (proj2 (Z.eqb_neq _ 0)) by lia. rewrite Z.div_div, Z.pow_add_r by lia. done.
Qed.

Lemma multiply_loop_ok k : forall p q P Q j rk, 0 <= j < 64 -> Forall (is_word 64) rk -> val (rev rk) / 2 ^ j = Z.pos k ->
  repr p P -> repr q Q -> reduced P -> reduced Q ->
  repr (multiply_loop (Pos.size_nat k) p q (2 ^ j) rk) (zmul P Q k) /\ reduced (zmul P Q k).
Proof.
  induction k as [k IH|k IH|]; intros p q P Q j rk Hj Hrk Hk HP HQ RP RQ; cbn [Pos.size_nat multiply_loop zmul];
    destruct (mask_bit j rk Hj Hrk) as [E1 E2]; rewrite E1, Hk; cbn [Z.odd Z.even].
  1, 2: replace (0 <? Z.of_nat (Pos.size_nat k)) with true by (symmetry; apply Z.ltb_lt; destruct k; cbn; lia); rewrite Hk in E2.
  1: replace (Z.pos k~1 / 2) with (Z.pos k) in E2 by (rewrite Pos2Z.inj_xI; Z.div_mod_to_equations; lia).
  2: replace (Z.pos k~0 / 2) with (Z.pos k) in E2 by (rewrite Pos2Z.inj_xO; Z.div_mod_to_equations; lia).
  3: { split; [|by apply zadd_reduced]. destruct (ec_add_repr p q P Q HP HQ RP RQ) as [? _]. by destruct (u64 _ =? 0). }
  all: assert (Hm : (u64 (Z.shiftl (2 ^ j) 1) =? 0) = false -> u64 (Z.shiftl (2 ^ j) 1) = 2 ^ (j + 1) /\ j + 1 < 64) by
    (rewrite Z.shiftl_mul_pow2, <-Z.pow_add_r by lia; destruct (decide (j = 63)) as [->|]; [done|]; intros _; split; [|lia];
     apply Z.mod_small; split; [apply Z.pow_nonneg; lia|apply Z.pow_lt_mono_r; lia]).
  all: destruct (u64 (Z.shiftl (2 ^ j) 1) =? 0) eqn:Em; [|destruct (Hm eq_refl) as [-> Hj']].
  all: first [change 1 with (2 ^ 0) at 1|idtac]; apply IH; try done; try lia; try (by apply ec_double_repr); try apply zdouble_reduced;
    try (by apply (proj1 (ec_add_repr p q P Q HP HQ RP RQ))); try (by apply zadd_reduced); destruct rk; try done; by apply Forall_cons in Hrk as [_ ?].
Qed.

Lemma size_nat_nbits (m : positive) : Z.to_nat (nbits (Z.pos m)) = Pos.size_nat m.
Proof.
  unfold nbits. cbn [Z.eqb]. induction m as [m IH|m IH|]; [..|done]; cbn [Pos.size_nat]; rewrite <-IH.
  - rewrite Pos2Z.inj_xI, Z.log2_succ_double by lia. pose proof (Z.log2_nonneg (Z.pos m)). lia.
  - rewrite Pos2Z.inj_xO, Z.log2_double by lia. pose proof (Z.log2_nonneg (Z.pos m)). lia.
Qed.

Lemma repr_affine x y (X Y : Z) : red x X -> red y Y -> repr (x, y, bn_one) (X, Y, 1).
Proof. intros Hx Hy. split_and!; try done. apply repr_clear. Qed.

Lemma ec_multiply_repr x y (k : list Z) (X Y : Z) : red x X -> red y Y -> is_red X -> is_red Y -> bn 9 k ->
  repr (ec_multiply x y k) (zmultiple X Y (val k)) /\ reduced (zmultiple X Y (val k)).
Proof.
  intros Hx Hy RX RY Hk. unfold ec_multiply. rewrite bn_bits_ok by done. pose proof (val_bound 9 k Hk) as [V0 _]. pose proof prime_pos.
  assert (R0 : reduced (0, 0, 1)) by (unfold reduced, is_red, prime; lia). destruct (val k) as [|m|m] eqn:E; [|..|lia]; cbn [zmultiple].
  - split; [apply repr_clear|done].
  - rewrite size_nat_nbits. change 1 with (2 ^ 0) at 1. apply multiply_loop_ok; try done.
    + apply Forall_rev. apply Hk.
    + by rewrite rev_involutive, E, Z.pow_0_r, Z.div_1_r.
    + apply repr_clear.
    + by apply repr_affine.
Qed.

(** ** Reading *)

Lemma be_words_val n : forall bytes, is_bytes bytes -> length bytes = (8 * n)%nat -> bn n (be_words n bytes) /\ val (be_words n bytes) = be_combine bytes.
Proof.
  intros bytes Hb Hl. split; [split; [apply length_be_words|by apply be_words_word]|]. revert bytes Hb Hl.
  induction n as [|n IH]; intros bytes Hb Hl; [by destruct bytes|]. cbn [be_words val]. rewrite length_be_words, IH; [|by apply Forall_drop|rewrite length_drop; lia].
  rewrite <-(take_drop 8 bytes) at 3. rewrite be_combine_join by (by apply Forall_take || by apply Forall_drop). rewrite length_drop, Hl.
  by replace (8 * Z.of_nat (8 * S n - 8)) with (64 * Z.of_nat n) by lia.
Qed.

Lemma bn_read_ok len data : is_bytes data -> length data = len -> (len <= BNBYTES)%nat -> bn 9 (bn_read len data) /\ val (bn_read len data) = be_combine data.
Proof.
  intros Hb Hl Hn. change BNBYTES with 72%nat in *. assert (Hz : is_bytes (replicate (72 - len) 0)) by (apply Forall_replicate; split; lia).
  unfold bn_read. change BNBYTES with 72%nat. change NWORDS with 9%nat. rewrite take_ge by lia.
  destruct (be_words_val 9 (replicate (72 - len) 0 ++ data)) as [B1 B2]; [by apply Forall_app|rewrite length_app, length_replicate; lia|].
  split; [done|]. rewrite B2, be_combine_join by done. replace (be_combine (replicate (72 - len) 0)) with 0; [done|].
  generalize (72 - len)%nat as m. induction m as [|m IH]; [done|]. cbn [replicate]. rewrite be_combine_cons, <-IH by (apply Forall_replicate; split; lia). lia.
Qed.

(** ** The curve's law *)

(** Congruence modulo the prime, for rewriting. *)
Definition cong (u v : Z) : Prop := u mod prime = v mod prime.

#[local] Instance cong_equiv : Equivalence cong.
Proof. split; unfold cong; [by intros u|by intros u v H; symmetry|intros u v w H1 H2; congruence]. Qed.
#[local] Instance cong_add : Proper (cong ==> cong ==> cong) Z.add.
Proof. pose proof prime_pos. intros u u' Hu v v' Hv. unfold cong in *. by rewrite Z.add_mod, Hu, Hv, <-Z.add_mod by lia. Qed.
#[local] Instance cong_sub : Proper (cong ==> cong ==> cong) Z.sub.
Proof. intros u u' Hu v v' Hv. unfold cong in *. by rewrite Zminus_mod, Hu, Hv, <-Zminus_mod. Qed.
#[local] Instance cong_mul : Proper (cong ==> cong ==> cong) Z.mul.
Proof. pose proof prime_pos. intros u u' Hu v v' Hv. unfold cong in *. by rewrite Z.mul_mod, Hu, Hv, <-Z.mul_mod by lia. Qed.

Lemma cong_eq (u v : Z) : u = v -> cong u v.
Proof. by intros ->. Qed.

Lemma repr_cong p (X Y Z X' Y' Z' : Z) : repr p (zred (X, Y, Z)) -> cong X X' -> cong Y Y' -> cong Z Z' -> repr p (X', Y', Z').
Proof. destruct p as [[x y] z]. intros (H1 & H2 & H3). intros E1 E2 E3. apply (proj1 (red_mod x X)) in H1. apply (proj1 (red_mod y Y)) in H2. apply (proj1 (red_mod z Z)) in H3.
  split; [|split]; by eapply red_eq. Qed.

(** C10: [ec_double] is the tangent law of the curve with [a = -3]: for a point
    with the affine coordinates [x0], [y0] and the slope [l] of the tangent
    there, the result has the affine coordinates [l^2 - 2 x0] and
    [l (x0 - x3) - y0], all modulo the prime, and is reduced. *)
Theorem ec_double_tangent p (x0 y0 Z l : Z) :
  repr p (x0 * Z, y0 * Z, Z) -> cong (l * (2 * y0)) (3 * (x0 * x0 - 1)) ->
  let x3 := l * l - 2 * x0 in let y3 := l * (x0 - x3) - y0 in let Z3 := 8 * (y0 * Z * Z) ^ 3 in
  repr (ec_double p) (x3 * Z3, y3 * Z3, Z3).
Proof.
  intros Hp Hl x3 y3 Z3. pose proof (ec_double_repr p _ Hp) as H. unfold zdouble in H. cbv zeta in H.
  assert (HA : cong (3 * (x0 * Z * (x0 * Z) - Z * Z)) (l * (2 * y0) * (Z * Z))) by (rewrite Hl; apply cong_eq; ring).
  eapply repr_cong; [exact H|..]; rewrite ?HA; apply cong_eq; unfold y3, x3, Z3; ring.
Qed.

(** C9: [ec_add] of two points that differ is the chord law: with the slope [l]
    through the affine points, the result has the affine coordinates
    [l^2 - x1 - x2] and [l (x1 - x3) - y1], and is reduced. *)
Theorem ec_add_chord_law p q (x1 y1 Z1 x2 y2 Z2 l : Z) :
  repr p (x1 * Z1, y1 * Z1, Z1) -> repr q (x2 * Z2, y2 * Z2, Z2) -> cong (l * (x2 - x1)) (y2 - y1) ->
  zinf (zred (x1 * Z1, y1 * Z1, Z1)) = false -> zinf (zred (x2 * Z2, y2 * Z2, Z2)) = false ->
  ~ (cong (x1 * Z1) (x2 * Z2) /\ cong (y1 * Z1) (y2 * Z2)) ->
  let x3 := l * l - x1 - x2 in let y3 := l * (x1 - x3) - y1 in let Z3 := (Z1 * Z2) ^ 4 * (x2 - x1) ^ 3 in
  exists r, ec_add p q = (r, false) /\ repr r (x3 * Z3, y3 * Z3, Z3).
Proof.
  intros Hp Hq Hl I1 I2 Hne x3 y3 Z3. exists (ec_add_chord p q). split.
  - apply repr_zred in Hp, Hq. pose proof (reduced_zred (x1 * Z1, y1 * Z1, Z1)) as RP. pose proof (reduced_zred (x2 * Z2, y2 * Z2, Z2)) as RQ.
    destruct p as [[a1 b1] c1], q as [[a2 b2] c2]. unfold ec_add. rewrite (is_infinity_ok a1 b1 c1 _ Hp RP), (is_infinity_ok a2 b2 c2 _ Hq RQ), I1, I2.
    destruct Hp as (A1 & A2 & _), Hq as (B1 & B2 & _), RP as (C1 & C2 & _), RQ as (D1 & D2 & _).
    rewrite (red_cmp a1 a2 _ _ A1 B1 C1 D1), (red_cmp b1 b2 _ _ A2 B2 C2 D2). destruct ((_ =? _) && (_ =? _)) eqn:E; [|done]. apply andb_true_iff in E as [E1 E2]. exfalso. apply Hne. split; by apply Z.eqb_eq.
  - pose proof (ec_add_chord_repr p q _ _ Hp Hq) as H. unfold zchord in H. cbv zeta in H.
    assert (HA : cong (y2 * Z2 * Z1 - y1 * Z1 * Z2) (l * (x2 - x1) * (Z1 * Z2))) by (rewrite Hl; apply cong_eq; ring).
    eapply repr_cong; [exact H|..]; rewrite ?HA; apply cong_eq; unfold y3, x3, Z3; ring.
Qed.

(** C1: The scan of the words of a scalar from its least significant bit on is
    the double-and-add of [zmultiple], for every scalar of [NWORDS] words. *)
Theorem ec_multiply_correct x y (k : list Z) (X Y : Z) : red x X -> red y Y -> is_red X -> is_red Y -> bn NWORDS k ->
  repr (ec_multiply x y k) (zmultiple X Y (val k)).
Proof. intros Hx Hy RX RY Hk. by apply ec_multiply_repr. Qed.

(** C11: For the prime and the order, [bn_modinv] ends and finds the inverse,
    reduced, of every number that has one; the signs that it reads from one bit
    of the coefficients are right on the way. *)
Theorem bn_modinv_inverse (a n : list Z) : n = ec_prime \/ n = ec_order -> bn NWORDS a -> val a < val n -> Z.gcd (val n) (val a) = 1 ->
  exists r, bn_modinv a n = Done r /\ bn NWORDS r /\ val r < val n /\ (val r * val a) mod val n = 1.
Proof.
  intros Hn Ha Hlt G. destruct val_prime as [Bp Vp], val_order as (Bo & HG & Eo).
  assert (HN : bn 9 n /\ 2 ^ 520 <= val n < 2 ^ 521) by (destruct Hn as [-> | ->]; (split; [assumption|]); [rewrite Vp; unfold prime|fold order]; lia).
  destruct HN as [Bn HN]. exact (bn_modinv_ok a n Ha Bn HN Hlt G).
Qed.

(** ** The check of a signature *)

Lemma ec_projective2affine_ok x z (X Z : Z) : red x X -> red z Z -> is_red Z -> Z.gcd prime Z = 1 ->
  exists x' X', ec_projective2affine x z = Done x' /\ red x' X' /\ is_red X' /\ (X' * Z) mod prime = X mod prime.
Proof.
  intros Hx Hz RZ G. destruct val_prime as [Bp Vp]. pose proof prime_pos as P. pose proof (red_val z Z Hz RZ) as Vz.
  destruct (bn_modinv_ok z ec_prime) as (zi & E & Bz & Hlt & Hi); [apply Hz|done|rewrite Vp; unfold prime; lia|rewrite Vz, Vp; apply RZ|by rewrite Vp, Vz|].
  unfold ec_projective2affine. rewrite E. cbn [obind]. rewrite Vp in Hlt, Hi. rewrite Vz in Hi.
  assert (Hzi : rep 1 zi (val zi)) by (split_and!; [done|lia|done]). pose proof (rep_mul 1 1 x zi X (val zi) (rep_red x X Hx) Hzi ltac:(lia) ltac:(lia) ltac:(lia)) as Hm.
  apply red_slow in Hm. exists (bn_modred_slow (bn_modmul_prime x zi)), ((X * val zi) mod prime). split; [done|]. split; [by apply red_mod|].
  split; [apply Z.mod_pos_bound; lia|]. rewrite Z.mul_mod_idemp_l, <-Z.mul_assoc by lia. by rewrite Z.mul_mod, Hi, Z.mul_1_r, Z.mod_mod by lia.
Qed.

Lemma read_coordinates data : is_bytes data -> length data = (2 * EC_COORDBYTES)%nat ->
  (bn 9 (bn_read_pt data) /\ val (bn_read_pt data) = be_combine (take EC_COORDBYTES data)) /\
  (bn 9 (bn_read_pt (drop EC_COORDBYTES data)) /\ val (bn_read_pt (drop EC_COORDBYTES data)) = be_combine (drop EC_COORDBYTES data)).
Proof.
  intros Hb Hl. change EC_COORDBYTES with 66%nat in *. unfold bn_read_pt. change EC_PRIMEBYTES with 66%nat. split.
  - destruct (bn_read_ok 66 (take 66 data)) as [H1 H2]; [by apply Forall_take|rewrite length_take; lia|by apply Nat.leb_le|].
    assert (E : bn_read 66 (take 66 data) = bn_read 66 data) by (unfold bn_read; by rewrite take_take). by rewrite E in H1, H2.
  - apply bn_read_ok; [by apply Forall_drop|rewrite length_drop; lia|by apply Nat.leb_le].
Qed.

Lemma modmul_order_ok (a b : list Z) : bn 9 a -> bn 9 b -> val a < 2 ^ 521 -> val b < 2 ^ 521 ->
  bn 9 (bn_modmul_order a b) /\ 0 <= val (bn_modmul_order a b) < 2 * order /\ val (bn_modmul_order a b) mod order = (val a * val b) mod order.
Proof.
  intros Ha Hb La Lb. destruct (bn_mul_ok 8 a b Ha Hb) as [M1 M2]. pose proof (val_bound 9 a Ha). pose proof (val_bound 9 b Hb).
  assert (val a * val b < 2 ^ 1042) by (change (2 ^ 1042) with (2 ^ 521 * 2 ^ 521); apply Z.mul_lt_mono_nonneg; lia).
  destruct (bn_modred_p521_order_ok (bn_mul a b) M1) as (R1 & R2 & R3); [by rewrite M2|]. unfold bn_modmul_order. rewrite M2 in R3.
  split; [done|]. split; [|done]. split; [by apply (val_bound 9)|done].
Qed.

Lemma sub_order_mod (x : list Z) (X : Z) : red x X -> is_red X ->
  bn 9 (if bn_ge_order x then (bn_sub x ec_order).1 else x) /\ val (if bn_ge_order x then (bn_sub x ec_order).1 else x) = X mod order.
Proof.
  intros Hx RX. destruct (sub_order x (proj1 Hx)) as [S1 S2]. unfold bn_ge_order. split; [done|]. rewrite S2, (red_val x X) by done.
  destruct val_order as (_ & HG & Eo). destruct RX as [R0 R1]. unfold prime in R1. destruct (order <=? X) eqn:E; b2p.
  - apply Z.mod_unique with (q := 1); [left; lia|lia].
  - symmetry. apply Z.mod_small. lia.
Qed.

Lemma ge_prime_ok x : bn 9 x -> bn_ge_prime x = (prime <=? val x).
Proof. intros Hx. destruct val_prime as [Bp Vp]. unfold bn_ge_prime. by rewrite (bn_cmp_ge 9), Vp. Qed.
Lemma ge_order_ok x : bn 9 x -> bn_ge_order x = (order <=? val x).
Proof. intros Hx. unfold bn_ge_order. by rewrite (bn_cmp_ge 9) by (done || apply val_order). Qed.

Definition base_x : Z := val prime_px.
Definition base_y : Z := val prime_py.
Lemma base_red : red prime_px base_x /\ red prime_py base_y /\ is_red base_x /\ is_red base_y.
Proof.
  assert (B : bn 9 prime_px /\ bn 9 prime_py) by (split; (split; [done|repeat constructor; done])). destruct B as [B1 B2].
  assert (L : base_x < prime /\ base_y < prime) by (split; by vm_compute). pose proof (val_bound 9 _ B1). pose proof (val_bound 9 _ B2).
  unfold is_red, base_x, base_y in *. split_and!; try done; try lia; symmetry; apply Z.mod_small; lia.
Qed.

(** The result of [ec_verify] for the numbers [r] and [s] of a signature, [e] of
    a hash and a key [(X, Y)], in the terms of the standard: where the
    operations of the field and of the group are [zadd] and [zmultiple]. *)
Definition ecdsa (r s e X Y : Z) (result : outcome Z) : Prop :=
  if (order <=? r) || (order <=? s) || (s =? 0) || (r =? 0) then result = Done 0
  else if (prime <=? X) || (prime <=? Y) || (X =? 0) || (Y =? 0) then result = Done (-1)
  else exists w u1 u2, (w * s) mod order = 1 /\ u1 mod order = (w * e) mod order /\ u2 mod order = (r * w) mod order /\ 0 <= u1 < 2 * order /\ 0 <= u2 < 2 * order /\
    let P := zmultiple X Y u2 in
    let Q := zmultiple base_x base_y u1 in
    let '(XR, YR, ZR) := zadd P Q in
    if zinf P && zinf Q then result = Done 0
    else Z.gcd prime ZR = 1 -> exists x : Z, is_red x /\ (x * ZR) mod prime = XR /\ result = Done (Z.b2z (r =? x mod order)).


(** ** Samples *)

(** A key for which 1 and 1 sign the hash 1: the scalars are 1, and the key is
    chosen such that its sum with the base point has the coordinate 1.  It is not
    a point of the curve, which is not tested. *)
Definition sample_key : list Z := be_split 132 0xc6858e06b70404e9cd9e3ecb662395b4429c648139053fb521f828af606b4d3dbaa14b5e77efe75928fe1dc127a2ffa8de3348b3c1856a429bf97e7e31c2e5bd6701dd4854a96d39d610d0e9b3c200aee295205a53570f3bc090c0592e9b53c17787708ca3a07c7ce0b0327dbd5c52e538faaf7d215c75ce051a186a5ab161679bc5c5.
Definition sample_hash : list Z := be_split 64 1.
Definition sample_signature : list Z := be_split 132 (2 ^ 528 + 1).

Example sample_accepted : ec_verify (Some sample_key) (Some sample_hash) (Some sample_signature) = Done 1.
Proof. vm_compute. reflexivity. Qed.

(** Two subtractions of the order are not always enough, since the stored
    quotient is one too small: a product of two reduced numbers that is not
    reduced by [bn_modred_p521_order]. *)
Example order_not_reduced :
  let a := bn_read_pt (be_split 66 6831649220730231846515193881612835029642401764161955441047820639625376414601051138987456766569911168377640672693634457189379688295215263442330803049926403609) in
  let b := bn_read_pt (be_split 66 6803018613966395766101785000984286762505028122509940705199852267325967787799555876128259662235588379673561539710703326821435301512786191810637116393145873477) in
  bn_ge_order a = false /\ bn_ge_order b = false /\ bn_ge_order (bn_modmul_order a b) = true.
Proof. by vm_compute. Qed.

(** A number of one word. *)
Definition small (u : Z) : list Z := bn_clr 8 ++ [u].
Lemma small_red (u : Z) : is_word 64 u -> red (small u) u /\ is_red u /\ bn 9 (small u) /\ val (small u) = u.
Proof.
  intros [H0 H1]. assert (B : bn 9 (small u)) by (split; [done|repeat (constructor; try done)]). assert (V : val (small u) = u) by (cbn; lia).
  assert (R : is_red u) by (unfold is_red, prime; lia). split; [split; [done|]; rewrite V; symmetry; by apply Z.mod_small|done].
Qed.
Lemma small_point (X Y Z : Z) : is_word 64 X -> is_word 64 Y -> is_word 64 Z -> repr (small X, small Y, small Z) (X, Y, Z).
Proof. intros HX HY HZ. split; [|split]; by apply small_red. Qed.

Lemma ec_double_tangent_witness : repr (ec_double (small 6, small 4, small 2)) (30 * (8 * 8 ^ 3), -164 * (8 * 8 ^ 3), 8 * 8 ^ 3).
Proof.
  apply (ec_double_tangent (small 6, small 4, small 2) 3 2 2 6); [apply small_point; done|reflexivity].
Defined.

Lemma ec_add_chord_law_witness : exists r, ec_add (small 1, small 1, small 1) (small 4, small 8, small 2) = (r, false) /\ repr r (6 * 16, -16 * 16, 16).
Proof.
  apply (ec_add_chord_law (small 1, small 1, small 1) (small 4, small 8, small 2) 1 1 1 2 4 2 3); try reflexivity; try (apply small_point; done).
  intros [H _]. revert H. vm_compute. discriminate.
Defined.

Lemma ec_multiply_correct_witness : repr (ec_multiply (small 3) (small 2) (small 5)) (zmultiple 3 2 5).
Proof.
  apply (ec_multiply_correct (small 3) (small 2) (small 5) 3 2); apply small_red; done.
Defined.

Lemma bn_modinv_inverse_witness : exists r, bn_modinv (small 3) ec_prime = Done r /\ bn NWORDS r /\ val r < val ec_prime /\ (val r * 3) mod val ec_prime = 1.
Proof.
  apply (bn_modinv_inverse (small 3) ec_prime); [by left|by apply small_red|reflexivity|reflexivity].
Defined.


(** The sum of a point and its opposite is not reported to be at infinity, and
    has not the coordinates (0, 0) that stand for it. *)
Example opposite_sum : exists y, ec_add (small 1, small 1, bn_one) (small 1, (bn_sub ec_prime (small 1)).1, bn_one) = ((bn_clr 9, y, bn_clr 9), false) /\ ec_is_infinity (bn_clr 9) y = false.
Proof. eexists. split; vm_compute; reflexivity. Qed.
