(* ===== verification/RomVerify.v ===== *)
(** * The check of a container ([src/securerom/ROM.C], [src/include/securerom/ROM.H])

    [ROM_verify] walks through a signed container: the hardware keys, whose hash
    is known to the machine, sign the prefix, the prefix protects the software
    keys, those sign the software header, and that protects the payload.  The
    container is the memory from its address on; its structures are packed, and
    the place of each depends on the counts in those before it. *)

From S2P Require Import Prelude Bignum BnInv EcVerify Sha512.

(** The byte at an offset from the container's address. *)
Definition memory : Type := Z -> Z.
Implicit Types (mem : memory).

Definition bytes mem (off : Z) (n : nat) : list Z := map (fun i => mem (off + Z.of_nat i)) (seq 0 n).
Definition GET8 mem (off : Z) : Z := be_combine (bytes mem off 1).
Definition GET16 mem (off : Z) : Z := be_combine (bytes mem off 2).
Definition GET32 mem (off : Z) : Z := be_combine (bytes mem off 4).
Definition GET64 mem (off : Z) : Z := be_combine (bytes mem off 8).

(** ** Constants *)

Definition ROM_MAGIC_NUMBER : Z := 0x17082011.
Definition CONTAINER_VERSION : Z := 1.
Definition HEADER_VERSION : Z := 1.
Definition HASH_ALG_SHA512 : Z := 1.
Definition SIG_ALG_ECDSA521 : Z := 1.
Definition HW_KEY_COUNT : Z := 3.
Definition SW_KEY_COUNT_MIN : Z := 1.
Definition SW_KEY_COUNT_MAX : Z := 3.
Definition ECID_SIZE : Z := 16.
Definition ENTRY_MASK : Z := 0x7ffffffffffffffc.
Definition sizeof_key : Z := 2 * Z.of_nat EC_COORDBYTES.
Definition SHA512_DIGEST_LENGTH : nat := 64.

Definition ERROR_EVENT : Z := 0xFFFFFFFFFFFF8000.
Definition CONTEXT : Z := 0x0100.
Definition BEGIN : Z := 0x0001.
Definition COMPLETED : Z := 0x0003.

(** The tests that fail, by the codes of [status_codes.H]. *)
Inductive test : Type :=
  | MAGIC_NUMBER_TEST | CONTAINER_VERSION_TEST | HW_KEY_HASH_TEST | PREFIX_VER_ALG_TEST | HW_SIGNATURE_TEST | PREFIX_ECID_TEST | PREFIX_HASH_TEST
  | SW_KEY_INVALID_COUNT | SW_KEY_PROTECTION_TEST | SECURE_VERSION_TEST | HEADER_VER_ALG_TEST | SW_SIGNATURE_TEST | HEADER_ECID_TEST
  | ENTRY_VALID_TEST | CODE_PROTECTION_TEST | HEADER_HASH_TEST.
Definition code (t : test) : Z :=
  match t with
  | MAGIC_NUMBER_TEST => 0x20 | CONTAINER_VERSION_TEST => 0x21 | PREFIX_VER_ALG_TEST => 0x22 | HEADER_VER_ALG_TEST => 0x23
  | HW_KEY_HASH_TEST => 0x60 | HW_SIGNATURE_TEST => 0x61 | PREFIX_ECID_TEST => 0x62 | PREFIX_HASH_TEST => 0x63 | SW_KEY_PROTECTION_TEST => 0x64
  | SW_KEY_INVALID_COUNT => 0x65 | SW_SIGNATURE_TEST => 0x70 | HEADER_ECID_TEST => 0x71 | HEADER_HASH_TEST => 0x72 | CODE_PROTECTION_TEST => 0x73
  | ENTRY_VALID_TEST => 0x80 | SECURE_VERSION_TEST => 0x90
  end.

(** ** Structures *)

Record ROM_hw_params : Type := { hw_key_hash : list Z; my_ecid : list Z; entry_point : Z; log : Z }.

Inductive ROM_response : Type := ROM_DONE | ROM_FAILED.

(** [ROM_container_raw], from its start. *)
Definition magic_number : Z := 0.
Definition version : Z := 4.
Definition hw_pkey_a : Z := 30.
Definition prefix : Z := hw_pkey_a + HW_KEY_COUNT * sizeof_key.

(** [ROM_version_raw], and the two headers, whose fields are at the same places:
    [ROM_prefix_header_raw] and [ROM_sw_header_raw]. *)
Definition version_hash_alg : Z := 2.
Definition version_sig_alg : Z := 3.
Definition code_start_offset : Z := 4.
Definition key_count_or_secure_version : Z := 24.
Definition payload_size : Z := 25.
Definition payload_hash : Z := 33.
Definition ecid_count : Z := 97.
Definition ecid : Z := 98.
Definition sizeof_header : Z := ecid + ECID_SIZE.

(** [PREFIX_HEADER_SIZE] and [SW_HEADER_SIZE]. *)
Definition HEADER_SIZE mem (header : Z) : Z := u64 (sizeof_header + u64 ((GET8 mem (header + ecid_count) - 1) * ECID_SIZE)).

(** ** Checks *)

Definition valid_ver_alg mem (ver_alg : Z) (sig_alg : Z) : bool :=
  if negb (GET16 mem ver_alg =? HEADER_VERSION) then false
  else if negb (GET8 mem (ver_alg + version_hash_alg) =? HASH_ALG_SHA512) then false
  else if sig_alg =? 0 then true
  else if negb (GET8 mem (ver_alg + version_sig_alg) =? sig_alg) then false
  else true.

Definition valid_ecid (ecid_count : Z) (ecids hw_ecid : list Z) : bool := if ecid_count =? 0 then true else false.

(** [key_count] keys at [keys] and as many signatures at [sigs]. *)
Fixpoint multi_key_verify mem (digest : list Z) (key_count : nat) (keys sigs : Z) : outcome bool :=
  match key_count with
  | O => Done true
  | S key_count =>
      do v <- ec_verify (Some (bytes mem keys (2 * EC_COORDBYTES))) (Some digest) (Some (bytes mem sigs (2 * EC_COORDBYTES)));
      if v <? 1 then Done false else multi_key_verify mem digest key_count (keys + sizeof_key) (sigs + sizeof_key)
  end.

Definition memcmp_equal (a b : list Z) : bool := bool_decide (a = b).

Definition set_log (params : ROM_hw_params) (l : Z) : ROM_hw_params :=
  {| hw_key_hash := hw_key_hash params; my_ecid := my_ecid params; entry_point := entry_point params; log := l |}.
Definition set_entry_point (params : ROM_hw_params) (e : Z) : ROM_hw_params :=
  {| hw_key_hash := hw_key_hash params; my_ecid := my_ecid params; entry_point := e; log := log params |}.

Definition FAILED (params : ROM_hw_params) (t : test) : outcome (ROM_response * ROM_hw_params) :=
  Done (ROM_FAILED, set_log params (Z.lor (Z.lor ERROR_EVENT CONTEXT) (code t))).

Section verify.
(** What is on the stack under the context of a hash. *)
Context (stack : SHA512_CTX).

Definition ROM_verify mem (params : ROM_hw_params) : outcome (ROM_response * ROM_hw_params) :=
  let i_fw_secure_version := u8 (log params) in
  let params := set_log params (Z.lor CONTEXT BEGIN) in
  if negb (GET32 mem magic_number =? ROM_MAGIC_NUMBER) then FAILED params MAGIC_NUMBER_TEST
  else if negb (GET16 mem version =? CONTAINER_VERSION) then FAILED params CONTAINER_VERSION_TEST
  else
  let digest := SHA512_Hash stack (bytes mem hw_pkey_a (Z.to_nat (HW_KEY_COUNT * sizeof_key))) in
  if negb (memcmp_equal (hw_key_hash params) digest) then FAILED params HW_KEY_HASH_TEST
  else if negb (valid_ver_alg mem prefix SIG_ALG_ECDSA521) then FAILED params PREFIX_VER_ALG_TEST
  else
  let prefix_ecids := GET8 mem (prefix + ecid_count) in
  let hw_data := prefix + ecid + prefix_ecids * ECID_SIZE in
  let digest := SHA512_Hash stack (bytes mem prefix (Z.to_nat (HEADER_SIZE mem prefix))) in
  do ok <- multi_key_verify mem digest (Z.to_nat HW_KEY_COUNT) hw_pkey_a hw_data;
  if negb ok then FAILED params HW_SIGNATURE_TEST
  else if negb (valid_ecid prefix_ecids (bytes mem (prefix + ecid) (Z.to_nat ECID_SIZE)) (my_ecid params)) then FAILED params PREFIX_ECID_TEST
  else
  let size := GET64 mem (prefix + payload_size) in
  let sw_pkey_p := hw_data + 3 * sizeof_key in
  let digest := SHA512_Hash stack (bytes mem sw_pkey_p (Z.to_nat size)) in
  if negb (memcmp_equal (bytes mem (prefix + payload_hash) SHA512_DIGEST_LENGTH) digest) then FAILED params PREFIX_HASH_TEST
  else
  let sw_key_count := GET8 mem (prefix + key_count_or_secure_version) in
  if (sw_key_count <? SW_KEY_COUNT_MIN) || (SW_KEY_COUNT_MAX <? sw_key_count) then FAILED params SW_KEY_INVALID_COUNT
  else if negb (size =? sw_key_count * sizeof_key) then FAILED params SW_KEY_PROTECTION_TEST
  else
  let header := sw_pkey_p + sw_key_count * sizeof_key in
  if GET8 mem (header + key_count_or_secure_version) <? i_fw_secure_version then FAILED params SECURE_VERSION_TEST
  else if negb (valid_ver_alg mem header 0) then FAILED params HEADER_VER_ALG_TEST
  else
  let header_ecids := GET8 mem (header + ecid_count) in
  let sw_sig := header + ecid + header_ecids * ECID_SIZE in
  let digest := SHA512_Hash stack (bytes mem header (Z.to_nat (HEADER_SIZE mem header))) in
  do ok <- multi_key_verify mem digest (Z.to_nat sw_key_count) sw_pkey_p sw_sig;
  if negb ok then FAILED params SW_SIGNATURE_TEST
  else if negb (valid_ecid header_ecids (bytes mem (header + ecid) (Z.to_nat ECID_SIZE)) (my_ecid params)) then FAILED params HEADER_ECID_TEST
  else
  let params := set_entry_point params (GET64 mem (header + code_start_offset)) in
  if negb (Z.land (entry_point params) (Z.lxor ENTRY_MASK (Z.ones 64)) =? 0) then FAILED params ENTRY_VALID_TEST
  else
  let size := GET64 mem (header + payload_size) in
  if size <=? u64 (entry_point params + 3) then FAILED params CODE_PROTECTION_TEST
  else
  let digest := SHA512_Hash stack (bytes mem 4096 (Z.to_nat size)) in
  if negb (memcmp_equal (bytes mem (header + payload_hash) SHA512_DIGEST_LENGTH) digest) then FAILED params HEADER_HASH_TEST
  else Done (ROM_DONE, set_log params (Z.lor CONTEXT COMPLETED)).
End verify.

(** ** The chain of trust *)

(** [count] keys at [keys] all sign the digest, with signatures at [sigs]. *)
Definition all_sign mem (digest : list Z) (count keys sigs : Z) : Prop :=
  forall i, 0 <= i < count ->
    ec_verify (Some (bytes mem (keys + i * sizeof_key) (2 * EC_COORDBYTES))) (Some digest) (Some (bytes mem (sigs + i * sizeof_key) (2 * EC_COORDBYTES))) = Done 1.

(** The places of a container without ECIDs that has [n] software keys. *)
Definition hw_sigs : Z := prefix + ecid.
Definition sw_keys : Z := hw_sigs + HW_KEY_COUNT * sizeof_key.
Definition sw_header (n : Z) : Z := sw_keys + n * sizeof_key.
Definition sw_sigs (n : Z) : Z := sw_header n + ecid.

Definition sha mem (off size : Z) : list Z := sha512 (bytes mem off (Z.to_nat size)).

(** What a container is that the machine of [params] trusts; [n] is the number
    of its software keys. *)
Record trusted mem (params : ROM_hw_params) (n : Z) : Prop := {
  tr_magic : GET32 mem magic_number = ROM_MAGIC_NUMBER /\ GET16 mem version = CONTAINER_VERSION;
  (* the hardware keys are those of the machine *)
  tr_hw_keys : sha mem hw_pkey_a (HW_KEY_COUNT * sizeof_key) = hw_key_hash params;
  (* and all sign the prefix *)
  tr_prefix : GET16 mem prefix = HEADER_VERSION /\ GET8 mem (prefix + version_hash_alg) = HASH_ALG_SHA512 /\ GET8 mem (prefix + version_sig_alg) = SIG_ALG_ECDSA521;
  tr_prefix_ecids : GET8 mem (prefix + ecid_count) = 0;
  tr_prefix_signed : all_sign mem (sha mem prefix ecid) HW_KEY_COUNT hw_pkey_a hw_sigs;
  (* which has the number of software keys and the hash of all of them *)
  tr_sw_count : GET8 mem (prefix + key_count_or_secure_version) = n /\ 1 <= n <= 3 /\ GET64 mem (prefix + payload_size) = n * sizeof_key;
  tr_sw_keys : sha mem sw_keys (n * sizeof_key) = bytes mem (prefix + payload_hash) SHA512_DIGEST_LENGTH;
  (* that all sign the software header *)
  tr_header : GET16 mem (sw_header n) = HEADER_VERSION /\ GET8 mem (sw_header n + version_hash_alg) = HASH_ALG_SHA512;
  tr_secure_version : u8 (log params) <= GET8 mem (sw_header n + key_count_or_secure_version);
  tr_header_ecids : GET8 mem (sw_header n + ecid_count) = 0;
  tr_header_signed : all_sign mem (sha mem (sw_header n) ecid) n sw_keys (sw_sigs n);
  (* which has the hash of the payload, with the entry point inside *)
  tr_payload : sha mem 4096 (GET64 mem (sw_header n + payload_size)) = bytes mem (sw_header n + payload_hash) SHA512_DIGEST_LENGTH;
  tr_entry : Z.land (GET64 mem (sw_header n + code_start_offset)) (Z.lxor ENTRY_MASK (Z.ones 64)) = 0 /\
    u64 (GET64 mem (sw_header n + code_start_offset) + 3) < GET64 mem (sw_header n + payload_size)
}.

(** ** Lemmas *)

Lemma failed_done (c : bool) params t k r : (if c then FAILED params t else k) = Done (ROM_DONE, r) <-> c = false /\ k = Done (ROM_DONE, r).
Proof. destruct c; split; [done|by intros [? _]|done|by intros [_ ?]]. Qed.

Lemma header_size_empty mem header : GET8 mem (header + ecid_count) = 0 -> HEADER_SIZE mem header = ecid.
Proof. unfold HEADER_SIZE. by intros ->. Qed.

Lemma valid_ecid_ok (n : Z) a b : negb (valid_ecid n a b) = false <-> n = 0.
Proof. unfold valid_ecid. destruct (n =? 0) eqn:E; b2p; by split. Qed.

Lemma memcmp_equal_ok a b : negb (memcmp_equal a b) = false <-> b = a.
Proof. unfold memcmp_equal. rewrite negb_false_iff, bool_decide_eq_true. by split. Qed.

Lemma eqb_ok (a b : Z) : negb (a =? b) = false <-> a = b.
Proof. by rewrite negb_false_iff, Z.eqb_eq. Qed.

Lemma valid_ver_alg_ok mem v alg : negb (valid_ver_alg mem v alg) = false <->
  GET16 mem v = HEADER_VERSION /\ GET8 mem (v + version_hash_alg) = HASH_ALG_SHA512 /\ (alg = 0 \/ GET8 mem (v + version_sig_alg) = alg).
Proof.
  unfold valid_ver_alg. destruct (GET16 mem v =? _) eqn:E1; b2p; cbn [negb]; [|by split; [|intros (? & _)]].
  destruct (GET8 mem _ =? HASH_ALG_SHA512) eqn:E2; b2p; cbn [negb]; [|by split; [|intros (_ & ? & _)]].
  destruct (alg =? 0) eqn:E3; b2p; cbn [negb]; [split; [by auto|done]|].
  destruct (GET8 mem _ =? alg) eqn:E4; b2p; cbn [negb]; split; try done; [by auto|by intros (_ & _ & [?|?])].
Qed.

Lemma ec_verify_range p h s v : ec_verify p h s = Done v -> v <= 1.
Proof.
  unfold ec_verify. destruct p; [|by intros [= <-]]. destruct s; [|by intros [= <-]]. destruct h; [|by intros [= <-]]. cbv zeta.
  destruct (_ || _ || _ || bn_is_zero _ _); [by intros [= <-]|]. destruct (_ || _ || _ || bn_is_zero _ _); [by intros [= <-]|]. intros Hd.
  apply obind_Done in Hd as (u1 & _ & Hd). destruct (ec_add _ _) as [[[x y] z] [|]]; [by injection Hd as <-|]. apply obind_Done in Hd as (x' & _ & Hd).
  injection Hd as <-. by destruct (_ =? 0).
Qed.

Lemma multi_key_verify_ok mem digest n : forall keys sigs, multi_key_verify mem digest n keys sigs = Done true <-> all_sign mem digest (Z.of_nat n) keys sigs.
Proof.
  induction n as [|n IH]; intros keys sigs; cbn [multi_key_verify].
  - split; [|done]. intros _ i Hi. lia.
  - split.
    + intros H. apply obind_Done in H as (v & Hv & H). destruct (v <? 1) eqn:E; [done|]. b2p. apply IH in H. pose proof (ec_verify_range _ _ _ _ Hv). assert (v = 1) as -> by lia.
      intros i Hi. destruct (decide (i = 0)) as [->|]; [by rewrite !Z.mul_0_l, !Z.add_0_r|].
      specialize (H (i - 1) ltac:(lia)). by replace (keys + sizeof_key + (i - 1) * sizeof_key) with (keys + i * sizeof_key) in H by lia;
        replace (sigs + sizeof_key + (i - 1) * sizeof_key) with (sigs + i * sizeof_key) in H by lia.
    + intros H. pose proof (H 0 ltac:(lia)) as H0. rewrite !Z.mul_0_l, !Z.add_0_r in H0. rewrite H0. cbn [obind]. change (1 <? 1) with false. apply IH. intros i Hi.
      specialize (H (i + 1) ltac:(lia)). by replace (keys + (i + 1) * sizeof_key) with (keys + sizeof_key + i * sizeof_key) in H by lia;
        replace (sigs + (i + 1) * sizeof_key) with (sigs + sizeof_key + i * sizeof_key) in H by lia.
Qed.

(** ** Results *)

#[local] Opaque sha512 ec_verify.

Definition accepted mem (params : ROM_hw_params) (n : Z) : ROM_hw_params :=
  set_log (set_entry_point params (GET64 mem (sw_header n + code_start_offset))) (Z.lor CONTEXT COMPLETED).

(** The places of the definition, where there are no ECIDs. *)
Lemma places (n : Z) : prefix + ecid + 0 * ECID_SIZE = hw_sigs /\ hw_sigs + 3 * sizeof_key = sw_keys /\ sw_keys + n * sizeof_key = sw_header n /\
  sw_header n + ecid + 0 * ECID_SIZE = sw_sigs n.
Proof. unfold sw_sigs, sw_header, sw_keys, hw_sigs, HW_KEY_COUNT. lia. Qed.

Lemma done_trusted stack mem params params' : ROM_verify stack mem params = Done (ROM_DONE, params') -> exists n, trusted mem params n /\ params' = accepted mem params n.
Proof.
  unfold ROM_verify. cbv zeta. rewrite !sha512_hash_ok. cbn [log hw_key_hash my_ecid entry_point set_log set_entry_point].
  intros H. repeat (apply failed_done in H as [?C H]). apply eqb_ok in C, C0. apply memcmp_equal_ok in C1. apply valid_ver_alg_ok in C2.
  apply obind_Done in H as (ok & Hs & H). apply failed_done in H as [C3 H]. destruct ok; [clear C3|done].
  apply failed_done in H as [C3 H]. apply valid_ecid_ok in C3. rewrite C3 in *. rewrite header_size_empty in Hs by done.
  repeat (apply failed_done in H as [?C H]). set (n := GET8 mem (prefix + key_count_or_secure_version)) in *.
  destruct (places n) as (P1 & P2 & P3 & P4). rewrite P1, P2 in *. rewrite P3 in *.
  apply memcmp_equal_ok in C4. apply orb_false_iff in C5 as [C5 C5']. apply eqb_ok in C6. apply valid_ver_alg_ok in C8. apply Z.ltb_ge in C5, C5', C7.
  apply obind_Done in H as (ok & Hh & H). apply failed_done in H as [C9 H]. destruct ok; [clear C9|done].
  apply failed_done in H as [C9 H]. apply valid_ecid_ok in C9. rewrite C9, P4 in Hh. rewrite header_size_empty in Hh by done.
  repeat (apply failed_done in H as [?C H]). apply eqb_ok in C10. apply Z.leb_gt in C11. apply memcmp_equal_ok in C12.
  apply multi_key_verify_ok in Hs, Hh. change SW_KEY_COUNT_MIN with 1 in C5. change SW_KEY_COUNT_MAX with 3 in C5'. rewrite Z2Nat.id in Hh by lia.
  change (Z.of_nat (Z.to_nat HW_KEY_COUNT)) with HW_KEY_COUNT in Hs. rewrite C6 in C4. injection H as <-. exists n. split; [|done].
  destruct C2 as (C2 & C2' & [?|C2'']); [done|]. destruct C8 as (C8 & C8' & _).
  exact (Build_trusted _ _ _ (conj C C0) C1 (conj C2 (conj C2' C2'')) C3 Hs (conj eq_refl (conj (conj C5 C5') C6)) C4 (conj C8 C8') C7 C9 Hh C12 (conj C10 C11)).
Qed.

Lemma trusted_done stack mem params n : trusted mem params n -> ROM_verify stack mem params = Done (ROM_DONE, accepted mem params n).
Proof.
  intros [[M1 M2] HK (V1 & V2 & V3) E1 S1 (N1 & N2 & N3) SK (V4 & V5) SV E2 S2 PL (EN1 & EN2)]. destruct (places n) as (P1 & P2 & P3 & P4).
  unfold ROM_verify. cbv zeta. rewrite !sha512_hash_ok. cbn [log hw_key_hash my_ecid entry_point set_log set_entry_point].
  repeat (apply failed_done; split); [by apply eqb_ok|by apply eqb_ok|by apply memcmp_equal_ok|apply valid_ver_alg_ok; by auto|].
  rewrite (header_size_empty mem prefix), E1, P1, N1, P2, P3, N3 by done.
  apply obind_Done. exists true. split; [apply multi_key_verify_ok; exact S1|].
  repeat (apply failed_done; split);
    [done|by apply valid_ecid_ok|by apply memcmp_equal_ok|apply orb_false_iff; split; apply Z.ltb_ge; change SW_KEY_COUNT_MIN with 1; change SW_KEY_COUNT_MAX with 3; lia
    |by apply eqb_ok|by apply Z.ltb_ge|apply valid_ver_alg_ok; by auto|].
  rewrite (header_size_empty mem (sw_header n)), E2, P4 by done.
  apply obind_Done. exists true. split; [apply multi_key_verify_ok; rewrite Z2Nat.id by lia; exact S2|].
  repeat (apply failed_done; split); [done|by apply valid_ecid_ok|by apply eqb_ok|by apply Z.leb_gt|by apply memcmp_equal_ok|done].
Qed.


(** A refusal names the test, and the entry point is set only by the tests after it is read. *)
Lemma ROM_verify_failed stack mem params params' : ROM_verify stack mem params = Done (ROM_FAILED, params') ->
  exists t, log params' = Z.lor (Z.lor ERROR_EVENT CONTEXT) (code t) /\
    (entry_point params' = entry_point params \/ t = ENTRY_VALID_TEST \/ t = CODE_PROTECTION_TEST \/ t = HEADER_HASH_TEST).
Proof.
  unfold ROM_verify. cbv zeta. intros H.
  assert (F : forall p t r, FAILED p t = Done (ROM_FAILED, r) -> log r = Z.lor (Z.lor ERROR_EVENT CONTEXT) (code t) /\ entry_point r = entry_point p) by (by intros p t r [= <-]).
  repeat (lazymatch type of H with
    | (if ?c then FAILED _ _ else _) = _ => destruct c; [apply F in H as [? ?]; eauto 6|]
    | obind _ _ = _ => apply obind_Done in H as (? & _ & H)
    end). done.
Qed.

(** Nothing but zeros. *)
Example no_container stack params : ROM_verify stack (fun _ => 0) params = FAILED (set_log params 0x101) MAGIC_NUMBER_TEST.
Proof. reflexivity. Qed.
