(* ===== verification/Algorithm.v ===== *)
(** * The algorithms of the C++ library ([src/include/algorithm], [src/include/util/impl/qsort.H])

    Sorting, searching and removing on a range of a random access container.
    The container is a list, an iterator an index into it, and an access outside
    is [BadAccess].  The overloads without an ordering or a predicate are those
    with the element's own [<] or [==]. *)

From stdpp Require Import sorting.
From S2P Require Import Prelude.

(** What the callers of [sort] and of the searches have to pass. *)
Class StrictWeak {A} (pred : A -> A -> bool) : Prop := {
  pred_asym x y : pred x y = true -> pred y x = false;
  pred_split x z y : pred x z = true -> pred x y = true \/ pred y z = true
}.

Section range.
Context {A : Type}.
Implicit Types (l : list A) (first last pos division pivot : nat).

Definition get l (i : nat) : outcome A := match l !! i with Some x => Done x | None => Crash BadAccess end.
Definition put l (i : nat) (x : A) : outcome (list A) := match l !! i with Some _ => Done (<[i := x]> l) | None => Crash BadAccess end.
(** [std::swap] of two places. *)
Definition swap l (i j : nat) : outcome (list A) :=
  do x <- get l i; do y <- get l j; do l <- put l i y; put l j x.

(** ** Sorting *)

Section sort.
Variable pred : A -> A -> bool.

(** [rounds] is the distance of [pos] and [pivot]: the range, and [division]. *)
Fixpoint partition_loop (rounds : nat) l pos division pivot : outcome (list A * nat) :=
  match rounds with
  | O => Done (l, division)
  | S rounds =>
      do x <- get l pos; do p <- get l pivot;
      if pred x p then
        do l <- (if negb (pos =? division)%nat then swap l pos division else Done l);
        partition_loop rounds l (S pos) (S division) pivot
      else partition_loop rounds l (S pos) division pivot
  end.

(** The recursion is at most as deep as the range is long. *)
Fixpoint qsort (fuel : nat) l first last : outcome (list A) :=
  match fuel with
  | O => Crash BadAccess
  | S fuel =>
      let length := (last - first)%nat in
      if (length =? 0)%nat || (length =? 1)%nat then Done l
      else if (length =? 2)%nat then
        do y <- get l (first + 1); do x <- get l first;
        if pred y x then swap l first (first + 1) else Done l
      else
        let pivot := (first + (length - 1))%nat in
        let middle := (first + length / 2)%nat in
        do l <- swap l pivot middle;
        do r <- partition_loop (pivot - first) l first first pivot;
        let '(l, division) := r in
        do l <- (if negb (pivot =? division)%nat then swap l pivot division else Done l);
        do l <- qsort fuel l first division;
        qsort fuel l (division + 1) last
  end.
Definition sort l first last : outcome (list A) := qsort (S (last - first)) l first last.
End sort.

(** ** Searching *)

(** The search that [lower_bound] and [upper_bound] share: [forward] is the
    condition under which the part up to [it] is skipped. *)
Fixpoint bound_loop (forward : A -> bool) (fuel : nat) l first (range : nat) : outcome nat :=
  match fuel with
  | O => Crash BadAccess
  | S fuel =>
      if (0 <? range)%nat then
        let num := (range / 2)%nat in
        let it := (first + num)%nat in
        do x <- get l it;
        if forward x then bound_loop forward fuel l (it + 1) (range - (num + 1)) else bound_loop forward fuel l first num
      else Done first
  end.
Definition bound_search (forward : A -> bool) l first last : outcome nat := bound_loop forward (S (last - first)) l first (last - first).

Definition lower_bound (comp : A -> A -> bool) l first last (value : A) : outcome nat := bound_search (fun x => comp x value) l first last.
(** The one for [operator<], and the one with an ordering, which compares the
    other way round. *)
Definition upper_bound (lt : A -> A -> bool) l first last (value : A) : outcome nat := bound_search (fun x => negb (lt value x)) l first last.
Definition upper_bound_comp (comp : A -> A -> bool) l first last (value : A) : outcome nat := bound_search (fun x => negb (comp x value)) l first last.

Definition binary_search (lt : A -> A -> bool) l first last (value : A) : outcome bool :=
  do first <- lower_bound lt l first last value;
  if (first =? last)%nat then Done false else do x <- get l first; Done (negb (lt value x)).
(** The search before the last comparison is by [operator<]. *)
Definition binary_search_comp (lt comp : A -> A -> bool) l first last (value : A) : outcome bool :=
  do first <- lower_bound lt l first last value;
  if (first =? last)%nat then Done false else do x <- get l first; Done (negb (comp value x)).

(** ** Removing *)

Fixpoint find_if_loop (test : A -> bool) (rounds : nat) l first : outcome nat :=
  match rounds with
  | O => Done first
  | S rounds => do x <- get l first; if test x then Done first else find_if_loop test rounds l (S first)
  end.
Definition find_if (test : A -> bool) l first last : outcome nat := find_if_loop test (last - first) l first.
Definition find_if_not (test : A -> bool) l first last : outcome nat := find_if (fun x => negb (test x)) l first last.

Fixpoint compact_loop (test : A -> bool) (rounds : nat) l first (new_last : nat) : outcome (list A * nat) :=
  match rounds with
  | O => Done (l, new_last)
  | S rounds =>
      do x <- get l first;
      if negb (test x) then do l <- put l new_last x; compact_loop test rounds l (S first) (S new_last)
      else compact_loop test rounds l (S first) new_last
  end.
(** The container, and the end of what is kept. *)
Definition remove_if (test : A -> bool) l first last : outcome (list A * nat) :=
  do first <- find_if test l first last;
  if (first =? last)%nat then Done (l, last) else compact_loop test (last - S first) l (S first) first.

Fixpoint unique_loop (eq : A -> A -> bool) (rounds : nat) l first (prev : nat) : outcome (list A * nat) :=
  match rounds with
  | O => Done (l, S prev)
  | S rounds =>
      do p <- get l prev; do x <- get l first;
      if negb (eq p x) then
        do l <- (if negb (S prev =? first)%nat then put l (S prev) x else Done l);
        unique_loop eq rounds l (S first) (S prev)
      else unique_loop eq rounds l (S first) prev
  end.
Definition unique (eq : A -> A -> bool) l first last : outcome (list A * nat) :=
  if (first =? last)%nat then Done (l, last) else unique_loop eq (last - S first) l (S first) first.

Fixpoint divide_loop (test : A -> bool) (rounds : nat) l (it : nat) first : outcome (list A * nat) :=
  match rounds with
  | O => Done (l, first)
  | S rounds =>
      do x <- get l it;
      if test x then do l <- swap l it first; divide_loop test rounds l (S it) (S first) else divide_loop test rounds l (S it) first
  end.
(** [std::partition]. *)
Definition partition (test : A -> bool) l first last : outcome (list A * nat) :=
  do first <- find_if_not test l first last;
  if (first =? last)%nat then Done (l, first) else divide_loop test (last - (first + 1)) l (first + 1) first.

(** [hbstd::deduplicate] of a whole container. *)
Definition deduplicate (lt eq : A -> A -> bool) l : outcome (list A) :=
  do l <- sort lt l 0 (length l);
  do r <- unique eq l 0 (length l);
  let '(l, new_end) := r in
  Done (take new_end l).
End range.

(** ** Rearrangements of a range *)

Section rearranged.
Context {A : Type}.
Implicit Types (l : list A) (f e : nat) (P : A -> Prop).

(** [P] holds in the range. *)
Definition all_in l f e P : Prop := forall k x, (f <= k < e)%nat -> l !! k = Some x -> P x.

Inductive rearranged f e : list A -> list A -> Prop :=
  | rearranged_refl l : rearranged f e l l
  | rearranged_swap l i j x y l' : (f <= i < e)%nat -> (f <= j < e)%nat -> l !! i = Some x -> l !! j = Some y ->
      rearranged f e (<[j := x]> (<[i := y]> l)) l' -> rearranged f e l l'.

Lemma rearranged_trans f e l1 l2 l3 : rearranged f e l1 l2 -> rearranged f e l2 l3 -> rearranged f e l1 l3.
Proof. induction 1 as [|l i j x y l' Hi Hj Hx Hy H IH]; [done|]. intros H2. apply (rearranged_swap f e l i j x y); auto. Qed.

Lemma rearranged_mono f e f' e' l1 l2 : rearranged f e l1 l2 -> (f' <= f)%nat -> (e <= e')%nat -> rearranged f' e' l1 l2.
Proof. induction 1 as [|l i j x y l' Hi Hj Hx Hy H IH]; intros; [constructor|]. apply (rearranged_swap f' e' l i j x y); auto; lia. Qed.

Lemma rearranged_perm f e l1 l2 : rearranged f e l1 l2 -> l1 ≡ₚ l2.
Proof. induction 1; [done|]. rewrite <-IHrearranged. symmetry. by apply Permutation_insert_swap. Qed.

Lemma rearranged_length f e l1 l2 : rearranged f e l1 l2 -> length l1 = length l2.
Proof. intros H. by apply Permutation_length, (rearranged_perm f e). Qed.

Lemma swap_lookup l i j x y k : l !! i = Some x -> l !! j = Some y ->
  <[j := x]> (<[i := y]> l) !! k = if (k =? j)%nat then Some x else if (k =? i)%nat then Some y else l !! k.
Proof.
  intros Hi Hj. destruct (k =? j)%nat eqn:E1; b2p; [subst; apply list_lookup_insert_eq; rewrite length_insert; by eapply lookup_lt_Some|].
  rewrite list_lookup_insert_ne by done. destruct (k =? i)%nat eqn:E2; b2p; [subst; apply list_lookup_insert_eq; by eapply lookup_lt_Some|].
  by rewrite list_lookup_insert_ne.
Qed.

Lemma rearranged_frame f e l1 l2 k : rearranged f e l1 l2 -> (k < f \/ e <= k)%nat -> l2 !! k = l1 !! k.
Proof.
  induction 1 as [|l i j x y l' Hi Hj Hx Hy H IH]; [done|]. intros Hk. rewrite IH, (swap_lookup l i j x y k Hx Hy) by done.
  destruct (k =? j)%nat eqn:?, (k =? i)%nat eqn:?; b2p; try done; lia.
Qed.

Lemma rearranged_all f e l1 l2 P : rearranged f e l1 l2 -> all_in l1 f e P -> all_in l2 f e P.
Proof.
  induction 1 as [|l i j x y l' Hi Hj Hx Hy H IH]; [done|]. intros HP. apply IH. intros k z Hk Hz. rewrite (swap_lookup l i j x y k Hx Hy) in Hz.
  destruct (k =? j)%nat; [injection Hz as <-; by apply (HP i)|]. destruct (k =? i)%nat; [injection Hz as <-; by apply (HP j)|by apply (HP k)].
Qed.

(** What holds in a range outside still does. *)
Lemma rearranged_other f e l1 l2 f' e' P : rearranged f e l1 l2 -> (e' <= f \/ e <= f')%nat -> all_in l1 f' e' P -> all_in l2 f' e' P.
Proof. intros H Hd HP k x Hk Hx. rewrite (rearranged_frame f e l1 l2 k H) in Hx by lia. by apply (HP k). Qed.

Lemma swap_places f e l i j : (f <= i < e)%nat -> (f <= j < e)%nat -> (e <= length l)%nat ->
  exists x y, l !! i = Some x /\ l !! j = Some y /\ swap l i j = Done (<[j := x]> (<[i := y]> l)) /\ rearranged f e l (<[j := x]> (<[i := y]> l)).
Proof.
  intros Hi Hj Hl. destruct (lookup_lt_is_Some_2 l i ltac:(lia)) as [x Hx], (lookup_lt_is_Some_2 l j ltac:(lia)) as [y Hy].
  exists x, y. split; [done|]. split; [done|]. split; [|apply (rearranged_swap f e l i j x y); auto; constructor].
  unfold swap, get, put. rewrite Hx, Hy. cbn [obind].
  destruct (lookup_lt_is_Some_2 (<[i := y]> l) j ltac:(rewrite length_insert; lia)) as [z ->]. done.
Qed.

(** ** The partition *)

Variable pred : A -> A -> bool.

Lemma partition_loop_ok f e pivot p rounds : forall l pos division, (pos + rounds = pivot)%nat -> (f <= division <= pos)%nat -> (pivot < e <= length l)%nat ->
  l !! pivot = Some p -> all_in l f division (fun x => pred x p = true) -> all_in l division pos (fun x => pred x p = false) ->
  exists l' d, partition_loop pred rounds l pos division pivot = Done (l', d) /\ rearranged f pivot l l' /\ (f <= d <= pivot)%nat /\ l' !! pivot = Some p /\
    all_in l' f d (fun x => pred x p = true) /\ all_in l' d pivot (fun x => pred x p = false).
Proof.
  induction rounds as [|rounds IH]; intros l pos division Hr Hd He Hp H1 H2; cbn [partition_loop].
  { exists l, division. assert (pos = pivot) as <- by lia. split; [done|]. split; [constructor|]. done. }
  destruct (lookup_lt_is_Some_2 l pos ltac:(lia)) as [x Hx]. unfold get at 1. rewrite Hx. cbn [obind]. unfold get at 1. rewrite Hp. cbn [obind]. destruct (pred x p) eqn:Ex.
  2: { apply IH; try done; try lia. intros k z Hk Hz. destruct (decide (k = pos)) as [->|]; [congruence|]. apply (H2 k); [lia|done]. }
  destruct (negb (pos =? division)%nat) eqn:En; b2p.
  - destruct (swap_places f pivot l pos division ltac:(lia) ltac:(lia) ltac:(lia)) as (x' & y & Hx' & Hy & -> & Hs). cbn [obind]. assert (x' = x) as -> by congruence.
    pose proof (H2 division y ltac:(lia) Hy) as Py. set (l1 := <[division := x]> (<[pos := y]> l)) in *.
    assert (L : forall k, l1 !! k = if (k =? division)%nat then Some x else if (k =? pos)%nat then Some y else l !! k) by (intros k; by apply swap_lookup). clearbody l1.
    destruct (IH l1 (S pos) (S division)) as (l' & d & E & Hre & Hd' & Hp' & A1 & A2); try lia.
    + pose proof (rearranged_length _ _ _ _ Hs). lia.
    + rewrite (rearranged_frame f pivot l l1 pivot Hs) by lia. done.
    + intros k z Hk Hz. rewrite L in Hz. destruct (k =? division)%nat eqn:E1; [congruence|]. b2p. rewrite (proj2 (Nat.eqb_neq k pos)) in Hz by lia. apply (H1 k); [lia|done].
    + intros k z Hk Hz. rewrite L in Hz. rewrite (proj2 (Nat.eqb_neq k division)) in Hz by lia. destruct (k =? pos)%nat eqn:E2; [congruence|]. b2p. apply (H2 k); [lia|done].
    + exists l', d. split; [done|]. split; [by eapply rearranged_trans|]. done.
  - subst division. cbn [obind]. apply IH; try done; try lia.
    + intros k z Hk Hz. destruct (decide (k = pos)) as [->|]; [congruence|]. apply (H1 k); [lia|done].
    + intros k z Hk Hz. lia.
Qed.
End rearranged.

(** ** Sorting *)

Section sorting.
Context {A : Type} (pred : A -> A -> bool).
Implicit Types (l : list A) (f e d : nat).

Definition sorted_range l f e : Prop := forall i j x y, (f <= i < j)%nat -> (j < e)%nat -> l !! i = Some x -> l !! j = Some y -> pred y x = false.

(** Two sorted ranges with the pivot between them. *)
Lemma sorted_join `{!StrictWeak pred} l f d e p : (f <= d < e)%nat -> l !! d = Some p ->
  all_in l f d (fun x => pred x p = true) -> all_in l (d + 1) e (fun x => pred x p = false) ->
  sorted_range l f d -> sorted_range l (d + 1) e -> sorted_range l f e.
Proof.
  intros Hd Hp H1 H2 S1 S2 i j x y Hi Hj Hx Hy.
  destruct (decide (j < d)%nat); [by apply (S1 i j)|]. destruct (decide (d < i)%nat); [apply (S2 i j); try done; lia|].
  destruct (decide (i = d)) as [->|]; [assert (x = p) as -> by congruence; apply (H2 j); [lia|done]|].
  pose proof (H1 i x ltac:(lia) Hx) as Px. destruct (decide (j = d)) as [->|]; [assert (y = p) as -> by congruence; by apply pred_asym|].
  pose proof (H2 j y ltac:(lia) Hy) as Py. destruct (pred_split x p y Px) as [H|H]; [by apply pred_asym|congruence].
Qed.

(** The pivot at its place. *)
Lemma pivot_placed l f d pivot p : (f <= d <= pivot)%nat -> (pivot < length l)%nat -> l !! pivot = Some p ->
  all_in l f d (fun x => pred x p = true) -> all_in l d pivot (fun x => pred x p = false) ->
  exists l', (if negb (pivot =? d)%nat then swap l pivot d else Done l) = Done l' /\ rearranged f (S pivot) l l' /\ l' !! d = Some p /\
    all_in l' f d (fun x => pred x p = true) /\ all_in l' (d + 1) (S pivot) (fun x => pred x p = false).
Proof.
  intros Hd Hl Hp H1 H2. destruct (negb (pivot =? d)%nat) eqn:En; b2p.
  - destruct (swap_places f (S pivot) l pivot d ltac:(lia) ltac:(lia) ltac:(lia)) as (x & y & Hx & Hy & -> & Hs). assert (x = p) as -> by congruence. eexists. split; [done|]. split; [done|].
    pose proof (H2 d y ltac:(lia) Hy) as Py. split; [rewrite (swap_lookup l pivot d p y) by done; by rewrite Nat.eqb_refl|].
    split; intros k z Hk Hz; rewrite (swap_lookup l pivot d p y k Hx Hy), (proj2 (Nat.eqb_neq k d)) in Hz by lia.
    + rewrite (proj2 (Nat.eqb_neq k pivot)) in Hz by lia. by apply (H1 k).
    + destruct (k =? pivot)%nat eqn:E1; b2p; [congruence|]. apply (H2 k); [lia|done].
  - subst d. exists l. split; [done|]. split; [constructor|]. split; [done|]. split; [done|]. intros k z Hk. lia.
Qed.

Lemma sorted_short l f e : (e - f <= 1)%nat -> sorted_range l f e.
Proof. intros H i j x y Hi Hj. lia. Qed.

Lemma qsort_two l f : (f + 2 <= length l)%nat -> exists l',
  (do y <- get l (f + 1); do x <- get l f; if pred y x then swap l f (f + 1) else Done l) = Done l' /\ rearranged f (f + 2) l l' /\
  (StrictWeak pred -> sorted_range l' f (f + 2)).
Proof.
  intros Hl. destruct (swap_places f (f + 2) l f (f + 1) ltac:(lia) ltac:(lia) ltac:(lia)) as (x & y & Hx & Hy & Es & Hs). unfold get. rewrite Hx, Hy. cbn [obind].
  destruct (pred y x) eqn:E.
  - eexists. split; [exact Es|]. split; [done|]. intros SW i j u v Hi Hj Hu Hv. assert (i = f /\ j = f + 1)%nat as [-> ->] by lia.
    rewrite (swap_lookup l f (f + 1) x y) in Hu, Hv by done. rewrite Nat.eqb_refl in Hv. rewrite (proj2 (Nat.eqb_neq f (f + 1))), Nat.eqb_refl in Hu by lia.
    injection Hu as <-. injection Hv as <-. by apply pred_asym.
  - exists l. split; [done|]. split; [constructor|]. intros _ i j u v Hi Hj Hu Hv. assert (i = f /\ j = f + 1)%nat as [-> ->] by lia. congruence.
Qed.

Lemma qsort_ok fuel : forall l f e, (f <= e <= length l)%nat -> (e - f < fuel)%nat ->
  exists l', qsort pred fuel l f e = Done l' /\ rearranged f e l l' /\ (StrictWeak pred -> sorted_range l' f e).
Proof.
  induction fuel as [|fuel IH]; intros l f e He Hf; [lia|]. cbn [qsort]. set (n := (e - f)%nat) in *.
  destruct (n =? 0)%nat eqn:E0; b2p; [exists l; split; [done|]; split; [constructor|]; intros _; apply sorted_short; lia|].
  destruct (n =? 1)%nat eqn:E1; b2p; [exists l; split; [done|]; split; [constructor|]; intros _; apply sorted_short; lia|]. cbn [orb].
  destruct (n =? 2)%nat eqn:E2; b2p; [replace e with (f + 2)%nat by lia; apply qsort_two; lia|].
  set (pivot := (f + (n - 1))%nat). assert (Hm : (f <= f + n / 2 < e)%nat) by (pose proof (Nat.div_lt n 2 ltac:(lia) ltac:(lia)); lia).
  destruct (swap_places f e l pivot (f + n / 2) ltac:(lia) ltac:(lia) ltac:(lia)) as (x & p & Hx & Hp & -> & R1). cbn [obind].
  set (l1 := <[(f + n / 2)%nat := x]> (<[pivot := p]> l)) in *. pose proof (rearranged_length _ _ _ _ R1) as L1. clearbody l1.
  destruct (lookup_lt_is_Some_2 l1 pivot ltac:(lia)) as [q Hq].
  destruct (partition_loop_ok pred f e pivot q (pivot - f) l1 f f) as (l2 & d & -> & R2 & Hd & Hq2 & A1 & A2); try done; try lia; [by intros k z Hk; lia|by intros k z Hk; lia|].
  cbn [obind]. pose proof (rearranged_length _ _ _ _ R2) as L2.
  destruct (pivot_placed l2 f d pivot q Hd ltac:(lia) Hq2 A1 A2) as (l3 & -> & R3 & Hq3 & B1 & B2). cbn [obind]. pose proof (rearranged_length _ _ _ _ R3) as L3.
  replace (S pivot) with e in * by lia.
  destruct (IH l3 f d ltac:(lia) ltac:(lia)) as (l4 & -> & R4 & S4). cbn [obind]. pose proof (rearranged_length _ _ _ _ R4) as L4.
  destruct (IH l4 (d + 1)%nat e ltac:(lia) ltac:(lia)) as (l5 & -> & R5 & S5). exists l5. split; [done|]. split.
  - eapply rearranged_trans; [exact R1|]. eapply rearranged_trans; [eapply rearranged_mono; [exact R2|lia|lia]|]. eapply rearranged_trans; [exact R3|].
    eapply rearranged_trans; [eapply rearranged_mono; [exact R4|lia|lia]|]. eapply rearranged_mono; [exact R5|lia|lia].
  - intros SW. specialize (S4 SW). specialize (S5 SW). apply (sorted_join l5 f d e q); [lia| | | | |done].
    + by rewrite (rearranged_frame _ _ _ _ d R5), (rearranged_frame _ _ _ _ d R4) by lia.
    + eapply rearranged_other; [exact R5|lia|]. by eapply rearranged_all.
    + eapply rearranged_all; [exact R5|]. eapply rearranged_other; [exact R4|lia|done].
    + intros i j u v Hi Hj Hu Hv. rewrite (rearranged_frame _ _ _ _ i R5) in Hu by lia. rewrite (rearranged_frame _ _ _ _ j R5) in Hv by lia. by apply (S4 i j).
Qed.
End sorting.

(** ** Results of the sort *)

Section results.
Context {A : Type}.
Implicit Types (l a mid b : list A) (f e : nat).

Lemma strongly_sorted_lookup (R : A -> A -> Prop) l : (forall i j x y, (i < j)%nat -> l !! i = Some x -> l !! j = Some y -> R x y) -> StronglySorted R l.
Proof.
  induction l as [|x l IH]; intros H; constructor.
  - apply IH. intros i j y z Hij Hy Hz. by apply (H (S i) (S j)); [lia|..].
  - apply Forall_lookup. intros i y Hy. by apply (H 0%nat (S i)); [lia|..].
Qed.

(** A list of the same length that agrees outside a range. *)
Lemma frame_split a mid b l' : length l' = length (a ++ mid ++ b) ->
  (forall k, (k < length a \/ length a + length mid <= k)%nat -> l' !! k = (a ++ mid ++ b) !! k) -> exists mid', l' = a ++ mid' ++ b /\ length mid' = length mid.
Proof.
  intros Hl Hk. rewrite !length_app in Hl. exists (take (length mid) (drop (length a) l')). split; [|rewrite length_take, length_drop; lia].
  apply list_eq. intros k. destruct (decide (k < length a)%nat).
  - rewrite Hk by lia. by rewrite !lookup_app_l by lia.
  - rewrite (lookup_app_r a) by lia. destruct (decide (k < length a + length mid)%nat).
    + rewrite lookup_app_l by (rewrite length_take, length_drop; lia). rewrite lookup_take_lt, lookup_drop by lia. f_equal. lia.
    + rewrite Hk, lookup_app_r by lia. rewrite !lookup_app_r by (rewrite ?length_take, ?length_drop; lia). rewrite length_take, length_drop. f_equal. lia.
Qed.

Lemma sort_correct_range (pred : A -> A -> bool) a mid b :
  exists mid', sort pred (a ++ mid ++ b) (length a) (length a + length mid) = Done (a ++ mid' ++ b) /\ mid' ≡ₚ mid /\
    (StrictWeak pred -> StronglySorted (fun x y => pred y x = false) mid').
Proof.
  unfold sort. destruct (qsort_ok pred (S (length a + length mid - length a)) (a ++ mid ++ b) (length a) (length a + length mid)) as (l' & -> & R & S).
  { rewrite !length_app. lia. } { lia. }
  destruct (frame_split a mid b l') as (mid' & -> & Lm); [symmetry; by eapply rearranged_length|intros k Hk; by eapply rearranged_frame|].
  exists mid'. split; [done|]. split; [apply rearranged_perm in R; by apply Permutation_app_inv_l, Permutation_app_inv_r in R|].
  intros SW. apply strongly_sorted_lookup. intros i j x y Hij Hx Hy. pose proof (lookup_lt_Some _ _ _ Hy).
  apply (S SW (length a + i) (length a + j))%nat; try lia; rewrite lookup_app_r by lia; rewrite lookup_app_l by lia; rewrite <-?Hx, <-?Hy; f_equal; lia.
Qed.

(** C37: [sort] ends without an access outside the range, whatever the ordering
    is, leaves what is around the range, and permutes the range; with a strict
    weak ordering no element comes after one that it precedes. *)
Theorem sort_correct (pred : A -> A -> bool) a mid b :
  exists mid', sort pred (a ++ mid ++ b) (length a) (length a + length mid) = Done (a ++ mid' ++ b) /\ mid' ≡ₚ mid /\
    (StrictWeak pred -> StronglySorted (fun x y => pred y x = false) mid').
Proof. apply sort_correct_range. Qed.

(** ** Searches *)

Lemma bound_loop_ok (t : A -> bool) fuel : forall l f range, (f + range <= length l)%nat -> (range < fuel)%nat ->
  (forall i j x y, (f <= i < j)%nat -> (j < f + range)%nat -> l !! i = Some x -> l !! j = Some y -> t y = true -> t x = true) ->
  exists k, bound_loop t fuel l f range = Done k /\ (f <= k <= f + range)%nat /\ all_in l f k (fun x => t x = true) /\ all_in l k (f + range) (fun x => t x = false).
Proof.
  induction fuel as [|fuel IH]; intros l f range Hl Hf Hm; [lia|]. cbn [bound_loop]. destruct (0 <? range)%nat eqn:E0; b2p.
  2: { exists f. split; [done|]. split; [lia|]. split; intros k x Hk; lia. }
  pose proof (Nat.div_lt range 2 ltac:(lia) ltac:(lia)) as Hn. set (num := (range / 2)%nat) in *. destruct (lookup_lt_is_Some_2 l (f + num) ltac:(lia)) as [x Hx].
  unfold get. rewrite Hx. cbn [obind]. destruct (t x) eqn:Et.
  - destruct (IH l (f + num + 1)%nat (range - (num + 1))%nat) as (k & E & Hk & H1 & H2); try lia; [intros i j u v Hi Hj; apply Hm; lia|].
    exists k. split; [done|]. split; [lia|]. replace (f + num + 1 + (range - (num + 1)))%nat with (f + range)%nat in H2 by lia. split; [|done].
    intros i u Hi Hu. destruct (decide (i = f + num)%nat) as [->|]; [congruence|]. destruct (decide (i < f + num)%nat); [by apply (Hm i (f + num)%nat u x); try lia|].
    apply (H1 i); [lia|done].
  - destruct (IH l f num) as (k & E & Hk & H1 & H2); try lia; [intros i j u v Hi Hj; apply Hm; lia|].
    exists k. split; [done|]. split; [lia|]. split; [done|]. intros i u Hi Hu. destruct (decide (i < f + num)%nat); [apply (H2 i); [lia|done]|].
    destruct (decide (i = f + num)%nat) as [->|]; [congruence|]. destruct (t u) eqn:Eu; [|done]. rewrite (Hm (f + num)%nat i x u) in Et; try done; lia.
Qed.

Lemma bound_search_ok (t : A -> bool) l f e : (f <= e <= length l)%nat ->
  (forall i j x y, (f <= i < j)%nat -> (j < e)%nat -> l !! i = Some x -> l !! j = Some y -> t y = true -> t x = true) ->
  exists k, bound_search t l f e = Done k /\ (f <= k <= e)%nat /\ all_in l f k (fun x => t x = true) /\ all_in l k e (fun x => t x = false).
Proof.
  intros He Hm. unfold bound_search. destruct (bound_loop_ok t (S (e - f)) l f (e - f)) as (k & E & Hk & H1 & H2); try lia.
  - intros i j x y Hi Hj. apply Hm; lia.
  - exists k. replace (f + (e - f))%nat with e in * by lia. done.
Qed.

(** On a range sorted by [lt], [lower_bound] and [upper_bound] end and
    enclose exactly the elements equivalent to the value, and [binary_search]
    tells whether there is one. *)
Theorem searches_correct (lt : A -> A -> bool) (SW : StrictWeak lt) l f e v : (f <= e <= length l)%nat -> sorted_range lt l f e ->
  exists lo hi, lower_bound lt l f e v = Done lo /\ upper_bound lt l f e v = Done hi /\ binary_search lt l f e v = Done (negb (lo =? hi)%nat) /\ (f <= lo <= hi)%nat /\ (hi <= e)%nat /\
    all_in l f lo (fun x => lt x v = true) /\ all_in l lo hi (fun x => lt x v = false /\ lt v x = false) /\ all_in l hi e (fun x => lt v x = true).
Proof.
  intros He Hs. destruct (bound_search_ok (fun x => lt x v) l f e He) as (lo & E1 & Hlo & L1 & L2).
  { intros i j x y Hi Hj Hx Hy Ht. destruct (pred_split y v x Ht) as [H|H]; [|done]. rewrite (Hs i j x y) in H by done. done. }
  destruct (bound_search_ok (fun x => negb (lt v x)) l f e He) as (hi & E2 & Hhi & U1 & U2).
  { intros i j x y Hi Hj Hx Hy Ht. apply negb_true_iff in Ht. apply negb_true_iff. destruct (lt v x) eqn:E; [|done].
    destruct (pred_split v x y E) as [H|H]; [congruence|]. rewrite (Hs i j x y) in H by done. done. }
  assert (Hle : (lo <= hi)%nat).
  { destruct (decide (lo <= hi)%nat); [done|]. destruct (lookup_lt_is_Some_2 l hi ltac:(lia)) as [x Hx]. pose proof (L1 hi x ltac:(lia) Hx) as H1.
    pose proof (U2 hi x ltac:(lia) Hx) as H2. apply negb_false_iff in H2. rewrite (pred_asym x v H1) in H2. done. }
  exists lo, hi. split; [exact E1|]. split; [exact E2|]. split.
  - unfold binary_search. unfold lower_bound. rewrite E1. cbn [obind]. destruct (lo =? e)%nat eqn:El; b2p.
    + replace (lo =? hi)%nat with true; [done|]. symmetry. apply Nat.eqb_eq. lia.
    + destruct (lookup_lt_is_Some_2 l lo ltac:(lia)) as [x Hx]. unfold get. rewrite Hx. cbn [obind]. do 2 f_equal. destruct (lo =? hi)%nat eqn:Eh; b2p.
      * subst hi. pose proof (U2 lo x ltac:(lia) Hx) as H. by apply negb_false_iff in H.
      * pose proof (U1 lo x ltac:(lia) Hx) as H. by apply negb_true_iff in H.
  - split; [lia|]. split; [lia|]. split; [done|]. split; intros k x Hk Hx.
    + split; [apply (L2 k); [lia|done]|]. apply negb_true_iff. apply (U1 k); [lia|done].
    + apply negb_false_iff. apply (U2 k); [lia|done].
Qed.
End results.

(** ** Results of the removals *)

Section removed.
Context {A : Type}.
Implicit Types (l a gap mid b : list A) (p x y : A).

Lemma get_app a x b : get (a ++ x :: b) (length a) = Done x.
Proof. unfold get. by rewrite list_lookup_middle. Qed.

Lemma put_app a x y b : put (a ++ x :: b) (length a) y = Done (a ++ y :: b).
Proof. unfold put. rewrite list_lookup_middle by done. by rewrite insert_app_r_alt, Nat.sub_diag by lia. Qed.

Lemma find_if_loop_ok (test : A -> bool) mid b : forall a, exists s t, mid = s ++ t /\
  find_if_loop test (length mid) (a ++ mid ++ b) (length a) = Done (length a + length s)%nat /\ Forall (fun x => test x = false) s /\
  match t with [] => True | x :: _ => test x = true end.
Proof.
  induction mid as [|x mid IH]; intros a; [exists [], []; cbn; by rewrite Nat.add_0_r|]. cbn [length find_if_loop app]. rewrite get_app. cbn [obind]. destruct (test x) eqn:E.
  - exists [], (x :: mid). cbn [length]. by rewrite Nat.add_0_r.
  - destruct (IH (a ++ [x])) as (s & t & Em & H & Hs & Ht). rewrite length_app, <-app_assoc in H. cbn [length] in H. rewrite Nat.add_1_r in H. exists (x :: s), t. split; [by rewrite Em|]. split; [|split; [by constructor|done]].
    cbn [app] in H. rewrite H. cbn [length]. f_equal. lia.
Qed.

(** The place to write lies before the place to read, the elements between
    them were removed or moved. *)
Lemma compact_loop_ok (test : A -> bool) mid b : forall a gap, gap <> [] -> exists junk,
  compact_loop test (length mid) (a ++ gap ++ mid ++ b) (length a + length gap) (length a) =
    Done (a ++ filter (fun x => test x = false) mid ++ junk ++ b, length a + length (filter (fun x => test x = false) mid))%nat /\
  (length (filter (fun x => test x = false) mid) + length junk = length gap + length mid)%nat.
Proof.
  induction mid as [|x mid IH]; intros a gap Hg; [exists gap; cbn; split; [by rewrite Nat.add_0_r|lia]|]. cbn [length compact_loop]. rewrite <-length_app, app_assoc. cbn [app].
  rewrite get_app. cbn [obind]. rewrite filter_cons. destruct (test x) eqn:E; cbn [negb].
  - rewrite decide_False by done. destruct (IH a (gap ++ [x])) as (junk & H & L); [by destruct gap|]. exists junk. rewrite !length_app in H; rewrite ?length_app in L. cbn [length] in H, L. split; [|lia].
    rewrite <-H, <-!app_assoc, length_app. cbn [app]. f_equal. lia.
  - rewrite decide_True by done. destruct gap as [|g gap]; [done|]. rewrite <-app_assoc. cbn [app]. rewrite put_app. cbn [obind].
    destruct (IH (a ++ [x]) (gap ++ [x])) as (junk & H & L); [by destruct gap|]. exists junk. rewrite !length_app in H; rewrite ?length_app in L. cbn [length] in H, L. split; [|cbn [length]; lia].
    rewrite <-!app_assoc in H. cbn [app] in H. rewrite length_app. cbn [length app]. replace (S (length a + S (length gap)))%nat with (length a + 1 + (length gap + 1))%nat by lia.
    replace (S (length a)) with (length a + 1)%nat by lia. rewrite H. do 2 f_equal. lia.
Qed.

(** [remove_if] keeps the elements without the property in their order, leaves
    what is around the range, and returns the end of the kept ones. *)
Theorem remove_if_correct (test : A -> bool) a mid b : exists junk,
  remove_if test (a ++ mid ++ b) (length a) (length a + length mid) =
    Done (a ++ filter (fun x => test x = false) mid ++ junk ++ b, length a + length (filter (fun x => test x = false) mid))%nat /\
  (length (filter (fun x => test x = false) mid) + length junk = length mid)%nat.
Proof.
  unfold remove_if, find_if. replace (length a + length mid - length a)%nat with (length mid) by lia.
  destruct (find_if_loop_ok test mid b a) as (s & t & -> & -> & Hs & Ht). cbn [obind]. rewrite length_app, filter_app.
  assert (filter (fun x => test x = false) s = s) as -> by (clear -Hs; induction Hs as [|x s Hx Hs IH]; [done|]; rewrite filter_cons_True, IH by done; done).
  destruct t as [|x t]; cbn [length].
  - rewrite Nat.add_0_r, Nat.eqb_refl. exists []. rewrite !app_nil_r. cbn. split; [done|lia].
  - rewrite (proj2 (Nat.eqb_neq _ _)) by lia. rewrite filter_cons_False by congruence.
    destruct (compact_loop_ok test t b (a ++ s) [x]) as (junk & H & L); [done|]. exists junk. rewrite !length_app in *. cbn [length] in *. split; [|lia].
    replace (length a + (length s + S (length t)) - S (length a + length s))%nat with (length t) by lia. rewrite Nat.add_1_r in H.
    rewrite <-!app_assoc in *. cbn [app] in *. rewrite H. do 2 f_equal. lia.
Qed.

(** What [unique] keeps behind [p]. *)
Fixpoint changes (eq : A -> A -> bool) p mid : list A :=
  match mid with [] => [] | x :: mid => if eq p x then changes eq p mid else x :: changes eq x mid end.

Lemma unique_loop_ok (eq : A -> A -> bool) mid b : forall a p gap, exists junk,
  unique_loop eq (length mid) (a ++ p :: gap ++ mid ++ b) (S (length a) + length gap) (length a) = Done (a ++ p :: changes eq p mid ++ junk ++ b, S (length a) + length (changes eq p mid))%nat /\
  (length (changes eq p mid) + length junk = length gap + length mid)%nat.
Proof.
  induction mid as [|x mid IH]; intros a p gap; [exists gap; cbn; split; [by rewrite Nat.add_0_r|lia]|]. cbn [length unique_loop changes]. rewrite get_app. cbn [obind].
  assert (E : get (a ++ p :: gap ++ (x :: mid) ++ b) (S (length a) + length gap)%nat = Done x).
  { rewrite (cons_middle p), !app_assoc, <-app_assoc. replace (S (length a) + length gap)%nat with (length ((a ++ [p]) ++ gap)) by (rewrite !length_app; cbn; lia). apply get_app. }
  rewrite E. cbn [obind]. destruct (eq p x) eqn:Ee; cbn [negb].
  - destruct (IH a p (gap ++ [x])) as (junk & H & L). exists junk. rewrite !length_app in H; rewrite ?length_app in L. cbn [length] in H, L. split; [|lia]. rewrite <-H, <-!app_assoc. cbn [app]. f_equal. lia.
  - destruct gap as [|g gap].
    + cbn [length app]. rewrite Nat.add_0_r, Nat.eqb_refl. cbn [negb obind]. destruct (IH (a ++ [p]) x []) as (junk & H & L). exists junk. rewrite !length_app in H. cbn [length] in H, L.
      rewrite <-!app_assoc in H. cbn [app] in H. split; [|cbn [length]; lia]. replace (length a + 1)%nat with (S (length a)) in H by lia. rewrite Nat.add_0_r in H. rewrite H. cbn [length]. do 2 f_equal. lia.
    + rewrite (proj2 (Nat.eqb_neq _ _)) by (cbn [length]; lia). cbn [negb]. rewrite (cons_middle p), (app_assoc a). replace (S (length a)) with (length (a ++ [p])) by (rewrite length_app; cbn; lia).
      cbn [app]. rewrite put_app. cbn [obind]. destruct (IH (a ++ [p]) x (gap ++ [x])) as (junk & H & L). exists junk. rewrite !length_app in H; rewrite ?length_app in L. rewrite !length_app. cbn [length] in *.
      rewrite <-!app_assoc in *. cbn [app] in *. split; [|cbn [length]; lia]. replace (S (length a + 1 + S (length gap)))%nat with (S (length a + 1) + (length gap + 1))%nat by lia.
      rewrite H. cbn [length]. do 2 f_equal. lia.
Qed.

Definition uniques (eq : A -> A -> bool) mid : list A := match mid with [] => [] | p :: mid => p :: changes eq p mid end.

(** [unique] keeps the first element of each run of equal ones. *)
Theorem unique_correct (eq : A -> A -> bool) a mid b : exists junk,
  unique eq (a ++ mid ++ b) (length a) (length a + length mid) = Done (a ++ uniques eq mid ++ junk ++ b, length a + length (uniques eq mid))%nat /\
  (length (uniques eq mid) + length junk = length mid)%nat.
Proof.
  unfold unique. destruct mid as [|p mid]; cbn [length uniques]; [rewrite Nat.add_0_r, Nat.eqb_refl; by exists []|]. rewrite (proj2 (Nat.eqb_neq _ _)) by lia.
  destruct (unique_loop_ok eq mid b a p []) as (junk & H & L). exists junk. cbn [app length] in *. split; [|lia].
  replace (length a + S (length mid) - S (length a))%nat with (length mid) by lia. rewrite Nat.add_0_r in H. rewrite H. do 2 f_equal. lia.
Qed.
End removed.

(** ** Results of the partition and of the removal of duplicates *)

Section divided.
Context {A : Type}.
Implicit Types (l a mid b : list A) (f e : nat).

Lemma all_in_middle (P : A -> Prop) a mid b f e : f = length a -> e = (length a + length mid)%nat -> (all_in (a ++ mid ++ b) f e P <-> Forall P mid).
Proof.
  intros -> ->. rewrite Forall_lookup. split.
  - intros H i x Hx. pose proof (lookup_lt_Some _ _ _ Hx). apply (H (length a + i)%nat); [lia|]. rewrite lookup_app_r by lia. replace (length a + i - length a)%nat with i by lia. by apply lookup_app_l_Some.
  - intros H k x Hk Hx. rewrite lookup_app_r, lookup_app_l in Hx by lia. by eapply H.
Qed.

Lemma divide_loop_ok (test : A -> bool) f e rounds : forall l it first, (it + rounds = e)%nat -> (f <= first < it)%nat -> (e <= length l)%nat ->
  all_in l f first (fun x => test x = true) -> all_in l first it (fun x => test x = false) ->
  exists l' d, divide_loop test rounds l it first = Done (l', d) /\ rearranged f e l l' /\ (f <= d <= e)%nat /\ all_in l' f d (fun x => test x = true) /\ all_in l' d e (fun x => test x = false).
Proof.
  induction rounds as [|rounds IH]; intros l it first Hr Hd He H1 H2; cbn [divide_loop].
  { exists l, first. assert (it = e) as <- by lia. split; [done|]. split; [constructor|]. split; [lia|done]. }
  destruct (lookup_lt_is_Some_2 l it ltac:(lia)) as [x Hx]. unfold get. rewrite Hx. cbn [obind]. destruct (test x) eqn:Ex.
  2: { apply IH; try done; try lia. intros k z Hk Hz. destruct (decide (k = it)) as [->|]; [congruence|]. apply (H2 k); [lia|done]. }
  destruct (swap_places f e l it first ltac:(lia) ltac:(lia) ltac:(lia)) as (x' & y & Hx' & Hy & -> & Hs). cbn [obind]. assert (x' = x) as -> by congruence.
  pose proof (H2 first y ltac:(lia) Hy) as Py. set (l1 := <[first := x]> (<[it := y]> l)) in *.
  assert (L : forall k, l1 !! k = if (k =? first)%nat then Some x else if (k =? it)%nat then Some y else l !! k) by (intros k; by apply swap_lookup). clearbody l1.
  destruct (IH l1 (S it) (S first)) as (l' & d & E & Hre & Hd' & A1 & A2); try lia.
  - pose proof (rearranged_length _ _ _ _ Hs). lia.
  - intros k z Hk Hz. rewrite L in Hz. destruct (k =? first)%nat eqn:E1; [congruence|]. b2p. rewrite (proj2 (Nat.eqb_neq k it)) in Hz by lia. apply (H1 k); [lia|done].
  - intros k z Hk Hz. rewrite L in Hz. rewrite (proj2 (Nat.eqb_neq k first)) in Hz by lia. destruct (k =? it)%nat eqn:E2; [congruence|]. b2p. apply (H2 k); [lia|done].
  - exists l', d. split; [done|]. split; [by eapply rearranged_trans|]. done.
Qed.

(** [partition] puts the elements with the property first and returns the
    place of the first one without. *)
Theorem partition_correct (test : A -> bool) a mid b : exists yes no,
  partition test (a ++ mid ++ b) (length a) (length a + length mid) = Done (a ++ yes ++ no ++ b, length a + length yes)%nat /\ yes ++ no ≡ₚ mid /\
  Forall (fun x => test x = true) yes /\ Forall (fun x => test x = false) no.
Proof.
  unfold partition, find_if_not, find_if. replace (length a + length mid - length a)%nat with (length mid) by lia.
  destruct (find_if_loop_ok (fun x => negb (test x)) mid b a) as (s & t & -> & -> & Hs & Ht). cbn [obind].
  assert (Hs' : Forall (fun x => test x = true) s) by (eapply Forall_impl; [exact Hs|]; intros x; apply negb_false_iff). clear Hs. destruct t as [|x t].
  { rewrite app_nil_r, Nat.eqb_refl. exists s, []. rewrite app_nil_r. done. }
  apply negb_true_iff in Ht. rewrite length_app. cbn [length]. rewrite (proj2 (Nat.eqb_neq _ _)) by lia. set (e := (length a + (length s + S (length t)))%nat).
  destruct (divide_loop_ok test (length a) e (e - (length a + length s + 1)) (a ++ (s ++ x :: t) ++ b) (length a + length s + 1) (length a + length s)) as (l' & d & E & R & Hd & A1 & A2); try (unfold e in *; lia).
  - rewrite !length_app. cbn [length]. unfold e. lia.
  - rewrite <-app_assoc. by apply all_in_middle.
  - rewrite <-app_assoc, app_assoc. apply (all_in_middle _ (a ++ s) [x] (t ++ b)); [by rewrite length_app|rewrite length_app; done|]. by constructor.
  - rewrite E. clear E.
    destruct (frame_split a (s ++ x :: t) b l') as (mid' & -> & Lm); [symmetry; by eapply rearranged_length| |].
    { intros k Hk. eapply rearranged_frame; [exact R|]. rewrite length_app in Hk. cbn [length] in Hk. unfold e. lia. }
    rewrite length_app in Lm. cbn [length] in Lm. exists (take (d - length a) mid'), (drop (d - length a) mid').
    split; [rewrite (app_assoc (take _ _)), take_drop, length_take; do 2 f_equal; unfold e in *; lia|].
    split; [rewrite take_drop; apply rearranged_perm in R; by apply Permutation_app_inv_l, Permutation_app_inv_r in R|].
    rewrite <-(take_drop (d - length a) mid'), <-app_assoc in A1, A2. split.
    + apply (all_in_middle _ a _ (drop (d - length a) mid' ++ b) (length a) d); [done|rewrite length_take; unfold e in *; lia|done].
    + rewrite app_assoc in A2. apply (all_in_middle _ (a ++ take (d - length a) mid') _ b d e); [rewrite length_app, length_take; unfold e in *; lia|rewrite length_app, length_take, length_drop; unfold e in *; lia|].
      done.
Qed.
End divided.

Section deduplicated.
Context {A : Type} (lt eq : A -> A -> bool).
Implicit Types (l mid : list A) (p x y z : A).

Lemma changes_in p mid : forall z, z ∈ changes eq p mid -> z ∈ mid.
Proof. revert p. induction mid as [|x mid IH]; intros p z Hz; [done|]. cbn [changes] in Hz. destruct (eq p x); [right; by eapply IH|]. apply elem_of_cons in Hz as [->|Hz]; [left|right; by eapply IH]. Qed.

Lemma changes_cover p mid : forall z, z ∈ mid -> exists y, y ∈ p :: changes eq p mid /\ (eq y z = true \/ y = z).
Proof.
  revert p. induction mid as [|x mid IH]; intros p z Hz; [by apply elem_of_nil in Hz|]. cbn [changes]. apply elem_of_cons in Hz as [->|Hz].
  - destruct (eq p x) eqn:E; [exists p; split; [left|by left]|exists x; split; [right; left|by right]].
  - destruct (eq p x); [by apply IH|]. destruct (IH x z Hz) as (y & Hy & H). exists y. split; [by right|done].
Qed.

Lemma changes_sorted `{!StrictWeak lt} p mid : (forall x y, eq x y = negb (lt x y) && negb (lt y x)) ->
  StronglySorted (fun x y => lt y x = false) (p :: mid) -> StronglySorted (fun x y => lt x y = true) (p :: changes eq p mid).
Proof.
  intros He. revert p. induction mid as [|x mid IH]; intros p Hs; [by repeat constructor|]. apply StronglySorted_inv in Hs as [Hs Hp]. inversion Hp as [|? ? Hx Hm]; subst. cbn [changes].
  destruct (eq p x) eqn:E; [apply StronglySorted_inv in Hs as [Hs _]; apply IH; by constructor|]. pose proof (IH x Hs) as S. constructor; [done|].
  rewrite He, Hx, andb_true_r in E. apply negb_false_iff in E. constructor; [done|]. apply StronglySorted_inv in S as [_ S]. eapply Forall_impl; [exact S|]. intros y Hy.
  destruct (pred_split (pred := lt) p x y E) as [H|H]; [done|]. cbn beta in Hy. rewrite (pred_asym (pred := lt) y x H) in Hy. done.
Qed.

(** [deduplicate] gives a strictly ascending container with the elements of the
    one passed, one of each class of equivalent ones. *)
Theorem deduplicate_correct `{!StrictWeak lt} l : (forall x y, eq x y = negb (lt x y) && negb (lt y x)) ->
  exists l', deduplicate lt eq l = Done l' /\ StronglySorted (fun x y => lt x y = true) l' /\ (forall x, x ∈ l' -> x ∈ l) /\ (forall x, x ∈ l -> exists y, y ∈ l' /\ eq y x = true).
Proof.
  intros He. destruct (sort_correct_range lt [] l []) as (mid & E1 & P & Hs). rewrite !app_nil_r in E1. cbn [app length Nat.add] in E1. unfold deduplicate. rewrite E1. cbn [obind].
  destruct (unique_correct eq [] mid []) as (junk & E2 & L). rewrite !app_nil_r in E2. cbn [app length Nat.add] in E2. rewrite E2. cbn [obind].
  exists (uniques eq mid). split; [by rewrite take_app_length|]. specialize (Hs _). destruct mid as [|p mid]; cbn [uniques].
  - apply Permutation_nil_l in P; subst l. split; [constructor|]. split; [done|]. intros x Hx. by apply elem_of_nil in Hx.
  - split; [by apply changes_sorted|]. assert (Hr : forall x, eq x x = true) by (intros x; rewrite He; destruct (lt x x) eqn:E; [by rewrite (pred_asym (pred := lt) x x E) in E|done]). split.
    + intros x Hx. rewrite <-P. apply elem_of_cons in Hx as [->|Hx]; [left|right; by eapply changes_in].
    + intros x Hx. rewrite <-P in Hx. apply elem_of_cons in Hx as [->|Hx]; [exists p; split; [left|done]|].
      destruct (changes_cover p mid x Hx) as (y & Hy & [H| ->]); eexists; (split; [exact Hy|done]).
Qed.
End deduplicated.

(** ** Instances and samples *)

#[export] Instance ltb_strict_weak : StrictWeak Z.ltb.
Proof. split; intros *; rewrite ?Z.ltb_lt, ?Z.ltb_ge; lia. Qed.

Lemma searches_correct_witness : exists lo hi, lower_bound Z.ltb [1; 3; 3; 5] 0 4 3 = Done lo /\ upper_bound Z.ltb [1; 3; 3; 5] 0 4 3 = Done hi /\ (lo, hi) = (1, 3)%nat.
Proof.
  assert (Hs : sorted_range Z.ltb [1; 3; 3; 5] 0 4).
  { intros i j x y Hi Hj Hx Hy. apply Z.ltb_ge. do 4 (destruct i as [|i]; [do 4 (destruct j as [|j]; [cbn in *; simplify_eq; lia|]); cbn in *; lia|]). lia. }
  destruct (searches_correct Z.ltb _ [1; 3; 3; 5] 0 4 3 ltac:(cbn; lia) Hs) as (lo & hi & H1 & H2 & _). exists lo, hi. split; [exact H1|]. split; [exact H2|].
  vm_compute in H1, H2. congruence.
Defined.

(** The overload with an ordering steps over the elements that the ordering puts
    behind the value, so nothing lies below 0 and all are skipped. *)
Example upper_bound_comp_skips : upper_bound Z.ltb [1; 2; 3] 0 3 0 = Done 0%nat /\ upper_bound_comp Z.ltb [1; 2; 3] 0 3 0 = Done 3%nat.
Proof. vm_compute. auto. Qed.

(** The overload with an ordering searches by [<]: what is sorted downwards is
    not found. *)
Example binary_search_comp_misses : binary_search (flip Z.ltb) [3; 2; 1] 0 3 3 = Done true /\ binary_search_comp Z.ltb (flip Z.ltb) [3; 2; 1] 0 3 3 = Done false.
Proof. vm_compute. auto. Qed.

Example partition_sample : partition Z.odd [9; 2; 3; 4; 5; 8] 1 5 = Done ([9; 3; 5; 4; 2; 8], 3%nat).
Proof. reflexivity. Qed.

Example remove_if_sample : remove_if Z.odd [9; 2; 3; 4; 5; 8] 1 6 = Done ([9; 2; 4; 8; 5; 8], 4%nat).
Proof. reflexivity. Qed.

Example deduplicate_sample : deduplicate Z.ltb Z.eqb [5; 1; 4; 1; 5; 9; 2; 6; 5] = Done [1; 2; 4; 5; 6; 9].
Proof. reflexivity. Qed.
